(* ===== verification/_CoqProject ===== *)
-Q . S2P
Prelude.v
RustStr.v
DomainErrors.v
Authorization.v
DrivePolicies.v
Moka.v
AclDb.v
AuthzPort.v
AclEngine.v
AclSpec.v
AclTheorems.v
AclWrites.v
AclClaims.v
StoragePath.v
HttpErrors.v
WebdavLocks.v
WebdavIf.v
WriteGate.v
WopiLocks.v
AuthStores.v
DriveMembers.v
ChunkedUpload.v
BlobBackend.v
EncryptedBlob.v
BlobDecorators.v
BlobCache.v
SubjectGroups.v
GroupFacts.v
GroupTheorems.v
BlobDb.v
BlobCount.v
BlobHandler.v
BlobInv.v
BlobCmds.v
BlobSafety.v
BlobIngest.v
BlobTheorems.v
BlobReads.v
BlobTotal.v
BlobGc.v
BlobClaims.v
JobStore.v
JobTheorems.v
JobClaims.v
FolderDb.v
FolderRepo.v
StorageUsage.v
FolderService.v
FolderTree.v
FolderInv.v
FolderOps.v
FolderMoves.v
FolderRetention.v
FolderClaims.v
QuotaClaims.v
SessionDb.v
SessionTokens.v
SessionService.v
SessionDevice.v
SessionPool.v
SessionSafety.v
SessionSerial.v
SessionFlow.v
SessionClaims.v
Principals.v
ShareDb.v
ShareCookies.v
ShareService.v
ShareDownloads.v
ShareVisitors.v
ShareOps.v
ShareClaims.v
ClientAddr.v
DpopProof.v
AppPasswords.v
AppPasswordClaims.v
RequestGates.v
GateClaims.v
CollabSession.v
CollabClaims.v
