(* ===== verification/Prelude.v ===== *)
(** * OxiCloud: a verification development

    OxiCloud is a self-hosted file server: a web API, a WebDAV server and an office (WOPI) host
    in front of one PostgreSQL database and a blob store.  This library models the parts of it
    that decide who may do what and that keep concurrent clients from damaging each other's
    data, and proves what they promise.  Paths below are relative to [src/src/] of the
    repository.

    ** The parts and how they interact

    Every request passes gates ([interfaces/middleware]) that find out who sends it, from an
    access token, a session cookie, an app password or the ring of share links of a visitor, and
    that limit its rate, on its way to a handler ([interfaces/api/handlers]).  A handler checks
    the request against the locks of the protocol it arrived by (WebDAV or WOPI), asks the
    authorization engine for permission, and calls a service.  The engine answers from seven
    caches in front of the grant, folder, file, group and drive tables, and refuses writes
    while a drive is read-only or the backend write gate is held.  A service that changes
    grants goes through the engine, which drops the cached decisions the change could affect.
    File content arrives through upload sessions; the blob handler cuts it into chunks, stores
    each chunk once under its hash in a stack of blob backends that wrap one another, and counts
    the references to chunks and manifests, which its collector and the reclaim job take away
    again.  Folders live in tables whose triggers keep a path and an ancestor list per row; the
    folder and trash services change them and ask the storage usage service for room.
    Share links grant a token of their own through the engine.  Text documents are edited in
    common by actors that merge what clients type and flush the text into the file.
    Maintenance runs as recoverable jobs, whose runs survive restarts in a table.  Errors travel
    as domain errors and become HTTP responses at the boundary.

    ** Files

    - [Prelude]: this header; results, the state-and-error monad [M] that stands for
      [async fn(&self) -> Result], machine integers, shared tactics, hint databases and lemmas.
    - [RustStr]: the [str] methods of the standard library the code uses, on UTF-8 bytes.
    - [DomainErrors] ([domain/errors.rs]) and [HttpErrors] ([interfaces/errors.rs]): the error
      values and the responses they become.
    - [Authorization] ([domain/services/authorization.rs]): subjects, resources, permissions,
      roles, their bundles and their stored names.
    - [DrivePolicies] ([domain/entities/drive.rs], [update_policies] of
      [drive_pg_repository.rs]): policy bags, their resolution in Rust and in SQL, the
      strictness order, the policy gates.
    - [Moka]: the interface of the cache crate, a class with laws and one instance.
    - [AclDb]: the tables and the meaning of each SQL statement of the engine.
    - [AuthzPort] ([application/ports/authorization_ports.rs]): the trait as a class, its
      default methods, and the laws [AuthzLaws] its clients rely on.
    - [AclEngine] ([infrastructure/services/pg_acl_engine.rs]): the engine, operation by
      operation, over a state of tables, caches and a script of database faults.
    - [AclSpec], [AclTheorems], [AclWrites], [AclClaims]: the decision as a predicate on grants
      ([granted], [frozen]), the refinement of it by the engine, the effect of grant writes, and
      the claims.  [AclSpec] proves that the engine is an instance of [AuthzLaws].
    - [StoragePath] ([domain/services/path_service.rs]): names and paths.
    - [WebdavLocks] ([webdav_lock_service.rs]) and [WebdavIf] ([webdav_handler.rs]): the lock
      store, the [If:] header, the lock gate, UNLOCK.
    - [WriteGate] ([application/services/backend_write_gate.rs]): the gate as sequential
      operations and as interleaved thread steps.
    - [WopiLocks] ([application/services/wopi_lock_service.rs]): office locks.
    - [AuthStores] ([login_lockout_service.rs], [rt_ticket_store.rs], [dpop_replay_cache.rs]):
      the stores of the login and session code.
    - [DriveMembers] ([drive_management_service.rs], [revoke_grant] of [grant_handler.rs]):
      membership of shared drives, on top of the engine.
    - [SubjectGroups] ([subject_group_service.rs], [subject_group_pg_repository.rs],
      [domain/entities/subject_group.rs]), [GroupFacts], [GroupTheorems]: groups of users and
      groups, on top of the engine; what their recursive queries compute; the claims.
    - [ChunkedUpload] ([chunked_upload_service.rs]; the chunk request of
      [chunked_upload_handler.rs] with [stream_body_to_path] of [upload_ingest.rs]): upload
      sessions.
    - [BlobBackend] ([application/ports/blob_storage_ports.rs], [local_blob_backend.rs],
      [swappable_blob_backend.rs]): the port of the blob backends as a class, its contract as the
      class [BackendLaws] (whose unsynced put may also rewrite an object that is there, as the
      cloud backends do), two classes for what only some backends promise ([ReplaceLaws]: the
      rewrite replaces; [AtomicPuts]: a failed write leaves nothing or everything), the file
      backend as an instance, the hot-swap wrapper.
    - [EncryptedBlob] ([encrypted_blob_backend.rs], key pairs of [common/config.rs], the batch
      loop of [backend_rotate_service.rs]): the encrypting decorator, an instance of
      [BackendLaws] over any other, and key rotation.
    - [BlobDecorators] ([timeout_blob_backend.rs], [retry_blob_backend.rs]) and [BlobCache]
      ([cached_blob_backend.rs]): time limits, retries and the disk cache over any backend that
      keeps the contract.  [BlobDecorators] also states the port as a machine on contents
      ([Objects], [explained]), which the production stack refines.
    - [BlobDb] (the blob, manifest, file and reclaim tables and the statements of the next
      three), [BlobHandler] ([blob_handler.rs], [settle_one] of [backend_reclaim_service.rs], the
      writes of [file_blob_write_repository.rs]): deduplicated storage, each operation a program
      over atomic commands.  [BlobInv] interleaves programs and states the invariant of
      tables, backend and what the running programs hold; [BlobCount] and [BlobCmds] prove it
      command by command; [BlobSafety] and [BlobIngest] program by program, [BlobTheorems] for
      every schedule.  [BlobReads] is about reads, [BlobTotal] about success, [BlobGc] about the
      end of a collection, and [BlobClaims] has the claims.
    - [JobStore] ([infrastructure/scheduler/types.rs], [pg_job_store.rs], statuses and
      [run_or_resume] of [recoverable.rs]): job parameters, the table of runs and the life of a run; [JobTheorems] and [JobClaims] are about them.
    - [FolderDb] (the folder, file and drive tables of [src/migrations/] with their triggers,
      unique indexes and cascades, and the statements of the next file), [FolderRepo]
      ([folder_db_repository.rs], the trash half of [file_blob_write_repository.rs],
      [trash_db_repository.rs]), [FolderService] ([folder_service.rs], [trash_service.rs]):
      folders, the trash and its retention.  [FolderTree] is the invariant of the tables, and
      what the triggers and cascades make of it; [FolderInv] proves that every statement keeps
      it, [FolderOps] that every request does; [FolderMoves] is about lookups by path and the
      exact effect of moves and of the trash, [FolderRetention] about the
      retention sweep; [FolderClaims] has the claims.
    - [StorageUsage] ([storage_usage_service.rs]) and [QuotaClaims]: counters of used bytes,
      their reconciliation, and the checks against quotas.
    - [SessionDb] (the tables of sessions, magic links and device codes, and the statements of
      [session_pg_repository.rs], [magic_link_token_pg_repository.rs] and
      [device_code_pg_repository.rs]), [SessionTokens] ([jwt_service.rs]), [SessionService] (the
      session half of [auth_application_service.rs], [session_cleanup_service.rs]),
      [SessionDevice] ([device_auth_service.rs]): each request a program over statements.
      [SessionPool] interleaves them; with [SessionSafety] it is about sessions and links under
      every interleaving; [SessionSerial] and [SessionFlow] are about requests one after another;
      [SessionClaims] has the claims.
    - [Principals] ([password_hasher.rs], [domain/entities/user.rs], lookups of
      [user_pg_repository.rs]): users, roles, and the hashing of passwords as a class.
    - [ShareDb] (the rows of links, [share_pg_repository.rs], the grants behind them),
      [ShareService] ([share_service.rs]), [ShareCookies] ([share_unlock_cookie.rs],
      [share_ring.rs]): public links.  [ShareDownloads] interleaves downloads of a limited link,
      [ShareVisitors] follows the links a browser opens, [ShareOps] the requests of owners;
      [ShareClaims] has the claims.
    - [ClientAddr] (headers, cookies, [trusted_proxy.rs], [rate_limit.rs]): what a request says of
      its sender; [DpopProof] ([dpop_verifier.rs], [dpop_nonce_service.rs]): proofs of possession;
      [AppPasswords] ([app_password_service.rs]) and [AppPasswordClaims]: app passwords and Basic
      authentication; [RequestGates] ([auth.rs], [csrf.rs], [dpop.rs], [user.rs],
      [anonymous_allowlist.rs] of [interfaces/middleware], the stacks of [main.rs]) and
      [GateClaims]: the gates and what passes them.
    - [CollabSession] ([collab_wire.rs], [collab_session_service.rs],
      [collab_doc_session_pg_repository.rs], reader and writer of [common/di.rs]) and
      [CollabClaims]: documents edited in common; a step is a message, a tick, an opening, or
      what others do.

    ** What the theorems show

    - Authorization: from any state whose caches agree with the tables, [check] grants exactly
      what live grants and the freezes say, under any faults; the batched check is the loop;
      [require] reveals nothing to a subject that cannot read; grant writes are seen by the next
      check and keep the caches right; purging is invisible; nested groups are resolved
      completely; tables and wire names agree.
    - Drives: the SQL view and the Rust resolution of policies agree after any patches; the
      drift report is sound; membership changes keep an owner.
    - Groups: as long as requests follow one another nesting stays acyclic and its queries end
      (overlapping additions can close a cycle, see the deviations); a membership change is seen by the next
      expansion of every user it concerns; a group with users keeps one under membership
      requests; deleting a group leaves no drive without an owner.
    - Paths: the one-string path refines a list of safe segments; all constructors agree.
    - Locks: an exclusive WebDAV lock excludes, lives and dies as promised; a write through the
      gate has presented the token of a lock on its path; the [If:] parser inverts its
      printer; the write gate is linearizable; a WOPI lock protects its holder.
    - Stores: lockout counts, tickets work once, proofs are accepted once.
    - Uploads: chunks partition the file, progress survives a restart; with chunk requests one
      after another, by the handler or by the older call, and whatever others send or fail,
      completion hands over exactly the bytes the owner sent, and succeeds when it should.
    - Blobs: the file backend keeps the contract of the port under file-system faults, and the
      encrypting decorator keeps it over any backend that does; what was written under a key is
      readable as long as the key is kept; rotation keeps the plaintext every blob was stored from,
      whatever fails, except a legacy blob without header under a head without encryption.  Every
      sequence of calls of the port on the stack (hot-swap over retries over time limits over
      encryption) is explained by a plain map of contents, in which a rewrite may be skipped,
      since the wrappers do not forward it; with both time limits set, retries ride out an outage
      shorter than their number; the disk cache answers as the backend below as long as its own
      writes are whole.
    - Deduplication: under every interleaving in which no sweep takes what a running request
      holds, whatever fails and wherever requests are dropped, each recorded file stays readable
      with the bytes that were stored; a store names the content it read, returns it on every
      later read and range, and writes no chunk that is known; a collection ends with nothing
      left to collect; an object is unlinked only when nothing refers to it.
    - Jobs: every dispatch of a run has the arguments it was first dispatched with, a run ends as
      its handler reported, and the next trigger resumes it or starts a new one.
    - Folders: under any requests, one after another, and any database failures the tables stay a
      tree, as long as no folder is moved into itself; in a tree the stored ancestor lists and paths answer questions
      about parents and names; a move carries exactly its subtree and is refused exactly on a
      clash of names; trashing and restoring is the identity; the retention sweep ends and
      deletes exactly what is due, never on a read-only drive.
    - Quotas: reconciliation makes the counters exact and is idempotent, counters stay within
      their columns, the fused check of an upload is the two checks in sequence, and the checks
      are exact where nothing overflows.
    - Sessions: under every interleaving the rows of sessions only age, the token of a revoked
      session buys nothing, and a magic link is spent once.  With requests one after another a
      family has at most one live session, and signing out or presenting a used token, when the
      database answers that request, ends it for good; a refresh does exactly what its branches say; an approved device gets its tokens,
      once.  The cache of validations never changes the answer about an access token.
    - Shares: a limited link is downloaded at most as often as it allows, under every interleaving
      of requests; a created link opens its item at once; a deleted one opens nothing at once and in
      every later check, as long as its token had no other grants; the links of
      others look like links that are not there; the ring of a browser is its last ten links.
    - Gates: which requests reach a handler of the API or of the DAV surfaces, with which
      principal, and where a failed look-up of the user lets them pass; a visitor acts as its links and reads only; a session bound to a key needs a
      proof by that key; Basic authentication rests on a live password of the named user within
      the life of a cache entry; the limiter, with requests one after another and room in its cache,
      refuses exactly what ends a run of too many requests.
    - Documents: an acknowledged edit stays and is flushed or due as long as its actor runs; it is
      in the file after the first tick [debounce_max] later, unless the mark of its last
      flush is stale; what others write survives the sessions that were open.
    - Deviations: theorems that exhibit a run in which the code misses what its comments or its
      purpose say (roles that do not join, a missed invalidation, the second shared lock, the
      unguarded revocation, expired owners, lost failure counts, racing commits, half-written
      blobs that are never healed, legacy blobs lost by a rotation to plaintext, a truncated file
      served by the disk cache, a manifest collected before its file row, a reference released
      twice, a chunk lost by a long upload, the depth limit, racing additions and emptied parents
      of groups, runs that are cancelled after their end or go on after it, live content deleted
      with the trash, folders detached in a cycle, trashed bytes counted twice, sizes that wrap,
      families forked by overlapping refreshes, an approval undone by a poll, a logout token used
      up by a failure, an app password that outlives its revocation, a cookie hidden by one with a
      longer name, a file written from outside that the next editing session overwrites, presence
      without permission, a refused edit that stays, a part of a chunk left by a failed flush, an
      edit lost with its actor, an edit taken for flushed by a stale mark, a deleted link that
      still opens a drive it was granted).

    ** Choices

    The database is a value: a statement is a function of the tables and of [NOW()], and the
    driver fails when the fault script says so.  Time is an argument, in nanoseconds or in the
    unit of the source, and never runs backwards inside one operation where the code reads it
    twice.  Fuel appears only where it is bounded by the input: the recursive group query
    ([AclDb], as many rounds as there are group rows, enough for the fixpoint of any nesting),
    the [If:] parser ([WebdavIf], the length of the header, since every round consumes a byte),
    the walk to a locked ancestor ([WebdavIf], the length of the path), the chunks of a stream
    ([BlobBackend], the length of the data), the queries down the group nesting ([SubjectGroups],
    rounds by the number of rows; the depth query, which may not end, says so), trimming ([RustStr], the
    length of the string) and decimal printing (the number of binary digits).  That it is enough
    is part of the theorems: [groups_for_user_transitive], [parse_lists_fuel],
    [ancestor_lock_spec], [chunks_of_concat], [descendants_spec], [sql_depth_total], [dec_digits_spec].
    The sweeps of the collector take bounds [fuel] and [loops]; [BlobGc] proves that every value
    above the number of rows gives the same result.  The loop of the retention sweep takes as
    many rounds as it is given; [retention_is_exact] says that more than there are rows is
    enough.  The cascade of a deletion runs for as many rounds as there are folders, which
    reaches its fixpoint ([doomed_closed]).  Retries recurse on the attempts left.
    Requests against the blob store interleave at SQL statements, backend calls and cache
    accesses; an [orderly] schedule is one in which no sweep takes away what another running
    request holds, and the deviations show that other schedules do lose data.  Requests about
    sessions interleave at statements too; a random draw is the next of a counter, so that draws
    never repeat.  In shares a call of the engine is one step, and the two calls the landing page
    makes at once run in sequence; time stands still during a request at the gates.  Arithmetic
    of addresses and prefixes wraps as in a release build.  The generator of Nextcloud passwords
    takes fuel for its draws; [generator_ends] says how much is enough.  An actor's message is
    handled with the acts of others between its calls, given as a script; messages, ticks and
    openings come in any order.  Integers are [Z] with their bounds as
    hypotheses where the width matters.  Crates (cache, cipher, hashes, UUID text, serde,
    Unicode tables) are classes or section variables with the laws their documentation gives.

    ** Not modelled

    Concurrent batching of parent lookups in the engine, counters, logs and the message bus;
    CalDAV, CardDAV and the Nextcloud protocol; search, media, thumbnails, playlists and photos;
    OIDC, OPAQUE, registration, the hooks of logins, listings of sessions, invitations by mail;
    of shares the flush of the search cache, the bound on concurrent hashing and the pages; of the
    gates audit and metrics, the locale and server-status layers and the gate of the Nextcloud
    routes; the text of addresses; of documents the socket and the bound of the broadcast
    channel; of the blob handler the re-chunking of legacy blobs, delta
    uploads beyond their loose chunks, content facts, hooks, statistics, integrity scans and the
    roll-back that a dropped ingest spawns; storing from a path, enumeration, durability sweeps
    and health checks of the backends; the S3 and Azure backends, which are calls to client
    libraries; migration of blobs; listings and search of folders, external mounts, copies of
    trees, stamps and etags; the clock of the scheduler, its registry and its alerts;
    configuration, the command line and the front end.

    ** Plan

    Next: byte ranges and conditional requests, delta uploads, the scheduler with its registry,
    copies of folder trees, moves together with the caches of the authorization engine, re-chunking, and the
    concurrent parent lookup. *)

From Stdlib Require Export ZArith Lia.
From stdpp Require Export base gmap sets list strings numbers.

#[global] Set Default Goal Selector "!".

Declare Scope rust_scope.
Delimit Scope rust_scope with rust.
Open Scope rust_scope.

(** ** Rust values *)

(** A [&str] / [String] is its sequence of UTF-8 bytes, and a byte is an integer: the same
    type serves [&[u8]], so [as_bytes] is the identity. *)
Abbreviation byte := Z.
Abbreviation bytes := (list Z).
Abbreviation str := (list Z).

(** A 128-bit identifier; only equality and hashing of it are used. *)
Abbreviation Uuid := N.

(** A string literal of the source, as its bytes. *)
Definition lit (s : string) : str :=
  (fun c => Z.of_N (Ascii.N_of_ascii c)) <$> String.list_ascii_of_string s.
Arguments lit s%_string_scope.

Definition is_byte (b : byte) : Prop := (0 <= b < 256)%Z.

(** ** Results *)

(** [Result<T, E>] *)
Inductive result (E T : Type) : Type :=
| Ok (v : T)
| Err (e : E).
Arguments Ok {E T} v.
Arguments Err {E T} e.

#[global] Instance result_ret {E} : MRet (result E) := fun T v => Ok v.
#[global] Instance result_bind {E} : MBind (result E) := fun A B f m =>
  match m with Ok v => f v | Err e => Err e end.
#[global] Instance result_fmap {E} : FMap (result E) := fun A B f m =>
  match m with Ok v => Ok (f v) | Err e => Err e end.
#[global] Instance result_eq_dec `{EqDecision E, EqDecision T} : EqDecision (result E T).
Proof. solve_decision. Defined.

(** Like [injection], but without reducing the payload. *)
Lemma Ok_inj {E T} (a b : T) : @Ok E T a = Ok b -> a = b.
Proof. by intros [= ->]. Qed.
Definition result_ok {E T} (r : result E T) : option T :=
  match r with Ok v => Some v | Err _ => None end.
Definition map_err {E E' T} (f : E -> E') (r : result E T) : result E' T :=
  match r with Ok v => Ok v | Err e => Err (f e) end.
Definition ok_or {E T} (o : option T) (e : E) : result E T :=
  match o with Some v => Ok v | None => Err e end.
Definition is_ok {E T} (r : result E T) : bool :=
  match r with Ok _ => true | Err _ => false end.

(** ** A state monad with errors

    [async fn f(&self, ..) -> Result<T, E>] over interior state [S]: the state survives an
    error, as the caches and tables behind [&self] do. *)
Definition M (S E T : Type) : Type := S -> result E T * S.
#[global] Instance M_ret {S E} : MRet (M S E) := fun T v s => (Ok v, s).
#[global] Instance M_bind {S E} : MBind (M S E) := fun A B f m s =>
  match m s with
  | (Ok v, s') => f v s'
  | (Err e, s') => (Err e, s')
  end.
#[global] Instance M_fmap {S E} : FMap (M S E) := fun A B f m s =>
  match m s with (Ok v, s') => (Ok (f v), s') | (Err e, s') => (Err e, s') end.
Definition raise {S E T} (e : E) : M S E T := fun s => (Err e, s).
Definition gets {S E T} (f : S -> T) : M S E T := fun s => (Ok (f s), s).
Definition modify {S E} (f : S -> S) : M S E unit := fun s => (Ok tt, f s).
Definition lift {S E T} (r : result E T) : M S E T := fun s => (r, s).
(** [match m.await { .. }]: observe the result of [m] instead of propagating its error. *)
Definition attempt {S E T} (m : M S E T) : M S E (result E T) := fun s =>
  let (r, s') := m s in (Ok r, s').
Definition map_err_m {S E E' T} (f : E -> E') (m : M S E T) : M S E' T := fun s =>
  let (r, s') := m s in (map_err f r, s').

Lemma bind_ok {S E A B} (m : M S E A) (f : A -> M S E B) s v s' :
  m s = (Ok v, s') -> (m ≫= f) s = f v s'.
Proof. unfold mbind, M_bind. by intros ->. Qed.
Lemma bind_err {S E A B} (m : M S E A) (f : A -> M S E B) s e s' :
  m s = (Err e, s') -> (m ≫= f) s = (Err e, s').
Proof. unfold mbind, M_bind. by intros ->. Qed.
Lemma bind_inv {S E A B} (m : M S E A) (f : A -> M S E B) s r s'' :
  (m ≫= f) s = (r, s'') ->
  (exists v s', m s = (Ok v, s') /\ f v s' = (r, s'')) \/
  (exists e, m s = (Err e, s'') /\ r = Err e).
Proof.
  unfold mbind, M_bind. destruct (m s) as [[v|e] s'] eqn:Hm; intros H.
  - left. eauto.
  - right. exists e. by simplify_eq.
Qed.
Lemma attempt_inv {S E A B} (m : M S E A) (f : result E A -> M S E B) s r s'' :
  (attempt m ≫= f) s = (r, s'') -> exists v s', m s = (v, s') /\ f v s' = (r, s'').
Proof. unfold mbind, M_bind, attempt. destruct (m s) as [v s']. eauto. Qed.

(** Unfolding the monad: what a proof about one concrete run needs. *)
Ltac unfold_m := unfold gets, modify, lift, ok_or, raise, mret, M_ret, mbind, M_bind.
Tactic Notation "unfold_m" "in" hyp(H) :=
  unfold gets, modify, lift, ok_or, raise, mret, M_ret, mbind, M_bind in H.

(** The databases of the development: [rust] resolves side conditions of the shared lemmas,
    [answers] (filled by the authorization engine) the queries an operation makes. *)
Create HintDb rust.
Create HintDb answers.
#[export] Hint Resolve bind_ok bind_err : rust.

(** ** Machine integers *)

Definition u8_max : Z := 255.
Definition u32_max : Z := 4294967295.
Definition u64_max : Z := 18446744073709551615.
Definition i64_max : Z := 9223372036854775807.
Definition i64_min : Z := -9223372036854775808.
Definition in_u32 (n : Z) : Prop := (0 <= n <= u32_max)%Z.
Definition in_u64 (n : Z) : Prop := (0 <= n <= u64_max)%Z.
Definition in_i64 (n : Z) : Prop := (i64_min <= n <= i64_max)%Z.
#[global] Instance in_u32_dec n : Decision (in_u32 n) := _.
#[global] Instance in_u64_dec n : Decision (in_u64 n) := _.
#[global] Instance in_i64_dec n : Decision (in_i64 n) := _.
(** [usize] is 64 bits wide on every supported target. *)
Abbreviation usize_max := u64_max.

Definition wrap_u32 (n : Z) : Z := (n mod 4294967296)%Z.
Definition wrap_u64 (n : Z) : Z := (n mod 18446744073709551616)%Z.
(** [a.saturating_sub(b)] on an unsigned type. *)
Definition saturating_sub (a b : Z) : Z := Z.max 0 (a - b).
(** [a.div_ceil(b)] for [b > 0]. *)
Definition div_ceil (a b : Z) : Z := ((a + b - 1) / b)%Z.
Infix "⊖" := saturating_sub (at level 50, left associativity) : rust_scope.
Infix "⌈/⌉" := div_ceil (at level 40, left associativity) : rust_scope.

Lemma div_ceil_spec a b : (0 < b -> (div_ceil a b - 1) * b < a <= div_ceil a b * b)%Z.
Proof. unfold div_ceil. intros. pose proof (Z.div_mod (a + b - 1) b). pose proof (Z.mod_pos_bound (a+b-1) b). nia. Qed.

(** ** Generic lemmas *)

#[export] Hint Resolve list_elem_of_lookup_2 lookup_lt_Some : rust.

Lemma size_list_to_set_le `{Countable A} (l : list A) :
  (size (list_to_set l : gset A) <= length l)%nat.
Proof.
  induction l as [|x l IH]; cbn [list_to_set length foldr]; [by rewrite (size_empty (C:=gset A))|].
  pose proof (size_union_alt {[x]} (list_to_set l : gset A)) as Hu.
  pose proof (subseteq_size (list_to_set l ∖ {[x]}) (list_to_set l : gset A) ltac:(set_solver)).
  rewrite Hu, size_singleton. lia.
Qed.

Lemma existsb_false {A} (f : A -> bool) l :
  existsb f l = false <-> forall x, x ∈ l -> f x = false.
Proof.
  induction l as [|y l IH]; simpl.
  - split; [|done]. intros _ x Hx. by apply not_elem_of_nil in Hx.
  - rewrite orb_false_iff, IH. split.
    + intros [Hy Hl] x. rewrite elem_of_cons. intros [->|Hx]; auto.
    + intros Hl. split; [apply Hl; by left|]. intros x Hx. apply Hl. by right.
Qed.
Lemma existsb_true {A} (f : A -> bool) l :
  existsb f l = true <-> exists x, x ∈ l ∧ f x = true.
Proof. rewrite existsb_exists. by setoid_rewrite list_elem_of_In. Qed.
Lemma existsb_ext_in {A} (f g : A -> bool) l :
  (forall x, x ∈ l -> f x = g x) -> existsb f l = existsb g l.
Proof.
  induction l as [|y l IH]; intros Hl; simpl; [done|].
  rewrite (Hl y) by by left. f_equal. apply IH. intros x Hx. apply Hl. by right.
Qed.
Lemma filter_complement_length {A} (f : A -> bool) (l : list A) :
  (length (filter (fun x => f x = true) l) + length (filter (fun x => f x = false) l)
   = length l)%nat.
Proof.
  induction l as [|x l IH]; [done|]. rewrite !filter_cons.
  destruct (f x); simpl; rewrite ?decide_True, ?decide_False by done; simpl; lia.
Qed.

(** An inflationary iteration inside a finite set stabilises within its cardinality. *)
Lemma iter_stabilises (f : gset Uuid -> gset Uuid) (U : gset Uuid) :
  (forall s, s ⊆ f s) -> (forall s, s ⊆ U -> f s ⊆ U) ->
  forall n s, s ⊆ U -> (size U <= n + size s)%nat ->
  f (Nat.iter n f s) ⊆ Nat.iter n f s.
Proof.
  intros Hinf HU.
  assert (Hfix : forall n s, f s ⊆ s -> f (Nat.iter n f s) ⊆ Nat.iter n f s).
  { intros n s Hs. assert (Nat.iter n f s = s) as ->; [|done].
    induction n as [|n IH]; simpl; [done|]. rewrite IH. apply set_eq. set_solver. }
  induction n as [|n IH]; intros s Hs Hsz.
  - simpl. assert (s = U) as ->; [|by apply HU].
    apply leibniz_equiv, set_subseteq_size_equiv; [done|lia].
  - destruct (decide (f s ⊆ s)) as [Hd|Hd]; [by apply Hfix|].
    rewrite Nat.iter_succ_r. apply IH; [by apply HU|].
    assert (size s < size (f s))%nat; [|lia].
    apply subset_size. split; [apply Hinf|done].
Qed.
