(* ===== verification/RustStr.v ===== *)
(** * String operations of the Rust standard library

    The [str] methods the modelled code calls, on UTF-8 byte sequences.  Splitting and
    searching for an ASCII character work byte by byte because no byte of a multi-byte
    UTF-8 sequence is below 128. *)

From S2P Require Import Prelude.

Section ops.
Local Open Scope Z_scope.

(** [s.contains(c)] for an ASCII character. *)
Definition str_contains (c : byte) (s : str) : bool := bool_decide (c ∈ s).

(** [s.split(c)]: always at least one piece. *)
Fixpoint split (c : byte) (s : str) : list str :=
  match s with
  | [] => [[]]
  | x :: s' =>
      if decide (x = c) then [] :: split c s'
      else match split c s' with
           | [] => [[x]]
           | p :: ps => (x :: p) :: ps
           end
  end.

(** The inverse of [split]: pieces with the separator between them. *)
Fixpoint join (c : byte) (ps : list str) : str :=
  match ps with
  | [] => []
  | [p] => p
  | p :: ps' => p ++ c :: join c ps'
  end.

(** [s.strip_prefix(p)] *)
Fixpoint strip_prefix (p s : str) : option str :=
  match p, s with
  | [], _ => Some s
  | x :: p', y :: s' => if decide (x = y) then strip_prefix p' s' else None
  | _ :: _, [] => None
  end.
Definition starts_with (p s : str) : bool :=
  match strip_prefix p s with Some _ => true | None => false end.

(** [s.split_once(c)] *)
Fixpoint split_once (c : byte) (s : str) : option (str * str) :=
  match s with
  | [] => None
  | x :: s' =>
      if decide (x = c) then Some ([], s')
      else '(a, b) ← split_once c s'; Some (x :: a, b)
  end.

(** [s.contains("..")] for a non-empty pattern. *)
Fixpoint str_contains_str (p s : str) : bool :=
  starts_with p s || match s with [] => false | _ :: s' => str_contains_str p s' end.

(** [s.rsplit(c).next()] and the part before it: [None] when [c] does not occur. *)
Fixpoint rsplit_once (c : byte) (s : str) : option (str * str) :=
  match s with
  | [] => None
  | x :: s' =>
      match rsplit_once c s' with
      | Some (a, b) => Some (x :: a, b)
      | None => if decide (x = c) then Some ([], s') else None
      end
  end.

Definition ascii_lower (b : byte) : byte := if decide (65 <= b <= 90) then b + 32 else b.
Definition to_ascii_lowercase (s : str) : str := ascii_lower <$> s.
Definition eq_ignore_ascii_case (a b : str) : bool :=
  bool_decide (to_ascii_lowercase a = to_ascii_lowercase b).
Definition is_ascii (s : str) : bool := forallb (fun b => b <? 128) s.

(** The UTF-8 encodings of the characters with property White_Space. *)
Definition whitespace : list str :=
  [[9]; [10]; [11]; [12]; [13]; [32]; [194; 133]; [194; 160]; [225; 154; 128];
   [226; 128; 128]; [226; 128; 129]; [226; 128; 130]; [226; 128; 131]; [226; 128; 132];
   [226; 128; 133]; [226; 128; 134]; [226; 128; 135]; [226; 128; 136]; [226; 128; 137];
   [226; 128; 138]; [226; 128; 168]; [226; 128; 169]; [226; 128; 175]; [226; 129; 159];
   [227; 128; 128]].

Fixpoint strip_any (ps : list str) (s : str) : option str :=
  match ps with
  | [] => None
  | p :: ps' => match strip_prefix p s with Some r => Some r | None => strip_any ps' s end
  end.
(** The fuel is the length of the string: every round removes at least one byte. *)
Fixpoint trim_with (fuel : nat) (ps : list str) (s : str) : str :=
  match fuel with
  | O => s
  | S fuel' => match strip_any ps s with Some r => trim_with fuel' ps r | None => s end
  end.
Definition trim_start (s : str) : str := trim_with (length s) whitespace s.
Definition trim_end (s : str) : str :=
  reverse (trim_with (length s) (reverse <$> whitespace) (reverse s)).
(** [s.trim()] *)
Definition trim (s : str) : str := trim_end (trim_start s).

(** [s.trim_start_matches(p)], [s.trim_end_matches(p)] for a non-empty pattern. *)
Definition trim_start_matches (p s : str) : str := trim_with (length s) [p] s.
Definition trim_end_matches (p s : str) : str :=
  reverse (trim_with (length s) [reverse p] (reverse s)).
(** [s.trim_matches(c)] *)
Definition trim_matches (c : byte) (s : str) : str := trim_end_matches [c] (trim_start_matches [c] s).

(** [format!("{}", n)] for an unsigned integer.  The fuel is the number of binary digits. *)
Fixpoint dec_digits (fuel : nat) (n : Z) : str :=
  match fuel with
  | O => [48 + n]
  | S fuel' => if n <? 10 then [48 + n] else dec_digits fuel' (n / 10) ++ [48 + n mod 10]
  end.
Definition dec (n : Z) : str := dec_digits (Z.to_nat (Z.log2 n + 1)) n.

(** [String::from_utf8] *)
Definition utf8_range (lo hi b : byte) : bool := ((lo <=? b) && (b <=? hi))%Z.
Fixpoint is_utf8 (fuel : nat) (s : list byte) : bool :=
  match fuel with
  | O => bool_decide (s = [])
  | S fuel =>
      match s with
      | [] => true
      | a :: t =>
          if (a <? 128)%Z then is_utf8 fuel t
          else if utf8_range 194 223 a then match t with b :: t => utf8_range 128 191 b && is_utf8 fuel t | _ => false end
          else if utf8_range 224 239 a then
            match t with
            | b :: c :: t => utf8_range (if decide (a = 224%Z) then 160 else 128) (if decide (a = 237%Z) then 159 else 191) b
                             && utf8_range 128 191 c && is_utf8 fuel t
            | _ => false
            end
          else if utf8_range 240 244 a then
            match t with
            | b :: c :: d :: t => utf8_range (if decide (a = 240%Z) then 144 else 128) (if decide (a = 244%Z) then 143 else 191) b
                                  && utf8_range 128 191 c && utf8_range 128 191 d && is_utf8 fuel t
            | _ => false
            end
          else false
      end
  end.
Definition from_utf8 (s : list byte) : option str := if is_utf8 (length s) s then Some s else None.

Definition is_digit (b : byte) : bool := (48 <=? b) && (b <=? 57).
Definition horner (acc : Z) (s : str) : Z := foldl (fun a b => a * 10 + (b - 48)) acc s.
(** The digits of [s] as a number; [None] for the empty string or a non-digit. *)
Definition parse_digits (s : str) : option Z :=
  match s with
  | [] => None
  | _ => if forallb is_digit s then Some (horner 0 s) else None
  end.
(** [s.parse::<uN>().ok()] for the unsigned type with largest value [max]: an optional
    ['+'], then digits, refused when the value overflows. *)
Definition parse_unsigned (max : Z) (s : str) : option Z :=
  let body := match strip_prefix [43] s with Some r => r | None => s end in
  n ← parse_digits body; if n <=? max then Some n else None.
Definition parse_u64 : str -> option Z := parse_unsigned u64_max.
(** [s.parse::<i64>().ok()] *)
Definition parse_i64 (s : str) : option Z :=
  match s with
  | 45 :: body => n ← parse_digits body; if i64_min <=? - n then Some (- n) else None
  | _ => parse_unsigned i64_max s
  end.
End ops.

(** ** Splitting and joining *)

Lemma split_not_nil c s : split c s ≠ [].
Proof. destruct s as [|x s]; simpl; [done|]. case_decide; [done|]. by destruct (split c s). Qed.

Lemma join_split c s : join c (split c s) = s.
Proof.
  induction s as [|x s IH]; simpl; [done|]. case_decide as Hx.
  - subst. destruct (split c s) as [|p ps] eqn:E; [by apply split_not_nil in E|].
    simpl. by rewrite <- IH.
  - destruct (split c s) as [|p ps] eqn:E; [by apply split_not_nil in E|].
    destruct ps; simpl in *; by f_equal.
Qed.

Lemma split_pieces_clean c s p : p ∈ split c s -> c ∉ p.
Proof.
  revert p. induction s as [|x s IH]; intros p; simpl.
  - rewrite list_elem_of_singleton. intros ->. apply not_elem_of_nil.
  - case_decide as Hx.
    + rewrite elem_of_cons. intros [->|H]; [apply not_elem_of_nil|eauto].
    + destruct (split c s) as [|q qs] eqn:E; [by apply split_not_nil in E|].
      rewrite elem_of_cons. intros [->|H]; [|apply IH; by right].
      rewrite not_elem_of_cons. split; [done|]. apply IH. by left.
Qed.

Lemma split_clean c p : c ∉ p -> split c p = [p].
Proof.
  induction p as [|x p IH]; intros H; simpl; [done|].
  apply not_elem_of_cons in H as [Hx Hp]. rewrite decide_False by done. by rewrite IH.
Qed.

Lemma split_app_sep c p s : c ∉ p -> split c (p ++ c :: s) = p :: split c s.
Proof.
  induction p as [|x p IH]; intros H; simpl.
  - by rewrite decide_True.
  - apply not_elem_of_cons in H as [Hx Hp]. rewrite decide_False by done. by rewrite IH.
Qed.

Lemma split_join c ps :
  ps ≠ [] -> Forall (fun p => c ∉ p) ps -> split c (join c ps) = ps.
Proof.
  intros Hne Hall. induction ps as [|p ps IH]; [done|]. clear Hne.
  apply Forall_cons_1 in Hall as [Hp Hps]. destruct ps as [|q qs].
  - simpl. by apply split_clean.
  - change (join c (p :: q :: qs)) with (p ++ c :: join c (q :: qs)).
    rewrite split_app_sep by done. f_equal. by apply IH.
Qed.

Lemma strip_prefix_Some p s r : strip_prefix p s = Some r <-> s = p ++ r.
Proof.
  revert s. induction p as [|x p IH]; intros s; simpl.
  - split; [by intros [= ->]|by intros ->].
  - destruct s as [|y s]; [done|]. case_decide as H.
    + subst. rewrite IH. split; [by intros ->|by intros [= ->]].
    + split; [done|]. intros [= -> _]. done.
Qed.
Lemma strip_prefix_app p r : strip_prefix p (p ++ r) = Some r.
Proof. by apply strip_prefix_Some. Qed.

Lemma split_once_app c a b : c ∉ a -> split_once c (a ++ c :: b) = Some (a, b).
Proof.
  induction a as [|x a IH]; intros H; simpl; [by rewrite decide_True|].
  apply not_elem_of_cons in H as [Hx Ha]. rewrite decide_False by done. by rewrite IH.
Qed.

Lemma rsplit_once_app c a b : c ∉ b -> rsplit_once c (a ++ c :: b) = Some (a, b).
Proof.
  intros Hb. assert (Hn : rsplit_once c b = None).
  { clear a. induction b as [|x b IH]; simpl; [done|].
    apply not_elem_of_cons in Hb as [Hx Hb]. rewrite IH by done. by rewrite decide_False. }
  induction a as [|x a IH]; simpl.
  - rewrite Hn. by rewrite decide_True.
  - by rewrite IH.
Qed.

(** ** Decimal numbers *)

Lemma horner_app acc a b : horner acc (a ++ b) = horner (horner acc a) b.
Proof. unfold horner. by rewrite foldl_app. Qed.

Lemma dec_digits_spec fuel n :
  (0 <= n < 2 ^ Z.of_nat fuel)%Z ->
  forallb is_digit (dec_digits fuel n) = true ∧ horner 0 (dec_digits fuel n) = n
  ∧ dec_digits fuel n ≠ [].
Proof.
  revert n. induction fuel as [|fuel IH]; intros n Hn.
  - assert (n = 0)%Z as -> by (simpl in Hn; lia). done.
  - cbn [dec_digits]. destruct (Z.ltb_spec n 10).
    + split_and!; [|unfold horner; simpl; lia|done]. unfold is_digit; simpl. lia.
    + destruct (IH (n / 10)%Z) as (Hd & Hh & _).
      { split; [apply Z.div_pos; lia|]. rewrite Nat2Z.inj_succ, Z.pow_succ_r in Hn by lia.
        apply Z.div_lt_upper_bound; lia. }
      rewrite forallb_app, Hd, horner_app, Hh. unfold horner, is_digit; simpl.
      pose proof (Z.mod_pos_bound n 10). pose proof (Z.div_mod n 10).
      split_and!; [lia|lia|]. by destruct (dec_digits fuel (n / 10)%Z).
Qed.

Lemma dec_spec n :
  (0 <= n)%Z -> forallb is_digit (dec n) = true ∧ horner 0 (dec n) = n ∧ dec n ≠ [].
Proof.
  intros. apply dec_digits_spec. split; [done|].
  destruct (decide (n = 0)%Z) as [->|]; [done|].
  pose proof (Z.log2_spec n). pose proof (Z.log2_nonneg n).
  rewrite Z2Nat.id by lia. replace (Z.log2 n + 1)%Z with (Z.succ (Z.log2 n)) by lia. lia.
Qed.

Lemma parse_digits_dec n : (0 <= n)%Z -> parse_digits (dec n) = Some n.
Proof.
  intros Hn. destruct (dec_spec n Hn) as (Hd & Hh & Hne). unfold parse_digits.
  destruct (dec n); [done|]. by rewrite Hd, Hh.
Qed.

Lemma dec_head_digit n d s : (0 <= n)%Z -> dec n = d :: s -> is_digit d = true.
Proof. intros Hn E. destruct (dec_spec n Hn) as (Hd & _ & _). rewrite E in Hd. by apply andb_prop in Hd as [? _]. Qed.

(** Printing an integer and parsing it back. *)
Lemma parse_unsigned_dec max n : (0 <= n <= max)%Z -> parse_unsigned max (dec n) = Some n.
Proof.
  intros Hn. unfold parse_unsigned.
  destruct (strip_prefix [43%Z] (dec n)) as [r|] eqn:E.
  - apply strip_prefix_Some in E. by pose proof (dec_head_digit n 43 r ltac:(lia) E).
  - rewrite parse_digits_dec by lia. simpl. by destruct (Z.leb_spec n max); [|lia].
Qed.

Lemma dec_not_elem n c : (0 <= n)%Z -> is_digit c = false -> c ∉ dec n.
Proof.
  intros Hn Hc Hin. destruct (dec_spec n Hn) as (Hd & _ & _).
  rewrite forallb_forall in Hd. apply list_elem_of_In in Hin. by rewrite (Hd _ Hin) in Hc.
Qed.

(** ** Trimming *)
Lemma trim_with_none fuel ps s : strip_any ps s = None -> trim_with fuel ps s = s.
Proof. intros Hs. destruct fuel; simpl; [done|]. by rewrite Hs. Qed.
Lemma trim_start_visible b s : strip_any whitespace (b :: s) = None -> trim_start (b :: s) = b :: s.
Proof. apply trim_with_none. Qed.
Lemma trim_end_visible b s :
  strip_any (reverse <$> whitespace) (b :: reverse s) = None -> trim_end (s ++ [b]) = s ++ [b].
Proof.
  intros Hs. unfold trim_end. rewrite reverse_app. simpl.
  rewrite trim_with_none by exact Hs. change (b :: reverse s) with (reverse [b] ++ reverse s).
  by rewrite <- reverse_app, reverse_involutive.
Qed.
Lemma strip_any_none ps b s :
  Forall (fun p => head p ≠ None ∧ head p ≠ Some b) ps -> strip_any ps (b :: s) = None.
Proof.
  induction 1 as [|p ps [Hne Hb] _ IH]; simpl; [done|].
  destruct p as [|x p]; [done|]. simpl. rewrite decide_False; [done|]. intros ->. done.
Qed.
Definition visible (b : byte) : Prop := (33 <= b <= 126)%Z.
Lemma whitespace_heads b :
  visible b -> Forall (fun p => head p ≠ None ∧ head p ≠ Some b) whitespace
  ∧ Forall (fun p => head p ≠ None ∧ head p ≠ Some b) (reverse <$> whitespace).
Proof.
  intros Hb. unfold visible in Hb.
  assert (Hl : forall l, forallb (fun p => match head p with
      | Some x => ((x <? 33) || (126 <? x))%Z | None => false end) l = true ->
    Forall (fun p => head p ≠ None ∧ head p ≠ Some b) l).
  { intros l Hl. apply list.Forall_forall. intros p Hp. rewrite forallb_forall in Hl.
    apply list_elem_of_In in Hp. specialize (Hl p Hp). destruct (head p) as [x|]; [|done].
    split; [done|]. intros [= ->]. lia. }
  split; apply Hl; by vm_compute.
Qed.
(** A string whose first and last bytes are visible ASCII is its own trim. *)
Lemma trim_visible s b c :
  head s = Some b -> list.last s = Some c -> visible b -> visible c -> trim s = s.
Proof.
  intros Hh Hl Hb Hc. destruct s as [|x s]; [done|]. injection Hh as ->.
  unfold trim. rewrite trim_start_visible by (apply strip_any_none; by apply whitespace_heads).
  apply last_Some in Hl as (s' & ->). apply trim_end_visible, strip_any_none.
  by apply whitespace_heads.
Qed.
Lemma horner_nonneg l : forall acc, (0 <= acc)%Z -> forallb is_digit l = true -> (0 <= horner acc l)%Z.
Proof.
  induction l as [|x l IH]; [done|]. intros acc Ha [Hx Hl]%andb_prop. apply IH; [|done].
  unfold is_digit in Hx. lia.
Qed.
Lemma parse_digits_nonneg s n : parse_digits s = Some n -> (0 <= n)%Z.
Proof.
  unfold parse_digits. destruct s as [|b s]; [done|].
  destruct (forallb is_digit (b :: s)) eqn:E; [|done]. intros [= <-].
  by apply (horner_nonneg (b :: s) 0).
Qed.
Lemma parse_unsigned_nonneg max s n : parse_unsigned max s = Some n -> (0 <= n <= max)%Z.
Proof.
  unfold parse_unsigned. destruct (parse_digits _) as [m|] eqn:E; [|done]. simpl.
  apply parse_digits_nonneg in E. destruct (Z.leb_spec m max); [|done]. intros [= <-]. lia.
Qed.
Lemma dec_visible n b : (0 <= n)%Z -> b ∈ dec n -> visible b.
Proof.
  intros Hn Hb. destruct (dec_spec n Hn) as (Hd & _ & _). rewrite forallb_forall in Hd.
  apply list_elem_of_In in Hb. specialize (Hd b Hb). unfold is_digit, visible in *. lia.
Qed.
Lemma trim_dec n : (0 <= n)%Z -> trim (dec n) = dec n.
Proof.
  intros Hn. destruct (dec_spec n Hn) as (_ & _ & Hne).
  destruct (dec n) as [|b s] eqn:E; [done|]. destruct (list.last (b :: s)) as [c|] eqn:Hl.
  - apply (trim_visible _ b c); [done|done| |]; apply (dec_visible n); [done| |done|].
    + rewrite E. by left.
    + rewrite E. by apply last_Some_elem_of in Hl.
  - by apply last_None in Hl.
Qed.

(** ** The last occurrence of a byte *)
Lemma rsplit_once_Some c s a b : rsplit_once c s = Some (a, b) -> s = a ++ c :: b ∧ c ∉ b.
Proof.
  revert a. induction s as [|x s IH]; intros a; simpl; [done|].
  destruct (rsplit_once c s) as [[a' b']|] eqn:E.
  - intros [= <- <-]. destruct (IH a' eq_refl) as [-> Hb]. done.
  - case_decide; [|done]. intros [= <- <-]. subst x. split; [done|]. intros Hin.
    apply list_elem_of_split in Hin as (l1 & l2 & ->).
    clear IH. revert E. induction l1 as [|y l1 IH]; simpl.
    + destruct (rsplit_once c l2) as [[? ?]|]; [done|]. by rewrite decide_True.
    + destruct (rsplit_once c (l1 ++ c :: l2)) as [[? ?]|]; [done|]. by intros; apply IH.
Qed.
Lemma rsplit_once_None c s : rsplit_once c s = None -> c ∉ s.
Proof.
  intros Hn Hin. apply list_elem_of_split in Hin as (l1 & l2 & ->). revert Hn.
  induction l1 as [|y l1 IH]; simpl.
  - destruct (rsplit_once c l2) as [[? ?]|]; [done|]. by rewrite decide_True.
  - destruct (rsplit_once c (l1 ++ c :: l2)) as [[? ?]|]; [done|]. by intros; apply IH.
Qed.
(** A cut of the string is at the last separator or before it. *)
Lemma cut_before_last (c : byte) (q r a b : str) :
  q ++ c :: r = a ++ c :: b -> c ∉ b -> q = a ∨ exists r', a = q ++ c :: r'.
Proof.
  intros Heq Hb. apply app_eq_inv in Heq as [(k & -> & Hk)|(k & -> & Hk)].
  - destruct k as [|x k]; simpl in Hk; [left; by rewrite app_nil_r|].
    injection Hk as <- ->. exfalso. apply Hb. apply elem_of_app. right. by left.
  - destruct k as [|x k]; simpl in Hk; [left; by rewrite app_nil_r|].
    right. injection Hk as <- _. eauto.
Qed.
