(* ===== verification/DomainErrors.v ===== *)
(** * Domain errors

    [src/src/domain/errors.rs]: the error kinds, the error value every service returns and
    its constructors.  The boxed [source] of an error is not modelled; no decision of the
    program reads it. *)

From S2P Require Import Prelude.
From S2P Require Import RustStr.

Inductive ErrorKind :=
| NotFound | AlreadyExists | InvalidInput | AccessDenied | Timeout | TransientBackend
| InternalError | NotImplemented | UnsupportedOperation | DatabaseError | QuotaExceeded
| Conflict | PreconditionFailed | AccountDeactivated.
#[global] Instance ErrorKind_eq_dec : EqDecision ErrorKind.
Proof. solve_decision. Defined.

Module ErrorKind.
Definition wire_name (k : ErrorKind) : str :=
  match k with
  | NotFound => lit "NotFound"
  | AlreadyExists => lit "AlreadyExists"
  | InvalidInput => lit "InvalidInput"
  | AccessDenied => lit "AccessDenied"
  | Timeout => lit "Timeout"
  | TransientBackend => lit "TransientBackend"
  | InternalError => lit "InternalError"
  | NotImplemented => lit "NotImplemented"
  | UnsupportedOperation => lit "UnsupportedOperation"
  | DatabaseError => lit "DatabaseError"
  | QuotaExceeded => lit "QuotaExceeded"
  | Conflict => lit "Conflict"
  | PreconditionFailed => lit "PreconditionFailed"
  | AccountDeactivated => lit "AccountDeactivated"
  end.

Definition as_str (k : ErrorKind) : str :=
  match k with
  | NotFound => lit "Not Found"
  | AlreadyExists => lit "Already Exists"
  | InvalidInput => lit "Invalid Input"
  | AccessDenied => lit "Access Denied"
  | Timeout => lit "Timeout"
  | TransientBackend => lit "Transient Backend"
  | InternalError => lit "Internal Error"
  | NotImplemented => lit "Not Implemented"
  | UnsupportedOperation => lit "Unsupported Operation"
  | DatabaseError => lit "Database Error"
  | QuotaExceeded => lit "Quota Exceeded"
  | Conflict => lit "Conflict"
  | PreconditionFailed => lit "Precondition Failed"
  | AccountDeactivated => lit "Account Deactivated"
  end.
End ErrorKind.

Record DomainError := mkDomainError {
  kind : ErrorKind;
  entity_type : str;
  entity_id : option str;
  message : str;
}.
#[global] Instance DomainError_eq_dec : EqDecision DomainError.
Proof. solve_decision. Defined.

Module DomainError.
Definition new (k : ErrorKind) (ty msg : str) : DomainError := mkDomainError k ty None msg.
Definition not_found (ty id : str) : DomainError :=
  mkDomainError NotFound ty (Some id) (ty ++ lit " not found: " ++ id).
Definition already_exists (ty id : str) : DomainError :=
  mkDomainError AlreadyExists ty (Some id) (ty ++ lit " already exists: " ++ id).
Definition operation_not_supported (ty msg : str) : DomainError := new UnsupportedOperation ty msg.
Definition timeout (ty msg : str) : DomainError := mkDomainError Timeout ty None msg.
Definition transient_backend (ty msg : str) : DomainError :=
  mkDomainError TransientBackend ty None msg.
Definition is_transient (e : DomainError) : bool :=
  match kind e with Timeout | TransientBackend => true | _ => false end.
Definition internal_error (ty msg : str) : DomainError := mkDomainError InternalError ty None msg.
Definition access_denied (ty msg : str) : DomainError := mkDomainError AccessDenied ty None msg.
Definition validation_error (msg : str) : DomainError :=
  mkDomainError InvalidInput (lit "Validation") None msg.
Definition precondition_failed (ty msg : str) : DomainError :=
  mkDomainError PreconditionFailed ty None msg.
Definition quota_exceeded (msg : str) : DomainError :=
  mkDomainError QuotaExceeded (lit "Storage") None msg.
(** [impl Display]: ["{kind}: {message}"]. *)
Definition to_string (e : DomainError) : str := ErrorKind.as_str (kind e) ++ lit ": " ++ message e.
End DomainError.

(** The text forms of an identifier: the [uuid] crate's [Display], [simple] and [parse_str].
    The laws are the documented behaviour the code relies on: both printed forms parse back,
    and the simple form is 32 hexadecimal digits. *)
Class UuidText := {
  uuid_to_string : Uuid -> str;
  uuid_simple : Uuid -> str;
  uuid_parse : str -> option Uuid;
  uuid_parse_to_string u : uuid_parse (uuid_to_string u) = Some u;
  uuid_parse_simple u : uuid_parse (uuid_simple u) = Some u;
  uuid_simple_alnum u : Forall (fun b => (48 <= b <= 57 ∨ 97 <= b <= 102)%Z) (uuid_simple u);
}.

(** A model of the interface: decimal digits. *)
Definition decimal_uuid_text : UuidText.
Proof.
  refine {|
    uuid_to_string u := dec (Z.of_N u);
    uuid_simple u := dec (Z.of_N u);
    uuid_parse s := Z.to_N <$> parse_digits s;
  |}.
  - intros u. rewrite parse_digits_dec by lia. simpl. by rewrite N2Z.id.
  - intros u. rewrite parse_digits_dec by lia. simpl. by rewrite N2Z.id.
  - intros u. destruct (dec_spec (Z.of_N u) ltac:(lia)) as (Hd & _ & _).
    apply list.Forall_forall. intros b Hb. rewrite forallb_forall in Hd.
    apply list_elem_of_In in Hb. specialize (Hd b Hb). unfold is_digit in Hd. lia.
Defined.
