(* ===== verification/Authorization.v ===== *)
(** * Authorization domain types

    [src/src/domain/services/authorization.rs]: subjects, resources, permissions and roles,
    their SQL discriminators, and the role bundles. *)

From S2P Require Import Prelude.
From S2P Require Import RustStr.
From S2P Require Import DomainErrors.

Inductive Subject := User (id : Uuid) | Group (id : Uuid) | Token (id : Uuid).
Inductive Resource :=
| Folder (id : Uuid) | File (id : Uuid) | Drive (id : Uuid)
| Calendar (id : Uuid) | AddressBook (id : Uuid) | Playlist (id : Uuid).
Inductive Permission := Read | Create | Share | Comment | Delete | Update | Manage.
Inductive Role := Viewer | Commenter | Contributor | Editor | Owner.
Inductive ResourceKind := KFile | KFolder | KDrive.

#[global] Instance Subject_eq_dec : EqDecision Subject. Proof. solve_decision. Defined.
#[global] Instance Resource_eq_dec : EqDecision Resource. Proof. solve_decision. Defined.
#[global] Instance Permission_eq_dec : EqDecision Permission. Proof. solve_decision. Defined.
#[global] Instance Role_eq_dec : EqDecision Role. Proof. solve_decision. Defined.
#[global] Instance ResourceKind_eq_dec : EqDecision ResourceKind. Proof. solve_decision. Defined.

#[global] Instance Subject_countable : Countable Subject.
Proof.
  refine (inj_countable'
    (fun s => match s with User i => inl i | Group i => inr (inl i) | Token i => inr (inr i) end)
    (fun x => match x with inl i => User i | inr (inl i) => Group i | inr (inr i) => Token i end) _).
  by intros [].
Defined.
#[global] Instance Resource_countable : Countable Resource.
Proof.
  refine (inj_countable'
    (fun r => match r with
      | Folder i => (0, i) | File i => (1, i) | Drive i => (2, i)
      | Calendar i => (3, i) | AddressBook i => (4, i) | Playlist i => (5, i) end)
    (fun x => match x with
      | (0, i) => Folder i | (1, i) => File i | (2, i) => Drive i
      | (3, i) => Calendar i | (4, i) => AddressBook i | (_, i) => Playlist i end) _).
  by intros [].
Defined.
#[global] Instance Permission_countable : Countable Permission.
Proof.
  refine (inj_countable'
    (fun p => match p with Read => 0 | Create => 1 | Share => 2 | Comment => 3
              | Delete => 4 | Update => 5 | Manage => 6 end)
    (fun n => match n with 0 => Read | 1 => Create | 2 => Share | 3 => Comment
              | 4 => Delete | 5 => Update | _ => Manage end) _).
  by intros [].
Defined.

Module Subject.
Definition type_str (s : Subject) : str :=
  match s with User _ => lit "user" | Group _ => lit "group" | Token _ => lit "token" end.
Definition id (s : Subject) : Uuid := match s with User i | Group i | Token i => i end.
Definition user_id (s : Subject) : option Uuid :=
  match s with User i => Some i | Group _ | Token _ => None end.
Definition token_id (s : Subject) : option Uuid :=
  match s with Token i => Some i | User _ | Group _ => None end.
Definition from_parts (subject_type : str) (i : Uuid) : option Subject :=
  if decide (subject_type = lit "user") then Some (User i)
  else if decide (subject_type = lit "group") then Some (Group i)
  else if decide (subject_type = lit "token") then Some (Token i)
  else None.
End Subject.

Module Resource.
Definition type_str (r : Resource) : str :=
  match r with
  | Folder _ => lit "folder" | File _ => lit "file" | Drive _ => lit "drive"
  | Calendar _ => lit "calendar" | AddressBook _ => lit "address_book"
  | Playlist _ => lit "playlist"
  end.
Definition id (r : Resource) : Uuid :=
  match r with
  | Folder i | File i | Drive i | Calendar i | AddressBook i | Playlist i => i
  end.
Definition from_parts (resource_type : str) (i : Uuid) : option Resource :=
  if decide (resource_type = lit "folder") then Some (Folder i)
  else if decide (resource_type = lit "file") then Some (File i)
  else if decide (resource_type = lit "drive") then Some (Drive i)
  else if decide (resource_type = lit "calendar") then Some (Calendar i)
  else if decide (resource_type = lit "address_book") then Some (AddressBook i)
  else if decide (resource_type = lit "playlist") then Some (Playlist i)
  else None.
Definition parse `{UuidText} (item_type item_id : str) : result DomainError Resource :=
  match uuid_parse item_id with
  | None => Err (DomainError.new InvalidInput (lit "Resource")
                   (lit "Invalid item UUID '" ++ item_id ++ lit "'"))
  | Some uuid =>
      ok_or (from_parts item_type uuid)
        (DomainError.new InvalidInput (lit "Resource")
           (lit "Unsupported item type '" ++ item_type ++ lit "'"))
  end.
End Resource.

Module Permission.
Definition ALL : list Permission := [Read; Create; Share; Comment; Delete; Update; Manage].
Definition as_str (p : Permission) : str :=
  match p with
  | Read => lit "read" | Create => lit "create" | Share => lit "share"
  | Comment => lit "comment" | Delete => lit "delete" | Update => lit "update"
  | Manage => lit "manage"
  end.
Definition parse (s : str) : option Permission :=
  if decide (s = lit "read") then Some Read
  else if decide (s = lit "create") then Some Create
  else if decide (s = lit "share") then Some Share
  else if decide (s = lit "comment") then Some Comment
  else if decide (s = lit "delete") then Some Delete
  else if decide (s = lit "update") then Some Update
  else if decide (s = lit "manage") then Some Manage
  else None.
End Permission.

Module Role.
Definition expand (r : Role) : list Permission :=
  match r with
  | Viewer => [Read]
  | Commenter => [Read; Comment]
  | Contributor => [Read; Create]
  | Editor => [Read; Comment; Create; Update]
  | Owner => [Read; Comment; Create; Update; Share; Delete; Manage]
  end.
Definition as_str (r : Role) : str :=
  match r with
  | Viewer => lit "viewer" | Commenter => lit "commenter" | Contributor => lit "contributor"
  | Editor => lit "editor" | Owner => lit "owner"
  end.
Definition parse (s : str) : option Role :=
  if decide (s = lit "viewer") then Some Viewer
  else if decide (s = lit "commenter") then Some Commenter
  else if decide (s = lit "contributor") then Some Contributor
  else if decide (s = lit "editor") then Some Editor
  else if decide (s = lit "owner") then Some Owner
  else None.
Definition ALL : list Role := [Viewer; Commenter; Contributor; Editor; Owner].
End Role.

(** The inverse of [Role.expand]: every role whose bundle contains the permission. *)
Definition roles_implying (p : Permission) : list Role :=
  match p with
  | Read => [Viewer; Commenter; Contributor; Editor; Owner]
  | Comment => [Commenter; Editor; Owner]
  | Create => [Contributor; Editor; Owner]
  | Update => [Editor; Owner]
  | Delete => [Owner]
  | Share => [Owner]
  | Manage => [Owner]
  end.

(** A row of [storage.role_grants]; times are instants in microseconds. *)
Record Grant := mkGrant {
  g_id : Uuid;
  g_subject : Subject;
  g_resource : Resource;
  g_role : Role;
  g_granted_by : Uuid;
  g_granted_at : Z;
  g_expires_at : option Z;
}.
#[global] Instance Grant_eq_dec : EqDecision Grant. Proof. solve_decision. Defined.

Definition is_expired (now : Z) (g : Grant) : bool :=
  match g_expires_at g with Some exp => (exp <? now)%Z | None => false end.

Module ResourceKind.
Definition as_str (k : ResourceKind) : str :=
  match k with KFile => lit "file" | KFolder => lit "folder" | KDrive => lit "drive" end.
Definition parse (s : str) : option ResourceKind :=
  if decide (s = lit "file") then Some KFile
  else if decide (s = lit "folder") then Some KFolder
  else if decide (s = lit "drive") then Some KDrive
  else None.
End ResourceKind.

(** ** Properties *)

Lemma subject_roundtrip s : Subject.from_parts (Subject.type_str s) (Subject.id s) = Some s.
Proof. by destruct s. Qed.
Lemma resource_roundtrip r : Resource.from_parts (Resource.type_str r) (Resource.id r) = Some r.
Proof. by destruct r. Qed.
Lemma permission_roundtrip p : Permission.parse (Permission.as_str p) = Some p.
Proof. by destruct p. Qed.
Lemma role_roundtrip r : Role.parse (Role.as_str r) = Some r.
Proof. by destruct r. Qed.

Lemma subject_parts_inj s s' :
  Subject.type_str s = Subject.type_str s' -> Subject.id s = Subject.id s' -> s = s'.
Proof. intros H1 H2. apply (inj Some). rewrite <- !subject_roundtrip. by rewrite H1, H2. Qed.
Lemma resource_parts_inj r r' :
  Resource.type_str r = Resource.type_str r' -> Resource.id r = Resource.id r' -> r = r'.
Proof. intros H1 H2. apply (inj Some). rewrite <- !resource_roundtrip. by rewrite H1, H2. Qed.
Lemma role_as_str_inj r r' : Role.as_str r = Role.as_str r' -> r = r'.
Proof. intros H. apply (inj Some). by rewrite <- !role_roundtrip, H. Qed.

(** The two tables agree: a role is listed for a permission exactly when its bundle holds it. *)
Lemma roles_implying_expand r p : r ∈ roles_implying p <-> p ∈ Role.expand r.
Proof.
  transitivity (bool_decide (r ∈ roles_implying p) = true); [by rewrite bool_decide_eq_true|].
  transitivity (bool_decide (p ∈ Role.expand r) = true); [|by rewrite bool_decide_eq_true].
  by destruct r, p.
Qed.
