(* ===== verification/DrivePolicies.v ===== *)
(** * Drives and their policies

    [src/src/domain/entities/drive.rs]: drive kinds, the policy record, the per-drive
    overrides, their resolution against the default of the kind, the strictness order of
    the compliance scan, and the five policy gates.

    The derived [Deserialize] implementations are code generated by serde: they are the
    operations of the class [PolicyCodec], whose laws state what serde documents for a
    struct with [#[serde(default)]] read from a JSON object. *)

From S2P Require Import Prelude.
From S2P Require Import RustStr.
From S2P Require Import DomainErrors.
From S2P Require Import Authorization.

(** ** JSON values ([serde_json::Value], and the [jsonb] columns) *)
Inductive Value :=
| VNull
| VBool (b : bool)
| VNumber (n : Z)
| VFloat
| VString (s : str)
| VArray (vs : list Value)
| VObject (fields : gmap str Value).

(** PostgreSQL's [||] on two [jsonb] objects: the right operand wins. *)
Definition jsonb_concat (a b : gmap str Value) : gmap str Value := b ∪ a.

Inductive DriveKind := Personal | Shared.
#[global] Instance DriveKind_eq_dec : EqDecision DriveKind. Proof. solve_decision. Defined.

Module DriveKind.
Definition as_str (k : DriveKind) : str :=
  match k with Personal => lit "personal" | Shared => lit "shared" end.
Definition parse (s : str) : option DriveKind :=
  if decide (s = lit "personal") then Some Personal
  else if decide (s = lit "shared") then Some Shared
  else None.
End DriveKind.

Record DrivePolicies := mkPolicies {
  forbid_sharing : bool;
  forbid_external_sharing : bool;
  forbid_public_links : bool;
  forbid_cross_drive_move : bool;
  forbid_owner_role_change : bool;
  include_in_photo_index : bool;
  include_in_music_index : bool;
  read_only : bool;
  max_public_link_days : option Z;
  require_public_link_password : bool;
}.
#[global] Instance DrivePolicies_eq_dec : EqDecision DrivePolicies.
Proof. solve_decision. Defined.

(** [Default]: everything off, no cap. *)
Definition policies_default : DrivePolicies :=
  mkPolicies false false false false false false false false None false.

Record DriveRow := mkDrive {
  d_id : Uuid;
  d_kind : DriveKind;
  d_default_for_user : option Uuid;
  d_root_folder_id : Uuid;
  d_quota_bytes : option Z;
  d_used_bytes : Z;
  d_policies : Value;
  d_created_at : Z;
  d_updated_at : Z;
}.
Definition is_default_for (d : DriveRow) (user_id : Uuid) : bool :=
  bool_decide (d_default_for_user d = Some user_id).
Definition is_personal (d : DriveRow) : bool :=
  match d_kind d with Personal => true | Shared => false end.

Definition POLICY_KNOBS : list str :=
  [lit "forbid_sharing"; lit "forbid_external_sharing"; lit "forbid_public_links";
   lit "forbid_cross_drive_move"; lit "forbid_owner_role_change";
   lit "include_in_photo_index"; lit "include_in_music_index"; lit "read_only";
   lit "max_public_link_days"; lit "require_public_link_password"].
Definition NON_DEFAULTABLE_KNOBS : list str := [lit "read_only"].

Definition knob_applies_to_kind (knob : str) (k : DriveKind) : bool :=
  negb (bool_decide (knob = lit "forbid_owner_role_change")
        && match k with Personal => true | Shared => false end).

Record DrivePolicyOverrides := mkOverrides {
  o_forbid_sharing : option bool;
  o_forbid_external_sharing : option bool;
  o_forbid_public_links : option bool;
  o_forbid_cross_drive_move : option bool;
  o_forbid_owner_role_change : option bool;
  o_include_in_photo_index : option bool;
  o_include_in_music_index : option bool;
  o_read_only : option bool;
  o_max_public_link_days : option Z;
  o_require_public_link_password : option bool;
}.
Definition overrides_default : DrivePolicyOverrides :=
  mkOverrides None None None None None None None None None None.

Inductive Strictness := TrueIsStricter | FalseIsStricter | SmallerIsStricter.

Definition knob_strictness (knob : str) : Strictness :=
  if decide (knob = lit "include_in_photo_index" ∨ knob = lit "include_in_music_index")
  then FalseIsStricter
  else if decide (knob = lit "max_public_link_days") then SmallerIsStricter
  else TrueIsStricter.

(** Effective policy: the default of the kind with the explicit overrides on top. *)
Definition resolve (d : DrivePolicies) (o : DrivePolicyOverrides) : DrivePolicies := {|
  forbid_sharing := default (forbid_sharing d) (o_forbid_sharing o);
  forbid_external_sharing := default (forbid_external_sharing d) (o_forbid_external_sharing o);
  forbid_public_links := default (forbid_public_links d) (o_forbid_public_links o);
  forbid_cross_drive_move := default (forbid_cross_drive_move d) (o_forbid_cross_drive_move o);
  forbid_owner_role_change := default (forbid_owner_role_change d) (o_forbid_owner_role_change o);
  include_in_photo_index := default (include_in_photo_index d) (o_include_in_photo_index o);
  include_in_music_index := default (include_in_music_index d) (o_include_in_music_index o);
  read_only := default (read_only d) (o_read_only o);
  max_public_link_days :=
    match o_max_public_link_days o with Some n => Some n | None => max_public_link_days d end;
  require_public_link_password :=
    default (require_public_link_password d) (o_require_public_link_password o);
|}.

Definition knob_value (p : DrivePolicies) (knob : str) : Value :=
  if decide (knob = lit "forbid_sharing") then VBool (forbid_sharing p)
  else if decide (knob = lit "forbid_external_sharing") then VBool (forbid_external_sharing p)
  else if decide (knob = lit "forbid_public_links") then VBool (forbid_public_links p)
  else if decide (knob = lit "forbid_cross_drive_move") then VBool (forbid_cross_drive_move p)
  else if decide (knob = lit "forbid_owner_role_change") then VBool (forbid_owner_role_change p)
  else if decide (knob = lit "include_in_photo_index") then VBool (include_in_photo_index p)
  else if decide (knob = lit "include_in_music_index") then VBool (include_in_music_index p)
  else if decide (knob = lit "read_only") then VBool (read_only p)
  else if decide (knob = lit "require_public_link_password")
       then VBool (require_public_link_password p)
  else if decide (knob = lit "max_public_link_days")
       then match max_public_link_days p with Some d => VNumber d | None => VNull end
  else VNull.

Definition knob_bool (p : DrivePolicies) (knob : str) : bool :=
  match knob_value p knob with VBool true => true | _ => false end.

Definition at_least_as_strict_on (self other : DrivePolicies) (knob : str) : bool :=
  match knob_strictness knob with
  | TrueIsStricter => knob_bool self knob || negb (knob_bool other knob)
  | FalseIsStricter => negb (knob_bool self knob) || knob_bool other knob
  | SmallerIsStricter =>
      match max_public_link_days self, max_public_link_days other with
      | _, None => true
      | None, Some _ => false
      | Some a, Some b => (a <=? b)%Z
      end
  end.

Definition weaker_than (self dflt : DrivePolicies) (k : DriveKind) : list str :=
  filter (fun knob => negb (at_least_as_strict_on self dflt knob))
    (filter (fun knob => negb (bool_decide (knob ∈ NON_DEFAULTABLE_KNOBS)))
       (filter (fun knob => knob_applies_to_kind knob k) POLICY_KNOBS)).

(** ** The gates.  The audit lines are not modelled; the contexts only feed them, except
    for [caller_is_admin]. *)
Definition refuse_public_links (p : DrivePolicies) : result DomainError unit :=
  if forbid_public_links p then
    Err (DomainError.operation_not_supported (lit "Share")
           (lit "This drive does not allow public links."))
  else if forbid_sharing p then
    Err (DomainError.operation_not_supported (lit "Share")
           (lit "This drive does not allow sharing individual files or folders, which includes public links."))
  else Ok tt.

Definition refuse_sharing (p : DrivePolicies) : result DomainError unit :=
  if negb (forbid_sharing p) then Ok tt
  else Err (DomainError.operation_not_supported (lit "Grant")
              (lit "This drive does not allow per-resource sharing.")).

Definition refuse_owner_role_change (p : DrivePolicies) (caller_is_admin : bool)
  : result DomainError unit :=
  if negb (forbid_owner_role_change p) then Ok tt
  else if caller_is_admin then Ok tt
  else Err (DomainError.operation_not_supported (lit "Drive")
              (lit "This drive's Owner membership is locked — only OxiCloud admin can change owners.")).

Definition refuse_cross_drive_move (p : DrivePolicies) : result DomainError unit :=
  if negb (forbid_cross_drive_move p) then Ok tt
  else Err (DomainError.operation_not_supported (lit "Move")
              (lit "This drive does not allow moving content out to another drive.")).

Definition refuse_external_sharing (p : DrivePolicies) (subject : Subject) (is_external : bool)
  : result DomainError unit :=
  if negb (forbid_external_sharing p) then Ok tt
  else match subject with
       | User _ =>
           if negb is_external then Ok tt
           else Err (DomainError.operation_not_supported (lit "Grant")
                       (lit "This drive does not allow external sharing."))
       | _ => Ok tt
       end.

(** ** Reading a bag *)

(** serde on one field of an object: an absent key takes the field's default, a value of
    the wrong type is an error ([None]) of the whole struct. *)
Definition de_bool (m : gmap str Value) (k : str) : option bool :=
  match m !! k with None => Some false | Some (VBool b) => Some b | Some _ => None end.
Definition de_opt_bool (m : gmap str Value) (k : str) : option (option bool) :=
  match m !! k with
  | None | Some VNull => Some None
  | Some (VBool b) => Some (Some b)
  | Some _ => None
  end.
Definition de_opt_u32 (m : gmap str Value) (k : str) : option (option Z) :=
  match m !! k with
  | None | Some VNull => Some None
  | Some (VNumber n) => if decide (in_u32 n) then Some (Some n) else None
  | Some _ => None
  end.

Definition de_policies_fields (m : gmap str Value) : option DrivePolicies :=
  a ← de_bool m (lit "forbid_sharing");
  b ← de_bool m (lit "forbid_external_sharing");
  c ← de_bool m (lit "forbid_public_links");
  d ← de_bool m (lit "forbid_cross_drive_move");
  e ← de_bool m (lit "forbid_owner_role_change");
  f ← de_bool m (lit "include_in_photo_index");
  g ← de_bool m (lit "include_in_music_index");
  h ← de_bool m (lit "read_only");
  i ← de_opt_u32 m (lit "max_public_link_days");
  j ← de_bool m (lit "require_public_link_password");
  Some (mkPolicies a b c d e f g h i j).
Definition de_overrides_fields (m : gmap str Value) : option DrivePolicyOverrides :=
  a ← de_opt_bool m (lit "forbid_sharing");
  b ← de_opt_bool m (lit "forbid_external_sharing");
  c ← de_opt_bool m (lit "forbid_public_links");
  d ← de_opt_bool m (lit "forbid_cross_drive_move");
  e ← de_opt_bool m (lit "forbid_owner_role_change");
  f ← de_opt_bool m (lit "include_in_photo_index");
  g ← de_opt_bool m (lit "include_in_music_index");
  h ← de_opt_bool m (lit "read_only");
  i ← de_opt_u32 m (lit "max_public_link_days");
  j ← de_opt_bool m (lit "require_public_link_password");
  Some (mkOverrides a b c d e f g h i j).

(** The derived implementations; what they do on values that are not objects is left open. *)
Class PolicyCodec := {
  de_policies : Value -> option DrivePolicies;
  de_overrides : Value -> option DrivePolicyOverrides;
  de_policies_object m : de_policies (VObject m) = de_policies_fields m;
  de_overrides_object m : de_overrides (VObject m) = de_overrides_fields m;
}.

(** An implementation of the interface, which refuses everything but objects. *)
Definition strict_codec : PolicyCodec.
Proof.
  refine {|
    de_policies v := match v with VObject m => de_policies_fields m | _ => None end;
    de_overrides v := match v with VObject m => de_overrides_fields m | _ => None end;
  |}; done.
Defined.

Definition is_null (v : Value) : bool := match v with VNull => true | _ => false end.

Section bags.
Context `{PolicyCodec}.

(** [DrivePolicies::from_value] and [DrivePolicyOverrides::from_value]: lenient. *)
Definition policies_from_value (v : Value) : DrivePolicies :=
  default policies_default (de_policies v).
Definition overrides_from_value (v : Value) : DrivePolicyOverrides :=
  default overrides_default (de_overrides v).
Definition typed_policies (d : DriveRow) : DrivePolicies := policies_from_value (d_policies d).

(** [storage.drives_effective]: the default bag of the kind, then the drive's bag. *)
Definition effective_bag (dflt : option (gmap str Value)) (bag : gmap str Value)
  : gmap str Value := jsonb_concat (default ∅ dflt) bag.

(** [DrivePgRepository::update_policies] on the stored bag: a key sent as [null] is removed,
    the others are merged in; the answer is the effective policy. *)
Definition update_policies (dflt : option (gmap str Value)) (bag : gmap str Value)
    (partial : Value) : gmap str Value * DrivePolicies :=
  let obj := match partial with VObject m => m | _ => ∅ end in
  let to_remove := filter (fun kv => is_null kv.2 = true) obj in
  let to_set := filter (fun kv => is_null kv.2 = false) obj in
  let bag' := jsonb_concat (bag ∖ to_remove) to_set in
  (bag', policies_from_value (VObject (effective_bag dflt bag'))).
End bags.

(** ** Properties *)

(** A stored bag never holds an explicit [null]. *)
Definition null_free (m : gmap str Value) : Prop := forall k, m !! k ≠ Some VNull.

Section policy_facts.
Context `{PolicyCodec}.
Implicit Types (m dm om : gmap str Value) (k : str).

Lemma update_policies_lookup dflt bag obj k :
  fst (update_policies dflt bag (VObject obj)) !! k =
  match obj !! k with Some VNull => None | Some v => Some v | None => bag !! k end.
Proof.
  unfold update_policies, jsonb_concat. simpl.
  rewrite lookup_union, map_lookup_filter, lookup_difference, map_lookup_filter.
  destruct (obj !! k) as [v|]; simpl; [|by destruct (bag !! k)].
  destruct v; simpl; try done; by destruct (bag !! k).
Qed.

Lemma update_policies_null_free dflt bag partial :
  null_free bag -> null_free (fst (update_policies dflt bag partial)).
Proof.
  intros Hb. destruct partial as [| | | | | |obj]; intros k.
  1-6: unfold update_policies, jsonb_concat; simpl;
    rewrite lookup_union, map_lookup_filter, lookup_difference, map_lookup_filter, lookup_empty;
    simpl; specialize (Hb k); by destruct (bag !! k).
  rewrite update_policies_lookup. destruct (obj !! k) as [[]|]; done || apply Hb.
Qed.

Lemma de_bool_concat dm om k x y :
  om !! k ≠ Some VNull -> de_bool dm k = Some x -> de_opt_bool om k = Some y ->
  de_bool (jsonb_concat dm om) k = Some (default x y).
Proof.
  unfold de_bool, de_opt_bool, jsonb_concat. rewrite lookup_union. intros Hn.
  destruct (om !! k) as [[]|], (dm !! k) as [[]|]; simpl; intros; simplify_eq/=; done.
Qed.
Lemma de_u32_concat dm om k x y :
  om !! k ≠ Some VNull -> de_opt_u32 dm k = Some x -> de_opt_u32 om k = Some y ->
  de_opt_u32 (jsonb_concat dm om) k = Some (match y with Some n => Some n | None => x end).
Proof.
  unfold de_opt_u32, jsonb_concat. rewrite lookup_union. intros Hn.
  destruct (om !! k) as [[]|], (dm !! k) as [[]|]; simpl; repeat case_decide;
    intros; simplify_eq/=; repeat case_decide; simplify_eq; done.
Qed.

(** The view and the in-memory resolution agree on well-typed, null-free bags. *)
Lemma view_is_resolve dm om p o :
  null_free om -> de_policies (VObject dm) = Some p -> de_overrides (VObject om) = Some o ->
  policies_from_value (VObject (jsonb_concat dm om)) = resolve p o.
Proof.
  intros Hn Hp Ho. rewrite de_policies_object in Hp. rewrite de_overrides_object in Ho.
  unfold policies_from_value. rewrite de_policies_object.
  unfold de_policies_fields in Hp. unfold de_overrides_fields in Ho.
  repeat match goal with
  | H : (?a ≫= _) = Some _ |- _ =>
      apply bind_Some in H; destruct H as (? & ? & H)
  end.
  simplify_eq. unfold de_policies_fields.
  repeat (erewrite de_bool_concat; [|apply Hn|eassumption|eassumption]; cbn [mbind option_bind]).
  erewrite de_u32_concat; [|apply Hn|eassumption|eassumption]. done.
Qed.

Lemma at_least_as_strict_refl p k : at_least_as_strict_on p p k = true.
Proof.
  unfold at_least_as_strict_on. destruct (knob_strictness k).
  - by destruct (knob_bool p k).
  - by destruct (knob_bool p k).
  - destruct (max_public_link_days p); [lia|done].
Qed.
Lemma at_least_as_strict_trans p q r k :
  at_least_as_strict_on p q k = true -> at_least_as_strict_on q r k = true ->
  at_least_as_strict_on p r k = true.
Proof.
  unfold at_least_as_strict_on. destruct (knob_strictness k).
  - by destruct (knob_bool p k), (knob_bool q k), (knob_bool r k).
  - by destruct (knob_bool p k), (knob_bool q k), (knob_bool r k).
  - destruct (max_public_link_days p), (max_public_link_days q), (max_public_link_days r);
      try done; lia.
Qed.
Lemma at_least_as_strict_total p q k :
  at_least_as_strict_on p q k = true ∨ at_least_as_strict_on q p k = true.
Proof.
  unfold at_least_as_strict_on. destruct (knob_strictness k).
  - destruct (knob_bool p k), (knob_bool q k); auto.
  - destruct (knob_bool p k), (knob_bool q k); auto.
  - destruct (max_public_link_days p), (max_public_link_days q); auto. lia.
Qed.

Lemma elem_of_weaker_than p d kd k :
  k ∈ weaker_than p d kd <->
  k ∈ POLICY_KNOBS ∧ knob_applies_to_kind k kd = true ∧ k ≠ lit "read_only"
  ∧ at_least_as_strict_on p d k = false.
Proof.
  unfold weaker_than. rewrite !list_elem_of_filter, !Is_true_true, !negb_true_iff.
  rewrite bool_decide_eq_false. unfold NON_DEFAULTABLE_KNOBS. rewrite list_elem_of_singleton.
  tauto.
Qed.
End policy_facts.

(** The stored bag after a sequence of PATCHes on a drive created with an empty bag. *)
Definition patched_bag `{PolicyCodec} (dflt : option (gmap str Value)) (patches : list Value)
  : gmap str Value :=
  foldl (fun bag partial => fst (update_policies dflt bag partial)) ∅ patches.

Lemma patched_bag_null_free `{PolicyCodec} dflt patches : null_free (patched_bag dflt patches).
Proof.
  unfold patched_bag.
  assert (Hb : null_free ∅) by (intros k; by rewrite lookup_empty).
  revert Hb. generalize (∅ : gmap str Value). induction patches as [|q qs IH]; [done|].
  intros bag Hb. cbn [foldl]. apply IH. by apply update_policies_null_free.
Qed.

(** Whatever PATCHes a drive has received (keys sent as [null] included), the effective
    policy that the SQL view [drives_effective] yields is the one the Rust function
    [resolve] computes from the kind's default and the drive's overrides, whenever both
    bags have the declared types; and the PATCH answers exactly that policy. *)
Theorem patched_view_is_resolve `{PolicyCodec} dm patches partial p o :
  let bag := patched_bag (Some dm) patches in
  let bag' := fst (update_policies (Some dm) bag partial) in
  let answer := snd (update_policies (Some dm) bag partial) in
  de_policies (VObject dm) = Some p ->
  de_overrides (VObject bag') = Some o ->
  answer = resolve p o ∧ policies_from_value (VObject (effective_bag (Some dm) bag')) = answer.
Proof.
  intros bag bag' answer Hp Ho. split; [|reflexivity].
  assert (Hnf : null_free bag') by apply update_policies_null_free, patched_bag_null_free.
  exact (view_is_resolve dm bag' p o Hnf Hp Ho).
Qed.

Lemma patched_view_is_resolve_witness :
  let C := strict_codec in
  let dm := <[lit "max_public_link_days" := VNumber 7]> (<[lit "forbid_sharing" := VBool true]> ∅) in
  let patches := [VObject (<[lit "max_public_link_days" := VNumber 30]> ∅)] in
  let partial := VObject (<[lit "max_public_link_days" := VNull]>
                           (<[lit "forbid_sharing" := VBool false]> ∅)) in
  policies_from_value (VObject (effective_bag (Some dm)
     (fst (update_policies (Some dm) (patched_bag (Some dm) patches) partial))))
  = mkPolicies false false false false false false false false (Some 7%Z) false.
Proof.
  intros C dm patches partial.
  pose proof (@patched_view_is_resolve C dm patches partial
    (mkPolicies true false false false false false false false (Some 7%Z) false)
    (mkOverrides (Some false) None None None None None None None None None)
    ltac:(vm_compute; reflexivity) ltac:(vm_compute; reflexivity)) as [H1 H2].
  etransitivity; [exact H2|exact H1].
Defined.

(** Whether the overrides decide a knob. *)
Definition override_set (o : DrivePolicyOverrides) (knob : str) : bool :=
  if decide (knob = lit "forbid_sharing") then bool_decide (is_Some (o_forbid_sharing o))
  else if decide (knob = lit "forbid_external_sharing")
       then bool_decide (is_Some (o_forbid_external_sharing o))
  else if decide (knob = lit "forbid_public_links")
       then bool_decide (is_Some (o_forbid_public_links o))
  else if decide (knob = lit "forbid_cross_drive_move")
       then bool_decide (is_Some (o_forbid_cross_drive_move o))
  else if decide (knob = lit "forbid_owner_role_change")
       then bool_decide (is_Some (o_forbid_owner_role_change o))
  else if decide (knob = lit "include_in_photo_index")
       then bool_decide (is_Some (o_include_in_photo_index o))
  else if decide (knob = lit "include_in_music_index")
       then bool_decide (is_Some (o_include_in_music_index o))
  else if decide (knob = lit "read_only") then bool_decide (is_Some (o_read_only o))
  else if decide (knob = lit "max_public_link_days")
       then bool_decide (is_Some (o_max_public_link_days o))
  else if decide (knob = lit "require_public_link_password")
       then bool_decide (is_Some (o_require_public_link_password o))
  else false.

Lemma resolve_unset_knob d o knob :
  knob ∈ POLICY_KNOBS -> override_set o knob = false ->
  at_least_as_strict_on (resolve d o) d knob = true.
Proof.
  intros Hin Ho. rewrite <- (at_least_as_strict_refl d knob).
  assert (Hkv : knob_value (resolve d o) knob = knob_value d knob
                ∧ (knob = lit "max_public_link_days" ->
                   max_public_link_days (resolve d o) = max_public_link_days d)).
  { unfold POLICY_KNOBS in Hin. repeat (apply elem_of_cons in Hin as [->|Hin]);
      [..|by apply not_elem_of_nil in Hin];
      destruct o; vm_compute in Ho; unfold resolve, knob_value; simpl; split; try done;
      match goal with
      | |- context [default _ ?x] => destruct x
      | |- context [match ?x with Some _ => Some _ | None => _ end] => destruct x
      end; done. }
  destruct Hkv as [Hkv Hd]. unfold at_least_as_strict_on, knob_bool. rewrite Hkv.
  destruct (knob_strictness knob) eqn:E; try done. rewrite Hd; [done|].
  unfold knob_strictness in E. by repeat case_decide.
Qed.

(** The drift report of the compliance scan.  It is a preorder comparison (comparing with
    oneself reports nothing; two clean comparisons compose), and a drive whose policy is
    resolved from its kind's default drifts only on knobs its own bag overrides. *)
Theorem drift_report_sound d o p q r kd knob :
  weaker_than p p kd = []
  ∧ (weaker_than p q kd = [] -> weaker_than q r kd = [] -> weaker_than p r kd = [])
  ∧ (knob ∈ weaker_than (resolve d o) d kd -> override_set o knob = true).
Proof.
  split_and!.
  - apply elem_of_nil_inv. intros k. rewrite elem_of_weaker_than, at_least_as_strict_refl. intuition done.
  - intros Hpq Hqr. apply elem_of_nil_inv. intros k Hk.
    apply elem_of_weaker_than in Hk as (Hin & Ha & Hr & Hs).
    assert (Hq : forall a b, weaker_than a b kd = [] -> at_least_as_strict_on a b k = true).
    { intros a b Hab. destruct (at_least_as_strict_on a b k) eqn:E; [done|].
      assert (k ∈ weaker_than a b kd) as Hm by by apply elem_of_weaker_than.
      rewrite Hab in Hm. by apply not_elem_of_nil in Hm. }
    by rewrite (at_least_as_strict_trans p q r k (Hq p q Hpq) (Hq q r Hqr)) in Hs.
  - rewrite elem_of_weaker_than. intros (Hin & _ & _ & Hs).
    destruct (override_set o knob) eqn:E; [done|].
    by rewrite (resolve_unset_knob d o knob Hin E) in Hs.
Qed.

Lemma drift_report_sound_witness :
  let d := mkPolicies true false false false false false false false (Some 7%Z) false in
  let o := mkOverrides None None None None None None None None (Some 30%Z) None in
  weaker_than (resolve d o) d Shared = [lit "max_public_link_days"]
  ∧ override_set o (lit "max_public_link_days") = true
  ∧ weaker_than d policies_default Shared = [].
Proof.
  intros d o. pose proof (drift_report_sound d o d d policies_default Shared
                            (lit "max_public_link_days")) as (H1 & H2 & H3).
  split_and!; [vm_compute; reflexivity| |].
  - apply H3. apply elem_of_weaker_than. vm_compute. repeat split; try done.
    do 8 constructor 2. constructor 1.
  - apply H2; [exact H1|vm_compute; reflexivity].
Defined.

(** The policy gates.  Each refuses exactly when its knob says so, with an
    [UnsupportedOperation] error; [forbid_sharing] is the broader rule and closes the
    public-link gate as well; an administrator passes the owner gate, and only an external
    user is refused by the external-sharing gate. *)
Theorem policy_gates p s ext admin :
  (is_ok (refuse_sharing p) = negb (forbid_sharing p))
  ∧ (is_ok (refuse_public_links p) = negb (forbid_public_links p || forbid_sharing p))
  ∧ (is_ok (refuse_owner_role_change p admin) = negb (forbid_owner_role_change p && negb admin))
  ∧ (is_ok (refuse_cross_drive_move p) = negb (forbid_cross_drive_move p))
  ∧ (is_ok (refuse_external_sharing p s ext)
     = negb (forbid_external_sharing p && ext && bool_decide (is_Some (Subject.user_id s))))
  ∧ Forall (fun r : result DomainError unit =>
              match r with Ok _ => True | Err e => kind e = UnsupportedOperation end)
      [refuse_sharing p; refuse_public_links p; refuse_owner_role_change p admin;
       refuse_cross_drive_move p; refuse_external_sharing p s ext].
Proof.
  destruct p as [[] [] [] [] [] ? ? ? ? ?], s, ext, admin; simpl;
    split_and!; try done; repeat constructor.
Qed.
