(* ===== verification/Moka.v ===== *)
(** * The in-memory cache interface

    Several components keep their state in [moka] caches.  The crate is not part of the
    repository, so a cache is an abstract type with the operations the code calls and the
    laws its documentation gives.  A capacity-bounded cache may drop an entry at any time:
    every law about a present entry is therefore an implication from the lookup, and the
    laws that promise a lookup to succeed hold only for a cache with room.  Times are
    instants of a monotonic clock. *)

From S2P Require Import Prelude.

Class Moka (Cache : forall (K : Type) {E : EqDecision K} {C : @Countable K E}, Type -> Type) := {
  cnew {K : Type} `{Countable K} {V : Type} : Cache K V;
  (** [cache.get(&k)] at instant [t] *)
  cget {K : Type} `{Countable K} {V : Type} : Cache K V -> Z -> K -> option V;
  (** [cache.insert(k, v)] at instant [t] with the time to live the policy gives *)
  cinsert {K : Type} `{Countable K} {V : Type} : Cache K V -> Z -> Z -> K -> V -> Cache K V;
  (** [cache.invalidate(&k)] *)
  cinvalidate {K : Type} `{Countable K} {V : Type} : Cache K V -> K -> Cache K V;
  (** [cache.invalidate_all()] *)
  cinvalidate_all {K : Type} `{Countable K} {V : Type} : Cache K V -> Cache K V;
  (** [cache.invalidate_entries_if(p)] *)
  cinvalidate_if {K : Type} `{Countable K} {V : Type} : Cache K V -> (K -> V -> bool) -> Cache K V;
  (** fewer entries than the maximum capacity *)
  croom {K : Type} `{Countable K} {V : Type} : Cache K V -> Prop;

  cget_new {K : Type} `{Countable K} {V} t (k : K) : cget (V:=V) cnew t k = None;
  cget_insert_eq {K : Type} `{Countable K} {V} (c : Cache K V) t ttl t' k v v' :
    cget (cinsert c t ttl k v) t' k = Some v' -> v' = v ∧ (t' < t + ttl)%Z;
  cget_insert_ne {K : Type} `{Countable K} {V} (c : Cache K V) t ttl t' k k' v v' :
    k ≠ k' -> cget (cinsert c t ttl k v) t' k' = Some v' -> cget c t' k' = Some v';
  cget_invalidate_eq {K : Type} `{Countable K} {V} (c : Cache K V) t k :
    cget (cinvalidate c k) t k = None;
  cget_invalidate_ne {K : Type} `{Countable K} {V} (c : Cache K V) t k k' v :
    cget (cinvalidate c k) t k' = Some v -> cget c t k' = Some v;
  cget_invalidate_all {K : Type} `{Countable K} {V} (c : Cache K V) t k :
    cget (cinvalidate_all c) t k = None;
  cget_invalidate_if {K : Type} `{Countable K} {V} (c : Cache K V) p t k v :
    cget (cinvalidate_if c p) t k = Some v -> cget c t k = Some v ∧ p k v = false;
  (** time only removes entries *)
  cget_mono {K : Type} `{Countable K} {V} (c : Cache K V) t t' k v :
    (t <= t')%Z -> cget c t' k = Some v -> cget c t k = Some v;

  (** with room, an insertion is visible until it expires and disturbs nothing else *)
  croom_insert_eq {K : Type} `{Countable K} {V} (c : Cache K V) t ttl t' k v :
    croom c -> (t <= t' < t + ttl)%Z -> cget (cinsert c t ttl k v) t' k = Some v;
  croom_insert_ne {K : Type} `{Countable K} {V} (c : Cache K V) t ttl t' k k' v :
    croom c -> k ≠ k' -> cget (cinsert c t ttl k v) t' k' = cget c t' k';
  croom_invalidate_ne {K : Type} `{Countable K} {V} (c : Cache K V) t k k' :
    croom c -> k ≠ k' -> cget (cinvalidate c k) t k' = cget c t k';
  croom_new {K : Type} `{Countable K} {V} : croom (K:=K) (V:=V) cnew;
  croom_invalidate {K : Type} `{Countable K} {V} (c : Cache K V) k :
    croom c -> croom (cinvalidate c k);
}.

(** With room, an inserted entry is what a lookup finds, exactly until it expires. *)
Lemma cget_inserted `{Moka Cache} {K : Type} `{Countable K} {V} (c : Cache K _ _ V) t ttl t' k v :
  croom c -> (t <= t')%Z ->
  cget (cinsert c t ttl k v) t' k = if (t' <? t + ttl)%Z then Some v else None.
Proof.
  intros Hr Ht. destruct (Z.ltb_spec t' (t + ttl)); [by apply croom_insert_eq|].
  destruct (cget _ t' k) as [v'|] eqn:E; [|done]. apply cget_insert_eq in E as [_ ?]. lia.
Qed.

(** ** An implementation without a capacity bound

    A finite map from keys to a value with its expiry instant.  It shows that the laws are
    consistent and lets concrete scenarios be evaluated. *)
Definition TtlMap (K : Type) {E : EqDecision K} {C : @Countable K E} (V : Type) : Type :=
  gmap K (V * Z).

#[export] Instance moka_ttl_map : Moka (@TtlMap).
Proof.
  refine {|
    cnew K _ _ V := ∅;
    cget K _ _ V c t k :=
      match (c : gmap K (V * Z)) !! k with
      | Some (v, exp) => if (t <? exp)%Z then Some v else None
      | None => None
      end;
    cinsert K _ _ V c t ttl k v := <[k := (v, (t + ttl)%Z)]> (c : gmap K (V * Z));
    cinvalidate K _ _ V c k := delete k (c : gmap K (V * Z));
    cinvalidate_all K _ _ V c := ∅;
    cinvalidate_if K _ _ V c p :=
      filter (fun kv : K * (V * Z) => p kv.1 kv.2.1 = false) (c : gmap K (V * Z));
    croom K _ _ V c := True;
  |}; unfold TtlMap.
  - intros. by rewrite lookup_empty.
  - intros K ? ? V c t ttl t' k v v'. rewrite lookup_insert_eq.
    destruct (Z.ltb_spec t' (t + ttl)%Z); naive_solver.
  - intros K ? ? V c t ttl t' k k' v v' Hne. by rewrite lookup_insert_ne.
  - intros. by rewrite lookup_delete_eq.
  - intros K ? ? V c t k k' v. destruct (decide (k = k')) as [->|Hne].
    + by rewrite lookup_delete_eq.
    + by rewrite lookup_delete_ne.
  - intros. by rewrite lookup_empty.
  - intros K ? ? V c p t k v. rewrite map_lookup_filter.
    destruct (c !! k) as [[w e]|] eqn:E; simpl; [|done].
    destruct (decide (p k w = false)) as [Hp|Hp].
    + rewrite option_guard_True by done. simpl. destruct (t <? e)%Z; naive_solver.
    + by rewrite option_guard_False.
  - intros K ? ? V c t t' k v Ht. destruct (c !! k) as [[w e]|]; [|done].
    destruct (Z.ltb_spec t' e), (Z.ltb_spec t e); naive_solver lia.
  - intros K ? ? V c t ttl t' k v _ Ht. rewrite lookup_insert_eq.
    by destruct (Z.ltb_spec t' (t + ttl)%Z); [|lia].
  - intros K ? ? V c t ttl t' k k' v _ Hne. by rewrite lookup_insert_ne.
  - intros K ? ? V c t k k' _ Hne. by rewrite lookup_delete_ne.
  - done.
  - done.
Defined.
