(* ===== verification/AclDb.v ===== *)
(** * The tables behind the authorization engine

    The rows of [storage.role_grants], [storage.folders], [storage.files], [auth.users],
    [auth.subject_group_members] and [storage.drives_effective] that
    [src/src/infrastructure/services/pg_acl_engine.rs] reads, and the meaning of its SQL
    statements on them, as functions of the tables and of [NOW()]. *)

From S2P Require Import Prelude.
From S2P Require Import RustStr.
From S2P Require Import DomainErrors.
From S2P Require Import Authorization.
From S2P Require Import DrivePolicies.

(** A folder row: its [lpath] (an [ltree] of labels) and its drive. *)
Record FolderRow := mkFolderRow { fo_lpath : list N; fo_drive : Uuid }.
Record FileRow := mkFileRow { fi_folder : option Uuid; fi_drive : Uuid }.
(** A row of [auth.subject_group_members] has a user or a nested group as its member. *)
Inductive GroupMember := MemberUser (u : Uuid) | MemberGroup (g : Uuid).
#[global] Instance GroupMember_eq_dec : EqDecision GroupMember. Proof. solve_decision. Defined.

Record Db := mkDb {
  role_grants : list Grant;
  folders : gmap Uuid FolderRow;
  files : gmap Uuid FileRow;
  users_external : gmap Uuid bool;
  group_members : list (Uuid * GroupMember);
  drives : gmap Uuid (DriveKind * gmap str Value);
  policy_defaults : DriveKind -> option (gmap str Value);
}.
Definition with_grants (db : Db) (gs : list Grant) : Db :=
  mkDb gs (folders db) (files db) (users_external db) (group_members db) (drives db)
    (policy_defaults db).

Definition INTERNAL_GROUP_ID : Uuid := 1.

(** ** [groups_for_user]: the recursive query

    [WITH RECURSIVE .. UNION ..] starts from the user's direct groups and adds the groups
    that have a known group as a member until nothing new appears.  Every productive round
    adds a group of the table, so as many rounds as there are rows are enough. *)
Definition direct_groups (db : Db) (u : Uuid) : gset Uuid :=
  list_to_set (fst <$> filter (fun row => snd row = MemberUser u) (group_members db)).
Definition nests_one_of (s : gset Uuid) (row : Uuid * GroupMember) : bool :=
  match snd row with MemberGroup g => bool_decide (g ∈ s) | MemberUser _ => false end.
Definition parent_groups (db : Db) (s : gset Uuid) : gset Uuid :=
  list_to_set (fst <$> filter (fun row => nests_one_of s row = true) (group_members db)).
Definition add_parents (db : Db) (s : gset Uuid) : gset Uuid := s ∪ parent_groups db s.
Definition groups_for_user (db : Db) (u : Uuid) : gset Uuid :=
  Nat.iter (length (group_members db)) (add_parents db) (direct_groups db u).

(** ** Conditions on a grant row *)
(** [g.expires_at IS NULL OR g.expires_at > NOW()] *)
Definition live (now : Z) (g : Grant) : bool :=
  match g_expires_at g with None => true | Some e => (now <? e)%Z end.
(** [g.subject_type = ANY($1) AND g.subject_id = ANY($2)] *)
Definition subject_in (types : list str) (ids : gset Uuid) (g : Grant) : bool :=
  bool_decide (Subject.type_str (g_subject g) ∈ types)
  && bool_decide (Subject.id (g_subject g) ∈ ids).
(** [g.role = ANY($3::storage.grant_role[])] *)
Definition role_in (roles : list str) (g : Grant) : bool :=
  bool_decide (Role.as_str (g_role g) ∈ roles).
(** [g.resource_type = $4 AND g.resource_id = $5] *)
Definition resource_is (ty : str) (rid : Uuid) (g : Grant) : bool :=
  bool_decide (Resource.type_str (g_resource g) = ty)
  && bool_decide (Resource.id (g_resource g) = rid).

(** ** The queries of the engine *)
Definition sql_grant_exists (db : Db) (now : Z) (types : list str) (ids : gset Uuid)
    (roles : list str) (ty : str) (rid : Uuid) : bool :=
  existsb (fun g => subject_in types ids g && role_in roles g && resource_is ty rid g && live now g)
    (role_grants db).

(** [gf.lpath @> (SELECT lpath FROM storage.folders WHERE id = $4)]: the granted folder is
    the folder itself or one of its ancestors; a missing row makes the condition [NULL]. *)
Definition lpath_ancestor (db : Db) (granted target : Uuid) : bool :=
  match folders db !! granted, folders db !! target with
  | Some gf, Some f => bool_decide (fo_lpath gf `prefix_of` fo_lpath f)
  | _, _ => false
  end.
Definition sql_folder_cascade (db : Db) (now : Z) (types : list str) (ids : gset Uuid)
    (roles : list str) (folder_id : Uuid) : bool :=
  existsb (fun g => subject_in types ids g && role_in roles g
                    && bool_decide (Resource.type_str (g_resource g) = lit "folder")
                    && live now g
                    && lpath_ancestor db (Resource.id (g_resource g)) folder_id)
    (role_grants db).

(** The declaration order of the enum [storage.grant_role]: strongest first
    ([src/migrations/20260801000000_role_grants_enum.sql]). *)
Definition grant_role_ord (r : Role) : nat :=
  match r with Owner => 0 | Editor => 1 | Contributor => 2 | Commenter => 3 | Viewer => 4 end.
Definition min_role (r r' : Role) : Role :=
  if decide (grant_role_ord r <= grant_role_ord r')%nat then r else r'.
(** [SELECT MIN(g.role)::text]: [NULL] over no rows. *)
Definition sql_min_role (gs : list Grant) : option Role :=
  foldr (fun g acc => Some (match acc with None => g_role g | Some r => min_role (g_role g) r end))
    None gs.
Definition sql_drive_role (db : Db) (now : Z) (types : list str) (ids : gset Uuid)
    (drive_id : Uuid) : option str :=
  Role.as_str <$> sql_min_role
    (filter (fun g => subject_in types ids g && resource_is (lit "drive") drive_id g && live now g)
       (role_grants db)).

(** [SELECT folder_id FROM storage.files WHERE id = $1], flattened. *)
Definition sql_file_parent (db : Db) (file_id : Uuid) : option Uuid :=
  files db !! file_id ≫= fi_folder.
(** [SELECT effective_policies FROM storage.drives_effective WHERE id = $1] *)
Definition sql_effective_policies (db : Db) (drive_id : Uuid) : option Value :=
  '(k, bag) ← drives db !! drive_id;
  Some (VObject (effective_bag (policy_defaults db k) bag)).
(** [SELECT is_external FROM auth.users WHERE id = $1] *)
Definition sql_is_external (db : Db) (u : Uuid) : option bool := users_external db !! u.

(** ** Properties of the recursive query *)

(** Transitive membership, the specification of [groups_for_user]. *)
Inductive member_of (db : Db) (u : Uuid) : Uuid -> Prop :=
| member_direct g : (g, MemberUser u) ∈ group_members db -> member_of db u g
| member_nested g g' : (g, MemberGroup g') ∈ group_members db -> member_of db u g' ->
    member_of db u g.

Lemma elem_of_direct_groups db u g :
  g ∈ direct_groups db u <-> (g, MemberUser u) ∈ group_members db.
Proof.
  unfold direct_groups. rewrite elem_of_list_to_set, list_elem_of_fmap. split.
  - intros ([g' m] & -> & Hm). apply list_elem_of_filter in Hm as [Hm Hin]. simpl in *. by subst.
  - intros Hin. exists (g, MemberUser u). split; [done|]. by apply list_elem_of_filter.
Qed.
Lemma elem_of_parent_groups db s g :
  g ∈ parent_groups db s <-> exists g', (g, MemberGroup g') ∈ group_members db ∧ g' ∈ s.
Proof.
  unfold parent_groups. rewrite elem_of_list_to_set, list_elem_of_fmap. split.
  - intros ([g1 m] & -> & Hm). apply list_elem_of_filter in Hm as [Hm Hin]. simpl in *.
    destruct m as [|g']; [done|]. exists g'. split; [done|]. by apply bool_decide_eq_true in Hm.
  - intros (g' & Hin & Hg). exists (g, MemberGroup g'). split; [done|].
    apply list_elem_of_filter. split; [|done]. by apply bool_decide_eq_true.
Qed.

Lemma groups_for_user_closed db u :
  parent_groups db (groups_for_user db u) ⊆ groups_for_user db u.
Proof.
  set (U := list_to_set (fst <$> group_members db) : gset Uuid).
  assert (HU : forall g m, (g, m) ∈ group_members db -> g ∈ U).
  { intros g m Hin. apply elem_of_list_to_set, list_elem_of_fmap. by exists (g, m). }
  assert (Hf : add_parents db (groups_for_user db u) ⊆ groups_for_user db u).
  { unfold groups_for_user. apply (iter_stabilises _ U).
    - unfold add_parents. set_solver.
    - intros s Hs g. unfold add_parents. rewrite elem_of_union, elem_of_parent_groups.
      intros [?|(g' & Hin & _)]; [set_solver|eauto].
    - intros g. rewrite elem_of_direct_groups. eauto.
    - unfold U. transitivity (length (fst <$> group_members db)); [apply size_list_to_set_le|].
      rewrite length_fmap. lia. }
  unfold add_parents in Hf. set_solver.
Qed.

Lemma groups_for_user_spec db u g : g ∈ groups_for_user db u <-> member_of db u g.
Proof.
  split.
  - unfold groups_for_user. revert g. induction (length (group_members db)) as [|n IH]; intros g.
    + simpl. rewrite elem_of_direct_groups. by constructor.
    + simpl. unfold add_parents at 1. rewrite elem_of_union, elem_of_parent_groups.
      intros [Hg|(g' & Hin & Hg')]; [by apply IH|]. econstructor 2; eauto.
  - induction 1 as [g Hin|g g' Hin _ IH].
    + unfold groups_for_user. assert (Hd : g ∈ direct_groups db u) by by apply elem_of_direct_groups.
      induction (length (group_members db)) as [|n IHn]; simpl; [done|].
      unfold add_parents. set_solver.
    + apply groups_for_user_closed, elem_of_parent_groups. eauto.
Qed.
