(* ===== verification/AuthzPort.v ===== *)
(** * The authorization port

    [src/src/application/ports/authorization_ports.rs]: the trait [AuthorizationEngine] as a
    class with the one required method the default methods are built on, and those default
    methods: [require_system_admin], [require], [require_any] and the per-file loop behind
    [check_files_read_batch].  The laws the services rely on are the class [AuthzLaws];
    theorems about the default methods are proved against it. *)

From S2P Require Import Prelude.
From S2P Require Import RustStr.
From S2P Require Import DomainErrors.
From S2P Require Import Authorization.

(** [UserRole] of [src/src/domain/entities/user.rs]. *)
Inductive UserRole := UOwner | UAdmin | UUser | UAnonymous.
#[global] Instance UserRole_eq_dec : EqDecision UserRole. Proof. solve_decision. Defined.

Module UserRole.
Definition as_str (r : UserRole) : str :=
  match r with
  | UOwner => lit "owner" | UAdmin => lit "admin" | UUser => lit "user"
  | UAnonymous => lit "anonymous"
  end.
Definition from_stored (raw : str) : option UserRole :=
  if decide (raw = lit "owner") then Some UOwner
  else if decide (raw = lit "admin") then Some UAdmin
  else if decide (raw = lit "user") then Some UUser
  else None.
Definition from_session (raw : str) : option UserRole :=
  if decide (raw = lit "anonymous") then Some UAnonymous else from_stored raw.
Definition rank (r : UserRole) : Z :=
  match r with UAnonymous => 0 | UUser => 1 | UAdmin => 2 | UOwner => 3 end%Z.
Definition at_least (r min : UserRole) : bool := (rank min <=? rank r)%Z.
End UserRole.

Definition system_admin_denial_reason (subject : Subject) (role : UserRole)
    (is_external active : bool) : option str :=
  match subject with
  | User _ =>
      if negb active then Some (lit "inactive")
      else if is_external then Some (lit "external_account")
      else if negb (UserRole.at_least role UAdmin) then Some (lit "not_admin")
      else None
  | _ => Some (lit "unsupported_subject")
  end.
Definition require_system_admin (subject : Subject) (role : UserRole) (is_external active : bool)
  : result DomainError unit :=
  match system_admin_denial_reason subject role is_external active with
  | None => Ok tt
  | Some _ => Err (DomainError.access_denied (lit "System") (lit "Admin access required"))
  end.

Inductive AuthzDenialVisibility := Visible | Hidden.

(** The label and identifier a denial reports. *)
Definition denial_kind (r : Resource) : str :=
  match r with
  | Folder _ => lit "Folder" | File _ => lit "File" | Drive _ => lit "Drive"
  | Calendar _ => lit "Calendar" | AddressBook _ => lit "AddressBook"
  | Playlist _ => lit "Playlist"
  end.

Class AuthorizationEngine (St : Type) :=
  az_check : Subject -> Permission -> Resource -> M St DomainError bool.

Section defaults.
Context {St : Type} `{AuthorizationEngine St} `{UuidText}.

Definition denial (visibility : AuthzDenialVisibility) (p : Permission) (r : Resource)
  : DomainError :=
  let id := uuid_to_string (Resource.id r) in
  match visibility with
  | Visible => DomainError.access_denied (denial_kind r)
      (lit "Missing '" ++ Permission.as_str p ++ lit "' permission on "
         ++ denial_kind r ++ lit " " ++ id)
  | Hidden => DomainError.not_found (denial_kind r) id
  end.

Definition require (subject : Subject) (p : Permission) (r : Resource) : M St DomainError unit :=
  allowed ← az_check subject p r;
  if allowed : bool then mret tt
  else
    visibility ←
      (if decide (p = Read) then mret Hidden
       else
         probe ← attempt (az_check subject Read r);
         mret (match probe with Ok true => Visible | _ => Hidden end));
    raise (denial visibility p r).

Fixpoint first_allowed (subjects : list Subject) (p : Permission) (r : Resource)
  : M St DomainError (option Subject) :=
  match subjects with
  | [] => mret None
  | s :: rest =>
      allowed ← az_check s p r;
      if allowed : bool then mret (Some s) else first_allowed rest p r
  end.
Definition require_any (subjects : list Subject) (p : Permission) (r : Resource)
  : M St DomainError Subject :=
  hit ← first_allowed subjects p r;
  match hit with
  | Some s => mret s
  | None =>
      match subjects with
      | primary :: _ => _ ← require primary p r; mret primary
      | [] => raise (DomainError.not_found (Resource.type_str r) (uuid_to_string (Resource.id r)))
      end
  end.

(** The trait's own [check_files_read_batch]: one check per file. *)
Fixpoint check_files_read_loop (subject : Subject) (file_ids : list Uuid) (allowed : gset Uuid)
  : M St DomainError (gset Uuid) :=
  match file_ids with
  | [] => mret allowed
  | id :: rest =>
      ok ← az_check subject Read (File id);
      check_files_read_loop subject rest (if ok : bool then {[ id ]} ∪ allowed else allowed)
  end.
End defaults.

(** ** The contract of an engine

    [az_decision] is the decision an engine stands for in a state; a check that answers,
    answers it, and leaves the decision as it was; it fails only where the state is not
    healthy (a database outage). *)
Class AuthzLaws (St : Type) `{AuthorizationEngine St} := {
  az_inv : St -> Prop;
  az_healthy : St -> Prop;
  az_decision : St -> Subject -> Permission -> Resource -> bool;
  az_check_spec st s p r : az_inv st ->
    let '(res, st') := az_check s p r st in
    az_inv st' ∧ (forall s' p' r', az_decision st' s' p' r' = az_decision st s' p' r')
    ∧ (az_healthy st -> az_healthy st')
    ∧ (res = Ok (az_decision st s p r) ∨ (exists err, res = Err err) ∧ ~ az_healthy st);
}.

Section laws.
Context {St : Type} `{AuthzLaws St} `{UuidText}.

Lemma check_healthy st s p r :
  az_inv st -> az_healthy st -> exists st',
    az_check s p r st = (Ok (az_decision st s p r), st') ∧ az_inv st' ∧ az_healthy st'
    ∧ (forall s' p' r', az_decision st' s' p' r' = az_decision st s' p' r').
Proof.
  intros Hi Hh. pose proof (az_check_spec st s p r Hi) as Hc.
  destruct (az_check s p r st) as [res st']. destruct Hc as (Hi' & Hd & Hh' & [->|[_ Hn]]); [|done].
  exists st'. auto.
Qed.

(** [require] on a healthy engine: the exact outcome. *)
Lemma require_healthy st s p r :
  az_inv st -> az_healthy st -> exists st',
    require s p r st =
      ((if az_decision st s p r then Ok tt
        else Err (denial (if az_decision st s Read r then Visible else Hidden) p r)), st').
Proof.
  intros Hi Hh. destruct (check_healthy st s p r Hi Hh) as (st1 & E1 & Hi1 & Hh1 & Hd1).
  unfold require. rewrite (bind_ok _ _ _ _ _ E1). destruct (az_decision st s p r) eqn:Ed.
  { by eexists. }
  destruct (decide (p = Read)) as [->|Hne].
  { rewrite Ed. by eexists. }
  destruct (check_healthy st1 s Read r Hi1 Hh1) as (st2 & E2 & _ & _ & _).
  rewrite Hd1 in E2. unfold attempt. unfold_m. rewrite E2.
  destruct (az_decision st s Read r); by eexists.
Qed.

(** Under an outage nothing is granted that the decision does not grant. *)
Lemma require_fail_closed st s p r st' :
  az_inv st -> require s p r st = (Ok tt, st') -> az_decision st s p r = true.
Proof.
  intros Hi Hr. pose proof (az_check_spec st s p r Hi) as Hc. unfold require in Hr.
  apply bind_inv in Hr as [(allowed & st1 & E & Hr)|(e & _ & ?)]; [|done].
  rewrite E in Hc. destruct Hc as (_ & _ & _ & [[= ->]|[[err ?] _]]); [|done].
  destruct (az_decision st s p r); [done|].
  apply bind_inv in Hr as [(v & st2 & _ & Hr)|(e & _ & ?)]; done.
Qed.

Lemma first_allowed_healthy subjects p r : forall st, az_inv st -> az_healthy st ->
  exists st', first_allowed subjects p r st =
      (Ok (find (fun s => az_decision st s p r) subjects), st')
    ∧ az_inv st' ∧ az_healthy st'
    ∧ (forall s' p' r', az_decision st' s' p' r' = az_decision st s' p' r').
Proof.
  induction subjects as [|s rest IH]; intros st Hi Hh; simpl; [by exists st|].
  destruct (check_healthy st s p r Hi Hh) as (st1 & E1 & Hi1 & Hh1 & Hd1).
  rewrite (bind_ok _ _ _ _ _ E1). destruct (az_decision st s p r).
  { by exists st1. }
  destruct (IH st1 Hi1 Hh1) as (st2 & E2 & Hi2 & Hh2 & Hd2). exists st2. rewrite E2.
  split_and!; [|done|done|intros; by rewrite Hd2].
  f_equal. f_equal. clear - Hd1. induction rest as [|x rest IH]; simpl; [done|].
  rewrite Hd1. by rewrite IH.
Qed.

Lemma check_files_read_loop_healthy subject file_ids : forall st acc, az_inv st -> az_healthy st ->
  exists st', check_files_read_loop subject file_ids acc st =
    (Ok (list_to_set (filter (fun f => az_decision st subject Read (File f) = true) file_ids) ∪ acc),
     st') ∧ az_inv st' ∧ az_healthy st'.
Proof.
  induction file_ids as [|f rest IH]; intros st acc Hi Hh; simpl.
  { exists st. split_and!; [|done|done]. unfold mret, M_ret. f_equal. f_equal. set_solver. }
  destruct (check_healthy st subject Read (File f) Hi Hh) as (st1 & E1 & Hi1 & Hh1 & Hd1).
  rewrite (bind_ok _ _ _ _ _ E1).
  destruct (IH st1 (if az_decision st subject Read (File f) then {[f]} ∪ acc else acc) Hi1 Hh1)
    as (st2 & -> & ?). exists st2. split; [|done]. f_equal. f_equal.
  assert (Hf : filter (fun f => az_decision st1 subject Read (File f) = true) rest
             = filter (fun f => az_decision st subject Read (File f) = true) rest).
  { apply list_filter_iff. intros x. by rewrite Hd1. }
  rewrite Hf, filter_cons. destruct (az_decision st subject Read (File f)); simpl; set_solver.
Qed.

(** [require] never leaks and never over-grants.  On a healthy engine it succeeds exactly
    when the permission is granted; a subject without [Read] on the resource gets the same
    not-found error whatever permission it asked for and whether or not the resource exists;
    a subject that can read gets an access-denied error.  Under an outage it may fail, but a
    success still means the permission is granted. *)
Theorem require_contract st s p r :
  az_inv st ->
  (az_healthy st ->
     (az_decision st s p r = true -> exists st', require s p r st = (Ok tt, st'))
     ∧ (az_decision st s p r = false -> az_decision st s Read r = false -> exists st',
          require s p r st
          = (Err (DomainError.not_found (denial_kind r) (uuid_to_string (Resource.id r))), st'))
     ∧ (az_decision st s p r = false -> az_decision st s Read r = true -> exists st' err,
          require s p r st = (Err err, st') ∧ kind err = AccessDenied))
  ∧ (forall st', require s p r st = (Ok tt, st') -> az_decision st s p r = true).
Proof.
  intros Hi. split; [|intros st'; by apply require_fail_closed].
  intros Hh. destruct (require_healthy st s p r Hi Hh) as (st' & E). split_and!.
  - intros Hd. rewrite Hd in E. eauto.
  - intros Hd Hr. rewrite Hd, Hr in E. eauto.
  - intros Hd Hr. rewrite Hd, Hr in E. eauto.
Qed.

(** [require_any] over several credentials returns the first one, in order, that carries
    the permission; when none does, the error is the one the primary (first) credential would
    get, and an empty credential list is refused. *)
Theorem require_any_contract st subjects p r :
  az_inv st -> az_healthy st -> exists st',
    require_any subjects p r st =
    ((match find (fun s => az_decision st s p r) subjects with
      | Some s => Ok s
      | None =>
          match subjects with
          | primary :: _ =>
              Err (denial (if az_decision st primary Read r then Visible else Hidden) p r)
          | [] => Err (DomainError.not_found (Resource.type_str r) (uuid_to_string (Resource.id r)))
          end
      end), st').
Proof.
  intros Hi Hh. destruct (first_allowed_healthy subjects p r st Hi Hh) as (st1 & E1 & Hi1 & Hh1 & Hd1).
  unfold require_any. rewrite (bind_ok _ _ _ _ _ E1).
  destruct (find _ subjects) as [s|] eqn:Ef; [by eexists|].
  destruct subjects as [|primary rest]; [by eexists|].
  destruct (require_healthy st1 primary p r Hi1 Hh1) as (st2 & E2). rewrite !Hd1 in E2.
  simpl in Ef. destruct (az_decision st primary p r); [done|].
  exists st2. by rewrite (bind_err _ _ _ _ _ E2).
Qed.
End laws.
