(* ===== verification/AclEngine.v ===== *)
(** * The authorization engine

    [src/src/infrastructure/services/pg_acl_engine.rs] and the default methods of the trait
    [AuthorizationEngine] in [src/src/application/ports/authorization_ports.rs]: the decision
    [check_inner], its seven caches, the subject expansion, the batched read check, the grant
    writes with their cache invalidations, [require] and [require_any].

    The state is the world the engine reads (tables, [NOW()], the migration flag), a script
    of database faults, and the caches.  A query takes the next entry of the script: [Some e]
    makes it fail with the driver's error text [e].  The counters and log lines are left out.
    The parent lookup is the uncontended path of its batching: the caller finds no batch in
    flight, leads, and has no waiters to serve. *)

From S2P Require Import Prelude.
From S2P Require Import RustStr.
From S2P Require Import DomainErrors.
From S2P Require Import Authorization.
From S2P Require Import DrivePolicies.
From S2P Require Import Moka.
From S2P Require Import AclDb.
From S2P Require Import AuthzPort.

(** What a decision depends on besides caches and faults. *)
Record World := mkWorld {
  w_db : Db;
  w_now : Z;
  w_migration_readonly : bool;
  w_group_repo : bool;  (** whether [group_repo] is wired *)
}.

(** Time to live of the caches, in microseconds. *)
Definition OWNER_CACHE_TTL : Z := 300000000.
Definition DRIVE_ROLE_CACHE_TTL : Z := 30000000.
Definition DRIVE_POLICIES_CACHE_TTL : Z := 30000000.
Definition CASCADE_GRANT_CACHE_TTL : Z := 30000000.
Definition DIRECT_GRANT_CACHE_TTL : Z := 30000000.
Definition FILE_PARENT_CACHE_TTL : Z := 30000000.
Definition USER_GROUPS_CACHE_TTL : Z := 30000000.
Definition MAX_GRANT_ROWS : Z := 10000.

Definition read_only_gate_applies (p : Permission) : bool :=
  match p with Read => false | _ => true end.
Definition roles_implying_strings (p : Permission) : list str :=
  Role.as_str <$> roles_implying p.
Definition grant_bundle_has (r : Role) (p : Permission) : bool := bool_decide (p ∈ Role.expand r).

Definition guard_grant_row_cap (returned : Z) (op : str) : result DomainError unit :=
  if (MAX_GRANT_ROWS <? returned)%Z then
    Err (DomainError.internal_error (lit "PgAcl")
           (op ++ lit ": too many grants (cap " ++ dec MAX_GRANT_ROWS ++ lit ")"))
  else Ok tt.

(** [row_to_grant]: a row as the driver delivers it. *)
Definition grant_row : Type := Uuid * str * Uuid * str * Uuid * str * Uuid * Z * option Z.
Definition row_to_grant (row : grant_row) : result DomainError Grant :=
  let '(gid, st, sid, rt, rid, ro, by_, at_, ex) := row in
  subject ← ok_or (Subject.from_parts st sid)
              (DomainError.internal_error (lit "PgAcl") (lit "unknown subject_type"));
  resource ← ok_or (Resource.from_parts rt rid)
              (DomainError.internal_error (lit "PgAcl") (lit "unknown resource_type"));
  role ← ok_or (Role.parse ro) (DomainError.internal_error (lit "PgAcl") (lit "unknown role"));
  Ok (mkGrant gid subject resource role by_ at_ ex).
Definition grant_to_row (g : Grant) : grant_row :=
  (g_id g, Subject.type_str (g_subject g), Subject.id (g_subject g),
   Resource.type_str (g_resource g), Resource.id (g_resource g), Role.as_str (g_role g),
   g_granted_by g, g_granted_at g, g_expires_at g).

Section engine.
Context {Cache : forall (K : Type) {E : EqDecision K} {C : @Countable K E}, Type -> Type}.
#[local] Arguments Cache _ {_ _} _.
Context `{!Moka (@Cache)} `{PolicyCodec} `{UuidText}.

Record Engine := mkEngine {
  world : World;
  faults : list (option str);
  user_groups_cache : Cache Uuid (gset Uuid);
  owner_cache : Cache Resource Uuid;
  drive_role_cache : Cache (Subject * Uuid) (option Role);
  drive_policies_cache : Cache Uuid DrivePolicies;
  cascade_grant_cache : Cache (Subject * Resource * Permission) bool;
  direct_grant_cache : Cache (Subject * Resource * Permission) bool;
  file_parent_cache : Cache Uuid (option Uuid);
}.
Definition now (e : Engine) : Z := w_now (world e).

Definition set_db (e : Engine) (db : Db) : Engine :=
  let w := world e in
  mkEngine (mkWorld db (w_now w) (w_migration_readonly w) (w_group_repo w)) (faults e)
    (user_groups_cache e) (owner_cache e) (drive_role_cache e) (drive_policies_cache e)
    (cascade_grant_cache e) (direct_grant_cache e) (file_parent_cache e).
Definition set_faults (e : Engine) fs : Engine :=
  mkEngine (world e) fs (user_groups_cache e) (owner_cache e) (drive_role_cache e)
    (drive_policies_cache e) (cascade_grant_cache e) (direct_grant_cache e) (file_parent_cache e).
Definition set_user_groups (e : Engine) c : Engine :=
  mkEngine (world e) (faults e) c (owner_cache e) (drive_role_cache e)
    (drive_policies_cache e) (cascade_grant_cache e) (direct_grant_cache e) (file_parent_cache e).
Definition set_owner (e : Engine) c : Engine :=
  mkEngine (world e) (faults e) (user_groups_cache e) c (drive_role_cache e)
    (drive_policies_cache e) (cascade_grant_cache e) (direct_grant_cache e) (file_parent_cache e).
Definition set_drive_role (e : Engine) c : Engine :=
  mkEngine (world e) (faults e) (user_groups_cache e) (owner_cache e) c
    (drive_policies_cache e) (cascade_grant_cache e) (direct_grant_cache e) (file_parent_cache e).
Definition set_policies (e : Engine) c : Engine :=
  mkEngine (world e) (faults e) (user_groups_cache e) (owner_cache e) (drive_role_cache e)
    c (cascade_grant_cache e) (direct_grant_cache e) (file_parent_cache e).
Definition set_cascade (e : Engine) c : Engine :=
  mkEngine (world e) (faults e) (user_groups_cache e) (owner_cache e) (drive_role_cache e)
    (drive_policies_cache e) c (direct_grant_cache e) (file_parent_cache e).
Definition set_direct (e : Engine) c : Engine :=
  mkEngine (world e) (faults e) (user_groups_cache e) (owner_cache e) (drive_role_cache e)
    (drive_policies_cache e) (cascade_grant_cache e) c (file_parent_cache e).
Definition set_file_parent (e : Engine) c : Engine :=
  mkEngine (world e) (faults e) (user_groups_cache e) (owner_cache e) (drive_role_cache e)
    (drive_policies_cache e) (cascade_grant_cache e) (direct_grant_cache e) c.

Definition AM (T : Type) : Type := M Engine DomainError T.

(** One SQL statement: it answers from the tables or fails with the driver's error. *)
Definition sql {T} (on_error : str -> DomainError) (q : Db -> Z -> T) : AM T := fun e =>
  match faults e with
  | Some txt :: fs => (Err (on_error txt), set_faults e fs)
  | None :: fs => (Ok (q (w_db (world e)) (now e)), set_faults e fs)
  | [] => (Ok (q (w_db (world e)) (now e)), e)
  end.
Definition pg_err (what txt : str) : DomainError :=
  DomainError.internal_error (lit "PgAcl") (what ++ lit ": " ++ txt).

(** ** Subject expansion *)
Definition expand_user (user_id : Uuid) : AM (gset Uuid) :=
  cached ← gets (fun e => cget (user_groups_cache e) (now e) user_id);
  match cached with
  | Some s => mret s
  | None =>
      r_external ← attempt (sql (pg_err (lit "lookup is_external"))
                              (fun db _ => default true (sql_is_external db user_id)));
      wired ← gets (fun e => w_group_repo (world e));
      r_direct ← attempt (if wired : bool
                   then Some <$> sql (pg_err (lit "groups_for_user"))
                                   (fun db _ => groups_for_user db user_id)
                   else mret None);
      is_external ← lift r_external;
      let set := {[ user_id ]} ∪ (if is_external : bool then ∅ else {[ INTERNAL_GROUP_ID ]}) in
      direct ← lift r_direct;
      let set := set ∪ default ∅ direct in
      _ ← modify (fun e => set_user_groups e
                    (cinsert (user_groups_cache e) (now e) USER_GROUPS_CACHE_TTL user_id set));
      mret set
  end.

Definition subject_match_set (subject : Subject) : AM (list str * gset Uuid) :=
  match subject with
  | User uid => expanded ← expand_user uid; mret ([lit "user"; lit "group"], expanded)
  | _ => mret ([Subject.type_str subject], {[ Subject.id subject ]})
  end.
Definition expand_subject_for_listing (subject : Subject) : AM (list str * gset Uuid) :=
  subject_match_set subject.

(** ** The drive of a resource *)
Definition get_folder_drive_id (folder_id : Uuid) : AM Uuid :=
  row ← sql (fun txt => DomainError.internal_error (lit "FolderDb") (lit "drive_id lookup: " ++ txt))
          (fun db _ => fo_drive <$> folders db !! folder_id);
  lift (ok_or row (DomainError.not_found (lit "Folder") (uuid_to_string folder_id))).
Definition get_file_drive_id (file_id : Uuid) : AM Uuid :=
  row ← sql (fun txt => DomainError.internal_error (lit "FileBlobRead") (lit "drive_id lookup: " ++ txt))
          (fun db _ => fi_drive <$> files db !! file_id);
  lift (ok_or row (DomainError.not_found (lit "File") (uuid_to_string file_id))).
Definition drive_of (resource : Resource) : AM Uuid :=
  match resource with
  | Folder id => get_folder_drive_id id
  | File id => get_file_drive_id id
  | Drive _ | Calendar _ | AddressBook _ | Playlist _ =>
      raise (DomainError.not_found (Resource.type_str resource)
               (uuid_to_string (Resource.id resource)))
  end.
Definition drive_of_cached (resource : Resource) : AM Uuid :=
  cached ← gets (fun e => cget (owner_cache e) (now e) resource);
  match cached with
  | Some drive_id => mret drive_id
  | None =>
      drive_id ← drive_of resource;
      _ ← modify (fun e => set_owner e
                    (cinsert (owner_cache e) (now e) OWNER_CACHE_TTL resource drive_id));
      mret drive_id
  end.

(** ** The grant queries *)
Definition direct_grant_exists (types : list str) (ids : gset Uuid) (p : Permission)
    (resource_type : str) (resource_id : Uuid) : AM bool :=
  sql (pg_err (lit "direct grant"))
    (fun db t => sql_grant_exists db t types ids (roles_implying_strings p) resource_type resource_id).
Definition folder_cascade_grant_exists (types : list str) (ids : gset Uuid) (p : Permission)
    (folder_id : Uuid) : AM bool :=
  sql (pg_err (lit "folder cascade"))
    (fun db t => sql_folder_cascade db t types ids (roles_implying_strings p) folder_id).
Definition file_direct_grant_exists (types : list str) (ids : gset Uuid) (p : Permission)
    (file_id : Uuid) : AM bool :=
  sql (pg_err (lit "file direct grant"))
    (fun db t => sql_grant_exists db t types ids (roles_implying_strings p) (lit "file") file_id).

Definition query_parent_point (file_id : Uuid) : AM (option Uuid) :=
  sql (pg_err (lit "file parent")) (fun db _ => sql_file_parent db file_id).
Definition file_parent_folder_cached (file_id : Uuid) : AM (option Uuid) :=
  cached ← gets (fun e => cget (file_parent_cache e) (now e) file_id);
  match cached with
  | Some parent => mret parent
  | None =>
      own ← query_parent_point file_id;
      _ ← modify (fun e => set_file_parent e
                    (cinsert (file_parent_cache e) (now e) FILE_PARENT_CACHE_TTL file_id own));
      mret own
  end.

(** [cache.try_get_with(key, loader)] in the absence of a concurrent loader: a cached value
    is served, a loaded value is cached, an error is not. *)
Definition direct_grant_cached (subject : Subject) (resource : Resource) (p : Permission)
    (resource_type : str) (id : Uuid) : AM bool :=
  cached ← gets (fun e => cget (direct_grant_cache e) (now e) (subject, resource, p));
  match cached with
  | Some allowed => mret allowed
  | None =>
      map_err_m (fun err => DomainError.internal_error (lit "PgAcl")
                              (lit "direct grant load: " ++ DomainError.to_string err))
        ('(types, ids) ← subject_match_set subject;
         allowed ← direct_grant_exists types ids p resource_type id;
         _ ← modify (fun e => set_direct e
               (cinsert (direct_grant_cache e) (now e) DIRECT_GRANT_CACHE_TTL
                  (subject, resource, p) allowed));
         mret allowed)
  end.

(** The recursive call of the file arm is on the parent folder, whose arm does not recurse:
    [cascade_body] takes it as an argument and [cascade_grant_cached] ties the knot. *)
Definition cascade_body (on_folder : Uuid -> AM bool) (subject : Subject) (resource : Resource)
    (p : Permission) : AM bool :=
  cached ← gets (fun e => cget (cascade_grant_cache e) (now e) (subject, resource, p));
  match cached with
  | Some allowed => mret allowed
  | None =>
      match resource with
      | Folder _ | File _ =>
          map_err_m (fun err => DomainError.new (kind err) (entity_type err) (message err))
            (allowed ←
               match resource with
               | Folder id =>
                   '(types, ids) ← subject_match_set subject;
                   folder_cascade_grant_exists types ids p id
               | File id =>
                   parent ← file_parent_folder_cached id;
                   folder_allowed ← match parent with
                                    | Some f => on_folder f
                                    | None => mret false
                                    end;
                   if folder_allowed : bool then mret true
                   else '(types, ids) ← subject_match_set subject;
                        file_direct_grant_exists types ids p id
               | _ => mret false
               end;
             _ ← modify (fun e => set_cascade e
                   (cinsert (cascade_grant_cache e) (now e) CASCADE_GRANT_CACHE_TTL
                      (subject, resource, p) allowed));
             mret allowed)
      | _ => mret false
      end
  end.
Definition cascade_folder (subject : Subject) (p : Permission) (folder : Uuid) : AM bool :=
  cascade_body (fun _ => mret false) subject (Folder folder) p.
Definition cascade_grant_cached (subject : Subject) (resource : Resource) (p : Permission) : AM bool :=
  cascade_body (cascade_folder subject p) subject resource p.

Definition caller_role_on_drive_cached (subject : Subject) (drive_id : Uuid) : AM (option Role) :=
  cached ← gets (fun e => cget (drive_role_cache e) (now e) (subject, drive_id));
  match cached with
  | Some r => mret r
  | None =>
      '(types, ids) ← subject_match_set subject;
      role_str ← sql (pg_err (lit "drive role lookup"))
                   (fun db t => sql_drive_role db t types ids drive_id);
      let role := role_str ≫= Role.parse in
      _ ← modify (fun e => set_drive_role e
            (cinsert (drive_role_cache e) (now e) DRIVE_ROLE_CACHE_TTL (subject, drive_id) role));
      mret role
  end.

Definition drive_policies_cached (drive_id : Uuid) : AM DrivePolicies :=
  cached ← gets (fun e => cget (drive_policies_cache e) (now e) drive_id);
  match cached with
  | Some p => mret p
  | None =>
      row ← sql (pg_err (lit "policies lookup")) (fun db _ => sql_effective_policies db drive_id);
      let policies := default policies_default (policies_from_value <$> row) in
      _ ← modify (fun e => set_policies e
            (cinsert (drive_policies_cache e) (now e) DRIVE_POLICIES_CACHE_TTL drive_id policies));
      mret policies
  end.

(** ** The decision *)
Definition frozen_drive (p : Permission) (drive_id : Uuid) : AM bool :=
  if read_only_gate_applies p then read_only <$> drive_policies_cached drive_id else mret false.

Definition check_inner (subject : Subject) (p : Permission) (resource : Resource) : AM bool :=
  migration ← gets (fun e => w_migration_readonly (world e));
  if read_only_gate_applies p && migration then mret false
  else
    match resource with
    | Folder _ | File _ =>
        found ← attempt (drive_of_cached resource);
        match found with
        | Err err => if decide (kind err = NotFound) then mret false else raise err
        | Ok drive_id =>
            frozen ← frozen_drive p drive_id;
            if frozen : bool then mret false
            else
              role ← caller_role_on_drive_cached subject drive_id;
              if match role with Some r => grant_bundle_has r p | None => false end then mret true
              else cascade_grant_cached subject resource p
        end
    | Drive id =>
        frozen ← frozen_drive p id;
        if frozen : bool then mret false
        else
          role ← caller_role_on_drive_cached subject id;
          mret (match role with Some r => grant_bundle_has r p | None => false end)
    | Calendar id => direct_grant_cached subject resource p (lit "calendar") id
    | AddressBook id => direct_grant_cached subject resource p (lit "address_book") id
    | Playlist id => direct_grant_cached subject resource p (lit "playlist") id
    end.
Definition check (subject : Subject) (p : Permission) (resource : Resource) : AM bool :=
  check_inner subject p resource.
#[export] Instance pg_acl_engine : AuthorizationEngine Engine := check.

(** ** The batched read check *)
Definition get_file_drive_ids (file_ids : list Uuid) : AM (list (Uuid * Uuid)) :=
  match file_ids with
  | [] => mret []
  | _ => sql (fun txt => DomainError.internal_error (lit "FileBlobRead")
                           (lit "drive_id batch lookup: " ++ txt))
           (fun db _ => (fun row => (row.1, fi_drive row.2)) <$>
                        filter (fun row => row.1 ∈ file_ids) (map_to_list (files db)))
  end.
Fixpoint prime_owner_cache (pairs : list (Uuid * Uuid)) : AM unit :=
  match pairs with
  | [] => mret tt
  | (file_id, drive_id) :: rest =>
      _ ← modify (fun e => set_owner e
            (cinsert (owner_cache e) (now e) OWNER_CACHE_TTL (File file_id) drive_id));
      prime_owner_cache rest
  end.
Fixpoint batch_drive_floor (subject : Subject) (pairs : list (Uuid * Uuid))
    (readable : gmap Uuid bool) : AM (gmap Uuid bool) :=
  match pairs with
  | [] => mret readable
  | (_, drive_id) :: rest =>
      match readable !! drive_id with
      | Some _ => batch_drive_floor subject rest readable
      | None =>
          role ← caller_role_on_drive_cached subject drive_id;
          let ok := match role with Some r => grant_bundle_has r Read | None => false end in
          batch_drive_floor subject rest (<[drive_id := ok]> readable)
      end
  end.
Fixpoint batch_collect (subject : Subject) (pairs : list (Uuid * Uuid))
    (readable : gmap Uuid bool) (allowed : gset Uuid) : AM (gset Uuid) :=
  match pairs with
  | [] => mret allowed
  | (file_id, drive_id) :: rest =>
      if default false (readable !! drive_id)
      then batch_collect subject rest readable ({[ file_id ]} ∪ allowed)
      else
        ok ← check_inner subject Read (File file_id);
        batch_collect subject rest readable (if ok : bool then {[ file_id ]} ∪ allowed else allowed)
  end.
Definition check_files_read_batch (subject : Subject) (file_ids : list Uuid) : AM (gset Uuid) :=
  pairs ← get_file_drive_ids file_ids;
  _ ← prime_owner_cache pairs;
  readable ← batch_drive_floor subject pairs ∅;
  batch_collect subject pairs readable ∅.

(** ** Cache invalidation *)
Definition invalidate_user_groups_cache (user_id : Uuid) (e : Engine) : Engine :=
  set_user_groups e (cinvalidate (user_groups_cache e) user_id).
Definition invalidate_drive_policies_cache_for_drive (drive_id : Uuid) (e : Engine) : Engine :=
  set_policies e (cinvalidate (drive_policies_cache e) drive_id).
Definition invalidate_drive_policies_cache_all (e : Engine) : Engine :=
  set_policies e (cinvalidate_all (drive_policies_cache e)).
Definition invalidate_drive_role_cache_for_drive (drive_id : Uuid) (e : Engine) : Engine :=
  set_drive_role e (cinvalidate_if (drive_role_cache e) (fun k _ => bool_decide (k.2 = drive_id))).
Definition invalidate_drive_role_cache_for_subject (subject : Subject) (e : Engine) : Engine :=
  set_drive_role e (cinvalidate_if (drive_role_cache e) (fun k _ => bool_decide (k.1 = subject))).
Definition invalidate_owner_cache_for_resource (resource : Resource) (e : Engine) : Engine :=
  set_owner e (cinvalidate (owner_cache e) resource).
Definition invalidate_owner_cache_all (e : Engine) : Engine :=
  set_owner e (cinvalidate_all (owner_cache e)).
Definition invalidate_cascade_grant_cache_all (e : Engine) : Engine :=
  set_cascade e (cinvalidate_all (cascade_grant_cache e)).
Definition invalidate_direct_grant_cache_all (e : Engine) : Engine :=
  set_direct e (cinvalidate_all (direct_grant_cache e)).

(** The invalidations [set_role] and [clear_role] end with. *)
Definition invalidate_for_resource (resource : Resource) (e : Engine) : Engine :=
  let e := match resource with
           | Drive drive_id => invalidate_drive_role_cache_for_drive drive_id e
           | _ => e
           end in
  let e := match resource with
           | File _ | Folder _ => invalidate_cascade_grant_cache_all e
           | _ => e
           end in
  match resource with
  | Calendar _ | AddressBook _ | Playlist _ => invalidate_direct_grant_cache_all e
  | _ => e
  end.

(** ** Grant writes *)
Definition sql_exec {T} (on_error : str -> DomainError) (stmt : Db -> Z -> list Grant * T) : AM T :=
  fun e =>
    let run e :=
      let '(gs, v) := stmt (w_db (world e)) (now e) in
      (Ok v, set_db e (with_grants (w_db (world e)) gs)) in
    match faults e with
    | Some txt :: fs => (Err (on_error txt), set_faults e fs)
    | None :: fs => run (set_faults e fs)
    | [] => run e
    end.

Definition same_key (subject : Subject) (resource : Resource) (g : Grant) : bool :=
  bool_decide (g_subject g = subject) && bool_decide (g_resource g = resource).

(** [INSERT .. ON CONFLICT (subject, resource) DO UPDATE .. RETURNING ..]; the identifier of
    a new row is the one the database generates. *)
Definition sql_upsert_grant (fresh : Uuid) (granted_by : Uuid) (subject : Subject) (role : Role)
    (resource : Resource) (expires_at : option Z) (db : Db) (t : Z) : list Grant * grant_row :=
  match find (same_key subject resource) (role_grants db) with
  | Some old =>
      let new := mkGrant (g_id old) subject resource role granted_by (g_granted_at old) expires_at in
      ((fun g => if same_key subject resource g then new else g) <$> role_grants db,
       grant_to_row new)
  | None =>
      let new := mkGrant fresh subject resource role granted_by t expires_at in
      (role_grants db ++ [new], grant_to_row new)
  end.
Definition set_role (fresh granted_by : Uuid) (subject : Subject) (role : Role)
    (resource : Resource) (expires_at : option Z) : AM Grant :=
  row ← sql_exec (pg_err (lit "set_role"))
          (sql_upsert_grant fresh granted_by subject role resource expires_at);
  _ ← modify (invalidate_for_resource resource);
  lift (row_to_grant row).

(** [DELETE FROM storage.role_grants WHERE ..]: the rows kept and the number removed. *)
Definition sql_delete (p : Z -> Grant -> bool) (db : Db) (t : Z) : list Grant * Z :=
  (filter (fun g => p t g = false) (role_grants db),
   Z.of_nat (length (filter (fun g => p t g = true) (role_grants db)))).
Definition clear_role (subject : Subject) (resource : Resource) : AM unit :=
  _ ← sql_exec (pg_err (lit "clear_role")) (sql_delete (fun _ => same_key subject resource));
  modify (invalidate_for_resource resource).
Definition revoke (grant_id : Uuid) : AM unit :=
  _ ← sql_exec (pg_err (lit "revoke")) (sql_delete (fun _ g => bool_decide (g_id g = grant_id)));
  mret tt.
Definition revoke_all_for_resource (resource : Resource) : AM Z :=
  sql_exec (pg_err (lit "revoke for resource"))
    (sql_delete (fun _ g => bool_decide (g_resource g = resource))).
Definition revoke_all_for_subject (subject : Subject) : AM Z :=
  sql_exec (pg_err (lit "revoke for subject"))
    (sql_delete (fun _ g => bool_decide (g_subject g = subject))).
Definition set_expiry_for_subject (subject : Subject) (expires_at : option Z) : AM unit :=
  _ ← sql_exec (pg_err (lit "set_expiry_for_subject"))
        (fun db _ => ((fun g => if bool_decide (g_subject g = subject)
                                then mkGrant (g_id g) (g_subject g) (g_resource g) (g_role g)
                                       (g_granted_by g) (g_granted_at g) expires_at
                                else g) <$> role_grants db, tt));
  modify invalidate_cascade_grant_cache_all.
(** One day, in microseconds. *)
Definition DAY : Z := 86400000000.
Definition purge_expired_grants (grace_days : Z) : AM Z :=
  sql_exec (pg_err (lit "purge_expired_grants"))
    (sql_delete (fun t g => match g_expires_at g with
                            | Some e => (e <? t - grace_days * DAY)%Z
                            | None => false
                            end)).

(** [find_grant_full_by_id] *)
Definition find_grant_full_by_id (grant_id : Uuid) : AM (option (Subject * Resource * Uuid)) :=
  row ← sql (pg_err (lit "find_grant_full_by_id"))
          (fun db _ => grant_to_row <$> find (fun g => bool_decide (g_id g = grant_id)) (role_grants db));
  match row with
  | None => mret None
  | Some (_, st, sid, rt, rid, _, granter, _, _) =>
      subject ← lift (ok_or (Subject.from_parts st sid)
                   (DomainError.internal_error (lit "PgAcl") (lit "unknown subject_type")));
      resource ← lift (ok_or (Resource.from_parts rt rid)
                   (DomainError.internal_error (lit "PgAcl") (lit "unknown resource_type")));
      mret (Some (subject, resource, granter))
  end.

(** The lifecycle hook [AuthzCacheLifecycleHook]. *)
Definition on_user_logout (user_id : Uuid) (e : Engine) : Engine :=
  invalidate_user_groups_cache user_id e.
Definition on_user_deleted (user_id : Uuid) (e : Engine) : Engine :=
  invalidate_drive_role_cache_for_subject (User user_id) (invalidate_user_groups_cache user_id e).
End engine.
