(* ===== verification/AclSpec.v ===== *)
(** * What the authorization engine decides

    The decision as a function of the world alone, with no caches and no faults, its reading
    as a predicate on grants, and the proof that the cached, fault-exposed engine of
    [AclEngine] answers it: whatever the caches hold, as long as what they hold is right. *)

From S2P Require Import Prelude.
From S2P Require Import RustStr.
From S2P Require Import DomainErrors.
From S2P Require Import Authorization.
From S2P Require Import DrivePolicies.
From S2P Require Import Moka.
From S2P Require Import AclDb.
From S2P Require Import AuthzPort.
From S2P Require Import AclEngine.

Section spec.
Context `{PolicyCodec}.
Implicit Types (w : World) (s : Subject) (p : Permission) (r : Resource).

(** ** The decision *)
Definition spec_expand w (u : Uuid) : gset Uuid :=
  {[ u ]} ∪ (if default true (sql_is_external (w_db w) u) then ∅ else {[ INTERNAL_GROUP_ID ]})
  ∪ (if w_group_repo w then groups_for_user (w_db w) u else ∅).
Definition spec_types s : list str :=
  match s with User _ => [lit "user"; lit "group"] | _ => [Subject.type_str s] end.
Definition spec_ids w s : gset Uuid :=
  match s with User u => spec_expand w u | _ => {[ Subject.id s ]} end.
Definition spec_drive_of w r : option Uuid :=
  match r with
  | Folder i => fo_drive <$> folders (w_db w) !! i
  | File i => fi_drive <$> files (w_db w) !! i
  | _ => None
  end.
Definition spec_role w s (d : Uuid) : option Role :=
  sql_drive_role (w_db w) (w_now w) (spec_types s) (spec_ids w s) d ≫= Role.parse.
Definition spec_policies w (d : Uuid) : DrivePolicies :=
  default policies_default (policies_from_value <$> sql_effective_policies (w_db w) d).
Definition spec_direct w s p (ty : str) (id : Uuid) : bool :=
  sql_grant_exists (w_db w) (w_now w) (spec_types s) (spec_ids w s)
    (roles_implying_strings p) ty id.
Definition spec_folder w s p (f : Uuid) : bool :=
  sql_folder_cascade (w_db w) (w_now w) (spec_types s) (spec_ids w s)
    (roles_implying_strings p) f.
Definition spec_file w s p (f : Uuid) : bool :=
  match sql_file_parent (w_db w) f with Some d => spec_folder w s p d | None => false end
  || spec_direct w s p (lit "file") f.
Definition spec_cascade w s r p : bool :=
  match r with Folder i => spec_folder w s p i | File i => spec_file w s p i | _ => false end.
Definition spec_frozen w p (d : Uuid) : bool :=
  read_only_gate_applies p && read_only (spec_policies w d).
Definition spec_floor w s p (d : Uuid) : bool :=
  match spec_role w s d with Some ro => grant_bundle_has ro p | None => false end.
Definition decision w s p r : bool :=
  if read_only_gate_applies p && w_migration_readonly w then false
  else
    match r with
    | Folder _ | File _ =>
        match spec_drive_of w r with
        | None => false
        | Some d =>
            if spec_frozen w p d then false
            else if spec_floor w s p d then true else spec_cascade w s r p
        end
    | Drive d => if spec_frozen w p d then false else spec_floor w s p d
    | Calendar id => spec_direct w s p (lit "calendar") id
    | AddressBook id => spec_direct w s p (lit "address_book") id
    | Playlist id => spec_direct w s p (lit "playlist") id
    end.
End spec.

Section proof.
Context {Cache : forall (K : Type) {E : EqDecision K} {C : @Countable K E}, Type -> Type}.
#[local] Arguments Cache _ {_ _} _.
Context `{!Moka (@Cache)} `{PolicyCodec} `{UuidText}.
Local Abbreviation Engine := (Engine (Cache:=@Cache)).
Implicit Types (w : World) (s : Subject) (p : Permission) (r : Resource) (e : Engine).

(** Resources whose grants are looked up directly. *)
Definition top_level r : bool :=
  match r with Calendar _ | AddressBook _ | Playlist _ => true | _ => false end.

(** ** Coherence: every cached value is the one the tables give *)
Definition cache_ok {K : Type} `{Countable K} {V} (c : Cache K V) (t : Z) (spec : K -> V -> Prop)
  : Prop := forall k v, cget c t k = Some v -> spec k v.

Record coherent (e : Engine) : Prop := {
  co_groups : cache_ok (user_groups_cache e) (now e) (fun u v => v = spec_expand (world e) u);
  co_owner : cache_ok (owner_cache e) (now e) (fun r v => spec_drive_of (world e) r = Some v);
  co_role : cache_ok (drive_role_cache e) (now e)
              (fun k v => v = spec_role (world e) k.1 k.2);
  co_policies : cache_ok (drive_policies_cache e) (now e) (fun d v => v = spec_policies (world e) d);
  co_cascade : cache_ok (cascade_grant_cache e) (now e)
              (fun k v => v = spec_cascade (world e) k.1.1 k.1.2 k.2);
  co_direct : cache_ok (direct_grant_cache e) (now e)
              (fun k v => top_level k.1.2 = true
                          ∧ v = spec_direct (world e) k.1.1 k.2
                                  (Resource.type_str k.1.2) (Resource.id k.1.2));
  co_parent : cache_ok (file_parent_cache e) (now e)
              (fun f v => v = sql_file_parent (w_db (world e)) f);
}.

Lemma cache_ok_insert {K : Type} `{Countable K} {V} (c : Cache K V) t ttl k v spec :
  cache_ok c t spec -> spec k v -> cache_ok (cinsert c t ttl k v) t spec.
Proof.
  intros Hc Hk k' v' Hg. destruct (decide (k = k')) as [<-|Hne].
  - apply cget_insert_eq in Hg as [-> _]. done.
  - apply cget_insert_ne in Hg; eauto.
Qed.

(** No fault is left in the script. *)
Definition no_faults (fs : list (option str)) : Prop := Forall (fun f => f = None) fs.

(** ** Answers

    From every coherent engine in world [w], the computation ends in a coherent engine of the
    same world and its result is [v], unless the script still holds a fault, when it may be
    an error.  Errors other than those of the script are part of [v]. *)
Definition answers w {T} (m : AM T) (v : result DomainError T) : Prop :=
  forall e, world e = w -> coherent e ->
    exists res e', m e = (res, e') ∧ world e' = w ∧ coherent e'
      ∧ (no_faults (faults e) -> no_faults (faults e'))
      ∧ (res = v ∨ (exists err, res = Err err ∧ kind err = InternalError) ∧ ~ no_faults (faults e)).

Lemma answers_ret w {T} (v : T) : answers w (mret v) (Ok v).
Proof. intros e Hw Hc. exists (Ok v), e. auto 10. Qed.
Lemma answers_raise w {T} err : answers w (raise err : AM T) (Err err).
Proof. intros e Hw Hc. exists (Err err), e. auto 10. Qed.
Lemma answers_lift w {T} (res : result DomainError T) : answers w (lift res) res.
Proof. intros e Hw Hc. exists res, e. auto 10. Qed.

Lemma answers_bind w {A B} (m : AM A) (f : A -> AM B) x v :
  answers w m (Ok x) -> answers w (f x) v -> answers w (m ≫= f) v.
Proof.
  intros Hm Hf e Hw Hc. destruct (Hm e Hw Hc) as (res & e1 & Em & Hw1 & Hc1 & Hfl1 & Hr).
  destruct Hr as [->|[(err & -> & Hk) Hn]].
  - rewrite (bind_ok _ _ _ _ _ Em).
    destruct (Hf e1 Hw1 Hc1) as (res2 & e2 & -> & Hw2 & Hc2 & Hfl2 & Hr2).
    exists res2, e2. split_and!; auto. destruct Hr2 as [?|[? ?]]; [by left|right; auto].
  - rewrite (bind_err _ _ _ _ _ Em). exists (Err err), e1. split_and!; eauto.
Qed.
Lemma answers_bind_err w {A B} (m : AM A) (f : A -> AM B) err :
  answers w m (Err err) -> answers w (m ≫= f) (Err err).
Proof.
  intros Hm e Hw Hc. destruct (Hm e Hw Hc) as (res & e1 & Em & Hw1 & Hc1 & Hfl1 & Hr).
  assert (exists err', res = Err err') as [err' ->] by naive_solver.
  rewrite (bind_err _ _ _ _ _ Em). exists (Err err'), e1. split_and!; auto.
  destruct Hr as [[= ->]|[(err2 & [= ->] & Hk) Hn]]; [by left|right; eauto].
Qed.
Lemma answers_fmap w {A B} (m : AM A) (f : A -> B) x :
  answers w m (Ok x) -> answers w (f <$> m) (Ok (f x)).
Proof.
  intros Hm e Hw Hc. destruct (Hm e Hw Hc) as (res & e1 & Em & Hw1 & Hc1 & Hfl1 & Hr).
  unfold fmap, M_fmap. rewrite Em. destruct Hr as [->|[(err & -> & Hk) Hn]].
  - eexists _, e1. split_and!; auto.
  - eexists _, e1. split_and!; eauto.
Qed.
(** Reading the state: whatever is read, the rest answers. *)
Lemma answers_gets w {A B} (g : Engine -> A) (f : A -> AM B) v :
  (forall e, world e = w -> coherent e -> answers w (f (g e)) v) -> answers w (gets g ≫= f) v.
Proof. intros Hf e Hw Hc. exact (Hf e Hw Hc e Hw Hc). Qed.
Lemma answers_modify w {B} (g : Engine -> Engine) (f : unit -> AM B) v :
  (forall e, world e = w -> coherent e ->
     world (g e) = w ∧ coherent (g e) ∧ faults (g e) = faults e) ->
  answers w (f tt) v -> answers w (modify g ≫= f) v.
Proof.
  intros Hg Hf e Hw Hc. destruct (Hg e Hw Hc) as (Hw1 & Hc1 & Hfl).
  destruct (Hf (g e) Hw1 Hc1) as (res & e' & E & ?). exists res, e'.
  rewrite <- Hfl. split; [exact E|done].
Qed.
Lemma answers_sql w {T} on_error (q : Db -> Z -> T) :
  (forall txt, kind (on_error txt) = InternalError) ->
  answers w (sql on_error q) (Ok (q (w_db w) (w_now w))).
Proof.
  intros Hk e Hw Hc. unfold sql, now.
  destruct (faults e) as [|[txt|] fs] eqn:Ef.
  - eexists _, e. split_and!; [done|done|done|by rewrite Ef|left; by rewrite Hw].
  - eexists _, (set_faults e fs). split_and!; [done|done|by destruct Hc| |].
    + intros Hn. by apply Forall_cons_1 in Hn as [_ ?].
    + right. split; [by eexists|]. intros Hn. by apply Forall_cons_1 in Hn as [? _].
  - eexists _, (set_faults e fs). split_and!; [done|done|by destruct Hc| |left; by rewrite Hw].
    intros Hn. by apply Forall_cons_1 in Hn as [_ ?].
Qed.
(** Observing a result: the continuation must answer for the expected result and for an
    injected failure. *)
Lemma answers_attempt w {A B} (m : AM A) (f : result DomainError A -> AM B) x v :
  answers w m x ->
  answers w (f x) v ->
  (forall err, kind err = InternalError -> answers w (f (Err err)) v
                                         ∨ answers w (f (Err err)) (Err err)) ->
  answers w (attempt m ≫= f) v.
Proof.
  intros Hm Hf Hx e Hw Hc. destruct (Hm e Hw Hc) as (res & e1 & Em & Hw1 & Hc1 & Hfl1 & Hr).
  assert (Ea : attempt m e = (Ok res, e1)) by (unfold attempt; by rewrite Em).
  rewrite (bind_ok _ _ _ _ _ Ea). destruct Hr as [->|[(err & -> & Hk) Hn]].
  - destruct (Hf e1 Hw1 Hc1) as (res2 & e2 & -> & Hw2 & Hc2 & Hfl2 & Hr2).
    exists res2, e2. split_and!; auto. destruct Hr2 as [?|[? ?]]; [by left|right; auto].
  - destruct (Hx err Hk) as [Hy|Hy];
      destruct (Hy e1 Hw1 Hc1) as (res2 & e2 & -> & Hw2 & Hc2 & Hfl2 & Hr2);
      exists res2, e2; split_and!; auto.
    + destruct Hr2 as [?|[? ?]]; [by left|right; auto].
    + right. split; [|done]. destruct Hr2 as [->|[? _]]; eauto.
Qed.
Lemma answers_map_err w {T} (f : DomainError -> DomainError) (m : AM T) x :
  (forall err, kind err = InternalError -> kind (f err) = InternalError) ->
  answers w m (Ok x) -> answers w (map_err_m f m) (Ok x).
Proof.
  intros Hf Hm e Hw Hc. destruct (Hm e Hw Hc) as (res & e1 & Em & Hw1 & Hc1 & Hfl1 & Hr).
  unfold map_err_m. rewrite Em. eexists _, e1. split_and!; [done|done|done|done|].
  destruct Hr as [->|[(err & -> & Hk) Hn]]; [by left|right; simpl; eauto].
Qed.

(** Storing a right value keeps an engine coherent. *)
Ltac keeps_coherent :=
  let e := fresh "e" in let Hw := fresh "Hw" in let Hc := fresh "Hc" in
  intros e Hw Hc; split_and!; [exact Hw| |reflexivity];
  destruct Hc; constructor; try assumption; apply cache_ok_insert; [assumption|cbn [world set_user_groups set_owner set_drive_role set_policies set_cascade set_direct set_file_parent]; rewrite Hw; auto].

Ltac store_right := apply answers_modify; [keeps_coherent|auto with answers].
#[local] Hint Resolve answers_ret answers_raise answers_lift : answers.
(** Run the first operation of a sequence: one with a lemma, or a bare query. *)
Ltac query := eapply answers_bind; [first [by eauto 2 with answers | by apply answers_sql]|].

(** ** The operations answer their specification *)
Lemma expand_user_answers w u : answers w (expand_user u) (Ok (spec_expand w u)).
Proof.
  apply answers_gets. intros e Hw Hc.
  destruct (cget _ _ u) as [s|] eqn:E.
  { rewrite (co_groups e Hc _ _ E), Hw. apply answers_ret. }
  eapply answers_attempt; [by apply answers_sql| |].
  2: { intros err Hk. right. apply answers_gets. intros e1 Hw1 Hc1.
       eapply (answers_attempt _ _ _ (if w_group_repo w then Ok (Some (groups_for_user (w_db w) u))
                                      else Ok None)).
       - rewrite Hw1. destruct (w_group_repo w); [|apply answers_ret].
         by apply (answers_fmap w _ Some), answers_sql.
       - apply answers_bind_err, answers_lift.
       - intros ? _. left. apply answers_bind_err, answers_lift. }
  apply answers_gets. intros e1 Hw1 Hc1.
  eapply (answers_attempt _ _ _ (if w_group_repo w then Ok (Some (groups_for_user (w_db w) u))
                                 else Ok None)).
  - rewrite Hw1. destruct (w_group_repo w); [|apply answers_ret].
    by apply (answers_fmap w _ Some), answers_sql.
  - eapply answers_bind; [apply answers_lift|].
    eapply (answers_bind _ _ _ (if w_group_repo w then Some (groups_for_user (w_db w) u) else None)).
    { destruct (w_group_repo w); apply answers_lift. }
    assert (Hset : forall b : bool,
      default ∅ (if b then Some (groups_for_user (w_db w) u) else None)
      = if b then groups_for_user (w_db w) u else ∅) by by intros [].
    rewrite Hset. store_right.
  - intros err Hk. right. eapply answers_bind; [apply answers_lift|].
    apply answers_bind_err, answers_lift.
Qed.
#[local] Hint Resolve expand_user_answers : answers.

Lemma subject_match_set_answers w s :
  answers w (subject_match_set s) (Ok (spec_types s, spec_ids w s)).
Proof.
  destruct s; simpl; [|apply answers_ret..].
  eapply answers_bind; [apply expand_user_answers|apply answers_ret].
Qed.
#[local] Hint Resolve subject_match_set_answers : answers.

Lemma drive_of_answers w r :
  answers w (drive_of r)
    (match spec_drive_of w r with
     | Some d => Ok d
     | None => Err (DomainError.not_found
                      (match r with Folder _ => lit "Folder" | File _ => lit "File"
                                  | _ => Resource.type_str r end)
                      (uuid_to_string (Resource.id r)))
     end).
Proof.
  destruct r; simpl; try apply answers_raise.
  - query. destruct (folders (w_db w) !! id); apply answers_lift.
  - query. destruct (files (w_db w) !! id); apply answers_lift.
Qed.
#[local] Hint Resolve drive_of_answers : answers.

Lemma drive_of_cached_answers w r :
  answers w (drive_of_cached r)
    (match spec_drive_of w r with
     | Some d => Ok d
     | None => Err (DomainError.not_found
                      (match r with Folder _ => lit "Folder" | File _ => lit "File"
                                  | _ => Resource.type_str r end)
                      (uuid_to_string (Resource.id r)))
     end).
Proof.
  apply answers_gets. intros e Hw Hc. destruct (cget _ _ r) as [d|] eqn:E.
  { pose proof (co_owner e Hc _ _ E) as Hs. rewrite Hw in Hs. rewrite Hs. apply answers_ret. }
  pose proof (drive_of_answers w r) as Hd. destruct (spec_drive_of w r) as [d|] eqn:Hs.
  - eapply answers_bind; [exact Hd|]. store_right.
  - apply answers_bind_err, Hd.
Qed.

Lemma file_parent_answers w f :
  answers w (file_parent_folder_cached f) (Ok (sql_file_parent (w_db w) f)).
Proof.
  apply answers_gets. intros e Hw Hc. destruct (cget _ _ f) as [d|] eqn:E.
  { rewrite (co_parent e Hc _ _ E), Hw. apply answers_ret. }
  query.
  store_right.
Qed.
#[local] Hint Resolve file_parent_answers : answers.

Lemma direct_grant_answers w s r p :
  top_level r = true ->
  answers w (direct_grant_cached s r p (Resource.type_str r) (Resource.id r))
    (Ok (spec_direct w s p (Resource.type_str r) (Resource.id r))).
Proof.
  intros Htop. apply answers_gets. intros e Hw Hc. destruct (cget _ _ _) as [d|] eqn:E.
  { destruct (co_direct e Hc _ _ E) as [_ ->]. rewrite Hw. apply answers_ret. }
  apply answers_map_err; [done|]. query.
  query.
  store_right.
Qed.

Lemma cascade_body_answers w s r p on_folder :
  (forall f, answers w (on_folder f) (Ok (spec_folder w s p f))) ∨ (exists f, r = Folder f) ->
  answers w (cascade_body on_folder s r p) (Ok (spec_cascade w s r p)).
Proof.
  intros Hrec. apply answers_gets. intros e Hw Hc. destruct (cget _ _ _) as [d|] eqn:E.
  { rewrite (co_cascade e Hc _ _ E), Hw. apply answers_ret. }
  destruct r as [f|f| | | |]; try apply answers_ret.
  - apply answers_map_err; [done|].
    apply (answers_bind _ _ _ (spec_folder w s p f)).
    + query. by apply answers_sql.
    + store_right.
  - destruct Hrec as [Hrec|[? [=]]]. apply answers_map_err; [done|].
    apply (answers_bind _ _ _ (spec_file w s p f));
      [|store_right].
    query.
    apply (answers_bind _ _ _ (match sql_file_parent (w_db w) f with
                               | Some d => spec_folder w s p d | None => false end)).
    { destruct (sql_file_parent (w_db w) f); [apply Hrec|apply answers_ret]. }
    unfold spec_file. destruct (match sql_file_parent (w_db w) f with Some d => _ | None => _ end);
      [apply answers_ret|].
    query. by apply answers_sql.
Qed.
Lemma cascade_answers w s r p :
  answers w (cascade_grant_cached s r p) (Ok (spec_cascade w s r p)).
Proof.
  apply cascade_body_answers. left. intros f. unfold cascade_folder.
  change (spec_folder w s p f) with (spec_cascade w s (Folder f) p).
  apply cascade_body_answers. right. by eexists.
Qed.

Lemma caller_role_answers w s d :
  answers w (caller_role_on_drive_cached s d) (Ok (spec_role w s d)).
Proof.
  apply answers_gets. intros e Hw Hc. destruct (cget _ _ _) as [v|] eqn:E.
  { rewrite (co_role e Hc _ _ E), Hw. apply answers_ret. }
  query.
  query.
  store_right.
Qed.

Lemma drive_policies_answers w d :
  answers w (drive_policies_cached d) (Ok (spec_policies w d)).
Proof.
  apply answers_gets. intros e Hw Hc. destruct (cget _ _ _) as [v|] eqn:E.
  { rewrite (co_policies e Hc _ _ E), Hw. apply answers_ret. }
  query.
  store_right.
Qed.
Lemma frozen_drive_answers w p d : answers w (frozen_drive p d) (Ok (spec_frozen w p d)).
Proof.
  unfold frozen_drive, spec_frozen. destruct (read_only_gate_applies p); simpl.
  - apply answers_fmap, drive_policies_answers.
  - apply answers_ret.
Qed.

Lemma check_inner_answers w s p r : answers w (check_inner s p r) (Ok (decision w s p r)).
Proof.
  apply answers_gets. intros e Hw Hc. rewrite Hw. unfold decision.
  destruct (read_only_gate_applies p && w_migration_readonly w); [apply answers_ret|].
  assert (Hfloor : forall d, answers w (caller_role_on_drive_cached s d) (Ok (spec_role w s d)))
    by apply caller_role_answers.
  assert (Htree : (exists i, r = Folder i ∨ r = File i) ->
    answers w (found ← attempt (drive_of_cached r);
       match found with
       | Err err => if decide (kind err = NotFound) then mret false else raise err
       | Ok drive_id =>
           frozen ← frozen_drive p drive_id;
           if frozen : bool then mret false
           else role ← caller_role_on_drive_cached s drive_id;
             if match role with Some r => grant_bundle_has r p | None => false end then mret true
             else cascade_grant_cached s r p
       end)
     (Ok (match spec_drive_of w r with
          | None => false
          | Some d => if spec_frozen w p d then false
                      else if spec_floor w s p d then true else spec_cascade w s r p
          end))).
  { intros _. eapply answers_attempt; [apply drive_of_cached_answers| |].
    - destruct (spec_drive_of w r) as [d|]; [|apply answers_ret].
      eapply answers_bind; [apply frozen_drive_answers|].
      destruct (spec_frozen w p d); [apply answers_ret|].
      eapply answers_bind; [apply Hfloor|]. unfold spec_floor.
      destruct (match spec_role w s d with Some _ => _ | None => _ end);
        [apply answers_ret|apply cascade_answers].
    - intros err Hk. right. rewrite decide_False by by rewrite Hk. apply answers_raise. }
  destruct r; try (by apply Htree; eauto).
  - eapply answers_bind; [apply frozen_drive_answers|].
    destruct (spec_frozen w p id); [apply answers_ret|].
    eapply answers_bind; [apply Hfloor|]. apply answers_ret.
  - by apply (direct_grant_answers w s (Calendar id)).
  - by apply (direct_grant_answers w s (AddressBook id)).
  - by apply (direct_grant_answers w s (Playlist id)).
Qed.

(** The engine keeps the contract of the port. *)
#[export] Instance pg_acl_laws : AuthzLaws Engine.
Proof.
  refine {|
    az_inv := coherent;
    az_healthy e := no_faults (faults e);
    az_decision e := decision (world e);
  |}.
  intros e s p r Hc. destruct (check_inner_answers (world e) s p r e eq_refl Hc)
    as (res & e' & E & Hw & Hc' & Hf & Hr).
  unfold az_check, pg_acl_engine, check. rewrite E. split_and!; [done| |done|].
  - intros. by rewrite Hw.
  - destruct Hr as [->|[(err & -> & _) Hn]]; [by left|right; eauto].
Defined.

(** ** The batched read check *)
Fixpoint floor_map w s (pairs : list (Uuid * Uuid)) (rd : gmap Uuid bool) : gmap Uuid bool :=
  match pairs with
  | [] => rd
  | (_, d) :: rest =>
      match rd !! d with
      | Some _ => floor_map w s rest rd
      | None => floor_map w s rest (<[d := spec_floor w s Read d]> rd)
      end
  end.
Lemma floor_map_sound w s pairs : forall rd d b,
  (forall d b, rd !! d = Some b -> b = spec_floor w s Read d) ->
  floor_map w s pairs rd !! d = Some b -> b = spec_floor w s Read d.
Proof.
  induction pairs as [|[f d'] rest IH]; simpl; [eauto|]. intros rd d b Hrd.
  destruct (rd !! d') eqn:E; [by apply IH|]. apply IH. intros d1 b1.
  destruct (decide (d' = d1)) as [<-|Hne]; [rewrite lookup_insert_eq; by intros [= <-]|].
  rewrite lookup_insert_ne by done. apply Hrd.
Qed.

Lemma prime_owner_answers w pairs :
  Forall (fun fd => spec_drive_of w (File fd.1) = Some fd.2) pairs ->
  answers w (prime_owner_cache pairs) (Ok tt).
Proof.
  induction 1 as [|[f d] rest Hfd _ IH]; simpl; [apply answers_ret|].
  apply answers_modify; [keeps_coherent|exact IH].
Qed.
Lemma batch_floor_answers w s pairs : forall rd,
  answers w (batch_drive_floor s pairs rd) (Ok (floor_map w s pairs rd)).
Proof.
  induction pairs as [|[f d] rest IH]; intros rd; simpl; [apply answers_ret|].
  destruct (rd !! d); [apply IH|].
  eapply answers_bind; [apply caller_role_answers|]. apply IH.
Qed.
Lemma batch_collect_answers w s pairs rd : forall acc,
  (forall d b, rd !! d = Some b -> b = spec_floor w s Read d) ->
  Forall (fun fd => spec_drive_of w (File fd.1) = Some fd.2) pairs ->
  answers w (batch_collect s pairs rd acc)
    (Ok (list_to_set (filter (fun f => decision w s Read (File f) = true) (fst <$> pairs)) ∪ acc)).
Proof.
  intros acc Hrd Hp. revert acc. induction Hp as [|[f d] rest Hfd _ IH]; intros acc;
    cbn [batch_collect fmap list_fmap fst].
  { cbn. rewrite (left_id_L ∅ (∪)). apply answers_ret. }
  assert (Hd : decision w s Read (File f) = spec_floor w s Read d || spec_cascade w s (File f) Read).
  { cbn [fst snd] in Hfd. unfold decision. rewrite Hfd. unfold spec_frozen. simpl. by destruct (spec_floor w s Read d). }
  assert (Hset : forall b : bool, b = decision w s Read (File f) ->
    list_to_set (filter (fun f => decision w s Read (File f) = true) (f :: rest.*1)) ∪ acc
    = list_to_set (filter (fun f => decision w s Read (File f) = true) (rest.*1))
      ∪ (if b then {[f]} ∪ acc else acc)).
  { intros b ->. rewrite filter_cons. destruct (decision w s Read (File f)); simpl; set_solver. }
  destruct (default false (rd !! d)) eqn:Er.
  - rewrite (Hset true); [apply IH|]. rewrite Hd. destruct (rd !! d) as [b|] eqn:E; [|done].
    simpl in Er. subst b. by rewrite <- (Hrd _ _ E).
  - eapply answers_bind; [apply check_inner_answers|]. rewrite (Hset _ eq_refl). apply IH.
Qed.
Lemma get_file_drive_ids_answers w ids :
  exists pairs, answers w (get_file_drive_ids ids) (Ok pairs)
    ∧ Forall (fun fd => spec_drive_of w (File fd.1) = Some fd.2) pairs
    ∧ forall f, f ∈ pairs.*1 <-> f ∈ ids ∧ is_Some (spec_drive_of w (File f)).
Proof.
  set (pairs := (fun row : Uuid * FileRow => (row.1, fi_drive row.2)) <$>
                filter (fun row => row.1 ∈ ids) (map_to_list (files (w_db w)))).
  assert (Hp : forall f d, (f, d) ∈ pairs <-> f ∈ ids ∧ spec_drive_of w (File f) = Some d).
  { intros f d. unfold pairs. rewrite list_elem_of_fmap. simpl. split.
    - intros ([f' row] & [= -> ->] & Hin). apply list_elem_of_filter in Hin as [Hin Hm].
      apply elem_of_map_to_list in Hm. simpl in *. by rewrite Hm.
    - intros [Hin Hs]. destruct (files (w_db w) !! f) as [row|] eqn:E; [|done].
      simpl in Hs. injection Hs as <-. exists (f, row). split; [done|].
      apply list_elem_of_filter. split; [done|]. by apply elem_of_map_to_list. }
  assert (Hspec : Forall (fun fd => spec_drive_of w (File fd.1) = Some fd.2) pairs
    ∧ forall f, f ∈ pairs.*1 <-> f ∈ ids ∧ is_Some (spec_drive_of w (File f))).
  { split.
    - apply Forall_forall. intros [f d] Hin. apply list_elem_of_In in Hin. by apply Hp in Hin as [_ ?].
    - intros f. rewrite list_elem_of_fmap. split.
      + intros ([f' d] & -> & Hin). apply Hp in Hin as [? ?]. simpl. eauto.
      + intros [Hin [d Hd]]. exists (f, d). split; [done|]. by apply Hp. }
  destruct ids as [|i ids].
  - exists pairs. split; [|done]. replace pairs with (@nil (Uuid * Uuid)); [apply answers_ret|].
    destruct pairs as [|[f d] ?]; [done|].
    destruct (proj1 (Hp f d) ltac:(by left)) as [Hin _]. by apply not_elem_of_nil in Hin.
  - exists pairs. split; [|done]. by apply (answers_sql w _ (fun db _ => _ <$> filter _ (map_to_list (files db)))).
Qed.
Lemma batch_answers w s ids :
  answers w (check_files_read_batch s ids)
    (Ok (list_to_set (filter (fun f => decision w s Read (File f) = true) ids))).
Proof.
  destruct (get_file_drive_ids_answers w ids) as (pairs & Ha & Hp & Hin).
  eapply answers_bind; [exact Ha|]. eapply answers_bind; [by apply prime_owner_answers|].
  eapply answers_bind; [apply batch_floor_answers|].
  replace (list_to_set (filter (fun f => decision w s Read (File f) = true) ids))
    with (list_to_set (filter (fun f => decision w s Read (File f) = true) (pairs.*1)) ∪ (∅ : gset Uuid)).
  { apply batch_collect_answers; [|done]. intros d b. by apply floor_map_sound. }
  apply set_eq. intros f. rewrite elem_of_union, !elem_of_list_to_set, !list_elem_of_filter, Hin.
  assert (decision w s Read (File f) = true -> is_Some (spec_drive_of w (File f))).
  { unfold decision. simpl. destruct (files (w_db w) !! f); [by eexists|done]. }
  set_solver.
Qed.
End proof.
