(* ===== verification/AclTheorems.v ===== *)
(** * Theorems about the authorization engine

    The decision read as a statement about grants, its safety properties, the equivalence of
    the batched and the per-file check, and what the grant writes do to the decisions that
    follow them. *)

From S2P Require Import Prelude.
From S2P Require Import RustStr.
From S2P Require Import DomainErrors.
From S2P Require Import Authorization.
From S2P Require Import DrivePolicies.
From S2P Require Import Moka.
From S2P Require Import AclDb.
From S2P Require Import AuthzPort.
From S2P Require Import AclEngine.
From S2P Require Import AclSpec.

Section meaning.
Context `{PolicyCodec}.
Implicit Types (w : World) (s : Subject) (p : Permission) (r : Resource) (g : Grant).

(** A grant row that speaks for the subject now: its own row, or, for a user, a row of the
    user or of a group the user is in. *)
Definition applies w s g : Prop :=
  g ∈ role_grants (w_db w) ∧ live (w_now w) g = true
  ∧ match s with
    | User u => exists i, (g_subject g = User i ∨ g_subject g = Group i) ∧ i ∈ spec_expand w u
    | _ => g_subject g = s
    end.
(** The grant carries the permission. *)
Definition carries g p : Prop := p ∈ Role.expand (g_role g).
Definition ancestor_or_self w (a f : Uuid) : Prop :=
  exists ra rf, folders (w_db w) !! a = Some ra ∧ folders (w_db w) !! f = Some rf
    ∧ fo_lpath ra `prefix_of` fo_lpath rf.
(** The subject's role on a drive: the strongest among its grants there. *)
Definition drive_role w s (d : Uuid) (ro : Role) : Prop :=
  (exists g, applies w s g ∧ g_resource g = Drive d ∧ g_role g = ro)
  ∧ forall g, applies w s g -> g_resource g = Drive d ->
      (grant_role_ord ro <= grant_role_ord (g_role g))%nat.
Definition folder_granted w s p (f : Uuid) : Prop :=
  exists g a, applies w s g ∧ carries g p ∧ g_resource g = Folder a ∧ ancestor_or_self w a f.
Definition own_granted w s p r : Prop :=
  exists g, applies w s g ∧ carries g p ∧ g_resource g = r.
Definition role_granted w s p (d : Uuid) : Prop :=
  exists ro, drive_role w s d ro ∧ p ∈ Role.expand ro.

Definition granted w s p r : Prop :=
  match r with
  | Folder f => exists row, folders (w_db w) !! f = Some row
      ∧ (role_granted w s p (fo_drive row) ∨ folder_granted w s p f)
  | File f => exists row, files (w_db w) !! f = Some row
      ∧ (role_granted w s p (fi_drive row)
         ∨ (exists d, fi_folder row = Some d ∧ folder_granted w s p d)
         ∨ own_granted w s p r)
  | Drive d => role_granted w s p d
  | Calendar _ | AddressBook _ | Playlist _ => own_granted w s p r
  end.
(** A mutating permission under a freeze: of the whole server or of the drive. *)
Definition frozen w p r : Prop :=
  p ≠ Read ∧ (w_migration_readonly w = true
              ∨ exists d, (r = Drive d ∨ spec_drive_of w r = Some d)
                          ∧ read_only (spec_policies w d) = true).

Lemma subject_in_applies w s g :
  g ∈ role_grants (w_db w) ->
  subject_in (spec_types s) (spec_ids w s) g = true ∧ live (w_now w) g = true <-> applies w s g.
Proof.
  intros Hin. unfold subject_in, applies. rewrite andb_true_iff, !bool_decide_eq_true.
  destruct s as [u|i|i]; simpl.
  - destruct (g_subject g) as [j|j|j]; simpl; rewrite ?elem_of_cons.
    + split; [naive_solver|]. intros (_ & ? & i & [[= ->]|[=]] & ?). set_solver.
    + split; [naive_solver|]. intros (_ & ? & i & [[=]|[= ->]] & ?).
      split; [split; [by right; left|done]|done].
    + split; [|naive_solver]. intros [[[?|[?|?%elem_of_nil]] _] _]; done.
  - rewrite list_elem_of_singleton, elem_of_singleton.
    destruct (g_subject g); naive_solver.
  - rewrite list_elem_of_singleton, elem_of_singleton.
    destruct (g_subject g); naive_solver.
Qed.
Lemma role_in_carries p g : role_in (roles_implying_strings p) g = true <-> carries g p.
Proof.
  unfold role_in, roles_implying_strings, carries. rewrite bool_decide_eq_true, list_elem_of_fmap.
  rewrite <- roles_implying_expand. split.
  - intros (ro & Heq & Hin). by rewrite (role_as_str_inj _ _ Heq).
  - eauto.
Qed.
Lemma resource_is_eq r g :
  resource_is (Resource.type_str r) (Resource.id r) g = true <-> g_resource g = r.
Proof.
  unfold resource_is. rewrite andb_true_iff, !bool_decide_eq_true.
  split; [intros []; by apply resource_parts_inj|by intros ->].
Qed.

Lemma spec_direct_meaning w s p r :
  spec_direct w s p (Resource.type_str r) (Resource.id r) = true <-> own_granted w s p r.
Proof.
  unfold spec_direct, sql_grant_exists, own_granted. rewrite existsb_true. split.
  - intros (g & Hin & Hg). rewrite !andb_true_iff in Hg. destruct Hg as [[[Hs Hr] Hres] Hl].
    exists g. rewrite <- (subject_in_applies w s g Hin), <- role_in_carries, <- resource_is_eq. done.
  - intros (g & Ha & Hc & Hr). exists g. assert (Hin := proj1 Ha). split; [done|].
    rewrite <- (subject_in_applies w s g Hin) in Ha. rewrite <- role_in_carries in Hc.
    rewrite <- resource_is_eq in Hr. rewrite !andb_true_iff. tauto.
Qed.
Lemma spec_folder_meaning w s p f : spec_folder w s p f = true <-> folder_granted w s p f.
Proof.
  assert (Hanc : forall a, lpath_ancestor (w_db w) a f = true <-> ancestor_or_self w a f).
  { intros a. unfold lpath_ancestor, ancestor_or_self.
    destruct (folders (w_db w) !! a) as [ra|], (folders (w_db w) !! f) as [rf|];
      rewrite ?bool_decide_eq_true; naive_solver. }
  unfold spec_folder, sql_folder_cascade, folder_granted. rewrite existsb_true. split.
  - intros (g & Hin & Hg). rewrite !andb_true_iff, bool_decide_eq_true in Hg.
    destruct Hg as [[[[Hs Hr] Hty] Hl] Ha].
    exists g, (Resource.id (g_resource g)).
    rewrite <- (subject_in_applies w s g Hin), <- role_in_carries, <- Hanc.
    split_and!; try done. by apply resource_parts_inj.
  - intros (g & a & Ha & Hc & Hr & Hanc'). exists g. assert (Hin := proj1 Ha). split; [done|].
    rewrite <- (subject_in_applies w s g Hin) in Ha. rewrite <- role_in_carries in Hc.
    rewrite <- Hanc in Hanc'. rewrite Hr. rewrite !andb_true_iff, bool_decide_eq_true. tauto.
Qed.

Lemma sql_min_role_spec gs :
  match sql_min_role gs with
  | None => gs = []
  | Some ro => (exists g, g ∈ gs ∧ g_role g = ro)
               ∧ forall g, g ∈ gs -> (grant_role_ord ro <= grant_role_ord (g_role g))%nat
  end.
Proof.
  induction gs as [|g gs IH]; simpl; [done|].
  destruct (sql_min_role gs) as [ro|].
  - destruct IH as [(g' & Hin & <-) Hmin]. unfold min_role. case_decide as Hle.
    + split; [exists g; split; [by left|done]|].
      intros g1. rewrite elem_of_cons. intros [->|Hg1]; [done|]. specialize (Hmin g1 Hg1). lia.
    + split; [exists g'; split; [by right|done]|].
      intros g1. rewrite elem_of_cons. intros [->|Hg1]; [lia|eauto].
  - subst gs. split; [exists g; split; [by left|done]|].
    intros g1. rewrite list_elem_of_singleton. by intros ->.
Qed.
Lemma grant_role_ord_inj (a b : Role) : grant_role_ord a = grant_role_ord b -> a = b.
Proof. by destruct a, b. Qed.

Lemma spec_role_meaning w s d ro : spec_role w s d = Some ro <-> drive_role w s d ro.
Proof.
  unfold spec_role, sql_drive_role.
  set (gs := filter _ (role_grants (w_db w))).
  assert (Hgs : forall g, g ∈ gs <-> applies w s g ∧ g_resource g = Drive d).
  { intros g. unfold gs. rewrite list_elem_of_filter, Is_true_true, !andb_true_iff. split.
    - intros [[[Hs Hr] Hl] Hin]. rewrite <- (subject_in_applies w s g Hin).
      split; [done|]. by apply (resource_is_eq (Drive d)).
    - intros [Ha Hr]. assert (Hin := proj1 Ha). rewrite <- (subject_in_applies w s g Hin) in Ha.
      assert (resource_is (lit "drive") d g = true) by by apply (resource_is_eq (Drive d)). tauto. }
  assert (Hp : (Role.as_str <$> sql_min_role gs) ≫= Role.parse = sql_min_role gs).
  { destruct (sql_min_role gs); [simpl; apply role_roundtrip|done]. }
  rewrite Hp. pose proof (sql_min_role_spec gs) as Hm. unfold drive_role.
  destruct (sql_min_role gs) as [ro'|]; split.
  - intros [= <-]. destruct Hm as [(g & Hg & Hr) Hmin]. split.
    + exists g. apply Hgs in Hg as [? ?]. done.
    + intros g' Ha Hres. apply Hmin, Hgs. done.
  - intros [(g & Ha & Hres & Hr) Hmin]. f_equal. destruct Hm as [(g' & Hg' & Hr') Hmin'].
    apply grant_role_ord_inj.
    assert (Hg : g ∈ gs) by by apply Hgs. pose proof (Hmin' g Hg). apply Hgs in Hg' as [Ha' Hres'].
    pose proof (Hmin g' Ha' Hres'). subst. lia.
  - done.
  - intros [(g & Ha & Hres & _) _]. assert (Hg : g ∈ gs) by by apply Hgs.
    rewrite Hm in Hg. by apply not_elem_of_nil in Hg.
Qed.
Lemma spec_floor_meaning w s p d : spec_floor w s p d = true <-> role_granted w s p d.
Proof.
  unfold spec_floor, role_granted, grant_bundle_has. destruct (spec_role w s d) as [ro|] eqn:E.
  - rewrite bool_decide_eq_true. apply spec_role_meaning in E. split; [eauto|].
    intros (ro' & Hr & Hp). apply spec_role_meaning in E, Hr. by simplify_eq.
  - split; [done|]. intros (ro' & Hr & _). apply spec_role_meaning in Hr. by simplify_eq.
Qed.

Lemma gate_true p : read_only_gate_applies p = true <-> p ≠ Read.
Proof. by destruct p. Qed.
Lemma spec_frozen_true w p d :
  spec_frozen w p d = true <-> p ≠ Read ∧ read_only (spec_policies w d) = true.
Proof. unfold spec_frozen. by rewrite andb_true_iff, gate_true. Qed.

Lemma spec_cascade_file w s p f row :
  files (w_db w) !! f = Some row ->
  spec_cascade w s (File f) p = true <->
  (exists d, fi_folder row = Some d ∧ folder_granted w s p d) ∨ own_granted w s p (File f).
Proof.
  intros Hf. simpl. unfold spec_file, sql_file_parent. rewrite Hf. simpl.
  rewrite orb_true_iff, (spec_direct_meaning w s p (File f)).
  destruct (fi_folder row) as [d|]; [rewrite spec_folder_meaning|]; naive_solver.
Qed.

(** The decision, as a statement about the grant table. *)
Lemma decision_meaning w s p r :
  decision w s p r = true <-> ¬ frozen w p r ∧ granted w s p r.
Proof.
  unfold decision, frozen. destruct (read_only_gate_applies p && w_migration_readonly w) eqn:Em.
  { apply andb_true_iff in Em as [Hg Hm]. apply gate_true in Hg. naive_solver. }
  assert (Hm : ¬ (p ≠ Read ∧ w_migration_readonly w = true)).
  { rewrite <- gate_true. intros [H1 H2]. by rewrite H1, H2 in Em. }
  assert (Htree : forall d (P : Prop) (b : bool), (b = true <-> P) ->
     (if spec_frozen w p d then false else b) = true
     <-> ¬ (p ≠ Read ∧ read_only (spec_policies w d) = true) ∧ P).
  { intros d P b HP. rewrite <- spec_frozen_true. destruct (spec_frozen w p d); naive_solver. }
  destruct r as [f|f|d|c|c|c]; simpl.
  - destruct (folders (w_db w) !! f) as [row|]; simpl; [|naive_solver].
    rewrite (Htree _ (role_granted w s p (fo_drive row) ∨ folder_granted w s p f)); [naive_solver|].
    rewrite <- spec_floor_meaning, <- spec_folder_meaning.
    destruct (spec_floor w s p (fo_drive row)); naive_solver.
  - destruct (files (w_db w) !! f) as [row|] eqn:Ef; simpl; [|naive_solver].
    rewrite (Htree _ (role_granted w s p (fi_drive row) ∨
      (exists d, fi_folder row = Some d ∧ folder_granted w s p d) ∨ own_granted w s p (File f)));
      [naive_solver|].
    rewrite <- spec_floor_meaning, <- (spec_cascade_file w s p f row Ef).
    destruct (spec_floor w s p (fi_drive row)); naive_solver.
  - rewrite (Htree _ (role_granted w s p d)); [naive_solver|]. apply spec_floor_meaning.
  - rewrite (spec_direct_meaning w s p (Calendar c)). naive_solver.
  - rewrite (spec_direct_meaning w s p (AddressBook c)). naive_solver.
  - rewrite (spec_direct_meaning w s p (Playlist c)). naive_solver.
Qed.
End meaning.
