(* ===== verification/AclWrites.v ===== *)
(** * Grant writes and the claims about the authorization engine

    [set_role] and [clear_role] change the rows of one resource and drop the cached decisions
    that could depend on them: the engine stays coherent, so the next check sees the write.
    [purge_expired_grants] removes rows no decision looks at. *)

From S2P Require Import Prelude.
From S2P Require Import RustStr.
From S2P Require Import DomainErrors.
From S2P Require Import Authorization.
From S2P Require Import DrivePolicies.
From S2P Require Import Moka.
From S2P Require Import AclDb.
From S2P Require Import AuthzPort.
From S2P Require Import AclEngine.
From S2P Require Import AclSpec.
From S2P Require Import AclTheorems.

(** ** Decisions depend only on some rows *)
Section locality.
Context `{PolicyCodec}.
Implicit Types (w : World) (s : Subject) (p : Permission) (r : Resource) (g : Grant) (gs : list Grant).

Definition with_db w (db : Db) : World :=
  mkWorld db (w_now w) (w_migration_readonly w) (w_group_repo w).
Definition set_grants w gs : World := with_db w (with_grants (w_db w) gs).

(** Two tables with the same rows outside a set [P]. *)
Definition same_rows (P : Grant -> bool) gs gs' : Prop :=
  filter (fun g => P g = true) gs = filter (fun g => P g = true) gs'.

Lemma existsb_same_rows (P f : Grant -> bool) gs gs' :
  same_rows P gs gs' -> (forall g, f g = true -> P g = true) -> existsb f gs = existsb f gs'.
Proof.
  intros Hs Hf. assert (Hx : forall l, existsb f l = existsb f (filter (fun g => P g = true) l)).
  { induction l as [|g l IH]; simpl; [done|]. rewrite filter_cons. case_decide as Hp; simpl.
    - by rewrite IH.
    - destruct (f g) eqn:E; [by apply Hf in E|done]. }
  by rewrite (Hx gs), (Hx gs'), Hs.
Qed.
Lemma filter_same_rows (P : Grant -> bool) (f : Grant -> bool) gs gs' :
  same_rows P gs gs' -> (forall g, f g = true -> P g = true) ->
  filter (fun g => f g) gs = filter (fun g => f g) gs'.
Proof.
  intros Hs Hf. assert (Hx : forall l : list Grant,
    filter (fun g => f g) l = filter (fun g => f g) (filter (fun g => P g = true) l)).
  { induction l as [|g l IH]; [done|]. rewrite !filter_cons. repeat case_decide; rewrite ?filter_cons.
    - rewrite decide_True by done. by f_equal.
    - exfalso. apply H1, Hf. by apply Is_true_true.
    - by rewrite decide_False.
    - done. }
  by rewrite (Hx gs), (Hx gs'), Hs.
Qed.

(** What does not read the grant table. *)
Lemma spec_ids_grants w gs s : spec_ids (set_grants w gs) s = spec_ids w s.
Proof. by destruct s. Qed.

Definition on_drive (d : Uuid) g : bool := bool_decide (g_resource g = Drive d).
Definition on_tree g : bool := match g_resource g with File _ | Folder _ => true | _ => false end.
Definition on_resource r g : bool := bool_decide (g_resource g = r).

Lemma spec_role_local w gs s d :
  same_rows (fun g => on_drive d g && live (w_now w) g) (role_grants (w_db w)) gs ->
  spec_role (set_grants w gs) s d = spec_role w s d.
Proof.
  intros Hs. unfold spec_role, sql_drive_role. rewrite spec_ids_grants. do 2 f_equal.
  unfold sql_min_role. f_equal. symmetry. apply (filter_same_rows _ _ _ _ Hs).
  intros g. rewrite !andb_true_iff. intros [[_ Hr] Hl]. split; [|done].
  apply bool_decide_eq_true. by apply (resource_is_eq (Drive d)).
Qed.
Lemma spec_direct_local w gs s p r :
  same_rows (fun g => on_resource r g && live (w_now w) g) (role_grants (w_db w)) gs ->
  spec_direct (set_grants w gs) s p (Resource.type_str r) (Resource.id r)
  = spec_direct w s p (Resource.type_str r) (Resource.id r).
Proof.
  intros Hs. unfold spec_direct, sql_grant_exists. rewrite spec_ids_grants. symmetry.
  apply (existsb_same_rows _ _ _ _ Hs). intros g. rewrite !andb_true_iff.
  intros [[_ Hr] Hl]. split; [|done]. apply bool_decide_eq_true. by apply resource_is_eq.
Qed.
Lemma spec_cascade_local w gs s p r :
  same_rows (fun g => on_tree g && live (w_now w) g) (role_grants (w_db w)) gs ->
  spec_cascade (set_grants w gs) s r p = spec_cascade w s r p.
Proof.
  intros Hs.
  assert (Hty : forall g, Resource.type_str (g_resource g) = lit "folder"
                          ∨ Resource.type_str (g_resource g) = lit "file" -> on_tree g = true).
  { intros g. unfold on_tree. destruct (g_resource g); simpl; naive_solver. }
  assert (Hfolder : forall f, spec_folder (set_grants w gs) s p f = spec_folder w s p f).
  { intros f. unfold spec_folder, sql_folder_cascade. rewrite spec_ids_grants. symmetry.
    apply (existsb_same_rows _ _ _ _ Hs). intros g. rewrite !andb_true_iff, bool_decide_eq_true.
    intros [[[_ Ht] Hl] _]. split; [|done]. apply Hty. by left. }
  assert (Hfile : forall f, spec_direct (set_grants w gs) s p (lit "file") f
                            = spec_direct w s p (lit "file") f).
  { intros f. unfold spec_direct, sql_grant_exists. rewrite spec_ids_grants. symmetry.
    apply (existsb_same_rows _ _ _ _ Hs). intros g. unfold resource_is.
    rewrite !andb_true_iff, !bool_decide_eq_true. intros [[_ [Ht _]] Hl]. split; [|done].
    apply Hty. by right. }
  destruct r as [f|f| | | |]; simpl; [apply Hfolder| |done..].
  unfold spec_file. rewrite Hfile.
  change (sql_file_parent (w_db (set_grants w gs)) f) with (sql_file_parent (w_db w) f).
  destruct (sql_file_parent (w_db w) f); [by rewrite Hfolder|done].
Qed.
End locality.

(** ** The writes *)
Section writes.
Context {Cache : forall (K : Type) {E : EqDecision K} {C : @Countable K E}, Type -> Type}.
#[local] Arguments Cache _ {_ _} _.
Context `{!Moka (@Cache)} `{PolicyCodec} `{UuidText}.
Local Abbreviation Engine := (Engine (Cache:=@Cache)).
Implicit Types (s : Subject) (p : Permission) (r : Resource) (e : Engine) (gs : list Grant).

Definition set_grant_rows e gs : Engine := set_db e (with_grants (w_db (world e)) gs).

(** Rows of other resources are kept by a write on [r]. *)
Definition other_rows r gs gs' : Prop := same_rows (fun g => negb (on_resource r g)) gs gs'.

Lemma same_rows_weaken (P Q : Grant -> bool) gs gs' :
  same_rows P gs gs' -> (forall g, Q g = true -> P g = true) -> same_rows Q gs gs'.
Proof.
  unfold same_rows. intros Hs Hq.
  assert (Hx : forall l : list Grant, filter (fun g => Q g = true) l
                      = filter (fun g => Q g = true) (filter (fun g => P g = true) l)).
  { induction l as [|g l IH]; [done|]. rewrite !filter_cons. repeat case_decide; rewrite ?filter_cons.
    - rewrite decide_True by done. by f_equal.
    - exfalso. eauto.
    - by rewrite decide_False.
    - done. }
  by rewrite (Hx gs), (Hx gs'), Hs.
Qed.

Lemma cache_ok_mono {K : Type} `{Countable K} {V} (c c' : Cache K V) t (P Q : K -> V -> Prop) :
  cache_ok c t P ->
  (forall k v, cget c' t k = Some v -> cget c t k = Some v) ->
  (forall k v, cget c' t k = Some v -> P k v -> Q k v) -> cache_ok c' t Q.
Proof. intros Hc Hsub HPQ k v Hg. eauto. Qed.

(** The invalidations of a write on [r] are enough: coherence survives the write. *)
Lemma write_coherent r e gs :
  other_rows r (role_grants (w_db (world e))) gs -> coherent e ->
  coherent (invalidate_for_resource r (set_grant_rows e gs)).
Proof.
  intros Ho Hc.
  assert (Hrole : forall s d, r ≠ Drive d ->
    spec_role (set_grants (world e) gs) s d = spec_role (world e) s d).
  { intros s d Hne. apply spec_role_local. apply (same_rows_weaken _ _ _ _ Ho). intros g.
    unfold on_drive, on_resource. rewrite andb_true_iff, negb_true_iff, bool_decide_eq_true,
      bool_decide_eq_false. naive_solver. }
  assert (Hdir : forall s p r', r ≠ r' ->
    spec_direct (set_grants (world e) gs) s p (Resource.type_str r') (Resource.id r')
    = spec_direct (world e) s p (Resource.type_str r') (Resource.id r')).
  { intros s p r' Hne. apply spec_direct_local. apply (same_rows_weaken _ _ _ _ Ho). intros g.
    unfold on_resource. rewrite andb_true_iff, negb_true_iff, bool_decide_eq_true,
      bool_decide_eq_false. naive_solver. }
  assert (Hcas : forall s p r', match r with File _ | Folder _ => False | _ => True end ->
    spec_cascade (set_grants (world e) gs) s r' p = spec_cascade (world e) s r' p).
  { intros s p r' Hr. apply spec_cascade_local. apply (same_rows_weaken _ _ _ _ Ho). intros g.
    unfold on_tree, on_resource. rewrite andb_true_iff, negb_true_iff, bool_decide_eq_false.
    intros [Ht _] Heq. rewrite Heq in Ht. by destruct r. }
  destruct Hc as [? ? Hro ? Hca Hdi ?].
  destruct r as [f|f|d|c|c|c]; constructor; simpl; try assumption;
    try (intros k v; by rewrite cget_invalidate_all);
    try (eapply cache_ok_mono; [exact Hca|done|]; intros k v _ ->; symmetry; by apply Hcas);
    try (eapply cache_ok_mono; [exact Hro|done|]; intros k v _ ->; symmetry; by apply Hrole);
    try (eapply cache_ok_mono; [exact Hdi|done|]; intros [[s1 r1] p1] v _ [Ht ->]; split;
         [done|]; symmetry; apply Hdir; intros Heq; by rewrite <- Heq in Ht).
  eapply cache_ok_mono; [exact Hro| |].
  - intros k v Hg. by apply cget_invalidate_if in Hg as [? _].
  - intros k v Hg ->. apply cget_invalidate_if in Hg as [_ Hk].
    apply bool_decide_eq_false in Hk. symmetry. apply Hrole. naive_solver.
Qed.

(** [ON CONFLICT DO UPDATE] and [DELETE] on one key touch no other resource. *)
Lemma upsert_other_rows fresh by_ s ro r ex db t :
  other_rows r (role_grants db) (fst (sql_upsert_grant fresh by_ s ro r ex db t)).
Proof.
  unfold sql_upsert_grant, other_rows, same_rows.
  destruct (find _ (role_grants db)) as [old|]; simpl.
  - induction (role_grants db) as [|g gs IH]; [done|]. rewrite fmap_cons, !filter_cons.
    destruct (same_key s r g) eqn:Ek; [|by rewrite IH].
    assert (Hout : forall g', g_resource g' = r -> negb (on_resource r g') ≠ true).
    { intros g' Hr. unfold on_resource. by rewrite bool_decide_eq_true_2. }
    unfold same_key in Ek. rewrite andb_true_iff, !bool_decide_eq_true in Ek.
    rewrite !decide_False; [exact IH|by apply Hout|apply Hout; by destruct Ek].
  - rewrite list.filter_app, filter_cons, decide_False; [by rewrite app_nil_r|].
    unfold on_resource. simpl. by rewrite bool_decide_eq_true_2.
Qed.
Lemma delete_other_rows r (q : Z -> Grant -> bool) db t :
  (forall g, q t g = true -> g_resource g = r) ->
  other_rows r (role_grants db) (fst (sql_delete q db t)).
Proof.
  intros Hq. unfold sql_delete, other_rows, same_rows. simpl.
  induction (role_grants db) as [|g gs IH]; [done|].
  rewrite (filter_cons (fun g => q t g = false)). case_decide as Hd.
  - rewrite !filter_cons. by rewrite IH.
  - rewrite filter_cons, decide_False; [done|]. rewrite negb_true_iff. unfold on_resource.
    rewrite bool_decide_eq_true_2; [done|]. apply Hq. by destruct (q t g).
Qed.

(** The row a successful [set_role] leaves for its key. *)
Lemma upsert_row fresh by_ s ro r ex db t :
  let '(gs, row) := sql_upsert_grant fresh by_ s ro r ex db t in
  exists g, row = grant_to_row g ∧ g ∈ gs ∧ g_subject g = s ∧ g_resource g = r
    ∧ g_role g = ro ∧ g_expires_at g = ex ∧ g_granted_by g = by_.
Proof.
  unfold sql_upsert_grant. destruct (find _ (role_grants db)) as [old|] eqn:Ef.
  - eexists. split_and!; [done| |done..]. apply find_some in Ef as [Hin Hk].
    apply list_elem_of_fmap. exists old. rewrite Hk. split; [done|]. by apply list_elem_of_In.
  - eexists. split_and!; [done| |done..]. apply elem_of_app. right. by left.
Qed.
Lemma row_to_grant_roundtrip g : row_to_grant (grant_to_row g) = Ok g.
Proof.
  unfold row_to_grant, grant_to_row. rewrite subject_roundtrip. simpl.
  rewrite resource_roundtrip. simpl. rewrite role_roundtrip. by destruct g.
Qed.
End writes.
