(* ===== verification/AclClaims.v ===== *)
(** * Claims about the authorization engine *)

From S2P Require Import Prelude.
From S2P Require Import RustStr.
From S2P Require Import DomainErrors.
From S2P Require Import Authorization.
From S2P Require Import DrivePolicies.
From S2P Require Import Moka.
From S2P Require Import AclDb.
From S2P Require Import AuthzPort.
From S2P Require Import AclEngine.
From S2P Require Import AclSpec.
From S2P Require Import AclTheorems.
From S2P Require Import AclWrites.

(** ** A concrete engine, used to evaluate the claims

    Drive 100 holds folder 1, folder 2 inside it, and file 5 in folder 2.  User 10 is a
    member of group 20, which is nested in group 21; group 21 is a viewer of folder 1.
    Drive 200 holds file 7 and is read-only; user 10 owns it.  Calendar 8 belongs to token 30. *)
Module Demo.
Definition uuid_text : UuidText := decimal_uuid_text.
Definition codec : PolicyCodec := strict_codec.
Definition db : Db := {|
  role_grants :=
    [mkGrant 1 (Group 21) (Folder 1) Viewer 99 0 None;
     mkGrant 2 (User 10) (Drive 200) Owner 99 0 None;
     mkGrant 3 (Token 30) (Calendar 8) Editor 99 0 (Some 500%Z);
     mkGrant 4 (User 11) (File 5) Owner 99 0 (Some 1%Z)];
  folders := <[1%N := mkFolderRow [1%N] 100]> (<[2%N := mkFolderRow [1%N; 2%N] 100]> ∅);
  files := <[5%N := mkFileRow (Some 2%N) 100]> (<[7%N := mkFileRow None 200]> ∅);
  users_external := <[10%N := false]> ∅;
  group_members := [(20%N, MemberUser 10); (21%N, MemberGroup 20)];
  drives := <[100%N := (Personal, ∅)]>
              (<[200%N := (Shared, <[lit "read_only" := VBool true]> ∅)]> ∅);
  policy_defaults := fun _ => None;
|}.
Definition w : World := mkWorld db 100 false true.
Definition fresh_engine (w : World) : Engine (Cache:=@TtlMap) :=
  mkEngine w [] cnew cnew cnew cnew cnew cnew cnew.
Definition engine : Engine (Cache:=@TtlMap) := fresh_engine w.

Lemma fresh_coherent `{PolicyCodec} w : coherent (Cache:=@TtlMap) (fresh_engine w).
Proof.
  constructor; intros k v; unfold fresh_engine; cbn -[cnew cget]; by rewrite cget_new.
Defined.
#[export] Existing Instances uuid_text codec.
End Demo.

Section claims.
Context {Cache : forall (K : Type) {E : EqDecision K} {C : @Countable K E}, Type -> Type}.
#[local] Arguments Cache _ {_ _} _.
Context `{!Moka (@Cache)} `{PolicyCodec} `{UuidText}.
Local Abbreviation Engine := (Engine (Cache:=@Cache)).
Implicit Types (s : Subject) (p : Permission) (r : Resource) (e : Engine).

Lemma check_outcome e s p r :
  coherent e -> exists res e', check s p r e = (res, e') ∧ world e' = world e ∧ coherent e'
    ∧ (res = Ok (decision (world e) s p r) ∨ (exists err, res = Err err) ∧ ~ no_faults (faults e)).
Proof.
  intros Hc. destruct (check_inner_answers (world e) s p r e eq_refl Hc)
    as (res & e' & E & Hw & Hc' & _ & Hr).
  exists res, e'. split_and!; [exact E|done|done|].
  destruct Hr as [?|[(err & ? & _) ?]]; [by left|right; eauto].
Qed.

(** C1: the authorization decision.  From any state in which the caches agree with the tables,
    whatever they hold, [check] grants exactly when the operation is not frozen and a live
    grant speaks for the subject: its drive role covers the permission, or a grant on the
    resource or on an ancestor folder carries it.  It answers whenever no query fails; a
    failed query can only turn the answer into an error; and the caches stay in agreement. *)
Theorem check_decides e s p r :
  coherent e ->
  let '(res, e') := check s p r e in
  coherent e' ∧ world e' = world e
  ∧ (forall b, res = Ok b -> (b = true <-> ¬ frozen (world e) p r ∧ granted (world e) s p r))
  ∧ (no_faults (faults e) -> exists b, res = Ok b).
Proof.
  intros Hc. destruct (check_outcome e s p r Hc) as (res & e' & -> & Hw & Hc' & Hr).
  split_and!; [done|done| |].
  - intros b ->. destruct Hr as [[= ->]|[[err [=]] _]]. apply decision_meaning.
  - intros Hn. destruct Hr as [->|[_ ?]]; [eauto|done].
Qed.

(** C2: a freeze is absolute.  In a read-only drive, and on every resource while the server is
    in migration mode, no subject obtains any permission but [Read], owners and managers
    included, whatever the caches hold. *)
Theorem freeze_is_absolute e s p r d e' :
  coherent e -> p ≠ Read ->
  w_migration_readonly (world e) = true
  ∨ (r = Drive d ∨ spec_drive_of (world e) r = Some d)
    ∧ read_only (spec_policies (world e) d) = true ->
  check s p r e ≠ (Ok true, e').
Proof.
  intros Hc Hp Hf Hch. destruct (check_outcome e s p r Hc) as (res & e1 & Hch' & _ & _ & Hr).
  rewrite Hch in Hch'. injection Hch' as <- <-. destruct Hr as [[= Hd]|[[err [=]] _]].
  symmetry in Hd. apply decision_meaning in Hd as [Hnf _]. apply Hnf. split; [done|].
  destruct Hf as [?|[? ?]]; eauto.
Qed.

(** The batched read check is the per-file loop.  With no failing query both return the
    same set, the files of the page the subject may read; under failures the batch either
    errs or still returns exactly that set. *)
Theorem read_batch_is_loop e s ids :
  coherent e ->
  (no_faults (faults e) -> exists allowed e1 e2,
     check_files_read_batch s ids e = (Ok allowed, e1)
     ∧ check_files_read_loop s ids ∅ e = (Ok allowed, e2))
  ∧ (forall allowed e', check_files_read_batch s ids e = (Ok allowed, e') ->
       forall f, f ∈ allowed <-> f ∈ ids ∧ ¬ frozen (world e) Read (File f)
                              ∧ granted (world e) s Read (File f)).
Proof.
  intros Hc. destruct (batch_answers (world e) s ids e eq_refl Hc)
    as (res & e1 & E & _ & _ & _ & Hr). split.
  - intros Hn. destruct Hr as [->|[_ ?]]; [|done].
    destruct (check_files_read_loop_healthy (H0:=pg_acl_laws) s ids e ∅ Hc Hn) as (e2 & E2 & _).
    exists (list_to_set (filter (fun f => decision (world e) s Read (File f) = true) ids)), e1, e2.
    split; [exact E|]. rewrite E2. f_equal. f_equal. set_solver.
  - intros allowed e' Hb f. rewrite Hb in E. injection E as <- <-.
    destruct Hr as [[= ->]|[(err & [=] & _) _]].
    rewrite elem_of_list_to_set, list_elem_of_filter, decision_meaning. tauto.
Qed.

(** The state a write reaches, and what follows from it being coherent. *)
Lemma coherent_checks e s p r :
  coherent e -> no_faults (faults e) -> exists e', check s p r e = (Ok (decision (world e) s p r), e').
Proof.
  intros Hc Hn. destruct (check_outcome e s p r Hc) as (res & e' & E & _ & _ & [->|[_ ?]]); [eauto|done].
Qed.
Lemma sql_exec_healthy e {T} on_error (stmt : Db -> Z -> list Grant * T) :
  no_faults (faults e) -> exists fs, no_faults fs ∧
    sql_exec on_error stmt e =
      (Ok (stmt (w_db (world e)) (now e)).2,
       set_grant_rows (set_faults e fs) (stmt (w_db (world e)) (now e)).1).
Proof.
  intros Hn. unfold sql_exec, set_grant_rows. destruct (faults e) as [|[txt|] fs] eqn:Ef.
  - exists []. split; [done|]. destruct (stmt _ _). simpl.
    rewrite <- Ef. by destruct e.
  - by apply Forall_cons_1 in Hn as [? _].
  - exists fs. split; [by apply Forall_cons_1 in Hn as [_ ?]|].
    change (world (set_faults e fs)) with (world e). change (now (set_faults e fs)) with (now e).
    by destruct (stmt _ _).
Qed.
Lemma faults_invalidate r e : faults (invalidate_for_resource r e) = faults e.
Proof. by destruct r. Qed.
Lemma world_invalidate r e : world (invalidate_for_resource r e) = world e.
Proof. by destruct r. Qed.
Lemma set_faults_coherent e fs : coherent e -> coherent (set_faults e fs).
Proof. by destruct 1. Qed.

(** A role that is set is seen by the next check.  After [set_role] succeeds on an engine
    whose caches agree with the tables, they still agree: every later check, of any subject on
    any resource, answers from the new table.  In particular the subject holds each permission
    of the role on the resource, unless the resource is frozen or gone, the grant is given
    already expired, or the resource is a drive (where the strongest grant decides). *)
Theorem set_role_takes_effect e fresh by_ s ro r ex res e' :
  coherent e -> no_faults (faults e) ->
  set_role fresh by_ s ro r ex e = (res, e') ->
  (exists g, res = Ok g ∧ g_subject g = s ∧ g_resource g = r ∧ g_role g = ro ∧ g_expires_at g = ex)
  ∧ coherent e'
  ∧ (forall s' p' r', exists e'', check s' p' r' e' = (Ok (decision (world e') s' p' r'), e''))
  ∧ (forall p, p ∈ Role.expand ro ->
       match ex with None => True | Some t => (now e < t)%Z end ->
       match r with
       | Drive _ => False
       | Folder _ | File _ => is_Some (spec_drive_of (world e) r)
       | _ => True
       end ->
       ¬ frozen (world e') p r -> decision (world e') s p r = true).
Proof.
  intros Hc Hn Hs. unfold set_role in Hs.
  destruct (sql_exec_healthy e (pg_err (lit "set_role"))
              (sql_upsert_grant fresh by_ s ro r ex) Hn) as (fs & Hfs & Ex).
  rewrite (bind_ok _ _ _ _ _ Ex) in Hs.
  pose proof (upsert_row fresh by_ s ro r ex (w_db (world e)) (now e)) as Hrow.
  pose proof (upsert_other_rows fresh by_ s ro r ex (w_db (world e)) (now e)) as Ho.
  destruct (sql_upsert_grant fresh by_ s ro r ex (w_db (world e)) (now e)) as [gs row].
  destruct Hrow as (g & -> & Hin & Hgs & Hgr & Hro & Hex & _). cbn [fst snd] in Hs, Ho.
  unfold_m in Hs. rewrite row_to_grant_roundtrip in Hs.
  injection Hs as <- <-.
  assert (Hc' : coherent (invalidate_for_resource r (set_grant_rows (set_faults e fs) gs))).
  { apply write_coherent; [exact Ho|]. by apply set_faults_coherent. }
  split_and!; [by eauto 10|exact Hc'| |].
  - intros s' p' r'. apply coherent_checks; [done|]. by rewrite faults_invalidate.
  - rewrite world_invalidate. intros p Hp Hlive Hr Hnf. apply decision_meaning. split; [done|].
    set (w' := world (set_grant_rows (set_faults e fs) gs)).
    assert (Happ : applies w' s g).
    { split_and!; [done| |].
      - unfold live. rewrite Hex. destruct ex; [|done]. by apply Z.ltb_lt.
      - destruct s; [|done..]. eexists. split; [left; done|]. unfold spec_expand. set_solver. }
    assert (Hown : own_granted w' s p r).
    { exists g. split_and!; [done| |done]. unfold carries. by rewrite Hro. }
    destruct r as [f|f|d|c|c|c]; simpl; try done.
    + destruct Hr as [d Hd]. simpl in Hd. destruct (folders (w_db (world e)) !! f) as [row'|] eqn:Ef; [|done].
      exists row'. split; [done|]. right. exists g, f. split_and!; [done|by unfold carries; rewrite Hro|done|].
      exists row', row'. done.
    + destruct Hr as [d Hd]. simpl in Hd. destruct (files (w_db (world e)) !! f) as [row'|] eqn:Ef; [|done].
      exists row'. split; [done|]. right. by right.
Qed.

(** A role that is cleared is gone at the next check.  After [clear_role] succeeds the caches
    still agree with the tables, the table has lost exactly the rows of the pair, every later
    check answers from it, and what a user keeps on a calendar, an address book or a playlist
    comes from a group; a group or a token keeps nothing there. *)
Theorem clear_role_takes_effect e s r res e' :
  coherent e -> no_faults (faults e) ->
  clear_role s r e = (res, e') ->
  res = Ok tt ∧ coherent e'
  ∧ role_grants (w_db (world e'))
    = filter (fun g => same_key s r g = false) (role_grants (w_db (world e)))
  ∧ (forall s' p' r', exists e'', check s' p' r' e' = (Ok (decision (world e') s' p' r'), e''))
  ∧ (top_level r = true -> forall p, decision (world e') s p r = true ->
       exists u g, s = User u ∧ applies (world e') s g ∧ g_resource g = r ∧ g_subject g ≠ s).
Proof.
  intros Hc Hn Hs. unfold clear_role in Hs.
  destruct (sql_exec_healthy e (pg_err (lit "clear_role"))
              (sql_delete (fun _ => same_key s r)) Hn) as (fs & Hfs & Ex).
  rewrite (bind_ok _ _ _ _ _ Ex) in Hs. injection Hs as <- <-. cbn [fst snd sql_delete].
  set (gs := filter _ _).
  assert (Hc' : coherent (invalidate_for_resource r (set_grant_rows (set_faults e fs) gs))).
  { apply write_coherent; [|by apply set_faults_coherent].
    apply (delete_other_rows r (fun _ => same_key s r) _ (now e)). intros g.
    unfold same_key. rewrite andb_true_iff, !bool_decide_eq_true. by intros []. }
  split_and!; [done|exact Hc'|by rewrite world_invalidate| |].
  - intros s' p' r'. apply coherent_checks; [done|]. by rewrite faults_invalidate.
  - intros Ht p Hd. apply decision_meaning in Hd as [_ Hg].
    assert (Hown : own_granted (world (invalidate_for_resource r
                     (set_grant_rows (set_faults e fs) gs))) s p r) by by destruct r.
    destruct Hown as (g & Happ & _ & Hr).
    assert (Hne : g_subject g ≠ s).
    { intros Heq. destruct Happ as (Hin & _). rewrite world_invalidate in Hin. simpl in Hin.
      apply list_elem_of_filter in Hin as [Hk _]. unfold same_key in Hk.
      by rewrite Heq, Hr, !bool_decide_eq_true_2 in Hk. }
    destruct s as [u|u|u]; [eauto 10| |]; by destruct Happ as (_ & _ & ?).
Qed.

(** Only live rows matter. *)
Lemma decision_live w gs s p r :
  same_rows (live (w_now w)) (role_grants (w_db w)) gs ->
  decision (set_grants w gs) s p r = decision w s p r.
Proof.
  intros Hs.
  assert (Hw : forall P : Grant -> bool,
    same_rows (fun g => P g && live (w_now w) g) (role_grants (w_db w)) gs).
  { intros P. apply (same_rows_weaken _ _ _ _ Hs). intros g. by rewrite andb_true_iff; intros []. }
  assert (Hfl : forall d, spec_floor (set_grants w gs) s p d = spec_floor w s p d).
  { intros d. unfold spec_floor. by rewrite (spec_role_local w gs s d (Hw _)). }
  assert (Hdir := fun r => spec_direct_local w gs s p r (Hw _)).
  assert (Hcas := fun r => spec_cascade_local w gs s p r (Hw _)).
  unfold decision.
  change (w_migration_readonly (set_grants w gs)) with (w_migration_readonly w).
  destruct (read_only_gate_applies p && w_migration_readonly w); [done|].
  destruct r as [f|f|d|c|c|c];
    [rewrite Hcas|rewrite Hcas|by rewrite Hfl|apply (Hdir (Calendar c))
    |apply (Hdir (AddressBook c))|apply (Hdir (Playlist c))].
  - change (spec_drive_of (set_grants w gs) (Folder f)) with (spec_drive_of w (Folder f)).
    destruct (spec_drive_of w (Folder f)); [by rewrite Hfl|done].
  - change (spec_drive_of (set_grants w gs) (File f)) with (spec_drive_of w (File f)).
    destruct (spec_drive_of w (File f)); [by rewrite Hfl|done].
Qed.
Lemma live_rows_coherent e fs gs :
  coherent e -> same_rows (live (now e)) (role_grants (w_db (world e))) gs ->
  coherent (set_grant_rows (set_faults e fs) gs).
Proof.
  intros Hc Hs.
  assert (Hw : forall P : Grant -> bool,
    same_rows (fun g => P g && live (now e) g) (role_grants (w_db (world e))) gs).
  { intros P. apply (same_rows_weaken _ _ _ _ Hs). intros g. by rewrite andb_true_iff; intros []. }
  destruct Hc as [? ? Hro ? Hca Hdi ?]. constructor; try assumption.
  - intros k v ->%Hro. symmetry. apply (spec_role_local (world e) gs _ _ (Hw _)).
  - intros k v ->%Hca. symmetry. apply (spec_cascade_local (world e) gs _ _ _ (Hw _)).
  - intros k v [? ->]%Hdi. split; [done|]. symmetry.
    apply (spec_direct_local (world e) gs _ _ _ (Hw _)).
Qed.
Lemma sql_exec_ok {T} on_error (stmt : Db -> Z -> list Grant * T) e v e' :
  sql_exec on_error stmt e = (Ok v, e') -> exists fs,
    v = (stmt (w_db (world e)) (now e)).2
    ∧ e' = set_grant_rows (set_faults e fs) (stmt (w_db (world e)) (now e)).1.
Proof.
  unfold sql_exec. destruct (faults e) as [|[txt|] fs] eqn:Ef; [|done|].
  - exists []. destruct (stmt _ _). injection H1 as <- <-. split; [done|]. simpl.
    rewrite <- Ef. by destruct e.
  - exists fs. change (world (set_faults e fs)) with (world e) in H1.
    change (now (set_faults e fs)) with (now e) in H1.
    destruct (stmt _ _). by injection H1 as <- <-.
Qed.

(** The purge is invisible.  [purge_expired_grants] removes exactly the rows that expired more
    than the grace period ago, reports how many, and changes no authorization decision; the
    caches, which it does not touch, stay right. *)
Theorem purge_changes_no_decision e grace n e' :
  coherent e -> (0 <= grace)%Z ->
  purge_expired_grants grace e = (Ok n, e') ->
  (forall g, g ∈ role_grants (w_db (world e')) <->
     g ∈ role_grants (w_db (world e))
     ∧ match g_expires_at g with Some t => (now e - grace * DAY <= t)%Z | None => True end)
  ∧ n = (Z.of_nat (length (role_grants (w_db (world e))))
         - Z.of_nat (length (role_grants (w_db (world e')))))%Z
  ∧ (forall s p r, decision (world e') s p r = decision (world e) s p r)
  ∧ coherent e'.
Proof.
  intros Hc Hg Hp. unfold purge_expired_grants in Hp.
  destruct (sql_exec_ok _ _ _ _ _ Hp) as (fs & -> & ->). clear Hp. cbn [fst snd sql_delete].
  set (dead := fun g : Grant => match g_expires_at g with
                                | Some t => (t <? now e - grace * DAY)%Z | None => false end).
  set (gs := filter (fun g => dead g = false) (role_grants (w_db (world e)))).
  assert (Hlive : same_rows (live (now e)) (role_grants (w_db (world e))) gs).
  { unfold same_rows, gs. symmetry. apply list_filter_filter_l. intros g Hl.
    unfold dead. unfold live in Hl. destruct (g_expires_at g) as [t|]; [|done].
    apply Z.ltb_lt in Hl. apply Z.ltb_ge. unfold DAY. lia. }
  split_and!.
  - intros g. simpl. unfold gs. rewrite list_elem_of_filter. unfold dead.
    destruct (g_expires_at g) as [t|]; [rewrite Z.ltb_ge|]; tauto.
  - pose proof (filter_complement_length dead (role_grants (w_db (world e)))) as Hl.
    change (Z.of_nat (length (filter (fun g => dead g = true) (role_grants (w_db (world e)))))
            = Z.of_nat (length (role_grants (w_db (world e)))) - Z.of_nat (length gs))%Z.
    fold gs in Hl. lia.
  - intros s p r. by apply (decision_live (world e) gs).
  - apply (live_rows_coherent e fs gs Hc Hlive).
Qed.
End claims.

(** ** Witnesses and boundary cases *)
Import Demo.

Lemma check_decides_witness :
  let '(res, e') := check (User 10) Read (File 5) engine in
  res = Ok true ∧ coherent e' ∧ granted w (User 10) Read (File 5).
Proof.
  pose proof (check_decides engine (User 10) Read (File 5) (fresh_coherent w)) as Hc.
  assert (Hr : fst (check (User 10) Read (File 5) engine) = Ok true) by by vm_compute.
  destruct (check (User 10) Read (File 5) engine) as [res e']. simpl in Hr. subst res.
  destruct Hc as (Hc & _ & Hb & _). split_and!; [done|done|]. by apply (Hb true eq_refl).
Defined.

Lemma freeze_is_absolute_witness :
  (forall e', check (User 10) Manage (Drive 200) engine ≠ (Ok true, e'))
  ∧ fst (check (User 10) Read (Drive 200) engine) = Ok true.
Proof.
  split; [|by vm_compute]. intros e'.
  apply (freeze_is_absolute engine (User 10) Manage (Drive 200) 200 e' (fresh_coherent w)); [done|].
  right. split; [by left|by vm_compute].
Defined.

Lemma read_batch_is_loop_witness :
  exists allowed e1 e2,
    check_files_read_batch (User 10) [5; 7; 9]%N engine = (Ok allowed, e1)
    ∧ check_files_read_loop (User 10) [5; 7; 9]%N ∅ engine = (Ok allowed, e2)
    ∧ 5%N ∈ allowed ∧ 9%N ∉ allowed.
Proof.
  destruct (read_batch_is_loop engine (User 10) [5; 7; 9]%N (fresh_coherent w)) as [Hl _].
  destruct (Hl ltac:(constructor)) as (allowed & e1 & e2 & Hb & Hloop).
  exists allowed, e1, e2. split_and!; [done|done| |].
  - assert (Ha : (bool_decide (5%N ∈ allowed) : bool) = true); [|by apply bool_decide_eq_true in Ha].
    assert (Hv : match fst (check_files_read_batch (User 10) [5; 7; 9]%N engine) with
                 | Ok a => bool_decide (5%N ∈ a) | Err _ => false end = true) by by vm_compute.
    by rewrite Hb in Hv.
  - assert (Hv : match fst (check_files_read_batch (User 10) [5; 7; 9]%N engine) with
                 | Ok a => bool_decide (9%N ∈ a) | Err _ => true end = false) by by vm_compute.
    rewrite Hb in Hv. by apply bool_decide_eq_false in Hv.
Defined.

Lemma set_role_takes_effect_witness :
  exists e1 e2,
    set_role 50 99 (User 12) Editor (Calendar 8) None engine
      = (Ok (mkGrant 50 (User 12) (Calendar 8) Editor 99 100 None), e1)
    ∧ check (User 12) Update (Calendar 8) e1 = (Ok true, e2).
Proof.
  destruct (set_role 50 99 (User 12) Editor (Calendar 8) None engine) as [res e1] eqn:E.
  destruct (set_role_takes_effect engine 50 99 (User 12) Editor (Calendar 8) None res e1
              (fresh_coherent w) ltac:(constructor) E) as (_ & _ & Hch & Hd).
  assert (Hr : fst (set_role 50 99 (User 12) Editor (Calendar 8) None engine)
               = Ok (mkGrant 50 (User 12) (Calendar 8) Editor 99 100 None)) by by vm_compute.
  rewrite E in Hr. simpl in Hr. subst res.
  destruct (Hch (User 12) Update (Calendar 8)) as [e2 He2]. exists e1, e2. split; [done|].
  rewrite He2. do 2 f_equal. apply (Hd Update); [by vm_compute; set_solver|done|done|].
  assert (Hf : w_migration_readonly (world (snd (set_role 50 99 (User 12) Editor (Calendar 8)
    None engine))) = false) by by vm_compute.
  rewrite E in Hf. simpl in Hf. intros [_ [Hm|(d & [[=]|[=]] & _)]]. congruence.
Defined.

Lemma clear_role_takes_effect_witness :
  fst (check (Token 30) Update (Calendar 8) engine) = Ok true
  ∧ fst (check (Token 30) Update (Calendar 8) (snd (clear_role (Token 30) (Calendar 8) engine)))
    = Ok false.
Proof.
  split; [by vm_compute|].
  destruct (clear_role (Token 30) (Calendar 8) engine) as [res e1] eqn:E.
  destruct (clear_role_takes_effect engine (Token 30) (Calendar 8) res e1 (fresh_coherent w)
              ltac:(constructor) E) as (_ & _ & _ & Hch & Hd).
  simpl. destruct (Hch (Token 30) Update (Calendar 8)) as [e2 ->]. simpl. f_equal.
  destruct (decision (world e1) (Token 30) Update (Calendar 8)) eqn:Hx; [|done].
  destruct (Hd eq_refl Update Hx) as (u & g & [=] & _).
Defined.

Lemma purge_changes_no_decision_witness :
  exists e1, purge_expired_grants 0 engine = (Ok 1%Z, e1)
    ∧ decision (world e1) (Token 30) Update (Calendar 8) = true
    ∧ length (role_grants (w_db (world e1))) = 3%nat.
Proof.
  destruct (purge_expired_grants 0 engine) as [res e1] eqn:E.
  assert (Hr : fst (purge_expired_grants 0 engine) = Ok 1%Z) by by vm_compute.
  rewrite E in Hr. simpl in Hr. subst res.
  destruct (purge_changes_no_decision engine 0 1 e1 (fresh_coherent w) ltac:(lia) E)
    as (_ & Hn & Hd & _).
  exists e1. split_and!; [done| |].
  - rewrite Hd. by vm_compute.
  - assert (Z.of_nat (length (role_grants (w_db (world engine)))) = 4%Z) by by vm_compute. lia.
Defined.

Lemma require_contract_witness :
  (exists e', require (User 10) Read (File 5) engine = (Ok tt, e'))
  ∧ (exists e', require (User 11) Delete (File 5) engine
                = (Err (DomainError.not_found (lit "File") (uuid_to_string 5)), e'))
  ∧ (exists e' err, require (User 10) Delete (File 5) engine = (Err err, e')
                    ∧ kind err = AccessDenied).
Proof.
  destruct (require_contract (H0:=pg_acl_laws) engine (User 10) Read (File 5) (fresh_coherent w)) as [Ha _].
  destruct (require_contract (H0:=pg_acl_laws) engine (User 11) Delete (File 5) (fresh_coherent w)) as [Hb _].
  destruct (require_contract (H0:=pg_acl_laws) engine (User 10) Delete (File 5) (fresh_coherent w)) as [Hc _].
  split_and!.
  - apply Ha; [constructor|by vm_compute].
  - apply Hb; [constructor|by vm_compute..].
  - apply Hc; [constructor|by vm_compute..].
Defined.

Lemma require_any_contract_witness :
  (exists e', require_any [User 11; User 10] Read (File 5) engine = (Ok (User 10), e'))
  ∧ (exists e' err, require_any [] Read (File 5) engine = (Err err, e') ∧ kind err = NotFound).
Proof.
  split.
  - destruct (require_any_contract (H0:=pg_acl_laws) engine [User 11; User 10] Read (File 5) (fresh_coherent w)
                ltac:(constructor)) as [e' E]. exists e'. rewrite E. f_equal; by vm_compute.
  - destruct (require_any_contract (H0:=pg_acl_laws) engine [] Read (File 5) (fresh_coherent w)
                ltac:(constructor)) as [e' E]. do 2 eexists. split; [exact E|done].
Defined.

(** Group membership is transitive and complete.  The recursive query returns exactly the
    groups the user belongs to directly or through nested groups, whatever cycles the nesting
    has. *)
Theorem groups_for_user_transitive db u g : g ∈ groups_for_user db u <-> member_of db u g.
Proof. apply groups_for_user_spec. Qed.

(** The two role tables agree with each other and with the wire names.  The roles whose SQL
    name [roles_implying] binds into a query for a permission are exactly the roles whose
    bundle contains it, and subjects, resources, roles and permissions survive the trip through
    their stored text, so a row read back is the grant that was written. *)
Theorem grant_tables_agree :
  (forall p r, Role.as_str r ∈ roles_implying_strings p <-> p ∈ Role.expand r)
  ∧ (forall g, row_to_grant (grant_to_row g) = Ok g)
  ∧ (forall p, Permission.parse (Permission.as_str p) = Some p)
  ∧ (forall p r, grant_bundle_has r p = true -> grant_bundle_has Owner p = true).
Proof.
  split_and!.
  - intros p r. rewrite <- roles_implying_expand. unfold roles_implying_strings.
    rewrite list_elem_of_fmap. split; [|eauto].
    intros (r' & Heq & Hin). by rewrite (role_as_str_inj _ _ Heq).
  - apply row_to_grant_roundtrip.
  - apply permission_roundtrip.
  - by intros [] [].
Qed.

(** Drive 300: user 13 contributes to it and comments on it through group 40. *)
Definition two_roles_db : Db := {|
  role_grants :=
    [mkGrant 1 (User 13) (Drive 300) Contributor 99 0 None;
     mkGrant 2 (Group 40) (Drive 300) Commenter 99 0 None];
  folders := ∅; files := ∅; users_external := <[13%N := false]> ∅;
  group_members := [(40%N, MemberUser 13)];
  drives := <[300%N := (Shared, ∅)]> ∅;
  policy_defaults := fun _ => None;
|}.
Definition two_roles_world : World := mkWorld two_roles_db 100 false true.

(** Drive roles do not add up.  A subject can hold a live grant on a drive that carries a
    permission, on a drive nothing freezes, and still be refused it: the query keeps one role
    per drive, and commenter and contributor are not comparable as bundles. *)
Theorem drive_roles_do_not_join :
  exists e s p d g, coherent e ∧ no_faults (faults e)
    ∧ applies (world e) s g ∧ g_resource g = Drive d ∧ carries g p
    ∧ ¬ frozen (world e) p (Drive d)
    ∧ fst (check s p (Drive d) e) = Ok false.
Proof.
  exists (fresh_engine two_roles_world), (User 13), Comment, 300%N,
    (mkGrant 2 (Group 40) (Drive 300) Commenter 99 0 None).
  split_and!; [apply fresh_coherent|constructor|..|by vm_compute].
  - split_and!; [by right; left|done|].
    exists 40%N. split; [by right|]. apply (bool_decide_unpack _). by vm_compute.
  - done.
  - by right; left.
  - intros [_ [?|(d & [[= <-]|[=]] & Hro)]]; [done|]. by vm_compute in Hro.
Qed.

(** A changed expiry is not seen on a drive.  [set_expiry_for_subject] drops only the
    cascade decisions: after a check has cached the subject's drive role, setting the expiry to
    a past instant leaves the next check granting, although the tables no longer do. *)
Theorem expiry_change_misses_drive_roles :
  exists e s t p d, coherent e ∧ no_faults (faults e) ∧ (t < now e)%Z
    ∧ let e1 := snd (check s p (Drive d) e) in
      let e2 := snd (set_expiry_for_subject s (Some t) e1) in
      decision (world e2) s p (Drive d) = false
      ∧ fst (check s p (Drive d) e2) = Ok true.
Proof.
  exists (fresh_engine two_roles_world), (User 13), 50%Z, Create, 300%N.
  split; [apply fresh_coherent|]. split; [by apply Forall_nil|]. split; [done|].
  split; by vm_compute.
Qed.
