(* ===== verification/StoragePath.v ===== *)
(** * Storage names and paths

    [src/src/domain/services/path_service.rs]: the rules for one name component, and the value
    object [StoragePath], which keeps a path as one canonical string.  The specification is the
    list of its segments: every operation on the string is the expected operation on that list. *)

From S2P Require Import Prelude.
From S2P Require Import RustStr.

Definition SLASH : byte := 47.
Definition DOT : str := lit ".".
Definition DOTDOT : str := lit "..".

(** ** Unicode normalisation (crate [unicode-normalization])

    [nfc] is a projection, and the quick check never answers [Yes] for a string that the full
    normalisation would change. *)
Class Unicode := {
  nfc : str -> str;
  is_nfc_quick_yes : str -> bool;
  nfc_idem s : nfc (nfc s) = nfc s;
  nfc_quick_sound s : is_nfc_quick_yes s = true -> nfc s = s;
}.
(** ASCII text is its own normal form: the identity is a model of the laws on ASCII names. *)
Definition ascii_unicode : Unicode.
Proof. refine {| nfc s := s; is_nfc_quick_yes := is_ascii |}; done. Defined.

Section names.
Context `{Unicode}.
Definition normalize_storage_name (name : str) : str :=
  if is_nfc_quick_yes name then name else nfc name.
Definition normalize_storage_name_owned (name : str) : str :=
  if is_nfc_quick_yes name then name else nfc name.
Lemma normalize_is_nfc name :
  normalize_storage_name name = nfc name ∧ normalize_storage_name_owned name = nfc name.
Proof.
  unfold normalize_storage_name, normalize_storage_name_owned.
  destruct (is_nfc_quick_yes name) eqn:E; [|done]. by rewrite nfc_quick_sound.
Qed.
End names.

Definition validate_storage_name (name : str) : result str unit :=
  if bool_decide (name = []) then Err (lit "name cannot be empty")
  else if str_contains SLASH name || str_contains 92 name then
    Err (lit "name must not contain '/' or '\'")
  else if str_contains 0 name then Err (lit "name must not contain null bytes")
  else if bool_decide (name = DOT) || bool_decide (name = DOTDOT) then
    Err (lit "'.' and '..' are not valid names")
  else Ok tt.

(** A call to [expect] on [None]. *)
Inductive Panic := panic.

Record StoragePath := mkPath { joined : str }.
#[global] Instance StoragePath_eq_dec : EqDecision StoragePath. Proof. solve_decision. Defined.

Module StoragePath.
Definition is_safe_segment (s : str) : bool :=
  negb (bool_decide (s = [])) && negb (bool_decide (s = DOT)) && negb (bool_decide (s = DOTDOT))
  && negb (str_contains SLASH s).

(** The loop of [build]: [joined] grows by a slash and the segment. *)
Definition push_segments (joined : str) (segments : list str) : str :=
  foldl (fun joined seg => joined ++ [SLASH] ++ seg) joined segments.
Definition or_root (joined : str) : str := if decide (joined = []) then [SLASH] else joined.
Definition build (segments : list str) : StoragePath :=
  mkPath (or_root (push_segments [] (filter (fun s => is_safe_segment s = true) segments))).
Definition new (segments : list str) : StoragePath := build segments.
Definition root : StoragePath := mkPath [SLASH].
Definition from_string (path : str) : StoragePath := build (split SLASH path).
Definition from_folder_and_name (folder_path : option str) (file_name : str) : StoragePath :=
  build (split SLASH (default [] folder_path) ++ split SLASH file_name).

Definition ends_with_slash (s : str) : bool := bool_decide (list.last s = Some SLASH).
Definition is_canonical_joined (path : str) : bool :=
  if bool_decide (path = [SLASH]) then true
  else if negb (starts_with [SLASH] path) || ends_with_slash path then false
  else forallb is_safe_segment (split SLASH (drop 1 path)).
Definition from_joined (path : str) : StoragePath :=
  if is_canonical_joined path then mkPath path else from_string path.

(** [PathBuf::components] on Unix: the [Normal] components are the pieces between slashes
    that are neither empty, nor [.], nor [..]. *)
Definition normal_components (path : str) : list str :=
  filter (fun s => s ≠ [] ∧ s ≠ DOT ∧ s ≠ DOTDOT) (split SLASH path).
Definition from (path_buf : str) : StoragePath :=
  mkPath (or_root (push_segments []
    (filter (fun s => is_safe_segment s = true) (normal_components path_buf)))).

Definition join (self : StoragePath) (segment : str) : StoragePath :=
  if is_safe_segment segment then
    let joined := if decide (joined self = [SLASH]) then [] else joined self in
    mkPath (joined ++ [SLASH] ++ segment)
  else self.
Definition file_name (self : StoragePath) : option str :=
  if decide (joined self = [SLASH]) then None
  else Some (match rsplit_once SLASH (joined self) with
             | Some (_, name) => name
             | None => joined self
             end).
Definition parent (self : StoragePath) : result Panic (option StoragePath) :=
  if decide (joined self = [SLASH]) then Ok None
  else match rsplit_once SLASH (joined self) with
       | None => Err panic
       | Some (before, _) =>
           Ok (Some (if decide (length before = 0)%nat then root else mkPath before))
       end.
Definition is_empty (self : StoragePath) : bool := bool_decide (joined self = [SLASH]).
Definition to_path_string (self : StoragePath) : str := joined self.
Definition segments (self : StoragePath) : list str :=
  let inner := if decide (joined self = [SLASH]) then [] else drop 1 (joined self) in
  filter (fun s => s ≠ []) (split SLASH inner).
End StoragePath.

(** ** Segments *)
Definition safe (s : str) : Prop := StoragePath.is_safe_segment s = true.
(** The canonical rendering of a list of segments. *)
Definition render (segs : list str) : str :=
  match segs with [] => [SLASH] | _ => concat ((fun s => SLASH :: s) <$> segs) end.
(** The invariant of the type: the string renders safe segments. *)
Definition canonical (p : StoragePath) : Prop :=
  exists segs, Forall safe segs ∧ joined p = render segs.

Lemma safe_spec s : safe s <-> s ≠ [] ∧ s ≠ DOT ∧ s ≠ DOTDOT ∧ SLASH ∉ s.
Proof.
  unfold safe, StoragePath.is_safe_segment, str_contains.
  rewrite !andb_true_iff, !negb_true_iff, !bool_decide_eq_false. tauto.
Qed.
Lemma safe_not_nil s : safe s -> s ≠ []. Proof. by rewrite safe_spec; intros []. Qed.
Lemma safe_no_slash s : safe s -> SLASH ∉ s. Proof. by rewrite safe_spec; intros (_ & _ & _ & ?). Qed.

Lemma push_segments_concat segs acc :
  StoragePath.push_segments acc segs = acc ++ concat ((fun s => SLASH :: s) <$> segs).
Proof.
  revert acc. induction segs as [|s segs IH]; intros acc; simpl; [by rewrite app_nil_r|].
  unfold StoragePath.push_segments in *. simpl. rewrite IH. by rewrite <- !app_assoc.
Qed.
Lemma build_render segs :
  joined (StoragePath.build segs)
  = render (filter (fun s => StoragePath.is_safe_segment s = true) segs).
Proof.
  unfold StoragePath.build, StoragePath.or_root. simpl. rewrite push_segments_concat. simpl.
  by destruct (filter _ segs).
Qed.
Lemma concat_join s segs :
  concat ((fun s => SLASH :: s) <$> (s :: segs)) = SLASH :: RustStr.join SLASH (s :: segs).
Proof.
  revert s. induction segs as [|t segs IH]; intros s; [by rewrite fmap_cons; simpl; rewrite app_nil_r|].
  rewrite fmap_cons. cbn [concat]. rewrite IH. done.
Qed.
Lemma render_cons s segs : render (s :: segs) = SLASH :: RustStr.join SLASH (s :: segs).
Proof. apply concat_join. Qed.
Lemma render_snoc segs s :
  render (segs ++ [s]) = (match segs with [] => [] | _ => render segs end) ++ SLASH :: s.
Proof.
  destruct segs as [|t segs]; [by simpl; rewrite app_nil_r|]. unfold render. simpl app.
  change (t :: segs ++ [s]) with ((t :: segs) ++ [s]). rewrite fmap_app, concat_app.
  simpl. by rewrite !app_nil_r.
Qed.
Lemma join_not_nil s segs : s ≠ [] -> RustStr.join SLASH (s :: segs) ≠ [].
Proof. intros Hs. destruct segs; simpl; [done|]. by destruct s. Qed.
Lemma render_root segs : Forall safe segs -> render segs = [SLASH] -> segs = [].
Proof.
  intros Hs. destruct segs as [|s segs]; [done|]. rewrite render_cons. intros [= Hj].
  apply Forall_cons_1 in Hs as [Hs%safe_not_nil _]. by apply (join_not_nil s segs) in Hs.
Qed.
Lemma filter_all {A} (P : A -> Prop) `{!forall x, Decision (P x)} l : Forall P l -> filter P l = l.
Proof. induction 1; [done|]. rewrite filter_cons, decide_True by done. by f_equal. Qed.
Lemma safe_clean segs : Forall safe segs -> Forall (fun p => SLASH ∉ p) segs.
Proof. intros Hs. eapply list.Forall_impl; [exact Hs|]. apply safe_no_slash. Qed.

Lemma segments_render p segs :
  Forall safe segs -> joined p = render segs -> StoragePath.segments p = segs.
Proof.
  intros Hs Hj. unfold StoragePath.segments. rewrite Hj. destruct segs as [|s segs].
  { by rewrite decide_True. }
  rewrite decide_False; [|intros Hr; by apply render_root in Hr].
  rewrite render_cons, skipn_cons, drop_0, split_join; [|done|by apply safe_clean].
  apply filter_all. eapply list.Forall_impl; [exact Hs|]. apply safe_not_nil.
Qed.
Lemma canonical_segments p :
  canonical p -> Forall safe (StoragePath.segments p) ∧ joined p = render (StoragePath.segments p).
Proof. intros (segs & Hs & Hj). by rewrite (segments_render p segs Hs Hj). Qed.
Lemma canonical_inj p q :
  canonical p -> canonical q -> StoragePath.segments p = StoragePath.segments q -> p = q.
Proof.
  intros [_ Hp]%canonical_segments [_ Hq]%canonical_segments Heq.
  destruct p as [jp], q as [jq]. simpl in *. f_equal. by rewrite Hp, Hq, Heq.
Qed.
Lemma safe_filter segs :
  Forall safe (filter (fun s => StoragePath.is_safe_segment s = true) segs).
Proof. apply list.Forall_forall. intros s Hs. by apply list_elem_of_filter in Hs as [? _]. Qed.

Lemma build_segments segs :
  canonical (StoragePath.build segs)
  ∧ StoragePath.segments (StoragePath.build segs)
    = filter (fun s => StoragePath.is_safe_segment s = true) segs.
Proof.
  pose proof (build_render segs) as Hr. pose proof (safe_filter segs) as Hs.
  split; [by eexists|]. by apply segments_render.
Qed.
Lemma join_segments p s :
  canonical p -> canonical (StoragePath.join p s)
  ∧ StoragePath.segments (StoragePath.join p s)
    = StoragePath.segments p ++ (if StoragePath.is_safe_segment s then [s] else []).
Proof.
  intros Hc. unfold StoragePath.join. destruct (StoragePath.is_safe_segment s) eqn:Es;
    [|by rewrite app_nil_r].
  destruct (canonical_segments p Hc) as [Hs Hj]. set (segs := StoragePath.segments p) in *.
  assert (Hall : Forall safe (segs ++ [s])) by (apply Forall_app; split; [done|by constructor]).
  set (q := mkPath _). assert (Hq : joined q = render (segs ++ [s])).
  { rewrite render_snoc. unfold q. simpl. f_equal. rewrite Hj. case_decide as Hr.
    - by apply render_root in Hr as ->.
    - by destruct segs. }
  split; [by eexists|]. by apply segments_render.
Qed.
Lemma canonical_rsplit p segs s :
  Forall safe (segs ++ [s]) -> joined p = render (segs ++ [s]) ->
  rsplit_once SLASH (joined p) = Some (match segs with [] => [] | _ => render segs end, s)
  ∧ joined p ≠ [SLASH].
Proof.
  intros Hs Hj. split.
  - rewrite Hj, render_snoc. apply rsplit_once_app.
    apply Forall_app in Hs as [_ Hs]. apply Forall_cons_1 in Hs as [Hs _]. by apply safe_no_slash.
  - intros Hr. rewrite Hj in Hr. apply render_root in Hr; [|done]. by destruct segs.
Qed.
Lemma parent_file_name_snoc p segs s :
  Forall safe (segs ++ [s]) -> joined p = render (segs ++ [s]) ->
  StoragePath.file_name p = Some s ∧ StoragePath.parent p = Ok (Some (mkPath (render segs))).
Proof.
  intros Hs Hj. destruct (canonical_rsplit p segs s Hs Hj) as [Hr Hne].
  unfold StoragePath.file_name, StoragePath.parent. rewrite !decide_False by done. rewrite Hr.
  split; [done|]. do 2 f_equal. destruct segs as [|t segs]; [done|].
  rewrite decide_False; [done|]. by rewrite render_cons.
Qed.
Lemma snoc_cases {A} (l : list A) : l = [] ∨ exists l' x, l = l' ++ [x].
Proof. destruct l using rev_ind; [by left|right; eauto]. Qed.

(** A storage path is a list of safe segments.  Every constructor yields a canonical string
    whose segments are the safe ones of its input, in order, so no path ever holds [.], [..], an
    empty segment or a slash inside a segment; on a canonical path [join] appends a safe segment
    and ignores any other, [file_name] is the last segment, [parent] drops it and never reaches
    its panic, and two paths with the same segments are equal. *)
Theorem storage_path_refines_segments :
  (forall segs, canonical (StoragePath.new segs)
     ∧ StoragePath.segments (StoragePath.new segs)
       = filter (fun s => StoragePath.is_safe_segment s = true) segs)
  ∧ (forall path, canonical (StoragePath.from path)
     ∧ StoragePath.segments (StoragePath.from path) = StoragePath.segments (StoragePath.from_string path))
  ∧ (forall p s, canonical p -> canonical (StoragePath.join p s)
     ∧ StoragePath.segments (StoragePath.join p s)
       = StoragePath.segments p ++ (if StoragePath.is_safe_segment s then [s] else []))
  ∧ (forall p, canonical p -> StoragePath.file_name p = list.last (StoragePath.segments p))
  ∧ (forall p, canonical p -> match StoragePath.parent p with
     | Err _ => False
     | Ok None => StoragePath.segments p = []
     | Ok (Some q) => canonical q ∧ exists s, StoragePath.segments p = StoragePath.segments q ++ [s]
     end)
  ∧ (forall p q, canonical p -> canonical q ->
       StoragePath.segments p = StoragePath.segments q -> p = q)
  ∧ (forall s, StoragePath.is_safe_segment s = true <-> s ≠ [] ∧ s ≠ DOT ∧ s ≠ DOTDOT ∧ SLASH ∉ s).
Proof.
  split_and!; [apply build_segments| |apply join_segments| | |apply canonical_inj|apply safe_spec].
  - intros path.
    change (StoragePath.from path) with (StoragePath.build (StoragePath.normal_components path)).
    unfold StoragePath.from_string. split; [apply build_segments|].
    destruct (build_segments (split SLASH path)) as [_ ->].
    destruct (build_segments (StoragePath.normal_components path)) as [_ ->].
    unfold StoragePath.normal_components. apply list_filter_filter_l.
    intros s (? & ? & ? & _)%safe_spec. done.
  - intros p Hc. destruct (canonical_segments p Hc) as [Hs Hj].
    destruct (snoc_cases (StoragePath.segments p)) as [He|(segs & s & He)]; rewrite He in *.
    + unfold StoragePath.file_name. by rewrite decide_True.
    + rewrite last_snoc. by apply (parent_file_name_snoc p segs s).
  - intros p Hc. destruct (canonical_segments p Hc) as [Hs Hj].
    destruct (snoc_cases (StoragePath.segments p)) as [He|(segs & s & He)]; rewrite He in *.
    + unfold StoragePath.parent. by rewrite decide_True.
    + destruct (parent_file_name_snoc p segs s Hs Hj) as [_ ->].
      apply Forall_app in Hs as [Hs _]. split; [by exists segs|]. exists s.
      by rewrite (segments_render (mkPath (render segs)) segs Hs eq_refl).
Qed.

(** The fast path of [from_joined] accepts exactly the canonical renderings. *)
Lemma is_canonical_joined_render path :
  StoragePath.is_canonical_joined path = true ->
  exists segs, Forall safe segs ∧ path = render segs ∧
    filter (fun s => StoragePath.is_safe_segment s = true) (split SLASH path) = segs.
Proof.
  unfold StoragePath.is_canonical_joined. case_bool_decide as Hr.
  { intros _. exists []. rewrite Hr. by split_and!. }
  destruct (starts_with [SLASH] path) eqn:Hs; [|done]. simpl.
  destruct (StoragePath.ends_with_slash path); [done|].
  unfold starts_with in Hs. destruct (strip_prefix [SLASH] path) as [rest|] eqn:Hp; [|done].
  apply strip_prefix_Some in Hp. subst path. simpl. rewrite drop_0. intros Hall.
  assert (Hsafe : Forall safe (split SLASH rest)).
  { apply list.Forall_forall. intros s Hin. rewrite forallb_forall in Hall.
    apply Hall. by apply list_elem_of_In. }
  exists (split SLASH rest). split_and!; [done| |].
  - destruct (split SLASH rest) as [|s segs] eqn:E; [by apply split_not_nil in E|].
    rewrite render_cons. f_equal. by rewrite <- E, join_split.
  - rewrite filter_cons, decide_False by done. by apply filter_all.
Qed.
Lemma from_joined_from_string path : StoragePath.from_joined path = StoragePath.from_string path.
Proof.
  unfold StoragePath.from_joined. destruct (StoragePath.is_canonical_joined path) eqn:E; [|done].
  apply is_canonical_joined_render in E as (segs & Hs & Hp & Hf).
  unfold StoragePath.from_string. destruct (build_segments (split SLASH path)) as [Hc Hseg].
  apply canonical_inj; [by exists segs|done|].
  rewrite Hseg, Hf. by apply segments_render.
Qed.
Lemma split_app_both c a b : split c (a ++ c :: b) = split c a ++ split c b.
Proof.
  induction a as [|x a IH]; simpl; [by rewrite decide_True|].
  case_decide; [by rewrite IH|]. rewrite IH. by destruct (split c a) eqn:E; [apply split_not_nil in E|].
Qed.

(** The string of a canonical path below the root. *)
Lemma canonical_pieces p :
  canonical p -> StoragePath.segments p ≠ [] ->
  joined p ≠ [SLASH] ∧ joined p = SLASH :: RustStr.join SLASH (StoragePath.segments p)
  ∧ split SLASH (RustStr.join SLASH (StoragePath.segments p)) = StoragePath.segments p.
Proof.
  intros [Hs Hj]%canonical_segments Hne. split_and!.
  - rewrite Hj. intros Hr. by apply render_root in Hr.
  - by destruct (StoragePath.segments p); [|rewrite Hj, render_cons].
  - apply split_join; [done|by apply safe_clean].
Qed.
Lemma canonical_no_trailing_slash p :
  canonical p -> StoragePath.segments p ≠ [] -> StoragePath.ends_with_slash (joined p) = false.
Proof.
  intros [Hs Hj]%canonical_segments Hne. apply bool_decide_eq_false_2.
  destruct (snoc_cases (StoragePath.segments p)) as [He|(segs & s & He)]; [done|].
  rewrite He in Hs. apply Forall_app in Hs as [_ Hs]. apply Forall_cons_1 in Hs as [Hs _].
  rewrite Hj, He, render_snoc, cons_middle, app_assoc.
  destruct (snoc_cases s) as [->|(s' & x & ->)]; [by apply safe_not_nil in Hs|].
  rewrite app_assoc, last_snoc. intros [= ->]. apply safe_no_slash in Hs. set_solver.
Qed.
Lemma canonical_is_canonical_joined p :
  canonical p -> StoragePath.is_canonical_joined (joined p) = true.
Proof.
  intros Hc. destruct (canonical_segments p Hc) as [Hs Hj]. unfold StoragePath.is_canonical_joined.
  destruct (decide (StoragePath.segments p = [])) as [He|Hne].
  { rewrite Hj, He. done. }
  destruct (canonical_pieces p Hc Hne) as (Hr & Heq & Hsp).
  rewrite (bool_decide_eq_false_2 _ Hr), (canonical_no_trailing_slash p Hc Hne), Heq.
  simpl. rewrite drop_0, Hsp. apply forallb_forall. intros s Hin.
  rewrite list.Forall_forall in Hs. apply Hs. by apply list_elem_of_In.
Qed.
Lemma from_string_canonical p : canonical p -> StoragePath.from_string (joined p) = p.
Proof.
  intros Hc. destruct (is_canonical_joined_render _ (canonical_is_canonical_joined p Hc))
    as (segs & Hs & Hp & Hf).
  destruct (build_segments (split SLASH (joined p))) as [Hc' Hseg].
  apply canonical_inj; [done|done|]. unfold StoragePath.from_string. rewrite Hseg, Hf.
  symmetry. by apply segments_render.
Qed.

(** All ways to read a stored path agree.  The zero-copy constructor equals the filtering one
    on every string, the one-pass listing constructor equals parsing the concatenation, and
    printing a canonical path and parsing it back is the identity. *)
Theorem storage_path_constructors_agree :
  (forall path, StoragePath.from_joined path = StoragePath.from_string path)
  ∧ (forall folder name, StoragePath.from_folder_and_name folder name
       = StoragePath.from_string (default [] folder ++ SLASH :: name))
  ∧ (forall p, canonical p ->
       StoragePath.from_string (StoragePath.to_path_string p) = p
       ∧ StoragePath.is_canonical_joined (StoragePath.to_path_string p) = true).
Proof.
  split_and!; [apply from_joined_from_string| |].
  - intros folder name. unfold StoragePath.from_folder_and_name, StoragePath.from_string.
    by rewrite split_app_both.
  - intros p Hc. split; [by apply from_string_canonical|by apply canonical_is_canonical_joined].
Qed.

(** A validated name is a segment.  [validate_storage_name] accepts exactly the names that are
    safe segments without a backslash or a NUL byte, and joining an accepted name to a canonical
    path makes it the file name, with the original path as its parent. *)
Theorem validated_name_joins name p :
  (validate_storage_name name = Ok tt <->
     StoragePath.is_safe_segment name = true ∧ 92%Z ∉ name ∧ 0%Z ∉ name)
  ∧ (validate_storage_name name = Ok tt -> canonical p ->
       StoragePath.file_name (StoragePath.join p name) = Some name
       ∧ StoragePath.parent (StoragePath.join p name) = Ok (Some p)).
Proof.
  assert (Hv : validate_storage_name name = Ok tt <->
     StoragePath.is_safe_segment name = true ∧ 92%Z ∉ name ∧ 0%Z ∉ name).
  { rewrite (safe_spec name : StoragePath.is_safe_segment name = true <-> _).
    unfold validate_storage_name, str_contains.
    repeat case_bool_decide; simpl; naive_solver. }
  split; [exact Hv|]. intros [Hs _]%Hv Hc.
  destruct (join_segments p name Hc) as [Hcj Hsj]. rewrite Hs in Hsj.
  destruct (canonical_segments _ Hcj) as [Hsafe Hj]. rewrite Hsj in Hsafe, Hj.
  destruct (parent_file_name_snoc _ _ _ Hsafe Hj) as [Hf Hp]. split; [done|].
  rewrite Hp. do 2 f_equal. destruct (canonical_segments p Hc) as [_ Hjp].
  destruct p as [jp]. simpl in Hjp |- *. by rewrite <- Hjp.
Qed.
Lemma validated_name_joins_witness :
  StoragePath.file_name (StoragePath.join (StoragePath.from_string (lit "/a/../b")) (lit "c.txt"))
    = Some (lit "c.txt")
  ∧ StoragePath.parent (StoragePath.join (StoragePath.from_string (lit "/a/../b")) (lit "c.txt"))
    = Ok (Some (mkPath (lit "/a/b"))).
Proof.
  apply (validated_name_joins (lit "c.txt") (StoragePath.from_string (lit "/a/../b"))).
  - by vm_compute.
  - exists [lit "a"; lit "b"]. split; [by repeat constructor|by vm_compute].
Defined.
