(* ===== verification/HttpErrors.v ===== *)
(** * Errors at the HTTP boundary

    [src/src/interfaces/errors.rs]: the error every handler returns, its constructors, the
    conversion from a domain error and the response it renders. *)

From S2P Require Import Prelude.
From S2P Require Import RustStr.
From S2P Require Import DomainErrors.

Definition StatusCode : Type := Z.
Module StatusCode.
Definition NO_CONTENT : StatusCode := 204%Z.
Definition BAD_REQUEST : StatusCode := 400%Z.
Definition UNAUTHORIZED : StatusCode := 401%Z.
Definition FORBIDDEN : StatusCode := 403%Z.
Definition NOT_FOUND : StatusCode := 404%Z.
Definition METHOD_NOT_ALLOWED : StatusCode := 405%Z.
Definition REQUEST_TIMEOUT : StatusCode := 408%Z.
Definition CONFLICT : StatusCode := 409%Z.
Definition PRECONDITION_FAILED : StatusCode := 412%Z.
Definition PAYLOAD_TOO_LARGE : StatusCode := 413%Z.
Definition UNSUPPORTED_MEDIA_TYPE : StatusCode := 415%Z.
Definition LOCKED : StatusCode := 423%Z.
Definition INTERNAL_SERVER_ERROR : StatusCode := 500%Z.
Definition NOT_IMPLEMENTED : StatusCode := 501%Z.
Definition SERVICE_UNAVAILABLE : StatusCode := 503%Z.
Definition INSUFFICIENT_STORAGE : StatusCode := 507%Z.
End StatusCode.

Record AppError := mkAppError { status_code : StatusCode; app_message : str; error_type : str }.
#[global] Instance AppError_eq_dec : EqDecision AppError. Proof. solve_decision. Defined.

Definition status_for_kind (k : ErrorKind) : StatusCode :=
  match k with
  | NotFound => StatusCode.NOT_FOUND
  | AlreadyExists => StatusCode.CONFLICT
  | InvalidInput => StatusCode.BAD_REQUEST
  | AccessDenied => StatusCode.FORBIDDEN
  | Timeout => StatusCode.REQUEST_TIMEOUT
  | InternalError => StatusCode.INTERNAL_SERVER_ERROR
  | NotImplemented => StatusCode.NOT_IMPLEMENTED
  | UnsupportedOperation => StatusCode.METHOD_NOT_ALLOWED
  | DatabaseError => StatusCode.INTERNAL_SERVER_ERROR
  | QuotaExceeded => StatusCode.INSUFFICIENT_STORAGE
  | Conflict => StatusCode.CONFLICT
  | PreconditionFailed => StatusCode.PRECONDITION_FAILED
  | TransientBackend => StatusCode.SERVICE_UNAVAILABLE
  | AccountDeactivated => StatusCode.FORBIDDEN
  end.

(** The JSON body of an error response. *)
Record ErrorResponse := mkErrorResponse {
  er_status : str; er_error : str; er_message : str; er_error_type : str
}.

Module AppError.
Definition new (s : StatusCode) (message error_type : str) : AppError := mkAppError s message error_type.
Definition bad_request (m : str) : AppError := new StatusCode.BAD_REQUEST m (lit "BadRequest").
Definition unauthorized (m : str) : AppError := new StatusCode.UNAUTHORIZED m (lit "Unauthorized").
Definition forbidden (m : str) : AppError := new StatusCode.FORBIDDEN m (lit "Forbidden").
Definition not_found (m : str) : AppError := new StatusCode.NOT_FOUND m (lit "NotFound").
Definition internal_error (m : str) : AppError :=
  new StatusCode.INTERNAL_SERVER_ERROR m (lit "InternalError").
Definition method_not_allowed (m : str) : AppError :=
  new StatusCode.METHOD_NOT_ALLOWED m (lit "MethodNotAllowed").
Definition conflict (m : str) : AppError := new StatusCode.CONFLICT m (lit "Conflict").
Definition locked (m : str) : AppError := new StatusCode.LOCKED m (lit "Locked").
Definition unsupported_media_type (m : str) : AppError :=
  new StatusCode.UNSUPPORTED_MEDIA_TYPE m (lit "UnsupportedMediaType").
Definition precondition_failed (m : str) : AppError :=
  new StatusCode.PRECONDITION_FAILED m (lit "PreconditionFailed").
Definition payload_too_large (m : str) : AppError :=
  new StatusCode.PAYLOAD_TOO_LARGE m (lit "PayloadTooLarge").
Definition not_implemented (m : str) : AppError :=
  new StatusCode.NOT_IMPLEMENTED m (lit "NotImplemented").
Definition service_unavailable (m : str) : AppError :=
  new StatusCode.SERVICE_UNAVAILABLE m (lit "ServiceUnavailable").

(** [impl From<DomainError> for AppError] *)
Definition from (err : DomainError) : AppError :=
  mkAppError (status_for_kind (kind err)) (message err) (ErrorKind.wire_name (kind err)).

(** [status.to_string()]: the code and its reason phrase. *)
Definition status_line (s : StatusCode) (reason : StatusCode -> str) : str :=
  dec s ++ lit " " ++ reason s.
(** [into_response]; [reason] gives the reason phrase of the [http] crate. *)
Definition into_response (reason : StatusCode -> str) (e : AppError) : StatusCode * ErrorResponse :=
  let client_message :=
    if decide (status_code e = StatusCode.INTERNAL_SERVER_ERROR)
    then lit "An internal error occurred. Please try again later."
    else app_message e in
  (status_code e,
   mkErrorResponse (status_line (status_code e) reason) client_message client_message (error_type e)).
End AppError.

(** What a client can learn from an error.  The response to a domain error is determined by its
    kind alone when the kind is an internal or a database error, so no internal text leaves the
    server; for every other kind the message is passed on.  A response is 503 exactly for a
    transient backend failure, and the text under [error] and [message] is the same. *)
Theorem error_response_hides_internals reason err err' :
  let resp e := AppError.into_response reason (AppError.from e) in
  (kind err = InternalError ∨ kind err = DatabaseError -> kind err' = kind err -> resp err' = resp err)
  ∧ (kind err ≠ InternalError -> kind err ≠ DatabaseError ->
       er_message (snd (resp err)) = message err)
  ∧ (fst (resp err) = StatusCode.SERVICE_UNAVAILABLE <-> kind err = TransientBackend)
  ∧ er_error (snd (resp err)) = er_message (snd (resp err))
  ∧ (400 <= fst (resp err) < 600)%Z.
Proof.
  intros resp. unfold resp, AppError.into_response, AppError.from.
  destruct err as [k et ei m], err' as [k' et' ei' m']. simpl.
  split_and!; [by intros [->| ->] ->|by destruct k|by destruct k|done|by destruct k..].
Qed.
Lemma error_response_hides_internals_witness :
  AppError.into_response (fun _ => []) (AppError.from
    (DomainError.internal_error (lit "Pool") (lit "connect 10.0.0.1: refused")))
  = AppError.into_response (fun _ => []) (AppError.from
    (DomainError.internal_error (lit "Blob") (lit "no such object"))).
Proof.
  destruct (error_response_hides_internals (fun _ => [])
    (DomainError.internal_error (lit "Blob") (lit "no such object"))
    (DomainError.internal_error (lit "Pool") (lit "connect 10.0.0.1: refused"))) as [H _].
  apply H; [by left|done].
Defined.
