(* ===== verification/WebdavLocks.v ===== *)
(** * WebDAV locks

    [src/src/infrastructure/services/webdav_lock_service.rs]: the lock store, two [moka] caches
    with a time to live per entry.  Instants and durations are nanoseconds; an operation takes
    the instant at which it runs.  [LockInfo] is of
    [src/src/application/adapters/webdav_adapter.rs]. *)

From S2P Require Import Prelude.
From S2P Require Import RustStr.
From S2P Require Import Moka.

Inductive LockScope := Exclusive | Shared.
#[global] Instance LockScope_eq_dec : EqDecision LockScope. Proof. solve_decision. Defined.
Inductive LockType := Write.
Record LockInfo := mkLockInfo {
  token : str;
  owner : option str;
  depth : str;
  timeout : option str;
  scope : LockScope;
  type_ : LockType;
}.
Record LockEntry := mkLockEntry {
  info : LockInfo;
  le_path : str;
  caller_user_id : option Uuid;
}.

Definition SECOND : Z := 1000000000.
Definition DEFAULT_LOCK_TIMEOUT_SECS : Z := 1800.
Definition MAX_LOCK_TIMEOUT_SECS : Z := 86400.

(** [ct_str_eq]: byte equality, in constant time. *)
Definition ct_str_eq (a b : str) : bool := bool_decide (a = b).

Definition first_piece (c : byte) (s : str) : str :=
  match split c s with p :: _ => p | [] => s end.
(** The duration in seconds. *)
Definition parse_timeout (header : option str) : Z :=
  match header with
  | None | Some [] => DEFAULT_LOCK_TIMEOUT_SECS
  | Some raw =>
      let first := trim (first_piece 44 raw) in
      if eq_ignore_ascii_case first (lit "Infinite") then MAX_LOCK_TIMEOUT_SECS
      else
        match strip_prefix (lit "Second-") first with
        | Some secs_str =>
            match parse_u64 (trim secs_str) with
            | Some secs => Z.min secs MAX_LOCK_TIMEOUT_SECS
            | None => DEFAULT_LOCK_TIMEOUT_SECS
            end
        | None => DEFAULT_LOCK_TIMEOUT_SECS
        end
  end.
(** The per-entry policy [LockExpiry], on creation and on update alike. *)
Definition lock_expiry (entry : LockEntry) : Z := parse_timeout (timeout (info entry)) * SECOND.

Section store.
Context {Cache : forall (K : Type) {E : EqDecision K} {C : @Countable K E}, Type -> Type}.
#[local] Arguments Cache _ {_ _} _.
Context `{!Moka (@Cache)}.

Record WebDavLockStore := mkStore {
  by_path : Cache str LockEntry;
  by_token : Cache str str;
}.
Definition store_new : WebDavLockStore := mkStore cnew cnew.

Definition insert_path (s : WebDavLockStore) (t : Z) (path : str) (e : LockEntry) : WebDavLockStore :=
  mkStore (cinsert (by_path s) t (lock_expiry e) path e) (by_token s).
Definition insert_token (s : WebDavLockStore) (t : Z) (tok path : str) : WebDavLockStore :=
  mkStore (by_path s) (cinsert (by_token s) t (MAX_LOCK_TIMEOUT_SECS * SECOND) tok path).

Definition acquire (t : Z) (path : str) (i : LockInfo) (caller : option Uuid) (s : WebDavLockStore)
  : result LockEntry LockEntry * WebDavLockStore :=
  let entry := mkLockEntry i path caller in
  match cget (by_path s) t path with
  | Some existing =>
      if decide (scope (info existing) = Exclusive) then (Err existing, s)
      else if decide (scope i = Exclusive) then (Err existing, s)
      else (Ok entry, insert_token s t (token i) path)
  | None => (Ok entry, insert_token (insert_path s t path entry) t (token i) path)
  end.

Definition with_timeout (e : LockEntry) (secs : Z) : LockEntry :=
  let i := info e in
  mkLockEntry (mkLockInfo (token i) (owner i) (depth i) (Some (lit "Second-" ++ dec secs))
                 (scope i) (type_ i)) (le_path e) (caller_user_id e).
Definition refresh (t : Z) (tok : str) (new_timeout : option str) (s : WebDavLockStore)
  : option LockEntry * WebDavLockStore :=
  match cget (by_token s) t tok with
  | None => (None, s)
  | Some path =>
      match cget (by_path s) t path with
      | None => (None, s)
      | Some entry =>
          if ct_str_eq (token (info entry)) tok then
            let ttl := parse_timeout (match new_timeout with
                                      | Some v => Some v
                                      | None => timeout (info entry)
                                      end) in
            let entry := with_timeout entry ttl in
            (Some entry, insert_token (insert_path s t path entry) t tok path)
          else (None, s)
      end
  end.

Definition release (t : Z) (tok : str) (s : WebDavLockStore) : bool * WebDavLockStore :=
  match cget (by_token s) t tok with
  | None => (false, s)
  | Some path =>
      let s :=
        match cget (by_path s) t path with
        | Some entry =>
            if ct_str_eq (token (info entry)) tok
            then mkStore (cinvalidate (by_path s) path) (by_token s) else s
        | None => s
        end in
      (true, mkStore (by_path s) (cinvalidate (by_token s) tok))
  end.
Definition get_by_path (t : Z) (path : str) (s : WebDavLockStore) : option LockEntry :=
  cget (by_path s) t path.
Definition get_by_token (t : Z) (tok : str) (s : WebDavLockStore) : option LockEntry :=
  path ← cget (by_token s) t tok; cget (by_path s) t path.

(** No cache is at capacity. *)
Definition room (s : WebDavLockStore) : Prop := croom (by_path s) ∧ croom (by_token s).
End store.

(** ** Timeouts *)
Lemma parse_timeout_bounds h : (0 <= parse_timeout h <= MAX_LOCK_TIMEOUT_SECS)%Z.
Proof.
  assert (0 <= DEFAULT_LOCK_TIMEOUT_SECS <= MAX_LOCK_TIMEOUT_SECS)%Z by done.
  unfold parse_timeout. destruct h as [[|b s]|]; [done| |done]. set (first := trim _).
  destruct (eq_ignore_ascii_case _ _); [done|].
  destruct (strip_prefix _ first) as [r|]; [|done]. destruct (parse_u64 (trim r)) as [n|] eqn:E; [|done].
  assert (0 <= n)%Z; [|unfold MAX_LOCK_TIMEOUT_SECS in *; lia].
  apply parse_unsigned_nonneg in E. lia.
Qed.
Lemma parse_timeout_seconds n :
  (0 <= n <= u64_max)%Z ->
  parse_timeout (Some (lit "Second-" ++ dec n)) = Z.min n MAX_LOCK_TIMEOUT_SECS.
Proof.
  intros Hn. destruct (dec_spec n ltac:(lia)) as (_ & _ & Hne).
  assert (Hlast : exists c, list.last (lit "Second-" ++ dec n) = Some c ∧ visible c).
  { destruct (list.last (dec n)) as [c|] eqn:Hl; [|by apply last_None in Hl].
    exists c. split; [by rewrite last_app, Hl|].
    apply (dec_visible n); [lia|by apply last_Some_elem_of]. }
  destruct Hlast as (c & Hl & Hc).
  assert (Hp : first_piece 44 (lit "Second-" ++ dec n) = lit "Second-" ++ dec n).
  { unfold first_piece. rewrite split_clean; [done|]. rewrite not_elem_of_app.
    split; [by vm_compute; set_solver|]. by apply dec_not_elem; [lia|]. }
  unfold parse_timeout. change (lit "Second-" ++ dec n) with (83%Z :: lit "econd-" ++ dec n) at 1.
  cbv iota. change (83%Z :: lit "econd-" ++ dec n) with (lit "Second-" ++ dec n). rewrite Hp.
  rewrite (trim_visible _ 83%Z c); [|done|done|by unfold visible|done].
  assert (Hi : eq_ignore_ascii_case (lit "Second-" ++ dec n) (lit "Infinite") = false).
  { by apply bool_decide_eq_false. }
  rewrite Hi, strip_prefix_app, trim_dec by lia. unfold parse_u64.
  by rewrite parse_unsigned_dec.
Qed.

Section laws.
Context {Cache : forall (K : Type) {E : EqDecision K} {C : @Countable K E}, Type -> Type}.
#[local] Arguments Cache _ {_ _} _.
Context `{!Moka (@Cache)}.
Local Abbreviation Store := (WebDavLockStore (Cache:=@Cache)).
Implicit Types (s : Store) (e : LockEntry).

(** ** Traces of operations *)
Inductive LockOp :=
| OpAcquire (path : str) (i : LockInfo) (caller : option Uuid)
| OpRefresh (tok : str) (new_timeout : option str)
| OpRelease (tok : str).
Definition run_op (t : Z) (op : LockOp) s : Store :=
  match op with
  | OpAcquire path i caller => snd (acquire t path i caller s)
  | OpRefresh tok new_timeout => snd (refresh t tok new_timeout s)
  | OpRelease tok => snd (release t tok s)
  end.
Fixpoint run (ops : list (Z * LockOp)) s : Store :=
  match ops with [] => s | (t, op) :: rest => run rest (run_op t op s) end.
(** The operation presents the token, to refresh or to release it. *)
Definition presents (tok : str) (op : LockOp) : Prop :=
  match op with OpAcquire _ _ _ => False | OpRefresh k _ | OpRelease k => k = tok end.
(** The acquisitions of [path] that the run grants. *)
Fixpoint grants_on (path : str) (ops : list (Z * LockOp)) s : nat :=
  match ops with
  | [] => 0
  | (t, op) :: rest =>
      (match op with
       | OpAcquire p i caller =>
           if decide (p = path) then if is_ok (fst (acquire t p i caller s)) then 1 else 0 else 0
       | _ => 0
       end + grants_on path rest (run_op t op s))%nat
  end.
(** The lock table never evicts during the run. *)
Fixpoint roomy (ops : list (Z * LockOp)) s : Prop :=
  croom (by_path s) ∧ match ops with [] => True | (t, op) :: rest => roomy rest (run_op t op s) end.

Lemma acquire_other t path p i caller s t1 e :
  croom (by_path s) -> (t <= t1)%Z -> cget (by_path s) t1 p = Some e -> scope (info e) = Exclusive ->
  cget (by_path (snd (acquire t path i caller s))) t1 p = Some e
  ∧ (path = p -> fst (acquire t path i caller s) = Err e).
Proof.
  intros Hr Ht He Hx. pose proof (cget_mono _ t t1 p e Ht He) as He0. unfold acquire.
  destruct (decide (path = p)) as [->|Hne].
  - rewrite He0, decide_True by done. done.
  - split; [|done]. destruct (cget (by_path s) t path); [by repeat case_decide|].
    simpl. by rewrite croom_insert_ne.
Qed.
Lemma refresh_other t tok nt p s t1 e :
  croom (by_path s) -> (t <= t1)%Z -> cget (by_path s) t1 p = Some e -> tok ≠ token (info e) ->
  cget (by_path (snd (refresh t tok nt s))) t1 p = Some e.
Proof.
  intros Hr Ht He Hx. pose proof (cget_mono _ t t1 p e Ht He) as He0. unfold refresh.
  destruct (cget (by_token s) t tok) as [path|]; [|done].
  destruct (cget (by_path s) t path) as [e'|] eqn:E; [|done].
  unfold ct_str_eq. case_bool_decide as Hk; [|done]. simpl.
  rewrite croom_insert_ne; [done|done|]. intros ->. rewrite He0 in E. by simplify_eq.
Qed.
Lemma release_other t tok p s t1 e :
  croom (by_path s) -> (t <= t1)%Z -> cget (by_path s) t1 p = Some e -> tok ≠ token (info e) ->
  cget (by_path (snd (release t tok s))) t1 p = Some e.
Proof.
  intros Hr Ht He Hx. pose proof (cget_mono _ t t1 p e Ht He) as He0. unfold release.
  destruct (cget (by_token s) t tok) as [path|]; [|done]. simpl.
  destruct (cget (by_path s) t path) as [e'|] eqn:E; [|done].
  unfold ct_str_eq. case_bool_decide as Hk; [|done]. simpl.
  rewrite croom_invalidate_ne; [done|done|]. intros ->. rewrite He0 in E. by simplify_eq.
Qed.

(** An exclusive lock excludes.  While an exclusive lock is held, and until its timeout, no
    sequence of lock, refresh and unlock requests by clients that do not present its token
    removes, replaces or extends it, and every attempt in between to lock the same path, shared
    or exclusive, is refused. *)
Theorem exclusive_lock_excludes s path e t1 ops :
  get_by_path t1 path s = Some e -> scope (info e) = Exclusive ->
  Forall (fun op => (fst op <= t1)%Z ∧ ¬ presents (token (info e)) (snd op)) ops ->
  roomy ops s ->
  get_by_path t1 path (run ops s) = Some e ∧ grants_on path ops s = 0%nat.
Proof.
  unfold get_by_path. intros He Hx Hops. revert s He.
  induction Hops as [|[t op] ops [Ht Hp] _ IH]; intros s He Hr; [done|].
  destruct Hr as [Hr Hrest]. cbn [run grants_on roomy] in *. simpl in Ht, Hp.
  assert (Hnext : cget (by_path (run_op t op s)) t1 path = Some e).
  { destruct op as [q i c|k nt|k]; simpl in *.
    - by apply acquire_other.
    - apply refresh_other; auto.
    - apply release_other; auto. }
  destruct (IH _ Hnext Hrest) as [-> ->]. split; [done|].
  destruct op as [q i c|k nt|k]; [|done..]. case_decide; [|done]. subst q.
  by rewrite (proj2 (acquire_other t path path i c s t1 e Hr Ht He Hx) eq_refl).
Qed.

(** The life of a lock.  A lock taken on a free path is in force until its timeout and not
    after; its token releases it at once or extends it from the moment of the refresh by the
    new timeout, which is never more than 24 hours; the timeout the refresh stores and announces
    parses back to the granted duration; past the timeout the token refreshes nothing. *)
Theorem lock_lifecycle s t path i caller :
  room s -> get_by_path t path s = None ->
  let e := mkLockEntry i path caller in
  let s1 := snd (acquire t path i caller s) in
  let ttl := lock_expiry e in
  fst (acquire t path i caller s) = Ok e
  ∧ (0 <= ttl <= MAX_LOCK_TIMEOUT_SECS * SECOND)%Z
  ∧ (forall t', (t <= t')%Z -> get_by_path t' path s1 = if (t' <? t + ttl)%Z then Some e else None)
  ∧ (forall t', (t <= t' < t + ttl)%Z ->
       fst (release t' (token i) s1) = true
       ∧ forall t'', get_by_path t'' path (snd (release t' (token i) s1)) = None)
  ∧ (forall t' nt, (t <= t' < t + ttl)%Z -> room s1 -> exists e',
       fst (refresh t' (token i) nt s1) = Some e' ∧ token (info e') = token i
       ∧ lock_expiry e'
         = (parse_timeout (match nt with Some v => Some v | None => timeout i end) * SECOND)%Z
       ∧ forall t'', (t' <= t'')%Z ->
         get_by_path t'' path (snd (refresh t' (token i) nt s1))
         = if (t'' <? t' + lock_expiry e')%Z then Some e' else None)
  ∧ (forall t' nt, (t + ttl <= t')%Z -> fst (refresh t' (token i) nt s1) = None).
Proof.
  intros [Hrp Hrt] Hfree e s1 ttl. unfold get_by_path in Hfree.
  assert (Hb : (0 <= ttl <= MAX_LOCK_TIMEOUT_SECS * SECOND)%Z).
  { unfold ttl, lock_expiry. pose proof (parse_timeout_bounds (timeout i)). unfold SECOND. simpl. lia. }
  assert (Hs1 : s1 = insert_token (insert_path s t path e) t (token i) path).
  { unfold s1, acquire. by rewrite Hfree. }
  assert (Hget : forall t', (t <= t')%Z ->
    cget (by_path s1) t' path = if (t' <? t + ttl)%Z then Some e else None).
  { intros t' Ht. rewrite Hs1. simpl. by apply cget_inserted. }
  assert (Htok : forall t', (t <= t' < t + ttl)%Z -> cget (by_token s1) t' (token i) = Some path).
  { intros t' Ht. rewrite Hs1. simpl. apply croom_insert_eq; [done|]. lia. }
  split_and!; [by unfold acquire; rewrite Hfree|lia|lia|exact Hget| | |].
  - intros t' Ht. unfold release. rewrite Htok by done. split; [done|]. intros t''.
    rewrite Hget by lia. rewrite (proj2 (Z.ltb_lt _ _)) by lia. unfold ct_str_eq. simpl.
    rewrite bool_decide_eq_true_2 by done. apply cget_invalidate_eq.
  - intros t' nt Ht [Hrp1 _]. unfold refresh. rewrite Htok by done.
    rewrite Hget by lia. rewrite (proj2 (Z.ltb_lt _ _)) by lia. unfold ct_str_eq. simpl.
    rewrite bool_decide_eq_true_2 by done. simpl. eexists. split_and!; [done|done| |].
    + unfold lock_expiry. cbn [info with_timeout timeout].
      f_equal. rewrite parse_timeout_seconds.
      * apply Z.min_l, parse_timeout_bounds.
      * pose proof (parse_timeout_bounds (match nt with Some v => Some v | None => timeout i end)).
        unfold MAX_LOCK_TIMEOUT_SECS, u64_max in *. lia.
    + intros t'' Ht''. by apply cget_inserted.
  - intros t' nt Ht. unfold refresh. destruct (cget (by_token s1) t' (token i)) as [path'|] eqn:E; [|done].
    assert (path' = path) as ->.
    { rewrite Hs1 in E. simpl in E. by apply cget_insert_eq in E as [-> _]. }
    rewrite Hget by lia. rewrite (proj2 (Z.ltb_ge _ _)) by lia. done.
Qed.
End laws.

(** ** Witnesses *)
Module LockDemo.
Definition excl (tok to : string) : LockInfo :=
  mkLockInfo (lit tok) None (lit "infinity") (Some (lit to)) Exclusive Write.
Definition shared (tok to : string) : LockInfo :=
  mkLockInfo (lit tok) None (lit "0") (Some (lit to)) Shared Write.
Definition held : WebDavLockStore (Cache:=@TtlMap) :=
  snd (acquire 0 (lit "/a") (excl "k1" "Second-60") (Some 1%N) store_new).
Definition attack : list (Z * LockOp) :=
  [(1%Z, OpAcquire (lit "/a") (excl "k2" "Infinite") (Some 2%N));
   (2%Z, OpRelease (lit "k2")); (3%Z, OpAcquire (lit "/b") (shared "k1" "") None);
   (4%Z, OpAcquire (lit "/a") (shared "k3" "") (Some 2%N)); (5%Z, OpRefresh (lit "k3") None)].
End LockDemo.

Lemma exclusive_lock_excludes_witness :
  get_by_path 10 (lit "/a") (run LockDemo.attack LockDemo.held)
    = Some (mkLockEntry (LockDemo.excl "k1" "Second-60") (lit "/a") (Some 1%N))
  ∧ grants_on (lit "/a") LockDemo.attack LockDemo.held = 0%nat.
Proof.
  apply exclusive_lock_excludes; [by vm_compute|done| |by repeat split].
  repeat constructor; simpl; try lia; intros [=].
Defined.
Lemma lock_lifecycle_witness :
  fst (refresh (30 * SECOND) (token (LockDemo.excl "k1" "Second-60")) (Some (lit "Second-3600"))
         (snd (acquire 0 (lit "/a") (LockDemo.excl "k1" "Second-60") (Some 1%N)
                 (store_new (Cache:=@TtlMap))))) ≠ None
  ∧ get_by_path (60 * SECOND) (lit "/a")
      (snd (acquire 0 (lit "/a") (LockDemo.excl "k1" "Second-60") (Some 1%N)
              (store_new (Cache:=@TtlMap)))) = None.
Proof.
  destruct (lock_lifecycle (store_new (Cache:=@TtlMap)) 0 (lit "/a")
              (LockDemo.excl "k1" "Second-60") (Some 1%N)) as (_ & _ & Hg & _ & Hr & _);
    [split; apply croom_new|apply cget_new|].
  assert (Ht : lock_expiry (mkLockEntry (LockDemo.excl "k1" "Second-60") (lit "/a") (Some 1%N))
               = (60 * SECOND)%Z) by by vm_compute.
  rewrite Ht in *. split.
  - destruct (Hr (30 * SECOND)%Z (Some (lit "Second-3600"))) as (e' & -> & _); [|done..].
    unfold SECOND. lia.
  - rewrite Hg by (unfold SECOND; lia). by rewrite Z.ltb_irrefl.
Defined.
