(* ===== verification/WebdavIf.v ===== *)
(** * The WebDAV lock protocol of the handlers

    [src/src/interfaces/api/handlers/webdav_handler.rs]: the parser and the evaluator of the
    [If:] header, the lock gate every mutating handler calls, and [UNLOCK].  The parser works on
    the bytes that are left; a position in the source is the length of what was consumed. *)

From S2P Require Import Prelude.
From S2P Require Import RustStr.
From S2P Require Import DomainErrors.
From S2P Require Import Authorization.
From S2P Require Import AuthzPort.
From S2P Require Import Moka.
From S2P Require Import HttpErrors.
From S2P Require Import StoragePath.
From S2P Require Import WebdavLocks.

Inductive IfCondition :=
| StateToken (negated : bool) (tok : str)
| EntityTag (negated : bool) (etag : str).
#[global] Instance IfCondition_eq_dec : EqDecision IfCondition. Proof. solve_decision. Defined.

(** ** The parser *)
Definition LT : byte := 60.
Definition GT : byte := 62.
Definition LBRACKET : byte := 91.
Definition RBRACKET : byte := 93.
Definition LPAREN : byte := 40.
Definition RPAREN : byte := 41.
Definition QUOTE : byte := 34.

Definition is_if_space (b : byte) : bool := bool_decide (b ∈ [32; 9; 13; 10]%Z).
(** [while i < n && matches!(bytes[i], ..) { i += 1 }] *)
Fixpoint skip_space (s : str) : str :=
  match s with
  | [] => []
  | b :: s' => if is_if_space b then skip_space s' else s
  end.
(** [while i < n && bytes[i] != c { i += 1 }; if i < n { i += 1 }]: what was passed over and
    what is left after the delimiter. *)
Fixpoint take_until (c : byte) (s : str) : str * str :=
  match s with
  | [] => ([], [])
  | b :: s' => if decide (b = c) then ([], s') else let (p, r) := take_until c s' in (b :: p, r)
  end.
(** The optional [Not]. *)
Definition strip_not (s : str) : bool * str :=
  if eq_ignore_ascii_case (take 3 s) (lit "Not")
     && match drop 3 s with
        | [] => true
        | b :: _ => bool_decide (b ∈ [32; 9; LT; LBRACKET; 13; 10]%Z)
        end
  then (true, skip_space (drop 3 s)) else (false, s).
Definition parse_etag (s : str) : str := trim_matches QUOTE (trim s).

(** The inner loop: the conditions up to the closing parenthesis and the bytes after it.  Each
    round consumes a byte, so the number of bytes is enough fuel. *)
Fixpoint parse_list (fuel : nat) (s : str) : list IfCondition * str :=
  match fuel with
  | O => ([], s)
  | S fuel' =>
      match skip_space s with
      | [] => ([], [])
      | b :: s1 =>
          if decide (b = RPAREN) then ([], s1)
          else
            let (negated, s2) := strip_not (b :: s1) in
            match s2 with
            | [] => ([], [])
            | c :: s3 =>
                if decide (c = LT) then
                  let (tok, r) := take_until GT s3 in
                  let (l, r') := parse_list fuel' r in (StateToken negated tok :: l, r')
                else if decide (c = LBRACKET) then
                  let (etag, r) := take_until RBRACKET s3 in
                  let (l, r') := parse_list fuel' r in (EntityTag negated (parse_etag etag) :: l, r')
                else parse_list fuel' s3
            end
      end
  end.
Fixpoint parse_lists (fuel : nat) (s : str) : list (list IfCondition) :=
  match fuel, s with
  | O, _ | _, [] => []
  | S fuel', b :: s' =>
      if is_if_space b then parse_lists fuel' s'
      else if decide (b = LT) then parse_lists fuel' (snd (take_until GT s'))
      else if decide (b = LPAREN) then
        let (l, r) := parse_list (S (length s')) s' in
        match l with [] => parse_lists fuel' r | _ => l :: parse_lists fuel' r end
      else parse_lists fuel' s'
  end.
Definition parse_if_header (header : str) : list (list IfCondition) :=
  parse_lists (length header) header.

(** ** The evaluator *)
Definition submits (active : str) (cond : IfCondition) : bool :=
  match cond with StateToken false tok => ct_str_eq tok active | _ => false end.
Definition strip_quotes (s : str) : str := trim_matches QUOTE (trim s).
Definition condition_holds (active_lock_token current_etag : option str) (cond : IfCondition) : bool :=
  let '(negated, natural) :=
    match cond with
    | StateToken negated tok =>
        (negated, match active_lock_token with Some a => ct_str_eq tok a | None => false end)
    | EntityTag negated cond_etag =>
        (negated, match current_etag with
                  | Some c => bool_decide (strip_quotes c = strip_quotes cond_etag)
                  | None => false
                  end)
    end in
  xorb natural negated.
Definition evaluate_if_header (lists : list (list IfCondition))
    (active_lock_token current_etag : option str) : bool * bool :=
  match lists with
  | [] => (true, false)
  | _ =>
      let submitted_active_lock :=
        match active_lock_token with
        | Some active => existsb (existsb (submits active)) lists
        | None => false
        end in
      let any_list_true := existsb (forallb (condition_holds active_lock_token current_etag)) lists in
      (any_list_true, submitted_active_lock)
  end.

(** ** The lock gate *)
Section gate.
Context {Cache : forall (K : Type) {E : EqDecision K} {C : @Countable K E}, Type -> Type}.
#[local] Arguments Cache _ {_ _} _.
Context `{!Moka (@Cache)}.
Local Abbreviation Store := (WebDavLockStore (Cache:=@Cache)).

(** The walk up the parent collections; each round shortens the path. *)
Fixpoint ancestor_lock (fuel : nat) (t : Z) (store : Store) (p : str) : option LockEntry :=
  match fuel with
  | O => None
  | S fuel' =>
      match rsplit_once SLASH p with
      | None => None
      | Some (p, _) =>
          if decide (p = []) then None
          else
            match get_by_path t p store with
            | Some e =>
                if eq_ignore_ascii_case (depth (info e)) (lit "infinity") then Some e
                else ancestor_lock fuel' t store p
            | None => ancestor_lock fuel' t store p
            end
      end
  end.
Definition covering_lock (t : Z) (store : Store) (path : str) : option LockEntry :=
  match get_by_path t path store with
  | Some e => Some e
  | None => ancestor_lock (length path) t store path
  end.
Definition enforce_native_lock (t : Z) (store : Store) (if_header : option str) (path : str)
    (current_etag : option str) : option StatusCode :=
  let entry := covering_lock t store path in
  let active_lock_token := (fun e => token (info e)) <$> entry in
  let locked := match entry with Some _ => true | None => false end in
  let lists := match if_header with Some h => parse_if_header h | None => [] end in
  match lists with
  | [] => if locked then Some StatusCode.LOCKED else None
  | _ =>
      let '(header_true, submitted) := evaluate_if_header lists active_lock_token current_etag in
      if header_true then
        if locked && negb submitted then Some StatusCode.LOCKED else None
      else if locked && negb submitted then Some StatusCode.LOCKED
      else Some StatusCode.PRECONDITION_FAILED
  end.

(** ** [UNLOCK]

    The path is resolved to a resource by code that is a parameter here: [Ok None] when the
    target does not exist. *)
Context {St : Type} `{AuthorizationEngine St} `{UuidText}.
Context (resolve_target : Uuid -> str -> M St AppError (option Resource)).

Definition unlock_token (header : str) : str :=
  trim_end_matches [GT] (trim_start_matches [LT] (trim header)).
Definition lift_engine {E T} (m : M St E T) : M (Store * St) E T := fun '(store, st) =>
  let (r, st') := m st in (r, (store, st')).
Definition handle_unlock (t : Z) (user : Uuid) (lock_token_header : option str) (path : str)
  : M (Store * St) AppError StatusCode :=
  header ← lift (ok_or lock_token_header (AppError.bad_request (lit "Lock-Token header required")));
  let tok := unlock_token header in
  lock_entry ← gets (fun st => get_by_token t tok st.1);
  _ ← match lock_entry with
      | Some e =>
          match caller_user_id e with
          | Some owner_id =>
              if decide (owner_id = user) then mret tt
              else raise (AppError.not_found (lit "Lock token not found or already expired: " ++ tok))
          | None =>
              if bool_decide (path = []) || bool_decide (path = [SLASH]) then mret tt
              else
                target ← lift_engine (resolve_target user path);
                match target with
                | Some resource =>
                    map_err_m AppError.from (lift_engine (require (User user) Update resource))
                | None => mret tt
                end
          end
      | None => mret tt
      end;
  released ← (fun st => let (b, store) := release t tok st.1 in (Ok b, (store, st.2)));
  if released : bool then mret StatusCode.NO_CONTENT
  else raise (AppError.conflict (lit "Lock token not found or already expired: " ++ tok)).
End gate.

(** ** The gate *)
Section gate_laws.
Context {Cache : forall (K : Type) {E : EqDecision K} {C : @Countable K E}, Type -> Type}.
#[local] Arguments Cache _ {_ _} _.
Context `{!Moka (@Cache)}.
Local Abbreviation Store := (WebDavLockStore (Cache:=@Cache)).
Implicit Types (store : Store) (path : str) (e : LockEntry).

(** The lock is on the path, or on a collection above it with depth infinity. *)
Definition covers (t : Z) store path e : Prop :=
  get_by_path t path store = Some e
  ∨ exists q r, path = q ++ SLASH :: r ∧ q ≠ [] ∧ get_by_path t q store = Some e
      ∧ eq_ignore_ascii_case (depth (info e)) (lit "infinity") = true.
Definition parsed (if_header : option str) : list (list IfCondition) :=
  match if_header with Some h => parse_if_header h | None => [] end.
(** Some list of the header holds in all its conditions. *)
Definition satisfied (active etag : option str) (lists : list (list IfCondition)) : Prop :=
  exists l, l ∈ lists ∧ forall c, c ∈ l -> condition_holds active etag c = true.
Definition submitted (tok : str) (lists : list (list IfCondition)) : Prop :=
  exists l, l ∈ lists ∧ StateToken false tok ∈ l.

Lemma ancestor_lock_spec t store : forall fuel path, (length path <= fuel)%nat ->
  match ancestor_lock fuel t store path with
  | Some e => exists q r, path = q ++ SLASH :: r ∧ q ≠ [] ∧ get_by_path t q store = Some e
                ∧ eq_ignore_ascii_case (depth (info e)) (lit "infinity") = true
  | None => forall q r e, path = q ++ SLASH :: r -> q ≠ [] -> get_by_path t q store = Some e ->
              eq_ignore_ascii_case (depth (info e)) (lit "infinity") = false
  end.
Proof.
  induction fuel as [|fuel IH]; intros path Hf; simpl.
  { destruct path; [|simpl in Hf; lia]. intros q r e Heq. by destruct q. }
  destruct (rsplit_once SLASH path) as [[p b]|] eqn:E.
  2: { apply rsplit_once_None in E. intros q r e ->. exfalso. apply E, elem_of_app. right. by left. }
  apply rsplit_once_Some in E as [-> Hb].
  assert (Hlen : (length p <= fuel)%nat) by (rewrite length_app in Hf; simpl in Hf; lia).
  specialize (IH p Hlen).
  case_decide as Hp.
  { intros q r e Heq Hq _. subst p. symmetry in Heq.
    apply cut_before_last in Heq as [?|(r' & Hr)]; [done| |done]. by destruct q. }
  assert (Hup : forall e, (exists q r, p = q ++ SLASH :: r ∧ q ≠ [] ∧ get_by_path t q store = Some e
      ∧ eq_ignore_ascii_case (depth (info e)) (lit "infinity") = true) ->
    exists q r, p ++ SLASH :: b = q ++ SLASH :: r ∧ q ≠ [] ∧ get_by_path t q store = Some e
      ∧ eq_ignore_ascii_case (depth (info e)) (lit "infinity") = true).
  { intros e (q & r & -> & Hq & Hg & Hi). exists q, (r ++ SLASH :: b).
    split; [by rewrite <- app_assoc|done]. }
  destruct (get_by_path t p store) as [e0|] eqn:Hg.
  - destruct (eq_ignore_ascii_case (depth (info e0)) (lit "infinity")) eqn:Hi; [by eauto 10|].
    destruct (ancestor_lock fuel t store p) as [e|]; [by apply Hup|].
    intros q r e Heq Hq Hge. symmetry in Heq.
    apply cut_before_last in Heq as [->|(r' & ->)]; [congruence|by eapply IH|done].
  - destruct (ancestor_lock fuel t store p) as [e|]; [by apply Hup|].
    intros q r e Heq Hq Hge. symmetry in Heq.
    apply cut_before_last in Heq as [->|(r' & ->)]; [congruence|by eapply IH|done].
Qed.
Lemma covering_lock_spec t store path :
  match covering_lock t store path with
  | Some e => covers t store path e
  | None => forall e, ¬ covers t store path e
  end.
Proof.
  unfold covering_lock, covers. destruct (get_by_path t path store) as [e|]; [by left|].
  pose proof (ancestor_lock_spec t store (length path) path ltac:(lia)) as Ha.
  destruct (ancestor_lock _ t store path) as [e|]; [by right|].
  intros e [?|(q & r & Hp & Hq & Hg & Hi)]; [done|]. by rewrite (Ha q r e Hp Hq Hg) in Hi.
Qed.
Lemma satisfied_eval active etag lists :
  existsb (forallb (condition_holds active etag)) lists = true <-> satisfied active etag lists.
Proof.
  rewrite existsb_true. unfold satisfied. setoid_rewrite forallb_forall.
  by setoid_rewrite <- list_elem_of_In.
Qed.
Lemma submitted_eval tok lists :
  existsb (existsb (submits tok)) lists = true <-> submitted tok lists.
Proof.
  rewrite existsb_true. unfold submitted. setoid_rewrite existsb_true. split.
  - intros (l & Hl & c & Hc & Hs). exists l. split; [done|].
    destruct c as [[] k|]; [done| |done]. simpl in Hs. apply bool_decide_eq_true in Hs. by subst.
  - intros (l & Hl & Hc). exists l. split; [done|]. eexists. split; [exact Hc|].
    simpl. by apply bool_decide_eq_true.
Qed.

(** C26: the lock gate.  On a path no lock covers, a request proceeds unless its [If:] header is
    unsatisfied (412).  When a lock on the path, or one of infinite depth on a collection above
    it, covers the path, a request proceeds only if the header holds and submits the token of a
    covering lock; it is answered 423 when that token was not submitted and 412 when it was but
    the header does not hold. *)
Theorem lock_gate_requires_token t store if_header path etag :
  let lists := parsed if_header in
  let res := enforce_native_lock t store if_header path etag in
  ((forall e, ¬ covers t store path e) ->
     (res = None <-> lists = [] ∨ satisfied None etag lists)
     ∧ (res ≠ None -> res = Some StatusCode.PRECONDITION_FAILED))
  ∧ ((exists e, covers t store path e) -> exists e, covers t store path e
     ∧ let tok := token (info e) in
       (res = None <-> satisfied (Some tok) etag lists ∧ submitted tok lists)
       ∧ (res = Some StatusCode.LOCKED <-> ¬ submitted tok lists)
       ∧ (res = Some StatusCode.PRECONDITION_FAILED <->
            submitted tok lists ∧ ¬ satisfied (Some tok) etag lists)).
Proof.
  intros lists res. pose proof (covering_lock_spec t store path) as Hc.
  unfold res, enforce_native_lock, evaluate_if_header. fold (parsed if_header). fold lists.
  destruct (covering_lock t store path) as [e|].
  - split; [intros Hn; by destruct (Hn e)|]. intros _. exists e. split; [exact Hc|]. simpl.
    rewrite <- (satisfied_eval (Some (token (info e)))), <- submitted_eval.
    destruct lists as [|l ls] eqn:El; [naive_solver|].
    set (a := existsb (forallb _) _). set (b := existsb (existsb _) _).
    destruct a, b; simpl; naive_solver.
  - split; [|intros [e He]; by destruct (Hc e)]. intros _. simpl.
    rewrite <- satisfied_eval. destruct lists as [|l ls] eqn:El; [naive_solver|].
    set (a := existsb (forallb _) _). destruct a; simpl; naive_solver.
Qed.
End gate_laws.

(** ** Printing and parsing an [If:] header *)
Definition print_not (negated : bool) : str := if negated then lit "Not " else [].
Definition print_condition (c : IfCondition) : str :=
  match c with
  | StateToken negated tok => print_not negated ++ [LT] ++ tok ++ [GT]
  | EntityTag negated etag => print_not negated ++ [LBRACKET; QUOTE] ++ etag ++ [QUOTE; RBRACKET]
  end.
Definition print_list (l : list IfCondition) : str :=
  [LPAREN] ++ concat (print_condition <$> l) ++ [RPAREN].
Definition print_if_header (ls : list (list IfCondition)) : str := concat (print_list <$> ls).
Definition printable_condition (c : IfCondition) : Prop :=
  match c with
  | StateToken _ tok => GT ∉ tok
  | EntityTag _ etag => RBRACKET ∉ etag ∧ QUOTE ∉ etag
  end.

Lemma take_until_app c a b : c ∉ a -> take_until c (a ++ c :: b) = (a, b).
Proof.
  induction a as [|x a IH]; intros H; simpl; [by rewrite decide_True|].
  apply not_elem_of_cons in H as [Hx Ha]. rewrite decide_False by done. by rewrite IH.
Qed.
Lemma take_until_length c s : (length (snd (take_until c s)) <= length s)%nat.
Proof.
  induction s as [|x s IH]; simpl; [done|]. case_decide; simpl; [lia|].
  destruct (take_until c s). simpl in *. lia.
Qed.
Lemma trim_byte_none (c : byte) fuel l : c ∉ l -> trim_with fuel [[c]] l = l.
Proof.
  intros Hc. apply trim_with_none. destruct l as [|x l]; [done|]. simpl.
  rewrite decide_False; [done|]. intros <-. apply Hc. by left.
Qed.
Lemma trim_byte_cons (c : byte) fuel l : trim_with (S fuel) [[c]] (c :: l) = trim_with fuel [[c]] l.
Proof. simpl. by rewrite decide_True. Qed.
Lemma trim_matches_quoted (c : byte) l : c ∉ l -> trim_matches c ([c] ++ l ++ [c]) = l.
Proof.
  intros Hc. unfold trim_matches, trim_start_matches. simpl app. simpl length. rewrite trim_byte_cons.
  destruct l as [|x l].
  { simpl. rewrite decide_True by done. done. }
  set (l0 := x :: l) in *.
  assert (Hs : trim_with (length (l0 ++ [c])) [[c]] (l0 ++ [c]) = l0 ++ [c]).
  { apply trim_with_none. simpl. rewrite decide_False; [done|]. intros <-. apply Hc. by left. }
  rewrite Hs. clearbody l0. unfold trim_end_matches. rewrite reverse_app.
  change (reverse [c]) with [c]. change ([c] ++ reverse l0) with (c :: reverse l0).
  rewrite length_app, Nat.add_comm. cbn [length Nat.add]. rewrite trim_byte_cons, trim_byte_none.
  - apply reverse_involutive.
  - by rewrite elem_of_reverse.
Qed.
Lemma parse_etag_quoted etag : QUOTE ∉ etag -> parse_etag ([QUOTE] ++ etag ++ [QUOTE]) = etag.
Proof.
  intros Hq. unfold parse_etag.
  rewrite (trim_visible _ QUOTE QUOTE); [|done|by rewrite app_assoc, last_snoc|by unfold visible..].
  by apply trim_matches_quoted.
Qed.

(** One condition off the front. *)
Lemma parse_list_token fuel negated s :
  parse_list (S fuel) (print_not negated ++ LT :: s)
  = let (tok, r) := take_until GT s in
    let (l, r') := parse_list fuel r in (StateToken negated tok :: l, r').
Proof. by destruct negated. Qed.
Lemma parse_list_etag fuel negated s :
  parse_list (S fuel) (print_not negated ++ LBRACKET :: s)
  = let (etag, r) := take_until RBRACKET s in
    let (l, r') := parse_list fuel r in (EntityTag negated (parse_etag etag) :: l, r').
Proof. by destruct negated. Qed.
Lemma parse_list_condition fuel c rest :
  printable_condition c ->
  parse_list (S fuel) (print_condition c ++ rest)
  = (c :: fst (parse_list fuel rest), snd (parse_list fuel rest)).
Proof.
  intros Hc. destruct c as [negated tok|negated etag]; simpl in Hc; unfold print_condition.
  - rewrite <- !app_assoc. change ([LT] ++ tok ++ [GT] ++ rest) with (LT :: tok ++ GT :: rest).
    rewrite parse_list_token, take_until_app by done. by destruct (parse_list fuel rest).
  - destruct Hc as [Hb Hq].
    assert (Hs : (print_not negated ++ [LBRACKET; QUOTE] ++ etag ++ [QUOTE; RBRACKET]) ++ rest
       = print_not negated ++ LBRACKET :: ([QUOTE] ++ etag ++ [QUOTE]) ++ RBRACKET :: rest).
    { by rewrite <- !app_assoc. }
    rewrite Hs, parse_list_etag, take_until_app.
    + rewrite parse_etag_quoted by done. by destruct (parse_list fuel rest).
    + rewrite !not_elem_of_app, !list_elem_of_singleton. done.
Qed.
Lemma parse_list_conditions l : forall fuel rest,
  Forall printable_condition l -> (length l < fuel)%nat ->
  parse_list fuel (concat (print_condition <$> l) ++ RPAREN :: rest) = (l, rest).
Proof.
  induction l as [|c l IH]; intros fuel rest Hl Hf; destruct fuel as [|fuel]; try (simpl in Hf; lia).
  - done.
  - apply Forall_cons_1 in Hl as [Hc Hl]. rewrite fmap_cons. cbn [concat].
    rewrite <- app_assoc, parse_list_condition by done.
    by rewrite IH by (done || simpl in Hf; lia).
Qed.
Lemma print_condition_length c : (1 <= length (print_condition c))%nat.
Proof. destruct c; simpl; rewrite !length_app; simpl; lia. Qed.
Lemma print_conditions_length l :
  (length l <= length (concat (print_condition <$> l)))%nat.
Proof.
  induction l as [|c l IH]; [done|]. rewrite fmap_cons. cbn [concat]. rewrite length_app.
  pose proof (print_condition_length c). simpl. lia.
Qed.

Lemma parse_lists_paren fuel l rest :
  l ≠ [] -> Forall printable_condition l ->
  parse_lists (S fuel) (print_list l ++ rest) = l :: parse_lists fuel rest.
Proof.
  intros Hne Hl. unfold print_list. rewrite <- !app_assoc.
  change ([RPAREN] ++ rest) with (RPAREN :: rest).
  set (body := concat _ ++ RPAREN :: rest).
  change (parse_lists (S fuel) ([LPAREN] ++ body))
    with (let (l, r) := parse_list (S (length body)) body in
          match l with [] => parse_lists fuel r | _ => l :: parse_lists fuel r end).
  unfold body. rewrite parse_list_conditions; [by destruct l|done|].
  rewrite length_app. pose proof (print_conditions_length l). simpl. lia.
Qed.

(** The fuel of both loops is enough on every input. *)
Lemma skip_space_length s : (length (skip_space s) <= length s)%nat.
Proof. induction s as [|b s IH]; simpl; [done|]. destruct (is_if_space b); simpl; lia. Qed.
Lemma strip_not_length s : (length (snd (strip_not s)) <= length s)%nat.
Proof.
  unfold strip_not. destruct (_ && _); simpl; [|done].
  pose proof (skip_space_length (drop 3 s)). rewrite length_drop in *. lia.
Qed.
Lemma parse_list_fuel : forall f f' s, (length s < f)%nat -> (length s < f')%nat ->
  parse_list f s = parse_list f' s ∧ (length (snd (parse_list f s)) <= length s)%nat.
Proof.
  induction f as [|f IH]; intros f' s Hf Hf'; [lia|]. destruct f' as [|f']; [lia|].
  cbn [parse_list]. pose proof (skip_space_length s) as Hsk.
  destruct (skip_space s) as [|b s1]; [split; [done|simpl; lia]|].
  case_decide; [simpl in *; split; [done|lia]|].
  pose proof (strip_not_length (b :: s1)) as Hst. destruct (strip_not (b :: s1)) as [negated s2].
  simpl in Hst, Hsk. destruct s2 as [|c s3]; [split; [done|simpl; lia]|]. simpl in Hst.
  pose proof (take_until_length GT s3). pose proof (take_until_length RBRACKET s3).
  destruct (take_until GT s3) as [tok r1], (take_until RBRACKET s3) as [etag r2]. simpl in *.
  destruct (IH f' r1) as [-> Hr1]; [lia..|]. destruct (IH f' r2) as [-> Hr2]; [lia..|].
  destruct (IH f' s3) as [-> Hr3]; [lia..|].
  repeat case_decide; split; try done; try lia.
  - destruct (parse_list f' r1) as [l r'] eqn:E. simpl in *.
    pose proof (proj2 (IH f' r1 ltac:(lia) ltac:(lia))). lia.
  - destruct (parse_list f' r2) as [l r'] eqn:E. simpl in *. lia.
Qed.
Lemma parse_lists_fuel : forall f f' s, (length s <= f)%nat -> (length s <= f')%nat ->
  parse_lists f s = parse_lists f' s.
Proof.
  induction f as [|f IH]; intros f' s Hf Hf'; (destruct s as [|b s]; [by destruct f'|]); [simpl in Hf; lia|].
  destruct f' as [|f']; [simpl in Hf'; lia|]. cbn [parse_lists]. simpl in Hf, Hf'.
  pose proof (take_until_length GT s).
  pose proof (proj2 (parse_list_fuel (S (length s)) (S (length s)) s ltac:(lia) ltac:(lia))) as Hl.
  destruct (parse_list (S (length s)) s) as [l r]. simpl in Hl.
  rewrite (IH f' s), (IH f' (snd (take_until GT s))), (IH f' r) by lia. done.
Qed.

Lemma parse_print ls :
  Forall (fun l => l ≠ [] ∧ Forall printable_condition l) ls ->
  parse_if_header (print_if_header ls) = ls.
Proof.
  intros Hls. unfold parse_if_header.
  assert (Hf : forall fuel, (length ls <= fuel)%nat -> parse_lists fuel (print_if_header ls) = ls).
  { induction Hls as [|l ls [Hne Hl] _ IH]; intros fuel Hf; [by destruct fuel|].
    destruct fuel as [|fuel]; [simpl in Hf; lia|]. unfold print_if_header. rewrite fmap_cons.
    cbn [concat]. rewrite parse_lists_paren by done. f_equal. apply IH. simpl in Hf. lia. }
  apply Hf. clear. induction ls as [|l ls IH]; [done|]. unfold print_if_header in *.
  rewrite fmap_cons. cbn [concat]. rewrite length_app.
  assert (1 <= length (print_list l))%nat by (unfold print_list; simpl; lia). simpl length at 1. lia.
Qed.

(** The [If:] header round trip.  Any header that can be written, lists of possibly negated
    state tokens and quoted entity tags, is read back as exactly those lists, in order; and on
    any header at all more steps than its length change nothing: the parser always finishes. *)
Theorem if_header_roundtrip ls :
  Forall (fun l => l ≠ [] ∧ Forall printable_condition l) ls ->
  parse_if_header (print_if_header ls) = ls
  ∧ forall header extra, parse_lists (length header + extra) header = parse_if_header header.
Proof.
  intros Hls. split; [by apply parse_print|].
  intros header extra. apply parse_lists_fuel; lia.
Qed.
Lemma if_header_roundtrip_witness :
  parse_if_header (lit "(<opaquelocktoken:k1>[")
  ≠ [] ∧ parse_if_header (print_if_header
     [[StateToken false (lit "opaquelocktoken:k1"); EntityTag true (lit "v2")]; [StateToken true (lit "DAV:no-lock")]])
  = [[StateToken false (lit "opaquelocktoken:k1"); EntityTag true (lit "v2")]; [StateToken true (lit "DAV:no-lock")]].
Proof.
  split; [by vm_compute|]. apply if_header_roundtrip.
  repeat constructor; simpl; try done; try split; apply (bool_decide_unpack _); by vm_compute.
Defined.

(** ** [UNLOCK] *)
Section unlock.
Context {Cache : forall (K : Type) {E : EqDecision K} {C : @Countable K E}, Type -> Type}.
#[local] Arguments Cache _ {_ _} _.
Context `{!Moka (@Cache)} {St : Type} `{AuthorizationEngine St} `{UuidText}.
Context (resolve_target : Uuid -> str -> M St AppError (option Resource)).
Local Abbreviation Store := (WebDavLockStore (Cache:=@Cache)).

Lemma get_by_token_release t tok (store : Store) :
  get_by_token t tok store ≠ None ->
  fst (release t tok store) = true
  ∧ (forall t', get_by_token t' tok (snd (release t tok store)) = None).
Proof.
  unfold get_by_token, release. destruct (cget (by_token store) t tok) as [path|]; [|done].
  intros _. split; [done|]. intros t'. simpl. by rewrite cget_invalidate_eq.
Qed.

(** A lock is removed only by the user who took it.  When the presented token leads to a lock
    taken by another user, [UNLOCK] answers 404, the same answer as for an unknown resource, and
    changes nothing; when the lock is the caller's own, it answers 204, the token is dead from
    then on, and if the token is that of the stored lock the path is free. *)
Theorem unlock_is_for_the_owner t user header path (store : Store) (st : St) e owner_id :
  get_by_token t (unlock_token header) store = Some e -> caller_user_id e = Some owner_id ->
  (owner_id ≠ user -> exists err,
     handle_unlock resolve_target t user (Some header) path (store, st) = (Err err, (store, st))
     ∧ status_code err = StatusCode.NOT_FOUND)
  ∧ (owner_id = user -> exists store',
     handle_unlock resolve_target t user (Some header) path (store, st)
       = (Ok StatusCode.NO_CONTENT, (store', st))
     ∧ (forall t', get_by_token t' (unlock_token header) store' = None)
     ∧ (forall p, token (info e) = unlock_token header ->
          cget (by_token store) t (unlock_token header) = Some p ->
          forall t', get_by_path t' p store' = None)).
Proof.
  intros Hg Ho. split; intros Hu.
  - unfold handle_unlock. unfold_m. simpl. rewrite Hg, Ho.
    rewrite decide_False by done. eexists. split; [done|done].
  - destruct (get_by_token_release t (unlock_token header) store ltac:(by rewrite Hg)) as [Hr Hdead].
    exists (snd (release t (unlock_token header) store)). split_and!; [|done|].
    + unfold handle_unlock. unfold_m. simpl. rewrite Hg, Ho.
      rewrite decide_True by done. simpl. destruct (release _ _ store) as [b s']. simpl in Hr.
      by subst b.
    + intros p Htok Hp t'. unfold get_by_token in Hg. rewrite Hp in Hg. simpl in Hg.
      unfold release, get_by_path. rewrite Hp, Hg. simpl. unfold ct_str_eq.
      rewrite bool_decide_eq_true_2 by done. apply cget_invalidate_eq.
Qed.

(** A second shared lock is unusable.  When a path already holds a shared lock of another user,
    a shared lock is granted, but its token leads to the first holder's lock: it cannot be
    refreshed, the new holder's [UNLOCK] is refused, and a request that submits the new token is
    answered 423. *)
Theorem second_shared_lock_unusable t path (store : Store) (st : St) first a b i header :
  room store -> get_by_path t path store = Some first ->
  scope (info first) = Shared -> scope i = Shared ->
  caller_user_id first = Some a -> a ≠ b -> token (info first) ≠ token i ->
  unlock_token header = token i -> GT ∉ token i ->
  let (res, store') := acquire t path i (Some b) store in
  res = Ok (mkLockEntry i path (Some b))
  ∧ (forall nt, refresh t (token i) nt store' = (None, store'))
  ∧ (exists err, handle_unlock resolve_target t b (Some header) path (store', st)
                 = (Err err, (store', st)) ∧ status_code err = StatusCode.NOT_FOUND)
  ∧ enforce_native_lock t store' (Some (print_if_header [[StateToken false (token i)]])) path None
    = Some StatusCode.LOCKED.
Proof.
  intros [_ Hrt] Hf Hs1 Hs2 Ha Hab Htok Hh Hgt. unfold get_by_path in Hf.
  unfold acquire. rewrite Hf, Hs1, Hs2. simpl.
  set (store' := insert_token store t (token i) path).
  assert (Ht : cget (by_token store') t (token i) = Some path).
  { apply croom_insert_eq; [done|]. unfold MAX_LOCK_TIMEOUT_SECS, SECOND. lia. }
  assert (Hp : cget (by_path store') t path = Some first) by exact Hf.
  assert (Hne : ct_str_eq (token (info first)) (token i) = false) by by apply bool_decide_eq_false.
  split_and!; [done| | |].
  - intros nt. unfold refresh. by rewrite Ht, Hp, Hne.
  - unfold handle_unlock. unfold_m. simpl. rewrite Hh.
    unfold get_by_token. rewrite Ht. simpl. rewrite Hf, Ha, decide_False by done.
    by eexists.
  - unfold enforce_native_lock, covering_lock, get_by_path. rewrite Hp. simpl fmap.
    assert (Hpr : parse_if_header (print_if_header [[StateToken false (token i)]])
                  = [[StateToken false (token i)]]).
    { apply parse_print. repeat constructor; done. }
    rewrite Hpr. simpl. unfold ct_str_eq in *. rewrite (bool_decide_eq_false_2 (token i = _)) by done.
    by destruct (condition_holds _ _ _).
Qed.
End unlock.

(** ** Witnesses *)
Module IfDemo.
Definition uuid_text : UuidText := decimal_uuid_text.
#[export] Existing Instance uuid_text.
(** An engine that refuses everything, and a resolver that finds nothing. *)
Definition deny : AuthorizationEngine unit := fun _ _ _ => mret false.
#[export] Existing Instance deny.
Definition nowhere (_ : Uuid) (_ : str) : M unit AppError (option Resource) := mret None.
Definition shared_store : WebDavLockStore (Cache:=@TtlMap) :=
  snd (acquire 0 (lit "/a") (LockDemo.shared "k1" "Second-60") (Some 1%N) store_new).
End IfDemo.
Import IfDemo.

Lemma lock_gate_requires_token_witness :
  exists e, covers 5 LockDemo.held (lit "/a/b/c") e
  ∧ (enforce_native_lock 5 LockDemo.held None (lit "/a/b/c") None = Some StatusCode.LOCKED
     <-> ¬ submitted (token (info e)) (parsed None)).
Proof.
  destruct (lock_gate_requires_token 5 LockDemo.held None (lit "/a/b/c") None) as [_ Hl].
  destruct Hl as (e & Hc & _ & Hk & _); [|by eauto].
  eexists. right. exists (lit "/a"), (lit "b/c"). split_and!; [done|done|by vm_compute|by vm_compute].
Defined.
Lemma unlock_is_for_the_owner_witness :
  (exists err, handle_unlock nowhere 5 2%N (Some (lit "<k1>")) (lit "/a") (LockDemo.held, tt)
     = (Err err, (LockDemo.held, tt)) ∧ status_code err = StatusCode.NOT_FOUND)
  ∧ (exists store', handle_unlock nowhere 5 1%N (Some (lit "<k1>")) (lit "/a") (LockDemo.held, tt)
       = (Ok StatusCode.NO_CONTENT, (store', tt)) ∧ get_by_path 6 (lit "/a") store' = None).
Proof.
  split.
  - apply (unlock_is_for_the_owner nowhere 5 2%N (lit "<k1>") (lit "/a") LockDemo.held tt
             (mkLockEntry (LockDemo.excl "k1" "Second-60") (lit "/a") (Some 1%N)) 1%N);
      [by vm_compute|done|done].
  - destruct (unlock_is_for_the_owner nowhere 5 1%N (lit "<k1>") (lit "/a") LockDemo.held tt
             (mkLockEntry (LockDemo.excl "k1" "Second-60") (lit "/a") (Some 1%N)) 1%N) as [_ Ho];
      [by vm_compute|done|]. destruct (Ho eq_refl) as (store' & -> & _ & Hf).
    exists store'. split; [done|]. apply Hf; by vm_compute.
Defined.
Lemma second_shared_lock_unusable_witness :
  exists err, handle_unlock nowhere 5 2%N (Some (lit "<k2>")) (lit "/a")
    (snd (acquire 5 (lit "/a") (LockDemo.shared "k2" "") (Some 2%N) shared_store), tt)
    = (Err err, (snd (acquire 5 (lit "/a") (LockDemo.shared "k2" "") (Some 2%N) shared_store), tt))
    ∧ status_code err = StatusCode.NOT_FOUND.
Proof.
  pose proof (second_shared_lock_unusable nowhere 5 (lit "/a") shared_store tt
    (mkLockEntry (LockDemo.shared "k1" "Second-60") (lit "/a") (Some 1%N)) 1%N 2%N
    (LockDemo.shared "k2" "") (lit "<k2>")) as Hs.
  destruct (acquire 5 (lit "/a") (LockDemo.shared "k2" "") (Some 2%N) shared_store) as [res s'].
  destruct Hs as (_ & _ & Hu & _); try done; try (by vm_compute).
  apply (bool_decide_unpack _). by vm_compute.
Defined.
