(* ===== verification/WriteGate.v ===== *)
(** * The backend write gate

    [src/src/application/services/backend_write_gate.rs]: one holder at a time freezes all user
    writes.  The holder is kept under a read-write lock; the authorization engine reads a
    separate atomic flag without taking it.  The operations are given twice: as sequential
    functions, and as the steps a thread performs, interleaved with the steps of any number of
    other threads.  The refinement theorem relates the two. *)

From S2P Require Import Prelude.
From S2P Require Import RustStr.

Inductive BackendWriteLockReason :=
| Migration (source target : str)
| Backup (destination : str) (started_at : Z)
| Rotation (entry : str)
| External (admin_id : Uuid) (label : str) (acquired_at expires_at : Z).
#[global] Instance Reason_eq_dec : EqDecision BackendWriteLockReason.
Proof. solve_decision. Defined.

Module Reason.
Definition kind (r : BackendWriteLockReason) : str :=
  match r with
  | Migration _ _ => lit "migration"
  | Backup _ _ => lit "backup"
  | Rotation _ => lit "rotation"
  | External _ _ _ _ => lit "external"
  end.
Definition ARROW : str := [226; 134; 146]%Z.
Definition display (r : BackendWriteLockReason) : str :=
  match r with
  | Migration source target => lit "Migrating storage: " ++ source ++ lit " " ++ ARROW ++ lit " " ++ target
  | Backup destination _ => lit "Backing up to " ++ destination
  | Rotation entry => lit "Rotating storage key on " ++ entry
  | External _ label _ _ =>
      if decide (label = []) then lit "External maintenance in progress"
      else lit "Maintenance: " ++ label
  end.
Definition public_display (r : BackendWriteLockReason) : str :=
  match r with
  | External _ _ _ _ => lit "External maintenance in progress"
  | _ => display r
  end.
End Reason.

Record BackendWriteGate := mkGate {
  reason : option BackendWriteLockReason;
  fast_path : bool;
}.
Inductive GateError := AlreadyHeldBy (r : BackendWriteLockReason) | NotHeld.

Module Gate.
Definition is_some {A} (o : option A) : bool := match o with Some _ => true | None => false end.
Definition new : BackendWriteGate := mkGate None false.
Definition new_seeded (initial : option BackendWriteLockReason) : BackendWriteGate :=
  mkGate initial (is_some initial).
Definition is_held (g : BackendWriteGate) : bool := fast_path g.
Definition held_by (g : BackendWriteGate) : option BackendWriteLockReason := reason g.
Definition try_acquire (r : BackendWriteLockReason) (g : BackendWriteGate)
  : result GateError unit * BackendWriteGate :=
  match reason g with
  | Some current => (Err (AlreadyHeldBy current), g)
  | None => (Ok tt, mkGate (Some r) true)
  end.
Definition release (g : BackendWriteGate) : option BackendWriteLockReason * BackendWriteGate :=
  (reason g, mkGate None false).
Definition try_update (r : BackendWriteLockReason) (g : BackendWriteGate)
  : result GateError unit * BackendWriteGate :=
  match reason g with
  | None => (Err NotHeld, g)
  | Some _ => (Ok tt, mkGate (Some r) (fast_path g))
  end.
End Gate.

(** ** Threads *)
Inductive GateOp := GAcquire (r : BackendWriteLockReason) | GRelease | GUpdate (r : BackendWriteLockReason).
Inductive GateAnswer :=
| AUnit (res : result GateError unit)
| AReleased (prev : option BackendWriteLockReason).
(** The sequential meaning of an operation. *)
Definition run_gate_op (op : GateOp) (g : BackendWriteGate) : GateAnswer * BackendWriteGate :=
  match op with
  | GAcquire r => let (a, g') := Gate.try_acquire r g in (AUnit a, g')
  | GRelease => let (p, g') := Gate.release g in (AReleased p, g')
  | GUpdate r => let (a, g') := Gate.try_update r g in (AUnit a, g')
  end.

(** Where a thread is in its current operation: outside, holding the write lock before the
    reason is touched, about to store the flag, or about to drop the lock. *)
Inductive Pc := Outside | Entered (op : GateOp) | Storing (b : bool) | Leaving.
Record GateWorld := mkGateWorld {
  gate : BackendWriteGate;
  writer : option nat;
  pcs : nat -> Pc;
  log : list (GateOp * GateAnswer);  (** effects on the reason, oldest first *)
}.
Definition set_pc (w : GateWorld) (i : nat) (pc : Pc) : nat -> Pc :=
  fun j => if decide (j = i) then pc else pcs w j.

(** The body of an operation up to the flag: the new reason, the answer, and what is left. *)
Definition gate_body (op : GateOp) (cur : option BackendWriteLockReason)
  : option BackendWriteLockReason * GateAnswer * Pc :=
  match op with
  | GAcquire r =>
      match cur with
      | Some c => (Some c, AUnit (Err (AlreadyHeldBy c)), Leaving)
      | None => (Some r, AUnit (Ok tt), Storing true)
      end
  | GRelease => (None, AReleased cur, Storing false)
  | GUpdate r =>
      match cur with
      | None => (None, AUnit (Err NotHeld), Leaving)
      | Some _ => (Some r, AUnit (Ok tt), Leaving)
      end
  end.

Inductive gate_step : GateWorld -> GateWorld -> Prop :=
| step_lock w i op :
    pcs w i = Outside -> writer w = None ->
    gate_step w (mkGateWorld (gate w) (Some i) (set_pc w i (Entered op)) (log w))
| step_body w i op r a pc :
    pcs w i = Entered op -> gate_body op (reason (gate w)) = (r, a, pc) ->
    gate_step w (mkGateWorld (mkGate r (fast_path (gate w))) (writer w) (set_pc w i pc)
                   (log w ++ [(op, a)]))
| step_store w i b :
    pcs w i = Storing b ->
    gate_step w (mkGateWorld (mkGate (reason (gate w)) b) (writer w) (set_pc w i Leaving) (log w))
| step_unlock w i :
    pcs w i = Leaving ->
    gate_step w (mkGateWorld (gate w) None (set_pc w i Outside) (log w)).

Definition gate_start (g : BackendWriteGate) : GateWorld := mkGateWorld g None (fun _ => Outside) [].
Definition gate_reachable (g : BackendWriteGate) (w : GateWorld) : Prop := rtc gate_step (gate_start g) w.

(** The sequential execution of a log, checking every answer. *)
Fixpoint replays (l : list (GateOp * GateAnswer)) (g g' : BackendWriteGate) : Prop :=
  match l with
  | [] => g' = g
  | (op, a) :: rest => exists g1, run_gate_op op g = (a, g1) ∧ replays rest g1 g'
  end.
(** The flag mirrors the reason. *)
Definition mirrored (g : BackendWriteGate) : Prop := fast_path g = Gate.is_some (reason g).

Lemma replays_snoc l g g1 op a g2 :
  replays l g g1 -> run_gate_op op g1 = (a, g2) -> replays (l ++ [(op, a)]) g g2.
Proof.
  revert g. induction l as [|[op' a'] l IH]; intros g; simpl.
  - intros -> H. eauto.
  - intros (g3 & Hr & Hl) H. eauto.
Qed.
Lemma run_gate_op_mirrored op g : mirrored g -> mirrored (snd (run_gate_op op g)).
Proof. destruct g as [[c|] f], op; by unfold mirrored. Qed.
(** The body computes the answer and the reason of the sequential operation. *)
Lemma gate_body_run op g r a pc :
  mirrored g -> gate_body op (reason g) = (r, a, pc) ->
  run_gate_op op g = (a, mkGate r (Gate.is_some r))
  ∧ (pc = Storing (Gate.is_some r) ∨ pc = Leaving ∧ fast_path g = Gate.is_some r).
Proof.
  destruct g as [[c|] f], op; unfold mirrored; simpl; intros -> [= <- <- <-]; auto.
Qed.

(** What holds in every reachable world. *)
Definition gate_inv (g0 : BackendWriteGate) (w : GateWorld) : Prop :=
  replays (log w) g0 (mkGate (reason (gate w)) (Gate.is_some (reason (gate w))))
  ∧ match writer w with
    | None => mirrored (gate w) ∧ forall i, pcs w i = Outside
    | Some i => (forall j, j ≠ i -> pcs w j = Outside)
        ∧ match pcs w i with
          | Outside => False
          | Entered _ | Leaving => mirrored (gate w)
          | Storing b => b = Gate.is_some (reason (gate w))
          end
    end.

(** Only the thread that holds the write lock is inside. *)
Lemma gate_inv_writer g0 w i : gate_inv g0 w -> pcs w i ≠ Outside -> writer w = Some i.
Proof.
  intros [_ Hw] Hi. destruct (writer w) as [j|].
  - destruct Hw as [Ho _]. destruct (decide (i = j)) as [->|Hne]; [done|]. by apply Ho in Hne.
  - destruct Hw as [_ Ho]. by rewrite Ho in Hi.
Qed.
Lemma set_pc_eq w i pc : set_pc w i pc i = pc.
Proof. unfold set_pc. by rewrite decide_True. Qed.
Lemma set_pc_ne w i pc j : j ≠ i -> set_pc w i pc j = pcs w j.
Proof. intros. unfold set_pc. by rewrite decide_False. Qed.

Lemma gate_inv_step g0 w w' : gate_inv g0 w -> gate_step w w' -> gate_inv g0 w'.
Proof.
  intros Hinv Hs. destruct Hs as [w i op Hpc Hw|w i op r a pc Hpc Hb|w i b Hpc|w i Hpc].
  - destruct Hinv as [Hr Hi]. rewrite Hw in Hi. destruct Hi as [Hm Ho]. split; [done|]. simpl.
    split; [intros j Hj; by rewrite set_pc_ne|]. by rewrite set_pc_eq.
  - assert (Hw : writer w = Some i) by (eapply gate_inv_writer; [done|by rewrite Hpc]).
    destruct Hinv as [Hr Hi]. rewrite Hw in Hi. destruct Hi as [Ho Hm]. rewrite Hpc in Hm.
    destruct (gate_body_run op (gate w) r a pc Hm Hb) as [Hrun Hp]. split; simpl.
    + eapply replays_snoc; [exact Hr|]. rewrite <- Hrun. f_equal. destruct (gate w) as [c f].
      unfold mirrored in Hm. simpl in *. by subst.
    + rewrite Hw. split; [intros j Hj; rewrite set_pc_ne by done; auto|]. rewrite set_pc_eq.
      by destruct Hp as [->|[-> Hf]].
  - assert (Hw : writer w = Some i) by (eapply gate_inv_writer; [done|by rewrite Hpc]).
    destruct Hinv as [Hr Hi]. rewrite Hw in Hi. destruct Hi as [Ho Hm]. rewrite Hpc in Hm.
    split; [done|]. simpl. rewrite Hw.
    split; [intros j Hj; rewrite set_pc_ne by done; auto|]. by rewrite set_pc_eq.
  - assert (Hw : writer w = Some i) by (eapply gate_inv_writer; [done|by rewrite Hpc]).
    destruct Hinv as [Hr Hi]. rewrite Hw in Hi. destruct Hi as [Ho Hm]. rewrite Hpc in Hm.
    split; [done|]. simpl. split; [done|]. intros j.
    destruct (decide (j = i)) as [->|Hne]; [by rewrite set_pc_eq|]. rewrite set_pc_ne by done. auto.
Qed.
Lemma gate_reachable_inv g0 w : mirrored g0 -> gate_reachable g0 w -> gate_inv g0 w.
Proof.
  intros Hm Hr. assert (Hs : gate_inv g0 (gate_start g0)).
  { split; [|done]. simpl. destruct g0 as [c f]. unfold mirrored in Hm. simpl in *. by subst. }
  revert Hs. unfold gate_reachable in Hr. induction Hr as [|w1 w2 w3 Hst _ IH]; [done|].
  intros Hi. apply IH. by eapply gate_inv_step.
Qed.

(** C27: the gate is linearizable and its flag is honest.  Under any interleaving of any number of
    threads that acquire, update and release the gate, the effects and the answers are those of
    the sequential operations run one after the other, so there is never more than one holder;
    and the flag other parts of the program read without the lock agrees with the reason except
    inside the one operation that is about to store it, when it is the value being stored that
    is right. *)
Theorem gate_linearizable g0 w :
  mirrored g0 -> gate_reachable g0 w ->
  replays (log w) g0 (mkGate (reason (gate w)) (Gate.is_some (reason (gate w))))
  ∧ (mirrored (gate w) ∨ exists i, writer w = Some i ∧ pcs w i = Storing (Gate.is_some (reason (gate w))))
  ∧ (forall i j, pcs w i ≠ Outside -> pcs w j ≠ Outside -> i = j).
Proof.
  intros Hm Hr. pose proof (gate_reachable_inv g0 w Hm Hr) as Hinv. split_and!; [apply Hinv| |].
  - destruct Hinv as [_ Hw]. destruct (writer w) as [i|]; [|left; apply Hw].
    destruct Hw as [_ Hw]. destruct (pcs w i) as [|op|b|] eqn:E; [done|by left| |by left].
    right. exists i. by subst.
  - intros i j Hi Hj. apply (gate_inv_writer g0 w) in Hi, Hj; [|done..]. congruence.
Qed.
Lemma gate_linearizable_witness :
  exists w, gate_reachable Gate.new w ∧ log w = [(GAcquire (Rotation (lit "s3")), AUnit (Ok tt))]
    ∧ replays (log w) Gate.new (mkGate (reason (gate w)) (Gate.is_some (reason (gate w)))).
Proof.
  set (w := mkGateWorld (mkGate (Some (Rotation (lit "s3"))) false) (Some 0)
     (set_pc (mkGateWorld Gate.new (Some 0)
        (set_pc (gate_start Gate.new) 0 (Entered (GAcquire (Rotation (lit "s3"))))) []) 0 (Storing true))
     ([] ++ [(GAcquire (Rotation (lit "s3")), AUnit (Ok tt))])).
  assert (Hr : gate_reachable Gate.new w).
  { eapply rtc_l; [apply (step_lock _ 0 (GAcquire (Rotation (lit "s3")))); done|].
    eapply rtc_l; [by eapply (step_body _ 0)|]. apply rtc_refl. }
  exists w. split_and!; [done|done|]. by apply gate_linearizable.
Defined.

(** One holder at a time.  Starting from a gate whose flag mirrors its reason, an acquisition
    succeeds exactly when nobody holds the gate and then holds it; a failed one names the holder
    and changes nothing; an update never takes a free gate and never frees a held one; after a
    release the gate is free; and the flag mirrors the reason after every operation. *)
Theorem gate_one_holder g r :
  mirrored g ->
  (Gate.is_held g = false -> exists g', Gate.try_acquire r g = (Ok tt, g') ∧ Gate.held_by g' = Some r
                              ∧ Gate.is_held g' = true)
  ∧ (Gate.is_held g = true -> exists c, Gate.held_by g = Some c
       ∧ Gate.try_acquire r g = (Err (AlreadyHeldBy c), g))
  ∧ Gate.is_held (snd (Gate.try_update r g)) = Gate.is_held g
  ∧ fst (Gate.release g) = Gate.held_by g ∧ Gate.held_by (snd (Gate.release g)) = None
  ∧ (forall op, mirrored (snd (run_gate_op op g)))
  ∧ (forall a l t t', Reason.public_display (External a l t t') = lit "External maintenance in progress").
Proof.
  intros Hm. split_and!; try done.
  - destruct g as [[c|] f]; unfold mirrored in Hm; simpl in *; [by subst|]. eauto.
  - destruct g as [[c|] f]; unfold mirrored in Hm; simpl in *; [|by subst]. eauto.
  - by destruct g as [[c|] f].
  - intros op. by apply run_gate_op_mirrored.
Qed.
Lemma gate_one_holder_witness :
  Gate.try_acquire (Rotation (lit "s3")) (Gate.new_seeded (Some (Migration (lit "a") (lit "b"))))
  = (Err (AlreadyHeldBy (Migration (lit "a") (lit "b"))),
     Gate.new_seeded (Some (Migration (lit "a") (lit "b")))).
Proof.
  destruct (gate_one_holder (Gate.new_seeded (Some (Migration (lit "a") (lit "b")))) (Rotation (lit "s3"))
    eq_refl) as (_ & H & _).
  destruct (H eq_refl) as (c & [= <-] & ->). done.
Defined.
