(* ===== verification/WopiLocks.v ===== *)
(** * WOPI locks

    [src/src/application/services/wopi_lock_service.rs]: file locks of the office protocol, a
    map under a lock.  An operation that reads the clock twice takes both readings. *)

From S2P Require Import Prelude.
From S2P Require Import RustStr.

Record WopiEntry := mkWopiEntry { lock_id : str; expires_at : Z }.
Record LockConflict := mkConflict { existing_lock_id : str }.
Record WopiLockService := mkWopi {
  locks : gmap str WopiEntry;
  lock_duration : Z;
}.

Module Wopi.
Definition new (lock_duration : Z) : WopiLockService := mkWopi ∅ lock_duration.
Definition put (s : WopiLockService) (file_id : str) (e : WopiEntry) : WopiLockService :=
  mkWopi (<[file_id := e]> (locks s)) (lock_duration s).
Definition remove (s : WopiLockService) (file_id : str) : WopiLockService :=
  mkWopi (delete file_id (locks s)) (lock_duration s).

Definition lock (now now' : Z) (file_id id : str) (s : WopiLockService)
  : result LockConflict unit * WopiLockService :=
  let insert := (Ok tt, put s file_id (mkWopiEntry id (now' + lock_duration s))) in
  match locks s !! file_id with
  | Some entry =>
      if decide (lock_id entry = id) then insert
      else if (expires_at entry <=? now)%Z then insert
      else (Err (mkConflict (lock_id entry)), s)
  | None => insert
  end.
Definition unlock (now : Z) (file_id id : str) (s : WopiLockService)
  : result LockConflict unit * WopiLockService :=
  match locks s !! file_id with
  | Some entry =>
      if negb (bool_decide (lock_id entry = id)) && (now <? expires_at entry)%Z
      then (Err (mkConflict (lock_id entry)), s)
      else (Ok tt, remove s file_id)
  | None => (Ok tt, remove s file_id)
  end.
Definition refresh_lock (now now' : Z) (file_id id : str) (s : WopiLockService)
  : result LockConflict unit * WopiLockService :=
  match locks s !! file_id with
  | None => (Err (mkConflict []), s)
  | Some entry =>
      if (expires_at entry <=? now)%Z then (Err (mkConflict []), remove s file_id)
      else if decide (lock_id entry = id)
      then (Ok tt, put s file_id (mkWopiEntry id (now' + lock_duration s)))
      else (Err (mkConflict (lock_id entry)), s)
  end.
Definition get_lock (now : Z) (file_id : str) (s : WopiLockService) : option str :=
  match locks s !! file_id with
  | Some entry => if (now <? expires_at entry)%Z then Some (lock_id entry) else None
  | None => None
  end.
Definition cleanup_expired (now : Z) (s : WopiLockService) : WopiLockService :=
  mkWopi (filter (fun kv : str * WopiEntry => (now < expires_at kv.2)%Z) (locks s)) (lock_duration s).
End Wopi.

(** ** The specification: who holds each file, as a function of time *)
Definition holder (s : WopiLockService) (f : str) (t : Z) : option str := Wopi.get_lock t f s.
(** From [t] on, file [f] is held by [h] until [u]; other files are as in [s]. *)
Definition holds_from (s s' : WopiLockService) (f : str) (t : Z) (h : option str) (u : Z) : Prop :=
  (forall t', (t <= t')%Z -> holder s' f t' = if (t' <? u)%Z then h else None)
  ∧ (forall f' t', f' ≠ f -> holder s' f' t' = holder s f' t').

Lemma put_holds s f id u t : holds_from s (Wopi.put s f (mkWopiEntry id u)) f t (Some id) u.
Proof.
  unfold holds_from, holder, Wopi.get_lock, Wopi.put. simpl. split.
  - intros t' _. by rewrite lookup_insert_eq.
  - intros f' t' Hne. by rewrite lookup_insert_ne.
Qed.
Lemma remove_holds s f t u : holds_from s (Wopi.remove s f) f t None u.
Proof.
  unfold holds_from, holder, Wopi.get_lock, Wopi.remove. simpl. split.
  - intros t' _. rewrite lookup_delete_eq. by destruct (_ <? _)%Z.
  - intros f' t' Hne. by rewrite lookup_delete_ne.
Qed.
Lemma holder_lookup s f t : holder s f t =
  match locks s !! f with Some e => if (t <? expires_at e)%Z then Some (lock_id e) else None | None => None end.
Proof. done. Qed.

(** The periodic sweep changes no holder at any instant from the sweep on, and leaves no expired
    entry. *)
Lemma cleanup_expired_invisible s now :
  (forall f t, (now <= t)%Z -> holder (Wopi.cleanup_expired now s) f t = holder s f t)
  ∧ (forall f e, locks (Wopi.cleanup_expired now s) !! f = Some e -> (now < expires_at e)%Z).
Proof.
  unfold holder, Wopi.get_lock, Wopi.cleanup_expired. simpl. split.
  - intros f t Ht. rewrite map_lookup_filter. destruct (locks s !! f) as [e|]; [|done]. simpl.
    destruct (decide (now < expires_at e)%Z) as [Hl|Hl].
    + by rewrite option_guard_True.
    + rewrite option_guard_False by done. rewrite (proj2 (Z.ltb_ge _ _)) by lia. done.
  - intros f e. by intros [_ ?]%map_lookup_filter_Some.
Qed.

(** A WOPI lock protects its holder.  Whether a file is free, held by the caller or held by
    another at the instant of the call decides every operation.  Locking a free file or one's own
    holds it for the full duration; refreshing needs a live lock of one's own; unlocking one's
    own or a free file leaves it free; and against a live lock of another holder every operation
    is refused with that holder's identifier and changes nothing.  Other files are never
    affected, and the periodic sweep is invisible: it drops exactly the expired entries and
    changes no holder at any later instant. *)
Theorem wopi_lock_contract s f id now now' :
  (now <= now')%Z -> (0 <= lock_duration s)%Z ->
  let until := (now' + lock_duration s)%Z in
  (forall f' t, (now <= t)%Z -> holder (Wopi.cleanup_expired now s) f' t = holder s f' t)
  ∧ (forall f' e, locks (Wopi.cleanup_expired now s) !! f' = Some e -> (now < expires_at e)%Z)
  ∧ (holder s f now = None ∨ holder s f now = Some id ->
     (exists s', Wopi.lock now now' f id s = (Ok tt, s') ∧ holds_from s s' f now' (Some id) until)
     ∧ (exists s', Wopi.unlock now f id s = (Ok tt, s') ∧ holds_from s s' f now None now))
  ∧ (holder s f now = Some id ->
     exists s', Wopi.refresh_lock now now' f id s = (Ok tt, s') ∧ holds_from s s' f now' (Some id) until)
  ∧ (holder s f now = None ->
     exists s', Wopi.refresh_lock now now' f id s = (Err (mkConflict []), s')
       ∧ forall f' t', (now <= t')%Z -> holder s' f' t' = holder s f' t')
  ∧ (forall other, holder s f now = Some other -> other ≠ id ->
     Wopi.lock now now' f id s = (Err (mkConflict other), s)
     ∧ Wopi.unlock now f id s = (Err (mkConflict other), s)
     ∧ Wopi.refresh_lock now now' f id s = (Err (mkConflict other), s)).
Proof.
  intros Ht Hd until. destruct (cleanup_expired_invisible s now) as [Hc1 Hc2].
  split; [exact Hc1|]. split; [exact Hc2|]. rewrite !holder_lookup.
  unfold Wopi.lock, Wopi.unlock, Wopi.refresh_lock.
  destruct (locks s !! f) as [e|] eqn:E.
  - destruct (Z.ltb_spec now (expires_at e)) as [Hl|Hl].
    + rewrite (proj2 (Z.leb_gt _ _)) by done. rewrite andb_true_r. split_and!.
      * intros [?|[= Hid]]; [done|]. rewrite decide_True by done. rewrite bool_decide_eq_true_2 by done.
        simpl. split; eexists; (split; [done|]); [apply put_holds|apply remove_holds].
      * intros [= Hid]. rewrite decide_True by done. eexists. split; [done|apply put_holds].
      * done.
      * intros other [= Ho] Hne. rewrite !decide_False by congruence.
        rewrite bool_decide_eq_false_2 by congruence. by rewrite Ho.
    + rewrite (proj2 (Z.leb_le _ _)) by done. rewrite andb_false_r. split_and!; [|done| |done].
      * intros _. split; [|by eexists; split; [done|apply remove_holds]].
        eexists. split; [by case_decide|apply put_holds].
      * intros _. eexists. split; [done|]. intros f' t' Ht'.
        destruct (decide (f' = f)) as [->|Hne].
        -- rewrite (proj1 (remove_holds s f now now)) by done. rewrite holder_lookup, E.
           rewrite (proj2 (Z.ltb_ge t' (expires_at e))) by lia. by destruct (_ <? _)%Z.
        -- by apply (remove_holds s f now now).
  - split_and!; [|done| |done].
    + intros _. split; eexists; (split; [done|]); [apply put_holds|apply remove_holds].
    + intros _. by eexists.
Qed.
Lemma wopi_lock_contract_witness :
  Wopi.lock 5 6 (lit "doc") (lit "B") (Wopi.put (Wopi.new 60) (lit "doc") (mkWopiEntry (lit "A") 61))
  = (Err (mkConflict (lit "A")),
     Wopi.put (Wopi.new 60) (lit "doc") (mkWopiEntry (lit "A") 61)).
Proof.
  destruct (wopi_lock_contract (Wopi.put (Wopi.new 60) (lit "doc") (mkWopiEntry (lit "A") 61))
    (lit "doc") (lit "B") 5 6 ltac:(lia) ltac:(done)) as (_ & _ & _ & _ & _ & H).
  by apply (H (lit "A")).
Defined.
