(* ===== verification/AuthStores.v ===== *)
(** * In-memory stores of the login and session code

    The failure counter [src/src/infrastructure/services/login_lockout_service.rs], the WebSocket
    tickets [src/src/infrastructure/services/rt_ticket_store.rs] and the proof replay cache
    [src/src/infrastructure/services/dpop_replay_cache.rs].  Instants and durations are
    nanoseconds. *)

From S2P Require Import Prelude.
From S2P Require Import RustStr.
From S2P Require Import Moka.

Definition SEC : Z := 1000000000.

(** ** Account lockout *)

(** [str::to_lowercase]: full Unicode lowercasing, of which the code relies on what it does to
    ASCII text. *)
Class Lowercase := {
  to_lowercase : str -> str;
  to_lowercase_ascii s : is_ascii s = true -> to_lowercase s = to_ascii_lowercase s;
}.
Definition ascii_lowercase : Lowercase.
Proof. by refine {| to_lowercase := to_ascii_lowercase |}. Defined.

Module LoginLockout.
Section service.
Context {Cache : forall (K : Type) {E : EqDecision K} {C : @Countable K E}, Type -> Type}.
#[local] Arguments Cache _ {_ _} _.
Context `{!Moka (@Cache)} `{Lowercase}.

(** A [FailureRecord] is its count. *)
Record LoginLockoutService := mkLockout {
  cache : Cache str Z;
  max_failures : Z;
  lockout_secs : Z;
}.
Definition new (max_failures lockout_secs : Z) : LoginLockoutService :=
  mkLockout cnew max_failures lockout_secs.
Definition key (username client_ip : str) : str :=
  if is_ascii username then (ascii_lower <$> username) ++ [124%Z] ++ client_ip
  else to_lowercase username ++ [124%Z] ++ client_ip.
Definition check (t : Z) (username client_ip : str) (s : LoginLockoutService) : result Z unit :=
  match cget (cache s) t (key username client_ip) with
  | Some count => if (max_failures s <=? count)%Z then Err (lockout_secs s) else Ok tt
  | None => Ok tt
  end.
(** [t] is the instant of the lookup and [t'] that of the insertion; the count is a [u32]. *)
Definition record_failure (t t' : Z) (username client_ip : str) (s : LoginLockoutService)
  : Z * LoginLockoutService :=
  let k := key username client_ip in
  let new_count := match cget (cache s) t k with Some c => wrap_u32 (c + 1) | None => 1%Z end in
  (new_count, mkLockout (cinsert (cache s) t' (lockout_secs s * SEC) k new_count)
                (max_failures s) (lockout_secs s)).
Definition record_success (username client_ip : str) (s : LoginLockoutService) : LoginLockoutService :=
  mkLockout (cinvalidate (cache s) (key username client_ip)) (max_failures s) (lockout_secs s).

(** Consecutive failures at the given instants, each within the window of the one before, on a
    store that does not evict. *)
Fixpoint failures (times : list Z) (username client_ip : str) (s : LoginLockoutService)
  : LoginLockoutService :=
  match times with
  | [] => s
  | t :: rest => failures rest username client_ip (snd (record_failure t t username client_ip s))
  end.
Fixpoint within (window prev : Z) (times : list Z) : Prop :=
  match times with
  | [] => True
  | t :: rest => (prev <= t < prev + window)%Z ∧ within window t rest
  end.
Fixpoint failures_room (times : list Z) (username client_ip : str) (s : LoginLockoutService) : Prop :=
  croom (cache s) ∧
  match times with
  | [] => True
  | t :: rest => failures_room rest username client_ip (snd (record_failure t t username client_ip s))
  end.
(** The instant of the last failure. *)
Definition last_time (prev : Z) (times : list Z) : Z := default prev (list.last times).

Lemma key_lowercase u ip : key u ip = to_lowercase u ++ [124%Z] ++ ip.
Proof. unfold key. destruct (is_ascii u) eqn:E; [|done]. by rewrite to_lowercase_ascii. Qed.
Lemma key_inj u ip u' ip' :
  124%Z ∉ ip -> 124%Z ∉ ip' -> key u ip = key u' ip' -> to_lowercase u = to_lowercase u' ∧ ip = ip'.
Proof.
  intros Hi Hi'. rewrite !key_lowercase. simpl. intros Heq.
  pose proof (rsplit_once_app 124 (to_lowercase u) ip Hi) as H1.
  rewrite Heq, rsplit_once_app in H1 by done. by injection H1 as -> ->.
Qed.

Lemma failures_count u ip : forall times s prev c,
  (0 <= c)%Z -> (c + Z.of_nat (length times) <= u32_max)%Z ->
  failures_room times u ip s -> within (lockout_secs s * SEC) prev times ->
  (forall t, (prev <= t)%Z -> cget (cache s) t (key u ip)
     = if (t <? prev + lockout_secs s * SEC)%Z then Some c else None) ->
  let s' := failures times u ip s in
  max_failures s' = max_failures s ∧ lockout_secs s' = lockout_secs s
  ∧ forall t, (last_time prev times <= t)%Z -> cget (cache s') t (key u ip)
     = if (t <? last_time prev times + lockout_secs s * SEC)%Z
       then Some (c + Z.of_nat (length times))%Z else None.
Proof.
  induction times as [|t0 times IH]; intros s prev c Hc Hu Hroom Hw Hg.
  { simpl. split_and!; [done|done|]. intros t Ht. rewrite Hg by done. by rewrite Z.add_0_r. }
  destruct Hroom as [Hr Hroom]. destruct Hw as [Ht0 Hw]. cbn [failures length] in *.
  assert (Hg0 : cget (cache s) t0 (key u ip) = Some c).
  { rewrite Hg by lia. by rewrite (proj2 (Z.ltb_lt t0 _)) by lia. }
  unfold record_failure in *. rewrite Hg0 in *.
  assert (Hwrap : wrap_u32 (c + 1) = (c + 1)%Z).
  { unfold wrap_u32. apply Z.mod_small. unfold u32_max in Hu. lia. }
  rewrite Hwrap in *. cbn [snd] in *.
  set (s1 := mkLockout _ _ _) in *.
  destruct (IH s1 t0 (c + 1)%Z) as (Hm & Hl & Hget); [lia|lia|done|done| |].
  { intros t Ht. by apply cget_inserted. }
  split_and!; [done|done|]. intros t Ht.
  assert (Hlt : last_time prev (t0 :: times) = last_time t0 times).
  { unfold last_time. rewrite last_cons. by destruct (list.last times). }
  rewrite Hlt in *. rewrite Hget by done. simpl (lockout_secs s1).
  destruct (_ <? _)%Z; [f_equal; lia|done].
Qed.

(** The lockout counts consecutive failures.  Starting with no record for the pair of account
    and address, after a run of failures, each within the window of the one before, the next
    login within the window is refused exactly when their number reached the limit, and is
    allowed again once the window after the last failure has passed.  A success resets the pair.
    The records of a different account or address never matter to the pair. *)
Theorem lockout_counts_failures s u ip t0 times t :
  (0 < max_failures s)%Z -> (0 < lockout_secs s)%Z ->
  (Z.of_nat (length times) < u32_max)%Z -> (forall t, cget (cache s) t (key u ip) = None) ->
  failures_room (t0 :: times) u ip s -> within (lockout_secs s * SEC) t0 times ->
  (last_time t0 times <= t)%Z ->
  let s' := failures (t0 :: times) u ip s in
  let n := Z.of_nat (length (t0 :: times)) in
  check t u ip s' = (if (t <? last_time t0 times + lockout_secs s * SEC)%Z && (max_failures s <=? n)%Z
                     then Err (lockout_secs s) else Ok tt)
  ∧ check t u ip (record_success u ip s') = Ok tt
  ∧ (forall u' ip' t1, 124%Z ∉ ip -> 124%Z ∉ ip' -> to_lowercase u' ≠ to_lowercase u ∨ ip' ≠ ip ->
       croom (cache s') -> check t u ip (snd (record_failure t1 t1 u' ip' s')) = check t u ip s').
Proof.
  intros Hmax Hsec Hlen Hnone [Hr Hroom] Hw Ht s' n.
  set (s1 := mkLockout (cinsert (cache s) t0 (lockout_secs s * SEC) (key u ip) 1%Z)
               (max_failures s) (lockout_secs s)).
  assert (Hs1 : snd (record_failure t0 t0 u ip s) = s1) by (unfold record_failure; by rewrite Hnone).
  unfold s'. cbn [failures]. rewrite Hs1 in *.
  destruct (failures_count u ip times s1 t0 1) as (Hm & Hl & Hget); [lia|lia|done|done| |].
  { intros t' Ht'. by apply cget_inserted. }
  set (s2 := failures times u ip s1) in *. simpl in Hm, Hl. split_and!.
  - unfold check. rewrite Hget by done. rewrite Hm, Hl. simpl (lockout_secs s1).
    destruct (_ <? _)%Z; [|done]. replace (1 + Z.of_nat (length times))%Z with n by (unfold n; simpl; lia).
    done.
  - unfold check. simpl. by rewrite cget_invalidate_eq.
  - intros u' ip' t1 Hi Hi' Hne Hroom'. unfold check. simpl.
    rewrite croom_insert_ne; [done|done|]. intros Heq. apply key_inj in Heq as [? ?]; [|done..].
    naive_solver.
Qed.

(** Simultaneous failures can be counted once.  The counter is read and written in two steps:
    two failed attempts that both read before either writes leave a count of one, so with a
    limit of two the account is still open after two failures. *)
Theorem simultaneous_failures_counted_once s u ip t :
  croom (cache s) -> (0 < lockout_secs s)%Z -> max_failures s = 2%Z ->
  cget (cache s) t (key u ip) = None ->
  croom (cache (snd (record_failure t t u ip s))) ->
  let a := record_failure t t u ip s in
  (** a second attempt, whose read came before the write of the first *)
  let b := fst (record_failure t t u ip s) in
  fst a = 1%Z ∧ b = 1%Z
  ∧ check t u ip (mkLockout (cinsert (cache (snd a)) t (lockout_secs s * SEC) (key u ip) b)
                    (max_failures s) (lockout_secs s)) = Ok tt.
Proof.
  intros Hr Hl Hm Hn Hr1. unfold record_failure in *. rewrite Hn in *. cbn [fst snd] in *. split_and!; [done|done|].
  unfold check. cbn [cache max_failures lockout_secs].
  rewrite croom_insert_eq; [by rewrite Hm|done|]. unfold SEC. lia.
Qed.
End service.
End LoginLockout.

(** ** WebSocket tickets *)
Module RtTickets.
Definition TICKET_TTL : Z := 30 * SEC.
Definition SUBPROTOCOL_PREFIX : str := lit "oxi.ticket.".
Record Entry := mkEntry { caller_id : Uuid; expires_at : Z }.
Abbreviation RtTicketStore := (gmap Uuid Entry).
Definition new : RtTicketStore := ∅.
(** [ticket] is the random identifier the call draws. *)
Definition issue (t : Z) (ticket caller : Uuid) (s : RtTicketStore) : RtTicketStore :=
  <[ticket := mkEntry caller (t + TICKET_TTL)]> s.
Definition redeem (t : Z) (ticket : Uuid) (s : RtTicketStore) : option Uuid * RtTicketStore :=
  match s !! ticket with
  | None => (None, s)
  | Some entry =>
      (if (expires_at entry <? t)%Z then None else Some (caller_id entry), delete ticket s)
  end.
(** One round of the reaper. *)
Definition reap (t : Z) (s : RtTicketStore) : RtTicketStore :=
  filter (fun kv : Uuid * Entry => (t <= expires_at kv.2)%Z) s.

(** A request to the store, with its instant. *)
Inductive Op := OIssue (ticket caller : Uuid) | ORedeem (ticket : Uuid) | OReap.
#[global] Instance Op_eq_dec : EqDecision Op. Proof. solve_decision. Defined.
Definition step (t : Z) (op : Op) (s : RtTicketStore) : option Uuid * RtTicketStore :=
  match op with
  | OIssue k c => (None, issue t k c s)
  | ORedeem k => redeem t k s
  | OReap => (None, reap t s)
  end.
(** What the redemptions of [k] in a run returned, failures left out. *)
Fixpoint redeemed (k : Uuid) (ops : list (Z * Op)) (s : RtTicketStore) : list (Z * Uuid) :=
  match ops with
  | [] => []
  | (t, op) :: rest =>
      let (r, s') := step t op s in
      match op, r with
      | ORedeem k', Some c => if decide (k' = k) then [(t, c)] else []
      | _, _ => []
      end ++ redeemed k rest s'
  end.
Definition issues (k : Uuid) (op : Z * Op) : Prop := exists c, snd op = OIssue k c.
Definition redeems (k : Uuid) (op : Z * Op) : Prop := snd op = ORedeem k.

Lemma step_other t op s k :
  ¬ issues k (t, op) -> ¬ redeems k (t, op) ->
  snd (step t op s) !! k = (e ← s !! k; match op with
     | OReap => if decide (t <= expires_at e)%Z then Some e else None | _ => Some e end).
Proof.
  unfold issues, redeems. destruct op as [k' c|k'|]; simpl; intros Hi Hr.
  - unfold issue. rewrite lookup_insert_ne by naive_solver. by destruct (s !! k).
  - unfold redeem. destruct (s !! k'); simpl; [rewrite lookup_delete_ne by naive_solver|];
      by destruct (s !! k).
  - unfold reap. rewrite map_lookup_filter. destruct (s !! k) as [e|]; simpl; [|done].
    case_decide; [by rewrite option_guard_True|by rewrite option_guard_False].
Qed.
Lemma redeemed_absent k ops : forall s, s !! k = None -> Forall (fun op => ¬ issues k op) ops ->
  redeemed k ops s = [].
Proof.
  induction ops as [|[t op] ops IH]; intros s Hs Ho; [done|].
  apply Forall_cons_1 in Ho as [Ho Hos]. cbn [redeemed].
  assert (Hstep : snd (step t op s) !! k = None ∧ (op = ORedeem k -> fst (step t op s) = None)).
  { destruct (decide (op = ORedeem k)) as [->|Hne].
    - simpl. unfold redeem. by rewrite Hs.
    - split; [|done]. rewrite step_other by (done || unfold redeems; simpl; congruence). by rewrite Hs. }
  destruct (step t op s) as [r s'] eqn:E. simpl in Hstep. destruct Hstep as [Hs' Hr].
  rewrite IH by done. rewrite app_nil_r. destruct op as [| k' |], r; try done.
  case_decide; [|done]. subst. by specialize (Hr eq_refl).
Qed.

(** A ticket works once, for its caller, for thirty seconds.  In any run of the store after a
    ticket is issued, with no second ticket of the same identifier, at most one redemption
    succeeds, it names the caller the ticket was issued to, and it happens no later than thirty
    seconds after the issue, however the other operations and the reaper interleave. *)
Theorem ticket_single_use s t0 k caller ops :
  Forall (fun op => ¬ issues k op) ops ->
  redeemed k ops (issue t0 k caller s) = []
  ∨ exists t, redeemed k ops (issue t0 k caller s) = [(t, caller)] ∧ (t <= t0 + TICKET_TTL)%Z.
Proof.
  intros Hops. assert (Hk : issue t0 k caller s !! k = Some (mkEntry caller (t0 + TICKET_TTL))).
  { unfold issue. by rewrite lookup_insert_eq. }
  revert Hk. generalize (issue t0 k caller s). clear s.
  induction Hops as [|[t op] ops Ho Hos IH]; intros s Hk; [by left|]. cbn [redeemed].
  destruct (decide (op = ORedeem k)) as [->|Hne].
  - simpl. unfold redeem. rewrite Hk. simpl.
    rewrite redeemed_absent by (done || by rewrite lookup_delete_eq). rewrite app_nil_r.
    destruct (Z.ltb_spec (t0 + TICKET_TTL) t); [by left|]. right. exists t. by rewrite decide_True.
  - pose proof (step_other t op s k Ho ltac:(unfold redeems; simpl; congruence)) as Hs.
    rewrite Hk in Hs. simpl in Hs. destruct (step t op s) as [r s']. simpl in Hs.
    assert (Hnil : match op, r with ORedeem k', Some c => if decide (k' = k) then [(t, c)] else []
                   | _, _ => [] end = []).
    { destruct op, r; try done. case_decide; [congruence|done]. }
    rewrite Hnil. simpl. destruct op as [k' c|k'|]; [by apply IH..|].
    case_decide; [by apply IH|]. left. by apply redeemed_absent.
Qed.
Lemma ticket_single_use_witness :
  redeemed 7 [(1%Z, ORedeem 7%N); (2%Z, ORedeem 7%N)] (issue 0 7 42 new) = []
  ∨ exists t, redeemed 7 [(1%Z, ORedeem 7%N); (2%Z, ORedeem 7%N)] (issue 0 7 42 new) = [(t, 42%N)]
     ∧ (t <= 0 + TICKET_TTL)%Z.
Proof.
  apply (ticket_single_use new 0 7 42 [(1%Z, ORedeem 7%N); (2%Z, ORedeem 7%N)]).
  repeat constructor; by intros [c [=]].
Defined.

(** A ticket in time is honoured.  If nobody redeemed it before, the first redemption within
    thirty seconds returns the caller, whatever other tickets, redemptions and reaper rounds
    came in between. *)
Theorem ticket_honoured s t0 k caller ops t :
  Forall (fun op => ¬ issues k op ∧ ¬ redeems k op ∧ (fst op <= t)%Z) ops ->
  (t <= t0 + TICKET_TTL)%Z ->
  redeemed k (ops ++ [(t, ORedeem k)]) (issue t0 k caller s) = [(t, caller)].
Proof.
  intros Hops Ht. assert (Hk : issue t0 k caller s !! k = Some (mkEntry caller (t0 + TICKET_TTL))).
  { unfold issue. by rewrite lookup_insert_eq. }
  revert Hk. generalize (issue t0 k caller s). clear s.
  induction Hops as [|[t1 op] ops (Hi & Hr & Hle) _ IH]; intros s Hk.
  - simpl. unfold redeem. rewrite Hk. simpl. rewrite (proj2 (Z.ltb_ge _ _)) by lia.
    by rewrite decide_True.
  - simpl in Hle. pose proof (step_other t1 op s k Hi Hr) as Hs. rewrite Hk in Hs. simpl in Hs.
    cbn [app redeemed]. destruct (step t1 op s) as [r s']. simpl in Hs.
    rewrite IH.
    + destruct op, r; try done. rewrite decide_False; [done|]. unfold redeems in Hr. simpl in Hr. congruence.
    + destruct op as [k' c|k'|]; [done..|]. by rewrite decide_True in Hs by lia.
Qed.
Lemma ticket_honoured_witness :
  redeemed 7 ([(1%Z, OReap); (2%Z, OIssue 8 9); (3%Z, ORedeem 8)] ++ [(30 * SEC, ORedeem 7%N)]%Z)
    (issue 0 7 42 new) = [(30 * SEC, 42%N)]%Z.
Proof.
  apply (ticket_honoured new 0 7 42 [(1%Z, OReap); (2%Z, OIssue 8 9); (3%Z, ORedeem 8)] (30 * SEC));
    [|done].
  repeat constructor; try (by intros [c [=]]); unfold redeems, SEC; simpl; (done || lia).
Defined.
End RtTickets.

(** ** Proof replay *)
Module DpopReplay.
Section cache.
Context {Cache : forall (K : Type) {E : EqDecision K} {C : @Countable K E}, Type -> Type}.
#[local] Arguments Cache _ {_ _} _.
Context `{!Moka (@Cache)}.
Definition REPLAY_ENTRY_TTL : Z := 300 * SEC.
Definition DpopReplayCache : Type := Cache (str * str) unit.
Definition new : DpopReplayCache := cnew.
(** [entry(key).or_insert_with(..).is_fresh()], atomic in the crate. *)
Definition check_and_record (t : Z) (nonce jti : str) (seen : DpopReplayCache) : bool * DpopReplayCache :=
  match cget seen t (nonce, jti) with
  | Some _ => (false, seen)
  | None => (true, cinsert seen t REPLAY_ENTRY_TTL (nonce, jti) tt)
  end.
Fixpoint run (reqs : list (Z * (str * str))) (seen : DpopReplayCache) : list bool * DpopReplayCache :=
  match reqs with
  | [] => ([], seen)
  | (t, (nonce, jti)) :: rest =>
      let (b, seen1) := check_and_record t nonce jti seen in
      let (bs, seen2) := run rest seen1 in (b :: bs, seen2)
  end.
Fixpoint run_room (reqs : list (Z * (str * str))) (seen : DpopReplayCache) : Prop :=
  croom seen ∧ match reqs with
               | [] => True
               | (t, (nonce, jti)) :: rest => run_room rest (snd (check_and_record t nonce jti seen))
               end.

Lemma recorded_stays k t1 reqs : forall seen, run_room reqs seen ->
  Forall (fun r => (fst r <= t1)%Z) reqs -> cget seen t1 k = Some tt ->
  cget (snd (run reqs seen)) t1 k = Some tt.
Proof.
  induction reqs as [|[t [nonce jti]] reqs IH]; intros seen Hr Ht Hg; [done|].
  destruct Hr as [Hr Hrest]. apply Forall_cons_1 in Ht as [Ht Hts]. simpl in Ht. cbn [run].
  assert (Hnext : cget (snd (check_and_record t nonce jti seen)) t1 k = Some tt).
  { unfold check_and_record. destruct (cget seen t (nonce, jti)) eqn:E; [done|]. simpl.
    rewrite croom_insert_ne; [done|done|]. intros <-.
    by rewrite (cget_mono _ t t1 _ _ Ht Hg) in E. }
  specialize (IH _ Hrest Hts Hnext). destruct (check_and_record t nonce jti seen) as [b seen1].
  simpl in *. by destruct (run reqs seen1).
Qed.

(** A proof is accepted once.  After a proof is accepted, the same pair of nonce and identifier
    is refused for the five minutes its nonce can live, whatever other proofs are recorded in
    between; a pair that was never recorded is accepted, also when only the nonce differs. *)
Theorem proof_accepted_once seen t nonce jti reqs t' seen1 :
  croom seen -> check_and_record t nonce jti seen = (true, seen1) ->
  run_room reqs seen1 -> Forall (fun r => (fst r <= t')%Z) reqs -> (t <= t' < t + REPLAY_ENTRY_TTL)%Z ->
  fst (check_and_record t' nonce jti (snd (run reqs seen1))) = false
  ∧ (forall nonce' , nonce' ≠ nonce -> cget seen t' (nonce', jti) = None ->
       fst (check_and_record t' nonce' jti seen1) = true).
Proof.
  intros Hr Hc Hrooms Hts Ht. unfold check_and_record in Hc.
  destruct (cget seen t (nonce, jti)); [done|]. injection Hc as <-. split.
  - unfold check_and_record.
    rewrite (recorded_stays (nonce, jti) t' reqs _ Hrooms Hts); [done|].
    by apply croom_insert_eq.
  - intros nonce' Hne Hn. unfold check_and_record.
    rewrite croom_insert_ne; [by rewrite Hn|done|congruence].
Qed.
End cache.
Lemma proof_accepted_once_witness :
  fst (check_and_record 10 (lit "n") (lit "j")
    (snd (run [(5%Z, (lit "m", lit "j"))]
       (snd (check_and_record 0 (lit "n") (lit "j") (new (Cache:=@TtlMap))))))) = false.
Proof.
  apply (proof_accepted_once (new (Cache:=@TtlMap)) 0 (lit "n") (lit "j") [(5%Z, (lit "m", lit "j"))] 10
    (snd (check_and_record 0 (lit "n") (lit "j") (new (Cache:=@TtlMap)))));
    [apply croom_new|by vm_compute|by repeat split|by repeat constructor; simpl; lia
    |unfold REPLAY_ENTRY_TTL, SEC; lia].
Defined.
End DpopReplay.

(** ** Witnesses of the lockout claims *)
Module LockoutDemo.
Definition lower : Lowercase := ascii_lowercase.
#[export] Existing Instance lower.
Definition svc : LoginLockout.LoginLockoutService (Cache:=@TtlMap) := LoginLockout.new 3 900.
End LockoutDemo.
Import LockoutDemo.
Lemma lockout_counts_failures_witness :
  LoginLockout.check 40 (lit "Ann") (lit "10.0.0.1")
    (LoginLockout.failures [10; 20; 30]%Z (lit "ann") (lit "10.0.0.1") svc) = Err 900%Z.
Proof.
  destruct (LoginLockout.lockout_counts_failures svc (lit "ann") (lit "10.0.0.1") 10 [20; 30]%Z 40)
    as (H & _); [done|done|done|intros; apply cget_new|by repeat split|by repeat split|done|].
  change (LoginLockout.check 40 (lit "Ann") (lit "10.0.0.1"))
    with (LoginLockout.check (Cache:=@TtlMap) 40 (lit "ann") (lit "10.0.0.1")).
  rewrite H. by vm_compute.
Defined.
Lemma simultaneous_failures_counted_once_witness :
  LoginLockout.check 0 (lit "ann") (lit "::1")
    (LoginLockout.mkLockout (cinsert (LoginLockout.cache (snd (LoginLockout.record_failure 0 0 (lit "ann")
        (lit "::1") (LoginLockout.new (Cache:=@TtlMap) 2 900)))) 0 (900 * SEC)
        (LoginLockout.key (lit "ann") (lit "::1")) 1%Z) 2 900) = Ok tt.
Proof.
  destruct (LoginLockout.simultaneous_failures_counted_once (LoginLockout.new (Cache:=@TtlMap) 2 900)
    (lit "ann") (lit "::1") 0) as (_ & _ & H); [apply croom_new|done|done|apply cget_new|done|].
  exact H.
Defined.
