(* ===== verification/DriveMembers.v ===== *)
(** * Drive membership

    [src/src/application/services/drive_management_service.rs]: the membership operations of a
    shared drive with their guards (personal drive, external sharing, owner lock, last owner),
    and the handler [revoke_grant] of [src/src/interfaces/api/handlers/grant_handler.rs], which
    removes a grant by its identifier.  They run on the engine of [AclEngine].  The readable-drives
    cache of the drive repository, the audit lines and the message-bus event are left out. *)

From stdpp Require Import sorting.
From S2P Require Import Prelude.
From S2P Require Import RustStr.
From S2P Require Import DomainErrors.
From S2P Require Import HttpErrors.
From S2P Require Import Authorization.
From S2P Require Import DrivePolicies.
From S2P Require Import Moka.
From S2P Require Import AclDb.
From S2P Require Import AuthzPort.
From S2P Require Import AclEngine.
From S2P Require Import AclSpec.
From S2P Require Import AclTheorems.
From S2P Require Import AclWrites.

Section service.
Context {Cache : forall (K : Type) {E : EqDecision K} {C : @Countable K E}, Type -> Type}.
#[local] Arguments Cache _ {_ _} _.
Context `{!Moka (@Cache)} `{PolicyCodec} `{UuidText}.
Local Abbreviation AM := (AM (Cache:=@Cache)).
Local Abbreviation Engine := (Engine (Cache:=@Cache)).

(** ** Reading the grants of a resource *)
(** [ORDER BY role ASC, granted_at DESC] *)
Definition grant_order (g g' : Grant) : Prop :=
  (grant_role_ord (g_role g) < grant_role_ord (g_role g'))%nat
  ∨ grant_role_ord (g_role g) = grant_role_ord (g_role g') ∧ (g_granted_at g' <= g_granted_at g)%Z.
#[export] Instance grant_order_dec : RelDecision grant_order.
Proof. intros g g'. unfold grant_order. apply _. Defined.
Definition sql_grants_on (r : Resource) (db : Db) : list grant_row :=
  take (Z.to_nat (MAX_GRANT_ROWS + 1))
    (grant_to_row <$> merge_sort grant_order
       (filter (fun g => resource_is (Resource.type_str r) (Resource.id r) g = true) (role_grants db))).
Fixpoint collect_rows (rows : list grant_row) : result DomainError (list Grant) :=
  match rows with
  | [] => Ok []
  | row :: rest => g ← row_to_grant row; gs ← collect_rows rest; Ok (g :: gs)
  end.
Definition list_grants_on_resource (r : Resource) : AM (list Grant) :=
  rows ← sql (pg_err (lit "list on resource")) (fun db _ => sql_grants_on r db);
  _ ← lift (guard_grant_row_cap (Z.of_nat (length rows)) (lit "list_grants_on_resource"));
  lift (collect_rows rows).

(** [drive_repo.get_by_id]: the kind and the typed policies of a drive. *)
Definition get_drive (drive_id : Uuid) : AM (DriveKind * DrivePolicies) :=
  row ← sql (fun txt => DomainError.internal_error (lit "Drive") (lit "Failed to fetch drive: " ++ txt))
          (fun db _ => match drives db !! drive_id, sql_effective_policies db drive_id with
                       | Some (k, _), Some v => Some (k, policies_from_value v)
                       | _, _ => None
                       end);
  lift (ok_or row (DomainError.internal_error (lit "Drive")
                     (lit "Failed to fetch drive: NotFound(" ++ uuid_to_string drive_id ++ lit ")"))).

(** ** The guards *)
Definition refuse_if_personal (drive_id : Uuid) : AM unit :=
  '(k, _) ← get_drive drive_id;
  match k with
  | Personal => raise (DomainError.operation_not_supported (lit "Drive")
      (lit "Personal drives have a fixed single-owner membership and cannot be modified."))
  | Shared => mret tt
  end.
Definition refuse_if_forbid_external_sharing (drive_id : Uuid) (subject : Subject) : AM unit :=
  match subject with
  | User uid =>
      '(_, policies) ← get_drive drive_id;
      if negb (forbid_external_sharing policies) then mret tt
      else
        flags ← sql (fun txt => DomainError.internal_error (lit "User") (lit "flags lookup: " ++ txt))
                  (fun db _ => users_external db !! uid);
        is_external ← lift (ok_or flags (DomainError.internal_error (lit "User")
                              (lit "flags lookup: NotFound(" ++ uuid_to_string uid ++ lit ")")));
        lift (refuse_external_sharing policies subject is_external)
  | _ => mret tt
  end.
Definition is_owner_grant (subject : Subject) (g : Grant) : bool :=
  bool_decide (g_subject g = subject) && bool_decide (g_role g = Owner).
Definition refuse_if_forbid_owner_role_change (drive_id : Uuid) (subject : Subject)
    (new_role : option Role) (caller_is_admin : bool) : AM unit :=
  if caller_is_admin then mret tt
  else
    '(_, policies) ← get_drive drive_id;
    if negb (forbid_owner_role_change policies) then mret tt
    else
      touches_owner ←
        (if decide (new_role = Some Owner) then mret true
         else grants ← list_grants_on_resource (Drive drive_id);
              mret (existsb (is_owner_grant subject) grants));
      if negb touches_owner then mret tt
      else lift (refuse_owner_role_change policies caller_is_admin).
Definition last_owner_message : str :=
  lit "A shared drive must keep at least one Owner — promote another member to Owner first, or delete the drive.".
Definition refuse_if_last_owner_change (drive_id : Uuid) (subject : Subject) : AM unit :=
  grants ← list_grants_on_resource (Drive drive_id);
  if negb (existsb (is_owner_grant subject) grants) then mret tt
  else if (length (filter (fun g => g_role g = Owner) grants) <=? 1)%nat
  then raise (DomainError.validation_error last_owner_message)
  else mret tt.

(** ** The operations *)
Definition require_manage (caller_id : Uuid) (caller_is_admin : bool) (drive_id : Uuid) : AM unit :=
  if caller_is_admin then mret tt else require (User caller_id) Manage (Drive drive_id).
Definition set_member_role (fresh caller_id : Uuid) (caller_is_admin : bool) (drive_id : Uuid)
    (subject : Subject) (role : Role) (expires_at : option Z) : AM Grant :=
  _ ← require_manage caller_id caller_is_admin drive_id;
  _ ← refuse_if_personal drive_id;
  _ ← refuse_if_forbid_external_sharing drive_id subject;
  _ ← refuse_if_forbid_owner_role_change drive_id subject (Some role) caller_is_admin;
  _ ← (if decide (role = Owner) then mret tt else refuse_if_last_owner_change drive_id subject);
  grant ← set_role fresh caller_id subject role (Drive drive_id) expires_at;
  _ ← modify (invalidate_drive_role_cache_for_drive drive_id);
  mret grant.
Definition remove_member (caller_id : Uuid) (caller_is_admin : bool) (drive_id : Uuid)
    (subject : Subject) : AM unit :=
  _ ← require_manage caller_id caller_is_admin drive_id;
  _ ← refuse_if_personal drive_id;
  _ ← refuse_if_forbid_owner_role_change drive_id subject None caller_is_admin;
  _ ← refuse_if_last_owner_change drive_id subject;
  _ ← clear_role subject (Drive drive_id);
  modify (invalidate_drive_role_cache_for_drive drive_id).

(** [DELETE /api/grants/{id}]: the status of the response. *)
Definition revoke_grant (caller_id : Uuid) (id : str) : M Engine AppError StatusCode :=
  match uuid_parse id with
  | None => raise (AppError.not_found (lit "Grant " ++ id ++ lit " not found"))
  | Some grant_id =>
      map_err_m AppError.from
        (found ← find_grant_full_by_id grant_id;
         match found with
         | None => mret StatusCode.NO_CONTENT
         | Some (subject, resource, granter) =>
             _ ← match resource with
                 | Drive drive_id =>
                     _ ← revoke grant_id;
                     remove_member caller_id false drive_id subject
                 | _ =>
                     _ ← (if decide (granter = caller_id) then mret tt
                          else require (User caller_id) Share resource);
                     _ ← revoke grant_id;
                     clear_role subject resource
                 end;
             mret StatusCode.NO_CONTENT
         end)
  end.
End service.

(** ** Reads *)
Section reads.
Context {Cache : forall (K : Type) {E : EqDecision K} {C : @Countable K E}, Type -> Type}.
#[local] Arguments Cache _ {_ _} _.
Context `{!Moka (@Cache)} `{PolicyCodec} `{UuidText}.
Local Abbreviation AM := (AM (Cache:=@Cache)).
Local Abbreviation Engine := (Engine (Cache:=@Cache)).
Implicit Types (w : World) (e : Engine) (s : Subject) (r : Resource).

(** A computation that only reads: it keeps the world and coherence, and a success [x]
    satisfies [P]. *)
Definition reads w {T} (m : AM T) (P : T -> Prop) : Prop :=
  forall e res e', world e = w -> coherent e -> m e = (res, e') ->
    world e' = w ∧ coherent e' ∧ forall x, res = Ok x -> P x.

Lemma reads_answers w {T} (m : AM T) v :
  answers w m v -> reads w m (fun x => v = Ok x).
Proof.
  intros Ha e res e' Hw Hc Hm. destruct (Ha e Hw Hc) as (res1 & e1 & Hm1 & Hw1 & Hc1 & _ & Hr).
  rewrite Hm in Hm1. injection Hm1 as <- <-. split_and!; [done|done|].
  intros x ->. destruct Hr as [Hr|[(err & [=] & _) _]]. done.
Qed.
Lemma reads_weaken w {T} (m : AM T) (P Q : T -> Prop) :
  reads w m P -> (forall x, P x -> Q x) -> reads w m Q.
Proof. intros Hm HPQ e res e' Hw Hc He. destruct (Hm e res e' Hw Hc He) as (? & ? & ?). auto. Qed.
Lemma reads_ret w {T} (x : T) (P : T -> Prop) : P x -> reads w (mret x) P.
Proof. intros HP e res e' Hw Hc [= <- <-]. split_and!; [done|done|]. by intros y [= <-]. Qed.
Lemma reads_raise w {T} err (P : T -> Prop) : reads w (raise err) P.
Proof. intros e res e' Hw Hc [= <- <-]. by split_and!. Qed.
Lemma reads_lift w {T} (v : result DomainError T) : reads w (lift v) (fun x => v = Ok x).
Proof. intros e res e' Hw Hc [= <- <-]. by split_and!. Qed.
Lemma reads_bind w {A B} (m : AM A) (f : A -> AM B) (P : A -> Prop) (Q : B -> Prop) :
  reads w m P -> (forall x, P x -> reads w (f x) Q) -> reads w (m ≫= f) Q.
Proof.
  intros Hm Hf e res e' Hw Hc He. apply bind_inv in He as [(v & e1 & H1 & H2)|(err & H1 & ->)].
  - destruct (Hm _ _ _ Hw Hc H1) as (Hw1 & Hc1 & HP). by apply (Hf v (HP v eq_refl) e1).
  - by destruct (Hm _ _ _ Hw Hc H1) as (? & ? & _).
Qed.
Lemma reads_sql w {T} on_error (q : Db -> Z -> T) :
  reads w (sql on_error q) (fun x => x = q (w_db w) (w_now w)).
Proof.
  intros e res e' <- Hc He. unfold sql, now in He.
  destruct (faults e) as [|[txt|] fs]; injection He as <- <-; split_and!; try done; try by destruct Hc.
  - by intros x [= <-].
  - by intros x [= <-].
Qed.
Lemma reads_check w s p r : reads w (az_check s p r : AM bool) (fun b => b = decision w s p r).
Proof.
  eapply reads_weaken; [apply reads_answers, check_inner_answers|]. simpl. by intros x [= <-].
Qed.
Lemma reads_attempt w {A} (m : AM A) P : reads w m P -> reads w (attempt m) (fun _ => True).
Proof.
  intros Hm e res e' Hw Hc He. unfold attempt in He. destruct (m e) as [r1 e1] eqn:E.
  injection He as <- <-. destruct (Hm _ _ _ Hw Hc E) as (? & ? & _). by split_and!.
Qed.
Lemma reads_require w s p r : reads w (require s p r : AM unit) (fun _ => decision w s p r = true).
Proof.
  unfold require. eapply reads_bind; [apply reads_check|]. intros b ->.
  destruct (decision w s p r); [by apply reads_ret|].
  eapply (reads_bind _ _ _ (fun _ => True)); [|intros; apply reads_raise].
  case_decide; [by apply reads_ret|].
  eapply reads_bind; [eapply reads_attempt, reads_check|]. intros. by apply reads_ret.
Qed.

(** ** The guards *)
Definition rows_on r (db : Db) : list Grant := filter (fun g => g_resource g = r) (role_grants db).
Definition owner_rows (d : Uuid) (db : Db) : list Grant :=
  filter (fun g => g_role g = Owner) (rows_on (Drive d) db).

Lemma collect_rows_grants gs : collect_rows (grant_to_row <$> gs) = Ok gs.
Proof.
  induction gs as [|g gs IH]; [done|]. rewrite fmap_cons. cbn [collect_rows].
  rewrite row_to_grant_roundtrip. simpl. by rewrite IH.
Qed.
Lemma reads_list_grants w r :
  reads w (list_grants_on_resource r) (fun gs => gs ≡ₚ rows_on r (w_db w)).
Proof.
  unfold list_grants_on_resource. eapply reads_bind; [apply reads_sql|]. intros rows ->.
  eapply reads_bind; [apply reads_lift|]. simpl. intros u Hcap.
  eapply reads_weaken; [apply reads_lift|]. simpl. intros gs Hgs. unfold sql_grants_on in *.
  set (sorted := merge_sort grant_order _) in *.
  assert (Hlen : (length sorted <= Z.to_nat (MAX_GRANT_ROWS + 1))%nat).
  { unfold guard_grant_row_cap in Hcap. destruct (Z.ltb_spec MAX_GRANT_ROWS
      (Z.of_nat (length (take (Z.to_nat (MAX_GRANT_ROWS + 1)) (grant_to_row <$> sorted))))) as [|Hl];
      [done|]. rewrite length_take, length_fmap in Hl.
    unfold MAX_GRANT_ROWS in *. lia. }
  rewrite take_ge in Hgs by (rewrite length_fmap; lia). rewrite collect_rows_grants in Hgs.
  injection Hgs as <-. unfold sorted. rewrite merge_sort_Permutation.
  unfold rows_on. erewrite list_filter_iff; [done|]. intros g. simpl. by rewrite resource_is_eq.
Qed.
Lemma reads_get_drive w d :
  reads w (get_drive d) (fun kp => exists bag, drives (w_db w) !! d = Some (fst kp, bag)).
Proof.
  unfold get_drive. eapply reads_bind; [apply reads_sql|]. intros row ->.
  eapply reads_weaken; [apply reads_lift|]. simpl. intros [k p] Hk.
  destruct (drives (w_db w) !! d) as [[k' bag]|]; [|done].
  destruct (sql_effective_policies (w_db w) d); [|done]. injection Hk as <- <-. by exists bag.
Qed.
Lemma reads_not_personal w d :
  reads w (refuse_if_personal d) (fun _ => exists bag, drives (w_db w) !! d = Some (Shared, bag)).
Proof.
  unfold refuse_if_personal. eapply reads_bind; [apply reads_get_drive|].
  intros [[] p] Hk; [apply reads_raise|by apply reads_ret].
Qed.
Lemma reads_external w d s : reads w (refuse_if_forbid_external_sharing d s) (fun _ => True).
Proof.
  unfold refuse_if_forbid_external_sharing. destruct s as [u|u|u]; [|by apply reads_ret..].
  eapply reads_bind; [apply reads_get_drive|]. intros [k p] _.
  destruct (negb _); [by apply reads_ret|].
  eapply reads_bind; [apply reads_sql|]. intros flags _.
  eapply reads_bind; [apply reads_lift|]. intros b _.
  eapply reads_weaken; [apply reads_lift|done].
Qed.
Lemma reads_owner_change w d s ro adm :
  reads w (refuse_if_forbid_owner_role_change d s ro adm) (fun _ => True).
Proof.
  unfold refuse_if_forbid_owner_role_change. destruct adm; [by apply reads_ret|].
  eapply reads_bind; [apply reads_get_drive|]. intros [k p] _.
  destruct (negb (forbid_owner_role_change p)); [by apply reads_ret|].
  eapply (reads_bind _ _ _ (fun _ => True)).
  - case_decide; [by apply reads_ret|].
    eapply reads_bind; [apply reads_list_grants|]. intros gs _. by apply reads_ret.
  - intros b _. destruct (negb b); [by apply reads_ret|].
    eapply reads_weaken; [apply reads_lift|done].
Qed.
(** What the last-owner guard lets through. *)
Definition keeps_owner (db : Db) (d : Uuid) (s : Subject) : Prop :=
  (forall g, g ∈ owner_rows d db -> g_subject g ≠ s) ∨ (2 <= length (owner_rows d db))%nat.
Lemma reads_last_owner w d s :
  reads w (refuse_if_last_owner_change d s) (fun _ => keeps_owner (w_db w) d s).
Proof.
  unfold refuse_if_last_owner_change. eapply reads_bind; [apply reads_list_grants|].
  intros gs Hgs. unfold keeps_owner, owner_rows.
  destruct (existsb (is_owner_grant s) gs) eqn:Ex; simpl.
  - destruct (Nat.leb_spec (length (filter (fun g => g_role g = Owner) gs)) 1); [apply reads_raise|].
    apply reads_ret. right. rewrite <- Hgs. lia.
  - apply reads_ret. left. rewrite existsb_false in Ex. intros g [Ho Hg]%list_elem_of_filter Hs.
    rewrite <- Hgs in Hg. specialize (Ex g Hg). unfold is_owner_grant in Ex.
    by rewrite !bool_decide_eq_true_2 in Ex.
Qed.
Lemma reads_require_manage w c adm d :
  reads w (require_manage c adm d) (fun _ => adm = true ∨ decision w (User c) Manage (Drive d) = true).
Proof.
  unfold require_manage. destruct adm; [apply reads_ret; by left|].
  eapply reads_weaken; [apply reads_require|]. simpl. auto.
Qed.
End reads.

(** ** The writes *)
Section members.
Context {Cache : forall (K : Type) {E : EqDecision K} {C : @Countable K E}, Type -> Type}.
#[local] Arguments Cache _ {_ _} _.
Context `{!Moka (@Cache)} `{PolicyCodec} `{UuidText}.
Local Abbreviation AM := (AM (Cache:=@Cache)).
Local Abbreviation Engine := (Engine (Cache:=@Cache)).
Implicit Types (w : World) (e : Engine) (s : Subject) (r : Resource).

(** The unique index on (subject, resource). *)
Definition grant_key (g : Grant) : Subject * Resource := (g_subject g, g_resource g).
Definition unique_keys (gs : list Grant) : Prop := NoDup (grant_key <$> gs).
Definition has_owner (d : Uuid) (gs : list Grant) : Prop :=
  exists g, g ∈ gs ∧ g_resource g = Drive d ∧ g_role g = Owner.

Lemma same_key_eq s r g : same_key s r g = true <-> grant_key g = (s, r).
Proof.
  unfold same_key, grant_key. rewrite andb_true_iff, !bool_decide_eq_true.
  split; [by intros [-> ->]|by intros [= -> ->]].
Qed.
Lemma unique_key_eq gs g g' :
  unique_keys gs -> g ∈ gs -> g' ∈ gs -> grant_key g = grant_key g' -> g = g'.
Proof.
  intros Hu Hg Hg' Heq. apply list_elem_of_lookup in Hg as [i Hi], Hg' as [j Hj].
  assert (i = j) as ->.
  { eapply list.NoDup_lookup; [exact Hu| |].
    - rewrite list_lookup_fmap, Hi. done.
    - rewrite list_lookup_fmap, Hj. simpl. by rewrite Heq. }
  congruence.
Qed.
(** Two owner rows have different subjects. *)
Lemma other_owner db d s :
  unique_keys (role_grants db) -> has_owner d (role_grants db) -> keeps_owner db d s ->
  exists g, g ∈ role_grants db ∧ g_resource g = Drive d ∧ g_role g = Owner ∧ g_subject g ≠ s.
Proof.
  intros Hu (g & Hg & Hr & Ho) Hk.
  assert (Hrow : forall x, x ∈ owner_rows d db ->
    x ∈ role_grants db ∧ g_resource x = Drive d ∧ g_role x = Owner).
  { intros x. unfold owner_rows, rows_on. rewrite !list_elem_of_filter. tauto. }
  assert (Hin : g ∈ owner_rows d db).
  { unfold owner_rows, rows_on. rewrite !list_elem_of_filter. done. }
  destruct Hk as [Hk|Hk]; [exists g; auto|].
  destruct (owner_rows d db) as [|a [|b l]] eqn:El; simpl in Hk; [lia|lia|].
  destruct (Hrow a ltac:(by left)) as (Ha1 & Ha2 & Ha3).
  destruct (Hrow b ltac:(by right; left)) as (Hb1 & Hb2 & Hb3).
  destruct (decide (g_subject a = s)) as [Hsa|]; [|exists a; auto].
  destruct (decide (g_subject b = s)) as [Hsb|]; [|exists b; auto]. exfalso.
  assert (a = b) as ->.
  { eapply unique_key_eq; eauto. unfold grant_key. congruence. }
  assert (Hnd : NoDup (owner_rows d db)).
  { unfold owner_rows, rows_on. do 2 apply list.NoDup_filter. by eapply list.NoDup_fmap_1. }
  rewrite El in Hnd. apply list.NoDup_cons in Hnd as [Hn _]. apply Hn. by left.
Qed.

(** The rows after a delete or an upsert of one pair. *)
Lemma delete_rows s r db t g :
  g ∈ fst (sql_delete (fun _ => same_key s r) db t) <-> g ∈ role_grants db ∧ grant_key g ≠ (s, r).
Proof.
  unfold sql_delete. simpl. rewrite list_elem_of_filter, <- same_key_eq.
  destruct (same_key s r g); naive_solver.
Qed.
Lemma upsert_keeps fresh by_ s ro r ex db t g :
  g ∈ role_grants db -> grant_key g ≠ (s, r) -> g ∈ fst (sql_upsert_grant fresh by_ s ro r ex db t).
Proof.
  intros Hg Hk. unfold sql_upsert_grant. destruct (find _ (role_grants db)); simpl.
  - apply list_elem_of_fmap. exists g. split; [|done].
    destruct (same_key s r g) eqn:E; [by apply same_key_eq in E|done].
  - apply elem_of_app. by left.
Qed.
Lemma delete_unique s r db t :
  unique_keys (role_grants db) -> unique_keys (fst (sql_delete (fun _ => same_key s r) db t)).
Proof.
  unfold unique_keys, sql_delete. simpl. induction (role_grants db) as [|g gs IH]; [done|].
  rewrite fmap_cons, list.NoDup_cons. intros [Hn Hu]. rewrite filter_cons. case_decide; [|auto].
  rewrite fmap_cons, list.NoDup_cons. split; [|auto]. intros Hin. apply Hn.
  apply list_elem_of_fmap in Hin as (g' & Hk & Hin). apply list_elem_of_filter in Hin as [_ Hin].
  apply list_elem_of_fmap. eauto.
Qed.
Lemma upsert_unique fresh by_ s ro r ex db t :
  unique_keys (role_grants db) -> unique_keys (fst (sql_upsert_grant fresh by_ s ro r ex db t)).
Proof.
  unfold unique_keys, sql_upsert_grant. intros Hu.
  destruct (find (same_key s r) (role_grants db)) as [old|] eqn:Ef; simpl.
  - assert (Hk : grant_key <$> ((fun g => if same_key s r g
        then mkGrant (g_id old) s r ro by_ (g_granted_at old) ex else g) <$> role_grants db)
      = grant_key <$> role_grants db); [|by rewrite Hk].
    rewrite <- list_fmap_compose. apply list_fmap_ext. intros i g _. simpl.
    destruct (same_key s r g) eqn:E; [|done]. by apply same_key_eq in E as ->.
  - rewrite fmap_app. apply list.NoDup_app. split_and!; [done| |apply list.NoDup_singleton].
    intros k Hk Heq. apply list_elem_of_fmap in Hk as (g & -> & Hg).
    apply list_elem_of_singleton in Heq. assert (same_key s r g = true) as Hs by by apply same_key_eq.
    apply list_elem_of_In in Hg. by rewrite (find_none _ _ Ef g Hg) in Hs.
Qed.

(** What one statement on the grant table does to the engine. *)
Lemma sql_exec_cases {T} on_error (stmt : Db -> Z -> list Grant * T) e res e' :
  sql_exec on_error stmt e = (res, e') -> exists fs,
    (exists err, res = Err err ∧ e' = set_faults e fs)
    ∨ (exists v, res = Ok v ∧ stmt (w_db (world e)) (now e) = (role_grants (w_db (world e')), v)
         ∧ e' = set_grant_rows (set_faults e fs) (role_grants (w_db (world e')))).
Proof.
  unfold sql_exec. destruct (faults e) as [|[txt|] fs] eqn:Ef; intros Hx.
  - exists []. right. destruct (stmt _ _) as [gs v] eqn:Es. injection Hx as <- <-. exists v.
    split_and!; [done|done|]. unfold set_grant_rows. destruct e. simpl in *. by rewrite Ef.
  - exists fs. left. injection Hx as <- <-. eauto.
  - exists fs. right. change (world (set_faults e fs)) with (world e) in Hx.
    change (now (set_faults e fs)) with (now e) in Hx.
    destruct (stmt _ _) as [gs v] eqn:Es. injection Hx as <- <-. exists v.
    split_and!; [done|done|done].
Qed.
Lemma set_faults_coh e fs : coherent e -> coherent (set_faults e fs).
Proof. by destruct 1. Qed.
Lemma drive_invalidate_coh d e :
  coherent e -> coherent (invalidate_drive_role_cache_for_drive d e)
  ∧ world (invalidate_drive_role_cache_for_drive d e) = world e.
Proof.
  intros [? ? Hro ? ? ? ?]. split; [|done]. constructor; simpl; try assumption.
  eapply cache_ok_mono; [exact Hro| |by intros]. intros k v Hg. by apply cget_invalidate_if in Hg as [? _].
Qed.
Abbreviation rows e := (role_grants (w_db (world e))).
Lemma rows_invalidate r e : rows (invalidate_for_resource r e) = rows e.
Proof. by destruct r. Qed.
Lemma clear_role_rows s r e res e' :
  coherent e -> clear_role s r e = (res, e') ->
  coherent e' ∧ ((rows e' = rows e ∧ exists err, res = Err err)
                 ∨ rows e' = fst (sql_delete (fun _ => same_key s r) (w_db (world e)) (now e))).
Proof.
  intros Hc Hx. unfold clear_role in Hx. apply bind_inv in Hx as [(v & e1 & H1 & H2)|(err & H1 & ->)].
  - destruct (sql_exec_cases _ _ _ _ _ H1) as (fs & [(err & [=] & _)|(v' & _ & Hs & He)]).
    injection H2 as <- <-. rewrite rows_invalidate. rewrite Hs. split; [|by right].
    rewrite He. apply write_coherent; [|by apply set_faults_coh].
    change (rows (set_faults e fs)) with (rows e).
    pose proof (delete_other_rows r (fun _ => same_key s r) (w_db (world e)) (now e)) as Ho.
    rewrite Hs in Ho. apply Ho. intros g Hg%same_key_eq. by injection Hg.
  - destruct (sql_exec_cases _ _ _ _ _ H1) as (fs & [(err' & _ & ->)|(v' & [=] & _)]).
    split; [by apply set_faults_coh|]. left. eauto.
Qed.
Lemma set_role_rows fresh by_ s ro r ex e res e' :
  coherent e -> set_role fresh by_ s ro r ex e = (res, e') ->
  coherent e' ∧ (rows e' = rows e
                 ∨ rows e' = fst (sql_upsert_grant fresh by_ s ro r ex (w_db (world e)) (now e))).
Proof.
  intros Hc Hx. unfold set_role in Hx. apply bind_inv in Hx as [(v & e1 & H1 & H2)|(err & H1 & ->)].
  - destruct (sql_exec_cases _ _ _ _ _ H1) as (fs & [(err & [=] & _)|(v' & _ & Hs & He)]).
    apply bind_inv in H2 as [(u & e2 & H2 & H3)|(err & [=] & _)].
    injection H2 as <- <-. injection H3 as <- <-. rewrite rows_invalidate, Hs. split; [|by right].
    rewrite He. apply write_coherent; [|by apply set_faults_coh].
    change (rows (set_faults e fs)) with (rows e).
    pose proof (upsert_other_rows fresh by_ s ro r ex (w_db (world e)) (now e)) as Ho.
    by rewrite Hs in Ho.
  - destruct (sql_exec_cases _ _ _ _ _ H1) as (fs & [(err' & _ & ->)|(v' & [=] & _)]).
    split; [by apply set_faults_coh|]. by left.
Qed.

(** A membership request. *)
Inductive MemberOp :=
| SetMember (fresh : Uuid) (s : Subject) (ro : Role) (ex : option Z)
| RemoveMember (s : Subject).
Definition member_op (caller : Uuid) (admin : bool) (d : Uuid) (op : MemberOp) : AM unit :=
  match op with
  | SetMember fresh s ro ex => _ ← set_member_role fresh caller admin d s ro ex; mret tt
  | RemoveMember s => remove_member caller admin d s
  end.
(** The effect of the request on the table, when it has one. *)
Definition member_effect (caller : Uuid) (d : Uuid) (op : MemberOp) (db : Db) (t : Z) : list Grant :=
  match op with
  | SetMember fresh s ro ex => fst (sql_upsert_grant fresh caller s ro (Drive d) ex db t)
  | RemoveMember s => fst (sql_delete (fun _ => same_key s (Drive d)) db t)
  end.
Definition authorised w (caller : Uuid) (admin : bool) (d : Uuid) : Prop :=
  (admin = true ∨ decision w (User caller) Manage (Drive d) = true)
  ∧ exists bag, drives (w_db w) !! d = Some (Shared, bag).
(** The guard the request passed. *)
Definition owner_guard w (d : Uuid) (op : MemberOp) : Prop :=
  match op with
  | SetMember _ s ro _ => ro = Owner ∨ keeps_owner (w_db w) d s
  | RemoveMember s => keeps_owner (w_db w) d s
  end.

(** A run that either leaves the world alone or ends in [Q]. *)
Definition leads w {T} (m : AM T) (Q : Engine -> Prop) : Prop :=
  forall e res e', world e = w -> coherent e -> m e = (res, e') ->
    (world e' = w ∧ coherent e') ∨ Q e'.
Lemma leads_read w {A B} (m : AM A) (f : A -> AM B) P Q :
  reads w m P -> (forall x, P x -> leads w (f x) Q) -> leads w (m ≫= f) Q.
Proof.
  intros Hm Hf e res e' Hw Hc He. apply bind_inv in He as [(v & e1 & H1 & H2)|(err & H1 & ->)].
  - destruct (Hm _ _ _ Hw Hc H1) as (Hw1 & Hc1 & HP). by eapply Hf; eauto.
  - left. by destruct (Hm _ _ _ Hw Hc H1) as (Hw1 & Hc1 & _).
Qed.
Lemma leads_done w {A B} (m : AM A) (x : B) Q : leads w m Q -> leads w (m ≫= fun _ => mret x) Q.
Proof.
  intros Hm e res e' Hw Hc He. apply bind_inv in He as [(v & e1 & H1 & [= <- <-])|(err & H1 & ->)];
    by eapply Hm.
Qed.

Definition member_outcome w (caller : Uuid) (admin : bool) (d : Uuid) (op : MemberOp) e' : Prop :=
  authorised w caller admin d ∧ owner_guard w d op ∧ coherent e'
  ∧ (rows e' = role_grants (w_db w) ∨ rows e' = member_effect caller d op (w_db w) (w_now w)).

Lemma set_member_leads w caller admin d fr s ro ex :
  leads w (set_member_role fr caller admin d s ro ex) (member_outcome w caller admin d (SetMember fr s ro ex)).
Proof.
  unfold set_member_role. eapply leads_read; [apply reads_require_manage|]. intros ? Hm.
  eapply leads_read; [apply reads_not_personal|]. intros ? Hk.
  eapply leads_read; [apply reads_external|]. intros ? _.
  eapply leads_read; [apply reads_owner_change|]. intros ? _.
  eapply (leads_read _ _ _ (fun _ => owner_guard w d (SetMember fr s ro ex))).
  { case_decide; [apply reads_ret; by left|].
    eapply reads_weaken; [apply reads_last_owner|]. simpl. auto. }
  intros ? Hg e res e' Hw Hc He. right. split; [by split|]. split; [done|].
  apply bind_inv in He as [(g & e1 & H1 & H2)|(err & H1 & ->)].
  - destruct (set_role_rows _ _ _ _ _ _ _ _ _ Hc H1) as [Hc1 Hr]. injection H2 as <- <-.
    destruct (drive_invalidate_coh d e1 Hc1) as [Hc2 Hw2]. subst w. by rewrite Hw2.
  - destruct (set_role_rows _ _ _ _ _ _ _ _ _ Hc H1) as [Hc1 Hr]. by subst w.
Qed.
Lemma remove_member_leads w caller admin d s :
  leads w (remove_member caller admin d s) (member_outcome w caller admin d (RemoveMember s)).
Proof.
  unfold remove_member. eapply leads_read; [apply reads_require_manage|]. intros ? Hm.
  eapply leads_read; [apply reads_not_personal|]. intros ? Hk.
  eapply leads_read; [apply reads_owner_change|]. intros ? _.
  eapply leads_read; [apply reads_last_owner|].
  intros ? Hg e res e' Hw Hc He. right. split; [by split|]. split; [done|].
  apply bind_inv in He as [(g & e1 & H1 & H2)|(err & H1 & ->)].
  - destruct (clear_role_rows _ _ _ _ _ Hc H1) as [Hc1 Hr]. injection H2 as <- <-.
    destruct (drive_invalidate_coh d e1 Hc1) as [Hc2 Hw2]. subst w. rewrite Hw2.
    split; [done|]. destruct Hr as [[? _]|?]; auto.
  - destruct (clear_role_rows _ _ _ _ _ Hc H1) as [Hc1 Hr]. subst w.
    split; [done|]. destruct Hr as [[? _]|?]; auto.
Qed.
Lemma member_op_leads w caller admin d op :
  leads w (member_op caller admin d op) (member_outcome w caller admin d op).
Proof.
  destruct op; [apply leads_done, set_member_leads|apply remove_member_leads].
Qed.

(** The effect of a guarded request keeps an owner and the unique index. *)
Lemma member_effect_keeps w caller d op t :
  unique_keys (role_grants (w_db w)) -> owner_guard w d op ->
  unique_keys (member_effect caller d op (w_db w) t)
  ∧ (has_owner d (role_grants (w_db w)) -> has_owner d (member_effect caller d op (w_db w) t)).
Proof.
  intros Hu Hg. destruct op as [fr s ro ex|s]; cbn [member_effect owner_guard] in *.
  - split; [by apply upsert_unique|]. intros Ho. destruct Hg as [->|Hk].
    + pose proof (upsert_row fr caller s Owner (Drive d) ex (w_db w) t) as Hrow.
      destruct (sql_upsert_grant _ _ _ _ _ _ _ _) as [gs row].
      destruct Hrow as (g & _ & Hin & _ & Hr & Hro & _). by exists g.
    + destruct (other_owner (w_db w) d s Hu Ho Hk) as (g & Hin & Hr & Hro & Hs).
      exists g. split; [|done]. apply upsert_keeps; [done|]. unfold grant_key. naive_solver.
  - split; [by apply delete_unique|]. intros Ho.
    destruct (other_owner (w_db w) d s Hu Ho Hg) as (g & Hin & Hr & Hro & Hs).
    exists g. split; [|done]. apply delete_rows. split; [done|]. unfold grant_key. naive_solver.
Qed.

(** A shared drive keeps an owner.  Whatever a membership request asks for, whoever sends it,
    administrators included, and whatever queries fail on the way, a drive that has an owner row
    still has one; the table changes only for an administrator or a caller who may manage the
    drive, only on a shared drive, and then exactly by the requested write; the unique index
    survives and the engine's caches still agree with the tables. *)
Theorem membership_keeps_owner e caller admin d op res e' :
  coherent e -> unique_keys (role_grants (w_db (world e))) ->
  member_op caller admin d op e = (res, e') ->
  (has_owner d (role_grants (w_db (world e))) -> has_owner d (role_grants (w_db (world e'))))
  ∧ unique_keys (role_grants (w_db (world e'))) ∧ coherent e'
  ∧ (role_grants (w_db (world e')) ≠ role_grants (w_db (world e)) ->
       authorised (world e) caller admin d
       ∧ role_grants (w_db (world e')) = member_effect caller d op (w_db (world e)) (now e)).
Proof.
  intros Hc Hu Hx. destruct (member_op_leads (world e) caller admin d op e res e' eq_refl Hc Hx)
    as [[Hw Hc']|(Ha & Hg & Hc' & Hr)].
  - by rewrite Hw.
  - destruct (member_effect_keeps (world e) caller d op (w_now (world e)) Hu Hg) as [Hu' Ho'].
    destruct Hr as [Hr|Hr]; rewrite Hr; split_and!; auto; done.
Qed.
End members.

(** ** Concrete engines

    Drive 400 is shared; user 31 owns it.  In [stale_db] user 32 owned it too, until instant 50. *)
Module MemberDemo.
Definition uuid_text : UuidText := decimal_uuid_text.
Definition codec : PolicyCodec := strict_codec.
#[export] Existing Instances uuid_text codec.
Definition demo_db (gs : list Grant) : Db := {|
  role_grants := gs; folders := ∅; files := ∅;
  users_external := <[31%N := false]> (<[32%N := false]> (<[33%N := false]> ∅));
  group_members := []; drives := <[400%N := (Shared, ∅)]> ∅; policy_defaults := fun _ => None;
|}.
Definition engine_of (db : Db) : Engine (Cache:=@TtlMap) :=
  mkEngine (mkWorld db 100 false true) [] cnew cnew cnew cnew cnew cnew cnew.
Definition owned : Engine (Cache:=@TtlMap) :=
  engine_of (demo_db [mkGrant 11 (User 31) (Drive 400) Owner 31 0 None;
                      mkGrant 12 (User 32) (Drive 400) Viewer 31 0 None]).
Definition stale : Engine (Cache:=@TtlMap) :=
  engine_of (demo_db [mkGrant 11 (User 31) (Drive 400) Owner 31 0 None;
                      mkGrant 12 (User 32) (Drive 400) Owner 31 0 (Some 50%Z)]).
Lemma engine_of_coherent db : coherent (engine_of db).
Proof. constructor; intros k v; unfold engine_of; cbn -[cnew cget]; by rewrite cget_new. Defined.
End MemberDemo.
Import MemberDemo.

Lemma membership_keeps_owner_witness :
  has_owner 400 (role_grants (w_db (world (snd (member_op 31 false 400 (RemoveMember (User 31)) owned)))))
  ∧ unique_keys (role_grants (w_db (world (snd (member_op 31 false 400 (RemoveMember (User 31)) owned))))).
Proof.
  destruct (member_op 31 false 400 (RemoveMember (User 31)) owned) as [res e'] eqn:E.
  destruct (membership_keeps_owner owned 31 false 400 (RemoveMember (User 31)) res e'
              (engine_of_coherent _)) as (Ho & Hu & _); [|exact E|].
  - apply (bool_decide_unpack _). by vm_compute.
  - split; [|exact Hu]. apply Ho. eexists. split; [by left|done].
Defined.

(** A drive grant can be revoked by anyone.  [revoke_grant] deletes the row of a drive grant
    before anything is checked: a caller who holds no permission at all on a shared drive can name
    the identifier of its only owner's grant, is answered 404, and the drive is left without an
    owner. *)
Theorem revoke_grant_unguarded_on_drives :
  exists e caller gid d e', coherent e ∧ unique_keys (role_grants (w_db (world e)))
    ∧ (forall p, decision (world e) (User caller) p (Drive d) = false)
    ∧ has_owner d (role_grants (w_db (world e)))
    ∧ fst (revoke_grant caller gid e) = Err e' ∧ status_code e' = StatusCode.NOT_FOUND
    ∧ ¬ has_owner d (role_grants (w_db (world (snd (revoke_grant caller gid e))))).
Proof.
  exists owned, 33%N, (dec 11), 400%N. eexists. split_and!.
  - apply engine_of_coherent.
  - apply (bool_decide_unpack _). by vm_compute.
  - intros []; by vm_compute.
  - eexists. split; [by left|done].
  - vm_compute. reflexivity.
  - by vm_compute.
  - assert (Hr : role_grants (w_db (world (snd (revoke_grant 33 (dec 11) owned))))
                 = [mkGrant 12 (User 32) (Drive 400) Viewer 31 0 None]) by by vm_compute.
    rewrite Hr. intros (g & Hin & _ & Ho). apply list_elem_of_singleton in Hin. by subst g.
Qed.

(** An expired owner counts.  The last-owner guard counts owner rows whether or not they have
    expired: the only owner who can still act can be removed, and then nobody may manage the
    drive. *)
Theorem last_owner_guard_counts_expired :
  exists e caller d, coherent e
    ∧ decision (world e) (User caller) Manage (Drive d) = true
    ∧ let e' := snd (remove_member caller false d (User caller) e) in
      fst (remove_member caller false d (User caller) e) = Ok tt
      ∧ has_owner d (role_grants (w_db (world e')))
      ∧ forall u, decision (world e') (User u) Manage (Drive d) = false.
Proof.
  exists stale, 31%N, 400%N. split; [apply engine_of_coherent|]. split; [by vm_compute|].
  assert (Hr : role_grants (w_db (world (snd (remove_member 31 false 400 (User 31) stale))))
               = [mkGrant 12 (User 32) (Drive 400) Owner 31 0 (Some 50%Z)]) by by vm_compute.
  assert (Hn : w_now (world (snd (remove_member 31 false 400 (User 31) stale))) = 100%Z) by by vm_compute.
  cbv zeta. split; [by vm_compute|]. split.
  - rewrite Hr. eexists. split; [by left|done].
  - intros u. apply not_true_is_false. intros Hd. apply decision_meaning in Hd as [_ Hg].
    destruct Hg as (ro & ((g & (Hin & Hl & _) & _) & _) & _). rewrite Hr in Hin. rewrite Hn in Hl.
    apply list_elem_of_singleton in Hin. subst g. done.
Qed.
