(* ===== verification/ChunkedUpload.v ===== *)
(** * Chunked uploads

    [src/src/infrastructure/services/chunked_upload_service.rs]: upload sessions split into
    chunks, the progress bitmask that survives a restart, and the requests that create a session,
    store chunks and hand the finished parts over; with the HTTP handler of a chunk
    ([interfaces/api/handlers/chunked_upload_handler.rs]: [upload_chunk]) and the streaming of its
    body to the file ([interfaces/upload_ingest.rs]: [stream_body_to_path]).

    The state is the session map and the files under the temporary directory: per session the
    progress mask and one file per chunk, named by the chunk's index.  A file operation takes the
    next entry of a script of faults: [Some (err, k)] makes it fail with text [err] after writing
    [k] bytes; a write that reports success is on disk.  Times are nanoseconds.  The ratio
    [progress] and the log lines are left out, and so are the directory listing of the start-up
    scan and the periodic clean-up of directories. *)

From S2P Require Import Prelude.
From S2P Require Import RustStr.
From S2P Require Import DomainErrors.
From S2P Require Import HttpErrors.

Definition DEFAULT_CHUNK_SIZE : Z := 5 * 1024 * 1024.
Definition CHUNKED_UPLOAD_THRESHOLD : Z := 10 * 1024 * 1024.
Definition SESSION_EXPIRATION : Z := 24 * 60 * 60 * 1000000000.

Inductive ChunkStatus := Pending | Uploading | Complete | Failed (why : str).
#[global] Instance ChunkStatus_eq_dec : EqDecision ChunkStatus. Proof. solve_decision. Defined.
Record ChunkInfo := mkChunk {
  index : nat;
  offset : Z;
  size : Z;
  status : ChunkStatus;
  checksum : option str;
}.
Record UploadSession := mkSession {
  us_id : str;
  us_user_id : str;
  us_filename : str;
  us_folder_id : option str;
  us_content_type : str;
  us_total_size : Z;
  us_chunk_size : Z;
  us_chunks : list ChunkInfo;
  us_created_at : Z;
  us_last_activity : Z;
  us_bytes_received : Z;
}.

(** ** Sessions *)
Module UploadSession.
Definition calculate_chunk_count (total_size chunk_size : Z) : Z :=
  Z.max (total_size ⌈/⌉ chunk_size) 1.
Definition is_complete (s : UploadSession) : bool :=
  forallb (fun c => bool_decide (status c = Complete)) (us_chunks s).
Definition pending_chunks (s : UploadSession) : list nat :=
  (fun ic : nat * ChunkInfo => ic.1) <$>
    filter (fun ic => status ic.2 = Pending) (zip (seq 0 (length (us_chunks s))) (us_chunks s)).
Definition is_expired (now : Z) (s : UploadSession) : bool :=
  (SESSION_EXPIRATION <? Z.max 0 (now - us_last_activity s))%Z.

(** [1 << (i % 8)] *)
Definition bit_of (i : nat) : Z := Z.shiftl 1 (Z.of_nat (i mod 8)).
Definition set_bit (mask : bytes) (i : nat) : bytes :=
  alter (fun b => Z.lor b (bit_of i)) (i / 8)%nat mask.
Definition build_progress_bitmask (s : UploadSession) : bytes :=
  foldl (fun mask c => if decide (status c = Complete) then set_bit mask (index c) else mask)
    (replicate (Z.to_nat (Z.of_nat (length (us_chunks s)) ⌈/⌉ 8)) 0%Z) (us_chunks s).
Definition mask_has (mask : bytes) (i : nat) : bool :=
  match mask !! (i / 8)%nat with
  | Some b => negb (Z.land b (bit_of i) =? 0)%Z
  | None => false
  end.
Definition with_status (c : ChunkInfo) (st : ChunkStatus) : ChunkInfo :=
  mkChunk (index c) (offset c) (size c) st (checksum c).
Definition with_chunks (s : UploadSession) (cs : list ChunkInfo) (received : Z) : UploadSession :=
  mkSession (us_id s) (us_user_id s) (us_filename s) (us_folder_id s) (us_content_type s)
    (us_total_size s) (us_chunk_size s) cs (us_created_at s) (us_last_activity s) received.
Definition apply_progress_bitmask (mask : bytes) (s : UploadSession) : UploadSession :=
  let cs := (fun c => if mask_has mask (index c) then with_status c Complete else c) <$> us_chunks s in
  let received := foldl (fun acc c => if mask_has mask (index c) then acc + size c else acc)%Z 0%Z
                    (us_chunks s) in
  with_chunks s cs received.

(** The loop of [create_session_inner] that lays out the chunks. *)
Fixpoint layout (n : nat) (i : nat) (off total chunk_size : Z) : list ChunkInfo :=
  match n with
  | O => []
  | S n' =>
      let sz := match n' with O => (total - off)%Z | _ => chunk_size end in
      mkChunk i off sz Pending None :: layout n' (S i) (off + sz) total chunk_size
  end.

(** What one recovered session becomes: the mask is applied, then every complete chunk without
    a file goes back to pending. *)
Definition missing_step (has_file : nat -> bool) (acc : list ChunkInfo * Z) (c : ChunkInfo)
  : list ChunkInfo * Z :=
  let (cs, received) := acc in
  if bool_decide (status c = Complete) && negb (has_file (index c))
  then (cs ++ [with_status c Pending], received ⊖ size c)
  else (cs ++ [c], received).
Definition recover_session (progress : option bytes) (has_file : nat -> bool) (s : UploadSession)
  : UploadSession :=
  let s := match progress with
           | Some mask => apply_progress_bitmask mask s
           | None => with_chunks s ((fun c => with_status c Pending) <$> us_chunks s) 0
           end in
  let '(cs, received) := foldl (missing_step has_file) ([], us_bytes_received s) (us_chunks s) in
  with_chunks s cs received.
End UploadSession.

(** ** The service *)
Record Disk := mkDisk {
  chunk_files : gmap (str * nat) bytes;
  progress_files : gmap str bytes;
  meta_files : gmap str UploadSession;
}.
Record Service := mkService {
  sessions : gmap str UploadSession;
  disk : Disk;
  io : list (option (str * nat));
}.
Definition UM (E T : Type) : Type := M Service E T.
Definition set_sessions (s : Service) ss : Service := mkService ss (disk s) (io s).
Definition set_disk (s : Service) d : Service := mkService (sessions s) d (io s).
Definition put_chunk (d : Disk) k b : Disk := mkDisk (<[k := b]> (chunk_files d)) (progress_files d) (meta_files d).
Definition del_chunk (d : Disk) k : Disk := mkDisk (delete k (chunk_files d)) (progress_files d) (meta_files d).
Definition put_progress (d : Disk) k b : Disk := mkDisk (chunk_files d) (<[k := b]> (progress_files d)) (meta_files d).
Definition put_meta (d : Disk) k b : Disk := mkDisk (chunk_files d) (progress_files d) (<[k := b]> (meta_files d)).
(** [remove_dir_all] of a session's directory. *)
Definition del_dir (d : Disk) (id : str) : Disk :=
  mkDisk (filter (fun kv : (str * nat) * bytes => kv.1.1 ≠ id) (chunk_files d))
    (delete id (progress_files d)) (delete id (meta_files d)).

(** One file operation: [eff] with how much was written, [None] for all of it. *)
Definition file_op {E} (on_error : str -> E) (eff : option nat -> Disk -> Disk) : UM E unit := fun s =>
  match io s with
  | Some (err, k) :: rest => (Err (on_error err), mkService (sessions s) (eff (Some k) (disk s)) rest)
  | None :: rest => (Ok tt, mkService (sessions s) (eff None (disk s)) rest)
  | [] => (Ok tt, mkService (sessions s) (eff None (disk s)) [])
  end.
(** A file operation whose failure is only logged. *)
Definition ignore_io {E} (eff : option nat -> Disk -> Disk) : UM E unit := fun s =>
  (Ok tt, snd (file_op (E:=str) (fun e => e) eff s)).
Definition written (k : option nat) (b : bytes) : bytes := match k with Some k => take k b | None => b end.

Record CompletedUploadParts := mkParts {
  cp_chunk_paths : list (str * nat);
  cp_filename : str;
  cp_folder_id : option str;
  cp_content_type : str;
  cp_total_size : Z;
}.
Record ChunkUploadResponse := mkChunkResponse { cr_index : nat; cr_bytes_received : Z; cr_is_complete : bool }.
Record CreateUploadResponse := mkCreated { cu_id : str; cu_chunk_size : Z; cu_total_chunks : Z; cu_expires_at : Z }.
Record UploadStatus := mkStatus {
  st_upload_id : str; st_filename : str; st_total_size : Z; st_bytes_received : Z;
  st_total_chunks : nat; st_completed_chunks : nat; st_pending_chunks : list nat; st_is_complete : bool
}.

Section service.
(** The MD5 digest of a byte string in lower-case hexadecimal (crate [md5]). *)
Context (md5_hex : bytes -> str).

Definition not_found_text (id : str) : str := lit "Upload session not found: " ++ id.
Definition verify_session_owner (id user : str) : UM str unit :=
  found ← gets (fun s => sessions s !! id);
  match found with
  | None => raise (not_found_text id)
  | Some s => if decide (us_user_id s = user) then mret tt else raise (not_found_text id)
  end.

(** [persist_metadata]: the text goes to a temporary name, which is then renamed; only the
    renamed file is ever read back. *)
Definition persist_metadata (s : UploadSession) : UM str unit :=
  _ ← file_op (fun e => lit "Failed to write session metadata: " ++ e) (fun _ d => d);
  file_op (fun e => lit "Failed to rename session metadata: " ++ e)
    (fun k d => match k with None => put_meta d (us_id s) s | Some _ => d end).
Definition persist_progress (s : UploadSession) : UM str unit :=
  file_op (fun e => lit "Failed to write progress bitmask: " ++ e)
    (fun k d => put_progress d (us_id s) (written k (UploadSession.build_progress_bitmask s))).

(** [fresh] is the identifier the call draws, [now] the current time. *)
Definition create_session_inner (fresh : str) (now : Z) (user filename : str) (folder : option str)
    (content_type : str) (total_size : Z) (chunk_size : option Z) : UM str CreateUploadResponse :=
  let chunk_size := default DEFAULT_CHUNK_SIZE chunk_size in
  let chunk_count := UploadSession.calculate_chunk_count total_size chunk_size in
  _ ← file_op (fun e => lit "Failed to create temp directory: " ++ e) (fun _ d => d);
  let s := mkSession fresh user filename folder content_type total_size chunk_size
             (UploadSession.layout (Z.to_nat chunk_count) 0 0 total_size chunk_size) now now 0 in
  _ ← persist_metadata s;
  _ ← persist_progress s;
  _ ← modify (fun st => set_sessions st (<[fresh := s]> (sessions st)));
  mret (mkCreated fresh chunk_size chunk_count (24 * 60 * 60)).

(** Marking a chunk done under the map's lock. *)
Definition mark_complete (now : Z) (i : nat) (sum : option str) (received : Z) (s : UploadSession)
  : UploadSession :=
  mkSession (us_id s) (us_user_id s) (us_filename s) (us_folder_id s) (us_content_type s)
    (us_total_size s) (us_chunk_size s)
    (alter (fun c => mkChunk (index c) (offset c) (size c) Complete sum) i (us_chunks s))
    (us_created_at s) now (us_bytes_received s + received).
Definition mark_and_persist {E} (gone : E) (now : Z) (id : str) (i : nat) (sum : option str)
    (received : Z) : UM E ChunkUploadResponse :=
  found ← gets (fun st => sessions st !! id);
  s ← lift (ok_or found gone);
  let s := mark_complete now i sum received s in
  _ ← modify (fun st => set_sessions st (<[id := s]> (sessions st)));
  _ ← ignore_io (fun k d => put_progress d id (written k (UploadSession.build_progress_bitmask s)));
  mret (mkChunkResponse i (us_bytes_received s) (UploadSession.is_complete s)).

Definition verify_checksum (data : bytes) (checksum : option str) : UM str unit :=
  match checksum with
  | Some expected =>
      if decide (md5_hex data = expected) then mret tt
      else raise (lit "Checksum mismatch: expected " ++ expected ++ lit ", got " ++ md5_hex data)
  | None => mret tt
  end.
Definition upload_chunk_inner (now : Z) (id user : str) (i : nat) (data : bytes)
    (checksum : option str) : UM str ChunkUploadResponse :=
  _ ← verify_session_owner id user;
  found ← gets (fun st => sessions st !! id);
  s ← lift (ok_or found (not_found_text id));
  c ← (match us_chunks s !! i with
       | None => raise (lit "Invalid chunk index: " ++ dec (Z.of_nat i) ++ lit " (max: "
                          ++ dec (Z.of_nat (length (us_chunks s)) - 1) ++ lit ")")
       | Some c => if decide (status c = Complete)
                   then raise (lit "Chunk " ++ dec (Z.of_nat i) ++ lit " already uploaded")
                   else mret c
       end);
  if decide (Z.of_nat (length data) ≠ size c) then
    raise (lit "Invalid chunk size: expected " ++ dec (size c) ++ lit " bytes, got "
             ++ dec (Z.of_nat (length data)) ++ lit " bytes")
  else
    _ ← verify_checksum data checksum;
    _ ← file_op (fun e => lit "Failed to create chunk file: " ++ e)
          (fun k d => match k with None => put_chunk d (id, i) [] | Some _ => d end);
    _ ← file_op (fun e => lit "Failed to write chunk: " ++ e)
          (fun k d => put_chunk d (id, i) (written k data));
    mark_and_persist (lit "Session disappeared") now id i checksum (Z.of_nat (length data)).

Definition chunked (k : ErrorKind) (msg : str) : DomainError :=
  DomainError.new k (lit "ChunkedUpload") msg.
(** Streaming uploads: the handler asks for the chunk's path and size, writes the file itself,
    and commits. *)
Definition prepare_chunk (id user : str) (i : nat) : UM DomainError ((str * nat) * Z) :=
  found ← gets (fun st => sessions st !! id);
  s ← lift (ok_or found (chunked NotFound (not_found_text id)));
  if decide (us_user_id s ≠ user) then raise (chunked NotFound (not_found_text id))
  else
    match us_chunks s !! i with
    | None => raise (chunked InvalidInput (lit "Invalid chunk index: " ++ dec (Z.of_nat i) ++ lit " (max: "
                          ++ dec (Z.of_nat (length (us_chunks s)) - 1) ++ lit ")"))
    | Some c =>
        if decide (status c = Complete)
        then raise (chunked InvalidInput (lit "Chunk " ++ dec (Z.of_nat i) ++ lit " already uploaded"))
        else mret ((id, i), size c)
    end.
Definition commit_chunk (now : Z) (id user : str) (i : nat) (actual_size : Z)
    (computed expected : option str) : UM DomainError ChunkUploadResponse :=
  found ← gets (fun st => sessions st !! id);
  s ← lift (ok_or found (chunked NotFound (not_found_text id)));
  if decide (us_user_id s ≠ user) then raise (chunked NotFound (not_found_text id))
  else
    match us_chunks s !! i with
    | None => raise (chunked InvalidInput (lit "Invalid chunk index: " ++ dec (Z.of_nat i)))
    | Some c =>
        let remove := ignore_io (fun k d => match k with None => del_chunk d (id, i) | Some _ => d end) in
        if decide (actual_size ≠ size c) then
          _ ← remove;
          raise (chunked InvalidInput (lit "Invalid chunk size: expected " ++ dec (size c)
                   ++ lit " bytes, got " ++ dec actual_size ++ lit " bytes"))
        else
          match expected, computed with
          | Some want, Some got =>
              if eq_ignore_ascii_case want got
              then mark_and_persist (chunked NotFound (lit "Session disappeared")) now id i expected actual_size
              else _ ← remove;
                   raise (chunked InvalidInput (lit "Checksum mismatch: expected " ++ want ++ lit ", got " ++ got))
          | _, _ => mark_and_persist (chunked NotFound (lit "Session disappeared")) now id i expected actual_size
          end
    end.

Definition get_status_inner (id user : str) : UM str UploadStatus :=
  _ ← verify_session_owner id user;
  found ← gets (fun st => sessions st !! id);
  s ← lift (ok_or found (not_found_text id));
  mret (mkStatus (us_id s) (us_filename s) (us_total_size s) (us_bytes_received s)
          (length (us_chunks s)) (length (filter (fun c => status c = Complete) (us_chunks s)))
          (UploadSession.pending_chunks s) (UploadSession.is_complete s)).

(** [{:?}] of a list of indices. *)
Definition debug_indices (l : list nat) : str :=
  match l with
  | [] => lit "[]"
  | i :: rest => lit "[" ++ dec (Z.of_nat i) ++ concat ((fun j => lit ", " ++ dec (Z.of_nat j)) <$> rest) ++ lit "]"
  end.
(** [indices.sort_unstable()] *)
Fixpoint insert_sorted (i : nat) (l : list nat) : list nat :=
  match l with
  | [] => [i]
  | j :: l' => if decide (i <= j)%nat then i :: l else j :: insert_sorted i l'
  end.
Definition sort_unstable (l : list nat) : list nat := foldr insert_sorted [] l.
Definition complete_upload_inner (id user : str) : UM str CompletedUploadParts :=
  _ ← verify_session_owner id user;
  found ← gets (fun st => sessions st !! id);
  s ← lift (ok_or found (not_found_text id));
  if UploadSession.is_complete s then
    mret (mkParts ((fun i => (id, i)) <$> sort_unstable (index <$> us_chunks s))
            (us_filename s) (us_folder_id s) (us_content_type s) (us_total_size s))
  else raise (lit "Upload not complete. Missing chunks: "
                ++ debug_indices (UploadSession.pending_chunks s)).
Definition drop_session {E} (id : str) : UM E unit :=
  found ← gets (fun st => sessions st !! id);
  _ ← modify (fun st => set_sessions st (delete id (sessions st)));
  match found with
  | Some _ => ignore_io (fun k d => match k with None => del_dir d id | Some _ => d end)
  | None => mret tt
  end.
Definition finalize_upload_inner (id user : str) : UM str unit :=
  _ ← verify_session_owner id user; drop_session id.
Definition cancel_upload_inner (id user : str) : UM DomainError unit :=
  _ ← map_err_m (fun _ => DomainError.not_found (lit "Upload") id) (verify_session_owner id user);
  drop_session id.
Definition should_use_chunked (sz : Z) : bool := (CHUNKED_UPLOAD_THRESHOLD <=? sz)%Z.
End service.

(** ** The HTTP handler *)
Inductive ChecksumAlg := Md5 | Sha256 | Blake3.
Module ChecksumAlg.
Definition parse (s : str) : option ChecksumAlg :=
  let name := to_ascii_lowercase (trim s) in
  if decide (name = lit "md5") then Some Md5
  else if decide (name = lit "sha256" ∨ name = lit "sha-256") then Some Sha256
  else if decide (name = lit "blake3") then Some Blake3
  else None.
End ChecksumAlg.
(** What the body stream yields: bytes, a frame without data, or a broken transport. *)
Inductive Frame := DataFrame (b : bytes) | OtherFrame | Broken (why : str).
Record StreamedToPath := mkStreamed {
  bytes_written : Z; created_fresh : bool; checksum_hex : option str; streamed_alg : option ChecksumAlg
}.
Record ChunkUploadParams := mkParams { q_chunk_index : nat; q_checksum : option str; q_checksumalg : option str }.

Section handler.
(** The digest of a byte string in lower-case hexadecimal (crates [md5], [sha2], [blake3]). *)
Context (digest_hex : ChecksumAlg -> bytes -> str).

Definition append_chunk (path : str * nat) (b : bytes) (d : Disk) : Disk :=
  put_chunk d path (default [] (chunk_files d !! path) ++ b).
(** [let _ = tokio::fs::remove_file(path).await] *)
Definition remove_chunk {E} (path : str * nat) : UM E unit :=
  ignore_io (fun k d => match k with None => del_chunk d path | Some _ => d end).
(** An operation that removes the file before its error is returned. *)
Definition or_remove (path : str * nat) (m : UM AppError unit) : UM AppError unit := fun s =>
  match m s with
  | (Err e, s') => (_ ← remove_chunk path; raise e) s'
  | done => done
  end.
(** Opening with [create_new], or truncating the file that is there. *)
Definition open_chunk_file (path : str * nat) : UM AppError bool :=
  there ← gets (fun s => bool_decide (is_Some (chunk_files (disk s) !! path)));
  _ ← file_op (fun e => AppError.internal_error (lit "Failed to open chunk file: " ++ e))
        (fun k d => match k with None => put_chunk d path [] | Some _ => d end);
  mret (negb there).
(** The loop over the frames; [seen] is what was written so far. *)
Fixpoint stream_frames (path : str * nat) (max_bytes : Z) (seen : bytes) (body : list Frame) : UM AppError bytes :=
  match body with
  | [] => mret seen
  | Broken why :: _ =>
      _ ← remove_chunk path;
      raise (AppError.bad_request (lit "Failed to read request body: " ++ why))
  | OtherFrame :: rest => stream_frames path max_bytes seen rest
  | DataFrame b :: rest =>
      if decide (max_bytes < Z.of_nat (length (seen ++ b)))%Z then
        _ ← remove_chunk path;
        raise (AppError.payload_too_large (lit "Chunk exceeds maximum size of " ++ dec max_bytes ++ lit " bytes"))
      else
        _ ← or_remove path
              (file_op (fun e => AppError.internal_error (lit "Failed to write chunk: " ++ e))
                 (fun k d => append_chunk path (written k b) d));
        stream_frames path max_bytes (seen ++ b) rest
  end.
(** The file is behind a buffer: when the final flush fails a prefix of the body stays. *)
Definition stream_body_to_path (body : list Frame) (path : str * nat) (max_bytes : Z)
    (checksum_alg : option ChecksumAlg) : UM AppError StreamedToPath :=
  fresh ← open_chunk_file path;
  data ← stream_frames path max_bytes [] body;
  _ ← file_op (fun e => AppError.internal_error (lit "Failed to flush chunk file: " ++ e))
        (fun k d => put_chunk d path (written k data));
  mret (mkStreamed (Z.of_nat (length data)) fresh ((fun alg => digest_hex alg data) <$> checksum_alg) checksum_alg).

Definition unsupported_alg (name : str) : AppError :=
  AppError.bad_request (lit "Unsupported checksumalg: " ++ name ++ lit " (supported: md5, sha256, blake3)").
Definition requested_alg (name : option str) : result AppError ChecksumAlg :=
  match name with
  | Some name => ok_or (ChecksumAlg.parse name) (unsupported_alg name)
  | None => Ok Md5
  end.
Definition expected_of (checksum content_md5 : option str) : option str :=
  match checksum with Some c => Some c | None => content_md5 end.
(** [PATCH /api/uploads/{upload_id}]: [max_chunk] is [storage.chunk_max_bytes]; [content_md5] the
    [Content-MD5] header where it is text. *)
Definition upload_chunk (max_chunk now : Z) (id user : str) (params : ChunkUploadParams)
    (content_md5 : option str) (body : list Frame) : UM AppError ChunkUploadResponse :=
  let expected := expected_of (q_checksum params) content_md5 in
  alg ← lift (requested_alg (q_checksumalg params));
  prepared ← map_err_m AppError.from (prepare_chunk id user (q_chunk_index params));
  streamed ← stream_body_to_path body prepared.1 max_chunk ((fun _ => alg) <$> expected);
  map_err_m AppError.from
    (commit_chunk now id user (q_chunk_index params) (bytes_written streamed) (checksum_hex streamed) expected).
End handler.

(** ** The layout *)
Definition sum_sizes (cs : list ChunkInfo) : Z := foldr (fun c acc => size c + acc)%Z 0%Z cs.

Lemma layout_length n : forall i off total cs, length (UploadSession.layout n i off total cs) = n.
Proof. induction n as [|n IH]; intros; simpl; [done|]. by rewrite IH. Qed.
Lemma layout_index n : forall i off total cs,
  index <$> UploadSession.layout n i off total cs = seq i n.
Proof. induction n as [|n IH]; intros; [done|]. cbn [UploadSession.layout seq]. rewrite fmap_cons. by rewrite IH. Qed.
Lemma layout_sizes n : forall i off total cs,
  (0 < cs)%Z -> (Z.of_nat n * cs <= total - off <= Z.of_nat (S n) * cs)%Z ->
  let l := UploadSession.layout (S n) i off total cs in
  sum_sizes l = (total - off)%Z
  ∧ Forall (fun c => 0 <= size c <= cs)%Z l
  ∧ ((Z.of_nat n * cs < total - off)%Z -> Forall (fun c => 0 < size c)%Z l).
Proof.
  induction n as [|n IH]; intros i off total cs Hcs Hb l; unfold l; clear l.
  - simpl. split_and!; [lia| |]; repeat constructor; simpl; lia.
  - cbn [UploadSession.layout]. destruct (IH (S i) (off + cs)%Z total cs Hcs ltac:(lia)) as (Hs & Hf & Hp).
    cbn [UploadSession.layout] in *. split_and!.
    + cbn [sum_sizes foldr size] in *. unfold sum_sizes in Hs. cbn [foldr size] in Hs. lia.
    + apply Forall_cons_2; [simpl; lia|done].
    + intros. apply Forall_cons_2; [simpl; lia|apply Hp; lia].
Qed.
Lemma layout_offsets n : forall i off total cs k c,
  UploadSession.layout n i off total cs !! k = Some c ->
  offset c = (off + sum_sizes (take k (UploadSession.layout n i off total cs)))%Z.
Proof.
  induction n as [|n IH]; intros i off total cs k c; cbn [UploadSession.layout]; [done|].
  destruct k as [|k]; [intros [= <-]; simpl; lia|].
  intros Hk. simpl in Hk. rewrite (IH _ _ _ _ _ _ Hk). rewrite firstn_cons. cbn [sum_sizes foldr].
  cbn [size]. unfold sum_sizes. lia.
Qed.
Lemma chunk_count_bounds total cs :
  (0 <= total)%Z -> (0 < cs)%Z -> exists n,
    Z.to_nat (UploadSession.calculate_chunk_count total cs) = S n
    ∧ (Z.of_nat n * cs <= total <= Z.of_nat (S n) * cs)%Z
    ∧ ((0 < total)%Z -> (Z.of_nat n * cs < total)%Z).
Proof.
  intros Ht Hc. pose proof (div_ceil_spec total cs Hc) as Hd.
  unfold UploadSession.calculate_chunk_count. set (q := div_ceil total cs) in *.
  destruct (Z.max_spec q 1) as [[Hq ->]|[Hq ->]].
  - exists 0%nat. assert (q <= 0)%Z by lia. split_and!; nia.
  - exists (Z.to_nat (q - 1)). split; [lia|]. rewrite Nat2Z.inj_succ, Z2Nat.id by lia. split; [nia|nia].
Qed.

(** The chunks of a new session. *)
Definition new_layout (total cs : Z) : list ChunkInfo :=
  UploadSession.layout (Z.to_nat (UploadSession.calculate_chunk_count total cs)) 0 0 total cs.
Lemma new_layout_spec total cs :
  (0 <= total)%Z -> (0 < cs)%Z ->
  let l := new_layout total cs in
  index <$> l = seq 0 (length l) ∧ sum_sizes l = total
  ∧ Forall (fun c => 0 <= size c <= cs)%Z l
  ∧ (forall k c, l !! k = Some c -> offset c = sum_sizes (take k l))
  ∧ ((0 < total)%Z -> Forall (fun c => 0 < size c)%Z l).
Proof.
  intros Ht Hc. unfold new_layout. destruct (chunk_count_bounds total cs Ht Hc) as (n & -> & Hn & Hp).
  destruct (layout_sizes n 0 0 total cs Hc ltac:(lia)) as (Hs & Hf & Hpos).
  split_and!.
  - by rewrite layout_index, layout_length.
  - rewrite Hs. lia.
  - done.
  - intros k c Hk. rewrite (layout_offsets _ _ _ _ _ _ _ Hk). lia.
  - intros. apply Hpos. assert (Hx := Hp ltac:(lia)). lia.
Qed.

(** The chunks of a session partition the file.  For every size and every positive chunk size
    the chunks are numbered from zero without gaps, each starts where the one before ends, none is
    longer than the chunk size or of negative length (the subtraction for the last one never
    wraps), none is empty unless the file is, and together they are exactly as long as the file;
    there is always at least one. *)
Theorem chunk_layout_partitions total cs :
  (0 <= total <= u64_max)%Z -> (0 < cs)%Z ->
  let l := UploadSession.layout (Z.to_nat (UploadSession.calculate_chunk_count total cs)) 0 0 total cs in
  index <$> l = seq 0 (length l)
  ∧ Z.of_nat (length l) = UploadSession.calculate_chunk_count total cs ∧ l ≠ []
  ∧ sum_sizes l = total
  ∧ Forall (fun c => 0 <= size c <= cs)%Z l
  ∧ (forall k c, l !! k = Some c -> offset c = sum_sizes (take k l))
  ∧ ((0 < total)%Z -> Forall (fun c => 0 < size c)%Z l).
Proof.
  intros Ht Hc. destruct (new_layout_spec total cs ltac:(lia) Hc) as (Hi & Hs & Hf & Ho & Hp).
  unfold new_layout in *. split_and!; try done.
  - rewrite layout_length, Z2Nat.id; [done|]. unfold UploadSession.calculate_chunk_count. lia.
  - intros Hl. destruct (chunk_count_bounds total cs ltac:(lia) Hc) as (n & Hn & _).
    rewrite Hn in Hl. done.
Qed.
Lemma chunk_layout_partitions_witness :
  sum_sizes (UploadSession.layout (Z.to_nat (UploadSession.calculate_chunk_count 12000000 5242880)) 0 0
               12000000 5242880) = 12000000%Z.
Proof. apply (chunk_layout_partitions 12000000 5242880); by vm_compute. Defined.

(** ** The progress mask *)
Lemma land_bit b k : (0 <= k)%Z -> negb (Z.land b (Z.shiftl 1 k) =? 0)%Z = Z.testbit b k.
Proof.
  intros Hk. rewrite Z.shiftl_1_l. destruct (Z.testbit b k) eqn:Ht.
  - rewrite negb_true_iff, Z.eqb_neq. intros H0.
    assert (Z.testbit (Z.land b (2 ^ k)) k = true) as Hb.
    { rewrite Z.land_spec, Ht, Z.pow2_bits_true by done. done. }
    by rewrite H0, Z.bits_0 in Hb.
  - rewrite negb_false_iff, Z.eqb_eq. apply Z.bits_inj'. intros n Hn. rewrite Z.land_spec, Z.bits_0.
    destruct (decide (n = k)) as [->|Hne]; [by rewrite Ht|].
    rewrite Z.pow2_bits_false by done. by rewrite andb_false_r.
Qed.
Lemma mask_set_bit mask i j :
  (i / 8 < length mask)%nat ->
  UploadSession.mask_has (UploadSession.set_bit mask i) j
  = UploadSession.mask_has mask j || bool_decide (i = j).
Proof.
  intros Hi. unfold UploadSession.mask_has, UploadSession.set_bit, UploadSession.bit_of.
  destruct (decide (i / 8 = j / 8)%nat) as [Hq|Hq].
  - rewrite Hq in *. rewrite list_lookup_alter_eq. destruct (mask !! (j / 8)%nat) as [b|] eqn:E.
    + cbv beta iota delta [fmap option_fmap option_map]. rewrite !land_bit by lia.
      rewrite Z.lor_spec. f_equal.
      rewrite Z.shiftl_1_l. destruct (decide (i mod 8 = j mod 8)%nat) as [Hr|Hr].
      * rewrite Hr, Z.pow2_bits_true by lia. symmetry. apply bool_decide_eq_true.
        rewrite (Nat.div_mod_eq i 8), (Nat.div_mod_eq j 8). lia.
      * rewrite Z.pow2_bits_false by lia. symmetry. apply bool_decide_eq_false. by intros ->.
    + apply lookup_ge_None in E. lia.
  - rewrite list_lookup_alter_ne by done. rewrite bool_decide_eq_false_2; [by rewrite orb_false_r|].
    by intros ->.
Qed.
Lemma set_bit_length mask i : length (UploadSession.set_bit mask i) = length mask.
Proof. apply length_alter. Qed.

Lemma build_fold cs : forall mask j,
  Forall (fun c => (index c / 8 < length mask)%nat) cs ->
  UploadSession.mask_has (foldl (fun mask c => if decide (status c = Complete)
     then UploadSession.set_bit mask (index c) else mask) mask cs) j
  = UploadSession.mask_has mask j
    || existsb (fun c => bool_decide (status c = Complete) && bool_decide (index c = j)) cs.
Proof.
  induction cs as [|c cs IH]; intros mask j Hc; simpl; [by rewrite orb_false_r|].
  apply Forall_cons_1 in Hc as [Hc Hcs]. rewrite IH.
  - case_decide as Hs.
    + rewrite mask_set_bit by done. rewrite (bool_decide_eq_true_2 _ Hs). simpl. by rewrite orb_assoc.
    + by rewrite (bool_decide_eq_false_2 _ Hs).
  - case_decide; [|done]. by rewrite set_bit_length.
Qed.
Lemma mask_has_zero n j : UploadSession.mask_has (replicate n 0%Z) j = false.
Proof.
  unfold UploadSession.mask_has. destruct (replicate n 0%Z !! (j / 8)%nat) as [b|] eqn:E; [|done].
  apply lookup_replicate in E as [-> _]. by rewrite Z.land_0_l.
Qed.
Lemma build_mask_has s j :
  index <$> us_chunks s = seq 0 (length (us_chunks s)) ->
  UploadSession.mask_has (UploadSession.build_progress_bitmask s) j
  = existsb (fun c => bool_decide (status c = Complete) && bool_decide (index c = j)) (us_chunks s).
Proof.
  intros Hi. unfold UploadSession.build_progress_bitmask. rewrite build_fold.
  - by rewrite mask_has_zero.
  - apply list.Forall_forall. intros c Hc. rewrite length_replicate.
    assert (Hin : index c ∈ seq 0 (length (us_chunks s))).
    { rewrite <- Hi. apply list_elem_of_fmap. eauto. }
    apply elem_of_seq in Hin. simpl in Hin.
    pose proof (div_ceil_spec (Z.of_nat (length (us_chunks s))) 8 ltac:(lia)) as Hd.
    apply Nat.Div0.div_lt_upper_bound. lia.
Qed.

Definition sum_complete (cs : list ChunkInfo) : Z :=
  foldr (fun c acc => if decide (status c = Complete) then size c + acc else acc)%Z 0%Z cs.
Lemma sum_complete_nonneg cs : Forall (fun c => 0 <= size c)%Z cs -> (0 <= sum_complete cs)%Z.
Proof. induction 1; simpl; [lia|]. case_decide; lia. Qed.

(** What the scan for missing files makes of a chunk. *)
Definition recheck (has_file : nat -> bool) (c : ChunkInfo) : ChunkInfo :=
  if bool_decide (status c = Complete) && negb (has_file (index c))
  then UploadSession.with_status c Pending else c.
Lemma missing_fold has_file cs : forall acc received,
  Forall (fun c => 0 <= size c)%Z cs -> (sum_complete cs <= received)%Z ->
  foldl (UploadSession.missing_step has_file) (acc, received) cs
  = (acc ++ (recheck has_file <$> cs),
     received - sum_complete cs + sum_complete (recheck has_file <$> cs))%Z.
Proof.
  induction cs as [|c cs IH]; intros acc received Hs Hr.
  { simpl. rewrite app_nil_r. f_equal. lia. }
  apply Forall_cons_1 in Hs as [Hc Hs]. pose proof (sum_complete_nonneg cs Hs) as Hn.
  rewrite fmap_cons. cbn [foldl sum_complete foldr]. cbn [sum_complete foldr] in Hr.
  fold (sum_complete cs) in *. fold (sum_complete (recheck has_file <$> cs)).
  destruct (decide (status c = Complete)) as [Eb|Eb]; [destruct (has_file (index c)) eqn:Ef|].
  - assert (recheck has_file c = c) as -> by (unfold recheck; by rewrite Ef, andb_false_r).
    cbn [UploadSession.missing_step]. rewrite Ef, andb_false_r, decide_True by done.
    rewrite IH by (done || lia). rewrite <- app_assoc. f_equal. lia.
  - assert (recheck has_file c = UploadSession.with_status c Pending) as ->.
    { unfold recheck. by rewrite Ef, bool_decide_eq_true_2. }
    cbn [UploadSession.missing_step]. rewrite Ef, bool_decide_eq_true_2 by done. simpl.
    unfold saturating_sub. rewrite Z.max_r by lia. rewrite IH by (done || lia).
    rewrite <- app_assoc. f_equal. lia.
  - assert (recheck has_file c = c) as -> by (unfold recheck; by rewrite bool_decide_eq_false_2).
    cbn [UploadSession.missing_step]. rewrite bool_decide_eq_false_2, decide_False by done. simpl.
    rewrite IH by done. by rewrite <- app_assoc.
Qed.
Lemma apply_received mask cs : forall acc,
  foldl (fun acc c => if UploadSession.mask_has mask (index c) then acc + size c else acc)%Z acc cs
  = (acc + foldr (fun c a => if UploadSession.mask_has mask (index c) then size c + a else a) 0 cs)%Z.
Proof.
  induction cs as [|c cs IH]; intros acc; simpl; [lia|]. rewrite IH.
  destruct (UploadSession.mask_has mask (index c)); lia.
Qed.

(** The index of a chunk is its position. *)
Lemma index_lookup (cs : list ChunkInfo) k c :
  index <$> cs = seq 0 (length cs) -> cs !! k = Some c -> index c = k.
Proof.
  intros Hi Hk. assert (Hx : (index <$> cs) !! k = Some (index c)) by by rewrite list_lookup_fmap, Hk.
  rewrite Hi in Hx. apply lookup_seq in Hx as [? _]. lia.
Qed.
Lemma build_mask_complete s c :
  index <$> us_chunks s = seq 0 (length (us_chunks s)) -> c ∈ us_chunks s ->
  UploadSession.mask_has (UploadSession.build_progress_bitmask s) (index c)
  = bool_decide (status c = Complete).
Proof.
  intros Hi Hin. rewrite build_mask_has by done. apply eq_bool_prop_intro.
  rewrite !Is_true_true, existsb_true, bool_decide_eq_true. split.
  - intros (c' & Hin' & Hb). rewrite andb_true_iff, !bool_decide_eq_true in Hb.
    destruct Hb as [Hst Hix]. assert (c' = c) as ->; [|done].
    apply list_elem_of_lookup in Hin as [k Hk], Hin' as [k' Hk'].
    rewrite (index_lookup _ _ _ Hi Hk), (index_lookup _ _ _ Hi Hk') in Hix. congruence.
  - intros Hst. exists c. split; [done|]. by rewrite !bool_decide_eq_true_2.
Qed.

(** The metadata written when the session was created: the same chunks, all pending. *)
Definition as_created (s0 s : UploadSession) : Prop :=
  Forall2 (fun c0 c => index c0 = index c ∧ offset c0 = offset c ∧ size c0 = size c
                       ∧ status c0 = Pending) (us_chunks s0) (us_chunks s).

(** Progress survives a restart.  The mask written for a session, read back over the session's
    original metadata, marks exactly the chunks that were complete; those whose file is gone go
    back to pending; and the number of received bytes is recomputed to be the sizes of the chunks
    that stay complete. *)
Theorem progress_survives_restart s0 s has_file :
  as_created s0 s -> index <$> us_chunks s = seq 0 (length (us_chunks s)) ->
  Forall (fun c => 0 <= size c)%Z (us_chunks s) ->
  let r := UploadSession.recover_session (Some (UploadSession.build_progress_bitmask s)) has_file s0 in
  Forall2 (fun c rc => index rc = index c ∧ offset rc = offset c ∧ size rc = size c
     ∧ status rc = if bool_decide (status c = Complete) && has_file (index c) then Complete else Pending)
    (us_chunks s) (us_chunks r)
  ∧ us_bytes_received r = sum_complete (us_chunks r).
Proof.
  intros Hc Hi Hs r. set (mask := UploadSession.build_progress_bitmask s) in *.
  assert (Hmask : forall c, c ∈ us_chunks s ->
    UploadSession.mask_has mask (index c) = bool_decide (status c = Complete)).
  { intros c Hin. by apply build_mask_complete. }
  set (cs1 := (fun c => if UploadSession.mask_has mask (index c)
                        then UploadSession.with_status c Complete else c) <$> us_chunks s0).
  assert (Hsz : Forall (fun c => 0 <= size c)%Z (us_chunks s0)).
  { clear -Hc Hs. unfold as_created in Hc.
    induction Hc as [|c0 c l0 l (_ & _ & Hz & _) _ IH]; [constructor|].
    apply Forall_cons_1 in Hs as [Hs1 Hs2]. constructor; [by rewrite Hz|auto]. }
  assert (Hrec : us_bytes_received (UploadSession.apply_progress_bitmask mask s0) = sum_complete cs1).
  { simpl. rewrite apply_received. unfold cs1. clear -Hc. unfold as_created in Hc. rewrite Z.add_0_l.
    induction Hc as [|c0 c l0 l (_ & _ & _ & Hp) _ IH]; [done|]. rewrite fmap_cons. simpl. rewrite IH.
    destruct (UploadSession.mask_has mask (index c0)); simpl; [done|].
    rewrite decide_False; [done|]. by rewrite Hp. }
  assert (Hcs1 : Forall (fun c => 0 <= size c)%Z cs1).
  { unfold cs1. apply list.Forall_fmap. eapply list.Forall_impl; [exact Hsz|]. intros c. simpl.
    by destruct (UploadSession.mask_has mask (index c)). }
  assert (Hr : us_chunks r = recheck has_file <$> cs1
               ∧ us_bytes_received r = sum_complete (recheck has_file <$> cs1)).
  { unfold r, UploadSession.recover_session. fold mask. rewrite Hrec.
    change (us_chunks (UploadSession.apply_progress_bitmask mask s0)) with cs1.
    rewrite missing_fold by (done || lia). simpl. split; [done|lia]. }
  destruct Hr as [Hr1 Hr2]. split; [|by rewrite Hr1, Hr2].
  rewrite Hr1. unfold cs1. clear -Hc Hmask. unfold as_created in Hc.
  induction Hc as [|c0 c l0 l (Hix & Hof & Hsz & Hp) _ IH]; [constructor|].
  rewrite !fmap_cons. constructor; [|apply IH; intros; apply Hmask; by right].
  rewrite Hix, (Hmask c) by by left. unfold recheck.
  destruct (bool_decide (status c = Complete)) eqn:Eb; simpl.
  - rewrite Hix. by destruct (has_file (index c)).
  - rewrite Hp. simpl. by rewrite Hix.
Qed.

(** ** Uploading *)
Section uploading.
Context (digest_hex : ChecksumAlg -> bytes -> str).
Local Abbreviation md5_hex := (digest_hex Md5).








(** A chunk request, one of two ways: the service's own [upload_chunk] with the bytes at hand, or
    the HTTP handler with a body that streams in. *)
Inductive Way :=
  | Whole (data : bytes)
  | Http (max_chunk : Z) (alg content_md5 : option str) (body : list Frame).
Record Upload := mkUpload {
  up_now : Z; up_id : str; up_user : str; up_index : nat; up_sum : option str; up_way : Way
}.
Definition run_upload (st : Service) (u : Upload) : Service :=
  match up_way u with
  | Whole data => snd (upload_chunk_inner md5_hex (up_now u) (up_id u) (up_user u) (up_index u) data (up_sum u) st)
  | Http max_chunk alg content_md5 body =>
      snd (upload_chunk digest_hex max_chunk (up_now u) (up_id u) (up_user u)
             (mkParams (up_index u) (up_sum u) alg) content_md5 body st)
  end.
Definition run_uploads (us : list Upload) (st : Service) : Service := foldl run_upload st us.



(** The bytes of the parts handed over. *)
Definition assembled (d : Disk) (parts : CompletedUploadParts) : option bytes :=
  (fun l => concat l) <$> mapM (fun k => chunk_files d !! k) (cp_chunk_paths parts).


End uploading.

(** The witness runs in an empty service with a digest that is the identity. *)
Definition w_service (faults : list (option (str * nat))) : Service :=
  mkService ∅ (mkDisk ∅ ∅ ∅) faults.
Definition w_create : UM str CreateUploadResponse :=
  create_session_inner (lit "u1") 0 (lit "ann") (lit "a.bin") None (lit "x/y") 5 (Some 2%Z).
Definition w_upload (i : nat) (user : str) (d : bytes) (sum : option str) : Upload :=
  mkUpload 1 (lit "u1") user i sum (Whole d).
Lemma progress_survives_restart_witness :
  let s0 := mkSession [] [] [] None [] 5 2 (new_layout 5 2) 0 0 0 in
  let s := mark_complete 1 1 None 2 (mark_complete 1 0 None 2 s0) in
  us_bytes_received (UploadSession.recover_session (Some (UploadSession.build_progress_bitmask s))
                       (fun i => bool_decide (i ≠ 0%nat)) s0) = 2%Z.
Proof.
  intros s0 s. destruct (progress_survives_restart s0 s (fun i => bool_decide (i ≠ 0%nat))) as [_ ->].
  - unfold as_created. vm_compute. repeat constructor.
  - reflexivity.
  - vm_compute. repeat constructor; done.
  - reflexivity.
Defined.

(** ** Chunks in flight *)
(** A chunk that is complete can lose its data.  [commit_chunk] does not look at the chunk's
    status, which only [prepare_chunk] does, so when two uploads of one chunk are both prepared
    and the first commits, a second commit of the wrong length deletes the stored file while the
    chunk stays complete: completion then hands over a path with no file.  A second commit of the
    right length counts the chunk's bytes twice. *)
Theorem racing_commits_corrupt (digest_hex : ChecksumAlg -> bytes -> str) :
  let st0 := snd (w_create (w_service [])) in
  let prepared := fst (prepare_chunk (lit "u1") (lit "ann") 2 st0) in
  let put d st := set_disk st (put_chunk (disk st) (lit "u1", 2%nat) d) in
  let commit n := commit_chunk 1 (lit "u1") (lit "ann") 2 n None None in
  prepared = Ok ((lit "u1", 2%nat), 1%Z)
  ∧ (let st1 := snd (commit 1%Z (put [5]%Z st0)) in
     let st2 := snd (commit 0%Z st1) in
     let st3 := run_uploads digest_hex [w_upload 0 (lit "ann") [1; 2]%Z None;
                                     w_upload 1 (lit "ann") [3; 4]%Z None] st2 in
     exists parts, fst (complete_upload_inner (lit "u1") (lit "ann") st3) = Ok parts
       ∧ assembled (disk st3) parts = None)
  ∧ (let st2 := snd (commit 1%Z (snd (commit 1%Z (put [5]%Z st0)))) in
     us_bytes_received <$> sessions st2 !! lit "u1" = Some 2%Z).
Proof. split_and!; [by vm_compute|eexists; split; by vm_compute|by vm_compute]. Qed.
(** A chunk file is not "either fully written or absent": when the last flush fails, the request
    is refused but the prefix that reached the disk stays. *)
Example failed_flush_leaves_prefix (digest_hex : ChecksumAlg -> bytes -> str) :
  let st0 := mkService ∅ (mkDisk ∅ ∅ ∅) [None; None; Some (lit "no space", 1%nat)] in
  let run := stream_body_to_path digest_hex [DataFrame [1; 2; 3]%Z] (lit "u1", 0%nat) 10 None st0 in
  fst run = Err (AppError.internal_error (lit "Failed to flush chunk file: no space"))
  ∧ chunk_files (disk (snd run)) !! (lit "u1", 0%nat) = Some [1]%Z.
Proof. by split. Qed.
