(* ===== verification/BlobBackend.v ===== *)
(** * Blob storage backends

    The port [src/src/application/ports/blob_storage_ports.rs] as a class, the contract its
    documentation states as a class of laws, and the local file backend
    [src/src/infrastructure/services/local_blob_backend.rs], which is proved to keep it.  The
    hot-swap wrapper [src/src/infrastructure/services/swappable_blob_backend.rs] delegates to
    the backend it currently holds.

    A stream is the list of the items it yields.  The local backend keeps one file per hash; a
    file operation takes the next entry of a script of faults: [Some (err, k)] makes it fail
    with [err], a write after [k] bytes.  Storing from a path, enumeration, health checks and the
    durability sweep are left out. *)

From S2P Require Import Prelude.
From S2P Require Import RustStr.
From S2P Require Import DomainErrors.

(** ** I/O errors and streams *)
Inductive IoErrorKind :=
| IoNotFound | IoAlreadyExists | IoTimedOut | IoHostUnreachable | IoNetworkUnreachable
| IoNetworkDown | IoConnectionReset | IoConnectionAborted | IoNotConnected | IoBrokenPipe
| IoStaleNetworkFileHandle | IoInterrupted | IoResourceBusy | IoWouldBlock | IoUnexpectedEof
| IoOther.
#[global] Instance IoErrorKind_eq_dec : EqDecision IoErrorKind. Proof. solve_decision. Defined.
Record IoError := mkIoError { io_kind : IoErrorKind; io_text : str }.

Definition BlobStream : Type := list (result IoError bytes).
(** [data.chunks(n)]; every round drops [n > 0] bytes, so the length is enough fuel. *)
Fixpoint chunks_of (fuel n : nat) (b : bytes) : list bytes :=
  match fuel, b with
  | O, _ | _, [] => []
  | S fuel', _ => take n b :: chunks_of fuel' n (drop n b)
  end.
Definition stream_of (n : nat) (b : bytes) : BlobStream := Ok <$> chunks_of (length b) n b.

Lemma chunks_of_concat n : forall fuel b, (0 < n)%nat -> (length b <= fuel)%nat ->
  concat (chunks_of fuel n b) = b.
Proof.
  induction fuel as [|fuel IH]; intros [|x b] Hn Hf; try done; [simpl in Hf; lia|].
  cbn [chunks_of concat]. rewrite IH; [apply take_drop|done|]. rewrite length_drop. simpl in *. lia.
Qed.

(** ** The port *)
Class BlobStorageBackend (St : Type) := {
  put_blob_from_bytes : str -> bytes -> M St DomainError Z;
  put_blob_from_bytes_unsynced : str -> bytes -> M St DomainError Z;
  put_blob_from_bytes_replace : str -> bytes -> M St DomainError Z;
  get_blob_stream : str -> M St DomainError BlobStream;
  (** [start] inclusive, [end_] exclusive. *)
  get_blob_range_stream : str -> Z -> option Z -> M St DomainError BlobStream;
  delete_blob : str -> M St DomainError unit;
  blob_exists : str -> M St DomainError bool;
  blob_size : str -> M St DomainError Z;
}.

(** The bytes [[start, end)] of a blob. *)
Definition byte_range (start : Z) (end_ : option Z) (b : bytes) : bytes :=
  let total := Z.of_nat (length b) in
  let end_excl := Z.min (default total end_) total in
  take (Z.to_nat (end_excl - start)) (drop (Z.to_nat start) b).

(** The bytes a stream yields, when it does not fail. *)
Fixpoint stream_bytes (s : BlobStream) : result IoError bytes :=
  match s with
  | [] => Ok []
  | Err e :: _ => Err e
  | Ok b :: rest => match stream_bytes rest with Ok r => Ok (b ++ r) | Err e => Err e end
  end.
Lemma stream_bytes_ok l : stream_bytes (Ok <$> l) = Ok (concat l).
Proof. induction l as [|b l IH]; [done|]. rewrite fmap_cons. simpl. by rewrite IH. Qed.
Lemma stream_of_bytes n b : (0 < n)%nat -> stream_bytes (stream_of n b) = Ok b.
Proof. intros Hn. unfold stream_of. rewrite stream_bytes_ok. by rewrite chunks_of_concat. Qed.
Lemma stream_bytes_fail l e rest : stream_bytes ((Ok <$> l) ++ Err e :: rest) = Err e.
Proof. induction l as [|b l IH]; [done|]. rewrite fmap_cons. simpl. by rewrite IH. Qed.

(** The contract.  [v_present] says whether an object is stored under a hash and [v_content]
    what a read of it returns, [None] when it cannot be read.  Storing skips an object that is
    present and touches no other, and without synchronisation it may also write the same bytes
    again, as the object stores do, whose upload is unconditional; a replacement is atomic; reads change nothing and return the
    content or the requested part of it; deleting is idempotent.  A failed store of an absent
    object may leave anything under that hash, and a failed replacement or deletion may have
    taken effect.  On a healthy backend reads succeed, and so do
    writes of a size that fits. *)
Record View (St : Type) := mkView {
  v_inv : St -> Prop;
  v_healthy : St -> Prop;
  v_fits : Z -> Prop;
  v_present : St -> str -> bool;
  v_content : St -> str -> option bytes;
}.
Arguments mkView {St}.
Arguments v_inv {St} v st.
Arguments v_healthy {St} v st.
Arguments v_fits {St} v n.
Arguments v_present {St} v st h.
Arguments v_content {St} v st h.
Definition unchanged_at {St} (v : View St) (st st' : St) (h : str) : Prop :=
  v_content v st' h = v_content v st h ∧ v_present v st' h = v_present v st h.
Definition stores {St} (v : View St) (op : str -> bytes -> M St DomainError Z) : Prop :=
  forall st h d res st', v_inv v st -> op h d st = (res, st') ->
    v_inv v st'
    ∧ (forall h', h' ≠ h ∨ v_present v st h = true -> unchanged_at v st st' h')
    ∧ (forall n, res = Ok n -> v_present v st h = false -> v_content v st' h = Some d)
    ∧ (v_healthy v st -> v_healthy v st' ∧ (v_fits v (Z.of_nat (length d)) -> exists n, res = Ok n)).
(** A rewrite that succeeds leaves the new bytes, or an object that was there as it was. *)
Definition rewrites {St} (v : View St) (op : str -> bytes -> M St DomainError Z) : Prop :=
  forall st h d res st', v_inv v st -> op h d st = (res, st') ->
    v_inv v st'
    ∧ (forall h', h' ≠ h -> unchanged_at v st st' h')
    ∧ (forall n, res = Ok n -> v_content v st' h = Some d ∨ (v_present v st h = true ∧ unchanged_at v st st' h))
    ∧ (v_healthy v st -> v_healthy v st' ∧ (v_fits v (Z.of_nat (length d)) -> exists n, res = Ok n)).
(** A replacement is atomic: it leaves the old object or the new bytes, these when it succeeds. *)
Definition replaces {St} (v : View St) (op : str -> bytes -> M St DomainError Z) : Prop :=
  forall st h d res st', v_inv v st -> op h d st = (res, st') ->
    v_inv v st'
    ∧ (forall h', h' ≠ h -> unchanged_at v st st' h')
    ∧ (unchanged_at v st st' h ∨ v_content v st' h = Some d)
    ∧ (forall n, res = Ok n -> v_content v st' h = Some d)
    ∧ (v_healthy v st -> v_healthy v st' ∧ (v_fits v (Z.of_nat (length d)) -> exists n, res = Ok n)).
(** [part] of the content comes back. *)
Definition reads_part {St} (v : View St) (part : bytes -> bytes) (op : str -> M St DomainError BlobStream)
  : Prop :=
  forall st h res st', v_inv v st -> op h st = (res, st') ->
    v_inv v st' ∧ (forall h', unchanged_at v st st' h')
    ∧ (forall s b, res = Ok s -> stream_bytes s = Ok b ->
         exists full, v_content v st h = Some full ∧ b = part full)
    ∧ (v_healthy v st -> v_healthy v st' ∧ forall full, v_content v st h = Some full ->
         exists s, res = Ok s ∧ stream_bytes s = Ok (part full)).
Definition deletes {St} (v : View St) (op : str -> M St DomainError unit) : Prop :=
  forall st h res st', v_inv v st -> op h st = (res, st') ->
    v_inv v st'
    ∧ (forall h', h' ≠ h -> unchanged_at v st st' h')
    ∧ (unchanged_at v st st' h ∨ v_present v st' h = false)
    ∧ (res = Ok tt -> v_present v st' h = false).
Definition probes {St} (v : View St) (op : str -> M St DomainError bool) : Prop :=
  forall st h res st', v_inv v st -> op h st = (res, st') ->
    v_inv v st' ∧ (forall h', unchanged_at v st st' h')
    ∧ (res = Ok true -> v_present v st h = true)
    ∧ (v_healthy v st -> v_healthy v st' ∧ res = Ok (v_present v st h)).
Class BackendLaws (St : Type) `{BlobStorageBackend St} := {
  bk_view : View St;
  bk_absent st h : v_present bk_view st h = false -> v_content bk_view st h = None;
  bk_put : stores bk_view put_blob_from_bytes;
  bk_put_unsynced : rewrites bk_view put_blob_from_bytes_unsynced;
  bk_rewrite : rewrites bk_view put_blob_from_bytes_replace;
  bk_get : reads_part bk_view (fun b => b) get_blob_stream;
  bk_range start end_ : (0 <= start)%Z ->
    reads_part bk_view (byte_range start end_) (fun h => get_blob_range_stream h start end_);
  bk_delete : deletes bk_view delete_blob;
  bk_exists : probes bk_view blob_exists;
}.

(** What the backends that override the rewrite promise in addition. *)
Class ReplaceLaws (St : Type) `{BackendLaws St} : Prop := {
  bk_replace : replaces bk_view put_blob_from_bytes_replace;
}.
(** A failed write leaves the object as it was, or complete. *)
Definition fails_clean {St} (v : View St) (op : str -> bytes -> M St DomainError Z) : Prop :=
  forall st h d e st', v_inv v st -> op h d st = (Err e, st') ->
    unchanged_at v st st' h ∨ v_content v st' h = Some d.
Class AtomicPuts (St : Type) `{BackendLaws St} : Prop := {
  failed_put : fails_clean bk_view put_blob_from_bytes;
  failed_put_unsynced : fails_clean bk_view put_blob_from_bytes_unsynced;
  failed_rewrite : fails_clean bk_view put_blob_from_bytes_replace;
}.
Lemma replaces_rewrites {St} (v : View St) op : replaces v op -> rewrites v op.
Proof.
  intros Hr st h d res st' Hi Hx. destruct (Hr st h d res st' Hi Hx) as (? & ? & _ & Hok & ?). split_and!; try done.
  intros n Hn. left. by eapply Hok.
Qed.
(** Storing under the name of a rewrite keeps the weaker promise. *)
Lemma stores_rewrites {St} (v : View St) op : stores v op -> rewrites v op.
Proof.
  intros Hs st h d res st' Hi Hx. destruct (Hs st h d res st' Hi Hx) as (? & Hun & Hok & ?). split_and!; try done.
  - intros h' Hne. apply Hun. by left.
  - intros n Hn. destruct (v_present v st h) eqn:Ep; [right; split; [done|]; apply Hun; by right|]. left. by eapply Hok.
Qed.

(** ** The local backend *)
Definition STREAM_CHUNK_SIZE : nat := Z.to_nat (256 * 1024).
Record LocalBlobBackend := mkLocal {
  files : gmap str bytes;
  l_io : list (option (IoError * nat));
}.
Definition LM (T : Type) : Type := M LocalBlobBackend DomainError T.
Definition blob_err (what : str) (e : IoError) : DomainError :=
  DomainError.internal_error (lit "Blob") (what ++ io_text e).
Definition local_io_error (entity context : str) (err : IoError) : DomainError :=
  let message := context ++ lit ": " ++ io_text err in
  match io_kind err with
  | IoNotFound => DomainError.new NotFound entity message
  | IoTimedOut | IoHostUnreachable | IoNetworkUnreachable | IoNetworkDown | IoConnectionReset
  | IoConnectionAborted | IoNotConnected | IoBrokenPipe | IoStaleNetworkFileHandle | IoInterrupted
  | IoResourceBusy => DomainError.transient_backend entity message
  | _ => DomainError.internal_error entity message
  end.

(** The next entry of the script. *)
Definition take_fault : LM (option (IoError * nat)) := fun st =>
  match l_io st with
  | f :: rest => (Ok f, mkLocal (files st) rest)
  | [] => (Ok None, st)
  end.
Definition set_file (h : str) (b : bytes) (st : LocalBlobBackend) : LocalBlobBackend :=
  mkLocal (<[h := b]> (files st)) (l_io st).
Definition not_there : IoError := mkIoError IoNotFound (lit "No such file or directory (os error 2)").
Definition already_there : IoError := mkIoError IoAlreadyExists (lit "File exists (os error 17)").
(** An operation without an effect of its own, such as a flush or a synchronisation. *)
Definition fallible (what : str) : LM unit :=
  f ← take_fault;
  match f with Some (e, _) => raise (blob_err what e) | None => mret tt end.

(** [write_blob_bytes]: [false] when the file was already there. *)
Definition write_blob_bytes (h : str) (data : bytes) : LM bool :=
  f ← take_fault;
  present ← gets (fun st => files st !! h);
  let opened : option IoError :=
    match f with
    | Some (e, _) => Some e
    | None => match present with Some _ => Some already_there | None => None end
    end in
  match opened with
  | Some e =>
      if decide (io_kind e = IoAlreadyExists) then mret false
      else raise (blob_err (lit "Failed to create blob file: ") e)
  | None =>
      _ ← modify (set_file h []);
      f ← take_fault;
      match f with
      | Some (e, k) =>
          _ ← modify (set_file h (take k data));
          raise (blob_err (lit "Failed to write blob from bytes: ") e)
      | None => _ ← modify (set_file h data); mret true
      end
  end.
Definition local_put_blob_from_bytes (h : str) (data : bytes) : LM Z :=
  written ← write_blob_bytes h data;
  _ ← (if written : bool then fallible (lit "Failed to fsync blob file: ") else mret tt);
  mret (Z.of_nat (length data)).
Definition local_put_blob_from_bytes_unsynced (h : str) (data : bytes) : LM Z :=
  written ← write_blob_bytes h data;
  _ ← (if written : bool then fallible (lit "Failed to flush blob file: ") else mret tt);
  mret (Z.of_nat (length data)).
(** The bytes go to a temporary file of a name of its own, which is renamed over the blob. *)
Definition local_put_blob_from_bytes_replace (h : str) (data : bytes) : LM Z :=
  _ ← fallible (lit "Failed to create replace-tmp: ");
  _ ← fallible (lit "Failed to write replace-tmp: ");
  _ ← fallible (lit "Failed to fsync replace-tmp: ");
  _ ← fallible (lit "Failed to atomically replace blob: ");
  _ ← modify (set_file h data);
  mret (Z.of_nat (length data)).

(** [File::open] of a blob. *)
Definition open_blob (what h : str) : LM bytes :=
  f ← take_fault;
  present ← gets (fun st => files st !! h);
  match f, present with
  | Some (e, _), _ => raise (local_io_error (lit "Blob") (what ++ h) e)
  | None, Some b => mret b
  | None, None => raise (local_io_error (lit "Blob") (what ++ h) not_there)
  end.
(** Reading an open file: all of it, or a part followed by an error. *)
Definition read_stream (b : bytes) : LM BlobStream :=
  f ← take_fault;
  mret (match f with
        | None => stream_of STREAM_CHUNK_SIZE b
        | Some (e, k) => stream_of STREAM_CHUNK_SIZE (take k b) ++ [Err e]
        end).
Definition local_get_blob_stream (h : str) : LM BlobStream :=
  b ← open_blob (lit "Failed to open blob ") h; read_stream b.
Definition local_get_blob_range_stream (h : str) (start : Z) (end_ : option Z) : LM BlobStream :=
  b ← open_blob (lit "Failed to open blob ") h;
  _ ← fallible (lit "Failed to seek in blob: ");
  let rest := drop (Z.to_nat start) b in
  read_stream (match end_ with
               | Some end_pos => take (Z.to_nat (end_pos ⊖ start)) rest
               | None => rest
               end).
Definition local_delete_blob (h : str) : LM unit :=
  f ← take_fault;
  present ← gets (fun st => files st !! h);
  let outcome : option IoError :=
    match f with
    | Some (e, _) => Some e
    | None => match present with Some _ => None | None => Some not_there end
    end in
  match outcome with
  | None => modify (fun st => mkLocal (delete h (files st)) (l_io st))
  | Some e =>
      if decide (io_kind e = IoNotFound) then mret tt
      else raise (DomainError.internal_error (lit "Blob")
                    (lit "Failed to delete blob " ++ h ++ lit ": " ++ io_text e))
  end.
Definition local_blob_exists (h : str) : LM bool :=
  f ← take_fault;
  present ← gets (fun st => files st !! h);
  mret (match f with Some _ => false | None => match present with Some _ => true | None => false end end).
Definition local_blob_size (h : str) : LM Z :=
  b ← open_blob (lit "Failed to stat blob ") h; mret (Z.of_nat (length b)).
#[export] Instance local_backend : BlobStorageBackend LocalBlobBackend := {|
  put_blob_from_bytes := local_put_blob_from_bytes;
  put_blob_from_bytes_unsynced := local_put_blob_from_bytes_unsynced;
  put_blob_from_bytes_replace := local_put_blob_from_bytes_replace;
  get_blob_stream := local_get_blob_stream;
  get_blob_range_stream := local_get_blob_range_stream;
  delete_blob := local_delete_blob;
  blob_exists := local_blob_exists;
  blob_size := local_blob_size;
|}.

(** ** The local backend keeps the contract *)

(** The system says that a file is missing or already there only when it is. *)
Definition fault_ok (f : option (IoError * nat)) : Prop :=
  match f with Some (e, _) => io_kind e ≠ IoNotFound ∧ io_kind e ≠ IoAlreadyExists | None => True end.
Definition script_ok (st : LocalBlobBackend) : Prop := Forall fault_ok (l_io st).
Definition no_io_faults (st : LocalBlobBackend) : Prop := Forall (fun f => f = None) (l_io st).
Lemma take_fault_spec st : exists f st1,
  take_fault st = (Ok f, st1) ∧ files st1 = files st
  ∧ (script_ok st -> script_ok st1 ∧ fault_ok f) ∧ (no_io_faults st -> no_io_faults st1 ∧ f = None).
Proof.
  unfold take_fault, script_ok, no_io_faults. destruct st as [fs [|f rest]]; simpl.
  - exists None, (mkLocal fs []). by split_and!.
  - exists f, (mkLocal fs rest). split_and!; try done.
    + by intros [? ?]%Forall_cons_1.
    + by intros [? ?]%Forall_cons_1.
Qed.
Ltac next_fault :=
  lazymatch goal with
  | H : context [take_fault ?st] |- _ =>
      let f := fresh "f" in let st1 := fresh "st" in let E := fresh "E" in
      let Hf := fresh "Hfiles" in let Ho := fresh "Hok" in let Hn := fresh "Hnone" in
      destruct (take_fault_spec st) as (f & st1 & E & Hf & Ho & Hn); rewrite E in H; clear E
  end.
(** What an operation does to the files. *)
Lemma fallible_spec what st res st1 :
  fallible what st = (res, st1) ->
  files st1 = files st ∧ (script_ok st -> script_ok st1)
  ∧ (no_io_faults st -> no_io_faults st1 ∧ res = Ok tt).
Proof.
  unfold fallible. unfold_m. intros Hx. next_fault.
  destruct f as [[e k]|]; injection Hx as <- <-; split_and!; try done; try tauto.
  intros Hn. by destruct (Hnone Hn).
Qed.
Lemma write_blob_bytes_spec h d st res st1 :
  script_ok st -> write_blob_bytes h d st = (res, st1) ->
  script_ok st1 ∧ (forall h', h' ≠ h ∨ is_Some (files st !! h) -> files st1 !! h' = files st !! h')
  ∧ (forall b, res = Ok b -> files st !! h = None -> files st1 !! h = Some d)
  ∧ (no_io_faults st -> no_io_faults st1 ∧ exists b, res = Ok b).
Proof.
  intros Hok. unfold write_blob_bytes. unfold_m. intros Hx. next_fault.
  destruct (Hok0 Hok) as [Hok1 Hf]. rewrite Hfiles in Hx.
  destruct f as [[e k]|].
  { destruct Hf as [_ Hf]. rewrite decide_False in Hx by done. injection Hx as <- <-.
    rewrite Hfiles. split_and!; try done. intros Hn. by destruct (Hnone Hn). }
  destruct (files st !! h) as [old|] eqn:Eh; simpl in Hx.
  { injection Hx as <- <-. rewrite Hfiles. split_and!; try done. intros Hn. split; [by apply Hnone|eauto]. }
  next_fault. simpl in Hfiles0.
  apply Hok2 in Hok1 as Hok3.
  destruct f as [[e k]|]; injection Hx as <- <-; simpl; rewrite Hfiles0, Hfiles.
  - split_and!; [apply Hok3| | |].
    + intros h' [Hne|[? ?]]; [|done]. by rewrite !lookup_insert_ne.
    + done.
    + intros Hn. destruct (Hnone Hn) as [Hn1 _]. by destruct (Hnone0 Hn1).
  - split_and!; [apply Hok3| | |].
    + intros h' [Hne|[? ?]]; [|done]. by rewrite !lookup_insert_ne.
    + intros _ _ _. by rewrite lookup_insert_eq.
    + intros Hn. destruct (Hnone Hn) as [Hn1 _]. destruct (Hnone0 Hn1). split; [done|eauto].
Qed.
Definition local_present (st : LocalBlobBackend) (h : str) : bool :=
  match files st !! h with Some _ => true | None => false end.
Lemma local_present_Some st h : local_present st h = true <-> is_Some (files st !! h).
Proof. unfold local_present. destruct (files st !! h); split; intros Hx; try done; by destruct Hx. Qed.
Lemma local_present_None st h : local_present st h = false <-> files st !! h = None.
Proof. unfold local_present. by destruct (files st !! h). Qed.
Definition local_view : View LocalBlobBackend :=
  mkView script_ok no_io_faults (fun _ => True) local_present (fun st h => files st !! h).
Lemma same_files st st' h : files st' !! h = files st !! h -> unchanged_at local_view st st' h.
Proof. unfold unchanged_at, local_view, local_present. simpl. by intros ->. Qed.

Lemma local_put_spec what :
  stores local_view (fun h d =>
    written ← write_blob_bytes h d;
    _ ← (if written : bool then fallible what else mret tt);
    mret (Z.of_nat (length d))).
Proof.
  intros st h d res st' Hok. unfold_m. intros Hx. simpl in Hok |- *.
  destruct (write_blob_bytes h d st) as [r1 st1] eqn:E1.
  destruct (write_blob_bytes_spec h d st r1 st1 Hok E1) as (Hok1 & Hsame & Hput & Hlive).
  assert (Hsame' : forall h' st2, files st2 = files st1 -> h' ≠ h ∨ local_present st h = true ->
    unchanged_at local_view st st2 h').
  { intros h' st2 Hf Hh. apply same_files. rewrite Hf. apply Hsame.
    destruct Hh as [?|Hp]; [by left|right]. by apply local_present_Some. }
  destruct r1 as [w|e]; [|injection Hx as <- <-].
  2: { split_and!; [done|intros; by apply Hsame'|done|]. intros Hn. by destruct (Hlive Hn) as [_ [? ?]]. }
  destruct w.
  - destruct (fallible what st1) as [r2 st2] eqn:E2.
    destruct (fallible_spec what st1 r2 st2 E2) as (Hf2 & Hok2 & Hl2).
    destruct r2 as [[]|e]; injection Hx as <- <-.
    + split_and!; [auto|intros; by apply Hsame'| |].
      * intros n _ Hp. rewrite Hf2. apply (Hput true); [done|]. by apply local_present_None.
      * intros Hn. destruct (Hlive Hn) as [Hn1 _]. destruct (Hl2 Hn1). eauto.
    + split_and!; [auto|intros; by apply Hsame'|done|].
      intros Hn. destruct (Hlive Hn) as [Hn1 _]. by destruct (Hl2 Hn1).
  - injection Hx as <- <-. split_and!; [done|intros; by apply Hsame'| |].
    + intros n _ Hp. apply (Hput false); [done|]. by apply local_present_None.
    + intros Hn. destruct (Hlive Hn). eauto.
Qed.
(** A run of harmless steps, then the effect. *)
Lemma fallible_bind {T} what (k : LM T) st res st' :
  (fallible what ≫= fun _ => k) st = (res, st') ->
  (exists st1, files st1 = files st ∧ (script_ok st -> script_ok st1)
     ∧ (no_io_faults st -> no_io_faults st1) ∧ k st1 = (res, st'))
  ∨ (exists err, res = Err err ∧ files st' = files st ∧ (script_ok st -> script_ok st')
     ∧ ¬ no_io_faults st).
Proof.
  unfold mbind, M_bind. intros Hx. destruct (fallible what st) as [r1 st1] eqn:E1.
  destruct (fallible_spec what st r1 st1 E1) as (Hf & Hok & Hl). destruct r1 as [[]|e].
  - left. exists st1. split_and!; try done. intros Hn. by apply Hl.
  - right. injection Hx as <- <-. exists e. split_and!; try done. intros Hn. by destruct (Hl Hn).
Qed.
Lemma local_replace_spec h d st res st' :
  local_put_blob_from_bytes_replace h d st = (res, st') ->
  (script_ok st -> script_ok st')
  ∧ ((exists n, res = Ok n ∧ files st' = <[h := d]> (files st)
      ∧ (no_io_faults st -> no_io_faults st'))
     ∨ exists err, res = Err err ∧ files st' = files st ∧ ¬ no_io_faults st).
Proof.
  unfold local_put_blob_from_bytes_replace. intros Hx.
  apply fallible_bind in Hx as [(s1 & F1 & O1 & N1 & Hx)|(e & -> & ? & ? & ?)]; [|naive_solver].
  apply fallible_bind in Hx as [(s2 & F2 & O2 & N2 & Hx)|(e & -> & ? & ? & ?)];
    [|split; [auto|right; exists e; split_and!; [done|congruence|tauto]]].
  apply fallible_bind in Hx as [(s3 & F3 & O3 & N3 & Hx)|(e & -> & ? & ? & ?)];
    [|split; [auto|right; exists e; split_and!; [done|congruence|tauto]]].
  apply fallible_bind in Hx as [(s4 & F4 & O4 & N4 & Hx)|(e & -> & ? & ? & ?)];
    [|split; [auto|right; exists e; split_and!; [done|congruence|tauto]]].
  unfold_m in Hx. injection Hx as <- <-. split; [unfold script_ok in *; simpl; auto|].
  left. eexists. split_and!; [done|simpl; congruence|unfold no_io_faults in *; simpl; auto].
Qed.
Lemma open_blob_spec what h st res st1 :
  open_blob what h st = (res, st1) ->
  files st1 = files st ∧ (script_ok st -> script_ok st1)
  ∧ (forall b, res = Ok b -> files st !! h = Some b)
  ∧ (no_io_faults st -> no_io_faults st1 ∧ forall b, files st !! h = Some b -> res = Ok b).
Proof.
  unfold open_blob. unfold_m. intros Hx. next_fault. rewrite Hfiles in Hx.
  destruct f as [[e k]|]; [|destruct (files st !! h) as [b|] eqn:Eh]; injection Hx as <- <-;
    split_and!; try done; try tauto; try (intros Hn; by destruct (Hnone Hn)); try congruence.
  all: intros Hn; split; [by apply Hnone|congruence].
Qed.
Lemma chunk_size_pos : (0 < STREAM_CHUNK_SIZE)%nat.
Proof. unfold STREAM_CHUNK_SIZE. lia. Qed.
Lemma read_stream_spec b st res st1 :
  read_stream b st = (res, st1) ->
  files st1 = files st ∧ (script_ok st -> script_ok st1)
  ∧ (exists s, res = Ok s ∧ (forall b', stream_bytes s = Ok b' -> b' = b)
     ∧ (no_io_faults st -> no_io_faults st1 ∧ stream_bytes s = Ok b)).
Proof.
  unfold read_stream. unfold_m. intros Hx. next_fault. injection Hx as <- <-.
  split_and!; [done|tauto|]. eexists. split; [done|]. destruct f as [[e k]|].
  - unfold stream_of. rewrite stream_bytes_fail. split; [done|]. intros Hn. by destruct (Hnone Hn).
  - rewrite stream_of_bytes by apply chunk_size_pos. split; [by intros b' [= ->]|].
    intros Hn. split; [by apply Hnone|done].
Qed.
Lemma byte_range_local start end_ (b : bytes) :
  (0 <= start)%Z ->
  match end_ with
  | Some end_pos => take (Z.to_nat (end_pos ⊖ start)) (drop (Z.to_nat start) b)
  | None => drop (Z.to_nat start) b
  end = byte_range start end_ b.
Proof.
  intros Hs. unfold byte_range. set (rest := drop (Z.to_nat start) b).
  assert (Hl : length rest = (length b - Z.to_nat start)%nat) by apply length_drop.
  destruct end_ as [e|]; simpl.
  - unfold saturating_sub. destruct (Z.le_ge_cases e (Z.of_nat (length b))).
    + rewrite Z.min_l by done. f_equal. lia.
    + rewrite Z.min_r by done. rewrite !take_ge; [done|lia|lia].
  - rewrite Z.min_id. rewrite take_ge; [done|lia].
Qed.
Lemma local_range_spec start end_ : (0 <= start)%Z ->
  reads_part local_view (byte_range start end_) (fun h => local_get_blob_range_stream h start end_).
Proof.
  intros Hs st h res st' Hok. unfold local_get_blob_range_stream. intros Hx.
  unfold mbind at 1, M_bind in Hx.
  destruct (open_blob _ h st) as [r1 st1] eqn:E1.
  destruct (open_blob_spec _ _ _ _ _ E1) as (F1 & O1 & R1 & L1). destruct r1 as [b|e].
  2: { injection Hx as <- <-. split; [by apply O1|]. split; [intros; apply same_files; by rewrite F1|].
       split; [done|]. intros Hn. destruct (L1 Hn) as [? HL].
       split; [done|]. intros full Hf. by apply HL in Hf. }
  pose proof (R1 b eq_refl) as Hb.
  apply fallible_bind in Hx as [(st2 & F2 & O2 & N2 & Hx)|(e & -> & F2 & O2 & N2)].
  2: { split; [by apply O2, O1|]. split; [intros; apply same_files; congruence|]. split; [done|]. intros Hn. destruct (L1 Hn). tauto. }
  rewrite byte_range_local in Hx by done.
  destruct (read_stream_spec _ _ _ _ Hx) as (F3 & O3 & s & -> & Hr & Hl).
  split; [simpl in *; auto|]. split; [intros; apply same_files; congruence|]. split.
  - intros s' b' [= <-] Hb'. exists b. split; [done|]. by apply Hr.
  - intros Hn. destruct (L1 Hn) as [Hn1 _]. destruct (Hl (N2 Hn1)) as [Hn3 Hbytes].
    split; [done|]. intros full Hf. simpl in Hf. rewrite Hb in Hf. injection Hf as <-. eauto.
Qed.
Lemma local_get_spec : reads_part local_view (fun b => b) local_get_blob_stream.
Proof.
  intros st h res st' Hok. unfold local_get_blob_stream. intros Hx.
  unfold mbind at 1, M_bind in Hx.
  destruct (open_blob _ h st) as [r1 st1] eqn:E1.
  destruct (open_blob_spec _ _ _ _ _ E1) as (F1 & O1 & R1 & L1). destruct r1 as [b|e].
  2: { injection Hx as <- <-. split; [by apply O1|]. split; [intros; apply same_files; by rewrite F1|].
       split; [done|]. intros Hn. destruct (L1 Hn) as [? HL].
       split; [done|]. intros b Hf. by apply HL in Hf. }
  pose proof (R1 b eq_refl) as Hb.
  destruct (read_stream_spec _ _ _ _ Hx) as (F3 & O3 & s & -> & Hr & Hl).
  split; [simpl in *; auto|]. split; [intros; apply same_files; congruence|]. split.
  - intros s' b' [= <-] Hb'. exists b. split; [done|]. by apply Hr.
  - intros Hn. destruct (L1 Hn) as [Hn1 _]. destruct (Hl Hn1) as [Hn3 Hbytes].
    split; [done|]. intros b' Hf. simpl in Hf. rewrite Hb in Hf. injection Hf as <-. eauto.
Qed.

Lemma local_replaces : replaces local_view local_put_blob_from_bytes_replace.
Proof.
  intros st h d res st' Hok Hx.
  destruct (local_replace_spec _ _ _ _ _ Hx) as [Hok' [(n & -> & Hf & Hn)|(err & -> & Hf & Hn)]].
  - split_and!; [by apply Hok'| | | |].
    + intros h' Hne. apply same_files. by rewrite Hf, lookup_insert_ne.
    + right. simpl. by rewrite Hf, lookup_insert_eq.
    + intros _ _. simpl. by rewrite Hf, lookup_insert_eq.
    + intros Hh. split; [by apply Hn|by eauto].
  - split_and!; [by apply Hok'| | |done|done]; [intros h' _|left]; apply same_files; by rewrite Hf.
Qed.
(** The local backend skips a present blob in both variants. *)
Lemma local_put_unsynced_stores : stores local_view put_blob_from_bytes_unsynced.
Proof. exact (local_put_spec (lit "Failed to flush blob file: ")). Qed.
#[export] Instance local_laws : BackendLaws LocalBlobBackend.
Proof.
  refine {| bk_view := local_view |}.
  - intros st h. apply local_present_None.
  - exact (local_put_spec (lit "Failed to fsync blob file: ")).
  - apply stores_rewrites, local_put_unsynced_stores.
  - apply replaces_rewrites, local_replaces.
  - exact local_get_spec.
  - exact local_range_spec.
  - intros st h res st' Hok Hx. simpl in Hx. unfold local_delete_blob in Hx. unfold_m in Hx.
    next_fault. destruct (Hok0 Hok) as [Hok1 Hf]. rewrite Hfiles in Hx.
    destruct f as [[e k]|]; [|destruct (files st !! h) as [b|] eqn:Eh].
    + destruct Hf as [Hnf _]. rewrite decide_False in Hx by done. injection Hx as <- <-.
      split_and!; [done| | |done]; [intros h' _|left]; apply same_files; by rewrite Hfiles.
    + injection Hx as <- <-. assert (Hgone : local_present (mkLocal (delete h (files st0)) (l_io st0)) h = false)
        by (apply local_present_None; simpl; by rewrite lookup_delete_eq).
      split_and!; [done| |by right|done]. intros h' Hne. apply same_files. simpl. by rewrite Hfiles, lookup_delete_ne.
    + injection Hx as <- <-. split_and!; [done| | |].
      * intros h' _. apply same_files. by rewrite Hfiles.
      * left. apply same_files. by rewrite Hfiles.
      * intros _. apply local_present_None. by rewrite Hfiles.
  - intros st h res st' Hok Hx. simpl in Hx. unfold local_blob_exists in Hx. unfold_m in Hx.
    next_fault. rewrite Hfiles in Hx. injection Hx as <- <-.
    split_and!; [by apply Hok0|intros h'; apply same_files; by rewrite Hfiles| |].
    + simpl. unfold local_present. by destruct f, (files st !! h).
    + intros Hn. destruct (Hnone Hn) as [? ->]. split; [done|]. simpl. by unfold local_present.
Defined.

#[export] Instance local_replace_laws : ReplaceLaws LocalBlobBackend.
Proof. constructor. exact local_replaces. Qed.

(** A local disk on which no operation fails keeps the contract, and its writes are atomic. *)
Definition clean_view : View LocalBlobBackend :=
  mkView no_io_faults no_io_faults (fun _ => True) local_present (fun st h => files st !! h).
Lemma clean_script st : no_io_faults st -> script_ok st.
Proof. unfold no_io_faults, script_ok. apply Forall_impl. by intros f ->. Qed.
Definition clean_laws : BackendLaws LocalBlobBackend.
Proof.
  refine {| bk_view := clean_view |}.
  - apply (bk_absent (BackendLaws := local_laws)).
  - intros st h d res st' Hi Hx. destruct (bk_put (BackendLaws := local_laws) _ _ _ _ _ (clean_script _ Hi) Hx) as (_ & ? & ? & Hn).
    destruct (Hn Hi). by split_and!.
  - intros st h d res st' Hi Hx. destruct (bk_put_unsynced (BackendLaws := local_laws) _ _ _ _ _ (clean_script _ Hi) Hx) as (_ & ? & ? & Hn).
    destruct (Hn Hi). by split_and!.
  - intros st h d res st' Hi Hx. destruct (bk_rewrite (BackendLaws := local_laws) _ _ _ _ _ (clean_script _ Hi) Hx) as (_ & ? & ? & Hn).
    destruct (Hn Hi). by split_and!.
  - intros st h res st' Hi Hx. destruct (bk_get (BackendLaws := local_laws) _ _ _ _ (clean_script _ Hi) Hx) as (_ & ? & ? & Hn).
    destruct (Hn Hi). by split_and!.
  - intros start end_ Hst st h res st' Hi Hx.
    destruct (bk_range (BackendLaws := local_laws) start end_ Hst _ _ _ _ (clean_script _ Hi) Hx) as (_ & ? & ? & Hn).
    destruct (Hn Hi). by split_and!.
  - intros st h res st' Hi Hx. destruct (bk_delete (BackendLaws := local_laws) _ _ _ _ (clean_script _ Hi) Hx) as (_ & ? & ? & ?).
    split; [|by split_and!]. cbn in Hx. unfold local_delete_blob in Hx. unfold_m in Hx.
    destruct (take_fault_spec st) as (f & st1 & E & Hf & _ & Hn). rewrite E in Hx. destruct (Hn Hi) as [Hn1 ->].
    rewrite Hf in Hx. destruct (files st !! h); injection Hx as <- <-; done.
  - intros st h res st' Hi Hx. destruct (bk_exists (BackendLaws := local_laws) _ _ _ _ (clean_script _ Hi) Hx) as (_ & ? & ? & Hn).
    destruct (Hn Hi). by split_and!.
Defined.
Definition clean_atomic : @AtomicPuts LocalBlobBackend local_backend clean_laws.
Proof.
  constructor; intros st h d e st' Hi Hx.
  - destruct (@bk_put _ _ clean_laws _ _ _ _ _ Hi Hx) as (_ & _ & _ & Hn). destruct (Hn Hi) as [_ Hok]. by destruct (Hok I).
  - destruct (@bk_put_unsynced _ _ clean_laws _ _ _ _ _ Hi Hx) as (_ & _ & _ & Hn). destruct (Hn Hi) as [_ Hok]. by destruct (Hok I).
  - destruct (@bk_rewrite _ _ clean_laws _ _ _ _ _ Hi Hx) as (_ & _ & _ & Hn). destruct (Hn Hi) as [_ Hok]. by destruct (Hok I).
Defined.

(** ** The hot-swap wrapper *)
Record SwappableBlobBackend (St : Type) := mkSwappable { current : St }.
Arguments mkSwappable {St} current.
Arguments current {St} s.
Definition swap {St} (new : St) (s : SwappableBlobBackend St) : SwappableBlobBackend St := mkSwappable new.
Definition delegate {St T} (m : M St DomainError T) : M (SwappableBlobBackend St) DomainError T := fun s =>
  let (res, st) := m (current s) in (res, mkSwappable st).
(** The wrapper forwards every method but [put_blob_from_bytes_replace], for which it inherits
    the default of the trait, [put_blob_from_bytes]. *)
#[export] Instance swappable_backend {St} `{BlobStorageBackend St}
  : BlobStorageBackend (SwappableBlobBackend St) := {|
  put_blob_from_bytes h d := delegate (put_blob_from_bytes h d);
  put_blob_from_bytes_unsynced h d := delegate (put_blob_from_bytes_unsynced h d);
  put_blob_from_bytes_replace h d := delegate (put_blob_from_bytes h d);
  get_blob_stream h := delegate (get_blob_stream h);
  get_blob_range_stream h start end_ := delegate (get_blob_range_stream h start end_);
  delete_blob h := delegate (delete_blob h);
  blob_exists h := delegate (blob_exists h);
  blob_size h := delegate (blob_size h);
|}.

(** A half-written blob sticks.  When the write of a new blob fails part-way, the local backend
    leaves the truncated file behind; storing the blob again then succeeds without writing, and
    so does the rewrite that is meant to heal such a file, because it goes through the hot-swap
    wrapper, which does not forward it.  On the local backend itself the rewrite would heal. *)
Theorem truncated_blob_sticks (h : str) (d : bytes) (err : IoError) (k : nat) (st : LocalBlobBackend) :
  files st !! h = None -> l_io st = [None; Some (err, k)] ->
  let st1 := snd (put_blob_from_bytes h d st) in
  (exists e, fst (put_blob_from_bytes h d st) = Err e) ∧ files st1 !! h = Some (take k d)
  ∧ (exists n, fst (put_blob_from_bytes h d st1) = Ok n)
  ∧ files (snd (put_blob_from_bytes h d st1)) !! h = Some (take k d)
  ∧ (exists n, fst (put_blob_from_bytes_replace h d (mkSwappable st1)) = Ok n)
  ∧ files (current (snd (put_blob_from_bytes_replace h d (mkSwappable st1)))) !! h = Some (take k d)
  ∧ files (snd (put_blob_from_bytes_replace h d st1)) !! h = Some d.
Proof.
  destruct st as [fs io]. simpl. intros Hh ->.
  assert (Hput : local_put_blob_from_bytes h d (mkLocal fs [None; Some (err, k)])
    = (Err (blob_err (lit "Failed to write blob from bytes: ") err),
       mkLocal (<[h := take k d]> (<[h := []]> fs)) [])).
  { unfold local_put_blob_from_bytes, write_blob_bytes. unfold_m. unfold take_fault. simpl. by rewrite Hh. }
  rewrite Hput. simpl. set (fs1 := <[h := take k d]> (<[h := []]> fs)).
  assert (Hfs1 : fs1 !! h = Some (take k d)) by (unfold fs1; by rewrite lookup_insert_eq).
  assert (Hagain : local_put_blob_from_bytes h d (mkLocal fs1 [])
    = (Ok (Z.of_nat (length d)), mkLocal fs1 [])).
  { unfold local_put_blob_from_bytes, write_blob_bytes. unfold_m. unfold take_fault. simpl. by rewrite Hfs1. }
  unfold delegate. simpl. rewrite Hagain. simpl. split_and!; try done; try by eexists.
  by rewrite lookup_insert_eq.
Qed.
Lemma truncated_blob_sticks_witness :
  files (snd (put_blob_from_bytes (lit "ab") [1; 2; 3]%Z
    (snd (put_blob_from_bytes (lit "ab") [1; 2; 3]%Z
       (mkLocal ∅ [None; Some (mkIoError IoOther (lit "disk full"), 2%nat)]))))) !! lit "ab"
  = Some [1; 2]%Z.
Proof.
  apply (truncated_blob_sticks (lit "ab") [1; 2; 3]%Z (mkIoError IoOther (lit "disk full")) 2
    (mkLocal ∅ [None; Some (mkIoError IoOther (lit "disk full"), 2%nat)])); done.
Defined.
