(* ===== verification/EncryptedBlob.v ===== *)
(** * Encrypted blobs and key rotation

    [src/src/infrastructure/services/encrypted_blob_backend.rs]: the decorator that frames every
    blob with a header and encrypts it under the last of a list of key pairs, reads blobs written
    under any pair of the list and blobs older than the header, and the loop of
    [src/src/infrastructure/services/backend_rotate_service.rs] that rewrites blobs under the
    current pair.  The key pairs are those of [src/src/common/config.rs].

    The cipher, the two hash functions and the random nonces are parameters.  The offload to a
    thread pool, the log lines and the name and health methods are left out. *)

From S2P Require Import Prelude.
From S2P Require Import RustStr.
From S2P Require Import DomainErrors.
From S2P Require Import BlobBackend.

(** ** Hexadecimal *)
Definition hex_digit (n : Z) : byte := if (n <? 10)%Z then (48 + n)%Z else (87 + n)%Z.
Definition hex_byte (b : byte) : str := [hex_digit (b / 16); hex_digit (b mod 16)].
Definition hex_encode (l : bytes) : str := concat (hex_byte <$> l).
Definition hex_value (c : byte) : option Z :=
  if (48 <=? c)%Z && (c <=? 57)%Z then Some (c - 48)%Z
  else if (97 <=? c)%Z && (c <=? 102)%Z then Some (c - 87)%Z
  else if (65 <=? c)%Z && (c <=? 70)%Z then Some (c - 55)%Z
  else None.
Fixpoint hex_decode (s : str) : option bytes :=
  match s with
  | [] => Some []
  | a :: b :: rest =>
      x ← hex_value a; y ← hex_value b; r ← hex_decode rest; Some ((16 * x + y)%Z :: r)
  | _ => None
  end.

(** ** Keys *)
Inductive CipherKind := AesGcm256 | CipherNone.
#[global] Instance CipherKind_eq_dec : EqDecision CipherKind. Proof. solve_decision. Defined.
Definition needs_key (c : CipherKind) : bool := match c with AesGcm256 => true | CipherNone => false end.
Record KeyPair := mkKeyPair { cipher : CipherKind; key_material : option bytes }.
#[global] Instance KeyPair_eq_dec : EqDecision KeyPair. Proof. solve_decision. Defined.
Definition new_aes_gcm (key : bytes) : KeyPair := mkKeyPair AesGcm256 (Some key).
Definition new_none : KeyPair := mkKeyPair CipherNone None.

(** ** The crates *)
(** AES-256-GCM without associated data (crate [aes_gcm]): encryption keeps the length, yields a
    tag of 16 bytes and succeeds on messages below the limit of the mode; what was encrypted
    decrypts under the same key and nonce. *)
Class Aes256Gcm := {
  encrypt_detached : bytes -> bytes -> bytes -> option (bytes * bytes);
  decrypt_detached : bytes -> bytes -> bytes -> bytes -> option bytes;
  encrypt_length k n d ct tag : encrypt_detached k n d = Some (ct, tag) ->
    length ct = length d ∧ length tag = 16%nat;
  encrypt_total k n d : (Z.of_nat (length d) < 2 ^ 36 - 32)%Z -> is_Some (encrypt_detached k n d);
  decrypt_encrypt k n d ct tag :
    encrypt_detached k n d = Some (ct, tag) -> decrypt_detached k n ct tag = Some d;
}.
(** SHA-256 and BLAKE3 as functions to 32 bytes, and the random nonces of 12 bytes. *)
Class Primitives := {
  sha256 : bytes -> bytes;
  blake3 : bytes -> bytes;
  random_nonce : nat -> bytes;
  sha256_length d : length (sha256 d) = 32%nat;
  random_nonce_length n : length (random_nonce n) = 12%nat;
}.

(** ** Format *)
Definition OXCPT_MAGIC : bytes := lit "OXCPT".
Definition V1_VERSION_BYTES : bytes := [0; 1]%Z.
Definition KEY_FP_SIZE : nat := 8.
Definition HEADER_SIZE : nat := 15.
Definition NONCE_SIZE : nat := 12.
Definition TAG_SIZE : nat := 16.
Definition AEAD_OVERHEAD : nat := NONCE_SIZE + TAG_SIZE.
Definition ENCRYPTED_V1_OVERHEAD : nat := HEADER_SIZE + AEAD_OVERHEAD.
Definition PLAINTEXT_EMIT_SIZE : nat := Z.to_nat (64 * 1024).
Definition ZERO_FP : bytes := replicate KEY_FP_SIZE 0%Z.

Inductive BlobFormat := Legacy | PlaintextV1 | EncryptedV1 (key_fp : bytes).
#[global] Instance BlobFormat_eq_dec : EqDecision BlobFormat. Proof. solve_decision. Defined.
Definition has_magic (b : bytes) : bool :=
  (5 <=? length b)%nat && bool_decide (take 5 b = OXCPT_MAGIC).
Definition classify (b : bytes) : BlobFormat :=
  if negb (has_magic b) then Legacy
  else if (length b <? HEADER_SIZE)%nat then Legacy
  else
    let key_fp := take KEY_FP_SIZE (drop 7 b) in
    if decide (key_fp = ZERO_FP) then PlaintextV1 else EncryptedV1 key_fp.

Section encrypted.
Context `{Aes256Gcm} `{Primitives}.

Definition key_fp (p : KeyPair) : bytes :=
  match key_material p with Some mat => take 8 (sha256 mat) | None => ZERO_FP end.

Definition encryption_error (msg : str) : DomainError := DomainError.internal_error (lit "Encryption") msg.
Definition AEAD_ERROR : str := lit "aead::Error".
Definition encrypt_v1 (key head_key_fp nonce data : bytes) : result DomainError bytes :=
  match encrypt_detached key nonce data with
  | Some (ct, tag) => Ok (OXCPT_MAGIC ++ V1_VERSION_BYTES ++ head_key_fp ++ nonce ++ ct ++ tag)
  | None => Err (encryption_error (lit "encrypt failed: " ++ AEAD_ERROR))
  end.
Definition write_plaintext_v1 (data : bytes) : bytes := OXCPT_MAGIC ++ V1_VERSION_BYTES ++ ZERO_FP ++ data.

Definition decrypt_aead_in_place (key encrypted : bytes) : result DomainError bytes :=
  let len := length encrypted in
  if (len <? AEAD_OVERHEAD)%nat then Err (encryption_error (lit "AEAD body too short (missing nonce/tag)"))
  else
    let nonce := take NONCE_SIZE encrypted in
    let tag := drop (len - TAG_SIZE) encrypted in
    let body := take (len - AEAD_OVERHEAD) (drop NONCE_SIZE encrypted) in
    match decrypt_detached key nonce body tag with
    | Some d => Ok d
    | None => Err (encryption_error (lit "decrypt failed: " ++ AEAD_ERROR))
    end.
Definition read_v1 (fp_ciphers : gmap bytes bytes) (encrypted : bytes) : result DomainError bytes :=
  if (length encrypted <? HEADER_SIZE)%nat then
    Err (encryption_error (lit "v1 blob too short (need at least 15 bytes for the header, got "
           ++ dec (Z.of_nat (length encrypted)) ++ lit ")"))
  else
    let version := take 2 (drop 5 encrypted) in
    if decide (version ≠ V1_VERSION_BYTES) then
      Err (encryption_error (lit "unsupported v1 blob version 0x" ++ hex_encode version
             ++ lit " — this build only reads 0x0001"))
    else
      let fp := take KEY_FP_SIZE (drop 7 encrypted) in
      let body := drop HEADER_SIZE encrypted in
      if decide (fp = ZERO_FP) then Ok body
      else
        match fp_ciphers !! fp with
        | Some key => decrypt_aead_in_place key body
        | None => Err (encryption_error (lit "v1 blob key_fp " ++ hex_encode fp
                         ++ lit " does not match any configured pair — cannot decrypt"))
        end.
Definition hex_matches_blake3 (expected_hex : str) (b : bytes) : bool :=
  if decide (length expected_hex ≠ 64%nat) then false
  else match hex_decode expected_hex with
       | Some expected => bool_decide (blake3 b = expected)
       | None => false
       end.
(** The attempts with the pairs that are not the head. *)
Fixpoint try_pairs (pairs : list KeyPair) (fp_ciphers : gmap bytes bytes) (head_key_fp encrypted : bytes)
  : option bytes :=
  match pairs with
  | [] => None
  | p :: rest =>
      let next := try_pairs rest fp_ciphers head_key_fp encrypted in
      if negb (needs_key (cipher p)) then next
      else if decide (key_fp p = head_key_fp) then next
      else match fp_ciphers !! key_fp p with
           | Some key => match decrypt_aead_in_place key encrypted with Ok d => Some d | Err _ => next end
           | None => next
           end
  end.
Definition read_dispatch (pairs : list KeyPair) (fp_ciphers : gmap bytes bytes) (head_cipher : option bytes)
    (head_key_fp : bytes) (expected_hash : str) (encrypted : bytes) : result DomainError bytes :=
  if has_magic encrypted then read_v1 fp_ciphers encrypted
  else
    match head_cipher with
    | Some head =>
        match decrypt_aead_in_place head encrypted with
        | Ok d => Ok d
        | Err _ =>
            match try_pairs pairs fp_ciphers head_key_fp encrypted with
            | Some d => Ok d
            | None =>
                if hex_matches_blake3 expected_hash encrypted then Ok encrypted
                else Err (encryption_error
                       (lit "legacy blob failed to decrypt under any configured key — wrong key removed from pair-list, or blob is corrupt"))
            end
        end
    | None => Ok encrypted
    end.

(** ** The decorator *)
Context {St : Type} `{BlobStorageBackend St}.
Record EncryptedBlobBackend := mkEncrypted {
  inner : St;
  pairs : list KeyPair;
  fp_ciphers : gmap bytes bytes;
  head_cipher : option bytes;
  head_key_fp : bytes;
  draws : nat;
}.
Definition EM (T : Type) : Type := M EncryptedBlobBackend DomainError T.
(** The pairs after normalisation, the table of keys and the head they give. *)
Definition normalise (ps : list KeyPair) : list KeyPair := match ps with [] => [new_none] | _ => ps end.
Definition key_table (ps : list KeyPair) : gmap bytes bytes :=
  foldl (fun m p => match key_material p with Some mat => <[key_fp p := mat]> m | None => m end) ∅ ps.
Definition head_pair (ps : list KeyPair) : KeyPair := default new_none (list.last ps).
Definition new (st : St) (ps : list KeyPair) (draws : nat) : EncryptedBlobBackend :=
  let ps := normalise ps in
  let fp := key_fp (head_pair ps) in
  mkEncrypted st ps (key_table ps) (key_table ps !! fp) fp draws.
Definition with_inner (e : EncryptedBlobBackend) (st : St) : EncryptedBlobBackend :=
  mkEncrypted st (pairs e) (fp_ciphers e) (head_cipher e) (head_key_fp e) (draws e).
Definition on_inner {T} (m : M St DomainError T) : EM T := fun e =>
  let (res, st) := m (inner e) in (res, with_inner e st).
Definition draw_nonce : EM bytes := fun e =>
  (Ok (random_nonce (draws e)),
   mkEncrypted (inner e) (pairs e) (fp_ciphers e) (head_cipher e) (head_key_fp e) (S (draws e))).

Definition classify_stream_read_error (e : IoError) : DomainError :=
  let message := lit "stream read: " ++ io_text e in
  match io_kind e with
  | IoConnectionReset | IoConnectionAborted | IoBrokenPipe | IoTimedOut | IoInterrupted
  | IoNotConnected | IoWouldBlock => DomainError.transient_backend (lit "Encryption") message
  | _ => DomainError.internal_error (lit "Encryption") message
  end.
Definition collect_stream (s : BlobStream) : result DomainError bytes :=
  map_err classify_stream_read_error (stream_bytes s).

Definition frame_write (plaintext : bytes) : EM bytes :=
  head ← gets head_cipher;
  match head with
  | Some key =>
      nonce ← draw_nonce;
      fp ← gets head_key_fp;
      lift (encrypt_v1 key fp nonce plaintext)
  | None => mret (write_plaintext_v1 plaintext)
  end.
Definition dispatch (e : EncryptedBlobBackend) (h : str) (raw : bytes) : result DomainError bytes :=
  read_dispatch (pairs e) (fp_ciphers e) (head_cipher e) (head_key_fp e) h raw.
Definition fetch_raw (h : str) : EM bytes :=
  enc_stream ← on_inner (get_blob_stream h); lift (collect_stream enc_stream).
Definition fetch_plaintext (h : str) : EM bytes :=
  encrypted ← fetch_raw h;
  plaintext ← gets (fun e => dispatch e h encrypted);
  lift plaintext.

Definition enc_put_blob_from_bytes (h : str) (data : bytes) : EM Z :=
  out ← frame_write data; on_inner (put_blob_from_bytes h out).
Definition enc_put_blob_from_bytes_unsynced (h : str) (data : bytes) : EM Z :=
  out ← frame_write data; on_inner (put_blob_from_bytes_unsynced h out).
Definition enc_put_blob_from_bytes_replace (h : str) (data : bytes) : EM Z :=
  out ← frame_write data; on_inner (put_blob_from_bytes_replace h out).
Definition enc_get_blob_stream (h : str) : EM BlobStream :=
  plaintext ← fetch_plaintext h; mret (stream_of PLAINTEXT_EMIT_SIZE plaintext).
Definition enc_get_blob_range_stream (h : str) (start : Z) (end_ : option Z) : EM BlobStream :=
  plaintext ← fetch_plaintext h;
  let total := Z.of_nat (length plaintext) in
  let end_excl := Z.min (default total end_) total in
  let start := Z.min start end_excl in
  mret (stream_of PLAINTEXT_EMIT_SIZE
          (take (Z.to_nat (end_excl - start)) (drop (Z.to_nat start) plaintext))).
Definition enc_blob_size (h : str) : EM Z :=
  head ← gets head_cipher;
  let overhead := match head with Some _ => ENCRYPTED_V1_OVERHEAD | None => HEADER_SIZE end in
  stored ← on_inner (blob_size h);
  mret (stored ⊖ Z.of_nat overhead).
#[export] Instance encrypted_backend : BlobStorageBackend EncryptedBlobBackend := {|
  put_blob_from_bytes := enc_put_blob_from_bytes;
  put_blob_from_bytes_unsynced := enc_put_blob_from_bytes_unsynced;
  put_blob_from_bytes_replace := enc_put_blob_from_bytes_replace;
  get_blob_stream := enc_get_blob_stream;
  get_blob_range_stream := enc_get_blob_range_stream;
  delete_blob h := on_inner (delete_blob h);
  blob_exists h := on_inner (blob_exists h);
  blob_size := enc_blob_size;
|}.

Definition head_format (e : EncryptedBlobBackend) : BlobFormat :=
  match head_cipher e with Some _ => EncryptedV1 (head_key_fp e) | None => PlaintextV1 end.
Inductive HeadCheck := Match | Mismatch (f : BlobFormat) | Absent.
Definition head_check (h : str) (e : EncryptedBlobBackend) : HeadCheck * EncryptedBlobBackend :=
  match on_inner (get_blob_range_stream h 0 (Some (Z.of_nat HEADER_SIZE))) e with
  | (Err _, e') => (Absent, e')
  | (Ok s, e') =>
      match collect_stream s with
      | Err _ | Ok [] => (Absent, e')
      | Ok raw =>
          let cur := classify raw in
          (if decide (cur = head_format e) then Match else Mismatch cur, e')
      end
  end.
Definition read_and_classify (h : str) : EM (bytes * BlobFormat) :=
  raw ← fetch_raw h;
  plaintext ← gets (fun e => dispatch e h raw);
  plaintext ← lift plaintext;
  mret (plaintext, classify raw).

(** ** Rotation: the loop over one batch of hashes *)
Record RotateCounts := mkCounts { rewritten : nat; skipped : nat; failed : nat }.
Inductive RotateOutcome := Paused (err : DomainError) | BatchDone.
Fixpoint rotate_rows (rows : list str) (c : RotateCounts) (e : EncryptedBlobBackend)
  : (RotateOutcome * RotateCounts) * EncryptedBlobBackend :=
  match rows with
  | [] => ((BatchDone, c), e)
  | h :: rest =>
      match read_and_classify h e with
      | (Err err, e1) =>
          if DomainError.is_transient err then ((Paused err, c), e1)
          else rotate_rows rest (mkCounts (rewritten c) (skipped c) (S (failed c))) e1
      | (Ok (plaintext, current_format), e1) =>
          if decide (current_format = head_format e1)
          then rotate_rows rest (mkCounts (rewritten c) (S (skipped c)) (failed c)) e1
          else
            match put_blob_from_bytes_replace h plaintext e1 with
            | (Err err, e2) =>
                if DomainError.is_transient err then ((Paused err, c), e2)
                else rotate_rows rest (mkCounts (rewritten c) (skipped c) (S (failed c))) e2
            | (Ok _, e2) => rotate_rows rest (mkCounts (S (rewritten c)) (skipped c) (failed c)) e2
            end
      end
  end.
End encrypted.
Arguments EncryptedBlobBackend St : clear implicits.

(** ** Framing *)
Section framing.
Context `{Aes256Gcm} `{Primitives}.

Lemma key_fp_length p : length (key_fp p) = 8%nat.
Proof. unfold key_fp. destruct (key_material p); [|done]. rewrite length_take, sha256_length. done. Qed.

(** Reading back a header. *)
Lemma header_parts (fp body : bytes) :
  length fp = 8%nat ->
  let out := OXCPT_MAGIC ++ V1_VERSION_BYTES ++ fp ++ body in
  has_magic out = true ∧ (length out <? HEADER_SIZE)%nat = false ∧ take 2 (drop 5 out) = V1_VERSION_BYTES
  ∧ take KEY_FP_SIZE (drop 7 out) = fp ∧ drop HEADER_SIZE out = body.
Proof.
  intros Hl out. assert (Ho : out = [79; 88; 67; 80; 84; 0; 1]%Z ++ fp ++ body) by done.
  do 8 (destruct fp as [|? fp]; [done|]). destruct fp; [|done]. rewrite Ho.
  split_and!; [by vm_compute|done..].
Qed.
Lemma classify_header fp body :
  length fp = 8%nat ->
  classify (OXCPT_MAGIC ++ V1_VERSION_BYTES ++ fp ++ body)
  = if decide (fp = ZERO_FP) then PlaintextV1 else EncryptedV1 fp.
Proof.
  intros Hl. destruct (header_parts fp body Hl) as (Hm & Hlen & _ & Hfp & _).
  unfold classify. by rewrite Hm, Hlen, Hfp.
Qed.
Lemma read_v1_header table fp body :
  length fp = 8%nat ->
  read_v1 table (OXCPT_MAGIC ++ V1_VERSION_BYTES ++ fp ++ body)
  = if decide (fp = ZERO_FP) then Ok body
    else match table !! fp with
         | Some key => decrypt_aead_in_place key body
         | None => Err (encryption_error (lit "v1 blob key_fp " ++ hex_encode fp
                          ++ lit " does not match any configured pair — cannot decrypt"))
         end.
Proof.
  intros Hl. destruct (header_parts fp body Hl) as (Hm & Hlen & Hv & Hfp & Hb).
  unfold read_v1. by rewrite Hlen, Hv, Hfp, Hb.
Qed.
Lemma decrypt_sealed key nonce d ct tag :
  length nonce = 12%nat -> encrypt_detached key nonce d = Some (ct, tag) ->
  decrypt_aead_in_place key (nonce ++ ct ++ tag) = Ok d.
Proof.
  intros Hn He. destruct (encrypt_length _ _ _ _ _ He) as [Hct Htag].
  unfold decrypt_aead_in_place, AEAD_OVERHEAD, NONCE_SIZE, TAG_SIZE.
  rewrite !length_app, Hn, Htag. rewrite (proj2 (Nat.ltb_ge _ _)) by lia.
  rewrite take_app_length' by done.
  assert (Hdrop : drop 12 (nonce ++ ct ++ tag) = ct ++ tag) by by rewrite drop_app_length'.
  rewrite Hdrop. rewrite take_app_length' by lia.
  replace (12 + (length ct + 16) - 16)%nat with (12 + length ct)%nat by lia.
  rewrite <- drop_drop, Hdrop, drop_app_length' by done. by rewrite (decrypt_encrypt _ _ _ _ _ He).
Qed.

(** ** Key tables *)
(** Every real pair has a key, keys of different pairs have different fingerprints, and none has
    the fingerprint of plaintext. *)
Definition keys_ok (ps : list KeyPair) : Prop :=
  (forall p, p ∈ ps -> needs_key (cipher p) = true <-> is_Some (key_material p))
  ∧ (forall p q a b, p ∈ ps -> q ∈ ps -> key_material p = Some a -> key_material q = Some b ->
       key_fp p = key_fp q -> a = b)
  ∧ (forall p a, p ∈ ps -> key_material p = Some a -> key_fp p ≠ ZERO_FP).
Lemma key_table_snoc ps p :
  key_table (ps ++ [p])
  = match key_material p with Some mat => <[key_fp p := mat]> (key_table ps) | None => key_table ps end.
Proof. unfold key_table. by rewrite foldl_app. Qed.
Lemma key_table_sound ps : forall fp k, key_table ps !! fp = Some k ->
  exists p, p ∈ ps ∧ key_material p = Some k ∧ key_fp p = fp.
Proof.
  induction ps as [|p ps IH] using rev_ind; intros fp k Hk; [done|]. rewrite key_table_snoc in Hk.
  destruct (key_material p) as [mat|] eqn:Em.
  - destruct (decide (key_fp p = fp)) as [<-|Hne].
    + rewrite lookup_insert_eq in Hk. injection Hk as <-. exists p. rewrite elem_of_app. set_solver.
    + rewrite lookup_insert_ne in Hk by done. destruct (IH fp k Hk) as (q & ? & ?). exists q.
      rewrite elem_of_app. set_solver.
  - destruct (IH fp k Hk) as (q & ? & ?). exists q. rewrite elem_of_app. set_solver.
Qed.
Lemma key_table_present ps : forall p k, p ∈ ps -> key_material p = Some k ->
  exists k', key_table ps !! key_fp p = Some k'.
Proof.
  induction ps as [|q ps IH] using rev_ind; intros p k Hp Hk; [by apply not_elem_of_nil in Hp|].
  rewrite key_table_snoc. apply elem_of_app in Hp as [Hp|Hp].
  - destruct (IH p k Hp Hk) as [k' Hk']. destruct (key_material q); [|eauto].
    destruct (decide (key_fp q = key_fp p)) as [->|Hne]; [rewrite lookup_insert_eq; eauto|].
    rewrite lookup_insert_ne by done. eauto.
  - apply list_elem_of_singleton in Hp as ->. rewrite Hk. rewrite lookup_insert_eq. eauto.
Qed.
Lemma key_table_complete ps p k :
  keys_ok ps -> p ∈ ps -> key_material p = Some k -> key_table ps !! key_fp p = Some k.
Proof.
  intros (_ & Hinj & _) Hp Hk. destruct (key_table_present ps p k Hp Hk) as [k' Hk'].
  destruct (key_table_sound ps _ _ Hk') as (q & Hq & Hqk & Hfp).
  rewrite Hk'. f_equal. by apply (Hinj q p).
Qed.
Lemma key_table_zero ps : keys_ok ps -> key_table ps !! ZERO_FP = None.
Proof.
  intros (_ & _ & Hz). destruct (key_table ps !! ZERO_FP) as [k|] eqn:E; [|done].
  destruct (key_table_sound ps _ _ E) as (p & Hp & Hk & Hfp). by destruct (Hz p k Hp Hk).
Qed.
End framing.

(** ** The decorator keeps the contract *)
Section decorator.
Context `{Aes256Gcm} `{Primitives} {St : Type} `{ReplaceLaws St}.
Local Abbreviation Enc := (EncryptedBlobBackend St).

(** A backend as [new] builds it from a list of usable keys. *)
Definition config_ok (e : Enc) : Prop :=
  e = new (inner e) (pairs e) (draws e) ∧ keys_ok (pairs e) ∧ pairs e ≠ [].
Definition same_config (e e' : Enc) : Prop :=
  pairs e' = pairs e ∧ fp_ciphers e' = fp_ciphers e ∧ head_cipher e' = head_cipher e
  ∧ head_key_fp e' = head_key_fp e.
Lemma normalise_id (ps : list KeyPair) : ps ≠ [] -> normalise ps = ps.
Proof. by destruct ps. Qed.
Lemma config_fields e : config_ok e ->
  fp_ciphers e = key_table (pairs e) ∧ head_key_fp e = key_fp (head_pair (pairs e))
  ∧ head_cipher e = key_table (pairs e) !! head_key_fp e.
Proof.
  intros (He & _ & Hne). unfold new in He. rewrite normalise_id in He by done.
  rewrite He. simpl. done.
Qed.
Lemma config_same e e' : config_ok e -> same_config e e' -> config_ok e'.
Proof.
  intros Hc (Hp & Hf & Hh & Hk). pose proof (config_fields e Hc) as (Ff & Fk & Fh).
  destruct Hc as (_ & Hok & Hne). split; [|by rewrite Hp].
  destruct e', e. simpl in *. subst. unfold new. by rewrite normalise_id.
Qed.
Lemma dispatch_same e e' h raw : same_config e e' -> dispatch e' h raw = dispatch e h raw.
Proof. unfold dispatch. by intros (-> & -> & -> & ->). Qed.
Lemma head_format_same e e' : same_config e e' -> head_format e' = head_format e.
Proof. unfold head_format. by intros (_ & _ & -> & ->). Qed.
Lemma same_config_refl e : same_config e e.
Proof. done. Qed.
Lemma same_config_trans e1 e2 e3 : same_config e1 e2 -> same_config e2 e3 -> same_config e1 e3.
Proof. unfold same_config. naive_solver congruence. Qed.

Lemma head_pair_in (ps : list KeyPair) : ps ≠ [] -> head_pair ps ∈ ps.
Proof.
  unfold head_pair. intros Hne. destruct (list.last ps) as [p|] eqn:E; [|by apply last_None in E].
  apply last_Some in E as [l ->]. simpl. rewrite elem_of_app. right. by left.
Qed.
(** The other backend has what it takes to read blobs written by this one. *)
Definition knows (e e2 : Enc) : Prop := head_cipher e = None ∨ head_pair (pairs e) ∈ pairs e2.
Lemma head_key e key : config_ok e -> head_cipher e = Some key ->
  key_material (head_pair (pairs e)) = Some key ∧ head_key_fp e ≠ ZERO_FP.
Proof.
  intros Hc Hh. destruct (config_fields e Hc) as (_ & Hk & Hh'). destruct Hc as (_ & Hok & Hne).
  rewrite Hh in Hh'. symmetry in Hh'. rewrite Hk in Hh'.
  destruct (key_material (head_pair (pairs e))) as [mat|] eqn:Em.
  - pose proof (key_table_complete _ _ _ Hok (head_pair_in _ Hne) Em) as Hl. split; [congruence|].
    rewrite Hk. destruct Hok as (_ & _ & Hz). by apply (Hz _ mat (head_pair_in _ Hne)).
  - assert (Hz : key_fp (head_pair (pairs e)) = ZERO_FP) by (unfold key_fp; by rewrite Em).
    rewrite Hz, key_table_zero in Hh' by done. done.
Qed.
Lemma known_key e e2 key :
  config_ok e -> config_ok e2 -> knows e e2 -> head_cipher e = Some key ->
  fp_ciphers e2 !! head_key_fp e = Some key.
Proof.
  intros Hc Hc2 [Hn|Hin] Hh; [congruence|].
  destruct (head_key e key Hc Hh) as [Hm _]. destruct (config_fields e Hc) as (_ & -> & _).
  destruct (config_fields e2 Hc2) as (-> & _). apply key_table_complete; [apply Hc2|done|done].
Qed.

Lemma frame_write_spec d e res e' :
  config_ok e -> frame_write d e = (res, e') ->
  inner e' = inner e ∧ same_config e e'
  ∧ (forall out, res = Ok out ->
       classify out = head_format e
       ∧ (Z.of_nat (length out) = Z.of_nat (length d) + 43 ∨ Z.of_nat (length out) = Z.of_nat (length d) + 15)%Z
       ∧ forall e2 h, config_ok e2 -> knows e e2 -> dispatch e2 h out = Ok d)
  ∧ ((Z.of_nat (length d) < 2 ^ 36 - 32)%Z -> exists out, res = Ok out).
Proof.
  intros Hc. unfold frame_write, draw_nonce. unfold_m. intros Hx.
  destruct (head_cipher e) as [key|] eqn:Eh.
  - simpl in Hx. unfold encrypt_v1 in Hx. set (nonce := random_nonce (draws e)) in *.
    pose proof (random_nonce_length (draws e)) as Hn. fold nonce in Hn.
    destruct (head_key e key Hc Eh) as [_ Hz].
    assert (Hfl : length (head_key_fp e) = 8%nat).
    { destruct (config_fields e Hc) as (_ & -> & _). apply key_fp_length. }
    destruct (encrypt_detached key nonce d) as [[ct tag]|] eqn:Ee;
      apply pair_equal_spec in Hx as [<- <-]; (split; [done|]); (split; [by split_and!|]).
    + split; [|eauto]. intros out Hout. apply Ok_inj in Hout as <-.
      destruct (encrypt_length _ _ _ _ _ Ee) as [Hct Htag]. split; [|split].
      * rewrite classify_header by done. rewrite decide_False by done. unfold head_format. by rewrite Eh.
      * left. rewrite !length_app, Hfl, Hn, Hct, Htag. change (length OXCPT_MAGIC) with 5%nat.
        change (length V1_VERSION_BYTES) with 2%nat. lia.
      * intros e2 h Hc2 Hk. unfold dispatch, read_dispatch.
        destruct (header_parts (head_key_fp e) (nonce ++ ct ++ tag) Hfl) as (-> & _).
        rewrite read_v1_header by done. rewrite decide_False by done.
        rewrite (known_key e e2 key Hc Hc2 Hk Eh). by apply decrypt_sealed.
    + split; [done|]. intros Hs. destruct (encrypt_total key nonce d Hs) as [? ?]. congruence.
  - apply pair_equal_spec in Hx as [<- <-]. split; [done|]. split; [apply same_config_refl|].
    split; [|eauto]. intros out Hout. apply Ok_inj in Hout as <-. unfold write_plaintext_v1. split; [|split].
    + rewrite classify_header by done. unfold head_format. by rewrite Eh.
    + right. rewrite !length_app. change (length OXCPT_MAGIC) with 5%nat.
      change (length V1_VERSION_BYTES) with 2%nat. change (length ZERO_FP) with 8%nat. lia.
    + intros e2 h Hc2 _. unfold dispatch, read_dispatch.
      destruct (header_parts ZERO_FP d eq_refl) as (-> & _). by rewrite read_v1_header.
Qed.

(** What the decorator shows of the backend below. *)
Definition enc_content (e : Enc) (h : str) : option bytes :=
  v_content bk_view (inner e) h ≫= fun raw => result_ok (dispatch e h raw).
Definition enc_view : View Enc :=
  mkView (fun e => config_ok e ∧ v_inv bk_view (inner e)) (fun e => v_healthy bk_view (inner e))
    (fun n => (n < 2 ^ 36 - 32)%Z ∧ v_fits (bk_view (St:=St)) (n + 43) ∧ v_fits (bk_view (St:=St)) (n + 15))
    (fun e h => v_present bk_view (inner e) h) enc_content.
Lemma enc_unchanged e e' h :
  same_config e e' -> unchanged_at bk_view (inner e) (inner e') h -> unchanged_at enc_view e e' h.
Proof.
  intros Hs [Hc Hp]. split; [|done]. simpl. unfold enc_content. rewrite Hc.
  destruct (v_content bk_view (inner e) h) as [raw|]; [|done]. simpl. by rewrite (dispatch_same e e').
Qed.
Lemma on_inner_eq {T} (m : M St DomainError T) e res e' :
  on_inner m e = (res, e') -> exists st, m (inner e) = (res, st) ∧ e' = with_inner e st.
Proof. unfold on_inner. destruct (m (inner e)) as [r st]. intros [= <- <-]. eauto. Qed.
Lemma with_inner_same e st : same_config e (with_inner e st).
Proof. done. Qed.

(** Framing, then an operation of the backend below on the framed bytes. *)
Lemma framed_op (op : str -> bytes -> M St DomainError Z) h d e res e' :
  config_ok e -> (frame_write d ≫= fun out => on_inner (op h out)) e = (res, e') ->
  same_config e e'
  ∧ ((exists err, res = Err err ∧ inner e' = inner e ∧ ¬ (Z.of_nat (length d) < 2 ^ 36 - 32)%Z)
     ∨ exists out, op h out (inner e) = (res, inner e') ∧ classify out = head_format e
       ∧ (Z.of_nat (length out) = Z.of_nat (length d) + 43 ∨ Z.of_nat (length out) = Z.of_nat (length d) + 15)%Z
       ∧ forall e2 h, config_ok e2 -> knows e e2 -> dispatch e2 h out = Ok d).
Proof.
  intros Hc. unfold mbind, M_bind. intros Hx.
  destruct (frame_write d e) as [r1 e1] eqn:E1.
  destruct (frame_write_spec d e r1 e1 Hc E1) as (Hi & Hs & Hout & Hlive).
  destruct r1 as [out|err].
  - apply on_inner_eq in Hx as (st & Hop & ->). split; [exact Hs|]. right. exists out.
    rewrite Hi in Hop. split; [done|]. by apply Hout.
  - apply pair_equal_spec in Hx as [<- <-]. split; [done|]. left. exists err. split_and!; [done..|].
    intros Hl. by destruct (Hlive Hl).
Qed.
Lemma knows_self e e' : config_ok e -> same_config e e' -> knows e e'.
Proof. intros (_ & _ & Hne) (Hp & _). right. rewrite Hp. by apply head_pair_in. Qed.

Lemma enc_stores op : stores bk_view op ->
  stores enc_view (fun h d => frame_write d ≫= fun out => on_inner (op h out)).
Proof.
  intros Hop e h d res e' [Hc Hi] Hx. destruct (framed_op op h d e res e' Hc Hx)
    as [Hs [(err & -> & Hin & Hbig)|(out & Ho & _ & Hlen & Hread)]].
  - simpl. rewrite Hin. split_and!; try done.
    + by eapply config_same.
    + intros h' _. apply enc_unchanged; [done|]. by rewrite Hin.
    + intros ?. split; [done|]. by intros (? & _).
  - destruct (Hop _ _ _ _ _ Hi Ho) as (Hi' & Hun & Hput & Hl).
    pose proof (config_same e e' Hc Hs) as Hc'. simpl. split_and!; try done.
    + intros h' Hh. apply enc_unchanged; [done|]. by apply Hun.
    + intros n -> Hp. unfold enc_content. rewrite (Hput n eq_refl Hp). simpl.
      by rewrite (Hread e' h Hc' (knows_self e e' Hc Hs)).
    + intros Hh. destruct (Hl Hh) as [? Hok]. split; [done|]. intros (_ & Hf1 & Hf2). apply Hok.
      by destruct Hlen as [-> | ->].
Qed.
Lemma enc_rewrites op : rewrites bk_view op ->
  rewrites enc_view (fun h d => frame_write d ≫= fun out => on_inner (op h out)).
Proof.
  intros Hop e h d res e' [Hc Hi] Hx. destruct (framed_op op h d e res e' Hc Hx)
    as [Hs [(err & -> & Hin & Hbig)|(out & Ho & _ & Hlen & Hread)]].
  - simpl. rewrite Hin. split_and!; try done.
    + by eapply config_same.
    + intros h' _. apply enc_unchanged; [done|]. by rewrite Hin.
    + intros ?. split; [done|]. by intros (? & _).
  - destruct (Hop _ _ _ _ _ Hi Ho) as (Hi' & Hun & Hput & Hl).
    pose proof (config_same e e' Hc Hs) as Hc'. simpl. split_and!; try done.
    + intros h' Hh. apply enc_unchanged; [done|]. by apply Hun.
    + intros n ->. destruct (Hput n eq_refl) as [Hraw|[Hp Hsame]]; [left|right; split; [done|by apply enc_unchanged]].
      unfold enc_content. rewrite Hraw. simpl. by rewrite (Hread e' h Hc' (knows_self e e' Hc Hs)).
    + intros Hh. destruct (Hl Hh) as [? Hok]. split; [done|]. intros (_ & Hf1 & Hf2). apply Hok.
      by destruct Hlen as [-> | ->].
Qed.
Lemma enc_replaces op : replaces bk_view op ->
  replaces enc_view (fun h d => frame_write d ≫= fun out => on_inner (op h out)).
Proof.
  intros Hop e h d res e' [Hc Hi] Hx.
  destruct (enc_rewrites op (replaces_rewrites _ _ Hop) e h d res e' (conj Hc Hi) Hx) as (Hi1 & Hun1 & _ & Hl1).
  destruct (framed_op op h d e res e' Hc Hx) as [Hs [(err & -> & Hin & Hbig)|(out & Ho & _ & Hlen & Hread)]].
  - split_and!; try done. left. apply enc_unchanged; [done|]. by rewrite Hin.
  - destruct (Hop _ _ _ _ _ Hi Ho) as (_ & _ & Hold & Hput & _). pose proof (config_same e e' Hc Hs) as Hc'.
    assert (Hnew : v_content bk_view (inner e') h = Some out -> enc_content e' h = Some d).
    { intros Hraw. unfold enc_content. rewrite Hraw. simpl. by rewrite (Hread e' h Hc' (knows_self e e' Hc Hs)). }
    split_and!; try done.
    + destruct Hold as [Hold|Hold]; [left; by apply enc_unchanged|right; by apply Hnew].
    + intros n ->. by eapply Hnew, Hput.
Qed.
Lemma fetch_raw_spec h e res e' :
  v_inv bk_view (inner e) -> fetch_raw h e = (res, e') ->
  same_config e e' ∧ v_inv bk_view (inner e')
  ∧ (forall h', unchanged_at bk_view (inner e) (inner e') h')
  ∧ (forall raw, res = Ok raw -> v_content bk_view (inner e) h = Some raw)
  ∧ (v_healthy bk_view (inner e) -> v_healthy bk_view (inner e')
     ∧ forall raw, v_content bk_view (inner e) h = Some raw -> res = Ok raw).
Proof.
  intros Hi. unfold fetch_raw. unfold_m. intros Hx.
  destruct (on_inner (get_blob_stream h) e) as [r1 e1] eqn:E1.
  apply on_inner_eq in E1 as (st & Eg & ->).
  destruct (bk_get _ _ _ _ Hi Eg) as (Hi' & Hun & Hr & Hl).
  destruct r1 as [s|err]; apply pair_equal_spec in Hx as [<- <-]; simpl.
  - split_and!; try done.
    + unfold collect_stream. intros raw Hraw. destruct (stream_bytes s) as [b|] eqn:Es; [|done].
      apply Ok_inj in Hraw as <-. by destruct (Hr s b eq_refl Es) as (? & -> & ->).
    + intros Hh. destruct (Hl Hh) as [? Hget]. split; [done|]. intros raw Hraw.
      destruct (Hget raw Hraw) as (s' & [= <-] & Hb). unfold collect_stream. by rewrite Hb.
  - split_and!; try done. intros Hh. destruct (Hl Hh) as [? Hget]. split; [done|]. intros raw Hraw.
    by destruct (Hget raw Hraw) as (? & ? & ?).
Qed.
Lemma fetch_plaintext_spec h e res e' :
  v_inv bk_view (inner e) -> fetch_plaintext h e = (res, e') ->
  same_config e e' ∧ v_inv bk_view (inner e')
  ∧ (forall h', unchanged_at bk_view (inner e) (inner e') h')
  ∧ (forall d, res = Ok d -> enc_content e h = Some d)
  ∧ (v_healthy bk_view (inner e) -> v_healthy bk_view (inner e')
     ∧ forall d, enc_content e h = Some d -> res = Ok d).
Proof.
  intros Hi. unfold fetch_plaintext. unfold_m. intros Hx.
  destruct (fetch_raw h e) as [r1 e1] eqn:E1.
  destruct (fetch_raw_spec h e r1 e1 Hi E1) as (Hs & Hi' & Hun & Hr & Hl).
  destruct r1 as [raw|err]; apply pair_equal_spec in Hx as [<- <-]; (split_and!; try done).
  - intros d Hd. unfold enc_content. rewrite (Hr raw eq_refl). simpl.
    rewrite <- (dispatch_same e e1) by done. by rewrite Hd.
  - intros Hh. destruct (Hl Hh) as [? Hraw]. split; [done|]. intros d Hd.
    unfold enc_content in Hd. rewrite (Hr raw eq_refl) in Hd. simpl in Hd.
    rewrite (dispatch_same e e1) by done. by destruct (dispatch e h raw); simplify_eq/=.
  - intros Hh. destruct (Hl Hh) as [? Hraw]. split; [done|]. intros d Hd. unfold enc_content in Hd.
    destruct (v_content bk_view (inner e) h) as [raw|]; [|done]. by specialize (Hraw raw eq_refl).
Qed.

Lemma emit_size_pos : (0 < PLAINTEXT_EMIT_SIZE)%nat.
Proof. unfold PLAINTEXT_EMIT_SIZE. lia. Qed.
Lemma enc_reads (part : bytes -> bytes) :
  reads_part enc_view part
    (fun h => d ← fetch_plaintext h; mret (stream_of PLAINTEXT_EMIT_SIZE (part d))).
Proof.
  intros e h res e' [Hc Hi]. unfold mbind, M_bind, mret, M_ret. intros Hx.
  destruct (fetch_plaintext h e) as [r1 e1] eqn:E1.
  destruct (fetch_plaintext_spec h e r1 e1 Hi E1) as (Hs & Hi' & Hun & Hr & Hl).
  assert (Hinv : v_inv enc_view e1) by (split; [by eapply config_same|done]).
  assert (Hall : forall h', unchanged_at enc_view e e1 h') by (intros; by apply enc_unchanged).
  destruct r1 as [d|err]; apply pair_equal_spec in Hx as [<- <-]; (split; [done|]); (split; [done|]).
  - split.
    + intros s b Hres Hb. apply Ok_inj in Hres as <-. rewrite stream_of_bytes in Hb by apply emit_size_pos.
      apply Ok_inj in Hb as <-. exists d. split; [by apply Hr|done].
    + intros Hh. destruct (Hl Hh) as [? Hd]. split; [done|]. intros full Hf. specialize (Hd full Hf).
      apply Ok_inj in Hd as ->. eexists. split; [done|]. apply stream_of_bytes, emit_size_pos.
  - split; [done|]. intros Hh. destruct (Hl Hh) as [? Hd]. split; [done|]. intros full Hf.
    by specialize (Hd full Hf).
Qed.
Lemma enc_range_part start end_ (d : bytes) :
  (0 <= start)%Z ->
  (let total := Z.of_nat (length d) in
   let end_excl := Z.min (default total end_) total in
   let start := Z.min start end_excl in
   take (Z.to_nat (end_excl - start)) (drop (Z.to_nat start) d)) = byte_range start end_ d.
Proof.
  intros Hs. unfold byte_range. cbv zeta. set (end_excl := Z.min _ _).
  destruct (Z.le_ge_cases start end_excl); [by rewrite Z.min_l|].
  rewrite Z.min_r by done. rewrite Z.sub_diag. replace (Z.to_nat (end_excl - start)) with 0%nat by lia. done.
Qed.
Lemma enc_ranges start end_ : (0 <= start)%Z ->
  reads_part enc_view (byte_range start end_) (fun h => enc_get_blob_range_stream h start end_).
Proof.
  intros Hs e h res e' Hi Hx. apply (enc_reads (byte_range start end_) e h res e' Hi).
  rewrite <- Hx. simpl. unfold enc_get_blob_range_stream, mbind, M_bind, mret, M_ret.
  destruct (fetch_plaintext h e) as [[d|err] e1]; [|done]. by rewrite <- enc_range_part.
Qed.

(** ** Readers of the head format *)
Lemma classify_cases raw f : classify raw = f -> f ≠ Legacy ->
  has_magic raw = true ∧ (length raw <? HEADER_SIZE)%nat = false
  ∧ f = if decide (take KEY_FP_SIZE (drop 7 raw) = ZERO_FP) then PlaintextV1
        else EncryptedV1 (take KEY_FP_SIZE (drop 7 raw)).
Proof.
  unfold classify. destruct (has_magic raw); simpl; [|by intros <-].
  destruct (length raw <? HEADER_SIZE)%nat; [by intros <-|]. by intros <-.
Qed.
Lemma head_format_readable e e2 h raw d :
  config_ok e -> config_ok e2 -> knows e e2 -> classify raw = head_format e ->
  dispatch e h raw = Ok d -> dispatch e2 h raw = Ok d.
Proof.
  intros Hc Hc2 Hk Hf. assert (Hleg : head_format e ≠ Legacy) by (unfold head_format; by destruct (head_cipher e)).
  destruct (classify_cases raw _ Hf Hleg) as (Hm & Hlen & Hfp).
  unfold dispatch, read_dispatch. rewrite Hm. unfold read_v1. rewrite Hlen.
  destruct (decide (take 2 (drop 5 raw) ≠ V1_VERSION_BYTES)); [done|].
  unfold head_format in Hfp. destruct (head_cipher e) as [key|] eqn:Eh.
  - destruct (decide (take KEY_FP_SIZE (drop 7 raw) = ZERO_FP)); [done|]. injection Hfp as Hfp.
    rewrite <- Hfp. rewrite (known_key e e2 key) by done.
    rewrite (known_key e e key); [done|done|done| |done]. by apply knows_self.
  - by destruct (decide (take KEY_FP_SIZE (drop 7 raw) = ZERO_FP)).
Qed.

(** ** What was stored *)
(** How the file of a blob may have come from the plaintext [d], by this code or an earlier one:
    with the header, sealed under a key of the list or plain; or from before the header, sealed
    or plain under the hash that names the blob. *)
Definition v1_sealed (ps : list KeyPair) (raw d : bytes) : Prop :=
  exists p key nonce ct tag, p ∈ ps ∧ key_material p = Some key ∧ length nonce = NONCE_SIZE
    ∧ encrypt_detached key nonce d = Some (ct, tag)
    ∧ raw = OXCPT_MAGIC ++ V1_VERSION_BYTES ++ key_fp p ++ nonce ++ ct ++ tag.
Definition legacy_sealed (ps : list KeyPair) (raw d : bytes) : Prop :=
  has_magic raw = false ∧ exists p key nonce ct tag, p ∈ ps ∧ key_material p = Some key
    ∧ length nonce = NONCE_SIZE ∧ encrypt_detached key nonce d = Some (ct, tag) ∧ raw = nonce ++ ct ++ tag.
Definition legacy_plain (h : str) (raw d : bytes) : Prop :=
  has_magic raw = false ∧ raw = d ∧ hex_matches_blake3 h raw = true.
Definition stored_from (ps : list KeyPair) (h : str) (raw d : bytes) : Prop :=
  v1_sealed ps raw d ∨ raw = write_plaintext_v1 d ∨ legacy_sealed ps raw d ∨ legacy_plain h raw d.
(** No key of the list opens the file as anything else, as authenticated encryption promises. *)
Definition authentic (ps : list KeyPair) (raw d : bytes) : Prop :=
  forall p key d', p ∈ ps -> key_material p = Some key -> decrypt_aead_in_place key raw = Ok d' -> d' = d.

Lemma try_pairs_sound all ps head raw d : try_pairs ps (key_table all) head raw = Some d ->
  exists p key, p ∈ all ∧ key_material p = Some key ∧ decrypt_aead_in_place key raw = Ok d.
Proof.
  induction ps as [|p ps IH]; [done|]. cbn [try_pairs].
  destruct (negb (needs_key (cipher p))); [done|]. case_decide; [done|].
  destruct (key_table all !! key_fp p) as [key|] eqn:Ek; [|done].
  destruct (decrypt_aead_in_place key raw) as [d'|] eqn:Ed; [|done]. intros [= ->].
  destruct (key_table_sound all _ _ Ek) as (q & Hq & Hk & _). by exists q, key.
Qed.
Lemma try_pairs_complete all ps head raw p key d : keys_ok all -> (forall q, q ∈ ps -> q ∈ all) ->
  p ∈ ps -> key_material p = Some key -> key_fp p ≠ head -> decrypt_aead_in_place key raw = Ok d ->
  try_pairs ps (key_table all) head raw ≠ None.
Proof.
  intros Hok. induction ps as [|q ps IH]; intros Hall Hp Hk Hne Hd; [by apply not_elem_of_nil in Hp|].
  cbn [try_pairs]. apply elem_of_cons in Hp as [<-|Hp].
  - assert (Hin : p ∈ all) by (apply Hall; by left). pose proof Hok as (Hn & _).
    rewrite (proj2 (Hn p Hin)) by by eexists. cbn. rewrite decide_False by done.
    by rewrite (key_table_complete all p key), Hd.
  - specialize (IH ltac:(intros r Hr; apply Hall; by right) Hp Hk Hne Hd).
    destruct (negb (needs_key (cipher q))); [done|]. case_decide; [done|].
    destruct (key_table all !! key_fp q) as [k|]; [|done]. by destruct (decrypt_aead_in_place k raw).
Qed.
(** The list reads the plaintext back, unless its head is the plain pair and the file is a sealed
    one from before the header. *)
Lemma stored_reads (e : Enc) h raw d : config_ok e -> stored_from (pairs e) h raw d -> authentic (pairs e) raw d ->
  (head_cipher e = None -> ~ legacy_sealed (pairs e) raw d) -> dispatch e h raw = Ok d.
Proof.
  intros Hc Hw Ha Hx. pose proof (config_fields e Hc) as (Ff & Fk & Fh). pose proof Hc as (_ & Hok & Hne).
  unfold dispatch, read_dispatch. rewrite Ff.
  destruct Hw as [(p & key & nonce & ct & tag & Hp & Hk & Hn & He & ->)|[->|Hleg]].
  - rewrite (proj1 (header_parts _ _ (key_fp_length p))), read_v1_header by apply key_fp_length.
    rewrite decide_False by (apply (proj2 (proj2 Hok) p key Hp Hk)).
    rewrite (key_table_complete _ p key) by done. by apply decrypt_sealed.
  - unfold write_plaintext_v1. rewrite (proj1 (header_parts ZERO_FP d eq_refl)), read_v1_header by done.
    by rewrite decide_True.
  - assert (Hm : has_magic raw = false) by (by destruct Hleg as [[? _]|[? _]]). rewrite Hm.
    destruct (head_cipher e) as [head|] eqn:Eh.
    2:{ destruct Hleg as [Hs|(_ & -> & _)]; [by destruct (Hx eq_refl)|done]. }
    destruct (head_key e head Hc Eh) as [Hhk _]. pose proof (head_pair_in _ Hne) as Hhin.
    destruct (decrypt_aead_in_place head raw) as [d'|] eqn:Ed; [f_equal; by eapply Ha|].
    destruct (try_pairs _ _ _ raw) as [d'|] eqn:Et.
    { destruct (try_pairs_sound _ _ _ _ _ Et) as (p & key & Hp & Hk & Hd). f_equal. by eapply Ha. }
    destruct Hleg as [(_ & p & key & nonce & ct & tag & Hp & Hk & Hn & He & Hraw)|(_ & -> & Hh)]; [|by rewrite Hh].
    assert (Hd : decrypt_aead_in_place key raw = Ok d) by (rewrite Hraw; by apply decrypt_sealed).
    destruct (decide (key_fp p = head_key_fp e)) as [Hfp|Hfp].
    + rewrite Fk in Hfp. pose proof (proj1 (proj2 Hok) p _ key head Hp Hhin Hk Hhk Hfp). congruence.
    + by destruct (try_pairs_complete (pairs e) (pairs e) (head_key_fp e) raw p key d).
Qed.

(** ** Rotation *)
(** The blob has the head format. *)
Definition at_head (e : Enc) (h : str) : Prop :=
  exists raw d, v_content bk_view (inner e) h = Some raw ∧ dispatch e h raw = Ok d
    ∧ classify raw = head_format e.
Lemma at_head_unchanged e e' h :
  same_config e e' -> unchanged_at bk_view (inner e) (inner e') h -> at_head e h -> at_head e' h.
Proof.
  intros Hs [Hc _] (raw & d & Hraw & Hd & Hf). exists raw, d.
  rewrite Hc, (dispatch_same e e'), (head_format_same e e') by done. done.
Qed.
Lemma read_and_classify_spec h e res e' :
  v_inv bk_view (inner e) -> read_and_classify h e = (res, e') ->
  same_config e e' ∧ v_inv bk_view (inner e')
  ∧ (forall h', unchanged_at bk_view (inner e) (inner e') h')
  ∧ (forall d f, res = Ok (d, f) -> enc_content e h = Some d
       ∧ exists raw, v_content bk_view (inner e) h = Some raw ∧ dispatch e h raw = Ok d ∧ f = classify raw)
  ∧ (v_healthy bk_view (inner e) -> v_healthy bk_view (inner e')
     ∧ forall d, enc_content e h = Some d -> exists f, res = Ok (d, f)).
Proof.
  intros Hi. unfold read_and_classify. unfold_m. intros Hx.
  destruct (fetch_raw h e) as [r1 e1] eqn:E1.
  destruct (fetch_raw_spec h e r1 e1 Hi E1) as (Hs & Hi' & Hun & Hr & Hl).
  assert (Hfail : forall err, r1 = Err err -> forall d, v_healthy bk_view (inner e) ->
    enc_content e h = Some d -> False).
  { intros err -> d Hh Hd. unfold enc_content in Hd.
    destruct (v_content bk_view (inner e) h) as [raw|]; [|done]. by pose proof (proj2 (Hl Hh) raw eq_refl). }
  destruct r1 as [raw|err].
  - rewrite (dispatch_same e e1) in Hx by done. specialize (Hr raw eq_refl).
    destruct (dispatch e h raw) as [d|err] eqn:Ed; apply pair_equal_spec in Hx as [<- <-];
      (split_and!; try done).
    + intros d' f Hres. apply Ok_inj in Hres as [= <- <-]. unfold enc_content. rewrite Hr. simpl.
      rewrite Ed. eauto.
    + intros Hh. split; [by apply Hl|]. unfold enc_content. rewrite Hr. simpl. rewrite Ed. intros d' [= <-].
      eauto.
    + intros Hh. split; [by apply Hl|]. unfold enc_content. rewrite Hr. simpl. by rewrite Ed.
  - apply pair_equal_spec in Hx as [<- <-]. split_and!; try done. intros Hh. split; [by apply Hl|].
    intros d Hd. by destruct (Hfail err eq_refl d Hh Hd).
Qed.
Lemma rewrite_spec h d e res e' :
  config_ok e -> v_inv bk_view (inner e) -> enc_content e h = Some d ->
  put_blob_from_bytes_replace h d e = (res, e') ->
  same_config e e' ∧ v_inv bk_view (inner e') ∧ (forall h', enc_content e' h' = enc_content e h')
  ∧ (forall h', at_head e h' -> at_head e' h') ∧ (forall n, res = Ok n -> at_head e' h)
  ∧ (v_healthy bk_view (inner e) -> v_healthy bk_view (inner e')
     ∧ (v_fits enc_view (Z.of_nat (length d)) -> exists n, res = Ok n)).
Proof.
  intros Hc Hi Hd Hx.
  destruct (enc_replaces _ bk_replace e h d res e' (conj Hc Hi) Hx) as ((Hc' & Hi') & Hun & Hold & Hput & Hl).
  destruct (framed_op _ h d e res e' Hc Hx) as [Hs Hcases].
  assert (Hsame : forall h', enc_content e' h' = enc_content e h').
  { intros h'. destruct (decide (h' = h)) as [->|Hne]; [|by apply Hun]. rewrite Hd. destruct Hold as [[Hold _]|Hold]; [|done].
    simpl in Hold. by rewrite Hold. }
  assert (Hold' : unchanged_at bk_view (inner e) (inner e') h ∨ at_head e' h).
  { destruct Hcases as [(err & _ & Hin & _)|(out & Ho & Hf & _ & Hread)]; [left; by rewrite Hin|].
    destruct (bk_replace _ _ _ _ _ Hi Ho) as (_ & _ & [?|Hraw] & _); [by left|right]. exists out, d.
    split_and!; [done|apply Hread; [done|by apply knows_self]|by rewrite (head_format_same e e')]. }
  assert (Hok : forall n, res = Ok n -> at_head e' h).
  { intros n ->. destruct Hcases as [(err & ? & _)|(out & Ho & Hf & _ & Hread)]; [done|].
    destruct (bk_replace _ _ _ _ _ Hi Ho) as (_ & _ & _ & Hraw & _). exists out, d.
    split_and!; [by apply (Hraw n)|apply Hread; [done|by apply knows_self]|by rewrite (head_format_same e e')]. }
  split_and!; try done. intros h' Hat. destruct (decide (h' = h)) as [->|Hne].
  - destruct Hold' as [Hsm|?]; [|done]. by eapply at_head_unchanged.
  - destruct Hcases as [(err' & _ & Hin & _)|(out & Ho & _)]; (eapply at_head_unchanged; [done| |done]); [by rewrite Hin|].
    by apply (bk_replace _ _ _ _ _ Hi Ho).
Qed.

(** What one run over [rows] keeps and reaches. *)
Record rotated (rows : list str) (e : Enc) (c : RotateCounts) (out : RotateOutcome) (c' : RotateCounts)
    (e' : Enc) : Prop := {
  ro_config : same_config e e';
  ro_inv : v_inv bk_view (inner e');
  ro_content : forall h, enc_content e' h = enc_content e h;
  ro_kept : forall h, at_head e h -> at_head e' h;
  ro_failed : (failed c <= failed c')%nat;
  ro_done : out = BatchDone -> failed c' = failed c -> forall h, h ∈ rows -> at_head e' h;
  ro_live : v_healthy bk_view (inner e) ->
    Forall (fun h => exists d, enc_content e h = Some d ∧ v_fits enc_view (Z.of_nat (length d))) rows ->
    out = BatchDone ∧ failed c' = failed c;
}.
(** A step that changes no content, followed by the rest of the run. *)
Lemma rotated_step h rows e c e1 c1 out c' e' :
  same_config e e1 -> (forall h', enc_content e1 h' = enc_content e h') ->
  (forall h', at_head e h' -> at_head e1 h') -> (failed c <= failed c1)%nat ->
  (failed c1 = failed c -> at_head e1 h) ->
  (v_healthy bk_view (inner e) ->
     (exists d, enc_content e h = Some d ∧ v_fits enc_view (Z.of_nat (length d))) ->
     v_healthy bk_view (inner e1) ∧ failed c1 = failed c) ->
  rotated rows e1 c1 out c' e' -> rotated (h :: rows) e c out c' e'.
Proof.
  intros Hs Hc Hk Hf Hh Hl [R1 R2 R3 R4 R5 R6 R7]. constructor; try done.
  - by eapply same_config_trans.
  - intros h'. by rewrite R3, Hc.
  - auto.
  - lia.
  - intros Ho Hn h' [->|Hin]%elem_of_cons; [apply R4, Hh; lia|]. apply R6; [done|lia|done].
  - intros Hheal [Hd Hall]%Forall_cons_1. destruct (Hl Hheal Hd) as [Hheal1 Hc1].
    destruct (R7 Hheal1) as [? ?]; [|split; [done|congruence]].
    eapply list.Forall_impl; [exact Hall|]. intros h'. simpl. by rewrite Hc.
Qed.
Lemma rotated_pause h rows e c err e1 :
  same_config e e1 -> v_inv bk_view (inner e1) -> (forall h', enc_content e1 h' = enc_content e h') ->
  (forall h', at_head e h' -> at_head e1 h') ->
  (v_healthy bk_view (inner e) ->
     (exists d, enc_content e h = Some d ∧ v_fits enc_view (Z.of_nat (length d))) -> False) ->
  rotated (h :: rows) e c (Paused err) c e1.
Proof.
  intros Hs Hi Hc Hk Hl. constructor; try done.
  intros Hh [Hd _]%Forall_cons_1. by destruct (Hl Hh Hd).
Qed.
Lemma rotate_rows_spec rows : forall c e out c' e',
  config_ok e -> v_inv bk_view (inner e) -> rotate_rows rows c e = ((out, c'), e') ->
  rotated rows e c out c' e'.
Proof.
  induction rows as [|h rows IH]; intros c e out c' e' Hc Hi Hx.
  { injection Hx as <- <- <-. constructor; try done. intros _ _ h Hh. by apply not_elem_of_nil in Hh. }
  cbn [rotate_rows] in Hx. destruct (read_and_classify h e) as [r1 e1] eqn:E1.
  destruct (read_and_classify_spec h e r1 e1 Hi E1) as (Hs1 & Hi1 & Hun1 & Hr1 & Hl1).
  pose proof (config_same e e1 Hc Hs1) as Hc1.
  assert (Hcont1 : forall h', enc_content e1 h' = enc_content e h') by (intros; by apply enc_unchanged).
  assert (Hkept1 : forall h', at_head e h' -> at_head e1 h').
  { intros h'. by apply at_head_unchanged. }
  destruct r1 as [[d f]|err].
  2: { assert (Hno : v_healthy bk_view (inner e) ->
         (exists d, enc_content e h = Some d ∧ v_fits enc_view (Z.of_nat (length d))) -> False).
       { intros Hh (d & Hd & _). by destruct (proj2 (Hl1 Hh) d Hd). }
       destruct (DomainError.is_transient err).
       - injection Hx as <- <- <-. by apply rotated_pause.
       - eapply rotated_step; [exact Hs1|done|done| | | |apply (IH _ _ _ _ _ Hc1 Hi1 Hx)]; simpl; [lia|lia|].
         intros Hh Hd. by destruct (Hno Hh Hd). }
  destruct (Hr1 d f eq_refl) as (Hd & raw & Hraw & Hdis & ->).
  destruct (decide (classify raw = head_format e1)) as [Hf|Hf].
  { eapply rotated_step; [exact Hs1|done|done| | | |apply (IH _ _ _ _ _ Hc1 Hi1 Hx)]; simpl; [lia| |].
    - intros _. exists raw, d. rewrite (proj1 (Hun1 h)), (dispatch_same e e1) by done. done.
    - intros Hh _. split; [by apply Hl1|done]. }
  destruct (put_blob_from_bytes_replace h d e1) as [r2 e2] eqn:E2.
  destruct (rewrite_spec h d e1 r2 e2 Hc1 Hi1 ltac:(by rewrite Hcont1) E2)
    as (Hs2 & Hi2 & Hcont2 & Hkept2 & Hok2 & Hl2).
  pose proof (config_same e1 e2 Hc1 Hs2) as Hc2.
  pose proof (same_config_trans e e1 e2 Hs1 Hs2) as Hs.
  assert (Hcont : forall h', enc_content e2 h' = enc_content e h') by (intros; by rewrite Hcont2, Hcont1).
  assert (Hlive : v_healthy bk_view (inner e) ->
    (exists d, enc_content e h = Some d ∧ v_fits enc_view (Z.of_nat (length d))) ->
    v_healthy bk_view (inner e2) ∧ exists n, r2 = Ok n).
  { intros Hh (d' & Hd' & Hfit). destruct (Hl1 Hh) as [Hh1 _]. destruct (Hl2 Hh1) as [Hh2 Hn].
    split; [done|]. apply Hn. congruence. }
  destruct r2 as [n|err].
  - eapply rotated_step; [exact Hs|done|auto| | | |apply (IH _ _ _ _ _ Hc2 Hi2 Hx)]; simpl; [lia| |].
    + intros _. by apply (Hok2 n).
    + intros Hh Hd'. by destruct (Hlive Hh Hd').
  - destruct (DomainError.is_transient err).
    + injection Hx as <- <- <-. apply rotated_pause; [done|done|done|auto|].
      intros Hh Hd'. by destruct (Hlive Hh Hd') as [_ [? ?]].
    + eapply rotated_step; [exact Hs|done|auto| | | |apply (IH _ _ _ _ _ Hc2 Hi2 Hx)]; simpl; [lia|lia|].
      intros Hh Hd'. by destruct (Hlive Hh Hd') as [_ [? ?]].
Qed.

Lemma new_config (st : St) ps n : keys_ok ps -> ps ≠ [] -> config_ok (new st ps n).
Proof.
  intros Hok Hne. unfold config_ok, new. simpl. by rewrite !(normalise_id ps).
Qed.
#[export] Instance encrypted_laws : BackendLaws Enc.
Proof.
  refine {| bk_view := enc_view |}.
  - intros e h Hp. simpl. unfold enc_content. by rewrite bk_absent.
  - exact (enc_stores _ bk_put).
  - exact (enc_rewrites _ bk_put_unsynced).
  - exact (enc_rewrites _ bk_rewrite).
  - exact (enc_reads (fun b => b)).
  - exact enc_ranges.
  - intros e h res e' [Hc Hi] Hx. apply on_inner_eq in Hx as (st & Ho & ->).
    destruct (bk_delete _ _ _ _ Hi Ho) as (Hi' & Hun & Hold & Hok). split; [split; [|done]|split_and!; [| |done]].
    + by apply (config_same e).
    + intros h' Hh. apply enc_unchanged; [done|]. by apply Hun.
    + destruct Hold as [Hold|Hold]; [left; by apply enc_unchanged|by right].
  - intros e h res e' [Hc Hi] Hx. apply on_inner_eq in Hx as (st & Ho & ->).
    destruct (bk_exists _ _ _ _ Hi Ho) as (Hi' & Hun & Hok & Hl). split; [split; [|done]|split; [|done]].
    + by apply (config_same e).
    + intros h'. by apply enc_unchanged.
Defined.

Lemma enc_clean op : fails_clean bk_view op ->
  fails_clean enc_view (fun h d => frame_write d ≫= fun out => on_inner (op h out)).
Proof.
  intros Hop e h d err e' [Hc Hi] Hx.
  destruct (framed_op op h d e _ e' Hc Hx) as [Hs [(? & _ & Hin & _)|(out & Ho & _ & _ & Hread)]].
  - left. apply enc_unchanged; [done|]. by rewrite Hin.
  - destruct (Hop _ _ _ _ _ Hi Ho) as [Hsame|Hraw]; [left; by apply enc_unchanged|right].
    simpl. unfold enc_content. rewrite Hraw. simpl.
    by rewrite (Hread e' h (config_same e e' Hc Hs) (knows_self e e' Hc Hs)).
Qed.
#[export] Instance encrypted_atomic `{!AtomicPuts St} : AtomicPuts Enc.
Proof.
  constructor; [exact (enc_clean _ failed_put)|exact (enc_clean _ failed_put_unsynced)|exact (enc_clean _ failed_rewrite)].
Qed.

(** C8: encryption is invisible, and a key is enough as long as it is kept.  Over any backend that
    keeps the contract, the encrypting decorator keeps it for the plaintext: storing skips what
    is there, also without synchronisation where the backend does, replacing is atomic, whole and ranged reads return the plaintext and its parts,
    other blobs are untouched, failures aside everything succeeds.  And what was written under
    one list of keys is read back unchanged under every list that still has the key it was
    written with, at any position. *)
Theorem encrypted_backend_contract :
  (stores enc_view put_blob_from_bytes ∧ rewrites enc_view put_blob_from_bytes_unsynced
   ∧ (stores bk_view put_blob_from_bytes_unsynced -> stores enc_view put_blob_from_bytes_unsynced)
   ∧ replaces enc_view put_blob_from_bytes_replace ∧ reads_part enc_view (fun b => b) get_blob_stream
   ∧ forall start end_, (0 <= start)%Z ->
       reads_part enc_view (byte_range start end_) (fun h => get_blob_range_stream h start end_))
  ∧ (forall (e : Enc) h d n e' ps m, v_inv enc_view e ->
       put_blob_from_bytes_replace h d e = (Ok n, e') ->
       keys_ok ps -> ps ≠ [] -> head_cipher e = None ∨ head_pair (pairs e) ∈ ps ->
       enc_content (new (inner e') ps m) h = Some d).
Proof.
  split.
  { split_and!; [exact (enc_stores _ bk_put)|exact (enc_rewrites _ bk_put_unsynced)|exact (enc_stores _)
      |exact (enc_replaces _ bk_replace)|exact (enc_reads (fun b => b))|exact enc_ranges]. }
  intros e h d n e' ps m [Hc Hi] Hx Hok Hne Hk.
  destruct (framed_op _ h d e (Ok n) e' Hc Hx) as [_ [(err & ? & _)|(out & Ho & _ & _ & Hread)]]; [done|].
  destruct (bk_replace _ _ _ _ _ Hi Ho) as (_ & _ & _ & Hraw & _). unfold enc_content. simpl.
  rewrite (Hraw n eq_refl). simpl. rewrite (Hread (new (inner e') ps m)); [done|by apply new_config|].
  destruct Hk as [Hk|Hk]; [by left|right]. simpl. by rewrite normalise_id.
Qed.

(** C9: rotation loses nothing the key list can tell apart.  Whatever fails on the way, after a run
    over a batch every blob reads under the same key list as it did before.  What it reads is the
    plaintext the blob was stored from, in any format old or new under any key of the list, with
    one exception: when the head of the list is the plain pair, a sealed file from before the
    header is not recognised ([plaintext_rotation_destroys_legacy]); no key of the list may open
    the file as something else.  If the run ends without a failure, every blob of the batch has
    the head format and is read back unchanged with the head key alone; and on a healthy backend
    whose blobs are readable it does end without a failure. *)
Theorem rotation_preserves_content (e : Enc) rows out c e' :
  v_inv enc_view e -> rotate_rows rows (mkCounts 0 0 0) e = ((out, c), e') ->
  v_inv enc_view e' ∧ (forall h, enc_content e' h = enc_content e h)
  ∧ (forall h raw d, v_content bk_view (inner e) h = Some raw -> stored_from (pairs e) h raw d ->
       authentic (pairs e) raw d -> (head_cipher e = None -> ~ legacy_sealed (pairs e) raw d) ->
       enc_content e h = Some d ∧ enc_content e' h = Some d)
  ∧ (out = BatchDone -> failed c = 0%nat -> forall h, h ∈ rows -> exists raw d,
       v_content bk_view (inner e') h = Some raw ∧ classify raw = head_format e
       ∧ enc_content e h = Some d
       ∧ forall m, enc_content (new (inner e') [head_pair (pairs e)] m) h = Some d)
  ∧ (v_healthy enc_view e ->
     Forall (fun h => exists d, enc_content e h = Some d ∧ v_fits enc_view (Z.of_nat (length d))) rows ->
     out = BatchDone ∧ failed c = 0%nat).
Proof.
  intros [Hc Hi] Hx. destruct (rotate_rows_spec rows _ e out c e' Hc Hi Hx) as [Hs Hi' Hcont _ _ Hdone Hlive].
  pose proof (config_same e e' Hc Hs) as Hc'. split; [by split|]. split; [exact Hcont|].
  split.
  { intros h raw d Hraw Hw Ha Hh. rewrite Hcont. unfold enc_content. rewrite Hraw. cbn.
    by rewrite (stored_reads e h raw d). }
  split; [|exact Hlive].
  intros Ho Hf h Hin. destruct (Hdone Ho Hf h Hin) as (raw & d & Hraw & Hd & Hcl).
  assert (He : enc_content e h = Some d).
  { rewrite <- Hcont. unfold enc_content. by rewrite Hraw; simpl; rewrite Hd. }
  exists raw, d. split_and!; [done|by rewrite <- (head_format_same e e')|done|].
  intros m. unfold enc_content. simpl. rewrite Hraw. simpl.
  rewrite (head_format_readable e' (new (inner e') [head_pair (pairs e)] m) h raw d); try done.
  - apply new_config; [|done]. destruct Hc as (_ & (K1 & K2 & K3) & Hne).
    pose proof (head_pair_in _ Hne) as Hin'.
    split_and!; [intros p ->%list_elem_of_singleton; by apply K1
      |intros p q a b ->%list_elem_of_singleton ->%list_elem_of_singleton; congruence
      |intros p a ->%list_elem_of_singleton; by apply K3].
  - right. destruct Hs as (-> & _). simpl. by left.
Qed.

(** A rotation to plaintext destroys old encrypted blobs.  A blob from before the header,
    encrypted under a key, reads correctly while that key is the head; once the plaintext pair
    is appended, as the format's documentation foresees, reading it returns the ciphertext
    without an error, and the rotation, which reports success, stores that ciphertext as the
    content: from then on every list of keys reads the ciphertext. *)
Theorem plaintext_rotation_destroys_legacy (st : St) h key nonce d ct tag :
  v_inv bk_view st -> v_healthy bk_view st -> keys_ok [new_aes_gcm key] ->
  encrypt_detached key nonce d = Some (ct, tag) -> length nonce = 12%nat ->
  let raw := nonce ++ ct ++ tag in
  v_content bk_view st h = Some raw -> has_magic raw = false ->
  v_fits enc_view (Z.of_nat (length raw)) ->
  enc_content (new st [new_aes_gcm key] 0) h = Some d
  ∧ let run := rotate_rows [h] (mkCounts 0 0 0) (new st [new_aes_gcm key; new_none] 0) in
    fst run = (BatchDone, mkCounts 1 0 0)
    ∧ forall ps m, keys_ok ps -> ps ≠ [] ->
        enc_content (new (inner (snd run)) ps m) h = Some raw ∧ raw ≠ d.
Proof.
  intros Hi Hh Hok He Hn raw Hraw Hm Hfit. assert (Hne : raw ≠ d).
  { intros Heq. destruct (encrypt_length _ _ _ _ _ He) as [Hct _].
    apply (f_equal length) in Heq. unfold raw in Heq. rewrite !length_app, Hn, Hct in Heq. lia. }
  set (p := new_aes_gcm key) in *. destruct Hok as (K1 & K2 & K3).
  assert (Hfp : key_fp p ≠ ZERO_FP) by (by apply (K3 p key); [left|]).
  split.
  { unfold enc_content. simpl. rewrite Hraw. simpl. unfold dispatch, read_dispatch. rewrite Hm. simpl.
    unfold key_table. simpl. rewrite lookup_insert_eq. by rewrite (decrypt_sealed key nonce d ct tag). }
  set (e := new st [p; new_none] 0).
  assert (Hc : config_ok e).
  { apply new_config; [|done]. split_and!.
    - intros q [->|[->|Hq]%elem_of_cons]%elem_of_cons; [by apply K1; left|by split; [|intros [? ?]]|].
      by apply not_elem_of_nil in Hq.
    - intros q1 q2 a b Hq1 Hq2. rewrite !elem_of_cons, elem_of_nil in Hq1, Hq2.
      destruct Hq1 as [->|[->|[]]], Hq2 as [->|[->|[]]]; simpl; congruence.
    - intros q a Hq. rewrite !elem_of_cons, elem_of_nil in Hq. by destruct Hq as [->|[->|[]]]. }
  assert (Hhead : head_cipher e = None).
  { destruct (config_fields e Hc) as (_ & -> & ->). apply key_table_zero, Hc. }
  assert (Hd : dispatch e h raw = Ok raw) by (unfold dispatch, read_dispatch; by rewrite Hm, Hhead).
  assert (Hcont : enc_content e h = Some raw) by (unfold enc_content; simpl; rewrite Hraw; simpl; by rewrite Hd).
  intros run. destruct (read_and_classify h e) as [r1 e1] eqn:E1.
  destruct (read_and_classify_spec h e r1 e1 Hi E1) as (Hs1 & Hi1 & Hun1 & Hr1 & Hl1).
  destruct (Hl1 Hh) as [Hh1 Hr]. destruct (Hr raw Hcont) as [f ->].
  destruct (Hr1 raw f eq_refl) as (_ & raw' & Hraw' & _ & ->). simpl in Hraw'. rewrite Hraw in Hraw'.
  injection Hraw' as <-. pose proof (config_same e e1 Hc Hs1) as Hc1.
  destruct (put_blob_from_bytes_replace h raw e1) as [r2 e2] eqn:E2.
  destruct (rewrite_spec h raw e1 r2 e2 Hc1 Hi1) as (Hs2 & Hi2 & Hcont2 & _ & _ & Hl2).
  { rewrite <- Hcont. by apply (enc_unchanged e e1). }
  { exact E2. }
  destruct (proj2 (Hl2 Hh1) Hfit) as [n ->].
  assert (Hrun : run = ((BatchDone, mkCounts 1 0 0), e2)).
  { unfold run. cbn [rotate_rows]. rewrite E1, decide_False, E2; [done|]. unfold classify. rewrite Hm. simpl.
    unfold head_format. by destruct (head_cipher e1). }
  rewrite Hrun. split; [done|]. intros ps m Hps Hnil. split; [|done].
  destruct (framed_op _ h raw e1 (Ok n) e2 Hc1 E2) as [_ [(err & ? & _)|(out & Ho & _ & _ & Hread)]]; [done|].
  destruct (bk_replace _ _ _ _ _ Hi1 Ho) as (_ & _ & _ & Hput & _). unfold enc_content. simpl.
  rewrite (Hput n eq_refl). simpl. rewrite (Hread (new (inner e2) ps m)); [done|by apply new_config|].
  left. destruct Hs1 as (_ & _ & -> & _). done.
Qed.
End decorator.

(** ** A concrete instance *)
(** A cipher that tags the message with the first bytes of its key, hash functions that pad, and
    a constant nonce, over the local backend: enough to run the definitions. *)
Module Toy.
Definition pad (n : nat) (b : bytes) : bytes := take n (b ++ replicate n 0%Z).
Lemma pad_length n b : length (pad n b) = n.
Proof. unfold pad. rewrite length_take, length_app, length_replicate. lia. Qed.
#[export] Instance aes : Aes256Gcm.
Proof.
  refine {| encrypt_detached k _ d := Some (d, pad 16 k);
            decrypt_detached k _ ct tag := if decide (tag = pad 16 k) then Some ct else None |}.
  - intros k n d ct tag [= <- <-]. split; [done|apply pad_length].
  - eauto.
  - intros k n d ct tag [= <- <-]. by rewrite decide_True.
Defined.
#[export] Instance primitives : Primitives.
Proof.
  refine {| sha256 := pad 32; blake3 := pad 32; random_nonce _ := replicate 12 7%Z |}.
  - intros d. apply pad_length.
  - done.
Defined.

Definition h : str := lit "ab".
Definition old : KeyPair := new_aes_gcm [1; 2; 3]%Z.
Definition young : KeyPair := new_aes_gcm [4; 5; 6]%Z.
(** A legacy blob: nonce, body and tag without a header. *)
Definition legacy : bytes := replicate 12 7%Z ++ [42]%Z ++ pad 16 [1; 2; 3]%Z.
Definition store : LocalBlobBackend := mkLocal {[h := legacy]} [].
Lemma keys_old : keys_ok [old].
Proof.
  split_and!; [intros p ->%list_elem_of_singleton; by split; [eexists|]
    |intros p q a b ->%list_elem_of_singleton ->%list_elem_of_singleton; simpl; congruence
    |intros p a ->%list_elem_of_singleton; done].
Qed.
Lemma keys_both : keys_ok [old; young].
Proof.
  split_and!.
  - intros p Hp. rewrite !elem_of_cons, elem_of_nil in Hp. destruct Hp as [->|[->|[]]]; by split; [eexists|].
  - intros p q a b Hp Hq. rewrite !elem_of_cons, elem_of_nil in Hp, Hq.
    destruct Hp as [->|[->|[]]], Hq as [->|[->|[]]]; intros [= <-] [= <-] Hfp; try done; by vm_compute in Hfp.
  - intros p a Hp. rewrite !elem_of_cons, elem_of_nil in Hp. by destruct Hp as [->|[->|[]]].
Qed.
End Toy.
Import Toy.

Lemma encrypted_backend_contract_witness :
  enc_content (new (inner (snd (put_blob_from_bytes_replace h [42]%Z (new store [old] 0)))) [old; young] 1) h
  = Some [42]%Z.
Proof.
  apply (proj2 encrypted_backend_contract (new store [old] 0) h [42]%Z 44%Z
    (snd (put_blob_from_bytes_replace h [42]%Z (new store [old] 0)))).
  - split; [apply new_config; [apply keys_old|done]|apply Forall_nil_2].
  - by vm_compute.
  - apply keys_both.
  - done.
  - right. by left.
Defined.
Lemma rotation_preserves_content_witness :
  let e := new store [old; young] 0 in
  let run := rotate_rows [h] (mkCounts 0 0 0) e in
  enc_content (snd run) h = Some [42]%Z ∧ fst (fst run) = BatchDone.
Proof.
  intros e run. destruct (rotation_preserves_content e [h] (fst (fst run)) (snd (fst run)) (snd run))
    as (_ & _ & Hw & _ & Hl).
  - split; [apply new_config; [apply keys_both|done]|apply Forall_nil_2].
  - by vm_compute.
  - split; [|apply Hl; [apply Forall_nil_2|apply Forall_singleton; exists [42]%Z; split; by vm_compute]].
    apply (Hw h legacy [42]%Z); [done| | |done].
    + right; right; left. split; [done|]. exists old, [1; 2; 3]%Z, (replicate 12 7%Z), [42]%Z, (pad 16 [1; 2; 3]%Z).
      by split_and!; [left|..].
    + intros p key d' Hp. change (p ∈ [old; young]) in Hp. rewrite !elem_of_cons, elem_of_nil in Hp.
      destruct Hp as [->|[->|[]]]; intros [= <-] Hd; vm_compute in Hd; congruence.
Defined.
Lemma plaintext_rotation_destroys_legacy_witness :
  enc_content (new store [old] 0) h = Some [42]%Z
  ∧ enc_content (new (inner (snd (rotate_rows [h] (mkCounts 0 0 0) (new store [old; new_none] 0)))) [old] 0) h
    = Some legacy.
Proof.
  destruct (plaintext_rotation_destroys_legacy store h [1; 2; 3]%Z (replicate 12 7%Z) [42]%Z [42]%Z
    (pad 16 [1; 2; 3]%Z)) as (H1 & _ & H2).
  - apply Forall_nil_2.
  - apply Forall_nil_2.
  - apply keys_old.
  - done.
  - done.
  - by vm_compute.
  - by vm_compute.
  - by vm_compute.
  - split; [exact H1|]. exact (proj1 (H2 [old] 0%nat keys_old ltac:(done))).
Defined.
