(* ===== verification/BlobDecorators.v ===== *)
(** * Time limits, retries and the hot-swap wrapper

    [src/src/infrastructure/services/timeout_blob_backend.rs],
    [src/src/infrastructure/services/retry_blob_backend.rs] and the wrapper of [BlobBackend],
    which stand between the blob handler and a remote backend in this order, with the
    encrypting decorator innermost.  Each keeps the contract of the port over any backend that
    keeps it; retrying also needs writes that fail without leaving a part behind.  The one method
    they do not forward is [put_blob_from_bytes_replace]: on the stack it is a put, and the
    specification of the port at the end of this file ([permitted]) says so.

    Time is not measured: a script says of every bounded call whether it answers within its
    limit and, if it does not, whether it takes effect nevertheless.  The pauses between
    attempts, computed in floating point, are left out. *)

From S2P Require Import Prelude.
From S2P Require Import RustStr.
From S2P Require Import DomainErrors.
From S2P Require Import AuthStores.
From S2P Require Import BlobBackend.
From S2P Require Import EncryptedBlob.

#[local] Arguments lit : simpl never.

(** ** Decorators in general

    The state of a decorator contains the state of the backend below; [ok] says that it will
    not fail on its own account. *)
Section over.
Context {D St : Type} (v : View St) (below : D -> St) (ok : D -> Prop).
Definition over : View D :=
  mkView (fun d => v_inv v (below d)) (fun d => v_healthy v (below d) ∧ ok d) (v_fits v)
         (fun d => v_present v (below d)) (fun d => v_content v (below d)).
(** The decorated call makes the call below and passes the answer on, or it gives up with an
    error, with or without the call. *)
Definition settles {T} (op : D -> M St DomainError T) (opD : M D DomainError T) : Prop :=
  forall d res d', opD d = (res, d') ->
    (ok d -> ok d')
    ∧ ((exists r0, op d (below d) = (r0, below d') ∧ (res = r0 ∨ (¬ ok d ∧ exists e, res = Err e)))
       ∨ (below d' = below d ∧ ¬ ok d ∧ exists e, res = Err e)).
Lemma over_unchanged d d' h : unchanged_at v (below d) (below d') h -> unchanged_at over d d' h.
Proof. done. Qed.
Lemma over_same d d' h : below d' = below d -> unchanged_at over d d' h.
Proof. intros Hb. unfold unchanged_at. cbn. by rewrite Hb. Qed.
Lemma settles_stores (op : D -> str -> bytes -> M St DomainError Z) opD :
  (forall d, stores v (op d)) -> (forall h x, settles (fun d => op d h x) (opD h x)) -> stores over opD.
Proof.
  intros Hop Hs d h x res d' Hi Hx. destruct (Hs h x d res d' Hx) as [Hok [(r0 & Ho & Hr)|(Hb & Hno & e & ->)]].
  - destruct (Hop d _ _ _ _ _ Hi Ho) as (Hi' & Hun & Hput & Hl). cbn in *. split_and!; try done.
    + intros n -> Hp. destruct Hr as [<-|(_ & e & ?)]; [by eapply Hput|done].
    + intros [Hh Hokd]. destruct (Hl Hh) as [Hh' Hfit]. split; [by auto|]. intros Hf.
      destruct Hr as [->|[? _]]; [by apply Hfit|done].
  - cbn. rewrite Hb. split_and!; try done; [intros h' _; by apply over_same|]. by intros [_ ?].
Qed.
Lemma settles_rewrites (op : D -> str -> bytes -> M St DomainError Z) opD :
  (forall d, rewrites v (op d)) -> (forall h x, settles (fun d => op d h x) (opD h x)) -> rewrites over opD.
Proof.
  intros Hop Hs d h x res d' Hi Hx. destruct (Hs h x d res d' Hx) as [Hok [(r0 & Ho & Hr)|(Hb & Hno & e & ->)]].
  - destruct (Hop d _ _ _ _ _ Hi Ho) as (Hi' & Hun & Hput & Hl). cbn in *. split_and!; try done.
    + intros n ->. destruct Hr as [<-|(_ & e & ?)]; [by eapply Hput|done].
    + intros [Hh Hokd]. destruct (Hl Hh) as [Hh' Hfit]. split; [by auto|]. intros Hf.
      destruct Hr as [->|[? _]]; [by apply Hfit|done].
  - cbn. rewrite Hb. split_and!; try done; [intros h' _; by apply over_same|]. by intros [_ ?].
Qed.
Lemma settles_replaces (op : D -> str -> bytes -> M St DomainError Z) opD :
  (forall d, replaces v (op d)) -> (forall h x, settles (fun d => op d h x) (opD h x)) -> replaces over opD.
Proof.
  intros Hop Hs d h x res d' Hi Hx.
  destruct (settles_rewrites op opD (fun d => replaces_rewrites _ _ (Hop d)) Hs d h x res d' Hi Hx) as (Hi1 & Hun1 & _ & Hl1).
  destruct (Hs h x d res d' Hx) as [Hok [(r0 & Ho & Hr)|(Hb & Hno & e & ->)]].
  - destruct (Hop d _ _ _ _ _ Hi Ho) as (_ & _ & Hold & Hput & _). split_and!; try done.
    intros n ->. destruct Hr as [<-|(_ & e & ?)]; [by eapply Hput|done].
  - split_and!; try done. left. by apply over_same.
Qed.
Lemma settles_clean (op : D -> str -> bytes -> M St DomainError Z) opD :
  (forall d, rewrites v (op d)) -> (forall d, fails_clean v (op d)) ->
  (forall h x, settles (fun d => op d h x) (opD h x)) -> fails_clean over opD.
Proof.
  intros Hop Hcl Hs d h x e d' Hi Hx. destruct (Hs h x d _ d' Hx) as [_ [(r0 & Ho & _)|(Hb & _)]]; [|left; by apply over_same].
  destruct r0 as [n|e0]; [|by eapply Hcl]. destruct (Hop d _ _ _ _ _ Hi Ho) as (_ & _ & Hput & _).
  destruct (Hput n eq_refl) as [?|[_ ?]]; [by right|by left].
Qed.
Lemma settles_reads part (op : D -> str -> M St DomainError BlobStream) opD :
  (forall d, reads_part v part (op d)) -> (forall h, settles (fun d => op d h) (opD h)) -> reads_part over part opD.
Proof.
  intros Hop Hs d h res d' Hi Hx. destruct (Hs h d res d' Hx) as [Hok [(r0 & Ho & Hr)|(Hb & Hno & e & ->)]].
  - destruct (Hop d _ _ _ _ Hi Ho) as (Hi' & Hun & Hb & Hl). cbn in *. split_and!; try done.
    + intros s b ->. destruct Hr as [<-|(_ & e & ?)]; [by apply Hb|done].
    + intros [Hh Hokd]. destruct (Hl Hh) as [Hh' Hread]. split; [by auto|].
      destruct Hr as [->|[? _]]; [by apply Hread|done].
  - cbn. rewrite Hb. split_and!; try done; [intros h'; by apply over_same|]. by intros [_ ?].
Qed.
Lemma settles_deletes (op : D -> str -> M St DomainError unit) opD :
  (forall d, deletes v (op d)) -> (forall h, settles (fun d => op d h) (opD h)) -> deletes over opD.
Proof.
  intros Hop Hs d h res d' Hi Hx. destruct (Hs h d res d' Hx) as [_ [(r0 & Ho & Hr)|(Hb & _ & e & ->)]].
  - destruct (Hop d _ _ _ _ Hi Ho) as (Hi' & Hun & Hold & Hgone). cbn in *. split_and!; try done.
    intros ->. destruct Hr as [<-|(_ & e & ?)]; [by apply Hgone|done].
  - cbn. rewrite Hb. split_and!; try done; [intros h' _|left]; by apply over_same.
Qed.
Lemma settles_probes (op : D -> str -> M St DomainError bool) opD :
  (forall d, probes v (op d)) -> (forall h, settles (fun d => op d h) (opD h)) -> probes over opD.
Proof.
  intros Hop Hs d h res d' Hi Hx. destruct (Hs h d res d' Hx) as [Hok [(r0 & Ho & Hr)|(Hb & Hno & e & ->)]].
  - destruct (Hop d _ _ _ _ Hi Ho) as (Hi' & Hun & Htrue & Hl). cbn in *. split_and!; try done.
    + intros ->. destruct Hr as [<-|(_ & e & ?)]; [by apply Htrue|done].
    + intros [Hh Hokd]. destruct (Hl Hh) as [Hh' Hres]. split; [by auto|]. by destruct Hr as [->|[? _]].
  - cbn. rewrite Hb. split_and!; try done; [intros h'; by apply over_same|]. by intros [_ ?].
Qed.
End over.
Arguments over {D St} v below ok.
Arguments settles {D St} below ok {T} op opD.

(** ** Time limits *)

(** [{:?}] of a [Duration]. *)
Class DurationText := { debug_duration : Z -> str }.
Record TimeoutPolicy := mkTimeoutPolicy { p_metadata : option Z; p_open : option Z; p_write : option Z }.
(** Thirty and sixty seconds in milliseconds; writes are not bounded. *)
Definition default_timeouts : TimeoutPolicy := mkTimeoutPolicy (Some 30000%Z) (Some 60000%Z) None.
Definition disabled : TimeoutPolicy := mkTimeoutPolicy None None None.
Definition is_enabled (p : TimeoutPolicy) : bool :=
  match p with mkTimeoutPolicy None None None => false | _ => true end.
Record TimeoutBlobBackend (St : Type) := mkTimeout {
  t_inner : St;
  t_policy : TimeoutPolicy;
  (** [inner.backend_type()] *)
  t_kind : str;
  (** of every bounded call: [None] when it answers in time, otherwise whether it took effect *)
  t_hangs : list (option bool);
}.
Arguments mkTimeout {St}.
Arguments t_inner {St} t.
Arguments t_policy {St} t.
Arguments t_kind {St} t.
Arguments t_hangs {St} t.
Definition debug_option (x : option Z) : str :=
  match x with None => lit "None" | Some n => lit "Some(" ++ dec n ++ lit ")" end.

Section timeout.
Context {St : Type} `{BlobStorageBackend St} `{DurationText}.
Definition TM (T : Type) : Type := M (TimeoutBlobBackend St) DomainError T.
Definition with_timeout {T} (limit : TimeoutPolicy -> option Z) (name : str) (op : M St DomainError T) : TM T := fun t =>
  let (r, st) := op (t_inner t) in
  match limit (t_policy t), t_hangs t with
  | None, hangs => (r, mkTimeout st (t_policy t) (t_kind t) hangs)
  | Some _, [] => (r, mkTimeout st (t_policy t) (t_kind t) [])
  | Some _, None :: hangs => (r, mkTimeout st (t_policy t) (t_kind t) hangs)
  | Some l, Some took_effect :: hangs =>
      (Err (DomainError.transient_backend (lit "Blob")
              (name ++ lit " on " ++ t_kind t ++ lit " backend timed out after " ++ debug_duration l ++ lit " (no response)")),
       mkTimeout (if (took_effect : bool) then st else t_inner t) (t_policy t) (t_kind t) hangs)
  end.
Definition call_name (op hash : str) : str := op ++ lit "(" ++ hash ++ lit ")".
#[export] Instance timeout_backend : BlobStorageBackend (TimeoutBlobBackend St) := {|
  put_blob_from_bytes h d := with_timeout p_write (call_name (lit "put_blob_from_bytes") h) (put_blob_from_bytes h d);
  put_blob_from_bytes_unsynced h d :=
    with_timeout p_write (call_name (lit "put_blob_from_bytes_unsynced") h) (put_blob_from_bytes_unsynced h d);
  put_blob_from_bytes_replace h d :=
    with_timeout p_write (call_name (lit "put_blob_from_bytes_replace") h) (put_blob_from_bytes_replace h d);
  get_blob_stream h := with_timeout p_open (call_name (lit "get_blob_stream") h) (get_blob_stream h);
  get_blob_range_stream h s e :=
    with_timeout p_open
      (call_name (lit "get_blob_range_stream") (h ++ lit ", " ++ dec s ++ lit ".." ++ debug_option e))
      (get_blob_range_stream h s e);
  delete_blob h := with_timeout p_metadata (call_name (lit "delete_blob") h) (delete_blob h);
  blob_exists h := with_timeout p_metadata (call_name (lit "blob_exists") h) (blob_exists h);
  blob_size h := with_timeout p_metadata (call_name (lit "blob_size") h) (blob_size h);
|}.
Definition answers_in_time (t : TimeoutBlobBackend St) : Prop := Forall (fun f => f = None) (t_hangs t).
Lemma with_timeout_settles {T} limit name (op : M St DomainError T) :
  settles t_inner answers_in_time (fun _ => op) (with_timeout limit name op).
Proof.
  intros t res t' Hx. unfold with_timeout in Hx. destruct (op (t_inner t)) as [r st] eqn:Eo. unfold answers_in_time.
  assert (Hpass : forall hangs, (Forall (fun f => f = None) (t_hangs t) -> Forall (fun f => f = None) hangs) ->
    (r, mkTimeout st (t_policy t) (t_kind t) hangs) = (res, t') ->
    (Forall (fun f => f = None) (t_hangs t) -> Forall (fun f => f = None) (t_hangs t'))
    ∧ ((exists r0, op (t_inner t) = (r0, t_inner t') ∧ (res = r0 ∨ (¬ Forall (fun f => f = None) (t_hangs t) ∧ exists e, res = Err e)))
       ∨ (t_inner t' = t_inner t ∧ ¬ Forall (fun f => f = None) (t_hangs t) ∧ exists e, res = Err e))).
  { intros hangs Hh [= <- <-]. split; [done|]. left. exists r. split; [done|by left]. }
  rewrite Eo in Hpass.
  destruct (limit (t_policy t)) as [l|]; [|by apply (Hpass (t_hangs t))].
  destruct (t_hangs t) as [|[took|] hangs] eqn:Eh; [by apply (Hpass [])| |].
  - injection Hx as <- <-. assert (Hno : ¬ Forall (fun f => f = None) (Some took :: hangs)) by (intros Hf; by inversion Hf).
    split; [done|]. destruct took; cbn.
    + left. exists r. split; [done|]. right. split; [done|by eexists].
    + right. split; [done|]. split; [done|by eexists].
  - apply (Hpass hangs); [|done]. by intros Hf; inversion Hf.
Qed.
Context `{HL : !BackendLaws St}.
#[export] Instance timeout_laws : BackendLaws (TimeoutBlobBackend St).
Proof.
  refine {| bk_view := over bk_view t_inner answers_in_time |}.
  - intros t h. apply bk_absent.
  - apply (settles_stores _ _ _ (fun _ => put_blob_from_bytes)); [intros _; exact bk_put|]. intros h x. apply with_timeout_settles.
  - apply (settles_rewrites _ _ _ (fun _ => put_blob_from_bytes_unsynced)); [intros _; exact bk_put_unsynced|]. intros h x. apply with_timeout_settles.
  - apply (settles_rewrites _ _ _ (fun _ => put_blob_from_bytes_replace)); [intros _; exact bk_rewrite|]. intros h x. apply with_timeout_settles.
  - apply (settles_reads _ _ _ _ (fun _ => get_blob_stream)); [intros _; exact bk_get|]. intros h. apply with_timeout_settles.
  - intros s e Hs. apply (settles_reads _ _ _ _ (fun _ h => get_blob_range_stream h s e)); [intros _; by apply bk_range|].
    intros h. apply with_timeout_settles.
  - apply (settles_deletes _ _ _ (fun _ => delete_blob)); [intros _; exact bk_delete|]. intros h. apply with_timeout_settles.
  - apply (settles_probes _ _ _ (fun _ => blob_exists)); [intros _; exact bk_exists|]. intros h. apply with_timeout_settles.
Defined.
#[export] Instance timeout_replace `{!ReplaceLaws St} : ReplaceLaws (TimeoutBlobBackend St).
Proof.
  constructor. apply (settles_replaces _ _ _ (fun _ => put_blob_from_bytes_replace)); [intros _; exact bk_replace|].
  intros h x. apply with_timeout_settles.
Qed.
#[export] Instance timeout_atomic `{!AtomicPuts St} : AtomicPuts (TimeoutBlobBackend St).
Proof.
  constructor.
  - apply (settles_clean _ _ _ (fun _ => put_blob_from_bytes)); [intros _; apply stores_rewrites, bk_put|intros _; exact failed_put|].
    intros h x. apply with_timeout_settles.
  - apply (settles_clean _ _ _ (fun _ => put_blob_from_bytes_unsynced));
      [intros _; exact bk_put_unsynced|intros _; exact failed_put_unsynced|]. intros h x. apply with_timeout_settles.
  - apply (settles_clean _ _ _ (fun _ => put_blob_from_bytes_replace)); [intros _; exact bk_rewrite|intros _; exact failed_rewrite|].
    intros h x. apply with_timeout_settles.
Qed.
End timeout.

(** ** Retries *)
Section retryable.
Context `{Lowercase}.
Definition is_retryable (err : DomainError) : bool :=
  if DomainError.is_transient err then true else
  let msg := to_lowercase (DomainError.to_string err) in
  str_contains_str (lit "timeout") msg || str_contains_str (lit "connection") msg
  || str_contains_str (lit "503") msg || str_contains_str (lit "500") msg || str_contains_str (lit "429") msg
  || str_contains_str (lit "temporarily") msg || str_contains_str (lit "broken pipe") msg
  || str_contains_str (lit "reset by peer") msg.
End retryable.
Record RetryBlobBackend (St : Type) := mkRetry { r_inner : St; max_retries : N }.
Arguments mkRetry {St}.
Arguments r_inner {St} r.
Arguments max_retries {St} r.

Section retry.
Context {St : Type} `{Lowercase}.
(** [left] is [max_retries - attempt]. *)
Fixpoint retry_async {T} (left : nat) (op : M St DomainError T) : M St DomainError T := fun st =>
  match op st with
  | (Ok v, st') => (Ok v, st')
  | (Err e, st') =>
      match left with
      | S left' => if is_retryable e then retry_async left' op st' else (Err e, st')
      | O => (Err e, st')
      end
  end.
(** The state before the attempt after [k] others. *)
Definition after {T} (k : nat) (op : M St DomainError T) (st : St) : St := Nat.iter k (fun st => (op st).2) st.
Lemma after_step {T} k (op : M St DomainError T) st : after k op (op st).2 = after (S k) op st.
Proof. unfold after. by rewrite Nat.iter_succ_r. Qed.
Lemma retry_trace {T} (op : M St DomainError T) left : forall st,
  exists k, (k <= left)%nat ∧ retry_async left op st = op (after k op st)
    ∧ (forall j, (j < k)%nat -> exists e, (op (after j op st)).1 = Err e ∧ is_retryable e = true)
    ∧ (k = left ∨ forall e, (op (after k op st)).1 = Err e -> is_retryable e = false).
Proof.
  induction left as [|left IH]; intros st; cbn [retry_async]; destruct (op st) as [[x|e] st'] eqn:Eo.
  1-3: exists O; split; [lia|]; split; [by cbn; rewrite Eo|]; split; [lia|].
  - by left.
  - by left.
  - right. cbn. rewrite Eo. by intros e [=].
  - destruct (is_retryable e) eqn:Er.
    2:{ exists O. split; [lia|]. split; [by cbn; rewrite Eo|]. split; [lia|]. right. cbn. rewrite Eo. by intros e' [= <-]. }
    destruct (IH st') as (k & Hk & Hrun & Hbad & Hend). replace st' with ((op st).2) in * by by rewrite Eo.
    rewrite after_step in *. exists (S k). split; [lia|]. split; [done|]. split.
    + intros [|j] Hj; [exists e; cbn; by rewrite Eo|]. rewrite <- after_step. apply Hbad. lia.
    + destruct Hend as [->|?]; [by left|by right].
Qed.

(** A call with a property that composes over attempts keeps it. *)
Lemma retry_stores (v : View St) op : stores v op -> fails_clean v op ->
  forall left, stores v (fun h d => retry_async left (op h d)) ∧ fails_clean v (fun h d => retry_async left (op h d)).
Proof.
  intros Hst Hcl left. assert (Hgo : forall st h d res st', v_inv v st -> retry_async left (op h d) st = (res, st') ->
    v_inv v st' ∧ (forall h', h' ≠ h -> unchanged_at v st st' h')
    ∧ (unchanged_at v st st' h ∨ (v_present v st h = false ∧ v_content v st' h = Some d))
    ∧ (forall n, res = Ok n -> v_present v st h = false -> v_content v st' h = Some d)
    ∧ (v_healthy v st -> v_healthy v st' ∧ (v_fits v (Z.of_nat (length d)) -> exists n, res = Ok n))).
  { induction left as [|left IH]; intros st h d res st' Hi Hx; cbn [retry_async] in Hx;
      destruct (op h d st) as [r1 st1] eqn:Eo; destruct (Hst _ _ _ _ _ Hi Eo) as (Hi1 & Hun1 & Hput1 & Hl1);
      assert (Hat1 : unchanged_at v st st1 h ∨ (v_present v st h = false ∧ v_content v st1 h = Some d)).
    1,3: destruct (v_present v st h) eqn:Ep; [left; apply Hun1; by right|];
         destruct r1 as [n1|e1]; [right; split; [done|by eapply Hput1]|];
         destruct (Hcl _ _ _ _ _ Hi Eo) as [?|?]; [by left|by right].
    - assert ((r1, st1) = (res, st')) as [= <- <-] by by destruct r1. split_and!; try done. intros h' Hne. apply Hun1. by left.
    - destruct r1 as [n1|e1].
      { injection Hx as <- <-. split_and!; try done. intros h' Hne. apply Hun1. by left. }
      destruct (is_retryable e1).
      2:{ injection Hx as <- <-. split_and!; try done. intros h' Hne. apply Hun1. by left. }
      destruct (IH st1 h d res st' Hi1 Hx) as (Hi2 & Hun2 & Hat2 & Hput2 & Hl2).
      assert (Hkeep : v_content v st1 h = Some d -> v_content v st' h = Some d).
      { intros Hc. destruct Hat2 as [[Hc2 _]|[_ ?]]; [by rewrite Hc2|done]. }
      split_and!; [done| | | |].
      + intros h' Hne. destruct (Hun1 h' (or_introl Hne)) as [Hc1 Hp1], (Hun2 h' Hne) as [Hc2 Hp2]. split; congruence.
      + destruct Hat1 as [[Hc1 Hp1]|[Hp Hc]]; [|right; split; [done|by apply Hkeep]].
        destruct Hat2 as [[Hc2 Hp2]|[Hp Hc]]; [left; split; congruence|right; split; [congruence|done]].
      + intros n Hn Hp. destruct Hat1 as [[Hc1 Hp1]|[_ Hc]]; [|by apply Hkeep]. eapply Hput2; [done|congruence].
      + intros Hh. destruct (Hl1 Hh) as [Hh1 Hf1]. by apply Hl2. }
  split.
  - intros st h d res st' Hi Hx. destruct (Hgo _ _ _ _ _ Hi Hx) as (? & Hun & Hat & ? & ?). split_and!; try done.
    intros h' [Hne|Hp]; [by apply Hun|]. destruct (decide (h' = h)) as [->|Hne]; [|by apply Hun].
    destruct Hat as [?|[? _]]; [done|congruence].
  - intros st h d e st' Hi Hx. destruct (Hgo _ _ _ _ _ Hi Hx) as (_ & _ & [?|[_ ?]] & _); [by left|by right].
Qed.
Lemma retry_rewrites (v : View St) op : rewrites v op -> fails_clean v op ->
  forall left, rewrites v (fun h d => retry_async left (op h d)) ∧ fails_clean v (fun h d => retry_async left (op h d)).
Proof.
  intros Hw Hcl left. assert (Hgo : forall st h d res st', v_inv v st -> retry_async left (op h d) st = (res, st') ->
    v_inv v st' ∧ (forall h', h' ≠ h -> unchanged_at v st st' h')
    ∧ (unchanged_at v st st' h ∨ v_content v st' h = Some d)
    ∧ (forall n, res = Ok n -> v_content v st' h = Some d ∨ (v_present v st h = true ∧ unchanged_at v st st' h))
    ∧ (v_healthy v st -> v_healthy v st' ∧ (v_fits v (Z.of_nat (length d)) -> exists n, res = Ok n))).
  { induction left as [|left IH]; intros st h d res st' Hi Hx; cbn [retry_async] in Hx;
      destruct (op h d st) as [r1 st1] eqn:Eo; destruct (Hw _ _ _ _ _ Hi Eo) as (Hi1 & Hun1 & Hput1 & Hl1);
      assert (Hat1 : unchanged_at v st st1 h ∨ v_content v st1 h = Some d)
        by (destruct r1 as [n1|e1]; [destruct (Hput1 n1 eq_refl) as [?|[_ ?]]; auto|by apply (Hcl _ _ _ _ _ Hi Eo)]).
    - assert ((r1, st1) = (res, st')) as [= <- <-] by by destruct r1. by split_and!.
    - destruct r1 as [n1|e1]; [injection Hx as <- <-; by split_and!|].
      destruct (is_retryable e1); [|injection Hx as <- <-; by split_and!].
      destruct (IH st1 h d res st' Hi1 Hx) as (Hi2 & Hun2 & Hat2 & Hput2 & Hl2). split_and!; [done| | | |].
      + intros h' Hne. destruct (Hun1 h' Hne) as [Hc1 Hp1], (Hun2 h' Hne) as [Hc2 Hp2]. split; congruence.
      + destruct Hat2 as [[Hc2 Hp2]|?]; [|by right]. destruct Hat1 as [[Hc1 Hp1]|?]; [left; split; congruence|right; congruence].
      + intros n Hn. destruct (Hput2 n Hn) as [?|[Hp [Hc2 Hp2]]]; [by left|].
        destruct Hat1 as [[Hc1 Hp1]|?]; [right; split; [congruence|split; congruence]|left; congruence].
      + intros Hh. destruct (Hl1 Hh) as [Hh1 _]. by apply Hl2. }
  split.
  - intros st h d res st' Hi Hx. destruct (Hgo _ _ _ _ _ Hi Hx) as (? & ? & _ & ? & ?). by split_and!.
  - intros st h d e st' Hi Hx. by destruct (Hgo _ _ _ _ _ Hi Hx) as (_ & _ & ? & _).
Qed.
Lemma retry_reads (v : View St) part op : reads_part v part op ->
  forall left, reads_part v part (fun h => retry_async left (op h)).
Proof.
  intros Hop left. induction left as [|left IH]; intros st h res st' Hi Hx; cbn [retry_async] in Hx;
    destruct (op h st) as [r1 st1] eqn:Eo; pose proof (Hop _ _ _ _ Hi Eo) as Hone.
  - assert ((r1, st1) = (res, st')) as [= <- <-] by by destruct r1. done.
  - destruct r1 as [x|e1]; [by injection Hx as <- <-|]. destruct (is_retryable e1); [|by injection Hx as <- <-].
    destruct Hone as (Hi1 & Hun1 & _ & Hl1). destruct (IH st1 h res st' Hi1 Hx) as (Hi2 & Hun2 & Hb2 & Hl2).
    assert (Hun : forall h', unchanged_at v st st' h').
    { intros h'. destruct (Hun1 h') as [Hc1 Hp1], (Hun2 h') as [Hc2 Hp2]. split; congruence. }
    split_and!; try done.
    + intros s b Hs Hsb. rewrite <- (proj1 (Hun1 h)). by apply (Hb2 s b).
    + intros Hh. destruct (Hl1 Hh) as [Hh1 Hr1]. destruct (Hl2 Hh1) as [Hh2 Hr2]. split; [done|].
      intros full Hf. apply Hr2. by rewrite (proj1 (Hun1 h)).
Qed.
Lemma retry_deletes (v : View St) op : deletes v op -> forall left, deletes v (fun h => retry_async left (op h)).
Proof.
  intros Hop left. induction left as [|left IH]; intros st h res st' Hi Hx; cbn [retry_async] in Hx;
    destruct (op h st) as [r1 st1] eqn:Eo; pose proof (Hop _ _ _ _ Hi Eo) as Hone.
  - assert ((r1, st1) = (res, st')) as [= <- <-] by by destruct r1. done.
  - destruct r1 as [x|e1]; [by injection Hx as <- <-|]. destruct (is_retryable e1); [|by injection Hx as <- <-].
    destruct Hone as (Hi1 & Hun1 & Hold1 & _). destruct (IH st1 h res st' Hi1 Hx) as (Hi2 & Hun2 & Hold2 & Hgone2).
    split_and!; try done.
    + intros h' Hne. destruct (Hun1 h' Hne) as [Hc1 Hp1], (Hun2 h' Hne) as [Hc2 Hp2]. split; congruence.
    + destruct Hold2 as [[Hc2 Hp2]|?]; [|by right]. destruct Hold1 as [[Hc1 Hp1]|?]; [left; split; congruence|right; congruence].
Qed.
Lemma retry_probes (v : View St) op : probes v op -> forall left, probes v (fun h => retry_async left (op h)).
Proof.
  intros Hop left. induction left as [|left IH]; intros st h res st' Hi Hx; cbn [retry_async] in Hx;
    destruct (op h st) as [r1 st1] eqn:Eo; pose proof (Hop _ _ _ _ Hi Eo) as Hone.
  - assert ((r1, st1) = (res, st')) as [= <- <-] by by destruct r1. done.
  - destruct r1 as [x|e1]; [by injection Hx as <- <-|]. destruct (is_retryable e1); [|by injection Hx as <- <-].
    destruct Hone as (Hi1 & Hun1 & _ & Hl1). destruct (IH st1 h res st' Hi1 Hx) as (Hi2 & Hun2 & Htrue2 & _).
    split_and!; try done.
    + intros h'. destruct (Hun1 h') as [Hc1 Hp1], (Hun2 h') as [Hc2 Hp2]. split; congruence.
    + intros Hres. rewrite <- (proj2 (Hun1 h)). by apply Htrue2.
    + intros Hh. by destruct (Hl1 Hh).
Qed.

Context `{HB : !BlobStorageBackend St}.
Definition retrying {T} (op : M St DomainError T) : M (RetryBlobBackend St) DomainError T := fun r =>
  let (res, st) := retry_async (N.to_nat (max_retries r)) op (r_inner r) in (res, mkRetry st (max_retries r)).
(** The rewrite is not forwarded: the default of the trait stores. *)
#[export] Instance retry_backend : BlobStorageBackend (RetryBlobBackend St) := {|
  put_blob_from_bytes h d := retrying (put_blob_from_bytes h d);
  put_blob_from_bytes_unsynced h d := retrying (put_blob_from_bytes_unsynced h d);
  put_blob_from_bytes_replace h d := retrying (put_blob_from_bytes h d);
  get_blob_stream h := retrying (get_blob_stream h);
  get_blob_range_stream h s e := retrying (get_blob_range_stream h s e);
  delete_blob h := retrying (delete_blob h);
  blob_exists h := retrying (blob_exists h);
  blob_size h := retrying (blob_size h);
|}.
Definition always {D : Type} (d : D) : Prop := True.
Lemma retrying_settles {T} (op : M St DomainError T) :
  settles r_inner always (fun r => retry_async (N.to_nat (max_retries r)) op) (retrying op).
Proof.
  intros r res r' Hx. unfold retrying in Hx. destruct (retry_async _ op (r_inner r)) as [x st] eqn:Er.
  injection Hx as <- <-. split; [done|]. left. exists x. split; [done|by left].
Qed.
Context `{HL : !BackendLaws St} `{HA : !AtomicPuts St}.
Lemma retry_put_laws op (opD : str -> bytes -> M (RetryBlobBackend St) DomainError Z) :
  stores bk_view op -> fails_clean bk_view op -> (forall h d, opD h d = retrying (op h d)) ->
  stores (over bk_view r_inner always) opD ∧ fails_clean (over bk_view r_inner always) opD.
Proof.
  intros Hs Hc He. assert (Hset : forall h x, settles r_inner always (fun r => retry_async (N.to_nat (max_retries r)) (op h x)) (opD h x)).
  { intros h x. rewrite He. apply retrying_settles. }
  split.
  - apply (settles_stores _ _ _ (fun r h x => retry_async (N.to_nat (max_retries r)) (op h x))); [|done]. intros r. by apply retry_stores.
  - apply (settles_clean _ _ _ (fun r h x => retry_async (N.to_nat (max_retries r)) (op h x))); [| |done];
      intros r; [apply stores_rewrites|]; by apply retry_stores.
Qed.
Lemma retry_unsynced_laws : let v := over bk_view r_inner always in
  rewrites v put_blob_from_bytes_unsynced ∧ fails_clean v put_blob_from_bytes_unsynced.
Proof.
  pose proof (retry_rewrites bk_view put_blob_from_bytes_unsynced bk_put_unsynced failed_put_unsynced) as Hr.
  assert (Hset : forall h x, settles r_inner always
    (fun r => retry_async (N.to_nat (max_retries r)) (put_blob_from_bytes_unsynced h x)) (put_blob_from_bytes_unsynced h x))
    by (intros h x; apply retrying_settles).
  split.
  - apply (settles_rewrites _ _ _ (fun r h x => retry_async (N.to_nat (max_retries r)) (put_blob_from_bytes_unsynced h x))); [|done].
    intros r. apply Hr.
  - apply (settles_clean _ _ _ (fun r h x => retry_async (N.to_nat (max_retries r)) (put_blob_from_bytes_unsynced h x)));
      [| |done]; intros r; apply Hr.
Qed.
#[export] Instance retry_laws : BackendLaws (RetryBlobBackend St).
Proof.
  refine {| bk_view := over bk_view r_inner always |}.
  - intros r h. apply bk_absent.
  - by apply (retry_put_laws put_blob_from_bytes); [exact bk_put|exact failed_put|].
  - apply retry_unsynced_laws.
  - apply stores_rewrites. by apply (retry_put_laws put_blob_from_bytes); [exact bk_put|exact failed_put|].
  - apply (settles_reads _ _ _ _ (fun r h => retry_async (N.to_nat (max_retries r)) (get_blob_stream h)));
      [intros r; apply retry_reads, bk_get|]. intros h. apply retrying_settles.
  - intros s e Hs. apply (settles_reads _ _ _ _ (fun r h => retry_async (N.to_nat (max_retries r)) (get_blob_range_stream h s e)));
      [intros r; by apply retry_reads, bk_range|]. intros h. apply retrying_settles.
  - apply (settles_deletes _ _ _ (fun r h => retry_async (N.to_nat (max_retries r)) (delete_blob h)));
      [intros r; apply retry_deletes, bk_delete|]. intros h. apply retrying_settles.
  - apply (settles_probes _ _ _ (fun r h => retry_async (N.to_nat (max_retries r)) (blob_exists h)));
      [intros r; apply retry_probes, bk_exists|]. intros h. apply retrying_settles.
Defined.
#[export] Instance retry_atomic : AtomicPuts (RetryBlobBackend St).
Proof.
  constructor.
  - by apply (retry_put_laws put_blob_from_bytes); [exact bk_put|exact failed_put|].
  - apply retry_unsynced_laws.
  - by apply (retry_put_laws put_blob_from_bytes); [exact bk_put|exact failed_put|].
Qed.
End retry.

(** ** The hot-swap wrapper *)
Section swappable.
Context {St : Type} `{HB : !BlobStorageBackend St} `{HL : !BackendLaws St}.
Lemma delegate_settles {T} (op : M St DomainError T) : settles current always (fun _ => op) (delegate op).
Proof.
  intros s res s' Hx. unfold delegate in Hx. destruct (op (current s)) as [x st] eqn:Er.
  injection Hx as <- <-. split; [done|]. left. exists x. split; [done|by left].
Qed.
#[export] Instance swappable_laws : BackendLaws (SwappableBlobBackend St).
Proof.
  refine {| bk_view := over bk_view current always |}.
  - intros s h. apply bk_absent.
  - apply (settles_stores _ _ _ (fun _ => put_blob_from_bytes)); [intros _; exact bk_put|]. intros h x. apply delegate_settles.
  - apply (settles_rewrites _ _ _ (fun _ => put_blob_from_bytes_unsynced)); [intros _; exact bk_put_unsynced|]. intros h x. apply delegate_settles.
  - apply stores_rewrites, (settles_stores _ _ _ (fun _ => put_blob_from_bytes)); [intros _; exact bk_put|]. intros h x. apply delegate_settles.
  - apply (settles_reads _ _ _ _ (fun _ => get_blob_stream)); [intros _; exact bk_get|]. intros h. apply delegate_settles.
  - intros s e Hs. apply (settles_reads _ _ _ _ (fun _ h => get_blob_range_stream h s e)); [intros _; by apply bk_range|].
    intros h. apply delegate_settles.
  - apply (settles_deletes _ _ _ (fun _ => delete_blob)); [intros _; exact bk_delete|]. intros h. apply delegate_settles.
  - apply (settles_probes _ _ _ (fun _ => blob_exists)); [intros _; exact bk_exists|]. intros h. apply delegate_settles.
Defined.
#[export] Instance swappable_atomic `{!AtomicPuts St} : AtomicPuts (SwappableBlobBackend St).
Proof.
  constructor.
  - apply (settles_clean _ _ _ (fun _ => put_blob_from_bytes)); [intros _; apply stores_rewrites, bk_put|intros _; exact failed_put|].
    intros h x. apply delegate_settles.
  - apply (settles_clean _ _ _ (fun _ => put_blob_from_bytes_unsynced));
      [intros _; exact bk_put_unsynced|intros _; exact failed_put_unsynced|]. intros h x. apply delegate_settles.
  - apply (settles_clean _ _ _ (fun _ => put_blob_from_bytes)); [intros _; apply stores_rewrites, bk_put|intros _; exact failed_put|].
    intros h x. apply delegate_settles.
Qed.
End swappable.

(** ** The stack

    A hung call is an error that is retried, so retrying rides out as many hung calls as it has
    retries left. *)
Section stack.
Context `{DurationText} `{Lowercase} {St : Type} `{HB : !BlobStorageBackend St}.
Definition hung (f : option bool) : Prop := f ≠ None.
Lemma retry_hangs {T} limit name (op : M St DomainError T) l : forall hs left t rest,
  limit (t_policy t) = Some l -> t_hangs t = hs ++ rest -> Forall hung hs -> Forall (fun f => f = None) rest ->
  (length hs <= left)%nat ->
  exists j r st, (j <= length hs)%nat ∧ op (after j op (t_inner t)) = (r, st)
    ∧ match r with
      | Ok v => exists t', retry_async left (with_timeout limit name op) t = (Ok v, t') ∧ t_inner t' = st
      | Err _ => True
      end.
Proof.
  induction hs as [|f hs IH]; intros left t rest Hl Eh Hh Hr Hlen.
  - exists O. destruct (op (t_inner t)) as [r st] eqn:Eo. exists r, st. split; [done|]. split; [done|].
    destruct r as [v|e]; [|done]. exists (mkTimeout st (t_policy t) (t_kind t) (tail rest)). split; [|done].
    destruct left as [|left]; cbn [retry_async]; unfold with_timeout; rewrite Eo, Hl, Eh;
      (destruct rest as [|f rest]; [done|]); by inversion Hr as [|? ? -> _].
  - apply Forall_cons_1 in Hh as [Hf Hh]. destruct f as [took|]; [|done]. simpl in Hlen. destruct left as [|left]; [lia|].
    set (t1 := mkTimeout (if took then (op (t_inner t)).2 else t_inner t) (t_policy t) (t_kind t) (hs ++ rest)).
    assert (Hstep : retry_async (S left) (with_timeout limit name op) t = retry_async left (with_timeout limit name op) t1).
    { cbn [retry_async]. unfold with_timeout at 1. rewrite Hl, Eh. unfold t1. by destruct (op (t_inner t)) as [r st]. }
    destruct (IH left t1 rest Hl eq_refl Hh Hr ltac:(lia)) as (j & r & st & Hj & Ho & Hres). rewrite Hstep.
    destruct took; cbn in Ho.
    + rewrite after_step in Ho. exists (S j), r, st. split; [simpl; lia|done].
    + exists j, r, st. split; [simpl; lia|done].
Qed.
Context `{HL : !BackendLaws St}.
Lemma reads_after part op (h : str) j : reads_part (bk_view (St := St)) part op -> forall st, v_inv bk_view st -> v_healthy bk_view st ->
  v_inv bk_view (after j (op h) st) ∧ v_healthy bk_view (after j (op h) st)
  ∧ forall h', unchanged_at bk_view st (after j (op h) st) h'.
Proof.
  intros Hop. induction j as [|j IH]; intros st Hi Hh; [done|].
  destruct (op h st) as [r st1] eqn:Eo. destruct (Hop _ _ _ _ Hi Eo) as (Hi1 & Hun1 & _ & Hl1).
  destruct (IH st1 Hi1 (proj1 (Hl1 Hh))) as (Hi2 & Hh2 & Hun2). rewrite <- after_step, Eo. cbn [snd]. split_and!; [done..|].
  intros h'. destruct (Hun1 h') as [Hc1 Hp1], (Hun2 h') as [Hc2 Hp2]. split; congruence.
Qed.
Lemma stores_after op (h : str) (d : bytes) j : stores (bk_view (St := St)) op -> v_fits (bk_view (St := St)) (Z.of_nat (length d)) ->
  forall st, v_inv bk_view st -> v_healthy bk_view st ->
  let st' := after j (op h d) st in
  v_inv bk_view st' ∧ v_healthy bk_view st' ∧ (unchanged_at bk_view st st' h ∨ (v_present bk_view st h = false ∧ v_content bk_view st' h = Some d)).
Proof.
  intros Hop Hf. induction j as [|j IH]; intros st Hi Hh; [split_and!; [done..|by left]|]. cbn zeta.
  destruct (op h d st) as [r st1] eqn:Eo. destruct (Hop _ _ _ _ _ Hi Eo) as (Hi1 & Hun1 & Hput1 & Hl1).
  destruct (Hl1 Hh) as [Hh1 Hok]. destruct (Hok Hf) as [n ->].
  destruct (IH st1 Hi1 Hh1) as (Hi2 & Hh2 & Hat). rewrite <- after_step, Eo. cbn [snd]. split_and!; [done..|].
  destruct (v_present bk_view st h) eqn:Ep.
  - left. destruct (Hun1 h (or_intror eq_refl)) as [Hc1 Hp1]. destruct Hat as [[Hc2 Hp2]|[Hp _]]; [split; congruence|].
    rewrite Hp1, Ep in Hp. done.
  - right. split; [done|]. pose proof (Hput1 n eq_refl eq_refl) as Hc1.
    destruct Hat as [[Hc2 _]|[_ ?]]; [by rewrite Hc2|done].
Qed.

(** C11: a bounded outage is ridden out.  With the retrying wrapper over the time limits, when the
    backend stops answering for at most as many calls as there are retries and then answers
    again, healthy throughout: where the policy limits the opening of a stream, a read of a stored
    blob returns its bytes; where it limits writes, a store of a new blob that fits succeeds and
    leaves exactly its bytes, whether or not the calls that hung had taken effect.  The default
    policy limits the opening but not the writes ([default_timeouts]): there a store that hangs
    waits for the backend, and nothing is claimed. *)
Theorem outage_is_ridden_out (r : RetryBlobBackend (TimeoutBlobBackend St)) hs rest :
  t_hangs (r_inner r) = hs ++ rest -> Forall hung hs -> Forall (fun f => f = None) rest ->
  (length hs <= N.to_nat (max_retries r))%nat ->
  v_inv bk_view (t_inner (r_inner r)) -> v_healthy bk_view (t_inner (r_inner r)) ->
  (forall l h full, p_open (t_policy (r_inner r)) = Some l -> v_content bk_view (t_inner (r_inner r)) h = Some full ->
     exists s r', get_blob_stream h r = (Ok s, r') ∧ stream_bytes s = Ok full)
  ∧ (forall l h d, p_write (t_policy (r_inner r)) = Some l -> v_present bk_view (t_inner (r_inner r)) h = false ->
     v_fits (bk_view (St := St)) (Z.of_nat (length d)) ->
     exists n r', put_blob_from_bytes h d r = (Ok n, r') ∧ v_content bk_view (t_inner (r_inner r')) h = Some d).
Proof.
  intros Eh Hhs Hrest Hlen Hi Hh. split.
  - intros l h full Hl Hc.
    destruct (retry_hangs p_open (call_name (lit "get_blob_stream") h) (get_blob_stream h) l hs _ (r_inner r) rest Hl Eh Hhs Hrest Hlen)
      as (j & res & st & _ & Ho & Hres).
    destruct (reads_after _ _ h j bk_get _ Hi Hh) as (Hi1 & Hh1 & Hun). rewrite <- (proj1 (Hun h)) in Hc.
    destruct (bk_get _ _ _ _ Hi1 Ho) as (_ & _ & _ & Hlive). destruct (Hlive Hh1) as [_ Hread].
    destruct (Hread full Hc) as (s & -> & Hs). destruct Hres as (t' & Hrun & _).
    exists s. eexists. split; [|done]. cbn. unfold retrying. by rewrite Hrun.
  - intros l h d Hl Hp Hf.
    destruct (retry_hangs p_write (call_name (lit "put_blob_from_bytes") h) (put_blob_from_bytes h d) l hs _ (r_inner r) rest Hl Eh Hhs Hrest Hlen)
      as (j & res & st & _ & Ho & Hres).
    destruct (stores_after _ h d j bk_put Hf _ Hi Hh) as (Hi1 & Hh1 & Hat).
    destruct (bk_put _ _ _ _ _ Hi1 Ho) as (_ & Hun & Hput & Hlive). destruct (Hlive Hh1) as [_ Hok].
    destruct (Hok Hf) as [n ->]. destruct Hres as (t' & Hrun & Hin).
    exists n. eexists. split; [cbn; unfold retrying; by rewrite Hrun|]. cbn. rewrite Hin.
    destruct Hat as [[_ Hp1]|[_ Hc]]; [apply (Hput n eq_refl); congruence|].
    destruct (v_present bk_view (after j (put_blob_from_bytes h d) (t_inner (r_inner r))) h) eqn:Ep; [|by apply (Hput n eq_refl)].
    by rewrite (proj1 (Hun h (or_intror eq_refl))).
Qed.
End stack.

(** ** The port as a specification

    What a caller of the port may see, said without views or decorators: the objects by their
    hash, [None] for one that is not there and [Some None] for one that cannot be read. *)
Definition Objects := str -> option (option bytes).
Inductive PortOp :=
  | OpPut (h : str) (d : bytes)
  | OpPutUnsynced (h : str) (d : bytes)
  | OpReplace (h : str) (d : bytes)
  | OpGet (h : str)
  | OpGetRange (h : str) (start : N) (end_ : option N)
  | OpDelete (h : str)
  | OpExists (h : str).
Inductive Reply := Size (n : Z) | Bytes (r : result IoError bytes) | Deleted | Found (b : bool).
Section port.
Context {S : Type} `{BlobStorageBackend S}.
Definition port_call (op : PortOp) : M S DomainError Reply :=
  match op with
  | OpPut h d => n ← put_blob_from_bytes h d; mret (Size n)
  | OpPutUnsynced h d => n ← put_blob_from_bytes_unsynced h d; mret (Size n)
  | OpReplace h d => n ← put_blob_from_bytes_replace h d; mret (Size n)
  | OpGet h => s ← get_blob_stream h; mret (Bytes (stream_bytes s))
  | OpGetRange h start end_ => s ← get_blob_range_stream h (Z.of_N start) (Z.of_N <$> end_); mret (Bytes (stream_bytes s))
  | OpDelete h => _ ← delete_blob h; mret Deleted
  | OpExists h => b ← blob_exists h; mret (Found b)
  end.
Fixpoint port_calls (ops : list PortOp) (s : S) : list (PortOp * result DomainError Reply) * S :=
  match ops with
  | [] => ([], s)
  | op :: rest =>
      let (res, s1) := port_call op s in
      let (trace, s2) := port_calls rest s1 in ((op, res) :: trace, s2)
  end.
End port.
Definition others_kept (h : str) (m m' : Objects) : Prop := forall h', h' ≠ h -> m' h' = m h'.
Definition nothing_changed (m m' : Objects) : Prop := forall h, m' h = m h.
(** One call, with its answer, may turn the objects [m] into [m'].  The rewrite keeps an object
    that is there, as the wrappers inherit it. *)
Definition permitted (op : PortOp) (res : result DomainError Reply) (m m' : Objects) : Prop :=
  match op with
  | OpPut h d | OpReplace h d =>
      others_kept h m m' ∧ (is_Some (m h) -> m' h = m h)
      ∧ (m h = None -> m' h = None ∨ m' h = Some (Some d))
      ∧ (is_ok res = true -> m h = None -> m' h = Some (Some d))
  | OpPutUnsynced h d =>
      others_kept h m m' ∧ (m' h = m h ∨ m' h = Some (Some d))
      ∧ (is_ok res = true -> is_Some (m' h) ∧ (m h = None -> m' h = Some (Some d)))
  | OpGet h => nothing_changed m m' ∧ forall b, res = Ok (Bytes (Ok b)) -> m h = Some (Some b)
  | OpGetRange h start end_ =>
      nothing_changed m m' ∧ forall b, res = Ok (Bytes (Ok b)) ->
        exists full, m h = Some (Some full) ∧ b = byte_range (Z.of_N start) (Z.of_N <$> end_) full
  | OpDelete h => others_kept h m m' ∧ (m' h = m h ∨ m' h = None) ∧ (is_ok res = true -> m' h = None)
  | OpExists h => nothing_changed m m' ∧ (res = Ok (Found true) -> is_Some (m h))
  end.
(** The answer of a call to a store that works. *)
Definition answered (fits : Z -> Prop) (op : PortOp) (res : result DomainError Reply) (m : Objects) : Prop :=
  match op with
  | OpPut _ d | OpPutUnsynced _ d | OpReplace _ d => fits (Z.of_nat (length d)) -> is_ok res = true
  | OpGet h => forall full, m h = Some (Some full) -> res = Ok (Bytes (Ok full))
  | OpGetRange h start end_ => forall full, m h = Some (Some full) ->
      res = Ok (Bytes (Ok (byte_range (Z.of_N start) (Z.of_N <$> end_) full)))
  | OpDelete _ => True
  | OpExists h => res = Ok (Found (match m h with Some _ => true | None => false end))
  end.
Fixpoint explained (m : Objects) (trace : list (PortOp * result DomainError Reply)) (m' : Objects) : Prop :=
  match trace with
  | [] => nothing_changed m m'
  | (op, res) :: rest => exists m1, permitted op res m m1 ∧ explained m1 rest m'
  end.

Section refines.
Context {S : Type} `{HB : !BlobStorageBackend S} `{HL : !BackendLaws S} `{HA : !AtomicPuts S}.
Definition objects (s : S) : Objects := fun h => if v_present bk_view s h then Some (v_content bk_view s h) else None.
Lemma objects_content s h d : v_content bk_view s h = Some d -> objects s h = Some (Some d).
Proof.
  intros Hc. unfold objects. destruct (v_present bk_view s h) eqn:Ep; [by rewrite Hc|]. by rewrite bk_absent in Hc.
Qed.
Lemma objects_content_inv s h d : objects s h = Some (Some d) -> v_content bk_view s h = Some d.
Proof. unfold objects. destruct (v_present bk_view s h); [by intros [= ->]|done]. Qed.
Lemma objects_kept s s' h : unchanged_at bk_view s s' h -> objects s' h = objects s h.
Proof. intros [Hc Hp]. unfold objects. by rewrite Hc, Hp. Qed.
Lemma objects_absent s h : objects s h = None <-> v_present bk_view s h = false.
Proof. unfold objects. by destruct (v_present bk_view s h). Qed.
Lemma objects_present s h : is_Some (objects s h) <-> v_present bk_view s h = true.
Proof. unfold objects. destruct (v_present bk_view s h); split; intros Hx; try done; first [by eexists|by destruct Hx]. Qed.

Lemma store_permitted op h d s r s' : stores bk_view op -> fails_clean bk_view op -> v_inv bk_view s -> op h d s = (r, s') ->
  forall d' res, d' = d -> is_ok res = is_ok r -> permitted (OpPut h d') res (objects s) (objects s').
Proof.
  intros Hs Hc Hi Hx d' res -> Hr. destruct (Hs _ _ _ _ _ Hi Hx) as (_ & Hun & Hput & _). split_and!.
  - intros h' Hne. apply objects_kept, Hun. by left.
  - intros Hp%objects_present. apply objects_kept, Hun. by right.
  - intros Hn. pose proof Hn as Hp%objects_absent. destruct r as [n|e].
    + right. by apply objects_content, (Hput n).
    + destruct (Hc _ _ _ _ _ Hi Hx) as [Hsame|Hd]; [left; by rewrite (objects_kept s)|right; by apply objects_content].
  - rewrite Hr. intros Hok Hp%objects_absent. destruct r as [n|e]; [|done]. by apply objects_content, (Hput n).
Qed.
Lemma unsynced_permitted h d s r s' res : v_inv bk_view s -> put_blob_from_bytes_unsynced h d s = (r, s') ->
  is_ok res = is_ok r -> permitted (OpPutUnsynced h d) res (objects s) (objects s').
Proof.
  intros Hi Hx Hr. destruct (bk_put_unsynced _ _ _ _ _ Hi Hx) as (_ & Hun & Hput & _). split_and!.
  - intros h' Hne. by apply objects_kept, Hun.
  - destruct r as [n|e].
    + destruct (Hput n eq_refl) as [Hd|[_ Hk]]; [right; by apply objects_content|left; by apply objects_kept].
    + destruct (failed_put_unsynced _ _ _ _ _ Hi Hx) as [Hk|Hd]; [left; by apply objects_kept|right; by apply objects_content].
  - rewrite Hr. intros Hok. destruct r as [n|e]; [|done]. destruct (Hput n eq_refl) as [Hd%objects_content|[Hp Hk]].
    + rewrite Hd. by split; [eexists|].
    + rewrite (objects_kept s s' h Hk). split; [by apply objects_present|]. intros Ha%objects_absent. congruence.
Qed.
Lemma reads_permitted part op h s r s' : reads_part bk_view part op -> v_inv bk_view s -> op h s = (r, s') ->
  v_inv bk_view s' ∧ nothing_changed (objects s) (objects s')
  ∧ (forall st b, r = Ok st -> stream_bytes st = Ok b -> exists full, objects s h = Some (Some full) ∧ b = part full)
  ∧ (v_healthy bk_view s -> v_healthy bk_view s' ∧ forall full, objects s h = Some (Some full) ->
       exists st, r = Ok st ∧ stream_bytes st = Ok (part full)).
Proof.
  intros Hr Hi Hx. destruct (Hr _ _ _ _ Hi Hx) as (Hi' & Hun & Hb & Hl). split_and!; [done|intros h'; by apply objects_kept| |].
  - intros st b Hst Hs. destruct (Hb st b Hst Hs) as (full & Hf & ->). exists full. split; [by apply objects_content|done].
  - intros Hh. destruct (Hl Hh) as [Hh' Hread]. split; [done|]. intros full Hf. by apply Hread, objects_content_inv.
Qed.
(** A call of the port, with its answer in the shape of the port's replies. *)
Lemma call_cases {T} (m : M S DomainError T) (f : T -> Reply) s res s' :
  (x ← m; mret (f x)) s = (res, s') ->
  exists r, m s = (r, s') ∧ res = match r with Ok x => Ok (f x) | Err e => Err e end.
Proof.
  unfold mbind, M_bind. destruct (m s) as [[x|e] s1]; intros [= <- <-]; by eexists.
Qed.
Definition is_delete (op : PortOp) : bool := match op with OpDelete _ => true | _ => false end.
(** A backend that keeps the contract, whose rewrite is the default of the trait, is a port. *)
Lemma port_call_permitted op s res s' :
  (forall h d, put_blob_from_bytes_replace (BlobStorageBackend := HB) h d = put_blob_from_bytes h d) ->
  v_inv bk_view s -> port_call op s = (res, s') ->
  v_inv bk_view s' ∧ permitted op res (objects s) (objects s')
  ∧ (v_healthy bk_view s -> answered (v_fits bk_view) op res (objects s) ∧ (is_delete op = false -> v_healthy bk_view s')).
Proof.
  intros Hrep Hi Hx.
  assert (Hput : forall h d r, put_blob_from_bytes h d s = (r, s') -> is_ok res = is_ok r ->
    v_inv bk_view s' ∧ permitted (OpPut h d) res (objects s) (objects s')
    ∧ (v_healthy bk_view s -> answered (v_fits bk_view) (OpPut h d) res (objects s) ∧ v_healthy bk_view s')).
  { intros h d r E Hr. pose proof (bk_put _ _ _ _ _ Hi E) as (Hi' & _ & _ & Hl).
    split; [done|split; [by eapply (store_permitted put_blob_from_bytes); [exact bk_put|exact failed_put|..]|]].
    intros Hh. destruct (Hl Hh) as [Hh' Hok]. split; [|done]. intros Hf. rewrite Hr. by destruct (Hok Hf) as [n ->]. }
  destruct op as [h d|h d|h d|h|h start end_|h|h]; cbn [port_call] in Hx; apply call_cases in Hx as (r & E & ->).
  - destruct (Hput h d r E) as (H1 & H2 & H3); [by destruct r|]. split; [done|split; [done|]]. intros Hh. by destruct (H3 Hh).
  - pose proof (bk_put_unsynced _ _ _ _ _ Hi E) as (Hi' & _ & _ & Hl).
    split; [done|split; [eapply unsynced_permitted; [done|done|by destruct r]|]].
    intros Hh. destruct (Hl Hh) as [Hh' Hok]. split; [|done]. intros Hf. by destruct (Hok Hf) as [n ->].
  - rewrite Hrep in E. destruct (Hput h d r E) as (H1 & H2 & H3); [by destruct r|]. split; [done|split; [done|]].
    intros Hh. by destruct (H3 Hh).
  - destruct (reads_permitted _ _ _ _ _ _ bk_get Hi E) as (Hi' & Hun & Hb & Hl). split; [done|split; [split; [done|]|]].
    + intros b Hbb. destruct r as [st|e]; [|done]. injection Hbb as Hbb. by destruct (Hb st b eq_refl Hbb) as (full & Hf & ->).
    + intros Hh. destruct (Hl Hh) as [Hh' Hr]. split; [|done]. intros full Hf. destruct (Hr full Hf) as (st & -> & Hs). by rewrite Hs.
  - destruct (reads_permitted _ _ _ _ _ _ (bk_range (Z.of_N start) (Z.of_N <$> end_) (N2Z.is_nonneg start)) Hi E) as (Hi' & Hun & Hb & Hl).
    split; [done|split; [split; [done|]|]].
    + intros b Hbb. destruct r as [st|e]; [|done]. injection Hbb as Hbb. by apply (Hb st b).
    + intros Hh. destruct (Hl Hh) as [Hh' Hr]. split; [|done]. intros full Hf. destruct (Hr full Hf) as (st & -> & Hs). by rewrite Hs.
  - destruct (bk_delete _ _ _ _ Hi E) as (Hi' & Hun & Hold & Hgone). split; [done|split; [split; [|split]|done]].
    + intros h' Hne. by apply objects_kept, Hun.
    + destruct Hold as [Hk|Hp]; [left; by apply objects_kept|right; by apply objects_absent].
    + destruct r as [[]|e]; [|done]. intros _. by apply objects_absent, Hgone.
  - destruct (bk_exists _ _ _ _ Hi E) as (Hi' & Hun & Htrue & Hl). split; [done|split; [split|]].
    + intros h'. by apply objects_kept.
    + destruct r as [b|e]; [|done]. intros [= ->]. by apply objects_present, Htrue.
    + intros Hh. destruct (Hl Hh) as [Hh' ->]. split; [|done]. cbn. unfold objects. by destruct (v_present bk_view s h).
Qed.
Lemma port_calls_explained ops : forall s trace s',
  (forall h d, put_blob_from_bytes_replace (BlobStorageBackend := HB) h d = put_blob_from_bytes h d) ->
  v_inv bk_view s -> port_calls ops s = (trace, s') -> v_inv bk_view s' ∧ explained (objects s) trace (objects s').
Proof.
  induction ops as [|op ops IH]; intros s trace s' Hrep Hi Hx; cbn [port_calls] in Hx; [by injection Hx as <- <-|].
  destruct (port_call op s) as [res s1] eqn:E1. destruct (port_calls ops s1) as [tr s2] eqn:E2. injection Hx as <- <-.
  destruct (port_call_permitted op s res s1 Hrep Hi E1) as (Hi1 & Hp & _).
  destruct (IH s1 tr s2 Hrep Hi1 E2) as [Hi2 He]. split; [done|]. by exists (objects s1).
Qed.
End refines.

Section entry_stack.
Context `{Aes256Gcm} `{Primitives} `{DurationText} `{Lowercase} {St : Type} `{HB : !BlobStorageBackend St}
  `{HL : !BackendLaws St} `{HA : !AtomicPuts St}.
Local Abbreviation Stack := (SwappableBlobBackend (RetryBlobBackend (TimeoutBlobBackend (EncryptedBlobBackend St)))).
Definition encrypted_of (s : Stack) : EncryptedBlobBackend St := t_inner (r_inner (current s)).
(** The plaintext objects of a stack: of each hash what the key list reads of the stored file. *)
Definition plaintexts (s : Stack) : Objects := fun h =>
  if v_present bk_view (inner (encrypted_of s)) h then Some (enc_content (encrypted_of s) h) else None.

(** C10: the decorators of a remote storage entry compose to a port.  Take any remote store whose
    calls keep the contract of a store, with an unsynchronised upload that may overwrite, and
    whose uploads are all or nothing; put encryption, time limits, retries and the hot-swap
    wrapper over it.  Whatever calls a client then makes one after another, whichever of them
    time out, with or without effect, and are tried again, the answers are those of one map from
    hashes to plaintexts: reads and ranges return the bytes that map holds, stores skip what is
    there and leave all the bytes or nothing, deletions remove, nothing else changes.  The
    rewrite is where the stack is weaker than its parts: it skips as a store does.  When the
    remote store is healthy and answers in time, every call but a deletion succeeds as the map
    says and leaves it so. *)
Theorem decorated_stack_contract (s : Stack) ops trace s' :
  v_inv enc_view (encrypted_of s) -> port_calls ops s = (trace, s') ->
  v_inv enc_view (encrypted_of s') ∧ explained (plaintexts s) trace (plaintexts s')
  ∧ (v_healthy bk_view (inner (encrypted_of s)) -> answers_in_time (r_inner (current s)) ->
     forall op res s1, port_call op s = (res, s1) ->
       answered (v_fits enc_view) op res (plaintexts s)
       ∧ (is_delete op = false -> v_healthy bk_view (inner (encrypted_of s1)) ∧ answers_in_time (r_inner (current s1)))).
Proof.
  intros Hi Hx. assert (Hi' : v_inv (bk_view (St := Stack)) s) by exact Hi.
  assert (Hrep : forall h d, put_blob_from_bytes_replace (St := Stack) h d = put_blob_from_bytes h d) by done.
  destruct (port_calls_explained ops s trace s' Hrep Hi' Hx) as [Hi2 He]. split; [exact Hi2|split; [exact He|]].
  intros Hh Ht op res s1 Hc. destruct (port_call_permitted op s res s1 Hrep Hi' Hc) as (_ & _ & Hl).
  assert (Hheal : v_healthy (bk_view (St := Stack)) s) by (by split_and!).
  destruct (Hl Hheal) as [Ha Hk]. split; [exact Ha|]. intros Hd. by destruct (Hk Hd) as (((? & ?) & _) & _).
Qed.
End entry_stack.

(** ** Concrete runs *)
Definition plain_duration : DurationText := {| debug_duration ms := dec ms ++ lit "ms" |}.
(** Two calls hang, the first after it took effect. *)
Definition flaky : RetryBlobBackend (TimeoutBlobBackend LocalBlobBackend) :=
  mkRetry (mkTimeout (mkLocal ∅ []) (mkTimeoutPolicy None None (Some 1000%Z)) (lit "s3") [Some true; Some false]) 3.
Lemma outage_is_ridden_out_witness :
  exists n r', @put_blob_from_bytes _ (@retry_backend _ ascii_lowercase (@timeout_backend _ local_backend plain_duration))
                 Toy.h [1; 2]%Z flaky = (Ok n, r')
    ∧ files (t_inner (r_inner r')) !! Toy.h = Some [1; 2]%Z.
Proof.
  apply (proj2 (@outage_is_ridden_out plain_duration ascii_lowercase LocalBlobBackend local_backend clean_laws flaky
    [Some true; Some false] [] eq_refl
    ltac:(repeat constructor; done) ltac:(constructor) ltac:(vm_compute; lia) ltac:(constructor) ltac:(constructor)) 1000%Z); done.
Defined.
(** A store times out once, and the plaintext is there for the read; the rewrite does not change it. *)
Definition entry_calls : list PortOp :=
  [OpPut Toy.h [42]%Z; OpReplace Toy.h [43]%Z; OpGet Toy.h; OpGetRange Toy.h 0 (Some 1%N); OpDelete Toy.h; OpExists Toy.h].
Lemma decorated_stack_contract_witness :
  let E := @encrypted_backend Toy.aes Toy.primitives LocalBlobBackend local_backend in
  let T := @timeout_backend _ E plain_duration in
  let Call := @swappable_backend _ (@retry_backend _ ascii_lowercase T) in
  let entry hangs := mkSwappable (mkRetry (mkTimeout (@new Toy.primitives _ (mkLocal ∅ []) [Toy.old] 0)
                       (mkTimeoutPolicy (Some 30000%Z) (Some 60000%Z) (Some 60000%Z)) (lit "s3") hangs) 3) in
  let run := @port_calls _ Call entry_calls (entry [Some true; Some false]) in
  snd <$> run.1 = [Ok (Size 44); Ok (Size 44); Ok (Bytes (Ok [42]%Z)); Ok (Bytes (Ok [42]%Z)); Ok Deleted; Ok (Found false)]
  ∧ explained (@plaintexts Toy.aes Toy.primitives _ _ clean_laws (entry [Some true; Some false])) run.1
      (@plaintexts Toy.aes Toy.primitives _ _ clean_laws run.2)
  ∧ exists res s1, @port_call _ Call (OpExists Toy.h) (entry []) = (res, s1) ∧ res = Ok (Found false).
Proof.
  intros E T Call entry run.
  assert (Hi : forall hangs, v_inv (@enc_view Toy.aes Toy.primitives _ _ clean_laws) (encrypted_of (entry hangs))).
  { intros hangs. split; [apply new_config; [apply Toy.keys_old|done]|constructor]. }
  pose proof (@decorated_stack_contract Toy.aes Toy.primitives plain_duration ascii_lowercase LocalBlobBackend local_backend clean_laws clean_atomic) as C.
  split; [by vm_compute|]. split.
  - refine (proj1 (proj2 (C (entry [Some true; Some false]) entry_calls run.1 run.2 (Hi _) _))). exact (surjective_pairing run).
  - destruct (@port_call _ Call (OpExists Toy.h) (entry [])) as [res s1] eqn:Ex. exists res, s1. split; [done|].
    destruct (C (entry []) [] [] (entry []) (Hi _) eq_refl) as (_ & _ & Hlive).
    destruct (Hlive ltac:(constructor) ltac:(constructor) (OpExists Toy.h) res s1 Ex) as [Ha _].
    exact Ha.
Defined.
