(* ===== verification/BlobCache.v ===== *)
(** * The disk cache in front of a remote backend

    [src/src/infrastructure/services/cached_blob_backend.rs].  The cache keeps whole blobs as
    files of its own and an index of their sizes; a hit is served from the file, a miss is
    fetched whole, written to a temporary file and renamed into place, and a write goes through
    to the file after the backend accepted it.  The index is a bounded [moka] cache: an
    insertion may push entries out, whose files are then removed.

    The files are a disk of [BlobBackend] with its script of faults, and a second script says
    which entries each insertion pushes out.  Operations run one at a time, so the gate that
    lets one of several readers fetch is left out, as are statistics and health checks; storing
    from a path is left out with the rest of the port's path operations. *)

From S2P Require Import Prelude.
From S2P Require Import RustStr.
From S2P Require Import DomainErrors.
From S2P Require Import BlobBackend.

#[local] Arguments lit : simpl never.

Record CachedBlobBackend (St : Type) := mkCached {
  remote : St;
  c_disk : LocalBlobBackend;
  (** [CacheEntry.size] by hash *)
  index : gmap str Z;
  (** what the next insertions push out *)
  c_evict : list (list str);
}.
Arguments mkCached {St}.
Arguments remote {St} c.
Arguments c_disk {St} c.
Arguments index {St} c.
Arguments c_evict {St} c.

(** ** Operations *)
Section files.
Definition cache_err (what : str) (e : IoError) : DomainError :=
  DomainError.internal_error (lit "BlobCache") (what ++ io_text e).
Definition io_step (what : str) : LM unit :=
  f ← take_fault;
  match f with Some (e, _) => raise (cache_err what e) | None => mret tt end.
Definition io_open (h : str) : LM (result IoError bytes) :=
  f ← take_fault;
  present ← gets (fun st => files st !! h);
  mret (match f, present with
        | Some (e, _), _ => Err e
        | None, Some b => Ok b
        | None, None => Err not_there
        end).
Definition remove_cached (h : str) (d : LocalBlobBackend) : LocalBlobBackend := mkLocal (delete h (files d)) (l_io d).
(** [let _ = fs::remove_file(..)] *)
Definition io_remove (h : str) : LM unit :=
  f ← take_fault;
  match f with Some _ => mret tt | None => modify (remove_cached h) end.
(** [let _ = fs::write(..)]: the file is opened and emptied, then written. *)
Definition io_write (h : str) (data : bytes) : LM unit :=
  f ← take_fault;
  match f with
  | Some _ => mret tt
  | None =>
      _ ← modify (set_file h []);
      f ← take_fault;
      modify (set_file h (match f with Some (_, k) => take k data | None => data end))
  end.
(** The download into the temporary file, chunk by chunk. *)
Fixpoint write_items (s : BlobStream) : LM bytes :=
  match s with
  | [] => mret []
  | Err e :: _ => raise (cache_err (lit "stream read: ") e)
  | Ok b :: rest => _ ← io_step (lit "write: "); r ← write_items rest; mret (b ++ r)
  end.
Definition download (s : BlobStream) : LM bytes :=
  _ ← io_step (lit "create tmp: "); b ← write_items s; _ ← io_step (lit "flush: "); mret b.
End files.

Section cached.
Context {St : Type} `{HB : !BlobStorageBackend St}.
Definition CM (T : Type) : Type := M (CachedBlobBackend St) DomainError T.
Definition on_remote {T} (m : M St DomainError T) : CM T := fun c =>
  let (r, st) := m (remote c) in (r, mkCached st (c_disk c) (index c) (c_evict c)).
Definition on_disk {T} (m : LM T) : CM T := fun c =>
  let (r, d) := m (c_disk c) in (r, mkCached (remote c) d (index c) (c_evict c)).
Definition set_index (i : gmap str Z) (c : CachedBlobBackend St) : CachedBlobBackend St :=
  mkCached (remote c) (c_disk c) i (c_evict c).
Definition invalidate (h : str) : CM unit := modify (fun c => set_index (delete h (index c)) c).
Definition evict_cached (h : str) : CM unit :=
  _ ← invalidate h; on_disk (io_remove h).
(** The eviction listener. *)
Fixpoint push_out (victims : list str) : CM unit :=
  match victims with
  | [] => mret tt
  | v :: rest =>
      known ← gets (fun c => bool_decide (is_Some (index c !! v)));
      _ ← (if known : bool then evict_cached v else mret tt);
      push_out rest
  end.
Definition index_insert (h : str) (size : Z) : CM unit :=
  _ ← modify (fun c => set_index (<[h := size]> (index c)) c);
  victims ← gets (fun c => default [] (head (c_evict c)));
  _ ← modify (fun c => mkCached (remote c) (c_disk c) (index c) (tail (c_evict c)));
  push_out victims.
Definition cache_bytes_write_through (h : str) (data : bytes) : CM unit :=
  _ ← on_disk (io_write h data);
  index_insert h (Z.of_nat (length data)).
(** The temporary file, whose name is its own, is dropped on failure. *)
Definition drop_tmp {T} (e : DomainError) : CM T :=
  _ ← on_disk take_fault; raise e.
Definition fetch_and_cache (h : str) : CM unit :=
  stream ← on_remote (get_blob_stream h);
  written ← attempt (on_disk (download stream));
  match written with
  | Err e => drop_tmp e
  | Ok b =>
      renamed ← attempt (on_disk (io_step (lit "rename: ")));
      match renamed with
      | Err e => drop_tmp e
      | Ok _ => _ ← on_disk (modify (set_file h b)); index_insert h (Z.of_nat (length b))
      end
  end.
Definition fetch_and_cache_singleflight (h : str) : CM unit :=
  known ← gets (fun c => bool_decide (is_Some (index c !! h)));
  found ← (if known : bool then r ← on_disk (io_open h); mret (match r with Ok _ => true | Err _ => false end)
           else mret false);
  if found : bool then mret tt else fetch_and_cache h.

(** The file of an indexed blob; an entry whose file does not open is dropped. *)
Definition open_cached (h : str) : CM (option bytes) :=
  known ← gets (fun c => bool_decide (is_Some (index c !! h)));
  if known : bool then
    r ← on_disk (io_open h);
    match r with Ok b => mret (Some b) | Err _ => _ ← invalidate h; mret None end
  else mret None.
Definition fetch_and_open (what h : str) : CM bytes :=
  _ ← fetch_and_cache_singleflight h;
  r ← on_disk (io_open h);
  match r with Ok b => mret b | Err e => raise (cache_err what e) end.
(** The bytes a read is served from. *)
Definition served (what h : str) : CM bytes :=
  hit ← open_cached h;
  match hit with Some b => mret b | None => fetch_and_open what h end.
Definition cached_get_blob_stream (h : str) : CM BlobStream :=
  b ← served (lit "re-open cached: ") h;
  on_disk (read_stream b).
(** No file is as long as the [u64::MAX] an open range is limited to. *)
Definition cached_get_blob_range_stream (h : str) (start : Z) (end_ : option Z) : CM BlobStream :=
  b ← served (lit "re-open: ") h;
  _ ← on_disk (io_step (lit "seek: "));
  let rest := drop (Z.to_nat start) b in
  on_disk (read_stream (match end_ with Some e => take (Z.to_nat (e ⊖ start)) rest | None => rest end)).
Definition cached_put (put : str -> bytes -> M St DomainError Z) (h : str) (data : bytes) : CM Z :=
  size ← on_remote (put h data);
  _ ← cache_bytes_write_through h data;
  mret size.
Definition cached_delete_blob (h : str) : CM unit :=
  _ ← invalidate h;
  _ ← on_disk (io_remove h);
  on_remote (delete_blob h).
Definition cached_blob_exists (h : str) : CM bool :=
  known ← gets (fun c => bool_decide (is_Some (index c !! h)));
  if known : bool then mret true else on_remote (blob_exists h).
Definition cached_blob_size (h : str) : CM Z :=
  entry ← gets (fun c => index c !! h);
  match entry with
  | Some size => mret size
  | None =>
      r ← on_disk (io_open h);
      match r with Ok b => mret (Z.of_nat (length b)) | Err _ => on_remote (blob_size h) end
  end.
(** The rewrite is the default of the trait. *)
#[export] Instance cached_backend : BlobStorageBackend (CachedBlobBackend St) := {|
  put_blob_from_bytes := cached_put put_blob_from_bytes;
  put_blob_from_bytes_unsynced := cached_put put_blob_from_bytes_unsynced;
  put_blob_from_bytes_replace := cached_put put_blob_from_bytes;
  get_blob_stream := cached_get_blob_stream;
  get_blob_range_stream := cached_get_blob_range_stream;
  delete_blob := cached_delete_blob;
  blob_exists := cached_blob_exists;
  blob_size := cached_blob_size;
|}.

(** The part of [initialize] that fills the index from the files that are there: their sizes
    first, [0] for a file whose metadata cannot be read, then the insertions. *)
Fixpoint sizes (found : list (str * bytes)) : LM (list (str * Z)) :=
  match found with
  | [] => mret []
  | (h, b) :: rest =>
      f ← take_fault;
      entries ← sizes rest;
      mret ((h, match f with Some _ => 0%Z | None => Z.of_nat (length b) end) :: entries)
  end.
Fixpoint insert_all (entries : list (str * Z)) : CM unit :=
  match entries with
  | [] => mret tt
  | (h, size) :: rest => _ ← index_insert h size; insert_all rest
  end.
Definition initialize_index : CM unit :=
  entries ← (fun c => on_disk (sizes (map_to_list (files (c_disk c)))) (set_index ∅ c));
  insert_all entries.
End cached.
Arguments CM St T : clear implicits.

(** ** What the file operations do *)
Lemma io_step_spec what d res d' : io_step what d = (res, d') ->
  files d' = files d ∧ (no_io_faults d -> no_io_faults d' ∧ res = Ok tt).
Proof.
  unfold io_step. unfold_m. intros Hx. next_fault. destruct f as [[e k]|]; injection Hx as <- <-; (split; [done|]);
    intros Hn; by destruct (Hnone Hn).
Qed.
Lemma io_open_spec h d res d' : io_open h d = (res, d') ->
  files d' = files d ∧ exists r, res = Ok r ∧ (forall b, r = Ok b -> files d !! h = Some b)
  ∧ (no_io_faults d -> no_io_faults d' ∧ forall b, files d !! h = Some b -> r = Ok b).
Proof.
  unfold io_open. unfold_m. intros Hx. next_fault. rewrite Hfiles in Hx. injection Hx as <- <-. split; [done|].
  eexists. split; [done|]. destruct f as [[e k]|]; [|destruct (files d !! h) as [b0|]]; (split; [naive_solver|]);
    intros Hn; destruct (Hnone Hn); naive_solver.
Qed.
Lemma io_remove_spec h d res d' : io_remove h d = (res, d') ->
  res = Ok tt ∧ (forall h' f, files d' !! h' = Some f -> files d !! h' = Some f)
  ∧ (forall h', h' ≠ h -> files d' !! h' = files d !! h') ∧ (no_io_faults d -> no_io_faults d').
Proof.
  unfold io_remove. unfold_m. intros Hx. next_fault. destruct f as [x|]; injection Hx as <- <-.
  - rewrite Hfiles. split_and!; try done. intros Hn. by destruct (Hnone Hn).
  - cbn. rewrite Hfiles. split_and!; [done| | |intros Hn; by destruct (Hnone Hn)].
    + intros h' f [_ ?]%lookup_delete_Some. done.
    + intros h' Hne. by rewrite lookup_delete_ne.
Qed.
(** [fs::write] when neither of its two steps fails. *)
Definition writes_whole (d : LocalBlobBackend) : Prop := Forall (fun f => f = None) (take 2 (l_io d)).
Lemma calm_writes d : no_io_faults d -> writes_whole d.
Proof. apply Forall_take. Qed.
Lemma io_write_spec h b d res d' : writes_whole d -> io_write h b d = (res, d') ->
  res = Ok tt ∧ files d' = <[h := b]> (files d) ∧ (no_io_faults d -> no_io_faults d').
Proof.
  unfold writes_whole, io_write. unfold_m. destruct d as [fs [|f [|f2 io]]]; cbn; intros Hw Hx.
  - injection Hx as <- <-. cbn. by rewrite insert_insert_eq.
  - apply Forall_cons_1 in Hw as [-> _]. injection Hx as <- <-. cbn. rewrite insert_insert_eq. split_and!; try done. intros; constructor.
  - apply Forall_cons_1 in Hw as [-> [-> _]%Forall_cons_1]. injection Hx as <- <-. cbn. rewrite insert_insert_eq. split_and!; try done.
    unfold no_io_faults. cbn. by intros [_ [_ ?]%Forall_cons_1]%Forall_cons_1.
Qed.
Lemma write_items_spec s : forall d res d', write_items s d = (res, d') ->
  files d' = files d ∧ (forall b, res = Ok b -> stream_bytes s = Ok b)
  ∧ (no_io_faults d -> no_io_faults d' ∧ forall b, stream_bytes s = Ok b -> res = Ok b).
Proof.
  induction s as [|[b|e] s IH]; intros d res d' Hx; cbn [write_items] in Hx.
  - injection Hx as <- <-. split_and!; [done|by intros b [= <-]|]. intros Hn. split; [done|]. by intros b [= <-].
  - apply bind_inv in Hx as [([] & d1 & H1 & Hx)|(e & H1 & ->)]; apply io_step_spec in H1 as [Hf1 Hn1].
    2:{ split_and!; [done|done|]. intros Hn. by destruct (Hn1 Hn). }
    apply bind_inv in Hx as [(r & d2 & H2 & Hx)|(e & H2 & ->)]; apply IH in H2 as (Hf2 & Hok & Hn2).
    + injection Hx as <- <-. cbn. split_and!; [congruence| |].
      * intros b' [= <-]. by rewrite (Hok r eq_refl).
      * intros Hn. destruct (Hn2 (proj1 (Hn1 Hn))) as [Hnd Hall]. split; [done|]. intros b'. rewrite (Hok r eq_refl). by intros [= <-].
    + cbn. split_and!; [congruence|done|]. intros Hn. destruct (Hn2 (proj1 (Hn1 Hn))) as [Hnd Hall]. split; [done|].
      intros b'. destruct (stream_bytes s) as [r|]; [|done]. by specialize (Hall r eq_refl).
  - injection Hx as <- <-. by split_and!.
Qed.
Lemma download_spec s d res d' : download s d = (res, d') ->
  files d' = files d ∧ (forall b, res = Ok b -> stream_bytes s = Ok b)
  ∧ (no_io_faults d -> no_io_faults d' ∧ forall b, stream_bytes s = Ok b -> res = Ok b).
Proof.
  unfold download. intros Hx.
  apply bind_inv in Hx as [([] & d1 & H1 & Hx)|(e & H1 & ->)]; apply io_step_spec in H1 as [Hf1 Hn1].
  2:{ split_and!; [done|done|]. intros Hn. by destruct (Hn1 Hn). }
  apply bind_inv in Hx as [(r & d2 & H2 & Hx)|(e & H2 & ->)]; apply write_items_spec in H2 as (Hf2 & Hok & Hn2).
  2:{ split_and!; [congruence|done|]. intros Hn. by apply Hn2, Hn1. }
  apply bind_inv in Hx as [([] & d3 & H3 & Hx)|(e & H3 & ->)]; apply io_step_spec in H3 as [Hf3 Hn3].
  - injection Hx as <- <-. split_and!; [congruence| |]; [intros b [= <-]; by apply Hok|].
    intros Hn. destruct (Hn2 (proj1 (Hn1 Hn))) as [Hnd Hall]. split; [by apply Hn3|done].
  - split_and!; [congruence|done|]. intros Hn. destruct (Hn2 (proj1 (Hn1 Hn))) as [Hnd Hall]. by destruct (Hn3 Hnd).
Qed.

(** ** Coherence *)
Section coherence.
Context {St : Type} `{HB : !BlobStorageBackend St}.
Local Abbreviation Cached := (CachedBlobBackend St).
Lemma on_disk_eq {T} (m : LM T) (c c' : Cached) res : on_disk m c = (res, c') ->
  exists d, m (c_disk c) = (res, d) ∧ c' = mkCached (remote c) d (index c) (c_evict c).
Proof. unfold on_disk. destruct (m (c_disk c)) as [r d]. intros [= <- <-]. eauto. Qed.
Lemma on_remote_eq {T} (m : M St DomainError T) (c c' : Cached) res : on_remote m c = (res, c') ->
  exists st, m (remote c) = (res, st) ∧ c' = mkCached st (c_disk c) (index c) (c_evict c).
Proof. unfold on_remote. destruct (m (remote c)) as [r d]. intros [= <- <-]. eauto. Qed.

(** Nothing fails on the cache disk and nothing is pushed out. *)
Definition calm (c : Cached) : Prop := no_io_faults (c_disk c) ∧ Forall (fun v => v = []) (c_evict c).
(** The cache may have lost entries and files. *)
Definition shrinks (c c' : Cached) : Prop :=
  remote c' = remote c ∧ (forall h n, index c' !! h = Some n -> index c !! h = Some n)
  ∧ (forall h f, files (c_disk c') !! h = Some f -> files (c_disk c) !! h = Some f) ∧ (calm c -> calm c').
#[export] Instance shrinks_preorder : PreOrder shrinks.
Proof.
  split; [by intros c; split_and!|]. intros c1 c2 c3 (Hr1 & Hi1 & Hf1 & Hc1) (Hr2 & Hi2 & Hf2 & Hc2).
  split_and!; [congruence|auto..].
Qed.
Lemma invalidate_shrinks h (c c' : Cached) res : invalidate h c = (res, c') ->
  res = Ok tt ∧ shrinks c c' ∧ index c' = delete h (index c) ∧ c_disk c' = c_disk c ∧ c_evict c' = c_evict c.
Proof.
  intros [= <- <-]. split_and!; try done. split_and!; try done. cbn. intros h' n [_ ?]%lookup_delete_Some. done.
Qed.
Lemma evict_cached_shrinks h (c c' : Cached) res : evict_cached h c = (res, c') ->
  res = Ok tt ∧ shrinks c c' ∧ index c' !! h = None.
Proof.
  unfold evict_cached. intros Hx. apply bind_inv in Hx as [([] & c1 & H1 & Hx)|(e & H1 & ->)];
    apply invalidate_shrinks in H1 as (? & Hs1 & Hi1 & Hd1 & He1); [|done].
  apply on_disk_eq in Hx as (d & Hx & ->). destruct Hs1 as (Hr1 & Hix1 & _).
  apply io_remove_spec in Hx as (-> & Hf & _ & Hn). rewrite Hd1 in *. split_and!; [done| |by cbn; rewrite Hi1, lookup_delete_eq].
  split_and!; [done|by cbn|by cbn|]. intros [? ?]. split; cbn; [auto|by rewrite He1].
Qed.
Lemma push_out_shrinks vs : forall (c c' : Cached) res, push_out vs c = (res, c') -> res = Ok tt ∧ shrinks c c'.
Proof.
  induction vs as [|v vs IH]; intros c c' res Hx; cbn [push_out] in Hx; [by injection Hx as <- <-|].
  apply bind_inv in Hx as [(known & c1 & [= <- <-] & Hx)|(e & H1 & ->)]; [|done].
  destruct (bool_decide _).
  - apply bind_inv in Hx as [([] & c2 & H2 & Hx)|(e & H2 & ->)]; apply evict_cached_shrinks in H2 as (? & Hs2 & _); [|done].
    apply IH in Hx as [? Hs]. split; [done|]. by etrans.
  - by apply IH in Hx.
Qed.
Lemma index_insert_shrinks h n (c c' : Cached) res : index_insert h n c = (res, c') ->
  res = Ok tt ∧ shrinks (set_index (<[h := n]> (index c)) c) c'
  ∧ (calm c -> calm c' ∧ files (c_disk c') = files (c_disk c) ∧ remote c' = remote c).
Proof.
  unfold index_insert. unfold_m. intros Hx.
  assert (Hpop : shrinks (set_index (<[h := n]> (index c)) c) (mkCached (remote c) (c_disk c) (<[h := n]> (index c)) (tail (c_evict c)))).
  { split_and!; try done. intros [? He]. split; [done|]. cbn in *. destruct (c_evict c); [done|]. by apply Forall_cons_1 in He as [_ ?]. }
  pose proof (push_out_shrinks _ _ _ _ Hx) as [-> Hs]. split_and!; [done|by etrans|].
  intros Hc. assert (Hv : default [] (head (c_evict c)) = []).
  { destruct Hc as [_ He]. destruct (c_evict c); [done|]. by apply Forall_cons_1 in He as [-> _]. }
  cbn in Hx. rewrite Hv in Hx. injection Hx as <-. split_and!; try done. by apply Hpop.
Qed.

Context `{HL : !BackendLaws St}.
(** Every indexed blob is stored, the index has its size, and its file, if there is one, its
    bytes. *)
Definition Coherent (c : Cached) : Prop :=
  forall h n, index c !! h = Some n -> exists d, v_content bk_view (remote c) h = Some d ∧ n = Z.of_nat (length d)
    ∧ forall f, files (c_disk c) !! h = Some f -> f = d.
Lemma coherent_shrinks c c' : Coherent c -> shrinks c c' -> Coherent c'.
Proof.
  intros Hc (Hr & Hi & Hf & _) h n Hn. destruct (Hc h n (Hi h n Hn)) as (d & Hd & Hl & Hall). rewrite Hr. exists d. split_and!; [done..|]. intros f Hf'. by apply Hall, Hf.
Qed.
Lemma coherent_remote c st : Coherent c -> (forall h, unchanged_at bk_view (remote c) st h) ->
  Coherent (mkCached st (c_disk c) (index c) (c_evict c)).
Proof.
  intros Hc Hun h n Hn. destruct (Hc h n Hn) as (d & Hd & Hl & Hall). exists d. cbn. by rewrite (proj1 (Hun h)).
Qed.
(** A file of the stored bytes and its entry. *)
Lemma coherent_insert c h b : Coherent c -> v_content bk_view (remote c) h = Some b -> forall d,
  files d = <[h := b]> (files (c_disk c)) ->
  Coherent (mkCached (remote c) d (<[h := Z.of_nat (length b)]> (index c)) (c_evict c)).
Proof.
  intros Hc Hb d Hd h' n Hn. cbn [index remote c_disk] in *. rewrite Hd. destruct (decide (h' = h)) as [->|Hne].
  - simplify_map_eq. exists b. split_and!; try done. by intros f [= <-].
  - rewrite (lookup_insert_ne (index c)) in Hn by done. rewrite lookup_insert_ne by done. by apply Hc.
Qed.

(** A call that reads: the store below keeps its contents and the cache stays coherent. *)
Definition looks (c c' : Cached) : Prop :=
  v_inv bk_view (remote c') ∧ (forall h, unchanged_at bk_view (remote c) (remote c') h) ∧ Coherent c'
  ∧ (calm c -> v_healthy bk_view (remote c) -> calm c' ∧ v_healthy bk_view (remote c')).
Lemma looks_trans c1 c2 c3 : looks c1 c2 -> looks c2 c3 -> looks c1 c3.
Proof.
  intros (Hi1 & Hu1 & Hc1 & Hl1) (Hi2 & Hu2 & Hc2 & Hl2). split_and!; [done| |done|].
  - intros h. destruct (Hu1 h), (Hu2 h). split; congruence.
  - intros Hca Hh. destruct (Hl1 Hca Hh). by apply Hl2.
Qed.
Lemma looks_shrinks c c' : v_inv bk_view (remote c) -> Coherent c -> shrinks c c' -> looks c c'.
Proof.
  intros Hi Hc Hs. pose proof (coherent_shrinks _ _ Hc Hs). destruct Hs as (Hr & _ & _ & Hca). unfold looks, unchanged_at. rewrite Hr.
  split_and!; try done. intros; split; auto.
Qed.
Lemma looks_disk (c : Cached) d : v_inv bk_view (remote c) -> Coherent c -> files d = files (c_disk c) ->
  (no_io_faults (c_disk c) -> no_io_faults d) -> looks c (mkCached (remote c) d (index c) (c_evict c)).
Proof.
  intros Hi Hc Hf Hn. apply looks_shrinks; [done..|]. split_and!; cbn; try done; [by rewrite Hf|]. intros [? ?]. split; cbn; auto.
Qed.
Lemma drop_tmp_looks {T} e (c c' : Cached) (res : result DomainError T) : v_inv bk_view (remote c) -> Coherent c ->
  drop_tmp e c = (res, c') -> looks c c' ∧ res = Err e.
Proof.
  intros Hi Hc Hx. unfold drop_tmp in Hx. apply bind_inv in Hx as [(f & c1 & H1 & [= <- <-])|(e' & H1 & ->)];
    apply on_disk_eq in H1 as (d & H1 & ->); destruct (take_fault_spec (c_disk c)) as (f' & d' & E & Hf & _ & Hn); rewrite E in H1; [|done].
  injection H1 as -> ->. split; [|done]. apply looks_disk; try done. intros ?. by apply Hn.
Qed.
(** A file of the stored bytes is put in place and indexed. *)
Lemma index_placed (c : Cached) h b d res c' : v_inv bk_view (remote c) -> Coherent c -> v_content bk_view (remote c) h = Some b ->
  files d = <[h := b]> (files (c_disk c)) -> (no_io_faults (c_disk c) -> no_io_faults d) ->
  index_insert h (Z.of_nat (length b)) (mkCached (remote c) d (index c) (c_evict c)) = (res, c') ->
  res = Ok tt ∧ looks c c' ∧ remote c' = remote c ∧ (forall f, files (c_disk c') !! h = Some f -> f = b)
  ∧ (calm c -> files (c_disk c') !! h = Some b).
Proof.
  intros Hi Hc Hb Hd Hn Hx. apply index_insert_shrinks in Hx as (-> & Hs & Hcalm).
  pose proof (coherent_shrinks _ _ (coherent_insert c h b Hc Hb d Hd) Hs) as Hc'. destruct Hs as (Hr & _ & Hfs & _). cbn in Hr, Hfs.
  assert (Hca : calm c -> calm (mkCached (remote c) d (index c) (c_evict c))) by (intros [? ?]; split; cbn; auto).
  split_and!; [done| |done| |].
  - unfold looks, unchanged_at. rewrite Hr. split_and!; try done. intros Hcalm' Hh. split; [by apply Hcalm, Hca|done].
  - intros f Hf%Hfs. rewrite Hd, lookup_insert_eq in Hf. by injection Hf as <-.
  - intros Hcalm'. destruct (Hcalm (Hca Hcalm')) as (_ & -> & _). cbn. by rewrite Hd, lookup_insert_eq.
Qed.
Lemma fetch_and_cache_spec h (c c' : Cached) res : v_inv bk_view (remote c) -> Coherent c -> fetch_and_cache h c = (res, c') ->
  looks c c' ∧ (res = Ok tt -> forall f, files (c_disk c') !! h = Some f -> v_content bk_view (remote c') h = Some f)
  ∧ (calm c -> v_healthy bk_view (remote c) -> forall full, v_content bk_view (remote c) h = Some full ->
       res = Ok tt ∧ files (c_disk c') !! h = Some full).
Proof.
  intros Hi Hc Hx. unfold fetch_and_cache in Hx.
  apply bind_inv in Hx as [(s & c1 & H1 & Hx)|(e & H1 & ->)]; apply on_remote_eq in H1 as (st & Hget & ->);
    destruct (bk_get _ _ _ _ Hi Hget) as (Hi1 & Hu1 & Hb1 & Hl1).
  all: pose proof (coherent_remote c st Hc Hu1) as Hc1.
  all: assert (Hlook1 : looks c (mkCached st (c_disk c) (index c) (c_evict c))) by (split_and!; try done; intros; split; [done|by apply Hl1]).
  2:{ split_and!; [done|done|]. intros _ Hh full Hfull. by destruct (proj2 (Hl1 Hh) full Hfull) as (? & ? & _). }
  set (c1 := mkCached st (c_disk c) (index c) (c_evict c)) in *.
  apply attempt_inv in Hx as (written & c2 & H2 & Hx).
  apply on_disk_eq in H2 as (d2 & H2 & ->). apply download_spec in H2 as (Hf2 & Hok2 & Hn2).
  assert (Hlook2 : looks c1 (mkCached st d2 (index c) (c_evict c))) by (apply (looks_disk c1); try done; intros; by apply Hn2).
  pose proof (looks_trans _ _ _ Hlook1 Hlook2) as Hlook. change (mkCached (remote c1) d2 (index c1) (c_evict c1)) with (mkCached st d2 (index c) (c_evict c)) in *.
  set (c2 := mkCached st d2 (index c) (c_evict c)) in *.
  destruct written as [b|e].
  2:{ apply drop_tmp_looks in Hx as [Hl ->]; [|apply Hlook..]. split_and!; [by eapply looks_trans|done|].
      intros Hca Hh full Hfull. destruct (proj2 (Hl1 Hh) full Hfull) as (s' & [= <-] & Hs). by specialize (proj2 (Hn2 (proj1 Hca)) full Hs). }
  apply attempt_inv in Hx as (renamed & c3 & H3 & Hx).
  apply on_disk_eq in H3 as (d3 & H3 & ->). apply io_step_spec in H3 as [Hf3 Hn3].
  assert (Hlook3 : looks c2 (mkCached st d3 (index c) (c_evict c))) by (apply (looks_disk c2); try done; try apply Hlook; intros; by apply Hn3).
  change (mkCached (remote c2) d3 (index c2) (c_evict c2)) with (mkCached st d3 (index c) (c_evict c)) in *.
  set (c3 := mkCached st d3 (index c) (c_evict c)) in *. pose proof (looks_trans _ _ _ Hlook Hlook3) as Hlooks.
  destruct renamed as [[]|e].
  2:{ apply drop_tmp_looks in Hx as [Hl ->]; [|apply Hlooks..]. split_and!; [by eapply looks_trans|done|].
      intros Hca Hh full Hfull. by destruct (Hn3 (proj1 (Hn2 (proj1 Hca)))). }
  destruct (Hb1 s b eq_refl (Hok2 b eq_refl)) as (full & Hfull & ->).
  assert (Hst : v_content bk_view st h = Some full) by by rewrite (proj1 (Hu1 h)).
  apply (index_placed c3 h full (set_file h full d3)) in Hx as (-> & Hput & Hr & Hfs & Hcalm); try done; [|apply Hlooks].
  split_and!; [by eapply looks_trans| |].
  - intros _ f ->%Hfs. by rewrite Hr.
  - intros Hca Hh full' Hfull'. split; [done|]. destruct (proj2 (proj2 (proj2 Hlooks)) Hca Hh) as [Hca3 Hh3].
    rewrite (Hcalm Hca3). congruence.
Qed.
Lemma open_disk h (c c' : Cached) res : v_inv bk_view (remote c) -> Coherent c -> on_disk (io_open h) c = (res, c') ->
  exists r, res = Ok r ∧ looks c c' ∧ remote c' = remote c ∧ files (c_disk c') = files (c_disk c) ∧ (forall b, r = Ok b -> files (c_disk c) !! h = Some b)
  ∧ (calm c -> forall b, files (c_disk c) !! h = Some b -> r = Ok b).
Proof.
  intros Hi Hc Hx. apply on_disk_eq in Hx as (d & Hx & ->). apply io_open_spec in Hx as (Hf & r & -> & Hok & Hn).
  exists r. split_and!; try done; [apply looks_disk; try done; intros; by apply Hn|]. intros [Hca _]. by apply Hn.
Qed.
(** The bytes a read is served from: those of the stored blob. *)
Definition serves (h : str) (m : CM St bytes) : Prop := forall c c' res, v_inv bk_view (remote c) -> Coherent c -> m c = (res, c') ->
  looks c c' ∧ (forall b, res = Ok b -> v_content bk_view (remote c) h = Some b)
  ∧ (calm c -> v_healthy bk_view (remote c) -> forall full, v_content bk_view (remote c) h = Some full -> res = Ok full).
Lemma fetch_and_open_serves what h : serves h (fetch_and_open what h).
Proof.
  intros c c' res Hi Hc Hx. unfold fetch_and_open in Hx.
  assert (Hgate : forall c1 r1, fetch_and_cache_singleflight h c = (r1, c1) ->
    looks c c1 ∧ (r1 = Ok tt -> forall f, files (c_disk c1) !! h = Some f -> v_content bk_view (remote c) h = Some f)
    ∧ (calm c -> v_healthy bk_view (remote c) -> forall full, v_content bk_view (remote c) h = Some full ->
         r1 = Ok tt ∧ files (c_disk c1) !! h = Some full)).
  { intros c1 r1 H1. unfold fetch_and_cache_singleflight in H1.
    apply bind_inv in H1 as [(known & c0 & [= <- <-] & H1)|(e & ? & _)]; [|done].
    destruct (bool_decide_reflect (is_Some (index c !! h))) as [[n Hn]|_].
    - apply bind_inv in H1 as [(found & c2 & H2 & H1)|(e & H2 & ->)];
        (apply bind_inv in H2 as [(r & c3 & H3 & H2)|(e' & H3 & ?)];
          apply open_disk in H3 as (r' & Hr' & Hl3 & Hrem & Hix & Hok & Hlive); try done).
      injection Hr' as <-. injection H2 as <- <-. destruct r as [b|e].
      + injection H1 as <- <-. destruct (Hc h n Hn) as (d & Hd & _ & Hfile).
        split_and!; [done| |].
        * intros _ f. rewrite Hix. by intros ->%Hfile.
        * intros _ _ full Hfull. split; [done|]. rewrite Hix, (Hok b eq_refl). rewrite (Hfile b (Hok b eq_refl)). congruence.
      + apply fetch_and_cache_spec in H1 as (Hl & Hfile & Hlv); [|apply Hl3..]. rewrite Hrem in Hlv.
        split_and!; [by eapply looks_trans| |].
        * intros Hr f Hf. rewrite <- (proj1 (proj1 (proj2 (looks_trans _ _ _ Hl3 Hl)) h)). by apply Hfile.
        * intros Hca Hh. apply Hlv; [by apply Hl3|done].
    - cbn in H1. apply fetch_and_cache_spec in H1 as (Hl & Hfile & Hlv); [|done..]. split_and!; [done| |done].
      intros Hr f Hf. rewrite <- (proj1 (proj1 (proj2 Hl) h)). by apply Hfile. }
  apply bind_inv in Hx as [([] & c1 & H1 & Hx)|(e & H1 & ->)]; apply Hgate in H1 as (Hl1 & Hfile & Hlv).
  2:{ split_and!; [done|done|]. intros Hca Hh full Hfull. by destruct (Hlv Hca Hh full Hfull). }
  apply bind_inv in Hx as [(r & c2 & H2 & Hx)|(e & H2 & ->)]; apply open_disk in H2 as (r' & Hr' & Hl2 & Hrem & _ & Hok & Hlive);
    try apply Hl1; [|done]. injection Hr' as <-.
  assert (Hl : looks c c2) by by eapply looks_trans.
  destruct r as [b|e]; injection Hx as <- <-; split_and!; try done.
  - intros b' [= <-]. apply Hfile; [done|]. by apply Hok.
  - intros Hca Hh full Hfull. destruct (Hlv Hca Hh full Hfull) as [_ Hf]. rewrite (Hok b eq_refl) in Hf. by injection Hf as ->.
  - intros Hca Hh full Hfull. destruct (Hlv Hca Hh full Hfull) as [_ Hf]. by specialize (Hlive (proj1 (proj2 (proj2 (proj2 Hl1)) Hca Hh)) _ Hf).
Qed.
Lemma cached_serves what h : serves h (served what h).
Proof.
  intros c c' res Hi Hc Hx. unfold served in Hx.
  assert (Hhit : forall c1 r1, open_cached h c = (r1, c1) -> looks c c1 ∧ exists o, r1 = Ok o
    ∧ (forall b, o = Some b -> v_content bk_view (remote c) h = Some b)).
  { intros c1 r1 H1. unfold open_cached in H1. apply bind_inv in H1 as [(known & c0 & [= <- <-] & H1)|(e & ? & _)]; [|done].
    destruct (bool_decide_reflect (is_Some (index c !! h))) as [[n Hn]|_].
    2:{ injection H1 as <- <-. split; [by apply looks_shrinks|]. by exists None. }
    apply bind_inv in H1 as [(r & c2 & H2 & H1)|(e & H2 & ->)]; apply open_disk in H2 as (r' & Hr' & Hl2 & Hrem & _ & Hok & _); try done.
    injection Hr' as <-. destruct r as [b|e].
    - injection H1 as <- <-. split; [done|]. eexists. split; [done|]. intros b' [= <-].
      destruct (Hc h n Hn) as (d & Hd & _ & Hfile). by rewrite (Hfile b (Hok b eq_refl)).
    - apply bind_inv in H1 as [([] & c3 & H3 & H1)|(e' & H3 & ->)]; apply invalidate_shrinks in H3 as (? & Hs & _); [|done].
      injection H1 as <- <-. split; [|by exists None]. eapply looks_trans; [done|]. by apply looks_shrinks; [apply Hl2..|]. }
  apply bind_inv in Hx as [(o & c1 & H1 & Hx)|(e & H1 & ->)]; apply Hhit in H1 as (Hl1 & o' & Ho & Hsome); [|done].
  injection Ho as <-. destruct o as [b|].
  - injection Hx as <- <-. split_and!; [done|by intros b' [= <-]; auto|]. intros _ _ full Hfull. rewrite (Hsome b eq_refl) in Hfull. congruence.
  - apply fetch_and_open_serves in Hx as (Hl & Hok & Hlv); try apply Hl1. destruct Hl1 as (? & Hun & ? & Hca1) eqn:El1.
    split_and!; [by eapply looks_trans|intros b Hb; rewrite <- (proj1 (Hun h)); auto|].
    intros Hca Hh full Hfull. destruct (Hca1 Hca Hh). apply Hlv; try done. by rewrite (proj1 (Hun h)).
Qed.
(** Reading [part] of the served bytes. *)
Definition reads_through (part : bytes -> bytes) (op : str -> CM St BlobStream) : Prop := forall c h res c',
  v_inv bk_view (remote c) -> Coherent c -> op h c = (res, c') ->
  looks c c' ∧ (forall s b, res = Ok s -> stream_bytes s = Ok b -> exists full, v_content bk_view (remote c) h = Some full ∧ b = part full)
  ∧ (calm c -> v_healthy bk_view (remote c) -> forall full, v_content bk_view (remote c) h = Some full ->
       exists s, res = Ok s ∧ stream_bytes s = Ok (part full)).
Lemma reads_served (what : str) (part : bytes -> bytes) (seek : LM unit) (op : str -> CM St BlobStream) :
  (forall d res d', seek d = (res, d') -> files d' = files d ∧ (no_io_faults d -> no_io_faults d' ∧ res = Ok tt)) ->
  (forall h c, op h c = (b ← served what h; _ ← on_disk seek; on_disk (read_stream (part b))) c) -> reads_through part op.
Proof.
  intros Hseek Hop c h res c' Hi Hc Hx. rewrite Hop in Hx.
  apply bind_inv in Hx as [(b & c1 & H1 & Hx)|(e & H1 & ->)]; apply cached_serves in H1 as (Hl1 & Hok & Hlv); try done.
  2:{ split_and!; [done|done|]. intros Hca Hh full Hfull. by specialize (Hlv Hca Hh full Hfull). }
  apply bind_inv in Hx as [([] & c2 & H2 & Hx)|(e & H2 & ->)]; apply on_disk_eq in H2 as (d2 & H2 & ->); apply Hseek in H2 as [Hf2 Hn2];
    (assert (Hl2 : looks c1 (mkCached (remote c1) d2 (index c1) (c_evict c1))) by (apply looks_disk; try apply Hl1; [done|]; intros; by apply Hn2));
    pose proof (looks_trans _ _ _ Hl1 Hl2) as Hl.
  2:{ split_and!; [done|done|]. intros Hca Hh full Hfull. by destruct (Hn2 (proj1 (proj1 (proj2 (proj2 (proj2 Hl1)) Hca Hh)))). }
  apply on_disk_eq in Hx as (d3 & Hx & ->). apply read_stream_spec in Hx as (Hf3 & _ & s & -> & Hb & Hn3). cbn in Hf3, Hn3. split_and!.
  - eapply looks_trans; [exact Hl|]. apply looks_disk; try apply Hl; [done|]. intros; by apply Hn3.
  - intros s' b' [= <-] Hs. exists b. split; [by apply Hok|by apply Hb].
  - intros Hca Hh full Hfull. exists s. split; [done|]. pose proof (Hlv Hca Hh full Hfull) as [= ->]. apply Hn3.
    apply Hn2. by apply (proj2 (proj2 (proj2 Hl1))).
Qed.
Lemma cached_get_reads : reads_through (fun b => b) get_blob_stream.
Proof.
  apply (reads_served (lit "re-open cached: ") _ (mret tt)); [by intros d res d' [= <- <-]|].
  intros h c. cbn. unfold cached_get_blob_stream, mbind, M_bind. by destruct (served _ h c) as [[b|e] c1]; [destruct c1|].
Qed.
Lemma cached_range_reads start end_ : (0 <= start)%Z -> reads_through (byte_range start end_) (fun h => get_blob_range_stream h start end_).
Proof.
  intros Hs. apply (reads_served (lit "re-open: ") _ (io_step (lit "seek: "))); [apply io_step_spec|].
  intros h c. cbn. unfold cached_get_blob_range_stream, mbind, M_bind. destruct (served _ h c) as [[b|e] c1]; [|done].
  by rewrite <- byte_range_local.
Qed.

(** Bytes that are the blob's own, as under content addressing. *)
Definition addressed (st : St) (h : str) (d : bytes) : Prop :=
  v_present bk_view st h = true -> v_content bk_view st h = Some d.
(** A store of a blob's own bytes leaves whatever was readable as it was. *)
Lemma addressed_kept put h d st res st' : rewrites bk_view put -> fails_clean bk_view put -> v_inv bk_view st ->
  addressed st h d -> put h d st = (res, st') ->
  v_inv bk_view st' ∧ (forall h' d', v_content bk_view st h' = Some d' -> v_content bk_view st' h' = Some d')
  ∧ (forall n, res = Ok n -> v_content bk_view st' h = Some d).
Proof.
  intros Hw Hcl Hi Ha Hx. destruct (Hw _ _ _ _ _ Hi Hx) as (Hi' & Hun & Hput & _). split_and!; [done| |].
  - intros h' d' Hd'. destruct (decide (h' = h)) as [->|Hne]; [|by rewrite (proj1 (Hun h' Hne))].
    assert (d' = d) as ->.
    { destruct (v_present bk_view st h) eqn:Ep; [specialize (Ha Ep); congruence|by rewrite bk_absent in Hd']. }
    destruct res as [n|e].
    + destruct (Hput n eq_refl) as [?|[_ [Hc _]]]; [done|congruence].
    + destruct (Hcl _ _ _ _ _ Hi Hx) as [[Hc _]|?]; [congruence|done].
  - intros n Hn. destruct (Hput n Hn) as [?|[Hp [Hc _]]]; [done|]. rewrite Hc. by apply Ha.
Qed.
Lemma cached_put_spec put h d (c c' : Cached) res : rewrites bk_view put -> fails_clean bk_view put ->
  v_inv bk_view (remote c) -> Coherent c ->
  addressed (remote c) h d -> writes_whole (c_disk c) -> cached_put put h d c = (res, c') ->
  v_inv bk_view (remote c') ∧ Coherent c' ∧ put h d (remote c) = (res, remote c').
Proof.
  intros Hst Hcl Hi Hc Ha Hw Hx. unfold cached_put in Hx.
  assert (Hput : forall r st, put h d (remote c) = (r, st) ->
    v_inv bk_view st ∧ Coherent (mkCached st (c_disk c) (index c) (c_evict c))
    ∧ forall n, r = Ok n -> v_content bk_view st h = Some d).
  { intros r st Hr. destruct (addressed_kept put h d _ _ _ Hst Hcl Hi Ha Hr) as (Hi' & Hk & Hn). split_and!; [done| |done].
    intros h' n Hn'. destruct (Hc h' n Hn') as (d' & Hd & Hl & Hf). exists d'. split; [by apply Hk|done]. }
  apply bind_inv in Hx as [(n & c1 & H1 & Hx)|(e & H1 & ->)]; apply on_remote_eq in H1 as (st & H1 & ->);
    destruct (Hput _ _ H1) as (Hi1 & Hc1 & Hok); [|by split_and!]. pose proof (Hok n eq_refl) as Hst1.
  set (c1 := mkCached st (c_disk c) (index c) (c_evict c)) in *.
  unfold cache_bytes_write_through in Hx.
  apply bind_inv in Hx as [([] & c2 & H2 & Hx)|(e & H2 & ->)];
    (apply bind_inv in H2 as [([] & c3 & H3 & H2)|(e' & H3 & ?)]; apply on_disk_eq in H3 as (d3 & H3 & ->);
      apply io_write_spec in H3 as (? & Hf3 & Hn3); [|done..]); try done.
  - apply (index_placed c1 h d d3) in H2 as (_ & Hl & Hr & _); try done. injection Hx as <- <-. split_and!; [by rewrite Hr|apply Hl|by rewrite Hr].
  - apply (index_placed c1 h d d3) in H2 as (? & _); done.
Qed.
Lemma cached_delete_spec h (c c' : Cached) res : v_inv bk_view (remote c) -> Coherent c -> delete_blob h c = (res, c') ->
  v_inv bk_view (remote c') ∧ Coherent c' ∧ index c' !! h = None ∧ delete_blob h (remote c) = (res, remote c').
Proof.
  intros Hi Hc Hx. cbn in Hx. unfold cached_delete_blob in Hx.
  assert (Hev : exists c1, evict_cached h c = (Ok tt, c1) ∧ on_remote (delete_blob h) c1 = (res, c')).
  { apply bind_inv in Hx as [([] & c1 & H1 & Hx)|(e & H1 & ->)]; [|done]. unfold evict_cached.
    apply bind_inv in Hx as [([] & c2 & H2 & Hx)|(e & H2 & ->)].
    - exists c2. split; [|done]. by rewrite (bind_ok _ _ _ _ _ H1).
    - apply on_disk_eq in H2 as (d & H2 & _). by apply io_remove_spec in H2 as (? & _). }
  destruct Hev as (c1 & H1 & H2). apply evict_cached_shrinks in H1 as (_ & Hs & Hnone).
  pose proof (coherent_shrinks _ _ Hc Hs) as Hc1. destruct Hs as (Hr & _). apply on_remote_eq in H2 as (st & H2 & ->).
  rewrite Hr in H2. destruct (bk_delete _ _ _ _ Hi H2) as (Hi' & Hun & _). cbn. split_and!; try done.
  intros h' n Hn. cbn in *. destruct (decide (h' = h)) as [->|Hne]; [congruence|]. rewrite (proj1 (Hun h' Hne)), <- Hr. by apply (Hc1 h').
Qed.
Lemma cached_exists_spec h (c c' : Cached) res : v_inv bk_view (remote c) -> Coherent c -> blob_exists h c = (res, c') ->
  v_inv bk_view (remote c') ∧ Coherent c' ∧ (res = Ok true -> v_present bk_view (remote c) h = true)
  ∧ (v_healthy bk_view (remote c) -> res = Ok (v_present bk_view (remote c) h)).
Proof.
  intros Hi Hc Hx. cbn in Hx. unfold cached_blob_exists in Hx. apply bind_inv in Hx as [(known & c0 & [= <- <-] & Hx)|(e & ? & _)]; [|done].
  destruct (bool_decide_reflect (is_Some (index c !! h))) as [[n Hn]|_].
  - injection Hx as <- <-. destruct (Hc h n Hn) as (d & Hd & _).
    destruct (v_present bk_view (remote c) h) eqn:Ep; [by split_and!|]. by rewrite bk_absent in Hd.
  - apply on_remote_eq in Hx as (st & Hx & ->). destruct (bk_exists _ _ _ _ Hi Hx) as (Hi1 & Hun & Htrue & Hl).
    split_and!; try done; [by apply coherent_remote|]. intros Hh. by apply Hl.
Qed.
(** Every file is the blob of its name: what the last process left behind, when its removals
    succeeded. *)
Definition faithful_files (c : Cached) : Prop :=
  forall h f, files (c_disk c) !! h = Some f -> v_content bk_view (remote c) h = Some f.
Lemma sizes_spec found : forall d res d', no_io_faults d -> sizes found d = (res, d') ->
  res = Ok ((fun hb => (hb.1, Z.of_nat (length hb.2))) <$> found) ∧ files d' = files d ∧ no_io_faults d'.
Proof.
  induction found as [|[h b] found IH]; intros d res d' Hn Hx; cbn [sizes] in Hx; [by injection Hx as <- <-|].
  apply bind_inv in Hx as [(f & d1 & H1 & Hx)|(e & H1 & ->)]; destruct (take_fault_spec d) as (f' & d1' & E & Hf & _ & Hn1); rewrite E in H1; [|done].
  injection H1 as -> ->. destruct (Hn1 Hn) as [Hnd1 ->].
  apply bind_inv in Hx as [(es & d2 & H2 & Hx)|(e & H2 & ->)]; apply IH in H2 as (Hes & Hf2 & Hn2); try done.
  injection Hes as ->. injection Hx as <- <-. split_and!; [done|congruence|done].
Qed.
Lemma insert_all_spec entries : forall (c c' : Cached) res, Coherent c -> faithful_files c ->
  Forall (fun e => exists d, v_content bk_view (remote c) e.1 = Some d ∧ e.2 = Z.of_nat (length d)) entries ->
  insert_all entries c = (res, c') -> res = Ok tt ∧ Coherent c' ∧ remote c' = remote c.
Proof.
  induction entries as [|[h n] entries IH]; intros c c' res Hc Hff He Hx; cbn [insert_all] in Hx; [by injection Hx as <- <-|].
  apply Forall_cons_1 in He as [(d & Hd & Hn) He]. cbn in Hd, Hn.
  apply bind_inv in Hx as [([] & c1 & H1 & Hx)|(e & H1 & ->)]; apply index_insert_shrinks in H1 as (? & Hs & _); [|done].
  assert (Hc0 : Coherent (set_index (<[h := n]> (index c)) c)).
  { intros h' n' Hn'. cbn in *. destruct (decide (h' = h)) as [->|Hne].
    - rewrite (lookup_insert_eq (index c)) in Hn'. injection Hn' as <-. exists d. split_and!; try done.
      intros f Hf%Hff. congruence.
    - rewrite (lookup_insert_ne (index c)) in Hn' by done. by apply Hc. }
  pose proof (coherent_shrinks _ _ Hc0 Hs) as Hc1. destruct Hs as (Hr & _ & Hf & _). cbn in Hr, Hf.
  apply IH in Hx as (-> & Hc' & Hr'); [by rewrite Hr' in *; split_and!|done| |by rewrite Hr].
  intros h' f Hf'%Hf. rewrite Hr. by apply Hff.
Qed.
Lemma initialize_index_spec (c c' : Cached) res : faithful_files c -> no_io_faults (c_disk c) -> initialize_index c = (res, c') ->
  res = Ok tt ∧ Coherent c' ∧ remote c' = remote c.
Proof.
  intros Hff Hn Hx. unfold initialize_index in Hx.
  apply bind_inv in Hx as [(es & c1 & H1 & Hx)|(e & H1 & ->)]; apply on_disk_eq in H1 as (d & H1 & ->);
    apply sizes_spec in H1 as (Hes & Hf & _); try done. injection Hes as ->.
  apply insert_all_spec in Hx; [done| | |].
  - intros h n. cbn. by rewrite lookup_empty.
  - intros h f. cbn. rewrite Hf. apply Hff.
  - apply list.Forall_forall. intros [h n] ([h' b] & [= -> ->] & Hin)%list_elem_of_fmap. exists b.
    split; [|done]. apply Hff. by apply elem_of_map_to_list in Hin.
Qed.

(** A size from the index or a file of its own is the size of the blob. *)
Lemma cached_size_spec h (c c' : Cached) res : Coherent c -> (index c !! h = None -> faithful_files c) ->
  blob_size h c = (res, c') ->
  (exists full, v_content bk_view (remote c) h = Some full ∧ res = Ok (Z.of_nat (length full)) ∧ remote c' = remote c)
  ∨ blob_size h (remote c) = (res, remote c').
Proof.
  intros Hc Hf Hx. cbn in Hx. unfold cached_blob_size in Hx. apply bind_inv in Hx as [(entry & c0 & [= <- <-] & Hx)|(e & ? & _)]; [|done].
  destruct (index c !! h) as [n|] eqn:En.
  { injection Hx as <- <-. destruct (Hc h n En) as (d & Hd & -> & _). left. by exists d. }
  apply bind_inv in Hx as [(r & c1 & H1 & Hx)|(e & H1 & ->)]; apply on_disk_eq in H1 as (d1 & H1 & ->);
    apply io_open_spec in H1 as (_ & r' & Hr & Hb & _); [|done]. injection Hr as <-.
  destruct r as [b|e].
  - injection Hx as <- <-. left. exists b. split_and!; [|done..]. by apply (Hf eq_refl), Hb.
  - apply on_remote_eq in Hx as (st & Hx & ->). by right.
Qed.

(** C12: the disk cache is transparent while its own disk writes succeed.  Over any backend that
    keeps the contract with uploads that are all or nothing, one operation after another, from a
    cache whose indexed files are the stored blobs.  A store of bytes that belong to their hash,
    also without synchronisation or as a rewrite (which the cache does not forward and stores
    instead), whose cache file is written without a fault: the answer is the backend's and the
    cache stays that way; a cache file cut short by a fault would be served
    ([failed_cache_write_is_served]).  Whole and ranged reads, hit or miss and whatever fails or
    is pushed out meanwhile, return bytes of the stored blob or an error, and the bytes when
    nothing fails; a deletion forgets the entry whatever the backend answers; existence is
    affirmed of present blobs only, and of all of them on a healthy backend; the size is that of the stored blob or the backend's answer,
    when files without an entry are stored blobs too; evictions keep the cache that way, and a
    restart establishes it when the files found are stored blobs and no file operation fails. *)
Theorem cache_is_transparent `{!AtomicPuts St} :
  (forall (c : Cached) h d res c', v_inv bk_view (remote c) -> Coherent c -> addressed (remote c) h d -> writes_whole (c_disk c) ->
     (put_blob_from_bytes h d c = (res, c') ->
        v_inv bk_view (remote c') ∧ Coherent c' ∧ put_blob_from_bytes h d (remote c) = (res, remote c'))
     ∧ (put_blob_from_bytes_unsynced h d c = (res, c') ->
        v_inv bk_view (remote c') ∧ Coherent c' ∧ put_blob_from_bytes_unsynced h d (remote c) = (res, remote c'))
     ∧ (put_blob_from_bytes_replace h d c = (res, c') ->
        v_inv bk_view (remote c') ∧ Coherent c' ∧ put_blob_from_bytes h d (remote c) = (res, remote c')))
  ∧ reads_through (fun b => b) get_blob_stream
  ∧ (forall start end_, (0 <= start)%Z -> reads_through (byte_range start end_) (fun h => get_blob_range_stream h start end_))
  ∧ (forall (c : Cached) h res c', v_inv bk_view (remote c) -> Coherent c -> delete_blob h c = (res, c') ->
       v_inv bk_view (remote c') ∧ Coherent c' ∧ index c' !! h = None ∧ delete_blob h (remote c) = (res, remote c'))
  ∧ (forall (c : Cached) h res c', v_inv bk_view (remote c) -> Coherent c -> blob_exists h c = (res, c') ->
       v_inv bk_view (remote c') ∧ Coherent c' ∧ (res = Ok true -> v_present bk_view (remote c) h = true)
       ∧ (v_healthy bk_view (remote c) -> res = Ok (v_present bk_view (remote c) h)))
  ∧ (forall (c : Cached) h res c', Coherent c -> (index c !! h = None -> faithful_files c) -> blob_size h c = (res, c') ->
       (exists full, v_content bk_view (remote c) h = Some full ∧ res = Ok (Z.of_nat (length full)) ∧ remote c' = remote c)
       ∨ blob_size h (remote c) = (res, remote c'))
  ∧ (forall (c : Cached) h res c', Coherent c -> evict_cached h c = (res, c') -> Coherent c' ∧ remote c' = remote c)
  ∧ (forall (c c' : Cached) res, faithful_files c -> no_io_faults (c_disk c) -> initialize_index c = (res, c') ->
       res = Ok tt ∧ Coherent c' ∧ remote c' = remote c).
Proof.
  split_and!.
  - intros c h d res c' Hi Hc Ha Hw. split_and!; (apply cached_put_spec; [| |done..]);
      first [exact failed_put|exact failed_put_unsynced|exact bk_put_unsynced|exact (stores_rewrites _ _ bk_put)].
  - exact cached_get_reads.
  - exact cached_range_reads.
  - intros c h res c' ??. by apply cached_delete_spec.
  - intros c h res c' ??. by apply cached_exists_spec.
  - intros c h res c'. apply cached_size_spec.
  - intros c h res c' Hc Hx. apply evict_cached_shrinks in Hx as (_ & Hs & _). split; [by eapply coherent_shrinks|apply Hs].
  - intros c c' res. apply initialize_index_spec.
Qed.

(** A failed write-through is served.  When the backend accepts a new blob and the cache disk
    then fails after [k] bytes, as a full disk does, the failure is dropped and the entry is
    indexed all the same: the store reports success, and every read returns the first [k] bytes
    as the whole blob although the backend holds all of it. *)
Theorem failed_cache_write_is_served (st st' : St) h d n err k io : v_inv bk_view st -> v_present bk_view st h = false ->
  put_blob_from_bytes h d st = (Ok n, st') -> Forall (fun f => f = None) io ->
  let c := mkCached st (mkLocal ∅ (None :: Some (err, k) :: io)) ∅ [] in
  let after := snd (put_blob_from_bytes h d c) in
  fst (put_blob_from_bytes h d c) = Ok n
  ∧ v_content bk_view (remote after) h = Some d
  ∧ exists s, fst (get_blob_stream h after) = Ok s ∧ stream_bytes s = Ok (take k d).
Proof.
  intros Hi Hp Hput Hio. cbn zeta. set (c := mkCached st _ ∅ []).
  assert (Hx : put_blob_from_bytes h d c
    = (Ok n, mkCached st' (mkLocal {[h := take k d]} io) {[h := Z.of_nat (length d)]} [])).
  { cbn. unfold cached_put, on_remote, cache_bytes_write_through, on_disk, io_write, index_insert. unfold_m. cbn. rewrite Hput. cbn.
    unfold set_file; cbn; by rewrite insert_insert_eq. }
  rewrite Hx. cbn [fst snd remote]. destruct (bk_put _ _ _ _ _ Hi Hput) as (_ & _ & Hok & _).
  split_and!; [done|by eapply Hok|]. exists (stream_of STREAM_CHUNK_SIZE (take k d)).
  split; [|apply stream_of_bytes, chunk_size_pos]. cbn.
  unfold cached_get_blob_stream, served, open_cached, on_disk, io_open, read_stream, take_fault. unfold_m. cbn.
  rewrite bool_decide_true by (rewrite (lookup_singleton_eq h); eauto).
  destruct io as [|f1 [|f2 io]]; cbn; try (apply Forall_cons_1 in Hio as [-> Hio]); try (apply Forall_cons_1 in Hio as [-> Hio]);
    cbn; rewrite (lookup_singleton_eq h); done.
Qed.
End coherence.

(** ** Concrete runs *)
Definition cold : CachedBlobBackend LocalBlobBackend := mkCached (mkLocal ∅ []) (mkLocal ∅ []) ∅ [].
Lemma cache_is_transparent_witness :
  let warm := (put_blob_from_bytes (lit "ab") [1; 2]%Z cold).2 in
  @Coherent _ local_backend clean_laws warm
  ∧ exists s, (get_blob_stream (lit "ab") warm).1 = Ok s ∧ stream_bytes s = Ok [1; 2]%Z.
Proof.
  intros warm. destruct (@cache_is_transparent _ local_backend clean_laws clean_atomic) as (Hput & Hget & _).
  destruct (Hput cold (lit "ab") [1; 2]%Z (put_blob_from_bytes (lit "ab") [1; 2]%Z cold).1 warm) as [Hone _].
  - constructor.
  - intros h n. cbn. by rewrite lookup_empty.
  - done.
  - constructor.
  - destruct Hone as (Hi & Hc & _); [by destruct (put_blob_from_bytes (lit "ab") [1; 2]%Z cold)|]. split; [done|].
    destruct (Hget warm (lit "ab") (get_blob_stream (lit "ab") warm).1 (get_blob_stream (lit "ab") warm).2 Hi Hc) as (_ & _ & Hl);
      [by destruct (get_blob_stream (lit "ab") warm)|].
    apply Hl; [split; constructor|constructor|by vm_compute].
Defined.
Lemma failed_cache_write_is_served_witness :
  let full := mkIoError IoOther (lit "No space left on device (os error 28)") in
  let c := mkCached (mkLocal ∅ []) (mkLocal ∅ [None; Some (full, 1%nat)]) ∅ [] in
  exists s, (get_blob_stream (lit "ab") (put_blob_from_bytes (lit "ab") [1; 2]%Z c).2).1 = Ok s ∧ stream_bytes s = Ok [1]%Z.
Proof.
  intros full c.
  apply (@failed_cache_write_is_served _ local_backend clean_laws (mkLocal ∅ []) (put_blob_from_bytes (lit "ab") [1; 2]%Z (mkLocal ∅ [])).2
    (lit "ab") [1; 2]%Z 2%Z full 1 []); [constructor|done|by vm_compute|constructor].
Defined.
