(* ===== verification/SubjectGroups.v ===== *)
(** * Subject groups

    [src/src/application/services/subject_group_service.rs] on top of
    [src/src/infrastructure/repositories/pg/subject_group_pg_repository.rs] and the entity
    [src/src/domain/entities/subject_group.rs]: groups, their members, which may be groups again,
    and the invalidation of the engine's cached memberships.

    The state is the table [auth.subject_groups] and the engine of [AclEngine], whose tables hold
    the members and the grants.  A statement takes the next entry of the engine's fault script;
    the statements of a transaction write nothing before its commit.  Listings, the audit lines
    and the cache of readable drives are left out.  The texts of constraint violations and of
    an escaped character are parameters. *)

From S2P Require Import Prelude.
From S2P Require Import RustStr.
From S2P Require Import DomainErrors.
From S2P Require Import Authorization.
From S2P Require Import DrivePolicies.
From S2P Require Import Moka.
From S2P Require Import AclDb.
From S2P Require Import AuthzPort.
From S2P Require Import AclEngine.

(** ** The entity *)
Definition MAX_GROUP_DEPTH : Z := 8.
Definition MAX_NAME_LEN : nat := 64.
Record SubjectGroup := mkSubjectGroup {
  sg_id : Uuid;
  sg_name : str;
  sg_description : option str;
  is_virtual : bool;
  created_at : Z;
  updated_at : Z;
}.
Inductive SubjectGroupError :=
| SgInvalidName (m : str) | SgCycleDetected (m : str) | SgDepthExceeded (m : str)
| SgVirtualImmutable (m : str) | SgValidationError (m : str).
Inductive SubjectGroupRepositoryError :=
| RNotFound (m : str) | RNameAlreadyExists (m : str) | RMemberAlreadyPresent | RMemberNotPresent
| RCycle (m : str) | RDepthExceeded (m : str) | RVirtualImmutable (m : str) | RInvalidName (m : str)
| RStorageError (m : str).
Definition map_entity_err (e : SubjectGroupError) : DomainError :=
  let '(k, msg) := match e with
    | SgInvalidName m => (InvalidInput, m)
    | SgCycleDetected m => (InvalidInput, m)
    | SgDepthExceeded m => (InvalidInput, m)
    | SgVirtualImmutable m => (AccessDenied, m)
    | SgValidationError m => (InvalidInput, m)
    end in
  DomainError.new k (lit "SubjectGroup") msg.
Definition map_repo_err (e : SubjectGroupRepositoryError) : DomainError :=
  let '(k, msg) := match e with
    | RNotFound m => (NotFound, m)
    | RNameAlreadyExists m => (AlreadyExists, m)
    | RInvalidName m => (InvalidInput, m)
    | RCycle m => (InvalidInput, m)
    | RDepthExceeded m => (InvalidInput, m)
    | RVirtualImmutable m => (AccessDenied, m)
    | RMemberAlreadyPresent => (AlreadyExists, lit "member already in group")
    | RMemberNotPresent => (NotFound, lit "member not in group")
    | RStorageError m => (InternalError, m)
    end in
  DomainError.new k (lit "SubjectGroup") msg.
Definition group_error (k : ErrorKind) (msg : str) : DomainError := DomainError.new k (lit "SubjectGroup") msg.

Definition is_ascii_alphanumeric (b : byte) : bool :=
  ((48 <=? b) && (b <=? 57) || (65 <=? b) && (b <=? 90) || (97 <=? b) && (b <=? 122))%Z.
Definition name_byte (b : byte) : bool :=
  is_ascii_alphanumeric b || bool_decide (b ∈ lit ".-_").
(** The continuation bytes of a UTF-8 character. *)
Fixpoint continuation (l : str) : str :=
  match l with b :: rest => if (128 <=? b)%Z && (b <? 192)%Z then b :: continuation rest else [] | [] => [] end.
(** The first character that is not allowed, as its bytes. *)
Fixpoint first_bad (l : str) : option str :=
  match l with
  | [] => None
  | b :: rest => if name_byte b then first_bad rest else Some (b :: continuation rest)
  end.
Section entity.
Context (debug_char : str -> str).
Definition validate_name (name : str) : result SubjectGroupError unit :=
  match name with
  | [] => Err (SgInvalidName (lit "empty"))
  | first :: chars =>
      if (MAX_NAME_LEN <? length name)%nat then Err (SgInvalidName (lit "exceeds 64 chars"))
      else if negb (is_ascii_alphanumeric first)
      then Err (SgInvalidName (lit "must start with letter or digit: " ++ name))
      else match first_bad chars with
           | Some c => Err (SgInvalidName (lit "invalid character " ++ debug_char c ++ lit " in " ++ name))
           | None => Ok tt
           end
  end.
(** [SubjectGroup::new] with the identifier and the instant it draws. *)
Definition SubjectGroup_new (fresh : Uuid) (now : Z) (name : str) (description : option str)
  : result SubjectGroupError SubjectGroup :=
  _ ← validate_name name;
  Ok (mkSubjectGroup fresh name description false now now).
End entity.
(** The check of the table: a letter or digit, then at most 63 of the allowed characters. *)
Definition name_check (name : str) : bool :=
  match name with
  | [] => false
  | first :: rest => is_ascii_alphanumeric first && forallb name_byte rest && (length rest <=? 63)%nat
  end.

(** ** The queries on the membership table *)
Definition child_groups (db : Db) (s : gset Uuid) : gset Uuid :=
  list_to_set (omap (fun row => match snd row with
                                | MemberGroup c => if decide (fst row ∈ s) then Some c else None
                                | MemberUser _ => None
                                end) (group_members db)).
Definition add_children (db : Db) (s : gset Uuid) : gset Uuid := s ∪ child_groups db s.
(** [WITH RECURSIVE descendants .. UNION ..] from [s]; a productive round adds a member group, so
    as many rounds as there are rows are enough. *)
Definition descendants (db : Db) (s : gset Uuid) : gset Uuid :=
  Nat.iter (length (group_members db)) (add_children db) s.
Definition sql_transitive_users (db : Db) (group_id : Uuid) : gset Uuid :=
  let ds := descendants db {[ group_id ]} in
  list_to_set (omap (fun row => match snd row with
                                | MemberUser u => if decide (fst row ∈ ds) then Some u else None
                                | MemberGroup _ => None
                                end) (group_members db)).
Definition sql_cycle (db : Db) (group_id member_group_id : Uuid) : bool :=
  bool_decide (group_id ∈ descendants db (child_groups db {[ member_group_id ]})).
(** [WITH RECURSIVE path .. UNION ALL ..]: the rounds until one has no rows, which is the largest
    depth.  On a cyclic table there is no such round; [None] stands for the query that does not
    end. *)
Fixpoint path_depth (fuel : nat) (db : Db) (frontier : gset Uuid) (depth : Z) : option Z :=
  if decide (frontier = ∅) then Some depth
  else match fuel with
       | O => None
       | S fuel' => path_depth fuel' db (child_groups db frontier) (depth + 1)
       end.
Definition sql_depth (db : Db) (group_id member_group_id : Uuid) : option Z :=
  path_depth (S (S (length (group_members db)))) db
    (child_groups db {[ group_id ]} ∪ {[ member_group_id ]}) 0.

Definition with_members (db : Db) (ms : list (Uuid * GroupMember)) : Db :=
  mkDb (role_grants db) (folders db) (files db) (users_external db) ms (drives db) (policy_defaults db).
(** The live owner rows of drives, and the drives on which the group has the only one. *)
Definition live_owner_rows (db : Db) (now : Z) : list Grant :=
  filter (fun g => match g_resource g with Drive _ => true | _ => false end
                   && bool_decide (g_role g = Owner) && live now g = true) (role_grants db).
Definition sole_owner_drives (db : Db) (now : Z) (group_id : Uuid) : list Uuid :=
  let group_owned := Resource.id ∘ g_resource <$>
    filter (fun g => g_subject g = Group group_id) (live_owner_rows db now) in
  filter (fun d => length (filter (fun g => Resource.id (g_resource g) = d) (live_owner_rows db now)) = 1%nat)
    group_owned.

Section service.
Context {Cache : forall (K : Type) {E : EqDecision K} {C : @Countable K E}, Type -> Type}.
#[local] Arguments Cache _ {_ _} _.
Context `{!Moka (@Cache)} `{UuidText}.
Context (debug_char pg_message : str -> str).
Local Abbreviation Engine := (Engine (Cache:=@Cache)).

Record Groups := mkGroups { subject_groups : gmap Uuid SubjectGroup; engine : Engine }.
Definition RM (T : Type) : Type := M Groups SubjectGroupRepositoryError T.
Definition GM (T : Type) : Type := M Groups DomainError T.
Definition db_of (g : Groups) : Db := w_db (world (engine g)).
Definition set_engine (g : Groups) (e : Engine) : Groups := mkGroups (subject_groups g) e.
Definition set_group_rows (g : Groups) (rows : gmap Uuid SubjectGroup) : Groups := mkGroups rows (engine g).
Definition set_members (g : Groups) (ms : list (Uuid * GroupMember)) : Groups :=
  set_engine g (set_db (engine g) (with_members (db_of g) ms)).

(** One statement: it answers from the tables, or fails with the driver's text. *)
Definition statement {E T} (on_error : str -> E) (q : Groups -> T) : M Groups E T := fun g =>
  match faults (engine g) with
  | Some txt :: fs => (Err (on_error txt), set_engine g (set_faults (engine g) fs))
  | None :: fs => (Ok (q g), set_engine g (set_faults (engine g) fs))
  | [] => (Ok (q g), g)
  end.
Definition storage_error (context txt : str) : SubjectGroupRepositoryError :=
  RStorageError (context ++ lit ": " ++ txt).

(** ** The repository *)
Definition name_taken (rows : gmap Uuid SubjectGroup) (id : Uuid) (name : str) : bool :=
  existsb (fun row => bool_decide (fst row ≠ id) && eq_ignore_ascii_case (sg_name (snd row)) name)
    (map_to_list rows).
(** The constraints of the table on a row with this identifier and name. *)
Definition name_constraints (rows : gmap Uuid SubjectGroup) (id : Uuid) (name : str)
  : result SubjectGroupRepositoryError unit :=
  if negb (name_check name) then Err (RInvalidName (pg_message (lit "subject_groups_name_rfc5321")))
  else if name_taken rows id name then Err (RNameAlreadyExists (pg_message (lit "subject_groups_name_uq")))
  else Ok tt.
Definition repo_create (group : SubjectGroup) : RM SubjectGroup :=
  ok ← statement (storage_error (lit "create subject_group"))
         (fun g => if decide (is_Some (subject_groups g !! sg_id group))
                   then Err (RNameAlreadyExists (pg_message (lit "subject_groups_pkey")))
                   else name_constraints (subject_groups g) (sg_id group) (sg_name group));
  _ ← lift ok;
  let row := mkSubjectGroup (sg_id group) (sg_name group) (sg_description group) false
               (created_at group) (updated_at group) in
  _ ← modify (fun g => set_group_rows g (<[sg_id group := row]> (subject_groups g)));
  mret row.
Definition repo_get_by_id (id : Uuid) : RM (option SubjectGroup) :=
  statement (storage_error (lit "get_by_id")) (fun g => subject_groups g !! id).
Definition repo_rename (id : Uuid) (new_name : str) : RM SubjectGroup :=
  ok ← statement (storage_error (lit "rename"))
         (fun g => match subject_groups g !! id with
                   | Some row =>
                       _ ← name_constraints (subject_groups g) id new_name;
                       Ok (mkSubjectGroup (sg_id row) new_name (sg_description row) (is_virtual row)
                             (created_at row) (now (engine g)))
                   | None => Err (RNotFound (uuid_to_string id))
                   end);
  row ← lift ok;
  _ ← modify (fun g => set_group_rows g (<[id := row]> (subject_groups g)));
  mret row.

(** [add_member] up to the insertion: the lock of the parent and the checks. *)
Definition repo_add_checks (group_id : Uuid) (member : GroupMember) : RM unit :=
  _ ← statement (storage_error (lit "add_member: begin tx")) (fun _ => tt);
  exists_ ← statement (storage_error (lit "add_member: lock parent"))
              (fun g => bool_decide (is_Some (subject_groups g !! group_id)));
  if negb exists_ then raise (RNotFound (uuid_to_string group_id))
  else
    match member with
    | MemberUser _ => mret tt
    | MemberGroup member_group_id =>
        if decide (member_group_id = group_id) then raise (RCycle (lit "group cannot contain itself"))
        else
          cycle ← statement (storage_error (lit "add_member: cycle check"))
                    (fun g => sql_cycle (db_of g) group_id member_group_id);
          if cycle : bool then
            raise (RCycle (uuid_to_string group_id ++ lit " → " ++ uuid_to_string member_group_id))
          else
            depth ← statement (storage_error (lit "add_member: depth check"))
                      (fun g => sql_depth (db_of g) group_id member_group_id);
            match depth with
            | None => raise (storage_error (lit "add_member: depth check") (lit "the query does not end"))
            | Some max_depth =>
                if (MAX_GROUP_DEPTH <? max_depth mod 256)%Z then
                  raise (RDepthExceeded (lit "would reach depth " ++ dec max_depth ++ lit " (max "
                                           ++ dec MAX_GROUP_DEPTH ++ lit ")"))
                else mret tt
            end
    end.
(** Whether the rows an inserted membership refers to exist. *)
Definition member_refs (g : Groups) (group_id : Uuid) (member : GroupMember) (added_by : Uuid) : bool :=
  bool_decide (is_Some (subject_groups g !! group_id))
  && match member with
     | MemberUser u => bool_decide (is_Some (users_external (db_of g) !! u))
     | MemberGroup c => bool_decide (is_Some (subject_groups g !! c))
     end
  && bool_decide (is_Some (users_external (db_of g) !! added_by)).
Definition repo_add_insert (group_id : Uuid) (member : GroupMember) (added_by : Uuid) : RM unit :=
  let context := match member with
                 | MemberUser _ => lit "add_member: insert user"
                 | MemberGroup _ => lit "add_member: insert group"
                 end in
  inserted ← statement (storage_error context)
    (fun g => if decide ((group_id, member) ∈ group_members (db_of g)) then Err RMemberAlreadyPresent
              else if member_refs g group_id member added_by then Ok tt
              else Err (storage_error context (pg_message (lit "subject_group_members_fkey"))));
  _ ← lift inserted;
  _ ← statement (storage_error (lit "add_member: commit")) (fun _ => tt);
  modify (fun g => set_members g (group_members (db_of g) ++ [(group_id, member)])).
Definition repo_add_member (group_id : Uuid) (member : GroupMember) (added_by : Uuid) : RM unit :=
  _ ← repo_add_checks group_id member; repo_add_insert group_id member added_by.
Definition repo_remove_member (group_id : Uuid) (member : GroupMember) : RM unit :=
  present ← statement (storage_error (lit "remove_member"))
              (fun g => bool_decide ((group_id, member) ∈ group_members (db_of g)));
  _ ← modify (fun g => if present : bool
                       then set_members g (filter (fun row => row ≠ (group_id, member)) (group_members (db_of g)))
                       else g);
  if present : bool then mret tt else raise RMemberNotPresent.
Definition repo_list_transitive_users (group_id : Uuid) : RM (list Uuid) :=
  statement (storage_error (lit "list_transitive_users"))
    (fun g => elements (sql_transitive_users (db_of g) group_id)).

(** ** The service *)
Definition repo {T} (m : RM T) : GM T := map_err_m map_repo_err m.
Definition invalidate_users (uids : list Uuid) : GM unit :=
  modify (fun g => set_engine g (foldl (fun e u => invalidate_user_groups_cache u e) (engine g) uids)).
Definition invalidation_targets (member : GroupMember) : GM (list Uuid) :=
  match member with
  | MemberUser uid => mret [uid]
  | MemberGroup child_id => repo (repo_list_transitive_users child_id)
  end.
Definition create (fresh : Uuid) (name : str) (description : option str) : GM SubjectGroup :=
  t ← gets (fun g => now (engine g));
  group ← lift (map_err map_entity_err (SubjectGroup_new debug_char fresh t name description));
  repo (repo_create group).
Definition get_by_id (id : Uuid) : GM SubjectGroup :=
  row ← repo (repo_get_by_id id);
  lift (ok_or row (group_error NotFound (lit "group " ++ uuid_to_string id ++ lit " not found"))).
Definition refuse_virtual (existing : SubjectGroup) : GM unit :=
  if is_virtual existing then raise (group_error AccessDenied (lit "virtual groups cannot be modified"))
  else mret tt.
Definition rename (id : Uuid) (new_name : str) : GM SubjectGroup :=
  existing ← get_by_id id;
  _ ← refuse_virtual existing;
  _ ← lift (map_err map_entity_err (validate_name debug_char new_name));
  repo (repo_rename id new_name).
(** The rows the transaction of [delete] removes, the cascades of the foreign keys included. *)
Definition without_group (id : Uuid) (g : Groups) : Groups :=
  let db := db_of g in
  let db := with_grants db (filter (fun gr => g_subject gr ≠ Group id) (role_grants db)) in
  let db := with_members db (filter (fun row => fst row ≠ id ∧ snd row ≠ MemberGroup id) (group_members db)) in
  mkGroups (base.delete id (subject_groups g)) (set_db (engine g) db).
Definition delete (id : Uuid) : GM unit :=
  existing ← get_by_id id;
  _ ← refuse_virtual existing;
  orphaning ← statement (fun txt => group_error InternalError (lit "sole-owner check: " ++ txt))
                (fun g => head (sole_owner_drives (db_of g) (now (engine g)) id));
  match orphaning with
  | Some _ => raise (group_error Conflict
      (lit "Group is the sole Owner of at least one shared drive — promote another Owner first or delete the drive."))
  | None =>
      _ ← statement (fun txt => group_error InternalError (lit "begin tx: " ++ txt)) (fun _ => tt);
      _ ← statement (fun txt => group_error InternalError (lit "cascade-delete grants: " ++ txt)) (fun _ => tt);
      removed ← statement (fun txt => group_error InternalError (lit "delete group: " ++ txt))
                  (fun g => bool_decide (is_Some (subject_groups g !! id)));
      if negb removed then raise (group_error NotFound (lit "group " ++ uuid_to_string id ++ lit " not found"))
      else
        _ ← statement (fun txt => group_error InternalError (lit "commit: " ++ txt)) (fun _ => tt);
        modify (without_group id)
  end.
Definition refuse_internal (group_id : Uuid) : GM unit :=
  if decide (group_id = INTERNAL_GROUP_ID)
  then raise (group_error AccessDenied (lit "Internal group membership is implicit and cannot be edited"))
  else mret tt.
Definition refuse_external_member (member : GroupMember) : GM unit :=
  match member with
  | MemberUser uid =>
      user ← statement (fun txt => DomainError.internal_error (lit "Database") (lit "Database error: " ++ txt))
               (fun g => users_external (db_of g) !! uid);
      match user with
      | Some true => raise (group_error AccessDenied
          (lit "External users cannot be members of subject groups; share resources with them directly"))
      | Some false => mret tt
      | None => raise (group_error NotFound (lit "user " ++ uuid_to_string uid ++ lit " not found"))
      end
  | MemberGroup _ => mret tt
  end.
Definition add_member (group_id : Uuid) (member : GroupMember) (caller_id : Uuid) : GM unit :=
  _ ← refuse_internal group_id;
  _ ← refuse_external_member member;
  _ ← repo (repo_add_member group_id member caller_id);
  uids ← invalidation_targets member;
  invalidate_users uids.
Definition would_be_empty (member : GroupMember) (users_before child_users : list Uuid) : bool :=
  match member with
  | MemberUser uid => bool_decide (length users_before = 1%nat) && bool_decide (uid ∈ users_before)
  | MemberGroup _ =>
      bool_decide (child_users ≠ []) && forallb (fun u => bool_decide (u ∈ child_users)) users_before
  end.
Definition remove_member (group_id : Uuid) (member : GroupMember) : GM unit :=
  _ ← refuse_internal group_id;
  child_users ← match member with
                | MemberGroup child_id => repo (repo_list_transitive_users child_id)
                | MemberUser _ => mret []
                end;
  users_before ← repo (repo_list_transitive_users group_id);
  if bool_decide (users_before ≠ []) && would_be_empty member users_before child_users
  then raise (group_error InvalidInput
         (lit "A group cannot have less than 1 user once seeded. Add another user before removing this one."))
  else
    _ ← repo (repo_remove_member group_id member);
    invalidate_users (match member with MemberUser uid => [uid] | MemberGroup _ => child_users end).
End service.
