(* ===== verification/GroupFacts.v ===== *)
(** * What the membership queries compute

    The recursive queries of [SubjectGroups] on the relation "has as a nested group": the
    descendants are its closure, the transitive users are the users of [member_of], the cycle
    query decides whether a new edge would close a cycle, and on an acyclic table the depth query
    ends and bounds every chain below the parent.  Then what adding and removing one row does to
    membership. *)

From stdpp Require Import relations.
From S2P Require Import Prelude.
From S2P Require Import DomainErrors.
From S2P Require Import AclDb.
From S2P Require Import SubjectGroups.

Definition nested (db : Db) (g c : Uuid) : Prop := (g, MemberGroup c) ∈ group_members db.
Definition acyclic (db : Db) : Prop := forall g, ¬ tc (nested db) g g.

Lemma length_omap_le {A B} (f : A -> option B) (l : list A) : (length (omap f l) <= length l)%nat.
Proof. induction l as [|x l IH]; csimpl; [lia|]. destruct (f x); csimpl; lia. Qed.
Lemma elem_of_child_groups db s c : c ∈ child_groups db s <-> exists g, g ∈ s ∧ nested db g c.
Proof.
  unfold child_groups, nested. rewrite elem_of_list_to_set, list_elem_of_omap. split.
  - intros ([g m] & Hin & Hm). destruct m as [|c']; [done|]. simpl in Hm.
    case_decide; simplify_eq. eauto.
  - intros (g & Hg & Hin). exists (g, MemberGroup c). split; [done|]. simpl. by rewrite decide_True.
Qed.
Lemma descendants_closed db s : child_groups db (descendants db s) ⊆ descendants db s.
Proof.
  set (N := list_to_set (omap (fun row => match snd row with MemberGroup c => Some c | _ => None end)
                           (group_members db)) : gset Uuid).
  assert (HN : forall g c, nested db g c -> c ∈ N).
  { intros g c Hin. apply elem_of_list_to_set, list_elem_of_omap. by exists (g, MemberGroup c). }
  assert (Hf : add_children db (descendants db s) ⊆ descendants db s).
  { unfold descendants. apply (iter_stabilises _ (s ∪ N)).
    - unfold add_children. set_solver.
    - intros t Ht c. unfold add_children. rewrite elem_of_union, elem_of_child_groups.
      intros [?|(g & _ & Hn)]; [set_solver|]. apply elem_of_union. right. by eapply HN.
    - set_solver.
    - rewrite size_union_alt. pose proof (subseteq_size (N ∖ s) N ltac:(set_solver)).
      assert (size N <= length (group_members db))%nat; [|lia].
      unfold N. etrans; [apply size_list_to_set_le|]. apply length_omap_le. }
  unfold add_children in Hf. set_solver.
Qed.
Lemma descendants_spec db s c : c ∈ descendants db s <-> exists g, g ∈ s ∧ rtc (nested db) g c.
Proof.
  split.
  - unfold descendants. revert c. induction (length (group_members db)) as [|n IH]; intros c; simpl.
    + intros Hc. by exists c.
    + unfold add_children at 1. rewrite elem_of_union, elem_of_child_groups.
      intros [Hc|(g & Hg & Hn)]; [by apply IH|]. destruct (IH g Hg) as (g0 & ? & ?).
      exists g0. split; [done|]. by eapply rtc_r.
  - intros (g & Hg & Hr). assert (Hs : g ∈ descendants db s).
    { clear Hr. unfold descendants. induction (length (group_members db)); [done|].
      simpl. unfold add_children. set_solver. }
    clear Hg. induction Hr as [|g y c Hn _ IH]; [done|]. apply IH, descendants_closed, elem_of_child_groups.
    eauto.
Qed.

Lemma member_of_rtc db u g :
  member_of db u g <-> exists g', rtc (nested db) g g' ∧ (g', MemberUser u) ∈ group_members db.
Proof.
  split.
  - induction 1 as [g Hin|g g' Hin _ (g2 & Hr & Hu)]; [by exists g|].
    exists g2. split; [|done]. by eapply rtc_l.
  - intros (g' & Hr & Hu). induction Hr as [|g y g' Hn _ IH]; [by constructor|].
    econstructor 2; [exact Hn|by apply IH].
Qed.
Lemma transitive_users_spec db g u : u ∈ sql_transitive_users db g <-> member_of db u g.
Proof.
  unfold sql_transitive_users. rewrite elem_of_list_to_set, list_elem_of_omap, member_of_rtc. split.
  - intros ([g' m] & Hin & Hm). destruct m as [u'|]; [|done]. simpl in Hm. case_decide as Hd; simplify_eq.
    apply descendants_spec in Hd as (g0 & ->%elem_of_singleton & Hr). eauto.
  - intros (g' & Hr & Hu). exists (g', MemberUser u). split; [done|]. simpl.
    rewrite decide_True; [done|]. apply descendants_spec. exists g. set_solver.
Qed.
Lemma sql_cycle_spec db g c : sql_cycle db g c = true <-> tc (nested db) c g.
Proof.
  unfold sql_cycle. rewrite bool_decide_eq_true, descendants_spec. split.
  - intros (x & Hx & Hr). apply elem_of_child_groups in Hx as (y & ->%elem_of_singleton & Hn).
    by eapply tc_rtc_r; [apply tc_once|].
  - intros Ht. assert (exists y, nested db c y ∧ rtc (nested db) y g) as (y & Hn & Hr).
    { destruct Ht as [x y Hn|x y z Hn Ht]; [by exists y|]. exists y. split; [done|by apply tc_rtc]. }
    exists y. split; [|done]. apply elem_of_child_groups. exists c. set_solver.
Qed.

(** ** The depth query *)
Definition rank (db : Db) (g : Uuid) : nat := size (descendants db (child_groups db {[ g ]})).
Lemma elem_of_rank db g c : c ∈ descendants db (child_groups db {[ g ]}) <-> tc (nested db) g c.
Proof. rewrite <- sql_cycle_spec. unfold sql_cycle. by rewrite bool_decide_eq_true. Qed.
Lemma rank_bound db g : (rank db g <= length (group_members db))%nat.
Proof.
  unfold rank. set (N := omap (fun row => match snd row with MemberGroup c => Some c | _ => None end)
                           (group_members db)).
  assert (Hs : descendants db (child_groups db {[ g ]}) ⊆ (list_to_set N : gset Uuid)).
  { intros c Hc%elem_of_rank. apply elem_of_list_to_set, list_elem_of_omap.
    assert (exists x, nested db x c) as [x Hx]; [|by exists (x, MemberGroup c)].
    induction Hc as [|x y z ? ? IH]; eauto. }
  apply subseteq_size in Hs. pose proof (size_list_to_set_le N).
  pose proof (length_omap_le (fun row => match snd row with MemberGroup c => Some c | _ => None end)
    (group_members db)) as Hl. fold N in Hl. lia.
Qed.
Lemma rank_decreases db g c : acyclic db -> nested db g c -> (rank db c < rank db g)%nat.
Proof.
  intros Ha Hn. apply subset_size. split.
  - intros x. rewrite !elem_of_rank. intros Ht. by eapply tc_l.
  - intros Hs. apply (Ha c), elem_of_rank, Hs, elem_of_rank. by apply tc_once.
Qed.
Lemma path_depth_total db : acyclic db -> forall fuel s d,
  (forall x, x ∈ s -> rank db x < fuel)%nat -> is_Some (path_depth fuel db s d).
Proof.
  intros Ha. induction fuel as [|fuel IH]; intros s d Hs; simpl; case_decide as He; try eauto.
  - apply set_choose_L in He as [x Hx]. apply Hs in Hx. lia.
  - apply IH. intros c (g & Hg & Hn)%elem_of_child_groups.
    pose proof (rank_decreases db g c Ha Hn). specialize (Hs g Hg). lia.
Qed.
Lemma path_depth_bounds db : forall fuel s d k, path_depth fuel db s d = Some k ->
  (d <= k)%Z ∧ (k <= d + Z.of_nat fuel)%Z
  ∧ forall x n y, x ∈ s -> nsteps (nested db) n x y -> (d + Z.of_nat n + 1 <= k)%Z.
Proof.
  induction fuel as [|fuel IH]; intros s d k; cbn [path_depth]; case_decide as He; intros Hk; simplify_eq.
  1,2: split_and!; [lia|lia|]; intros x n y Hx; set_solver.
  destruct (IH _ _ _ Hk) as (H1 & H2 & H3). split_and!; [lia|lia|]. intros x n y Hx Hn.
  destruct Hn as [x|n x x' y Hx' Hn].
  - lia.
  - specialize (H3 x' n y). rewrite elem_of_child_groups in H3.
    assert (d + 1 + Z.of_nat n + 1 <= k)%Z; [|lia]. apply H3; eauto.
Qed.
Lemma sql_depth_total db g c : acyclic db -> exists k, sql_depth db g c = Some k.
Proof.
  intros Ha. apply (path_depth_total db Ha). intros x _. pose proof (rank_bound db x). lia.
Qed.

(** ** One row more, one row less *)
Definition added (db : Db) (g : Uuid) (m : GroupMember) : Db := with_members db (group_members db ++ [(g, m)]).
Definition removed (db : Db) (g : Uuid) (m : GroupMember) : Db :=
  with_members db (filter (fun row => row ≠ (g, m)) (group_members db)).
Lemma nested_added db g m x y : nested (added db g m) x y <-> nested db x y ∨ (x = g ∧ m = MemberGroup y).
Proof.
  unfold nested, added. simpl. rewrite elem_of_app, list_elem_of_singleton. split.
  - intros [?|[= -> ->]]; auto.
  - intros [?|[-> ->]]; auto.
Qed.
Lemma row_removed db g m row : row ∈ group_members (removed db g m) <-> row ∈ group_members db ∧ row ≠ (g, m).
Proof. unfold removed. simpl. rewrite list_elem_of_filter. tauto. Qed.
Lemma acyclic_fewer db db' : (forall x y, nested db' x y -> nested db x y) -> acyclic db -> acyclic db'.
Proof.
  intros Hs Ha g Ht. apply (Ha g). revert Ht. generalize g at 2 4 as y. intros y Ht.
  induction Ht; [by apply tc_once, Hs|]. by eapply tc_l; [apply Hs|].
Qed.
(** A walk in the larger table that starts below no new edge stays in the smaller one. *)
Lemma rtc_added db g c x y :
  ¬ rtc (nested db) x g -> rtc (nested (added db g (MemberGroup c))) x y -> rtc (nested db) x y.
Proof.
  intros Hno Hr. induction Hr as [x|x z y Hn _ IH]; [done|].
  apply nested_added in Hn as [Hn|[-> [= ->]]]; [|by destruct Hno].
  eapply rtc_l; [done|]. apply IH. intros Hz. apply Hno. by eapply rtc_l.
Qed.
Lemma acyclic_added_user db g u : acyclic db -> acyclic (added db g (MemberUser u)).
Proof. apply acyclic_fewer. intros x y. rewrite nested_added. by intros [?|[_ ?]]. Qed.
Lemma acyclic_added_group db g c :
  acyclic db -> c ≠ g -> ¬ tc (nested db) c g -> acyclic (added db g (MemberGroup c)).
Proof.
  intros Ha Hne Hno x Ht.
  assert (Hcg : ¬ rtc (nested db) c g) by (rewrite rtc_tc; tauto).
  assert (Hgen : forall x y, tc (nested (added db g (MemberGroup c))) x y ->
    tc (nested db) x y ∨ (rtc (nested db) x g ∧ rtc (nested db) c y)).
  { clear x Ht. intros x y Ht. induction Ht as [x y Hn|x z y Hn _ IH];
      apply nested_added in Hn as [Hn|[-> [= <-]]].
    - left. by apply tc_once.
    - right. split; constructor.
    - destruct IH as [IH|[Hz Hy]]; [left; by eapply tc_l|right; split; [by eapply rtc_l|done]].
    - right. split; [constructor|]. destruct IH as [IH|[Hz Hy]]; [by apply tc_rtc|done]. }
  destruct (Hgen x x Ht) as [Hx|[Hx Hy]]; [by apply (Ha x)|]. apply Hcg. by etrans.
Qed.

(** ** Whose memberships a row changes *)
Definition affected (db : Db) (m : GroupMember) (v : Uuid) : Prop :=
  match m with MemberUser u => v = u | MemberGroup c => member_of db v c end.
Lemma member_of_mono db db' v x :
  (forall row, row ∈ group_members db -> row ∈ group_members db') -> member_of db v x -> member_of db' v x.
Proof. intros Hs. induction 1; [constructor; eauto|econstructor 2; eauto]. Qed.
Lemma member_added db g m v x : member_of db v x -> member_of (added db g m) v x.
Proof. apply member_of_mono. intros row. unfold added. simpl. rewrite elem_of_app. auto. Qed.
Lemma member_removed db g m v x : member_of (removed db g m) v x -> member_of db v x.
Proof. apply member_of_mono. intros row. rewrite row_removed. tauto. Qed.
Lemma member_unaffected_added db g m v x :
  ¬ affected (added db g m) m v -> member_of (added db g m) v x <-> member_of db v x.
Proof.
  intros Hno. split; [|apply member_added]. induction 1 as [x Hin|x y Hin Hy IH];
    unfold added in Hin; simpl in Hin; rewrite elem_of_app, list_elem_of_singleton in Hin.
  - destruct Hin as [Hin|[= -> <-]]; [by constructor|]. by destruct Hno.
  - destruct Hin as [Hin|[= -> <-]]; [by econstructor 2|]. by destruct Hno.
Qed.
Lemma member_unaffected_removed db g m v x :
  ¬ affected db m v -> member_of (removed db g m) v x <-> member_of db v x.
Proof.
  intros Hno. split; [apply member_removed|]. induction 1 as [x Hin|x y Hin Hy IH].
  - constructor. apply row_removed. split; [done|]. intros [= -> <-]. by destruct Hno.
  - econstructor 2; [|exact IH]. apply row_removed. split; [done|]. intros [= -> <-]. by destruct Hno.
Qed.
(** Without the row, a membership is kept or went through the group of the row. *)
Lemma member_kept_or_through db g m v w x :
  member_of db v x -> member_of (removed db g m) w g ->
  member_of (removed db g m) v x ∨ member_of (removed db g m) w x.
Proof.
  intros Hv Hw. induction Hv as [x Hin|x y Hin _ IH].
  - destruct (decide ((x, MemberUser v) = (g, m))) as [[= -> <-]|Hne]; [by right|].
    left. constructor. by apply row_removed.
  - destruct (decide ((x, MemberGroup y) = (g, m))) as [[= -> <-]|Hne]; [by right|].
    assert (Hrow : (x, MemberGroup y) ∈ group_members (removed db g m)) by by apply row_removed.
    destruct IH as [IH|IH]; [left|right]; by econstructor 2.
Qed.
Lemma member_kept db g m v x :
  member_of db v x -> ¬ member_of db v g -> member_of (removed db g m) v x.
Proof.
  intros Hv Hno. induction Hv as [x Hin|x y Hin Hy IH].
  - constructor. apply row_removed. split; [done|]. intros [= -> <-]. apply Hno. by constructor.
  - econstructor 2; [|by apply IH]. apply row_removed. split; [done|]. intros [= -> <-].
    apply Hno. by econstructor 2.
Qed.
Lemma groups_for_user_ext db db' v :
  (forall x, member_of db' v x <-> member_of db v x) -> groups_for_user db' v = groups_for_user db v.
Proof. intros Hx. apply set_eq. intros x. by rewrite !groups_for_user_spec. Qed.

Lemma forallb_false {A} (f : A -> bool) l : forallb f l = false -> exists x, x ∈ l ∧ f x = false.
Proof.
  induction l as [|y l IH]; simpl; [done|]. rewrite andb_false_iff. intros [Hy|Hl].
  - exists y. split; [by left|done].
  - destruct (IH Hl) as (x & ? & ?). exists x. split; [by right|done].
Qed.
(** The guard of [remove_member] keeps every group that has users. *)
Lemma guarded_removal_keeps_users db g m :
  (sql_transitive_users db g = ∅
   ∨ would_be_empty m (elements (sql_transitive_users db g))
       (match m with MemberGroup c => elements (sql_transitive_users db c) | MemberUser _ => [] end) = false) ->
  forall x, (exists v, member_of db v x) -> exists v, member_of (removed db g m) v x.
Proof.
  intros Hguard x [v Hv]. destruct Hguard as [Hempty|Hguard].
  { exists v. apply member_kept; [done|]. rewrite <- transitive_users_spec, Hempty. set_solver. }
  destruct (decide (v ∈ sql_transitive_users db g)) as [Hvg|Hvg].
  2: { exists v. apply member_kept; [done|]. by rewrite <- transitive_users_spec. }
  assert (exists w, member_of db w g ∧ ¬ affected db m w) as (w & Hw & Hna).
  { destruct m as [u|c]; simpl in Hguard; apply andb_false_iff in Hguard.
    - assert (exists w, w ∈ sql_transitive_users db g ∧ w ≠ u) as (w & Hw & Hne).
      { destruct (decide (v = u)) as [->|]; [|eauto]. destruct Hguard as [Hl|Hl]; apply bool_decide_eq_false in Hl.
        - destruct (decide (sql_transitive_users db g ∖ {[ u ]} = ∅)) as [Hno|[w Hw]%set_choose_L].
          + destruct Hl. assert (Hs : sql_transitive_users db g = {[ u ]}).
            { apply set_eq. intros w. destruct (decide (w = u)); set_solver. }
            by rewrite Hs, elements_singleton.
          + exists w. set_solver.
        - destruct Hl. by apply elem_of_elements. }
      exists w. by rewrite <- transitive_users_spec.
    - destruct Hguard as [Hl|Hl].
      + apply bool_decide_eq_false, dec_stable, elements_empty_inv in Hl.
        exists v. rewrite <- transitive_users_spec. split; [done|].
        simpl. rewrite <- transitive_users_spec. set_solver.
      + apply forallb_false in Hl as (w & Hw & Hc). apply bool_decide_eq_false in Hc.
        rewrite elem_of_elements in Hw, Hc. exists w. simpl. by rewrite <- !transitive_users_spec. }
  assert (Hwg : member_of (removed db g m) w g) by by apply member_unaffected_removed.
  destruct (member_kept_or_through db g m v w x Hv Hwg); eauto.
Qed.

(** ** Chains below a new edge *)
Lemma nsteps_added db g c : forall n x y,
  ¬ rtc (nested db) x g -> nsteps (nested (added db g (MemberGroup c))) n x y -> nsteps (nested db) n x y.
Proof.
  induction n as [|n IH]; intros x y Hno Hn; inversion Hn as [|? ? z ? Hx Hz]; subst; [constructor|].
  apply nested_added in Hx as [Hx|[-> _]]; [|by destruct Hno]. econstructor; [exact Hx|].
  apply IH; [|done]. intros Hr. apply Hno. by eapply rtc_l.
Qed.
Lemma chain_below db g c k :
  acyclic db -> c ≠ g -> ¬ tc (nested db) c g -> sql_depth db g c = Some k ->
  forall n, (exists y, nsteps (nested (added db g (MemberGroup c))) n g y) -> (Z.of_nat n <= k)%Z.
Proof.
  intros Ha Hne Hno Hk n [y Hn]. destruct (path_depth_bounds _ _ _ _ _ Hk) as (H1 & _ & H3).
  inversion Hn as [|n' ? z ? Hz Hy]; subst; [lia|].
  assert (¬ rtc (nested db) z g ∧ z ∈ child_groups db {[ g ]} ∪ {[ c ]}) as [Hback Hin].
  { apply nested_added in Hz as [Hz|[_ [= <-]]].
    - split; [|apply elem_of_union; left; apply elem_of_child_groups; set_solver].
      intros Hr. apply (Ha g). by eapply tc_rtc_r; [apply tc_once|].
    - split; [|set_solver]. rewrite rtc_tc. tauto. }
  apply nsteps_added in Hy; [|done]. specialize (H3 z n' y Hin Hy). lia.
Qed.
