(* ===== verification/GroupTheorems.v ===== *)
(** * What the group operations promise

    Nesting stays acyclic, membership changes reach the engine's cache of memberships, a group
    that has users keeps some, and a deletion leaves every drive with an owner; and the runs in
    which the depth limit, the lock against concurrent additions and the rule against empty
    groups do not hold. *)

From stdpp Require Import relations.
From S2P Require Import Prelude.
From S2P Require Import RustStr.
From S2P Require Import DomainErrors.
From S2P Require Import Authorization.
From S2P Require Import DrivePolicies.
From S2P Require Import Moka.
From S2P Require Import AclDb.
From S2P Require Import AuthzPort.
From S2P Require Import AclEngine.
From S2P Require Import AclSpec.
From S2P Require Import DriveMembers.
From S2P Require Import SubjectGroups.
From S2P Require Import GroupFacts.

Section proofs.
Context {Cache : forall (K : Type) {E : EqDecision K} {C : @Countable K E}, Type -> Type}.
#[local] Arguments Cache _ {_ _} _.
Context `{!Moka (@Cache)} `{UuidText}.
Context (debug_char pg_message : str -> str).
Local Abbreviation Engine := (Engine (Cache:=@Cache)).
Local Abbreviation Groups := (Groups (Cache:=@Cache)).
Implicit Types (g : Groups) (m : GroupMember).

(** ** Runs *)
(** The two states differ in the fault script alone. *)
Definition quiet g g' : Prop := exists fs, g' = set_engine g (set_faults (engine g) fs).
Definition healthy g : Prop := no_faults (faults (engine g)).
#[local] Instance quiet_refl : Reflexive quiet.
Proof. intros [rows []]. by eexists. Qed.
#[local] Instance quiet_trans : Transitive quiet.
Proof. intros g1 g2 g3 [fs ->] [fs' ->]. by exists fs'. Qed.
Lemma quiet_db g g' : quiet g g' -> db_of g' = db_of g.
Proof. by intros [fs ->]. Qed.
Lemma quiet_rows g g' : quiet g g' -> subject_groups g' = subject_groups g.
Proof. by intros [fs ->]. Qed.
Lemma quiet_world g g' : quiet g g' -> world (engine g') = world (engine g).
Proof. by intros [fs ->]. Qed.

(** A run ends in [Q], or in an error that changed nothing and is due to [F] or to a fault. *)
Definition runs {E T} (p : M Groups E T) g (Q : T -> Groups -> Prop) (F : Prop) : Prop :=
  forall res g', p g = (res, g') ->
    (healthy g -> healthy g')
    ∧ match res with Ok v => Q v g' | Err _ => quiet g g' ∧ (F ∨ ¬ healthy g) end.
Lemma runs_ret {E T} (v : T) g (Q : T -> Groups -> Prop) F : Q v g -> runs (E:=E) (mret v) g Q F.
Proof. intros HQ res g' [= <- <-]. done. Qed.
Lemma runs_raise {E T} (e : E) g (Q : T -> Groups -> Prop) (F : Prop) : F -> runs (raise e) g Q F.
Proof. intros HF res g' [= <- <-]. split; [done|]. split; [done|by left]. Qed.
Lemma runs_bind {E A B} (p : M Groups E A) (k : A -> M Groups E B) g Q1 Q F :
  runs p g Q1 F -> (forall v g1, Q1 v g1 -> quiet g g1 ∧ runs (k v) g1 Q F) -> runs (p ≫= k) g Q F.
Proof.
  intros Hp Hk res g' Hx. unfold mbind, M_bind in Hx. destruct (p g) as [[v|e] g1] eqn:E1.
  - destruct (Hp _ _ E1) as [Hh HQ]. destruct (Hk v g1 HQ) as [Hq Hr].
    destruct (Hr _ _ Hx) as [Hh' Hres]. split; [auto|]. destruct res; [done|].
    destruct Hres as [Hq' HF]. split; [by etrans|]. destruct HF; [by left|right; auto].
  - destruct (Hp _ _ E1) as [Hh HQ]. by injection Hx as <- <-.
Qed.
Lemma runs_weaken {E T} (p : M Groups E T) g (Q1 Q2 : T -> Groups -> Prop) (F1 F2 : Prop) :
  runs p g Q1 F1 -> (forall v g', Q1 v g' -> Q2 v g') -> (F1 -> F2) -> runs p g Q2 F2.
Proof.
  intros Hp HQ HF res g' Hx. destruct (Hp _ _ Hx) as [Hh Hr]. split; [done|]. destruct res; [auto|].
  destruct Hr as [? [?|?]]; auto.
Qed.
Lemma runs_statement {E T} (on_error : str -> E) (q : Groups -> T) g F :
  runs (statement on_error q) g (fun v g' => quiet g g' ∧ v = q g) F.
Proof.
  intros res g'. unfold statement, healthy, no_faults. destruct (faults (engine g)) as [|[txt|] fs] eqn:Ef;
    intros [= <- <-]; simpl.
  - split; [by rewrite Ef|done].
  - split; [by intros [? ?]%Forall_cons_1|]. split; [by exists fs|]. right. by intros [? _]%Forall_cons_1.
  - split; [by intros [? ?]%Forall_cons_1|]. split; [by exists fs|done].
Qed.
Lemma runs_lift {E T} (r : result E T) g (Q : T -> Groups -> Prop) (F : Prop) :
  match r with Ok v => Q v g | Err _ => F end -> runs (lift r) g Q F.
Proof. intros Hr res g' [= <- <-]. split; [done|]. destruct r; [done|]. split; [done|by left]. Qed.
Lemma runs_map_err {E E' T} (f : E -> E') (p : M Groups E T) g Q F :
  runs p g Q F -> runs (map_err_m f p) g Q F.
Proof.
  intros Hp res g' Hx. unfold map_err_m in Hx. destruct (p g) as [r g1] eqn:E1.
  destruct (Hp _ _ E1) as [Hh Hr]. injection Hx as <- <-. split; [done|]. by destruct r.
Qed.
(** A statement, then the rest. *)
Lemma runs_stmt_bind {E T B} (on_error : str -> E) (q : Groups -> T) (k : T -> M Groups E B) g Q F :
  (forall g1, quiet g g1 -> runs (k (q g)) g1 Q F) -> runs (statement on_error q ≫= k) g Q F.
Proof.
  intros Hk. eapply runs_bind; [apply runs_statement|]. intros v g1 [Hq ->]. auto.
Qed.

(** ** Adding a member *)
Definition refs_exist g (group_id : Uuid) m (added_by : Uuid) : Prop := member_refs g group_id m added_by = true.
(** What [add_member] asks for. *)
Definition admissible g (group_id : Uuid) m (caller_id : Uuid) : Prop :=
  group_id ≠ INTERNAL_GROUP_ID ∧ refs_exist g group_id m caller_id
  ∧ (group_id, m) ∉ group_members (db_of g)
  ∧ match m with
    | MemberUser u => users_external (db_of g) !! u = Some false
    | MemberGroup c => c ≠ group_id ∧ ¬ tc (nested (db_of g)) c group_id
        ∧ exists k, sql_depth (db_of g) group_id c = Some k ∧ (k mod 256 <= MAX_GROUP_DEPTH)%Z
    end.
Lemma admissible_quiet g g' group_id m caller_id :
  quiet g g' -> admissible g' group_id m caller_id <-> admissible g group_id m caller_id.
Proof. by intros [fs ->]. Qed.
Definition with_row g (group_id : Uuid) m : Groups := set_members g (group_members (db_of g) ++ [(group_id, m)]).

Lemma runs_add_checks g group_id m :
  runs (repo_add_checks group_id m) g
    (fun _ g' => quiet g g' ∧ match m with
       | MemberUser _ => True
       | MemberGroup c => c ≠ group_id ∧ ¬ tc (nested (db_of g)) c group_id
           ∧ exists k, sql_depth (db_of g) group_id c = Some k ∧ (k mod 256 <= MAX_GROUP_DEPTH)%Z
       end)
    (forall caller_id, ¬ admissible g group_id m caller_id).
Proof.
  unfold repo_add_checks. apply runs_stmt_bind. intros g1 Q1. apply runs_stmt_bind. intros g2 Q2.
  rewrite (quiet_rows g g1) by done.
  destruct (decide (is_Some (subject_groups g !! group_id))) as [Hs|Hs].
  2: { rewrite bool_decide_eq_false_2 by done. apply runs_raise. intros c (_ & Hr & _).
       unfold refs_exist, member_refs in Hr. by rewrite bool_decide_eq_false_2 in Hr. }
  rewrite bool_decide_eq_true_2 by done. simpl.
  destruct m as [u|c]; [apply runs_ret; split; [by etrans|done]|].
  destruct (decide (c = group_id)) as [->|Hne].
  { apply runs_raise. by intros ? (_ & _ & _ & ? & _). }
  assert (Q02 : quiet g g2) by by etrans. apply runs_stmt_bind. intros g3 Q3. rewrite (quiet_db g g2) by done.
  assert (Q03 : quiet g g3) by by etrans.
  destruct (sql_cycle (db_of g) group_id c) eqn:Ec.
  { apply runs_raise. apply sql_cycle_spec in Ec. by intros ? (_ & _ & _ & _ & ? & _). }
  assert (Hnc : ¬ tc (nested (db_of g)) c group_id) by (rewrite <- sql_cycle_spec; congruence).
  apply runs_stmt_bind. intros g4 Q4. assert (Hq : quiet g g4) by by etrans.
  rewrite (quiet_db g g3) by done.
  destruct (sql_depth (db_of g) group_id c) as [k|] eqn:Ed.
  2: { apply runs_raise. intros ? (_ & _ & _ & _ & _ & k & Hk & _). congruence. }
  destruct (Z.ltb_spec MAX_GROUP_DEPTH (k mod 256)).
  { apply runs_raise. intros ? (_ & _ & _ & _ & _ & k' & Hk & Hle). simplify_eq. by apply Z.le_ngt in Hle. }
  apply runs_ret. eauto 10.
Qed.
Lemma runs_add_insert g group_id m caller_id :
  runs (repo_add_insert pg_message group_id m caller_id) g
    (fun _ g' => (group_id, m) ∉ group_members (db_of g) ∧ refs_exist g group_id m caller_id
       ∧ exists g1, quiet g g1 ∧ g' = with_row g1 group_id m)
    (¬ ((group_id, m) ∉ group_members (db_of g) ∧ refs_exist g group_id m caller_id)).
Proof.
  unfold repo_add_insert. apply runs_stmt_bind. intros g1 Q1.
  destruct (decide ((group_id, m) ∈ group_members (db_of g))) as [Hin|Hin].
  { eapply runs_bind; [apply (runs_lift _ _ (fun _ _ => False)); by intros [? _]|done]. }
  destruct (member_refs g group_id m caller_id) eqn:Er.
  2: { eapply runs_bind; [apply (runs_lift _ _ (fun _ _ => False)); intros [_ Hr]|done].
       unfold refs_exist in Hr. congruence. }
  eapply runs_bind; [apply (runs_lift _ _ (fun _ g' => g' = g1)); done|]. intros ? ? ->. split; [done|].
  apply runs_stmt_bind. intros g2 Q2. intros res g' [= <- <-]. split; [done|].
  split_and!; [done|done|]. exists g2. split; [by etrans|done].
Qed.
Lemma runs_add_member_tx g group_id m caller_id :
  runs (repo_add_member pg_message group_id m caller_id) g
    (fun _ g' => (group_id ≠ INTERNAL_GROUP_ID ->
         match m with MemberUser u => users_external (db_of g) !! u = Some false | _ => True end ->
         admissible g group_id m caller_id)
       ∧ exists g1, quiet g g1 ∧ g' = with_row g1 group_id m)
    (¬ admissible g group_id m caller_id).
Proof.
  unfold repo_add_member. eapply runs_bind.
  { eapply runs_weaken; [apply runs_add_checks|intros v g' HQ; exact HQ|auto]. }
  intros _ g1 [Q1 Hg]. split; [done|].
  eapply runs_weaken; [apply runs_add_insert| |].
  2: { rewrite <- (admissible_quiet g g1) by done. intros Hn (_ & ? & ? & _). by apply Hn. }
  intros _ g' (Hin & Hr & g2 & Q2 & ->). split; [|exists g2; split; [by etrans|done]].
  intros Hi Hu. rewrite (quiet_db g g1) in Hin by done.
  split_and!; [done| |done|by destruct m].
  destruct Q1 as [fs ->]. exact Hr.
Qed.
(** The part of [add_member] up to the commit. *)
Definition add_commit (group_id : Uuid) m (caller_id : Uuid) : GM (Cache:=@Cache) unit :=
  _ ← refuse_internal group_id;
  _ ← refuse_external_member m;
  repo (repo_add_member pg_message group_id m caller_id).
Lemma add_member_split group_id m caller_id g :
  add_member pg_message group_id m caller_id g
  = (_ ← add_commit group_id m caller_id; uids ← invalidation_targets m; invalidate_users uids) g.
Proof.
  unfold add_member, add_commit. unfold mbind, M_bind.
  destruct (refuse_internal group_id g) as [[] g1]; [|done].
  destruct (refuse_external_member m g1) as [[] g2]; [|done]. done.
Qed.
Lemma runs_add_commit g group_id m caller_id :
  runs (add_commit group_id m caller_id) g
    (fun _ g' => admissible g group_id m caller_id ∧ exists g1, quiet g g1 ∧ g' = with_row g1 group_id m)
    (¬ admissible g group_id m caller_id).
Proof.
  unfold add_commit. unfold refuse_internal. case_decide as Hi.
  { eapply runs_bind; [apply (runs_raise _ _ (fun _ _ => False)); by intros (? & _)|done]. }
  eapply runs_bind; [by apply (runs_ret tt _ (fun _ g' => g' = g))|]. intros _ ? ->. split; [done|].
  assert (Hext : runs (refuse_external_member m) g
    (fun _ g' => quiet g g' ∧ match m with MemberUser u => users_external (db_of g) !! u = Some false | _ => True end)
    (¬ admissible g group_id m caller_id)).
  { destruct m as [u|c]; simpl; [|by apply runs_ret]. apply runs_stmt_bind. intros g1 Q1.
    destruct (users_external (db_of g) !! u) as [[]|] eqn:Eu; [|by apply runs_ret|].
    all: apply runs_raise; intros (_ & _ & _ & ?); congruence. }
  eapply runs_bind; [exact Hext|]. intros _ g1 [Q1 Hu]. split; [done|].
  eapply runs_weaken; [apply runs_map_err, runs_add_member_tx| |by rewrite (admissible_quiet g g1)].
  intros _ g' [Ha (g2 & Q2 & ->)]. rewrite (quiet_db g g1), (admissible_quiet g g1) in Ha by done.
  split; [auto|]. exists g2. split; [by etrans|done].
Qed.

Definition invalidated (uids : list Uuid) (e : Engine) : Engine :=
  foldl (fun e u => invalidate_user_groups_cache u e) e uids.
(** The state after a membership change: the new table, and the memberships of [uids] dropped. *)
Definition changed g (db : Db) (uids : list Uuid) g' : Prop :=
  subject_groups g' = subject_groups g
  ∧ exists fs, engine g' = invalidated uids (set_db (set_faults (engine g) fs) db).
Lemma invalidated_world uids : forall e, world (invalidated uids e) = world e.
Proof. induction uids as [|u uids IH]; intros e; [done|]. simpl. by rewrite IH. Qed.
Lemma changed_db g db uids g' : changed g db uids g' -> db_of g' = db.
Proof. intros [_ [fs He]]. unfold db_of. by rewrite He, invalidated_world. Qed.

Lemma faults_invalidated uids : forall e, faults (invalidated uids e) = faults e.
Proof. induction uids as [|u uids IH]; intros e; [done|]. simpl. by rewrite IH. Qed.
Lemma healthy_invalidated uids g : healthy (set_engine g (invalidated uids (engine g))) <-> healthy g.
Proof. unfold healthy. simpl. by rewrite faults_invalidated. Qed.

(** A run of [add_member]: refused or failed with no effect, or the row is there; then the cached
    memberships of every affected user are dropped, unless a fault kept the service from reading
    who they are. *)
Lemma add_member_spec g group_id m caller_id res g' :
  add_member pg_message group_id m caller_id g = (res, g') ->
  (exists e, res = Err e ∧ quiet g g' ∧ (¬ admissible g group_id m caller_id ∨ ¬ healthy g))
  ∨ (admissible g group_id m caller_id
     ∧ exists uids, changed g (added (db_of g) group_id m) uids g'
        ∧ (res = Ok tt ∧ (forall v, v ∈ uids <-> affected (added (db_of g) group_id m) m v)
           ∨ (exists e, res = Err e) ∧ ¬ healthy g)).
Proof.
  rewrite add_member_split. intros [(v & g1 & E1 & E2)|(e & E1 & ->)]%bind_inv;
    destruct (runs_add_commit g group_id m caller_id _ _ E1) as [Hh HQ].
  2: { left. exists e. destruct HQ. done. }
  right. destruct HQ as [Ha (g0 & [fs0 ->] & ->)]. split; [done|].
  destruct m as [u|c].
  - cbn [invalidation_targets] in E2. injection E2 as <- <-. exists [u]. split.
    + split; [done|]. by exists fs0.
    + left. split; [done|]. intros v'. by rewrite list_elem_of_singleton.
  - simpl in E2. apply bind_inv in E2 as [(uids & g2 & E2 & E3)|(e & E2 & ->)].
    + destruct (runs_map_err map_repo_err _ _ _ False (runs_statement _ _ _ False) _ _ E2) as [_ [[fs ->] ->]].
      injection E3 as <- <-. eexists. split; [split; [done|by exists fs]|]. left. split; [done|].
      intros v'. by rewrite elem_of_elements, transitive_users_spec.
    + destruct (runs_map_err map_repo_err _ _ _ False (runs_statement _ _ _ False) _ _ E2) as [_ [[fs ->] [[]|Hf]]].
      exists []. split; [split; [done|by exists fs]|]. right. split; [by exists e|]. intros Hx. by apply Hf, Hh.
Qed.

(** ** Removing a member *)
Definition child_users_of (db : Db) m : list Uuid :=
  match m with MemberGroup c => elements (sql_transitive_users db c) | MemberUser _ => [] end.
Definition keeps_users (db : Db) (group_id : Uuid) m : Prop :=
  sql_transitive_users db group_id = ∅
  ∨ would_be_empty m (elements (sql_transitive_users db group_id)) (child_users_of db m) = false.
Definition removable g (group_id : Uuid) m : Prop :=
  group_id ≠ INTERNAL_GROUP_ID ∧ (group_id, m) ∈ group_members (db_of g) ∧ keeps_users (db_of g) group_id m.
Lemma runs_repo_remove g group_id m :
  runs (repo_remove_member group_id m) g
    (fun _ g' => (group_id, m) ∈ group_members (db_of g) ∧ exists g1, quiet g g1
       ∧ g' = set_members g1 (filter (fun row => row ≠ (group_id, m)) (group_members (db_of g1))))
    ((group_id, m) ∉ group_members (db_of g)).
Proof.
  unfold repo_remove_member. apply runs_stmt_bind. intros g1 Q1.
  destruct (decide ((group_id, m) ∈ group_members (db_of g))) as [Hin|Hin].
  - rewrite bool_decide_eq_true_2 by done. intros res g' [= <- <-]. split; [done|]. split; [done|]. by exists g1.
  - rewrite bool_decide_eq_false_2 by done. intros res g' [= <- <-]. split; [done|]. split; [done|by left].
Qed.
Lemma runs_list_users g x F :
  runs (repo (repo_list_transitive_users x)) g
    (fun l g' => quiet g g' ∧ l = elements (sql_transitive_users (db_of g) x)) F.
Proof.
  apply runs_map_err. exact (runs_statement _ (fun g => elements (sql_transitive_users (db_of g) x)) g F).
Qed.
Lemma runs_remove_member g group_id m :
  runs (remove_member group_id m) g
    (fun _ g' => removable g group_id m
       ∧ exists uids, changed g (removed (db_of g) group_id m) uids g'
         ∧ forall v, v ∈ uids <-> affected (db_of g) m v)
    (¬ removable g group_id m).
Proof.
  unfold remove_member, refuse_internal. case_decide as Hi.
  { eapply runs_bind; [apply (runs_raise _ _ (fun _ _ => False)); by intros (? & _)|done]. }
  eapply runs_bind; [by apply (runs_ret tt _ (fun _ g' => g' = g))|]. intros _ ? ->. split; [done|].
  eapply (runs_bind _ _ _ (fun l g' => quiet g g' ∧ l = child_users_of (db_of g) m)).
  { destruct m as [u|c]; [by apply runs_ret|apply runs_list_users]. }
  intros cu g1 [Q1 ->]. split; [done|]. eapply runs_bind; [apply runs_list_users|].
  intros us g2 [Q2 ->]. rewrite (quiet_db g g1) by done. split; [done|].
  assert (Q02 : quiet g g2) by by etrans.
  destruct (bool_decide _ && _) eqn:Eb.
  { apply runs_raise. apply andb_true_iff in Eb as [He Hw]. apply bool_decide_eq_true in He.
    intros (_ & _ & [Hx|Hx]); [|congruence]. apply He. by rewrite Hx, elements_empty. }
  assert (Hk : keeps_users (db_of g) group_id m).
  { apply andb_false_iff in Eb as [He|Hw]; [left|by right].
    apply bool_decide_eq_false, dec_stable, elements_empty_inv in He. by apply leibniz_equiv. }
  intros res g' [(v & g3 & E3 & E4)|(e & E3 & ->)]%bind_inv;
    destruct (runs_map_err map_repo_err _ _ _ _ (runs_repo_remove g2 group_id m) _ _ E3) as [Hh HQ];
    rewrite (quiet_db g g2) in HQ by done.
  - destruct HQ as (Hin & g4 & [fs ->] & ->). injection E4 as <- <-. split; [intros Hx; exact (proj2 (healthy_invalidated _ _) (Hh Hx))|].
    split; [done|]. destruct Q02 as [fs' ->].
    exists (match m with MemberUser uid => [uid] | MemberGroup _ => child_users_of (db_of g) m end).
    split; [split; [done|by exists fs]|]. intros v'. destruct m as [u|c]; simpl.
    + by rewrite list_elem_of_singleton.
    + by rewrite elem_of_elements, transitive_users_spec.
  - split; [done|]. destruct HQ as [? [Hn|?]]; (split; [done|]); [left|by right]. by intros (_ & ? & _).
Qed.

(** ** The other operations *)
Definition deletable g (id : Uuid) : Prop :=
  (exists row, subject_groups g !! id = Some row ∧ is_virtual row = false)
  ∧ sole_owner_drives (db_of g) (now (engine g)) id = [].
Lemma runs_get_by_id g id F : (subject_groups g !! id = None -> F) ->
  runs (get_by_id id) g (fun row g' => quiet g g' ∧ subject_groups g !! id = Some row) F.
Proof.
  intros HF. unfold get_by_id. eapply runs_bind.
  { apply runs_map_err. exact (runs_statement _ (fun g => subject_groups g !! id) g F). }
  intros v g1 [Q1 ->]. split; [done|]. apply runs_lift. destruct (subject_groups g !! id) eqn:E; simpl; [|auto].
  done.
Qed.
Lemma runs_refuse_virtual g row (Q : unit -> Groups -> Prop) (F : Prop) :
  (is_virtual row = true -> F) -> (is_virtual row = false -> Q tt g) -> runs (refuse_virtual row) g Q F.
Proof. intros HF HQ. unfold refuse_virtual. destruct (is_virtual row); [apply runs_raise|apply runs_ret]; auto. Qed.
Lemma runs_delete g id :
  runs (SubjectGroups.delete id) g
    (fun _ g' => deletable g id ∧ exists g1, quiet g g1 ∧ g' = without_group id g1) (¬ deletable g id).
Proof.
  unfold SubjectGroups.delete. eapply runs_bind.
  { apply (runs_get_by_id g id). intros Hn [(row & Hr & _) _]. congruence. }
  intros row g1 [Q1 Hrow]. split; [done|]. eapply runs_bind.
  { apply (runs_refuse_virtual _ _ (fun _ g' => g' = g1 ∧ is_virtual row = false)); [|done].
    intros Hv [(row' & Hr & Hv') _]. congruence. }
  intros _ ? [-> Hv]. split; [done|]. apply runs_stmt_bind. intros g2 Q2.
  assert (Hd : sole_owner_drives (db_of g1) (now (engine g1)) id
    = sole_owner_drives (db_of g) (now (engine g)) id) by by destruct Q1 as [fs ->].
  rewrite Hd. destruct (sole_owner_drives (db_of g) (now (engine g)) id) as [|d ds] eqn:Es; simpl.
  2: { apply runs_raise. intros [_ ?]. congruence. }
  assert (Q02 : quiet g g2) by by etrans.
  apply runs_stmt_bind. intros g3 Q3. apply runs_stmt_bind. intros g4 Q4.
  assert (Q03 : quiet g g3) by by etrans. assert (Q04 : quiet g g4) by by etrans.
  apply runs_stmt_bind. intros g5 Q5. assert (Q05 : quiet g g5) by by etrans.
  rewrite (quiet_rows g g4) by done. rewrite bool_decide_eq_true_2 by (rewrite Hrow; by eexists). simpl.
  apply runs_stmt_bind. intros g6 Q6. intros res g' [= <- <-]. split; [done|].
  split; [split; [by exists row|done]|]. exists g6. split; [by etrans|done].
Qed.
Lemma runs_lift_any {E T} (r : result E T) g : runs (lift r) g (fun v g' => g' = g ∧ r = Ok v) True.
Proof. apply runs_lift. by destruct r. Qed.
(** Creating and renaming touch the group table alone and keep its keys. *)
Definition same_members g g' : Prop :=
  db_of g' = db_of g ∧ (forall x, is_Some (subject_groups g !! x) -> is_Some (subject_groups g' !! x)).
Lemma runs_create g fresh name description :
  runs (create debug_char pg_message fresh name description) g (fun _ g' => same_members g g') True.
Proof.
  unfold create. eapply runs_bind; [by apply (runs_ret (now (engine g)) _ (fun _ g' => g' = g))|].
  intros ? ? ->. split; [done|]. eapply runs_bind; [apply runs_lift_any|].
  intros group ? [-> _]. split; [done|]. apply runs_map_err. unfold repo_create.
  apply runs_stmt_bind. intros g1 [fs ->]. eapply runs_bind; [apply runs_lift_any|].
  intros _ ? [-> _]. split; [done|]. intros res g' [= <- <-]. split; [done|]. split; [done|].
  intros x. simpl. rewrite lookup_insert_is_Some'. auto.
Qed.
Lemma runs_rename g id new_name :
  runs (rename debug_char pg_message id new_name) g (fun _ g' => same_members g g') True.
Proof.
  unfold rename. eapply runs_bind; [by apply (runs_get_by_id g id True)|]. intros row g1 [Q1 Hrow].
  split; [done|]. eapply runs_bind; [by apply (runs_refuse_virtual _ _ (fun _ g' => g' = g1))|].
  intros _ ? ->. split; [done|]. eapply runs_bind; [apply runs_lift_any|]. intros _ ? [-> _]. split; [done|].
  apply runs_map_err. unfold repo_rename. apply runs_stmt_bind. intros g2 Q2.
  eapply runs_bind; [apply runs_lift_any|]. intros row' ? [-> _]. split; [done|].
  intros res g' [= <- <-]. split; [done|]. destruct Q1 as [fs ->], Q2 as [fs' ->]. split; [done|].
  intros x. simpl. rewrite lookup_insert_is_Some'. auto.
Qed.

(** ** The invariant of the tables *)
Inductive GroupOp :=
| OpCreate (fresh : Uuid) (name : str) (description : option str)
| OpRename (id : Uuid) (new_name : str)
| OpDelete (id : Uuid)
| OpAdd (group_id : Uuid) (m : GroupMember) (caller_id : Uuid)
| OpRemove (group_id : Uuid) (m : GroupMember).
Definition group_op (op : GroupOp) : GM (Cache:=@Cache) unit :=
  match op with
  | OpCreate fresh name description => _ ← create debug_char pg_message fresh name description; mret tt
  | OpRename id new_name => _ ← rename debug_char pg_message id new_name; mret tt
  | OpDelete id => SubjectGroups.delete id
  | OpAdd group_id m caller_id => add_member pg_message group_id m caller_id
  | OpRemove group_id m => remove_member group_id m
  end.
Definition run_ops (ops : list GroupOp) g : Groups := foldl (fun g op => snd (group_op op g)) g ops.
Record group_inv g : Prop := {
  gi_acyclic : acyclic (db_of g);
  gi_refs : forall x m, (x, m) ∈ group_members (db_of g) -> is_Some (subject_groups g !! x)
    ∧ match m with
      | MemberUser u => users_external (db_of g) !! u = Some false
      | MemberGroup c => is_Some (subject_groups g !! c)
      end;
  gi_nodup : NoDup (group_members (db_of g));
  gi_internal : forall m, (INTERNAL_GROUP_ID, m) ∉ group_members (db_of g);
}.
Lemma inv_quiet g g' : quiet g g' -> group_inv g -> group_inv g'.
Proof. intros [fs ->] []. by constructor. Qed.
Lemma inv_same_members g g' : same_members g g' -> group_inv g -> group_inv g'.
Proof.
  intros [Hdb Hrows] [I1 I2 I3 I4]. constructor; rewrite ?Hdb; try done.
  intros x m Hin. destruct (I2 x m Hin) as [Hx Hm]. split; [auto|]. destruct m; [done|auto].
Qed.
(** Fewer membership rows, over the same users, between groups that are still there. *)
Lemma inv_fewer g g' :
  users_external (db_of g') = users_external (db_of g) ->
  group_members (db_of g') `sublist_of` group_members (db_of g) ->
  (forall x m y, (x, m) ∈ group_members (db_of g') -> y = x ∨ m = MemberGroup y ->
     is_Some (subject_groups g !! y) -> is_Some (subject_groups g' !! y)) ->
  group_inv g -> group_inv g'.
Proof.
  intros Hu Hs Hrows [I1 I2 I3 I4].
  assert (Hin : forall row, row ∈ group_members (db_of g') -> row ∈ group_members (db_of g)).
  { intros row Hr. by eapply elem_of_submseteq, sublist_submseteq. }
  constructor.
  - eapply acyclic_fewer; [|exact I1]. intros x y. apply Hin.
  - intros x m Hm. destruct (I2 x m (Hin _ Hm)) as [Hx Hr].
    split; [by apply (Hrows x m x); auto|]. destruct m as [u|c]; [by rewrite Hu|].
    by apply (Hrows x (MemberGroup c) c); auto.
  - by eapply sublist_NoDup.
  - intros m Hm. by apply (I4 m), Hin.
Qed.
Lemma inv_added g group_id m caller_id uids g' :
  admissible g group_id m caller_id -> changed g (added (db_of g) group_id m) uids g' ->
  group_inv g -> group_inv g'.
Proof.
  intros (Hi & Hr & Hnew & Hm) Hch [I1 I2 I3 I4]. pose proof (changed_db _ _ _ _ Hch) as Hdb.
  destruct Hch as [Hrows _]. unfold refs_exist, member_refs in Hr. rewrite !andb_true_iff in Hr.
  destruct Hr as [[Hg Hc] _]. apply bool_decide_eq_true in Hg. constructor; rewrite ?Hdb, ?Hrows.
  - destruct m as [u|c]; [by apply acyclic_added_user|].
    destruct Hm as (? & ? & _). by apply acyclic_added_group.
  - intros x m'. unfold added. simpl. rewrite elem_of_app, list_elem_of_singleton.
    intros [Hin|[= -> ->]]; [by apply I2|]. split; [done|]. destruct m as [u|c]; [done|].
    by apply bool_decide_eq_true in Hc.
  - unfold added. simpl. apply list.NoDup_app. split_and!; [done| |apply list.NoDup_singleton].
    intros row Hrow ->%list_elem_of_singleton. done.
  - intros m'. unfold added. simpl. rewrite elem_of_app, list_elem_of_singleton. intros [Hin|[= <- _]]; [|done].
    by apply (I4 m').
Qed.
Lemma inv_group_op op g : group_inv g -> group_inv (snd (group_op op g)).
Proof.
  intros Hinv. destruct (group_op op g) as [res g'] eqn:Eo. simpl. destruct op; simpl in Eo.
  - apply bind_inv in Eo as [(v & g1 & E1 & E2)|(e & E1 & ->)];
      destruct (runs_create _ _ _ _ _ _ E1) as [_ HQ]; [injection E2 as <- <-; by eapply inv_same_members|].
    by eapply inv_quiet; [apply HQ|].
  - apply bind_inv in Eo as [(v & g1 & E1 & E2)|(e & E1 & ->)];
      destruct (runs_rename _ _ _ _ _ E1) as [_ HQ]; [injection E2 as <- <-; by eapply inv_same_members|].
    by eapply inv_quiet; [apply HQ|].
  - destruct (runs_delete _ _ _ _ Eo) as [_ HQ]. destruct res; [|by eapply inv_quiet; [apply HQ|]].
    destruct HQ as [_ (g1 & Q1 & ->)]. eapply (inv_fewer g1); [done| | |by eapply inv_quiet].
    + apply sublist_filter.
    + intros x m y Hin Hy Hs. simpl in Hin. apply list_elem_of_filter in Hin as [[Hn1 Hn2] _]. simpl in *.
      rewrite lookup_delete_ne; [done|]. intros ->. destruct Hy as [->| ->]; done.
  - destruct (add_member_spec _ _ _ _ _ _ Eo) as [(e & _ & Q1 & _)|(Ha & uids & Hch & _)];
      [by eapply inv_quiet|by eapply inv_added].
  - destruct (runs_remove_member _ _ _ _ _ Eo) as [_ HQ]. destruct res; [|by eapply inv_quiet; [apply HQ|]].
    destruct HQ as [_ (uids & Hch & _)]. pose proof (changed_db _ _ _ _ Hch) as Hdb.
    destruct Hch as [Hrows _]. eapply (inv_fewer g); rewrite ?Hdb, ?Hrows; [done|apply sublist_filter|done|done].
Qed.
Lemma inv_run_ops ops : forall g, group_inv g -> group_inv (run_ops ops g).
Proof. induction ops as [|op ops IH]; intros g Hg; [done|]. by apply IH, inv_group_op. Qed.

(** ** Cached memberships *)
Definition groups_fresh (e : Engine) : Prop :=
  cache_ok (user_groups_cache e) (now e) (fun u v => v = spec_expand (world e) u).
Lemma invalidated_get uids : forall e v t x,
  cget (user_groups_cache (invalidated uids e)) t v = Some x ->
  v ∉ uids ∧ cget (user_groups_cache e) t v = Some x.
Proof.
  induction uids as [|u uids IH]; intros e v t x Hx; [split; [apply not_elem_of_nil|done]|].
  destruct (IH _ _ _ _ Hx) as [Hn Hg]. simpl in Hg. destruct (decide (v = u)) as [->|Hne].
  - by rewrite cget_invalidate_eq in Hg.
  - apply cget_invalidate_ne in Hg. by rewrite not_elem_of_cons.
Qed.
Lemma changed_fresh g db uids g' :
  changed g db uids g' -> users_external db = users_external (db_of g) ->
  (forall v, v ∉ uids -> groups_for_user db v = groups_for_user (db_of g) v) ->
  groups_fresh (engine g) -> groups_fresh (engine g').
Proof.
  intros [_ [fs He]] Hu Hg Hf v x Hx. unfold now in Hx. rewrite He, invalidated_world in Hx |- *.
  apply invalidated_get in Hx as [Hn Hx]. rewrite (Hf v x Hx). unfold spec_expand, sql_is_external.
  simpl. rewrite Hu, (Hg v Hn). done.
Qed.
Lemma sql_healthy {T} on_error (q : Db -> Z -> T) (e : Engine) :
  no_faults (faults e) -> exists fs, no_faults fs
    ∧ sql on_error q e = (Ok (q (w_db (world e)) (now e)), set_faults e fs).
Proof.
  intros Hn. unfold sql. destruct (faults e) as [|[txt|] fs] eqn:Ef.
  - exists []. split; [done|]. rewrite <- Ef. by destruct e.
  - by apply Forall_cons_1 in Hn as [? _].
  - exists fs. by apply Forall_cons_1 in Hn as [_ ?].
Qed.
Lemma expand_user_fresh u e :
  groups_fresh e -> no_faults (faults e) -> fst (expand_user u e) = Ok (spec_expand (world e) u).
Proof.
  intros Hf Hn. unfold expand_user. unfold_m. destruct (cget _ _ u) as [x|] eqn:Ex; [by rewrite (Hf u x Ex)|].
  unfold attempt.
  destruct (sql_healthy (pg_err (lit "lookup is_external"))
    (fun db _ => default true (sql_is_external db u)) e Hn) as (fs & Hfs & ->).
  simpl. unfold spec_expand, sql_is_external. destruct (w_group_repo (world e)); simpl; [|done].
  destruct (sql_healthy (pg_err (lit "groups_for_user")) (fun db _ => groups_for_user db u)
    (set_faults e fs) Hfs) as (fs2 & _ & Hx). unfold fmap, M_fmap. rewrite Hx. done.
Qed.

(** C28: nesting stays a forest of finite depth.  Whatever group operations are requested, one
    after another, and whatever statements fail, no group comes to contain itself through others,
    memberships refer to groups and internal users that exist, no membership is stored twice and
    none of the implicit group; so the depth query, which would not end on a cycle, always ends;
    and when a nested group is accepted while there are fewer than 254 membership rows, no chain
    below the group that receives it is longer than the limit.  (With more rows the depth, a
    [u8] in the code, may wrap.)  Two additions that overlap can close a cycle
    ([racing_adds_close_cycle]). *)
Theorem group_nesting_acyclic ops g :
  group_inv g ->
  group_inv (run_ops ops g)
  ∧ (forall x c, exists k, sql_depth (db_of (run_ops ops g)) x c = Some k)
  ∧ (forall x c caller g', add_member pg_message x (MemberGroup c) caller (run_ops ops g) = (Ok tt, g') ->
       (length (group_members (db_of (run_ops ops g))) < 254)%nat ->
       forall n y, nsteps (nested (db_of g')) n x y -> (Z.of_nat n <= MAX_GROUP_DEPTH)%Z).
Proof.
  intros Hg. pose proof (inv_run_ops ops g Hg) as Hinv. set (g1 := run_ops ops g) in *.
  split; [done|]. split; [intros; apply sql_depth_total, Hinv|].
  intros x c caller g' Ho Hlen n y Hn.
  destruct (add_member_spec _ _ _ _ _ _ Ho) as [(e & ? & _)|(Ha & uids & Hch & _)]; [done|].
  rewrite (changed_db _ _ _ _ Hch) in Hn. destruct Ha as (_ & _ & _ & Hne & Hno & k & Hk & Hle).
  assert (Hk8 : (k <= MAX_GROUP_DEPTH)%Z).
  { destruct (path_depth_bounds _ _ _ _ _ Hk) as (H1 & H2 & _). rewrite Z.mod_small in Hle by lia. done. }
  transitivity k; [|done]. apply (chain_below (db_of g1) x c k); [apply Hinv|done|done|done|by exists y].
Qed.

(** The table changed as asked, and what the engine knows of memberships is that of the table. *)
Definition took_effect g g' (db : Db) : Prop :=
  db_of g' = db ∧ subject_groups g' = subject_groups g ∧ groups_fresh (engine g')
  ∧ (healthy g' -> forall u, fst (expand_user u (engine g')) = Ok (spec_expand (world (engine g')) u)).
Lemma changed_took_effect g db uids g' :
  changed g db uids g' -> users_external db = users_external (db_of g) ->
  (forall v, v ∉ uids -> groups_for_user db v = groups_for_user (db_of g) v) ->
  groups_fresh (engine g) -> took_effect g g' db.
Proof.
  intros Hch Hu Hg Hf. pose proof (changed_fresh _ _ _ _ Hch Hu Hg Hf) as Hf'.
  split; [by eapply changed_db|]. split; [apply Hch|]. split; [done|].
  intros Hh u. by apply expand_user_fresh.
Qed.
(** A membership change takes effect at once.  [add_member] succeeds exactly when the group, the
    member and the caller exist, the member is new, is not an external user, and closes no cycle
    within the depth limit; [remove_member] exactly when the membership exists and some user
    stays.  Then the table has exactly that row more or less, and whatever the engine had cached
    about memberships, the next expansion of every user is that of the new table: the users
    whose cached groups are dropped are all the users the row concerns.  A refused request
    changes nothing. *)
Theorem membership_change_takes_effect g group_id m caller_id :
  groups_fresh (engine g) ->
  (forall res g', add_member pg_message group_id m caller_id g = (res, g') ->
     (res = Ok tt -> took_effect g g' (added (db_of g) group_id m)
        ∧ forall u, affected (db_of g') m u -> member_of (db_of g') u group_id)
     ∧ (¬ admissible g group_id m caller_id -> quiet g g')
     ∧ (healthy g -> res = Ok tt <-> admissible g group_id m caller_id))
  ∧ (forall res g', remove_member group_id m g = (res, g') ->
     (res = Ok tt -> took_effect g g' (removed (db_of g) group_id m))
     ∧ (¬ removable g group_id m -> quiet g g')
     ∧ (healthy g -> res = Ok tt <-> removable g group_id m)).
Proof.
  intros Hf. split; intros res g' Ho.
  - destruct (add_member_spec _ _ _ _ _ _ Ho) as [(e & -> & Q & Hx)|(Ha & uids & Hch & Hx)].
    { split_and!; [done|done|]. intros Hh. split; [done|]. by destruct Hx. }
    split_and!; [|done|by intros Hh; destruct Hx as [[-> _]|[_ ?]]].
    intros ->. destruct Hx as [[_ Hu]|[[? ?] _]]; [|done]. split.
    + apply (changed_took_effect g _ uids); [done|done| |done]. intros v Hv.
      apply groups_for_user_ext. intros x. apply member_unaffected_added. by rewrite <- Hu.
    + rewrite (changed_db _ _ _ _ Hch). intros u Hau. unfold added in *. destruct m as [w|c].
      * simpl in Hau. subst w. constructor. simpl. rewrite elem_of_app. right. by left.
      * econstructor 2; [|exact Hau]. simpl. rewrite elem_of_app. right. by left.
  - destruct (runs_remove_member _ _ _ _ _ Ho) as [_ HQ]. destruct res as [[]|e].
    + destruct HQ as [Hr (uids & Hch & Hu)]. split_and!; [|done|done]. intros _.
      apply (changed_took_effect g _ uids); [done|done| |done]. intros v Hv.
      apply groups_for_user_ext. intros x. apply member_unaffected_removed. by rewrite <- Hu.
    + destruct HQ as [Hq Hx]. split_and!; [done|done|]. intros Hh. split; [done|]. by destruct Hx.
Qed.

(** A group that has users keeps some.  No membership request, whatever fails, leaves a group
    without users that had one, directly or through nested groups; and a user who is not the
    only one of a group can always be removed from it. *)
Theorem seeded_group_keeps_users g group_id m caller_id x :
  (exists u, member_of (db_of g) u x) ->
  (exists u, member_of (db_of (snd (add_member pg_message group_id m caller_id g))) u x)
  ∧ (exists u, member_of (db_of (snd (remove_member group_id m g))) u x)
  ∧ (forall u w, (group_id, MemberUser u) ∈ group_members (db_of g) -> member_of (db_of g) w group_id ->
       w ≠ u -> group_id ≠ INTERNAL_GROUP_ID -> healthy g ->
       fst (remove_member group_id (MemberUser u) g) = Ok tt).
Proof.
  intros Hx. split_and!.
  - destruct (add_member pg_message group_id m caller_id g) as [res g'] eqn:Ho. simpl.
    destruct (add_member_spec _ _ _ _ _ _ Ho) as [(e & _ & Q & _)|(_ & uids & Hch & _)].
    + by rewrite (quiet_db _ _ Q).
    + rewrite (changed_db _ _ _ _ Hch). destruct Hx as [u Hu]. exists u. by apply member_added.
  - destruct (remove_member group_id m g) as [res g'] eqn:Ho. simpl.
    destruct (runs_remove_member _ _ _ _ _ Ho) as [_ HQ]. destruct res as [[]|e].
    + destruct HQ as [(_ & _ & Hk) (uids & Hch & _)]. rewrite (changed_db _ _ _ _ Hch).
      by apply guarded_removal_keeps_users.
    + destruct HQ as [Q _]. by rewrite (quiet_db _ _ Q).
  - intros u w Hin Hw Hne Hi Hh. destruct (remove_member group_id (MemberUser u) g) as [res g'] eqn:Ho. simpl.
    destruct (runs_remove_member _ _ _ _ _ Ho) as [_ HQ]. destruct res as [[]|e]; [done|].
    destruct HQ as [_ [Hn|?]]; [|done]. destruct Hn. split_and!; [done|done|]. right. simpl.
    apply andb_false_iff. destruct (decide (u ∈ sql_transitive_users (db_of g) group_id)) as [Hu|Hu].
    + left. apply bool_decide_eq_false. intros Hl. apply transitive_users_spec in Hw.
      rewrite <- elem_of_elements in Hu, Hw. destruct (elements _) as [|a [|b l]]; [done| |done].
      apply list_elem_of_singleton in Hu, Hw. congruence.
    + right. apply bool_decide_eq_false. by rewrite elem_of_elements.
Qed.

(** ** Deletion *)
Definition live_owner (t : Z) (d : Uuid) (gr : Grant) : Prop :=
  g_resource gr = Drive d ∧ g_role gr = Owner ∧ live t gr = true.
Lemma sole_owner_spared db t id d gr :
  unique_keys (role_grants db) -> sole_owner_drives db t id = [] ->
  gr ∈ role_grants db -> live_owner t d gr ->
  exists gr', gr' ∈ role_grants db ∧ live_owner t d gr' ∧ g_subject gr' ≠ Group id.
Proof.
  intros Hu Hs Hin Ho. destruct (decide (g_subject gr = Group id)) as [Hsub|]; [|by exists gr].
  unfold sole_owner_drives in Hs. set (rows := live_owner_rows db t) in Hs.
  assert (Hrows : forall x, x ∈ rows <-> x ∈ role_grants db ∧ exists d', live_owner t d' x).
  { intros x. unfold rows, live_owner_rows, live_owner. rewrite list_elem_of_filter, !andb_true_iff, bool_decide_eq_true.
    destruct (g_resource x); naive_solver. }
  assert (Hgr : gr ∈ rows) by (apply Hrows; eauto).
  set (same := filter (fun x : Grant => Resource.id (g_resource x) = d) rows).
  assert (Hsame : forall x, x ∈ same <-> x ∈ role_grants db ∧ live_owner t d x).
  { intros x. unfold same. rewrite list_elem_of_filter, Hrows. unfold live_owner.
    split; [|by intros (? & -> & ? & ?); eauto 10]. intros (Hd & ? & d' & Hr & ?). rewrite Hr in Hd. naive_solver. }
  assert (Hlen : length same ≠ 1%nat).
  { intros Hl. assert (Hd : d ∈ filter (fun d => length (filter (fun x : Grant => Resource.id (g_resource x) = d) rows) = 1%nat)
      (Resource.id ∘ g_resource <$> filter (fun x : Grant => g_subject x = Group id) rows)).
    { apply list_elem_of_filter. split; [done|]. apply list_elem_of_fmap. exists gr. split.
      - simpl. destruct Ho as [-> _]. done.
      - by apply list_elem_of_filter. }
    rewrite Hs in Hd. by apply not_elem_of_nil in Hd. }
  assert (Hnd : NoDup same).
  { unfold same, rows, live_owner_rows. do 2 apply list.NoDup_filter. by eapply list.NoDup_fmap_1. }
  assert (exists gr', gr' ∈ same ∧ gr' ≠ gr) as (gr' & Hin' & Hne).
  { assert (Hg : gr ∈ same) by by apply Hsame. destruct same as [|a [|b l]]; [by apply not_elem_of_nil in Hg|done|].
    destruct (decide (a = gr)) as [->|]; [|exists a; split; [by left|done]].
    exists b. split; [by right; left|]. intros ->. apply list.NoDup_cons in Hnd as [Hn _]. apply Hn. by left. }
  apply Hsame in Hin' as [Hin' Ho']. exists gr'. split_and!; [done|done|]. intros Hsub'.
  apply Hne. eapply unique_key_eq; eauto. unfold grant_key. destruct Ho as [-> _], Ho' as [-> _]. congruence.
Qed.
(** Deleting a group leaves no drive without an owner.  A deletion that is refused or fails
    changes nothing; one that succeeds removes the group, its memberships on both sides and its
    grants and nothing else, and every drive with an owner in force before has one after; and
    without failures it succeeds exactly for a stored group that is not virtual and not the
    only owner of a drive. *)
Theorem group_delete_keeps_owner g id res g' :
  unique_keys (role_grants (db_of g)) -> SubjectGroups.delete id g = (res, g') ->
  (forall e, res = Err e -> quiet g g')
  ∧ (res = Ok tt ->
      subject_groups g' = base.delete id (subject_groups g)
      ∧ (forall row, row ∈ group_members (db_of g')
           <-> row ∈ group_members (db_of g) ∧ fst row ≠ id ∧ snd row ≠ MemberGroup id)
      ∧ (forall gr, gr ∈ role_grants (db_of g') <-> gr ∈ role_grants (db_of g) ∧ g_subject gr ≠ Group id))
  ∧ (forall d, (exists gr, gr ∈ role_grants (db_of g) ∧ live_owner (now (engine g)) d gr) ->
       exists gr, gr ∈ role_grants (db_of g') ∧ live_owner (now (engine g')) d gr)
  ∧ (healthy g -> res = Ok tt <-> deletable g id).
Proof.
  intros Hu Ho. destruct (runs_delete g id _ _ Ho) as [_ HQ]. destruct res as [[]|e].
  - destruct HQ as [Hd (g1 & [fs ->] & ->)]. split_and!; [done| | |done].
    + intros _. split; [done|]. split.
      * intros row. simpl. rewrite list_elem_of_filter. tauto.
      * intros gr. simpl. rewrite list_elem_of_filter. tauto.
    + intros d (gr & Hin & Hl). destruct Hd as [_ Hs].
      destruct (sole_owner_spared _ _ _ _ gr Hu Hs Hin Hl) as (gr' & Hin' & Hl' & Hne).
      exists gr'. split; [|done]. simpl. by apply list_elem_of_filter.
  - destruct HQ as [Hq Hx]. split_and!; [done|done| |].
    + destruct Hq as [fs ->]. done.
    + intros Hh. split; [done|]. by destruct Hx.
Qed.

(** ** Where the limits do not hold *)
Lemma runs_ok {E T} (p : M Groups E T) g Q (F : Prop) :
  runs p g Q F -> healthy g -> ¬ F -> exists v, fst (p g) = Ok v ∧ Q v (snd (p g)) ∧ healthy (snd (p g)).
Proof.
  intros Hr Hh HF. destruct (p g) as [res g'] eqn:Ep. destruct (Hr _ _ Ep) as [Hh' HQ]. simpl.
  destruct res as [v|e]; [by exists v; auto|]. destruct HQ as [_ [?|?]]; done.
Qed.
Lemma child_groups_none db s : (forall x y, x ∈ s -> ¬ nested db x y) -> child_groups db s = ∅.
Proof.
  intros Hn. apply set_eq. intros y. rewrite elem_of_child_groups. split; [|set_solver].
  intros (x & Hx & Hy). by destruct (Hn x y Hx).
Qed.
(** The depth limit can be passed.  The check measures the chains below the group that receives
    a member and not those above it: at the end of a chain of any length a further group without
    nested groups is accepted, so nesting grows without bound from the top down. *)
Theorem depth_limit_bypassed g top n x c caller_id :
  group_inv g -> healthy g -> nsteps (nested (db_of g)) n top x ->
  (forall y, ¬ nested (db_of g) x y) -> (forall y, ¬ nested (db_of g) c y) ->
  c ≠ x -> x ≠ INTERNAL_GROUP_ID -> refs_exist g x (MemberGroup c) caller_id ->
  exists g', add_member pg_message x (MemberGroup c) caller_id g = (Ok tt, g')
    ∧ group_inv g' ∧ nsteps (nested (db_of g')) (S n) top c.
Proof.
  intros Hinv Hh Hn Hx Hc Hne Hi Hr. assert (Ha : admissible g x (MemberGroup c) caller_id).
  { split_and!; [done|done|apply Hx|done| |].
    - intros Ht. inversion Ht as [? ? Hy|? ? ? Hy]; by apply Hc in Hy.
    - exists 1%Z. split; [|done]. unfold sql_depth. rewrite child_groups_none by set_solver.
      cbn [path_depth]. rewrite decide_False by set_solver. rewrite child_groups_none by set_solver.
      by rewrite decide_True. }
  destruct (add_member pg_message x (MemberGroup c) caller_id g) as [res g'] eqn:Ho.
  pose proof (inv_group_op (OpAdd x (MemberGroup c) caller_id) g Hinv) as Hinv'. simpl in Hinv'. rewrite Ho in Hinv'.
  destruct (add_member_spec _ _ _ _ _ _ Ho) as [(e & _ & _ & Hf)|(_ & uids & Hch & Hf)]; [by destruct Hf|].
  destruct Hf as [[-> _]|[_ ?]]; [|done]. exists g'. split_and!; [done|done|].
  rewrite (changed_db _ _ _ _ Hch). eapply nsteps_r.
  - apply (nsteps_congruence (R:=nested (db_of g)) (fun y : Uuid => y)); [|exact Hn]. intros ? ? ?. apply nested_added. by left.
  - apply nested_added. by right.
Qed.
Lemma cycle_never_ends db x : tc (nested db) x x -> forall fuel s d, x ∈ s -> path_depth fuel db s d = None.
Proof.
  intros Hx. assert (Hgen : forall fuel s d, (exists y, y ∈ s ∧ rtc (nested db) y x) -> path_depth fuel db s d = None).
  { induction fuel as [|fuel IH]; intros s d (y & Hy & Hr); simpl; rewrite decide_False by set_solver; [done|].
    apply IH. assert (Ht : tc (nested db) y x) by by eapply tc_rtc_l.
    inversion Ht as [? ? Hz|? z ? Hz Hzx]; subst.
    - exists x. split; [apply elem_of_child_groups; eauto|done].
    - exists z. split; [apply elem_of_child_groups; eauto|by apply tc_rtc]. }
  intros fuel s d Hs. apply Hgen. by exists x.
Qed.
(** Concurrent additions can close a cycle.  The lock is of the row of the group that receives
    the member, so two additions to different groups check before either inserts: when each of
    the new members leads to the other group, both pass all checks and are stored, a group then
    contains itself, and from then on the depth query of an addition below it never ends. *)
Theorem racing_adds_close_cycle g a b c d caller_id :
  healthy g -> admissible g a (MemberGroup b) caller_id -> admissible g c (MemberGroup d) caller_id ->
  a ≠ c -> rtc (nested (db_of g)) b c -> rtc (nested (db_of g)) d a ->
  let g1 := snd (repo_add_checks a (MemberGroup b) g) in
  let g2 := snd (repo_add_checks c (MemberGroup d) g1) in
  let g3 := snd (repo_add_insert pg_message a (MemberGroup b) caller_id g2) in
  let g4 := snd (repo_add_insert pg_message c (MemberGroup d) caller_id g3) in
  fst (repo_add_checks a (MemberGroup b) g) = Ok tt ∧ fst (repo_add_checks c (MemberGroup d) g1) = Ok tt
  ∧ fst (repo_add_insert pg_message a (MemberGroup b) caller_id g2) = Ok tt
  ∧ fst (repo_add_insert pg_message c (MemberGroup d) caller_id g3) = Ok tt
  ∧ ¬ acyclic (db_of g4) ∧ forall fuel s k, a ∈ s -> path_depth fuel (db_of g4) s k = None.
Proof.
  intros Hh Ha Hc Hne Hbc Hda g1 g2 g3 g4.
  destruct (runs_ok _ _ _ _ (runs_add_checks g a (MemberGroup b)) Hh) as ([] & E1 & (Q1 & _) & H1); [by intros Hx; apply (Hx caller_id)|].
  fold g1 in Q1, H1. destruct (runs_ok _ _ _ _ (runs_add_checks g1 c (MemberGroup d)) H1) as ([] & E2 & (Q2 & _) & H2).
  { intros Hx. apply (Hx caller_id). by rewrite (admissible_quiet g g1). }
  fold g2 in Q2, H2. assert (Q02 : quiet g g2) by by etrans.
  destruct (runs_ok _ _ _ _ (runs_add_insert g2 a (MemberGroup b) caller_id) H2) as ([] & E3 & HQ3 & H3).
  { intros Hx. apply Hx. destruct (proj2 (admissible_quiet g g2 _ _ _ Q02) Ha) as (_ & ? & ? & _). done. }
  fold g3 in HQ3, H3. destruct HQ3 as (_ & _ & g2' & Q2' & E3'). assert (Q02' : quiet g g2') by by etrans.
  destruct (runs_ok _ _ _ _ (runs_add_insert g3 c (MemberGroup d) caller_id) H3) as ([] & E4 & HQ4 & H4).
  { intros Hx. apply Hx. destruct (proj2 (admissible_quiet g g2' _ _ _ Q02') Hc) as (_ & Hr & Hn & _).
    rewrite E3'. split; [|exact Hr]. simpl. rewrite elem_of_app, list_elem_of_singleton.
    intros [?|[= ? ?]]; done. }
  fold g4 in HQ4. destruct HQ4 as (_ & _ & g3' & Q3' & E4').
  assert (Hdb : db_of g4 = added (added (db_of g) a (MemberGroup b)) c (MemberGroup d)).
  { rewrite E4'. destruct Q3' as [fs ->]. simpl. rewrite E3'. destruct Q02' as [fs' ->]. done. }
  assert (Hold : forall x y, rtc (nested (db_of g)) x y -> rtc (nested (db_of g4)) x y).
  { intros x y. apply rtc_subrel. intros ? ? ?. rewrite Hdb. do 2 (apply nested_added; left). done. }
  assert (Ht : tc (nested (db_of g4)) a a).
  { eapply tc_l; [rewrite Hdb; apply nested_added; left; apply nested_added; by right|].
    eapply tc_rtc_l; [by apply Hold|]. eapply tc_rtc_r; [|by apply Hold].
    apply tc_once. rewrite Hdb. apply nested_added. by right. }
  split_and!; [done|done|done|done| |].
  - intros Hac. by apply (Hac a).
  - intros fuel s k. by apply cycle_never_ends.
Qed.
(** Deleting a nested group can empty its parent.  The guard of [remove_member] says that a
    group never drops to no users, because it may own a drive; deleting the only group nested in
    it is not guarded, and leaves the parent with its grants and without a single user. *)
Theorem group_delete_empties_parent g id x :
  healthy g -> deletable g id -> x ≠ id ->
  (exists u, member_of (db_of g) u x) -> (forall m, (x, m) ∈ group_members (db_of g) -> m = MemberGroup id) ->
  let g' := snd (SubjectGroups.delete id g) in
  fst (SubjectGroups.delete id g) = Ok tt ∧ (forall u, ¬ member_of (db_of g') u x)
  ∧ forall gr, gr ∈ role_grants (db_of g) -> g_subject gr = Group x -> gr ∈ role_grants (db_of g').
Proof.
  intros Hh Hd Hne _ Honly g'. destruct (runs_ok _ _ _ _ (runs_delete g id) Hh) as ([] & E & HQ & _); [auto|].
  fold g' in HQ. destruct HQ as (_ & g1 & [fs ->] & Hg'). split; [done|]. split.
  - intros u Hu. assert (exists m, (x, m) ∈ group_members (db_of g')) as [m Hm] by (inversion Hu; eauto).
    rewrite Hg' in Hm. simpl in Hm. apply list_elem_of_filter in Hm as [[_ Hn] Hm]. by apply Hn, Honly.
  - intros gr Hin Hs. rewrite Hg'. simpl. apply list_elem_of_filter. split; [|done]. rewrite Hs. congruence.
Qed.
End proofs.

(** ** Concrete runs *)
Module GroupDemo.
Definition uuid_text : UuidText := decimal_uuid_text.
#[export] Existing Instance uuid_text.
Definition text : str -> str := fun s => s.
Definition rows : gmap Uuid SubjectGroup :=
  list_to_map ((fun i => (i, mkSubjectGroup i (lit "g") None false 0 0))
    <$> [101; 102; 103; 104; 105; 106; 107; 108; 109; 110]%N).
Definition tables (ms : list (Uuid * GroupMember)) : Db := {|
  role_grants := [mkGrant 11 (Group 101) (Drive 400) Owner 31 0 None; mkGrant 12 (User 31) (Drive 401) Owner 31 0 None];
  folders := ∅; files := ∅; users_external := <[31%N := false]> (<[32%N := false]> ∅);
  group_members := ms; drives := ∅; policy_defaults := fun _ => None;
|}.
Definition state (ms : list (Uuid * GroupMember)) : Groups (Cache:=@TtlMap) :=
  mkGroups rows (mkEngine (mkWorld (tables ms) 100 false true) [] cnew cnew cnew cnew cnew cnew cnew).
Definition empty : Groups (Cache:=@TtlMap) := state [].
(** Eight nested levels, built from the top. *)
Definition chain : Groups (Cache:=@TtlMap) :=
  state ((fun i => (i, MemberGroup (i + 1))) <$> [101; 102; 103; 104; 105; 106; 107; 108]%N).
Lemma healthy_state ms : healthy (state ms).
Proof. apply Forall_nil_2. Qed.
Lemma fresh_state ms : groups_fresh (engine (state ms)).
Proof. intros u v Hx. cbn -[cnew cget] in Hx. by rewrite cget_new in Hx. Qed.
Lemma empty_inv : group_inv empty.
Proof.
  constructor; [|intros x m Hin; by apply not_elem_of_nil in Hin|constructor|intros m Hin; by apply not_elem_of_nil in Hin].
  intros x Ht. inversion Ht as [? ? Hy|? ? ? Hy]; by apply not_elem_of_nil in Hy.
Qed.
Lemma chain_inv : group_inv chain.
Proof.
  assert (Hops : chain = run_ops text text
    ((fun i => OpAdd i (MemberGroup (i + 1)) 31) <$> [101; 102; 103; 104; 105; 106; 107; 108]%N) empty)
    by by vm_compute.
  rewrite Hops. apply inv_run_ops, empty_inv.
Qed.
End GroupDemo.
Import GroupDemo.

Lemma group_nesting_acyclic_witness :
  group_inv (run_ops text text [OpAdd 101 (MemberGroup 102) 31; OpAdd 102 (MemberGroup 101) 31] empty).
Proof. apply (group_nesting_acyclic text text _ empty empty_inv). Defined.
Lemma membership_change_takes_effect_witness :
  took_effect empty (snd (add_member text 101 (MemberUser 31) 31 empty))
    (added (db_of empty) 101 (MemberUser 31)).
Proof.
  refine (proj1 (proj1 (proj1 (membership_change_takes_effect text empty 101 (MemberUser 31) 31 (fresh_state []))
    (Ok tt) (snd (add_member text 101 (MemberUser 31) 31 empty)) _) eq_refl)).
  by vm_compute.
Defined.
Lemma seeded_group_keeps_users_witness :
  exists u, member_of (db_of (snd (remove_member 101 (MemberUser 31) (state [(101%N, MemberUser 31)])))) u 101.
Proof.
  refine (proj1 (proj2 (seeded_group_keeps_users text (state [(101%N, MemberUser 31)]) 101 (MemberUser 31) 31 101 _))).
  exists 31%N. constructor. by left.
Defined.
Lemma group_delete_keeps_owner_witness :
  fst (SubjectGroups.delete 101 empty) ≠ Ok tt
  ∧ exists gr, gr ∈ role_grants (db_of (snd (SubjectGroups.delete 102 empty))) ∧ live_owner 100 400 gr.
Proof.
  split; [by vm_compute|].
  refine (proj1 (proj2 (proj2 (group_delete_keeps_owner empty 102 (fst (SubjectGroups.delete 102 empty))
    (snd (SubjectGroups.delete 102 empty)) _ _))) 400%N _).
  - apply (bool_decide_unpack _). by vm_compute.
  - by vm_compute.
  - eexists. split; [by left|done].
Defined.
Lemma depth_limit_bypassed_witness :
  exists g', add_member text 109 (MemberGroup 110) 31 chain = (Ok tt, g')
    ∧ group_inv g' ∧ nsteps (nested (db_of g')) 9 101%N 110%N.
Proof.
  apply (depth_limit_bypassed text text).
  - apply chain_inv.
  - apply healthy_state.
  - do 8 (econstructor; [unfold nested; cbn;
      repeat first [apply list_elem_of_here|apply list_elem_of_further]|]). constructor.
  - intros y Hy. unfold nested in Hy. cbn in Hy. rewrite !elem_of_cons, elem_of_nil in Hy. naive_solver.
  - intros y Hy. unfold nested in Hy. cbn in Hy. rewrite !elem_of_cons, elem_of_nil in Hy. naive_solver.
  - done.
  - done.
  - by vm_compute.
Defined.
Lemma racing_adds_close_cycle_witness :
  let g := state [(102%N, MemberGroup 103); (104%N, MemberGroup 101)] in
  let g1 := snd (repo_add_checks 101 (MemberGroup 102) g) in
  let g2 := snd (repo_add_checks 103 (MemberGroup 104) g1) in
  let g3 := snd (repo_add_insert text 101 (MemberGroup 102) 31 g2) in
  ¬ acyclic (db_of (snd (repo_add_insert text 103 (MemberGroup 104) 31 g3))).
Proof.
  intros g g1 g2 g3.
  assert (Hadm : forall x c, fst (add_member text x (MemberGroup c) 31 g) = Ok tt -> admissible g x (MemberGroup c) 31).
  { intros x c Hx. destruct (add_member text x (MemberGroup c) 31 g) as [res g'] eqn:Ho. simpl in Hx. subst res.
    by destruct (add_member_spec text _ _ _ _ _ _ Ho) as [(e & ? & _)|[? _]]. }
  destruct (racing_adds_close_cycle text g 101 102 103 104 31) as (_ & _ & _ & _ & Hc & _); [| | | | | |exact Hc].
  - apply healthy_state.
  - apply Hadm. by vm_compute.
  - apply Hadm. by vm_compute.
  - done.
  - apply rtc_once. by left.
  - apply rtc_once. by right; left.
Defined.
Lemma group_delete_empties_parent_witness :
  let g := state [(101%N, MemberGroup 102); (102%N, MemberUser 31)] in
  fst (SubjectGroups.delete 102 g) = Ok tt ∧ forall u, ¬ member_of (db_of (snd (SubjectGroups.delete 102 g))) u 101.
Proof.
  intros g. destruct (group_delete_empties_parent g 102 101) as (H1 & H2 & _); [| | | | |by split].
  - apply healthy_state.
  - split; [eexists; by split|by vm_compute].
  - done.
  - exists 31%N. econstructor 2; [by left|]. constructor. by right; left.
  - intros m Hm. cbn in Hm. rewrite !elem_of_cons, elem_of_nil in Hm. naive_solver.
Defined.
