(* ===== verification/BlobDb.v ===== *)
(** * The tables behind deduplicated storage

    The rows [storage.blobs], [storage.chunk_manifests], [storage.pending_actions],
    [storage.files], [storage.content_derived_blobs] and [storage.file_attached_blobs] hold, and
    one definition per SQL statement that reads or changes them, taken from
    [src/src/infrastructure/services/blob_handler.rs], [backend_reclaim_service.rs],
    [src/src/infrastructure/repositories/pg/file_blob_write_repository.rs] and the trigger
    functions of [src/migrations/].  The registry of reference sources
    ([src/src/application/ports/blob_reference_ports.rs] with
    [src/src/infrastructure/repositories/pg/blob_reference_sources.rs]) says which tables count
    as references.

    A statement is one atomic change of the tables.  [now()] is an argument.  An update whose
    [INTEGER] counter would pass [i32::MAX] fails as a whole. *)

From S2P Require Import Prelude.
From S2P Require Import RustStr.
From S2P Require Import DomainErrors.

(** ** Rows *)
Record BlobRow := mkBlob { b_size : Z; b_ref_count : Z; b_orphaned_at : option Z }.
(** What a reader needs of a manifest. *)
Record ChunkManifest := mkChunkManifest {
  chunk_hashes : list str;
  chunk_sizes : list Z;
  total_size : Z;
}.
Record ManifestRow := mkManifest {
  m_layout : ChunkManifest;
  m_content_type : option str;
  m_ref_count : Z;
}.
Record PendingRow := mkPending {
  p_size : Z;
  p_attempts : Z;
  p_last_attempt_at : option Z;
  p_parked_at : option Z;
}.
Record FileRow := mkFile {
  f_folder : N;
  f_name : str;
  f_blob : str;
  f_size : Z;
  f_is_trashed : bool;
}.
Record Tables := mkTables {
  blobs : gmap str BlobRow;
  manifests : gmap str ManifestRow;
  pending : gmap str PendingRow;
  folders : gset N;
  file_rows : gmap N FileRow;
  (** keyed by source hash, kind and variant; [None] records that there is nothing to derive *)
  derived : gmap (str * str * str) (option str);
  (** keyed by file, kind and variant *)
  attached : gmap (N * str * str) str;
}.
Definition set_blobs (f : gmap str BlobRow -> gmap str BlobRow) (t : Tables) : Tables :=
  mkTables (f (blobs t)) (manifests t) (pending t) (folders t) (file_rows t) (derived t) (attached t).
Definition set_manifests (f : gmap str ManifestRow -> gmap str ManifestRow) (t : Tables) : Tables :=
  mkTables (blobs t) (f (manifests t)) (pending t) (folders t) (file_rows t) (derived t) (attached t).
Definition set_pending (f : gmap str PendingRow -> gmap str PendingRow) (t : Tables) : Tables :=
  mkTables (blobs t) (manifests t) (f (pending t)) (folders t) (file_rows t) (derived t) (attached t).
Definition set_files (f : gmap N FileRow -> gmap N FileRow) (t : Tables) : Tables :=
  mkTables (blobs t) (manifests t) (pending t) (folders t) (f (file_rows t)) (derived t) (attached t).
Definition set_derived
  (f : gmap (str * str * str) (option str) -> gmap (str * str * str) (option str)) (t : Tables) : Tables :=
  mkTables (blobs t) (manifests t) (pending t) (folders t) (file_rows t) (f (derived t)) (attached t).
Definition set_attached (f : gmap (N * str * str) str -> gmap (N * str * str) str) (t : Tables)
  : Tables :=
  mkTables (blobs t) (manifests t) (pending t) (folders t) (file_rows t) (derived t) (f (attached t)).

Definition i32_max : Z := 2147483647.
Definition out_of_range : str := lit "integer out of range".

(** [SELECT COUNT( * ) .. WHERE P]; [EXISTS] is a positive count. *)
Definition count {K V} `{Countable K} (P : V -> Prop) `{forall v, Decision (P v)} (m : gmap K V) : nat :=
  size (filter (fun kv : K * V => P kv.2) m).
(** [UPDATE .. SET f WHERE hash = ANY(hs)]: every row at most once. *)
Definition update_any {V} (hs : list str) (f : V -> V) (m : gmap str V) : gmap str V :=
  map_imap (fun h v => Some (if decide (h ∈ hs) then f v else v)) m.
Definition is_present {V} (m : gmap str V) (h : str) : bool :=
  match m !! h with Some _ => true | None => false end.

(** ** The registry of reference sources *)
Inductive RefLevel := Chunk | Manifest.
Record BlobReferenceSource := mkSource {
  source_name : str;
  ref_count_sql : RefLevel -> option (Tables -> str -> nat);
  ref_exists_sql : RefLevel -> option (Tables -> str -> bool);
}.
Definition BlobReferenceRegistry : Type := list BlobReferenceSource.

Definition files_with (t : Tables) (h : str) : nat := count (fun f => f_blob f = h) (file_rows t).
Definition manifests_with (t : Tables) (h : str) : nat :=
  count (fun m => h ∈ chunk_hashes (m_layout m)) (manifests t).
Definition derived_with (t : Tables) (h : str) : nat := count (fun b => b = Some h) (derived t).
Definition attached_with (t : Tables) (h : str) : nat := count (fun b => b = h) (attached t).

(** At the chunk level a file counts only when its hash has no manifest. *)
Definition files_ref_sql (level : RefLevel) : option (Tables -> str -> nat) :=
  match level with
  | Chunk => Some (fun t h => if is_present (manifests t) h then O else files_with t h)
  | Manifest => Some files_with
  end.
Definition files_exists_sql (level : RefLevel) : option (Tables -> str -> bool) :=
  match level with
  | Chunk => Some (fun t h => bool_decide (0 < files_with t h)%nat && negb (is_present (manifests t) h))
  | Manifest => Some (fun t h => bool_decide (0 < files_with t h)%nat)
  end.
Definition chunks_ref_sql (level : RefLevel) : option (Tables -> str -> nat) :=
  match level with Chunk => Some manifests_with | Manifest => None end.
Definition chunks_exists_sql (level : RefLevel) : option (Tables -> str -> bool) :=
  match level with
  | Chunk => Some (fun t h => bool_decide (0 < manifests_with t h)%nat)
  | Manifest => None
  end.
Definition content_derived_ref_sql (level : RefLevel) : option (Tables -> str -> nat) :=
  match level with Chunk => None | Manifest => Some derived_with end.
Definition content_derived_exists_sql (level : RefLevel) : option (Tables -> str -> bool) :=
  match level with
  | Chunk => None
  | Manifest => Some (fun t h => bool_decide (0 < derived_with t h)%nat)
  end.
Definition file_attached_ref_sql (level : RefLevel) : option (Tables -> str -> nat) :=
  match level with Chunk => None | Manifest => Some attached_with end.
Definition file_attached_exists_sql (level : RefLevel) : option (Tables -> str -> bool) :=
  match level with
  | Chunk => None
  | Manifest => Some (fun t h => bool_decide (0 < attached_with t h)%nat)
  end.

Definition FilesReferenceSource : BlobReferenceSource :=
  mkSource (lit "files") files_ref_sql files_exists_sql.
Definition ChunksReferenceSource : BlobReferenceSource :=
  mkSource (lit "chunks") chunks_ref_sql chunks_exists_sql.
Definition ContentDerivedReferenceSource : BlobReferenceSource :=
  mkSource (lit "content_derived") content_derived_ref_sql content_derived_exists_sql.
Definition FileAttachedReferenceSource : BlobReferenceSource :=
  mkSource (lit "file_attached") file_attached_ref_sql file_attached_exists_sql.

(** The sum of the sources' fragments, ["0"] when there is none. *)
Definition ref_count_expr (reg : BlobReferenceRegistry) (level : RefLevel) (t : Tables) (h : str) : nat :=
  sum_list ((fun f => f t h) <$> omap (fun s => ref_count_sql s level) reg).
(** [None] when no source contributes: the caller must not take that for "unreferenced". *)
Definition no_reference_predicate (reg : BlobReferenceRegistry) (level : RefLevel)
  : option (Tables -> str -> bool) :=
  match omap (fun s => ref_exists_sql s level) reg with
  | [] => None
  | fragments => Some (fun t h => negb (existsb (fun f : Tables -> str -> bool => f t h) fragments))
  end.
Definition built_in_registry : BlobReferenceRegistry :=
  [FilesReferenceSource; ChunksReferenceSource; ContentDerivedReferenceSource;
   FileAttachedReferenceSource].

(** ** Statements on [storage.blobs] *)
Definition bump_blob (b : BlobRow) : BlobRow := mkBlob (b_size b) (b_ref_count b + 1) None.
(** [GREATEST(ref_count - n, 0)], stamping [orphaned_at] when the counter reaches zero. *)
Definition release_by (now n : Z) (b : BlobRow) : BlobRow :=
  let rc := Z.max (b_ref_count b - n) 0 in
  mkBlob (b_size b) rc (if decide (rc = 0%Z) then Some now else b_orphaned_at b).
Definition release_blob (now : Z) : BlobRow -> BlobRow := release_by now 1.
Definition full (b : BlobRow) : bool := bool_decide (i32_max <= b_ref_count b)%Z.

(** The statements return the rows they matched or the database's error. *)
Definition stmt (T : Type) : Type := Tables -> result str T * Tables.
Definition q_pin (hs : list str) : stmt (list str) := fun t =>
  let hit := filter (fun h => is_present (blobs t) h = true) (remove_dups hs) in
  if existsb (fun h => match blobs t !! h with Some b => full b | None => false end) hit
  then (Err out_of_range, t)
  else (Ok hit, set_blobs (update_any hs bump_blob) t).
Definition q_cancel (hs : list str) : stmt (list str) := fun t =>
  (Ok (filter (fun h => is_present (pending t) h = true) (remove_dups hs)),
   set_pending (fun p => foldr delete p hs) t).
Definition register_row (m : gmap str BlobRow) (row : str * Z) : gmap str BlobRow :=
  <[row.1 := match m !! row.1 with Some b => bump_blob b | None => mkBlob row.2 1 None end]> m.
Definition q_register (rows : list (str * Z)) : stmt unit := fun t =>
  if existsb (fun row => match blobs t !! row.1 with Some b => full b | None => false end) rows
  then (Err out_of_range, t)
  else (Ok tt, set_blobs (fun m => foldl register_row m rows) t).
Definition register_orphan (now : Z) (m : gmap str BlobRow) (row : str * Z) : gmap str BlobRow :=
  match m !! row.1 with Some _ => m | None => <[row.1 := mkBlob row.2 0 (Some now)]> m end.
Definition q_register_orphans (now : Z) (rows : list (str * Z)) : stmt unit := fun t =>
  (Ok tt, set_blobs (fun m => foldl (register_orphan now) m rows) t).
Definition q_release (now : Z) (hs : list str) : stmt unit := fun t =>
  (Ok tt, set_blobs (update_any hs (release_blob now)) t).
(** The decrements of one collected batch, one entry per hash. *)
Definition q_release_counted (now : Z) (ds : list (str * Z)) : stmt unit := fun t =>
  (Ok tt, set_blobs (map_imap (fun h b =>
     Some (match list_find (fun d : str * Z => d.1 = h) ds with
           | Some (_, d) => release_by now d.2 b
           | None => b
           end))) t).
Definition q_add_blob_ref (h : str) : stmt bool := fun t =>
  match blobs t !! h with
  | None => (Ok false, t)
  | Some b => if full b then (Err out_of_range, t) else (Ok true, set_blobs <[h := bump_blob b]> t)
  end.

(** [INSERT INTO storage.pending_actions .. ON CONFLICT (hash, action) DO NOTHING] *)
Definition queue_deletion (p : gmap str PendingRow) (row : str * Z) : gmap str PendingRow :=
  match p !! row.1 with Some _ => p | None => <[row.1 := mkPending row.2 0 None None]> p end.
(** [DELETE .. RETURNING hash, size] and the queueing of the deletions, in one statement. *)
Definition reap_rows (rows : list (str * Z)) (t : Tables) : Tables :=
  set_pending (fun p => foldl queue_deletion p rows)
    (set_blobs (fun m => foldr (fun row : str * Z => delete row.1) m rows) t).

(** The transaction of [remove_legacy_reference]: [None] when there is no row, otherwise
    whether the row was deleted. *)
Definition q_release_legacy (h : str) : stmt (option bool) := fun t =>
  match blobs t !! h with
  | None => (Ok None, t)
  | Some b =>
      let new_ref_count := Z.max (b_ref_count b - 1) 0 in
      if decide (new_ref_count = 0%Z) then (Ok (Some true), reap_rows [(h, b_size b)] t)
      else (Ok (Some false),
            set_blobs <[h := mkBlob (b_size b) new_ref_count (b_orphaned_at b)]> t)
  end.
Definition q_cleanup (h : str) : stmt bool := fun t =>
  match blobs t !! h with
  | Some b =>
      if bool_decide (b_ref_count b <= 0)%Z && bool_decide (manifests_with t h = O)
      then (Ok true, reap_rows [(h, b_size b)] t) else (Ok false, t)
  | None => (Ok false, t)
  end.

(** The condition of [blob_reap_sql]. *)
Definition reapable_blob (reg : BlobReferenceRegistry) (now grace : Z) (t : Tables) (h : str) (b : BlobRow)
  : bool :=
  bool_decide (b_ref_count b <= 0)%Z
  && match b_orphaned_at b with None => true | Some at_ => bool_decide (at_ < now - grace)%Z end
  && bool_decide (manifests_with t h = O) && bool_decide (files_with t h = O)
  && match no_reference_predicate reg Chunk with Some unreferenced => unreferenced t h | None => false end.
Definition blob_reap_sql (reg : BlobReferenceRegistry) (now : Z) (limit : nat) (grace : Z)
  : stmt (list (str * Z)) := fun t =>
  let rows := (fun kv : str * BlobRow => (kv.1, b_size kv.2)) <$>
    take limit (filter (fun kv => reapable_blob reg now grace t kv.1 kv.2 = true) (map_to_list (blobs t))) in
  (Ok rows, reap_rows rows t).

(** ** Statements on [storage.chunk_manifests] *)
Definition q_insert_manifest (h : str) (layout : ChunkManifest) (content_type : option str) (rc : Z)
  : stmt bool := fun t =>
  match manifests t !! h with
  | Some _ => (Ok false, t)
  | None => (Ok true, set_manifests <[h := mkManifest layout content_type rc]> t)
  end.
Definition add_manifest_refs (n : Z) (m : ManifestRow) : ManifestRow :=
  mkManifest (m_layout m) (m_content_type m) (m_ref_count m + n).
Definition q_bump_manifest (h : str) : stmt (option Z) := fun t =>
  match manifests t !! h with
  | None => (Ok None, t)
  | Some m =>
      if bool_decide (i32_max <= m_ref_count m)%Z then (Err out_of_range, t)
      else (Ok (Some (total_size (m_layout m))), set_manifests <[h := add_manifest_refs 1 m]> t)
  end.
Definition q_add_manifest_ref (h : str) : stmt bool := fun t =>
  match q_bump_manifest h t with
  | (Ok r, t') => (Ok (match r with Some _ => true | None => false end), t')
  | (Err e, t') => (Err e, t')
  end.
Definition q_manifest_for_release (h : str) : stmt (option (Z * list str)) := fun t =>
  (Ok ((fun m => (m_ref_count m, chunk_hashes (m_layout m))) <$> manifests t !! h), t).
Definition q_manifest (h : str) : stmt (option ChunkManifest) := fun t =>
  (Ok (m_layout <$> manifests t !! h), t).
(** The transaction of [remove_manifest_reference]: [None] when the manifest is gone,
    otherwise whether it was deleted. *)
Definition q_release_manifest (now : Z) (h : str) (chunks : list str) : stmt (option bool) := fun t =>
  match manifests t !! h with
  | None => (Ok None, t)
  | Some m =>
      if bool_decide (m_ref_count m <= 1)%Z
      then (Ok (Some true), set_blobs (update_any chunks (release_blob now)) (set_manifests (delete h) t))
      else (Ok (Some false), set_manifests <[h := add_manifest_refs (-1) m]> t)
  end.
Definition manifest_reap_sql (reg : BlobReferenceRegistry) (limit : nat)
  : stmt (list (str * list str * Z)) := fun t =>
  let rows := take limit (filter (fun kv : str * ManifestRow =>
      match no_reference_predicate reg Manifest with Some orphaned => orphaned t kv.1 | None => false end
      = true) (map_to_list (manifests t))) in
  (Ok ((fun kv => (kv.1, chunk_hashes (m_layout kv.2), total_size (m_layout kv.2))) <$> rows),
   set_manifests (fun m => foldr (fun kv => delete (kv : str * ManifestRow).1) m rows) t).

(** ** Derived and attached content *)
Definition unexpected_null : str := lit "unexpected null; try decoding as an `Option`".
(** The rows are decoded as [String]: a row without a blob makes the call fail after the
    statement has deleted the rows. *)
Definition q_delete_derived (source : str) : stmt (list str) := fun t =>
  let gone := (map_to_list (filter (fun kv => kv.1.1.1 = source) (derived t))).*2 in
  (match mapM id gone with Some hs => Ok hs | None => Err unexpected_null end,
   set_derived (filter (fun kv => kv.1.1.1 ≠ source)) t).
Definition q_insert_derived (source kind_ variant : str) (h : option str) : stmt bool := fun t =>
  if (is_present (manifests t) source || is_present (blobs t) source)
     && match derived t !! (source, kind_, variant) with None => true | Some _ => false end
  then (Ok true, set_derived <[(source, kind_, variant) := h]> t) else (Ok false, t).
Definition q_find_attached (file : N) (kind_ variant : str) : stmt (option str) := fun t =>
  (Ok (attached t !! (file, kind_, variant)), t).
Definition foreign_key : str := lit "violates foreign key constraint".
Definition q_upsert_attached (file : N) (kind_ variant h : str) : stmt unit := fun t =>
  match file_rows t !! file with
  | None => (Err foreign_key, t)
  | Some _ => (Ok tt, set_attached <[(file, kind_, variant) := h]> t)
  end.

(** ** Statements on [storage.files] *)

(** [storage.add_blob_references], one hash: the manifest first, else the blob. *)
Definition add_blob_reference (t : option Tables) (h : str) : option Tables :=
  t ← t;
  match manifests t !! h, blobs t !! h with
  | Some m, _ => if bool_decide (i32_max <= m_ref_count m)%Z then None
                 else Some (set_manifests <[h := add_manifest_refs 1 m]> t)
  | None, Some b => if full b then None else Some (set_blobs <[h := bump_blob b]> t)
  | None, None => Some t
  end.

(** The trigger [storage.decrement_blob_ref], once per deleted row. *)
Definition decrement_blob_ref (now : Z) (h : str) (t : Tables) : Tables :=
  match manifests t !! h with
  | Some m => set_manifests <[h := mkManifest (m_layout m) (m_content_type m)
                                     (Z.max (m_ref_count m - 1) 0)]> t
  | None => set_blobs (alter (release_blob now) h) t
  end.
(** Deleting a file row removes its attachments, and the trigger runs for each of them. *)
Definition q_delete_file (now : Z) (id : N) : stmt bool := fun t =>
  match file_rows t !! id with
  | None => (Ok false, t)
  | Some f =>
      let gone := (map_to_list (filter (fun kv => kv.1.1.1 = id) (attached t))).*2 in
      let t1 := set_attached (filter (fun kv => kv.1.1.1 ≠ id)) (set_files (delete id) t) in
      (Ok true, foldl (fun t h => decrement_blob_ref now h t) t1 (f_blob f :: gone))
  end.
Definition name_taken (t : Tables) (folder : N) (name : str) : bool :=
  bool_decide (0 < count (fun f => f_folder f = folder ∧ f_name f = name ∧ f_is_trashed f = false)
                         (file_rows t))%nat.
Inductive InsertError := UniqueViolation | InsertFailed (e : str).
(** [None] when the parent folder does not exist. *)
Definition q_insert_file (folder : N) (name h : str) (size : Z)
  : Tables -> result InsertError (option N) * Tables := fun t =>
  if decide (folder ∈ folders t) then
    if name_taken t folder name then (Err UniqueViolation, t)
    else let id := fresh (dom (file_rows t)) in
         (Ok (Some id), set_files <[id := mkFile folder name h size false]> t)
  else (Ok None, t).
(** The compare-and-swap of [swap_blob_hash]: the old hash and whether it matched. *)
Definition q_swap_file (id : N) (new_hash : str) (new_size : Z) (expected : option str)
  : stmt (option (str * bool)) := fun t =>
  match file_rows t !! id with
  | None => (Ok None, t)
  | Some f =>
      let matched := match expected with None => true | Some e => bool_decide (f_blob f = e) end in
      (Ok (Some (f_blob f, matched)),
       if matched
       then set_files <[id := mkFile (f_folder f) (f_name f) new_hash new_size (f_is_trashed f)]> t
       else t)
  end.
Definition q_file_hash (id : N) : stmt (option str) := fun t => (Ok (f_blob <$> file_rows t !! id), t).
(** The live file of that folder, name and content, if there is one. *)
Definition q_identical_file (folder : N) (name h : str) : stmt (option N) := fun t =>
  (Ok (head ((map_to_list (filter (fun kv : N * FileRow =>
      f_folder kv.2 = folder ∧ f_name kv.2 = name ∧ f_blob kv.2 = h ∧ f_is_trashed kv.2 = false)
      (file_rows t))).*1)), t).
(** The transaction of [copy_file] with [storage.copy_file_satellites]: the new row and its
    attachments take their references with it.  [None] when the source or the folder is missing. *)
Definition q_copy_file (src : N) (target : option N) (new_name : option str)
  : Tables -> result InsertError (option N) * Tables := fun t =>
  match file_rows t !! src with
  | Some f =>
      let folder := default (f_folder f) target in
      let name := default (f_name f) new_name in
      if f_is_trashed f then (Ok None, t)
      else if decide (folder ∈ folders t) then
        if name_taken t folder name then (Err UniqueViolation, t)
        else
          let id := fresh (dom (file_rows t)) in
          let copied := map_to_list (filter (fun kv => kv.1.1.1 = src) (attached t)) in
          let t1 := set_attached (fun a => foldl (fun a (kv : N * str * str * str) =>
                        <[(id, kv.1.1.2, kv.1.2) := kv.2]> a) a copied)
                      (set_files <[id := mkFile folder name (f_blob f) (f_size f) false]> t) in
          match foldl add_blob_reference (Some t1) (f_blob f :: copied.*2) with
          | Some t2 => (Ok (Some id), t2)
          | None => (Err (InsertFailed out_of_range), t)
          end
      else (Ok None, t)
  | None => (Ok None, t)
  end.

(** ** Statements on [storage.pending_actions] *)

(** The re-check of [settle_one] under the row lock. *)
Definition still_unreferenced (t : Tables) (h : str) : bool :=
  negb (is_present (blobs t) h || bool_decide (0 < manifests_with t h)%nat).
Definition record_attempt (now attempts : Z) (park : bool) (p : PendingRow) : PendingRow :=
  mkPending (p_size p) attempts (Some now) (if park then Some now else p_parked_at p).
