(* ===== verification/BlobCount.v ===== *)
(** * Counting rows

    How [count], the row count of a condition, changes with the statements of [BlobDb], and what
    those statements leave at each key. *)

From S2P Require Import Prelude.
From S2P Require Import RustStr.
From S2P Require Import DomainErrors.
From S2P Require Import BlobDb.

(** 1 when [P], else 0. *)
Definition one (P : Prop) `{Decision P} : nat := if decide P then 1%nat else 0%nat.

Section count.
Context {K V : Type} `{Countable K} (P : V -> Prop) `{forall v, Decision (P v)}.
Implicit Types (m : gmap K V).

Lemma count_empty : count P (∅ : gmap K V) = O.
Proof. unfold count. by rewrite map_filter_empty. Qed.
Lemma count_insert_new m k v : m !! k = None -> count P (<[k := v]> m) = (count P m + one (P v))%nat.
Proof.
  intros Hk. unfold count, one. destruct (decide (P v)) as [Hp|Hp].
  - rewrite map_filter_insert_True by done. rewrite map_size_insert_None; [lia|].
    by rewrite map_lookup_filter, Hk.
  - rewrite map_filter_insert_False by done. rewrite delete_id by done. lia.
Qed.
Lemma count_delete m k v : m !! k = Some v -> count P m = (count P (delete k m) + one (P v))%nat.
Proof.
  intros Hk. rewrite <- (insert_delete_id m k v Hk) at 1. apply count_insert_new. by rewrite lookup_delete_eq.
Qed.
Lemma count_replace m k v v' :
  m !! k = Some v -> (count P (<[k := v']> m) + one (P v) = count P m + one (P v'))%nat.
Proof.
  intros Hk. rewrite (count_delete m k v Hk). rewrite <- insert_delete_eq.
  rewrite count_insert_new by by rewrite lookup_delete_eq. lia.
Qed.
Lemma count_replace_same m k v v' :
  m !! k = Some v -> (P v <-> P v') -> count P (<[k := v']> m) = count P m.
Proof.
  intros Hk Hiff. pose proof (count_replace m k v v' Hk) as Hc. revert Hc. unfold one.
  do 2 case_decide; try tauto; lia.
Qed.
Lemma count_pos m : (0 < count P m)%nat <-> exists k v, m !! k = Some v ∧ P v.
Proof.
  unfold count. split.
  - intros Hs. destruct (map_choose (filter (fun kv => P kv.2) m)) as (k & v & Hkv).
    { intros He. rewrite He, map_size_empty in Hs. lia. }
    apply map_lookup_filter_Some in Hkv as [? ?]. eauto.
  - intros (k & v & Hk & Hp). destruct (size (filter (fun kv => P kv.2) m)) eqn:Es; [|lia].
    apply map_size_empty_inv in Es. exfalso. apply (map_empty (filter (fun kv => P kv.2) m)) with k in Es.
    apply map_lookup_filter_None in Es as [He|He]; [congruence|]. by apply (He v Hk).
Qed.
Lemma count_zero m : count P m = O <-> forall k v, m !! k = Some v -> ~ P v.
Proof.
  pose proof (count_pos m) as Hp. split.
  - intros Hz k v Hk Hv. assert (0 < count P m)%nat by (apply Hp; eauto). lia.
  - intros Hn. destruct (count P m) eqn:Ec; [done|]. destruct Hp as [Hp _].
    destruct (Hp ltac:(lia)) as (k & v & Hk & Hv). by destruct (Hn k v Hk).
Qed.
(** Splitting a table in two. *)
Lemma filter_absent (Q : K * V -> Prop) `{forall kv, Decision (Q kv)} m k :
  m !! k = None -> filter Q m !! k = None.
Proof. intros Hk. by rewrite map_lookup_filter, Hk. Qed.
Lemma count_split (Q : K * V -> Prop) `{forall kv, Decision (Q kv)} m :
  count P m = (count P (filter Q m) + count P (filter (fun kv => ~ Q kv) m))%nat.
Proof.
  induction m as [|k v m Hk IH] using map_ind.
  { by rewrite !map_filter_empty, count_empty. }
  rewrite count_insert_new by done.
  destruct (decide (Q (k, v))) as [Hq|Hq].
  - rewrite map_filter_insert_True by done.
    rewrite (map_filter_insert_False (fun kv => ~ Q kv)) by (intros Hx; by apply Hx).
    rewrite delete_id by done. rewrite count_insert_new by by apply filter_absent. lia.
  - rewrite (map_filter_insert_False Q), delete_id by done. rewrite map_filter_insert_True by done.
    rewrite count_insert_new by by apply filter_absent. lia.
Qed.
Lemma count_values m : count P m = length (filter P (map_to_list m).*2).
Proof.
  induction m as [|k v m Hk IH] using map_ind.
  { by rewrite count_empty, map_to_list_empty. }
  rewrite count_insert_new by done. rewrite (map_to_list_insert m k v Hk). rewrite fmap_cons, filter_cons. cbn [snd].
  unfold one. case_decide; simpl; lia.
Qed.
(** Deleting the listed rows. *)
Lemma lookup_delete_rows (rows : list (K * V)) m k :
  foldr (fun kv => delete kv.1) m rows !! k = if decide (k ∈ rows.*1) then None else m !! k.
Proof.
  induction rows as [|[k' v] rows IH]; simpl; [done|].
  destruct (decide (k = k')) as [->|Hne].
  - rewrite lookup_delete_eq, decide_True; [done|left].
  - rewrite lookup_delete_ne by done. rewrite IH. apply decide_ext. rewrite elem_of_cons. naive_solver.
Qed.
Lemma count_delete_rows (rows : list (K * V)) m :
  NoDup rows.*1 -> (forall kv, kv ∈ rows -> m !! kv.1 = Some kv.2) ->
  count P m = (count P (foldr (fun kv => delete kv.1) m rows) + length (filter P rows.*2))%nat.
Proof.
  induction rows as [|[k v] rows IH]; intros Hnd Hin; [simpl; lia|]. rewrite fmap_cons in Hnd.
  apply list.NoDup_cons in Hnd as [Hk Hnd]. cbn [foldr fst]. rewrite fmap_cons, filter_cons. cbn [snd fst] in *.
  rewrite (IH Hnd) by (intros kv Hkv; apply Hin; by right).
  rewrite (count_delete (foldr (fun kv => delete kv.1) m rows) k v).
  - unfold one. case_decide; simpl; lia.
  - rewrite lookup_delete_rows, decide_False by done. apply (Hin (k, v)). left.
Qed.
End count.

(** ** Updates by key *)
Lemma lookup_update_any {V} (hs : list str) (f : V -> V) (m : gmap str V) h :
  update_any hs f m !! h = (if decide (h ∈ hs) then f <$> m !! h else m !! h).
Proof.
  unfold update_any. rewrite map_lookup_imap. destruct (m !! h); simpl; by case_decide.
Qed.
Lemma is_present_true {V} (m : gmap str V) h : is_present m h = true <-> is_Some (m !! h).
Proof. unfold is_present. destruct (m !! h); split; intros Hx; try done; by destruct Hx. Qed.
Lemma is_present_false {V} (m : gmap str V) h : is_present m h = false <-> m !! h = None.
Proof. unfold is_present. by destruct (m !! h). Qed.
