(* ===== verification/BlobHandler.v ===== *)
(** * The blob handler

    [src/src/infrastructure/services/blob_handler.rs]: files are cut into content-defined chunks
    that are stored once, a manifest lists the chunks of a file, and counters say how often a
    chunk and a manifest are used.  [settle_one] of
    [src/src/infrastructure/services/backend_reclaim_service.rs] unlinks what the collector
    queued, and [src/src/infrastructure/repositories/pg/file_blob_write_repository.rs] records
    the files.

    An operation is a program over atomic commands: one per SQL statement or transaction, per
    call of the storage backend and per access to the manifest cache.  [run] executes one
    program alone; [BlobInv] interleaves several.  Every database command takes the next entry
    of a script of faults, [Some (stage, text)] for a failure, with the statement of a
    transaction it stopped at.

    Parameters: [blake3], the hexadecimal digest of some bytes; [cdc], the chunks the FastCDC
    stream yields for a source.  A session's [seen] set holds the digests of [chunk_hashes].
    The overlapped settling of a batch is executed when it is spawned and its result is looked
    at where the code joins it.  Hooks, audit lines, statistics and content facts are left out. *)

From S2P Require Import Prelude.
From S2P Require Import RustStr.
From S2P Require Import DomainErrors.
From S2P Require Import BlobBackend.
From S2P Require Import StoragePath.
From S2P Require Import BlobDb.

(** ** Commands *)
Definition fault : Type := nat * str.
Definition sqlr (T : Type) : Type := result fault T.
Inductive Settled := Reclaimed (bytes : Z) | Cancelled | Skipped | Failed (parked : bool).

Inductive cmd : Type -> Type :=
(* storage.blobs *)
| QPin (hs : list str) : cmd (sqlr (list str))
| QCancel (hs : list str) : cmd (sqlr (list str))
| QRegister (rows : list (str * Z)) : cmd (sqlr unit)
| QRegisterOrphans (rows : list (str * Z)) : cmd (sqlr unit)
| QRelease (hs : list str) : cmd (sqlr unit)
| QReleaseCounted (ds : list (str * Z)) : cmd (sqlr unit)
| QAddBlobRef (h : str) : cmd (sqlr bool)
| QReleaseLegacy (h : str) : cmd (sqlr (option bool))
| QCleanup (h : str) : cmd (sqlr bool)
| QReapBlobs (limit : nat) (grace : Z) : cmd (sqlr (list (str * Z)))
| QBlobExists (h : str) : cmd (sqlr bool)
(* storage.chunk_manifests *)
| QInsertManifest (h : str) (layout : ChunkManifest) (content_type : option str) : cmd (sqlr bool)
| QBumpManifest (h : str) : cmd (sqlr (option Z))
| QAddManifestRef (h : str) : cmd (sqlr bool)
| QManifestForRelease (h : str) : cmd (sqlr (option (Z * list str)))
| QReleaseManifest (h : str) (chunks : list str) : cmd (sqlr (option bool))
| QReapManifests (limit : nat) : cmd (sqlr (list (str * list str * Z)))
| QManifest (h : str) : cmd (sqlr (option ChunkManifest))
| QManifestExists (h : str) : cmd (sqlr bool)
(* derived and attached content *)
| QDeleteDerived (source : str) : cmd (sqlr (list str))
| QInsertDerived (source kind_ variant : str) (h : option str) : cmd (sqlr bool)
| QFindAttached (file : N) (kind_ variant : str) : cmd (sqlr (option str))
| QUpsertAttached (file : N) (kind_ variant h : str) : cmd (sqlr unit)
(* storage.files *)
| QInsertFile (folder : N) (name h : str) (size : Z) : cmd (result InsertError (option N))
| QSwapFile (id : N) (h : str) (size : Z) (expected : option str) : cmd (sqlr (option (str * bool)))
| QDeleteFile (id : N) : cmd (sqlr bool)
| QFileHash (id : N) : cmd (sqlr (option str))
| QIdenticalFile (folder : N) (name h : str) : cmd (sqlr (option N))
| QCopyFile (src : N) (target : option N) (name : option str) : cmd (result InsertError (option N))
(* storage.pending_actions *)
| QReclaim (h : str) : cmd Settled
(* the backend *)
| BPut (h : str) (data : bytes) : cmd (result DomainError Z)
| BReplace (h : str) (data : bytes) : cmd (result DomainError Z)
| BSync (hs : list str) : cmd (result DomainError unit)
| BGet (h : str) : cmd (result DomainError BlobStream)
| BRange (h : str) (start : Z) (end_ : option Z) : cmd (result DomainError BlobStream)
| BSize (h : str) : cmd (result DomainError Z)
(* the manifest cache *)
| CGet (h : str) : cmd (option ChunkManifest)
| CInsert (h : str) (m : ChunkManifest) : cmd unit
| CInvalidate (h : str) : cmd unit.

(** ** Programs *)
Inductive prog (A : Type) : Type :=
| Ret (a : A)
| Do {X : Type} (c : cmd X) (k : X -> prog A).
Arguments Ret {A} a.
Arguments Do {A X} c k.
Fixpoint pbind {A B} (p : prog A) (f : A -> prog B) : prog B :=
  match p with Ret a => f a | Do c k => Do c (fun x => pbind (k x) f) end.
#[export] Instance prog_ret : MRet prog := fun A a => Ret a.
#[export] Instance prog_bind : MBind prog := fun A B f p => pbind p f.
Definition call {X} (c : cmd X) : prog X := Do c Ret.
(** [p.await?] *)
Notation "x '←?' p ; q" := (pbind p (fun r => match r with Ok x => q | Err e => Ret (Err e) end))
  (at level 20, p at level 100, q at level 200).
(** [.map_err(|e| DomainError::internal_error(entity, format!("{what}{e}")))] *)
Definition sql_err (entity what : str) {T} (r : sqlr T) : result DomainError T :=
  map_err (fun e : fault => DomainError.internal_error entity (what ++ e.2)) r.
Definition Dedup : str := lit "Dedup".
(** A failing transaction: which statement it stopped at selects the message. *)
Definition tx_err (stages : list str) {T} (r : sqlr T) : result DomainError T :=
  map_err (fun e : fault => DomainError.internal_error Dedup (default [] (stages !! e.1) ++ e.2)) r.
Fixpoint for_each {A} (f : A -> prog unit) (l : list A) : prog unit :=
  match l with [] => Ret tt | x :: l => _ ← f x; for_each f l end.

(** ** Execution *)
Definition MAX_ATTEMPTS : Z := 8.
Record World (St : Type) := mkWorld {
  w_tables : Tables;
  w_store : St;
  w_cache : gmap str ChunkManifest;
  w_now : Z;
  (** faults of the database, and of the backend's durability sweep *)
  w_script : list (option fault);
  w_sync : list (option DomainError);
}.
Arguments mkWorld {St}.
Arguments w_tables {St} w.
Arguments w_store {St} w.
Arguments w_cache {St} w.
Arguments w_now {St} w.
Arguments w_script {St} w.
Arguments w_sync {St} w.

Section exec.
Context {St : Type} `{BlobStorageBackend St}.
Definition set_tables (t : Tables) (w : World St) : World St :=
  mkWorld t (w_store w) (w_cache w) (w_now w) (w_script w) (w_sync w).
Definition set_store (s : St) (w : World St) : World St :=
  mkWorld (w_tables w) s (w_cache w) (w_now w) (w_script w) (w_sync w).
Definition set_cache (f : gmap str ChunkManifest -> gmap str ChunkManifest) (w : World St) : World St :=
  mkWorld (w_tables w) (w_store w) (f (w_cache w)) (w_now w) (w_script w) (w_sync w).
Definition next_fault (w : World St) : option fault * World St :=
  match w_script w with
  | [] => (None, w)
  | f :: rest => (f, mkWorld (w_tables w) (w_store w) (w_cache w) (w_now w) rest (w_sync w))
  end.
(** A statement or transaction the script makes fail has no effect. *)
Definition sql {T} (q : stmt T) (w : World St) : sqlr T * World St :=
  let (f, w) := next_fault w in
  match f with
  | Some e => (Err e, w)
  | None => let (r, t) := q (w_tables w) in
            (map_err (fun e => (O, e)) r, set_tables t w)
  end.
Definition sql_insert {T} (q : Tables -> result InsertError T * Tables) (w : World St)
  : result InsertError T * World St :=
  let (f, w) := next_fault w in
  match f with
  | Some e => (Err (InsertFailed e.2), w)
  | None => let (r, t) := q (w_tables w) in (r, set_tables t w)
  end.
Definition on_store {T} (op : M St DomainError T) (w : World St) : result DomainError T * World St :=
  let (r, s) := op (w_store w) in (r, set_store s w).
Definition sync (w : World St) : result DomainError unit * World St :=
  match w_sync w with
  | [] => (Ok tt, w)
  | f :: rest =>
      (match f with Some e => Err e | None => Ok tt end,
       mkWorld (w_tables w) (w_store w) (w_cache w) (w_now w) (w_script w) rest)
  end.
(** The transaction of [settle_one].  The lock on the queued row keeps writers that cancel it
    out from the re-check to the commit, so the transaction is one step.  A fault at the first
    three statements stops it before the unlink, a later one leaves the row. *)
Definition reclaim (h : str) (w : World St) : Settled * World St :=
  let (f, w) := next_fault w in
  let t := w_tables w in
  match f, pending t !! h with
  | Some (0, _), _ | Some (1, _), _ | Some (2, _), _ => (Skipped, w)
  | _, None => (Skipped, w)
  | _, Some p =>
      if still_unreferenced t h then
        let (r, s) := delete_blob h (w_store w) in
        let w := set_store s w in
        match f, r with
        | Some _, _ => (Skipped, w)
        | None, Ok _ => (Reclaimed (Z.max (p_size p) 0), set_tables (set_pending (delete h) t) w)
        | None, Err e =>
            let transient := DomainError.is_transient e in
            let next_attempts := if transient then p_attempts p else (p_attempts p + 1)%Z in
            let park := negb transient && bool_decide (MAX_ATTEMPTS <= next_attempts)%Z in
            (if transient then Skipped else Failed park,
             set_tables (set_pending <[h := record_attempt (w_now w) next_attempts park p]> t) w)
        end
      else match f with
           | Some _ => (Skipped, w)
           | None => (Cancelled, set_tables (set_pending (delete h) t) w)
           end
  end.
Definition exec {X} (c : cmd X) (w : World St) : X * World St :=
  match c with
  | QPin hs => sql (q_pin hs) w
  | QCancel hs => sql (q_cancel hs) w
  | QRegister rows => sql (q_register rows) w
  | QRegisterOrphans rows => sql (q_register_orphans (w_now w) rows) w
  | QRelease hs => sql (q_release (w_now w) hs) w
  | QReleaseCounted ds => sql (q_release_counted (w_now w) ds) w
  | QAddBlobRef h => sql (q_add_blob_ref h) w
  | QReleaseLegacy h => sql (q_release_legacy h) w
  | QCleanup h => sql (q_cleanup h) w
  | QReapBlobs limit grace => sql (blob_reap_sql built_in_registry (w_now w) limit grace) w
  | QBlobExists h => sql (fun t => (Ok (is_present (blobs t) h), t)) w
  | QInsertManifest h layout content_type => sql (q_insert_manifest h layout content_type 1) w
  | QBumpManifest h => sql (q_bump_manifest h) w
  | QAddManifestRef h => sql (q_add_manifest_ref h) w
  | QManifestForRelease h => sql (q_manifest_for_release h) w
  | QReleaseManifest h chunks => sql (q_release_manifest (w_now w) h chunks) w
  | QReapManifests limit => sql (manifest_reap_sql built_in_registry limit) w
  | QManifest h => sql (q_manifest h) w
  | QManifestExists h => sql (fun t => (Ok (is_present (manifests t) h), t)) w
  | QDeleteDerived source => sql (q_delete_derived source) w
  | QInsertDerived source kind_ variant h => sql (q_insert_derived source kind_ variant h) w
  | QFindAttached file kind_ variant => sql (q_find_attached file kind_ variant) w
  | QUpsertAttached file kind_ variant h => sql (q_upsert_attached file kind_ variant h) w
  | QInsertFile folder name h size => sql_insert (q_insert_file folder name h size) w
  | QSwapFile id h size expected => sql (q_swap_file id h size expected) w
  | QDeleteFile id => sql (q_delete_file (w_now w) id) w
  | QFileHash id => sql (q_file_hash id) w
  | QIdenticalFile folder name h => sql (q_identical_file folder name h) w
  | QCopyFile src target name => sql_insert (q_copy_file src target name) w
  | QReclaim h => reclaim h w
  | BPut h data => on_store (put_blob_from_bytes_unsynced h data) w
  | BReplace h data => on_store (put_blob_from_bytes_replace h data) w
  | BSync _ => sync w
  | BGet h => on_store (get_blob_stream h) w
  | BRange h start end_ => on_store (get_blob_range_stream h start end_) w
  | BSize h => on_store (blob_size h) w
  | CGet h => (w_cache w !! h, w)
  | CInsert h m => (tt, set_cache <[h := m]> w)
  | CInvalidate h => (tt, set_cache (delete h) w)
  end.
Fixpoint run {A} (p : prog A) (w : World St) : A * World St :=
  match p with
  | Ret a => (a, w)
  | Do c k => let (x, w) := exec c w in run (k x) w
  end.
Lemma run_bind {A B} (p : prog A) (f : A -> prog B) w :
  run (pbind p f) w = let (a, w) := run p w in run (f a) w.
Proof. revert w. induction p as [a|X c k IH]; intros w; simpl; [done|]. by destruct (exec c w). Qed.
End exec.

(** ** Ingest *)
Definition FLUSH_MAX_CHUNKS : nat := 32.
Definition FLUSH_MAX_BYTES : Z := 8 * 1024 * 1024.
Definition CDC_MAX_CHUNK : Z := 1048576.
Definition GC_ORPHAN_GRACE_SECS : Z := 60 * 60.
Definition BATCH_SIZE : nat := 500.

Record IngestState := mkIngest { pinned : list str; written : list (str * Z) }.
Record ChunkIngestOutcome := mkOutcome {
  o_file_hash : str;
  o_total_size : Z;
  o_chunk_hashes : list str;
  o_chunk_sizes : list Z;
  o_newly_written : nat;
}.
(** First occurrences, in order. *)
Fixpoint distinct_of (seen : list str) (l : list str) : list str :=
  match l with
  | [] => []
  | h :: l => if decide (h ∈ seen) then distinct_of seen l else h :: distinct_of (h :: seen) l
  end.
Definition distinct_hashes (o : ChunkIngestOutcome) : list str := distinct_of [] (o_chunk_hashes o).

Definition run_rollback (st : IngestState) : prog unit :=
  _ ← (match pinned st with [] => Ret tt | hs => _ ← call (QRelease hs); Ret tt end);
  match written st with
  | [] => Ret tt
  | rows =>
      synced ← call (BSync rows.*1);
      match synced with
      | Err _ => Ret tt
      | Ok _ => _ ← call (QRegisterOrphans rows); Ret tt
      end
  end.
(** [buffer_unordered]: the writes are of different chunks; every one of them is made. *)
Fixpoint write_chunks (contested : list str) (to_write : list (str * bytes))
  : prog (list (result DomainError (str * Z))) :=
  match to_write with
  | [] => Ret []
  | (h, data) :: rest =>
      r ← call (if decide (h ∈ contested) then BReplace h data else BPut h data);
      rs ← write_chunks contested rest;
      Ret ((match r with Ok _ => Ok (h, Z.of_nat (length data)) | Err e => Err e end) :: rs)
  end.
Fixpoint collect_written (st : IngestState) (first_err : option DomainError)
  (rs : list (result DomainError (str * Z))) : IngestState * option DomainError :=
  match rs with
  | [] => (st, first_err)
  | Ok row :: rs => collect_written (mkIngest (pinned st) (written st ++ [row])) first_err rs
  | Err e :: rs =>
      collect_written st (match first_err with Some e0 => Some e0 | None => Some e end) rs
  end.
Definition settle_batch (st : IngestState) (batch : list (str * bytes))
  : prog (result DomainError unit * IngestState) :=
  match batch with
  | [] => Ret (Ok tt, st)
  | _ =>
      r ← call (QPin batch.*1);
      match sql_err Dedup (lit "Failed to pin existing chunks: ") r with
      | Err e => Ret (Err e, st)
      | Ok hits =>
          let st := mkIngest (pinned st ++ filter (fun h => h ∈ hits) batch.*1) (written st) in
          match filter (fun b : str * bytes => b.1 ∉ hits) batch with
          | [] => Ret (Ok tt, st)
          | to_write =>
              r ← call (QCancel to_write.*1);
              match sql_err Dedup (lit "Failed to cancel queued deletions for incoming chunks: ") r with
              | Err e => Ret (Err e, st)
              | Ok contested =>
                  results ← write_chunks contested to_write;
                  let '(st, first_err) := collect_written st None results in
                  Ret (match first_err with Some e => Err e | None => Ok tt end, st)
              end
          end
      end
  end.

(** The loop variables of [ingest_chunks_from_stream]; [ig_bytes] is what the file hasher has
    seen. *)
Record Ingest := mkIg {
  ig_bytes : bytes;
  ig_total : Z;
  ig_hashes : list str;
  ig_sizes : list Z;
  ig_pending : list (str * bytes);
  ig_pending_bytes : Z;
  ig_in_flight : option (result DomainError unit);
  ig_state : IngestState;
}.
Definition ingest_start : Ingest := mkIg [] 0 [] [] [] 0 None (mkIngest [] []).
(** [guard.rollback().await; return Err(e)] *)
Definition fail_ingest {A} (st : IngestState) (e : DomainError) : prog (result DomainError A) :=
  _ ← run_rollback st; Ret (Err e).

Section handler.
Variable blake3 : bytes -> str.
Variable cdc : BlobStream -> BlobStream.
(** [OXICLOUD_INGEST_OVERLAP] *)
Variable overlap : bool.

(** One chunk, up to the decision to flush. *)
Definition take_chunk (ig : Ingest) (data : bytes) : Ingest :=
  let h := blake3 data in
  let fresh_ := bool_decide (h ∉ ig_hashes ig) in
  mkIg (ig_bytes ig ++ data) (ig_total ig + Z.of_nat (length data)) (ig_hashes ig ++ [h])
       (ig_sizes ig ++ [Z.of_nat (length data)])
       (if fresh_ then ig_pending ig ++ [(h, data)] else ig_pending ig)
       (if fresh_ then ig_pending_bytes ig + Z.of_nat (length data) else ig_pending_bytes ig)
       (ig_in_flight ig) (ig_state ig).
Definition must_flush (ig : Ingest) (data : bytes) : bool :=
  bool_decide (blake3 data ∉ ig_hashes ig)
  && (bool_decide (FLUSH_MAX_CHUNKS <= length (ig_pending (take_chunk ig data)))%nat
      || bool_decide (FLUSH_MAX_BYTES <= ig_pending_bytes (take_chunk ig data))%Z).
Definition flushed (ig : Ingest) (in_flight : option (result DomainError unit)) (st : IngestState) : Ingest :=
  mkIg (ig_bytes ig) (ig_total ig) (ig_hashes ig) (ig_sizes ig) [] 0 in_flight st.

Fixpoint ingest_loop (items : BlobStream) (ig : Ingest) : prog (result DomainError Ingest) :=
  match items with
  | [] => Ret (Ok ig)
  | Err e :: _ =>
      fail_ingest (ig_state ig)
        (DomainError.internal_error Dedup (lit "Upload stream failed: " ++ io_text e))
  | Ok data :: items =>
      let ig' := take_chunk ig data in
      if must_flush ig data then
        match ig_in_flight ig' with
        | Some (Err e) => fail_ingest (ig_state ig') e
        | _ =>
            settled ← settle_batch (ig_state ig') (ig_pending ig');
            if overlap then ingest_loop items (flushed ig' (Some settled.1) settled.2)
            else match settled.1 with
                 | Err e => fail_ingest settled.2 e
                 | Ok _ => ingest_loop items (flushed ig' None settled.2)
                 end
        end
      else ingest_loop items ig'
  end.
(** The last batch, its durability and its registration. *)
Definition finish_ingest (ig : Ingest) : prog (result DomainError ChunkIngestOutcome) :=
  settled ← settle_batch (ig_state ig) (ig_pending ig);
  let st := settled.2 in
  match settled.1 with
  | Err e => fail_ingest st e
  | Ok _ =>
      let outcome := mkOutcome (blake3 (ig_bytes ig)) (ig_total ig) (ig_hashes ig) (ig_sizes ig)
                               (length (written st)) in
      match written st with
      | [] => Ret (Ok outcome)
      | rows =>
          synced ← call (BSync rows.*1);
          match synced with
          | Err e => fail_ingest st e
          | Ok _ =>
              registered ← call (QRegister rows);
              match sql_err Dedup (lit "Failed to register chunks: ") registered with
              | Err e => fail_ingest st e
              | Ok _ => Ret (Ok outcome)
              end
          end
      end
  end.
Definition ingest_chunks_from_stream (source : BlobStream) : prog (result DomainError ChunkIngestOutcome) :=
  ig ←? ingest_loop (cdc source) ingest_start;
  match ig_in_flight ig with
  | Some (Err e) => fail_ingest (ig_state ig) e
  | _ => finish_ingest ig
  end.

(** ** Storing *)
Inductive DedupResultDto :=
| NewBlob (hash : str) (size : Z)
| ExistingBlob (hash : str) (size saved_bytes : Z).
Definition dedup_hash (d : DedupResultDto) : str :=
  match d with NewBlob h _ | ExistingBlob h _ _ => h end.

Definition release_chunk_refs (hs : list str) : prog unit :=
  match hs with [] => Ret tt | _ => _ ← call (QRelease hs); Ret tt end.
Definition bump_manifest_if_exists (h : str) : prog (result DomainError (option Z)) :=
  r ← call (QBumpManifest h);
  Ret (sql_err Dedup (lit "Failed to bump manifest ref_count: ") r).
Fixpoint attach_rounds (rounds : nat) (file_hash : str) (layout : ChunkManifest)
  (content_type : option str) (distinct_held : list str) : prog (result DomainError DedupResultDto) :=
  match rounds with
  | O =>
      _ ← release_chunk_refs distinct_held;
      Ret (Err (DomainError.internal_error Dedup
                  (lit "Manifest insert/bump kept racing for " ++ file_hash)))
  | S rounds =>
      r ← call (QInsertManifest file_hash layout content_type);
      match sql_err Dedup (lit "Failed to insert manifest: ") r with
      | Err e => Ret (Err e)
      | Ok true => Ret (Ok (NewBlob file_hash (total_size layout)))
      | Ok false =>
          existing ←? bump_manifest_if_exists file_hash;
          match existing with
          | Some size =>
              _ ← release_chunk_refs distinct_held;
              Ret (Ok (ExistingBlob file_hash size size))
          | None => attach_rounds rounds file_hash layout content_type distinct_held
          end
      end
  end.
Definition attach_manifest (file_hash : str) (layout : ChunkManifest) (content_type : option str)
  (distinct_held : list str) : prog (result DomainError DedupResultDto) :=
  attach_rounds 3 file_hash layout content_type distinct_held.
Definition store_from_stream (source : BlobStream) (content_type : option str)
  : prog (result DomainError DedupResultDto) :=
  o ←? ingest_chunks_from_stream source;
  attach_manifest (o_file_hash o) (mkChunkManifest (o_chunk_hashes o) (o_chunk_sizes o) (o_total_size o))
    content_type (distinct_hashes o).

(** Loose chunks of a delta upload. *)
Fixpoint loose_frames (frames : list (result DomainError bytes)) (received new_rows : list (str * Z))
  : prog (result DomainError (list (str * Z) * list (str * Z))) :=
  match frames with
  | [] => Ret (Ok (received, new_rows))
  | Err e :: _ => Ret (Err e)
  | Ok data :: frames =>
      let len := Z.of_nat (length data) in
      if bool_decide (CDC_MAX_CHUNK < len)%Z then
        Ret (Err (DomainError.validation_error (lit "Chunk frame of " ++ dec len
                    ++ lit " bytes exceeds the " ++ dec CDC_MAX_CHUNK ++ lit "-byte maximum")))
      else
        let h := blake3 data in
        if decide (h ∈ received.*1) then loose_frames frames (received ++ [(h, len)]) new_rows
        else
          _ ←? call (BPut h data);
          loose_frames frames (received ++ [(h, len)]) (new_rows ++ [(h, len)])
  end.
Definition store_loose_chunks (frames : list (result DomainError bytes))
  : prog (result DomainError (list (str * Z))) :=
  r ←? loose_frames frames [] [];
  match r.2 with
  | [] => Ret (Ok r.1)
  | rows =>
      _ ←? call (BSync rows.*1);
      registered ← call (QRegisterOrphans rows);
      match sql_err Dedup (lit "Failed to register chunks: ") registered with
      | Err e => Ret (Err e)
      | Ok _ => Ret (Ok r.1)
      end
  end.
End handler.

(** ** References *)
Definition add_reference (h : str) : prog (result DomainError unit) :=
  r ← call (QAddManifestRef h);
  match sql_err Dedup (lit "Failed to add manifest ref: ") r with
  | Err e => Ret (Err e)
  | Ok true => Ret (Ok tt)
  | Ok false =>
      r ← call (QAddBlobRef h);
      match sql_err Dedup (lit "Failed to increment ref_count: ") r with
      | Err e => Ret (Err e)
      | Ok true => Ret (Ok tt)
      | Ok false => Ret (Err (DomainError.new NotFound (lit "Blob") (lit "Blob not found: " ++ h)))
      end
  end.
(** Reaping deletes what was derived from a blob and releases it in turn.  [fuel] bounds the
    nesting; every level deletes rows of [content_derived_blobs]. *)
Definition purge_with (release : str -> prog (result DomainError bool)) (source : str) : prog unit :=
  r ← call (QDeleteDerived source);
  match r with
  | Err _ => Ret tt
  | Ok hs => for_each (fun h => _ ← release h; Ret tt) hs
  end.
Definition remove_manifest_with (reap : str -> prog unit) (h : str) (chunks : list str)
  : prog (result DomainError bool) :=
  r ← call (QReleaseManifest h chunks);
  match tx_err [lit "Failed to begin TX: "; lit "Lock manifest: "; lit "Delete manifest: ";
                lit "Decrement chunks: "; lit "Decrement manifest: "; lit "Commit: "] r with
  | Err e => Ret (Err e)
  | Ok (Some true) => _ ← call (CInvalidate h); _ ← reap h; Ret (Ok true)
  | Ok (Some false) | Ok None => Ret (Ok false)
  end.
Definition remove_legacy_with (reap : str -> prog unit) (h : str) : prog (result DomainError bool) :=
  r ← call (QReleaseLegacy h);
  match tx_err [lit "Failed to begin transaction: "; lit "Failed to lock blob row: ";
                lit "Failed to delete blob row: "; lit "Failed to decrement ref_count: ";
                lit "Failed to commit: "] r with
  | Err e => Ret (Err e)
  | Ok (Some true) => _ ← reap h; Ret (Ok true)
  | Ok (Some false) | Ok None => Ret (Ok false)
  end.
Definition remove_with (reap : str -> prog unit) (h : str) : prog (result DomainError bool) :=
  r ← call (QManifestForRelease h);
  match sql_err Dedup (lit "Manifest lookup: ") r with
  | Err e => Ret (Err e)
  | Ok (Some (_, chunks)) => remove_manifest_with reap h chunks
  | Ok None => remove_legacy_with reap h
  end.
Fixpoint reap_blob (fuel : nat) (h : str) : prog unit :=
  match fuel with O => Ret tt | S fuel => purge_with (remove_with (reap_blob fuel)) h end.
Definition purge_derived_blobs (fuel : nat) : str -> prog unit := reap_blob fuel.
Definition remove_manifest_reference (fuel : nat) := remove_manifest_with (reap_blob fuel).
Definition remove_legacy_reference (fuel : nat) := remove_legacy_with (reap_blob fuel).
Definition remove_reference (fuel : nat) (h : str) : prog (result DomainError bool) :=
  remove_with (reap_blob fuel) h.
Definition cleanup_if_orphaned (fuel : nat) (h : str) : prog unit :=
  r ← call (QCleanup h);
  match r with Ok true => reap_blob fuel h | _ => Ret tt end.

(** ** Garbage collection *)

(** How often each chunk is released by a batch: once per manifest that lists it. *)
Definition decrements (batch : list (str * list str * Z)) : list (str * Z) :=
  let all := concat ((fun row => remove_dups row.1.2) <$> batch) in
  (fun h => (h, Z.of_nat (length (filter (fun h' => h' = h) all)))) <$> remove_dups all.
Definition release_batch (batch : list (str * list str * Z)) : prog (sqlr unit) :=
  match batch with
  | [row] => call (QRelease row.1.2)
  | _ => call (QReleaseCounted (decrements batch))
  end.
Fixpoint gc_manifests (loops fuel : nat) (deleted freed : Z) : prog (option (result DomainError (Z * Z))) :=
  match loops with
  | O => Ret None
  | S loops =>
      r ← call (QReapManifests BATCH_SIZE);
      match sql_err Dedup (lit "GC manifests: ") r with
      | Err e => Ret (Some (Err e))
      | Ok [] => Ret (Some (Ok (deleted, freed)))
      | Ok batch =>
          _ ← for_each (fun row : str * list str * Z =>
                 _ ← call (CInvalidate row.1.1); purge_derived_blobs fuel row.1.1) batch;
          r ← release_batch batch;
          match sql_err Dedup (lit "GC chunk refs: ") r with
          | Err e => Ret (Some (Err e))
          | Ok _ =>
              _ ← for_each (fun row : str * list str * Z => reap_blob fuel row.1.1) batch;
              gc_manifests loops fuel (deleted + Z.of_nat (length batch))
                (freed + foldr Z.add 0%Z batch.*2)
          end
      end
  end.
Fixpoint gc_blobs (loops fuel : nat) (grace : Z) (deleted freed : Z)
  : prog (option (result DomainError (Z * Z))) :=
  match loops with
  | O => Ret None
  | S loops =>
      r ← call (QReapBlobs BATCH_SIZE grace);
      match sql_err Dedup (lit "GC blobs: ") r with
      | Err e => Ret (Some (Err e))
      | Ok [] => Ret (Some (Ok (deleted, freed)))
      | Ok batch =>
          _ ← for_each (fun row : str * Z => reap_blob fuel row.1) batch;
          gc_blobs loops fuel grace (deleted + Z.of_nat (length batch)) (freed + foldr Z.add 0%Z batch.*2)
      end
  end.
Definition garbage_collect_with_grace (loops fuel : nat) (grace : Z)
  : prog (option (result DomainError (Z * Z))) :=
  r ← gc_manifests loops fuel 0 0;
  match r with
  | Some (Ok (deleted, freed)) => gc_blobs loops fuel grace deleted freed
  | other => Ret other
  end.
Definition garbage_collect (loops fuel : nat) := garbage_collect_with_grace loops fuel GC_ORPHAN_GRACE_SECS.
Definition garbage_collect_force (loops fuel : nat) := garbage_collect_with_grace loops fuel 0.

(** ** Reading *)
Definition io_other (e : DomainError) : IoError := mkIoError IoOther (DomainError.to_string e).
Fixpoint stream_chunks (hs : list str) : prog BlobStream :=
  match hs with
  | [] => Ret []
  | h :: hs =>
      r ← call (BGet h);
      rest ← stream_chunks hs;
      Ret ((match r with Ok s => s | Err e => [Err (io_other e)] end) ++ rest)
  end.
Definition manifest_cached (h : str) : prog (result DomainError (option ChunkManifest)) :=
  cached ← call (CGet h);
  match cached with
  | Some m => Ret (Ok (Some m))
  | None =>
      r ← call (QManifest h);
      match sql_err Dedup (lit "Manifest lookup: ") r with
      | Err e => Ret (Err e)
      | Ok (Some m) => _ ← call (CInsert h m); Ret (Ok (Some m))
      | Ok None => Ret (Ok None)
      end
  end.
Definition read_blob_stream (h : str) : prog (result DomainError BlobStream) :=
  m ←? manifest_cached h;
  match m with
  | Some m => s ← stream_chunks (chunk_hashes m); Ret (Ok s)
  | None => call (BGet h)
  end.
Definition read_blob_bytes (h : str) : prog (result DomainError bytes) :=
  m ←? manifest_cached h;
  s ←? match m with
       | Some m => s ← stream_chunks (chunk_hashes m); Ret (Ok s)
       | None => _ ←? call (BSize h); call (BGet h)
       end;
  Ret (map_err (fun e => DomainError.internal_error Dedup (lit "Failed to read blob chunk: " ++ io_text e))
               (stream_bytes s)).
(** The chunks a range touches: index, start within the chunk, end within it if the range
    stops there. *)
Fixpoint select_chunks (start end_ offset : Z) (i : nat) (sizes : list Z) : list (nat * Z * option Z) :=
  match sizes with
  | [] => []
  | size :: sizes =>
      let chunk_end := (offset + size)%Z in
      let here :=
        if bool_decide (start < chunk_end)%Z && bool_decide (offset < end_)%Z
        then [(i, start ⊖ offset, if bool_decide (end_ < chunk_end)%Z then Some (end_ - offset)%Z else None)]
        else [] in
      here ++ (if bool_decide (end_ <= chunk_end)%Z then []
               else select_chunks start end_ chunk_end (S i) sizes)
  end.
Fixpoint stream_ranges (hs : list str) (sel : list (nat * Z * option Z)) : prog BlobStream :=
  match sel with
  | [] => Ret []
  | (i, s, e) :: sel =>
      r ← call (BRange (default [] (hs !! i)) s e);
      rest ← stream_ranges hs sel;
      Ret ((match r with Ok s => s | Err e => [Err (io_other e)] end) ++ rest)
  end.
Definition read_blob_range_stream (h : str) (start : Z) (end_ : option Z) : prog (result DomainError BlobStream) :=
  m ←? manifest_cached h;
  match m with
  | Some m =>
      s ← stream_ranges (chunk_hashes m)
            (select_chunks start (default (total_size m) end_) 0 0 (chunk_sizes m));
      Ret (Ok s)
  | None => call (BRange h start end_)
  end.
Definition handler_blob_size (h : str) : prog (result DomainError Z) :=
  m ←? manifest_cached h;
  match m with Some m => Ret (Ok (total_size m)) | None => call (BSize h) end.
(** [blob_exists]: a failing query counts as absent. *)
Definition handler_blob_exists (h : str) : prog bool :=
  m ← call (QManifestExists h);
  match m with
  | Ok true => Ret true
  | _ => b ← call (QBlobExists h); Ret (match b with Ok true => true | _ => false end)
  end.

(** ** Recording files *)
Definition FileBlobWrite : str := lit "FileBlobWrite".
Section records.
Context `{Unicode}.
Definition save_file_with_blob (fuel : nat) (name : str) (folder : option N) (h : str) (size : Z)
  : prog (result DomainError N) :=
  let name := normalize_storage_name_owned name in
  match folder with
  | None =>
      _ ← remove_reference fuel h;
      Ret (Err (DomainError.validation_error
        (lit "folder_id is required: the destination folder determines the file's owner and drive")))
  | Some folder =>
      r ← call (QInsertFile folder name h size);
      match r with
      | Ok (Some id) => Ret (Ok id)
      | Ok None => _ ← remove_reference fuel h; Ret (Err (DomainError.not_found (lit "Folder") (dec (Z.of_N folder))))
      | Err UniqueViolation =>
          _ ← remove_reference fuel h;
          same ← call (QIdenticalFile folder name h);
          match same with
          | Ok (Some id) => Ret (Ok id)
          | _ => Ret (Err (DomainError.already_exists (lit "File")
                             (lit "'" ++ name ++ lit "' already exists in this folder")))
          end
      | Err (InsertFailed e) =>
          _ ← remove_reference fuel h;
          Ret (Err (DomainError.internal_error FileBlobWrite (lit "insert: " ++ e)))
      end
  end.
End records.
Definition swap_blob_hash (fuel : nat) (id : N) (new_hash : str) (new_size : Z) (expected : option str)
  : prog (result DomainError str) :=
  r ← call (QSwapFile id new_hash new_size expected);
  match r with
  | Ok None => _ ← remove_reference fuel new_hash; Ret (Err (DomainError.not_found (lit "File") (dec (Z.of_N id))))
  | Err e =>
      _ ← remove_reference fuel new_hash;
      Ret (Err (DomainError.internal_error FileBlobWrite (lit "update: " ++ e.2)))
  | Ok (Some (old_hash, matched)) =>
      if (matched : bool) then _ ← remove_reference fuel old_hash; Ret (Ok new_hash)
      else _ ← remove_reference fuel new_hash;
           Ret (Err (DomainError.precondition_failed (lit "File") (lit "content was modified concurrently")))
  end.
Definition delete_file (id : N) : prog (result DomainError unit) :=
  r ← call (QDeleteFile id);
  match sql_err FileBlobWrite (lit "delete: ") r with
  | Err e => Ret (Err e)
  | Ok false => Ret (Err (DomainError.not_found (lit "File") (dec (Z.of_N id))))
  | Ok true => Ret (Ok tt)
  end.
Definition delete_file_permanently (fuel : nat) (id : N) : prog (result DomainError unit) :=
  r ← call (QFileHash id);
  match sql_err FileBlobWrite (lit "fetch blob_hash: ") r with
  | Err e => Ret (Err e)
  | Ok h =>
      _ ←? delete_file id;
      _ ← (match h with Some h => cleanup_if_orphaned fuel h | None => Ret tt end);
      Ret (Ok tt)
  end.
Definition copy_file `{Unicode} (src : N) (target : option N) (name : option str) : prog (result DomainError N) :=
  r ← call (QCopyFile src target (normalize_storage_name <$> name));
  match r with
  | Ok (Some id) => Ret (Ok id)
  | Ok None => Ret (Err (DomainError.not_found (lit "File") (dec (Z.of_N src))))
  | Err UniqueViolation =>
      Ret (Err (DomainError.already_exists (lit "File")
                  (lit "a file with this name already exists in the target folder")))
  | Err (InsertFailed e) => Ret (Err (DomainError.internal_error FileBlobWrite (lit "copy: " ++ e)))
  end.

(** ** Derived and attached content *)
Section satellites.
Variable blake3 : bytes -> str.
Variable cdc : BlobStream -> BlobStream.
Variable overlap : bool.
Definition store_derived_blob (fuel : nat) (source kind_ variant content_type : str) (data : bytes)
  : prog (result DomainError str) :=
  stored ←? store_from_stream blake3 cdc overlap [Ok data] (Some content_type);
  let h := dedup_hash stored in
  r ← call (QInsertDerived source kind_ variant (Some h));
  match sql_err Dedup (lit "record derived blob: ") r with
  | Err e => Ret (Err e)
  | Ok true => Ret (Ok h)
  | Ok false => _ ← remove_reference fuel h; Ret (Ok h)
  end.
Definition store_attached_blob (fuel : nat) (file : N) (kind_ variant content_type : str) (data : bytes)
  : prog (result DomainError str) :=
  stored ←? store_from_stream blake3 cdc overlap [Ok data] (Some content_type);
  let h := dedup_hash stored in
  r ← call (QFindAttached file kind_ variant);
  match sql_err Dedup (lit "read attached blob: ") r with
  | Err e => Ret (Err e)
  | Ok previous =>
      r ← call (QUpsertAttached file kind_ variant h);
      match sql_err Dedup (lit "record attached blob: ") r with
      | Err e => Ret (Err e)
      | Ok _ =>
          _ ← (match previous with
               | Some old => _ ← remove_reference fuel old; Ret tt
               | None => Ret tt
               end);
          Ret (Ok h)
      end
  end.
End satellites.

(** ** Reclaiming *)
Definition settle_one (h : str) : prog Settled := call (QReclaim h).
