(* ===== verification/BlobInv.v ===== *)
(** * Requests on deduplicated storage in parallel

    The pool that runs the programs of [BlobHandler] side by side, what each of them holds, and
    the invariant of the tables, the backend and the cache that every step of the pool keeps. *)

From stdpp Require Import gmultiset.
From S2P Require Import Prelude.
From S2P Require Import RustStr.
From S2P Require Import DomainErrors.
From S2P Require Import StoragePath.
From S2P Require Import BlobBackend.
From S2P Require Import BlobDb.
From S2P Require Import BlobCount.
From S2P Require Import BlobHandler.

(** * Interleaving requests

    Several requests run at once against the same tables, backend and cache.  A pool holds the
    programs still running; an event lets one of them execute its next command, drops one at
    any point (the client disconnects, the process of a worker dies), passes time or evicts a
    cache entry.

    Beside its program a thread carries what it holds, computed from the answers it has
    received: references on chunk rows, chunks it has begun to write and not registered, and
    references on manifests that no row records yet.  A schedule is [orderly] when no sweep takes
    away what another running request holds and no reference is taken on a blob without
    manifest. *)

(** ** What a thread holds *)
Record holds := mkHolds {
  (** references on rows of [storage.blobs] *)
  h_pins : gmultiset str;
  (** chunks whose queued deletion was cancelled, not registered yet *)
  h_writing : gset str;
  (** those of them that were written *)
  h_written : gset str;
  (** references on manifests *)
  h_tokens : gmultiset str;
}.
Definition no_holds : holds := mkHolds ∅ ∅ ∅ ∅.
Definition add_pins (hs : list str) (g : holds) : holds :=
  mkHolds (h_pins g ⊎ list_to_set_disj hs) (h_writing g) (h_written g) (h_tokens g).
Definition drop_pins (hs : list str) (g : holds) : holds :=
  mkHolds (h_pins g ∖ list_to_set_disj hs) (h_writing g) (h_written g) (h_tokens g).
Definition add_tokens (hs : list str) (g : holds) : holds :=
  mkHolds (h_pins g) (h_writing g) (h_written g) (h_tokens g ⊎ list_to_set_disj hs).
Definition drop_token (h : str) (g : holds) : holds :=
  mkHolds (h_pins g) (h_writing g) (h_written g) (h_tokens g ∖ {[+ h +]}).
Definition start_writing (hs : list str) (g : holds) : holds :=
  mkHolds (h_pins g) (h_writing g ∪ list_to_set hs) (h_written g ∖ list_to_set hs) (h_tokens g).
Definition note_written (h : str) (g : holds) : holds :=
  if decide (h ∈ h_writing g)
  then mkHolds (h_pins g) (h_writing g) (h_written g ∪ {[h]}) (h_tokens g) else g.
Definition stop_writing (hs : list str) (g : holds) : holds :=
  mkHolds (h_pins g) (h_writing g ∖ list_to_set hs) (h_written g ∖ list_to_set hs) (h_tokens g).
(** Each chunk once per manifest of the batch. *)
Definition batch_chunks (batch : list (str * list str * Z)) : list str :=
  concat ((fun row => remove_dups row.1.2) <$> batch).
Definition expand (ds : list (str * Z)) : list str :=
  concat ((fun d => replicate (Z.to_nat d.2) d.1) <$> ds).

Definition holds_after {X} (c : cmd X) : X -> holds -> holds :=
  match c in cmd X return X -> holds -> holds with
  | QPin _ => fun x g => match x with Ok hit => add_pins hit g | Err _ => g end
  | QCancel hs => fun x g => match x with Ok _ => start_writing hs g | Err _ => g end
  | BPut h _ | BReplace h _ => fun x g => match x with Ok _ => note_written h g | Err _ => g end
  | QRegister rows => fun x g =>
      match x with Ok _ => add_pins rows.*1 (stop_writing rows.*1 g) | Err _ => g end
  | QRegisterOrphans rows => fun x g => match x with Ok _ => stop_writing rows.*1 g | Err _ => g end
  | QRelease hs => fun x g => match x with Ok _ => drop_pins (remove_dups hs) g | Err _ => g end
  | QReleaseCounted ds => fun x g => match x with Ok _ => drop_pins (expand ds) g | Err _ => g end
  | QInsertManifest h layout _ => fun x g =>
      match x with
      | Ok true => add_tokens [h] (drop_pins (remove_dups (chunk_hashes layout)) g)
      | _ => g
      end
  | QBumpManifest h => fun x g => match x with Ok (Some _) => add_tokens [h] g | _ => g end
  | QAddManifestRef h => fun x g => match x with Ok true => add_tokens [h] g | _ => g end
  | QManifestForRelease h => fun x g => match x with Err _ => drop_token h g | Ok _ => g end
  | QReleaseManifest h _ => fun _ g => drop_token h g
  | QReapManifests _ => fun x g => match x with Ok batch => add_pins (batch_chunks batch) g | Err _ => g end
  | QDeleteDerived _ => fun x g => match x with Ok hs => add_tokens hs g | Err _ => g end
  | QInsertDerived _ _ _ (Some h) => fun x g => match x with Ok true => drop_token h g | _ => g end
  | QUpsertAttached _ _ _ h => fun x g => match x with Ok _ => drop_token h g | Err _ => g end
  | QInsertFile _ _ h _ => fun x g => match x with Ok (Some _) => drop_token h g | _ => g end
  | QSwapFile _ h _ _ => fun x g =>
      match x with Ok (Some (old, true)) => add_tokens [old] (drop_token h g) | _ => g end
  | _ => fun _ g => g
  end.

(** ** Orderly schedules *)
Definition not_writing (h : str) (others : list holds) : Prop :=
  Forall (fun g => h ∉ h_writing g) others.
Definition no_token (h : str) (others : list holds) : Prop :=
  Forall (fun g => h ∉ h_tokens g) others.
#[export] Instance not_writing_dec h others : Decision (not_writing h others) := _.
#[export] Instance no_token_dec h others : Decision (no_token h others) := _.
Definition orderly {X} (c : cmd X) : X -> list holds -> bool :=
  match c in cmd X return X -> list holds -> bool with
  | QReapBlobs _ _ => fun x others =>
      match x with
      | Ok rows => bool_decide (Forall (fun row : str * Z => not_writing row.1 others) rows)
      | Err _ => true
      end
  | QCleanup h => fun x others => match x with Ok true => bool_decide (not_writing h others) | _ => true end
  | QReapManifests _ => fun x others =>
      match x with
      | Ok batch => bool_decide (Forall (fun row : str * list str * Z => no_token row.1.1 others) batch)
      | Err _ => true
      end
  | QAddBlobRef _ => fun x _ => match x with Ok true => false | _ => true end
  | QReleaseLegacy _ => fun x _ => match x with Ok (Some _) => false | _ => true end
  | _ => fun _ _ => true
  end.

(** ** Pools *)
Definition thread : Type := holds * prog unit.
Inductive event := Go (i : nat) | Drop (i : nat) | Tick (seconds : Z) | Evict (h : str).

Section pool.
Context {St : Type} `{BlobStorageBackend St}.
Definition sys : Type := World St * list thread.
Definition others (i : nat) (ts : list thread) : list holds := (delete i ts).*1.
(** A finished program leaves the pool. *)
Definition put_back (i : nat) (t : thread) (ts : list thread) : list thread :=
  match t.2 with Ret _ => delete i ts | Do _ _ => <[i := t]> ts end.
Definition step_ok (e : event) (s : sys) : bool :=
  match e with
  | Go i =>
      match s.2 !! i with
      | Some (g, Do c k) => orderly c (exec c s.1).1 (others i s.2)
      | _ => true
      end
  | Tick n => bool_decide (0 <= n)%Z
  | _ => true
  end.
Definition step (e : event) (s : sys) : sys :=
  let (w, ts) := s in
  match e with
  | Go i =>
      match ts !! i with
      | Some (g, Do c k) =>
          let (x, w') := exec c w in (w', put_back i (holds_after c x g, k x) ts)
      | _ => s
      end
  | Drop i => (w, delete i ts)
  | Tick n => (mkWorld (w_tables w) (w_store w) (w_cache w) (w_now w + n) (w_script w) (w_sync w), ts)
  | Evict h => (set_cache (delete h) w, ts)
  end.
Fixpoint steps (es : list event) (s : sys) : sys :=
  match es with [] => s | e :: es => steps es (step e s) end.
Fixpoint orderly_run (es : list event) (s : sys) : bool :=
  match es with [] => true | e :: es => step_ok e s && orderly_run es (step e s) end.
Definition start (p : prog unit) : thread := (no_holds, p).
End pool.

(** * The invariant of deduplicated storage

    What holds of the tables, the backend and the cache between any two commands of any pool:
    every reference a manifest or a running request has on a chunk is counted in that chunk's
    row, every row's bytes are on the backend and hash to its key, every manifest lists the
    chunks of the content it is named after, and every file, derived and attached row and
    every unrecorded reference is counted in an existing manifest. *)

(** ** The parameters

    [blake3] is taken to be free of collisions.  The chunks of a complete stream are a function
    of its bytes, and their concatenation is those bytes; a stream that fails makes the chunk
    stream fail. *)
Class Chunker := {
  blake3 : bytes -> str;
  cdc : BlobStream -> BlobStream;
  chunks : bytes -> list bytes;
  blake3_inj :: Inj (=) (=) blake3;
  chunks_concat b : concat (chunks b) = b;
  cdc_whole s b : stream_bytes s = Ok b -> cdc s = Ok <$> chunks b;
  cdc_broken s e : stream_bytes s = Err e -> exists l e' rest, cdc s = (Ok <$> l) ++ Err e' :: rest;
}.
(** The manifest of some content. *)
Definition layout_of `{Chunker} (b : bytes) : ChunkManifest :=
  mkChunkManifest (blake3 <$> chunks b) ((fun d => Z.of_nat (length d)) <$> chunks b) (Z.of_nat (length b)).
Definition good_layout `{Chunker} (h : str) (m : ChunkManifest) : Prop :=
  exists b, h = blake3 b ∧ m = layout_of b.
Lemma good_layout_unique `{Chunker} h m1 m2 : good_layout h m1 -> good_layout h m2 -> m1 = m2.
Proof. intros (b1 & -> & ->) (b2 & Hb & ->). by apply (inj blake3) in Hb as ->. Qed.

(** ** Occurrences *)
Definition occ (x : str) (l : list str) : nat := length (filter (fun y => y = x) l).
Lemma occ_cons x y l : occ x (y :: l) = (one (y = x) + occ x l)%nat.
Proof. unfold occ, one. rewrite filter_cons. by case_decide. Qed.
Lemma occ_app x l1 l2 : occ x (l1 ++ l2) = (occ x l1 + occ x l2)%nat.
Proof. unfold occ. by rewrite list.filter_app, length_app. Qed.
Lemma occ_pos x l : (0 < occ x l)%nat <-> x ∈ l.
Proof.
  induction l as [|y l IH]; [split; intros Hx; [by apply Nat.lt_irrefl in Hx|by apply not_elem_of_nil in Hx]|].
  rewrite occ_cons, elem_of_cons, <- IH. unfold one. case_decide; [subst|]; split; intros Hx; try lia; auto.
  - destruct Hx as [->|Hx]; [done|lia].
Qed.
Lemma occ_nodup x l : NoDup l -> occ x l = one (x ∈ l).
Proof.
  induction 1 as [|y l Hy Hnd IH]; [unfold one; rewrite decide_False; [done|by apply not_elem_of_nil]|].
  rewrite occ_cons, IH. unfold one.
  destruct (decide (y = x)) as [->|Hne]; [rewrite decide_False, decide_True by (done || left); done|].
  rewrite (decide_ext (x ∈ y :: l) (x ∈ l)); [done|]. rewrite elem_of_cons. naive_solver.
Qed.
Lemma multiplicity_list x l : multiplicity x (list_to_set_disj l : gmultiset str) = occ x l.
Proof.
  induction l as [|y l IH]; [done|]. rewrite list_to_set_disj_cons, multiplicity_disj_union, IH, occ_cons.
  rewrite multiplicity_singleton. unfold one. by do 2 case_decide; try congruence.
Qed.
Lemma multiplicity_list_dups x l :
  multiplicity x (list_to_set_disj (remove_dups l) : gmultiset str) = one (x ∈ l).
Proof.
  rewrite multiplicity_list, occ_nodup by apply NoDup_remove_dups. unfold one.
  apply decide_ext, elem_of_remove_dups.
Qed.
Lemma one_iff P Q `{Decision P, Decision Q} : (P <-> Q) -> one P = one Q.
Proof. intros Hpq. unfold one. by apply decide_ext. Qed.
Lemma multiplicity_single x h : multiplicity x ({[+ h +]} : gmultiset str) = one (h = x).
Proof. rewrite multiplicity_singleton. unfold one. by apply decide_ext. Qed.
Lemma occ_nil x : occ x [] = O.
Proof. done. Qed.
Lemma occ_single x h : occ x [h] = one (h = x).
Proof. rewrite occ_cons. unfold occ. cbn. lia. Qed.
Lemma token_counts (h : str) (X : gmultiset str) : h ∈ X -> forall x : str, (one (h = x) <= multiplicity x X)%nat.
Proof. rewrite elem_of_multiplicity. intros Hh x. unfold one. case_decide; [by subst|lia]. Qed.
Ltac multiplicities :=
  repeat first [rewrite multiplicity_disj_union | rewrite multiplicity_difference | rewrite multiplicity_single
    | rewrite multiplicity_list_dups | rewrite multiplicity_list | rewrite multiplicity_empty];
  rewrite ?occ_single, ?occ_nil.

(** ** The invariant *)
Definition pins_of (gs : list holds) (h : str) : nat :=
  sum_list ((fun g => multiplicity h (h_pins g)) <$> gs).
Definition tokens_of (gs : list holds) (h : str) : nat :=
  sum_list ((fun g => multiplicity h (h_tokens g)) <$> gs).
(** References on a chunk row, and on a manifest. *)
Definition held (t : Tables) (gs : list holds) (h : str) : nat := (manifests_with t h + pins_of gs h)%nat.
Definition refs (t : Tables) (gs : list holds) (h : str) : nat :=
  (files_with t h + derived_with t h + attached_with t h + tokens_of gs h)%nat.
(** Every row counts at least the references there are, and references have a row. *)
Definition backed {V} (rc : V -> Z) (m : gmap str V) (n : str -> nat) : Prop :=
  forall h, match m !! h with Some v => (Z.of_nat (n h) <= rc v)%Z | None => n h = O end.
Lemma backed_mono {V} (rc : V -> Z) m n n' :
  (forall h, n' h <= n h)%nat -> backed rc m n -> backed rc m n'.
Proof. intros Hle Hb h. specialize (Hle h). specialize (Hb h). destruct (m !! h); lia. Qed.

Section inv.
Context `{Chunker} {St : Type} `{AtomicPuts St}.

Record InvC (t : Tables) (s : St) (c : gmap str ChunkManifest) (gs : list holds) : Prop := {
  inv_store : v_inv bk_view s;
  inv_blobs : backed b_ref_count (blobs t) (held t gs);
  inv_bytes h b : blobs t !! h = Some b -> v_present bk_view s h = true;
  inv_clean h : v_present bk_view s h = true -> exists d, v_content bk_view s h = Some d ∧ blake3 d = h;
  inv_writing g h : g ∈ gs -> h ∈ h_writing g -> pending t !! h = None;
  inv_written g h : g ∈ gs -> h ∈ h_written g -> h ∈ h_writing g ∧ v_present bk_view s h = true;
  inv_layouts h m : manifests t !! h = Some m -> good_layout h (m_layout m);
  inv_cache h m : c !! h = Some m -> good_layout h m;
  inv_manifests : backed m_ref_count (manifests t) (refs t gs);
}.
Definition Inv (w : World St) (gs : list holds) : Prop := InvC (w_tables w) (w_store w) (w_cache w) gs.

Lemma present_of_content s h d : v_content bk_view s h = Some d -> v_present bk_view s h = true.
Proof.
  intros Hc. destruct (v_present bk_view s h) eqn:Hp; [done|].
  apply bk_absent in Hp. congruence.
Qed.

(** *** Changing what the threads hold *)
Lemma pins_of_cons g gs h : pins_of (g :: gs) h = (multiplicity h (h_pins g) + pins_of gs h)%nat.
Proof. done. Qed.
Lemma tokens_of_cons g gs h : tokens_of (g :: gs) h = (multiplicity h (h_tokens g) + tokens_of gs h)%nat.
Proof. done. Qed.
Lemma pins_of_perm gs gs' h : gs ≡ₚ gs' -> pins_of gs h = pins_of gs' h.
Proof. intros Hp. unfold pins_of. by rewrite Hp. Qed.
Lemma tokens_of_perm gs gs' h : gs ≡ₚ gs' -> tokens_of gs h = tokens_of gs' h.
Proof. intros Hp. unfold tokens_of. by rewrite Hp. Qed.
Lemma inv_perm t s c gs gs' : gs ≡ₚ gs' -> InvC t s c gs -> InvC t s c gs'.
Proof.
  intros Hp [? Hb ? ? Hw Hwr ? ? Hm]. constructor; try done.
  - intros h. unfold held. rewrite <- (pins_of_perm gs gs' h Hp). apply Hb.
  - intros g h Hg. rewrite <- Hp in Hg. by apply Hw.
  - intros g h Hg. rewrite <- Hp in Hg. by apply Hwr.
  - intros h. unfold refs. rewrite <- (tokens_of_perm gs gs' h Hp). apply Hm.
Qed.
(** A thread may give up what it holds. *)
Lemma inv_weaken t s c g g' gs :
  h_pins g' ⊆ h_pins g -> h_tokens g' ⊆ h_tokens g -> h_writing g' = h_writing g ->
  h_written g' ⊆ h_written g -> InvC t s c (g :: gs) -> InvC t s c (g' :: gs).
Proof.
  intros Hp Ht Hw Hwr [? Hb ? ? Hwi Hwri ? ? Hm]. constructor; try done.
  - eapply backed_mono; [|exact Hb]. intros h. unfold held. rewrite !pins_of_cons. specialize (Hp h). lia.
  - intros g0 h Hg0. apply elem_of_cons in Hg0 as [->|Hg0]; [|by apply Hwi; right].
    rewrite Hw. apply Hwi. left.
  - intros g0 h Hg0 Hh. apply elem_of_cons in Hg0 as [->|Hg0]; [|apply Hwri; [by right|done]].
    rewrite Hw. apply (Hwri g); [left|set_solver].
  - eapply backed_mono; [|exact Hm]. intros h. unfold refs. rewrite !tokens_of_cons. specialize (Ht h). lia.
Qed.
Lemma inv_drop t s c g gs : InvC t s c (g :: gs) -> InvC t s c gs.
Proof.
  intros [? Hb ? ? Hwi Hwri ? ? Hm]. constructor; try done.
  - eapply backed_mono; [|exact Hb]. intros h. unfold held. rewrite pins_of_cons. lia.
  - intros g0 h Hg0. apply Hwi. by right.
  - intros g0 h Hg0. apply Hwri. by right.
  - eapply backed_mono; [|exact Hm]. intros h. unfold refs. rewrite tokens_of_cons. lia.
Qed.
Lemma inv_start t s c gs : InvC t s c gs -> InvC t s c (no_holds :: gs).
Proof.
  intros [? Hb ? ? Hwi Hwri ? ? Hm]. constructor; try done.
  - intros g0 h Hg0 Hh. apply elem_of_cons in Hg0 as [->|Hg0]; [set_solver|eauto].
  - intros g0 h Hg0 Hh. apply elem_of_cons in Hg0 as [->|Hg0]; [set_solver|eauto].
Qed.
Lemma inv_drop_token t s c h g gs : InvC t s c (g :: gs) -> InvC t s c (drop_token h g :: gs).
Proof. apply inv_weaken; [done| |done|done]. intros x. simpl. multiplicities. lia. Qed.
(** A token proves that its manifest is there. *)
Lemma token_manifest t s c g gs h :
  InvC t s c (g :: gs) -> h ∈ h_tokens g ->
  exists m, manifests t !! h = Some m ∧ good_layout h (m_layout m).
Proof.
  intros Hi Ht. rewrite elem_of_multiplicity in Ht.
  pose proof (inv_manifests _ _ _ _ Hi h) as Hm. unfold refs in Hm. rewrite tokens_of_cons in Hm.
  destruct (manifests t !! h) as [m|] eqn:Em; [|lia]. exists m. split; [done|].
  by apply (inv_layouts _ _ _ _ Hi).
Qed.

(** *** Database commands *)
Lemma next_fault_world (w : World St) :
  w_tables (next_fault w).2 = w_tables w ∧ w_store (next_fault w).2 = w_store w
  ∧ w_cache (next_fault w).2 = w_cache w ∧ w_now (next_fault w).2 = w_now w.
Proof. unfold next_fault. by destruct (w_script w). Qed.
(** A database command fails without effect, or answers what its statement answers. *)
Lemma sql_cases {T} (q : stmt T) (w : World St) x w' :
  sql q w = (x, w') ->
  (exists e, x = Err e ∧ forall gs, Inv w gs -> Inv w' gs) ∨
  (exists r t', q (w_tables w) = (r, t') ∧ x = map_err (fun e => (O, e)) r
     ∧ forall gs, InvC t' (w_store w) (w_cache w) gs -> Inv w' gs).
Proof.
  unfold sql. destruct (next_fault_world w) as (Ht & Hs & Hc & _).
  destruct (next_fault w) as [f w1]. simpl in *.
  destruct f as [e|].
  - intros [= <- <-]. left. exists e. split; [done|]. intros gs. unfold Inv. by rewrite Ht, Hs, Hc.
  - rewrite Ht. destruct (q (w_tables w)) as [r t'] eqn:Eq. intros [= <- <-]. right. exists r, t'.
    split_and!; try done. intros gs. unfold Inv. simpl. by rewrite Hs, Hc.
Qed.
Lemma sql_insert_cases {T} (q : Tables -> result InsertError T * Tables) (w : World St) x w' :
  sql_insert q w = (x, w') ->
  (exists e, x = Err (InsertFailed e) ∧ forall gs, Inv w gs -> Inv w' gs) ∨
  (exists r t', q (w_tables w) = (r, t') ∧ x = r
     ∧ forall gs, InvC t' (w_store w) (w_cache w) gs -> Inv w' gs).
Proof.
  unfold sql_insert. destruct (next_fault_world w) as (Ht & Hs & Hc & _).
  destruct (next_fault w) as [f w1]. simpl in *.
  destruct f as [e|].
  - intros [= <- <-]. left. exists e.2. split; [done|]. intros gs. unfold Inv. by rewrite Ht, Hs, Hc.
  - rewrite Ht. destruct (q (w_tables w)) as [r t'] eqn:Eq. intros [= <- <-]. right. exists r, t'.
    split_and!; try done. intros gs. unfold Inv. simpl. by rewrite Hs, Hc.
Qed.

(** What a command does to the invariant, given what its thread holds. *)
Definition cmd_ok {X} (c : cmd X) (pre : holds -> Prop) (post : X -> Prop) : Prop :=
  forall w g gs x w', Inv w (g :: gs) -> pre g -> exec c w = (x, w') -> orderly c x gs = true ->
    Inv w' (holds_after c x g :: gs) ∧ post x.
End inv.
