(* ===== verification/BlobCmds.v ===== *)
(** * The commands keep the invariant

    One lemma per command: given what its thread holds, and an orderly answer, the invariant of
    [BlobInv] holds after it. *)

From stdpp Require Import gmultiset.
From S2P Require Import Prelude.
From S2P Require Import RustStr.
From S2P Require Import DomainErrors.
From S2P Require Import BlobBackend.
From S2P Require Import StoragePath.
From S2P Require Import BlobDb.
From S2P Require Import BlobCount.
From S2P Require Import BlobHandler.
From S2P Require Import BlobInv.

Section cmds.
Context `{Chunker} {St : Type} `{AtomicPuts St}.
Implicit Types (w : World St) (t : Tables) (g : holds) (gs : list holds).

(** ** Rebuilding the invariant after a change of the tables *)
Lemma inv_change t t' s c g g' gs :
  InvC t s c (g :: gs) ->
  (forall g0 h, g0 ∈ g' :: gs -> h ∈ h_writing g0 -> pending t' !! h = None) ->
  (forall h, h ∈ h_written g' -> h ∈ h_written g ∧ h ∈ h_writing g') ->
  backed b_ref_count (blobs t') (held t' (g' :: gs)) ->
  (forall h b, blobs t' !! h = Some b -> is_Some (blobs t !! h) ∨ h ∈ h_written g) ->
  (forall h m, manifests t' !! h = Some m -> good_layout h (m_layout m)) ->
  backed m_ref_count (manifests t') (refs t' (g' :: gs)) ->
  InvC t' s c (g' :: gs).
Proof.
  intros [Hs _ Hby Hcl Hwi Hwr _ Hca _] Hp Hw Hb Hrow Hl Hm. constructor; try done.
  - intros h b Hh. destruct (Hrow h b Hh) as [[b0 Hb0]|Hwh]; [by eapply Hby|].
    by apply (Hwr g h); [left|].
  - intros g0 h Hg0 Hh. apply elem_of_cons in Hg0 as [->|Hg0].
    + destruct (Hw h Hh) as [Hh1 Hh2]. split; [done|]. by apply (Hwr g h); [left|].
    + apply (Hwr g0 h); [by right|done].
Qed.
(** The clause about queued deletions, when no deletion is queued. *)
Lemma writing_kept t t' s c g g' gs :
  InvC t s c (g :: gs) -> h_writing g' ⊆ h_writing g ->
  (forall h, pending t !! h = None -> pending t' !! h = None) ->
  forall g0 h, g0 ∈ g' :: gs -> h ∈ h_writing g0 -> pending t' !! h = None.
Proof.
  intros Hi Hw Hp g0 h Hg0 Hh. apply Hp. apply elem_of_cons in Hg0 as [->|Hg0].
  - apply (inv_writing _ _ _ _ Hi g); [left|set_solver].
  - apply (inv_writing _ _ _ _ Hi g0); [by right|done].
Qed.
(** The clauses about what is written, when the thread writes nothing new. *)
Lemma written_kept t s c g g' gs :
  InvC t s c (g :: gs) -> h_written g' = h_written g -> h_writing g' = h_writing g ->
  forall h, h ∈ h_written g' -> h ∈ h_written g ∧ h ∈ h_writing g'.
Proof.
  intros Hi Hw Hw' h. rewrite Hw, Hw'. intros Hh. split; [done|]. apply (inv_written _ _ _ _ Hi g h); [left|done].
Qed.
(** A change of [storage.blobs] by which only references of this thread change. *)
Lemma inv_change_blobs t s c g g' gs f :
  InvC t s c (g :: gs) -> h_tokens g' = h_tokens g -> h_writing g' ⊆ h_writing g ->
  (forall h, h ∈ h_written g' -> h ∈ h_written g ∧ h ∈ h_writing g') ->
  (forall h b, f (blobs t) !! h = Some b -> is_Some (blobs t !! h) ∨ h ∈ h_written g) ->
  backed b_ref_count (f (blobs t)) (held t (g' :: gs)) ->
  InvC (set_blobs f t) s c (g' :: gs).
Proof.
  intros Hi Ht Hw Hw' Hrow Hb. apply (inv_change t _ s c g); try done.
  - by apply (writing_kept t _ s c g).
  - apply (inv_layouts _ _ _ _ Hi).
  - pose proof (inv_manifests _ _ _ _ Hi) as Hm. intros h. specialize (Hm h). revert Hm.
    unfold refs. rewrite !tokens_of_cons, Ht. done.
Qed.
(** Commands that change nothing. *)
Lemma unchanged_ok {X} (c : cmd X) (post : X -> Prop) :
  (forall w, exists x w', exec c w = (x, w') ∧ (forall gs, Inv w gs -> Inv w' gs ∧ post x)
              ∧ forall g, holds_after c x g = g) ->
  cmd_ok c (fun _ => True) post.
Proof.
  intros Hc w g gs x w' Hi _ Hx _. destruct (Hc w) as (x1 & w1 & Hx1 & Hk & Hg).
  rewrite Hx1 in Hx. injection Hx as <- <-. rewrite Hg. by apply Hk.
Qed.

Ltac sql_start :=
  let w := fresh "w" in let g := fresh "g" in let gs := fresh "gs" in
  let x := fresh "x" in let w' := fresh "w'" in
  intros w g gs x w' Hi Hpre Hx Ho; cbn [exec] in Hx;
  first [destruct (sql_cases _ _ _ _ Hx) as [(e & -> & Hk)|(r & t' & Hq & -> & Hk)]
        |destruct (sql_insert_cases _ _ _ _ Hx) as [(e & -> & Hk)|(r & t' & Hq & -> & Hk)]];
  clear Hx; unfold Inv in Hi.
(** The answer of a statement. *)
Ltac answer Hq := apply pair_equal_spec in Hq as [<- <-]; cbn [map_err holds_after].

(** ** Chunk rows *)
Lemma pin_ok hs :
  cmd_ok (St := St) (QPin hs) (fun _ => True)
    (fun x => forall hit, x = Ok hit -> NoDup hit ∧ forall h, h ∈ hit -> h ∈ hs).
Proof.
  sql_start; [split; [by apply Hk|done]|]. unfold q_pin in Hq. case_match eqn:Hfull; answer Hq.
  { split; [by apply Hk|done]. }
  split.
  2:{ intros hit [= <-]. split; [apply list.NoDup_filter, NoDup_remove_dups|].
      intros h [_ Hh]%list_elem_of_filter. by apply elem_of_remove_dups. }
  apply Hk. apply (inv_change_blobs _ _ _ g); try done.
  - apply (written_kept _ _ _ _ _ _ Hi); done.
  - intros h b. rewrite lookup_update_any. case_decide; [|eauto]. destruct (blobs (w_tables w) !! h); [eauto|done].
  - intros h. pose proof (inv_blobs _ _ _ _ Hi h) as Hb. revert Hb. unfold held.
    rewrite !pins_of_cons. cbn [add_pins h_pins]. multiplicities.
    rewrite occ_nodup by (apply list.NoDup_filter, NoDup_remove_dups).
    rewrite lookup_update_any. unfold one.
    pose proof (list_elem_of_filter (fun h => is_present (blobs (w_tables w)) h = true) (remove_dups hs) h) as Hin.
    rewrite elem_of_remove_dups, is_present_true in Hin.
    destruct (blobs (w_tables w) !! h) as [b|]; do 2 case_decide; simpl; try lia; naive_solver lia.
Qed.

Lemma lookup_delete_all {V} (hs : list str) (m : gmap str V) h :
  foldr delete m hs !! h = if decide (h ∈ hs) then None else m !! h.
Proof.
  induction hs as [|h' hs IH]; simpl; [done|]. destruct (decide (h = h')) as [->|Hne].
  - rewrite lookup_delete_eq, decide_True; [done|left].
  - rewrite lookup_delete_ne, IH by done. apply decide_ext. rewrite elem_of_cons. naive_solver.
Qed.
Lemma cancel_ok hs : cmd_ok (St := St) (QCancel hs) (fun _ => True) (fun _ => True).
Proof.
  sql_start; [split; [by apply Hk|done]|]. answer Hq. split; [|done]. apply Hk.
  assert (Hp : forall h, pending (w_tables w) !! h = None ->
                 pending (set_pending (fun p => foldr delete p hs) (w_tables w)) !! h = None).
  { intros h Hh. simpl. rewrite lookup_delete_all, Hh. by case_decide. }
  apply (inv_change (w_tables w) _ _ _ g); try done.
  - intros g0 h Hg0 Hh. apply elem_of_cons in Hg0 as [->|Hg0].
    + cbn in Hh. apply elem_of_union in Hh as [Hh|Hh].
      * apply Hp. apply (inv_writing _ _ _ _ Hi g); [left|done].
      * simpl. rewrite lookup_delete_all. by rewrite decide_True by by apply elem_of_list_to_set in Hh.
    + apply Hp. apply (inv_writing _ _ _ _ Hi g0); [by right|done].
  - cbn. intros h Hh. split; [set_solver|]. apply elem_of_union. left.
    apply (inv_written _ _ _ _ Hi g h); [left|set_solver].
  - apply (inv_blobs _ _ _ _ Hi).
  - intros h b Hb. left. by exists b.
  - apply (inv_layouts _ _ _ _ Hi).
  - apply (inv_manifests _ _ _ _ Hi).
Qed.

Lemma lookup_register rows : forall (m : gmap str BlobRow) h, NoDup rows.*1 ->
  exists sz, foldl register_row m rows !! h =
    if decide (h ∈ rows.*1)
    then Some (match m !! h with Some b => bump_blob b | None => mkBlob sz 1 None end) else m !! h.
Proof.
  induction rows as [|[h0 s0] rows IH]; intros m h Hnd; [by exists 0%Z|].
  rewrite fmap_cons in Hnd |- *. apply list.NoDup_cons in Hnd as [Hh0 Hnd]. cbn [foldl fst] in *.
  destruct (IH (register_row m (h0, s0)) h Hnd) as [sz Hsz].
  destruct (decide (h = h0)) as [->|Hne].
  - exists s0. rewrite Hsz, decide_False, decide_True by (done || left). unfold register_row. by rewrite lookup_insert_eq.
  - exists sz. rewrite Hsz. unfold register_row. rewrite lookup_insert_ne by done. apply decide_ext. rewrite elem_of_cons. naive_solver.
Qed.
Lemma register_ok rows :
  cmd_ok (St := St) (QRegister rows)
    (fun g => NoDup rows.*1 ∧ forall h, h ∈ rows.*1 -> h ∈ h_written g) (fun _ => True).
Proof.
  sql_start; [split; [by apply Hk|done]|]. unfold q_register in Hq. destruct Hpre as [Hnd Hw].
  case_match eqn:Hfull; answer Hq; (split; [|done]); [by apply Hk|].
  apply Hk. apply (inv_change_blobs _ _ _ g); try done.
  - cbn. set_solver.
  - cbn. intros h Hh. apply elem_of_difference in Hh as [Hh Hn]. split; [done|].
    apply elem_of_difference. split; [|done]. apply (inv_written _ _ _ _ Hi g h); [left|done].
  - intros h b. destruct (lookup_register rows (blobs (w_tables w)) h Hnd) as [sz ->]. case_decide; eauto.
  - intros h. pose proof (inv_blobs _ _ _ _ Hi h) as Hb. revert Hb. unfold held.
    rewrite !pins_of_cons. cbn [add_pins stop_writing h_pins]. multiplicities. rewrite occ_nodup by done. unfold one.
    destruct (lookup_register rows (blobs (w_tables w)) h Hnd) as [sz ->].
    destruct (blobs (w_tables w) !! h); case_decide; simpl; lia.
Qed.
Lemma lookup_register_orphans now rows : forall (m : gmap str BlobRow) h,
  exists sz, foldl (register_orphan now) m rows !! h =
    match m !! h with
    | Some b => Some b
    | None => if decide (h ∈ rows.*1) then Some (mkBlob sz 0 (Some now)) else None
    end.
Proof.
  induction rows as [|[h0 s0] rows IH]; intros m h.
  { exists 0%Z. simpl. by destruct (m !! h). }
  cbn [foldl]. rewrite fmap_cons. cbn [fst]. destruct (IH (register_orphan now m (h0, s0)) h) as [sz Hsz].
  assert (Hm : register_orphan now m (h0, s0) !! h =
    match m !! h with Some b => Some b
    | None => if decide (h = h0) then Some (mkBlob s0 0 (Some now)) else None end).
  { unfold register_orphan. cbn [fst snd]. destruct (m !! h0) as [b0|] eqn:E0.
    - destruct (m !! h) eqn:Eh; [done|]. rewrite decide_False; [done|]. intros ->. by rewrite E0 in Eh.
    - destruct (decide (h = h0)) as [->|Hne]; [by rewrite lookup_insert_eq, E0|].
      rewrite lookup_insert_ne by done. by destruct (m !! h). }
  rewrite Hsz, Hm. destruct (m !! h) as [b|]; [by exists sz|].
  destruct (decide (h = h0)) as [->|Hne].
  - exists s0. rewrite decide_True; [done|left].
  - exists sz. apply decide_ext. rewrite elem_of_cons. naive_solver.
Qed.
Lemma register_orphans_ok rows :
  cmd_ok (St := St) (QRegisterOrphans rows) (fun g => forall h, h ∈ rows.*1 -> h ∈ h_written g) (fun _ => True).
Proof.
  sql_start; [split; [by apply Hk|done]|]. answer Hq. split; [|done].
  apply Hk. apply (inv_change_blobs _ _ _ g); try done.
  - cbn. set_solver.
  - cbn. intros h Hh. apply elem_of_difference in Hh as [Hh Hn]. split; [done|].
    apply elem_of_difference. split; [|done]. apply (inv_written _ _ _ _ Hi g h); [left|done].
  - intros h b. destruct (lookup_register_orphans (w_now w) rows (blobs (w_tables w)) h) as [sz ->].
    destruct (blobs (w_tables w) !! h); [eauto|]. case_decide; [eauto|done].
  - intros h. pose proof (inv_blobs _ _ _ _ Hi h) as Hb. revert Hb. unfold held.
    rewrite !pins_of_cons. cbn [stop_writing h_pins].
    destruct (lookup_register_orphans (w_now w) rows (blobs (w_tables w)) h) as [sz ->].
    destruct (blobs (w_tables w) !! h); [done|]. case_decide; simpl; lia.
Qed.
Lemma release_ok hs :
  cmd_ok (St := St) (QRelease hs) (fun g => list_to_set_disj (remove_dups hs) ⊆ h_pins g) (fun _ => True).
Proof.
  sql_start; [split; [by apply Hk|done]|]. answer Hq. split; [|done].
  apply Hk. apply (inv_change_blobs _ _ _ g); try done.
  - apply (written_kept _ _ _ _ _ _ Hi); done.
  - intros h b. rewrite lookup_update_any. case_decide; [|eauto]. destruct (blobs (w_tables w) !! h); [eauto|done].
  - intros h. pose proof (inv_blobs _ _ _ _ Hi h) as Hb. specialize (Hpre h). revert Hb Hpre. unfold held.
    rewrite !pins_of_cons. cbn [drop_pins h_pins]. multiplicities. rewrite lookup_update_any. unfold one.
    destruct (blobs (w_tables w) !! h) as [b|]; case_decide; simpl; lia.
Qed.

Lemma occ_replicate h n x : occ h (replicate n x) = if decide (x = h) then n else O.
Proof. induction n as [|n IH]; simpl; [by case_decide|]. rewrite occ_cons, IH. unfold one. case_decide; lia. Qed.
Lemma occ_expand h ds : NoDup ds.*1 ->
  occ h (expand ds) = match list_find (fun d : str * Z => d.1 = h) ds with
                      | Some (_, d) => Z.to_nat d.2 | None => O end.
Proof.
  induction ds as [|[h0 n0] ds IH]; [done|]. rewrite fmap_cons. intros [Hh0 Hnd]%list.NoDup_cons.
  unfold expand. rewrite fmap_cons. cbn [concat]. rewrite occ_app, occ_replicate. cbn [fst snd]. fold (expand ds).
  cbn [list_find fst]. case_decide as E.
  - subst. assert (Hz : occ h (expand ds) = O); [|simpl; lia]. rewrite (IH Hnd).
    destruct (list_find (fun d : str * Z => d.1 = h) ds) as [[i d]|] eqn:Ef; [|done].
    apply list_find_Some in Ef as (Hd & <- & _). exfalso. apply Hh0.
    apply (list_elem_of_fmap_2 fst ds d). by apply (list_elem_of_lookup_2 _ i).
  - rewrite (IH Hnd). simpl. by destruct (list_find (fun d : str * Z => d.1 = h) ds) as [[i d]|].
Qed.
Lemma release_counted_ok ds :
  cmd_ok (St := St) (QReleaseCounted ds)
    (fun g => NoDup ds.*1 ∧ Forall (fun d => 0 <= d.2)%Z ds ∧ list_to_set_disj (expand ds) ⊆ h_pins g) (fun _ => True).
Proof.
  sql_start; [split; [by apply Hk|done]|]. destruct Hpre as (Hnd & Hpos & Hpre). answer Hq. split; [|done].
  apply Hk. apply (inv_change_blobs _ _ _ g); try done.
  - apply (written_kept _ _ _ _ _ _ Hi); done.
  - intros h b. rewrite map_lookup_imap. destruct (blobs (w_tables w) !! h); [eauto|done].
  - intros h. pose proof (inv_blobs _ _ _ _ Hi h) as Hb. specialize (Hpre h). revert Hb Hpre. unfold held.
    rewrite !pins_of_cons. cbn [drop_pins h_pins]. multiplicities. rewrite map_lookup_imap.
    rewrite (occ_expand h ds Hnd).
    destruct (blobs (w_tables w) !! h) as [b|]; simpl; [|lia].
    destruct (list_find (fun d : str * Z => d.1 = h) ds) as [[i d]|] eqn:Ef; [|lia].
    apply list_find_Some in Ef as (Hd & _ & _). rewrite Forall_lookup in Hpos. specialize (Hpos i d Hd).
    unfold release_by. simpl. lia.
Qed.

(** ** The backend *)
Lemma inv_change_store t s s' c g g' gs :
  InvC t s c (g :: gs) -> v_inv bk_view s' ->
  h_pins g' = h_pins g -> h_tokens g' = h_tokens g -> h_writing g' = h_writing g ->
  (forall h, is_Some (blobs t !! h) ∨ (exists g0, g0 ∈ g :: gs ∧ h ∈ h_written g0) ->
     v_present bk_view s h = true -> v_present bk_view s' h = true) ->
  (forall h, v_present bk_view s' h = true -> exists d, v_content bk_view s' h = Some d ∧ blake3 d = h) ->
  (forall h, h ∈ h_written g' -> h ∈ h_written g ∨ (h ∈ h_writing g ∧ v_present bk_view s' h = true)) ->
  InvC t s' c (g' :: gs).
Proof.
  intros [Hs Hb Hby Hcl Hwi Hwr Hl Hca Hm] Hs' Ep Et Ew Hkeep Hcl' Hw. constructor; try done.
  - intros h. specialize (Hb h). revert Hb. unfold held. rewrite !pins_of_cons. by rewrite Ep.
  - intros h b Hh. apply Hkeep; [left; by exists b|by eapply Hby].
  - intros g0 h Hg0. apply elem_of_cons in Hg0 as [->|Hg0]; [rewrite Ew; apply Hwi; left|apply Hwi; by right].
  - intros g0 h Hg0 Hh. apply elem_of_cons in Hg0 as [->|Hg0].
    + rewrite Ew. destruct (Hw h Hh) as [Hh'|Hh']; [|done].
      destruct (Hwr g h) as [? ?]; [left|done|]. split; [done|]. apply Hkeep; [|done]. right. exists g. split; [left|done].
    + destruct (Hwr g0 h) as [? ?]; [by right|done|]. split; [done|]. apply Hkeep; [|done]. right. exists g0. split; [by right|done].
  - intros h. specialize (Hm h). revert Hm. unfold refs. rewrite !tokens_of_cons. by rewrite Et.
Qed.
Lemma inv_note_written t s s' c g gs h d :
  InvC t s c (g :: gs) -> v_inv bk_view s' ->
  (forall h', h' ≠ h -> unchanged_at bk_view s s' h') ->
  v_content bk_view s' h = Some d ∧ blake3 d = h ->
  InvC t s' c (note_written h g :: gs).
Proof.
  intros Hi Hs' Hother [Hd Hh]. apply (inv_change_store t s s' c g); try done.
  1-3: unfold note_written; by case_decide.
  - intros h' _ Hp. destruct (decide (h' = h)) as [->|Hne]; [by eapply present_of_content|].
    by rewrite (proj2 (Hother h' Hne)).
  - intros h' Hp. destruct (decide (h' = h)) as [->|Hne]; [by exists d|].
    destruct (Hother h' Hne) as [Hc Hpr]. rewrite Hpr in Hp. rewrite Hc. by apply (inv_clean _ _ _ _ Hi).
  - intros h' Hw. unfold note_written in Hw. case_decide as Hin; [|by left].
    cbn in Hw. apply elem_of_union in Hw as [Hw|Hw%elem_of_singleton]; [by left|subst h'; right].
    split; [done|by eapply present_of_content].
Qed.
Lemma inv_same_store t s s' c gs :
  v_inv bk_view s' -> (forall h, unchanged_at bk_view s s' h) -> InvC t s c gs -> InvC t s' c gs.
Proof.
  intros Hs' Hsame [Hs Hb Hby Hcl Hwi Hwr Hl Hca Hm]. constructor; try done.
  - intros h b Hh. rewrite (proj2 (Hsame h)). by eapply Hby.
  - intros h. destruct (Hsame h) as [-> ->]. apply Hcl.
  - intros g h Hg Hh. rewrite (proj2 (Hsame h)). by apply Hwr.
Qed.
(** A write of a blob's own bytes. *)
Lemma inv_write op h d w g gs r s' :
  rewrites bk_view op -> fails_clean bk_view op -> Inv (St := St) w (g :: gs) -> blake3 d = h ->
  op h d (w_store w) = (r, s') ->
  InvC (w_tables w) s' (w_cache w) (match r with Ok _ => note_written h g | Err _ => g end :: gs).
Proof.
  intros Hop Hcl Hi Hd Eop. unfold Inv in Hi. pose proof (inv_store _ _ _ _ Hi) as Hs.
  destruct (Hop _ _ _ _ _ Hs Eop) as (Hs' & Hsame & Hnew & _). destruct r as [n|e].
  - assert (Hc : exists d', v_content bk_view s' h = Some d' ∧ blake3 d' = h).
    { destruct (Hnew n eq_refl) as [Hc|[Hp [Hc Hp']]]; [by exists d|]. rewrite Hc. by apply (inv_clean _ _ _ _ Hi). }
    destruct Hc as (d' & Hc). by eapply (inv_note_written _ _ s' _ g gs h d').
  - destruct (Hcl _ _ _ _ _ Hs Eop) as [Hun|Hc].
    + eapply inv_same_store; [done| |done]. intros h'. destruct (decide (h' = h)) as [->|Hne]; [done|by apply Hsame].
    + eapply inv_weaken; [..|by eapply (inv_note_written _ _ s' _ g gs h d)];
        unfold note_written; case_decide; cbn; try done; set_solver.
Qed.
Lemma put_ok h d : cmd_ok (St := St) (BPut h d) (fun _ => blake3 d = h) (fun _ => True).
Proof.
  intros w g gs x w' Hi Hd Hx _. cbn [exec] in Hx. unfold on_store in Hx.
  destruct (put_blob_from_bytes_unsynced h d (w_store w)) as [r s'] eqn:Eop. injection Hx as <- <-.
  split; [|done]. pose proof (inv_write _ h d w g gs r s' bk_put_unsynced failed_put_unsynced Hi Hd Eop). by destruct r.
Qed.
Lemma replace_ok h d : cmd_ok (St := St) (BReplace h d) (fun _ => blake3 d = h) (fun _ => True).
Proof.
  intros w g gs x w' Hi Hd Hx _. cbn [exec] in Hx. unfold on_store in Hx.
  destruct (put_blob_from_bytes_replace h d (w_store w)) as [r s'] eqn:Eop. injection Hx as <- <-.
  split; [|done]. pose proof (inv_write _ h d w g gs r s' bk_rewrite failed_rewrite Hi Hd Eop). by destruct r.
Qed.

Lemma delete_queued t s s' c gs h r p :
  InvC t s c gs -> pending t !! h = Some p -> still_unreferenced t h = true ->
  delete_blob h s = (r, s') -> InvC t s' c gs.
Proof.
  intros Hi Hp Hun Hdel. destruct (bk_delete _ _ _ _ (inv_store _ _ _ _ Hi) Hdel) as (Hs' & Hsame & Hold & _).
  assert (Hrow : blobs t !! h = None).
  { unfold still_unreferenced in Hun. apply negb_true_iff, orb_false_iff in Hun as [Hun _]. by apply is_present_false. }
  destruct Hi as [Hs Hb Hby Hcl Hwi Hwr Hl Hca Hm]. constructor; try done.
  - intros h' b Hh'. assert (h' ≠ h) as Hne by congruence. rewrite (proj2 (Hsame h' Hne)). by eapply Hby.
  - intros h' Hp'. assert (Hsm : unchanged_at bk_view s s' h').
    { destruct (decide (h' = h)) as [->|Hne]; [|by apply Hsame]. destruct Hold as [?|Hgone]; [done|congruence]. }
    destruct Hsm as [Hc1 Hp1]. rewrite Hc1. apply Hcl. by rewrite <- Hp1.
  - intros g h' Hg Hh'. destruct (Hwr g h' Hg Hh') as [Hw Hpr]. split; [done|].
    assert (h' ≠ h) as Hne. { intros ->. rewrite (Hwi g h Hg Hw) in Hp. done. }
    by rewrite (proj2 (Hsame h' Hne)).
Qed.
Lemma inv_pending t s c gs h p f :
  InvC t s c gs -> pending t !! h = Some p ->
  (forall h', h' ≠ h -> f (pending t) !! h' = pending t !! h') ->
  InvC (set_pending f t) s c gs.
Proof.
  intros [Hs Hb Hby Hcl Hwi Hwr Hl Hca Hm] Hp Hf. constructor; try done.
  intros g h' Hg Hh'. simpl. rewrite Hf; [by eapply Hwi|]. intros ->. rewrite (Hwi g h Hg Hh') in Hp. done.
Qed.
Lemma reclaim_ok h : cmd_ok (St := St) (QReclaim h) (fun _ => True) (fun _ => True).
Proof.
  intros w g gs x w' Hi _ Hx _. split; [|done]. cbn [holds_after]. cbn [exec] in Hx. unfold reclaim in Hx.
  destruct (next_fault_world w) as (Ht & Hs & Hc & _). destruct (next_fault w) as [f w1]. cbn [fst snd] in *.
  assert (Hi1 : Inv w1 (g :: gs)) by (unfold Inv; by rewrite Ht, Hs, Hc).
  destruct (pending (w_tables w1) !! h) as [p|] eqn:Hp.
  2:{ assert (w' = w1) as ->; [|done]. revert Hx. by repeat case_match; intros [= <- <-]. }
  destruct (still_unreferenced (w_tables w1) h) eqn:Hun.
  - destruct (delete_blob h (w_store w1)) as [r s'] eqn:Edel.
    assert (Hi2 : InvC (w_tables w1) s' (w_cache w1) (g :: gs)) by (eapply delete_queued; eauto).
    repeat case_match; try (by injection Hx as <- <-); injection Hx as <- <-; unfold Inv; simpl;
      apply (inv_pending _ _ _ _ h p); try done; intros h' Hne;
      by rewrite ?lookup_delete_ne, ?lookup_insert_ne by done.
  - repeat case_match; try (by injection Hx as <- <-); injection Hx as <- <-; unfold Inv; simpl;
      apply (inv_pending _ _ _ _ h p); try done; intros h' Hne;
      by rewrite ?lookup_delete_ne, ?lookup_insert_ne by done.
Qed.

(** ** Reads *)
Lemma get_ok h : cmd_ok (St := St) (BGet h) (fun _ => True) (fun _ => True).
Proof.
  intros w g gs x w' Hi _ Hx _. split; [|done]. cbn [exec] in Hx. unfold on_store in Hx.
  destruct (get_blob_stream h (w_store w)) as [r s'] eqn:Eop. injection Hx as <- <-.
  destruct (bk_get _ _ _ _ (inv_store _ _ _ _ Hi) Eop) as (Hs' & Hsame & _).
  by eapply inv_same_store.
Qed.
Lemma range_ok h s e : (0 <= s)%Z -> cmd_ok (St := St) (BRange h s e) (fun _ => True) (fun _ => True).
Proof.
  intros Hs0 w g gs x w' Hi _ Hx _. split; [|done]. cbn [exec] in Hx. unfold on_store in Hx.
  destruct (get_blob_range_stream h s e (w_store w)) as [r s'] eqn:Eop. injection Hx as <- <-.
  destruct (bk_range s e Hs0 _ _ _ _ (inv_store _ _ _ _ Hi) Eop) as (Hs' & Hsame & _).
  by eapply inv_same_store.
Qed.
Lemma sync_ok hs : cmd_ok (St := St) (BSync hs) (fun _ => True) (fun _ => True).
Proof.
  intros w g gs x w' Hi _ Hx _. split; [|done]. cbn [exec] in Hx. unfold sync in Hx.
  destruct (w_sync w); by injection Hx as <- <-.
Qed.
Lemma cache_get_ok h :
  cmd_ok (St := St) (CGet h) (fun _ => True) (fun x => forall m, x = Some m -> good_layout h m).
Proof.
  intros w g gs x w' Hi _ Hx _. cbn [exec] in Hx. injection Hx as <- <-. split; [done|].
  apply (inv_cache _ _ _ _ Hi).
Qed.
Lemma inv_set_cache t s c gs f :
  InvC t s c gs -> (forall h m, f c !! h = Some m -> good_layout h m) -> InvC t s (f c) gs.
Proof. intros [? ? ? ? ? ? ? ? ?] Hc. by constructor. Qed.
Lemma cache_insert_ok h m : cmd_ok (St := St) (CInsert h m) (fun _ => good_layout h m) (fun _ => True).
Proof.
  intros w g gs x w' Hi Hm Hx _. cbn [exec] in Hx. injection Hx as <- <-. split; [|done].
  apply (inv_set_cache _ _ (w_cache w) _ <[h := m]>); [done|]. intros h' m'. rewrite lookup_insert.
  case_decide; [by intros [= <-]; subst|]. apply (inv_cache _ _ _ _ Hi).
Qed.
Lemma cache_invalidate_ok h : cmd_ok (St := St) (CInvalidate h) (fun _ => True) (fun _ => True).
Proof.
  intros w g gs x w' Hi _ Hx _. cbn [exec] in Hx. injection Hx as <- <-. split; [|done].
  apply (inv_set_cache _ _ (w_cache w) _ (delete h)); [done|]. intros h' m' [_ Hm]%lookup_delete_Some.
  by apply (inv_cache _ _ _ _ Hi).
Qed.
Lemma manifest_ok h :
  cmd_ok (St := St) (QManifest h) (fun _ => True) (fun x => forall m, x = Ok (Some m) -> good_layout h m).
Proof.
  sql_start; [split; [by apply Hk|done]|]. answer Hq. split; [by apply Hk|].
  intros m Hm. destruct (manifests (w_tables w) !! h) as [m0|] eqn:E; [|done]. injection Hm as <-.
  by apply (inv_layouts _ _ _ _ Hi).
Qed.
Lemma file_hash_ok id : cmd_ok (St := St) (QFileHash id) (fun _ => True) (fun _ => True).
Proof. sql_start; [split; [by apply Hk|done]|]. answer Hq. split; [by apply Hk|done]. Qed.
Lemma identical_file_ok f n h : cmd_ok (St := St) (QIdenticalFile f n h) (fun _ => True) (fun _ => True).
Proof. sql_start; [split; [by apply Hk|done]|]. answer Hq. split; [by apply Hk|done]. Qed.
(** Without legacy references these commands do nothing. *)
Lemma release_legacy_ok h : cmd_ok (St := St) (QReleaseLegacy h) (fun _ => True) (fun x => forall b, x ≠ Ok (Some b)).
Proof.
  sql_start; [split; [by apply Hk|done]|]. unfold q_release_legacy in Hq.
  repeat case_match; answer Hq; try (by cbn in Ho). split; [by apply Hk|done].
Qed.
Lemma add_blob_ref_ok h : cmd_ok (St := St) (QAddBlobRef h) (fun _ => True) (fun x => x ≠ Ok true).
Proof.
  sql_start; [split; [by apply Hk|done]|]. unfold q_add_blob_ref in Hq.
  repeat case_match; answer Hq; try (by cbn in Ho); (split; [by apply Hk|done]).
Qed.

(** ** Manifests *)
Lemma manifests_with_same t h m m' x :
  manifests t !! h = Some m -> m_layout m' = m_layout m ->
  manifests_with (set_manifests <[h := m']> t) x = manifests_with t x.
Proof. intros Hm Hl. unfold manifests_with. simpl. apply count_replace_same with m; [done|]. by rewrite Hl. Qed.
(** A change of one manifest's counter by which only tokens of this thread change. *)
Lemma inv_change_counter t s c g g' gs h m n :
  InvC t s c (g :: gs) -> manifests t !! h = Some m ->
  h_pins g' = h_pins g -> h_writing g' = h_writing g -> h_written g' = h_written g ->
  (forall x, x ≠ h -> multiplicity x (h_tokens g') = multiplicity x (h_tokens g)) ->
  (Z.of_nat (refs t (g' :: gs) h) <= n)%Z ->
  InvC (set_manifests <[h := mkManifest (m_layout m) (m_content_type m) n]> t) s c (g' :: gs).
Proof.
  intros Hi Hm Ep Ew Ewr Et Hn. apply (inv_change t _ s c g); try done.
  - apply (writing_kept t _ s c g); [done|by rewrite Ew|done].
  - by apply (written_kept t s c g _ gs).
  - intros x. pose proof (inv_blobs _ _ _ _ Hi x) as Hb. revert Hb. unfold held.
    rewrite !pins_of_cons, Ep. by erewrite manifests_with_same.
  - intros x b Hb. left. by exists b.
  - intros x m'. simpl. rewrite lookup_insert. case_decide; [|apply (inv_layouts _ _ _ _ Hi)].
    intros [= <-]. subst. exact (inv_layouts _ _ _ _ Hi _ _ Hm).
  - intros x. simpl. rewrite lookup_insert. case_decide as Hx; [by subst|].
    pose proof (inv_manifests _ _ _ _ Hi x) as Hb. revert Hb. unfold refs. rewrite !tokens_of_cons, Et by done. done.
Qed.
Lemma bump_ok h : cmd_ok (St := St) (QBumpManifest h) (fun _ => True) (fun _ => True).
Proof.
  sql_start; [split; [by apply Hk|done]|]. unfold q_bump_manifest in Hq.
  destruct (manifests (w_tables w) !! h) as [m|] eqn:Em; [case_match eqn:Efull|]; answer Hq; (split; [|done]); try (by apply Hk).
  apply Hk. apply (inv_change_counter _ _ _ g); try done.
  - intros x Hx. cbn [add_tokens h_tokens]. multiplicities. unfold one. rewrite decide_False by done. lia.
  - pose proof (inv_manifests _ _ _ _ Hi h) as Hb. rewrite Em in Hb. revert Hb. unfold refs. rewrite !tokens_of_cons.
    cbn [add_tokens h_tokens]. multiplicities. unfold one. rewrite decide_True by done. cbn. lia.
Qed.
Lemma add_manifest_ref_ok h : cmd_ok (St := St) (QAddManifestRef h) (fun _ => True) (fun _ => True).
Proof.
  sql_start; [split; [by apply Hk|done]|]. unfold q_add_manifest_ref in Hq.
  pose proof (bump_ok h (mkWorld (w_tables w) (w_store w) (w_cache w) 0 [] []) g gs) as Hb.
  cbn [exec] in Hb. unfold sql in Hb. cbn [next_fault w_script] in Hb.
  destruct (q_bump_manifest h (w_tables w)) as [r1 t1] eqn:Eb. cbn [w_tables] in Hb. rewrite Eb in Hb.
  destruct (Hb _ _ Hi I eq_refl eq_refl) as [Hi' _].
  destruct r1 as [[sz|]|e]; answer Hq; (split; [|done]); apply Hk; exact Hi'.
Qed.
Lemma manifest_for_release_ok h :
  cmd_ok (St := St) (QManifestForRelease h) (fun g => h ∈ h_tokens g)
    (fun x => match x with
              | Ok None => False
              | Ok (Some (_, cs)) => exists b, h = blake3 b ∧ cs = chunk_hashes (layout_of b)
              | Err _ => True end).
Proof.
  sql_start; [split; [by apply inv_drop_token, Hk|done]|]. answer Hq.
  destruct (token_manifest _ _ _ _ _ _ Hi Hpre) as (m & Hm & b & Hb & Hl). rewrite Hm. cbn. split; [by apply Hk|].
  exists b. by rewrite Hl.
Qed.
Lemma release_manifest_ok h cs :
  cmd_ok (St := St) (QReleaseManifest h cs)
    (fun g => h ∈ h_tokens g ∧ exists b, h = blake3 b ∧ cs = chunk_hashes (layout_of b)) (fun _ => True).
Proof.
  sql_start; [split; [by apply inv_drop_token, Hk|done]|]. destruct Hpre as (Htok & b & Hb & Hcs).
  destruct (token_manifest _ _ _ _ _ _ Hi Htok) as (m & Hm & Hl).
  assert (Hlay : m_layout m = layout_of b) by (eapply good_layout_unique; [done|by exists b]).
  unfold q_release_manifest in Hq. rewrite Hm in Hq. rewrite elem_of_multiplicity in Htok.
  pose proof (inv_manifests _ _ _ _ Hi h) as Hrc. rewrite Hm in Hrc. unfold refs in Hrc. rewrite tokens_of_cons in Hrc.
  case_bool_decide as Hle; answer Hq; (split; [|done]); apply Hk.
  - apply (inv_change (w_tables w) _ _ _ g); try done.
    + apply (writing_kept (w_tables w) _ (w_store w) (w_cache w) g); done.
    + by apply (written_kept _ _ _ _ _ _ Hi).
    + intros x. pose proof (inv_blobs _ _ _ _ Hi x) as Hbx. revert Hbx. unfold held. rewrite !pins_of_cons.
      cbn [drop_token h_pins blobs set_blobs set_manifests]. rewrite lookup_update_any. unfold manifests_with. cbn [manifests set_blobs set_manifests].
      rewrite (count_delete _ (manifests (w_tables w)) h m Hm). rewrite Hlay, <- Hcs. unfold one.
      destruct (blobs (w_tables w) !! x) as [bx|]; case_decide; simpl; lia.
    + intros x bx. cbn [blobs set_blobs set_manifests]. rewrite lookup_update_any.
      destruct (blobs (w_tables w) !! x); [eauto|]. by case_decide.
    + intros x mx. simpl. intros [_ Hx]%lookup_delete_Some. by apply (inv_layouts _ _ _ _ Hi).
    + intros x. simpl. rewrite lookup_delete. pose proof (inv_manifests _ _ _ _ Hi x) as Hx. revert Hx.
      unfold refs. rewrite !tokens_of_cons. cbn [drop_token h_tokens]. multiplicities. unfold one.
      unfold files_with, derived_with, attached_with in *. simpl. case_decide as E.
      * subst x. intros _. lia.
      * by rewrite Nat.sub_0_r.
  - apply (inv_change_counter _ _ _ g); try done.
    + intros x Hx. cbn [drop_token h_tokens]. multiplicities. unfold one. rewrite decide_False by done. lia.
    + unfold refs. rewrite tokens_of_cons. cbn [drop_token h_tokens]. multiplicities. unfold one.
      rewrite decide_True by done. lia.
Qed.
Lemma insert_manifest_ok h layout ct :
  cmd_ok (St := St) (QInsertManifest h layout ct)
    (fun g => good_layout h layout ∧ list_to_set_disj (remove_dups (chunk_hashes layout)) ⊆ h_pins g) (fun _ => True).
Proof.
  sql_start; [split; [by apply Hk|done]|]. destruct Hpre as [Hl Hpin]. unfold q_insert_manifest in Hq.
  destruct (manifests (w_tables w) !! h) as [m|] eqn:Em; answer Hq; (split; [|done]); [by apply Hk|].
  apply Hk. apply (inv_change (w_tables w) _ _ _ g); try done.
  - apply (writing_kept (w_tables w) _ (w_store w) (w_cache w) g); done.
  - by apply (written_kept _ _ _ _ _ _ Hi).
  - intros x. pose proof (inv_blobs _ _ _ _ Hi x) as Hb. specialize (Hpin x). revert Hb Hpin. unfold held. rewrite !pins_of_cons.
    cbn [add_tokens drop_pins h_pins]. multiplicities. unfold manifests_with. simpl.
    rewrite count_insert_new by done. cbn [m_layout]. unfold one. destruct (blobs (w_tables w) !! x); lia.
  - intros x b Hb. left. by exists b.
  - intros x m. simpl. rewrite lookup_insert. case_decide; [by intros [= <-]; subst|]. by apply (inv_layouts _ _ _ _ Hi).
  - intros x. simpl. rewrite lookup_insert. pose proof (inv_manifests _ _ _ _ Hi x) as Hx. revert Hx.
    unfold refs. rewrite !tokens_of_cons. cbn [add_tokens h_tokens drop_pins]. multiplicities. unfold one.
    unfold files_with, derived_with, attached_with in *. cbn. destruct (decide (h = x)) as [<-|E].
    + rewrite Em. cbn [m_ref_count]. lia.
    + by rewrite Nat.add_0_r.
Qed.

(** ** Sweeps *)
Lemma unreferenced_manifest t h p :
  no_reference_predicate built_in_registry Manifest = Some p -> p t h = true ->
  files_with t h = O ∧ derived_with t h = O ∧ attached_with t h = O.
Proof.
  intros [= <-]. cbn. rewrite negb_true_iff, !orb_false_iff, !bool_decide_eq_false. intuition lia.
Qed.
Lemma occ_batch x (rows : list (str * ManifestRow)) :
  occ x (batch_chunks ((fun kv => (kv.1, chunk_hashes (m_layout kv.2), total_size (m_layout kv.2))) <$> rows))
  = length (filter (fun m => x ∈ chunk_hashes (m_layout m)) rows.*2).
Proof.
  unfold batch_chunks. induction rows as [|[h m] rows IH]; [done|].
  rewrite !fmap_cons. cbn [concat fst snd]. rewrite occ_app, IH. rewrite filter_cons.
  rewrite occ_nodup by apply NoDup_remove_dups. unfold one. rewrite (decide_ext _ _ _ _ (elem_of_remove_dups _ _)).
  by case_decide.
Qed.
Lemma reap_manifests_ok limit :
  cmd_ok (St := St) (QReapManifests limit) (fun g => h_tokens g = ∅) (fun _ => True).
Proof.
  sql_start; [split; [by apply Hk|done]|]. unfold manifest_reap_sql in Hq.
  set (rows := take limit _) in Hq. answer Hq. split; [|done].
  assert (Hrows : forall kv, kv ∈ rows -> manifests (w_tables w) !! kv.1 = Some kv.2
            ∧ files_with (w_tables w) kv.1 = O ∧ derived_with (w_tables w) kv.1 = O
            ∧ attached_with (w_tables w) kv.1 = O).
  { intros kv Hkv. apply elem_of_take in Hkv as (i & Hkv%list_elem_of_lookup_2 & _).
    apply list_elem_of_filter in Hkv as [Hp Hkv]. destruct kv as [h m]. apply elem_of_map_to_list in Hkv. split; [done|].
    eapply unreferenced_manifest; [done|exact Hp]. }
  assert (Hnd : NoDup rows.*1).
  { eapply sublist_NoDup; [apply (NoDup_fst_map_to_list (manifests (w_tables w)))|].
    apply fmap_sublist. etrans; [apply sublist_take|apply sublist_filter]. }
  assert (Hown : forall h, h ∈ rows.*1 -> tokens_of gs h = O).
  { intros h Hh. apply list_elem_of_fmap in Hh as (kv & -> & Hkv). cbn in Ho.
    apply bool_decide_eq_true in Ho. rewrite Forall_fmap, list.Forall_forall in Ho. specialize (Ho kv Hkv). cbn in Ho.
    unfold no_token in Ho. clear -Ho. unfold tokens_of. induction Ho as [|g gs Hg _ IH]; [done|].
    rewrite fmap_cons. cbn [sum_list sum_list_with]. rewrite elem_of_multiplicity in Hg. rewrite IH. unfold id. lia. }
  apply Hk. apply (inv_change (w_tables w) _ _ _ g); try done.
  - apply (writing_kept (w_tables w) _ (w_store w) (w_cache w) g); done.
  - by apply (written_kept _ _ _ _ _ _ Hi).
  - intros x. pose proof (inv_blobs _ _ _ _ Hi x) as Hb. revert Hb. unfold held. rewrite !pins_of_cons.
    cbn [add_pins h_pins]. multiplicities. rewrite occ_batch. unfold manifests_with. cbn [manifests set_manifests].
    rewrite (count_delete_rows (fun m => x ∈ chunk_hashes (m_layout m)) rows (manifests (w_tables w)) Hnd)
      by (intros kv Hkv; by apply Hrows).
    cbn [blobs set_manifests]. destruct (blobs (w_tables w) !! x); lia.
  - intros x b Hb. left. by exists b.
  - intros x m. cbn [manifests set_manifests]. rewrite lookup_delete_rows. case_decide; [done|]. by apply (inv_layouts _ _ _ _ Hi).
  - intros x. cbn [manifests set_manifests]. rewrite lookup_delete_rows.
    pose proof (inv_manifests _ _ _ _ Hi x) as Hx. revert Hx. unfold refs. rewrite !tokens_of_cons.
    cbn [add_pins h_tokens]. case_decide as Hin; [|done]. intros _.
    apply list_elem_of_fmap in Hin as Hin'. destruct Hin' as (kv & -> & Hkv).
    destruct (Hrows kv Hkv) as (_ & Hf & Hd & Ha). rewrite Hpre, multiplicity_empty, (Hown _ Hin).
    unfold files_with, derived_with, attached_with in *. simpl. lia.
Qed.

Lemma delete_rows_keys {V} (rows : list (str * Z)) (m : gmap str V) :
  foldr (fun row : str * Z => delete row.1) m rows = foldr delete m rows.*1.
Proof. induction rows as [|r rows IH]; [done|]. simpl. by rewrite IH. Qed.
Lemma lookup_queued rows : forall p h, h ∉ rows.*1 -> foldl queue_deletion p rows !! h = p !! h.
Proof.
  induction rows as [|[h0 s0] rows IH]; intros p h Hn; [done|]. rewrite fmap_cons, not_elem_of_cons in Hn. destruct Hn as [Hne Hn].
  cbn [foldl]. rewrite IH by done. unfold queue_deletion. cbn [fst snd] in *. case_match; [done|]. by rewrite lookup_insert_ne.
Qed.
(** Reaping rows that nothing holds and nobody writes. *)
Lemma inv_reap t s c g gs rows :
  InvC t s c (g :: gs) -> h_writing g = ∅ ->
  (forall h, h ∈ rows.*1 -> held t (g :: gs) h = O ∧ not_writing h gs) ->
  InvC (reap_rows rows t) s c (g :: gs).
Proof.
  intros Hi Hw Hrows. unfold reap_rows. apply (inv_change t _ s c g); try done.
  - intros g0 h Hg0 Hh. cbn [pending set_pending set_blobs]. assert (h ∉ rows.*1) as Hn.
    { intros Hin. destruct (Hrows h Hin) as [_ Hno]. unfold not_writing in Hno. rewrite list.Forall_forall in Hno.
      apply elem_of_cons in Hg0 as [->|Hg0]; [rewrite Hw in Hh; set_solver|]. by apply (Hno g0). }
    rewrite lookup_queued by done. by apply (inv_writing _ _ _ _ Hi g0).
  - by apply (written_kept _ _ _ _ _ _ Hi).
  - intros h. cbn [blobs set_pending set_blobs]. rewrite delete_rows_keys, lookup_delete_all. case_decide as Hin.
    + apply (Hrows h Hin).
    + apply (inv_blobs _ _ _ _ Hi h).
  - intros h b. cbn [blobs set_pending set_blobs]. rewrite delete_rows_keys, lookup_delete_all.
    case_decide; [done|]. intros Hb. left. by exists b.
  - apply (inv_layouts _ _ _ _ Hi).
  - apply (inv_manifests _ _ _ _ Hi).
Qed.
Lemma unheld t s c gs h b :
  InvC t s c gs -> blobs t !! h = Some b -> (b_ref_count b <= 0)%Z -> held t gs h = O.
Proof. intros Hi Hb Hle. pose proof (inv_blobs _ _ _ _ Hi h) as Hh. rewrite Hb in Hh. lia. Qed.
Lemma reap_blobs_ok limit grace :
  cmd_ok (St := St) (QReapBlobs limit grace) (fun g => h_writing g = ∅) (fun _ => True).
Proof.
  sql_start; [split; [by apply Hk|done]|]. unfold blob_reap_sql in Hq. set (rows := fmap _ (take limit _)) in Hq.
  answer Hq. split; [|done]. apply Hk. apply inv_reap; try done. intros h Hh.
  cbn in Ho. apply bool_decide_eq_true in Ho. rewrite list.Forall_forall in Ho.
  apply list_elem_of_fmap in Hh as (row & -> & Hrow). split; [|by apply Ho].
  apply list_elem_of_fmap in Hrow as ([k b] & -> & Hkv). apply elem_of_take in Hkv as (i & Hkv%list_elem_of_lookup_2 & _).
  apply list_elem_of_filter in Hkv as [Hp Hkv]. apply elem_of_map_to_list in Hkv. cbn in *.
  eapply unheld; [done..|]. unfold reapable_blob in Hp. rewrite !andb_true_iff in Hp.
  destruct Hp as [[[[Hp _] _] _] _]. by apply bool_decide_eq_true in Hp.
Qed.
Lemma cleanup_ok h : cmd_ok (St := St) (QCleanup h) (fun g => h_writing g = ∅) (fun _ => True).
Proof.
  sql_start; [split; [by apply Hk|done]|]. unfold q_cleanup in Hq.
  destruct (blobs (w_tables w) !! h) as [b|] eqn:Eb; [case_match eqn:Ec|]; answer Hq; (split; [|done]); try (by apply Hk).
  apply Hk. apply inv_reap; try done. intros h' Hh'. apply list_elem_of_singleton in Hh' as ->. cbn in Ho.
  apply bool_decide_eq_true in Ho. split; [|done]. eapply unheld; [done..|].
  apply andb_true_iff in Ec as [Ec _]. by apply bool_decide_eq_true in Ec.
Qed.

(** ** Rows that refer to manifests *)

(** A change of those rows by which no reference count grows. *)
Lemma inv_change_refs t t' s c g g' gs :
  InvC t s c (g :: gs) ->
  blobs t' = blobs t -> manifests t' = manifests t -> pending t' = pending t ->
  h_pins g' = h_pins g -> h_writing g' = h_writing g -> h_written g' = h_written g ->
  (forall h, refs t' (g' :: gs) h <= refs t (g :: gs) h)%nat ->
  InvC t' s c (g' :: gs).
Proof.
  intros Hi Eb Em Ep Epins Ew Ewr Hrefs. apply (inv_change t t' s c g); try done.
  - apply (writing_kept t t' s c g); [done|by rewrite Ew|by rewrite Ep].
  - by apply (written_kept _ _ _ _ _ _ Hi).
  - rewrite Eb. eapply backed_mono; [|exact (inv_blobs _ _ _ _ Hi)]. intros h. unfold held, manifests_with.
    rewrite !pins_of_cons, Em, Epins. lia.
  - rewrite Eb. intros h b Hb. left. by exists b.
  - rewrite Em. apply (inv_layouts _ _ _ _ Hi).
  - rewrite Em. eapply backed_mono; [exact Hrefs|]. exact (inv_manifests _ _ _ _ Hi).
Qed.
Lemma mapM_id_Some (l : list (option str)) hs : mapM id l = Some hs -> l = Some <$> hs.
Proof.
  revert hs. induction l as [|o l IH]; intros hs; cbn; [by intros [= <-]|].
  intros (h & Ho & (hs' & Hl & [= <-])%bind_Some)%bind_Some. rewrite (IH hs' Hl). unfold id in Ho. by subst.
Qed.
Lemma length_filter_Some h (hs : list str) : length (filter (fun o => o = Some h) (Some <$> hs)) = occ h hs.
Proof.
  induction hs as [|x hs IH]; [done|]. rewrite fmap_cons, filter_cons, occ_cons. unfold one.
  destruct (decide (x = h)) as [->|Hne]; [rewrite decide_True by done; simpl; by rewrite IH|].
  rewrite decide_False by congruence. by rewrite IH.
Qed.
Lemma delete_derived_ok source : cmd_ok (St := St) (QDeleteDerived source) (fun _ => True) (fun _ => True).
Proof.
  sql_start; [split; [by apply Hk|done]|]. unfold q_delete_derived in Hq.
  set (Q := fun kv : str * str * str * option str => kv.1.1.1 = source) in Hq.
  assert (Hc : forall h, derived_with (w_tables w) h =
    (length (filter (fun o => o = Some h) (map_to_list (filter Q (derived (w_tables w)))).*2)
     + count (fun o => o = Some h) (filter (fun kv => ~ Q kv) (derived (w_tables w))))%nat).
  { intros h. unfold derived_with. rewrite (count_split _ Q). by rewrite (count_values _ (filter Q _)). }
  apply pair_equal_spec in Hq as [<- <-]. split; [|done]. apply Hk.
  destruct (mapM id _) as [hs|] eqn:Em; cbn [map_err holds_after].
  - apply (inv_change_refs (w_tables w) _ _ _ g); try done. intros h. unfold refs. rewrite !tokens_of_cons.
    cbn [add_tokens h_tokens]. multiplicities. rewrite (Hc h). apply mapM_id_Some in Em. rewrite Em, length_filter_Some.
    unfold derived_with, files_with, attached_with. simpl. subst Q. cbn beta. lia.
  - apply (inv_change_refs (w_tables w) _ _ _ g); try done. intros h. unfold refs. rewrite (Hc h).
    unfold derived_with, files_with, attached_with. simpl. subst Q. cbn beta. lia.
Qed.
Lemma insert_derived_ok source k v h :
  cmd_ok (St := St) (QInsertDerived source k v (Some h)) (fun g => h ∈ h_tokens g) (fun _ => True).
Proof.
  sql_start; [split; [by apply Hk|done]|]. unfold q_insert_derived in Hq. pose proof (token_counts _ _ Hpre) as Htok.
  case_match eqn:Ec; answer Hq; (split; [|done]); [|by apply Hk]. apply Hk.
  apply andb_true_iff in Ec as [_ Ec]. destruct (derived (w_tables w) !! (source, k, v)) eqn:Ed; [done|].
  apply (inv_change_refs (w_tables w) _ _ _ g); try done. intros x. unfold refs. rewrite !tokens_of_cons.
  unfold derived_with. cbn [derived set_derived]. rewrite count_insert_new by done.
  cbn [drop_token h_tokens]. multiplicities. rewrite (one_iff (Some h = Some x) (h = x)) by naive_solver.
  specialize (Htok x). unfold files_with, attached_with. simpl. lia.
Qed.
Lemma upsert_attached_ok f k v h :
  cmd_ok (St := St) (QUpsertAttached f k v h) (fun g => h ∈ h_tokens g) (fun _ => True).
Proof.
  sql_start; [split; [by apply Hk|done]|]. unfold q_upsert_attached in Hq. pose proof (token_counts _ _ Hpre) as Htok.
  case_match eqn:Ec; answer Hq; (split; [|done]); [|by apply Hk]. apply Hk.
  apply (inv_change_refs (w_tables w) _ _ _ g); try done. intros x. unfold refs. rewrite !tokens_of_cons.
  cbn [drop_token h_tokens]. multiplicities. specialize (Htok x).
  unfold attached_with, derived_with, files_with. cbn [attached derived file_rows set_attached].
  destruct (attached (w_tables w) !! (f, k, v)) as [old|] eqn:Eo.
  - pose proof (count_replace (fun b => b = x) _ _ _ h Eo) as Hc. cbn beta in Hc. lia.
  - rewrite count_insert_new by done. lia.
Qed.
Lemma insert_file_ok folder name h size :
  cmd_ok (St := St) (QInsertFile folder name h size) (fun g => h ∈ h_tokens g) (fun _ => True).
Proof.
  sql_start; [split; [by apply Hk|done]|]. unfold q_insert_file in Hq. pose proof (token_counts _ _ Hpre) as Htok.
  repeat case_match; answer Hq; (split; [|done]); try (by apply Hk). apply Hk.
  apply (inv_change_refs (w_tables w) _ _ _ g); try done. intros x. unfold refs. rewrite !tokens_of_cons.
  unfold files_with. cbn [file_rows set_files]. rewrite count_insert_new by (apply not_elem_of_dom, is_fresh).
  cbn [drop_token h_tokens f_blob]. multiplicities. specialize (Htok x). unfold derived_with, attached_with. simpl. lia.
Qed.
Lemma swap_file_ok id h size expected :
  cmd_ok (St := St) (QSwapFile id h size expected) (fun g => h ∈ h_tokens g) (fun _ => True).
Proof.
  sql_start; [split; [by apply Hk|done]|]. unfold q_swap_file in Hq. pose proof (token_counts _ _ Hpre) as Htok.
  destruct (file_rows (w_tables w) !! id) as [f|] eqn:Ef; answer Hq; (split; [|done]); [|by apply Hk].
  set (matched := match expected with None => true | Some e => bool_decide (f_blob f = e) end) in *.
  destruct matched; [|by apply Hk]. apply Hk.
  apply (inv_change_refs (w_tables w) _ _ _ g); try done. intros x. unfold refs. rewrite !tokens_of_cons.
  unfold files_with. cbn [file_rows set_files].
  pose proof (count_replace (fun f => f_blob f = x) _ _ _ (mkFile (f_folder f) (f_name f) h size (f_is_trashed f)) Ef) as Hc.
  cbn [f_blob] in Hc. cbn [add_tokens drop_token h_tokens]. multiplicities. specialize (Htok x).
  unfold derived_with, attached_with. cbn [derived attached set_files]. lia.
Qed.

(** The trigger gives back one reference. *)
Lemma inv_decrement t s c g gs now h :
  InvC t s c (add_tokens [h] g :: gs) -> InvC (decrement_blob_ref now h t) s c (g :: gs).
Proof.
  intros Hi. destruct (token_manifest _ _ _ _ _ h Hi) as (m & Hm & _).
  { rewrite elem_of_multiplicity. cbn [add_tokens h_tokens]. multiplicities. unfold one. rewrite decide_True by done. lia. }
  unfold decrement_blob_ref. rewrite Hm. pose proof (inv_manifests _ _ _ _ Hi h) as Hb. rewrite Hm in Hb.
  apply (inv_change_counter _ _ _ (add_tokens [h] g)); try done.
  - intros x Hx. cbn [add_tokens h_tokens]. multiplicities. unfold one. rewrite decide_False by done. lia.
  - revert Hb. unfold refs. rewrite !tokens_of_cons. cbn [add_tokens h_tokens]. multiplicities. unfold one.
    rewrite decide_True by done. lia.
Qed.
Lemma add_tokens_cons h hs g t s c gs :
  InvC t s c (add_tokens (h :: hs) g :: gs) -> InvC t s c (add_tokens [h] (add_tokens hs g) :: gs).
Proof.
  apply inv_weaken; try done. intros x. cbn [add_tokens h_tokens]. multiplicities. rewrite occ_cons. lia.
Qed.
Lemma inv_decrements hs : forall t s c g gs now,
  InvC t s c (add_tokens hs g :: gs) ->
  InvC (foldl (fun t h => decrement_blob_ref now h t) t hs) s c (g :: gs).
Proof.
  induction hs as [|h hs IH]; intros t s c g gs now Hi; cbn [foldl].
  - eapply inv_weaken; [..|exact Hi]; try done. intros x. cbn [add_tokens h_tokens]. multiplicities. lia.
  - apply IH. by apply inv_decrement, add_tokens_cons.
Qed.
(** The values of one file's attachments. *)
Lemma attached_split t id h :
  attached_with t h =
  (occ h (map_to_list (filter (fun kv => kv.1.1.1 = id) (attached t))).*2
   + count (fun b => b = h) (filter (fun kv => kv.1.1.1 ≠ id) (attached t)))%nat.
Proof.
  unfold attached_with. rewrite (count_split _ (fun kv => kv.1.1.1 = id)). by rewrite (count_values _ (filter _ _)).
Qed.
Lemma delete_file_ok id : cmd_ok (St := St) (QDeleteFile id) (fun _ => True) (fun _ => True).
Proof.
  sql_start; [split; [by apply Hk|done]|]. unfold q_delete_file in Hq.
  destruct (file_rows (w_tables w) !! id) as [f|] eqn:Ef; answer Hq; (split; [|done]); [|by apply Hk].
  apply Hk. apply inv_decrements. apply (inv_change_refs (w_tables w) _ _ _ g); try done.
  intros x. unfold refs. rewrite !tokens_of_cons. cbn [add_tokens h_tokens]. multiplicities. rewrite occ_cons.
  rewrite (attached_split (w_tables w) id x). unfold files_with, derived_with, attached_with.
  cbn [file_rows derived attached set_files set_attached]. rewrite (count_delete _ (file_rows (w_tables w)) id f Ef). lia.
Qed.

(** Taking one more reference on a manifest that has one. *)
Lemma inv_add_reference t t' s c g gs h :
  InvC t s c (g :: gs) -> (0 < refs t (g :: gs) h)%nat -> add_blob_reference (Some t) h = Some t' ->
  InvC t' s c (add_tokens [h] g :: gs) ∧ file_rows t' = file_rows t ∧ attached t' = attached t
  ∧ derived t' = derived t.
Proof.
  intros Hi Hpos Hadd. pose proof (inv_manifests _ _ _ _ Hi h) as Hb. cbn in Hadd.
  destruct (manifests t !! h) as [m|] eqn:Em; [|lia]. case_bool_decide as Hfull; [done|].
  injection Hadd as <-. split; [|done]. apply (inv_change_counter _ _ _ g); try done.
  - intros x Hx. cbn [add_tokens h_tokens]. multiplicities. unfold one. rewrite decide_False by done. lia.
  - revert Hb. unfold refs. rewrite !tokens_of_cons. cbn [add_tokens h_tokens]. multiplicities. unfold one.
    rewrite decide_True by done. lia.
Qed.
Lemma add_reference_none hs : foldl add_blob_reference None hs = None.
Proof. by induction hs. Qed.
Lemma inv_add_references hs : forall t t' s c g gs,
  InvC t s c (g :: gs) -> (forall h, h ∈ hs -> 0 < files_with t h + attached_with t h)%nat ->
  foldl add_blob_reference (Some t) hs = Some t' ->
  InvC t' s c (add_tokens hs g :: gs) ∧ file_rows t' = file_rows t ∧ attached t' = attached t
  ∧ derived t' = derived t.
Proof.
  induction hs as [|h hs IH]; intros t t' s c g gs Hi Hpos Hadd; cbn [foldl] in Hadd.
  - injection Hadd as <-. split; [|done]. eapply inv_weaken; [..|exact Hi]; try done.
    intros x. cbn [add_tokens h_tokens]. multiplicities. unfold occ. cbn. lia.
  - destruct (add_blob_reference (Some t) h) as [t1|] eqn:E1; [|by rewrite add_reference_none in Hadd].
    destruct (inv_add_reference t t1 s c g gs h Hi) as (Hi1 & Hf1 & Ha1 & Hd1); [|done|].
    { unfold refs. specialize (Hpos h ltac:(left)). lia. }
    destruct (IH t1 t' s c (add_tokens [h] g) gs Hi1) as (Hi2 & Hf2 & Ha2 & Hd2); [|done|].
    { intros x Hx. unfold files_with, attached_with. rewrite Hf1, Ha1. apply Hpos. by right. }
    split_and!; try congruence. eapply inv_weaken; [..|exact Hi2]; try done.
    intros x. cbn [add_tokens h_tokens]. multiplicities. rewrite occ_cons. lia.
Qed.
(** The rows and the counters are independent. *)
Lemma add_references_frame hs : forall t t' fa ff,
  foldl add_blob_reference (Some (set_attached fa (set_files ff t))) hs = Some t' ->
  exists t1, foldl add_blob_reference (Some t) hs = Some t1 ∧ t' = set_attached fa (set_files ff t1).
Proof.
  induction hs as [|h hs IH]; intros t t' fa ff; cbn [foldl]; [intros [= <-]; by exists t|].
  destruct (add_blob_reference (Some t) h) as [t1|] eqn:E1.
  - assert (add_blob_reference (Some (set_attached fa (set_files ff t))) h = Some (set_attached fa (set_files ff t1))) as ->; [|apply IH].
    revert E1. cbn. destruct (manifests t !! h), (blobs t !! h); cbn; repeat case_match; intros [= <-]; done.
  - assert (add_blob_reference (Some (set_attached fa (set_files ff t))) h = None) as ->; [|by rewrite add_reference_none].
    revert E1. cbn. destruct (manifests t !! h), (blobs t !! h); cbn; repeat case_match; done.
Qed.
Lemma count_attach x id (copied : list (N * str * str * str)) : forall m : gmap (N * str * str) str,
  (count (fun b => b = x) (foldl (fun a kv => <[(id, kv.1.1.2, kv.1.2) := kv.2]> a) m copied)
   <= count (fun b => b = x) m + occ x copied.*2)%nat.
Proof.
  induction copied as [|kv copied IH]; intros m; cbn [foldl]; [rewrite fmap_nil; lia|].
  rewrite fmap_cons, occ_cons. etrans; [apply IH|].
  assert (count (fun b => b = x) (<[(id, kv.1.1.2, kv.1.2) := kv.2]> m) <= count (fun b => b = x) m + one (kv.2 = x))%nat; [|lia].
  destruct (m !! (id, kv.1.1.2, kv.1.2)) as [old|] eqn:Eo.
  - pose proof (count_replace (fun b => b = x) _ _ _ kv.2 Eo) as Hc. cbn beta in Hc. lia.
  - rewrite count_insert_new by done. lia.
Qed.
Lemma copy_file_ok src target name : cmd_ok (St := St) (QCopyFile src target name) (fun _ => True) (fun _ => True).
Proof.
  sql_start; [split; [by apply Hk|done]|]. unfold q_copy_file in Hq.
  destruct (file_rows (w_tables w) !! src) as [f|] eqn:Ef; [|answer Hq; split; [by apply Hk|done]].
  destruct (f_is_trashed f); [answer Hq; split; [by apply Hk|done]|].
  case_decide; [|answer Hq; split; [by apply Hk|done]].
  case_match; [answer Hq; split; [by apply Hk|done]|].
  set (copied := map_to_list _) in Hq. case_match eqn:Eadd; answer Hq; (split; [|done]); [|by apply Hk].
  apply Hk. apply add_references_frame in Eadd as (t1 & Eadd & ->).
  destruct (inv_add_references (f_blob f :: copied.*2) _ t1 _ _ _ _ Hi) as (Hi1 & Hf1 & Ha1 & Hd1); [|exact Eadd|].
  { intros h Hh. apply elem_of_cons in Hh as [->|Hh].
    - assert (0 < files_with (w_tables w) (f_blob f))%nat; [|lia]. apply count_pos. by exists src, f.
    - assert (0 < attached_with (w_tables w) h)%nat; [|lia]. rewrite (attached_split _ src).
      assert (0 < occ h copied.*2)%nat by by apply occ_pos. subst copied. lia. }
  apply (inv_change_refs t1 _ _ _ (add_tokens (f_blob f :: copied.*2) g)); try done.
  intros x. unfold refs. rewrite !tokens_of_cons. cbn [add_tokens h_tokens]. multiplicities. rewrite occ_cons.
  unfold files_with, derived_with, attached_with. cbn [file_rows derived attached set_files set_attached].
  rewrite Hf1, count_insert_new by (apply not_elem_of_dom, is_fresh). cbn [f_blob].
  pose proof (count_attach x (fresh (dom (file_rows (w_tables w)))) copied (attached t1)) as Hc. lia.
Qed.
End cmds.
