(* ===== verification/BlobSafety.v ===== *)
(** * The programs keep the invariant

    [safe p g Q]: a thread that holds [g] and runs [p] respects the invariant at every command,
    whatever the other threads do between its commands, and ends with an answer and holdings
    that satisfy [Q].  One lemma per operation of the blob handler. *)

From stdpp Require Import gmultiset.
From S2P Require Import Prelude.
From S2P Require Import RustStr.
From S2P Require Import DomainErrors.
From S2P Require Import BlobBackend.
From S2P Require Import StoragePath.
From S2P Require Import BlobDb.
From S2P Require Import BlobCount.
From S2P Require Import BlobHandler.
From S2P Require Import BlobInv.
From S2P Require Import BlobCmds.

#[local] Arguments lit : simpl never.
(** Exposes the next command of a program. *)
Ltac next_cmd := cbn [mbind prog_bind pbind call].

Section safety.
Context `{Chunker} {St : Type} `{AtomicPuts St}.
Implicit Types (g : holds) (gs : list holds).

(** ** The logic *)
Fixpoint safe {A} (p : prog A) (g : holds) (Q : A -> holds -> Prop) : Prop :=
  match p with
  | Ret a => Q a g
  | Do c k => forall (w : World St) gs x w', Inv w (g :: gs) -> exec c w = (x, w') -> orderly c x gs = true ->
      Inv w' (holds_after c x g :: gs) ∧ safe (k x) (holds_after c x g) Q
  end.
Lemma safe_mono {A} (p : prog A) : forall g (Q Q' : A -> holds -> Prop),
  (forall a g', Q a g' -> Q' a g') -> safe p g Q -> safe p g Q'.
Proof.
  induction p as [a|X c k IH]; intros g Q Q' HQ; simpl; [by apply HQ|].
  intros Hs w gs x w' Hi Hx Ho. destruct (Hs w gs x w' Hi Hx Ho) as [Hi' Hk]. split; [done|]. by eapply IH.
Qed.
Lemma safe_bind {A B} (p : prog A) (f : A -> prog B) : forall g Q,
  safe p g (fun a g' => safe (f a) g' Q) -> safe (pbind p f) g Q.
Proof.
  induction p as [a|X c k IH]; intros g Q; simpl; [done|].
  intros Hs w gs x w' Hi Hx Ho. destruct (Hs w gs x w' Hi Hx Ho) as [Hi' Hk]. split; [done|]. by apply IH.
Qed.
Lemma safe_seq {A B} (p : prog A) (f : A -> prog B) g Q (P : A -> holds -> Prop) :
  safe p g P -> (forall a g', P a g' -> safe (f a) g' Q) -> safe (pbind p f) g Q.
Proof. intros Hp Hf. apply safe_bind. by eapply safe_mono; [|exact Hp]. Qed.
Lemma safe_do {A X} (c : cmd X) (k : X -> prog A) g pre post Q :
  cmd_ok (St := St) c pre post -> pre g -> (forall x, post x -> safe (k x) (holds_after c x g) Q) ->
  safe (Do c k) g Q.
Proof.
  intros Hc Hpre Hk w gs x w' Hi Hx Ho. destruct (Hc w g gs x w' Hi Hpre Hx Ho) as [Hi' Hpost]. split; [done|]. by apply Hk.
Qed.
Lemma safe_for_each {A} (f : A -> prog unit) l g :
  (forall a, a ∈ l -> safe (f a) g (fun _ g' => g' = g)) -> safe (for_each f l) g (fun _ g' => g' = g).
Proof.
  induction l as [|a l IH]; intros Hf; cbn [for_each]; [done|].
  eapply safe_seq; [apply Hf; left|]. intros _ g' ->. apply IH. intros x Hx. apply Hf. by right.
Qed.

(** ** References *)
Lemma drop_added h hs g :
  drop_token h (add_tokens (h :: hs) g) = add_tokens hs g.
Proof.
  unfold drop_token, add_tokens. cbn [h_pins h_writing h_written h_tokens]. f_equal. apply gmultiset_eq. intros x. multiplicities. rewrite occ_cons. lia.
Qed.
Lemma add_no_tokens g : add_tokens [] g = g.
Proof.
  destruct g as [p wr wn t]. unfold add_tokens. cbn [h_pins h_writing h_written h_tokens]. f_equal. apply gmultiset_eq. intros x. multiplicities. lia.
Qed.
Lemma remove_with_safe reap h g :
  (forall g', safe (reap h) g' (fun _ g'' => g'' = g')) -> h ∈ h_tokens g ->
  safe (remove_with reap h) g (fun _ g' => g' = drop_token h g).
Proof.
  intros Hreap Ht. unfold remove_with. next_cmd. eapply (safe_do _ _ _ _ _ _ (manifest_for_release_ok h)); [done|].
  intros [[[rc cs]|]|e] Hpost; cbn [sql_err map_err holds_after]; [|done|done].
  unfold remove_manifest_with. next_cmd. eapply (safe_do _ _ _ _ _ _ (release_manifest_ok h cs)); [done|].
  intros [[[]|]|e'] _; cbn [tx_err map_err holds_after]; [|done..].
  next_cmd. eapply (safe_do _ _ _ _ _ _ (cache_invalidate_ok h)); [done|]. intros [] _. cbn [holds_after].
  eapply safe_seq; [apply Hreap|]. by intros _ g' ->.
Qed.
Lemma reap_safe fuel : forall h g, safe (reap_blob fuel h) g (fun _ g' => g' = g).
Proof.
  induction fuel as [|fuel IH]; intros h g; cbn [reap_blob]; [done|]. unfold purge_with.
  next_cmd. eapply (safe_do _ _ _ _ _ _ (delete_derived_ok h)); [done|]. intros [hs|e] _; cbn [holds_after]; [|done].
  induction hs as [|h' hs IHhs]; cbn [for_each]; [by rewrite add_no_tokens|].
  apply safe_bind, safe_bind.
  eapply safe_mono; [|apply remove_with_safe; [intros g'; apply IH|]].
  - intros r g' ->. cbn. rewrite drop_added. exact IHhs.
  - cbn [add_tokens h_tokens]. rewrite gmultiset_elem_of_disj_union, elem_of_list_to_set_disj. right. left.
Qed.
Lemma remove_reference_safe fuel h g :
  h ∈ h_tokens g -> safe (remove_reference fuel h) g (fun _ g' => g' = drop_token h g).
Proof. intros Ht. apply remove_with_safe; [|done]. intros g'. apply reap_safe. Qed.
Lemma add_reference_safe h g :
  safe (add_reference h) g (fun r g' => match r with Ok _ => g' = add_tokens [h] g | Err _ => True end).
Proof.
  unfold add_reference. next_cmd. eapply (safe_do _ _ _ _ _ _ (add_manifest_ref_ok h)); [done|].
  intros [[]|e] _; cbn [sql_err map_err holds_after]; [done| |done].
  next_cmd. eapply (safe_do _ _ _ _ _ _ (add_blob_ref_ok h)); [done|]. by intros [[]|e] Hpost.
Qed.
Lemma cleanup_safe fuel h g : h_writing g = ∅ -> safe (cleanup_if_orphaned fuel h) g (fun _ g' => g' = g).
Proof.
  intros Hw. unfold cleanup_if_orphaned. next_cmd. eapply (safe_do _ _ _ _ _ _ (cleanup_ok h)); [done|].
  intros [[]|e] _; cbn [holds_after]; [apply reap_safe|done..].
Qed.

(** ** Garbage collection *)
Lemma occ_decrements h batch : occ h (expand (decrements batch)) = occ h (batch_chunks batch).
Proof.
  unfold decrements. fold (batch_chunks batch). set (all := batch_chunks batch).
  rewrite occ_expand. 2:{ rewrite <- list_fmap_compose. cbn. rewrite list_fmap_id. apply NoDup_remove_dups. }
  destruct (list_find _ _) as [[i d]|] eqn:Ef.
  - apply list_find_Some in Ef as (Hi & Hd & _). rewrite list_lookup_fmap in Hi.
    apply fmap_Some in Hi as (x & _ & ->). cbn in Hd. subst x. cbn. unfold occ. lia.
  - destruct (occ h all) eqn:Eo; [done|]. exfalso. assert (h ∈ all) as Hin by (apply occ_pos; lia).
    apply elem_of_remove_dups, list_elem_of_lookup in Hin as [i Hi].
    eapply (list_find_None _ _) in Ef. rewrite list.Forall_forall in Ef. eapply (Ef (h, _)); [|done].
    apply list_elem_of_fmap. exists h. split; [done|]. by apply list_elem_of_lookup_2 in Hi.
Qed.
Lemma release_batch_safe batch g :
  list_to_set_disj (batch_chunks batch) ⊆ h_pins g ->
  safe (release_batch batch) g (fun _ g' => h_tokens g' = h_tokens g ∧ h_writing g' = h_writing g).
Proof.
  intros Hsub. unfold release_batch.
  assert (Hgen : safe (call (QReleaseCounted (decrements batch))) g
                   (fun _ g' => h_tokens g' = h_tokens g ∧ h_writing g' = h_writing g)).
  { next_cmd. eapply (safe_do _ _ _ _ _ _ (release_counted_ok _)).
    - split_and!.
      + unfold decrements. rewrite <- list_fmap_compose. cbn. rewrite list_fmap_id. apply NoDup_remove_dups.
      + unfold decrements. rewrite Forall_fmap, list.Forall_forall. intros x _. cbn. lia.
      + intros x. specialize (Hsub x). revert Hsub. multiplicities. by rewrite occ_decrements.
    - intros [|] _; done. }
  destruct batch as [|row [|row' batch]]; [done| |done].
  next_cmd. eapply (safe_do _ _ _ _ _ _ (release_ok _)); [|by intros [|] _].
  intros x. specialize (Hsub x). revert Hsub. unfold batch_chunks. cbn. rewrite app_nil_r. done.
Qed.
Definition idle_holds (g : holds) : Prop := h_tokens g = ∅ ∧ h_writing g = ∅.
Lemma gc_manifests_safe loops fuel : forall deleted freed g,
  idle_holds g -> safe (gc_manifests loops fuel deleted freed) g (fun _ g' => idle_holds g').
Proof.
  induction loops as [|loops IH]; intros deleted freed g [Ht Hw]; cbn [gc_manifests]; [done|].
  next_cmd. eapply (safe_do _ _ _ _ _ _ (reap_manifests_ok _)); [done|].
  intros [batch|e] _; cbn [sql_err map_err holds_after]; [|done]. destruct batch as [|row batch]; [done|].
  set (all := row :: batch). set (g1 := add_pins (batch_chunks all) g).
  eapply safe_seq.
  { apply (safe_for_each _ all g1). intros r _. next_cmd. eapply (safe_do _ _ _ _ _ _ (cache_invalidate_ok _)); [done|].
    intros [] _. apply reap_safe. }
  intros _ g' ->. eapply safe_seq.
  { apply (release_batch_safe all). intros x. cbn. multiplicities. lia. }
  intros r g2 [Ht2 Hw2]. destruct r as [[]|e]; cbn [sql_err map_err].
  2:{ cbn. split; [by rewrite Ht2|by rewrite Hw2]. }
  eapply safe_seq; [apply safe_for_each; intros r _; apply reap_safe|].
  intros _ g3 ->. apply IH. split; [by rewrite Ht2|by rewrite Hw2].
Qed.
Lemma gc_blobs_safe loops fuel grace : forall deleted freed g,
  idle_holds g -> safe (gc_blobs loops fuel grace deleted freed) g (fun _ g' => idle_holds g').
Proof.
  induction loops as [|loops IH]; intros deleted freed g [Ht Hw]; cbn [gc_blobs]; [done|].
  next_cmd. eapply (safe_do _ _ _ _ _ _ (reap_blobs_ok _ _)); [done|].
  intros [batch|e] _; cbn [sql_err map_err holds_after]; [|done]. destruct batch as [|row batch]; [done|].
  eapply safe_seq; [apply (safe_for_each _ (row :: batch)); intros r _; apply reap_safe|].
  intros _ g' ->. by apply IH.
Qed.
Lemma gc_safe loops fuel grace g :
  idle_holds g -> safe (garbage_collect_with_grace loops fuel grace) g (fun _ g' => idle_holds g').
Proof.
  intros Hg. unfold garbage_collect_with_grace. eapply safe_seq; [by apply gc_manifests_safe|].
  intros [[[d f]|e]|] g' Hg'; [by apply gc_blobs_safe|done|done].
Qed.
End safety.
