(* ===== verification/BlobIngest.v ===== *)
(** * Uploads keep the invariant

    The ingest of a stream, batch by batch, with its rollback; attaching the manifest; the
    requests that store content and record it. *)

From stdpp Require Import gmultiset.
From S2P Require Import Prelude.
From S2P Require Import RustStr.
From S2P Require Import DomainErrors.
From S2P Require Import BlobBackend.
From S2P Require Import StoragePath.
From S2P Require Import BlobDb.
From S2P Require Import BlobCount.
From S2P Require Import BlobHandler.
From S2P Require Import BlobInv.
From S2P Require Import BlobCmds.
From S2P Require Import BlobSafety.

#[local] Arguments lit : simpl never.

Section ingest.
Context `{Chunker} {St : Type} `{AtomicPuts St}.
Implicit Types (g : holds) (st : IngestState).
Abbreviation safe := (@safe _ St _ _).

(** The chunks a session has taken: pinned or written. *)
Definition taken st : list str := pinned st ++ (written st).*1.
(** What a session that started with [g0] holds. *)
Record session (g0 : holds) st g : Prop := {
  se_pins : h_pins g = h_pins g0 ⊎ list_to_set_disj (pinned st);
  se_tokens : h_tokens g = h_tokens g0;
  se_written h : h ∈ (written st).*1 -> h ∈ h_written g;
  se_nodup : NoDup (taken st);
}.
Lemma rollback_safe g0 st g :
  session g0 st g -> safe (run_rollback st) g (fun _ g' => h_tokens g' = h_tokens g0).
Proof.
  intros [Hp Ht Hw Hnd]. unfold run_rollback, taken in *. apply list.NoDup_app in Hnd as (Hnd & _ & Hndw).
  assert (Hrest : forall g1, h_tokens g1 = h_tokens g0 -> (forall h, h ∈ (written st).*1 -> h ∈ h_written g1) ->
    safe (match written st with
          | [] => Ret tt
          | rows => synced ← call (BSync rows.*1);
              match synced with Err _ => Ret tt | Ok _ => _ ← call (QRegisterOrphans rows); Ret tt end
          end) g1 (fun _ g' => h_tokens g' = h_tokens g0)).
  { intros g1 Ht1 Hw1. destruct (written st) as [|row rows] eqn:Ew; [done|]. next_cmd.
    eapply (safe_do _ _ _ _ _ _ (sync_ok _)); [done|]. intros [[]|e] _; [|done]. next_cmd.
    eapply (safe_do _ _ _ _ _ _ (register_orphans_ok _)); [done|]. by intros [|] _. }
  destruct (pinned st) as [|p ps] eqn:Ep; [by apply Hrest|]. next_cmd.
  eapply (safe_do _ _ _ _ _ _ (release_ok _)).
  { intros x. rewrite Hp. multiplicities. rewrite occ_nodup by done. lia. }
  intros [|] _; by apply Hrest.
Qed.
Lemma fail_ingest_safe {A} g0 st g e :
  session g0 st g ->
  safe (fail_ingest (A := A) st e) g (fun r g' => r = Err e ∧ h_tokens g' = h_tokens g0).
Proof. intros Hs. unfold fail_ingest. eapply safe_seq; [by apply (rollback_safe g0)|]. by intros [] g' Hg'. Qed.

(** ** Settling a batch *)
Lemma note_written_grows h g h' : h' ∈ h_written g -> h' ∈ h_written (note_written h g).
Proof. unfold note_written. case_decide; cbn; set_solver. Qed.
Lemma note_written_same h g :
  h_pins (note_written h g) = h_pins g ∧ h_tokens (note_written h g) = h_tokens g
  ∧ h_writing (note_written h g) = h_writing g.
Proof. unfold note_written. by case_decide. Qed.
Lemma write_chunks_safe contested : forall to_write g,
  (forall h d, (h, d) ∈ to_write -> blake3 d = h) -> (forall h, h ∈ to_write.*1 -> h ∈ h_writing g) ->
  safe (write_chunks contested to_write) g (fun rs g' =>
    h_pins g' = h_pins g ∧ h_tokens g' = h_tokens g ∧ (forall h, h ∈ h_written g -> h ∈ h_written g')
    ∧ Forall2 (fun (b : str * bytes) r => forall row, r = Ok row -> row.1 = b.1 ∧ b.1 ∈ h_written g') to_write rs).
Proof.
  induction to_write as [|[h d] rest IH]; intros g Hd Hw; cbn [write_chunks]; [done|].
  assert (Hcmd : cmd_ok (St := St) (if decide (h ∈ contested) then BReplace h d else BPut h d) (fun _ => blake3 d = h) (fun _ => True)).
  { case_decide; [apply replace_ok|apply put_ok]. }
  assert (Hafter : forall x, holds_after (if decide (h ∈ contested) then BReplace h d else BPut h d) x g
            = match x with Ok _ => note_written h g | Err _ => g end) by (intros x; by case_decide).
  next_cmd. eapply (safe_do _ _ _ _ _ _ Hcmd); [apply Hd; left|]. intros x _. rewrite Hafter.
  set (g1 := match x with Ok _ => note_written h g | Err _ => g end).
  assert (Hg1 : h_pins g1 = h_pins g ∧ h_tokens g1 = h_tokens g ∧ h_writing g1 = h_writing g
                ∧ forall h', h' ∈ h_written g -> h' ∈ h_written g1).
  { subst g1. destruct x; [|done]. destruct (note_written_same h g) as (? & ? & ?). split_and!; try done.
    intros h'. apply note_written_grows. }
  destruct Hg1 as (Hp1 & Ht1 & Hw1 & Hwr1). eapply safe_seq.
  { apply IH; [intros h' d' Hin; apply Hd; by right|]. rewrite Hw1. intros h' Hin. apply Hw. cbn. by right. }
  intros rs g2 (Hp2 & Ht2 & Hwr2 & Hrs). cbn. split_and!; [congruence..|auto|]. constructor; [|done].
  intros row Hrow. destruct x as [n|e]; [|done]. injection Hrow as <-. split; [done|]. apply Hwr2. subst g1.
  unfold note_written. rewrite decide_True by (apply Hw; left). cbn. set_solver.
Qed.
Lemma collect_written_rows rs : forall st err,
  (collect_written st err rs).1 = mkIngest (pinned st) (written st ++ omap result_ok rs).
Proof.
  induction rs as [|[row|e] rs IH]; intros st err; cbn [collect_written]; [|rewrite IH; cbn..].
  - rewrite app_nil_r. by destruct st.
  - by rewrite <- app_assoc.
  - done.
Qed.
Lemma collect_written_ok rs : forall st err,
  (collect_written st err rs).2 = None -> err = None ∧ exists rows, rs = Ok <$> rows.
Proof.
  induction rs as [|[row|e] rs IH]; intros st err; cbn [collect_written].
  { intros Hx. split; [done|by exists []]. }
  - intros (-> & rows & ->)%IH. split; [done|]. by exists (row :: rows).
  - intros [He _]%IH. by destruct err.
Qed.

Lemma written_rows (P : str -> Prop) (to_write : list (str * bytes))
  (rs : list (result DomainError (str * Z))) :
  Forall2 (fun b r => forall row, r = Ok row -> row.1 = b.1 ∧ P b.1) to_write rs ->
  (omap result_ok rs).*1 `sublist_of` to_write.*1 ∧ (forall h, h ∈ (omap result_ok rs).*1 -> P h)
  ∧ (forall rows, rs = Ok <$> rows -> (omap result_ok rs).*1 = to_write.*1).
Proof.
  induction 1 as [|b r to_write rs Hr Hrs (IH1 & IH2 & IH3)].
  - split_and!; [done| |done]. intros h Hh. by apply not_elem_of_nil in Hh.
  - destruct r as [row|e]; cbn.
    + destruct (Hr row eq_refl) as [Hrow HP]. rewrite Hrow. split_and!.
      * by apply sublist_skip.
      * intros h [->|Hh]%elem_of_cons; [done|by apply IH2].
      * intros [|row' rows] Hrows; [done|]. injection Hrows as _ Hrows. f_equal. by eapply IH3.
    + split_and!; [by apply sublist_cons|done|]. intros [|row rows] Hrows; [done|]. injection Hrows as Hx _. done.
Qed.
(** Membership and duplicates of what a batch adds. *)
Lemma pin_session g0 st g (hits : list str) (batch : list str) :
  session g0 st g -> NoDup hits -> (forall h, h ∈ hits -> h ∈ batch) -> NoDup (taken st ++ batch) ->
  session g0 (mkIngest (pinned st ++ filter (fun h => h ∈ hits) batch) (written st)) (add_pins hits g).
Proof.
  intros [Hp Ht Hw Hnd] Hhits Hsub Hall. apply list.NoDup_app in Hall as (_ & Hdis & Hbatch). constructor; cbn; try done.
  - rewrite Hp. apply gmultiset_eq. intros x. multiplicities. rewrite occ_app.
    rewrite (occ_nodup x hits Hhits), (occ_nodup x (filter _ _)) by by apply list.NoDup_filter.
    rewrite (one_iff (x ∈ filter (fun h => h ∈ hits) batch) (x ∈ hits)); [lia|].
    rewrite list_elem_of_filter. naive_solver.
  - unfold taken in *. cbn. apply list.NoDup_app in Hnd as (Hnd1 & Hdis1 & Hnd2). rewrite <- app_assoc.
    apply list.NoDup_app. split_and!; [done| |].
    + intros h Hh [Hf|Hh2]%elem_of_app; [|by eapply Hdis1]. apply list_elem_of_filter in Hf as [_ Hf].
      apply (Hdis h); [by apply elem_of_app; left|done].
    + apply list.NoDup_app. split_and!; [by apply list.NoDup_filter| |done].
      intros h [_ Hf]%list_elem_of_filter Hh. apply (Hdis h); [by apply elem_of_app; right|done].
Qed.
Lemma settle_safe g0 st g batch :
  session g0 st g -> (forall h d, (h, d) ∈ batch -> blake3 d = h) -> NoDup (taken st ++ batch.*1) ->
  safe (settle_batch st batch) g (fun r g' => session g0 r.2 g'
    ∧ (forall h, h ∈ taken r.2 -> h ∈ taken st ++ batch.*1)
    ∧ (r.1 = Ok tt -> forall h, h ∈ taken st ++ batch.*1 -> h ∈ taken r.2)).
Proof.
  intros Hs Hd Hall. unfold settle_batch. destruct batch as [|b0 batch0].
  { cbn. rewrite app_nil_r. done. }
  set (batch := b0 :: batch0) in *. clearbody batch. clear b0 batch0. next_cmd.
  eapply (safe_do _ _ _ _ _ _ (pin_ok _)); [done|]. intros [hits|e] Hpost; cbn [sql_err map_err holds_after].
  2:{ cbn. split_and!; [done| |done]. intros h Hh. by apply elem_of_app; left. }
  destruct (Hpost hits eq_refl) as [Hhits Hsub]. clear Hpost.
  pose proof (pin_session g0 st g hits batch.*1 Hs Hhits Hsub Hall) as Hs1.
  set (st1 := mkIngest _ _) in *. set (to_write := filter (fun b : str * bytes => b.1 ∉ hits) batch).
  assert (Hto : forall h, h ∈ to_write.*1 <-> h ∈ batch.*1 ∧ h ∉ hits).
  { intros h. unfold to_write. rewrite !list_elem_of_fmap. setoid_rewrite list_elem_of_filter. naive_solver. }
  assert (Htaken1 : forall h, h ∈ taken st1 <-> h ∈ taken st ∨ (h ∈ batch.*1 ∧ h ∈ hits)).
  { intros h. unfold taken, st1. cbn. rewrite !elem_of_app, list_elem_of_filter. tauto. }
  destruct to_write as [|b1 tw] eqn:Etw.
  { cbn. split_and!; [done| |].
    - intros h [?|[? _]]%Htaken1; apply elem_of_app; auto.
    - intros _ h [Hh|Hh]%elem_of_app; apply Htaken1; [by left|right]. split; [done|].
      destruct (decide (h ∈ hits)) as [|Hn]; [done|]. exfalso. apply (not_elem_of_nil h). by apply Hto. }
  rewrite <- Etw in *. clear b1 tw Etw. next_cmd.
  eapply (safe_do _ _ _ _ _ _ (cancel_ok _)); [done|]. intros [contested|e] _; cbn [sql_err map_err holds_after].
  2:{ cbn. split_and!; [done| |done]. intros h [?|[? _]]%Htaken1; apply elem_of_app; auto. }
  assert (Hdis : forall h, h ∈ taken st -> h ∉ batch.*1) by (apply list.NoDup_app in Hall; naive_solver).
  eapply safe_seq.
  { apply write_chunks_safe.
    - intros h d Hin. apply Hd. by apply list_elem_of_filter in Hin as [_ ?].
    - intros h Hh. cbn. apply elem_of_union. right. by apply elem_of_list_to_set. }
  intros rs g2 (Hp2 & Ht2 & Hw2 & Hrs). destruct (written_rows (fun h => h ∈ h_written g2) _ _ Hrs) as (Hsl & Hwr & Hfull).
  pose proof (collect_written_rows rs st1 None) as Hrows. pose proof (collect_written_ok rs st1 None) as Hok.
  destruct (collect_written st1 None rs) as [st2 err]. cbn in Hrows, Hok |- *. subst st2. destruct Hs1 as [Hsp Hst Hsw Hsnd].
  assert (Hnew : forall h, h ∈ (omap result_ok rs).*1 -> h ∈ batch.*1 ∧ h ∉ hits).
  { intros h Hh. apply Hto. by eapply sublist_subseteq. }
  split_and!.
  - constructor; cbn.
    + by rewrite Hp2.
    + by rewrite Ht2.
    + intros h. rewrite fmap_app, elem_of_app. intros [Hh|Hh]; [|by apply Hwr]. apply Hw2. cbn.
      apply elem_of_difference. split; [by apply (Hsw h)|]. intros [Hb _]%elem_of_list_to_set%Hto.
      apply (Hdis h); [|done]. unfold taken. by apply elem_of_app; right.
    + unfold taken. cbn. rewrite fmap_app, app_assoc. apply list.NoDup_app. split_and!; [exact Hsnd| |].
      * intros h [Hh|[_ Hh]]%Htaken1 Hn; destruct (Hnew h Hn); [by eapply Hdis|done].
      * eapply sublist_NoDup; [|exact Hsl]. eapply sublist_NoDup; [|apply fmap_sublist, sublist_filter].
        by apply list.NoDup_app in Hall as (_ & _ & ?).
  - intros h. unfold taken. cbn. rewrite fmap_app, app_assoc, elem_of_app.
    intros [Hh|Hh]; [apply Htaken1 in Hh as [?|[? _]]|apply Hnew in Hh as [? _]]; apply elem_of_app; auto.
  - intros Herr h Hh. destruct err; [done|]. destruct (Hok eq_refl) as (_ & rows & Hall_ok).
    unfold taken. cbn. rewrite fmap_app, app_assoc, elem_of_app. destruct (decide (h ∈ taken st1)) as [|Hn]; [by left|right].
    rewrite (Hfull rows Hall_ok). apply Hto. apply elem_of_app in Hh as [Hh|Hh]; [by destruct Hn; apply Htaken1; left|].
    split; [done|]. intros Hhit. apply Hn, Htaken1. auto.
Qed.

(** ** The loop *)
Definition lengths (ds : list bytes) : list Z := (fun d => Z.of_nat (length d)) <$> ds.
(** The loop variables after the chunks [ds]. *)
Record ingested (g0 : holds) (ds : list bytes) (ig : Ingest) g : Prop := {
  in_session : session g0 (ig_state ig) g;
  in_bytes : ig_bytes ig = concat ds;
  in_total : ig_total ig = Z.of_nat (length (concat ds));
  in_hashes : ig_hashes ig = blake3 <$> ds;
  in_sizes : ig_sizes ig = lengths ds;
  in_pending h d : (h, d) ∈ ig_pending ig -> blake3 d = h;
  in_nodup : NoDup (taken (ig_state ig) ++ (ig_pending ig).*1);
  in_seen h : h ∈ taken (ig_state ig) ++ (ig_pending ig).*1 -> h ∈ ig_hashes ig;
  in_complete h : (forall e, ig_in_flight ig ≠ Some (Err e)) -> h ∈ ig_hashes ig ->
    h ∈ taken (ig_state ig) ++ (ig_pending ig).*1;
}.
Lemma start_ingested g : ingested g [] ingest_start g.
Proof.
  constructor; cbn; try done; try (intros ? Hx; by apply not_elem_of_nil in Hx).
  - constructor; cbn; try done; [|intros ? Hx; by apply not_elem_of_nil in Hx|constructor].
    apply gmultiset_eq. intros x. multiplicities. lia.
  - intros ? ? Hx. by apply not_elem_of_nil in Hx.
  - constructor.
Qed.
Lemma take_ingested g0 ds ig g d :
  ingested g0 ds ig g -> ingested g0 (ds ++ [d]) (take_chunk blake3 ig d) g.
Proof.
  intros [Hs Hb Ht Hh Hz Hp Hnd Hse Hc]. unfold take_chunk.
  constructor; cbn [ig_bytes ig_total ig_hashes ig_sizes ig_pending ig_in_flight ig_state].
  - done.
  - rewrite Hb, concat_app. cbn. by rewrite app_nil_r.
  - rewrite Ht, concat_app, length_app. cbn. rewrite app_nil_r. lia.
  - by rewrite Hh, fmap_app.
  - unfold lengths. by rewrite Hz, fmap_app.
  - intros h d'. case_bool_decide; [|by apply Hp]. rewrite elem_of_app, list_elem_of_singleton.
    intros [Hin|[= -> ->]]; [by apply Hp|done].
  - case_bool_decide as Hf; [|done]. rewrite fmap_app, app_assoc. apply list.NoDup_app. split_and!; [done| |apply NoDup_singleton].
    intros h Hin ->%list_elem_of_singleton. by apply Hf, Hse.
  - intros h. case_bool_decide; rewrite ?fmap_app, ?app_assoc, !elem_of_app; cbn.
    + intros [Hin|Hin]; [left; by apply Hse, elem_of_app|by right].
    + intros Hin. left. by apply Hse, elem_of_app.
  - intros h Hfl. rewrite elem_of_app, list_elem_of_singleton. intros [Hin| ->].
    + specialize (Hc h Hfl Hin). case_bool_decide; [|done]. rewrite fmap_app, app_assoc. apply elem_of_app. by left.
    + case_bool_decide as Hf; [rewrite fmap_app, app_assoc; apply elem_of_app; right; left|].
      by apply Hc.
Qed.
(** Flushing keeps the loop invariant, whatever the batch's result. *)
Lemma flush_ingested g0 ds ig g (r : result DomainError unit) st g' (in_flight : option (result DomainError unit)) :
  ingested g0 ds ig g -> (forall e, ig_in_flight ig ≠ Some (Err e)) -> session g0 st g' ->
  (forall h, h ∈ taken st -> h ∈ taken (ig_state ig) ++ (ig_pending ig).*1) ->
  (r = Ok tt -> forall h, h ∈ taken (ig_state ig) ++ (ig_pending ig).*1 -> h ∈ taken st) ->
  in_flight = Some r ∨ (in_flight = None ∧ r = Ok tt) ->
  ingested g0 ds (flushed ig in_flight st) g'.
Proof.
  intros [Hs Hb Ht Hh Hz Hp Hnd Hse Hc] Hfl Hs' Hsub Hfull Hin. unfold flushed.
  constructor; cbn [ig_bytes ig_total ig_hashes ig_sizes ig_pending ig_in_flight ig_state]; try done.
  - intros h d Hx. by apply not_elem_of_nil in Hx.
  - rewrite app_nil_r. apply Hs'.
  - intros h. rewrite app_nil_r. intros Hx. by apply Hse, Hsub.
  - intros h Hne Hx. rewrite app_nil_r. apply Hfull; [|by apply Hc].
    destruct Hin as [->|[_ ->]]; [|done]. destruct r as [[]|e]; [done|]. by destruct (Hne e).
Qed.
Lemma ingest_loop_safe overlap g0 items : forall ds ig g, ingested g0 ds ig g ->
  safe (ingest_loop blake3 overlap items ig) g (fun r g' =>
    match r with
    | Ok ig' => exists l, items = Ok <$> l ∧ ingested g0 (ds ++ l) ig' g'
    | Err _ => h_tokens g' = h_tokens g0
    end).
Proof.
  induction items as [|[d|e] items IH]; intros ds ig g Hig; cbn [ingest_loop].
  - cbn. exists []. by rewrite app_nil_r.
  - assert (Hnext : forall ig' g', ingested g0 (ds ++ [d]) ig' g' ->
      safe (ingest_loop blake3 overlap items ig') g' (fun r g'' =>
        match r with
        | Ok ig'' => exists l, Ok d :: items = Ok <$> l ∧ ingested g0 (ds ++ l) ig'' g''
        | Err _ => h_tokens g'' = h_tokens g0 end)).
    { intros ig' g' Hig'. eapply safe_mono; [|by apply (IH (ds ++ [d]))]. intros [ig''|e] g'' Hr; [|done].
      destruct Hr as (l & -> & Hl). exists (d :: l). split; [done|]. by rewrite <- app_assoc in Hl. }
    pose proof (take_ingested g0 ds ig g d Hig) as Htake. set (ig1 := take_chunk blake3 ig d) in *.
    destruct (must_flush blake3 ig d); [|by apply Hnext].
    assert (Hfail : forall st g' e, session g0 st g' ->
      safe (fail_ingest (A := Ingest) st e) g' (fun r g'' =>
        match r with
        | Ok ig'' => exists l, Ok d :: items = Ok <$> l ∧ ingested g0 (ds ++ l) ig'' g''
        | Err _ => h_tokens g'' = h_tokens g0 end)).
    { intros st g' e Hs. eapply safe_mono; [|by apply (fail_ingest_safe g0)]. by intros r g'' [-> Ht]. }
    assert (Hgo : (forall e, ig_in_flight ig1 ≠ Some (Err e)) ->
      safe (settled ← settle_batch (ig_state ig1) (ig_pending ig1);
            if overlap then ingest_loop blake3 overlap items (flushed ig1 (Some settled.1) settled.2)
            else match settled.1 with
                 | Err e => fail_ingest settled.2 e
                 | Ok _ => ingest_loop blake3 overlap items (flushed ig1 None settled.2)
                 end) g (fun r g'' =>
        match r with
        | Ok ig'' => exists l, Ok d :: items = Ok <$> l ∧ ingested g0 (ds ++ l) ig'' g''
        | Err _ => h_tokens g'' = h_tokens g0 end)).
    { intros Hfl. eapply safe_seq; [apply (settle_safe g0); apply Htake|]. intros [r st] g' (Hs & Hsub & Hfull). cbn in *.
      destruct overlap; [apply Hnext; eapply flush_ingested; eauto|].
      destruct r as [[]|e]; [apply Hnext; eapply flush_ingested; eauto|by apply Hfail]. }
    destruct (ig_in_flight ig1) as [[u|e]|] eqn:Efl; [by apply Hgo|apply Hfail, Htake|by apply Hgo].
  - eapply safe_mono; [|apply (fail_ingest_safe g0), Hig]. by intros r g' [-> Ht].
Qed.
(** ** The whole ingest *)
Definition outcome_of (o : ChunkIngestOutcome) (b : bytes) : Prop :=
  o_file_hash o = blake3 b
  ∧ mkChunkManifest (o_chunk_hashes o) (o_chunk_sizes o) (o_total_size o) = layout_of b.
Lemma ok_items_inj (l l' : list bytes) : (Ok <$> l : BlobStream) = Ok <$> l' -> l = l'.
Proof.
  revert l'. induction l as [|x l IH]; intros [|y l']; try done. rewrite !fmap_cons. intros [= -> Hl]. f_equal. by apply IH.
Qed.
Lemma cdc_complete source l : cdc source = Ok <$> l -> exists b, stream_bytes source = Ok b ∧ l = chunks b.
Proof.
  intros Hl. destruct (stream_bytes source) as [b|e] eqn:Eb.
  - exists b. split; [done|]. pose proof (cdc_whole source b Eb) as Hc. rewrite Hc in Hl.
    symmetry. by apply ok_items_inj.
  - destruct (cdc_broken source e Eb) as (l0 & e' & rest & Hc). rewrite Hc in Hl. exfalso.
    assert (Hin : Err e' ∈ Ok <$> l) by (rewrite <- Hl; apply elem_of_app; right; left).
    by apply list_elem_of_fmap in Hin as (? & ? & ?).
Qed.

(** A complete ingest holds one reference on each distinct chunk of the content. *)
Definition ingest_post (source : BlobStream) g0 (r : result DomainError ChunkIngestOutcome) g' : Prop :=
  h_tokens g' = h_tokens g0
  ∧ forall o, r = Ok o -> exists b, stream_bytes source = Ok b ∧ outcome_of o b
      ∧ h_pins g' = h_pins g0 ⊎ list_to_set_disj (remove_dups (o_chunk_hashes o)).
Lemma failed_ingest_post source g0 st g e :
  session g0 st g -> safe (fail_ingest (A := ChunkIngestOutcome) st e) g (ingest_post source g0).
Proof. intros Hs. eapply safe_mono; [|by apply (fail_ingest_safe g0)]. by intros r g' [-> Ht]. Qed.
Lemma finish_ingest_safe source l g0 ig g :
  cdc source = Ok <$> l -> ingested g0 l ig g -> (forall e, ig_in_flight ig ≠ Some (Err e)) ->
  safe (finish_ingest blake3 ig) g (ingest_post source g0).
Proof.
  intros Hl Hig Hfl. unfold finish_ingest.
  eapply safe_seq; [apply (settle_safe g0); apply Hig|]. intros [r st] g2 (Hs & Hsub & Hfull). cbn [fst snd] in *.
  destruct r as [[]|e]; [|by apply failed_ingest_post].
  destruct (cdc_complete source l Hl) as (b & Hb & ->).
  assert (Hout : forall n, outcome_of (mkOutcome (blake3 (ig_bytes ig)) (ig_total ig) (ig_hashes ig) (ig_sizes ig) n) b).
  { intros n. unfold outcome_of, layout_of. cbn. rewrite (in_bytes _ _ _ _ Hig), (in_total _ _ _ _ Hig),
      (in_hashes _ _ _ _ Hig), (in_sizes _ _ _ _ Hig). unfold lengths. by rewrite chunks_concat. }
  assert (Hpins : forall x, occ x (taken st) = one (x ∈ ig_hashes ig)).
  { intros x. rewrite occ_nodup by apply Hs. apply one_iff. split.
    - intros Hx. by apply (in_seen _ _ _ _ Hig), Hsub.
    - intros Hx. by apply Hfull, (in_complete _ _ _ _ Hig). }
  destruct (written st) as [|row rows] eqn:Ew.
  - cbn. split; [apply Hs|]. intros o [= <-]. exists b. split; [done|]. split; [apply Hout|].
    rewrite (se_pins _ _ _ Hs). apply gmultiset_eq. intros x. multiplicities. cbn.
    specialize (Hpins x). unfold taken in Hpins. rewrite Ew, app_nil_r in Hpins. lia.
  - next_cmd. eapply (safe_do _ _ _ _ _ _ (sync_ok _)); [done|]. intros [[]|e] _; [|by apply failed_ingest_post].
    next_cmd. eapply (safe_do _ _ _ _ _ _ (register_ok _)).
    { rewrite <- Ew. split; [|by apply (se_written _ _ _ Hs)]. pose proof (se_nodup _ _ _ Hs) as Hnd.
      by apply list.NoDup_app in Hnd as (_ & _ & ?). }
    intros [[]|e] _; cbn [sql_err map_err holds_after]; [|by apply failed_ingest_post].
    cbn [safe]. split; [apply Hs|]. intros o [= <-]. exists b. split; [done|]. split; [apply Hout|].
    cbn [add_pins stop_writing h_pins]. rewrite (se_pins _ _ _ Hs). apply gmultiset_eq. intros x. multiplicities. cbn [o_chunk_hashes].
    specialize (Hpins x). unfold taken in Hpins. rewrite Ew, occ_app in Hpins. lia.
Qed.
Lemma ingest_safe overlap source g0 :
  safe (ingest_chunks_from_stream blake3 cdc overlap source) g0 (ingest_post source g0).
Proof.
  unfold ingest_chunks_from_stream. eapply safe_seq; [apply (ingest_loop_safe overlap g0 _ []), start_ingested|].
  intros [ig|e] g1 Hr; [|by cbn]. destruct Hr as (l & Hl & Hig). cbn in Hig.
  destruct (ig_in_flight ig) as [[u|e]|] eqn:Efl; [|apply failed_ingest_post, Hig|];
    (eapply finish_ingest_safe; [done..|by rewrite Efl]).
Qed.

(** ** Storing *)
Lemma release_refs_safe hs g :
  list_to_set_disj (remove_dups hs) ⊆ h_pins g ->
  safe (release_chunk_refs hs) g (fun _ g' => h_tokens g' = h_tokens g).
Proof.
  intros Hsub. unfold release_chunk_refs. destruct hs as [|h hs]; [done|]. next_cmd.
  eapply (safe_do _ _ _ _ _ _ (release_ok _)); [done|]. by intros [|] _.
Qed.
Lemma distinct_of_spec l : forall seen, NoDup (distinct_of seen l)
  ∧ forall h, h ∈ distinct_of seen l <-> h ∈ l ∧ h ∉ seen.
Proof.
  induction l as [|x l IH]; intros seen; cbn [distinct_of].
  - split; [constructor|]. intros h. split; [intros Hx; by apply not_elem_of_nil in Hx|intros [Hx _]; by apply not_elem_of_nil in Hx].
  - destruct (decide (x ∈ seen)) as [Hx|Hx].
    + destruct (IH seen) as [Hnd Hin]. split; [done|]. intros h. rewrite Hin, elem_of_cons. naive_solver.
    + destruct (IH (x :: seen)) as [Hnd Hin]. split.
      * apply list.NoDup_cons. split; [|done]. rewrite Hin, elem_of_cons. naive_solver.
      * intros h. rewrite elem_of_cons, Hin, !elem_of_cons. destruct (decide (h = x)) as [->|]; naive_solver.
Qed.
Lemma attach_safe rounds file_hash layout ct held g :
  good_layout file_hash layout -> list_to_set_disj (remove_dups (chunk_hashes layout)) ⊆ h_pins g ->
  (forall h, h ∈ held <-> h ∈ chunk_hashes layout) ->
  safe (attach_rounds rounds file_hash layout ct held) g (fun r g' => forall d, r = Ok d ->
    dedup_hash d = file_hash ∧ h_tokens g' = h_tokens g ⊎ {[+ file_hash +]}).
Proof.
  intros Hl Hpin Hheld. assert (Hrel : forall g', h_pins g' = h_pins g -> list_to_set_disj (remove_dups held) ⊆ h_pins g').
  { intros g' -> x. specialize (Hpin x). revert Hpin. multiplicities. by rewrite (one_iff (x ∈ held) (x ∈ chunk_hashes layout)). }
  induction rounds as [|rounds IH]; cbn [attach_rounds].
  { eapply safe_seq; [by apply release_refs_safe, Hrel|]. by intros [] g' _. }
  next_cmd. eapply (safe_do _ _ _ _ _ _ (insert_manifest_ok _ _ _)); [done|].
  intros [[]|e] _; cbn [sql_err map_err holds_after].
  - cbn [safe]. intros d [= <-]. split; [done|]. cbn [add_tokens drop_pins h_tokens]. apply gmultiset_eq. intros x. by multiplicities.
  - unfold bump_manifest_if_exists. next_cmd. eapply (safe_do _ _ _ _ _ _ (bump_ok _)); [done|].
    intros [[size|]|e] _; cbn [sql_err map_err holds_after]; [|exact IH|done].
    eapply safe_seq; [by apply release_refs_safe, Hrel|]. intros [] g' Ht. cbn [safe]. intros d [= <-]. split; [done|].
    rewrite Ht. cbn [add_tokens h_tokens]. apply gmultiset_eq. intros x. by multiplicities.
  - done.
Qed.
(** A successful store of complete bytes holds a reference on their manifest. *)
Lemma store_safe overlap source ct g0 :
  safe (store_from_stream blake3 cdc overlap source ct) g0 (fun r g' => forall d, r = Ok d ->
    exists b, stream_bytes source = Ok b ∧ dedup_hash d = blake3 b ∧ blake3 b ∈ h_tokens g').
Proof.
  unfold store_from_stream. eapply safe_seq; [apply ingest_safe|].
  intros [o|e] g1 [Ht Ho]; [|done]. destruct (Ho o eq_refl) as (b & Hb & [Hh Hl] & Hp). cbn beta iota.
  rewrite Hl, Hh. eapply safe_mono; [|apply attach_safe; [by exists b| |]].
  - intros r g2 Hr d Hd. destruct (Hr d Hd) as [Hdh Ht2]. exists b. split_and!; try done. rewrite Ht2.
    apply gmultiset_elem_of_disj_union. right. by apply gmultiset_elem_of_singleton.
  - rewrite Hp. assert (Hch : chunk_hashes (layout_of b) = o_chunk_hashes o) by by rewrite <- Hl. rewrite Hch.
    intros x. multiplicities. lia.
  - intros h. assert (Hch : chunk_hashes (layout_of b) = o_chunk_hashes o) by by rewrite <- Hl. rewrite Hch.
    unfold distinct_hashes. destruct (distinct_of_spec (o_chunk_hashes o) []) as [_ ->].
    split; [tauto|]. intros Hx. split; [done|]. intros Hy. by apply not_elem_of_nil in Hy.
Qed.
End ingest.
