(* ===== verification/BlobTheorems.v ===== *)
(** * Deduplicated storage loses nothing

    Requests as programs, the invariant along every orderly schedule of any pool of them, and
    what it means for readers: a file that is recorded can be read, in whole and in part, and
    reads back as the bytes its hash was computed from. *)

From stdpp Require Import gmultiset.
From S2P Require Import Prelude.
From S2P Require Import RustStr.
From S2P Require Import DomainErrors.
From S2P Require Import BlobBackend.
From S2P Require Import StoragePath.
From S2P Require Import BlobDb.
From S2P Require Import BlobCount.
From S2P Require Import BlobHandler.
From S2P Require Import BlobInv.
From S2P Require Import BlobCmds.
From S2P Require Import BlobSafety.
From S2P Require Import BlobIngest.

#[local] Arguments lit : simpl never.

(** ** Requests *)
Inductive request :=
| Upload (source : BlobStream) (content_type : option str) (name : str) (folder : option N)
| Update (id : N) (source : BlobStream) (content_type : option str) (expected : option str)
| Instant (h : str) (size : Z) (name : str) (folder : option N)
| Copy (src : N) (target : option N) (name : option str)
| Delete (id : N)
| DeletePermanently (id : N)
| Derive (source kind_ variant content_type : str) (data : bytes)
| Collect (loops : nat) (grace : Z)
| Reclaim (h : str)
| Read (h : str)
| ReadRange (h : str) (start : N) (end_ : option Z).

Section requests.
Context `{Chunker} `{Unicode}.
Variables (overlap : bool) (fuel : nat).
(** The answer of a request does not matter to the others. *)
Definition ignore {A} (p : prog A) : prog unit := pbind p (fun _ => Ret tt).
Definition dedup_size (d : DedupResultDto) : Z := match d with NewBlob _ s | ExistingBlob _ s _ => s end.
Definition program (r : request) : prog unit :=
  match r with
  | Upload source ct name folder =>
      ignore (d ←? store_from_stream blake3 cdc overlap source ct;
              save_file_with_blob fuel name folder (dedup_hash d) (dedup_size d))
  | Update id source ct expected =>
      ignore (d ←? store_from_stream blake3 cdc overlap source ct;
              swap_blob_hash fuel id (dedup_hash d) (dedup_size d) expected)
  | Instant h size name folder =>
      ignore (_ ←? add_reference h; save_file_with_blob fuel name folder h size)
  | Copy src target name => ignore (copy_file src target name)
  | Delete id => ignore (delete_file id)
  | DeletePermanently id => ignore (delete_file_permanently fuel id)
  | Derive source k v ct data => ignore (store_derived_blob blake3 cdc overlap fuel source k v ct data)
  | Collect loops grace => ignore (garbage_collect_with_grace loops fuel grace)
  | Reclaim h => ignore (settle_one h)
  | Read h => ignore (read_blob_stream h)
  | ReadRange h start end_ => ignore (read_blob_range_stream h (Z.of_N start) end_)
  end.
End requests.

Section theorems.
Context `{Chunker} `{Unicode} {St : Type} `{AtomicPuts St}.
Variables (overlap : bool) (fuel : nat).
Abbreviation safe := (@safe _ St _ _).
Abbreviation any := (fun _ _ => True).

(** ** Every request is safe *)
Lemma ignore_safe {A} (p : prog A) g Q : safe p g Q -> safe (ignore p) g any.
Proof. intros Hp. eapply safe_seq; [exact Hp|]. by intros. Qed.
Lemma after_release h g {A} (p : prog A) :
  h ∈ h_tokens g -> (forall g', safe p g' any) -> safe (pbind (remove_reference fuel h) (fun _ => p)) g any.
Proof. intros Ht Hp. eapply safe_seq; [by apply remove_reference_safe|]. intros r g' _. apply Hp. Qed.
Lemma save_safe name folder h size g :
  h ∈ h_tokens g -> safe (save_file_with_blob fuel name folder h size) g any.
Proof.
  intros Ht. unfold save_file_with_blob. destruct folder as [folder|]; [|by apply after_release].
  next_cmd. eapply (safe_do _ _ _ _ _ _ (insert_file_ok _ _ _ _)); [done|].
  intros [[id|]|[|e]] _; cbn [holds_after]; [done|by apply after_release| |by apply after_release].
  apply after_release; [done|]. intros g'. next_cmd. eapply (safe_do _ _ _ _ _ _ (identical_file_ok _ _ _)); [done|].
  by intros [[]|] _.
Qed.
Lemma swap_safe id h size expected g :
  h ∈ h_tokens g -> safe (swap_blob_hash fuel id h size expected) g any.
Proof.
  intros Ht. unfold swap_blob_hash. next_cmd. eapply (safe_do _ _ _ _ _ _ (swap_file_ok _ _ _ _)); [done|].
  intros [[[old []]|]|e] _; cbn [holds_after]; apply after_release; try done.
  cbn [add_tokens h_tokens]. rewrite gmultiset_elem_of_disj_union, elem_of_list_to_set_disj. right. left.
Qed.
Lemma store_then_safe {A} source ct (f : DedupResultDto -> prog (result DomainError A)) g :
  (forall d g', dedup_hash d ∈ h_tokens g' -> safe (f d) g' any) ->
  safe (d ←? store_from_stream blake3 cdc overlap source ct; f d) g any.
Proof.
  intros Hf. eapply safe_seq; [apply store_safe|]. intros [d|e] g' Hd; [|done].
  destruct (Hd d eq_refl) as (b & _ & Hh & Ht). apply Hf. by rewrite Hh.
Qed.
Lemma derive_safe source k v ct data g :
  safe (store_derived_blob blake3 cdc overlap fuel source k v ct data) g any.
Proof.
  unfold store_derived_blob. apply store_then_safe. intros d g' Ht. next_cmd.
  eapply (safe_do _ _ _ _ _ _ (insert_derived_ok _ _ _ _)); [done|].
  intros [[]|e] _; cbn [sql_err map_err holds_after]; [done|by apply after_release|done].
Qed.
Lemma delete_file_safe id g : safe (delete_file id) g (fun _ g' => g' = g).
Proof.
  unfold delete_file. next_cmd. eapply (safe_do _ _ _ _ _ _ (delete_file_ok _)); [done|].
  by intros [[]|] _.
Qed.
Lemma delete_permanently_safe id g : h_writing g = ∅ -> safe (delete_file_permanently fuel id) g any.
Proof.
  intros Hw. unfold delete_file_permanently. next_cmd. eapply (safe_do _ _ _ _ _ _ (file_hash_ok _)); [done|].
  intros [h|e] _; cbn [sql_err map_err holds_after]; [|done].
  eapply safe_seq; [apply delete_file_safe|]. intros [[]|e] g' ->; [|done].
  eapply (safe_seq _ _ _ _ any); [|by intros]. destruct h as [h|]; [|done].
  eapply safe_mono; [|by apply cleanup_safe]. by intros.
Qed.
Lemma manifest_cached_safe h g :
  safe (manifest_cached h) g (fun r g' => g' = g ∧ forall m, r = Ok (Some m) -> good_layout h m).
Proof.
  unfold manifest_cached. next_cmd. eapply (safe_do _ _ _ _ _ _ (cache_get_ok _)); [done|].
  intros [m|] Hm; cbn [holds_after]; [split; [done|]; intros m' [= <-]; by apply Hm|].
  next_cmd. eapply (safe_do _ _ _ _ _ _ (manifest_ok _)); [done|].
  intros [[m|]|e] Hm'; cbn [sql_err map_err holds_after]; [|by split..].
  next_cmd. eapply (safe_do _ _ _ _ _ _ (cache_insert_ok _ _)); [by apply Hm'|]. intros [] _.
  split; [done|]. intros m' [= <-]. by apply Hm'.
Qed.
Lemma stream_chunks_safe hs g : safe (stream_chunks hs) g any.
Proof.
  revert g. induction hs as [|h hs IH]; intros g; cbn [stream_chunks]; [done|]. next_cmd.
  eapply (safe_do _ _ _ _ _ _ (get_ok _)); [done|]. intros x _. eapply safe_seq; [apply IH|]. by intros.
Qed.
Lemma stream_ranges_safe hs sel g : Forall (fun p => 0 <= p.1.2)%Z sel -> safe (stream_ranges hs sel) g any.
Proof.
  intros Hsel. revert g. induction Hsel as [|[[i s] e] sel Hs _ IH]; intros g; cbn [stream_ranges]; [done|]. next_cmd.
  eapply (safe_do _ _ _ _ _ _ (range_ok _ _ _ Hs)); [done|]. intros x _. eapply safe_seq; [apply IH|]. by intros.
Qed.
Lemma select_starts start end_ offset i sizes : Forall (fun p => 0 <= p.1.2)%Z (select_chunks start end_ offset i sizes).
Proof.
  revert offset i. induction sizes as [|n sizes IH]; intros offset i; cbn [select_chunks]; [constructor|].
  apply Forall_app_2; [|case_bool_decide; [constructor|apply IH]].
  destruct (_ && _); [|constructor]. constructor; [|constructor]. cbn. unfold saturating_sub. lia.
Qed.
Lemma program_safe r : safe (program overlap fuel r) no_holds any.
Proof.
  destruct r; cbn [program].
  - eapply ignore_safe, store_then_safe. intros. by apply save_safe.
  - eapply ignore_safe, store_then_safe. intros. by apply swap_safe.
  - eapply (ignore_safe _ _ any). eapply safe_seq; [apply add_reference_safe|]. intros [[]|e] g' Hg'; [|done]. subst g'.
    apply save_safe. cbn [add_tokens h_tokens]. rewrite gmultiset_elem_of_disj_union, elem_of_list_to_set_disj. right. left.
  - eapply (ignore_safe _ _ any). unfold copy_file. next_cmd. eapply (safe_do _ _ _ _ _ _ (copy_file_ok _ _ _)); [done|].
    by intros [[]|[]] _.
  - eapply ignore_safe, delete_file_safe.
  - eapply ignore_safe. by apply delete_permanently_safe.
  - eapply ignore_safe, derive_safe.
  - eapply ignore_safe. by apply gc_safe.
  - eapply (ignore_safe _ _ any). unfold settle_one. next_cmd. by eapply (safe_do _ _ _ _ _ _ (reclaim_ok _)).
  - eapply (ignore_safe _ _ any). unfold read_blob_stream. eapply safe_seq; [apply manifest_cached_safe|].
    intros [[m|]|e] g' [-> _]; [|by eapply (safe_do _ _ _ _ _ any (get_ok _))|done].
    eapply safe_seq; [apply stream_chunks_safe|]. by intros.
  - eapply (ignore_safe _ _ any). unfold read_blob_range_stream. eapply safe_seq; [apply manifest_cached_safe|].
    intros [[m|]|e] g' [-> _]; [|by eapply (safe_do _ _ _ _ _ any (range_ok h _ end_ (N2Z.is_nonneg start)))|done].
    eapply safe_seq; [apply stream_ranges_safe, select_starts|]. by intros.
Qed.

(** ** Every orderly schedule keeps the invariant *)
Definition pool_inv (s : sys (St := St)) : Prop :=
  Inv s.1 s.2.*1 ∧ forall g p, (g, p) ∈ s.2 -> safe p g any.
Lemma others_perm (ts : list thread) i t : ts !! i = Some t -> ts.*1 ≡ₚ t.1 :: others i ts.
Proof.
  intros Hi. unfold others. rewrite <- fmap_cons. apply fmap_Permutation. by apply delete_Permutation.
Qed.
Lemma delete_insert_list {A} (l : list A) i x : delete i (<[i := x]> l) = delete i l.
Proof. revert i. induction l as [|y l IH]; intros [|i]; cbn; [done..|]. by rewrite IH. Qed.
Lemma pool_start w rs :
  Inv w [] -> pool_inv (w, (fun r => start (program overlap fuel r)) <$> rs).
Proof.
  intros Hi. split; cbn [fst snd].
  - induction rs as [|r rs IH]; [done|]. by apply inv_start.
  - intros g p (r & [= -> ->] & _)%list_elem_of_fmap. apply program_safe.
Qed.
Lemma pool_drop w (ts : list thread) i : pool_inv (w, ts) -> pool_inv (w, delete i ts).
Proof.
  intros [Hi Hs]. destruct (ts !! i) as [t|] eqn:Et; [|].
  2:{ apply lookup_ge_None in Et. rewrite delete_take_drop, take_ge, drop_ge, app_nil_r by lia. done. }
  split; cbn [fst snd] in *.
  - eapply inv_drop, inv_perm; [by apply (others_perm ts i t)|exact Hi].
  - intros g p Hin. apply Hs. eapply sublist_subseteq; [apply sublist_delete|done].
Qed.
Lemma pool_step e s : pool_inv s -> step_ok e s = true -> pool_inv (step e s).
Proof.
  destruct s as [w ts]. intros Hp Hok. destruct e as [i|i|n|h]; cbn [step].
  - destruct (ts !! i) as [[g [a|X c k]]|] eqn:Et; [done| |done]. cbn [step_ok fst snd] in Hok. rewrite Et in Hok.
    destruct (exec c w) as [x w'] eqn:Ex. cbn [fst] in Hok. destruct Hp as [Hi Hs]. cbn [fst snd] in *.
    assert (Hi1 : Inv w (g :: others i ts)) by (eapply inv_perm; [by apply (others_perm ts i (g, Do c k))|exact Hi]).
    assert (Hthr : safe (Do c k) g any) by (apply Hs; by apply list_elem_of_lookup_2 with i).
    destruct (Hthr w (others i ts) x w' Hi1 Ex Hok) as [Hi2 Hk]. unfold put_back. cbn [snd].
    destruct (k x) as [a|X' c' k'] eqn:Ek.
    + split; cbn [fst snd]; [by eapply inv_drop|]. intros g' p' Hin. apply Hs. eapply sublist_subseteq; [apply sublist_delete|done].
    + split; cbn [fst snd].
      * eapply inv_perm; [|exact Hi2]. symmetry. etrans; [apply (others_perm _ i (holds_after c x g, Do c' k'))|].
        -- apply list_lookup_insert_eq. by apply lookup_lt_Some in Et.
        -- unfold others. by rewrite delete_insert_list.
      * intros g' p' Hin. apply list_elem_of_lookup in Hin as [j Hj].
        destruct (decide (i = j)) as [<-|Hne].
        -- rewrite list_lookup_insert_eq in Hj by by apply lookup_lt_Some in Et. by injection Hj as <- <-.
        -- rewrite list_lookup_insert_ne in Hj by done. apply Hs. by eapply list_elem_of_lookup_2.
  - by apply pool_drop.
  - done.
  - destruct Hp as [Hi Hs]. split; cbn [fst snd]; [|done]. apply (inv_set_cache _ _ (w_cache w) _ (delete h)); [done|].
    intros h' m [_ Hm]%lookup_delete_Some. by apply (inv_cache _ _ _ _ Hi).
Qed.
Lemma pool_steps es : forall s, pool_inv s -> orderly_run es s = true -> pool_inv (steps es s).
Proof.
  induction es as [|e es IH]; intros s Hs; cbn [orderly_run steps]; [done|]. intros [Hok Hrun]%andb_true_iff.
  apply IH; [|done]. by apply pool_step.
Qed.
End theorems.
