(* ===== verification/BlobReads.v ===== *)
(** * Reading back

    On a healthy backend, with the database answering, a hash that is referred to reads as the
    content it is the hash of; a range of it as the same range of that content. *)

From stdpp Require Import gmultiset.
From S2P Require Import Prelude.
From S2P Require Import RustStr.
From S2P Require Import DomainErrors.
From S2P Require Import BlobBackend.
From S2P Require Import StoragePath.
From S2P Require Import BlobDb.
From S2P Require Import BlobCount.
From S2P Require Import BlobHandler.
From S2P Require Import BlobInv.
From S2P Require Import BlobCmds.

#[local] Arguments lit : simpl never.

(** ** Ranges over chunks *)

(** The bytes from [s] up to [e] of [l]; a negative [s] starts before [l]. *)
Definition slice (s e : Z) (l : bytes) : bytes :=
  take (Z.to_nat (e - Z.max s 0)) (drop (Z.to_nat s) l).
Lemma byte_range_slice s e l : (0 <= s)%Z ->
  byte_range s e l = slice s (default (Z.of_nat (length l)) e) l.
Proof.
  intros Hs. unfold byte_range, slice. rewrite Z.max_l by lia. set (e' := default _ e).
  destruct (Z.le_gt_cases e' (Z.of_nat (length l))) as [Hle|Hgt].
  - by rewrite Z.min_l by lia.
  - rewrite Z.min_r by lia. rewrite !take_ge; [done| |]; rewrite length_drop; lia.
Qed.
(** What the selected ranges of the chunks contain. *)
Definition pieces (ds : list bytes) (sel : list (nat * Z * option Z)) : bytes :=
  concat ((fun p : nat * Z * option Z => byte_range p.1.2 p.2 (default [] (ds !! p.1.1))) <$> sel).
Lemma pieces_cons ds p sel :
  pieces ds (p :: sel) = byte_range p.1.2 p.2 (default [] (ds !! p.1.1)) ++ pieces ds sel.
Proof. done. Qed.
Lemma slice_app s e d l :
  slice s e (d ++ l) =
    (if bool_decide (s < Z.of_nat (length d))%Z && bool_decide (0 < e)%Z
     then slice (Z.max 0 s) (Z.min e (Z.of_nat (length d))) d else [])
    ++ (if bool_decide (e <= Z.of_nat (length d))%Z then []
        else slice (s - Z.of_nat (length d)) (e - Z.of_nat (length d)) l).
Proof.
  set (n := length d). unfold slice. destruct (Z.le_gt_cases (Z.of_nat n) s) as [Hs|Hs].
  - rewrite (bool_decide_eq_false_2 (s < Z.of_nat n)%Z) by lia. cbn [andb app].
    rewrite drop_app_ge by (fold n; lia). fold n. replace (Z.to_nat s - n)%nat with (Z.to_nat (s - Z.of_nat n)) by lia.
    case_bool_decide as He; [by replace (Z.to_nat (e - Z.max s 0)) with O by lia|]. f_equal. lia.
  - rewrite (bool_decide_eq_true_2 (s < Z.of_nat n)%Z) by lia. cbn [andb].
    rewrite drop_app_le by (fold n; lia). replace (Z.to_nat (Z.max 0 s)) with (Z.to_nat s) by lia.
    case_bool_decide as He0.
    2:{ rewrite (bool_decide_eq_true_2 (e <= Z.of_nat n)%Z) by lia. by replace (Z.to_nat (e - Z.max s 0)) with O by lia. }
    rewrite take_app, length_drop. fold n. case_bool_decide as He.
    + rewrite app_nil_r. replace (Z.to_nat (e - Z.max s 0) - (n - Z.to_nat s))%nat with O by lia.
      rewrite take_0, app_nil_r. f_equal. lia.
    + f_equal.
      * rewrite !take_ge; [done| |]; rewrite length_drop; fold n; lia.
      * replace (Z.to_nat (s - Z.of_nat n)) with O by lia. rewrite drop_0. f_equal. lia.
Qed.
Lemma select_pieces start end_ (ds0 : list bytes) : forall ds offset i,
  (0 <= offset)%Z -> (forall j, ds !! j = ds0 !! (i + j)%nat) ->
  pieces ds0 (select_chunks start end_ offset i ((fun d => Z.of_nat (length d)) <$> ds))
  = slice (start - offset) (end_ - offset) (concat ds).
Proof.
  induction ds as [|d ds IH]; intros offset i Hoff Hds; rewrite ?fmap_nil, ?fmap_cons; cbn [select_chunks concat].
  { unfold slice, pieces. cbn. by rewrite drop_nil, take_nil. }
  rewrite slice_app. set (n := Z.of_nat (length d)).
  assert (Hd : ds0 !! i = Some d). { specialize (Hds O). rewrite Nat.add_0_r in Hds. by rewrite <- Hds. }
  replace (bool_decide (start - offset < n)%Z) with (bool_decide (start < offset + n)%Z) by (apply bool_decide_ext; lia).
  replace (bool_decide (0 < end_ - offset)%Z) with (bool_decide (offset < end_)%Z) by (apply bool_decide_ext; lia).
  replace (bool_decide (end_ - offset <= n)%Z) with (bool_decide (end_ <= offset + n)%Z) by (apply bool_decide_ext; lia).
  assert (Hrest : pieces ds0 (if bool_decide (end_ <= offset + n)%Z then []
                     else select_chunks start end_ (offset + n) (S i) ((fun d => Z.of_nat (length d)) <$> ds))
                  = if bool_decide (end_ <= offset + n)%Z then [] else slice (start - offset - n) (end_ - offset - n) (concat ds)).
  { case_bool_decide; [done|]. rewrite IH; [f_equal; lia|lia|]. intros j. rewrite Nat.add_succ_comm. apply (Hds (S j)). }
  destruct (bool_decide (start < offset + n)%Z) eqn:E1; destruct (bool_decide (offset < end_)%Z) eqn:E2; cbn [andb app];
    try (rewrite Hrest; done).
  rewrite pieces_cons. cbn [fst snd]. rewrite Hd. cbn [default]. rewrite Hrest. f_equal.
  apply bool_decide_eq_true in E1, E2. rewrite byte_range_slice by (unfold saturating_sub; lia). unfold saturating_sub.
  fold n. f_equal. clear Hrest. case_bool_decide; cbn; unfold id, n; lia.
Qed.
(** The chunks selected for a range hold exactly that range of the content. *)
Lemma selected_range start end_ ds : (0 <= start)%Z ->
  pieces ds (select_chunks start (default (Z.of_nat (length (concat ds))) end_) 0 0 ((fun d => Z.of_nat (length d)) <$> ds))
  = byte_range start end_ (concat ds).
Proof.
  intros Hs. rewrite (select_pieces _ _ ds) by (done || lia). rewrite byte_range_slice by done. by rewrite !Z.sub_0_r.
Qed.
(** Every selected range is a part of a chunk that exists. *)
Lemma select_in start end_ sizes : forall offset i p, p ∈ select_chunks start end_ offset i sizes ->
  (i <= p.1.1 < i + length sizes)%nat ∧ (0 <= p.1.2)%Z.
Proof.
  induction sizes as [|n sizes IH]; intros offset i p; cbn [select_chunks]; [intros Hp; by apply not_elem_of_nil in Hp|].
  rewrite elem_of_app. intros [Hp|Hp].
  - destruct (_ && _); [|by apply not_elem_of_nil in Hp]. apply list_elem_of_singleton in Hp as ->. cbn. unfold saturating_sub. lia.
  - case_bool_decide; [by apply not_elem_of_nil in Hp|]. destruct (IH _ _ _ Hp) as [Hi Hs]. cbn. lia.
Qed.

(** Which chunks are selected, and which part of each. *)
Lemma select_spec start end_ (ds : list bytes) : forall offset i p,
  p ∈ select_chunks start end_ offset i ((fun d => Z.of_nat (length d)) <$> ds) <->
  exists j d, ds !! j = Some d ∧ let o := (offset + Z.of_nat (length (concat (take j ds))))%Z in
    (start < o + Z.of_nat (length d))%Z ∧ (o < end_)%Z
    ∧ p = ((i + j)%nat, start ⊖ o, if bool_decide (end_ < o + Z.of_nat (length d))%Z then Some (end_ - o)%Z else None).
Proof.
  induction ds as [|d ds IH]; intros offset i p; rewrite ?fmap_nil, ?fmap_cons; cbn [select_chunks].
  { split; [intros Hp; by apply not_elem_of_nil in Hp|]. by intros (j & d & Hj & _). }
  set (n := Z.of_nat (length d)).
  assert (Htail : p ∈ (if bool_decide (end_ <= offset + n)%Z then []
       else select_chunks start end_ (offset + n) (S i) ((fun d => Z.of_nat (length d)) <$> ds)) <->
     exists j d', ds !! j = Some d' ∧ let o := (offset + Z.of_nat (length (concat (take (S j) (d :: ds)))))%Z in
       (start < o + Z.of_nat (length d'))%Z ∧ (o < end_)%Z
       ∧ p = ((i + S j)%nat, start ⊖ o, if bool_decide (end_ < o + Z.of_nat (length d'))%Z then Some (end_ - o)%Z else None)).
  { assert (Ho : forall j, (offset + Z.of_nat (length (concat (take (S j) (d :: ds)))))%Z
                           = (offset + n + Z.of_nat (length (concat (take j ds))))%Z).
    { intros j. cbn [take concat]. rewrite length_app. unfold n. lia. }
    case_bool_decide as He.
    - split; [intros Hp; by apply not_elem_of_nil in Hp|]. intros (j & d' & _ & Hx). cbn zeta in Hx. rewrite Ho in Hx. lia.
    - rewrite IH. split; intros (j & d' & Hj & Hx); exists j, d'; (split; [done|]); cbn zeta in *; rewrite Ho in *;
        rewrite ?Nat.add_succ_r, ?Nat.add_succ_l in *; exact Hx. }
  rewrite elem_of_app, Htail. split.
  - intros [Hp|(j & d' & Hj & Hx)]; [|by exists (S j), d'].
    destruct (bool_decide (start < offset + n)%Z) eqn:E1; destruct (bool_decide (offset < end_)%Z) eqn:E2; cbn [andb] in Hp;
      try (by apply not_elem_of_nil in Hp).
    apply list_elem_of_singleton in Hp as ->. apply bool_decide_eq_true in E1, E2.
    exists O, d. split; [done|]. cbn [take concat length]. cbn zeta. fold n. rewrite Nat.add_0_r, Z.add_0_r. done.
  - intros ([|j] & d' & Hj & Hx); [|right; by exists j, d']. left. injection Hj as <-. cbn [take concat length] in Hx.
    cbn zeta in Hx. fold n in Hx. rewrite Nat.add_0_r, Z.add_0_r in Hx. destruct Hx as (Hs & He & ->).
    rewrite (bool_decide_eq_true_2 (start < offset + n)%Z), (bool_decide_eq_true_2 (offset < end_)%Z) by done. cbn [andb]. left.
Qed.

(** ** Streams *)
Lemma stream_bytes_app s1 s2 b1 b2 :
  stream_bytes s1 = Ok b1 -> stream_bytes s2 = Ok b2 -> stream_bytes (s1 ++ s2) = Ok (b1 ++ b2).
Proof.
  revert b1. induction s1 as [|[x|e] s1 IH]; intros b1; cbn [stream_bytes app]; [by intros [= <-]| |done].
  destruct (stream_bytes s1) as [r|e]; [|done]. intros [= <-] H2. rewrite (IH r eq_refl H2). by rewrite app_assoc.
Qed.

Section reads.
Context `{Chunker} {St : Type} `{AtomicPuts St}.
Definition no_faults (l : list (option fault)) : Prop := Forall (fun f => f = None) l.
(** The database answers and the backend is healthy. *)
Definition calm (w : World St) : Prop := no_faults (w_script w) ∧ v_healthy bk_view (w_store w).
Implicit Types (w : World St).

Lemma calm_sql {T} (q : stmt T) w : calm w ->
  exists w', sql q w = (map_err (fun e => (O, e)) (q (w_tables w)).1, w') ∧ calm w'
    ∧ w_tables w' = (q (w_tables w)).2 ∧ w_store w' = w_store w ∧ w_cache w' = w_cache w.
Proof.
  intros [Hf Hh]. unfold sql, next_fault. destruct w as [t s c n [|f rest] sy]; cbn [w_script w_tables w_store w_cache w_now] in *.
  - destruct (q t) as [r t']. eexists. split; [reflexivity|]. cbn. by split_and!.
  - inversion Hf as [|? ? -> Hrest]; subst. cbn. destruct (q t) as [r t']. eexists. split; [reflexivity|]. cbn. by split_and!.
Qed.
(** A chunk that is there reads back, and reading changes nothing. *)
Lemma object_is w gs h b :
  Inv w gs -> v_present bk_view (w_store w) (blake3 b) = true -> h = blake3 b ->
  v_content bk_view (w_store w) h = Some b.
Proof.
  intros Hi Hp ->. destruct (inv_clean _ _ _ _ Hi _ Hp) as (d & Hd & Hb). apply (inj blake3) in Hb. by subst.
Qed.
Definition same_world w w' : Prop :=
  w_tables w' = w_tables w ∧ w_cache w' = w_cache w ∧ (forall h, unchanged_at bk_view (w_store w) (w_store w') h).
Lemma same_trans w1 w2 w3 : same_world w1 w2 -> same_world w2 w3 -> same_world w1 w3.
Proof.
  intros (Ht1 & Hc1 & Hs1) (Ht2 & Hc2 & Hs2). split_and!; [congruence..|]. intros h.
  destruct (Hs1 h), (Hs2 h). split; congruence.
Qed.
Lemma read_whole w gs b :
  Inv w gs -> calm w -> v_present bk_view (w_store w) (blake3 b) = true ->
  exists s w', exec (BGet (blake3 b)) w = (Ok s, w') ∧ stream_bytes s = Ok b
    ∧ Inv w' gs ∧ calm w' ∧ same_world w w'.
Proof.
  intros Hi [Hf Hh] Hp. pose proof (object_is w gs _ b Hi Hp eq_refl) as Hc. cbn [exec]. unfold on_store.
  destruct (get_blob_stream (blake3 b) (w_store w)) as [r s'] eqn:Eop.
  destruct (bk_get _ _ _ _ (inv_store _ _ _ _ Hi) Eop) as (Hs' & Hsame & _ & Hok).
  destruct (Hok Hh) as [Hh' Hr]. destruct (Hr b Hc) as (s & -> & Hs). eexists s, _. split_and!; try done.
  by eapply inv_same_store.
Qed.
Lemma read_range w gs b start end_ :
  Inv w gs -> calm w -> v_present bk_view (w_store w) (blake3 b) = true -> (0 <= start)%Z ->
  exists s w', exec (BRange (blake3 b) start end_) w = (Ok s, w') ∧ stream_bytes s = Ok (byte_range start end_ b)
    ∧ Inv w' gs ∧ calm w' ∧ same_world w w'.
Proof.
  intros Hi [Hf Hh] Hp Hst. pose proof (object_is w gs _ b Hi Hp eq_refl) as Hc. cbn [exec]. unfold on_store.
  destruct (get_blob_range_stream (blake3 b) start end_ (w_store w)) as [r s'] eqn:Eop.
  destruct (bk_range start end_ Hst _ _ _ _ (inv_store _ _ _ _ Hi) Eop) as (Hs' & Hsame & _ & Hok).
  destruct (Hok Hh) as [Hh' Hr]. destruct (Hr b Hc) as (s & -> & Hs). eexists s, _. split_and!; try done.
  by eapply inv_same_store.
Qed.
Lemma read_chunks ds : forall w gs, Inv w gs -> calm w ->
  (forall d, d ∈ ds -> v_present bk_view (w_store w) (blake3 d) = true) ->
  exists s w', run (stream_chunks (blake3 <$> ds)) w = (s, w') ∧ stream_bytes s = Ok (concat ds) ∧ Inv w' gs ∧ calm w'.
Proof.
  induction ds as [|d ds IH]; intros w gs Hi Hc Hp; [by exists [], w|]. rewrite fmap_cons. cbn [stream_chunks].
  unfold mbind, prog_bind. rewrite run_bind.
  destruct (read_whole w gs d Hi Hc) as (s1 & w1 & Hx & Hs1 & Hi1 & Hc1 & (_ & _ & Hsame)); [apply Hp; left|].
  unfold call. cbn [run]. rewrite Hx. rewrite run_bind.
  destruct (IH w1 gs Hi1 Hc1) as (s2 & w2 & Hr & Hs2 & Hi2 & Hc2).
  { intros d' Hd'. rewrite (proj2 (Hsame _)). apply Hp. by right. }
  unfold BlobStream in *. rewrite Hr. cbn [run]. eexists _, w2. split; [reflexivity|]. split_and!; try done. by apply stream_bytes_app.
Qed.
Lemma read_pieces ds sel : forall w gs, Inv w gs -> calm w ->
  (forall d, d ∈ ds -> v_present bk_view (w_store w) (blake3 d) = true) ->
  (forall p, p ∈ sel -> (p.1.1 < length ds)%nat ∧ (0 <= p.1.2)%Z) ->
  exists s w', run (stream_ranges (blake3 <$> ds) sel) w = (s, w') ∧ stream_bytes s = Ok (pieces ds sel) ∧ Inv w' gs ∧ calm w'.
Proof.
  induction sel as [|[[i st] e] sel IH]; intros w gs Hi Hc Hp Hsel; [by exists [], w|]. cbn [stream_ranges].
  unfold mbind, prog_bind. rewrite run_bind. destruct (Hsel (i, st, e)) as [Hlt Hst]; [left|]. cbn in Hlt, Hst.
  destruct (lookup_lt_is_Some_2 ds i Hlt) as [d Hd]. rewrite list_lookup_fmap, Hd. cbn [fmap option_fmap option_map default from_option id].
  destruct (read_range w gs d st e Hi Hc) as (s1 & w1 & Hx & Hs1 & Hi1 & Hc1 & (_ & _ & Hsame)); [|done|].
  { apply Hp. by eapply list_elem_of_lookup_2. }
  unfold call, id. cbn [run]. rewrite Hx. rewrite run_bind.
  destruct (IH w1 gs Hi1 Hc1) as (s2 & w2 & Hr & Hs2 & Hi2 & Hc2).
  { intros d' Hd'. rewrite (proj2 (Hsame _)). by apply Hp. }
  { intros p Hin. apply Hsel. by right. }
  unfold BlobStream in *. rewrite Hr. cbn [run]. eexists _, w2. split; [reflexivity|]. split_and!; try done.
  rewrite pieces_cons. cbn [fst snd]. rewrite Hd. cbn [default]. by apply stream_bytes_app.
Qed.

(** ** The handler's reads *)
Lemma manifest_found w gs h m :
  Inv w gs -> calm w -> manifests (w_tables w) !! h = Some m ->
  exists w', run (manifest_cached h) w = (Ok (Some (m_layout m)), w') ∧ Inv w' gs ∧ calm w'
    ∧ w_tables w' = w_tables w ∧ w_store w' = w_store w.
Proof.
  intros Hi Hc Hm. pose proof (inv_layouts _ _ _ _ Hi h m Hm) as Hl. unfold manifest_cached, mbind, prog_bind.
  rewrite run_bind. unfold call. cbn [run exec]. destruct (w_cache w !! h) as [m'|] eqn:Ec.
  - assert (m' = m_layout m) as -> by (eapply good_layout_unique; [by eapply inv_cache|done]). cbn [run]. by exists w.
  - rewrite run_bind. cbn [run exec]. destruct (calm_sql (q_manifest h) w Hc) as (w1 & Hx & Hc1 & Ht1 & Hs1 & Hca1).
    rewrite Hx. cbn [q_manifest fst snd] in *. rewrite Hm in Hx |- *. cbn [fmap option_fmap option_map map_err sql_err].
    cbn [pbind run exec]. eexists. split; [reflexivity|]. split_and!; try done.
    unfold Inv. cbn. rewrite Ht1, Hs1, Hca1. apply (inv_set_cache _ _ _ _ <[h := m_layout m]>); [done|].
    intros h' m'. rewrite lookup_insert. case_decide; [by intros [= <-]; subst|]. by apply (inv_cache _ _ _ _ Hi).
Qed.
(** The chunks of a manifest are on the backend. *)
Lemma chunks_present w gs b m :
  Inv w gs -> manifests (w_tables w) !! blake3 b = Some m -> m_layout m = layout_of b ->
  forall d, d ∈ chunks b -> v_present bk_view (w_store w) (blake3 d) = true.
Proof.
  intros Hi Hm Hl d Hd. pose proof (inv_blobs _ _ _ _ Hi (blake3 d)) as Hb.
  destruct (blobs (w_tables w) !! blake3 d) as [row|] eqn:Er; [by eapply inv_bytes|]. exfalso. unfold held in Hb.
  assert (0 < manifests_with (w_tables w) (blake3 d))%nat; [|lia]. apply count_pos. exists (blake3 b), m. split; [done|].
  rewrite Hl. cbn. by apply list_elem_of_fmap_2.
Qed.
Lemma manifest_reads w gs h :
  Inv w gs -> calm w -> is_Some (manifests (w_tables w) !! h) ->
  exists b, blake3 b = h
    ∧ (exists s w', run (read_blob_stream h) w = (Ok s, w') ∧ stream_bytes s = Ok b)
    ∧ (forall start end_, (0 <= start)%Z ->
         exists s w', run (read_blob_range_stream h start end_) w = (Ok s, w')
           ∧ stream_bytes s = Ok (byte_range start end_ b)).
Proof.
  intros Hi Hc [m Hm]. destruct (inv_layouts _ _ _ _ Hi h m Hm) as (b & -> & Hl). exists b. split; [done|].
  destruct (manifest_found w gs _ m Hi Hc Hm) as (w1 & Hr & Hi1 & Hc1 & Ht1 & Hs1).
  assert (Hp : forall d, d ∈ chunks b -> v_present bk_view (w_store w1) (blake3 d) = true).
  { rewrite Hs1. by eapply chunks_present. }
  split.
  - unfold read_blob_stream. rewrite run_bind, Hr, Hl. unfold mbind, prog_bind. rewrite run_bind.
    destruct (read_chunks (chunks b) w1 gs Hi1 Hc1 Hp) as (s & w2 & Hrun & Hs & _). cbn [layout_of chunk_hashes]. rewrite Hrun.
    exists s, w2. by rewrite chunks_concat in Hs.
  - intros start end_ Hst. unfold read_blob_range_stream. rewrite run_bind, Hr, Hl. unfold mbind, prog_bind. rewrite run_bind.
    cbn [layout_of chunk_hashes chunk_sizes total_size].
    destruct (read_pieces (chunks b)
      (select_chunks start (default (Z.of_nat (length b)) end_) 0 0 ((fun d => Z.of_nat (length d)) <$> chunks b)) w1 gs Hi1 Hc1 Hp)
      as (s & w2 & Hrun & Hs & _).
    { intros p Hin. destruct (select_in _ _ _ _ _ _ Hin) as [Hi' ?]. rewrite length_fmap in Hi'. split; [lia|done]. }
    rewrite Hrun. exists s, w2. split; [done|]. rewrite Hs. f_equal.
    pose proof (selected_range start end_ (chunks b) Hst) as Hsel. by rewrite chunks_concat in Hsel.
Qed.
End reads.
