(* ===== verification/BlobTotal.v ===== *)
(** * Storing succeeds

    A store that runs alone, with the database answering, a healthy backend that has room for
    every chunk and counters that are not at their limit, returns the hash of the content.
    Its answer and its holdings then follow from [store_safe]. *)

From stdpp Require Import gmultiset.
From S2P Require Import Prelude.
From S2P Require Import RustStr.
From S2P Require Import DomainErrors.
From S2P Require Import BlobBackend.
From S2P Require Import StoragePath.
From S2P Require Import BlobDb.
From S2P Require Import BlobCount.
From S2P Require Import BlobHandler.
From S2P Require Import BlobInv.
From S2P Require Import BlobCmds.
From S2P Require Import BlobSafety.
From S2P Require Import BlobIngest.
From S2P Require Import BlobReads.

#[local] Arguments lit : simpl never.

(** ** Programs that are orderly when they run alone *)
Definition tidy_cmd {X} (c : cmd X) : Prop := forall x, orderly c x [] = true.
Fixpoint tidy {A} (p : prog A) : Prop :=
  match p with Ret _ => True | Do c k => tidy_cmd c ∧ forall x, tidy (k x) end.
Lemma tidy_bind {A B} (p : prog A) (f : A -> prog B) : tidy p -> (forall a, tidy (f a)) -> tidy (pbind p f).
Proof. intros Hp Hf. induction p as [a|X c k IH]; cbn [pbind tidy] in *; [apply Hf|]. split; [apply Hp|]. intros x. apply IH, Hp. Qed.
Lemma tidy_call {X} (c : cmd X) : tidy_cmd c -> tidy (call c).
Proof. by intros Hc. Qed.
Ltac tidy_step :=
  first [ exact I | done | apply tidy_call; done
        | apply tidy_bind; [|intros]
        | match goal with |- tidy (match ?x with _ => _ end) => destruct x end ].
Ltac tidy_solve := unfold mbind, prog_bind; repeat tidy_step.

Lemma write_chunks_tidy contested to_write : tidy (write_chunks contested to_write).
Proof.
  induction to_write as [|[h d] rest IH]; cbn [write_chunks]; [done|]. apply tidy_bind.
  { apply tidy_call. by destruct (decide _). } intros r. apply tidy_bind; [done|]. by intros.
Qed.
Lemma settle_tidy st batch : tidy (settle_batch st batch).
Proof.
  unfold settle_batch. destruct batch as [|b batch]; [done|]. apply tidy_bind; [by apply tidy_call|]. intros r.
  destruct (sql_err _ _ r) as [hits|]; [|done]. destruct (filter _ _) as [|x to_write]; [done|].
  apply tidy_bind; [by apply tidy_call|]. intros r'. destruct (sql_err _ _ r') as [c|]; [|done].
  apply tidy_bind; [apply write_chunks_tidy|]. intros rs. by destruct (collect_written _ _ _).
Qed.
Lemma rollback_tidy st : tidy (run_rollback st).
Proof. unfold run_rollback. tidy_solve. Qed.
Lemma fail_tidy {A} st e : tidy (fail_ingest (A := A) st e).
Proof. apply tidy_bind; [apply rollback_tidy|done]. Qed.
Section tidy_store.
Variables (blake3 : bytes -> str) (cdc : BlobStream -> BlobStream) (overlap : bool).
Lemma ingest_loop_tidy items : forall ig, tidy (ingest_loop blake3 overlap items ig).
Proof.
  induction items as [|[d|e] items IH]; intros ig; cbn [ingest_loop]; [done| |apply fail_tidy].
  destruct (must_flush _ _ _); [|apply IH].
  assert (Hs : tidy (pbind (settle_batch (ig_state (take_chunk blake3 ig d)) (ig_pending (take_chunk blake3 ig d)))
    (fun settled => if overlap then ingest_loop blake3 overlap items (flushed (take_chunk blake3 ig d) (Some settled.1) settled.2)
       else match settled.1 with
            | Err e => fail_ingest settled.2 e
            | Ok _ => ingest_loop blake3 overlap items (flushed (take_chunk blake3 ig d) None settled.2)
            end))).
  { apply tidy_bind; [apply settle_tidy|]. intros [[|] st]; destruct overlap; try apply IH. apply fail_tidy. }
  destruct (ig_in_flight _) as [[|]|]; [exact Hs|apply fail_tidy|exact Hs].
Qed.
Lemma store_tidy source ct : tidy (store_from_stream blake3 cdc overlap source ct).
Proof.
  unfold store_from_stream. apply tidy_bind.
  - unfold ingest_chunks_from_stream. apply tidy_bind; [apply ingest_loop_tidy|]. intros [ig|]; [|done].
    assert (Hf : tidy (finish_ingest blake3 ig)).
    { unfold finish_ingest. apply tidy_bind; [apply settle_tidy|]. intros [[|] st]; cbn [fst snd]; [|apply fail_tidy].
      destruct (written st); [done|]. apply tidy_bind; [by apply tidy_call|]. intros [|]; [|apply fail_tidy].
      apply tidy_bind; [by apply tidy_call|]. intros r. destruct (sql_err _ _ r); [done|apply fail_tidy]. }
    destruct (ig_in_flight ig) as [[|]|]; [exact Hf|apply fail_tidy|exact Hf].
  - intros [o|]; [|done]. unfold attach_manifest. generalize 3%nat. intros rounds.
    induction rounds as [|rounds IH]; cbn [attach_rounds]; unfold release_chunk_refs, bump_manifest_if_exists; [tidy_solve|].
    tidy_solve; apply IH.
Qed.
End tidy_store.

Section runs.
Context `{Chunker} {St : Type} `{AtomicPuts St}.
Lemma run_safe {A} (p : prog A) : forall g Q (w : World St) a w', tidy p -> safe p g Q -> Inv w [g] ->
  run p w = (a, w') -> exists g', Inv w' [g'] ∧ Q a g'.
Proof.
  induction p as [a0|X c k IH]; intros g Q w a w'; cbn [tidy safe run].
  - intros _ HQ Hi [= <- <-]. by exists g.
  - intros [Hc Hk] Hs Hi. destruct (exec c w) as [x w1] eqn:Ex. intros Hrun.
    destruct (Hs w [] x w1 Hi Ex (Hc x)) as [Hi1 Hs1]. by eapply IH.
Qed.

(** ** Success *)

(** Every counter of a chunk row can still grow by [k], every counter of a manifest by one. *)
Definition chunk_room (k : nat) (t : Tables) : Prop :=
  forall h b, blobs t !! h = Some b -> (b_ref_count b + Z.of_nat k <= i32_max)%Z.
Definition manifest_room (t : Tables) : Prop :=
  forall h m, manifests t !! h = Some m -> (m_ref_count m < i32_max)%Z.
(** The database and the backend answer and accept, and the tables satisfy [P]. *)
Record ready (P : Tables -> Prop) (w : World St) : Prop := {
  rd_inv : v_inv bk_view (w_store w);
  rd_calm : calm w;
  rd_sync : Forall (fun f => f = None) (w_sync w);
  rd_tables : P (w_tables w);
}.
Definition room (k : nat) (t : Tables) : Prop := chunk_room k t ∧ manifest_room t.

Lemma ready_sql {T} (q : stmt T) (P P' : Tables -> Prop) w r t' :
  ready P w -> q (w_tables w) = (r, t') -> P' t' ->
  exists w', sql q w = (map_err (fun e => (O, e)) r, w') ∧ ready P' w' ∧ w_tables w' = t'.
Proof.
  intros [Hi [Hf Hh] Hy _] Hq HP'. unfold sql, next_fault.
  destruct w as [t s c n [|f rest] sy]; cbn [w_script w_tables w_store w_cache w_now w_sync] in *.
  - rewrite Hq. eexists. split; [reflexivity|]. done.
  - inversion Hf as [|? ? -> Hrest]; subst. cbn. rewrite Hq. eexists. split; [reflexivity|]. done.
Qed.
Lemma room_weaken k k' t : (k' <= k)%nat -> room k t -> room k' t.
Proof. intros Hk [Hc Hm]. split; [|done]. intros h b Hb. specialize (Hc h b Hb). lia. Qed.
Lemma ready_mono (P P' : Tables -> Prop) w : (forall t, P t -> P' t) -> ready P w -> ready P' w.
Proof. intros HP [? ? ? ?]. constructor; auto. Qed.

Lemma pin_room k hs t : room (S k) t -> exists hit t', q_pin hs t = (Ok hit, t') ∧ room k t'.
Proof.
  intros [Hc Hm]. unfold q_pin. destruct (existsb _ _) eqn:Ex.
  { apply existsb_exists in Ex as (h & _ & Hh). destruct (blobs t !! h) as [b|] eqn:Eb; [|done].
    apply bool_decide_eq_true in Hh. specialize (Hc h b Eb). lia. }
  eexists _, _. split; [reflexivity|]. split; [|done]. intros h b. cbn. unfold update_any. rewrite map_lookup_imap.
  destruct (blobs t !! h) as [b0|] eqn:Eb; [|done]. cbn. intros [= <-]. specialize (Hc h b0 Eb). case_decide; cbn; lia.
Qed.
Definition fits (l : list (str * bytes)) : Prop := Forall (fun b => v_fits bk_view (Z.of_nat (length b.2))) l.
Lemma write_succeeds P contested to_write : forall w, fits to_write -> ready P w ->
  exists rows w', run (write_chunks contested to_write) w = (Ok <$> rows, w') ∧ ready P w'.
Proof.
  induction to_write as [|[h d] rest IH]; intros w Hf Hr; cbn [write_chunks]; [by exists [], w|].
  apply Forall_cons_1 in Hf as [Hd Hf]. cbn in Hd. unfold mbind, prog_bind. rewrite run_bind.
  assert (Hput : exists n w1, run (call (if decide (h ∈ contested) then BReplace h d else BPut h d)) w = (Ok n, w1) ∧ ready P w1).
  { destruct Hr as [Hi [Hs Hh] Hy Hp]. destruct (decide _); cbn [call run exec]; unfold on_store.
    - destruct (put_blob_from_bytes_replace h d (w_store w)) as [r s'] eqn:Eop.
      destruct (bk_rewrite _ _ _ _ _ Hi Eop) as (Hi' & _ & _ & Hok). destruct (Hok Hh) as [Hh' Hn]. destruct (Hn Hd) as [len ->].
      eexists _, _. split; [reflexivity|]. done.
    - destruct (put_blob_from_bytes_unsynced h d (w_store w)) as [r s'] eqn:Eop.
      destruct (bk_put_unsynced _ _ _ _ _ Hi Eop) as (Hi' & _ & _ & Hok). destruct (Hok Hh) as [Hh' Hn]. destruct (Hn Hd) as [len ->].
      eexists _, _. split; [reflexivity|]. done. }
  destruct Hput as (n & w1 & -> & Hr1). rewrite run_bind. destruct (IH w1 Hf Hr1) as (rows & w2 & -> & Hr2). cbn [run].
  exists ((h, Z.of_nat (length d)) :: rows), w2. done.
Qed.
Lemma collect_all rows : forall st, exists st', collect_written st None (Ok <$> rows) = (st', None).
Proof. induction rows as [|row rows IH]; intros st; [by exists st|]. rewrite fmap_cons. cbn [collect_written]. apply IH. Qed.
Lemma settle_succeeds k st batch w : fits batch -> ready (room (S k)) w ->
  exists st' w', run (settle_batch st batch) w = ((Ok tt, st'), w') ∧ ready (room k) w'.
Proof.
  intros Hf Hr. unfold settle_batch. destruct batch as [|b0 batch0].
  { exists st, w. split; [done|]. eapply ready_mono; [|exact Hr]. intros t. apply room_weaken. lia. }
  set (batch := b0 :: batch0) in *. unfold mbind, prog_bind. rewrite run_bind. cbn [call run exec].
  destruct (pin_room k batch.*1 _ (rd_tables _ _ Hr)) as (hits & t1 & Hq & Hr1).
  destruct (ready_sql _ _ (room k) w _ _ Hr Hq Hr1) as (w1 & Hx & Hrd & _). rewrite Hx. cbn [map_err sql_err].
  destruct (filter _ batch) as [|x to_write] eqn:Ef; [by eexists _, w1|]. set (tw := x :: to_write) in *.
  assert (Hft : fits tw).
  { unfold fits in *. rewrite list.Forall_forall in *. intros y Hy. apply Hf. rewrite <- Ef in Hy. by apply list_elem_of_filter in Hy as [_ ?]. }
  rewrite run_bind. cbn [call run exec].
  destruct (ready_sql (q_cancel tw.*1) (room k) (room k) w1 _ _ Hrd eq_refl) as (w2 & Hx2 & Hrd2 & _); [exact (rd_tables _ _ Hrd)|].
  fold tw. rewrite Hx2. cbn [map_err sql_err]. rewrite run_bind.
  edestruct (write_succeeds (room k)) as (rows & w3 & Hrun & Hrd3); [exact Hft|exact Hrd2|]. rewrite Hrun.
  edestruct (collect_all rows) as (st' & ->). cbn [run]. by eexists _, w3.
Qed.

Lemma ingest_succeeds overlap k (ds : list bytes) : forall ig w,
  Forall (fun d => v_fits bk_view (Z.of_nat (length d))) ds -> fits (ig_pending ig) ->
  (forall e, ig_in_flight ig ≠ Some (Err e)) -> ready (room (length ds + k)) w ->
  exists ig' w', run (ingest_loop blake3 overlap (Ok <$> ds) ig) w = (Ok ig', w') ∧ ready (room k) w'
    ∧ fits (ig_pending ig') ∧ (forall e, ig_in_flight ig' ≠ Some (Err e)).
Proof.
  induction ds as [|d ds IH]; intros ig w Hds Hp Hfl Hr; [by exists ig, w|]. rewrite fmap_cons. cbn [ingest_loop].
  apply Forall_cons_1 in Hds as [Hd Hds]. cbn [length Nat.add] in Hr. set (ig1 := take_chunk blake3 ig d).
  assert (Hp1 : fits (ig_pending ig1)).
  { cbn. case_bool_decide; [|done]. apply Forall_app_2; [done|]. by constructor. }
  destruct (must_flush blake3 ig d).
  - change (ig_in_flight ig1) with (ig_in_flight ig).
    destruct (settle_succeeds (length ds + k) (ig_state ig1) (ig_pending ig1) w Hp1 Hr) as (st & w1 & Hrun & Hr1).
    assert (Hgo : forall fl, (forall e, fl ≠ Some (Err e)) -> exists ig' w',
      run (ingest_loop blake3 overlap (Ok <$> ds) (flushed ig1 fl st)) w1 = (Ok ig', w') ∧ ready (room k) w'
      ∧ fits (ig_pending ig') ∧ (forall e, ig_in_flight ig' ≠ Some (Err e))).
    { intros fl Hfl'. apply IH; try done. constructor. }
    assert (Hres : exists ig' w', run (settled ← settle_batch (ig_state ig1) (ig_pending ig1);
        if overlap then ingest_loop blake3 overlap (Ok <$> ds) (flushed ig1 (Some settled.1) settled.2)
        else match settled.1 with
             | Err e => fail_ingest settled.2 e
             | Ok _ => ingest_loop blake3 overlap (Ok <$> ds) (flushed ig1 None settled.2)
             end) w = (Ok ig', w') ∧ ready (room k) w' ∧ fits (ig_pending ig') ∧ (forall e, ig_in_flight ig' ≠ Some (Err e))).
    { unfold mbind, prog_bind. rewrite run_bind, Hrun. cbn [fst snd]. destruct overlap; by apply Hgo. }
    destruct (ig_in_flight ig) as [[u|e]|] eqn:Efl; [exact Hres|by destruct (Hfl e)|exact Hres].
  - apply IH; try done. eapply ready_mono; [|exact Hr]. intros t. apply room_weaken. lia.
Qed.
Lemma finish_succeeds ig w : fits (ig_pending ig) -> ready (room 2) w ->
  exists o w', run (finish_ingest blake3 ig) w = (Ok o, w') ∧ ready manifest_room w'.
Proof.
  intros Hp Hr. unfold finish_ingest, mbind, prog_bind. rewrite run_bind.
  destruct (settle_succeeds 1 (ig_state ig) (ig_pending ig) w Hp Hr) as (st & w1 & -> & Hr1). cbn [fst snd].
  assert (Hm1 : ready manifest_room w1) by (eapply ready_mono; [|exact Hr1]; by intros t [_ ?]).
  destruct (written st) as [|row rows]; [by eexists _, w1|]. rewrite run_bind. cbn [call run exec]. unfold sync.
  assert (Hs : exists w2, sync w1 = (Ok tt, w2) ∧ ready (room 1) w2).
  { unfold sync. destruct Hr1 as [? ? Hy ?]. destruct (w_sync w1) as [|f sy] eqn:Ey; [by exists w1; split; [|constructor; rewrite ?Ey]|].
    inversion Hy as [|? ? -> Hy']; subst. eexists. split; [reflexivity|]. done. }
  destruct Hs as (w2 & Hsy & Hr2). fold (sync w1). rewrite Hsy. rewrite run_bind. cbn [call run exec].
  assert (Hq : exists t', q_register (row :: rows) (w_tables w2) = (Ok tt, t') ∧ manifest_room t').
  { unfold q_register. destruct (existsb _ _) eqn:Ex.
    - apply existsb_exists in Ex as (r & _ & Hh). destruct (blobs _ !! r.1) as [b|] eqn:Eb; [|done].
      apply bool_decide_eq_true in Hh. pose proof (proj1 (rd_tables _ _ Hr2) _ _ Eb). lia.
    - eexists. split; [reflexivity|]. exact (proj2 (rd_tables _ _ Hr2)). }
  destruct Hq as (t' & Hq & Ht'). destruct (ready_sql _ _ manifest_room w2 _ _ Hr2 Hq Ht') as (w3 & -> & Hr3 & _).
  cbn [map_err sql_err run]. by eexists _, w3.
Qed.
Lemma attach_succeeds file_hash layout ct held w : ready manifest_room w ->
  exists d w', run (attach_manifest file_hash layout ct held) w = (Ok d, w') ∧ ready (fun _ => True) w'.
Proof.
  intros Hr. unfold attach_manifest. cbn [attach_rounds]. unfold mbind, prog_bind. rewrite run_bind. cbn [call run exec].
  destruct (manifests (w_tables w) !! file_hash) as [m|] eqn:Em.
  - destruct (ready_sql (q_insert_manifest file_hash layout ct 1) _ manifest_room w (Ok false) (w_tables w) Hr) as (w1 & -> & Hr1 & Ht1);
      [by unfold q_insert_manifest; rewrite Em|apply Hr|]. cbn [map_err sql_err]. rewrite run_bind. unfold bump_manifest_if_exists, mbind, prog_bind.
    rewrite run_bind. cbn [call run exec].
    destruct (ready_sql (q_bump_manifest file_hash) _ (fun _ => True) w1 (Ok (Some (total_size (m_layout m))))
      (set_manifests <[file_hash := add_manifest_refs 1 m]> (w_tables w1)) Hr1) as (w2 & -> & Hr2 & _); [|done|].
    { unfold q_bump_manifest. rewrite Ht1, Em. rewrite bool_decide_eq_false_2; [done|].
      pose proof (rd_tables _ _ Hr _ _ Em). lia. }
    cbn [map_err sql_err run]. rewrite run_bind. unfold release_chunk_refs. destruct held as [|h0 held]; [by eexists _, w2|].
    unfold mbind, prog_bind. rewrite run_bind. cbn [call run exec].
    destruct (ready_sql (q_release (w_now w2) (h0 :: held)) _ (fun _ => True) w2 _ _ Hr2 eq_refl I) as (w3 & -> & Hr3 & _).
    by eexists _, w3.
  - destruct (ready_sql (q_insert_manifest file_hash layout ct 1) _ (fun _ => True) w (Ok true)
      (set_manifests <[file_hash := mkManifest layout ct 1]> (w_tables w)) Hr) as (w1 & -> & Hr1 & _);
      [by unfold q_insert_manifest; rewrite Em|done|]. by eexists _, w1.
Qed.
Lemma store_succeeds overlap source ct b w :
  stream_bytes source = Ok b -> Forall (fun d => v_fits bk_view (Z.of_nat (length d))) (chunks b) ->
  ready (room (length (chunks b) + 2)) w ->
  exists d w', run (store_from_stream blake3 cdc overlap source ct) w = (Ok d, w') ∧ ready (fun _ => True) w'.
Proof.
  intros Hb Hf Hr. unfold store_from_stream, ingest_chunks_from_stream. rewrite !run_bind. rewrite (cdc_whole source b Hb).
  destruct (ingest_succeeds overlap 2 (chunks b) ingest_start w Hf) as (ig & w1 & -> & Hr1 & Hp & Hfl); [constructor|done|done|].
  assert (Hfin : run (match ig_in_flight ig with Some (Err e) => fail_ingest (ig_state ig) e | _ => finish_ingest blake3 ig end) w1
                 = run (finish_ingest blake3 ig) w1).
  { destruct (ig_in_flight ig) as [[|e]|] eqn:E; [done|by destruct (Hfl e)|done]. }
  rewrite Hfin. destruct (finish_succeeds ig w1 Hp Hr1) as (o & w2 & -> & Hr2). by apply attach_succeeds.
Qed.

(** ** Known chunks are not written again *)
Definition kept (w w' : World St) : Prop :=
  w_store w' = w_store w ∧ dom (blobs (w_tables w')) = dom (blobs (w_tables w)).
#[local] Instance kept_preorder : PreOrder kept.
Proof. split; [by intros w|]. intros w1 w2 w3 [? ?] [? ?]. split; congruence. Qed.
Definition keeps_chunks {T} (q : stmt T) : Prop := forall t r t', q t = (r, t') -> dom (blobs t') = dom (blobs t).
Lemma sql_kept {T} (q : stmt T) w x w' : keeps_chunks q -> sql q w = (x, w') -> kept w w'.
Proof.
  intros Hq. unfold sql. destruct (next_fault_world w) as (Ht & Hs & _ & _). destruct (next_fault w) as [[e|] w1]; cbn [snd] in *.
  - intros [= <- <-]. split; [done|by rewrite Ht].
  - destruct (q (w_tables w1)) as [r t'] eqn:Eq. intros [= <- <-]. split; [done|]. cbn. rewrite (Hq _ _ _ Eq). by rewrite Ht.
Qed.
Lemma dom_update_any {V} (hs : list str) (f : V -> V) (m : gmap str V) : dom (update_any hs f m) = dom m.
Proof. apply dom_imap_L. intros h. rewrite elem_of_dom. unfold is_Some. naive_solver. Qed.
Lemma release_kept now hs : keeps_chunks (q_release now hs).
Proof. intros t r t' [= <- <-]. apply dom_update_any. Qed.
Lemma pin_kept hs : keeps_chunks (q_pin hs).
Proof. intros t r t'. unfold q_pin. destruct (existsb _ _); intros [= <- <-]; [done|]. apply dom_update_any. Qed.
Lemma pin_hits hs w r w' : exec (QPin hs) w = (Ok r, w') -> (forall h, h ∈ hs -> h ∈ dom (blobs (w_tables w))) -> forall h, h ∈ hs -> h ∈ r.
Proof.
  cbn [exec]. unfold sql. destruct (next_fault_world w) as (Ht & _). destruct (next_fault w) as [[e|] w1]; cbn [snd] in *; [done|].
  rewrite Ht. unfold q_pin. destruct (existsb _ _); [done|]. intros [= <- <-] Hd h Hh. apply list_elem_of_filter.
  split; [|by apply elem_of_remove_dups]. apply Hd, elem_of_dom in Hh as [b Hb]. unfold is_present. by rewrite Hb.
Qed.
Definition known (w : World St) (hs : list str) : Prop := forall h, h ∈ hs -> h ∈ dom (blobs (w_tables w)).
Lemma known_kept w w' hs : kept w w' -> known w hs -> known w' hs.
Proof. intros [_ Hd] Hk h Hh. rewrite Hd. by apply Hk. Qed.
Lemma settle_known st batch w r w' :
  known w batch.*1 -> run (settle_batch st batch) w = (r, w') -> kept w w' ∧ written r.2 = written st.
Proof.
  intros Hk. unfold settle_batch. destruct batch as [|b0 batch0]; [by intros [= <- <-]|]. set (batch := b0 :: batch0) in *.
  unfold mbind, prog_bind. rewrite run_bind. cbn [call run]. destruct (exec (QPin batch.*1) w) as [hits w1] eqn:Ex.
  assert (Hw1 : kept w w1) by (eapply sql_kept; [apply pin_kept|exact Ex]).
  destruct hits as [hits|e]; cbn [sql_err map_err]; [|by intros [= <- <-]].
  pose proof (pin_hits _ _ _ _ Ex Hk) as Hh.
  assert (Hnone : filter (fun b : str * bytes => b.1 ∉ hits) batch = []).
  { destruct (filter _ batch) as [|x l] eqn:Ef; [done|].
    assert (Hx : x ∈ filter (fun b : str * bytes => b.1 ∉ hits) batch) by (rewrite Ef; left).
    apply list_elem_of_filter in Hx as [Hx Hin]. destruct Hx. apply Hh. by apply list_elem_of_fmap_2. }
  rewrite Hnone. cbn [run]. by intros [= <- <-].
Qed.
Lemma rollback_known st w r w' : written st = [] -> run (run_rollback st) w = (r, w') -> kept w w'.
Proof.
  intros Hw. unfold run_rollback. rewrite Hw. unfold mbind, prog_bind. rewrite run_bind.
  destruct (pinned st) as [|h hs]; cbn [run]; [by intros [= <- <-]|]. rewrite run_bind. cbn [call run exec].
  destruct (sql (q_release (w_now w) (h :: hs)) w) as [x w1] eqn:Ex. intros [= <- <-]. eapply sql_kept; [apply release_kept|exact Ex].
Qed.
Lemma fail_known {A} st e w (r : result DomainError A) w' :
  written st = [] -> run (fail_ingest st e) w = (r, w') -> kept w w' ∧ r = Err e.
Proof.
  intros Hw. unfold fail_ingest, mbind, prog_bind. rewrite run_bind. destruct (run (run_rollback st) w) as [u w1] eqn:Er.
  intros [= <- <-]. split; [|done]. by eapply rollback_known.
Qed.
(** The loop has written nothing and everything pending is known. *)
Definition clean_ingest (w : World St) (ig : Ingest) : Prop := written (ig_state ig) = [] ∧ known w (ig_pending ig).*1.
Lemma ingest_known overlap (ds : list bytes) : forall ig w r w',
  known w (blake3 <$> ds) -> clean_ingest w ig -> run (ingest_loop blake3 overlap (Ok <$> ds) ig) w = (r, w') ->
  kept w w' ∧ forall ig', r = Ok ig' -> clean_ingest w' ig'.
Proof.
  induction ds as [|d ds IH]; intros ig w r w' Hk [Hwr Hp]; [by intros [= <- <-]; split; [|intros ig' [= <-]]|].
  rewrite !fmap_cons in *. cbn [ingest_loop]. set (ig1 := take_chunk blake3 ig d).
  assert (Hp1 : known w (ig_pending ig1).*1).
  { cbn. case_bool_decide; [|done]. intros h. rewrite fmap_app, elem_of_app. intros [Hh|Hh]; [by apply Hp|].
    apply list_elem_of_singleton in Hh as ->. apply Hk. left. }
  assert (Hk' : known w (blake3 <$> ds)) by (intros h Hh; apply Hk; by right).
  destruct (must_flush blake3 ig d); [|intros Hr; eapply IH; [exact Hk'| |exact Hr]; by split].
  change (ig_in_flight ig1) with (ig_in_flight ig). change (ig_state ig1) with (ig_state ig).
  intros Hrun.
  assert (Hgo : (exists e, run (fail_ingest (ig_state ig) e) w = (r, w')) ∨
    run (settled ← settle_batch (ig_state ig) (ig_pending ig1);
        if overlap then ingest_loop blake3 overlap (Ok <$> ds) (flushed ig1 (Some settled.1) settled.2)
        else match settled.1 with
             | Err e => fail_ingest settled.2 e
             | Ok _ => ingest_loop blake3 overlap (Ok <$> ds) (flushed ig1 None settled.2)
             end) w = (r, w')).
  { destruct (ig_in_flight ig) as [[|e]|]; [by right|by left; exists e|by right]. }
  clear Hrun. destruct Hgo as [[e Hrun]|Hrun].
  { destruct (fail_known _ _ _ _ _ Hwr Hrun) as [? ->]. by split. }
  unfold mbind, prog_bind in Hrun. rewrite run_bind in Hrun.
  destruct (run (settle_batch (ig_state ig) (ig_pending ig1)) w) as [settled w1] eqn:Es.
  destruct (settle_known _ _ _ _ _ Hp1 Es) as [Hw1 Hwr1]. rewrite Hwr in Hwr1.
  assert (Hc : forall fl, clean_ingest w1 (flushed ig1 fl settled.2)).
  { intros fl. split; [done|]. intros h Hh. by apply not_elem_of_nil in Hh. }
  assert (Hk1 : known w1 (blake3 <$> ds)) by by eapply known_kept.
  assert (Hend : kept w1 w' ∧ forall ig', r = Ok ig' -> clean_ingest w' ig').
  { destruct overlap; [by eapply IH|]. destruct settled.1; [by eapply IH|].
    destruct (fail_known _ _ _ _ _ Hwr1 Hrun) as [? ->]. by split. }
  destruct Hend as [Hend ?]. split; [by etrans|done].
Qed.
Lemma finish_known ig w r w' : clean_ingest w ig -> run (finish_ingest blake3 ig) w = (r, w') -> kept w w'.
Proof.
  intros [Hwr Hp]. unfold finish_ingest, mbind, prog_bind. rewrite run_bind.
  destruct (run (settle_batch _ _) w) as [settled w1] eqn:Es. destruct (settle_known _ _ _ _ _ Hp Es) as [Hw1 Hwr1].
  rewrite Hwr in Hwr1. destruct settled.1; [rewrite Hwr1; by intros [= <- <-]|]. intros Hrun. etrans; [exact Hw1|]. by eapply fail_known.
Qed.
Lemma attach_known file_hash layout ct held rounds : forall w r w',
  run (attach_rounds rounds file_hash layout ct held) w = (r, w') -> kept w w'.
Proof.
  assert (Hrel : forall w u w', run (release_chunk_refs held) w = (u, w') -> kept w w').
  { intros w u w'. unfold release_chunk_refs. destruct held as [|h hs]; [by intros [= <- <-]|]. unfold mbind, prog_bind. rewrite run_bind.
    cbn [call run exec]. destruct (sql _ w) as [x w1] eqn:Ex. intros [= <- <-]. eapply sql_kept; [apply release_kept|exact Ex]. }
  assert (Hins : keeps_chunks (q_insert_manifest file_hash layout ct 1)).
  { intros t r t'. unfold q_insert_manifest. by destruct (manifests t !! file_hash); intros [= <- <-]. }
  assert (Hbump : keeps_chunks (q_bump_manifest file_hash)).
  { intros t r t'. unfold q_bump_manifest. destruct (manifests t !! file_hash); [|by intros [= <- <-]]. by case_bool_decide; intros [= <- <-]. }
  induction rounds as [|rounds IH]; intros w r w'; cbn [attach_rounds]; unfold mbind, prog_bind; rewrite run_bind.
  { destruct (run (release_chunk_refs held) w) as [u w1] eqn:Er. intros [= <- <-]. by eapply Hrel. }
  cbn [call run exec]. destruct (sql (q_insert_manifest _ _ _ _) w) as [x w1] eqn:Ex. pose proof (sql_kept _ _ _ _ Hins Ex) as Hw1.
  destruct x as [[]|e]; cbn [sql_err map_err run]; [by intros [= <- <-]| |by intros [= <- <-]].
  rewrite run_bind. unfold bump_manifest_if_exists, mbind, prog_bind. rewrite run_bind. cbn [call run exec].
  destruct (sql (q_bump_manifest _) w1) as [y w2] eqn:Ey. pose proof (sql_kept _ _ _ _ Hbump Ey) as Hw2.
  cbn [run]. destruct y as [[size|]|e]; cbn [sql_err map_err run].
  - rewrite run_bind. destruct (run (release_chunk_refs held) w2) as [u w3] eqn:Er. intros [= <- <-].
    etrans; [exact Hw1|]. etrans; [exact Hw2|]. by eapply Hrel.
  - intros Hrun. etrans; [exact Hw1|]. etrans; [exact Hw2|]. by eapply IH.
  - intros [= <- <-]. by etrans.
Qed.
Lemma store_known overlap source ct b w r w' :
  stream_bytes source = Ok b -> known w (blake3 <$> chunks b) ->
  run (store_from_stream blake3 cdc overlap source ct) w = (r, w') -> kept w w'.
Proof.
  intros Hb Hk. unfold store_from_stream, ingest_chunks_from_stream. rewrite !run_bind, (cdc_whole source b Hb).
  destruct (run (ingest_loop _ _ _ _) w) as [o w1] eqn:Er.
  destruct (ingest_known overlap (chunks b) ingest_start w o w1 Hk) as [Hw1 Hc]; [|exact Er|].
  { split; [done|]. intros h Hh. by apply not_elem_of_nil in Hh. }
  destruct o as [ig|e]; [|by intros [= <- <-]]. specialize (Hc ig eq_refl).
  destruct (run (match ig_in_flight ig with Some (Err e) => fail_ingest (ig_state ig) e | _ => finish_ingest blake3 ig end) w1)
    as [o2 w2] eqn:E2.
  assert (Hw2 : kept w1 w2).
  { destruct (ig_in_flight ig) as [[|e]|]; [by eapply finish_known| |by eapply finish_known]. by eapply fail_known; [apply Hc|]. }
  destruct o2 as [o2|e]; intros Hrun; [|injection Hrun as <- <-; by etrans].
  etrans; [exact Hw1|]. etrans; [exact Hw2|]. by eapply attach_known.
Qed.
End runs.
