(* ===== verification/BlobGc.v ===== *)
(** * Collection ends, and ends with nothing left to collect

    Reaping a blob releases what was derived from it, which may reap further blobs; the sweeps
    repeat until a batch comes back empty.  Every round deletes rows and none adds any, so the
    bounds [fuel] and [loops] of the programs do not matter once they pass the number of rows. *)

From S2P Require Import Prelude.
From S2P Require Import RustStr.
From S2P Require Import DomainErrors.
From S2P Require Import BlobBackend.
From S2P Require Import StoragePath.
From S2P Require Import BlobDb.
From S2P Require Import BlobCount.
From S2P Require Import BlobHandler.

#[local] Arguments lit : simpl never.

(** ** Commands that add no rows *)
Definition fewer {K V W} `{Countable K} (m' : gmap K W) (m : gmap K V) : Prop := dom m' ⊆ dom m.
#[export] Instance fewer_refl {K V} `{Countable K} : Reflexive (fewer (K := K) (V := V) (W := V)).
Proof. intros m. unfold fewer. reflexivity. Qed.
Record shrinks (t t' : Tables) : Prop := {
  sh_derived : fewer (derived t') (derived t);
  sh_manifests : fewer (manifests t') (manifests t);
  sh_blobs : fewer (blobs t') (blobs t);
}.
#[export] Instance shrinks_preorder : PreOrder shrinks.
Proof.
  split; [intros t; split; reflexivity|].
  intros t1 t2 t3 [H1 H2 H3] [H4 H5 H6]. unfold fewer in *. split; unfold fewer; etrans; eassumption.
Qed.
Lemma fewer_size {K V W} `{Countable K} (m' : gmap K W) (m : gmap K V) : fewer m' m -> (size m' <= size m)%nat.
Proof. intros Hd. rewrite <- !size_dom. by apply subseteq_size. Qed.
Lemma fewer_delete {V} (m : gmap str V) h : fewer (delete h m) m.
Proof. unfold fewer. rewrite dom_delete_L. set_solver. Qed.
Lemma fewer_deletes {A V} (key : A -> str) (rows : list A) (m : gmap str V) :
  fewer (foldr (fun r => delete (key r)) m rows) m.
Proof.
  induction rows as [|r rows IH]; cbn; [done|]. unfold fewer in *. rewrite dom_delete_L. set_solver.
Qed.
Lemma fewer_imap {V} (f : str -> V -> V) (m : gmap str V) : fewer (map_imap (fun h v => Some (f h v)) m) m.
Proof.
  intros h. rewrite !elem_of_dom, map_lookup_imap. destruct (m !! h); [done|]. by intros [? ?].
Qed.
Lemma fewer_insert {V} (m : gmap str V) h v v' : m !! h = Some v -> fewer (<[h := v']> m) m.
Proof. intros Hm. unfold fewer. rewrite dom_insert_L. apply elem_of_dom_2 in Hm. set_solver. Qed.

Definition quiet_stmt {T} (q : stmt T) : Prop := forall t r t', q t = (r, t') -> shrinks t t'.
Lemma shrinks_blobs f t : fewer (f (blobs t)) (blobs t) -> shrinks t (set_blobs f t).
Proof. by split. Qed.
Lemma shrinks_manifests f t : fewer (f (manifests t)) (manifests t) -> shrinks t (set_manifests f t).
Proof. by split. Qed.
Lemma reap_rows_shrinks rows t : shrinks t (reap_rows rows t).
Proof. split; try done. apply (fewer_deletes fst). Qed.
Lemma q_delete_derived_quiet h : quiet_stmt (q_delete_derived h).
Proof.
  intros t r t' [= <- <-]. split; try done. cbn. unfold fewer. apply dom_filter_subseteq.
Qed.
Lemma q_manifest_for_release_quiet h : quiet_stmt (q_manifest_for_release h).
Proof. by intros t r t' [= <- <-]. Qed.
Lemma q_release_manifest_quiet now h cs : quiet_stmt (q_release_manifest now h cs).
Proof.
  intros t r t'. unfold q_release_manifest. destruct (manifests t !! h) as [m|] eqn:Em; [|by intros [= <- <-]].
  case_bool_decide; intros [= <- <-].
  - etrans; [apply (shrinks_manifests (delete h)), fewer_delete|]. apply shrinks_blobs, fewer_imap.
  - apply shrinks_manifests. by eapply fewer_insert.
Qed.
Lemma q_release_legacy_quiet h : quiet_stmt (q_release_legacy h).
Proof.
  intros t r t'. unfold q_release_legacy. destruct (blobs t !! h) as [b|] eqn:Eb; [|by intros [= <- <-]].
  case_decide; intros [= <- <-]; [apply reap_rows_shrinks|]. apply shrinks_blobs. by eapply fewer_insert.
Qed.
Lemma q_release_quiet now hs : quiet_stmt (q_release now hs).
Proof. intros t r t' [= <- <-]. apply shrinks_blobs, fewer_imap. Qed.
Lemma q_release_counted_quiet now ds : quiet_stmt (q_release_counted now ds).
Proof. intros t r t' [= <- <-]. apply shrinks_blobs, (fewer_imap (fun h b => _)). Qed.
Lemma manifest_reap_quiet reg limit : quiet_stmt (manifest_reap_sql reg limit).
Proof. intros t r t' [= <- <-]. apply shrinks_manifests, (fewer_deletes fst). Qed.
Lemma blob_reap_quiet reg now limit grace : quiet_stmt (blob_reap_sql reg now limit grace).
Proof. intros t r t' [= <- <-]. apply reap_rows_shrinks. Qed.

Section gc.
Context {St : Type} `{BlobStorageBackend St}.
Implicit Types (w : World St).
(** The rows left and the clock. *)
Definition calmer w w' : Prop :=
  shrinks (w_tables w) (w_tables w') ∧ w_now w' = w_now w ∧ exists k, w_script w' = drop k (w_script w).
#[local] Instance calmer_preorder : PreOrder calmer.
Proof.
  split; [intros w; split; [done|]; split; [done|]; by exists O|].
  intros w1 w2 w3 (H1 & H2 & k1 & H3) (H4 & H5 & k2 & H6). split; [by etrans|]. split; [congruence|].
  exists (k1 + k2)%nat. by rewrite H6, H3, drop_drop.
Qed.
Lemma sql_calmer {T} (q : stmt T) w x w' : quiet_stmt q -> sql q w = (x, w') -> calmer w w'.
Proof.
  intros Hq. unfold sql, next_fault. destruct (w_script w) as [|[e|] rest] eqn:Es.
  - destruct (q (w_tables w)) as [r t'] eqn:Eq. intros [= <- <-]. split; [by apply (Hq _ _ _ Eq)|]. split; [done|]. by exists O.
  - intros [= <- <-]. split; [done|]. split; [done|]. exists 1%nat. by rewrite Es.
  - cbn. destruct (q (w_tables w)) as [r t'] eqn:Eq. intros [= <- <-]. split; [by apply (Hq _ _ _ Eq)|]. split; [done|].
    exists 1%nat. by rewrite Es.
Qed.
Definition quiet_cmd {X} (c : cmd X) : Prop := forall w x w', exec c w = (x, w') -> calmer w w'.
Fixpoint quiet {A} (p : prog A) : Prop :=
  match p with Ret _ => True | Do c k => quiet_cmd c ∧ forall x, quiet (k x) end.
Lemma quiet_bind {A B} (p : prog A) (f : A -> prog B) : quiet p -> (forall a, quiet (f a)) -> quiet (pbind p f).
Proof. intros Hp Hf. induction p as [a|X c k IH]; cbn [pbind quiet] in *; [apply Hf|]. split; [apply Hp|]. intros x. apply IH, Hp. Qed.
Lemma quiet_call {X} (c : cmd X) : quiet_cmd c -> quiet (call c).
Proof. by intros Hc. Qed.
Lemma quiet_for_each {A} (f : A -> prog unit) l : (forall a, quiet (f a)) -> quiet (for_each f l).
Proof. intros Hf. induction l as [|a l IH]; cbn [for_each]; [done|]. by apply quiet_bind. Qed.
Lemma run_quiet {A} (p : prog A) : forall w a w', quiet p -> run p w = (a, w') -> calmer w w'.
Proof.
  induction p as [a0|X c k IH]; intros w a w'; cbn [quiet run]; [by intros _ [= <- <-]|].
  intros [Hc Hk]. destruct (exec c w) as [x w1] eqn:Ex. intros Hrun. etrans; [by eapply Hc|by eapply IH].
Qed.
Lemma invalidate_quiet h : quiet_cmd (CInvalidate h).
Proof. intros w x w' [= <- <-]. split; [done|]. split; [done|]. by exists O. Qed.
Lemma sql_quiet {T} (c : cmd (sqlr T)) (q : World St -> stmt T) :
  (forall w, exec c w = sql (q w) w) -> (forall w, quiet_stmt (q w)) -> quiet_cmd c.
Proof. intros Hc Hq w x w' Hx. rewrite Hc in Hx. by eapply sql_calmer. Qed.
Lemma remove_with_quiet reap h : (forall h, quiet (reap h)) -> quiet (remove_with reap h).
Proof.
  intros Hr. unfold remove_with. apply quiet_bind.
  { apply quiet_call, (sql_quiet _ (fun _ => q_manifest_for_release h)); [done|]. intros _. apply q_manifest_for_release_quiet. }
  intros r. destruct (sql_err _ _ r) as [[[rc cs]|]|]; [| |done].
  - unfold remove_manifest_with. apply quiet_bind.
    { apply quiet_call, (sql_quiet _ (fun w => q_release_manifest (w_now w) h cs)); [done|]. intros w. apply q_release_manifest_quiet. }
    intros r'. destruct (tx_err _ r') as [[[]|]|]; try done.
    apply quiet_bind; [apply quiet_call, invalidate_quiet|]. intros _. by apply quiet_bind.
  - unfold remove_legacy_with. apply quiet_bind.
    { apply quiet_call, (sql_quiet _ (fun _ => q_release_legacy h)); [done|]. intros w. apply q_release_legacy_quiet. }
    intros r'. destruct (tx_err _ r') as [[[]|]|]; try done. by apply quiet_bind.
Qed.
Lemma delete_derived_quiet h : quiet_cmd (QDeleteDerived h).
Proof. apply (sql_quiet _ (fun _ => q_delete_derived h)); [done|]. intros _. apply q_delete_derived_quiet. Qed.
Lemma reap_quiet fuel : forall h, quiet (reap_blob fuel h).
Proof.
  induction fuel as [|fuel IH]; intros h; cbn [reap_blob]; [done|]. unfold purge_with.
  apply quiet_bind; [apply quiet_call, delete_derived_quiet|]. intros [hs|]; [|done]. apply quiet_for_each. intros h'.
  apply quiet_bind; [|done]. by apply remove_with_quiet.
Qed.

(** ** The nesting of reaps does not depend on the fuel *)
Definition agree {A} (n : nat) (p q : prog A) : Prop :=
  forall w, (size (derived (w_tables w)) < n)%nat -> run p w = run q w.
Lemma agree_bind {A B} n (p q : prog A) (f g : A -> prog B) :
  quiet p -> agree n p q -> (forall a, agree n (f a) (g a)) -> agree n (pbind p f) (pbind q g).
Proof.
  intros Hq Hp Hf w Hw. rewrite !run_bind, <- (Hp w Hw). destruct (run p w) as [a w'] eqn:Er. apply Hf.
  destruct (run_quiet _ _ _ _ Hq Er) as [[Hd _ _] _]. apply fewer_size in Hd. lia.
Qed.
Lemma agree_refl {A} n (p : prog A) : agree n p p.
Proof. by intros w. Qed.
Lemma agree_for_each {A} n (f g : A -> prog unit) l :
  (forall a, quiet (f a)) -> (forall a, agree n (f a) (g a)) -> agree n (for_each f l) (for_each g l).
Proof. intros Hq Hf. induction l as [|a l IH]; cbn [for_each]; [apply agree_refl|]. by apply agree_bind. Qed.
Lemma agree_remove n reap reap' h : (forall h, quiet (reap h)) -> (forall h, agree n (reap h) (reap' h)) ->
  agree n (remove_with reap h) (remove_with reap' h).
Proof.
  intros Hq Hr. unfold remove_with.
  apply agree_bind; [|apply agree_refl|].
  { apply quiet_call, (sql_quiet _ (fun _ => q_manifest_for_release h)); [done|]. intros _. apply q_manifest_for_release_quiet. }
  intros r. destruct (sql_err _ _ r) as [[[rc cs]|]|]; [| |apply agree_refl].
  - unfold remove_manifest_with. apply agree_bind; [|apply agree_refl|].
    { apply quiet_call, (sql_quiet _ (fun w => q_release_manifest (w_now w) h cs)); [done|]. intros w. apply q_release_manifest_quiet. }
    intros r'. destruct (tx_err _ r') as [[[]|]|]; try apply agree_refl.
    apply agree_bind; [apply quiet_call, invalidate_quiet|apply agree_refl|]. intros _. apply agree_bind; [done|done|]. intros _. apply agree_refl.
  - unfold remove_legacy_with. apply agree_bind; [|apply agree_refl|].
    { apply quiet_call, (sql_quiet _ (fun _ => q_release_legacy h)); [done|]. intros w. apply q_release_legacy_quiet. }
    intros r'. destruct (tx_err _ r') as [[[]|]|]; try apply agree_refl. apply agree_bind; [done|done|]. intros _. apply agree_refl.
Qed.
(** A purge that returns something has deleted rows. *)
Lemma delete_derived_shrinks w h x xs w' :
  exec (QDeleteDerived h) w = (Ok (x :: xs), w') -> (size (derived (w_tables w')) < size (derived (w_tables w)))%nat.
Proof.
  cbn [exec]. unfold sql, next_fault.
  assert (Hgo : forall t, (match mapM id (map_to_list (filter (fun kv => kv.1.1.1 = h) (derived t))).*2 with
      Some hs => Ok hs | None => Err unexpected_null end : result str (list str)) = Ok (x :: xs) ->
      (size (filter (fun kv => kv.1.1.1 ≠ h) (derived t)) < size (derived t))%nat).
  { intros t Ht. assert (Hne : filter (fun kv => kv.1.1.1 = h) (derived t) ≠ ∅).
    { intros He. rewrite He, map_to_list_empty in Ht. done. }
    apply map_choose in Hne as (k & v & [Hk Hf]%map_lookup_filter_Some). cbn in Hf.
    rewrite <- !size_dom. apply subset_size. split; [apply dom_filter_subseteq|].
    intros Hsub. apply elem_of_dom_2, Hsub, elem_of_dom in Hk as [v' [_ Hne']%map_lookup_filter_Some]. done. }
  destruct (w_script w) as [|[e|] rest]; cbn; try done; intros Hx; injection Hx as Hr <-; cbn; apply Hgo;
    destruct (mapM id _); cbn in Hr; congruence.
Qed.
Lemma reap_agree f1 : forall f2 h, (f1 <= f2)%nat -> agree f1 (reap_blob f1 h) (reap_blob f2 h).
Proof.
  induction f1 as [|f1 IH]; intros [|f2] h Hle w Hw; [lia..|]. cbn [reap_blob]. unfold purge_with, mbind, prog_bind.
  rewrite !run_bind. cbn [call run]. destruct (exec (QDeleteDerived h) w) as [[hs|e] w1] eqn:Ex; [|done].
  destruct hs as [|x xs]; [done|]. apply delete_derived_shrinks in Ex.
  apply (agree_for_each f1); [| |lia].
  - intros h'. apply quiet_bind; [|done]. apply remove_with_quiet. intros h''. apply reap_quiet.
  - intros h'. apply agree_bind; [apply remove_with_quiet; intros h''; apply reap_quiet| |intros; apply agree_refl].
    apply agree_remove; [intros h''; apply reap_quiet|]. intros h''. apply IH. lia.
Qed.
Lemma reap_fuel n f1 f2 h : (n <= f1)%nat -> (n <= f2)%nat -> agree n (reap_blob f1 h) (reap_blob f2 h).
Proof.
  intros H1 H2 w Hw. rewrite <- (reap_agree n f1 h H1 w Hw). by apply reap_agree.
Qed.
Lemma remove_fuel n f1 f2 h : (n <= f1)%nat -> (n <= f2)%nat -> agree n (remove_reference f1 h) (remove_reference f2 h).
Proof. intros H1 H2. apply agree_remove; [apply reap_quiet|]. intros h'. by apply reap_fuel. Qed.

(** ** The sweeps *)
Lemma reap_manifests_quiet limit : quiet_cmd (QReapManifests limit).
Proof. apply (sql_quiet _ (fun _ => manifest_reap_sql built_in_registry limit)); [done|]. intros _. apply manifest_reap_quiet. Qed.
Lemma reap_blobs_quiet limit grace : quiet_cmd (QReapBlobs limit grace).
Proof. apply (sql_quiet _ (fun w => blob_reap_sql built_in_registry (w_now w) limit grace)); [done|]. intros w. apply blob_reap_quiet. Qed.
Lemma release_batch_quiet batch : quiet (release_batch batch).
Proof.
  assert (Hc : forall ds, quiet_cmd (QReleaseCounted ds)).
  { intros ds. apply (sql_quiet _ (fun w => q_release_counted (w_now w) ds)); [done|]. intros w. apply q_release_counted_quiet. }
  unfold release_batch. destruct batch as [|row [|row' batch]]; apply quiet_call; [apply Hc| |apply Hc].
  apply (sql_quiet _ (fun w => q_release (w_now w) row.1.2)); [done|]. intros w. apply q_release_quiet.
Qed.
(** One round of the first phase after a batch came back. *)
Definition manifest_round (fuel : nat) (batch : list (str * list str * Z)) : prog (sqlr unit) :=
  _ ← for_each (fun row : str * list str * Z => _ ← call (CInvalidate row.1.1); purge_derived_blobs fuel row.1.1) batch;
  release_batch batch.
Lemma manifest_round_quiet fuel batch : quiet (manifest_round fuel batch).
Proof.
  apply quiet_bind; [|intros _; apply release_batch_quiet]. apply quiet_for_each. intros row.
  apply quiet_bind; [apply quiet_call, invalidate_quiet|]. intros _. apply reap_quiet.
Qed.
Lemma manifest_round_fuel n f1 f2 batch : (n <= f1)%nat -> (n <= f2)%nat ->
  agree n (manifest_round f1 batch) (manifest_round f2 batch).
Proof.
  intros H1 H2. apply agree_bind.
  - apply quiet_for_each. intros row. apply quiet_bind; [apply quiet_call, invalidate_quiet|]. intros _. apply reap_quiet.
  - apply agree_for_each.
    + intros row. apply quiet_bind; [apply quiet_call, invalidate_quiet|]. intros _. apply reap_quiet.
    + intros row. apply agree_bind; [apply quiet_call, invalidate_quiet|apply agree_refl|]. intros _. by apply reap_fuel.
  - intros _. apply agree_refl.
Qed.
Lemma taken_in {A} (P : A -> Prop) `{forall a, Decision (P a)} (n : nat) (l rest : list A) a :
  take n (filter P l) = a :: rest -> a ∈ l.
Proof.
  intros Ht. assert (Hin : a ∈ take n (filter P l)) by (rewrite Ht; left).
  apply list_elem_of_lookup in Hin as [i [Hi _]%lookup_take_Some]. by apply list_elem_of_lookup_2, list_elem_of_filter in Hi as [_ ?].
Qed.
(** A round starts with a statement that deletes the rows it returns. *)
Lemma reap_manifests_progress limit w row batch w' :
  exec (QReapManifests limit) w = (Ok (row :: batch), w') ->
  (size (manifests (w_tables w')) < size (manifests (w_tables w)))%nat.
Proof.
  cbn [exec]. unfold sql, next_fault.
  assert (Hgo : forall t r t', manifest_reap_sql built_in_registry limit t = (r, t') -> r = Ok (row :: batch) ->
    (size (manifests t') < size (manifests t))%nat).
  { intros t r t' [= <- <-] Hr. injection Hr as Hr. destruct (take limit _) as [|[h m] rest] eqn:Et; [done|].
    apply taken_in in Et as Hin.
    apply elem_of_map_to_list in Hin. rewrite <- !size_dom. apply subset_size. cbn. rewrite dom_delete_L. split.
    - pose proof (fewer_deletes fst rest (manifests t)) as Hf. unfold fewer in Hf. set_solver.
    - intros Hsub. apply elem_of_dom_2, Hsub in Hin. set_solver. }
  destruct (w_script w) as [|[e|] rest]; cbn [w_tables map_err]; try done;
    destruct (manifest_reap_sql built_in_registry limit _) as [r t'] eqn:Eq; intros [= Hr <-];
    (eapply Hgo; [exact Eq|]); destruct r; cbn in Hr; congruence.
Qed.
Lemma reap_blobs_progress limit grace w row batch w' :
  exec (QReapBlobs limit grace) w = (Ok (row :: batch), w') ->
  (size (blobs (w_tables w')) < size (blobs (w_tables w)))%nat.
Proof.
  cbn [exec]. unfold sql, next_fault.
  assert (Hgo : forall now t r t', blob_reap_sql built_in_registry now limit grace t = (r, t') -> r = Ok (row :: batch) ->
    (size (blobs t') < size (blobs t))%nat).
  { intros now t r t' [= <- <-] Hr. injection Hr as Hr. destruct (take limit _) as [|[h b] rest] eqn:Et; [done|].
    apply taken_in in Et as Hin.
    apply elem_of_map_to_list in Hin. rewrite <- !size_dom. apply subset_size. rewrite fmap_cons. cbn. rewrite dom_delete_L. split.
    - pose proof (fewer_deletes fst ((fun kv : str * BlobRow => (kv.1, b_size kv.2)) <$> rest) (blobs t)) as Hf. unfold fewer in Hf. set_solver.
    - intros Hsub. apply elem_of_dom_2, Hsub in Hin. set_solver. }
  destruct (w_script w) as [|[e|] rest]; cbn [w_tables w_now map_err]; try done;
    destruct (blob_reap_sql built_in_registry _ limit grace _) as [r t'] eqn:Eq; intros [= Hr <-];
    (eapply Hgo; [exact Eq|]); destruct r; cbn in Hr; congruence.
Qed.

(** Every manifest has a reference; no blob can be reaped. *)
Definition manifests_referenced (t : Tables) : Prop :=
  forall h m, manifests t !! h = Some m -> (0 < ref_count_expr built_in_registry Manifest t h)%nat.
Definition nothing_reapable (now grace : Z) (t : Tables) : Prop :=
  forall h b, blobs t !! h = Some b -> reapable_blob built_in_registry now grace t h b = false.
Lemma empty_filter {A} (P : A -> Prop) `{forall a, Decision (P a)} (n : nat) (l : list A) a :
  take (S n) (filter P l) = [] -> a ∈ l -> ¬ P a.
Proof.
  intros Ht Ha HP. destruct (filter P l) as [|x l'] eqn:Ef; [|done].
  assert (Hin : a ∈ filter P l) by by apply list_elem_of_filter. rewrite Ef in Hin. by apply not_elem_of_nil in Hin.
Qed.
Lemma reap_manifests_done limit w w' :
  exec (QReapManifests (S limit)) w = (Ok [], w') -> manifests_referenced (w_tables w').
Proof.
  cbn [exec]. unfold sql, next_fault.
  assert (Hgo : forall t r t', manifest_reap_sql built_in_registry (S limit) t = (r, t') -> r = Ok [] -> manifests_referenced t').
  { intros t r t' [= <- <-] Hr. injection Hr as Hr. apply fmap_nil_inv in Hr. rewrite Hr. cbn [foldr]. intros h m Hm.
    apply elem_of_map_to_list in Hm. eapply empty_filter in Hm; [|exact Hr]. cbn in Hm |- *.
    apply not_true_is_false, negb_false_iff in Hm. rewrite !orb_true_iff, !bool_decide_eq_true in Hm.
    unfold ref_count_expr. cbn. change (set_manifests _ t) with (mkTables (blobs t) (manifests t) (pending t) (folders t) (file_rows t) (derived t) (attached t)).
    unfold files_with, derived_with, attached_with in *. cbn. destruct Hm as [?|[?|[?|?]]]; [lia..|done]. }
  destruct (w_script w) as [|[e|] rest]; cbn [w_tables map_err]; try done;
    destruct (manifest_reap_sql built_in_registry _ _) as [r t'] eqn:Eq; intros [= Hr <-];
    (eapply Hgo; [exact Eq|]); destruct r; cbn in Hr; congruence.
Qed.
Lemma reap_blobs_done limit grace w w' :
  exec (QReapBlobs (S limit) grace) w = (Ok [], w') -> nothing_reapable (w_now w') grace (w_tables w').
Proof.
  cbn [exec]. unfold sql, next_fault.
  assert (Hgo : forall now t r t', blob_reap_sql built_in_registry now (S limit) grace t = (r, t') -> r = Ok [] ->
    nothing_reapable now grace t').
  { intros now t r t' [= <- <-] Hr. injection Hr as Hr. rewrite Hr. apply fmap_nil_inv in Hr. cbn [reap_rows foldl foldr].
    intros h b Hb. cbn in Hb. apply elem_of_map_to_list in Hb. eapply empty_filter in Hb; [|exact Hr]. apply not_true_is_false in Hb.
    exact Hb. }
  destruct (w_script w) as [|[e|] rest]; cbn [w_tables w_now map_err]; try done;
    destruct (blob_reap_sql built_in_registry _ _ grace _) as [r t'] eqn:Eq; intros [= Hr <-];
    (eapply Hgo; [exact Eq|]); destruct r; cbn in Hr; congruence.
Qed.

(** The first phase returns, whatever the bounds above the number of rows. *)
Lemma gc_manifests_step loops fuel deleted freed w :
  run (gc_manifests (S loops) fuel deleted freed) w =
  let (r, w1) := exec (QReapManifests BATCH_SIZE) w in
  match sql_err Dedup (lit "GC manifests: ") r with
  | Err e => (Some (Err e), w1)
  | Ok [] => (Some (Ok (deleted, freed)), w1)
  | Ok batch =>
      let (r, w2) := run (manifest_round fuel batch) w1 in
      match sql_err Dedup (lit "GC chunk refs: ") r with
      | Err e => (Some (Err e), w2)
      | Ok _ =>
          let (_, w3) := run (for_each (fun row : str * list str * Z => reap_blob fuel row.1.1) batch) w2 in
          run (gc_manifests loops fuel (deleted + Z.of_nat (length batch)) (freed + foldr Z.add 0%Z batch.*2)) w3
      end
  end.
Proof.
  cbn [gc_manifests]. unfold mbind, prog_bind. rewrite run_bind. cbn [call run].
  destruct (exec _ w) as [r w1]. destruct (sql_err _ _ r) as [[|row batch]|e]; [done| |done].
  unfold manifest_round, mbind, prog_bind. rewrite !run_bind. destruct (run (for_each _ _) w1) as [u w2].
  rewrite run_bind. destruct (run (release_batch _) w2) as [r' w3].
  destruct (sql_err _ _ r'); [|done]. by rewrite run_bind.
Qed.
Definition small (d n : nat) (w : World St) : Prop :=
  (size (derived (w_tables w)) < d)%nat ∧ (size (manifests (w_tables w)) < n)%nat.
Lemma small_calmer d n w w' : calmer w w' -> small d n w -> small d n w'.
Proof. intros [[Hd Hm _] _] [H1 H2]. apply fewer_size in Hd, Hm. split; lia. Qed.
Lemma for_each_reap_quiet {A} fuel (key : A -> str) l : quiet (for_each (fun row => reap_blob fuel (key row)) l).
Proof. apply quiet_for_each. intros a. apply reap_quiet. Qed.
Lemma for_each_reap_fuel {A} n f1 f2 (key : A -> str) l : (n <= f1)%nat -> (n <= f2)%nat ->
  agree n (for_each (fun row => reap_blob f1 (key row)) l) (for_each (fun row => reap_blob f2 (key row)) l).
Proof. intros H1 H2. apply agree_for_each; [intros a; apply reap_quiet|]. intros a. by apply reap_fuel. Qed.
Lemma faultless w w' : calmer w w' -> Forall (fun f => f = None) (w_script w) -> Forall (fun f => f = None) (w_script w').
Proof. intros (_ & _ & k & ->). by apply Forall_drop. Qed.
Lemma sql_faultless {T} (c : cmd (sqlr T)) (q : World St -> stmt T) w x w' :
  (forall w, exec c w = sql (q w) w) -> (forall w t e, (q w t).1 ≠ Err e) -> exec c w = (x, w') ->
  Forall (fun f => f = None) (w_script w) -> exists v, x = Ok v.
Proof.
  intros Hc Hq Hx Hf. rewrite Hc in Hx. unfold sql, next_fault in Hx. specialize (Hq w (w_tables w)).
  destruct (w_script w) as [|f rest]; [|inversion Hf as [|? ? -> _]; subst]; cbn in Hx;
    destruct (q w (w_tables w)) as [[v|e] t']; injection Hx as <- <-; cbn; eauto; by destruct (Hq e).
Qed.
Lemma release_batch_faultless batch w r w' : run (release_batch batch) w = (r, w') ->
  Forall (fun f => f = None) (w_script w) -> exists v, r = Ok v.
Proof.
  assert (Hc : forall ds x w', exec (QReleaseCounted ds) w = (x, w') -> Forall (fun f => f = None) (w_script w) -> exists v, x = Ok v).
  { intros ds x w1. by apply (sql_faultless (QReleaseCounted ds) (fun w => q_release_counted (w_now w) ds)). }
  unfold release_batch. destruct batch as [|row [|row' batch]]; cbn [call run].
  - destruct (exec _ w) eqn:Ex. intros [= <- <-]. by eapply Hc.
  - destruct (exec _ w) eqn:Ex. intros [= <- <-]. by apply (sql_faultless (QRelease row.1.2) (fun w => q_release (w_now w) row.1.2) w _ w0).
  - destruct (exec _ w) eqn:Ex. intros [= <- <-]. by eapply Hc.
Qed.
Lemma round_faultless fuel batch w r w' : run (manifest_round fuel batch) w = (r, w') ->
  Forall (fun f => f = None) (w_script w) -> exists v, r = Ok v.
Proof.
  unfold manifest_round, mbind, prog_bind. rewrite run_bind. destruct (run (for_each _ _) w) as [u w1] eqn:Ef. intros Hr Hf.
  eapply release_batch_faultless; [exact Hr|]. eapply faultless; [|exact Hf]. eapply run_quiet; [|exact Ef].
  apply quiet_for_each. intros row. apply quiet_bind; [apply quiet_call, invalidate_quiet|]. intros _. apply reap_quiet.
Qed.

(** What a phase is to return: the same for both bounds, an answer, the goal when it is not an
    error, no error when the database answers. *)
Definition phase_done {A} (goal : World St -> Prop) w (p q : option (result DomainError A) * World St) : Prop :=
  p = q ∧ calmer w p.2 ∧ exists r, p.1 = Some r ∧ (forall x, r = Ok x -> goal p.2)
  ∧ (Forall (fun f => f = None) (w_script w) -> exists x, r = Ok x).
Lemma phase_step {A} (goal : World St -> Prop) w w1 (p q : option (result DomainError A) * World St) :
  calmer w w1 -> phase_done goal w1 p q -> phase_done goal w p q.
Proof.
  intros Hc (Hp & Hc' & r & Hr & Hg & Hf). split; [done|]. split; [by etrans|]. exists r. split_and!; [done..|].
  intros Hw. apply Hf. by eapply faultless.
Qed.
Lemma gc_manifests_returns d n : forall l1 l2 f1 f2 deleted freed w,
  small d n w -> (n <= l1)%nat -> (n <= l2)%nat -> (d <= f1)%nat -> (d <= f2)%nat ->
  phase_done (fun w' => manifests_referenced (w_tables w')) w
    (run (gc_manifests l1 f1 deleted freed) w) (run (gc_manifests l2 f2 deleted freed) w).
Proof.
  induction n as [|n IH]; intros l1 l2 f1 f2 deleted freed w Hs Hl1 Hl2 Hf1 Hf2; [destruct Hs; lia|].
  destruct l1 as [|l1]; [lia|]. destruct l2 as [|l2]; [lia|]. rewrite !gc_manifests_step.
  destruct (exec (QReapManifests BATCH_SIZE) w) as [r w1] eqn:Ex.
  pose proof (reap_manifests_quiet _ _ _ _ Ex) as Hq1.
  destruct r as [[|row batch]|e]; cbn [sql_err map_err].
  - split; [done|]. split; [done|]. eexists. split; [reflexivity|]. split; [|by eauto]. intros _ _. by eapply (reap_manifests_done 499).
  - pose proof (reap_manifests_progress _ _ _ _ _ Ex) as Hlt. set (all := row :: batch) in *.
    assert (Hs1 : small d n w1) by (destruct (small_calmer _ _ _ _ Hq1 Hs), Hs; split; lia).
    apply (phase_step _ w w1); [done|]. rewrite <- (manifest_round_fuel d f1 f2 all Hf1 Hf2 w1) by apply Hs1.
    destruct (run (manifest_round f1 all) w1) as [r2 w2] eqn:Er.
    pose proof (run_quiet _ _ _ _ (manifest_round_quiet f1 all) Er) as Hq2. destruct r2 as [u|e]; cbn [sql_err map_err].
    + apply (phase_step _ w1 w2); [done|]. assert (Hs2 : small d n w2) by by eapply small_calmer.
      rewrite <- (for_each_reap_fuel d f1 f2 (fun row : str * list str * Z => row.1.1) all Hf1 Hf2 w2) by apply Hs2.
      destruct (run (for_each _ all) w2) as [v w3] eqn:E3.
      pose proof (run_quiet _ _ _ _ (for_each_reap_quiet f1 (fun row : str * list str * Z => row.1.1) all) E3) as Hq3.
      apply (phase_step _ w2 w3); [done|]. apply IH; try lia. by eapply small_calmer.
    + split; [done|]. split; [done|]. eexists. split; [reflexivity|]. split; [done|]. intros Hf.
      by destruct (round_faultless _ _ _ _ _ Er Hf).
  - split; [done|]. split; [done|]. eexists. split; [reflexivity|]. split; [done|]. intros Hf.
    by destruct (sql_faultless (QReapManifests BATCH_SIZE) (fun _ => manifest_reap_sql built_in_registry BATCH_SIZE) w _ w1 (fun _ => eq_refl)
                   (fun _ _ _ => ltac:(done)) Ex Hf).
Qed.
Lemma gc_blobs_returns d grace n : forall l1 l2 f1 f2 deleted freed w,
  (size (derived (w_tables w)) < d)%nat -> (size (blobs (w_tables w)) < n)%nat ->
  (n <= l1)%nat -> (n <= l2)%nat -> (d <= f1)%nat -> (d <= f2)%nat ->
  phase_done (fun w' => nothing_reapable (w_now w') grace (w_tables w')) w
    (run (gc_blobs l1 f1 grace deleted freed) w) (run (gc_blobs l2 f2 grace deleted freed) w).
Proof.
  induction n as [|n IH]; intros l1 l2 f1 f2 deleted freed w Hd Hn Hl1 Hl2 Hf1 Hf2; [lia|].
  destruct l1 as [|l1]; [lia|]. destruct l2 as [|l2]; [lia|]. cbn [gc_blobs]. unfold mbind, prog_bind. rewrite !run_bind. cbn [call run].
  destruct (exec (QReapBlobs BATCH_SIZE grace) w) as [r w1] eqn:Ex.
  pose proof (reap_blobs_quiet _ _ _ _ _ Ex) as Hq1. destruct r as [[|row batch]|e]; cbn [sql_err map_err run].
  - split; [done|]. split; [done|]. eexists. split; [reflexivity|]. split; [|by eauto]. intros _ _. by eapply (reap_blobs_done 499).
  - pose proof (reap_blobs_progress _ _ _ _ _ _ Ex) as Hlt. set (all := row :: batch) in *. rewrite !run_bind.
    assert (Hd1 : (size (derived (w_tables w1)) < d)%nat) by (destruct Hq1 as [[Hq _ _] _]; apply fewer_size in Hq; lia).
    apply (phase_step _ w w1); [done|]. rewrite <- (for_each_reap_fuel d f1 f2 (fun row : str * Z => row.1) all Hf1 Hf2 w1 Hd1).
    destruct (run (for_each _ all) w1) as [v w2] eqn:E2.
    pose proof (run_quiet _ _ _ _ (for_each_reap_quiet f1 (fun row : str * Z => row.1) all) E2) as Hq2.
    apply (phase_step _ w1 w2); [done|]. destruct Hq2 as [[Hq2 _ Hq3] _]. apply fewer_size in Hq2, Hq3. apply IH; lia.
  - split; [done|]. split; [done|]. eexists. split; [reflexivity|]. split; [done|]. intros Hf.
    by destruct (sql_faultless (QReapBlobs BATCH_SIZE grace) (fun w => blob_reap_sql built_in_registry (w_now w) BATCH_SIZE grace) w _ w1 (fun _ => eq_refl)
                   (fun _ _ _ => ltac:(done)) Ex Hf).
Qed.
End gc.
