(* ===== verification/BlobClaims.v ===== *)
(** * Deduplicated storage: the theorems

    What the handler of [src/src/infrastructure/services/blob_handler.rs] promises to the rest of
    the program, from the lemmas of the files before, each with a concrete instance: content
    of two-byte chunks named by itself, on a local disk without faults. *)

From stdpp Require Import gmultiset.
From S2P Require Import Prelude.
From S2P Require Import RustStr.
From S2P Require Import DomainErrors.
From S2P Require Import BlobBackend.
From S2P Require Import StoragePath.
From S2P Require Import BlobDb.
From S2P Require Import BlobCount.
From S2P Require Import BlobHandler.
From S2P Require Import BlobInv.
From S2P Require Import BlobCmds.
From S2P Require Import BlobSafety.
From S2P Require Import BlobIngest.
From S2P Require Import BlobTheorems.
From S2P Require Import BlobReads.
From S2P Require Import BlobTotal.
From S2P Require Import BlobGc.

#[local] Arguments lit : simpl never.

(** ** Instances *)

(** A digest without collisions and a chunker that satisfies the laws. *)
Definition pairs_chunker : Chunker.
Proof.
  refine {| blake3 b := b; chunks b := chunks_of (length b) 2 b;
            cdc s := match stream_bytes s with
                     | Ok b => Ok <$> chunks_of (length b) 2 b
                     | Err e => [Err e]
                     end |}.
  - intros b. apply chunks_of_concat; lia.
  - by intros s b ->.
  - intros s e ->. by exists [], e, [].
Defined.
(** An empty store with one folder. *)
Definition empty_world : World LocalBlobBackend :=
  mkWorld (mkTables ∅ ∅ ∅ {[1%N]} ∅ ∅ ∅) (mkLocal ∅ []) ∅ 0 [] [].
Lemma empty_world_inv : @Inv pairs_chunker LocalBlobBackend local_backend clean_laws empty_world [].
Proof.
  constructor; unfold empty_world; cbn [w_tables w_store w_cache blobs manifests pending].
  - constructor.
  - intros h. rewrite lookup_empty. reflexivity.
  - intros h b Hb. by rewrite lookup_empty in Hb.
  - intros h Hp. apply local_present_Some in Hp as [d Hd]. cbn [files] in Hd. by rewrite lookup_empty in Hd.
  - intros g h Hg. by apply not_elem_of_nil in Hg.
  - intros g h Hg. by apply not_elem_of_nil in Hg.
  - intros h m Hm. by rewrite lookup_empty in Hm.
  - intros h m Hm. by rewrite lookup_empty in Hm.
  - intros h. rewrite lookup_empty. reflexivity.
Qed.
Definition upload (b : bytes) (name : str) : request := Upload [Ok b] None name (Some 1%N).
Definition gos (i n : nat) : list event := replicate n (Go i).

Section claims.
Context `{Chunker} `{Unicode} {St : Type} `{AtomicPuts St}.
Implicit Types (w : World St).

(** ** Safety *)
Definition pool (overlap : bool) (fuel : nat) (rs : list request) : list thread :=
  (fun r => start (program overlap fuel r)) <$> rs.
(** [h] reads as [b], in whole and in every range. *)
Definition reads_as w (h : str) (b : bytes) : Prop :=
  (exists s w', run (read_blob_stream h) w = (Ok s, w') ∧ stream_bytes s = Ok b)
  ∧ forall start end_, (0 <= start)%Z ->
      exists s w', run (read_blob_range_stream h start end_) w = (Ok s, w')
        ∧ stream_bytes s = Ok (byte_range start end_ b).
(** Some row refers to [h]. *)
Definition in_use (t : Tables) (h : str) : Prop :=
  (exists id f, file_rows t !! id = Some f ∧ f_blob f = h)
  ∨ (exists k, derived t !! k = Some (Some h)) ∨ (exists k, attached t !! k = Some h).
Lemma in_use_counted t h : in_use t h -> (0 < files_with t h + derived_with t h + attached_with t h)%nat.
Proof.
  intros [(id & f & Hf & Hh)|[(k & Hk)|(k & Hk)]].
  - assert (0 < files_with t h)%nat; [|lia]. apply count_pos. by exists id, f.
  - assert (0 < derived_with t h)%nat; [|lia]. apply count_pos. by exists k, (Some h).
  - assert (0 < attached_with t h)%nat; [|lia]. apply count_pos. by exists k, h.
Qed.

(** C4: no request loses another's content.  From a consistent state, after any orderly schedule
    of any uploads, updates, instant uploads, copies, deletions, derived-content stores, reads,
    collections and reclaims, with requests abandoned at any command, the database failing at
    any statement, time passing and cache entries evicted, every hash that a file, a derived
    or an attached row refers to reads back, in whole and in every range, as the content it is
    the hash of, whenever the database answers and the backend is healthy. *)
Theorem files_stay_readable overlap fuel w rs es h :
  Inv w [] -> orderly_run es (w, pool overlap fuel rs) = true ->
  in_use (w_tables (steps es (w, pool overlap fuel rs)).1) h ->
  calm (steps es (w, pool overlap fuel rs)).1 ->
  exists b, blake3 b = h ∧ reads_as (steps es (w, pool overlap fuel rs)).1 h b.
Proof.
  intros Hi Ho Hu Hc. destruct (pool_steps es _ (pool_start overlap fuel w rs Hi) Ho) as [Hi' _]. fold (pool overlap fuel rs) in Hi'.
  apply in_use_counted in Hu. pose proof (inv_manifests _ _ _ _ Hi' h) as Hm. unfold refs in Hm.
  destruct (manifests _ !! h) as [m|] eqn:Em; [|lia].
  destruct (manifest_reads _ _ h Hi' Hc) as (b & Hb & Hr); [by exists m|]. by exists b.
Qed.

(** ** Storing *)

(** C5: what is stored is read back.  A store that runs alone, with the database answering, a
    healthy backend with room for the chunks and no counter near its limit, returns the hash of
    the bytes the stream yields, and that hash then reads as these bytes. *)
Theorem store_then_read overlap source ct b w :
  Inv w [] -> ready (room (length (chunks b) + 2)) w -> stream_bytes source = Ok b ->
  Forall (fun d => v_fits bk_view (Z.of_nat (length d))) (chunks b) ->
  exists d w', run (store_from_stream blake3 cdc overlap source ct) w = (Ok d, w')
    ∧ dedup_hash d = blake3 b ∧ reads_as w' (blake3 b) b.
Proof.
  intros Hi Hr Hb Hf. destruct (store_succeeds overlap source ct b w Hb Hf Hr) as (d & w' & Hrun & Hr').
  destruct (run_safe _ no_holds _ w _ w' (store_tidy blake3 cdc overlap source ct) (store_safe overlap source ct no_holds)
              (inv_start _ _ _ _ Hi) Hrun) as (g & Hi' & Hd).
  destruct (Hd d eq_refl) as (b' & Hb' & Hh & Ht). assert (b' = b) as -> by congruence.
  exists d, w'. split_and!; [done..|]. destruct (token_manifest _ _ _ _ _ _ Hi' Ht) as (m & Hm & _).
  destruct (manifest_reads w' [g] (blake3 b) Hi' (rd_calm _ _ Hr')) as (b2 & Hb2 & Hreads); [by exists m|].
  apply (inj blake3) in Hb2 as ->. done.
Qed.
(** A store that answers is right.  Whatever fails on the way, a store that returns a hash
    has consumed its whole source without error, the hash is that of its bytes, a manifest of
    that hash exists, and the state is consistent again; one that returns an error leaves the
    state consistent too. *)
Theorem stored_hash_is_content overlap source ct w r w' :
  Inv w [] -> run (store_from_stream blake3 cdc overlap source ct) w = (r, w') ->
  Inv w' [] ∧ forall d, r = Ok d -> exists b, stream_bytes source = Ok b ∧ dedup_hash d = blake3 b
    ∧ exists m, manifests (w_tables w') !! blake3 b = Some m ∧ m_layout m = layout_of b ∧ (1 <= m_ref_count m)%Z.
Proof.
  intros Hi Hrun.
  destruct (run_safe _ no_holds _ w _ w' (store_tidy blake3 cdc overlap source ct) (store_safe overlap source ct no_holds)
              (inv_start _ _ _ _ Hi) Hrun) as (g & Hi' & Hd).
  split; [by eapply inv_drop|]. intros d Hr. destruct (Hd d Hr) as (b & Hb & Hh & Ht). exists b. split_and!; [done..|].
  destruct (token_manifest _ _ _ _ _ _ Hi' Ht) as (m & Hm & Hl). exists m. split_and!; [done| |].
  - destruct Hl as (b' & Hb' & ->). by apply (inj blake3) in Hb' as ->.
  - pose proof (inv_manifests _ _ _ _ Hi' (blake3 b)) as Hrc. rewrite Hm in Hrc. unfold refs in Hrc.
    rewrite tokens_of_cons in Hrc. rewrite elem_of_multiplicity in Ht. lia.
Qed.
(** Known chunks are not stored again.  When every chunk of the content has a row, storing it
    leaves the backend exactly as it was and adds no chunk row, whatever the database answers. *)
Theorem known_chunks_not_rewritten overlap source ct b w r w' :
  stream_bytes source = Ok b -> (forall d, d ∈ chunks b -> is_Some (blobs (w_tables w) !! blake3 d)) ->
  run (store_from_stream blake3 cdc overlap source ct) w = (r, w') ->
  w_store w' = w_store w ∧ dom (blobs (w_tables w')) = dom (blobs (w_tables w)).
Proof.
  intros Hb Hk. eapply (store_known overlap source ct b w); [done|]. intros h (d & -> & Hd)%list_elem_of_fmap.
  by apply elem_of_dom, Hk.
Qed.

(** ** Reading ranges *)

(** A range is assembled exactly.  For any chunks and any start and end, the parts that
    [read_blob_range_stream] asks of the backend are, put together, the requested range of the
    content; a chunk is fetched exactly when it overlaps the range; and every part lies within
    its chunk, so no request is out of bounds and nothing wraps. *)
Theorem range_parts_exact (ds : list bytes) (start : Z) (end_ : option Z) :
  (0 <= start)%Z ->
  let e := default (Z.of_nat (length (concat ds))) end_ in
  let sel := select_chunks start e 0 0 ((fun d => Z.of_nat (length d)) <$> ds) in
  pieces ds sel = byte_range start end_ (concat ds)
  ∧ (forall i, (exists s x, (i, s, x) ∈ sel) <->
       exists d, ds !! i = Some d ∧ let o := Z.of_nat (length (concat (take i ds))) in
         (start < o + Z.of_nat (length d))%Z ∧ (o < e)%Z)
  ∧ (forall i s x, (i, s, x) ∈ sel -> exists d, ds !! i = Some d ∧ (0 <= s <= Z.of_nat (length d))%Z
       ∧ forall x', x = Some x' -> (0 < x' < Z.of_nat (length d))%Z ∧ (start <= e -> s <= x')%Z).
Proof.
  intros Hs e sel. split; [by apply selected_range|]. split.
  - intros i. split.
    + intros (s & x & (j & d & Hj & Hx)%select_spec). cbn zeta in Hx. rewrite Z.add_0_l in Hx. destruct Hx as (Hlo & Hhi & [= -> _ _]).
      by exists d.
    + intros (d & Hd & Hx). cbn zeta in Hx. eexists _, _. apply select_spec. exists i, d. split; [done|]. cbn zeta. rewrite Z.add_0_l.
      split; [apply Hx|]. split; [apply Hx|reflexivity].
  - intros i s x (j & d & Hj & Hx)%select_spec. cbn zeta in Hx. rewrite Z.add_0_l in Hx. destruct Hx as (Hlo & Hhi & [= -> -> ->]).
    exists d. split; [done|]. unfold saturating_sub. split; [lia|]. intros x'. case_bool_decide; [|done]. intros [= <-]. lia.
Qed.

(** ** Collecting *)

(** C6: collection ends and completes.  The recursion of [reap_blob] and the loops of
    [garbage_collect] return, with a result that does not depend on the bounds once these pass
    the number of rows; an error is returned only when the database failed; the first phase
    leaves no manifest that nothing refers to, and when the whole returns its totals no blob is
    left that could be reaped. *)
Theorem collection_completes (w : World St) (grace : Z) (l1 l2 f1 f2 : nat) :
  let t := w_tables w in
  (size (derived t) < f1)%nat -> (size (derived t) < f2)%nat ->
  (size (manifests t) < l1)%nat -> (size (blobs t) < l1)%nat ->
  (size (manifests t) < l2)%nat -> (size (blobs t) < l2)%nat ->
  let r := run (garbage_collect_with_grace l1 f1 grace) w in
  r = run (garbage_collect_with_grace l2 f2 grace) w
  ∧ (exists x, r.1 = Some x ∧ (no_faults (w_script w) -> exists n b, x = Ok (n, b))
       ∧ forall n b, x = Ok (n, b) -> nothing_reapable (w_now r.2) grace (w_tables r.2))
  ∧ (forall n b w1, run (gc_manifests l1 f1 0 0) w = (Some (Ok (n, b)), w1) -> manifests_referenced (w_tables w1)).
Proof.
  intros t Hf1 Hf2 Hm1 Hb1 Hm2 Hb2. cbv zeta.
  destruct (gc_manifests_returns (S (size (derived t))) (S (size (manifests t))) l1 l2 f1 f2 0 0 w) as (He & Hq & x & Hx & Hg & Hok);
    [split; fold t; lia|lia..|].
  unfold garbage_collect_with_grace, mbind, prog_bind. rewrite !run_bind, <- He.
  destruct (run (gc_manifests l1 f1 0 0) w) as [r1 w1] eqn:E1. cbn [fst snd] in *. subst r1.
  split_and!.
  3:{ intros n b w2 [= -> <-]. by eapply Hg. }
  - destruct x as [[n b]|e]; [|done]. destruct Hq as [[Hd _ Hbl] _]. apply fewer_size in Hd, Hbl.
    apply (gc_blobs_returns (S (size (derived t))) grace (S (size (blobs t)))); fold t in Hd, Hbl; lia.
  - destruct x as [[n b]|e].
    + pose proof Hq as ([Hd _ Hbl] & _). apply fewer_size in Hd, Hbl. fold t in Hd, Hbl.
      destruct (gc_blobs_returns (S (size (derived t))) grace (S (size (blobs t))) l1 l2 f1 f2 n b w1) as (_ & _ & y & Hy & Hgoal & Hfin); [lia..|].
      exists y. split_and!; [done| |].
      * intros Hf. destruct (Hfin (faultless _ _ Hq Hf)) as [[n' b'] ->]. by eauto.
      * intros n' b' Hyo. by eapply Hgoal.
    + exists (Err e). split_and!; [done| |done]. intros Hf. by destruct (Hok Hf).
Qed.

(** ** Reclaiming *)

(** C7: reclaiming unlinks only what nobody uses.  [settle_one] touches the object only when it is
    queued and neither a blob row nor a manifest refers to it; a queued hash that is in use
    again is taken from the queue instead; when the unlink succeeds the object and the queue
    entry are gone, when it fails for good the entry stays with one more attempt and is parked
    at the eighth, and a transient failure costs no attempt.  No other hash is touched. *)
Theorem reclaim_contract (h : str) (w : World St) (x : Settled) (w' : World St) :
  v_inv bk_view (w_store w) -> run (settle_one h) w = (x, w') ->
  let t := w_tables w in
  (forall h', h' ≠ h ∨ still_unreferenced t h = false ∨ pending t !! h = None -> unchanged_at bk_view (w_store w) (w_store w') h')
  ∧ (forall h', h' ≠ h -> pending (w_tables w') !! h' = pending t !! h')
  ∧ blobs (w_tables w') = blobs t ∧ manifests (w_tables w') = manifests t
  ∧ match x with
    | Reclaimed n => v_present bk_view (w_store w') h = false ∧ pending (w_tables w') !! h = None ∧ (0 <= n)%Z
    | Cancelled => still_unreferenced t h = false ∧ pending (w_tables w') !! h = None
    | Failed parked => exists p p', pending t !! h = Some p ∧ pending (w_tables w') !! h = Some p'
        ∧ p_attempts p' = (p_attempts p + 1)%Z ∧ parked = bool_decide (MAX_ATTEMPTS <= p_attempts p')%Z
        ∧ (parked = true -> is_Some (p_parked_at p'))
    | Skipped => forall p, pending t !! h = Some p -> exists p', pending (w_tables w') !! h = Some p' ∧ p_attempts p' = p_attempts p
    end.
Proof.
  intros Hi. unfold settle_one. cbn [call run exec]. unfold reclaim. destruct (next_fault_world w) as (Ht & Hs & _ & _).
  destruct (next_fault w) as [f w1]. cbn [snd] in *. rewrite Ht, Hs. cbv zeta. set (t := w_tables w).
  assert (Hsame : forall h', unchanged_at bk_view (w_store w) (w_store w) h') by done.
  destruct (pending t !! h) as [p|] eqn:Ep.
  2:{ intros Hx. assert (x = Skipped ∧ w' = w1) as [-> ->] by (destruct f as [[[|[|[|]]] ?]|]; by injection Hx as <- <-).
      rewrite Ht, Hs. by split_and!. }
  assert (Hskip : (Skipped, w1) = (x, w') -> x = Skipped ∧ w' = w1) by by intros [= <- <-].
  destruct f as [[[|[|[|stage]]] e]|];
    try (intros [-> ->]%Hskip; rewrite Ht, Hs; split_and!; try done; intros p' [= <-]; fold t; rewrite Ep; by exists p).
  - destruct (still_unreferenced t h) eqn:Eu.
    + destruct (delete_blob h (w_store w)) as [r s'] eqn:Ed. destruct (bk_delete _ _ _ _ Hi Ed) as (_ & Hoth & _ & _).
      intros [= <- <-]. cbn [w_store w_tables set_store]. rewrite Ht. split_and!; try done.
      * intros h' [Hne|[?|?]]; [|done..]. by apply Hoth.
      * intros p' [= <-]. fold t. rewrite Ep. by exists p.
    + intros [-> ->]%Hskip. rewrite Ht, Hs. split_and!; try done. intros p' [= <-]. fold t. rewrite Ep. by exists p.
  - destruct (still_unreferenced t h) eqn:Eu.
    + destruct (delete_blob h (w_store w)) as [r s'] eqn:Ed. destruct (bk_delete _ _ _ _ Hi Ed) as (_ & Hoth & _ & Hgone).
      assert (Hoth' : forall h', h' ≠ h ∨ true = false ∨ Some p = None -> unchanged_at bk_view (w_store w) s' h').
      { intros h' [Hne|[?|?]]; [|done..]. by apply Hoth. }
      destruct r as [[]|e]; intros [= <- <-]; cbn [w_store w_tables set_store set_tables set_pending blobs manifests pending].
      * split_and!; try done; [intros h' Hne; by rewrite lookup_delete_ne| |by rewrite lookup_delete_eq|lia]. by apply Hgone.
      * split_and!; try done; [intros h' Hne; by rewrite lookup_insert_ne|].
        rewrite lookup_insert_eq. destruct (DomainError.is_transient e); cbn [negb andb].
        -- intros p' [= <-]. by eexists.
        -- eexists _, _. split; [done|]. split; [reflexivity|]. cbn [record_attempt p_attempts p_parked_at]. split_and!; try done.
           case_bool_decide; by eauto.
    + intros [= <- <-]. cbn [w_store w_tables set_store set_tables set_pending blobs manifests pending]. rewrite Hs.
      split_and!; try done; [intros h' Hne; by rewrite lookup_delete_ne|]. by rewrite lookup_delete_eq.
Qed.
End claims.

(** ** Instances of the theorems *)
#[local] Existing Instance pairs_chunker.
#[local] Existing Instance ascii_unicode.
Definition demo_requests : list request :=
  [upload [1; 2; 3; 4]%Z (lit "a"); upload [1; 2; 9]%Z (lit "b"); Collect 5 GC_ORPHAN_GRACE_SECS; Reclaim [1; 2]%Z].
(** The two uploads alternate, then the collector and the reclaimer run. *)
Definition demo_schedule : list event :=
  concat (replicate 6 [Go 0; Go 1]) ++ gos 0 3 ++ [Tick 5] ++ gos 0 20 ++ gos 0 20 ++ [Drop 0; Evict [1; 2]%Z].
Lemma files_stay_readable_witness :
  reads_as (St := LocalBlobBackend)
    (steps demo_schedule (empty_world, pool true 5 demo_requests)).1 [1; 2; 9]%Z [1; 2; 9]%Z.
Proof.
  destruct (@files_stay_readable pairs_chunker ascii_unicode LocalBlobBackend local_backend clean_laws clean_atomic
              true 5 empty_world demo_requests demo_schedule [1; 2; 9]%Z) as (b & Hb & Hr).
  - exact empty_world_inv.
  - vm_compute. reflexivity.
  - left. eexists 1%N, _. split; vm_compute; reflexivity.
  - split; vm_compute; constructor.
  - cbn in Hb. subst b. exact Hr.
Defined.
Lemma empty_ready k : @ready LocalBlobBackend local_backend clean_laws (room k) empty_world.
Proof. constructor; [constructor|split; constructor|constructor|]. split; intros h m Hm; cbn [empty_world w_tables blobs manifests] in Hm; by rewrite lookup_empty in Hm. Qed.
Lemma store_then_read_witness :
  exists d w', run (store_from_stream blake3 cdc false [Ok [1; 2; 3]%Z] None) empty_world = (Ok d, w')
    ∧ dedup_hash d = [1; 2; 3]%Z ∧ reads_as w' [1; 2; 3]%Z [1; 2; 3]%Z.
Proof.
  apply (@store_then_read pairs_chunker LocalBlobBackend local_backend clean_laws clean_atomic
           false [Ok [1; 2; 3]%Z] None [1; 2; 3]%Z empty_world).
  - exact empty_world_inv.
  - apply empty_ready.
  - reflexivity.
  - repeat constructor.
Defined.
(** The database fails at the registration of the chunks. *)
Definition failing_world : World LocalBlobBackend :=
  mkWorld (w_tables empty_world) (w_store empty_world) ∅ 0 [None; None; Some (O, lit "gone")] [].
Lemma stored_hash_is_content_witness :
  let r := run (store_from_stream blake3 cdc true [Ok [1; 2]%Z] None) failing_world in
  (exists e, r.1 = Err e) ∧ @Inv pairs_chunker LocalBlobBackend local_backend clean_laws r.2 [].
Proof.
  split; [vm_compute; by eexists|].
  apply (@stored_hash_is_content pairs_chunker LocalBlobBackend local_backend clean_laws clean_atomic true [Ok [1; 2]%Z] None
           failing_world (run (store_from_stream blake3 cdc true [Ok [1; 2]%Z] None) failing_world).1).
  - exact empty_world_inv.
  - apply surjective_pairing.
Defined.
Definition stored_world : World LocalBlobBackend :=
  (run (store_from_stream blake3 cdc true [Ok [1; 2; 3]%Z] None) empty_world).2.
Lemma known_chunks_not_rewritten_witness :
  w_store (run (store_from_stream blake3 cdc true [Ok [3; 1; 2]%Z] None) stored_world).2 ≠ w_store stored_world
  ∧ w_store (run (store_from_stream blake3 cdc true [Ok [1; 2; 1; 2; 3]%Z] None) stored_world).2 = w_store stored_world.
Proof.
  split; [intros Heq; by apply (f_equal (fun s => size (files s))) in Heq; vm_compute in Heq|].
  apply (@known_chunks_not_rewritten pairs_chunker LocalBlobBackend local_backend true
           [Ok [1; 2; 1; 2; 3]%Z] None [1; 2; 1; 2; 3]%Z stored_world
           (run (store_from_stream blake3 cdc true [Ok [1; 2; 1; 2; 3]%Z] None) stored_world).1).
  - reflexivity.
  - intros d Hd. change (d ∈ [[1; 2]; [1; 2]; [3]]%Z) in Hd. rewrite !elem_of_cons, elem_of_nil in Hd.
    destruct Hd as [->|[->|[->|[]]]]; vm_compute; by eexists.
  - apply surjective_pairing.
Defined.
Lemma range_parts_exact_witness :
  pieces [[1; 2]; [3; 4]; [5]]%Z (select_chunks 1 4 0 0 [2; 2; 1]%Z) = [2; 3; 4]%Z.
Proof. apply (range_parts_exact [[1; 2]; [3; 4]; [5]]%Z 1 (Some 4%Z)). done. Defined.
(** A file was recorded and deleted: the collector finds its manifest and its chunks. *)
Definition deleted_world : World LocalBlobBackend :=
  (steps (gos 0 7 ++ gos 0 3 ++ [Tick 5]) (empty_world, pool true 5 [upload [1; 2]%Z (lit "a"); DeletePermanently 0])).1.
Lemma collection_completes_witness :
  size (manifests (w_tables deleted_world)) = 1%nat
  ∧ run (garbage_collect_with_grace 2 1 0) deleted_world = run (garbage_collect_with_grace 9 9 0) deleted_world.
Proof.
  split; [vm_compute; reflexivity|].
  apply (@collection_completes LocalBlobBackend local_backend deleted_world 0 2 9 1 9); vm_compute; lia.
Defined.
Definition queued_world : World LocalBlobBackend :=
  (steps (gos 0 7 ++ gos 0 3 ++ [Tick 5] ++ gos 0 7 ++ [Tick 5] ++ gos 0 9)
     (empty_world, pool true 5 [upload [1; 2]%Z (lit "a"); DeletePermanently 0; Collect 5 0; Collect 5 0])).1.
Lemma reclaim_contract_witness :
  v_present (@bk_view _ _ clean_laws) (w_store queued_world) [1; 2]%Z = true
  ∧ v_present (@bk_view _ _ clean_laws) (w_store (run (settle_one [1; 2]%Z) queued_world).2) [1; 2]%Z = false.
Proof.
  split; [vm_compute; reflexivity|].
  assert (Hi : v_inv (@bk_view _ _ clean_laws) (w_store queued_world)) by (vm_compute; constructor).
  assert (Hx : (run (settle_one [1; 2]%Z) queued_world).1 = Reclaimed 2) by (vm_compute; reflexivity).
  generalize dependent queued_world. intros w Hi Hx.
  pose proof (@reclaim_contract LocalBlobBackend local_backend clean_laws [1; 2]%Z w (Reclaimed 2)
           (run (settle_one [1; 2]%Z) w).2 Hi) as Hc. rewrite <- Hx in Hc at 1.
  destruct Hc as (_ & _ & _ & _ & Hp & _); [apply surjective_pairing|]. exact Hp.
Defined.

(** ** Schedules the code does not exclude *)

(** A collection between the end of a store and the recording of its file deletes the manifest
    that was just written, although its counter is one: the first phase looks only for rows that
    refer to it and has no grace period.  The upload succeeds and the file cannot be read. *)
Theorem collector_takes_fresh_manifest :
  let s := steps (gos 0 7 ++ gos 1 20 ++ gos 0 20)
             (empty_world, pool true 5 [upload [1; 2; 3; 4]%Z (lit "a"); Collect 5 GC_ORPHAN_GRACE_SECS]) in
  length s.2 = 0%nat
  ∧ (f_blob <$> file_rows (w_tables s.1) !! 0%N) = Some [1; 2; 3; 4]%Z
  ∧ manifests (w_tables s.1) !! [1; 2; 3; 4]%Z = None
  ∧ (exists e, (run (read_blob_stream [1; 2; 3; 4]%Z) s.1).1 = Err e).
Proof. vm_compute. split_and!; try reflexivity. by eexists. Qed.

(** A chunk that an upload has written and not yet registered is not protected.  Another upload
    of it registers it; when that file is deleted, the grace period passes and the collector and
    the reclaimer run before the first upload registers its chunks, the object is unlinked, and the
    first upload then records a file one of whose chunks is missing. *)
Theorem long_upload_loses_chunk :
  let s := steps (gos 0 4 ++ gos 1 7 ++ gos 1 3 ++ [Tick 5] ++ gos 1 7 ++ [Tick 3601] ++ gos 1 30 ++ gos 0 20)
             (empty_world, pool true 5 [upload [1; 2; 3; 4]%Z (lit "a"); upload [1; 2]%Z (lit "b"); DeletePermanently 0;
                Collect 5 GC_ORPHAN_GRACE_SECS; Collect 5 GC_ORPHAN_GRACE_SECS; Reclaim [1; 2]%Z]) in
  length s.2 = 0%nat
  ∧ (f_blob <$> file_rows (w_tables s.1) !! 0%N) = Some [1; 2; 3; 4]%Z
  ∧ is_Some (blobs (w_tables s.1) !! [1; 2]%Z) ∧ files (w_store s.1) !! [1; 2]%Z = None
  ∧ (exists r e, (run (read_blob_stream [1; 2; 3; 4]%Z) s.1).1 = Ok r ∧ stream_bytes r = Err e).
Proof. vm_compute. split_and!; try reflexivity; [by eexists|]. eexists _, _. split; reflexivity. Qed.

(** A loose chunk is put without cancelling a queued deletion of it.  The write is skipped
    because the object is still there, the reclaimer unlinks it, and the row registered then has
    no bytes; a later upload adopts the row and its file cannot be read. *)
Theorem loose_chunk_without_bytes :
  let s := steps (gos 0 1 ++ gos 1 1 ++ gos 0 10 ++ gos 0 20)
             (queued_world, start (ignore (store_loose_chunks blake3 [Ok [1; 2]%Z]))
                            :: pool true 5 [Reclaim [1; 2]%Z; upload [1; 2]%Z (lit "c")]) in
  length s.2 = 0%nat
  ∧ (f_blob <$> file_rows (w_tables s.1) !! 0%N) = Some [1; 2]%Z
  ∧ is_Some (blobs (w_tables s.1) !! [1; 2]%Z) ∧ files (w_store s.1) !! [1; 2]%Z = None
  ∧ (exists r e, (run (read_blob_stream [1; 2]%Z) s.1).1 = Ok r ∧ stream_bytes r = Err e).
Proof. vm_compute. split_and!; try reflexivity; [by eexists|]. eexists _, _. split; reflexivity. Qed.

(** Two concurrent replacements of one attached blob release the replaced blob twice.  Both
    read the same previous hash; when another file has the same content, its manifest is deleted
    and that file cannot be read any more. *)
Theorem racing_attachments_release_twice :
  let attach b := start (ignore (store_attached_blob blake3 cdc true 5 0 (lit "preview") (lit "icon") (lit "image/webp") b)) in
  let s1 := steps (gos 0 7 ++ gos 0 8 ++ gos 0 20)
              (empty_world, pool true 5 [upload [1; 2]%Z (lit "a"); upload [7; 8; 9]%Z (lit "b")] ++ [attach [7; 8; 9]%Z]) in
  let s2 := steps (gos 0 7 ++ gos 1 7 ++ gos 0 20 ++ gos 0 20) (s1.1, [attach [5; 6]%Z; attach [9; 9]%Z]) in
  length s1.2 = 0%nat ∧ length s2.2 = 0%nat
  ∧ (m_ref_count <$> manifests (w_tables s1.1) !! [7; 8; 9]%Z) = Some 2%Z
  ∧ (f_blob <$> file_rows (w_tables s2.1) !! 1%N) = Some [7; 8; 9]%Z
  ∧ manifests (w_tables s2.1) !! [7; 8; 9]%Z = None
  ∧ (exists e, (run (read_blob_stream [7; 8; 9]%Z) s2.1).1 = Err e).
Proof. vm_compute. split_and!; try reflexivity. by eexists. Qed.
