(* ===== verification/JobStore.v ===== *)
(** * Runs of jobs

    The value types of runs with their stored texts, the table of runs, and the driver that
    opens a run, hands it to its handler and records its end. *)

From S2P Require Import Prelude.
From S2P Require Import RustStr.
From S2P Require Import DomainErrors.

#[local] Arguments lit : simpl never.

(** * Jobs: statuses, parameters and arguments

    [src/src/infrastructure/scheduler/types.rs] and the value types of
    [src/src/infrastructure/scheduler/recoverable.rs]: the statuses of a run and their stored
    names, the outcome a handler reports, the parameters a job declares and the arguments it is
    run with.  Arguments survive in the run's row as text; the round trip is proved here. *)

(** ** Statuses *)
Inductive RunStatus := Running | Paused | CancelRequested | Completed | Failed | Cancelled.
#[global] Instance RunStatus_eq_dec : EqDecision RunStatus. Proof. solve_decision. Defined.
Module RunStatus.
Definition as_str (s : RunStatus) : str :=
  match s with
  | Running => lit "Running"
  | Paused => lit "Paused"
  | CancelRequested => lit "CancelRequested"
  | Completed => lit "Completed"
  | Failed => lit "Failed"
  | Cancelled => lit "Cancelled"
  end.
Definition parse (s : str) : option RunStatus :=
  if decide (s = lit "Running") then Some Running
  else if decide (s = lit "Paused") then Some Paused
  else if decide (s = lit "CancelRequested") then Some CancelRequested
  else if decide (s = lit "Completed") then Some Completed
  else if decide (s = lit "Failed") then Some Failed
  else if decide (s = lit "Cancelled") then Some Cancelled
  else None.
Definition is_non_terminal (s : RunStatus) : bool :=
  match s with Running | Paused | CancelRequested => true | _ => false end.
Lemma parse_as_str s : parse (as_str s) = Some s.
Proof. by destruct s; vm_compute. Qed.
Lemma as_str_inj s s' : as_str s = as_str s' -> s = s'.
Proof. intros Hs. pose proof (parse_as_str s) as H1. rewrite Hs, parse_as_str in H1. by injection H1. Qed.
End RunStatus.

(** ** Outcomes *)
Inductive RunOutcome :=
| RCompleted (extra_stats : gmap str Z)
| RPaused (cursor : bytes)
| RPausedRetryable (cursor : bytes) (reason detail : str)
| RFailed (message : str).
Definition from_domain_error (cursor : option bytes) (context : str) (err : DomainError) : RunOutcome :=
  let text := context ++ lit ": " ++ DomainError.to_string err in
  if DomainError.is_transient err then
    RPausedRetryable (default [] cursor)
      (match kind err with Timeout => lit "backend_timeout" | _ => lit "backend_unavailable" end) text
  else RFailed text.
Definition CANCEL_INTENT_PARAM : str := lit "cancel_intent".
Definition CANCEL_INTENT_TERMINATE : str := lit "terminate".
Definition UNATTENDED_RESUME_PARAM : str := lit "unattended_resume".
Definition FAILED_REASON : str := lit "job_failed".

(** ** Parameters *)
Inductive JobParamType := TBoolean | TString | TNumber.
Inductive JobParamDefault := DBoolean (b : bool) | DNumber (n : Z) | DStr (s : str) | DAbsent.
Inductive JobParamValue := VBoolean (b : bool) | VString (s : option str) | VNumber (n : Z).
#[global] Instance JobParamValue_eq_dec : EqDecision JobParamValue. Proof. solve_decision. Defined.
Definition to_value (d : JobParamDefault) : JobParamValue :=
  match d with
  | DBoolean b => VBoolean b
  | DNumber n => VNumber n
  | DStr s => VString (Some s)
  | DAbsent => VString None
  end.
(** [{}] of an [i64]. *)
Definition dec_i64 (n : Z) : str := if (n <? 0)%Z then 45%Z :: dec (- n) else dec n.
Definition bool_text (b : bool) : str := if b then lit "true" else lit "false".
Definition to_param_string (v : JobParamValue) : option str :=
  match v with
  | VBoolean b => Some (bool_text b)
  | VNumber n => Some (dec_i64 n)
  | VString s => s
  end.
Record JobParam := mkParam {
  p_name : str;
  param_type : JobParamType;
  p_default : JobParamDefault;
  allowed : list str;
}.
Definition quoted (s : str) : str := lit "'" ++ s ++ lit "'".
Definition comma : str := lit ", ".
Fixpoint join_comma (l : list str) : str :=
  match l with [] => [] | [x] => x | x :: rest => x ++ comma ++ join_comma rest end.
Definition parse_value (p : JobParam) (raw : str) : result str JobParamValue :=
  match param_type p with
  | TBoolean =>
      if decide (raw = lit "true") then Ok (VBoolean true)
      else if decide (raw = lit "false") then Ok (VBoolean false)
      else Err (quoted raw ++ lit " is not a boolean for parameter " ++ quoted (p_name p) ++ lit " (use true or false)")
  | TString =>
      match allowed p with
      | [] => Ok (VString (Some raw))
      | _ =>
          if decide (raw ∈ allowed p) then Ok (VString (Some raw))
          else Err (quoted raw ++ lit " is not a valid value for parameter " ++ quoted (p_name p)
                    ++ lit " (expected one of: " ++ join_comma (allowed p) ++ lit ")")
      end
  | TNumber =>
      match parse_i64 raw with
      | Some n => Ok (VNumber n)
      | None => Err (quoted raw ++ lit " is not a number for parameter " ++ quoted (p_name p))
      end
  end.

(** ** Arguments *)
Record JobRunArgs := mkArgs { values : gmap str JobParamValue; unattended : bool }.
Definition new_args (values : gmap str JobParamValue) : JobRunArgs := mkArgs values false.
Definition set_unattended (a : JobRunArgs) : JobRunArgs := mkArgs (values a) true.
Definition get_bool (a : JobRunArgs) (name : str) : bool :=
  match values a !! name with Some (VBoolean b) => b | _ => false end.
Definition get_str (a : JobRunArgs) (name : str) : option str :=
  match values a !! name with Some (VString (Some (c :: s))) => Some (c :: s) | _ => None end.
Definition get_number (a : JobRunArgs) (name : str) (fallback : Z) : Z :=
  match values a !! name with Some (VNumber n) => n | _ => fallback end.
Definition value_or_default (a : JobRunArgs) (p : JobParam) : JobParamValue :=
  default (to_value (p_default p)) (values a !! p_name p).
Definition normalized_for (a : JobRunArgs) (declared : list JobParam) : JobRunArgs :=
  mkArgs (foldl (fun m p => <[p_name p := value_or_default a p]> m) ∅ declared) (unattended a).
Fixpoint apply_raw (declared : list JobParam) (raw : list (str * str)) (m : gmap str JobParamValue)
  : result str (gmap str JobParamValue) :=
  match raw with
  | [] => Ok m
  | (key, v) :: rest =>
      match find (fun p => bool_decide (p_name p = key)) declared with
      | None =>
          Err (lit "unknown parameter " ++ quoted key ++
               match declared with
               | [] => lit ": this job accepts none"
               | _ => lit " (accepted: " ++ join_comma (p_name <$> declared) ++ lit ")"
               end)
      | Some p => x ← parse_value p v; apply_raw declared rest (<[p_name p := x]> m)
      end
  end.
Definition from_declared (declared : list JobParam) (raw : list (str * str)) : result str JobRunArgs :=
  m ← apply_raw declared raw (foldl (fun m p => <[p_name p := to_value (p_default p)]> m) ∅ declared);
  Ok (new_args m).

(** ** The round trip through text *)
Lemma parse_i64_dec n : in_i64 n -> parse_i64 (dec_i64 n) = Some n.
Proof.
  unfold in_i64, dec_i64, parse_i64, i64_min, i64_max. intros Hn. destruct (Z.ltb_spec n 0).
  - rewrite parse_digits_dec by lia. cbn [mbind option_bind]. rewrite Z.opp_involutive.
    by destruct (Z.leb_spec (-9223372036854775808) n); [|lia].
  - assert (Hp : parse_unsigned 9223372036854775807 (dec n) = Some n) by (apply parse_unsigned_dec; lia).
    destruct (dec n) as [|b s] eqn:E; [done|]. pose proof (dec_head_digit n b s ltac:(lia) E) as Hd.
    destruct (decide (b = 45%Z)) as [->|Hne]; [done|].
    destruct b as [|b|b]; try done. repeat (destruct b as [b|b|]; try done).
Qed.
(** What [from_declared] and the defaults of a registered job produce. *)
Definition typed (p : JobParam) (v : JobParamValue) : Prop :=
  match v, param_type p with
  | VBoolean _, TBoolean => True
  | VNumber n, TNumber => in_i64 n
  | VString (Some s), TString => allowed p = [] ∨ s ∈ allowed p
  | VString None, TString => p_default p = DAbsent
  | _, _ => False
  end.
Lemma parse_value_typed p raw v : parse_value p raw = Ok v -> typed p v.
Proof.
  unfold parse_value, typed. destruct (param_type p).
  - repeat case_decide; intros [= <-]; done.
  - destruct (allowed p) as [|a l]; [intros [= <-]; by left|]. case_decide; intros [= <-]. by right.
  - destruct (parse_i64 raw) as [n|] eqn:E; intros [= <-]. unfold parse_i64, in_i64, i64_min, i64_max in *.
    destruct raw as [|b raw]; [done|]. destruct (decide (b = 45%Z)) as [->|Hne].
    + destruct (parse_digits raw) as [m|] eqn:Ed; [|done]. cbn in E. destruct (Z.leb_spec (-9223372036854775808) (- m)); [|done].
      injection E as <-. apply parse_digits_nonneg in Ed. lia.
    + assert (Hu : parse_unsigned 9223372036854775807 (b :: raw) = Some n).
      { destruct b as [|b|b]; try done. repeat (destruct b as [b|b|]; try done). }
      apply parse_unsigned_nonneg in Hu. lia.
Qed.
(** Storing a value and reading it back as the parameter it was given for. *)
Definition reread (p : JobParam) (stored : option str) : JobParamValue :=
  match stored with
  | Some raw => match parse_value p raw with Ok v => v | Err _ => to_value (p_default p) end
  | None => to_value (p_default p)
  end.
Lemma reread_typed p v : typed p v -> reread p (to_param_string v) = v.
Proof.
  unfold reread, typed, parse_value, to_param_string. destruct v as [b|[s|]|n], (param_type p); intros Hv; try done.
  - by destruct b.
  - destruct (allowed p) as [|a l]; [done|]. rewrite decide_True; [done|]. by destruct Hv.
  - by rewrite Hv.
  - by rewrite parse_i64_dec.
Qed.

(** * Recoverable runs

    The table [jobs.recoverable_runs] with the statements of
    [src/src/infrastructure/scheduler/pg_job_store.rs], and the driver of
    [src/src/infrastructure/scheduler/recoverable.rs] that opens a run, binds it to its
    arguments, hands it to the handler and records how it ended.

    The jobs themselves are other code: a handler is a tree of calls of its [JobStore], each with
    a continuation for every answer.  Before each statement of the driver the statements of
    other requests take effect, as a script says, then the statement may fail, as a second
    script says.  [stats] keeps its counters, and [params] the texts that [->>] gives; the times
    are those of [NOW()].  A log that the code does not have records every dispatch of a handler.
    Alerts, listings and the severity breakdown of an outcome are left out. *)

(** ** The table *)
Record Run := mkRun {
  r_job : str;
  r_status : str;
  r_started : Z;
  r_progress : Z;
  r_completed : option Z;
  r_cursor : option bytes;
  r_stats : gmap str Z;
  r_params : gmap str str;
  r_error_reason : option str;
  r_error_message : option str;
}.
Definition is_status (s : RunStatus) (r : Run) : bool := bool_decide (r_status r = RunStatus.as_str s).
(** [status IN ('Running', 'Paused', 'CancelRequested')] *)
Definition active (r : Run) : bool := is_status Running r || is_status Paused r || is_status CancelRequested r.

Inductive Stmt :=
| WInsert (id : Uuid) (job : str)
| WResume (id : Uuid)
| WCheckpoint (id : Uuid) (cursor : bytes) (delta : Z)
| WFinding (id : Uuid) (kind severity : str)
| WSeed (id : Uuid) (total : Z) (kind : str)
| WSetParam (id : Uuid) (key value : str)
| WMerge (id : Uuid) (extras : gmap str Z)
| WCompleted (id : Uuid)
| WPaused (id : Uuid) (cursor : option bytes)
| WRetryable (id : Uuid) (cursor : option bytes) (reason detail : str)
| WFailed (id : Uuid) (message : str)
| WCancelled (id : Uuid) (cursor : option bytes)
| WSweep
| WPurge (days : Z)
| WSoftCancel (job : str)
| WTermPaused (id : Uuid)
| WTermActive (id : Uuid).
(** What others do: time passes, an operator or the server's own upkeep issues a statement, or
    the driver of a job does. *)
Inductive Act := Tick (dt : N) | Admin (s : Stmt) | Other (job : str) (s : Stmt).

Record Dispatch := mkDispatch { d_run : Uuid; d_unattended : bool; d_fresh : bool; d_args : JobRunArgs }.
Record Jobs := mkJobs {
  runs : gmap Uuid Run;
  findings : list (Uuid * str * str);
  now : Z;
  (** what [Uuid::new_v4] returns next *)
  fresh : Uuid;
  (** of the next statements: the error, if they fail *)
  faults : list (option str);
  (** what others do before each of the next statements *)
  meanwhile : list (list Act);
  (** every handler that was started *)
  dispatched : list Dispatch;
}.
Definition set_runs (m : gmap Uuid Run) (j : Jobs) : Jobs :=
  mkJobs m (findings j) (now j) (fresh j) (faults j) (meanwhile j) (dispatched j).
Definition set_findings (l : list (Uuid * str * str)) (j : Jobs) : Jobs :=
  mkJobs (runs j) l (now j) (fresh j) (faults j) (meanwhile j) (dispatched j).

(** ** Statements *)
Definition with_status (s : RunStatus) (r : Run) : Run :=
  mkRun (r_job r) (RunStatus.as_str s) (r_started r) (r_progress r) (r_completed r) (r_cursor r) (r_stats r)
        (r_params r) (r_error_reason r) (r_error_message r).
Definition with_progress (t : Z) (r : Run) : Run :=
  mkRun (r_job r) (r_status r) (r_started r) t (r_completed r) (r_cursor r) (r_stats r)
        (r_params r) (r_error_reason r) (r_error_message r).
Definition with_completed (t : Z) (r : Run) : Run :=
  mkRun (r_job r) (r_status r) (r_started r) (r_progress r) (Some t) (r_cursor r) (r_stats r)
        (r_params r) (r_error_reason r) (r_error_message r).
Definition with_cursor (c : bytes) (r : Run) : Run :=
  mkRun (r_job r) (r_status r) (r_started r) (r_progress r) (r_completed r) (Some c) (r_stats r)
        (r_params r) (r_error_reason r) (r_error_message r).
Definition with_stats (s : gmap str Z) (r : Run) : Run :=
  mkRun (r_job r) (r_status r) (r_started r) (r_progress r) (r_completed r) (r_cursor r) s
        (r_params r) (r_error_reason r) (r_error_message r).
Definition with_param (k v : str) (r : Run) : Run :=
  mkRun (r_job r) (r_status r) (r_started r) (r_progress r) (r_completed r) (r_cursor r) (r_stats r)
        (<[k := v]> (r_params r)) (r_error_reason r) (r_error_message r).
Definition with_error (reason message : option str) (r : Run) : Run :=
  mkRun (r_job r) (r_status r) (r_started r) (r_progress r) (r_completed r) (r_cursor r) (r_stats r)
        (r_params r) reason message.
Definition move_cursor (c : option bytes) (r : Run) : Run := match c with Some c => with_cursor c r | None => r end.

(** The index [one_active_run_per_job]: another active run of the same job. *)
Definition conflicts (m : gmap Uuid Run) (id : Uuid) (r : Run) : bool :=
  active r && existsb (fun x : Uuid * Run => negb (bool_decide (x.1 = id)) && bool_decide (r_job x.2 = r_job r) && active x.2) (map_to_list m).
Definition in_quotes (s : str) : str := 34%Z :: s ++ [34%Z].
Definition unique_violation : str :=
  lit "error returned from database: duplicate key value violates unique constraint " ++ in_quotes (lit "one_active_run_per_job").
Definition bigint_overflow : str := lit "error returned from database: bigint out of range".
Definition bump (key : str) (delta : Z) (r : Run) : option Run :=
  let n := (default 0%Z (r_stats r !! key) + delta)%Z in
  if bool_decide (in_i64 n) then Some (with_stats (<[key := n]> (r_stats r)) r) else None.
(** [UPDATE .. WHERE id = $1]: how many rows changed. *)
Definition update_run (id : Uuid) (f : Run -> result str Run) (j : Jobs) : result str N * Jobs :=
  match runs j !! id with
  | None => (Ok 0%N, j)
  | Some r =>
      match f r with
      | Err e => (Err e, j)
      | Ok r' => if conflicts (runs j) id r' then (Err unique_violation, j) else (Ok 1%N, set_runs (<[id := r']> (runs j)) j)
      end
  end.
Definition latest (p : Run -> bool) (j : Jobs) : option (Uuid * Run) :=
  foldr (fun x best => match best with
                       | Some b => if (r_started b.2 <? r_started x.2)%Z then Some x else best
                       | None => Some x
                       end) None
        (filter (fun x : Uuid * Run => p x.2 = true) (map_to_list (runs j))).
Definition DAY : Z := 86400.
(** [completed_at < NOW() - '<days> days'], in seconds *)
Definition purgeable (j : Jobs) (days : Z) (r : Run) : bool :=
  (is_status Completed r || is_status Failed r)
  && match r_completed r with Some t => (t <? now j - Z.max days 1 * DAY)%Z | None => false end.

Definition exec (s : Stmt) (j : Jobs) : result str N * Jobs :=
  let t := now j in
  match s with
  | WInsert id job =>
      let r := mkRun job (RunStatus.as_str Running) t t None None ∅ ∅ None None in
      if conflicts (runs j) id r then (Ok 0%N, j)
      else match runs j !! id with
           | Some _ => (Err (lit "error returned from database: duplicate key value violates unique constraint " ++ in_quotes (lit "recoverable_runs_pkey")), j)
           | None => (Ok 1%N, set_runs (<[id := r]> (runs j)) j)
           end
  | WResume id => update_run id (fun r => Ok (with_progress t (with_error None None (with_status Running r)))) j
  | WCheckpoint id cursor delta =>
      update_run id (fun r => match bump (lit "scanned_count") delta (with_cursor cursor r) with
                              | Some r => Ok (with_progress t r)
                              | None => Err bigint_overflow
                              end) j
  | WFinding id kind severity =>
      match runs j !! id with
      | None => (Err (lit "error returned from database: insert or update on table " ++ in_quotes (lit "run_findings") ++ lit " violates foreign key constraint"), j)
      | Some _ =>
          match update_run id (fun r => match bump (lit "finding_count") 1 r with Some r => Ok r | None => Err bigint_overflow end) j with
          | (Ok n, j') => (Ok n, set_findings (findings j' ++ [(id, kind, severity)]) j')
          | (Err e, _) => (Err e, j)
          end
      end
  | WSeed id total kind =>
      update_run id (fun r => Ok (with_param (lit "progress_kind") kind (with_param (lit "total_rows") (dec_i64 total) r))) j
  | WSetParam id key value => update_run id (fun r => Ok (with_param key value r)) j
  | WMerge id extras => update_run id (fun r => Ok (with_progress t (with_stats (extras ∪ r_stats r) r))) j
  | WCompleted id =>
      update_run id (fun r => Ok (with_error None None (with_progress t (with_completed t (with_status Completed r))))) j
  | WPaused id cursor => update_run id (fun r => Ok (with_progress t (move_cursor cursor (with_status Paused r)))) j
  | WRetryable id cursor reason detail =>
      update_run id (fun r => Ok (with_progress t (with_error (Some reason) (Some detail) (move_cursor cursor (with_status Paused r))))) j
  | WFailed id message =>
      update_run id (fun r => Ok (with_error (Some FAILED_REASON) (Some message) (with_progress t (with_completed t (with_status Failed r))))) j
  | WCancelled id cursor =>
      update_run id (fun r => Ok (with_progress t (with_completed t (move_cursor cursor (with_status Cancelled r))))) j
  | WSweep =>
      (Ok (N.of_nat (length (filter (fun x : Uuid * Run => is_status Running x.2 || is_status CancelRequested x.2 = true) (map_to_list (runs j))))),
       set_runs ((fun r => if is_status Running r || is_status CancelRequested r
                           then with_error (Some (default (lit "server_restart") (r_error_reason r)))
                                  (Some (default (lit "server restart mid-run") (r_error_message r))) (with_status Paused r)
                           else r) <$> runs j) j)
  | WPurge days =>
      let gone := filter (fun x : Uuid * Run => purgeable j days x.2 = true) (runs j) in
      (Ok (N.of_nat (size gone)),
       set_findings (filter (fun f : Uuid * str * str => gone !! f.1.1 = None) (findings j)) (set_runs (runs j ∖ gone) j))
  | WSoftCancel job =>
      match latest (fun r => bool_decide (r_job r = job) && is_status Running r) j with
      | None => (Ok 0%N, j)
      | Some (id, _) => update_run id (fun r => Ok (with_progress t (with_status CancelRequested r))) j
      end
  | WTermPaused id =>
      match runs j !! id with
      | Some r => if is_status Paused r then update_run id (fun r => Ok (with_progress t (with_completed t (with_status Cancelled r)))) j
                  else (Ok 0%N, j)
      | None => (Ok 0%N, j)
      end
  | WTermActive id =>
      update_run id (fun r => Ok (with_progress t (with_param CANCEL_INTENT_PARAM CANCEL_INTENT_TERMINATE (with_status CancelRequested r)))) j
  end.
Definition is_admin (s : Stmt) : bool :=
  match s with WSweep | WPurge _ | WSoftCancel _ | WTermPaused _ | WTermActive _ => true | _ => false end.
(** The run a driver's statement is about belongs to its job, and a new one gets an identifier
    that was drawn before. *)
Definition of_job (job : str) (s : Stmt) (j : Jobs) : bool :=
  match s with
  | WInsert id name => bool_decide (name = job) && (id <? fresh j)%N
  | WResume id | WCheckpoint id _ _ | WFinding id _ _ | WSeed id _ _ | WSetParam id _ _ | WMerge id _ | WCompleted id
  | WPaused id _ | WRetryable id _ _ _ | WFailed id _ | WCancelled id _ =>
      match runs j !! id with Some r => bool_decide (r_job r = job) | None => false end
  | WSweep | WPurge _ | WSoftCancel _ | WTermPaused _ | WTermActive _ => false
  end.
Definition act (a : Act) (j : Jobs) : Jobs :=
  match a with
  | Tick dt => mkJobs (runs j) (findings j) (now j + Z.of_N dt) (fresh j) (faults j) (meanwhile j) (dispatched j)
  | Admin s => if is_admin s then (exec s j).2 else j
  | Other job s => if of_job job s j then (exec s j).2 else j
  end.
Definition acts (l : list Act) (j : Jobs) : Jobs := foldl (fun j a => act a j) j l.

(** ** The store and its provider *)
Section store.
Context `{UuidText}.
Definition JM (T : Type) : Type := M Jobs DomainError T.
Definition store_error (text : str) : DomainError := DomainError.internal_error (lit "JobStore") text.
Definition interfere (j : Jobs) : Jobs :=
  acts (default [] (head (meanwhile j))) (mkJobs (runs j) (findings j) (now j) (fresh j) (faults j) (tail (meanwhile j)) (dispatched j)).
(** One round trip to the database. *)
Definition query {T} (op : str) (q : Jobs -> result str T * Jobs) : JM T := fun j =>
  let j := interfere j in
  let j' := mkJobs (runs j) (findings j) (now j) (fresh j) (tail (faults j)) (meanwhile j) (dispatched j) in
  match default None (head (faults j)) with
  | Some text => (Err (store_error (op ++ lit ": " ++ text)), j')
  | None => match q j' with
            | (Ok v, j'') => (Ok v, j'')
            | (Err e, j'') => (Err (store_error (op ++ lit ": " ++ e)), j'')
            end
  end.
Definition execute (op : str) (s : Stmt) : JM N := query op (exec s).
Definition fetch {T} (op : str) (f : Jobs -> T) : JM T := query op (fun j => (Ok (f j), j)).

Definition status (id : Uuid) : JM RunStatus :=
  row ← fetch (lit "status") (fun j => r_status <$> runs j !! id);
  match row with
  | None => raise (store_error (lit "run vanished: " ++ uuid_to_string id))
  | Some raw => match RunStatus.parse raw with
                | Some s => mret s
                | None => raise (store_error (lit "unknown status value: " ++ raw))
                end
  end.
(** [n as i64] for a [u64]. *)
Definition as_i64 (n : Z) : Z := if (n <=? i64_max)%Z then n else (n - 2 ^ 64)%Z.
Definition checkpoint (id : Uuid) (cursor : bytes) (delta : Z) : JM unit := _ ← execute (lit "checkpoint") (WCheckpoint id cursor (as_i64 delta)); mret tt.
Definition record_finding (id : Uuid) (kind severity : str) : JM unit := _ ← execute (lit "record_finding") (WFinding id kind severity); mret tt.
Definition seed_progress_params (id : Uuid) (total : Z) (kind : str) : JM unit :=
  _ ← execute (lit "seed_progress_params") (WSeed id (as_i64 total) kind); mret tt.
Definition set_string_param (id : Uuid) (key value : str) : JM unit := _ ← execute (lit "set_string_param") (WSetParam id key value); mret tt.
Definition get_string_param (id : Uuid) (key : str) : JM (option str) :=
  fetch (lit "get_string_param") (fun j => r ← runs j !! id; r_params r !! key).
Definition stat_u64 (id : Uuid) (key : str) : JM Z :=
  fetch (lit "stat_u64") (fun j => Z.max 0 (default 0%Z (r ← runs j !! id; r_stats r !! key))).
Definition merge_stats (id : Uuid) (extras : gmap str Z) : JM unit :=
  if decide (extras = ∅) then mret tt else _ ← execute (lit "merge_stats") (WMerge id extras); mret tt.

Inductive OpenedRun :=
| Fresh (id : Uuid)
| Resumed (id : Uuid) (cursor : bytes)
| AlreadyActive (id : Uuid) (s : RunStatus)
| DeclinedUnattended (id : Uuid).
(** [None]: the insertion lost against another one. *)
Definition try_open_or_start (job : str) (no_human : bool) : JM (option OpenedRun) :=
  existing ← fetch (lit "open_or_start.select") (latest (fun r => bool_decide (r_job r = job) && active r));
  match existing with
  | Some (id, row) =>
      match RunStatus.parse (r_status row) with
      | None => raise (store_error (lit "unknown status: " ++ r_status row))
      | Some Running => mret (Some (AlreadyActive id Running))
      | Some CancelRequested => mret (Some (AlreadyActive id CancelRequested))
      | Some Paused =>
          if no_human && negb (bool_decide (r_params row !! UNATTENDED_RESUME_PARAM = Some (lit "true")))
          then mret (Some (DeclinedUnattended id))
          else
            back ← query (lit "open_or_start.resume") (fun j =>
              match exec (WResume id) j with
              | (Ok _, j') => (Ok (r_cursor <$> runs j' !! id), j')
              | (Err e, j') => (Err e, j')
              end);
            match back with
            | Some cursor => mret (Some (Resumed id (default [] cursor)))
            | None => raise (store_error (lit "run vanished during resume: " ++ uuid_to_string id))
            end
      | Some s => raise (store_error (lit "terminal status leaked into open_or_start: " ++ RunStatus.as_str s))
      end
  | None =>
      id ← gets fresh;
      _ ← modify (fun j => mkJobs (runs j) (findings j) (now j) (N.succ (fresh j)) (faults j) (meanwhile j) (dispatched j));
      n ← execute (lit "open_or_start.insert") (WInsert id job);
      mret (if (n =? 1)%N then Some (Fresh id) else None)
  end.
Definition open_or_start (job : str) (no_human : bool) : JM OpenedRun :=
  first ← try_open_or_start job no_human;
  match first with
  | Some o => mret o
  | None =>
      second ← try_open_or_start job no_human;
      match second with
      | Some o => mret o
      | None => raise (store_error (lit "open_or_start(" ++ job ++ lit "): retry budget exhausted"))
      end
  end.
Definition boot_recovery_sweep : JM N := execute (lit "boot_recovery_sweep") WSweep.
Definition purge_terminal_runs (days : Z) : JM N := execute (lit "purge_terminal_runs") (WPurge days).
Definition request_cancel (job : str) : JM (option Uuid) :=
  query (lit "request_cancel") (fun j =>
    match exec (WSoftCancel job) j with
    | (Ok _, j') => (Ok (fst <$> latest (fun r => bool_decide (r_job r = job) && is_status Running r) j), j')
    | (Err e, j') => (Err e, j')
    end).
Definition request_terminal_cancel (job : str) : JM (option Uuid) :=
  row ← fetch (lit "request_terminal_cancel.select") (latest (fun r => bool_decide (r_job r = job) && active r));
  match row with
  | None => mret None
  | Some (id, r) =>
      if is_status Paused r then
        _ ← execute (lit "request_terminal_cancel.paused_flip") (WTermPaused id); mret (Some id)
      else
        _ ← execute (lit "request_terminal_cancel.running_flip") (WTermActive id); mret (Some id)
  end.

(** ** Handlers *)
Inductive Handler :=
| HDone (o : RunOutcome)
| HPanic
| HStatus (k : result DomainError RunStatus -> Handler)
| HCheckpoint (cursor : bytes) (delta : Z) (k : result DomainError unit -> Handler)
| HFinding (kind severity : str) (k : result DomainError unit -> Handler)
| HSetParam (key value : str) (k : result DomainError unit -> Handler)
| HGetParam (key : str) (k : result DomainError (option str) -> Handler)
| HStat (key : str) (k : result DomainError Z -> Handler)
| HMerge (extras : gmap str Z) (k : result DomainError unit -> Handler).
(** [None] when it panics. *)
Fixpoint run_handler (id : Uuid) (h : Handler) : JM (option RunOutcome) :=
  match h with
  | HDone o => mret (Some o)
  | HPanic => mret None
  | HStatus k => r ← attempt (status id); run_handler id (k r)
  | HCheckpoint cursor delta k => r ← attempt (checkpoint id cursor delta); run_handler id (k r)
  | HFinding kind severity k => r ← attempt (record_finding id kind severity); run_handler id (k r)
  | HSetParam key value k => r ← attempt (set_string_param id key value); run_handler id (k r)
  | HGetParam key k => r ← attempt (get_string_param id key); run_handler id (k r)
  | HStat key k => r ← attempt (stat_u64 id key); run_handler id (k r)
  | HMerge extras k => r ← attempt (merge_stats id extras); run_handler id (k r)
  end.
Record RecoverableJob := mkJob {
  j_name : str;
  parameters : list JobParam;
  unattended_resume_allowed : JobRunArgs -> bool;
  count_total : option (Z * str);
  run_resumable : JobRunArgs -> option bytes -> Handler;
}.
(** The default of the trait. *)
Definition default_unattended_resume_allowed (a : JobRunArgs) : bool :=
  negb (get_bool a (lit "repair")) && negb (get_bool a (lit "deep")).

(** ** The driver *)
Inductive JobOutcome :=
| JSkipped (id : Uuid) (s : RunStatus)
| JDeclined (id : Uuid)
| JCompleted (id : Uuid) (finding_count scanned_count : Z) (extra_stats : gmap str Z)
| JCancelled (id : Uuid) (cursor : bytes) (finding_count scanned_count : Z)
| JPaused (id : Uuid) (cursor : bytes) (finding_count scanned_count : Z)
| JRetryable (id : Uuid) (cursor : bytes) (reason detail : str) (finding_count scanned_count : Z)
| JErr (message : str)
| JPanicked.
Fixpoint persist_args (id : Uuid) (declared : list JobParam) (a : JobRunArgs) (m : gmap str JobParamValue) : JM (result str JobRunArgs) :=
  match declared with
  | [] => mret (Ok (new_args m))
  | p :: rest =>
      let v := value_or_default a p in
      stored ← (match to_param_string v with Some s => attempt (set_string_param id (p_name p) s) | None => mret (Ok tt) end);
      match stored with
      | Err e => mret (Err (lit "persist `" ++ p_name p ++ lit "` to params: " ++ DomainError.to_string e))
      | Ok _ => persist_args id rest a (<[p_name p := v]> m)
      end
  end.
Fixpoint restore_args (id : Uuid) (declared : list JobParam) (m : gmap str JobParamValue) : JM (result str JobRunArgs) :=
  match declared with
  | [] => mret (Ok (new_args m))
  | p :: rest =>
      stored ← attempt (get_string_param id (p_name p));
      match stored with
      | Err e => mret (Err (lit "read `" ++ p_name p ++ lit "` from params: " ++ DomainError.to_string e))
      | Ok raw => restore_args id rest (<[p_name p := reread p raw]> m)
      end
  end.
Definition persist_or_restore_args (id : Uuid) (declared : list JobParam) (a : JobRunArgs) (is_fresh : bool) : JM (result str JobRunArgs) :=
  if is_fresh then persist_args id declared a ∅ else restore_args id declared ∅.
(** [log_terminal_write_err]: a failed write is logged and dropped. *)
Definition log_err {T} (m : JM T) : JM unit := _ ← attempt m; mret tt.
(** [get_run_by_id] and the two counters; [0] when it fails. *)
Definition fetch_outcome_stats (id : Uuid) : JM (Z * Z) :=
  row ← attempt (fetch (lit "get_run_by_id") (fun j => runs j !! id));
  mret (match row with
        | Ok (Some r) => match RunStatus.parse (r_status r) with
                         | Some _ => (Z.max 0 (default 0%Z (r_stats r !! lit "finding_count")), Z.max 0 (default 0%Z (r_stats r !! lit "scanned_count")))
                         | None => (0%Z, 0%Z)
                         end
        | _ => (0%Z, 0%Z)
        end).
Definition settle (id : Uuid) (o : RunOutcome) : JM JobOutcome :=
  stats ← fetch_outcome_stats id;
  match o with
  | RCompleted extra =>
      _ ← (if decide (extra = ∅) then mret tt else log_err (merge_stats id extra));
      _ ← log_err (execute (lit "mark_completed") (WCompleted id));
      stats ← fetch_outcome_stats id;
      mret (JCompleted id stats.1 stats.2 extra)
  | RPaused cursor =>
      intent ← attempt (get_string_param id CANCEL_INTENT_PARAM);
      if bool_decide (intent = Ok (Some CANCEL_INTENT_TERMINATE)) then
        _ ← log_err (execute (lit "mark_cancelled") (WCancelled id (Some cursor)));
        mret (JCancelled id cursor stats.1 stats.2)
      else
        _ ← log_err (execute (lit "mark_paused") (WPaused id (Some cursor)));
        mret (JPaused id cursor stats.1 stats.2)
  | RPausedRetryable cursor reason detail =>
      _ ← log_err (execute (lit "mark_paused_retryable") (WRetryable id (Some cursor) reason detail));
      mret (JRetryable id cursor reason detail stats.1 stats.2)
  | RFailed message =>
      _ ← log_err (execute (lit "mark_failed") (WFailed id message));
      mret (JErr (message ++ lit " (run_id=" ++ uuid_to_string id ++ lit ")"))
  end.
Definition log_dispatch (d : Dispatch) : JM unit :=
  modify (fun j => mkJobs (runs j) (findings j) (now j) (fresh j) (faults j) (meanwhile j) (dispatched j ++ [d])).
(** From the opened run to its end. *)
Definition drive (job : RecoverableJob) (id : Uuid) (a : JobRunArgs) (resume_cursor : option bytes) (is_fresh : bool) : JM JobOutcome :=
  _ ← (match is_fresh, count_total job with
       | true, Some (total, kind) => log_err (seed_progress_params id total kind)
       | _, _ => mret tt
       end);
  bound ← persist_or_restore_args id (parameters job) a is_fresh;
  match bound with
  | Err e => _ ← log_err (execute (lit "mark_failed") (WFailed id e)); mret (JErr e)
  | Ok effective =>
      _ ← (if is_fresh then log_err (set_string_param id UNATTENDED_RESUME_PARAM (bool_text (unattended_resume_allowed job effective)))
           else mret tt);
      _ ← log_dispatch (mkDispatch id (unattended a) is_fresh effective);
      outcome ← run_handler id (run_resumable job effective resume_cursor);
      match outcome with
      | Some o => settle id o
      | None => mret JPanicked
      end
  end.
Definition run_or_resume (job : RecoverableJob) (a : JobRunArgs) : JM JobOutcome :=
  opened ← attempt (open_or_start (j_name job) (unattended a));
  match opened with
  | Err e => mret (JErr (lit "open_or_start failed: " ++ DomainError.to_string e))
  | Ok (AlreadyActive id s) => mret (JSkipped id s)
  | Ok (DeclinedUnattended id) => mret (JDeclined id)
  | Ok (Fresh id) => drive job id a None true
  | Ok (Resumed id cursor) => drive job id a (Some cursor) false
  end.
End store.
