(* ===== verification/JobTheorems.v ===== *)
(** * Recoverable runs: the theorems

    What the driver of [src/src/infrastructure/scheduler/recoverable.rs] promises whatever
    operators, the server's upkeep and the drivers of other jobs do between its statements, and
    whichever statements fail: a run keeps the mode it was started in, only a run that may is
    continued without a human, and the row of a run ends as its handler reported. *)

From S2P Require Import Prelude.
From S2P Require Import RustStr.
From S2P Require Import DomainErrors.
From S2P Require Import JobStore.

#[local] Arguments lit : simpl never.
#[local] Arguments RunStatus.as_str : simpl never.

(** ** Rows *)
Lemma is_status_with s s' r : is_status s (with_status s' r) = bool_decide (s = s').
Proof.
  unfold is_status. cbn. destruct (decide (s = s')) as [->|Hne]; [by rewrite !bool_decide_eq_true_2|].
  rewrite !bool_decide_eq_false_2; [done|done|]. by intros ?%RunStatus.as_str_inj.
Qed.
(** Not in a state the purge takes away. *)
Definition unfinished (r : Run) : Prop := is_status Completed r = false ∧ is_status Failed r = false.
Lemma unfinished_with s r : s ≠ Completed -> s ≠ Failed -> unfinished (with_status s r).
Proof. intros. unfold unfinished. rewrite !is_status_with, !bool_decide_eq_false_2 by done. done. Qed.

Lemma latest_some p j id r : latest p j = Some (id, r) -> runs j !! id = Some r ∧ p r = true.
Proof.
  unfold latest. intros Hl. assert (Hin : (id, r) ∈ filter (fun x : Uuid * Run => p x.2 = true) (map_to_list (runs j))).
  { revert Hl. generalize (filter (fun x : Uuid * Run => p x.2 = true) (map_to_list (runs j))). intros l. revert id r.
    induction l as [|x l IH]; intros id r; [done|]. cbn. destruct (foldr _ None l) as [b|] eqn:E.
    - destruct (_ <? _)%Z; intros [= ->]; [by left|]. right. by apply IH.
    - intros [= ->]. by left. }
  apply list_elem_of_filter in Hin as [Hp Hin]. by apply elem_of_map_to_list in Hin.
Qed.
Lemma latest_none p j id r : latest p j = None -> runs j !! id = Some r -> p r = false.
Proof.
  unfold latest. intros Hl Hr. destruct (p r) eqn:Hp; [|done]. exfalso.
  assert (Hin : (id, r) ∈ filter (fun x : Uuid * Run => p x.2 = true) (map_to_list (runs j))).
  { apply list_elem_of_filter. split; [done|]. by apply elem_of_map_to_list. }
  revert Hl Hin. generalize (filter (fun x : Uuid * Run => p x.2 = true) (map_to_list (runs j))). intros [|x l]; [by intros _ ?%elem_of_nil|].
  cbn. destruct (foldr _ None l); [|done]. by destruct (_ <? _)%Z.
Qed.
Lemma parse_status r s : RunStatus.parse (r_status r) = Some s -> is_status s r = true.
Proof. unfold is_status, RunStatus.parse. intros Hp. apply bool_decide_eq_true. repeat case_decide; try discriminate Hp; by injection Hp as <-. Qed.
Lemma is_status_unique s s' r : is_status s r = true -> is_status s' r = bool_decide (s' = s).
Proof.
  unfold is_status. rewrite bool_decide_eq_true. intros ->. destruct (decide (s' = s)) as [->|Hne]; [by rewrite !bool_decide_eq_true_2|].
  rewrite !bool_decide_eq_false_2; [done|done|]. intros Heq%RunStatus.as_str_inj. congruence.
Qed.

Section evolution.
Context (job : RecoverableJob).
(** The keys a run's arguments and its consent are stored under. *)
Definition protected (k : str) : Prop := k ∈ (p_name <$> parameters job) ∨ k = UNATTENDED_RESUME_PARAM.
Definition same_protected (r r' : Run) : Prop := forall k, protected k -> r_params r' !! k = r_params r !! k.
Definition ours (j : Jobs) (id : Uuid) (r : Run) : Prop := runs j !! id = Some r ∧ r_job r = j_name job.
(** The rows of the job come from rows before, with their arguments. *)
Definition kept (j j' : Jobs) : Prop :=
  (forall id r', ours j' id r' -> exists r, ours j id r ∧ same_protected r r')
  ∧ dispatched j' = dispatched j ∧ (fresh j <= fresh j')%N
  ∧ (forall id, is_Some (runs j' !! id) -> is_Some (runs j !! id) ∨ (id < fresh j')%N).
(** And those that are not finished are still there. *)
Definition lasting (j j' : Jobs) : Prop :=
  forall id r, ours j id r -> unfinished r -> exists r', ours j' id r' ∧ unfinished r'.
Definition evolves (j j' : Jobs) : Prop := kept j j' ∧ lasting j j'.
#[export] Instance kept_preorder : PreOrder kept.
Proof.
  split; [intros j; split_and!; try done; [intros id r' ?; by exists r'|by left]|].
  intros j1 j2 j3 (Ho1 & Hd1 & Hf1 & Hi1) (Ho2 & Hd2 & Hf2 & Hi2). split_and!; [|congruence|lia|].
  - intros id r3 H3. destruct (Ho2 id r3 H3) as (r2 & H2 & Hs2). destruct (Ho1 id r2 H2) as (r1 & H1 & Hs1).
    exists r1. split; [done|]. intros k Hk. rewrite Hs2 by done. by apply Hs1.
  - intros id Hid. destruct (Hi2 id Hid) as [Hid2|?]; [|by right]. destruct (Hi1 id Hid2) as [?|?]; [by left|right; lia].
Qed.
#[export] Instance evolves_preorder : PreOrder evolves.
Proof.
  split; [intros j; split; [done|intros id r Ho Hu; by exists r]|].
  intros j1 j2 j3 [Hk1 Hl1] [Hk2 Hl2]. split; [by etrans|]. intros id r Ho Hu.
  destruct (Hl1 id r Ho Hu) as (r2 & Ho2 & Hu2). by apply (Hl2 id r2).
Qed.
(** A change of one row. *)
Lemma update_kept id f j : (forall r r', runs j !! id = Some r -> r_job r = j_name job -> f r = Ok r' -> same_protected r r') ->
  (forall r r', f r = Ok r' -> r_job r' = r_job r) -> kept j (update_run id f j).2.
Proof.
  intros Hf Hj. unfold update_run. destruct (runs j !! id) as [r|] eqn:E; [|done].
  destruct (f r) as [r'|e] eqn:Ef; [|done]. destruct (conflicts _ _ _); [done|]. cbn.
  split_and!; [|done|done|].
  - intros id' r1 [H1 Hn]. cbn in H1. destruct (decide (id' = id)) as [->|Hne].
    + rewrite lookup_insert_eq in H1. injection H1 as <-. exists r. rewrite (Hj r r' Ef) in Hn. split; [done|by apply Hf].
    + rewrite lookup_insert_ne in H1 by done. by exists r1.
  - intros id' Hid. cbn in Hid. destruct (decide (id' = id)) as [->|Hne]; [left; by rewrite E|].
    rewrite lookup_insert_ne in Hid by done. by left.
Qed.
Lemma update_evolves id f j :
  (forall r r', runs j !! id = Some r -> r_job r = j_name job -> f r = Ok r' -> same_protected r r' ∧ (unfinished r -> unfinished r')) ->
  (forall r r', f r = Ok r' -> r_job r' = r_job r) -> evolves j (update_run id f j).2.
Proof.
  intros Hf Hj. split; [apply update_kept; [intros; by eapply Hf|done]|].
  intros id' r Ho Hu. unfold update_run. destruct (runs j !! id) as [r0|] eqn:E; [|by exists r].
  destruct (f r0) as [r'|e] eqn:Ef; [|by exists r]. destruct (conflicts _ _ _); [by exists r|]. cbn.
  destruct (decide (id' = id)) as [->|Hne].
  - destruct Ho as [Hr Hn]. rewrite E in Hr. injection Hr as ->. exists r'. split; [|by eapply Hf].
    split; [cbn; by rewrite lookup_insert_eq|]. by rewrite (Hj r r' Ef).
  - exists r. split; [|done]. destruct Ho. split; [|done]. cbn. by rewrite lookup_insert_ne.
Qed.

(** ** What others do *)
Definition quiet_act (a : Act) : Prop := match a with Other name _ => name ≠ j_name job | _ => True end.
Definition quiet (j : Jobs) : Prop := Forall (Forall quiet_act) (meanwhile j).
Context (Hintent : ¬ protected CANCEL_INTENT_PARAM).
Lemma admin_evolves s j : is_admin s = true -> evolves j (exec s j).2.
Proof.
  destruct s as [| | | | | | | | | | | | |days|name|id|id]; intros Ha; try done; cbn [exec].
  - split.
    + split_and!; try done; cbn.
      * intros id r' [Hr Hn]. cbn in Hr. rewrite lookup_fmap in Hr. destruct (runs j !! id) as [r|] eqn:E; [|done]. cbn in Hr.
        injection Hr as <-. exists r. split; [split; [done|]; by destruct (_ || _)|]. intros k _. by destruct (_ || _).
      * intros id. rewrite lookup_fmap. destruct (runs j !! id); [by left|]. by intros [? ?].
    + intros id r [Hr Hn] Hu. cbn. exists (if is_status Running r || is_status CancelRequested r
                           then with_error (Some (default (lit "server_restart") (r_error_reason r)))
                                  (Some (default (lit "server restart mid-run") (r_error_message r))) (with_status Paused r)
                           else r).
      split; [split; [cbn; by rewrite lookup_fmap, Hr|by destruct (_ || _)]|].
      destruct (_ || _); [|done]. change (unfinished (with_status Paused r)). by apply unfinished_with.
  - split.
    + split_and!; try done; cbn.
      * intros id r' [Hr Hn]. cbn in Hr. apply lookup_difference_Some in Hr as [Hr _]. by exists r'.
      * intros id [r' [Hr _]%lookup_difference_Some]. left. by exists r'.
    + intros id r [Hr Hn] [Hc Hf]. exists r. split; [|done]. split; [|done]. cbn. apply lookup_difference_Some. split; [done|].
      apply map_lookup_filter_None. right. intros r0 Hr0. rewrite Hr in Hr0. injection Hr0 as <-. unfold purgeable. cbn. by rewrite Hc, Hf.
  - destruct (latest _ j) as [[id r]|]; [|done]. apply update_evolves; [|by intros ?? [= <-]].
    intros r0 r' _ _ [= <-]. split; [done|]. intros _. change (unfinished (with_status CancelRequested r0)). by apply unfinished_with.
  - destruct (runs j !! id) as [r|]; [|done]. destruct (is_status Paused r); [|done]. apply update_evolves; [|by intros ?? [= <-]].
    intros r0 r' _ _ [= <-]. split; [done|]. intros _. change (unfinished (with_status Cancelled r0)). by apply unfinished_with.
  - apply update_evolves; [|by intros ?? [= <-]]. intros r0 r' _ _ [= <-]. split.
    + intros k Hk. cbn. rewrite lookup_insert_ne; [done|]. by intros <-.
    + intros _. change (unfinished (with_status CancelRequested r0)). by apply unfinished_with.
Qed.
Lemma bump_row key delta r r' : bump key delta r = Some r' -> r_job r' = r_job r ∧ r_params r' = r_params r ∧ r_status r' = r_status r.
Proof. unfold bump. destruct (bool_decide _); [|done]. by intros [= <-]. Qed.
Lemma set_findings_evolves l j j' : evolves j j' -> evolves j (set_findings l j').
Proof. done. Qed.
Lemma other_evolves name s j : name ≠ j_name job -> of_job name s j = true -> evolves j (exec s j).2.
Proof.
  intros Hne Hof. destruct s as [id name'|id|id c d|id k sv|id n k|id k v|id x|id|id c|id c rs dt|id msg|id c| | | | |]; try done; cbn [exec of_job] in *.
  - apply andb_true_iff in Hof as [->%bool_decide_eq_true Hid%N.ltb_lt]. destruct (conflicts _ _ _); [done|].
    destruct (runs j !! id) as [r|] eqn:E; [done|]. cbn. split.
    + split_and!; try done.
      * intros id' r' [Hr Hn]. cbn in Hr. destruct (decide (id' = id)) as [->|Hi]; [rewrite lookup_insert_eq in Hr; by injection Hr as <-|].
        rewrite lookup_insert_ne in Hr by done. by exists r'.
      * intros id' Hid'. cbn in *. destruct (decide (id' = id)) as [->|Hi]; [by right|]. rewrite lookup_insert_ne in Hid' by done. by left.
    + intros id' r' [Hr Hn] Hu. exists r'. split; [|done]. split; [|done]. cbn. rewrite lookup_insert_ne; [done|]. intros <-. congruence.
  - apply update_evolves; [|by intros ?? [= <-]]. intros r r' Hr Hn. rewrite Hr, bool_decide_eq_true in Hof. congruence.
  - apply update_evolves.
    + intros r r' Hr Hn. rewrite Hr, bool_decide_eq_true in Hof. congruence.
    + intros r r'. destruct (bump _ _ _) as [r0|] eqn:Eb; intros [= <-]. cbn. by apply bump_row in Eb as [-> _].
  - destruct (runs j !! id) as [r0|] eqn:E; [|done].
    assert (Hev : evolves j (update_run id (fun r => match bump (lit "finding_count") 1 r with Some r => Ok r | None => Err bigint_overflow end) j).2).
    { apply update_evolves.
      - intros r r' Hr Hn. rewrite Hr in E. injection E as ->. rewrite bool_decide_eq_true in Hof. congruence.
      - intros r r'. destruct (bump _ _ r) as [r1|] eqn:Eb; intros [= <-]. by apply bump_row in Eb as [Hb _]. }
    destruct (update_run id _ j) as [[n|e] j']; [|done]. by apply set_findings_evolves.
  - apply update_evolves; [|by intros ?? [= <-]]. intros r r' Hr Hn. rewrite Hr, bool_decide_eq_true in Hof. congruence.
  - apply update_evolves; [|by intros ?? [= <-]]. intros r r' Hr Hn. rewrite Hr, bool_decide_eq_true in Hof. congruence.
  - apply update_evolves; [|by intros ?? [= <-]]. intros r r' Hr Hn. rewrite Hr, bool_decide_eq_true in Hof. congruence.
  - apply update_evolves; [|by intros ?? [= <-]]. intros r r' Hr Hn. rewrite Hr, bool_decide_eq_true in Hof. congruence.
  - apply update_evolves; [|by intros ?? [= <-]; destruct c]. intros r r' Hr Hn. rewrite Hr, bool_decide_eq_true in Hof. congruence.
  - apply update_evolves; [|by intros ?? [= <-]; destruct c]. intros r r' Hr Hn. rewrite Hr, bool_decide_eq_true in Hof. congruence.
  - apply update_evolves; [|by intros ?? [= <-]]. intros r r' Hr Hn. rewrite Hr, bool_decide_eq_true in Hof. congruence.
  - apply update_evolves; [|by intros ?? [= <-]; destruct c]. intros r r' Hr Hn. rewrite Hr, bool_decide_eq_true in Hof. congruence.
Qed.
Lemma evolves_same j j' : runs j' = runs j -> dispatched j' = dispatched j -> (fresh j <= fresh j')%N -> evolves j j'.
Proof.
  intros Hr Hd Hf. split; [split_and!; try done; [intros id r' [H1 H2]; exists r'; split; [split; congruence|done]|intros id; rewrite Hr; by left]|].
  intros id r [H1 H2] Hu. exists r. split; [split; congruence|done].
Qed.
Lemma acts_evolve l : forall j, Forall quiet_act l -> evolves j (acts l j).
Proof.
  induction l as [|a l IH]; intros j Hl; [done|]. apply Forall_cons_1 in Hl as [Ha Hl]. cbn. etrans; [|by apply IH].
  destruct a as [dt|s|name s]; cbn; [by apply evolves_same| |].
  - destruct (is_admin s) eqn:E; [by apply admin_evolves|done].
  - destruct (of_job name s j) eqn:E; [by eapply other_evolves|done].
Qed.

(** ** Statements of the driver *)
Lemma scripts_exec s j : meanwhile (exec s j).2 = meanwhile j ∧ faults (exec s j).2 = faults j.
Proof.
  assert (Hu : forall id f, meanwhile (update_run id f j).2 = meanwhile j ∧ faults (update_run id f j).2 = faults j).
  { intros id f. unfold update_run. destruct (runs j !! id) as [r|]; [|done]. destruct (f r); [|done]. by destruct (conflicts _ _ _). }
  destruct s; cbn [exec]; try apply Hu; try done.
  - destruct (conflicts _ _ _); [done|]. by destruct (runs j !! id).
  - destruct (runs j !! id); [|done]. specialize (Hu id (fun r => match bump (lit "finding_count") 1 r with Some r => Ok r | None => Err bigint_overflow end)).
    destruct (update_run _ _ _) as [[n|e] j']; [|done]. by cbn in *.
  - destruct (latest _ j) as [[id r]|]; [apply Hu|done].
  - destruct (runs j !! id) as [r|]; [|done]. destruct (is_status Paused r); [apply Hu|done].
Qed.
Lemma scripts_acts l : forall j, meanwhile (acts l j) = meanwhile j ∧ faults (acts l j) = faults j.
Proof.
  induction l as [|a l IH]; intros j; [done|]. change (acts (a :: l) j) with (acts l (act a j)). destruct (IH (act a j)) as [-> ->]. destruct a as [dt|s|name s]; cbn; [done| |];
    [destruct (is_admin s)|destruct (of_job name s j)]; try done; apply scripts_exec.
Qed.
Lemma quiet_interfere j : quiet j -> evolves j (interfere j) ∧ quiet (interfere j).
Proof.
  intros Hq. unfold quiet, interfere in *. set (j0 := mkJobs _ _ _ _ _ _ _). destruct (scripts_acts (default [] (head (meanwhile j))) j0) as [-> _].
  split.
  - change (evolves j0 (acts (default [] (head (meanwhile j))) j0)). apply acts_evolve. destruct (meanwhile j); [constructor|]. by apply Forall_cons_1 in Hq as [? _].
  - cbn. destruct (meanwhile j); [done|]. by apply Forall_cons_1 in Hq as [_ ?].
Qed.
Lemma quiet_exec st j : quiet j -> quiet (exec st j).2.
Proof. unfold quiet. by destruct (scripts_exec st j) as [-> _]. Qed.
(** A round trip: what others did, then nothing or the statement. *)
Lemma query_cases {T} op (q : Jobs -> result str T * Jobs) j res j' : quiet j -> query op q j = (res, j') ->
  exists j0, evolves j j0 ∧ quiet j0
    ∧ ((exists text, res = Err (store_error text) ∧ (j' = j0 ∨ (exists e, q j0 = (Err e, j'))))
       ∨ exists v, res = Ok v ∧ q j0 = (Ok v, j')).
Proof.
  intros Hq Hx. unfold query in Hx. destruct (quiet_interfere j Hq) as [He Hq1].
  set (j0 := mkJobs (runs (interfere j)) (findings (interfere j)) (now (interfere j)) (fresh (interfere j))
               (tail (faults (interfere j))) (meanwhile (interfere j)) (dispatched (interfere j))) in *.
  exists j0. split; [done|]. split; [done|]. destruct (default None _) as [text|].
  - injection Hx as <- <-. left. eexists. split; [done|by left].
  - destruct (q j0) as [[v|e] j1] eqn:Eq; injection Hx as <- <-; [right; by exists v|]. left. eexists. split; [done|right; by eexists].
Qed.
(** Programs that write no argument of a run of the job. *)
Definition harmless {T} (m : JM T) : Prop := forall j res j', quiet j -> m j = (res, j') -> kept j j' ∧ quiet j'.
Lemma harmless_ret {T} (v : T) : harmless (mret v).
Proof. by intros j res j' Hq [= <- <-]. Qed.
Lemma harmless_bind {A B} (m : JM A) (k : A -> JM B) : harmless m -> (forall v, harmless (k v)) -> harmless (m ≫= k).
Proof.
  intros Hm Hk j res j' Hq Hx. apply bind_inv in Hx as [(v & j1 & H1 & Hx)|(e & H1 & ->)]; [|by eapply Hm].
  destruct (Hm _ _ _ Hq H1) as [Hk1 Hq1]. destruct (Hk v _ _ _ Hq1 Hx) as [Hk2 Hq2]. split; [by etrans|done].
Qed.
Lemma harmless_attempt {T} (m : JM T) : harmless m -> harmless (attempt m).
Proof. intros Hm j res j' Hq Hx. unfold attempt in Hx. destruct (m j) as [r j1] eqn:E. injection Hx as <- <-. by eapply Hm. Qed.
Lemma harmless_query {T} op (q : Jobs -> result str T * Jobs) :
  (forall j, quiet j -> kept j (q j).2 ∧ quiet (q j).2) -> harmless (query op q).
Proof.
  intros Hk j res j' Hq Hx. destruct (query_cases op q j res j' Hq Hx) as (j0 & [Hk0 _] & Hq0 & [(text & _ & [->|(e & Eq)])|(v & _ & Eq)]); [done| |];
    destruct (Hk j0 Hq0) as [Hk1 Hq1]; rewrite Eq in *; (split; [by etrans|done]).
Qed.
Lemma harmless_fetch {T} op (f : Jobs -> T) : harmless (fetch op f).
Proof. apply harmless_query. by intros j Hq. Qed.
(** Statements about one run that leave its arguments alone. *)
Definition own (st : Stmt) : Prop :=
  match st with
  | WInsert _ _ => False
  | WSetParam _ key _ => ¬ protected key
  | WSeed _ _ _ => ¬ protected (lit "total_rows") ∧ ¬ protected (lit "progress_kind")
  | _ => True
  end.
Lemma own_kept st j : own st -> kept j (exec st j).2.
Proof.
  destruct st as [id name'|id|id c d|id k sv|id n k|id k v|id x|id|id c|id c rs dt|id msg|id c| |days|name|id|id]; intros Ho; try done; cbn [exec].
  1,6,7: apply update_kept; [by intros r r' _ _ [= <-]|by intros ?? [= <-]].
  - apply update_kept; intros r r'; [intros _ _|]; destruct (bump _ _ _) as [r0|] eqn:Eb; intros [= <-]; apply bump_row in Eb as (Hj & Hp & _).
    + intros key _. cbn. by rewrite Hp.
    + by cbn.
  - destruct (runs j !! id) as [r0|] eqn:E; [|done].
    assert (Hev : kept j (update_run id (fun r => match bump (lit "finding_count") 1 r with Some r => Ok r | None => Err bigint_overflow end) j).2).
    { apply update_kept; intros r r'; [intros _ _|]; destruct (bump _ _ _) as [r1|] eqn:Eb; intros [= <-]; apply bump_row in Eb as (Hj & Hp & _); [|done].
      intros key _. by rewrite Hp. }
    destruct (update_run id _ j) as [[n|e] j']; done.
  - apply update_kept; [|by intros ?? [= <-]]. intros r r' _ _ [= <-] key Hk. cbn. destruct Ho as [H1 H2].
    rewrite !lookup_insert_ne; [done|by intros <-|by intros <-].
  - apply update_kept; [|by intros ?? [= <-]]. intros r r' _ _ [= <-] key Hk. cbn. rewrite lookup_insert_ne; [done|]. by intros <-.
  - apply update_kept; intros r r'; [intros _ _|]; intros [= <-]; by destruct c.
  - apply update_kept; intros r r'; [intros _ _|]; intros [= <-]; by destruct c.
  - apply update_kept; [by intros r r' _ _ [= <-]|by intros ?? [= <-]].
  - apply update_kept; intros r r'; [intros _ _|]; intros [= <-]; by destruct c.
  - exact (proj1 (admin_evolves WSweep j eq_refl)).
  - exact (proj1 (admin_evolves (WPurge days) j eq_refl)).
  - exact (proj1 (admin_evolves (WSoftCancel name) j eq_refl)).
  - exact (proj1 (admin_evolves (WTermPaused id) j eq_refl)).
  - exact (proj1 (admin_evolves (WTermActive id) j eq_refl)).
Qed.
Lemma harmless_execute op st : own st -> harmless (execute op st).
Proof. intros Ho. apply harmless_query. intros j Hq. split; [by apply own_kept|by apply quiet_exec]. Qed.
Lemma harmless_log {T} (m : JM T) : harmless m -> harmless (log_err m).
Proof. intros Hm. apply harmless_bind; [by apply harmless_attempt|]. intros v. apply harmless_ret. Qed.
End evolution.

Lemma log_err_inv {T} (m : JM T) j res j' : log_err m j = (res, j') -> res = Ok tt ∧ exists r, m j = (r, j').
Proof. unfold log_err, attempt. unfold_m. destruct (m j) as [r j1]. intros [= <- <-]. eauto. Qed.

(** ** The mode of a run *)
Section modes.
Context `{UuidText} (job : RecoverableJob).
(** The arguments a run's row stands for. *)
Definition restored (r : Run) : JobRunArgs :=
  new_args (foldl (fun m p => <[p_name p := reread p (r_params r !! p_name p)]> m) ∅ (parameters job)).
Definition consenting (r : Run) : Prop := r_params r !! UNATTENDED_RESUME_PARAM = Some (lit "true").
(** The arguments a trigger stands for. *)
Definition effective (a : JobRunArgs) : JobRunArgs := new_args (values (normalized_for a (parameters job))).

Record Modes (given : JobRunArgs -> Prop) (j : Jobs) : Prop := {
  m_rows id : is_Some (runs j !! id) -> (id < fresh j)%N;
  m_log d : d ∈ dispatched j -> (d_run d < fresh j)%N;
  m_args d r : d ∈ dispatched j -> ours job j (d_run d) r -> d_args d = restored r;
  m_consent id r : ours job j id r -> consenting r -> unattended_resume_allowed job (restored r) = true;
  m_mode d d' : d ∈ dispatched j -> d' ∈ dispatched j -> d_run d = d_run d' -> d_args d = d_args d';
  m_human d : d ∈ dispatched j -> d_unattended d = true -> d_fresh d = false -> unattended_resume_allowed job (d_args d) = true;
  m_given d : d ∈ dispatched j -> d_fresh d = true -> exists a, given a ∧ d_args d = effective a;
}.
Lemma foldl_insert_ext {V} (f g : JobParam -> V) l : forall m : gmap str V, (forall p, p ∈ l -> f p = g p) ->
  foldl (fun m p => <[p_name p := f p]> m) m l = foldl (fun m p => <[p_name p := g p]> m) m l.
Proof.
  induction l as [|p l IH]; intros m Hfg; [done|]. cbn. rewrite (Hfg p) by (by left). apply IH. intros q Hq. apply Hfg. by right.
Qed.
Lemma restored_same r r' : same_protected job r r' -> restored r' = restored r.
Proof.
  intros Hs. unfold restored. f_equal. apply foldl_insert_ext. intros p Hp. rewrite (Hs (p_name p)); [done|].
  left. by apply list_elem_of_fmap_2.
Qed.
Lemma modes_kept given j j' : kept job j j' -> Modes given j -> Modes given j'.
Proof.
  intros (Ho & Hd & Hf & Hi) [M1 M2 M3 M4 M5 M6 M7]. split; rewrite ?Hd; try done.
  - intros id Hid. destruct (Hi id Hid) as [Hid'|?]; [|done]. pose proof (M1 id Hid'). lia.
  - intros d Hin. pose proof (M2 d Hin). lia.
  - intros d r' Hin Hr'. destruct (Ho _ _ Hr') as (r & Hr & Hs). rewrite (restored_same r r' Hs). by apply M3.
  - intros id r' Hr' Hc. destruct (Ho _ _ Hr') as (r & Hr & Hs). rewrite (restored_same r r' Hs). apply (M4 id); [done|].
    unfold consenting in *. rewrite (Hs UNATTENDED_RESUME_PARAM) in Hc; [done|by right].
Qed.
Lemma modes_more (given given' : JobRunArgs -> Prop) j : (forall a, given a -> given' a) -> Modes given j -> Modes given' j.
Proof. intros Hg [M1 M2 M3 M4 M5 M6 M7]. split; try done. intros d Hd Hf. destruct (M7 d Hd Hf) as (a & ? & ?). eauto. Qed.

(** A run that is open, with what its row stores of the protected keys. *)
Definition tracked (id : Uuid) (P : gmap str str) (j : Jobs) : Prop :=
  exists r, ours job j id r ∧ unfinished r ∧ forall k, protected job k -> r_params r !! k = P !! k.
Lemma tracked_evolves id P j j' : evolves job j j' -> tracked id P j -> tracked id P j'.
Proof.
  intros [(Ho & _) Hl] (r & Hr & Hu & Hp). destruct (Hl id r Hr Hu) as (r' & Hr' & Hu'). exists r'. split_and!; [done..|].
  intros k Hk. destruct (Ho id r' Hr') as (r0 & Hr0 & Hs). rewrite Hs by done. destruct Hr0 as [E0 _], Hr as [E _].
  rewrite E in E0. injection E0 as ->. by apply Hp.
Qed.
Lemma tracked_restored id P j r : tracked id P j -> ours job j id r ->
  restored r = new_args (foldl (fun m p => <[p_name p := reread p (P !! p_name p)]> m) ∅ (parameters job)).
Proof.
  intros (r0 & [E0 _] & _ & Hp) [E _]. rewrite E in E0. injection E0 as <-. unfold restored. f_equal. apply foldl_insert_ext.
  intros p Hin. rewrite Hp; [done|]. left. by apply list_elem_of_fmap_2.
Qed.

Context (Hintent : ¬ protected job CANCEL_INTENT_PARAM).
(** Writing a parameter of an open run. *)
Lemma set_param_spec id k v P j res j' : quiet job j -> tracked id P j -> set_string_param id k v j = (res, j') ->
  exists j0, evolves job j j0 ∧ tracked id P j0 ∧ quiet job j'
    ∧ ((j' = j0 ∧ exists e, res = Err e)
       ∨ (res = Ok tt ∧ dispatched j' = dispatched j0 ∧ fresh j' = fresh j0
          ∧ exists r0, ours job j0 id r0 ∧ runs j' = <[id := with_param k v r0]> (runs j0))).
Proof.
  intros Hq Ht Hx. unfold set_string_param, execute in Hx.
  apply bind_inv in Hx as [(n & j1 & H1 & Hx)|(e & H1 & ->)];
    destruct (query_cases job Hintent _ _ _ _ _ Hq H1) as (j0 & He & Hq0 & Hcase); pose proof (tracked_evolves id P j j0 He Ht) as Ht0;
    destruct Ht0 as (r0 & Hr0 & Hu0 & Hp0); exists j0; (split; [done|]); (split; [by exists r0|]);
    cbn [exec] in Hcase; unfold update_run in Hcase; rewrite (proj1 Hr0) in Hcase.
  - injection Hx as <- <-. destruct Hcase as [(text & ? & _)|(n' & [= <-] & Eq)]; [done|].
    destruct (conflicts _ _ _); [done|]. injection Eq as _ <-. split; [done|]. right. split_and!; try done. by exists r0.
  - destruct Hcase as [(text & _ & [->|(e' & Eq)])|(v' & ? & _)]; [|..|done].
    + split; [done|]. left. split; [done|by eexists].
    + destruct (conflicts _ _ _); [|done]. injection Eq as _ <-. split; [done|]. left. split; [done|by eexists].
Qed.
Definition unlogged (id : Uuid) (j : Jobs) : Prop := forall d, d ∈ dispatched j -> d_run d ≠ id.
Lemma unlogged_kept id j j' : kept job j j' -> unlogged id j -> unlogged id j'.
Proof. intros (_ & Hd & _) Hu d. rewrite Hd. apply Hu. Qed.
(** The row of a run that no handler has seen may take any parameter, as long as consent goes
    with the arguments. *)
Lemma modes_set given id k v P j0 j' r0 : Modes given j0 -> tracked id P j0 -> unlogged id j0 -> ours job j0 id r0 ->
  runs j' = <[id := with_param k v r0]> (runs j0) -> dispatched j' = dispatched j0 -> fresh j' = fresh j0 ->
  (forall r, restored r = restored (with_param k v r0) -> consenting (with_param k v r0) -> unattended_resume_allowed job (restored r) = true) ->
  Modes given j' ∧ tracked id (<[k := v]> P) j' ∧ unlogged id j'.
Proof.
  intros [M1 M2 M3 M4 M5 M6 M7] (r & [E Hn] & Hu & Hp) Hlog [E0 Hn0] Hr Hd Hf Hcons. rewrite E in E0. injection E0 as ->. split_and!.
  - split; rewrite ?Hd, ?Hf; try done.
    + intros id' Hid. rewrite Hr in Hid. destruct (decide (id' = id)) as [->|Hne]; [apply M1; by rewrite E|].
      rewrite lookup_insert_ne in Hid by done. by apply M1.
    + intros d r' Hin [Hr' Hn']. rewrite Hr in Hr'. rewrite lookup_insert_ne in Hr' by (intros Heq; by apply (Hlog d)). by apply M3.
    + intros id' r' [Hr' Hn'] Hc. rewrite Hr in Hr'. destruct (decide (id' = id)) as [->|Hne].
      * rewrite lookup_insert_eq in Hr'. injection Hr' as <-. by apply Hcons.
      * rewrite lookup_insert_ne in Hr' by done. by apply (M4 id').
  - exists (with_param k v r0). split; [split; [by rewrite Hr, lookup_insert_eq|done]|]. split; [done|]. intros k' Hk. cbn.
    destruct (decide (k' = k)) as [->|Hne]; [by rewrite !lookup_insert_eq|]. rewrite !lookup_insert_ne by done. by apply Hp.
  - intros d. rewrite Hd. apply Hlog.
Qed.
Definition store_value (a : JobRunArgs) (P : gmap str str) (p : JobParam) : gmap str str :=
  match to_param_string (value_or_default a p) with Some v => <[p_name p := v]> P | None => P end.
Lemma store_value_ne a P p k : k ≠ p_name p -> store_value a P p !! k = P !! k.
Proof. intros Hne. unfold store_value. destruct (to_param_string _); [|done]. by rewrite lookup_insert_ne. Qed.
Lemma stored_values a rest : forall P p, NoDup (p_name <$> rest) -> (forall q, q ∈ rest -> P !! p_name q = None) -> p ∈ rest ->
  foldl (store_value a) P rest !! p_name p = to_param_string (value_or_default a p).
Proof.
  induction rest as [|q rest IH]; intros P p Hnd HP Hin; [by apply elem_of_nil in Hin|]. rewrite fmap_cons in Hnd. apply list.NoDup_cons in Hnd as [Hq Hnd]. cbn.
  assert (Hrest : forall x, x ∈ rest -> p_name x ≠ p_name q) by (intros x Hx Heq; apply Hq; rewrite <- Heq; by apply list_elem_of_fmap_2).
  apply elem_of_cons in Hin as [->|Hin].
  - assert (Hkeep : forall l P, (forall x, x ∈ l -> p_name x ≠ p_name q) -> foldl (store_value a) P l !! p_name q = P !! p_name q).
    { clear. induction l as [|x l IH]; intros P Hl; [done|]. cbn. rewrite IH; [|intros y Hy; apply Hl; by right].
      apply store_value_ne. intros Heq. by apply (Hl x); [left|]. }
    rewrite Hkeep by done. unfold store_value. destruct (to_param_string _); [by rewrite lookup_insert_eq|]. apply HP. by left.
  - apply IH; [done| |done]. intros x Hx. rewrite store_value_ne by (by apply Hrest). apply HP. by right.
Qed.

Context (Hnames : NoDup (p_name <$> parameters job)) (Hstamp : UNATTENDED_RESUME_PARAM ∉ p_name <$> parameters job).
Lemma persist_spec given id a : forall rest m P j res j',
  (forall p, p ∈ rest -> p ∈ parameters job) -> NoDup (p_name <$> rest) -> (forall p, p ∈ rest -> P !! p_name p = None) ->
  P !! UNATTENDED_RESUME_PARAM = None -> Modes given j -> quiet job j -> tracked id P j -> unlogged id j ->
  persist_args id rest a m j = (res, j') ->
  Modes given j' ∧ quiet job j' ∧ unlogged id j'
  ∧ ((exists e, res = Ok (Err e))
     ∨ (res = Ok (Ok (new_args (foldl (fun m p => <[p_name p := value_or_default a p]> m) m rest)))
        ∧ tracked id (foldl (store_value a) P rest) j' ∧ foldl (store_value a) P rest !! UNATTENDED_RESUME_PARAM = None)).
Proof.
  induction rest as [|p rest IH]; intros m P j res j' Hsub Hnd HP HU HM Hq Ht Hl Hx; cbn [persist_args] in Hx.
  { injection Hx as <- <-. split_and!; try done. right. by split_and!. }
  rewrite fmap_cons in Hnd. apply list.NoDup_cons in Hnd as [Hp Hnd].
  assert (Hpu : UNATTENDED_RESUME_PARAM ≠ p_name p) by (intros Heq; apply Hstamp; rewrite Heq; apply list_elem_of_fmap_2, Hsub; by left).
  assert (Hnext : forall x, x ∈ rest -> store_value a P p !! p_name x = None).
  { intros x Hin. rewrite store_value_ne; [apply HP; by right|]. intros Heq. apply Hp. rewrite <- Heq. by apply list_elem_of_fmap_2. }
  assert (Hgo : forall j1, Modes given j1 -> quiet job j1 -> tracked id (store_value a P p) j1 -> unlogged id j1 ->
    persist_args id rest a (<[p_name p := value_or_default a p]> m) j1 = (res, j') -> _) by
    (intros j1 HM1 Hq1 Ht1 Hl1 H1; refine (IH _ _ j1 res j' _ Hnd Hnext _ HM1 Hq1 Ht1 Hl1 H1);
     [intros x Hin; apply Hsub; by right|by rewrite store_value_ne]).
  destruct (to_param_string (value_or_default a p)) as [v|] eqn:Ev.
  - apply bind_inv in Hx as [(stored & j1 & H1 & Hx)|(e & H1 & _)]; unfold attempt in H1;
      destruct (set_string_param id (p_name p) v j) as [r1 j1'] eqn:Es; [|done]. injection H1 as <- <-.
    destruct (set_param_spec _ _ _ _ _ _ _ Hq Ht Es) as (j0 & He & Ht0 & Hq1 & [(-> & e & ->)|(-> & Hd & Hf & r0 & Hr0 & Hr)]).
    + injection Hx as <- <-. split_and!; [by eapply modes_kept; [apply He|]|done|by eapply unlogged_kept; [apply He|]|by left; eexists].
    + destruct (modes_set given id (p_name p) v P j0 j1' r0) as (HM1 & Ht1 & Hl1); try done.
      * by eapply modes_kept; [apply He|].
      * by eapply unlogged_kept; [apply He|].
      * intros r _ Hc. unfold consenting in Hc. cbn in Hc. rewrite lookup_insert_ne in Hc by done.
        destruct Ht0 as (r1 & [E1 _] & _ & Hp1). destruct Hr0 as [E0 _]. rewrite E1 in E0. injection E0 as ->.
        rewrite Hp1, HU in Hc; [done|by right].
      * apply (Hgo j1'); try done. unfold store_value. by rewrite Ev.
  - apply bind_inv in Hx as [(stored & j1 & [= <- <-] & Hx)|(e & H1 & _)]; [|done]. apply (Hgo j); try done. unfold store_value. by rewrite Ev.
Qed.
Lemma get_param_spec id k P j res j' : quiet job j -> tracked id P j -> protected job k -> get_string_param id k j = (res, j') ->
  evolves job j j' ∧ quiet job j' ∧ (res = Ok (P !! k) ∨ exists e, res = Err e).
Proof.
  intros Hq Ht Hk Hx. destruct (query_cases job Hintent _ _ _ _ _ Hq Hx) as (j0 & He & Hq0 & [(text & -> & [->|(e & ?)])|(v & -> & [= <- <-])]); [|done|].
  - split_and!; try done. right. by eexists.
  - split_and!; try done. left. destruct (tracked_evolves id P j j0 He Ht) as (r & [-> _] & _ & Hp). cbn. by rewrite Hp.
Qed.
Lemma restore_spec id P : forall rest m j res j', (forall p, p ∈ rest -> p ∈ parameters job) -> quiet job j -> tracked id P j ->
  restore_args id rest m j = (res, j') ->
  evolves job j j' ∧ quiet job j'
  ∧ ((exists e, res = Ok (Err e)) ∨ res = Ok (Ok (new_args (foldl (fun m p => <[p_name p := reread p (P !! p_name p)]> m) m rest)))).
Proof.
  induction rest as [|p rest IH]; intros m j res j' Hsub Hq Ht Hx; cbn [restore_args] in Hx.
  { injection Hx as <- <-. split_and!; try done. by right. }
  apply bind_inv in Hx as [(stored & j1 & H1 & Hx)|(e & H1 & _)]; unfold attempt in H1;
    destruct (get_string_param id (p_name p) j) as [r1 j1'] eqn:Es; [|done]. injection H1 as <- <-.
  apply (get_param_spec id _ P) in Es as (He & Hq1 & Hr); try done; [|left; apply list_elem_of_fmap_2, Hsub; by left].
  destruct Hr as [->|(e & ->)].
  - apply IH in Hx as (He2 & Hq2 & Hr); [|intros x Hin; apply Hsub; by right|done|by eapply tracked_evolves]. split_and!; [by etrans|done|done].
  - injection Hx as <- <-. split_and!; try done. left. by eexists.
Qed.
(** A handler that writes no argument of its run. *)
Fixpoint well_behaved (h : Handler) : Prop :=
  match h with
  | HDone _ | HPanic => True
  | HStatus k => forall r, well_behaved (k r)
  | HCheckpoint _ _ k | HFinding _ _ k | HMerge _ k => forall r, well_behaved (k r)
  | HSetParam key _ k => ¬ protected job key ∧ forall r, well_behaved (k r)
  | HGetParam _ k => forall r, well_behaved (k r)
  | HStat _ k => forall r, well_behaved (k r)
  end.
Context (Hwell : forall a c, well_behaved (run_resumable job a c)).
Context (Hseed : ¬ protected job (lit "total_rows") ∧ ¬ protected job (lit "progress_kind")).
Lemma harmless_void op st : own job st -> harmless job (_ ← execute op st; mret tt).
Proof. intros Ho. apply harmless_bind; [by apply harmless_execute|]. intros _. apply harmless_ret. Qed.
Lemma harmless_status id : harmless job (status id).
Proof.
  apply harmless_bind; [by apply harmless_fetch|]. intros [raw|]; [|by intros j res j' Hq [= <- <-]].
  destruct (RunStatus.parse raw); by intros j res j' Hq [= <- <-].
Qed.
Lemma harmless_merge id x : harmless job (merge_stats id x).
Proof. unfold merge_stats. case_decide; [apply harmless_ret|]. by apply harmless_void. Qed.
Lemma harmless_handler id h : well_behaved h -> harmless job (run_handler id h).
Proof.
  induction h as [o| |k IH|c d k IH|kd sv k IH|key v k IH|key k IH|key k IH|x k IH]; intros Hw; cbn [run_handler well_behaved] in *.
  1,2: apply harmless_ret.
  all: apply harmless_bind; [apply harmless_attempt|intros r; apply IH; try apply Hw].
  - apply harmless_status.
  - by apply harmless_void.
  - by apply harmless_void.
  - apply harmless_void. apply Hw.
  - by apply harmless_fetch.
  - by apply harmless_fetch.
  - apply harmless_merge.
Qed.
Lemma harmless_stats id : harmless job (fetch_outcome_stats id).
Proof. apply harmless_bind; [by apply harmless_attempt, harmless_fetch|]. intros v. apply harmless_ret. Qed.
Lemma harmless_settle id o : harmless job (settle id o).
Proof.
  apply harmless_bind; [apply harmless_stats|]. intros st. destruct o as [x|c|c rs dt|msg].
  - apply harmless_bind; [case_decide; [apply harmless_ret|apply harmless_log, harmless_merge]|]. intros _.
    apply harmless_bind; [by apply harmless_log, harmless_execute|]. intros _. apply harmless_bind; [apply harmless_stats|]. intros st'. apply harmless_ret.
  - apply harmless_bind; [by apply harmless_attempt, harmless_fetch|]. intros i. destruct (bool_decide _);
      (apply harmless_bind; [by apply harmless_log, harmless_execute|]); intros _; apply harmless_ret.
  - apply harmless_bind; [by apply harmless_log, harmless_execute|]. intros _. apply harmless_ret.
  - apply harmless_bind; [by apply harmless_log, harmless_execute|]. intros _. apply harmless_ret.
Qed.
(** Handing a run to its handler under the arguments its row stands for. *)
Lemma dispatch_modes given id P a is_fresh eff j j' res : Modes given j -> quiet job j -> tracked id P j ->
  (forall r, ours job j id r -> restored r = eff) ->
  (unattended a = true -> is_fresh = false -> unattended_resume_allowed job eff = true) ->
  (is_fresh = true -> exists a', given a' ∧ eff = effective a') ->
  log_dispatch (mkDispatch id (unattended a) is_fresh eff) j = (res, j') -> Modes given j' ∧ quiet job j'.
Proof.
  intros [M1 M2 M3 M4 M5 M6 M7] Hq (r & Hr & _) Heff Hun Hgiv [= <- <-]. split; [|done]. split; cbn; try done.
  - intros d [Hin| ->%list_elem_of_singleton]%elem_of_app; [by apply M2|]. cbn. apply M1. by rewrite (proj1 Hr).
  - intros d r' [Hin| ->%list_elem_of_singleton]%elem_of_app Hr'; [by apply M3|]. cbn in *. by rewrite (Heff r').
  - intros d d' [Hin| ->%list_elem_of_singleton]%elem_of_app [Hin'| ->%list_elem_of_singleton]%elem_of_app Hd; cbn in *; [by apply M5| | |done].
    + rewrite (M3 d r Hin); [by apply Heff|]. by rewrite Hd.
    + rewrite (M3 d' r Hin'); [symmetry; by apply Heff|]. by rewrite <- Hd.
  - intros d [Hin| ->%list_elem_of_singleton]%elem_of_app; [by apply M6|]. cbn. done.
  - intros d [Hin| ->%list_elem_of_singleton]%elem_of_app; [by apply M7|]. cbn. done.
Qed.
Lemma harmless_modes {T} (m : JM T) given j res j' : harmless job m -> Modes given j -> quiet job j -> m j = (res, j') ->
  Modes given j' ∧ quiet job j'.
Proof. intros Hm HM Hq Hx. destruct (Hm _ _ _ Hq Hx). split; [by eapply modes_kept|done]. Qed.
Definition typed_args (a : JobRunArgs) : Prop := forall p, p ∈ parameters job -> typed p (value_or_default a p).
(** The rest of a drive, once the arguments are bound. *)
Lemma run_modes given id P a c is_fresh eff j res j' : Modes given j -> quiet job j -> tracked id P j ->
  (forall r, ours job j id r -> restored r = eff) ->
  (unattended a = true -> is_fresh = false -> unattended_resume_allowed job eff = true) ->
  (is_fresh = true -> exists a', given a' ∧ eff = effective a') ->
  (_ ← log_dispatch (mkDispatch id (unattended a) is_fresh eff);
   outcome ← run_handler id (run_resumable job eff c);
   match outcome with Some o => settle id o | None => mret JPanicked end) j = (res, j') -> Modes given j' ∧ quiet job j'.
Proof.
  intros HM Hq Ht Heff Hun Hgiv Hx. apply bind_inv in Hx as [(u & j1 & H1 & Hx)|(e & H1 & _)]; [|done].
  destruct (dispatch_modes _ _ _ _ _ _ _ _ _ HM Hq Ht Heff Hun Hgiv H1) as [HM1 Hq1].
  refine (harmless_modes _ _ _ _ _ _ HM1 Hq1 Hx). apply harmless_bind; [by apply harmless_handler|].
  intros [o|]; [apply harmless_settle|apply harmless_ret].
Qed.
Lemma failed_modes given id e j res j' : Modes given j -> quiet job j ->
  (_ ← log_err (execute (lit "mark_failed") (WFailed id e)); mret (JErr e)) j = (res, j') -> Modes given j' ∧ quiet job j'.
Proof.
  intros HM Hq. apply harmless_modes; [|done..]. apply harmless_bind; [by apply harmless_log, harmless_execute|]. intros _. apply harmless_ret.
Qed.
Lemma effective_stored a : typed_args a ->
  new_args (foldl (fun m p => <[p_name p := reread p (foldl (store_value a) ∅ (parameters job) !! p_name p)]> m) ∅ (parameters job))
  = effective a.
Proof.
  intros Hty. unfold effective, normalized_for. f_equal. cbn. apply foldl_insert_ext. intros p Hp.
  rewrite stored_values; [by apply reread_typed, Hty|done| |done]. intros q _. by rewrite lookup_empty.
Qed.
Lemma drive_fresh_modes given id a c j res j' : Modes given j -> quiet job j -> tracked id ∅ j -> unlogged id j -> given a -> typed_args a ->
  drive job id a c true j = (res, j') -> Modes given j' ∧ quiet job j'.
Proof.
  intros HM Hq Ht Hl Hg Hty Hx. unfold drive in Hx. apply bind_inv in Hx as [(u & j1 & H1 & Hx)|(e & H1 & ->)].
  2:{ destruct (count_total job) as [[n k]|]; [|done]. by apply log_err_inv in H1 as (? & _). }
  assert (Hseeded : Modes given j1 ∧ quiet job j1 ∧ tracked id ∅ j1 ∧ unlogged id j1).
  { destruct (count_total job) as [[n k]|]; [|by injection H1 as <- <-]. apply log_err_inv in H1 as (_ & r2 & E2).
    unfold seed_progress_params, execute in E2.
    assert (Hev : exists v, query (lit "seed_progress_params") (exec (WSeed id (as_i64 n) k)) j = (v, j1)).
    { apply bind_inv in E2 as [(v & j3 & H3 & [= <- <-])|(e & H3 & _)]; by eexists. }
    destruct Hev as [v Hv]. destruct (query_cases job Hintent _ _ _ _ _ Hq Hv) as (j0 & He & Hq0 & Hcase).
    assert (Hstep : evolves job j0 (exec (WSeed id (as_i64 n) k) j0).2).
    { cbn [exec]. apply update_evolves; [|by intros ?? [= <-]]. intros r r' _ _ [= <-]. split; [|done]. intros key Hk. cbn.
      destruct Hseed as [S1 S2]. rewrite !lookup_insert_ne; [done|by intros <-|by intros <-]. }
    assert (Hall : evolves job j j1 ∧ quiet job j1).
    { pose proof (quiet_exec job (WSeed id (as_i64 n) k) j0 Hq0) as Hq2.
      destruct Hcase as [(text & _ & [->|(e & Eq)])|(v' & _ & Eq)]; [done| |]; rewrite Eq in *; (split; [by etrans|done]). }
    destruct Hall as [Hall Hq2]. split_and!; [by eapply modes_kept; [apply Hall|]|done|by eapply tracked_evolves|by eapply unlogged_kept; [apply Hall|]]. }
  destruct Hseeded as (HM1 & Hq1 & Ht1 & Hl1).
  apply bind_inv in Hx as [(bound & j2 & H2 & Hx)|(e & H2 & ->)]; cbn [persist_or_restore_args] in H2;
    apply (persist_spec given id a (parameters job) ∅ ∅) in H2 as (HM2 & Hq2 & Hl2 & Hb); try done.
  destruct Hb as [(e & [= ->])|([= ->] & Ht2 & HU2)]; [exact (failed_modes given id e j2 res j' HM2 Hq2 Hx)|].
  change (new_args _) with (effective a) in Hx.
  apply bind_inv in Hx as [([] & j4' & H3 & Hx)|(e & H3 & ->)]; apply log_err_inv in H3 as (? & r4 & E4); [|done].
  apply (set_param_spec _ _ _ _ _ _ _ Hq2 Ht2) in E4 as (j0 & He & Ht0 & Hq4 & Hcase).
  assert (Hrest0 : forall r, ours job j0 id r -> restored r = effective a).
  { intros r Hr. rewrite (tracked_restored id _ j0 r Ht0 Hr). by apply effective_stored. }
  assert (Hstamped : Modes given j4' ∧ (exists P, tracked id P j4') ∧ forall r, ours job j4' id r -> restored r = effective a).
  { destruct Hcase as [(-> & _)|(_ & Hd & Hf & r0 & Hr0 & Hr)].
    { split_and!; [by eapply modes_kept; [apply He|]|by eexists|done]. }
    assert (Hsame : restored (with_param UNATTENDED_RESUME_PARAM (bool_text (unattended_resume_allowed job (effective a))) r0) = restored r0).
    { unfold restored. f_equal. apply foldl_insert_ext. intros p Hp. cbn. rewrite lookup_insert_ne; [done|].
      intros Heq. apply Hstamp. rewrite Heq. by apply list_elem_of_fmap_2. }
    edestruct (modes_set given id UNATTENDED_RESUME_PARAM) as (HM4 & Ht4 & _);
      [by eapply modes_kept; [apply He|]|exact Ht0|by eapply unlogged_kept; [apply He|]|exact Hr0|exact Hr|done|done| |].
    { intros r Hr1 Hc. rewrite Hr1, Hsame, (Hrest0 r0 Hr0). unfold consenting in Hc. cbn in Hc. rewrite lookup_insert_eq in Hc.
      by destruct (unattended_resume_allowed job (effective a)). }
    split_and!; [done|by eexists|]. intros r [E _]. rewrite Hr, lookup_insert_eq in E. injection E as <-. rewrite Hsame. by apply Hrest0. }
  destruct Hstamped as (HM4 & (P4 & Ht4) & Hrest4).
  refine (run_modes given id P4 a c true (effective a) _ _ _ HM4 Hq4 Ht4 Hrest4 _ _ Hx); [done|]. intros _. by exists a.
Qed.
Lemma drive_resumed_modes given id P a c j res j' : Modes given j -> quiet job j -> tracked id P j ->
  (unattended a = true -> P !! UNATTENDED_RESUME_PARAM = Some (lit "true")) ->
  drive job id a c false j = (res, j') -> Modes given j' ∧ quiet job j'.
Proof.
  intros HM Hq Ht Hun Hx. unfold drive in Hx. apply bind_inv in Hx as [(u & j1 & [= <- <-] & Hx)|(e & H1 & ->)]; [|done].
  apply bind_inv in Hx as [(bound & j2 & H2 & Hx)|(e & H2 & ->)]; cbn [persist_or_restore_args] in H2;
    apply (restore_spec id P) in H2 as (He & Hq2 & Hb); try done; [|by destruct Hb as [(? & ?)|?]].
  pose proof (modes_kept given _ _ (proj1 He) HM) as HM2. pose proof (tracked_evolves id P _ _ He Ht) as Ht2.
  destruct Hb as [(e & [= ->])|[= ->]]; [exact (failed_modes given id e j2 res j' HM2 Hq2 Hx)|].
  apply bind_inv in Hx as [([] & j3 & [= <-] & Hx)|(e & H3 & ->)]; [|done].
  refine (run_modes given id P a c false _ _ _ _ HM2 Hq2 Ht2 _ _ _ Hx); [intros r Hr; by apply (tracked_restored id P j2)| |done].
  intros Hu _. destruct Ht2 as (r & Hr & Hu2 & Hp). rewrite <- (tracked_restored id P j2 r); [|by exists r|done].
  destruct HM2 as [_ _ _ M4 _ _ _]. apply (M4 id); [done|]. unfold consenting. rewrite Hp; [by apply Hun|by right].
Qed.
(** ** Opening a run *)
Definition opened_ok (no_human : bool) (o : OpenedRun) (j : Jobs) : Prop :=
  match o with
  | Fresh id => tracked id ∅ j ∧ unlogged id j
  | Resumed id _ => exists P, tracked id P j ∧ (no_human = true -> P !! UNATTENDED_RESUME_PARAM = Some (lit "true"))
  | _ => True
  end.
Lemma insert_modes given id j0 j' : Modes given j0 -> (id < fresh j0)%N -> unlogged id j0 ->
  exec (WInsert id (j_name job)) j0 = (Ok 1%N, j') -> Modes given j' ∧ tracked id ∅ j' ∧ unlogged id j'.
Proof.
  intros [M1 M2 M3 M4 M5 M6 M7] Hid Hl Hx. cbn [exec] in Hx. destruct (conflicts _ _ _); [done|].
  destruct (runs j0 !! id) as [r|] eqn:E; [done|]. set (r := mkRun _ _ _ _ _ _ _ _ _ _) in Hx. injection Hx as <-. split_and!.
  - split; cbn; try done.
    + intros id' Hi. destruct (decide (id' = id)) as [->|Hne]; [done|]. rewrite lookup_insert_ne in Hi by done. by apply M1.
    + intros d r' Hin [Hr Hn]. cbn in Hr. rewrite lookup_insert_ne in Hr by (intros Heq; by apply (Hl d)). by apply M3.
    + intros id' r' [Hr Hn] Hc. cbn in Hr. destruct (decide (id' = id)) as [->|Hne].
      * rewrite lookup_insert_eq in Hr. injection Hr as <-. unfold consenting in Hc. cbn in Hc. by rewrite lookup_empty in Hc.
      * rewrite lookup_insert_ne in Hr by done. by apply (M4 id').
  - exists r. split; [split; [cbn; by rewrite lookup_insert_eq|done]|]. split; [|done].
    by apply (unfinished_with Running r).
  - done.
Qed.
Lemma try_open_spec given no_human j res j' : Modes given j -> quiet job j -> try_open_or_start (j_name job) no_human j = (res, j') ->
  Modes given j' ∧ quiet job j' ∧ forall o, res = Ok (Some o) -> opened_ok no_human o j'.
Proof.
  intros HM Hq Hx. unfold try_open_or_start in Hx.
  apply bind_inv in Hx as [(existing & j0 & H0 & Hx)|(e & H0 & ->)];
    destruct (query_cases job Hintent _ _ _ _ _ Hq H0) as (j1 & He & Hq1 & Hcase).
  2:{ destruct Hcase as [(text & _ & [->|(e' & ?)])|(v & ? & _)]; try done. split_and!; try done. by eapply modes_kept; [apply He|]. }
  destruct Hcase as [(text & ? & _)|(v & [= <-] & [= Hlat <-])]; [done|]. pose proof (modes_kept given _ _ (proj1 He) HM) as HM1. clear H0.
  destruct existing as [[id row]|].
  - apply latest_some in Hlat as [Hrow Hp]. apply andb_true_iff in Hp as [Hjob%bool_decide_eq_true _].
    destruct (RunStatus.parse (r_status row)) as [st|] eqn:Est; [|by injection Hx as <- <-].
    destruct st; try (by injection Hx as <- <-; split_and!; try done; intros o [= <-]).
    destruct (no_human && _) eqn:Ehum; [by injection Hx as <- <-; split_and!; try done; intros o [= <-]|].
    assert (Ht1 : tracked id (r_params row) j1).
    { exists row. split; [done|]. split; [|done]. apply parse_status in Est. split; by rewrite (is_status_unique _ _ _ Est). }
    assert (Hconsent : no_human = true -> r_params row !! UNATTENDED_RESUME_PARAM = Some (lit "true")).
    { intros ->. cbn in Ehum. apply negb_false_iff in Ehum. by apply bool_decide_eq_true in Ehum. }
    apply bind_inv in Hx as [(back & j2 & H2 & Hx)|(e & H2 & ->)];
      destruct (query_cases job Hintent _ _ _ _ _ Hq1 H2) as (j3 & He3 & Hq3 & Hcase);
      assert (Hres : evolves job j3 (exec (WResume id) j3).2 ∧ quiet job (exec (WResume id) j3).2)
        by (split; [cbn [exec]; apply update_evolves; [|by intros ?? [= <-]]; intros r0 r' _ _ [= <-]; split; [done|]; intros _;
                    change (unfinished (with_status Running r0)); by apply unfinished_with|by apply quiet_exec]);
      destruct (exec (WResume id) j3) as [[n|e'] j4].
    + assert (j2 = j4) as -> by (by destruct Hcase as [(text & ? & _)|(v & _ & [= _ ->])]). cbn in Hres. destruct Hres as [He4 Hq4].
      pose proof (tracked_evolves id _ _ _ (transitivity He3 He4) Ht1) as Ht4.
      pose proof (modes_kept given _ _ (proj1 (transitivity He3 He4)) HM1) as HM4.
      destruct back as [cur|]; injection Hx as <- <-; split_and!; try done. intros o [= <-]. by exists (r_params row).
    + by destruct Hcase as [(text & ? & _)|(v & _ & ?)].
    + cbn in Hres. destruct Hcase as [(text & _ & [->|(e' & ?)])|(v & ? & _)]; try done.
      split_and!; try done. by eapply modes_kept; [apply He3|].
    + cbn in Hres. destruct Hcase as [(text & _ & [->|(e2 & [= <- <-])])|(v & ? & _)]; try done.
      * split_and!; try done. by eapply modes_kept; [apply He3|].
      * split_and!; try done; [|apply Hres]. eapply modes_kept; [apply Hres|]. by eapply modes_kept; [apply He3|].
  - apply bind_inv in Hx as [(id & j2 & [= <- <-] & Hx)|(e & ? & _)]; [|done].
    apply bind_inv in Hx as [([] & j2 & [= <-] & Hx)|(e & ? & _)]; [|done].
    set (j2 := mkJobs _ _ _ (N.succ (fresh j1)) _ _ _) in Hx.
    assert (HM2 : Modes given j2).
    { destruct HM1 as [M1 M2 M3 M4 M5 M6 M7]. split; cbn; try done; [intros id Hi; specialize (M1 id Hi)|intros d Hd; specialize (M2 d Hd)]; lia. }
    assert (Hl2 : unlogged (fresh j1) j2). { intros d Hd Heq. pose proof (m_log given j1 HM1 d Hd). lia. }
    apply bind_inv in Hx as [(n & j3 & H3 & Hx)|(e & H3 & ->)];
      destruct (query_cases job Hintent _ _ _ _ _ (Hq1 : quiet job j2) H3) as (j4 & He4 & Hq4 & Hcase);
      pose proof (modes_kept given _ _ (proj1 He4) HM2) as HM4; pose proof (unlogged_kept _ _ _ (proj1 He4) Hl2) as Hl4;
      (assert (Hid : (fresh j1 < fresh j4)%N) by (destruct He4 as [(_ & _ & Hf & _) _]; cbn in Hf; lia));
      pose proof (quiet_exec job (WInsert (fresh j1) (j_name job)) j4 Hq4) as Hq5.
    + destruct Hcase as [(text & ? & _)|(n' & [= <-] & Eq)]; [done|]. injection Hx as <- <-. rewrite Eq in Hq5. destruct (N.eqb_spec n 1) as [->|Hn].
      * destruct (insert_modes given _ _ _ HM4 Hid Hl4 Eq) as (HM5 & Ht5 & Hl5). split_and!; try done. by intros o [= <-].
      * cbn [exec] in Eq. destruct (conflicts _ _ _); [injection Eq as <- <-; by split_and!|]. destruct (runs j4 !! _); [done|]. by injection Eq.
    + destruct Hcase as [(text & _ & [->|(e' & Eq)])|(v & ? & _)]; [by split_and!| |done]. rewrite Eq in Hq5.
      cbn [exec] in Eq. destruct (conflicts _ _ _); [done|]. destruct (runs j4 !! _); [|done]. injection Eq as _ <-. by split_and!.
Qed.
Lemma open_spec given no_human j res j' : Modes given j -> quiet job j -> open_or_start (j_name job) no_human j = (res, j') ->
  Modes given j' ∧ quiet job j' ∧ forall o, res = Ok o -> opened_ok no_human o j'.
Proof.
  intros HM Hq Hx. unfold open_or_start in Hx.
  apply bind_inv in Hx as [(first & j1 & H1 & Hx)|(e & H1 & ->)]; apply (try_open_spec given) in H1 as (HM1 & Hq1 & Ho1); try done.
  destruct first as [o|]; [injection Hx as <- <-; split_and!; try done; intros o' [= <-]; by apply Ho1|].
  apply bind_inv in Hx as [(second & j2 & H2 & Hx)|(e & H2 & ->)]; apply (try_open_spec given) in H2 as (HM2 & Hq2 & Ho2); try done.
  destruct second as [o|]; injection Hx as <- <-; split_and!; try done. intros o' [= <-]. by apply Ho2.
Qed.
Lemma run_or_resume_modes (given : JobRunArgs -> Prop) a j res j' : Modes given j -> quiet job j -> given a -> typed_args a ->
  run_or_resume job a j = (res, j') -> Modes given j' ∧ quiet job j'.
Proof.
  intros HM Hq Hg Hty Hx. unfold run_or_resume in Hx. apply attempt_inv in Hx as (opened & j1 & H1 & Hx).
  destruct (open_spec given _ _ _ _ HM Hq H1) as (HM1 & Hq1 & Ho).
  destruct opened as [[id|id c|id st|id]|e]; try (by injection Hx as <- <-).
  - destruct (Ho _ eq_refl) as [Ht Hl]. by apply (drive_fresh_modes given) in Hx.
  - destruct (Ho _ eq_refl) as (P & Ht & Hu). by apply (drive_resumed_modes given _ P) in Hx.
Qed.
End modes.

(** ** Histories *)
Inductive Event := Trigger (a : JobRunArgs) | Meanwhile (l : list Act).
Definition run_event `{UuidText} (job : RecoverableJob) (j : Jobs) (e : Event) : Jobs :=
  match e with Trigger a => (run_or_resume job a j).2 | Meanwhile l => acts l j end.
Definition event_ok (job : RecoverableJob) (e : Event) : Prop :=
  match e with Trigger a => typed_args job a | Meanwhile l => Forall (quiet_act job) l end.
(** The parameters a job declares have names of their own, apart from the keys the driver uses,
    and its handler writes none of them. *)
Record JobOk (job : RecoverableJob) : Prop := {
  ok_names : NoDup (p_name <$> parameters job);
  ok_reserved : Forall (fun k => k ∉ p_name <$> parameters job)
                  [CANCEL_INTENT_PARAM; UNATTENDED_RESUME_PARAM; lit "total_rows"; lit "progress_kind"];
  ok_handler a c : well_behaved job (run_resumable job a c);
}.
Lemma reserved_unprotected job : JobOk job ->
  ¬ protected job CANCEL_INTENT_PARAM ∧ UNATTENDED_RESUME_PARAM ∉ p_name <$> parameters job
  ∧ ¬ protected job (lit "total_rows") ∧ ¬ protected job (lit "progress_kind").
Proof.
  intros [_ Hr _]. repeat (apply Forall_cons_1 in Hr as [? Hr]). unfold protected. split_and!; try done.
  all: intros [?|Heq]; [done|]; by vm_compute in Heq.
Qed.
Section history.
Context `{UuidText} (job : RecoverableJob).
Lemma history_modes (given : JobRunArgs -> Prop) es : JobOk job -> forall j, Modes job given j -> quiet job j -> Forall (event_ok job) es ->
  (forall a, Trigger a ∈ es -> given a) -> Modes job given (foldl (run_event job) j es) ∧ quiet job (foldl (run_event job) j es).
Proof.
  intros Hok. destruct (reserved_unprotected job Hok) as (H1 & H2 & H3 & H4). destruct Hok as [Hn _ Hw].
  induction es as [|e es IH]; intros j HM Hq He Hg; [done|]. apply Forall_cons_1 in He as [He Hes]. cbn [foldl].
  assert (Hstep : Modes job given (run_event job j e) ∧ quiet job (run_event job j e)).
  { destruct e as [a|l]; cbn in *.
    - destruct (run_or_resume job a j) as [res j'] eqn:Ex. cbn. apply (run_or_resume_modes job H1 Hn H2 Hw (conj H3 H4) given a j res j'); try done.
      apply Hg. by left.
    - split; [eapply modes_kept; [|done]; by apply acts_evolve|]. unfold quiet. by destruct (scripts_acts l j) as [-> _]. }
  destruct Hstep. apply IH; try done. intros a Hin. apply Hg. by right.
Qed.

(** C25: a run keeps the mode it was started in, and acts unattended only with consent.  Whatever
    sequence of triggers and scheduled ticks a job gets, whatever operators, restarts, the purge
    and the drivers of other jobs do between and during them, and whichever statements fail:
    every handler that is started for one run gets the same arguments, namely those of the
    trigger that started it, declared ones only, defaults filled in, never those of the trigger
    that resumed it; and when a tick without a human resumes a run, the job's policy allows
    that for exactly those arguments. *)
Theorem run_keeps_its_mode es j : JobOk job -> runs j = ∅ -> dispatched j = [] -> quiet job j -> Forall (event_ok job) es ->
  let log := dispatched (foldl (run_event job) j es) in
  (forall d d', d ∈ log -> d' ∈ log -> d_run d = d_run d' -> d_args d = d_args d')
  ∧ (forall d, d ∈ log -> d_fresh d = true -> exists a, Trigger a ∈ es ∧ d_args d = effective job a)
  ∧ (forall d, d ∈ log -> d_unattended d = true -> d_fresh d = false -> unattended_resume_allowed job (d_args d) = true).
Proof.
  intros Hok Hr Hd Hq He log.
  assert (HM : Modes job (fun a => Trigger a ∈ es) j).
  { split; rewrite ?Hd; try (by intros d ?%elem_of_nil); try (by intros d d' ?%elem_of_nil); intros id; unfold ours; rewrite ?Hr.
    - by intros [? ?].
    - by intros r [? _]. }
  by destruct (history_modes (fun a => Trigger a ∈ es) es Hok j HM Hq He (fun a Ha => Ha)) as [[_ _ _ _ M5 M6 M7] _].
Qed.
End history.
