(* ===== verification/JobClaims.v ===== *)
(** * Recoverable runs: how they end, and where they do not

    The row of a run after its driver is done, and what the next trigger of the job makes of it;
    then two runs in which a terminal cancellation goes wrong.  Concrete instances of the
    theorems of [JobTheorems] and of this file are at the end. *)

From S2P Require Import Prelude.
From S2P Require Import RustStr.
From S2P Require Import DomainErrors.
From S2P Require Import JobStore.
From S2P Require Import JobTheorems.

#[local] Arguments lit : simpl never.
#[local] Arguments RunStatus.as_str : simpl never.

(** ** A table with one active run of the job *)
Definition only_active (id : Uuid) (name : str) (j : Jobs) : Prop :=
  forall id' r', id' ≠ id -> runs j !! id' = Some r' -> r_job r' = name -> active r' = false.
Definition still (j : Jobs) : Prop := faults j = [] ∧ meanwhile j = [].
Lemma no_conflict id name j r : only_active id name j -> r_job r = name -> conflicts (runs j) id r = false.
Proof.
  intros Ho Hn. unfold conflicts. apply andb_false_iff. right. apply existsb_false. intros [id' r'] Hin.
  apply elem_of_map_to_list in Hin. destruct (bool_decide_reflect (id' = id)) as [|Hne]; cbn; [by subst; rewrite bool_decide_true|].
  rewrite bool_decide_false by done. cbn. destruct (bool_decide_reflect (r_job r' = r_job r)) as [He|]; [|done]. cbn. apply (Ho id'); congruence.
Qed.
Lemma latest_only p id r j : runs j !! id = Some r -> p r = true -> (forall id' r', id' ≠ id -> runs j !! id' = Some r' -> p r' = false) ->
  latest p j = Some (id, r).
Proof.
  intros Hr Hp Ho. destruct (latest p j) as [[id' r']|] eqn:E.
  - apply latest_some in E as [Hr' Hp']. destruct (decide (id' = id)) as [->|Hne]; [congruence|]. by rewrite (Ho id' r') in Hp'.
  - by rewrite (latest_none p j id r E Hr) in Hp.
Qed.
Lemma latest_empty p j : (forall id r, runs j !! id = Some r -> p r = false) -> latest p j = None.
Proof. intros Ho. destruct (latest p j) as [[id r]|] eqn:E; [|done]. apply latest_some in E as [Hr Hp]. by rewrite (Ho id r) in Hp. Qed.

Section still.
Context `{UuidText}.
Lemma fault_free_query {T} op (q : Jobs -> result str T * Jobs) j : faults j = [] ->
  query op q j = match q (interfere j) with (Ok v, j') => (Ok v, j') | (Err e, j') => (Err (store_error (op ++ lit ": " ++ e)), j') end.
Proof.
  intros Hf. assert (Hfi : faults (interfere j) = []) by (unfold interfere; by destruct (scripts_acts (default [] (head (meanwhile j)))
    (mkJobs (runs j) (findings j) (now j) (fresh j) (faults j) (tail (meanwhile j)) (dispatched j))) as [_ ->]).
  unfold query. destruct (interfere j) as [rs fi t fr fa me di]. cbn in *. by subst.
Qed.
Lemma still_query {T} op (q : Jobs -> result str T * Jobs) j : still j ->
  query op q j = match q j with (Ok v, j') => (Ok v, j') | (Err e, j') => (Err (store_error (op ++ lit ": " ++ e)), j') end.
Proof.
  intros [Hf Hm]. rewrite fault_free_query by done. unfold interfere. rewrite Hm. destruct j as [rs fi t fr fa me di]. cbn in *. by subst.
Qed.
Lemma still_exec s j : still j -> still (exec s j).2.
Proof. unfold still. by destruct (scripts_exec s j) as [-> ->]. Qed.
(** A change of the one active run. *)
Lemma still_update op st id f j r : still j -> runs j !! id = Some r -> only_active id (r_job r) j ->
  exec st j = update_run id (fun r => Ok (f r)) j -> r_job (f r) = r_job r ->
  execute op st j = (Ok 1%N, set_runs (<[id := f r]> (runs j)) j).
Proof.
  intros Hs Hr Ho Hst Hj. unfold execute. rewrite still_query by done. rewrite Hst. unfold update_run. rewrite Hr.
  by rewrite (no_conflict id (r_job r) j).
Qed.
Lemma log_update op st id f j r : still j -> runs j !! id = Some r -> only_active id (r_job r) j ->
  exec st j = update_run id (fun r => Ok (f r)) j -> r_job (f r) = r_job r ->
  log_err (execute op st) j = (Ok tt, set_runs (<[id := f r]> (runs j)) j).
Proof. intros. unfold log_err, attempt. unfold_m. by rewrite (still_update op st id f j r). Qed.
Lemma still_set m j : still j -> still (set_runs m j).
Proof. done. Qed.
Lemma only_active_set id name r j : only_active id name j -> only_active id name (set_runs (<[id := r]> (runs j)) j).
Proof. intros Ho id' r' Hne Hr. cbn in Hr. rewrite lookup_insert_ne in Hr by done. by apply (Ho id' r'). Qed.

(** The row of a run, by what its handler reported and whether it was to be abandoned. *)
Definition ended (t : Z) (o : RunOutcome) (abandon : bool) (r r' : Run) : Prop :=
  match o with
  | RCompleted extra => is_status Completed r' = true ∧ r_completed r' = Some t ∧ r_error_reason r' = None ∧ r_stats r' = extra ∪ r_stats r
  | RPaused cursor => is_status (if abandon then Cancelled else Paused) r' = true ∧ r_cursor r' = Some cursor
  | RPausedRetryable cursor reason detail =>
      is_status Paused r' = true ∧ r_cursor r' = Some cursor ∧ r_error_reason r' = Some reason ∧ r_error_message r' = Some detail
  | RFailed message => is_status Failed r' = true ∧ r_completed r' = Some t ∧ r_error_message r' = Some message
  end.
Definition abandoned (r : Run) : bool := bool_decide (r_params r !! CANCEL_INTENT_PARAM = Some CANCEL_INTENT_TERMINATE).
(** What the next trigger does with it: a paused run goes on from its cursor, any other makes
    room for a new one. *)
Definition next_open (o : RunOutcome) (abandon : bool) (id : Uuid) (j : Jobs) : OpenedRun :=
  match o with
  | RPaused cursor => if abandon then Fresh (fresh j) else Resumed id cursor
  | RPausedRetryable cursor _ _ => Resumed id cursor
  | _ => Fresh (fresh j)
  end.
Lemma fetch_stats_still id j : still j -> exists st, fetch_outcome_stats id j = (Ok st, j).
Proof. intros Hs. unfold fetch_outcome_stats, fetch. unfold_m. unfold attempt. rewrite still_query by done. by eexists. Qed.
(** What [settle] leaves: only the row of the run is different. *)
Definition settled (id : Uuid) (o : RunOutcome) (r : Run) (j : Jobs) (res : result DomainError JobOutcome) (j' : Jobs) : Prop :=
  still j' ∧ fresh j' = fresh j ∧ (exists out, res = Ok out)
  ∧ exists r', runs j' = <[id := r']> (runs j) ∧ r_job r' = r_job r ∧ r_params r' = r_params r ∧ ended (now j) o (abandoned r) r r'.
Lemma settle_completed id extra r j res j' : still j -> runs j !! id = Some r -> only_active id (r_job r) j ->
  settle id (RCompleted extra) j = (res, j') -> settled id (RCompleted extra) r j res j'.
Proof.
  intros Hs Hr Ho Hx. unfold settle in Hx. destruct (fetch_stats_still id j Hs) as [st Est].
  rewrite (bind_ok _ _ _ _ _ Est) in Hx.
  set (r1 := if decide (extra = ∅) then r else with_progress (now j) (with_stats (extra ∪ r_stats r) r)).
  assert (Hmerge : (if decide (extra = ∅) then mret tt else log_err (merge_stats id extra)) j
                   = (Ok tt, if decide (extra = ∅) then j else set_runs (<[id := r1]> (runs j)) j)).
  { unfold r1. destruct (decide (extra = ∅)); [done|]. unfold log_err, attempt, merge_stats. rewrite decide_False by done. unfold_m.
    by rewrite (still_update _ (WMerge id extra) id (fun r => with_progress (now j) (with_stats (extra ∪ r_stats r) r)) j r). }
  rewrite (bind_ok _ _ _ _ _ Hmerge) in Hx. clear Hmerge.
  set (j1 := if decide (extra = ∅) then j else set_runs (<[id := r1]> (runs j)) j) in Hx.
  assert (H1 : still j1 ∧ fresh j1 = fresh j ∧ now j1 = now j ∧ runs j1 = <[id := r1]> (runs j) ∧ r_job r1 = r_job r ∧ only_active id (r_job r) j1).
  { unfold j1, r1. destruct (decide (extra = ∅)); split_and!; try done; [by rewrite insert_id|by apply only_active_set]. }
  destruct H1 as (Hs1 & Hf1 & Hn1 & Hrs1 & Hj1 & Ho1).
  assert (Hmark : log_err (execute (lit "mark_completed") (WCompleted id)) j1
    = (Ok tt, set_runs (<[id := with_error None None (with_progress (now j) (with_completed (now j) (with_status Completed r1)))]> (runs j1)) j1)).
  { rewrite <- Hn1. by apply (log_update _ (WCompleted id) id
      (fun r => with_error None None (with_progress (now j1) (with_completed (now j1) (with_status Completed r)))) j1 r1);
      [|rewrite Hrs1, lookup_insert_eq|rewrite Hj1|..]. }
  rewrite (bind_ok _ _ _ _ _ Hmark) in Hx. clear Hmark. set (j2 := set_runs _ j1) in Hx.
  destruct (fetch_stats_still id j2 Hs1) as [st2 Est2]. rewrite (bind_ok _ _ _ _ _ Est2) in Hx. injection Hx as <- <-.
  split_and!; [done|done|by eexists|]. eexists. split; [cbn; by rewrite Hrs1, insert_insert_eq|]. cbn. split; [done|].
  split; [unfold r1; by destruct (decide (extra = ∅))|]. split_and!; try done. unfold r1. destruct (decide (extra = ∅)) as [->|]; [|done]. by rewrite (left_id ∅ (∪)).
Qed.
Lemma settle_still id o r j res j' : still j -> runs j !! id = Some r -> only_active id (r_job r) j -> settle id o j = (res, j') ->
  settled id o r j res j'.
Proof.
  intros Hs Hr Ho Hx. unfold settled. destruct o as [extra|cursor|cursor reason detail|message]; [by apply settle_completed|..];
    unfold settle in Hx; destruct (fetch_stats_still id j Hs) as [st Est]; rewrite (bind_ok _ _ _ _ _ Est) in Hx.
  - assert (Hget : attempt (get_string_param id CANCEL_INTENT_PARAM) j = (Ok (Ok (r_params r !! CANCEL_INTENT_PARAM)), j)).
    { unfold attempt, get_string_param, fetch. rewrite still_query by done. cbn. by rewrite Hr. }
    rewrite (bind_ok _ _ _ _ _ Hget) in Hx. clear Hget.
    assert (Hab : bool_decide (Ok (r_params r !! CANCEL_INTENT_PARAM) = @Ok DomainError _ (Some CANCEL_INTENT_TERMINATE)) = abandoned r).
    { unfold abandoned. apply bool_decide_ext. split; [by intros [= ?]|by intros ->]. }
    rewrite Hab in Hx. destruct (abandoned r) eqn:Ea.
    + rewrite (bind_ok _ _ _ _ _ (log_update _ (WCancelled id (Some cursor)) id (fun r => with_progress (now j) (with_completed (now j) (with_cursor cursor (with_status Cancelled r)))) j r Hs Hr Ho eq_refl eq_refl)) in Hx.
      injection Hx as <- <-. split_and!; [done|done|by eexists|]. eexists. by split_and!.
    + rewrite (bind_ok _ _ _ _ _ (log_update _ (WPaused id (Some cursor)) id (fun r => with_progress (now j) (with_cursor cursor (with_status Paused r))) j r Hs Hr Ho eq_refl eq_refl)) in Hx.
      injection Hx as <- <-. split_and!; [done|done|by eexists|]. eexists. by split_and!.
  - rewrite (bind_ok _ _ _ _ _ (log_update _ (WRetryable id (Some cursor) reason detail) id
      (fun r => with_progress (now j) (with_error (Some reason) (Some detail) (with_cursor cursor (with_status Paused r)))) j r Hs Hr Ho eq_refl eq_refl)) in Hx.
    injection Hx as <- <-. split_and!; [done|done|by eexists|]. eexists. by split_and!.
  - rewrite (bind_ok _ _ _ _ _ (log_update _ (WFailed id message) id
      (fun r => with_error (Some FAILED_REASON) (Some message) (with_progress (now j) (with_completed (now j) (with_status Failed r)))) j r Hs Hr Ho eq_refl eq_refl)) in Hx.
    injection Hx as <- <-. split_and!; [done|done|by eexists|]. eexists. by split_and!.
Qed.
Lemma open_resumes id r cursor j : still j -> runs j !! id = Some r -> only_active id (r_job r) j -> is_status Paused r = true ->
  r_cursor r = Some cursor -> (open_or_start (r_job r) false j).1 = Ok (Resumed id cursor).
Proof.
  intros Hs Hr Ho Hp Hc. unfold open_or_start, try_open_or_start, fetch. unfold_m. rewrite still_query by done.
  rewrite (latest_only _ id r j Hr); [|by unfold active; rewrite bool_decide_true, Hp, orb_true_r|].
  2:{ intros id' r' Hne Hr'. destruct (bool_decide_reflect (r_job r' = r_job r)); [|done]. cbn. by apply (Ho id' r'). }
  unfold is_status in Hp. apply bool_decide_eq_true in Hp. rewrite Hp, RunStatus.parse_as_str. cbn [andb]. rewrite still_query by done.
  cbn [exec]. unfold update_run. rewrite Hr, (no_conflict id (r_job r) j) by done. cbn. rewrite lookup_insert_eq. cbn. by rewrite Hc.
Qed.
Lemma open_starts name j : still j -> (forall id, is_Some (runs j !! id) -> (id < fresh j)%N) ->
  (forall id r, runs j !! id = Some r -> r_job r = name -> active r = false) -> (open_or_start name false j).1 = Ok (Fresh (fresh j)).
Proof.
  intros Hs Hf Ha. unfold open_or_start, try_open_or_start, fetch. unfold_m. rewrite still_query by done.
  rewrite latest_empty. 2:{ intros id r Hr. destruct (bool_decide_reflect (r_job r = name)); [|done]. cbn. by apply (Ha id). }
  unfold execute. rewrite still_query by done. cbn [exec]. set (r := mkRun _ _ _ _ _ _ _ _ _ _). set (j1 := mkJobs _ _ _ _ _ _ _).
  rewrite (no_conflict (fresh j) name j1 r); [|intros id' r' _ Hr'; by apply (Ha id')|done].
  assert (runs j1 !! fresh j = None) as ->; [|done].
  destruct (runs j1 !! fresh j) as [r0|] eqn:E; [|done]. assert (fresh j < fresh j)%N by (apply Hf; by exists r0). lia.
Qed.

(** A run ends as its handler reported, and the next trigger takes it from there.  With one
    active run of the job and nothing failing: a completed run is marked completed, without an
    error, its counters merged; a paused one keeps exactly the cursor the handler returned, and
    is cancelled instead when it was to be abandoned; a retryable pause keeps the cursor and
    the reason; a failed one keeps the message.  The next trigger resumes a paused run from
    that cursor, and starts a new run in every other case. *)
Theorem run_ends_as_reported id r o j : still j -> runs j !! id = Some r -> only_active id (r_job r) j ->
  (forall id', is_Some (runs j !! id') -> (id' < fresh j)%N) ->
  let j' := (settle id o j).2 in
  (exists r', runs j' !! id = Some r' ∧ ended (now j) o (abandoned r) r r')
  ∧ (forall id', id' ≠ id -> runs j' !! id' = runs j !! id')
  ∧ (open_or_start (r_job r) false j').1 = Ok (next_open o (abandoned r) id j').
Proof.
  intros Hs Hr Ho Hf j'. destruct (settle id o j) as [res j1] eqn:Ex. cbn in j'. subst j'.
  destruct (settle_still id o r j res j1 Hs Hr Ho Ex) as (Hs1 & Hf1 & _ & r' & Hrs & Hj & _ & He).
  assert (Hr' : runs j1 !! id = Some r') by by rewrite Hrs, lookup_insert_eq.
  assert (Ho' : only_active id (r_job r') j1).
  { intros id' r2 Hne. rewrite Hrs, lookup_insert_ne, Hj by done. by apply (Ho id' r2). }
  assert (Hfresh : is_status Running r' = false -> is_status Paused r' = false -> is_status CancelRequested r' = false ->
    (open_or_start (r_job r) false j1).1 = Ok (Fresh (fresh j1))).
  { intros H1 H2 H3. apply open_starts; [done| |].
    - intros id'. rewrite Hrs, Hf1. destruct (decide (id' = id)) as [->|Hne]; [intros _; apply Hf; by rewrite Hr|].
      rewrite lookup_insert_ne by done. apply Hf.
    - intros id' r2 Hr2 Hj2. destruct (decide (id' = id)) as [->|Hne]; [|apply (Ho' id'); [done|done|congruence]].
      rewrite Hr' in Hr2. injection Hr2 as <-. unfold active. by rewrite H1, H2, H3. }
  split_and!; [by exists r'|intros id' Hne; by rewrite Hrs, lookup_insert_ne|].
  destruct o as [x|c|c rs d|m]; cbn in *.
  - destruct He as [Hst _]. apply Hfresh; by rewrite (is_status_unique _ _ _ Hst).
  - destruct He as [Hst Hc]. destruct (abandoned r); [apply Hfresh; by rewrite (is_status_unique _ _ _ Hst)|].
    rewrite <- Hj. by apply open_resumes.
  - destruct He as (Hst & Hc & _). rewrite <- Hj. by apply open_resumes.
  - destruct He as [Hst _]. apply Hfresh; by rewrite (is_status_unique _ _ _ Hst).
Qed.

(** A cancellation can bring a finished run back.  When a run completes between the two
    statements of a terminal cancellation, the second one marks it as being cancelled although
    it is over: the operator is told it was cancelled, its row is active again with a
    completion time, and every later trigger of the job is refused as already running. *)
Theorem cancelled_after_completion (job : RecoverableJob) id r j : runs j !! id = Some r -> r_job r = j_name job ->
  is_status Running r = true -> only_active id (j_name job) j -> faults j = [] ->
  meanwhile j = [[]; [Other (j_name job) (WCompleted id)]] ->
  let j' := (request_terminal_cancel (j_name job) j).2 in
  (request_terminal_cancel (j_name job) j).1 = Ok (Some id)
  ∧ (exists r', runs j' !! id = Some r' ∧ is_status CancelRequested r' = true ∧ is_Some (r_completed r'))
  ∧ forall a, (run_or_resume job a j').1 = Ok (JSkipped id CancelRequested).
Proof.
  intros Hr Hj Hst Ho Hf Hm. destruct j as [rs fi t fr fa me di]. cbn in Hf, Hm. subst fa me. cbn in Hr.
  set (j0 := mkJobs rs fi t fr [] [] di).
  set (done_ := with_error None None (with_progress t (with_completed t (with_status Completed r)))).
  set (back := with_progress t (with_param CANCEL_INTENT_PARAM CANCEL_INTENT_TERMINATE (with_status CancelRequested done_))).
  assert (Hx : request_terminal_cancel (j_name job) (mkJobs rs fi t fr [] [[]; [Other (j_name job) (WCompleted id)]] di)
    = (Ok (Some id), set_runs (<[id := back]> rs) j0)).
  { assert (Hlat : latest (fun r => bool_decide (r_job r = j_name job) && active r) (mkJobs rs fi t fr [] [[Other (j_name job) (WCompleted id)]] di) = Some (id, r)).
    { apply latest_only; [done|unfold active; by rewrite bool_decide_true, Hst|].
      intros id' r' Hne Hr'. destruct (bool_decide_reflect (r_job r' = j_name job)); [|done]. cbn. by apply (Ho id' r'). }
    unfold request_terminal_cancel, fetch. unfold_m. rewrite fault_free_query by done.
    change (interfere _) with (mkJobs rs fi t fr [] [[Other (j_name job) (WCompleted id)]] di). rewrite Hlat.
    rewrite (is_status_unique _ _ _ Hst). rewrite bool_decide_false by done. unfold execute. rewrite fault_free_query by done.
    assert (Hin : interfere (mkJobs rs fi t fr [] [[Other (j_name job) (WCompleted id)]] di) = set_runs (<[id := done_]> rs) j0).
    { unfold interfere. cbn. rewrite Hr, bool_decide_true by done. cbn. unfold update_run. cbn. rewrite Hr.
      change (conflicts rs id _) with (conflicts (runs j0) id done_). by rewrite (no_conflict id (j_name job) j0 done_). }
    rewrite Hin. cbn [exec]. unfold update_run. cbn [runs set_runs]. rewrite lookup_insert_eq.
    change (conflicts _ _ _) with (conflicts (runs (set_runs (<[id := done_]> rs) j0)) id back).
    rewrite (no_conflict id (j_name job) (set_runs (<[id := done_]> rs) j0) back); [|by apply (only_active_set id _ done_ j0)|done].
    unfold set_runs. cbn. by rewrite insert_insert_eq. }
  cbn zeta. rewrite Hx. cbn [fst snd]. split; [done|].
  assert (Hb : is_status CancelRequested back = true) by (unfold back; exact (is_status_with CancelRequested CancelRequested done_)).
  split; [exists back; split; [cbn; by rewrite lookup_insert_eq|by split]|].
  intros a. unfold run_or_resume, open_or_start, try_open_or_start, fetch, attempt. unfold_m. rewrite still_query by done.
  rewrite (latest_only _ id back); [|cbn; by rewrite lookup_insert_eq|unfold active; by rewrite bool_decide_true, Hb, !orb_true_r|].
  2:{ intros id' r' Hne Hr'. cbn in Hr'. rewrite lookup_insert_ne in Hr' by done. destruct (bool_decide_reflect (r_job r' = j_name job)); [|done]. cbn. by apply (Ho id' r'). }
  change (r_status back) with (RunStatus.as_str CancelRequested). by rewrite RunStatus.parse_as_str.
Qed.
End still.

(** ** A concrete job

    A scan that pauses when the backend fails and pauses again when it is resumed. *)
Module Scan.
Definition text : UuidText := decimal_uuid_text.
Definition repair : JobParam := mkParam (lit "repair") TBoolean (DBoolean false) [].
Definition scan : RecoverableJob :=
  mkJob (lit "scan") [repair] default_unattended_resume_allowed None
    (fun _ cursor => match cursor with
                     | None => HStatus (fun _ => HDone (RPausedRetryable [1]%Z (lit "backend_timeout") (lit "scan: no answer")))
                     | Some c => HDone (RPaused c)
                     end).
Definition idle (others : list (list Act)) : Jobs := mkJobs ∅ [] 0 0 [] others [].
Definition plain : JobRunArgs := new_args ∅.
Definition repairing : JobRunArgs := new_args {[lit "repair" := VBoolean true]}.
Lemma scan_ok : JobOk scan.
Proof.
  split.
  - apply NoDup_singleton.
  - repeat constructor; intros Hin%list_elem_of_singleton; by vm_compute in Hin.
  - intros a [c|]; cbn; [done|]. by intros r.
Qed.
Lemma repairing_typed : typed_args scan repairing.
Proof. intros p ->%list_elem_of_singleton. done. Qed.
Lemma plain_typed : typed_args scan plain.
Proof. intros p ->%list_elem_of_singleton. done. Qed.
End Scan.
Import Scan.
Definition row_status (j : Jobs) (id : Uuid) : option str := r_status <$> runs j !! id.

(** An abandoned run goes on.  An operator cancels a running scan for good; before it yields
    its backend fails, so it pauses for a retry, which does not look at the cancellation.  The
    run is left paused, the next scheduled tick resumes it without a human, and because the
    mark of the cancellation is still in its row, the first ordinary pause later on ends the
    run that nobody asked to end. *)
Theorem abandoned_run_goes_on :
  let started := @run_or_resume text scan plain (idle [[]; []; []; []; [Admin (WTermActive 0)]]) in
  let resumed := @run_or_resume text scan (set_unattended plain) started.2 in
  row_status started.2 0 = Some (RunStatus.as_str Paused)
  ∧ (d_unattended <$> dispatched resumed.2) = [false; true]
  ∧ resumed.1 = Ok (JCancelled 0 [1]%Z 0 0)
  ∧ row_status resumed.2 0 = Some (RunStatus.as_str Cancelled).
Proof. by vm_compute. Qed.

Lemma run_keeps_its_mode_witness :
  let j := foldl (@run_event text scan) (idle []) [Trigger repairing; Meanwhile [Admin WSweep]; Trigger plain] in
  (d_fresh <$> dispatched j) = [true; false]
  ∧ forall d d', d ∈ dispatched j -> d' ∈ dispatched j -> d_run d = d_run d' -> d_args d = d_args d'.
Proof.
  split; [by vm_compute|].
  apply (@run_keeps_its_mode text scan [Trigger repairing; Meanwhile [Admin WSweep]; Trigger plain] (idle []) scan_ok eq_refl eq_refl); [constructor|].
  repeat constructor; [apply repairing_typed|apply plain_typed].
Defined.
Lemma run_ends_as_reported_witness :
  let r := mkRun (lit "scan") (RunStatus.as_str Running) 0 0 None None ∅ ∅ None None in
  let j := mkJobs {[0%N := r]} [] 5 1 [] [] [] in
  (@open_or_start text (lit "scan") false (@settle text 0 (RPaused [7]%Z) j).2).1 = Ok (Resumed 0 [7]%Z).
Proof.
  intros r j.
  apply (@run_ends_as_reported text 0 r (RPaused [7]%Z) j); [done|by apply lookup_singleton_eq| |].
  - intros id' r' Hne Hr. change (({[0%N := r]} : gmap Uuid Run) !! id' = Some r') in Hr. by apply lookup_singleton_Some in Hr as [<- _].
  - intros id' [r' Hr]. change (({[0%N := r]} : gmap Uuid Run) !! id' = Some r') in Hr. by apply lookup_singleton_Some in Hr as [<- _].
Defined.
Lemma cancelled_after_completion_witness :
  let r := mkRun (lit "scan") (RunStatus.as_str Running) 0 0 None None ∅ ∅ None None in
  let j := mkJobs {[0%N := r]} [] 5 1 [] [[]; [Other (lit "scan") (WCompleted 0)]] [] in
  (@run_or_resume text scan plain (request_terminal_cancel (lit "scan") j).2).1 = Ok (JSkipped 0 CancelRequested).
Proof.
  intros r j.
  apply (@cancelled_after_completion text scan 0 r j); [by apply lookup_singleton_eq|done|by vm_compute| |done|done].
  intros id' r' Hne Hr. change (({[0%N := r]} : gmap Uuid Run) !! id' = Some r') in Hr. by apply lookup_singleton_Some in Hr as [<- _].
Defined.
