(* ===== verification/FolderDb.v ===== *)
(** * Folders, files and drives: the tables and their triggers

    The tables [storage.folders], [storage.files] and [storage.drives] with the triggers and
    constraints of [src/migrations/], and the statements that
    [src/src/infrastructure/repositories/pg/folder_db_repository.rs],
    [file_blob_write_repository.rs] and [trash_db_repository.rs] run on them.

    A folder row carries the materialised text of its path and its [lpath], the list of the
    identifiers from the top folder down to itself; triggers keep both in step with [name] and
    [parent_id].  A statement is atomic: an error leaves the tables as they were.  Left out are
    the stamps ([created_at], [updated_by] and the like), the tree etags, the mime type, and the
    reference counts of blobs, which other files model.  [effective_policies] is the typed value
    the view gives. *)

From S2P Require Import Prelude.
From S2P Require Import RustStr.
From S2P Require Import DrivePolicies.
From stdpp Require Import sorting.

#[local] Arguments lit : simpl never.

Definition SLASH_ : byte := 47.

(** ** Rows *)
Record Folder := mkFolder {
  f_name : str;
  f_parent : option Uuid;
  f_drive : Uuid;
  f_path : str;
  f_lpath : list Uuid;
  f_trashed : bool;
  f_trashed_at : option Z;
  f_original_parent : option Uuid;
}.
Record FileRow := mkFile {
  fi_name : str;
  fi_folder : option Uuid;
  fi_drive : Uuid;
  fi_hash : str;
  fi_size : Z;
  fi_trashed : bool;
  fi_trashed_at : option Z;
  fi_original_folder : option Uuid;
}.
Record DriveRow := mkDriveRow {
  d_kind : DriveKind;
  d_root : option Uuid;
  d_policies : DrivePolicies;
  d_used : Z;
  d_quota : option Z;
}.
Record UserRow := mkUserRow { u_used : Z; u_quota : Z; u_external : bool }.
#[global] Instance Folder_eq_dec : EqDecision Folder. Proof. solve_decision. Defined.
#[global] Instance FileRow_eq_dec : EqDecision FileRow. Proof. solve_decision. Defined.

(** [23505], [40P01] and everything else. *)
Inductive SqlError := Unique | Deadlock | SqlOther (text : str).

Inductive Stmt :=
| SInsertFolder (id : Uuid) (name : str) (parent : option Uuid) (drive : Uuid)
| SRenameFolder (id : Uuid) (name : str)
| SMoveFolder (id : Uuid) (parent : option Uuid)
| STrashFolder (id : Uuid)
| SRestoreFolder (id : Uuid)
| SDeleteSubtreeFiles (id : Uuid)
| SDeleteFolder (id : Uuid)
| SInsertFile (id : Uuid) (name : str) (folder : Uuid) (drive : Uuid) (hash : str) (size : Z)
| SRenameFile (id : Uuid) (name : str)
| SMoveFile (id : Uuid) (folder : option Uuid)
| STrashFile (id : Uuid)
| SRestoreFile (id : Uuid)
| SDeleteFile (id : Uuid)
| SClearFiles (drives : list Uuid)
| SClearFolders (drives : list Uuid)
| SExpireFiles (cutoff : Z) (limit : nat)
| SExpireFolders (cutoff : Z) (limit : nat).

Record Store := mkStore {
  folders : gmap Uuid Folder;
  files : gmap Uuid FileRow;
  drives : gmap Uuid DriveRow;
  users : gmap Uuid UserRow;
  (** the rows of [storage.role_grants] that make a user owner of a drive *)
  owners : list (Uuid * Uuid);
  now : Z;
  (** what [gen_random_uuid] returns next *)
  fresh : Uuid;
  (** of the next statements: the error, if the database fails *)
  faults : list (option SqlError);
  (** what other requests do before each of the next statements *)
  meanwhile : list (list Stmt);
}.
Definition set_folders (m : gmap Uuid Folder) (s : Store) : Store :=
  mkStore m (files s) (drives s) (users s) (owners s) (now s) (fresh s) (faults s) (meanwhile s).
Definition set_files (m : gmap Uuid FileRow) (s : Store) : Store :=
  mkStore (folders s) m (drives s) (users s) (owners s) (now s) (fresh s) (faults s) (meanwhile s).
Definition set_drives (m : gmap Uuid DriveRow) (s : Store) : Store :=
  mkStore (folders s) (files s) m (users s) (owners s) (now s) (fresh s) (faults s) (meanwhile s).
Definition set_users (m : gmap Uuid UserRow) (s : Store) : Store :=
  mkStore (folders s) (files s) (drives s) m (owners s) (now s) (fresh s) (faults s) (meanwhile s).

Definition with_place (parent : option Uuid) (drive : Uuid) (name path : str) (lpath : list Uuid) (r : Folder) : Folder :=
  mkFolder name parent drive path lpath (f_trashed r) (f_trashed_at r) (f_original_parent r).
Definition with_path (path : str) (lpath : list Uuid) (r : Folder) : Folder :=
  mkFolder (f_name r) (f_parent r) (f_drive r) path lpath (f_trashed r) (f_trashed_at r) (f_original_parent r).
Definition with_drive (drive : Uuid) (r : Folder) : Folder :=
  mkFolder (f_name r) (f_parent r) drive (f_path r) (f_lpath r) (f_trashed r) (f_trashed_at r) (f_original_parent r).
Definition with_trash (trashed : bool) (at_ : option Z) (original : option Uuid) (r : Folder) : Folder :=
  mkFolder (f_name r) (f_parent r) (f_drive r) (f_path r) (f_lpath r) trashed at_ original.
Definition file_place (folder : option Uuid) (drive : Uuid) (name : str) (f : FileRow) : FileRow :=
  mkFile name folder drive (fi_hash f) (fi_size f) (fi_trashed f) (fi_trashed_at f) (fi_original_folder f).
Definition file_trash (trashed : bool) (at_ : option Z) (original : option Uuid) (f : FileRow) : FileRow :=
  mkFile (fi_name f) (fi_folder f) (fi_drive f) (fi_hash f) (fi_size f) trashed at_ original.

(** ** Text: [length] and [substr] count characters *)
Definition continuation (b : byte) : bool := (128 <=? b)%Z && (b <? 192)%Z.
Definition char_length (s : str) : nat := length (filter (fun b => continuation b = false) s).
(** [substr(s, n + 1)] *)
Fixpoint skip_chars (n : nat) (s : str) : str :=
  match s with
  | [] => []
  | b :: rest =>
      if continuation b then skip_chars n rest
      else match n with O => s | S n => skip_chars n rest end
  end.

(** ** Constraints *)
Definition in_quotes_ (s : str) : str := 34%Z :: s ++ [34%Z].
Definition null_path : SqlError :=
  SqlOther (lit "error returned from database: null value in column " ++ in_quotes_ (lit "path") ++ lit " violates not-null constraint").
Definition fk_violation : SqlError := SqlOther (lit "error returned from database: violates foreign key constraint").
Definition invalid_positions : SqlError := SqlOther (lit "error returned from database: invalid positions").
Definition orphan_root : SqlError := SqlOther (lit "error returned from database: Orphan root folder rejected").

(** A unique index: no two rows that are the same to it. *)
Definition distinct {V} (same : V -> V -> bool) (m : gmap Uuid V) : bool :=
  forallb (fun x => forallb (fun y => bool_decide (x.1 = y.1) || negb (same x.2 y.2)) (map_to_list m)) (map_to_list m).
(** [idx_folders_unique_name] and [idx_folders_unique_name_root] *)
Definition same_slot (r r' : Folder) : bool :=
  negb (f_trashed r) && negb (f_trashed r')
  && bool_decide (f_parent r = f_parent r') && bool_decide (f_name r = f_name r') && bool_decide (f_drive r = f_drive r').
Definition unique_folders : gmap Uuid Folder -> bool := distinct same_slot.
(** [idx_files_unique_name_in_folder] and [idx_files_unique_name_at_root] *)
Definition same_file_slot (f f' : FileRow) : bool :=
  negb (fi_trashed f) && negb (fi_trashed f')
  && bool_decide (fi_folder f = fi_folder f') && bool_decide (fi_name f = fi_name f') && bool_decide (fi_drive f = fi_drive f').
Definition unique_files : gmap Uuid FileRow -> bool := distinct same_file_slot.
(** [check_no_orphan_root_folder], deferred to the end of the transaction *)
Definition rooted (s : Store) (id : Uuid) : bool :=
  match folders s !! id with
  | Some r =>
      match f_parent r with
      | Some _ => true
      | None =>
          f_trashed r
          || match drives s !! f_drive r with Some d => bool_decide (d_root d = Some id) | None => false end
      end
  | None => true
  end.
(** The end of a statement that changed the folder [id]. *)
Definition commit (id : Uuid) (n : N) (s s' : Store) : result SqlError N * Store :=
  if unique_folders (folders s') && unique_files (files s') then
    if rooted s' id then (Ok n, s') else (Err orphan_root, s)
  else (Err Unique, s).

(** ** Triggers *)
(** [compute_folder_path], before an insertion and before an update of [name] or [parent_id];
    [None] stands for the [NULL]s of a parent that is not there. *)
Definition compute_folder_path (m : gmap Uuid Folder) (id : Uuid) (name : str) (parent : option Uuid)
  : option (str * list Uuid) :=
  match parent with
  | None => Some (name, [id])
  | Some p => r ← m !! p; Some (f_path r ++ SLASH_ :: name, f_lpath r ++ [id])
  end.
(** [lpath <@ top] *)
Definition below (top : list Uuid) (r : Folder) : bool := bool_decide (top `prefix_of` f_lpath r).
Definition repath (old new : Folder) (r : Folder) : Folder :=
  with_path (f_path new ++ skip_chars (char_length (f_path old)) (f_path r))
            (f_lpath new ++ drop (length (f_lpath old)) (f_lpath r)) r.
(** The first half of [cascade_folder_path], after an update: [subpath] fails on a row whose
    path is no longer than the one that is cut off. *)
Definition cascade_paths (id : Uuid) (old new : Folder) (m : gmap Uuid Folder) : result SqlError (gmap Uuid Folder) :=
  if bool_decide (f_path old = f_path new) && bool_decide (f_lpath old = f_lpath new) then Ok m
  else if existsb (fun x : Uuid * Folder => negb (bool_decide (x.1 = id)) && bool_decide (f_lpath x.2 = f_lpath old)) (map_to_list m)
       then Err invalid_positions
       else Ok (map_imap (fun k r => Some (if negb (bool_decide (k = id)) && below (f_lpath old) r then repath old new r else r)) m).
(** The second half: the drive of the moved folder. *)
Definition cascade_drive_folders (old new : Folder) (m : gmap Uuid Folder) : gmap Uuid Folder :=
  if bool_decide (f_drive old = f_drive new) then m
  else (fun r => if below (f_lpath new) r && bool_decide (f_drive r = f_drive old) then with_drive (f_drive new) r else r) <$> m.
Definition in_folder (m : gmap Uuid Folder) (top : list Uuid) (f : FileRow) : bool :=
  match fi_folder f ≫= (m !!.) with Some r => below top r | None => false end.
Definition cascade_drive_files (old new : Folder) (m : gmap Uuid Folder) (fs : gmap Uuid FileRow) : gmap Uuid FileRow :=
  if bool_decide (f_drive old = f_drive new) then fs
  else (fun f => if in_folder m (f_lpath new) f && bool_decide (fi_drive f = f_drive old)
                 then file_place (fi_folder f) (f_drive new) (fi_name f) f else f) <$> fs.
(** An update of one folder that sets [name], [parent_id] or [drive_id]: both triggers, and the
    constraints at the end. *)
Definition update_folder (id : Uuid) (old : Folder) (name : str) (parent : option Uuid) (drive : Uuid)
    (trashed : bool) (at_ : option Z) (original : option Uuid) (s : Store) : result SqlError Store :=
  match compute_folder_path (folders s) id name parent with
  | None => Err null_path
  | Some (path, lpath) =>
      let new := mkFolder name parent drive path lpath trashed at_ original in
      m ← cascade_paths id old new (<[id := new]> (folders s));
      let m := cascade_drive_folders old new m in
      Ok (set_files (cascade_drive_files old new m (files s)) (set_folders m s))
  end.

(** ** Deletion: [ON DELETE CASCADE]

    A deleted folder takes its children with it, and the drive it is the root of; a deleted drive
    takes every folder and file that carries its identifier. *)
Definition root_in (s : Store) (gone : gset Uuid) (drive : Uuid) : bool :=
  match drives s !! drive with Some d => match d_root d with Some r => bool_decide (r ∈ gone) | None => false end | None => false end.
Definition cascades (s : Store) (gone : gset Uuid) (r : Folder) : bool :=
  match f_parent r with Some p => bool_decide (p ∈ gone) | None => false end || root_in s gone (f_drive r).
Definition cascade_step (s : Store) (gone : gset Uuid) : gset Uuid :=
  gone ∪ dom (filter (fun x : Uuid * Folder => cascades s gone x.2 = true) (folders s)).
Definition doomed (s : Store) (ids : gset Uuid) : gset Uuid :=
  Nat.iter (size (folders s)) (cascade_step s) ids.
Definition delete_folders (ids : gset Uuid) (s : Store) : Store :=
  let gone := doomed s ids in
  mkStore (filter (fun x : Uuid * Folder => x.1 ∉ gone) (folders s))
          (filter (fun x : Uuid * FileRow => match fi_folder x.2 with Some p => bool_decide (p ∈ gone) | None => false end
                                             || root_in s gone (fi_drive x.2) = false) (files s))
          (filter (fun x : Uuid * DriveRow => match d_root x.2 with Some r => bool_decide (r ∈ gone) | None => false end = false) (drives s))
          (users s) (owners s) (now s) (fresh s) (faults s) (meanwhile s).
Definition delete_files (p : FileRow -> bool) (s : Store) : Store :=
  set_files (filter (fun x : Uuid * FileRow => p x.2 = false) (files s)) s.
Definition count_files (p : FileRow -> bool) (s : Store) : N :=
  N.of_nat (size (filter (fun x : Uuid * FileRow => p x.2 = true) (files s))).

(** ** Retention *)
Definition frozen (s : Store) (drive : Uuid) : bool :=
  match drives s !! drive with Some d => read_only (d_policies d) | None => true end.
Definition expired (cutoff : Z) (trashed : bool) (at_ : option Z) : bool :=
  trashed && match at_ with Some t => (t <? cutoff)%Z | None => false end.
Definition earlier (x y : Z * Uuid) : Prop := (x.1 <= y.1)%Z.
#[global] Instance earlier_dec x y : Decision (earlier x y). Proof. unfold earlier. apply _. Defined.
(** [ORDER BY trashed_at LIMIT limit] *)
Definition oldest (limit : nat) (l : list (Z * Uuid)) : gset Uuid := list_to_set (snd <$> take limit (merge_sort earlier l)).
Definition expired_files (cutoff : Z) (s : Store) : list (Z * Uuid) :=
  (fun x : Uuid * FileRow => (default 0%Z (fi_trashed_at x.2), x.1)) <$>
  filter (fun x : Uuid * FileRow => expired cutoff (fi_trashed x.2) (fi_trashed_at x.2) && negb (frozen s (fi_drive x.2)) = true) (map_to_list (files s)).
Definition expired_folders (cutoff : Z) (s : Store) : list (Z * Uuid) :=
  (fun x : Uuid * Folder => (default 0%Z (f_trashed_at x.2), x.1)) <$>
  filter (fun x : Uuid * Folder => expired cutoff (f_trashed x.2) (f_trashed_at x.2) && negb (frozen s (f_drive x.2)) = true) (map_to_list (folders s)).

(** ** The statements *)
Definition coalesce {A} (x y : option A) : option A := match x with Some a => Some a | None => y end.
(** Descendants other than [id] that are live, or that were trashed along with it. *)
Definition trash_rest (id : Uuid) (top : list Uuid) (t : Z) (m : gmap Uuid Folder) : gmap Uuid Folder :=
  map_imap (fun k r => Some (if negb (bool_decide (k = id)) && below top r && negb (f_trashed r)
                             then with_trash true (Some t) (f_original_parent r) r else r)) m.
Definition restore_rest (id : Uuid) (top : list Uuid) (m : gmap Uuid Folder) : gmap Uuid Folder :=
  map_imap (fun k r => Some (if negb (bool_decide (k = id)) && below top r && f_trashed r && bool_decide (f_original_parent r = None)
                             then with_trash false None (f_original_parent r) r else r)) m.
Definition trash_files_in (m : gmap Uuid Folder) (top : list Uuid) (t : Z) (fs : gmap Uuid FileRow) : gmap Uuid FileRow :=
  (fun f => if in_folder m top f && negb (fi_trashed f) then file_trash true (Some t) (fi_original_folder f) f else f) <$> fs.
Definition restore_files_in (m : gmap Uuid Folder) (top : list Uuid) (fs : gmap Uuid FileRow) : gmap Uuid FileRow :=
  (fun f => if in_folder m top f && fi_trashed f && bool_decide (fi_original_folder f = None)
            then file_trash false None (fi_original_folder f) f else f) <$> fs.
Definition commit_files (n : N) (s s' : Store) : result SqlError N * Store :=
  if unique_files (files s') then (Ok n, s') else (Err Unique, s).
Definition folder_there (s : Store) (folder : option Uuid) : bool :=
  match folder with Some p => bool_decide (is_Some (folders s !! p)) | None => true end.
(** An update of the folder [id] when [guard] holds of it. *)
Definition on_folder (id : Uuid) (guard : Folder -> bool) (f : Folder -> result SqlError Store) (s : Store) : result SqlError N * Store :=
  match folders s !! id with
  | Some r => if guard r then match f r with Ok s' => commit id 1 s s' | Err e => (Err e, s) end else (Ok 0%N, s)
  | None => (Ok 0%N, s)
  end.
Definition on_file (id : Uuid) (guard : FileRow -> bool) (f : FileRow -> result SqlError FileRow) (s : Store) : result SqlError N * Store :=
  match files s !! id with
  | Some r => if guard r then match f r with Ok r' => commit_files 1 s (set_files (<[id := r']> (files s)) s) | Err e => (Err e, s) end
              else (Ok 0%N, s)
  | None => (Ok 0%N, s)
  end.
Definition live (r : Folder) : bool := negb (f_trashed r).
Definition live_file (f : FileRow) : bool := negb (fi_trashed f).

Definition exec (st : Stmt) (s : Store) : result SqlError N * Store :=
  match st with
  | SInsertFolder id name parent drive =>
      match compute_folder_path (folders s) id name parent with
      | None => (Err null_path, s)
      | Some (path, lpath) =>
          if bool_decide (is_Some (folders s !! id)) then (Err Unique, s)
          else if bool_decide (is_Some (drives s !! drive))
               then commit id 1 s (set_folders (<[id := mkFolder name parent drive path lpath false None None]> (folders s)) s)
               else (Err fk_violation, s)
      end
  | SRenameFolder id name =>
      on_folder id live (fun r => update_folder id r name (f_parent r) (f_drive r) (f_trashed r) (f_trashed_at r) (f_original_parent r) s) s
  | SMoveFolder id parent =>
      let dest := f_drive <$> (parent ≫= (folders s !!.)) in
      on_folder id live (fun r => update_folder id r (f_name r) parent (default (f_drive r) dest) (f_trashed r) (f_trashed_at r) (f_original_parent r) s) s
  | STrashFolder id =>
      on_folder id live (fun r =>
        Ok (set_files (trash_files_in (folders s) (f_lpath r) (now s) (files s))
              (set_folders (<[id := with_trash true (Some (now s)) (f_parent r) r]> (trash_rest id (f_lpath r) (now s) (folders s))) s))) s
  | SRestoreFolder id =>
      on_folder id f_trashed (fun r =>
        let parent := coalesce (f_original_parent r) (f_parent r) in
        match compute_folder_path (folders s) id (f_name r) parent with
        | None => Err null_path
        | Some (_, top) =>
            update_folder id r (f_name r) parent (f_drive r) false None None
              (set_files (restore_files_in (folders s) top (files s)) (set_folders (restore_rest id top (folders s)) s))
        end) s
  | SDeleteSubtreeFiles id =>
      let inside f := match folders s !! id with Some r => in_folder (folders s) (f_lpath r) f | None => false end in
      (Ok (count_files inside s), delete_files inside s)
  | SDeleteFolder id =>
      match folders s !! id with
      | Some _ => (Ok 1%N, delete_folders {[ id ]} s)
      | None => (Ok 0%N, s)
      end
  | SInsertFile id name folder drive hash size =>
      if bool_decide (is_Some (files s !! id)) then (Err Unique, s)
      else if folder_there s (Some folder) && bool_decide (is_Some (drives s !! drive))
           then commit_files 1 s (set_files (<[id := mkFile name (Some folder) drive hash size false None None]> (files s)) s)
           else (Err fk_violation, s)
  | SRenameFile id name => on_file id live_file (fun f => Ok (file_place (fi_folder f) (fi_drive f) name f)) s
  | SMoveFile id folder =>
      let dest := f_drive <$> (folder ≫= (folders s !!.)) in
      on_file id live_file (fun f => if folder_there s folder then Ok (file_place folder (default (fi_drive f) dest) (fi_name f) f) else Err fk_violation) s
  | STrashFile id => on_file id live_file (fun f => Ok (file_trash true (Some (now s)) (fi_folder f) f)) s
  | SRestoreFile id =>
      on_file id fi_trashed (fun f =>
        let folder := coalesce (fi_original_folder f) (fi_folder f) in
        if folder_there s folder then Ok (file_trash false None None (file_place folder (fi_drive f) (fi_name f) f)) else Err fk_violation) s
  | SDeleteFile id =>
      match files s !! id with
      | Some _ => (Ok 1%N, set_files (delete id (files s)) s)
      | None => (Ok 0%N, s)
      end
  | SClearFiles ds =>
      let p f := bool_decide (fi_drive f ∈ ds) && fi_trashed f in
      (Ok (count_files p s), delete_files p s)
  | SClearFolders ds =>
      let ids := dom (filter (fun x : Uuid * Folder => bool_decide (f_drive x.2 ∈ ds) && f_trashed x.2 = true) (folders s)) in
      (Ok (N.of_nat (size ids)), delete_folders ids s)
  | SExpireFiles cutoff limit =>
      let ids := oldest limit (expired_files cutoff s) in
      (Ok (N.of_nat (size ids)), set_files (filter (fun x : Uuid * FileRow => x.1 ∉ ids) (files s)) s)
  | SExpireFolders cutoff limit =>
      let ids := oldest limit (expired_folders cutoff s) in
      (Ok (N.of_nat (size ids)), delete_folders ids s)
  end.

(** A sequence of statements, of whatever requests. *)
Definition run (l : list Stmt) (s : Store) : Store := foldl (fun s st => (exec st s).2) s l.

(** ** Round trips *)
Definition sql_text (e : SqlError) : str :=
  match e with
  | Unique => lit "error returned from database: duplicate key value violates unique constraint"
  | Deadlock => lit "error returned from database: deadlock detected"
  | SqlOther text => text
  end.
Definition interfere (s : Store) : Store :=
  run (default [] (head (meanwhile s)))
      (mkStore (folders s) (files s) (drives s) (users s) (owners s) (now s) (fresh s) (faults s) (tail (meanwhile s))).
Definition query {T} (q : Store -> result SqlError T * Store) : M Store SqlError T := fun s =>
  let s := interfere s in
  let s' := mkStore (folders s) (files s) (drives s) (users s) (owners s) (now s) (fresh s) (tail (faults s)) (meanwhile s) in
  match default None (head (faults s)) with Some e => (Err e, s') | None => q s' end.
Definition execute (st : Stmt) : M Store SqlError N := query (exec st).
Definition fetch {T} (f : Store -> T) : M Store SqlError T := query (fun s => (Ok (f s), s)).
(** [retry_when] for deadlocks: the first try and as many again as there are pauses. *)
Definition BACKOFF_MS : list Z := [10; 50; 150]%Z.
Fixpoint retry_when {T} (pauses : list Z) (op : M Store SqlError T) : M Store SqlError T := fun s =>
  match op s with
  | (Err Deadlock, s') => match pauses with _ :: rest => retry_when rest op s' | [] => (Err Deadlock, s') end
  | other => other
  end.
Definition retry_on_deadlock {T} (op : M Store SqlError T) : M Store SqlError T := retry_when BACKOFF_MS op.
