(* ===== verification/FolderRepo.v ===== *)
(** * The folder, file and trash repositories

    [src/src/infrastructure/repositories/pg/folder_db_repository.rs], the trash operations of
    [file_blob_write_repository.rs] and [trash_db_repository.rs], with the errors they make of
    database errors.  Identifiers are taken as parsed, and the stamp of the caller is left out. *)

From S2P Require Import Prelude.
From S2P Require Import RustStr.
From S2P Require Import DomainErrors.
From S2P Require Import StoragePath.
From S2P Require Import FolderDb.

#[local] Arguments lit : simpl never.

Definition SM (T : Type) : Type := M Store DomainError T.
(** The entity a row is read into. *)
Record FolderEntity := mkEntity { e_id : Uuid; e_name : str; e_path : StoragePath; e_parent : option Uuid; e_drive : Uuid }.

Section repo.
Context `{UuidText} `{Unicode}.

Definition folder_db (context : str) (e : SqlError) : DomainError :=
  DomainError.internal_error (lit "FolderDb") (context ++ lit ": " ++ sql_text e).
(** The mapping of a write: a unique violation is an [AlreadyExists]. *)
Definition folder_write (context id : str) (e : SqlError) : DomainError :=
  match e with Unique => DomainError.already_exists (lit "Folder") id | _ => folder_db context e end.
Definition folder_missing (id : Uuid) : DomainError := DomainError.not_found (lit "Folder") (uuid_to_string id).
Definition row_to_folder (id : Uuid) (r : Folder) : SM FolderEntity :=
  let name := normalize_storage_name_owned (f_name r) in
  match validate_storage_name name with
  | Err reason =>
      raise (DomainError.internal_error (lit "FolderDb") (lit "entity: Invalid folder name: " ++ name ++ lit ": " ++ reason))
  | Ok _ => mret (mkEntity id name (StoragePath.from_joined (f_path r)) (f_parent r) (f_drive r))
  end.
Definition some_or {T} (e : DomainError) (o : option T) : SM T := match o with Some v => mret v | None => raise e end.
(** A statement with [RETURNING]: the row as it is afterwards, if the statement touched it. *)
Definition returning (id : Uuid) (st : Stmt) : M Store SqlError (option Folder) :=
  query (fun s => match exec st s with
                  | (Ok n, s') => (Ok (if (n =? 0)%N then None else folders s' !! id), s')
                  | (Err e, s') => (Err e, s')
                  end).

Definition create_folder (name : str) (parent : option Uuid) : SM FolderEntity :=
  let name := normalize_storage_name_owned name in
  match parent with
  | None =>
      raise (DomainError.internal_error (lit "FolderDb")
               (lit "Cannot create root folder — root folders are reserved for the atomic drive-creation transaction in DrivePgRepository::create_personal_drive_atomic (docs/plan/drive.md §3). The no-orphan-root-folder trigger enforces this at the DB level."))
  | Some p =>
      found ← map_err_m (folder_db (lit "parent lookup")) (fetch (fun s => f_drive <$> folders s !! p));
      drive ← some_or (folder_missing p) found;
      id ← gets fresh;
      _ ← modify (fun s => mkStore (folders s) (files s) (drives s) (users s) (owners s) (now s) (N.succ (fresh s)) (faults s) (meanwhile s));
      row ← map_err_m (folder_write (lit "insert") (name ++ lit " already exists in parent"))
              (returning id (SInsertFolder id name (Some p) drive));
      r ← some_or (folder_missing id) row;
      row_to_folder id r
  end.
Definition get_folder (id : Uuid) : SM FolderEntity :=
  row ← map_err_m (folder_db (lit "get")) (fetch (fun s => r ← folders s !! id; if f_trashed r then None else Some r));
  r ← some_or (folder_missing id) row;
  row_to_folder id r.
(** [WHERE path = $1 AND drive_id = $2 AND NOT is_trashed] *)
Definition at_path (path : str) (drive : Uuid) (r : Folder) : bool :=
  bool_decide (f_path r = path) && bool_decide (f_drive r = drive) && negb (f_trashed r).
Definition find_path (path : str) (drive : Uuid) (s : Store) : option (Uuid * Folder) :=
  head (filter (fun x : Uuid * Folder => at_path path drive x.2 = true) (map_to_list (folders s))).
Definition lookup_of (p : StoragePath) : str := let text := StoragePath.to_path_string p in default text (strip_prefix [SLASH] text).
Definition get_folder_by_path (p : StoragePath) (drive : Uuid) : SM FolderEntity :=
  let lookup := lookup_of p in
  match lookup with
  | [] => raise (DomainError.not_found (lit "Folder") (lit "empty path"))
  | _ =>
      row ← map_err_m (folder_db (lit "path lookup")) (fetch (find_path lookup drive));
      x ← some_or (DomainError.not_found (lit "Folder") lookup) row;
      row_to_folder x.1 x.2
  end.
Definition folder_exists (p : StoragePath) (drive : Uuid) : SM bool :=
  map_err_m (folder_db (lit "exists")) (fetch (fun s => match find_path (lookup_of p) drive s with Some _ => true | None => false end)).
Definition rename_folder (id : Uuid) (new_name : str) : SM FolderEntity :=
  let new_name := normalize_storage_name_owned new_name in
  row ← map_err_m (folder_write (lit "rename") (new_name ++ lit " already exists"))
          (retry_on_deadlock (returning id (SRenameFolder id new_name)));
  r ← some_or (folder_missing id) row;
  row_to_folder id r.
Definition move_folder (id : Uuid) (new_parent : option Uuid) : SM FolderEntity :=
  row ← map_err_m (folder_write (lit "move") (lit "destination already contains a folder with the same name"))
          (retry_on_deadlock (returning id (SMoveFolder id new_parent)));
  r ← some_or (folder_missing id) row;
  row_to_folder id r.
Definition delete_with (files_context folder_context : str) (id : Uuid) : SM unit :=
  _ ← map_err_m (folder_db files_context) (retry_on_deadlock (execute (SDeleteSubtreeFiles id)));
  n ← map_err_m (folder_db folder_context) (retry_on_deadlock (execute (SDeleteFolder id)));
  if (n =? 0)%N then raise (folder_missing id) else mret tt.
Definition delete_folder : Uuid -> SM unit := delete_with (lit "delete files") (lit "delete").
Definition delete_folder_permanently : Uuid -> SM unit := delete_with (lit "perm delete files") (lit "perm delete").
Definition move_to_trash (id : Uuid) : SM unit :=
  n ← map_err_m (folder_db (lit "trash")) (retry_on_deadlock (execute (STrashFolder id)));
  if (n =? 0)%N then raise (folder_missing id) else mret tt.
Definition restore_from_trash (id : Uuid) : SM unit :=
  n ← map_err_m (folder_write (lit "restore") (lit "the original location already contains a folder with the same name"))
        (retry_on_deadlock (execute (SRestoreFolder id)));
  if (n =? 0)%N then raise (folder_missing id) else mret tt.
Definition list_file_ids_in_subtree (id : Uuid) : SM (list Uuid) :=
  map_err_m (folder_db (lit "list subtree files"))
    (fetch (fun s => match folders s !! id with
                     | Some r => fst <$> filter (fun x : Uuid * FileRow => in_folder (folders s) (f_lpath r) x.2 = true) (map_to_list (files s))
                     | None => []
                     end)).

(** ** Files *)
Definition file_db (context : str) (e : SqlError) : DomainError :=
  DomainError.internal_error (lit "FileBlobWrite") (context ++ lit ": " ++ sql_text e).
Definition file_missing (id : Uuid) : DomainError := DomainError.not_found (lit "File") (uuid_to_string id).
Definition file_move_to_trash (id : Uuid) : SM unit :=
  n ← map_err_m (file_db (lit "trash")) (execute (STrashFile id));
  if (n =? 0)%N then raise (file_missing id) else mret tt.
Definition file_restore_from_trash (id : Uuid) : SM unit :=
  n ← map_err_m (fun e => match e with
                          | Unique => DomainError.already_exists (lit "File") (lit "the original location already contains a file with the same name")
                          | _ => file_db (lit "restore") e
                          end) (execute (SRestoreFile id));
  if (n =? 0)%N then raise (file_missing id) else mret tt.
Definition delete_file (id : Uuid) : SM unit :=
  n ← map_err_m (file_db (lit "delete")) (execute (SDeleteFile id));
  if (n =? 0)%N then raise (file_missing id) else mret tt.
(** The clean-up of the blob afterwards is the business of the blob handler. *)
Definition delete_file_permanently (id : Uuid) : SM unit :=
  _ ← map_err_m (file_db (lit "fetch blob_hash")) (fetch (fun s => fi_hash <$> files s !! id));
  delete_file id.

(** ** Trash *)
Definition trash_db (context : str) (e : SqlError) : DomainError :=
  DomainError.internal_error (lit "TrashDb") (context ++ lit ": " ++ sql_text e).
Inductive TrashedItemType := TFile | TFolder.
(** The view [storage.trash_items], at one identifier: a trashed row whose folder is not. *)
Definition parent_trashed (s : Store) (parent : option Uuid) : bool :=
  match parent ≫= (folders s !!.) with Some p => f_trashed p | None => false end.
Definition trash_item (s : Store) (id : Uuid) : option TrashedItemType :=
  match files s !! id with
  | Some f => if fi_trashed f && negb (parent_trashed s (fi_folder f)) then Some TFile else None
  | None =>
      match folders s !! id with
      | Some r => if f_trashed r && negb (parent_trashed s (f_parent r)) then Some TFolder else None
      | None => None
      end
  end.
Definition get_trash_item (id : Uuid) : SM (option TrashedItemType) :=
  map_err_m (trash_db (lit "get")) (fetch (fun s => trash_item s id)).
Definition clear_trash (ds : list Uuid) : SM unit :=
  match ds with
  | [] => mret tt
  | _ =>
      _ ← map_err_m (trash_db (lit "clear files")) (execute (SClearFiles ds));
      _ ← map_err_m (trash_db (lit "clear folders")) (execute (SClearFolders ds));
      mret tt
  end.
Definition get_all_trashed_file_ids (ds : list Uuid) : SM (list Uuid) :=
  match ds with
  | [] => mret []
  | _ =>
      map_err_m (trash_db (lit "all_trashed_files"))
        (fetch (fun s => fst <$> filter (fun x : Uuid * FileRow => bool_decide (fi_drive x.2 ∈ ds) && fi_trashed x.2 = true) (map_to_list (files s))))
  end.
(** The loop of [delete_expired_batch_loop]; [fuel] bounds its rounds, [None] when it runs out. *)
Fixpoint delete_expired_batch_loop (fuel : nat) (st : Stmt) (batch_size total : N) : SM (option N) :=
  match fuel with
  | O => mret None
  | S fuel =>
      n ← map_err_m (trash_db (lit "bulk delete batch")) (execute st);
      if (n <? batch_size)%N then mret (Some (total + n)%N) else delete_expired_batch_loop fuel st batch_size (total + n)%N
  end.
Definition RETENTION_DAY : Z := 86400.
Definition delete_expired_bulk (fuel : nat) (retention_days : Z) : SM (option (N * N)) :=
  t ← gets now;
  let cutoff := (t - retention_days * RETENTION_DAY)%Z in
  fs ← delete_expired_batch_loop fuel (SExpireFiles cutoff 1000) 1000 0;
  match fs with
  | None => mret None
  | Some files_deleted =>
      ds ← delete_expired_batch_loop fuel (SExpireFolders cutoff 100) 100 0;
      match ds with None => mret None | Some folders_deleted => mret (Some (files_deleted, folders_deleted)) end
  end.
End repo.
