(* ===== verification/StorageUsage.v ===== *)
(** * Storage usage and quotas

    [src/src/application/services/storage_usage_service.rs]: the counters of users and drives,
    their adjustment by an upload, their reconciliation from the files, and the checks an upload,
    a move and a restoration make against them.  Counters are [i64], sizes of uploads [u64];
    the arithmetic on them is that of a release build.  How a number of bytes is printed for a
    person uses floating point and is a parameter. *)

From S2P Require Import Prelude.
From S2P Require Import RustStr.
From S2P Require Import DomainErrors.
From S2P Require Import DrivePolicies.
From S2P Require Import FolderDb.

#[local] Arguments lit : simpl never.

(** ** Machine arithmetic *)
Definition wrap_i64 (n : Z) : Z := ((n + 2 ^ 63) mod 2 ^ 64 - 2 ^ 63)%Z.
Lemma wrap_i64_id n : in_i64 n -> wrap_i64 n = n.
Proof. unfold wrap_i64, in_i64, i64_min, i64_max. intros Hn. rewrite Z.mod_small; lia. Qed.
(** The decimal text of a counter. *)
Definition dec_signed (n : Z) : str := if (n <? 0)%Z then 45%Z :: dec (- n) else dec n.

Definition UM (T : Type) : Type := M Store DomainError T.
Section usage.
Context `{UuidText}.
Variable format_bytes : Z -> str.

Definition usage_db (context : str) (e : SqlError) : DomainError :=
  DomainError.internal_error (lit "StorageUsage") (context ++ lit ": " ++ sql_text e).
Definition bigint_range : SqlError := SqlOther (lit "error returned from database: bigint out of range").
(** [::bigint] *)
Definition to_bigint (n : Z) : result SqlError Z := if bool_decide (in_i64 n) then Ok n else Err bigint_range.
Definition sum (l : list Z) : Z := foldr Z.add 0%Z l.
(** A query that computes a number. *)
Definition fetch_number (f : Store -> Z) : M Store SqlError Z := query (fun s => (to_bigint (f s), s)).

(** ** Checks *)
Definition eval_drive_cap (used : Z) (quota : option Z) (additional : Z) : result DomainError unit :=
  match quota with
  | None => Ok tt
  | Some quota =>
      if (quota <? used + additional)%Z then
        Err (DomainError.new QuotaExceeded (lit "Drive")
               (lit "Drive quota exceeded: " ++ dec_signed used ++ lit " + " ++ dec additional ++ lit " > " ++ dec_signed quota ++ lit " bytes"))
      else Ok tt
  end.
Definition eval_user_envelope (used quota additional_bytes : Z) : result DomainError unit :=
  if (quota <=? 0)%Z then Ok tt
  else
    let additional := wrap_i64 additional_bytes in
    if (quota <? additional)%Z then
      Err (DomainError.quota_exceeded (lit "File size (" ++ format_bytes additional ++ lit ") exceeds your total storage quota (" ++ format_bytes quota ++ lit ")"))
    else if (quota <? wrap_i64 (used + additional))%Z then
      Err (DomainError.quota_exceeded (lit "Not enough storage space. File size: " ++ format_bytes additional ++ lit ", available: " ++ format_bytes (Z.max (wrap_i64 (quota - used)) 0)))
    else Ok tt.
Definition user_missing (u : Uuid) : DomainError := DomainError.not_found (lit "User") (uuid_to_string u).
(** [get_storage_usage] of the user repository *)
Definition get_storage_usage (u : Uuid) : UM (Z * Z) :=
  row ← map_err_m (fun e => match e with
                            | Unique => DomainError.already_exists (lit "User") (lit "User or email already exists")
                            | _ => DomainError.internal_error (lit "Database") (lit "Database error: " ++ sql_text e)
                            end) (fetch (fun s => users s !! u));
  match row with
  | Some r => mret (u_used r, u_quota r)
  | None => raise (DomainError.not_found (lit "User") (lit "User not found"))
  end.
Definition check_storage_quota (u : Uuid) (additional : Z) : UM unit :=
  x ← get_storage_usage u;
  lift (eval_user_envelope x.1 x.2 additional).
Definition check_drive_quota (drive : Uuid) (additional : Z) : UM unit :=
  row ← map_err_m (usage_db (lit "drive quota lookup")) (fetch (fun s => drives s !! drive));
  match row with
  | None => raise (DomainError.not_found (lit "Drive") (uuid_to_string drive))
  | Some d => lift (eval_drive_cap (d_used d) (d_quota d) additional)
  end.
Definition drive_of_folder (s : Store) (folder : Uuid) : option DriveRow := r ← folders s !! folder; drives s !! f_drive r.
Definition check_drive_quota_by_folder (folder : Uuid) (additional : Z) : UM unit :=
  row ← map_err_m (usage_db (lit "drive quota by folder")) (fetch (fun s => drive_of_folder s folder));
  match row with
  | None => raise (DomainError.not_found (lit "Folder") (uuid_to_string folder))
  | Some d => lift (eval_drive_cap (d_used d) (d_quota d) additional)
  end.
(** Both checks in one query. *)
Definition check_pair (row : option (UserRow * option DriveRow)) (u : Uuid) (missing : DomainError) (additional : Z) : UM unit :=
  match row with
  | None => raise (user_missing u)
  | Some (r, d) =>
      _ ← lift (eval_user_envelope (u_used r) (u_quota r) additional);
      match d with
      | None => raise missing
      | Some d => lift (eval_drive_cap (d_used d) (d_quota d) additional)
      end
  end.
Definition check_upload_quotas (u drive : Uuid) (additional : Z) : UM unit :=
  row ← map_err_m (usage_db (lit "upload quota lookup")) (fetch (fun s => r ← users s !! u; Some (r, drives s !! drive)));
  check_pair row u (DomainError.not_found (lit "Drive") (uuid_to_string drive)) additional.
Definition check_upload_quotas_by_folder (u folder : Uuid) (additional : Z) : UM unit :=
  row ← map_err_m (usage_db (lit "upload quota lookup")) (fetch (fun s => r ← users s !! u; Some (r, drive_of_folder s folder)));
  check_pair row u (DomainError.not_found (lit "Folder") (uuid_to_string folder)) additional.

(** ** Sizes *)
Definition sizes (p : FileRow -> bool) (s : Store) : Z := sum ((fun x : Uuid * FileRow => fi_size x.2) <$> filter (fun x : Uuid * FileRow => p x.2 = true) (map_to_list (files s))).
Definition inside (s : Store) (folder : Uuid) (f : FileRow) : bool :=
  match folders s !! folder with Some r => in_folder (folders s) (f_lpath r) f | None => false end.
Definition file_bytes (id : Uuid) : UM (option Z) :=
  map_err_m (usage_db (lit "file_bytes")) (fetch (fun s => f ← files s !! id; if fi_trashed f then None else Some (fi_size f))).
Definition folder_subtree_bytes (folder : Uuid) : UM Z :=
  map_err_m (usage_db (lit "folder_subtree_bytes")) (fetch_number (fun s => sizes (fun f => inside s folder f && negb (fi_trashed f)) s)).
Definition trashed_file_destination (id : Uuid) : UM (option (Z * Uuid)) :=
  map_err_m (usage_db (lit "trashed_file_destination"))
    (query (fun s => match files s !! id with
                     | Some f =>
                         if fi_trashed f then
                           match fi_folder f with
                           | Some folder => (Ok (Some (fi_size f, folder)), s)
                           | None => (Err (SqlOther (lit "error occurred while decoding column 1: unexpected null; try decoding as an `Option`")), s)
                           end
                         else (Ok None, s)
                     | None => (Ok None, s)
                     end)).
Definition pending_restore_folder_subtree_bytes (folder : Uuid) : UM Z :=
  map_err_m (usage_db (lit "pending_restore_folder_subtree_bytes"))
    (fetch_number (fun s => sizes (fun f => inside s folder f && fi_trashed f && bool_decide (fi_original_folder f = None)) s)).

(** ** Counters *)
Definition with_used (used : Z) (d : DriveRow) : DriveRow := mkDriveRow (d_kind d) (d_root d) (d_policies d) used (d_quota d).
Definition user_with_used (used : Z) (u : UserRow) : UserRow := mkUserRow used (u_quota u) (u_external u).
(** [GREATEST(0, used + delta)] *)
Definition adjusted (used delta : Z) : result SqlError Z := n ← to_bigint (used + delta); Ok (Z.max 0 n).
Definition bump_drive (drive : Uuid) (delta : Z) (s : Store) : result SqlError N * Store :=
  match drives s !! drive with
  | None => (Ok 0%N, s)
  | Some d => match adjusted (d_used d) delta with
              | Ok n => (Ok 1%N, set_drives (<[drive := with_used n d]> (drives s)) s)
              | Err e => (Err e, s)
              end
  end.
Definition bump_user (u : Uuid) (delta : Z) (s : Store) : result SqlError N * Store :=
  match users s !! u with
  | None => (Ok 0%N, s)
  | Some r => match adjusted (u_used r) delta with
              | Ok n => (Ok 1%N, set_users (<[u := user_with_used n r]> (users s)) s)
              | Err e => (Err e, s)
              end
  end.
Definition add_user_storage_usage_delta (u : Uuid) (delta : Z) : UM unit :=
  _ ← map_err_m (usage_db (lit "usage delta")) (query (bump_user u delta)); mret tt.
Definition add_user_storage_usage_delta_if_personal (u folder : Uuid) (delta : Z) : UM unit :=
  _ ← map_err_m (usage_db (lit "usage delta if personal"))
        (query (fun s => match drive_of_folder s folder with
                         | Some d => if decide (d_kind d = Personal) then bump_user u delta s else (Ok 0%N, s)
                         | None => (Ok 0%N, s)
                         end));
  mret tt.
Definition add_drive_storage_usage_delta (drive : Uuid) (delta : Z) : UM unit :=
  _ ← map_err_m (usage_db (lit "drive delta")) (query (bump_drive drive delta)); mret tt.
Definition add_drive_storage_usage_delta_by_folder (folder : Uuid) (delta : Z) : UM unit :=
  _ ← map_err_m (usage_db (lit "drive delta by folder"))
        (query (fun s => match folders s !! folder with Some r => bump_drive (f_drive r) delta s | None => (Ok 0%N, s) end));
  mret tt.
(** [SUM(size) .. GROUP BY drive_id]: the trash is billed. *)
Definition billed (s : Store) (drive : Uuid) : Z := sizes (fun f => bool_decide (fi_drive f = drive)) s.
Definition owned (s : Store) (u : Uuid) : Z :=
  sum ((fun x : Uuid * Uuid => match drives s !! x.1 with
                               | Some d => if decide (d_kind d = Personal) then d_used d else 0%Z
                               | None => 0%Z
                               end) <$> filter (fun x : Uuid * Uuid => x.2 = u) (owners s)).
Definition reconcile_drives (s : Store) : result SqlError N * Store :=
  if forallb (fun x : Uuid * DriveRow => bool_decide (in_i64 (billed s x.1))) (map_to_list (drives s)) then
    (Ok (N.of_nat (size (filter (fun x : Uuid * DriveRow => d_used x.2 ≠ billed s x.1) (drives s)))),
     set_drives (map_imap (fun k d => Some (with_used (billed s k) d)) (drives s)) s)
  else (Err bigint_range, s).
Definition reconcile_users (s : Store) : result SqlError N * Store :=
  if forallb (fun x : Uuid * UserRow => bool_decide (in_i64 (owned s x.1))) (map_to_list (users s)) then
    (Ok (N.of_nat (size (filter (fun x : Uuid * UserRow => u_external x.2 = false ∧ u_used x.2 ≠ owned s x.1) (users s)))),
     set_users (map_imap (fun k u => Some (if u_external u then u else user_with_used (owned s k) u)) (users s)) s)
  else (Err bigint_range, s).
Definition update_all_drives_storage_usage : UM N := map_err_m (usage_db (lit "drive reconciliation sweep")) (query reconcile_drives).
Definition update_all_users_storage_usage : UM N := map_err_m (usage_db (lit "reconciliation sweep")) (query reconcile_users).
Definition update_user_storage_usage (u : Uuid) : UM Z :=
  total ← map_err_m (usage_db (lit "Failed to update usage"))
            (query (fun s => match users s !! u with
                             | None => (Ok None, s)
                             | Some r => match to_bigint (owned s u) with
                                         | Ok n => (Ok (Some n), set_users (<[u := user_with_used n r]> (users s)) s)
                                         | Err e => (Err e, s)
                                         end
                             end));
  match total with Some n => mret n | None => raise (DomainError.not_found (lit "User") (lit "User ID: " ++ uuid_to_string u)) end.
(** The job: drives first, the users' totals are made of theirs. *)
Definition reconcile : M Store str (N * N) :=
  ds ← map_err_m (fun e => lit "drive reconciliation failed: " ++ DomainError.to_string e) update_all_drives_storage_usage;
  us ← map_err_m (fun e => lit "user reconciliation failed: " ++ DomainError.to_string e) update_all_users_storage_usage;
  mret (ds, us).
End usage.
