(* ===== verification/FolderService.v ===== *)
(** * Folders and the trash: the services

    [src/src/application/services/folder_service.rs] and [trash_service.rs] for folders of the
    database: names, permissions, policies, quotas and the calls of the repositories, in the
    order of the code.  Folders of external mounts, the message bus and the content cache are
    left out; identifiers are taken as parsed, and of the [on_file_deleted] hook a log is kept.
    The authorization engine is any instance of the port. *)

From S2P Require Import Prelude.
From S2P Require Import RustStr.
From S2P Require Import DomainErrors.
From S2P Require Import Authorization.
From S2P Require Import DrivePolicies.
From S2P Require Import AuthzPort.
From S2P Require Import StoragePath.
From S2P Require Import FolderDb.
From S2P Require Import FolderRepo.
From S2P Require Import StorageUsage.

#[local] Arguments lit : simpl never.

(** What the services ask of the engine besides decisions. *)
Class OwnerCache (E : Type) := invalidate_owner_cache_all : E -> E.

Record Srv (E : Type) := mkSrv {
  db : Store;
  engine : E;
  (** the files the hook was called for *)
  hooked : list Uuid;
}.
Arguments mkSrv {E}. Arguments db {E}. Arguments engine {E}. Arguments hooked {E}.

Section service.
Context {E : Type} `{AuthorizationEngine E} `{OwnerCache E} `{UuidText} `{Unicode}.
Variable format_bytes : Z -> str.
Definition FM (T : Type) : Type := M (Srv E) DomainError T.
Definition on_db {T} (m : M Store DomainError T) : FM T := fun v =>
  let (r, s) := m (db v) in (r, mkSrv s (engine v) (hooked v)).
Definition on_engine {T} (m : M E DomainError T) : FM T := fun v =>
  let (r, e) := m (engine v) in (r, mkSrv (db v) e (hooked v)).
Definition authorize (caller : Uuid) (p : Permission) (r : Resource) : FM unit := on_engine (require (User caller) p r).
Definition on_file_deleted (ids : list Uuid) : FM unit := modify (fun v => mkSrv (db v) (engine v) (hooked v ++ ids)).

(** ** Folders *)
Definition invalid_name (name reason : str) : DomainError :=
  DomainError.validation_error (lit "Invalid folder name '" ++ name ++ lit "': " ++ reason).
Definition create_folder_with_perms (name : str) (parent : option Uuid) (caller : Uuid) : FM FolderEntity :=
  match validate_storage_name name with
  | Err reason => raise (invalid_name name reason)
  | Ok _ =>
      match parent with
      | None => raise (DomainError.validation_error (lit "Root folder creation is reserved for registration"))
      | Some p =>
          _ ← authorize caller Create (Authorization.Folder p);
          on_db (create_folder name (Some p))
      end
  end.
Definition storage_failed (what : str) (id : Uuid) (e : DomainError) : DomainError :=
  DomainError.new (kind e) (lit "FolderStorage")
    (lit "Failed to " ++ what ++ lit " folder with ID: " ++ uuid_to_string id ++ lit ": " ++ DomainError.to_string e).
Definition rename_folder_with_perms (id : Uuid) (name : str) (caller : Uuid) : FM FolderEntity :=
  match validate_storage_name name with
  | Err reason => raise (invalid_name name reason)
  | Ok _ =>
      folder ← map_err_m (fun e => DomainError.internal_error (lit "FolderStorage")
                 (lit "Failed to look up folder before rename: " ++ uuid_to_string id ++ lit ": " ++ DomainError.to_string e))
                 (on_db (get_folder id));
      _ ← authorize caller (match e_parent folder with None => Manage | Some _ => Update end) (Authorization.Folder id);
      map_err_m (storage_failed (lit "rename") id) (on_db (rename_folder id name))
  end.
(** [{e:?}] of the two errors of the drive repository *)
Definition drive_lookup (context op : str) (e : SqlError) : DomainError :=
  DomainError.internal_error (lit "Drive")
    (context ++ lit ": StorageError(" ++ in_quotes_ (op ++ lit ": " ++ sql_text e) ++ lit ")").
Definition drive_missing (context : str) (id : Uuid) : DomainError :=
  DomainError.internal_error (lit "Drive") (context ++ lit ": NotFound(" ++ in_quotes_ (uuid_to_string id) ++ lit ")").
Definition get_drive_id_and_policies_for_folder (id : Uuid) : SM (Uuid * DrivePolicies) :=
  row ← map_err_m (drive_lookup (lit "source drive lookup") (lit "get_drive_id_and_policies_for_folder"))
          (fetch (fun s => r ← folders s !! id; d ← drives s !! f_drive r; Some (f_drive r, d_policies d)));
  some_or (drive_missing (lit "source drive lookup") id) row.
Definition drive_id_for_folder (id : Uuid) : SM Uuid :=
  row ← map_err_m (drive_lookup (lit "destination drive lookup") (lit "drive_id_for_folder")) (fetch (fun s => f_drive <$> folders s !! id));
  some_or (drive_missing (lit "destination drive lookup") id) row.
(** The gate of a move: whether it crosses a drive, if the policy and the quota allow it.  Both
    lookups are made before either error is looked at. *)
Definition cross_drive_gate (id p : Uuid) : FM bool :=
  src ← attempt (on_db (get_drive_id_and_policies_for_folder id));
  dst ← attempt (on_db (drive_id_for_folder p));
  src ← lift src;
  dst ← lift dst;
  if decide (src.1 = dst) then mret false
  else
    _ ← lift (refuse_cross_drive_move src.2);
    bytes ← on_db (folder_subtree_bytes id);
    _ ← (if (0 <=? bytes)%Z then on_db (check_drive_quota dst bytes) else mret tt);
    mret true.
Definition move_folder_with_perms (id : Uuid) (parent : option Uuid) (caller : Uuid) : FM FolderEntity :=
  _ ← authorize caller Update (Authorization.Folder id);
  _ ← (match parent with
       | None => mret tt
       | Some p =>
           if decide (p = id) then raise (DomainError.new InvalidInput (lit "Folder") (lit "Cannot move a folder into itself"))
           else authorize caller Create (Authorization.Folder p)
       end);
  crossed ← (match parent with None => mret false | Some p => cross_drive_gate id p end);
  _ ← attempt (on_db (get_folder id));
  folder ← map_err_m (storage_failed (lit "move") id) (on_db (move_folder id parent));
  _ ← (if crossed : bool then modify (fun v => mkSrv (db v) (invalidate_owner_cache_all (engine v)) (hooked v)) else mret tt);
  mret folder.
(** [unwrap_or_default] *)
Definition or_empty {T} (r : result DomainError (list T)) : list T := match r with Ok l => l | Err _ => [] end.
Definition delete_folder_with_perms (id : Uuid) (caller : Uuid) : FM unit :=
  _ ← authorize caller Delete (Authorization.Folder id);
  ids ← attempt (on_db (list_file_ids_in_subtree id));
  _ ← attempt (on_db (get_folder id));
  _ ← map_err_m (fun e => DomainError.internal_error (lit "FolderStorage")
        (lit "Failed to delete folder with ID: " ++ uuid_to_string id ++ lit ": " ++ DomainError.to_string e)) (on_db (delete_folder id));
  on_file_deleted (or_empty ids).

(** ** The trash *)
Definition trash_resource (t : TrashedItemType) (id : Uuid) : Resource :=
  match t with TFile => Authorization.File id | TFolder => Authorization.Folder id end.
Definition type_name (t : TrashedItemType) : str := match t with TFile => lit "File" | TFolder => lit "Folder" end.
Definition lower_name (t : TrashedItemType) : str := match t with TFile => lit "file" | TFolder => lit "folder" end.
Definition trash_failed (k : ErrorKind) (t : TrashedItemType) (before after : str) (id : Uuid) (e : DomainError) : DomainError :=
  DomainError.new k (type_name t) (before ++ lower_name t ++ lit " " ++ uuid_to_string id ++ after ++ DomainError.to_string e).
Definition move_item_to_trash (t : TrashedItemType) (id : Uuid) (caller : Uuid) : FM unit :=
  _ ← authorize caller Delete (trash_resource t id);
  map_err_m (trash_failed InternalError t (lit "Error moving ") (lit " to trash: ") id)
    (on_db (match t with TFile => file_move_to_trash id | TFolder => move_to_trash id end)).
(** The error is judged by its text. *)
Definition says_not_found (e : DomainError) : bool := str_contains_str (lit "not found") (DomainError.to_string e).
Definition as_kind (t : TrashedItemType) (e : DomainError) : DomainError := DomainError.new (kind e) (type_name t) (message e).
Definition restore_quota (t : TrashedItemType) (id caller : Uuid) : FM unit :=
  match t with
  | TFile =>
      dest ← on_db (trashed_file_destination id);
      match dest with
      | None => mret tt
      | Some (size, folder) =>
          _ ← map_err_m (as_kind TFile) (on_db (check_storage_quota format_bytes caller (Z.max size 0)));
          map_err_m (as_kind TFile) (on_db (check_drive_quota_by_folder folder (Z.max size 0)))
      end
  | TFolder =>
      bytes ← on_db (pending_restore_folder_subtree_bytes id);
      if (0 <? Z.max bytes 0)%Z then
        _ ← map_err_m (as_kind TFolder) (on_db (check_storage_quota format_bytes caller (Z.max bytes 0)));
        map_err_m (as_kind TFolder) (on_db (check_drive_quota_by_folder id (Z.max bytes 0)))
      else mret tt
  end.
Definition restore_item (id : Uuid) (caller : Uuid) : FM unit :=
  item ← on_db (get_trash_item id);
  match item with
  | None => mret tt
  | Some t =>
      _ ← authorize caller Delete (trash_resource t id);
      _ ← restore_quota t id caller;
      r ← attempt (on_db (match t with TFile => file_restore_from_trash id | TFolder => restore_from_trash id end));
      match r with
      | Ok _ => mret tt
      | Err e => if says_not_found e then mret tt
                 else raise (trash_failed (kind e) t (lit "Error restoring ") (lit " from trash: ") id e)
      end
  end.
Definition delete_item_permanently (id : Uuid) (caller : Uuid) : FM unit :=
  item ← on_db (get_trash_item id);
  match item with
  | None => mret tt
  | Some t =>
      _ ← authorize caller Delete (trash_resource t id);
      ids ← (match t with TFile => mret (Ok [id]) | TFolder => attempt (on_db (list_file_ids_in_subtree id)) end);
      r ← attempt (on_db (match t with TFile => delete_file_permanently id | TFolder => delete_folder_permanently id end));
      match r with
      | Err e =>
          if decide (kind e = NotFound) then on_file_deleted (or_empty ids)
          else raise (trash_failed InternalError t (lit "Error deleting ") (lit " permanently: ") id e)
      | Ok _ => on_file_deleted (or_empty ids)
      end
  end.
(** The garbage collection that follows is the business of the blob handler. *)
Definition clear_trash_in (ds : list Uuid) : FM unit :=
  ids ← attempt (on_db (get_all_trashed_file_ids ds));
  _ ← on_db (clear_trash ds);
  on_file_deleted (or_empty ids).
Definition empty_trash_for_drive (drive : Uuid) (caller : Uuid) : FM unit :=
  _ ← authorize caller Delete (Drive drive);
  clear_trash_in [drive].
End service.
