(* ===== verification/FolderTree.v ===== *)
(** * The folder tree

    What keeps the tables of [FolderDb] a forest of folders: [Tree].  In such tables the
    materialised columns tell the truth: [lpath <@ top] holds exactly of the folders that reach
    [top] through [parent_id], and the drive of a folder is that of its top folder.  The file
    proves that the triggers and the cascades of deletion keep it so. *)

From S2P Require Import Prelude.
From S2P Require Import RustStr.
From S2P Require Import DrivePolicies.
From S2P Require Import FolderDb.

#[local] Arguments lit : simpl never.

(** ** Characters *)
Definition boundary (s : str) : Prop := match s with [] => True | b :: _ => continuation b = false end.
Lemma skip_chars_app p rest : boundary rest -> skip_chars (char_length p) (p ++ rest) = rest.
Proof.
  intros Hb. induction p as [|b p IH].
  - destruct rest as [|c rest]; [done|]. cbn in *. by rewrite Hb.
  - unfold char_length. rewrite filter_cons. cbn [app skip_chars].
    destruct (continuation b) eqn:E; [by rewrite decide_False|]. by rewrite decide_True.
Qed.

(** ** The invariant *)
Definition place_ok (s : Store) (id : Uuid) (r : Folder) : Prop :=
  compute_folder_path (folders s) id (f_name r) (f_parent r) = Some (f_path r, f_lpath r).
(** The drive of a row is that of the folder it is in; a top folder is the root of its drive. *)
Definition drive_ok (s : Store) (id : Uuid) (r : Folder) : Prop :=
  match f_parent r with
  | Some p => exists pr, folders s !! p = Some pr ∧ f_drive pr = f_drive r
  | None => exists d, drives s !! f_drive r = Some d ∧ d_root d = Some id
  end.
Definition file_ok (s : Store) (f : FileRow) : Prop :=
  exists p pr, fi_folder f = Some p ∧ folders s !! p = Some pr ∧ f_drive pr = fi_drive f.
(** A row remembers an original place only in the trash, and it is the place it still has. *)
Definition original_ok (trashed : bool) (original place : option Uuid) : Prop :=
  original = None ∨ (trashed = true ∧ original = place).

(** The columns agree with [parent_id] and [folder_id]. *)
Record Shape (s : Store) : Prop := {
  shape_place id r : folders s !! id = Some r -> place_ok s id r;
  shape_drive id r : folders s !! id = Some r -> drive_ok s id r;
  shape_files id f : files s !! id = Some f -> file_ok s f;
}.
Record Tree (s : Store) : Prop := {
  tree_shape : Shape s;
  tree_original id r : folders s !! id = Some r -> original_ok (f_trashed r) (f_original_parent r) (f_parent r);
  tree_file_original id f : files s !! id = Some f -> original_ok (fi_trashed f) (fi_original_folder f) (fi_folder f);
  tree_unique : unique_folders (folders s) = true;
  tree_unique_files : unique_files (files s) = true;
}.

(** [id] is [top] or in it, following [parent_id]. *)
Inductive under (s : Store) (top : Uuid) : Uuid -> Prop :=
| under_top r : folders s !! top = Some r -> under s top top
| under_child id p r : folders s !! id = Some r -> f_parent r = Some p -> under s top p -> under s top id.

Section tree.
Variable s : Store.
Hypothesis HT : Shape s.

Lemma tree_parent id r p : folders s !! id = Some r -> f_parent r = Some p ->
  exists pr, folders s !! p = Some pr ∧ f_drive pr = f_drive r
           ∧ f_path r = f_path pr ++ SLASH_ :: f_name r ∧ f_lpath r = f_lpath pr ++ [id].
Proof.
  intros Hr Hp. destruct HT as [Hpl Hdr _]. specialize (Hpl _ _ Hr). specialize (Hdr _ _ Hr).
  unfold place_ok, drive_ok in *. rewrite Hp in *. destruct Hdr as (pr & Hpr & Hd). exists pr.
  cbn in Hpl. rewrite Hpr in Hpl. cbn in Hpl. by injection Hpl.
Qed.
Lemma tree_top id r : folders s !! id = Some r -> f_parent r = None ->
  f_path r = f_name r ∧ f_lpath r = [id] ∧ exists d, drives s !! f_drive r = Some d ∧ d_root d = Some id.
Proof.
  intros Hr Hp. destruct HT as [Hpl Hdr _]. specialize (Hpl _ _ Hr). specialize (Hdr _ _ Hr).
  unfold place_ok, drive_ok in *. rewrite Hp in *. cbn in Hpl. by injection Hpl.
Qed.
(** Every folder ends its own [lpath], and a parent has a shorter one. *)
Lemma lpath_ends id r : folders s !! id = Some r -> exists up, f_lpath r = up ++ [id].
Proof.
  intros Hr. destruct (f_parent r) as [p|] eqn:Ep.
  - destruct (tree_parent id r p Hr Ep) as (pr & _ & _ & _ & ->). by eexists.
  - destruct (tree_top id r Hr Ep) as (_ & -> & _). by exists [].
Qed.
(** Induction from the top folders down. *)
Lemma tree_ind (P : Uuid -> Folder -> Prop) :
  (forall id r, folders s !! id = Some r -> f_parent r = None -> P id r) ->
  (forall id r p pr, folders s !! id = Some r -> f_parent r = Some p -> folders s !! p = Some pr -> P p pr -> P id r) ->
  forall id r, folders s !! id = Some r -> P id r.
Proof.
  intros Htop Hstep. assert (forall n id r, length (f_lpath r) < n -> folders s !! id = Some r -> P id r)%nat as H.
  { induction n as [|n IH]; intros id r Hn Hr; [lia|]. destruct (f_parent r) as [p|] eqn:Ep; [|by apply Htop].
    destruct (tree_parent id r p Hr Ep) as (pr & Hpr & _ & _ & Hl). apply (Hstep id r p pr Hr Ep Hpr). apply IH; [|done].
    rewrite Hl, length_app in Hn. cbn in Hn. lia. }
  intros id r. apply (H (S (length (f_lpath r)))). lia.
Qed.

Lemma under_row top id : under s top id -> exists r, folders s !! id = Some r.
Proof. destruct 1; eauto. Qed.
Lemma under_trans a b c : under s a b -> under s b c -> under s a c.
Proof. intros Hab. induction 1; [done|]. eapply under_child; eauto. Qed.
(** A folder in [top] extends both of its columns. *)
Lemma under_extends top t id : folders s !! top = Some t -> under s top id ->
  exists r rest ids, folders s !! id = Some r ∧ f_drive r = f_drive t ∧ f_path r = f_path t ++ rest ∧ boundary rest
                     ∧ f_lpath r = f_lpath t ++ ids ∧ (ids = [] <-> id = top).
Proof.
  intros Ht. induction 1 as [t' Ht'|id p r Hr Hp Hu IH].
  - exists t, [], []. rewrite !app_nil_r. by split_and!.
  - destruct IH as (pr & rest & ids & Hpr & Hd & Hpath & Hb & Hl & _).
    destruct (tree_parent id r p Hr Hp) as (pr' & Hpr' & Hd' & Hpath' & Hl'). simplify_eq.
    exists r, (rest ++ SLASH_ :: f_name r), (ids ++ [id]). rewrite Hpath', Hl', Hpath, Hl, <- !app_assoc. split_and!; try done.
    + congruence.
    + by destruct rest.
    + split; [by destruct ids|]. intros ->. simplify_eq. rewrite Hl in Hl'. apply (f_equal length) in Hl'.
      rewrite !length_app in Hl'. cbn in Hl'. lia.
Qed.
(** The materialised path answers the question about [parent_id]. *)
Lemma below_under top t id r : folders s !! top = Some t -> folders s !! id = Some r ->
  below (f_lpath t) r = true <-> under s top id.
Proof.
  intros Ht Hr. unfold below. rewrite bool_decide_eq_true. split.
  - revert id r Hr. refine (tree_ind _ _ _).
    + intros id r Hr Hp [k Hk]. destruct (tree_top id r Hr Hp) as (_ & Hl & _). destruct (lpath_ends top t Ht) as [up Hup].
      rewrite Hl, Hup, <- app_assoc in Hk. destruct up as [|x up]; cbn in Hk; [|by destruct up].
      injection Hk as -> _. by apply (under_top s top t).
    + intros id r p pr Hr Hp Hpr IH [k Hk]. destruct (tree_parent id r p Hr Hp) as (pr' & Hpr' & _ & _ & Hl). simplify_eq.
      destruct (decide (id = top)) as [->|Hne]; [by apply (under_top s top t)|].
      apply (under_child s top id p r Hr Hp), IH. destruct (lpath_ends top t Ht) as [up Hup].
      destruct k as [|x k' _] using rev_ind.
      * rewrite app_nil_r, Hl, Hup in Hk. apply app_inj_tail in Hk as [_ ?]. congruence.
      * rewrite Hl, app_assoc in Hk. apply app_inj_tail in Hk as [-> _]. by exists k'.
  - intros Hu. destruct (under_extends top t id Ht Hu) as (r' & _ & ids & Hr' & _ & _ & _ & Hl & _). simplify_eq. by exists ids.
Qed.
Lemma in_lpath id r x : folders s !! id = Some r -> x ∈ f_lpath r -> under s x id.
Proof.
  revert id r. refine (tree_ind _ _ _).
  - intros id r Hr Hp. destruct (tree_top id r Hr Hp) as (_ & -> & _). intros ->%list_elem_of_singleton. by apply (under_top s id r).
  - intros id r p pr Hr Hp Hpr IH. destruct (tree_parent id r p Hr Hp) as (pr' & Hpr' & _ & _ & Hl). simplify_eq.
    rewrite Hl, elem_of_app, list_elem_of_singleton. intros [Hin| ->]; [|by apply (under_top s id r)].
    by apply (under_child s x id p r Hr Hp), IH.
Qed.
Lemma same_drive top t id r : folders s !! top = Some t -> folders s !! id = Some r -> under s top id -> f_drive r = f_drive t.
Proof. intros Ht Hr Hu. destruct (under_extends top t id Ht Hu) as (r' & _ & _ & Hr' & Hd & _). by simplify_eq. Qed.
Lemma under_antisym a b : under s a b -> under s b a -> a = b.
Proof.
  intros Hab Hba. destruct (under_row _ _ Hab) as [rb Hb], (under_row _ _ Hba) as [ra Ha].
  destruct (under_extends a ra b Ha Hab) as (rb' & _ & ids & Hb' & _ & _ & _ & Hl & Hi).
  destruct (under_extends b rb a Hb Hba) as (ra' & _ & ids' & Ha' & _ & _ & _ & Hl' & _). simplify_eq.
  symmetry. apply Hi. rewrite Hl in Hl'. apply (f_equal length) in Hl'. rewrite !length_app in Hl'. destruct ids; [done|cbn in Hl'; lia].
Qed.
(** Every folder is in the root of its drive. *)
Lemma under_root id r : folders s !! id = Some r ->
  exists d root, drives s !! f_drive r = Some d ∧ d_root d = Some root ∧ under s root id.
Proof.
  revert id r. refine (tree_ind _ _ _).
  - intros id r Hr Hp. destruct (tree_top id r Hr Hp) as (_ & _ & d & Hd & Hroot). exists d, id. split_and!; [done|done|by apply (under_top s id r)].
  - intros id r p pr Hr Hp Hpr (d & root & Hd & Hroot & Hu). destruct (tree_parent id r p Hr Hp) as (pr' & Hpr' & Hdr & _). simplify_eq.
    exists d, root. rewrite <- Hdr. split_and!; [done|done|]. by apply (under_child s root id p r).
Qed.

(** ** Moving a folder *)
(** What the two triggers make of the tables when the row [id] changes from [old] to [new]. *)
Definition relocate (id : Uuid) (old new : Folder) (m : gmap Uuid Folder) : gmap Uuid Folder :=
  <[id := new]> (map_imap (fun _ r => Some (if below (f_lpath old) r then with_drive (f_drive new) (repath old new r) else r)) m).
Definition relocate_files (old new : Folder) (m : gmap Uuid Folder) (fs : gmap Uuid FileRow) : gmap Uuid FileRow :=
  (fun f => if in_folder m (f_lpath old) f then file_place (fi_folder f) (f_drive new) (fi_name f) f else f) <$> fs.
(** The place a folder may be moved to: a folder that is not in it, in that folder's drive. *)
Definition fits (id : Uuid) (old : Folder) (parent : option Uuid) (drive : Uuid) : Prop :=
  match parent with
  | Some p => exists pr, folders s !! p = Some pr ∧ ~ under s id p ∧ drive = f_drive pr
  | None => drive = f_drive old
  end.
Lemma repath_below id old new k r : folders s !! id = Some old -> folders s !! k = Some r -> under s id k ->
  exists rest ids, f_path r = f_path old ++ rest ∧ f_lpath r = f_lpath old ++ ids
    ∧ repath old new r = with_path (f_path new ++ rest) (f_lpath new ++ ids) r.
Proof.
  intros Ho Hr Hu. destruct (under_extends id old k Ho Hu) as (r' & rest & ids & Hr' & _ & Hp & Hb & Hl & _). simplify_eq.
  exists rest, ids. split_and!; [done|done|]. unfold repath. by rewrite Hp, Hl, skip_chars_app, drop_app_length.
Qed.
Lemma no_twin id old m : folders s !! id = Some old -> (forall k r, k ≠ id -> m !! k = Some r -> folders s !! k = Some r) ->
  existsb (fun x : Uuid * Folder => negb (bool_decide (x.1 = id)) && bool_decide (f_lpath x.2 = f_lpath old)) (map_to_list m) = false.
Proof.
  intros Ho Hm. apply existsb_false. intros [k r] Hin. apply elem_of_map_to_list in Hin. cbn.
  destruct (bool_decide_reflect (k = id)) as [|Hne]; [done|]. cbn. apply bool_decide_eq_false. intros Hl.
  destruct (lpath_ends id old Ho) as [up Hup], (lpath_ends k r) as [up' Hup']; [by apply Hm|].
  rewrite Hup, Hup' in Hl. apply app_inj_tail in Hl as [_ ?]. done.
Qed.
Lemma new_below id old up k r : folders s !! id = Some old -> folders s !! k = Some r ->
  (up ++ [id]) `prefix_of` f_lpath r -> below (f_lpath old) r = true.
Proof.
  intros Ho Hr [x Hx]. apply (below_under id old k r Ho Hr), (in_lpath k r id Hr).
  rewrite Hx, !elem_of_app, list_elem_of_singleton. auto.
Qed.
Lemma computed_lpath id name parent path lpath : compute_folder_path (folders s) id name parent = Some (path, lpath) ->
  exists up, lpath = up ++ [id].
Proof.
  destruct parent as [p|]; cbn; [|intros [= <- <-]; by exists []].
  destruct (folders s !! p) as [pr|]; [|done]. intros [= <- <-]. by eexists.
Qed.

Section move.
Variables (id : Uuid) (old new : Folder).
Hypothesis Ho : folders s !! id = Some old.
Hypothesis Hn : compute_folder_path (folders s) id (f_name new) (f_parent new) = Some (f_path new, f_lpath new).

Lemma cascade_paths_all :
  cascade_paths id old new (<[id := new]> (folders s))
  = Ok (<[id := new]> (map_imap (fun _ r => Some (if below (f_lpath old) r then repath old new r else r)) (folders s))).
Proof.
  unfold cascade_paths. rewrite no_twin; [|done|intros k r Hne Hr; by rewrite lookup_insert_ne in Hr].
  match goal with |- (if ?c then _ else _) = _ => destruct c eqn:Ec end; f_equal; apply map_eq; intros k.
  - apply andb_true_iff in Ec as [Hp%bool_decide_eq_true Hl%bool_decide_eq_true].
    destruct (decide (k = id)) as [->|Hne]; [by rewrite !lookup_insert_eq|]. rewrite !lookup_insert_ne, map_lookup_imap by done.
    destruct (folders s !! k) as [r|] eqn:Er; [|done]. cbn. destruct (below (f_lpath old) r) eqn:Eb; [|done].
    apply (below_under id old k r Ho Er) in Eb. destruct (repath_below id old new k r Ho Er Eb) as (rest & ids & Hp' & Hl' & ->).
    rewrite <- Hp, <- Hl, <- Hp', <- Hl'. by destruct r.
  - rewrite map_lookup_imap. destruct (decide (k = id)) as [->|Hne].
    + rewrite !lookup_insert_eq. cbn. by rewrite bool_decide_true.
    + rewrite !lookup_insert_ne, map_lookup_imap by done. destruct (folders s !! k) as [r|]; [|done]. cbn. by rewrite bool_decide_false.
Qed.
(** A row is below the new place exactly if it was below the old one. *)
Lemma repath_still_below k r : folders s !! k = Some r -> k ≠ id ->
  below (f_lpath new) (if below (f_lpath old) r then repath old new r else r) = below (f_lpath old) r.
Proof.
  intros Hr Hne. destruct (below (f_lpath old) r) eqn:Eb.
  - unfold below, repath. cbn. apply bool_decide_eq_true. by eexists.
  - apply not_true_iff_false. intros Hb%bool_decide_eq_true. destruct (computed_lpath _ _ _ _ _ Hn) as [up Hup].
    rewrite Hup in Hb. by rewrite (new_below id old up k r Ho Hr Hb) in Eb.
Qed.
Lemma relocate_other k r : folders s !! k = Some r -> k ≠ id ->
  relocate id old new (folders s) !! k = Some (if below (f_lpath old) r then with_drive (f_drive new) (repath old new r) else r).
Proof. intros Hr Hne. unfold relocate. by rewrite lookup_insert_ne, map_lookup_imap, Hr by done. Qed.
Lemma below_old_drive k r : folders s !! k = Some r -> below (f_lpath old) r = true -> f_drive r = f_drive old.
Proof. intros Hr Hb. apply (same_drive id old k r Ho Hr). by apply (below_under id old k r Ho Hr). Qed.
Lemma cascade_drive_all :
  cascade_drive_folders old new (<[id := new]> (map_imap (fun _ r => Some (if below (f_lpath old) r then repath old new r else r)) (folders s)))
  = relocate id old new (folders s).
Proof.
  set (m1 := <[id := new]> _).
  assert (Hm1 : forall k r, folders s !! k = Some r -> k ≠ id -> m1 !! k = Some (if below (f_lpath old) r then repath old new r else r)).
  { intros k r Hr Hne. unfold m1. by rewrite lookup_insert_ne, map_lookup_imap, Hr by done. }
  unfold cascade_drive_folders, relocate. apply map_eq. intros k. destruct (decide (k = id)) as [->|Hne].
  - rewrite lookup_insert_eq. case_bool_decide as Hd; [by unfold m1; rewrite lookup_insert_eq|].
    rewrite lookup_fmap. unfold m1. rewrite lookup_insert_eq. cbn. rewrite (bool_decide_false (f_drive new = f_drive old)) by done.
    by rewrite andb_false_r.
  - rewrite lookup_insert_ne, map_lookup_imap by done. destruct (folders s !! k) as [r|] eqn:Er; cbn.
    + pose proof (below_old_drive k r Er) as Hd. case_bool_decide as Hdd.
      * rewrite (Hm1 k r) by done. destruct (below (f_lpath old) r) eqn:Eb; [|done]. f_equal.
        rewrite <- Hdd, <- Hd by done. by destruct r.
      * rewrite lookup_fmap, (Hm1 k r) by done. cbn. rewrite (repath_still_below k r) by done.
        destruct (below (f_lpath old) r) eqn:Eb; [|done]. cbn. by rewrite bool_decide_true by by apply Hd.
    + assert (m1 !! k = None) as E by (unfold m1; by rewrite lookup_insert_ne, map_lookup_imap, Er by done).
      case_bool_decide; [done|]. by rewrite lookup_fmap, E.
Qed.
Lemma below_self (r : Folder) : below (f_lpath r) r = true.
Proof. unfold below. by apply bool_decide_eq_true. Qed.
Lemma in_folder_relocated f : file_ok s f ->
  in_folder (relocate id old new (folders s)) (f_lpath new) f = in_folder (folders s) (f_lpath old) f.
Proof.
  intros (p & pr & Hf & Hp & _). unfold in_folder. rewrite Hf. cbn. rewrite Hp. destruct (decide (p = id)) as [->|Hne].
  - simplify_eq. unfold relocate. by rewrite lookup_insert_eq, !below_self.
  - rewrite (relocate_other p pr) by done. pose proof (repath_still_below p pr Hp Hne) as Hb. by destruct (below (f_lpath old) pr).
Qed.
Lemma update_folder_relocates :
  update_folder id old (f_name new) (f_parent new) (f_drive new) (f_trashed new) (f_trashed_at new) (f_original_parent new) s
  = Ok (set_files (relocate_files old new (folders s) (files s)) (set_folders (relocate id old new (folders s)) s)).
Proof.
  unfold update_folder. rewrite Hn. replace (mkFolder _ _ _ _ _ _ _ _) with new by by destruct new.
  rewrite cascade_paths_all. cbn [mbind result_bind]. rewrite cascade_drive_all. do 2 f_equal.
  unfold cascade_drive_files, relocate_files. apply map_eq. intros j.
  rewrite lookup_fmap. destruct (files s !! j) as [f|] eqn:Ef; cbn; [|case_bool_decide; [done|by rewrite lookup_fmap, Ef]].
  pose proof (shape_files s HT j f Ef) as Hok.
  assert (Hd : in_folder (folders s) (f_lpath old) f = true -> fi_drive f = f_drive old).
  { destruct Hok as (p & pr & Hf & Hp & <-). unfold in_folder. rewrite Hf. cbn. rewrite Hp. intros Hb. by apply (below_old_drive p). }
  case_bool_decide as Hdd.
  - rewrite Ef. destruct (in_folder (folders s) (f_lpath old) f) eqn:Ei; [|done]. rewrite <- Hdd, <- Hd by done. by destruct f.
  - rewrite lookup_fmap, Ef. cbn. rewrite in_folder_relocated by done.
    destruct (in_folder (folders s) (f_lpath old) f) eqn:Ei; [|done]. cbn. by rewrite bool_decide_true by by apply Hd.
Qed.

(** The columns agree again after the move. *)
Hypothesis Hfits : fits id old (f_parent new) (f_drive new).
Hypothesis Hroot : f_parent new = None -> exists d, drives s !! f_drive new = Some d ∧ d_root d = Some id.
Lemma relocate_under k r : folders s !! k = Some r -> under s id k ->
  exists r' rest ids, relocate id old new (folders s) !! k = Some r' ∧ f_path r = f_path old ++ rest ∧ f_lpath r = f_lpath old ++ ids
    ∧ f_path r' = f_path new ++ rest ∧ f_lpath r' = f_lpath new ++ ids ∧ f_drive r' = f_drive new
    ∧ (k ≠ id -> r' = with_drive (f_drive new) (with_path (f_path new ++ rest) (f_lpath new ++ ids) r)).
Proof.
  intros Hr Hu. destruct (decide (k = id)) as [->|Hne].
  - simplify_eq. exists new, [], []. unfold relocate. rewrite lookup_insert_eq, !app_nil_r. by split_and!.
  - destruct (repath_below id old new k r Ho Hr Hu) as (rest & ids & Hp & Hl & Hrp).
    eexists _, rest, ids. rewrite (relocate_other k r) by done. rewrite (proj2 (below_under id old k r Ho Hr) Hu).
    split; [done|]. rewrite Hrp. by split_and!.
Qed.
Lemma relocate_elsewhere k r : folders s !! k = Some r -> ~ under s id k -> relocate id old new (folders s) !! k = Some r.
Proof.
  intros Hr Hu. destruct (decide (k = id)) as [->|Hne]; [destruct Hu; by apply (under_top s id r)|].
  rewrite (relocate_other k r) by done. destruct (below (f_lpath old) r) eqn:Eb; [|done].
  by apply (below_under id old k r Ho Hr) in Eb.
Qed.
Lemma under_dec k : Decision (under s id k).
Proof.
  destruct (folders s !! k) as [r|] eqn:Er.
  - destruct (below (f_lpath old) r) eqn:Eb; [left|right]; [by apply (below_under id old k r Ho Er)|].
    intros Hu. apply (below_under id old k r Ho Er) in Hu. congruence.
  - right. intros Hu. destruct (under_row id k Hu). congruence.
Qed.
Definition moved : Store := set_files (relocate_files old new (folders s) (files s)) (set_folders (relocate id old new (folders s)) s).
Lemma moved_row k r' : folders moved !! k = Some r' -> exists r, folders s !! k = Some r.
Proof.
  cbn. unfold relocate. destruct (decide (k = id)) as [->|Hne]; [by eauto|]. rewrite lookup_insert_ne, map_lookup_imap by done.
  destruct (folders s !! k) as [r|]; [by eauto|done].
Qed.
Lemma moved_place k r' : folders moved !! k = Some r' -> place_ok moved k r' ∧ drive_ok moved k r'.
Proof.
  intros Hr'. destruct (moved_row k r' Hr') as [r Hr]. cbn in Hr'. unfold place_ok, drive_ok. cbn [folders moved drives set_files set_folders].
  destruct (decide (k = id)) as [->|Hne].
  - assert (r' = new) as -> by (unfold relocate in Hr'; rewrite lookup_insert_eq in Hr'; congruence).
    unfold fits in Hfits. destruct (f_parent new) as [p|]; [|split; [done|by apply Hroot]].
    destruct Hfits as (pr & Hp & Hu & Hd). pose proof (relocate_elsewhere p pr Hp Hu) as Hp'.
    cbn in *. rewrite Hp'. rewrite Hp in Hn. split; [done|]. by exists pr.
  - destruct (under_dec k) as [Hu|Hu].
    + destruct (relocate_under k r Hr Hu) as (r1 & rest & ids & H1 & Hp & Hl & _ & _ & _ & Hr1). rewrite H1 in Hr'. injection Hr' as <-.
      rewrite Hr1 by done. cbn [f_parent f_name f_path f_lpath f_drive with_drive with_path].
      inversion Hu as [|? p ? Hr2 Hpar Hup]; simplify_eq. rewrite Hpar. destruct (under_row id p Hup) as [pr Hpr].
      destruct (tree_parent k r p Hr Hpar) as (pr2 & Hpr2 & _ & Hpath & Hlpath). simplify_eq.
      destruct (relocate_under p pr Hpr Hup) as (q & rest' & ids' & Hq & Hp' & Hl' & Hqp & Hql & Hqd & _).
      cbn. rewrite Hq. cbn. rewrite Hp, Hp', <- app_assoc in Hpath. rewrite Hl, Hl', <- app_assoc in Hlpath.
      apply app_inv_head in Hpath, Hlpath. subst rest ids. rewrite Hqp, Hql, <- !app_assoc. split; [done|]. by exists q.
    + rewrite (relocate_elsewhere k r) in Hr' by done. injection Hr' as <-.
      destruct (f_parent r) as [p|] eqn:Hpar.
      * destruct (tree_parent k r p Hr Hpar) as (pr & Hpr & Hd & Hpath & Hlpath). cbn.
        rewrite (relocate_elsewhere p pr Hpr) by (intros Hup; apply Hu; by apply (under_child s id k p r)).
        cbn. rewrite Hpath, Hlpath. split; [done|]. by exists pr.
      * destruct (tree_top k r Hr Hpar) as (-> & -> & Hd). done.
Qed.
Lemma moved_shape : Shape moved.
Proof.
  split; try apply moved_place. intros j f' Hf'. cbn in Hf'. unfold relocate_files in Hf'. rewrite lookup_fmap in Hf'.
  destruct (files s !! j) as [f|] eqn:Ef; [|done]. injection Hf' as <-.
  destruct (shape_files s HT j f Ef) as (p & pr & Hf & Hp & Hd). unfold file_ok. unfold in_folder. rewrite Hf. cbn [mbind option_bind]. rewrite Hp.
  destruct (under_dec p) as [Hu|Hu].
  - rewrite (proj2 (below_under id old p pr Ho Hp) Hu). destruct (relocate_under p pr Hp Hu) as (q & _ & _ & Hq & _ & _ & _ & _ & Hqd & _).
    by exists p, q.
  - destruct (below (f_lpath old) pr) eqn:Eb; [by apply (below_under id old p pr Ho Hp) in Eb|].
    exists p, pr. split_and!; [done| |done]. by apply relocate_elsewhere.
Qed.
End move.

(** ** Deletion *)
Section deletion.
Variable ids : gset Uuid.
Hypothesis Hids : ids ⊆ dom (folders s).
Lemma cascades_spec gone r : cascades s gone r = true <->
  (exists p, f_parent r = Some p ∧ p ∈ gone) ∨ exists d root, drives s !! f_drive r = Some d ∧ d_root d = Some root ∧ root ∈ gone.
Proof.
  unfold cascades, root_in. rewrite orb_true_iff. split.
  - intros [H|H].
    + left. destruct (f_parent r) as [p|]; [|done]. apply bool_decide_eq_true in H. eauto.
    + right. destruct (drives s !! f_drive r) as [d|] eqn:Ed; [|done]. destruct (d_root d) as [root|] eqn:Er; [|done].
      apply bool_decide_eq_true in H. eauto.
  - intros [(p & -> & H)|(d & root & -> & -> & H)]; [left|right]; by apply bool_decide_eq_true.
Qed.
Lemma elem_of_cascade_step gone k : k ∈ cascade_step s gone <-> k ∈ gone ∨ exists r, folders s !! k = Some r ∧ cascades s gone r = true.
Proof.
  unfold cascade_step. rewrite elem_of_union, elem_of_dom. apply or_iff_compat_l. split.
  - intros [r Hr]. apply map_lookup_filter_Some in Hr as [Hr Hc]. eauto.
  - intros (r & Hr & Hc). exists r. by apply map_lookup_filter_Some.
Qed.
Lemma doomed_closed : cascade_step s (doomed s ids) ⊆ doomed s ids.
Proof.
  unfold doomed. apply (iter_stabilises _ (dom (folders s))).
  - unfold cascade_step. set_solver.
  - intros g Hg k. rewrite elem_of_cascade_step. intros [H|(r & Hr & _)]; [by apply Hg|]. apply elem_of_dom. by exists r.
  - done.
  - rewrite size_dom. lia.
Qed.
Lemma doomed_grows : ids ⊆ doomed s ids.
Proof.
  unfold doomed. generalize (size (folders s)). intros n. induction n as [|n IH]; [done|]. cbn. unfold cascade_step at 1. set_solver.
Qed.
(** What is deleted is exactly what is in the given folders. *)
Lemma doomed_under k : k ∈ doomed s ids <-> exists i, i ∈ ids ∧ under s i k.
Proof.
  split.
  - unfold doomed. generalize (size (folders s)). intros n. revert k. induction n as [|n IH]; cbn; intros k.
    + intros Hk. exists k. split; [done|]. apply Hids, elem_of_dom in Hk as [r Hr]. by apply (under_top s k r).
    + rewrite elem_of_cascade_step. intros [Hk|(r & Hr & Hc)]; [by apply IH|].
      apply cascades_spec in Hc as [(p & Hp & Hin)|(d & root & Hd & Hroot & Hin)].
      * destruct (IH p Hin) as (i & Hi & Hu). exists i. split; [done|]. by apply (under_child s i k p r).
      * destruct (IH root Hin) as (i & Hi & Hu). exists i. split; [done|]. apply (under_trans i root k Hu).
        destruct (under_root k r Hr) as (d' & root' & Hd' & Hroot' & Hu'). simplify_eq. done.
  - intros (i & Hi & Hu). induction Hu as [r Hr|k p r Hr Hp Hu IH]; [by apply doomed_grows|].
    apply doomed_closed, elem_of_cascade_step. right. exists r. split; [done|]. apply cascades_spec. eauto.
Qed.
Lemma deleted_row k : folders (delete_folders ids s) !! k = if decide (k ∈ doomed s ids) then None else folders s !! k.
Proof.
  cbn. destruct (decide (k ∈ doomed s ids)) as [Hk|Hk].
  - apply map_lookup_filter_None. right. intros r _ Hn. by apply Hn.
  - destruct (folders s !! k) as [r|] eqn:Er; [by apply map_lookup_filter_Some|]. apply map_lookup_filter_None. by left.
Qed.
Lemma root_in_under drive k r : folders s !! k = Some r -> f_drive r = drive -> root_in s (doomed s ids) drive = true -> k ∈ doomed s ids.
Proof.
  intros Hr <- Hd. apply doomed_closed, elem_of_cascade_step. right. exists r. split; [done|]. unfold cascades. by rewrite Hd, orb_true_r.
Qed.
(** A file goes exactly with its folder. *)
Definition goes (f : FileRow) : bool := match fi_folder f with Some p => bool_decide (p ∈ doomed s ids) | None => false end.
Lemma deleted_file j f : files s !! j = Some f -> files (delete_folders ids s) !! j = if goes f then None else Some f.
Proof.
  intros Hf. destruct (shape_files s HT j f Hf) as (p & pr & Hp & Hpr & Hd). cbn. unfold goes. rewrite Hp. case_bool_decide as Hx.
  - apply map_lookup_filter_None. right. intros f' Hf' Hn. cbn in Hn. simplify_eq. rewrite Hp in Hn. by rewrite bool_decide_true in Hn.
  - apply map_lookup_filter_Some. split; [done|]. cbn. rewrite Hp, bool_decide_false by done. cbn.
    apply not_true_iff_false. intros Hroot. by apply Hx, (root_in_under _ p pr Hpr Hd).
Qed.
Lemma deleted_shape : Shape (delete_folders ids s).
Proof.
  assert (Hkeep : forall k r, folders s !! k = Some r -> k ∉ doomed s ids -> forall p, f_parent r = Some p -> p ∉ doomed s ids).
  { intros k r Hr Hk p Hp Hin. apply Hk, doomed_closed, elem_of_cascade_step. right. exists r. split; [done|]. apply cascades_spec. eauto. }
  split.
  - intros k r Hr. rewrite deleted_row in Hr. case_decide as Hk; [done|]. pose proof (shape_place s HT k r Hr) as Hpl. unfold place_ok in *.
    destruct (f_parent r) as [p|] eqn:Ep; [|done]. cbn [compute_folder_path] in *. rewrite deleted_row.
    by rewrite decide_False by by apply (Hkeep k r).
  - intros k r Hr. rewrite deleted_row in Hr. case_decide as Hk; [done|]. pose proof (shape_drive s HT k r Hr) as Hdr. unfold drive_ok in *.
    destruct (f_parent r) as [p|] eqn:Ep.
    + destruct Hdr as (pr & Hpr & Hd). exists pr. split; [|done]. rewrite deleted_row. by rewrite decide_False by by apply (Hkeep k r).
    + destruct Hdr as (d & Hd & Hroot). exists d. split; [|done]. cbn. apply map_lookup_filter_Some. split; [done|]. cbn. rewrite Hroot.
      by apply bool_decide_eq_false.
  - intros j f Hf. destruct (files s !! j) as [f0|] eqn:Ef.
    + rewrite (deleted_file j f0 Ef) in Hf. destruct (goes f0) eqn:Hx; [done|]. injection Hf as ->. unfold goes in Hx.
      destruct (shape_files s HT j f Ef) as (p & pr & Hp & Hpr & Hd). exists p, pr. split_and!; [done| |done].
      rewrite Hp in Hx. apply bool_decide_eq_false in Hx. by rewrite deleted_row, decide_False.
    + cbn in Hf. apply map_lookup_filter_Some in Hf as [Hf _]. congruence.
Qed.
End deletion.
End tree.
