(* ===== verification/FolderInv.v ===== *)
(** * Every statement keeps the folder tree

    What the statements of [FolderDb] do to tables that form a [Tree], and that they leave one,
    provided that a new row carries the drive of its folder and that no folder is moved into its
    own subtree; [safe] says which conditions a statement needs. *)

From S2P Require Import Prelude.
From S2P Require Import RustStr.
From S2P Require Import DrivePolicies.
From S2P Require Import FolderDb.
From S2P Require Import FolderTree.
From stdpp Require Import sorting.

#[local] Arguments lit : simpl never.

(** ** Uniqueness *)
Lemma distinct_spec {V} (same : V -> V -> bool) (m : gmap Uuid V) : distinct same m = true <->
  forall k r k' r', m !! k = Some r -> m !! k' = Some r' -> same r r' = true -> k = k'.
Proof.
  unfold distinct. rewrite forallb_forall. split.
  - intros H k r k' r' Hk Hk' Hs. apply elem_of_map_to_list, list_elem_of_In in Hk, Hk'.
    specialize (H _ Hk). rewrite forallb_forall in H. specialize (H _ Hk'). cbn in H. rewrite Hs, orb_false_r in H.
    by apply bool_decide_eq_true in H.
  - intros H [k r] Hin. apply forallb_forall. intros [k' r'] Hin'. apply list_elem_of_In, elem_of_map_to_list in Hin, Hin'. cbn.
    destruct (same r r') eqn:Es; [|by rewrite orb_true_r]. by rewrite (bool_decide_true (k = k')) by by apply (H k r k' r').
Qed.
Lemma distinct_sub {V} (same : V -> V -> bool) (m m' : gmap Uuid V) : m' ⊆ m -> distinct same m = true -> distinct same m' = true.
Proof. rewrite !distinct_spec. intros Hs H k r k' r' Hk Hk'. by apply H; eapply lookup_weaken. Qed.

(** ** Changes that keep every row in its place *)
Definition same_place (r r' : Folder) : Prop :=
  f_name r = f_name r' ∧ f_parent r = f_parent r' ∧ f_drive r = f_drive r' ∧ f_path r = f_path r' ∧ f_lpath r = f_lpath r'.
Definition same_file_place (f f' : FileRow) : Prop := fi_folder f = fi_folder f' ∧ fi_drive f = fi_drive f'.
Definition in_place (s s' : Store) : Prop :=
  (forall k, option_Forall2 same_place (folders s !! k) (folders s' !! k))
  ∧ (forall k f', files s' !! k = Some f' -> exists f, files s !! k = Some f ∧ same_file_place f f')
  ∧ drives s' = drives s.
Lemma in_place_row s s' k r' : in_place s s' -> folders s' !! k = Some r' -> exists r, folders s !! k = Some r ∧ same_place r r'.
Proof. intros (Hf & _) Hr. specialize (Hf k). rewrite Hr in Hf. inversion Hf; subst; eauto. Qed.
Lemma in_place_row' s s' k r : in_place s s' -> folders s !! k = Some r -> exists r', folders s' !! k = Some r' ∧ same_place r r'.
Proof. intros (Hf & _) Hr. specialize (Hf k). rewrite Hr in Hf. inversion Hf; subst; eauto. Qed.
Lemma in_place_shape s s' : in_place s s' -> Shape s -> Shape s'.
Proof.
  intros Hip HS. split.
  - intros k r' Hr'. destruct (in_place_row s s' k r' Hip Hr') as (r & Hr & Hn & Hp & _ & Hpa & Hl).
    pose proof (shape_place s HS k r Hr) as Hpl. unfold place_ok in *. rewrite <- Hn, <- Hp, <- Hpa, <- Hl, <- Hpl.
    destruct (f_parent r) as [p|]; [|done]. cbn in *. destruct (folders s !! p) as [pr|] eqn:Ep; [|done].
    destruct (in_place_row' s s' p pr Hip Ep) as (pr' & -> & _ & _ & _ & Hpa' & Hl'). cbn. by rewrite Hpa', Hl'.
  - intros k r' Hr'. destruct (in_place_row s s' k r' Hip Hr') as (r & Hr & _ & Hp & Hd & _).
    pose proof (shape_drive s HS k r Hr) as Hdr. unfold drive_ok in *. rewrite <- Hp, <- Hd. destruct (f_parent r) as [p|].
    + destruct Hdr as (pr & Ep & Hdp). destruct (in_place_row' s s' p pr Hip Ep) as (pr' & Hpr' & _ & _ & Hd' & _). exists pr'. split; [done|congruence].
    + destruct Hip as (_ & _ & ->). done.
  - intros k f' Hf'. destruct Hip as (H1 & H2 & H3). destruct (H2 k f' Hf') as (f & Hf & Hp & Hd).
    destruct (shape_files s HS k f Hf) as (p & pr & Hfp & Hpr & Hdp).
    destruct (in_place_row' s s' p pr (conj H1 (conj H2 H3)) Hpr) as (pr' & Hpr' & _ & _ & Hd' & _). exists p, pr'. split_and!; congruence.
Qed.
Lemma same_place_refl r : same_place r r.
Proof. by split_and!. Qed.
Lemma same_place_trash b t o r : same_place r (with_trash b t o r).
Proof. by split_and!. Qed.
#[export] Hint Resolve same_place_refl same_place_trash : rust.

Definition Originals (s : Store) : Prop :=
  (forall id r, folders s !! id = Some r -> original_ok (f_trashed r) (f_original_parent r) (f_parent r))
  ∧ (forall id f, files s !! id = Some f -> original_ok (fi_trashed f) (fi_original_folder f) (fi_folder f)).
Lemma tree_originals s : Tree s -> Originals s.
Proof. intros [_ H1 H2 _ _]. by split. Qed.
Lemma tree_intro s : Shape s -> Originals s -> unique_folders (folders s) = true -> unique_files (files s) = true -> Tree s.
Proof. intros H1 [H2 H3] H4 H5. by split. Qed.

(** ** The statements on one row *)
Lemma commit_cases id n s s' :
  (commit id n s s' = (Ok n, s') ∧ unique_folders (folders s') = true ∧ unique_files (files s') = true ∧ rooted s' id = true)
  ∨ exists e, commit id n s s' = (Err e, s).
Proof.
  unfold commit. destruct (unique_folders (folders s')); cbn; [|right; by eexists]. destruct (unique_files (files s')); cbn; [|right; by eexists].
  destruct (rooted s' id); [left|right]; eauto.
Qed.
Lemma commit_files_cases n s s' :
  (commit_files n s s' = (Ok n, s') ∧ unique_files (files s') = true) ∨ exists e, commit_files n s s' = (Err e, s).
Proof. unfold commit_files. destruct (unique_files (files s')); [left|right]; eauto. Qed.
Lemma on_folder_tree id guard f s : Tree s ->
  (forall r s', folders s !! id = Some r -> guard r = true -> f r = Ok s' -> rooted s' id = true -> Shape s' ∧ Originals s') ->
  Tree (on_folder id guard f s).2.
Proof.
  intros HT H. unfold on_folder. destruct (folders s !! id) as [r|] eqn:Er; [|done]. destruct (guard r) eqn:Eg; [|done].
  destruct (f r) as [s'|e] eqn:Ef; [|done]. destruct (commit_cases id 1 s s') as [(-> & Hu & Huf & Hr)|[e ->]]; [|done].
  destruct (H r s' eq_refl Eg Ef Hr) as [HS HO]. by apply tree_intro.
Qed.
Lemma on_file_tree id guard f s : Tree s ->
  (forall r r', files s !! id = Some r -> guard r = true -> f r = Ok r' ->
                file_ok s r' ∧ original_ok (fi_trashed r') (fi_original_folder r') (fi_folder r')) ->
  Tree (on_file id guard f s).2.
Proof.
  intros HT H. unfold on_file. destruct (files s !! id) as [r|] eqn:Er; [|done]. destruct (guard r) eqn:Eg; [|done].
  destruct (f r) as [r'|e] eqn:Ef; [|done]. match goal with |- Tree (commit_files 1 s ?x).2 => destruct (commit_files_cases 1 s x) as [(-> & Hu)|[e ->]] end; [|done].
  destruct (H r r' eq_refl Eg Ef) as [Hok Hor]. destruct HT as [[Hp Hd Hf] Ho Hfo Hun _]. split; [split; try done|done| |done|done].
  all: intros k g Hg; cbn in Hg; destruct (decide (k = id)) as [->|Hne]; [rewrite lookup_insert_eq in Hg; by injection Hg as <-|rewrite lookup_insert_ne in Hg by done; eauto].
Qed.

(** ** Moves *)
Lemma parent_not_under s id r p : Shape s -> folders s !! id = Some r -> f_parent r = Some p -> ~ under s id p.
Proof.
  intros HS Hr Hp Hu. destruct (tree_parent s HS id r p Hr Hp) as (pr & Hpr & _ & _ & Hl).
  destruct (under_extends s HS id r p Hr Hu) as (pr' & _ & ids & Hpr' & _ & _ & _ & Hl' & _). simplify_eq.
  rewrite Hl' in Hl. apply (f_equal length) in Hl. rewrite !length_app in Hl. cbn in Hl. lia.
Qed.
Lemma rooted_top s id r : folders s !! id = Some r -> f_parent r = None -> f_trashed r = false -> rooted s id = true ->
  exists d, drives s !! f_drive r = Some d ∧ d_root d = Some id.
Proof.
  intros Hr Hp Ht. unfold rooted. rewrite Hr, Hp, Ht. cbn. destruct (drives s !! f_drive r) as [d|]; [|done].
  intros Hd%bool_decide_eq_true. eauto.
Qed.
(** A row that keeps its place drags nothing along. *)
Lemma relocate_same s id old new : Shape s -> folders s !! id = Some old -> same_place old new ->
  relocate id old new (folders s) = <[id := new]> (folders s) ∧ relocate_files old new (folders s) (files s) = files s.
Proof.
  intros HS Ho (Hn & Hp & Hd & Hpa & Hl). split; apply map_eq; intros k.
  - destruct (decide (k = id)) as [->|Hne]; [unfold relocate; by rewrite !lookup_insert_eq|].
    unfold relocate. rewrite !lookup_insert_ne, map_lookup_imap by done. destruct (folders s !! k) as [r|] eqn:Er; [|done]. cbn.
    destruct (below (f_lpath old) r) eqn:Eb; [|done]. pose proof (below_old_drive s HS id old Ho k r Er Eb) as Hdr.
    apply (below_under s HS id old k r Ho Er) in Eb. destruct (repath_below s HS id old new k r Ho Er Eb) as (rest & ids & Hp' & Hl' & ->).
    rewrite <- Hpa, <- Hl, <- Hp', <- Hl', <- Hd, <- Hdr. by destruct r.
  - unfold relocate_files. rewrite lookup_fmap. destruct (files s !! k) as [f|] eqn:Ef; [|done]. cbn.
    destruct (in_folder (folders s) (f_lpath old) f) eqn:Ei; [|done].
    destruct (shape_files s HS k f Ef) as (p & pr & Hf & Hpr & Hdr). unfold in_folder in Ei. rewrite Hf in Ei. cbn in Ei. rewrite Hpr in Ei.
    rewrite <- Hd, <- (below_old_drive s HS id old Ho p pr Hpr Ei), Hdr. by destruct f.
Qed.
Lemma relocated_original s id old new : Originals s -> folders s !! id = Some old ->
  original_ok (f_trashed new) (f_original_parent new) (f_parent new) ->
  Originals (moved s id old new).
Proof.
  intros [H1 H2] Ho Hn. split.
  - intros k r Hr. cbn in Hr. unfold relocate in Hr. destruct (decide (k = id)) as [->|Hne].
    + rewrite lookup_insert_eq in Hr. by injection Hr as <-.
    + rewrite lookup_insert_ne, map_lookup_imap in Hr by done. destruct (folders s !! k) as [r0|] eqn:Er; [|done]. injection Hr as <-.
      specialize (H1 k r0 Er). by destruct (below (f_lpath old) r0).
  - intros k f Hf. cbn in Hf. unfold relocate_files in Hf. rewrite lookup_fmap in Hf. destruct (files s !! k) as [f0|] eqn:Ef; [|done].
    injection Hf as <-. specialize (H2 k f0 Ef). by destruct (in_folder (folders s) (f_lpath old) f0).
Qed.
(** The general update: a live row that stays live, at a place that is not in it. *)
Lemma update_tree s id old name parent drive s' : Tree s -> folders s !! id = Some old -> f_trashed old = false ->
  fits s id old parent drive ->
  update_folder id old name parent drive (f_trashed old) (f_trashed_at old) (f_original_parent old) s = Ok s' ->
  rooted s' id = true -> Shape s' ∧ Originals s'.
Proof.
  intros HT Ho Hlive Hfits Hx Hroot. pose proof (tree_shape s HT) as HS.
  destruct (compute_folder_path (folders s) id name parent) as [[path lpath]|] eqn:Ec; [|unfold update_folder in Hx; by rewrite Ec in Hx].
  set (new := mkFolder name parent drive path lpath (f_trashed old) (f_trashed_at old) (f_original_parent old)).
  assert (Hn : compute_folder_path (folders s) id (f_name new) (f_parent new) = Some (f_path new, f_lpath new)) by done.
  pose proof (update_folder_relocates s HS id old new Ho Hn) as Hu. cbn in Hu. rewrite Hu in Hx. injection Hx as <-. fold (moved s id old new).
  split.
  - apply moved_shape; try done. intros Hp. apply (rooted_top (moved s id old new) id new) in Hroot; [done| |done|done].
    cbn. unfold relocate. by rewrite lookup_insert_eq.
  - apply relocated_original; [by apply tree_originals|done|]. cbn. rewrite Hlive.
    destruct (tree_original s HT id old Ho) as [->|[Ht _]]; [by left|congruence].
Qed.

(** ** Trash *)
Definition trashed_store (id : Uuid) (r : Folder) (s : Store) : Store :=
  set_files (trash_files_in (folders s) (f_lpath r) (now s) (files s))
    (set_folders (<[id := with_trash true (Some (now s)) (f_parent r) r]> (trash_rest id (f_lpath r) (now s) (folders s))) s).
Definition restored_store (id : Uuid) (r : Folder) (s : Store) : Store :=
  set_files (restore_files_in (folders s) (f_lpath r) (files s))
    (set_folders (<[id := with_trash false None None r]> (restore_rest id (f_lpath r) (folders s))) s).
Lemma trash_rest_lookup id top t m k : trash_rest id top t m !! k =
  (fun r => if negb (bool_decide (k = id)) && below top r && negb (f_trashed r) then with_trash true (Some t) (f_original_parent r) r else r) <$> m !! k.
Proof. unfold trash_rest. rewrite map_lookup_imap. by destruct (m !! k). Qed.
Lemma restore_rest_lookup id top m k : restore_rest id top m !! k =
  (fun r => if negb (bool_decide (k = id)) && below top r && f_trashed r && bool_decide (f_original_parent r = None)
            then with_trash false None (f_original_parent r) r else r) <$> m !! k.
Proof. unfold restore_rest. rewrite map_lookup_imap. by destruct (m !! k). Qed.
(** One row flagged, any others flagged too, all in place. *)
Lemma flags_in_place s id r r' (g : Uuid -> Folder -> Folder) (h : FileRow -> FileRow) m fs :
  folders s !! id = Some r -> same_place r r' -> (forall k x, same_place x (g k x)) -> (forall f, same_file_place f (h f)) ->
  (forall k, m !! k = g k <$> folders s !! k) -> fs = h <$> files s ->
  in_place s (set_files fs (set_folders (<[id := r']> m) s)).
Proof.
  intros Hr Hrr Hg Hh Hm ->. split_and!; [|cbn|done].
  - intros k. cbn. destruct (decide (k = id)) as [->|Hne].
    + rewrite lookup_insert_eq, Hr. by constructor.
    + rewrite lookup_insert_ne, Hm by done. destruct (folders s !! k); constructor. apply Hg.
  - intros k f'. rewrite lookup_fmap. destruct (files s !! k) as [f|]; [|done]. intros [= <-]. eauto.
Qed.
Lemma trash_in_place s id r : folders s !! id = Some r -> in_place s (trashed_store id r s).
Proof.
  intros Hr. unfold trashed_store, trash_files_in.
  eapply flags_in_place; [done|by apply same_place_trash| | |apply trash_rest_lookup|done].
  - intros k x. cbn. case_match; auto with rust.
  - intros f. cbn. by case_match.
Qed.
Lemma restore_in_place s id r : folders s !! id = Some r -> in_place s (restored_store id r s).
Proof.
  intros Hr. unfold restored_store, restore_files_in.
  eapply flags_in_place; [done|by apply same_place_trash| | |apply restore_rest_lookup|done].
  - intros k x. cbn. case_match; auto with rust.
  - intros f. cbn. by case_match.
Qed.
Lemma trash_originals s id r : Originals s -> folders s !! id = Some r -> Originals (trashed_store id r s).
Proof.
  intros [H1 H2] Hr. split; cbn.
  - intros k x Hx. destruct (decide (k = id)) as [->|Hne]; [rewrite lookup_insert_eq in Hx; injection Hx as <-; by right|].
    rewrite lookup_insert_ne, trash_rest_lookup in Hx by done. destruct (folders s !! k) as [y|] eqn:Ey; [|done]. injection Hx as <-.
    destruct (H1 k y Ey) as [Ho|[Ht Ho]]; case_match; cbn; first [by left|by right].
  - intros k x Hx. unfold trash_files_in in Hx. rewrite lookup_fmap in Hx. destruct (files s !! k) as [y|] eqn:Ey; [|done]. injection Hx as <-.
    destruct (H2 k y Ey) as [Ho|[Ht Ho]]; case_match; cbn; first [by left|by right].
Qed.
Lemma restore_originals s id r : Originals s -> folders s !! id = Some r -> Originals (restored_store id r s).
Proof.
  intros [H1 H2] Hr. split; cbn.
  - intros k x Hx. destruct (decide (k = id)) as [->|Hne]; [rewrite lookup_insert_eq in Hx; injection Hx as <-; by left|].
    rewrite lookup_insert_ne, restore_rest_lookup in Hx by done. destruct (folders s !! k) as [y|] eqn:Ey; [|done]. injection Hx as <-.
    case_match eqn:Em; [|by apply (H1 k)]. apply andb_true_iff in Em as [_ Eo%bool_decide_eq_true]. by left.
  - intros k x Hx. unfold restore_files_in in Hx. rewrite lookup_fmap in Hx. destruct (files s !! k) as [y|] eqn:Ey; [|done]. injection Hx as <-.
    case_match eqn:Em; [|by apply (H2 k)]. apply andb_true_iff in Em as [_ Eo%bool_decide_eq_true]. by left.
Qed.
(** The trigger recomputes the place a restored folder still has. *)
Lemma restore_update s id r : Tree s -> folders s !! id = Some r -> f_trashed r = true ->
  exec (SRestoreFolder id) s = commit id 1 s (restored_store id r s).
Proof.
  intros HT Hr Ht. pose proof (tree_shape s HT) as HS. cbn [exec]. unfold on_folder. rewrite Hr, Ht.
  assert (coalesce (f_original_parent r) (f_parent r) = f_parent r) as ->.
  { by destruct (tree_original s HT id r Hr) as [->|[_ ->]]; [|destruct (f_parent r)]. }
  pose proof (shape_place s HS id r Hr) as Hpl. unfold place_ok in Hpl. rewrite Hpl.
  set (s1 := set_files _ _). set (new := with_trash false None None r).
  assert (Hr1 : folders s1 !! id = Some r).
  { cbn. rewrite restore_rest_lookup, Hr. cbn. by rewrite bool_decide_true. }
  assert (Hip : in_place s s1).
  { replace s1 with (set_files (restore_files_in (folders s) (f_lpath r) (files s))
        (set_folders (<[id := r]> (restore_rest id (f_lpath r) (folders s))) s)) by (unfold s1; rewrite insert_id by done; done).
    eapply flags_in_place; [done|apply same_place_refl| | |apply restore_rest_lookup|unfold restore_files_in; done].
    - intros k x. cbn. case_match; auto with rust.
    - intros f. cbn. by case_match. }
  pose proof (in_place_shape s s1 Hip HS) as HS1.
  assert (Hn : compute_folder_path (folders s1) id (f_name new) (f_parent new) = Some (f_path new, f_lpath new)) by exact (shape_place s1 HS1 id r Hr1).
  pose proof (update_folder_relocates s1 HS1 id r new Hr1 Hn) as Hu. cbn [f_name f_parent f_drive f_trashed f_trashed_at f_original_parent new with_trash] in Hu.
  rewrite Hu. destruct (relocate_same s1 id r new HS1 Hr1) as [-> ->]; [apply same_place_trash|]. done.
Qed.

(** ** Every statement *)
Definition safe (st : Stmt) (s : Store) : Prop :=
  match st with
  | SInsertFolder _ _ (Some p) drive => forall pr, folders s !! p = Some pr -> drive = f_drive pr
  | SMoveFolder id (Some p) => ~ under s id p
  | SInsertFile _ _ folder drive _ _ => forall pr, folders s !! folder = Some pr -> drive = f_drive pr
  | SMoveFile _ folder => is_Some folder
  | _ => True
  end.
Lemma tree_delete_files s fs : Tree s -> fs ⊆ files s -> Tree (set_files fs s).
Proof.
  intros HT Hsub. destruct HT as [[Hp Hd Hf] Ho Hfo Hu Huf]. split; [split; try done|done| |done|by apply (distinct_sub _ (files s))].
  - intros k f Hk. apply (Hf k). by eapply lookup_weaken.
  - intros k f Hk. apply (Hfo k). by eapply lookup_weaken.
Qed.
Lemma tree_delete_folders s ids : Tree s -> ids ⊆ dom (folders s) -> Tree (delete_folders ids s).
Proof.
  intros HT Hids. pose proof (tree_shape s HT) as HS.
  assert (Hf : folders (delete_folders ids s) ⊆ folders s) by apply map_filter_subseteq.
  assert (Hfi : files (delete_folders ids s) ⊆ files s) by apply map_filter_subseteq.
  apply tree_intro; [by apply deleted_shape| |by eapply distinct_sub, tree_unique|by eapply distinct_sub, tree_unique_files].
  destruct (tree_originals s HT) as [H1 H2]. split; intros k x Hx; [apply (H1 k)|apply (H2 k)]; by eapply lookup_weaken.
Qed.
Lemma oldest_sub limit l (D : gset Uuid) : (forall x, x ∈ l -> x.2 ∈ D) -> oldest limit l ⊆ D.
Proof.
  intros H k. unfold oldest. rewrite elem_of_list_to_set, list_elem_of_fmap. intros (x & -> & Hx). apply H.
  apply elem_of_take in Hx as (i & Hi & _). apply list_elem_of_lookup_2 in Hi. by rewrite (merge_sort_Permutation earlier l) in Hi.
Qed.
Lemma expired_folders_sub cutoff limit s : oldest limit (expired_folders cutoff s) ⊆ dom (folders s).
Proof.
  apply oldest_sub. intros x. unfold expired_folders. rewrite list_elem_of_fmap. intros ([k r] & -> & Hk).
  apply list_elem_of_filter in Hk as [_ Hk%elem_of_map_to_list]. apply elem_of_dom. by exists r.
Qed.
Lemma insert_folder_tree s id name parent drive : Tree s -> safe (SInsertFolder id name parent drive) s ->
  Tree (exec (SInsertFolder id name parent drive) s).2.
Proof.
  intros HT Hsafe. cbn [exec]. destruct (compute_folder_path (folders s) id name parent) as [[path lpath]|] eqn:Ec; [|done].
  case_bool_decide as Hid; [done|]. apply eq_None_not_Some in Hid. case_bool_decide as Hdr; [|done]. set (new := mkFolder _ _ _ _ _ _ _ _).
  match goal with |- Tree (commit id 1 s ?x).2 => set (s' := x); destruct (commit_cases id 1 s s') as [(-> & Hu & Huf & Hroot)|[e ->]] end; [|done].
  destruct (tree_originals s HT) as [HO1 HO2]. destruct (tree_shape s HT) as [Hp Hd Hf].
  assert (Hold : forall k r, k ≠ id -> folders s !! k = Some r -> folders s' !! k = Some r) by (intros k r Hne Hk; cbn; by rewrite lookup_insert_ne).
  assert (Hpar : forall q qr, folders s !! q = Some qr -> folders s' !! q = Some qr).
  { intros q qr Hq. apply Hold; [|done]. intros ->. congruence. }
  apply tree_intro; [split| |done|done].
  - intros k r Hk. cbn in Hk. destruct (decide (k = id)) as [->|Hne].
    + rewrite lookup_insert_eq in Hk. injection Hk as <-. unfold place_ok. cbn [f_name f_parent f_path f_lpath new]. rewrite <- Ec.
      destruct parent as [p|]; [|done]. cbn in *. destruct (folders s !! p) as [pr|] eqn:Ep; [|done]. by rewrite (Hpar p pr Ep).
    + rewrite lookup_insert_ne in Hk by done. pose proof (Hp k r Hk) as Hpl. unfold place_ok in *. rewrite <- Hpl.
      destruct (f_parent r) as [p|]; [|done]. cbn in *. destruct (folders s !! p) as [pr|] eqn:Ep; [|done]. by rewrite (Hpar p pr Ep).
  - intros k r Hk. cbn in Hk. destruct (decide (k = id)) as [->|Hne].
    + rewrite lookup_insert_eq in Hk. injection Hk as <-. unfold drive_ok. cbn [f_parent new]. destruct parent as [p|].
      * cbn in Ec. destruct (folders s !! p) as [pr|] eqn:Ep; [|done]. exists pr. split; [by apply Hpar|]. symmetry. by apply Hsafe.
      * apply (rooted_top s' id new); [by cbn; rewrite lookup_insert_eq|done..].
    + rewrite lookup_insert_ne in Hk by done. pose proof (Hd k r Hk) as Hdk. unfold drive_ok in *. destruct (f_parent r) as [p|]; [|done].
      destruct Hdk as (pr & Hpr & Hdp). exists pr. split; [by apply Hpar|done].
  - intros k f Hk. destruct (Hf k f Hk) as (p & pr & H1 & H2 & H3). exists p, pr. split_and!; [done|by apply Hpar|done].
  - split; [|done]. intros k r Hk. cbn in Hk. destruct (decide (k = id)) as [->|Hne].
    + rewrite lookup_insert_eq in Hk. injection Hk as <-. by left.
    + rewrite lookup_insert_ne in Hk by done. by apply (HO1 k).
Qed.
Lemma insert_file_tree s id name folder drive hash size : Tree s -> safe (SInsertFile id name folder drive hash size) s ->
  Tree (exec (SInsertFile id name folder drive hash size) s).2.
Proof.
  intros HT Hsafe. cbn [exec]. case_bool_decide as Hid; [done|].
  match goal with |- Tree (if ?c then _ else _).2 => destruct c eqn:Ec end; [|done].
  apply andb_true_iff in Ec as [Hfo _]. apply bool_decide_eq_true in Hfo as [pr Hpr].
  match goal with |- Tree (commit_files 1 s ?x).2 => destruct (commit_files_cases 1 s x) as [(-> & Hu)|[e ->]] end; [|done].
  destruct HT as [[Hp Hd Hf] Ho Hfo Hun _]. split; [split; try done|done| |done|done].
  all: intros k g Hg; cbn in Hg; destruct (decide (k = id)) as [->|Hne];
    [rewrite lookup_insert_eq in Hg; injection Hg as <-|rewrite lookup_insert_ne in Hg by done; eauto].
  - exists folder, pr. split_and!; [done|done|]. symmetry. by apply Hsafe.
  - by left.
Qed.
Lemma move_folder_tree s id parent : Tree s -> safe (SMoveFolder id parent) s -> Tree (exec (SMoveFolder id parent) s).2.
Proof.
  intros HT Hsafe. cbn [exec]. apply on_folder_tree; [done|]. intros r s' Hr Hl%negb_true_iff Hx Hroot.
  refine (update_tree s id r (f_name r) parent _ s' HT Hr Hl _ Hx Hroot). unfold fits. destruct parent as [p|]; [|done].
  destruct (folders s !! p) as [pr|] eqn:Ep; cbn; rewrite Ep; [by exists pr|].
  unfold update_folder in Hx. cbn in Hx. by rewrite Ep in Hx.
Qed.
Lemma exec_tree st s : Tree s -> safe st s -> Tree (exec st s).2.
Proof.
  intros HT Hsafe. pose proof (tree_shape s HT) as HS.
  destruct st as [id name parent drive|id name|id parent|id|id|id|id|id name folder drive hash size|id name|id folder|id|id|id|ds|ds|cutoff limit|cutoff limit].
  - by apply insert_folder_tree.
  - cbn [exec]. apply on_folder_tree; [done|]. intros r s' Hr Hl%negb_true_iff Hx Hroot.
    refine (update_tree s id r name (f_parent r) (f_drive r) s' HT Hr Hl _ Hx Hroot). unfold fits. destruct (f_parent r) as [p|] eqn:Ep; [|done].
    destruct (tree_parent s HS id r p Hr Ep) as (pr & Hpr & Hd & _). exists pr. split_and!; [done|by apply (parent_not_under s id r)|done].
  - by apply move_folder_tree.
  - cbn [exec]. apply on_folder_tree; [done|]. intros r s' Hr _ [= <-] _. fold (trashed_store id r s).
    split; [by eapply in_place_shape, HS; apply trash_in_place|apply trash_originals; [by apply tree_originals|done]].
  - destruct (folders s !! id) as [r|] eqn:Hr; [|cbn [exec]; unfold on_folder; by rewrite Hr].
    destruct (f_trashed r) eqn:Ht; [|cbn [exec]; unfold on_folder; by rewrite Hr, Ht].
    rewrite (restore_update s id r HT Hr Ht). destruct (commit_cases id 1 s (restored_store id r s)) as [(-> & Hu & Huf & _)|[e ->]]; [|done].
    apply tree_intro; [by eapply in_place_shape, HS; apply restore_in_place|apply restore_originals; [by apply tree_originals|done]|done|done].
  - apply tree_delete_files; [done|apply map_filter_subseteq].
  - cbn [exec]. destruct (folders s !! id) as [r|] eqn:Hr; [|done]. apply tree_delete_folders; [done|].
    intros k ->%elem_of_singleton. apply elem_of_dom. by exists r.
  - by apply insert_file_tree.
  - apply on_file_tree; [done|]. intros r r' Hr _ [= <-]. split; [by apply (shape_files s HS id r)|by apply (tree_file_original s HT id r)].
  - destruct Hsafe as [p ->]. cbn [exec]. apply on_file_tree; [done|]. intros r r' Hr Hl%negb_true_iff Hx. cbn in Hx. case_bool_decide as Hp; [|done].
    injection Hx as <-. destruct Hp as [pr Hp]. rewrite Hp. cbn. split; [by exists p, pr|]. left.
    destruct (tree_file_original s HT id r Hr) as [Ho|[Ht _]]; [done|congruence].
  - apply on_file_tree; [done|]. intros r r' Hr _ [= <-]. split; [by apply (shape_files s HS id r)|by right].
  - apply on_file_tree; [done|]. intros r r' Hr _ Hx. cbn zeta in Hx. case_match; [|done]. injection Hx as <-. cbn. split; [|by left].
    destruct (shape_files s HS id r Hr) as (p & pr & H1 & H2 & H3). exists p, pr. split_and!; [|done|done].
    by destruct (tree_file_original s HT id r Hr) as [->|[_ ->]]; cbn; [|rewrite H1].
  - cbn [exec]. destruct (files s !! id) as [r|]; [|done]. apply tree_delete_files; [done|apply delete_subseteq].
  - apply tree_delete_files; [done|apply map_filter_subseteq].
  - apply tree_delete_folders; [done|]. intros k Hk. apply elem_of_dom in Hk as [r Hr]. apply map_lookup_filter_Some in Hr as [Hr _].
    apply elem_of_dom. by exists r.
  - apply tree_delete_files; [done|apply map_filter_subseteq].
  - apply tree_delete_folders; [done|apply expired_folders_sub].
Qed.

Fixpoint all_safe (l : list Stmt) (s : Store) : Prop :=
  match l with [] => True | st :: rest => safe st s ∧ all_safe rest (exec st s).2 end.
Lemma run_tree l s : Tree s -> all_safe l s -> Tree (run l s).
Proof. revert s. induction l as [|st l IH]; intros s HT Hs; [done|]. destruct Hs as [H1 H2]. apply IH; [by apply exec_tree|done]. Qed.
