(* ===== verification/FolderOps.v ===== *)
(** * The folder operations keep the tree

    Lemmas about the operations of [FolderRepo] and [FolderService] when nobody interferes, the
    exact effect of a move and of the trash, and the invariant of whole requests. *)

From S2P Require Import Prelude.
From S2P Require Import RustStr.
From S2P Require Import DomainErrors.
From S2P Require Import Authorization.
From S2P Require Import DrivePolicies.
From S2P Require Import AuthzPort.
From S2P Require Import StoragePath.
From S2P Require Import FolderDb.
From S2P Require Import FolderRepo.
From S2P Require Import StorageUsage.
From S2P Require Import FolderService.
From S2P Require Import FolderTree.
From S2P Require Import FolderInv.

#[local] Arguments lit : simpl never.

(** ** Tables *)
(** Nothing but the scripts and the next identifier differs. *)
Record same_tables (s s' : Store) : Prop := {
  st_folders : folders s' = folders s;
  st_files : files s' = files s;
  st_drives : drives s' = drives s;
  st_users : users s' = users s;
  st_owners : owners s' = owners s;
  st_now : now s' = now s;
  st_meanwhile : meanwhile s' = meanwhile s;
}.
Lemma same_tables_refl s : same_tables s s.
Proof. by split. Qed.
Lemma same_tables_trans s1 s2 s3 : same_tables s1 s2 -> same_tables s2 s3 -> same_tables s1 s3.
Proof. intros [] []. split; congruence. Qed.
#[export] Hint Resolve same_tables_refl : rust.
Lemma same_tables_tree s s' : same_tables s s' -> Tree s -> Tree s'.
Proof.
  intros [Hf Hfi Hd _ _ _ _] [[H1 H2 H3] H4 H5 H6 H7]. unfold place_ok, drive_ok, file_ok in *.
  split; [split|..]; unfold place_ok, drive_ok, file_ok; by rewrite ?Hf, ?Hfi, ?Hd.
Qed.
Lemma same_tables_under s s' a b : same_tables s s' -> under s a b <-> under s' a b.
Proof.
  intros [Hf _ _ _ _ _ _]. split; induction 1.
  - eapply under_top. by rewrite Hf.
  - eapply under_child; [by rewrite Hf|done|done].
  - eapply under_top. by rewrite <- Hf.
  - eapply under_child; [by rewrite <- Hf|done|done].
Qed.
(** Nobody else is at work. *)
Definition alone (s : Store) : Prop := meanwhile s = [].
Lemma same_tables_alone s s' : same_tables s s' -> alone s -> alone s'.
Proof. unfold alone. by intros [_ _ _ _ _ _ ->]. Qed.
(** One round trip: the database fails, or the statement runs on the same tables. *)
Lemma query_alone {T} (q : Store -> result SqlError T * Store) s : alone s ->
  exists s0, same_tables s s0 ∧ ((exists e, query q s = (Err e, s0)) ∨ query q s = q s0).
Proof.
  intros Ha. unfold alone in Ha. unfold query, interfere. rewrite Ha. cbn.
  eexists. split; [|destruct (default None (head (faults s))) as [e|]; [left; by eexists|right; reflexivity]]. by split.
Qed.
Lemma fetch_alone {T} (f : Store -> T) s : alone s -> exists s0 r, fetch f s = (r, s0) ∧ same_tables s s0 ∧ (r = Ok (f s0) ∨ exists e, r = Err e).
Proof.
  intros Ha. unfold fetch. destruct (query_alone (fun s => (Ok (f s), s)) s Ha) as (s0 & Hs & [[e ->]| ->]); exists s0; eexists; eauto.
Qed.
Lemma commit_err id n s s1 e s' : commit id n s s1 = (Err e, s') -> s' = s.
Proof. unfold commit. repeat case_match; congruence. Qed.
Lemma commit_files_err n s s1 e s' : commit_files n s s1 = (Err e, s') -> s' = s.
Proof. unfold commit_files. repeat case_match; congruence. Qed.
#[local] Hint Resolve commit_err commit_files_err : rust.
Lemma on_folder_err id g f s e s' : on_folder id g f s = (Err e, s') -> s' = s.
Proof. unfold on_folder. repeat (case_match; try congruence). eauto with rust. Qed.
Lemma on_file_err id g f s e s' : on_file id g f s = (Err e, s') -> s' = s.
Proof. unfold on_file. repeat (case_match; try congruence). eauto with rust. Qed.
#[local] Hint Resolve on_folder_err on_file_err : rust.
(** A statement that fails changes nothing. *)
Lemma exec_err st s e s' : exec st s = (Err e, s') -> s' = s.
Proof.
  destruct st; cbn [exec]; eauto with rust; repeat (case_match; try congruence); try congruence; eauto with rust.
Qed.
(** Statements leave the script of the others alone. *)
Lemma commit_meanwhile id n s s1 : meanwhile s1 = meanwhile s -> meanwhile (commit id n s s1).2 = meanwhile s.
Proof. unfold commit. by repeat case_match. Qed.
Lemma commit_files_meanwhile n s s1 : meanwhile s1 = meanwhile s -> meanwhile (commit_files n s s1).2 = meanwhile s.
Proof. unfold commit_files. by repeat case_match. Qed.
Lemma on_folder_meanwhile id g f s : (forall r s', f r = Ok s' -> meanwhile s' = meanwhile s) -> meanwhile (on_folder id g f s).2 = meanwhile s.
Proof.
  intros Hf. unfold on_folder. destruct (folders s !! id) as [r|]; [|done]. destruct (g r); [|done].
  destruct (f r) as [s'|e] eqn:E; [|done]. apply commit_meanwhile. by apply (Hf r).
Qed.
Lemma on_file_meanwhile id g f s : meanwhile (on_file id g f s).2 = meanwhile s.
Proof. unfold on_file. repeat (case_match; try done). by apply commit_files_meanwhile. Qed.
Lemma update_folder_meanwhile id old name parent drive tr at_ o s s' :
  update_folder id old name parent drive tr at_ o s = Ok s' -> meanwhile s' = meanwhile s.
Proof.
  unfold update_folder. destruct (compute_folder_path _ _ _ _) as [[path lpath]|]; [|done].
  destruct (cascade_paths _ _ _ _); cbn; [|done]. by intros [= <-].
Qed.
Lemma exec_meanwhile st s : meanwhile (exec st s).2 = meanwhile s.
Proof.
  destruct st; cbn [exec]; try apply on_file_meanwhile; try (repeat case_match; done);
    try (apply on_folder_meanwhile; intros r s' Hx; try (injection Hx as <-; done); try by apply update_folder_meanwhile in Hx).
  - repeat (case_match; try done). by apply commit_meanwhile.
  - cbn zeta in Hx. repeat (case_match; try done). by apply update_folder_meanwhile in Hx.
  - repeat (case_match; try done). by apply commit_files_meanwhile.
Qed.

(** ** Invariants of programs *)
Definition keeps {S E T} (I : S -> Prop) (m : M S E T) : Prop := forall s, I s -> I (m s).2.
Section keeps.
Context {S E : Type} (I : S -> Prop).
Lemma keeps_bind {A B} (m : M S E A) (f : A -> M S E B) : keeps I m -> (forall v, keeps I (f v)) -> keeps I (m ≫= f).
Proof.
  intros Hm Hf s Hs. unfold mbind, M_bind. specialize (Hm s Hs). destruct (m s) as [[v|e] s']; [by apply Hf|done].
Qed.
Lemma keeps_ret {A} (v : A) : keeps I (mret v : M S E A). Proof. by intros s. Qed.
Lemma keeps_raise {A} (e : E) : keeps I (raise e : M S E A). Proof. by intros s. Qed.
Lemma keeps_lift {A} (r : result E A) : keeps I (lift r : M S E A). Proof. by intros s. Qed.
Lemma keeps_gets {A} (f : S -> A) : keeps I (gets f : M S E A). Proof. by intros s. Qed.
Lemma keeps_attempt {A} (m : M S E A) : keeps I m -> keeps I (attempt m).
Proof. intros Hm s Hs. specialize (Hm s Hs). unfold attempt. by destruct (m s). Qed.
Lemma keeps_map_err {E' A} (f : E -> E') (m : M S E A) : keeps I m -> keeps I (map_err_m f m).
Proof. intros Hm s Hs. specialize (Hm s Hs). unfold map_err_m. by destruct (m s). Qed.
End keeps.
Create HintDb keeps discriminated.
#[export] Hint Resolve keeps_bind keeps_ret keeps_raise keeps_lift keeps_gets keeps_attempt keeps_map_err : keeps.
(** Splits a program at its calls. *)
Ltac keep := repeat first
  [ progress intros
  | apply keeps_bind | apply keeps_ret | apply keeps_raise | apply keeps_lift | apply keeps_gets | apply keeps_attempt | apply keeps_map_err
  | progress case_match | solve [eauto with keeps] ].

(** ** The repositories *)
(** What holds of the tables and of nothing else, with nobody else at work. *)
Definition quiet (I : Store -> Prop) : Prop := (forall s, I s -> alone s) ∧ forall s s', same_tables s s' -> I s -> I s'.
Definition Sound (s : Store) : Prop := Tree s ∧ alone s.
Lemma sound_quiet : quiet Sound.
Proof. split; [by intros s []|]. intros s s' Hs [HT Ha]. split; [by apply (same_tables_tree s)|by apply (same_tables_alone s)]. Qed.
Definition Sound_safe (st : Stmt) (s : Store) : Prop := Sound s ∧ safe st s.
Lemma same_tables_safe st s s' : same_tables s s' -> safe st s -> safe st s'.
Proof.
  intros Hs. pose proof (st_folders s s' Hs) as Hf. destruct st; cbn; try done; [destruct parent as [p|]; [|done]|destruct parent as [p|]; [|done]|]; rewrite ?Hf; [done| |done].
  by rewrite (same_tables_under s s' id p Hs).
Qed.
Lemma sound_safe_quiet st : quiet (Sound_safe st).
Proof.
  destruct sound_quiet as [H1 H2]. split; [intros s []; by apply H1|].
  intros s s' Hs [H3 H4]. split; [by apply (H2 s)|by apply (same_tables_safe st s)].
Qed.
Lemma quiet_query {T} I (q : Store -> result SqlError T * Store) : quiet I -> (forall s, (q s).2 = s) -> keeps I (query q).
Proof.
  intros [Ha Hs] Hq s HI. destruct (query_alone q s (Ha s HI)) as (s0 & Hst & [[e ->]| ->]); [by apply (Hs s)|].
  rewrite Hq. by apply (Hs s).
Qed.
Lemma quiet_fetch {T} I (f : Store -> T) : quiet I -> keeps I (fetch f).
Proof. intros HI. by apply quiet_query. Qed.
Lemma quiet_fetch_number I (f : Store -> Z) : quiet I -> keeps I (fetch_number f).
Proof. intros HI. by apply quiet_query. Qed.
#[export] Hint Resolve sound_quiet sound_safe_quiet quiet_fetch quiet_fetch_number : keeps.

(** A query that runs the statement [st]. *)
Definition runs {T} (q : Store -> result SqlError T * Store) (st : Stmt) : Prop :=
  forall s, (q s).2 = (exec st s).2 ∧ forall e, (q s).1 = Err e -> (exec st s).1 = Err e.
Lemma exec_runs st : runs (exec st) st.
Proof. by intros s. Qed.
Lemma exec_sound st s : Sound_safe st s -> Sound (exec st s).2.
Proof. intros [[HT Ha] Hs]. split; [by apply exec_tree|]. unfold alone. by rewrite exec_meanwhile. Qed.
Lemma retry_sound {T} (q : Store -> result SqlError T * Store) st pauses s : runs q st -> Sound_safe st s -> Sound (retry_when pauses (query q) s).2.
Proof.
  intros Hq. revert s. destruct (sound_safe_quiet st) as [Ha Hst]. induction pauses as [|w rest IH]; intros s HI.
  all: cbn [retry_when]; destruct (query_alone q s (Ha s HI)) as (s0 & Hs0 & [[e ->]| ->]); pose proof (Hst s s0 Hs0 HI) as H0.
  all: try (destruct e; try apply IH; try apply H0; done).
  all: pose proof (exec_sound st s0 H0) as H1; destruct (Hq s0) as [H2 H3]; destruct (q s0) as [[v|e] s1]; cbn in H2, H3; subst s1; [done|].
  all: specialize (H3 e eq_refl); destruct (exec st s0) as [x s1] eqn:Ex; cbn in *; subst x; apply exec_err in Ex as ->; destruct e; try done.
  by apply IH.
Qed.
Lemma query_sound {T} (q : Store -> result SqlError T * Store) st s : runs q st -> Sound_safe st s -> Sound (query q s).2.
Proof.
  intros Hq Hs. pose proof (retry_sound q st [] s Hq Hs) as H. cbn in H. destruct (query q s) as [[v|[]] s']; done.
Qed.
(** Statements that are safe on every tree. *)
Definition harmless (st : Stmt) : bool :=
  match st with SInsertFolder _ _ (Some _) _ | SMoveFolder _ (Some _) | SInsertFile _ _ _ _ _ _ | SMoveFile _ _ => false | _ => true end.
Lemma harmless_safe st s : harmless st = true -> Sound s -> Sound_safe st s.
Proof. intros Hh Hs. split; [done|]. destruct st as [? ? [?|] ?| |? [?|]| | | | | | | | | | | | | |]; done. Qed.
Lemma execute_keeps st : harmless st = true -> keeps Sound (execute st).
Proof. intros Hh s Hs. apply (query_sound (exec st) st); [apply exec_runs|by apply harmless_safe]. Qed.
Lemma retry_keeps st : harmless st = true -> keeps Sound (retry_on_deadlock (execute st)).
Proof. intros Hh s Hs. apply (retry_sound (exec st) st); [apply exec_runs|by apply harmless_safe]. Qed.
#[export] Hint Resolve execute_keeps retry_keeps : keeps.

Section repo.
Context `{UuidText} `{Unicode}.
Lemma returning_retry id st pauses s : Sound_safe st s -> Sound (retry_when pauses (returning id st) s).2.
Proof.
  intros Hs. apply (retry_sound _ st); [|done]. intros s1. split; [by destruct (exec st s1) as [[n|e] s2]|].
  intros e. destruct (exec st s1) as [[n|e'] s2]; [done|]. by intros [= <-].
Qed.
Lemma rename_keeps id name : keeps Sound (retry_on_deadlock (returning id (SRenameFolder id name))).
Proof. intros s Hs. apply returning_retry. by apply harmless_safe. Qed.
Lemma move_keeps id parent s : Sound_safe (SMoveFolder id parent) s -> Sound (retry_on_deadlock (returning id (SMoveFolder id parent)) s).2.
Proof. apply returning_retry. Qed.
Lemma row_to_folder_keeps I id r : keeps I (row_to_folder id r).
Proof. unfold row_to_folder. keep. Qed.
Lemma some_or_keeps {T} I e (o : option T) : keeps I (some_or e o).
Proof. unfold some_or. keep. Qed.
#[local] Hint Resolve rename_keeps row_to_folder_keeps some_or_keeps : keeps.
Lemma get_folder_keeps I id : quiet I -> keeps I (get_folder id).
Proof. intros HI. unfold get_folder. keep. Qed.
Lemma rename_folder_keeps id name : keeps Sound (rename_folder id name).
Proof. unfold rename_folder. keep. Qed.
Lemma delete_with_keeps c1 c2 id : keeps Sound (delete_with c1 c2 id).
Proof. unfold delete_with. keep. Qed.
Lemma move_to_trash_keeps id : keeps Sound (move_to_trash id).
Proof. unfold move_to_trash. keep. Qed.
Lemma restore_from_trash_keeps id : keeps Sound (restore_from_trash id).
Proof. unfold restore_from_trash. keep. Qed.
Lemma list_files_keeps I id : quiet I -> keeps I (list_file_ids_in_subtree id).
Proof. intros HI. unfold list_file_ids_in_subtree. keep. Qed.
Lemma file_trash_keeps id : keeps Sound (file_move_to_trash id).
Proof. unfold file_move_to_trash. keep. Qed.
Lemma file_restore_keeps id : keeps Sound (file_restore_from_trash id).
Proof. unfold file_restore_from_trash. keep. Qed.
Lemma delete_file_keeps id : keeps Sound (delete_file_permanently id).
Proof. unfold delete_file_permanently, delete_file. keep. Qed.
Lemma get_trash_item_keeps I id : quiet I -> keeps I (get_trash_item id).
Proof. intros HI. unfold get_trash_item. keep. Qed.
Lemma clear_trash_keeps ds : keeps Sound (clear_trash ds).
Proof. unfold clear_trash. keep. Qed.
Lemma trashed_ids_keeps I ds : quiet I -> keeps I (get_all_trashed_file_ids ds).
Proof. intros HI. unfold get_all_trashed_file_ids. keep. Qed.
Lemma batch_loop_keeps fuel st batch total : harmless st = true -> keeps Sound (delete_expired_batch_loop fuel st batch total).
Proof. intros Hh. revert total. induction fuel as [|fuel IH]; intros total; cbn [delete_expired_batch_loop]; keep. Qed.
Lemma delete_expired_keeps fuel days : keeps Sound (delete_expired_bulk fuel days).
Proof. unfold delete_expired_bulk. keep; by apply batch_loop_keeps. Qed.
(** A folder is created with the drive that its parent was read to have. *)
Lemma create_folder_keeps name parent : keeps Sound (create_folder name parent).
Proof.
  unfold create_folder. destruct parent as [p|]; [|keep]. intros s Hs. destruct sound_quiet as [Ha Hq].
  unfold mbind, M_bind, map_err_m at 1.
  destruct (fetch_alone (fun s => f_drive <$> folders s !! p) s (Ha s Hs)) as (s1 & r & -> & H1 & Hr). pose proof (Hq s s1 H1 Hs) as Hs1.
  destruct Hr as [->|[e ->]]; [|done]. cbn [map_err fst snd]. destruct (folders s1 !! p) as [pr|] eqn:Ep; [|done]. cbn [fmap option_fmap option_map some_or].
  unfold_m. cbn [fst snd]. set (s2 := mkStore _ _ _ _ _ _ _ _ _). set (nm := normalize_storage_name_owned name).
  assert (Hs2 : Sound_safe (SInsertFolder (fresh s1) nm (Some p) (f_drive pr)) s2).
  { split; [apply (Hq s1); [by split|done]|]. cbn. intros x Hx. by simplify_eq. }
  pose proof (returning_retry (fresh s1) _ [] s2 Hs2) as H2. cbn [retry_when] in H2. unfold map_err_m.
  destruct (returning (fresh s1) (SInsertFolder (fresh s1) nm (Some p) (f_drive pr)) s2) as [[row|[]] s3]; cbn in *; try done.
  destruct row as [r|]; [|done]. by apply (row_to_folder_keeps Sound).
Qed.
Lemma move_folder_sound id parent s : Sound_safe (SMoveFolder id parent) s -> Sound (move_folder id parent s).2.
Proof.
  intros Hs. pose proof (move_keeps id parent s Hs) as Hm. unfold move_folder, mbind, M_bind, map_err_m.
  destruct (retry_on_deadlock _ s) as [[row|e] s1]; cbn in *; [|done]. destruct row as [r|]; [|done]. by apply (row_to_folder_keeps Sound).
Qed.
End repo.
#[export] Hint Resolve get_folder_keeps rename_folder_keeps delete_with_keeps move_to_trash_keeps restore_from_trash_keeps list_files_keeps
  file_trash_keeps file_restore_keeps delete_file_keeps get_trash_item_keeps clear_trash_keeps trashed_ids_keeps create_folder_keeps
  some_or_keeps : keeps.

(** ** The services *)
Section service.
Context {E : Type} `{AuthorizationEngine E} `{OwnerCache E} `{UuidText} `{Unicode}.
Variable format_bytes : Z -> str.
(** An invariant of the tables, of the whole server. *)
Definition on_tables (I : Store -> Prop) (v : Srv E) : Prop := I (db v).
Lemma on_db_keeps {T} I (m : M Store DomainError T) : keeps I m -> keeps (on_tables I) (on_db m : FM T).
Proof. intros Hm v Hv. specialize (Hm (db v) Hv). unfold on_db. by destruct (m (db v)). Qed.
Lemma authorize_keeps I caller p r : keeps (on_tables I) (authorize caller p r : FM unit).
Proof. intros v Hv. unfold authorize, on_engine. by destruct (require _ _ _ (engine v)). Qed.
Lemma hook_keeps I ids : keeps (on_tables I) (on_file_deleted ids : FM unit).
Proof. intros v Hv. exact Hv. Qed.
Lemma quota_keeps I u n : quiet I -> keeps I (check_storage_quota format_bytes u n).
Proof. intros HI. unfold check_storage_quota, get_storage_usage. keep. Qed.
Lemma drive_quota_keeps I d n : quiet I -> keeps I (check_drive_quota d n).
Proof. intros HI. unfold check_drive_quota. keep. Qed.
Lemma drive_quota_folder_keeps I d n : quiet I -> keeps I (check_drive_quota_by_folder d n).
Proof. intros HI. unfold check_drive_quota_by_folder. keep. Qed.
Lemma destination_keeps I id : quiet I -> keeps I (trashed_file_destination id).
Proof. intros HI. unfold trashed_file_destination. keep. apply quiet_query; [done|]. intros s. by repeat case_match. Qed.
#[local] Hint Resolve on_db_keeps authorize_keeps hook_keeps quota_keeps drive_quota_keeps drive_quota_folder_keeps destination_keeps : keeps.
Lemma cross_drive_gate_keeps I id p : quiet I -> keeps (on_tables I) (cross_drive_gate id p : FM bool).
Proof.
  intros HI. unfold cross_drive_gate, get_drive_id_and_policies_for_folder, drive_id_for_folder, folder_subtree_bytes. keep.
  all: apply on_db_keeps; keep.
Qed.
Lemma restore_quota_keeps I t id caller : quiet I -> keeps (on_tables I) (restore_quota format_bytes t id caller : FM unit).
Proof. intros HI. unfold restore_quota, pending_restore_folder_subtree_bytes. keep. all: apply on_db_keeps; keep. Qed.
#[local] Hint Resolve cross_drive_gate_keeps restore_quota_keeps : keeps.

(** The requests of a client. *)
Inductive Request :=
| RCreate (name : str) (parent : option Uuid)
| RRename (id : Uuid) (name : str)
| RMove (id : Uuid) (parent : option Uuid)
| RDelete (id : Uuid)
| RTrash (t : TrashedItemType) (id : Uuid)
| RRestore (id : Uuid)
| RPurge (id : Uuid)
| REmpty (drive : Uuid).
Definition serve (caller : Uuid) (q : Request) : FM unit :=
  match q with
  | RCreate name parent => _ ← create_folder_with_perms name parent caller; mret tt
  | RRename id name => _ ← rename_folder_with_perms id name caller; mret tt
  | RMove id parent => _ ← move_folder_with_perms id parent caller; mret tt
  | RDelete id => delete_folder_with_perms id caller
  | RTrash t id => move_item_to_trash t id caller
  | RRestore id => restore_item format_bytes id caller
  | RPurge id => delete_item_permanently id caller
  | REmpty drive => empty_trash_for_drive drive caller
  end.
(** A move does not go into the moved folder. *)
Definition outward (q : Request) (s : Store) : Prop :=
  match q with RMove id (Some p) => ~ under s id p | _ => True end.
Lemma move_request_sound id parent caller v : Sound_safe (SMoveFolder id parent) (db v) -> Sound (db (move_folder_with_perms id parent caller v).2).
Proof.
  intros Hv. set (I := on_tables (Sound_safe (SMoveFolder id parent))).
  unfold move_folder_with_perms.
  assert (Hstep : forall {A B} (m : FM A) (f : A -> FM B), keeps I m -> (forall a v, I v -> Sound (db (f a v).2)) -> forall v, I v -> Sound (db ((m ≫= f) v).2)).
  { intros A B m f Hm Hf w Hw. unfold mbind, M_bind. specialize (Hm w Hw). destruct (m w) as [[a|e] w']; [by apply Hf|]. by destruct Hm. }
  revert v Hv. apply Hstep; [keep|intros _]. apply Hstep; [keep|intros _]. apply Hstep; [keep|intros crossed]. apply Hstep; [keep|intros _].
  intros v Hv. unfold mbind, M_bind, map_err_m, on_db. pose proof (move_folder_sound id parent (db v) Hv) as Hm.
  destruct (move_folder id parent (db v)) as [[f|e] s']; cbn in *; [|done]. by destruct crossed.
Qed.
Lemma to_keeps (m : FM unit) v : keeps (on_tables Sound) m -> Sound (db v) -> Sound (db (m v).2).
Proof. intros Hm. apply Hm. Qed.
Lemma serve_sound caller q v : Sound (db v) -> outward q (db v) -> Sound (db (serve caller q v).2).
Proof.
  intros Hs Ho. destruct q; cbn [serve].
  - apply (keeps_bind (on_tables Sound)); [|keep|done]. unfold create_folder_with_perms. keep.
  - apply (keeps_bind (on_tables Sound)); [|keep|done]. unfold rename_folder_with_perms. keep.
  - pose proof (move_request_sound id parent caller v) as Hm. unfold mbind, M_bind.
    destruct (move_folder_with_perms id parent caller v) as [[x|e] v']; apply Hm; by split.
  - apply (to_keeps (delete_folder_with_perms id caller)); [|done].
    unfold delete_folder_with_perms, delete_folder. keep.
  - apply (to_keeps (move_item_to_trash t id caller)); [|done].
    unfold move_item_to_trash. keep.
  - apply (to_keeps (restore_item format_bytes id caller)); [|done].
    unfold restore_item. keep.
  - apply (to_keeps (delete_item_permanently id caller)); [|done].
    unfold delete_item_permanently, delete_folder_permanently. keep.
  - apply (to_keeps (empty_trash_for_drive drive caller)); [|done].
    unfold empty_trash_for_drive, clear_trash_in. keep.
Qed.
(** One request after the other, of whatever callers. *)
Fixpoint session (l : list (Uuid * Request)) (v : Srv E) : Srv E :=
  match l with [] => v | (caller, q) :: rest => session rest (serve caller q v).2 end.
Fixpoint all_outward (l : list (Uuid * Request)) (v : Srv E) : Prop :=
  match l with [] => True | (caller, q) :: rest => outward q (db v) ∧ all_outward rest (serve caller q v).2 end.
Lemma session_sound l v : Sound (db v) -> all_outward l v -> Sound (db (session l v)).
Proof. revert v. induction l as [|[caller q] l IH]; intros v Hs Ho; [done|]. destruct Ho as [Ho1 Ho2]. apply IH; [by apply serve_sound|done]. Qed.
End service.
