(* ===== verification/FolderMoves.v ===== *)
(** * Paths of folders, moves, trash and retention

    What looking a folder up by its path finds, and what the repository operations change. *)

From stdpp Require Import sorting.
From S2P Require Import Prelude.
From S2P Require Import RustStr.
From S2P Require Import DomainErrors.
From S2P Require Import DrivePolicies.
From S2P Require Import StoragePath.
From S2P Require Import FolderDb.
From S2P Require Import FolderRepo.
From S2P Require Import FolderTree.
From S2P Require Import FolderInv.

#[local] Arguments lit : simpl never.

(** * Looking folders up by their paths

    The database finds a folder by comparing the text of its [path] column.  [resolve] is what
    that text means: start at the root of the drive and follow one name after the other.  On a
    tree of live folders with proper names the two agree. *)

(** ** Walking *)
Definition is_child (p : Uuid) (name : str) (r : Folder) : bool :=
  bool_decide (f_parent r = Some p) && bool_decide (f_name r = name) && live r.
(** The live folder of that name in [p]. *)
Definition child (s : Store) (p : Uuid) (name : str) : option Uuid :=
  fst <$> head (filter (fun x : Uuid * Folder => is_child p name x.2 = true) (map_to_list (folders s))).
Fixpoint walk (s : Store) (id : Uuid) (names : list str) : option Uuid :=
  match names with
  | [] => Some id
  | name :: rest => c ← child s id name; walk s c rest
  end.
Definition resolve (s : Store) (drive : Uuid) (names : list str) : option Uuid :=
  match names with
  | [] => None
  | name :: rest =>
      d ← drives s !! drive; root ← d_root d; r ← folders s !! root;
      if live r && bool_decide (f_name r = name) && bool_decide (f_drive r = drive) then walk s root rest else None
  end.
(** No name has a slash in it, and no live folder is in a trashed one. *)
Definition Named (s : Store) : Prop := forall id r, folders s !! id = Some r -> SLASH_ ∉ f_name r.
Definition LiveUp (s : Store) : Prop :=
  forall id r p pr, folders s !! id = Some r -> f_parent r = Some p -> folders s !! p = Some pr -> f_trashed r = false -> f_trashed pr = false.

(** The path of a folder [rest] names below one with the path [top]. *)
Definition extend (top : str) (rest : list str) : str := foldl (fun acc name => acc ++ SLASH_ :: name) top rest.
Lemma join_extend name rest : join SLASH_ (name :: rest) = extend name rest.
Proof.
  revert name. induction rest as [|n rest IH]; intros name; [done|].
  change (join SLASH_ (name :: n :: rest)) with (name ++ SLASH_ :: join SLASH_ (n :: rest)). rewrite IH.
  change (extend name (n :: rest)) with (extend (name ++ SLASH_ :: n) rest). unfold extend. clear IH.
  revert n. induction rest as [|m rest IH] using rev_ind; intros n; [done|]. rewrite !foldl_app. cbn. rewrite <- IH.
  by rewrite <- app_assoc.
Qed.
Lemma extend_snoc top rest name : extend top (rest ++ [name]) = extend top rest ++ SLASH_ :: name.
Proof. unfold extend. by rewrite foldl_app. Qed.
Lemma walk_snoc s id rest name : walk s id (rest ++ [name]) = (c ← walk s id rest; child s c name).
Proof.
  revert id. induction rest as [|n rest IH]; intros id; cbn.
  - by destruct (child s id name).
  - destruct (child s id n) as [c|]; cbn; [apply IH|done].
Qed.

Section resolve.
Variable s : Store.
Hypothesis HT : Tree s.
Hypothesis Hnamed : Named s.
Hypothesis Hup : LiveUp s.
Let HS : Shape s := tree_shape s HT.

Lemma is_child_spec p name r : is_child p name r = true <-> f_parent r = Some p ∧ f_name r = name ∧ f_trashed r = false.
Proof.
  unfold is_child, live. rewrite !andb_true_iff, !bool_decide_eq_true, negb_true_iff. tauto.
Qed.
(** Two live folders of the same name in the same parent are one. *)
Lemma child_unique p name k r k' r' : folders s !! k = Some r -> folders s !! k' = Some r' ->
  is_child p name r = true -> is_child p name r' = true -> k = k'.
Proof.
  intros Hk Hk' Hr%is_child_spec Hr'%is_child_spec. destruct Hr as (Hp & Hn & Ht), Hr' as (Hp' & Hn' & Ht').
  destruct (tree_parent s HS k r p Hk Hp) as (pr & Hpr & Hd & _), (tree_parent s HS k' r' p Hk' Hp') as (pr' & Hpr' & Hd' & _). simplify_eq.
  pose proof (proj1 (distinct_spec same_slot (folders s)) (tree_unique s HT)) as Hu. apply (Hu k r k' r' Hk Hk').
  unfold same_slot. rewrite Ht, Ht', !bool_decide_true by congruence. done.
Qed.
Lemma child_some p name k r : folders s !! k = Some r -> is_child p name r = true -> child s p name = Some k.
Proof.
  intros Hk Hr. unfold child. destruct (filter _ _) as [|[k' r'] l] eqn:Ef.
  - assert ((k, r) ∈ @nil (Uuid * Folder)) as Hin; [|by apply not_elem_of_nil in Hin].
    rewrite <- Ef. apply list_elem_of_filter. split; [done|by apply elem_of_map_to_list].
  - assert ((k', r') ∈ (k', r') :: l) as Hin by left. rewrite <- Ef in Hin.
    apply list_elem_of_filter in Hin as [Hc Hk'%elem_of_map_to_list]. cbn. f_equal. by apply (child_unique p name k' r' k r).
Qed.
Lemma child_inv p name k : child s p name = Some k -> exists r, folders s !! k = Some r ∧ is_child p name r = true.
Proof.
  unfold child. destruct (filter _ _) as [|[k' r'] l] eqn:Ef; [done|]. intros [= <-].
  assert ((k', r') ∈ (k', r') :: l) as Hin by left. rewrite <- Ef in Hin.
  apply list_elem_of_filter in Hin as [Hc Hk'%elem_of_map_to_list]. eauto.
Qed.
(** Where a walk ends. *)
Lemma walk_path rest id k r : folders s !! k = Some r -> f_trashed r = false -> walk s k rest = Some id ->
  exists r', folders s !! id = Some r' ∧ f_trashed r' = false ∧ f_drive r' = f_drive r ∧ f_path r' = extend (f_path r) rest.
Proof.
  revert k r. induction rest as [|name rest IH]; intros k r Hk Ht; cbn; [intros [= <-]; by exists r|].
  destruct (child s k name) as [c|] eqn:Ec; [|done]. cbn. intros Hw.
  destruct (child_inv k name c Ec) as (cr & Hcr & (Hp & Hn & Htc)%is_child_spec).
  destruct (IH c cr Hcr Htc Hw) as (r' & Hr' & Ht' & Hd & Hpath). exists r'. split_and!; [done|done| |].
  - destruct (tree_parent s HS c cr k Hcr Hp) as (pr & Hpr & Hdp & _). simplify_eq. congruence.
  - rewrite Hpath. cbn. destruct (tree_parent s HS c cr k Hcr Hp) as (pr & Hpr & _ & -> & _). simplify_eq. done.
Qed.
(** Every live folder is found by a walk, along its path. *)
Lemma path_walk id r : folders s !! id = Some r -> f_trashed r = false ->
  exists d root rr rest, drives s !! f_drive r = Some d ∧ d_root d = Some root ∧ folders s !! root = Some rr
    ∧ f_trashed rr = false ∧ f_drive rr = f_drive r ∧ walk s root rest = Some id
    ∧ f_path r = join SLASH_ (f_name rr :: rest) ∧ Forall (fun p => SLASH_ ∉ p) (f_name rr :: rest).
Proof.
  revert id r. refine (tree_ind s HS _ _ _).
  - intros id r Hr Hp Ht. destruct (tree_top s HS id r Hr Hp) as (Hpath & _ & d & Hd & Hroot). exists d, id, r, [].
    split_and!; try done. repeat constructor. by apply (Hnamed id r).
  - intros id r p pr Hr Hp Hpr IH Ht. destruct (IH (Hup id r p pr Hr Hp Hpr Ht)) as (d & root & rr & rest & Hd & Hroot & Hrr & Htr & Hdr & Hw & Hpath & Hcl).
    destruct (tree_parent s HS id r p Hr Hp) as (pr' & Hpr' & Hdp & Hpa & _). simplify_eq.
    exists d, root, rr, (rest ++ [f_name r]). rewrite <- Hdp. split_and!; try done.
    + rewrite walk_snoc, Hw. cbn. apply (child_some p (f_name r) id r Hr), is_child_spec. done.
    + by rewrite join_extend, extend_snoc, <- join_extend, <- Hpath.
    + apply Forall_cons_1 in Hcl as [H1 H2]. constructor; [done|]. apply Forall_app. split; [done|]. repeat constructor. by apply (Hnamed id r).
Qed.
Lemma at_path_spec path drive r : at_path path drive r = true <-> f_path r = path ∧ f_drive r = drive ∧ f_trashed r = false.
Proof. unfold at_path. rewrite !andb_true_iff, !bool_decide_eq_true, negb_true_iff. tauto. Qed.
Lemma at_path_resolve path drive id r : folders s !! id = Some r -> at_path path drive r = true ->
  resolve s drive (split SLASH_ path) = Some id.
Proof.
  intros Hr (Hpath & Hd & Ht)%at_path_spec.
  destruct (path_walk id r Hr Ht) as (d & root & rr & rest & Hdr & Hroot & Hrr & Htr & Hdd & Hw & Hj & Hcl).
  rewrite <- Hpath, Hj, split_join by done. cbn [resolve]. rewrite <- Hd, Hdr. cbn. rewrite Hroot. cbn. rewrite Hrr. cbn.
  unfold live. by rewrite Htr, !bool_decide_true.
Qed.
Lemma resolve_at_path path drive id : resolve s drive (split SLASH_ path) = Some id ->
  exists r, folders s !! id = Some r ∧ at_path path drive r = true.
Proof.
  destruct (split SLASH_ path) as [|name rest] eqn:Es; [done|]. cbn. destruct (drives s !! drive) as [d|] eqn:Ed; [|done]. cbn.
  destruct (d_root d) as [root|] eqn:Er; [|done]. cbn. destruct (folders s !! root) as [rr|] eqn:Err; [|done]. cbn.
  match goal with |- (if ?c then _ else _) = _ -> _ => destruct c eqn:Ec end; [|done].
  rewrite !andb_true_iff, !bool_decide_eq_true in Ec. destruct Ec as [[Hl%negb_true_iff Hn] Hd]. intros Hw.
  destruct (walk_path rest id root rr Err Hl Hw) as (r & Hr & Ht & Hdr & Hp). exists r. split; [done|]. apply at_path_spec. split_and!; [|congruence|done].
  assert (f_parent rr = None) as Htop.
  { destruct (f_parent rr) as [p|] eqn:Ep; [|done]. exfalso. destruct (tree_parent s HS root rr p Err Ep) as (pr & Hpr & Hdp & _).
    destruct (under_root s HS p pr Hpr) as (d' & root' & Hd' & Hroot' & Hu). rewrite Hdp, Hd in Hd'. simplify_eq.
    by apply (parent_not_under s root rr p HS Err Ep). }
  destruct (tree_top s HS root rr Err Htop) as (Hpr & _). rewrite Hp, Hpr, Hn, <- join_extend, <- Es. apply join_split.
Qed.
Lemma find_path_resolve path drive :
  find_path path drive s = (id ← resolve s drive (split SLASH_ path); r ← folders s !! id; Some (id, r)).
Proof.
  destruct (find_path path drive s) as [[id r]|] eqn:Ef.
  - unfold find_path in Ef. destruct (filter _ _) as [|x l] eqn:E; [done|]. injection Ef as ->.
    assert ((id, r) ∈ (id, r) :: l) as Hin by left. rewrite <- E in Hin. apply list_elem_of_filter in Hin as [Hc Hk%elem_of_map_to_list].
    rewrite (at_path_resolve path drive id r Hk Hc). cbn. by rewrite Hk.
  - destruct (resolve s drive (split SLASH_ path)) as [id|] eqn:E; [|done].
    destruct (resolve_at_path path drive id E) as (r & Hr & Hc). exfalso. unfold find_path in Ef.
    assert ((id, r) ∈ filter (fun x : Uuid * Folder => at_path path drive x.2 = true) (map_to_list (folders s))) as Hin
      by (apply list_elem_of_filter; split; [done|by apply elem_of_map_to_list]).
    destruct (filter _ _); [by apply not_elem_of_nil in Hin|done].
Qed.
End resolve.

(** * What a move, the trash and the retention do exactly

    The effect of the repository operations on tables that form a [Tree] while the database
    answers and nobody interferes: which rows change, how, and when an operation is refused. *)

(** ** A database that answers *)
Definition healthy (s : Store) : Prop := meanwhile s = [] ∧ faults s = [].
Lemma query_healthy {T} (q : Store -> result SqlError T * Store) s : healthy s -> query q s = q s.
Proof. destruct s. intros [Hm Hf]. cbn in Hm, Hf. by subst. Qed.
Lemma fetch_healthy {T} (f : Store -> T) s : healthy s -> fetch f s = (Ok (f s), s).
Proof. intros Hs. unfold fetch. by rewrite query_healthy. Qed.
Lemma retry_once {T} (op : M Store SqlError T) pauses s : (op s).1 ≠ Err Deadlock -> retry_when pauses op s = op s.
Proof. intros Hn. destruct pauses; cbn [retry_when]; destruct (op s) as [[v|[]] s']; done. Qed.
Lemma commit_no_deadlock id n s s' : (commit id n s s').1 ≠ Err Deadlock.
Proof. unfold commit. by repeat case_match. Qed.

(** ** Moves *)
(** Another live folder of that name is in [p]. *)
Definition taken (s : Store) (id p : Uuid) (name : str) : bool :=
  existsb (fun x : Uuid * Folder => negb (bool_decide (x.1 = id)) && is_child p name x.2) (map_to_list (folders s)).
Lemma taken_spec s id p name : taken s id p name = true <-> exists k x, folders s !! k = Some x ∧ k ≠ id ∧ is_child p name x = true.
Proof.
  unfold taken. rewrite existsb_exists. split.
  - intros ([k x] & Hin & Hc). apply list_elem_of_In, elem_of_map_to_list in Hin. apply andb_true_iff in Hc as [Hne%negb_true_iff%bool_decide_eq_false Hc]. eauto.
  - intros (k & x & Hk & Hne & Hc). exists (k, x). split; [by apply list_elem_of_In, elem_of_map_to_list|]. cbn. by rewrite bool_decide_false.
Qed.
(** The row of [id] once it is in [p]. *)
Definition placed (id p : Uuid) (pr r : Folder) : Folder :=
  with_place (Some p) (f_drive pr) (f_name r) (f_path pr ++ SLASH_ :: f_name r) (f_lpath pr ++ [id]) r.

Section moving.
Variables (s : Store) (id p : Uuid) (r pr : Folder).
Hypothesis HT : Tree s.
Hypothesis Hr : folders s !! id = Some r.
Hypothesis Hlive : f_trashed r = false.
Hypothesis Hpr : folders s !! p = Some pr.
Hypothesis Hout : ~ under s id p.
Let HS : Shape s := tree_shape s HT.
Let new : Folder := placed id p pr r.

Lemma placed_computed : compute_folder_path (folders s) id (f_name new) (f_parent new) = Some (f_path new, f_lpath new).
Proof. cbn. by rewrite Hpr. Qed.
Lemma moved_origin k r' : folders (moved s id r new) !! k = Some r' -> k ≠ id ->
  exists x, folders s !! k = Some x ∧ f_parent r' = f_parent x ∧ f_name r' = f_name x ∧ f_trashed r' = f_trashed x.
Proof.
  cbn. unfold relocate. intros Hk Hne. rewrite lookup_insert_ne, map_lookup_imap in Hk by done.
  destruct (folders s !! k) as [x|]; [|done]. injection Hk as <-. exists x. by case_match.
Qed.
Lemma moved_id : folders (moved s id r new) !! id = Some new.
Proof. cbn. unfold relocate. by rewrite lookup_insert_eq. Qed.
Lemma child_not_moved k x : folders s !! k = Some x -> k ≠ id -> f_parent x = Some p -> ~ under s id k.
Proof. intros Hk Hne Hp Hu. inversion Hu as [|? q ? Hx Hq Huq]; simplify_eq. Qed.
Lemma moved_shape' : Shape (moved s id r new).
Proof.
  apply moved_shape; [exact HS|done|apply placed_computed| |done]. cbn. by exists pr.
Qed.
Lemma moved_unique : unique_folders (folders (moved s id r new)) = negb (taken s id p (f_name r)).
Proof.
  pose proof (proj1 (distinct_spec same_slot (folders s)) (tree_unique s HT)) as Hu. destruct (taken s id p (f_name r)) eqn:Et; cbn [negb].
  - apply not_true_iff_false. intros Hd. pose proof (proj1 (distinct_spec _ _) Hd) as Hd'. clear Hd.
    apply taken_spec in Et as (k & x & Hk & Hne & (Hp & Hn & Ht)%is_child_spec). apply Hne.
    pose proof (relocate_elsewhere s HS id r new Hr k x Hk (child_not_moved k x Hk Hne Hp)) as Hk'.
    destruct (tree_parent s HS k x p Hk Hp) as (pr' & Hpr' & Hdx & _). simplify_eq.
    symmetry. apply (Hd' id new k x moved_id Hk'). unfold same_slot. cbn. rewrite Hlive, Ht, Hp, Hn, Hdx. by rewrite !bool_decide_true.
  - assert (Hfree : forall k x, folders s !! k = Some x -> k ≠ id -> is_child p (f_name r) x = true -> False).
    { intros k x Hk Hne Hc. apply not_true_iff_false in Et. apply Et, taken_spec. eauto. }
    apply distinct_spec. intros k a k' b Hk Hk' Hs. unfold same_slot in Hs.
    rewrite !andb_true_iff, !bool_decide_eq_true, !negb_true_iff in Hs. destruct Hs as ((((Ha & Hb) & Hp) & Hn) & Hd).
    destruct (decide (k = id)) as [->|Hne], (decide (k' = id)) as [->|Hne']; [done|exfalso|exfalso|].
    + rewrite moved_id in Hk. injection Hk as <-. destruct (moved_origin k' b Hk' Hne') as (y & Hy & Hyp & Hyn & Hyt).
      apply (Hfree k' y Hy Hne'), is_child_spec. cbn in *. split_and!; congruence.
    + rewrite moved_id in Hk'. injection Hk' as <-. destruct (moved_origin k a Hk Hne) as (y & Hy & Hyp & Hyn & Hyt).
      apply (Hfree k y Hy Hne), is_child_spec. cbn in *. split_and!; congruence.
    + destruct (moved_origin k a Hk Hne) as (x & Hx & Hxp & Hxn & Hxt), (moved_origin k' b Hk' Hne') as (y & Hy & Hyp & Hyn & Hyt).
      apply (Hu k x k' y Hx Hy). unfold same_slot.
      assert (f_drive x = f_drive y) as Hdd.
      { destruct (f_parent a) as [q|] eqn:Eq.
        - destruct (tree_parent s HS k x q Hx) as (qr & Hq & Hd1 & _); [congruence|].
          destruct (tree_parent s HS k' y q Hy) as (qr' & Hq' & Hd2 & _); [congruence|]. congruence.
        - pose proof moved_shape' as HS'. destruct (tree_top _ HS' k a Hk Eq) as (_ & _ & d & Hdr & Hroot).
          destruct (tree_top _ HS' k' b Hk') as (_ & _ & d' & Hdr' & Hroot'); [congruence|]. rewrite Hd in Hdr. simplify_eq. congruence. }
      rewrite <- Hxt, <- Hyt, Ha, Hb, !bool_decide_true by congruence. done.
Qed.
Lemma moved_unique_files : unique_files (files (moved s id r new)) = true.
Proof.
  pose proof (proj1 (distinct_spec same_file_slot (files s)) (tree_unique_files s HT)) as Hu. apply distinct_spec.
  intros k a k' b Hk Hk' Hs. cbn in Hk, Hk'. unfold relocate_files in Hk, Hk'. rewrite lookup_fmap in Hk, Hk'.
  destruct (files s !! k) as [x|] eqn:Ex, (files s !! k') as [y|] eqn:Ey; try done. cbn in Hk, Hk'.
  apply (Hu k x k' y Ex Ey). destruct (shape_files s HS k x Ex) as (q & qr & Hq & Hqr & Hd), (shape_files s HS k' y Ey) as (q' & qr' & Hq' & Hqr' & Hd').
  unfold same_file_slot in *. rewrite !andb_true_iff, !bool_decide_eq_true in Hs |- *. destruct Hs as ((((Ha & Hb) & Hp) & Hn) & _).
  assert (forall (c : bool) x, fi_folder (if c then file_place (fi_folder x) (f_drive new) (fi_name x) x else x) = fi_folder x) as E1 by (by intros []).
  assert (forall (c : bool) x, fi_name (if c then file_place (fi_folder x) (f_drive new) (fi_name x) x else x) = fi_name x) as E2 by (by intros []).
  assert (forall (c : bool) x, fi_trashed (if c then file_place (fi_folder x) (f_drive new) (fi_name x) x else x) = fi_trashed x) as E3 by (by intros []).
  injection Hk as <-. injection Hk' as <-. rewrite E1, E1 in Hp. rewrite E2, E2 in Hn. rewrite E3 in Ha, Hb. split_and!; try done. congruence.
Qed.
Lemma exec_move : exec (SMoveFolder id (Some p)) s =
  if taken s id p (f_name r) then (Err Unique, s) else (Ok 1%N, moved s id r new).
Proof.
  cbn [exec]. unfold on_folder, live. rewrite Hr, Hlive. cbn [negb]. cbn [mbind option_bind]. rewrite Hpr. cbn [fmap option_fmap option_map default].
  pose proof (update_folder_relocates s HS id r new Hr placed_computed) as Hu. cbn [f_name f_parent f_drive f_trashed f_trashed_at f_original_parent new placed with_place] in Hu.
  rewrite Hlive in Hu. change (Datatypes.id (f_drive pr)) with (f_drive pr). rewrite Hu. fold new. fold (moved s id r new). unfold commit.
  rewrite moved_unique, moved_unique_files. destruct (taken s id p (f_name r)); [done|]. cbn [negb andb]. unfold rooted. by rewrite moved_id.
Qed.
End moving.

(** ** The trash *)
(** In [id] nothing is in the trash that did not go there by itself, and what is live carries no
    stamp of the trash. *)
Definition tidy (s : Store) (id : Uuid) : Prop :=
  (forall k r, folders s !! k = Some r -> under s id k -> if f_trashed r then f_original_parent r ≠ None else f_trashed_at r = None)
  ∧ forall j f p, files s !! j = Some f -> fi_folder f = Some p -> under s id p ->
      if fi_trashed f then fi_original_folder f ≠ None else fi_trashed_at f = None.

Lemma untrashed x b t o : f_trashed x = false -> f_trashed_at x = None -> f_original_parent x = None ->
  with_trash false None None (with_trash b t o x) = x.
Proof. destruct x. cbn. by intros -> -> ->. Qed.
Lemma untrashed_file x b t o : fi_trashed x = false -> fi_trashed_at x = None -> fi_original_folder x = None ->
  file_trash false None None (file_trash b t o x) = x.
Proof. destruct x. cbn. by intros -> -> ->. Qed.
Section trash.
Variables (s : Store) (id : Uuid) (r : Folder).
Hypothesis HT : Tree s.
Hypothesis Hr : folders s !! id = Some r.
Hypothesis Hlive : f_trashed r = false.
Let HS : Shape s := tree_shape s HT.
Let s1 : Store := trashed_store id r s.

Lemma trashed_row k : folders s1 !! k =
  (fun x => if bool_decide (k = id) then with_trash true (Some (now s)) (f_parent r) r
            else if below (f_lpath r) x && negb (f_trashed x) then with_trash true (Some (now s)) (f_original_parent x) x else x) <$> folders s !! k.
Proof.
  cbn. destruct (bool_decide_reflect (k = id)) as [->|Hne]; [by rewrite lookup_insert_eq, Hr|].
  rewrite lookup_insert_ne, trash_rest_lookup by done. destruct (folders s !! k) as [x|]; [|done]. cbn. by rewrite bool_decide_false.
Qed.
Lemma trashed_lpath k x : folders s !! k = Some x -> exists x', folders s1 !! k = Some x' ∧ f_lpath x' = f_lpath x ∧ f_parent x' = f_parent x.
Proof.
  intros Hk. rewrite trashed_row, Hk. cbn. eexists. split; [done|]. case_bool_decide; [subst; by simplify_eq|]. by case_match.
Qed.
Lemma trashed_unique : unique_folders (folders s1) = true.
Proof.
  pose proof (proj1 (distinct_spec same_slot (folders s)) (tree_unique s HT)) as Hu. apply distinct_spec.
  assert (Hlv : forall k x', folders s1 !! k = Some x' -> f_trashed x' = false -> folders s !! k = Some x').
  { intros k x' Hk Ht. rewrite trashed_row in Hk. destruct (folders s !! k) as [x|]; [|done]. cbn in Hk. injection Hk as <-.
    case_bool_decide; [done|]. by case_match. }
  intros k a k' b Hk Hk' Hs. assert (f_trashed a = false ∧ f_trashed b = false) as [Ha Hb].
  { unfold same_slot in Hs. rewrite !andb_true_iff, !negb_true_iff in Hs. tauto. }
  apply (Hu k a k' b); [by apply Hlv|by apply Hlv|done].
Qed.
Lemma trashed_unique_files : unique_files (files s1) = true.
Proof.
  pose proof (proj1 (distinct_spec same_file_slot (files s)) (tree_unique_files s HT)) as Hu. apply distinct_spec.
  assert (Hlv : forall k x', files s1 !! k = Some x' -> fi_trashed x' = false -> files s !! k = Some x').
  { intros k x' Hk Ht. cbn in Hk. unfold trash_files_in in Hk. rewrite lookup_fmap in Hk. destruct (files s !! k) as [x|]; [|done].
    cbn in Hk. injection Hk as <-. by case_match. }
  intros k a k' b Hk Hk' Hs. assert (fi_trashed a = false ∧ fi_trashed b = false) as [Ha Hb].
  { unfold same_file_slot in Hs. rewrite !andb_true_iff, !negb_true_iff in Hs. tauto. }
  apply (Hu k a k' b); [by apply Hlv|by apply Hlv|done].
Qed.
Lemma exec_trash : exec (STrashFolder id) s = (Ok 1%N, s1).
Proof.
  cbn [exec]. unfold on_folder, live. rewrite Hr, Hlive. cbn [negb]. fold (trashed_store id r s). fold s1. unfold commit.
  rewrite trashed_unique, trashed_unique_files. cbn [andb]. unfold rooted. rewrite trashed_row, Hr. cbn. rewrite bool_decide_true by done.
  cbn. by destruct (f_parent r).
Qed.
(** Every folder in it is in the trash now. *)
Lemma trashed_under k : under s id k -> exists x, folders s1 !! k = Some x ∧ f_trashed x = true.
Proof.
  intros Hu. destruct (under_row s id k Hu) as [x Hx]. rewrite trashed_row, Hx. cbn. eexists. split; [done|].
  case_bool_decide; [done|]. rewrite (proj2 (below_under s HS id r k x Hr Hx) Hu). cbn. by destruct (f_trashed x) eqn:E; cbn.
Qed.
(** The trash lists the folder, and nothing that is in it. *)
Lemma trash_lists_top : files s !! id = None -> parent_trashed s (f_parent r) = false -> trash_item s1 id = Some TFolder.
Proof.
  intros Hf Hp. unfold trash_item. cbn [files s1 trashed_store set_files]. unfold trash_files_in. rewrite lookup_fmap, Hf. cbn [fmap option_fmap option_map].
  rewrite trashed_row, Hr. cbn [fmap option_fmap option_map]. rewrite bool_decide_true by done. cbn [f_trashed f_parent with_trash andb].
  enough (parent_trashed s1 (f_parent r) = false) as -> by done. unfold parent_trashed in *. destruct (f_parent r) as [p|] eqn:Ep; [|done]. cbn in *.
  destruct (tree_parent s HS id r p Hr Ep) as (pr & Hpr & _). rewrite Hpr in Hp. rewrite trashed_row, Hpr. cbn.
  pose proof (parent_not_under s id r p HS Hr Ep) as Hnu. case_bool_decide; [subst; destruct Hnu; by eapply under_top|].
  destruct (below (f_lpath r) pr) eqn:Eb; [by apply (below_under s HS id r p pr Hr Hpr) in Eb|done].
Qed.
Lemma trash_hides_inside k x : folders s !! k = Some x -> k ≠ id -> under s id k -> files s !! k = None -> trash_item s1 k = None.
Proof.
  intros Hk Hne Hu Hf. unfold trash_item. cbn [files s1 trashed_store set_files]. unfold trash_files_in. rewrite lookup_fmap, Hf. cbn [fmap option_fmap option_map].
  destruct (trashed_lpath k x Hk) as (x' & -> & _ & Hp). inversion Hu as [|? p ? Hk' Hp' Hup]; simplify_eq.
  destruct (trashed_under p Hup) as (q & Hq & Htq). unfold parent_trashed. rewrite Hp, Hp'. cbn [mbind option_bind]. rewrite Hq, Htq.
  by rewrite andb_false_r.
Qed.
Lemma trash_hides_files j f p : files s !! j = Some f -> fi_folder f = Some p -> under s id p -> trash_item s1 j = None.
Proof.
  intros Hj Hp Hu. unfold trash_item. cbn [files s1 trashed_store set_files]. unfold trash_files_in. rewrite lookup_fmap, Hj. cbn [fmap option_fmap option_map].
  destruct (trashed_under p Hu) as (q & Hq & Htq). unfold parent_trashed.
  match goal with |- context [fi_folder ?g] => assert (fi_folder g = Some p) as -> by (by case_match) end.
  cbn [mbind option_bind]. rewrite Hq, Htq. by rewrite andb_false_r.
Qed.
Lemma in_folder_trashed f : in_folder (folders s1) (f_lpath r) f = in_folder (folders s) (f_lpath r) f.
Proof.
  unfold in_folder. destruct (fi_folder f) as [p|]; [|done]. cbn [mbind option_bind].
  destruct (folders s !! p) as [x|] eqn:Ex; [|by rewrite trashed_row, Ex].
  destruct (trashed_lpath p x Ex) as (x' & -> & Hl & _). unfold below. by rewrite Hl.
Qed.
Hypothesis Htidy : tidy s id.
Lemma restored_folders : folders (restored_store id (with_trash true (Some (now s)) (f_parent r) r) s1) = folders s.
Proof.
  destruct Htidy as [H1 _]. apply map_eq. intros k. cbn [folders restored_store set_files set_folders]. destruct (decide (k = id)) as [->|Hne].
  - rewrite lookup_insert_eq, Hr. pose proof (H1 id r Hr (under_top s id r Hr)) as Ht. rewrite Hlive in Ht.
    destruct (tree_original s HT id r Hr) as [Ho|[Ho _]]; [|congruence]. f_equal. by apply untrashed.
  - rewrite lookup_insert_ne, restore_rest_lookup, trashed_row by done. destruct (folders s !! k) as [x|] eqn:Ex; [|done]. cbn [fmap option_fmap option_map].
    rewrite bool_decide_false by done. cbn [negb andb]. change (f_lpath (with_trash true (Some (now s)) (f_parent r) r)) with (f_lpath r).
    destruct (below (f_lpath r) x) eqn:Eb; [|by cbn; rewrite Eb]. pose proof (H1 k x Ex (proj1 (below_under s HS id r k x Hr Ex) Eb)) as Ht.
    cbn [andb]. destruct (f_trashed x) eqn:Etx; cbn [negb andb].
    + rewrite Eb, Etx. cbn [andb]. by rewrite bool_decide_false.
    + destruct (tree_original s HT k x Ex) as [Ho|[Ho _]]; [|congruence].
      unfold below in Eb |- *. cbn [f_lpath f_trashed with_trash f_original_parent]. rewrite Eb, Ho, bool_decide_true by done. cbn [andb]. f_equal. by apply untrashed.
Qed.
Lemma restored_files : files (restored_store id (with_trash true (Some (now s)) (f_parent r) r) s1) = files s.
Proof.
  destruct Htidy as [_ H2]. apply map_eq. intros j. cbn [files restored_store set_files set_folders]. unfold restore_files_in.
  change (f_lpath (with_trash true (Some (now s)) (f_parent r) r)) with (f_lpath r). rewrite lookup_fmap.
  change (files s1) with (trash_files_in (folders s) (f_lpath r) (now s) (files s)). unfold trash_files_in. rewrite lookup_fmap.
  destruct (files s !! j) as [f|] eqn:Ef; [|done]. cbn [fmap option_fmap option_map]. f_equal.
  destruct (in_folder (folders s) (f_lpath r) f) eqn:Ei; [|by cbn; rewrite in_folder_trashed, Ei]. cbn [andb].
  destruct (shape_files s HS j f Ef) as (p & pr & Hp & Hpr & _).
  assert (under s id p) as Hu. { unfold in_folder in Ei. rewrite Hp in Ei. cbn in Ei. rewrite Hpr in Ei. by apply (below_under s HS id r p pr Hr Hpr). }
  pose proof (H2 j f p Ef Hp Hu) as Ht. destruct (fi_trashed f) eqn:Etf; cbn [negb].
  - rewrite in_folder_trashed, Ei, Etf. cbn [andb]. by rewrite bool_decide_false.
  - destruct (tree_file_original s HT j f Ef) as [Ho|[Ho _]]; [|congruence].
    assert (in_folder (folders s1) (f_lpath r) (file_trash true (Some (now s)) (fi_original_folder f) f) = true) as ->
      by (rewrite <- Ei, <- (in_folder_trashed f); done).
    cbn [fi_trashed fi_original_folder file_trash andb]. rewrite Ho, bool_decide_true by done. by apply untrashed_file.
Qed.
Lemma exec_restore_trashed : exec (SRestoreFolder id) s1 = (Ok 1%N, s).
Proof.
  assert (HT1 : Tree s1).
  { pose proof (exec_tree (STrashFolder id) s HT I) as Hx. by rewrite exec_trash in Hx. }
  assert (Hr1 : folders s1 !! id = Some (with_trash true (Some (now s)) (f_parent r) r)) by (by rewrite trashed_row, Hr; cbn; rewrite bool_decide_true).
  rewrite (restore_update s1 id _ HT1 Hr1 eq_refl).
  assert (restored_store id (with_trash true (Some (now s)) (f_parent r) r) s1 = s) as ->.
  { pose proof restored_folders as H1. pose proof restored_files as H2. destruct s as [a b c d e f g h i]. cbn in H1, H2.
    unfold restored_store, set_files, set_folders. cbn. by rewrite H1, H2. }
  unfold commit. rewrite (tree_unique s HT), (tree_unique_files s HT). cbn [andb]. unfold rooted. rewrite Hr.
  destruct (f_parent r) as [p|] eqn:Ep; [done|]. destruct (tree_top s HS id r Hr Ep) as (_ & _ & d & -> & ->). by rewrite bool_decide_true, orb_true_r.
Qed.
End trash.
