(* ===== verification/FolderRetention.v ===== *)
(** * The retention of the trash

    [delete_expired_bulk] deletes in batches.  With enough rounds it comes to an end, and then
    exactly the items whose time is over are gone, with what is in them; the drives that a
    retention policy has frozen are as they were. *)

From S2P Require Import Prelude.
From S2P Require Import RustStr.
From S2P Require Import DomainErrors.
From S2P Require Import DrivePolicies.
From S2P Require Import FolderDb.
From S2P Require Import FolderRepo.
From S2P Require Import FolderTree.
From S2P Require Import FolderInv.
From S2P Require Import FolderMoves.
From stdpp Require Import sorting.

#[local] Arguments lit : simpl never.

(** ** One batch *)
Lemma oldest_all limit (l : list (Z * Uuid)) : (length l < limit)%nat -> oldest limit l = list_to_set l.*2.
Proof.
  intros Hl. unfold oldest. rewrite take_ge by (rewrite (merge_sort_Permutation earlier l); lia).
  apply set_eq. intros k. rewrite !elem_of_list_to_set. by rewrite (merge_sort_Permutation earlier l).
Qed.
Lemma oldest_size limit (l : list (Z * Uuid)) : NoDup l.*2 -> size (oldest limit l) = Nat.min limit (length l).
Proof.
  intros Hnd. unfold oldest. rewrite size_list_to_set.
  - rewrite length_fmap, length_take. by rewrite (merge_sort_Permutation earlier l).
  - rewrite fmap_take. eapply sublist_NoDup, sublist_take. by rewrite (merge_sort_Permutation earlier l).
Qed.
Lemma oldest_elem limit (l : list (Z * Uuid)) k : k ∈ oldest limit l -> k ∈ l.*2.
Proof.
  unfold oldest. rewrite elem_of_list_to_set, !list_elem_of_fmap. intros (x & -> & Hx). exists x. split; [done|].
  apply elem_of_take in Hx as (i & Hi & _). apply list_elem_of_lookup_2 in Hi. by rewrite (merge_sort_Permutation earlier l) in Hi.
Qed.
(** The rows a query selects, by their stamps. *)
Lemma selected_ids {V} (p : V -> bool) (t : V -> Z) (m : gmap Uuid V) :
  let l := (fun x : Uuid * V => (t x.2, x.1)) <$> filter (fun x : Uuid * V => p x.2 = true) (map_to_list m) in
  NoDup l.*2 ∧ forall k, k ∈ l.*2 <-> exists v, m !! k = Some v ∧ p v = true.
Proof.
  intros l. assert (l.*2 = (filter (fun x : Uuid * V => p x.2 = true) (map_to_list m)).*1) as -> by (unfold l; by rewrite <- list_fmap_compose).
  split.
  - apply NoDup_fmap_fst.
    + intros a b c Hb Hc. apply list_elem_of_filter in Hb as [_ Hb%elem_of_map_to_list]. apply list_elem_of_filter in Hc as [_ Hc%elem_of_map_to_list]. congruence.
    + apply NoDup_filter, NoDup_map_to_list.
  - intros k. rewrite list_elem_of_fmap. split.
    + intros ([k' v] & -> & Hx). apply list_elem_of_filter in Hx as [Hp Hx%elem_of_map_to_list]. eauto.
    + intros (v & Hv & Hp). exists (k, v). split; [done|]. apply list_elem_of_filter. split; [done|by apply elem_of_map_to_list].
Qed.
Definition file_over (cutoff : Z) (s : Store) (f : FileRow) : bool := expired cutoff (fi_trashed f) (fi_trashed_at f) && negb (frozen s (fi_drive f)).
Definition folder_over (cutoff : Z) (s : Store) (r : Folder) : bool := expired cutoff (f_trashed r) (f_trashed_at r) && negb (frozen s (f_drive r)).
Lemma expired_files_ids cutoff s : NoDup (expired_files cutoff s).*2
  ∧ forall k, k ∈ (expired_files cutoff s).*2 <-> exists f, files s !! k = Some f ∧ file_over cutoff s f = true.
Proof. apply (selected_ids (file_over cutoff s) (fun f => default 0%Z (fi_trashed_at f)) (files s)). Qed.
Lemma expired_folders_ids cutoff s : NoDup (expired_folders cutoff s).*2
  ∧ forall k, k ∈ (expired_folders cutoff s).*2 <-> exists r, folders s !! k = Some r ∧ folder_over cutoff s r = true.
Proof. apply (selected_ids (folder_over cutoff s) (fun r => default 0%Z (f_trashed_at r)) (folders s)). Qed.

Section loops.
Context `{UuidText}.
Variable cutoff : Z.
(** One round of the loop on a database that answers. *)
Lemma loop_step fuel st batch total s n s' : healthy s -> exec st s = (Ok n, s') ->
  delete_expired_batch_loop (S fuel) st batch total s
  = if (n <? batch)%N then (Ok (Some (total + n)%N), s') else delete_expired_batch_loop fuel st batch (total + n)%N s'.
Proof.
  intros Hs Hx. cbn [delete_expired_batch_loop]. unfold mbind at 1, M_bind at 1, map_err_m, execute. rewrite query_healthy, Hx by done. cbn.
  by destruct (n <? batch)%N.
Qed.

(** ** Files *)
Definition without_files (s : Store) : Store := set_files (filter (fun x : Uuid * FileRow => file_over cutoff s x.2 = false) (files s)) s.
Lemma files_batch s limit : let ids := oldest limit (expired_files cutoff s) in
  let s' := set_files (filter (fun x : Uuid * FileRow => x.1 ∉ ids) (files s)) s in
  without_files s' = without_files s ∧ (length (expired_files cutoff s) < limit -> s' = without_files s)%nat
  ∧ (length (expired_files cutoff s') + size ids = length (expired_files cutoff s))%nat.
Proof.
  intros ids s'. destruct (expired_files_ids cutoff s) as [Hnd Hin], (expired_files_ids cutoff s') as [Hnd' Hin'].
  assert (Hids : forall k, k ∈ ids -> exists f, files s !! k = Some f ∧ file_over cutoff s f = true) by (intros k Hk%oldest_elem; by apply Hin).
  assert (Hrow : forall k, files s' !! k = if decide (k ∈ ids) then None else files s !! k).
  { intros k. cbn. destruct (decide (k ∈ ids)) as [Hk|Hk]; [apply map_lookup_filter_None; right; cbn; auto|].
    destruct (files s !! k) as [f|] eqn:Ef; [by apply map_lookup_filter_Some|]. apply map_lookup_filter_None. by left. }
  assert (Hsome : forall k f, files s' !! k = Some f <-> k ∉ ids ∧ files s !! k = Some f).
  { intros k f. rewrite Hrow. case_decide; [split; [done|tauto]|tauto]. }
  split_and!.
  - unfold without_files. change (set_files ?x s') with (set_files x s). apply (f_equal (fun m => set_files m s)), map_eq. intros k. apply option_eq. intros f.
    rewrite !map_lookup_filter_Some, Hsome. cbn [fst snd]. change (file_over cutoff s' f) with (file_over cutoff s f). split; [tauto|]. intros [Hf Ho]. split_and!; try done.
    intros (f' & Hf' & Ho')%Hids. simplify_eq. congruence.
  - intros Hl. apply (f_equal (fun m => set_files m s)), map_eq. intros k. apply option_eq. intros f. rewrite !map_lookup_filter_Some. cbn.
    unfold ids. rewrite oldest_all, elem_of_list_to_set, Hin by done. split; intros [Hf Ho]; split; try done.
    + apply not_true_iff_false. intros Hx. apply Ho. eauto.
    + intros (f' & Hf' & Hx). simplify_eq. congruence.
  - rewrite <- (length_fmap snd (expired_files cutoff s')), <- (length_fmap snd (expired_files cutoff s)).
    rewrite <- (size_list_to_set (C := gset Uuid) _ Hnd'), <- (size_list_to_set (C := gset Uuid) _ Hnd).
    rewrite <- size_union.
    + f_equal. apply set_eq. intros k. rewrite elem_of_union, !elem_of_list_to_set, Hin, Hin'. split.
      * intros [(f & [_ Hf]%Hsome & Ho)|Hk]; [by exists f|by apply Hids].
      * intros (f & Hf & Ho). destruct (decide (k ∈ ids)); [by right|left]. exists f. split; [by apply Hsome|done].
    + intros k Hk Hk'. apply elem_of_list_to_set, Hin' in Hk as (f & [Hn _]%Hsome & _). done.
Qed.
Lemma files_loop limit s fuel total : healthy s -> (0 < limit)%nat -> (length (expired_files cutoff s) < fuel)%nat ->
  delete_expired_batch_loop fuel (SExpireFiles cutoff limit) (N.of_nat limit) total s
  = (Ok (Some (total + N.of_nat (length (expired_files cutoff s))))%N, without_files s).
Proof.
  revert s total. induction fuel as [|fuel IH]; intros s total Hs Hl Hf; [lia|].
  pose proof (oldest_size limit _ (proj1 (expired_files_ids cutoff s))) as Hsz.
  destruct (files_batch s limit) as (H1 & H2 & H3). set (ids := oldest limit (expired_files cutoff s)) in *.
  set (s' := set_files (filter (fun x : Uuid * FileRow => x.1 ∉ ids) (files s)) s) in *.
  rewrite (loop_step fuel _ _ total s (N.of_nat (size ids)) s') by done.
  destruct (N.ltb_spec (N.of_nat (size ids)) (N.of_nat limit)) as [Hlt|Hge].
  - assert (length (expired_files cutoff s) < limit)%nat as Hall by lia. rewrite <- (H2 Hall). do 3 f_equal. lia.
  - rewrite IH; [|done|done|lia]. rewrite H1. do 3 f_equal. lia.
Qed.

(** ** Folders *)
(** [k] is a folder whose time is over, or in one. *)
Definition over_above (s : Store) (k : Uuid) : Prop := exists i x, folders s !! i = Some x ∧ folder_over cutoff s x = true ∧ under s i k.

Section deletion.
Variables (s : Store) (ids : gset Uuid).
Hypothesis HT : Tree s.
Hypothesis Hids : ids ⊆ dom (folders s).
Let HS : Shape s := tree_shape s HT.
Let s1 : Store := delete_folders ids s.
Lemma deleted_some k x : folders s1 !! k = Some x <-> k ∉ doomed s ids ∧ folders s !! k = Some x.
Proof. unfold s1. rewrite deleted_row. case_decide; [split; [done|tauto]|tauto]. Qed.
Lemma deleted_under i k : k ∉ doomed s ids -> under s1 i k <-> under s i k.
Proof.
  intros Hk. split.
  - clear Hk. induction 1 as [x [_ Hx]%deleted_some|k p x [_ Hx]%deleted_some Hp Hu IH]; [by apply (under_top s i x)|by apply (under_child s i k p x)].
  - induction 1 as [x Hx|k p x Hx Hp Hu IH]; [apply (under_top s1 i x); by apply deleted_some|].
    apply (under_child s1 i k p x); [by apply deleted_some|done|]. apply IH. intros (j & Hj & Hup)%(doomed_under s HS ids Hids).
    apply Hk, (doomed_under s HS ids Hids). exists j. split; [done|]. by apply (under_child s j k p x).
Qed.
Lemma deleted_over k x : folders s1 !! k = Some x -> folder_over cutoff s1 x = folder_over cutoff s x.
Proof.
  intros Hx. pose proof (tree_delete_folders s ids HT Hids) as HT1. destruct (under_root s1 (tree_shape _ HT1) k x Hx) as (d & root & Hd & _).
  unfold folder_over, frozen. rewrite Hd. cbn in Hd. apply map_lookup_filter_Some in Hd as [Hd _]. by rewrite Hd.
Qed.
Lemma deleted_above k : k ∉ doomed s ids -> over_above s1 k <-> over_above s k.
Proof.
  intros Hk. split.
  - intros (i & x & Hx & Ho & Hu). exists i, x. rewrite (deleted_over i x Hx) in Ho. split_and!; [by apply deleted_some|done|by apply deleted_under].
  - intros (i & x & Hx & Ho & Hu). assert (folders s1 !! i = Some x) as Hx1.
    { apply deleted_some. split; [|done]. intros (j & Hj & Hji)%(doomed_under s HS ids Hids). apply Hk, (doomed_under s HS ids Hids).
      exists j. split; [done|by apply (under_trans s j i k)]. }
    exists i, x. split_and!; [done|by rewrite (deleted_over i x Hx1)|by apply deleted_under].
Qed.
Lemma deleted_smaller : ids ≠ ∅ -> (size (folders s1) < size (folders s))%nat.
Proof.
  intros Hne. rewrite <- !size_dom. assert (dom (folders s1) ∪ ids ⊆ dom (folders s)) as Hsub.
  { apply union_subseteq. split; [|done]. intros k Hk. apply elem_of_dom in Hk as [x [_ Hx]%deleted_some]. apply elem_of_dom. by exists x. }
  apply subseteq_size in Hsub. rewrite size_union in Hsub.
  - assert (size ids ≠ 0%nat) by (rewrite size_empty_iff; by intros ->%leibniz_equiv). lia.
  - intros k Hk Hi. apply elem_of_dom in Hk as [x [Hn _]%deleted_some]. by apply Hn, doomed_grows.
Qed.
End deletion.

(** What is left when every folder whose time is over is gone. *)
Record Swept (s s' : Store) : Prop := {
  swept_gone k : over_above s k -> folders s' !! k = None;
  swept_kept k : ~ over_above s k -> folders s' !! k = folders s !! k;
  swept_file j f p : files s !! j = Some f -> fi_folder f = Some p -> over_above s p -> files s' !! j = None;
  swept_file_kept j f p : files s !! j = Some f -> fi_folder f = Some p -> ~ over_above s p -> files s' !! j = Some f;
  swept_files : files s' ⊆ files s;
  swept_tree : Tree s';
}.
Lemma batch_over s limit k : k ∈ oldest limit (expired_folders cutoff s) -> exists x, folders s !! k = Some x ∧ folder_over cutoff s x = true.
Proof. intros Hk%oldest_elem. by apply expired_folders_ids. Qed.
Lemma batch_doomed s limit k : Tree s -> k ∈ doomed s (oldest limit (expired_folders cutoff s)) -> over_above s k.
Proof.
  intros HT (i & (x & Hx & Ho)%batch_over & Hu)%(doomed_under s (tree_shape s HT) _ (expired_folders_sub cutoff limit s)). by exists i, x.
Qed.
Lemma last_batch s limit : Tree s -> (length (expired_folders cutoff s) < limit)%nat ->
  Swept s (delete_folders (oldest limit (expired_folders cutoff s)) s).
Proof.
  intros HT Hl. set (ids := oldest limit (expired_folders cutoff s)). pose proof (tree_shape s HT) as HS.
  assert (Hids : ids ⊆ dom (folders s)) by apply expired_folders_sub.
  assert (Hd : forall k, over_above s k <-> k ∈ doomed s ids).
  { intros k. split; [|by apply batch_doomed]. intros (i & x & Hx & Ho & Hu). apply (doomed_under s HS ids Hids). exists i. split; [|done].
    unfold ids. rewrite oldest_all by done. apply elem_of_list_to_set, expired_folders_ids. eauto. }
  split; [intros k; rewrite Hd; intros Hk; rewrite deleted_row; by rewrite decide_True|
          intros k; rewrite Hd; intros Hk; rewrite deleted_row; by rewrite decide_False| | |apply map_filter_subseteq|by apply tree_delete_folders].
  all: intros j f p Hf Hp; rewrite Hd, (deleted_file s HS ids Hids j f Hf); unfold goes; rewrite Hp; intros Hk.
  - by rewrite bool_decide_true.
  - by rewrite bool_decide_false.
Qed.
Lemma swept_after s limit s' : Tree s -> Swept (delete_folders (oldest limit (expired_folders cutoff s)) s) s' -> Swept s s'.
Proof.
  set (ids := oldest limit (expired_folders cutoff s)). intros HT [H1 H2 H3 H4 H5 H6]. pose proof (tree_shape s HT) as HS.
  assert (Hids : ids ⊆ dom (folders s)) by apply expired_folders_sub.
  assert (Hgone : forall k, k ∈ doomed s ids -> folders s' !! k = None).
  { intros k Hk. rewrite H2; [by rewrite deleted_row, decide_True|]. intros (i & x & Hx & Ho & Hu). destruct (under_row _ i k Hu) as [y Hy].
    rewrite deleted_row, decide_True in Hy by done. done. }
  split; [| | | |by etrans; [apply H5|apply map_filter_subseteq]|done].
  - intros k Hk. destruct (decide (k ∈ doomed s ids)) as [Hd|Hd]; [by apply Hgone|]. by apply H1, deleted_above.
  - intros k Hk. assert (k ∉ doomed s ids) as Hd by (intros Hd; by apply Hk, (batch_doomed s limit)).
    rewrite H2 by by rewrite deleted_above. by rewrite deleted_row, decide_False.
  - intros j f p Hf Hp Hk. destruct (decide (p ∈ doomed s ids)) as [Hd|Hd].
    + destruct (files s' !! j) as [f'|] eqn:Ef'; [|done]. apply (lookup_weaken _ _ _ _) with (1 := Ef') in H5.
      rewrite (deleted_file s HS ids Hids j f Hf) in H5. unfold goes in H5. rewrite Hp in H5. by rewrite bool_decide_true in H5.
    + apply (H3 j f p); [|done|by apply deleted_above]. rewrite (deleted_file s HS ids Hids j f Hf). unfold goes. rewrite Hp. by rewrite bool_decide_false.
  - intros j f p Hf Hp Hk. assert (p ∉ doomed s ids) as Hd by (intros Hd; by apply Hk, (batch_doomed s limit)).
    apply (H4 j f p); [|done|by rewrite deleted_above]. rewrite (deleted_file s HS ids Hids j f Hf). unfold goes. rewrite Hp. by rewrite bool_decide_false.
Qed.
Lemma folders_loop limit s fuel total : healthy s -> Tree s -> (0 < limit)%nat -> (size (folders s) < fuel)%nat ->
  exists n s', delete_expired_batch_loop fuel (SExpireFolders cutoff limit) (N.of_nat limit) total s = (Ok (Some n), s') ∧ Swept s s'.
Proof.
  revert s total. induction fuel as [|fuel IH]; intros s total Hs HT Hl Hf; [lia|].
  pose proof (oldest_size limit _ (proj1 (expired_folders_ids cutoff s))) as Hsz.
  set (ids := oldest limit (expired_folders cutoff s)) in *. assert (Hids : ids ⊆ dom (folders s)) by apply expired_folders_sub.
  rewrite (loop_step fuel _ _ total s (N.of_nat (size ids)) (delete_folders ids s)) by done.
  destruct (N.ltb_spec (N.of_nat (size ids)) (N.of_nat limit)) as [Hlt|Hge].
  - do 2 eexists. split; [done|]. apply last_batch; [done|]. lia.
  - assert (ids ≠ ∅) as Hne by (intros E; rewrite E, size_empty in Hge; lia).
    pose proof (deleted_smaller s ids HT Hids Hne) as Hsm.
    destruct (IH (delete_folders ids s) (total + N.of_nat (size ids))%N) as (n & s' & Hx & Hsw); [done|by apply tree_delete_folders|done|lia|].
    exists n, s'. split; [done|]. by apply (swept_after s limit).
Qed.
End loops.
