(* ===== verification/FolderClaims.v ===== *)
(** * What holds of folders, the trash and quotas

    The theorems about [FolderRepo], [FolderService] and [StorageUsage], with inputs at which
    their hypotheses hold. *)

From S2P Require Import Prelude.
From S2P Require Import RustStr.
From S2P Require Import DomainErrors.
From S2P Require Import Authorization.
From S2P Require Import DrivePolicies.
From S2P Require Import AuthzPort.
From S2P Require Import StoragePath.
From S2P Require Import FolderDb.
From S2P Require Import FolderRepo.
From S2P Require Import StorageUsage.
From S2P Require Import FolderService.
From S2P Require Import FolderTree.
From S2P Require Import FolderInv.
From S2P Require Import FolderOps.
From S2P Require Import FolderMoves.
From S2P Require Import FolderRetention.

#[local] Arguments lit : simpl never.

(** ** Inputs *)
Module FolderSample.
Definition text : UuidText := decimal_uuid_text.
Definition unicode : Unicode := ascii_unicode.
(** An engine that permits everything. *)
Definition permit : AuthorizationEngine unit := fun _ _ _ => mret true.
Definition forget : OwnerCache unit := fun e => e.
Definition bytes_text (n : Z) : str := dec_signed n.

(** Two drives, of a hundred bytes and without a bound, and the user 7. *)
Definition base_with (team : DrivePolicies) : Store :=
  mkStore {[ 1%N := mkFolder (lit "Home") None 100 (lit "Home") [1%N] false None None;
             2%N := mkFolder (lit "Team") None 200 (lit "Team") [2%N] false None None ]}
          ∅ {[ 100%N := mkDriveRow Personal (Some 1%N) policies_default 0 (Some 100%Z); 200%N := mkDriveRow Shared (Some 2%N) team 0 None ]}
          {[ 7%N := mkUserRow 0 1000 false ]} [(100%N, 7%N)] 1000 50 [] [].
(** [/Home/a/b] with a file in each of the two, and [/Team/c]. *)
Definition build : list Stmt :=
  [SInsertFolder 3 (lit "a") (Some 1%N) 100; SInsertFolder 4 (lit "b") (Some 3%N) 100; SInsertFolder 5 (lit "c") (Some 2%N) 200;
   SInsertFile 21 (lit "x.txt") 3 100 (lit "h1") 60; SInsertFile 22 (lit "y.txt") 4 100 (lit "h2") 10].
Definition base : Store := base_with policies_default.
Definition store : Store := run build base.
Definition srv (s : Store) : Srv unit := mkSrv s tt [].

(** Looks a row up in concrete tables. *)
Ltac row H := apply elem_of_map_to_list in H; vm_compute in H;
  repeat (apply elem_of_cons in H as [H|H]; [simplify_eq|]); try by apply not_elem_of_nil in H.
Lemma base_tree team : Tree (base_with team).
Proof.
  split; [split| | | |]; try (by vm_compute); intros k r H; try (by apply lookup_empty_Some in H); row H; try done; try (by left).
  all: eexists; split; [vm_compute; reflexivity|done].
Qed.
Lemma store_tree : Tree store.
Proof.
  apply run_tree; [apply base_tree|]. cbn [all_safe build].
  repeat (split; [intros pr H; vm_compute in H; by simplify_eq|]). exact I.
Qed.
Lemma below_dec s top t id r : Tree s -> folders s !! top = Some t -> folders s !! id = Some r -> below (f_lpath t) r = false -> ~ under s top id.
Proof. intros HT Ht Hr Hb Hu. apply (below_under s (tree_shape s HT) top t id r Ht Hr) in Hu. congruence. Qed.
(** Long afterwards: [/Home/a/b] is in the trash, and [/Team/c] on a read-only drive. *)
Definition at_time (t : Z) (s : Store) : Store :=
  mkStore (folders s) (files s) (drives s) (users s) (owners s) t (fresh s) (faults s) (meanwhile s).
Definition read_only_policies : DrivePolicies := mkPolicies false false false false false false false true None false.
Definition old_statements : list Stmt := build ++ [STrashFolder 4; STrashFolder 5].
Definition old : Store := at_time 10000000 (run old_statements (base_with read_only_policies)).
Lemma at_time_tree t s : Tree s -> Tree (at_time t s).
Proof. intros [[H1 H2 H3] H4 H5 H6 H7]. by split; [split|..]. Qed.
Lemma old_tree : Tree old.
Proof.
  apply at_time_tree, run_tree; [apply base_tree|]. cbn [all_safe old_statements build app].
  repeat (split; [first [exact I|intros pr H; vm_compute in H; by simplify_eq]|]). exact I.
Qed.
Lemma sample_tidy : tidy store 3.
Proof. split; [intros k x H _; row H; reflexivity|intros j f p H _ _; row H; reflexivity]. Qed.
End FolderSample.

(** ** The tree *)
Section tree.
Context {E : Type} `{AuthorizationEngine E} `{OwnerCache E} `{UuidText} `{Unicode}.
Variable format_bytes : Z -> str.
(** C13: Whatever clients ask for, one request after another - creating, renaming, moving,
    deleting, trashing, restoring folders, emptying the trash - whatever the authorization engine
    decides and however the database fails at any statement, the tables stay a tree: every row
    carries the path, the ancestor list and the drive that its parent gives it, names are unique
    among live siblings, and the trash remembers only places that still are.  Two conditions: no
    folder is moved into its own subtree, which the code does not check, and requests do not
    overlap, since a creation that races a move of its parent breaks the tree
    ([creation_races_move]). *)
Theorem requests_keep_tree l (v : Srv E) :
  Tree (db v) -> alone (db v) -> all_outward format_bytes l v -> Tree (db (session format_bytes l v)).
Proof. intros HT Ha Ho. by destruct (session_sound format_bytes l v (conj HT Ha) Ho). Qed.
End tree.
(** A folder is moved to the other drive, renamed, trashed and restored, and the trash emptied, while the database deadlocks and fails. *)
Definition some_requests : list (Uuid * Request) :=
  [(7%N, RMove 3 (Some 5%N)); (7%N, RRename 3 (lit "moved")); (7%N, RTrash TFolder 3); (7%N, RRestore 3);
   (7%N, RTrash TFile 21); (7%N, RCreate (lit "d") (Some 4%N)); (7%N, RDelete 5); (7%N, REmpty 200)].
Lemma requests_keep_tree_witness :
  let faulty := mkStore (folders FolderSample.store) (files FolderSample.store) (drives FolderSample.store) (users FolderSample.store)
                  (owners FolderSample.store) (now FolderSample.store) (fresh FolderSample.store)
                  [None; None; None; None; Some Deadlock; None; None; Some (SqlOther (lit "gone"))] [] in
  let after := @session unit FolderSample.permit FolderSample.forget FolderSample.text FolderSample.unicode FolderSample.bytes_text
                 some_requests (FolderSample.srv faulty) in
  Tree (db after).
Proof.
  intros faulty after.
  assert (HT : Tree faulty) by (apply (same_tables_tree FolderSample.store); [by split|apply FolderSample.store_tree]).
  apply (@requests_keep_tree unit FolderSample.permit FolderSample.forget FolderSample.text FolderSample.unicode); [done|done|].
  cbn [all_outward some_requests]. split; [|repeat (split; [exact I|]); exact I].
  eapply (FolderSample.below_dec faulty 3 _ 5); [done|vm_compute; reflexivity|vm_compute; reflexivity|by vm_compute].
Defined.

(** In such tables the materialised columns answer questions about [parent_id]: a row
    satisfies [lpath <@ top] exactly if it reaches [top] through its parents, no two folders are
    in each other, a folder shares the drive of every folder above it, and the root of its drive
    is one of those. *)
Theorem ancestors_are_materialised s top t id r :
  Tree s -> folders s !! top = Some t -> folders s !! id = Some r ->
  (below (f_lpath t) r = true <-> under s top id)
  ∧ (under s top id -> under s id top -> id = top)
  ∧ (under s top id -> f_drive r = f_drive t)
  ∧ exists d root, drives s !! f_drive r = Some d ∧ d_root d = Some root ∧ under s root id.
Proof.
  intros HT Ht Hr. pose proof (tree_shape s HT) as HS. split_and!.
  - by apply below_under.
  - intros H1 H2. by apply (under_antisym s HS id top).
  - by apply (same_drive s HS top t id r).
  - by apply under_root.
Qed.
Lemma ancestors_are_materialised_witness : exists t r,
  below (f_lpath t) r = true ∧ under FolderSample.store 3 4 ∧ f_drive r = f_drive t.
Proof.
  destruct (folders FolderSample.store !! 3%N) as [t|] eqn:Et; [|by vm_compute in Et].
  destruct (folders FolderSample.store !! 4%N) as [r|] eqn:Er; [|by vm_compute in Er].
  destruct (ancestors_are_materialised FolderSample.store 3 t 4 r FolderSample.store_tree Et Er) as (H1 & _ & H3 & _).
  assert (below (f_lpath t) r = true) as Hb by (vm_compute in Et, Er; by simplify_eq).
  exists t, r. split_and!; [done|by apply H1|by apply H3, H1].
Defined.

Section paths.
Context `{Unicode}.
(** Looking a folder up by the text of its path finds what following its names from the root
    of the drive finds, and reports a folder as missing when the walk fails - in tables that form
    a tree in which names have no slash and nothing live is in the trash. *)
Theorem path_lookup_is_walk s p drive :
  Tree s -> healthy s -> Named s -> LiveUp s -> lookup_of p ≠ [] ->
  get_folder_by_path p drive s =
  match resolve s drive (split SLASH_ (lookup_of p)) ≫= (fun id => r ← folders s !! id; Some (id, r)) with
  | Some (id, r) => row_to_folder id r s
  | None => (Err (DomainError.not_found (lit "Folder") (lookup_of p)), s)
  end.
Proof.
  intros HT Hs Hn Hu Hp. unfold get_folder_by_path. destruct (lookup_of p) as [|c text] eqn:Ep; [done|]. rewrite <- Ep.
  unfold mbind at 1, M_bind at 1, map_err_m. rewrite fetch_healthy, (find_path_resolve s HT Hn Hu) by done. cbn [map_err].
  by match goal with |- _ = match ?x with _ => _ end => destruct x as [[id r]|] end.
Qed.
End paths.
Lemma path_lookup_is_walk_witness : exists e,
  @get_folder_by_path FolderSample.unicode (StoragePath.from_joined (lit "/Home/a/b")) 100 FolderSample.store = (Ok e, FolderSample.store)
  ∧ e_id e = 4%N ∧ resolve FolderSample.store 100 [lit "Home"; lit "a"; lit "b"] = Some 4%N.
Proof.
  assert (Hn : Named FolderSample.store).
  { intros k r Hr. FolderSample.row Hr; by apply (bool_decide_unpack _). }
  assert (Hu : LiveUp FolderSample.store).
  { intros k r p pr _ _ Hpr _. FolderSample.row Hpr; done. }
  rewrite (@path_lookup_is_walk FolderSample.unicode) by (apply FolderSample.store_tree || done || by vm_compute).
  eexists. split; [vm_compute; reflexivity|]. split; [done|by vm_compute].
Defined.

(** ** Moves *)
Section moves.
Context `{UuidText} `{Unicode}.
(** C14: A move carries the whole subtree and nothing else.  The moved row gets its new parent,
    path and drive; of every folder in it exactly the part of the path and of the ancestor list
    that leads to the moved folder is replaced, and its drive; the files in it change their
    drive; every other row of the tables is as it was.  The move is refused, with
    [AlreadyExists] and no change, exactly if another live folder of that name is there. *)
Theorem move_carries_subtree s id p r pr :
  Tree s -> healthy s -> folders s !! id = Some r -> f_trashed r = false -> folders s !! p = Some pr -> ~ under s id p ->
  if taken s id p (f_name r)
  then move_folder id (Some p) s =
         (Err (DomainError.already_exists (lit "Folder") (lit "destination already contains a folder with the same name")), s)
  else exists s', move_folder id (Some p) s = row_to_folder id (placed id p pr r) s'
    ∧ folders s' !! id = Some (placed id p pr r)
    ∧ (forall k x, folders s !! k = Some x -> under s id k -> k ≠ id ->
         exists rest ids, f_path x = f_path r ++ rest ∧ f_lpath x = f_lpath r ++ ids
         ∧ folders s' !! k = Some (with_drive (f_drive pr) (with_path (f_path pr ++ SLASH_ :: f_name r ++ rest) (f_lpath pr ++ id :: ids) x)))
    ∧ (forall k, ~ under s id k -> folders s' !! k = folders s !! k)
    ∧ (forall j f q, files s !! j = Some f -> fi_folder f = Some q ->
         (under s id q -> files s' !! j = Some (file_place (Some q) (f_drive pr) (fi_name f) f))
         ∧ (~ under s id q -> files s' !! j = Some f))
    ∧ drives s' = drives s ∧ Tree s'.
Proof.
  intros HT Hs Hr Hl Hpr Hout. pose proof (tree_shape s HT) as HS. pose proof (exec_move s id p r pr HT Hr Hl Hpr Hout) as Hx.
  pose proof (exec_tree (SMoveFolder id (Some p)) s HT Hout) as HT'. set (new := placed id p pr r) in *. rewrite Hx in HT'.
  unfold move_folder, mbind, M_bind, map_err_m. unfold retry_on_deadlock. rewrite retry_once.
  2: { unfold returning. rewrite query_healthy, Hx by done. by destruct (taken s id p (f_name r)). }
  unfold returning. rewrite query_healthy, Hx by done. destruct (taken s id p (f_name r)); [done|].
  exists (moved s id r new). cbn [snd] in HT'. change ((1 =? 0)%N) with false. cbn iota.
  pose proof (moved_id s id p r pr) as Hid. fold new in Hid. split_and!; try done.
  - rewrite Hid. done.
  - intros k x Hk Hu Hne. destruct (relocate_under s HS id r new Hr k x Hk Hu) as (x' & rest & ids & Hx' & Hp & Hlp & _ & _ & _ & Heq).
    exists rest, ids. split_and!; [done|done|]. cbn. rewrite Hx', Heq by done. cbn. by rewrite <- !app_assoc.
  - intros k Hu. destruct (folders s !! k) as [x|] eqn:Ek; [by apply relocate_elsewhere|].
    destruct (folders (moved s id r new) !! k) as [x|] eqn:Ek'; [|done]. destruct (moved_row s id r new Hr k x Ek') as [y Hy]. congruence.
  - intros j f q Hf Hq. cbn. unfold relocate_files. rewrite lookup_fmap, Hf. cbn. destruct (shape_files s HS j f Hf) as (q' & qr & Hq' & Hqr & _).
    unfold in_folder. rewrite Hq. cbn. simplify_eq. rewrite Hqr.
    pose proof (below_under s HS id r q qr Hr Hqr) as Hb. split; intros Hu.
    + by rewrite (proj2 Hb Hu).
    + destruct (below (f_lpath r) qr); [tauto|done].
Qed.
End moves.
(** [/Home/a] goes into [/Team/c]. *)
Lemma move_carries_subtree_witness : exists s' e,
  @move_folder FolderSample.text FolderSample.unicode 3 (Some 5%N) FolderSample.store = (Ok e, s')
  ∧ (f_path <$> folders s' !! 4%N) = Some (lit "Team/c/a/b") ∧ (fi_drive <$> files s' !! 22%N) = Some 200%N ∧ Tree s'.
Proof.
  set (r := mkFolder (lit "a") (Some 1%N) 100 (lit "Home/a") [1; 3]%N false None None).
  set (pr := mkFolder (lit "c") (Some 2%N) 200 (lit "Team/c") [2; 5]%N false None None).
  assert (Er : folders FolderSample.store !! 3%N = Some r) by (vm_compute; reflexivity).
  assert (Ep : folders FolderSample.store !! 5%N = Some pr) by (vm_compute; reflexivity).
  pose proof (@move_carries_subtree FolderSample.text FolderSample.unicode FolderSample.store 3 5 r pr FolderSample.store_tree
    (conj eq_refl eq_refl) Er eq_refl Ep (FolderSample.below_dec FolderSample.store 3 r 5 pr FolderSample.store_tree Er Ep eq_refl)) as Hm.
  assert (Et : taken FolderSample.store 3 5 (f_name r) = false) by (vm_compute; reflexivity). rewrite Et in Hm.
  destruct Hm as (s' & Hm & _ & _ & _ & _ & _ & Ht).
  assert (Hs' : s' = (@move_folder FolderSample.text FolderSample.unicode 3 (Some 5%N) FolderSample.store).2) by (rewrite Hm; reflexivity).
  exists s'. eexists. split; [exact Hm|]. split_and!; [rewrite Hs'; vm_compute; reflexivity..|exact Ht].
Defined.

(** ** The trash *)
Section trash.
Context `{UuidText} `{Unicode}.
(** C15: Trashing a folder and restoring it gives back exactly the tables there were.  In between
    every folder in it is in the trash, and the trash lists the folder itself and nothing that is
    in it.  This needs a folder in which nothing is in the trash that was not put there by
    itself. *)
Theorem trash_then_restore s id r :
  Tree s -> healthy s -> folders s !! id = Some r -> f_trashed r = false -> tidy s id ->
  exists s1, move_to_trash id s = (Ok tt, s1) ∧ restore_from_trash id s1 = (Ok tt, s) ∧ Tree s1
    ∧ (forall k, under s id k -> exists x, folders s1 !! k = Some x ∧ f_trashed x = true)
    ∧ (files s !! id = None -> parent_trashed s (f_parent r) = false -> trash_item s1 id = Some TFolder)
    ∧ (forall k, under s id k -> k ≠ id -> files s !! k = None -> trash_item s1 k = None)
    ∧ (forall j f p, files s !! j = Some f -> fi_folder f = Some p -> under s id p -> trash_item s1 j = None).
Proof.
  intros HT Hs Hr Hl Hti. pose proof (exec_trash s id r HT Hr Hl) as Hx. pose proof (exec_restore_trashed s id r HT Hr Hl Hti) as Hy.
  set (s1 := trashed_store id r s) in *. assert (Hs1 : healthy s1) by exact Hs. exists s1. split_and!.
  - unfold move_to_trash, mbind, M_bind, map_err_m, retry_on_deadlock, execute.
    rewrite retry_once; rewrite query_healthy, Hx by done; done.
  - unfold restore_from_trash, mbind, M_bind, map_err_m, retry_on_deadlock, execute.
    rewrite retry_once; rewrite query_healthy, Hy by done; done.
  - pose proof (exec_tree (STrashFolder id) s HT I) as HT1. by rewrite Hx in HT1.
  - intros k. by apply trashed_under.
  - by apply trash_lists_top.
  - intros k Hu Hne Hf. destruct (under_row s id k Hu) as [x Hk]. by apply (trash_hides_inside s id r HT Hr k x).
  - intros j f p. by apply trash_hides_files.
Qed.
End trash.
Lemma trash_then_restore_witness : exists s1,
  @move_to_trash FolderSample.text 3 FolderSample.store = (Ok tt, s1)
  ∧ @restore_from_trash FolderSample.text 3 s1 = (Ok tt, FolderSample.store) ∧ trash_item s1 3 = Some TFolder ∧ trash_item s1 22 = None.
Proof.
  set (r := mkFolder (lit "a") (Some 1%N) 100 (lit "Home/a") [1; 3]%N false None None).
  assert (Er : folders FolderSample.store !! 3%N = Some r) by (vm_compute; reflexivity).
  destruct (@trash_then_restore FolderSample.text FolderSample.store 3 r FolderSample.store_tree (conj eq_refl eq_refl) Er eq_refl FolderSample.sample_tidy)
    as (s1 & H1 & H2 & _ & _ & H3 & _ & H4).
  exists s1. split_and!; [exact H1|exact H2|apply H3; vm_compute; reflexivity|].
  apply (H4 22%N (mkFile (lit "y.txt") (Some 4%N) 100 (lit "h2") 10 false None None) 4%N); [vm_compute; reflexivity|reflexivity|].
  apply (below_under FolderSample.store (tree_shape _ FolderSample.store_tree) 3 r 4 (mkFolder (lit "b") (Some 3%N) 100 (lit "Home/a/b") [1; 3; 4]%N false None None));
    [exact Er|vm_compute; reflexivity|vm_compute; reflexivity].
Defined.

(** ** Retention *)
Section retention.
Context `{UuidText}.
Lemma under_set_files m s i k : under (set_files m s) i k <-> under s i k.
Proof.
  split; induction 1; [eapply under_top|eapply under_child|eapply under_top|eapply under_child]; eauto.
Qed.
Lemma above_set_files cutoff m s k : over_above cutoff (set_files m s) k <-> over_above cutoff s k.
Proof. unfold over_above. by setoid_rewrite under_set_files. Qed.
Definition over (cutoff : Z) (s : Store) (p : Uuid) (f : FileRow) : Prop := file_over cutoff s f = true ∨ over_above cutoff s p.
Lemma frozen_not_above cutoff s k x : Tree s -> folders s !! k = Some x -> frozen s (f_drive x) = true -> ~ over_above cutoff s k.
Proof.
  intros HT Hk Hf (i & y & Hy & Ho & Hu). rewrite (same_drive s (tree_shape s HT) i y k x Hy Hk Hu) in Hf.
  unfold folder_over in Ho. by rewrite Hf, andb_false_r in Ho.
Qed.
(** C16: The retention sweep comes to an end, in at most as many rounds as there are rows, and
    deletes exactly what is due: a folder goes if and only if it, or one above it, has been in
    the trash for longer than the period on a drive that is not read-only; a file if it is due
    itself or its folder goes.  Read-only drives lose nothing, and what is left is a tree. *)
Theorem retention_is_exact s days fuel :
  let cutoff := (now s - days * RETENTION_DAY)%Z in
  Tree s -> healthy s -> (size (files s) + size (folders s) < fuel)%nat ->
  exists deleted n s', delete_expired_bulk fuel days s = (Ok (Some (deleted, n)), s')
    ∧ deleted = N.of_nat (length (expired_files cutoff s)) ∧ Tree s'
    ∧ (forall k, (over_above cutoff s k -> folders s' !! k = None) ∧ (~ over_above cutoff s k -> folders s' !! k = folders s !! k))
    ∧ (forall j f p, files s !! j = Some f -> fi_folder f = Some p ->
         (over cutoff s p f -> files s' !! j = None) ∧ (~ over cutoff s p f -> files s' !! j = Some f))
    ∧ (forall k x, folders s !! k = Some x -> frozen s (f_drive x) = true -> folders s' !! k = Some x)
    ∧ (forall j f, files s !! j = Some f -> frozen s (fi_drive f) = true -> files s' !! j = Some f).
Proof.
  intros cutoff HT Hs Hf. set (s0 := without_files cutoff s).
  assert (HT0 : Tree s0) by (apply tree_delete_files; [done|apply map_filter_subseteq]).
  assert (Habove : forall k, over_above cutoff s0 k <-> over_above cutoff s k) by (intros k; apply above_set_files).
  assert (Hlen : (length (expired_files cutoff s) <= size (files s))%nat).
  { unfold expired_files. rewrite length_fmap. etrans; [apply length_filter|]. by rewrite length_map_to_list. }
  destruct (folders_loop cutoff 100 s0 fuel 0) as (n & s' & Hx & [H1 H2 H3 H4 H5 H6]); [done|done|lia|change (folders s0) with (folders s); lia|].
  assert (Hfile : forall j f p, files s !! j = Some f -> fi_folder f = Some p ->
         (over cutoff s p f -> files s' !! j = None) ∧ (~ over cutoff s p f -> files s' !! j = Some f)).
  { intros j f p Hj Hp. destruct (file_over cutoff s f) eqn:Eo.
    - split; [intros _|intros Hn; by destruct Hn; left]. destruct (files s' !! j) as [f'|] eqn:Ef'; [|done].
      apply (lookup_weaken _ _ _ _) with (1 := Ef') in H5. cbn in H5. apply map_lookup_filter_Some in H5 as [H5 H7]. cbn in H7. simplify_eq. congruence.
    - assert (files s0 !! j = Some f) as Hj0 by (apply map_lookup_filter_Some; done). split.
      + intros [?|Ha]; [congruence|]. apply (H3 j f p Hj0 Hp). by apply Habove.
      + intros Hn. apply (H4 j f p Hj0 Hp). rewrite Habove. intros Ha. apply Hn. by right. }
  exists (N.of_nat (length (expired_files cutoff s))), n, s'. split_and!; [|done|done| |done| |].
  - unfold delete_expired_bulk, mbind, M_bind, gets. fold cutoff. change 1000%N with (N.of_nat 1000) at 1. rewrite files_loop by (done || lia).
    fold s0. change 100%N with (N.of_nat 100). by rewrite Hx.
  - intros k. rewrite <- Habove. split; [apply H1|apply H2].
  - intros k x Hk Hfr. rewrite H2; [done|]. rewrite Habove. by apply (frozen_not_above cutoff s k x).
  - intros j f Hj Hfr. destruct (shape_files s (tree_shape s HT) j f Hj) as (p & pr & Hp & Hpr & Hd). apply (Hfile j f p Hj Hp). intros [Ho|Ha].
    + unfold file_over in Ho. by rewrite Hfr, andb_false_r in Ho.
    + rewrite <- Hd in Hfr. by apply (frozen_not_above cutoff s p pr HT Hpr Hfr).
Qed.
End retention.
Lemma retention_is_exact_witness : exists n s',
  @delete_expired_bulk 20 30 FolderSample.old = (Ok (Some (1%N, n)), s')
  ∧ folders s' !! 4%N = None ∧ files s' !! 22%N = None ∧ is_Some (folders s' !! 5%N) ∧ is_Some (files s' !! 21%N).
Proof.
  destruct (@retention_is_exact FolderSample.old 30 20 FolderSample.old_tree) as (d & n & s' & Hx & Hd & _ & Hk & Hf & Hz & _);
    [by split|vm_compute; lia|].
  set (r := mkFolder (lit "b") (Some 3%N) 100 (lit "Home/a/b") [1; 3; 4]%N true (Some 1000%Z) (Some 3%N)).
  set (c := mkFolder (lit "c") (Some 2%N) 200 (lit "Team/c") [2; 5]%N true (Some 1000%Z) (Some 2%N)).
  assert (Hr : folders FolderSample.old !! 4%N = Some r) by (vm_compute; reflexivity).
  assert (Hc : folders FolderSample.old !! 5%N = Some c) by (vm_compute; reflexivity).
  assert (d = 1%N) as -> by (rewrite Hd; vm_compute; reflexivity).
  exists n, s'. split_and!; [exact Hx| | | |].
  - apply (Hk 4%N). exists 4%N, r. split_and!; [exact Hr|vm_compute; reflexivity|exact (under_top _ 4%N r Hr)].
  - apply (Hf 22%N (mkFile (lit "y.txt") (Some 4%N) 100 (lit "h2") 10 true (Some 1000%Z) None) 4%N); [vm_compute; reflexivity|reflexivity|].
    left. vm_compute. reflexivity.
  - rewrite (Hz 5%N c Hc) by (vm_compute; reflexivity). by eexists.
  - assert (Hs' : s' = (@delete_expired_bulk 20 30 FolderSample.old).2) by (rewrite Hx; reflexivity). rewrite Hs'. vm_compute. by eexists.
Defined.

(** ** Where the code does not keep what it promises *)
Section deviations.
#[local] Existing Instance FolderSample.text.
#[local] Existing Instance FolderSample.unicode.
#[local] Existing Instance FolderSample.permit.
#[local] Existing Instance FolderSample.forget.
Definition ask (q : Request) (v : Srv unit) : result DomainError unit * Srv unit := serve FolderSample.bytes_text 7%N q v.
(** Runs requests that all succeed. *)
Fixpoint all_ok (l : list Request) (v : Srv unit) : option (Srv unit) :=
  match l with
  | [] => Some v
  | q :: rest => match ask q v with (Ok _, v') => all_ok rest v' | (Err _, _) => None end
  end.

(** A folder that was trashed by itself does not stay in the trash whole when a folder above
    it is trashed and restored: what is in it comes back live, since only its own row carries an
    original place.  The next emptying of the trash deletes the folder, and the live file with
    it. *)
Theorem restore_revives_inner_trash : exists v1 v2,
  all_ok [RTrash TFolder 4; RTrash TFolder 3; RRestore 3] (FolderSample.srv FolderSample.store) = Some v1
  ∧ Tree (db v1) ∧ (f_trashed <$> folders (db v1) !! 4%N) = Some true
  ∧ (fi_folder <$> files (db v1) !! 22%N) = Some (Some 4%N) ∧ (fi_trashed <$> files (db v1) !! 22%N) = Some false
  ∧ all_ok [REmpty 100] v1 = Some v2 ∧ files (db v2) !! 22%N = None.
Proof.
  destruct (all_ok [RTrash TFolder 4; RTrash TFolder 3; RRestore 3] (FolderSample.srv FolderSample.store)) as [v1|] eqn:E1; [|by vm_compute in E1].
  destruct (all_ok [REmpty 100] v1) as [v2|] eqn:E2; [|vm_compute in E1; injection E1 as <-; by vm_compute in E2].
  exists v1, v2. split; [done|]. split.
  - assert (v1 = session FolderSample.bytes_text [(7%N, RTrash TFolder 4); (7%N, RTrash TFolder 3); (7%N, RRestore 3)] (FolderSample.srv FolderSample.store)) as ->.
    { vm_compute in E1. injection E1 as <-. vm_compute. reflexivity. }
    apply session_sound; [split; [apply FolderSample.store_tree|reflexivity]|]. cbn [all_outward]. repeat (split; [exact I|]). exact I.
  - vm_compute in E1. injection E1 as <-. vm_compute in E2. injection E2 as <-. by vm_compute.
Qed.
(** A folder can be moved into its own subtree: only the folder itself is refused as its own
    parent.  The two folders are then in each other, no root is above them, and the path of
    neither leads to it. *)
Theorem move_into_own_subtree_detaches : exists v',
  all_ok [RMove 3 (Some 4%N)] (FolderSample.srv FolderSample.store) = Some v'
  ∧ under (db v') 3 4 ∧ under (db v') 4 3 ∧ (forall k, under (db v') 1 k -> k ≠ 3%N ∧ k ≠ 4%N)
  ∧ (f_lpath <$> folders (db v') !! 3%N) = Some [1; 3; 4; 3]%N
  ∧ find_path (lit "Home/a") 100 (db v') = None ∧ find_path (lit "Home/a/b") 100 (db v') = None.
Proof.
  destruct (all_ok [RMove 3 (Some 4%N)] (FolderSample.srv FolderSample.store)) as [v'|] eqn:E; [|by vm_compute in E].
  set (a := mkFolder (lit "a") (Some 4%N) 100 (lit "Home/a/b/a") [1; 3; 4; 3]%N false None None).
  set (b := mkFolder (lit "b") (Some 3%N) 100 (lit "Home/a/b/a/b") [1; 3; 4; 3; 4]%N false None None).
  assert (Ha : folders (db v') !! 3%N = Some a) by (vm_compute in E; injection E as <-; vm_compute; reflexivity).
  assert (Hb : folders (db v') !! 4%N = Some b) by (vm_compute in E; injection E as <-; vm_compute; reflexivity).
  exists v'. split; [done|]. split_and!.
  - apply (under_child _ 3%N 4%N 3%N b Hb); [done|]. exact (under_top _ 3%N a Ha).
  - apply (under_child _ 4%N 3%N 4%N a Ha); [done|]. exact (under_top _ 4%N b Hb).
  - clear E. induction 1 as [x Hx|k p x Hx Hp Hu [H1 H2]]; [split; discriminate|].
    split; intros ->; [rewrite Ha in Hx|rewrite Hb in Hx]; injection Hx as <-; injection Hp as <-; [by apply H2|by apply H1].
  - by rewrite Ha.
  - vm_compute in E. injection E as <-. vm_compute. reflexivity.
  - vm_compute in E. injection E as <-. vm_compute. reflexivity.
Qed.
(** A folder can be created in a trashed one: it is live, and emptying the trash deletes it. *)
Example created_in_the_trash :
  match all_ok [RTrash TFolder 3; RCreate (lit "new") (Some 3%N)] (FolderSample.srv FolderSample.store) with
  | Some v => (f_trashed <$> folders (db v) !! 50%N) = Some false
              ∧ match all_ok [REmpty 100] v with Some v' => folders (db v') !! 50%N = None | None => False end
  | None => False
  end.
Proof. by vm_compute. Qed.
(** The root folder of a drive is deleted like any other, and the drive goes with it. *)
Example drive_root_deleted :
  match all_ok [RDelete 1] (FolderSample.srv FolderSample.store) with
  | Some v => drives (db v) !! 100%N = None ∧ files (db v) = ∅
  | None => False
  end.
Proof. by vm_compute. Qed.
(** The drive of the parent is read before the insertion: a move in between leaves the new folder with the drive the parent had. *)
Example creation_races_move :
  let s := mkStore (folders FolderSample.store) (files FolderSample.store) (drives FolderSample.store) (users FolderSample.store)
             (owners FolderSample.store) (now FolderSample.store) (fresh FolderSample.store) [] [[]; [SMoveFolder 3 (Some 5%N)]] in
  let s' := (create_folder (lit "new") (Some 3%N) s).2 in
  (f_drive <$> folders s' !! 50%N) = Some 100%N ∧ (f_drive <$> folders s' !! 3%N) = Some 200%N ∧ (f_parent <$> folders s' !! 50%N) = Some (Some 3%N).
Proof. by vm_compute. Qed.
End deviations.
