(* ===== verification/QuotaClaims.v ===== *)
(** * What holds of quotas

    The theorems about [StorageUsage]: what the checks decide, that the fused check of an upload
    is the two checks in sequence, that reconciliation makes the counters exact, and what a
    restoration asks for. *)

From S2P Require Import Prelude.
From S2P Require Import RustStr.
From S2P Require Import DomainErrors.
From S2P Require Import Authorization.
From S2P Require Import DrivePolicies.
From S2P Require Import AuthzPort.
From S2P Require Import StoragePath.
From S2P Require Import FolderDb.
From S2P Require Import FolderRepo.
From S2P Require Import StorageUsage.
From S2P Require Import FolderService.
From S2P Require Import FolderOps.
From S2P Require Import FolderMoves.
From S2P Require Import FolderClaims.

#[local] Arguments lit : simpl never.

Section checks.
Context `{UuidText}.
Variable format_bytes : Z -> str.

(** C18: The check of the user's envelope is exact as long as nothing overflows: with a bound, an
    upload passes if and only if the used and the new bytes together stay within it; without a
    bound everything passes.  A size of [2^63] bytes or more is cast to a negative number and
    passes whatever the bound; only the bound of a drive, which is computed in 128 bits, refuses
    it. *)
Theorem envelope_check_bounds used quota n :
  in_i64 used -> in_i64 quota -> (0 <= used)%Z -> (0 <= n < 2 ^ 64)%Z ->
  ((quota <= 0)%Z -> eval_user_envelope format_bytes used quota n = Ok tt)
  ∧ ((0 < quota)%Z -> (used + n < 2 ^ 63)%Z ->
       (eval_user_envelope format_bytes used quota n = Ok tt <-> (used + n <= quota)%Z))
  ∧ ((0 < quota)%Z -> (2 ^ 63 <= n)%Z -> (used <= quota)%Z ->
       eval_user_envelope format_bytes used quota n = Ok tt)
  ∧ (forall cap, (eval_drive_cap used (Some cap) n = Ok tt <-> (used + n <= cap)%Z)).
Proof.
  unfold in_i64, i64_min, i64_max. intros Hu Hq Hu0 Hn. split_and!.
  - intros Hz. unfold eval_user_envelope. by rewrite (proj2 (Z.leb_le quota 0) Hz).
  - intros Hz Hs. unfold eval_user_envelope. rewrite (proj2 (Z.leb_gt quota 0) Hz), !(wrap_i64_id n), (wrap_i64_id (used + n)) by (unfold in_i64, i64_min, i64_max; lia).
    destruct (Z.ltb_spec quota n) as [H1|H1]; [split; [done|lia]|]. destruct (Z.ltb_spec quota (used + n)) as [H2|H2]; split; (done || lia).
  - intros Hz Hb Hf. unfold eval_user_envelope. rewrite (proj2 (Z.leb_gt quota 0) Hz).
    assert (wrap_i64 n = n - 2 ^ 64)%Z as Hw. { unfold wrap_i64. rewrite <- (Z.mod_unique (n + 2 ^ 63) (2 ^ 64) 1 (n - 2 ^ 63)); lia. }
    rewrite Hw, (wrap_i64_id (used + (n - 2 ^ 64))) by (unfold in_i64, i64_min, i64_max; lia).
    rewrite (proj2 (Z.ltb_ge quota (n - 2 ^ 64))) by lia. by rewrite (proj2 (Z.ltb_ge quota (used + (n - 2 ^ 64)))) by lia.
  - intros cap. unfold eval_drive_cap. destruct (Z.ltb_spec cap (used + n)) as [H1|H1]; split; (done || lia).
Qed.

(** The one query that an upload makes decides as the check of the user and then the check of
    the drive do: the same answer, the same error, in the same order of precedence, and no
    change to the tables.  Only the text for a missing user differs. *)
Theorem fused_quota_check u drive folder n s : healthy s ->
  let both (m : UM unit) := (_ ← check_storage_quota format_bytes u n; m) : UM unit in
  let fused := check_upload_quotas format_bytes u drive n s in
  let by_folder := check_upload_quotas_by_folder format_bytes u folder n s in
  match users s !! u with
  | Some _ => fused = both (check_drive_quota drive n) s ∧ by_folder = both (check_drive_quota_by_folder folder n) s
  | None => fused = (Err (user_missing u), s) ∧ by_folder = (Err (user_missing u), s)
            ∧ (both (check_drive_quota drive n) s).1 = Err (DomainError.not_found (lit "User") (lit "User not found"))
  end.
Proof.
  intros Hs both fused by_folder. unfold both, fused, by_folder, check_upload_quotas, check_upload_quotas_by_folder, check_storage_quota, get_storage_usage,
    check_drive_quota, check_drive_quota_by_folder, check_pair, mbind, M_bind, map_err_m.
  rewrite !fetch_healthy by done. destruct (users s !! u) as [r|] eqn:Eu; cbn [map_err option_bind mbind]; [|done].
  unfold lift, mret, M_ret. cbn [fst snd]. split.
  all: destruct (eval_user_envelope format_bytes (u_used r) (u_quota r) n) as [[]|e]; [|done]; rewrite fetch_healthy by done; cbn [map_err].
  - by destruct (drives s !! drive).
  - by destruct (drive_of_folder s folder).
Qed.
End checks.
Lemma envelope_check_bounds_witness :
  eval_user_envelope dec_signed 400 1000 600 = Ok tt ∧ eval_user_envelope dec_signed 400 1000 (2 ^ 63) = Ok tt.
Proof.
  split.
  - destruct (envelope_check_bounds dec_signed 400 1000 600) as (_ & H & _); [unfold in_i64, i64_min, i64_max; lia..|]. apply H; lia.
  - destruct (envelope_check_bounds dec_signed 400 1000 (2 ^ 63)) as (_ & _ & H & _); [unfold in_i64, i64_min, i64_max; lia..|]. apply H; lia.
Defined.
Lemma fused_quota_check_witness :
  @check_upload_quotas FolderSample.text dec_signed 7 100 60 FolderSample.store = (Ok tt, FolderSample.store).
Proof.
  pose proof (@fused_quota_check FolderSample.text dec_signed 7 100 3 60 FolderSample.store (conj eq_refl eq_refl)) as H. cbv zeta in H.
  assert (Eu : users FolderSample.store !! 7%N = Some (mkUserRow 0 1000 false)) by (vm_compute; reflexivity). rewrite Eu in H.
  destruct H as [H _]. rewrite H. vm_compute. reflexivity.
Defined.

(** ** Sums over the files *)
Lemma sum_permutation l l' : l ≡ₚ l' -> sum l = sum l'.
Proof. unfold sum. induction 1; cbn; lia. Qed.
Lemma sizes_split p s id f : files s !! id = Some f ->
  sizes p s = ((if p f then fi_size f else 0) + sizes p (set_files (delete id (files s)) s))%Z.
Proof.
  intros Hf. unfold sizes. cbn [files set_files].
  rewrite (sum_permutation _ ((fun x : Uuid * FileRow => fi_size x.2) <$> filter (fun x : Uuid * FileRow => p x.2 = true) ((id, f) :: map_to_list (delete id (files s))))).
  - rewrite filter_cons. cbn [snd]. destruct (p f); [by rewrite decide_True|by rewrite decide_False].
  - apply fmap_Permutation. rewrite <- map_to_list_insert by apply lookup_delete_eq. by rewrite insert_delete_id.
Qed.
(** A row that keeps its size and its drive changes no bill. *)
Lemma billed_update s id f f' drive : files s !! id = Some f -> fi_size f' = fi_size f -> fi_drive f' = fi_drive f ->
  billed (set_files (<[id := f']> (files s)) s) drive = billed s drive.
Proof.
  intros Hf Hsz Hd. unfold billed. rewrite (sizes_split _ s id f Hf), (sizes_split _ _ id f') by (cbn; by rewrite lookup_insert_eq).
  rewrite Hsz, Hd. cbn [files set_files]. by rewrite delete_insert_eq.
Qed.

(** What a drive owes: every file on it, in the trash or not. *)
Definition charge (s : Store) (drive : Uuid) : Z :=
  map_fold (fun _ f acc => if decide (fi_drive f = drive) then (fi_size f + acc)%Z else acc) 0%Z (files s).
Lemma billed_charge s drive : billed s drive = charge s drive.
Proof.
  unfold billed, charge, sizes. rewrite map_fold_foldr. induction (map_to_list (files s)) as [|[k f] l IH]; [done|].
  rewrite filter_cons. cbn [snd foldr uncurry]. case_decide as Hd.
  - apply bool_decide_eq_true in Hd. rewrite decide_True by done. rewrite <- IH. done.
  - rewrite decide_False by (intros He; by apply Hd, bool_decide_eq_true). done.
Qed.

(** ** Reconciliation *)
Section reconciliation.
Lemma reconcile_drives_rows s : (forall k, in_i64 (billed s k)) ->
  (exists n, (reconcile_drives s).1 = Ok n ∧ ((forall k d, drives s !! k = Some d -> d_used d = billed s k) -> n = 0%N))
  ∧ (reconcile_drives s).2 = set_drives (map_imap (fun k d => Some (with_used (billed s k) d)) (drives s)) s.
Proof.
  intros Hb. unfold reconcile_drives. rewrite (proj2 (forallb_forall _ _)) by (intros x _; by apply bool_decide_eq_true).
  split; [|done]. eexists. split; [done|]. intros Hz. apply N2Z.inj.
  match goal with |- Z.of_N (N.of_nat (size ?x)) = _ => enough (size x = 0%nat) as -> by done end.
  apply map_size_empty_iff, map_empty. intros k. apply map_lookup_filter_None. right. intros d Hk Hn. by apply Hn, Hz.
Qed.
Lemma reconcile_users_rows s : (forall u, in_i64 (owned s u)) ->
  (exists n, (reconcile_users s).1 = Ok n ∧ ((forall u r, users s !! u = Some r -> u_external r = false -> u_used r = owned s u) -> n = 0%N))
  ∧ (reconcile_users s).2 = set_users (map_imap (fun k u => Some (if u_external u then u else user_with_used (owned s k) u)) (users s)) s.
Proof.
  intros Hb. unfold reconcile_users. rewrite (proj2 (forallb_forall _ _)) by (intros x _; by apply bool_decide_eq_true).
  split; [|done]. eexists. split; [done|]. intros Hz. apply N2Z.inj.
  match goal with |- Z.of_N (N.of_nat (size ?x)) = _ => enough (size x = 0%nat) as -> by done end.
  apply map_size_empty_iff, map_empty. intros k. apply map_lookup_filter_None. right. intros r Hk [He Hn]. by apply Hn, Hz.
Qed.
Lemma reconcile_run s : healthy s -> (forall k, in_i64 (billed s k)) -> (forall u, in_i64 (owned (reconcile_drives s).2 u)) ->
  let s1 := (reconcile_drives s).2 in
  exists n m, reconcile s = (Ok (n, m), (reconcile_users s1).2)
    ∧ ((forall k d, drives s !! k = Some d -> d_used d = billed s k) -> n = 0%N)
    ∧ ((forall u r, users s1 !! u = Some r -> u_external r = false -> u_used r = owned s1 u) -> m = 0%N).
Proof.
  intros Hs Hb Ho s1. destruct (reconcile_drives_rows s Hb) as ((n & Hn & Hz) & H1), (reconcile_users_rows s1 Ho) as ((m & Hm & Hy) & _).
  exists n, m. split_and!; [|done|done]. assert (Hs1 : healthy s1) by (unfold s1; rewrite H1; exact Hs).
  unfold reconcile, update_all_drives_storage_usage, update_all_users_storage_usage, mbind, M_bind, map_err_m.
  rewrite query_healthy by done. unfold s1 in *. destruct (reconcile_drives s) as [r1 t1]. cbn in *. subst r1. cbn.
  rewrite query_healthy by done. destruct (reconcile_users t1) as [r2 t2]. cbn in *. by subst r2.
Qed.
(** The reconciliation job makes the counters tell the truth: afterwards a drive is charged
    the sizes of all its files, those in the trash included, and a user of the server what their
    personal drives are charged; folders and files are untouched, and running the job again
    changes nothing. *)
Theorem reconciliation_is_exact s :
  healthy s -> (forall k, in_i64 (billed s k)) -> (forall u, in_i64 (owned (reconcile_drives s).2 u)) ->
  exists n m s', reconcile s = (Ok (n, m), s')
    ∧ folders s' = folders s ∧ files s' = files s
    ∧ (forall k, drives s' !! k = (fun d => with_used (charge s k) d) <$> drives s !! k)
    ∧ (forall u, users s' !! u = (fun r => if u_external r then r else user_with_used (owned s' u) r) <$> users s !! u)
    ∧ reconcile s' = (Ok (0%N, 0%N), s').
Proof.
  intros Hs Hb Ho. destruct (reconcile_run s Hs Hb Ho) as (n & m & Hrun & _). exists n, m.
  destruct (reconcile_drives_rows s Hb) as [_ H1]. set (s1 := (reconcile_drives s).2) in *.
  destruct (reconcile_users_rows s1 Ho) as [_ H2]. set (s2 := (reconcile_users s1).2) in *. exists s2.
  assert (Hd2 : forall k, drives s2 !! k = (fun d => with_used (billed s2 k) d) <$> drives s !! k).
  { intros k. rewrite H2, H1. cbn. rewrite map_lookup_imap. by destruct (drives s !! k). }
  assert (Hc2 : forall k, drives s2 !! k = (fun d => with_used (charge s k) d) <$> drives s !! k).
  { intros k. rewrite Hd2, <- billed_charge. rewrite H2, H1. done. }
  assert (Hu2 : forall u, users s2 !! u = (fun r => if u_external r then r else user_with_used (owned s2 u) r) <$> users s !! u).
  { intros u. rewrite H2. cbn [users set_users]. rewrite map_lookup_imap. rewrite H1 at 1. cbn [users set_drives]. by destruct (users s !! u). }
  assert (Hs2 : healthy s2) by (rewrite H2, H1; exact Hs).
  assert (Hb2 : forall k, in_i64 (billed s2 k)) by (intros k; rewrite H2, H1; apply Hb).
  assert (Hsame : (reconcile_drives s2).2 = s2).
  { destruct (reconcile_drives_rows s2 Hb2) as [_ ->]. enough (map_imap (fun k d => Some (with_used (billed s2 k) d)) (drives s2) = drives s2) as -> by by destruct s2.
    apply map_eq. intros k. rewrite map_lookup_imap, Hd2. by destruct (drives s !! k). }
  assert (Ho2 : forall u, in_i64 (owned s2 u)) by (intros u; rewrite H2; apply Ho).
  assert (Hsame' : (reconcile_users s2).2 = s2).
  { destruct (reconcile_users_rows s2 Ho2) as [_ ->].
    enough (map_imap (fun k u => Some (if u_external u then u else user_with_used (owned s2 k) u)) (users s2) = users s2) as -> by by destruct s2.
    apply map_eq. intros u. rewrite map_lookup_imap, Hu2. destruct (users s !! u) as [r|]; [|done]. cbn. by destruct (u_external r) eqn:E; cbn; rewrite ?E. }
  split_and!; [exact Hrun|by rewrite H2, H1|by rewrite H2, H1|done|done|].
  destruct (reconcile_run s2 Hs2 Hb2) as (n2 & m2 & Hrun2 & Hn2 & Hm2); [by rewrite Hsame|]. rewrite Hsame, Hsame' in Hrun2. rewrite Hrun2.
  rewrite Hn2, Hm2; [done| |].
  - rewrite Hsame. intros u r Hr He. rewrite Hu2 in Hr. destruct (users s !! u) as [r0|]; [|done]. injection Hr as <-. by destruct (u_external r0) eqn:E; [congruence|].
  - intros k d Hk. rewrite Hd2 in Hk. destruct (drives s !! k) as [d0|]; [|done]. by injection Hk as <-.
Qed.
End reconciliation.
Lemma sizes_range p s : (forall id f, files s !! id = Some f -> (0 <= fi_size f)%Z) -> (0 <= sizes p s <= sizes (fun _ => true) s)%Z.
Proof.
  intros Hz. unfold sizes. assert (Hl : forall x, x ∈ map_to_list (files s) -> (0 <= fi_size x.2)%Z) by (intros [k f] Hx%elem_of_map_to_list; by apply (Hz k)).
  induction (map_to_list (files s)) as [|[k f] l IH]; [done|].
  assert (H0 : (0 <= fi_size f)%Z) by (apply (Hl (k, f)); left). specialize (IH (fun x Hx => Hl x (list_elem_of_further x (k, f) l Hx))).
  rewrite !filter_cons. cbn [snd]. rewrite (decide_True (P := true = true)) by done.
  unfold sum in *. repeat case_decide; try done; cbn [fmap list_fmap foldr snd] in *; lia.
Qed.
Lemma store_billed k : in_i64 (billed FolderSample.store k).
Proof.
  destruct (sizes_range (fun f => bool_decide (fi_drive f = k)) FolderSample.store) as [H1 H2]; [intros id f H; FolderSample.row H; done|].
  assert (sizes (fun _ => true) FolderSample.store = 70%Z) as E by (vm_compute; reflexivity). rewrite E in H2.
  unfold billed, in_i64, i64_min, i64_max. lia.
Qed.
Lemma store_owned u : in_i64 (owned (reconcile_drives FolderSample.store).2 u).
Proof.
  assert (owned (reconcile_drives FolderSample.store).2 7 = 70%Z) as E7 by (vm_compute; reflexivity).
  destruct (decide (u = 7%N)) as [->|Hne]; [rewrite E7; unfold in_i64, i64_min, i64_max; lia|].
  unfold owned. assert (owners (reconcile_drives FolderSample.store).2 = [(100%N, 7%N)]) as -> by (vm_compute; reflexivity).
  rewrite filter_cons_False by (cbn; congruence). cbn. unfold in_i64, i64_min, i64_max. lia.
Qed.
Lemma reconciliation_is_exact_witness : exists n m s', reconcile FolderSample.store = (Ok (n, m), s')
  ∧ (d_used <$> drives s' !! 100%N) = Some 70%Z ∧ (u_used <$> users s' !! 7%N) = Some 70%Z ∧ reconcile s' = (Ok (0%N, 0%N), s').
Proof.
  destruct (reconciliation_is_exact FolderSample.store (conj eq_refl eq_refl) store_billed store_owned) as (n & m & s' & Hr & _ & _ & _ & _ & Ha).
  exists n, m, s'. assert (s' = (reconcile FolderSample.store).2) as Hs' by (rewrite Hr; reflexivity).
  split; [exact Hr|]. split; [rewrite Hs'; vm_compute; reflexivity|]. split; [rewrite Hs'; vm_compute; reflexivity|exact Ha].
Defined.

(** ** Restoring *)
Section restoring.
Context {E : Type} `{AuthorizationEngine E} `{OwnerCache E} `{UuidText} `{Unicode}.
Variable format_bytes : Z -> str.
(** Restoring a file from the trash asks for its bytes a second time: a drive is charged for
    its trash, yet the check adds the size of the file to the charge.  On a drive whose counter
    is exact and within its bound, the restoration is refused for lack of space as soon as the
    file does not fit in once more - though restoring it would charge the drive nothing. *)
Theorem restore_counts_twice (v : Srv E) id caller f p pr d u cap e' :
  let s := db v in
  healthy s -> files s !! id = Some f -> fi_trashed f = true -> parent_trashed s (fi_folder f) = false ->
  fi_folder f = Some p -> folders s !! p = Some pr -> drives s !! f_drive pr = Some d ->
  d_used d = billed s (f_drive pr) -> d_quota d = Some cap -> (d_used d <= cap)%Z -> (0 <= fi_size f)%Z -> (cap < d_used d + fi_size f)%Z ->
  users s !! caller = Some u -> (u_quota u <= 0)%Z ->
  require (User caller) Delete (Authorization.File id) (engine v) = (Ok tt, e') ->
  (exists err, restore_item format_bytes id caller v = (Err err, mkSrv s e' (hooked v)) ∧ kind err = QuotaExceeded)
  ∧ forall s', exec (SRestoreFile id) s = (Ok 1%N, s') -> billed s' (f_drive pr) = billed s (f_drive pr).
Proof.
  intros s Hs Hf Ht Hp Hfo Hpr Hd Hused Hq Hcap Hsz Hover Hu Huq Hok. split.
  - eexists. split.
    + unfold restore_item, mbind, M_bind, on_db, get_trash_item, map_err_m. fold s. rewrite fetch_healthy by done. cbn [map_err].
      unfold trash_item. rewrite Hf, Ht, Hp. cbn [andb negb]. unfold authorize, on_engine. cbn [engine trash_resource]. rewrite Hok.
      unfold restore_quota, trashed_file_destination, mbind, M_bind, on_db, map_err_m. cbn [db engine hooked].
      rewrite query_healthy, Hf, Ht, Hfo by done. cbn [map_err]. unfold check_storage_quota, get_storage_usage, mbind, M_bind, map_err_m. cbn [db].
      rewrite fetch_healthy, Hu by done. cbn [map_err]. unfold mret, M_ret, lift, eval_user_envelope. cbn [fst snd].
      rewrite (proj2 (Z.leb_le (u_quota u) 0) Huq). cbn [map_err db engine hooked].
      unfold check_drive_quota_by_folder, mbind, M_bind, map_err_m, drive_of_folder. rewrite fetch_healthy by done. cbn [map_err mbind option_bind].
      rewrite Hpr. cbn [option_bind mbind]. rewrite Hd. unfold lift, eval_drive_cap. rewrite Hq, Z.max_l by done.
      rewrite (proj2 (Z.ltb_lt cap (d_used d + fi_size f)) Hover). cbn [map_err]. reflexivity.
    + reflexivity.
  - intros s' Hx. cbn [exec] in Hx. unfold on_file in Hx. rewrite Hf, Ht in Hx. destruct (folder_there _ _); [|done].
    unfold commit_files in Hx. destruct (unique_files _); [|done]. injection Hx as <-. by apply (billed_update s id f).
Qed.
End restoring.
(** The file of 60 bytes is in the trash of the drive of 100, which is charged 70. *)
Definition charged : Store :=
  let s := (reconcile (run [STrashFile 21] FolderSample.store)).2 in set_users (<[8%N := mkUserRow 0 0 true]> (users s)) s.
Lemma restore_counts_twice_witness : exists err,
  @restore_item unit FolderSample.permit FolderSample.text FolderSample.bytes_text 21 8 (FolderSample.srv charged) = (Err err, FolderSample.srv charged)
  ∧ kind err = QuotaExceeded.
Proof.
  set (f := mkFile (lit "x.txt") (Some 3%N) 100 (lit "h1") 60 true (Some 1000%Z) (Some 3%N)).
  set (pr := mkFolder (lit "a") (Some 1%N) 100 (lit "Home/a") [1; 3]%N false None None).
  set (d := mkDriveRow Personal (Some 1%N) policies_default 70 (Some 100%Z)).
  refine (proj1 (@restore_counts_twice unit FolderSample.permit FolderSample.text FolderSample.bytes_text (FolderSample.srv charged) 21 8 f 3 pr d
    (mkUserRow 0 0 true) 100 tt (conj eq_refl eq_refl) _ _ _ _ _ _ _ _ _ _ _ _ _ _)); vm_compute; try reflexivity; discriminate.
Defined.

(** ** Counters stay what their columns hold *)
(** Sizes and counters are never negative and fit a [bigint]. *)
Definition Counted (s : Store) : Prop :=
  (forall id f, files s !! id = Some f -> (0 <= fi_size f)%Z)
  ∧ (forall k d, drives s !! k = Some d -> (0 <= d_used d)%Z ∧ in_i64 (d_used d))
  ∧ (forall u r, users s !! u = Some r -> (0 <= u_used r)%Z ∧ in_i64 (u_used r)).
Definition Counted_alone (s : Store) : Prop := Counted s ∧ alone s.
Lemma counted_quiet : quiet Counted_alone.
Proof.
  split; [by intros s []|]. intros s s' [Hf Hfi Hd Hu Ho Hn Hm] [(H1 & H2 & H3) Ha]. unfold Counted_alone, Counted, alone.
  by rewrite Hfi, Hd, Hu, Hm.
Qed.
Lemma counted_query {T} (q : Store -> result SqlError T * Store) : (forall s, Counted_alone s -> Counted_alone (q s).2) -> keeps Counted_alone (query q).
Proof.
  intros Hq s Hs. destruct counted_quiet as [Ha Ht]. destruct (query_alone q s (Ha s Hs)) as (s0 & H0 & [[e ->]| ->]); [by apply (Ht s)|].
  by apply Hq, (Ht s).
Qed.
Lemma adjusted_counted used delta n : adjusted used delta = Ok n -> (0 <= n)%Z ∧ in_i64 n.
Proof.
  unfold adjusted, to_bigint. case_bool_decide as Hb; [|done]. intros [= <-]. unfold in_i64, i64_min, i64_max in *. lia.
Qed.
Lemma bump_drive_counted drive delta s : Counted_alone s -> Counted_alone (bump_drive drive delta s).2.
Proof.
  intros [(H1 & H2 & H3) Ha]. unfold bump_drive. destruct (drives s !! drive) as [d|] eqn:Ed; [|done].
  destruct (adjusted (d_used d) delta) as [n|e] eqn:Ea; [|done]. split; [|done]. split_and!; [done| |done].
  intros k d' Hk. cbn in Hk. apply lookup_insert_Some in Hk as [[-> <-]|[_ Hk]]; [by eapply adjusted_counted|by apply (H2 k)].
Qed.
Lemma bump_user_counted u delta s : Counted_alone s -> Counted_alone (bump_user u delta s).2.
Proof.
  intros [(H1 & H2 & H3) Ha]. unfold bump_user. destruct (users s !! u) as [d|] eqn:Ed; [|done].
  destruct (adjusted (u_used d) delta) as [n|e] eqn:Ea; [|done]. split; [|done]. split_and!; [done|done|].
  intros k d' Hk. cbn in Hk. apply lookup_insert_Some in Hk as [[-> <-]|[_ Hk]]; [by eapply adjusted_counted|by apply (H3 k)].
Qed.
Lemma billed_counted s k : Counted s -> (0 <= billed s k)%Z.
Proof. intros (H1 & _). by apply (sizes_range (fun f => bool_decide (fi_drive f = k)) s H1). Qed.
Lemma owned_counted s u : Counted s -> (0 <= owned s u)%Z.
Proof.
  intros (_ & H2 & _). unfold owned. induction (filter _ (owners s)) as [|x l IH]; [done|]. unfold sum in *. cbn [fmap list_fmap foldr].
  destruct (drives s !! x.1) as [d|] eqn:Ed; [|lia]. destruct (H2 x.1 d Ed). case_decide; lia.
Qed.
Lemma reconcile_drives_counted s : Counted_alone s -> Counted_alone (reconcile_drives s).2.
Proof.
  intros [HC Ha]. pose proof HC as (H1 & H2 & H3). unfold reconcile_drives. destruct (forallb _ _) eqn:Ef; [|done]. split; [|done]. split_and!; [done| |done].
  intros k d' Hk. cbn in Hk. rewrite map_lookup_imap in Hk. destruct (drives s !! k) as [d|] eqn:Ed; [|done]. injection Hk as <-. cbn.
  split; [by apply billed_counted|]. rewrite forallb_forall in Ef. apply elem_of_map_to_list, list_elem_of_In, Ef, bool_decide_eq_true in Ed. done.
Qed.
Lemma reconcile_users_counted s : Counted_alone s -> Counted_alone (reconcile_users s).2.
Proof.
  intros [HC Ha]. pose proof HC as (H1 & H2 & H3). unfold reconcile_users. destruct (forallb _ _) eqn:Ef; [|done]. split; [|done]. split_and!; [done|done|].
  intros k r' Hk. cbn in Hk. rewrite map_lookup_imap in Hk. destruct (users s !! k) as [r|] eqn:Er; [|done]. cbn in Hk. injection Hk as <-.
  destruct (u_external r); [by apply (H3 k)|]. cbn. split; [by apply owned_counted|].
  rewrite forallb_forall in Ef. apply elem_of_map_to_list, list_elem_of_In, Ef, bool_decide_eq_true in Er. done.
Qed.

Section counters.
Context `{UuidText}.
Inductive UsageOp :=
| UAddUser (u : Uuid) (delta : Z)
| UAddUserIfPersonal (u folder : Uuid) (delta : Z)
| UAddDrive (drive : Uuid) (delta : Z)
| UAddDriveByFolder (folder : Uuid) (delta : Z)
| UUpdateUser (u : Uuid)
| UReconcile.
Definition usage_op (op : UsageOp) : M Store DomainError unit :=
  match op with
  | UAddUser u delta => add_user_storage_usage_delta u delta
  | UAddUserIfPersonal u folder delta => add_user_storage_usage_delta_if_personal u folder delta
  | UAddDrive drive delta => add_drive_storage_usage_delta drive delta
  | UAddDriveByFolder folder delta => add_drive_storage_usage_delta_by_folder folder delta
  | UUpdateUser u => _ ← update_user_storage_usage u; mret tt
  | UReconcile => _ ← attempt (_ ← update_all_drives_storage_usage; _ ← update_all_users_storage_usage; mret tt); mret tt
  end.
Lemma usage_op_counted op : keeps Counted_alone (usage_op op).
Proof.
  destruct op; cbn [usage_op]; unfold add_user_storage_usage_delta, add_user_storage_usage_delta_if_personal, add_drive_storage_usage_delta,
    add_drive_storage_usage_delta_by_folder, update_user_storage_usage, update_all_drives_storage_usage, update_all_users_storage_usage; keep; apply counted_query; intros s Hs.
  - by apply bump_user_counted.
  - destruct (drive_of_folder s folder) as [d|]; [|done]. case_decide; [by apply bump_user_counted|done].
  - by apply bump_drive_counted.
  - destruct (folders s !! folder) as [r|]; [by apply bump_drive_counted|done].
  - destruct (users s !! u) as [r|] eqn:Er; [|done]. unfold to_bigint. case_bool_decide as Hb; [|done]. destruct Hs as [HC Ha]. pose proof HC as (H1 & H2 & H3).
    split; [|done]. split_and!; [done|done|]. intros k r' Hk. cbn in Hk. apply lookup_insert_Some in Hk as [[-> <-]|[_ Hk]]; [|by apply (H3 k)].
    split; [by apply owned_counted|done].
  - by apply reconcile_drives_counted.
  - by apply reconcile_users_counted.
Qed.
(** C17: Whatever sequence of adjustments and reconciliations runs, with whatever deltas and
    database errors, every counter of a drive and of a user stays a number a [bigint] column
    holds and is never negative: an adjustment below zero is cut off at zero, one beyond the
    range is an error and changes nothing. *)
Theorem counters_stay_typed ops s :
  Counted s -> alone s -> Counted (foldl (fun s op => (usage_op op s).2) s ops).
Proof.
  intros HC Ha. enough (Counted_alone (foldl (fun s op => (usage_op op s).2) s ops)) as H0 by apply H0.
  assert (Hs : Counted_alone s) by done. clear HC Ha. revert s Hs. induction ops as [|op ops IH]; intros s Hs; [done|]. cbn. by apply IH, usage_op_counted.
Qed.
End counters.
Lemma counters_stay_typed_witness :
  let after := foldl (fun s op => (@usage_op FolderSample.text op s).2) FolderSample.store
                 [UReconcile; UAddDrive 100 (-1000); UAddUser 7 (2 ^ 63); UAddUserIfPersonal 7 3 5; UUpdateUser 7] in
  Counted after.
Proof.
  apply (@counters_stay_typed FolderSample.text); [|reflexivity].
  split_and!; intros k x H; FolderSample.row H; vm_compute; repeat split; discriminate.
Defined.
