(* ===== verification/SessionDb.v ===== *)
(** * Sessions, magic links and device codes: the tables

    The rows of [auth.sessions], [auth.magic_link_tokens] and [auth.device_codes]
    ([src/src/domain/entities/session.rs], [magic_link_token.rs], [device_code.rs]) and the
    statements of [src/src/infrastructure/repositories/pg/session_pg_repository.rs],
    [magic_link_token_pg_repository.rs] and [device_code_pg_repository.rs].

    A statement, a reading of the clock and a random draw are commands; a request is a program
    over them, so that requests interleave at commands.  Times are nanoseconds.  Left out are
    columns that nothing here reads: addresses, user agents, stamps of creation and of the last
    login, and the verification addresses of a device code.  The random generator never repeats
    itself: a draw is the next of a counter. *)

From S2P Require Import Prelude.
From S2P Require Import RustStr.
From S2P Require Import DomainErrors.

#[local] Arguments lit : simpl never.

(** ** Rows *)
Inductive SessionOrigin := Password | Opaque | MagicLink | Oidc | Device | Unknown.
Record Session := mkSession {
  s_user : Uuid;
  s_token : str;
  s_expires : Z;
  s_revoked : bool;
  s_family : Uuid;
  s_id_token : option str;
  s_sid : option str;
  s_jkt : option str;
  s_origin : SessionOrigin;
}.
Inductive MagicLinkResourceKind := LFile | LFolder.
Inductive MagicLinkStatus := LPending | LUsed | LExpired.
Record MagicLinkToken := mkLink {
  l_token : str;
  l_user : Uuid;
  l_status : MagicLinkStatus;
  l_expires : Z;
  l_resource : option (MagicLinkResourceKind * Uuid);
  l_challenge : option str;
}.
Inductive DeviceCodeStatus := DPending | DAuthorized | DDenied | DExpired.
Record DeviceCode := mkCode {
  c_device : str;
  c_user_code : str;
  c_client : str;
  c_scopes : str;
  c_status : DeviceCodeStatus;
  c_user : option Uuid;
  c_access : option str;
  c_refresh : option str;
  c_expires : Z;
  c_interval : Z;
  c_last_poll : option Z;
}.
(** Of a row of [auth.users]. *)
Record Account := mkAccount {
  a_active : bool;
  a_issuer : option str;
  a_subject : option str;
  a_username : option str;
  a_email : str;
  a_role : str;
  a_force : bool;
}.
#[global] Instance SessionOrigin_eq_dec : EqDecision SessionOrigin. Proof. solve_decision. Defined.
#[global] Instance MagicLinkResourceKind_eq_dec : EqDecision MagicLinkResourceKind. Proof. solve_decision. Defined.
#[global] Instance MagicLinkStatus_eq_dec : EqDecision MagicLinkStatus. Proof. solve_decision. Defined.
#[global] Instance DeviceCodeStatus_eq_dec : EqDecision DeviceCodeStatus. Proof. solve_decision. Defined.

Record Auth := mkAuth {
  sessions : gmap Uuid Session;
  links : gmap Uuid MagicLinkToken;
  codes : gmap Uuid DeviceCode;
  accounts : gmap Uuid Account;
  verified : gset Uuid;
  (** identifiers of logout tokens seen *)
  jtis : gset str;
  now : Z;
  (** the next random draw *)
  fresh : N;
  (** of the next statements: the error, if the database fails *)
  faults : list (option str);
}.
Definition set_sessions (m : gmap Uuid Session) (s : Auth) : Auth :=
  mkAuth m (links s) (codes s) (accounts s) (verified s) (jtis s) (now s) (fresh s) (faults s).
Definition set_links (m : gmap Uuid MagicLinkToken) (s : Auth) : Auth :=
  mkAuth (sessions s) m (codes s) (accounts s) (verified s) (jtis s) (now s) (fresh s) (faults s).
Definition set_codes (m : gmap Uuid DeviceCode) (s : Auth) : Auth :=
  mkAuth (sessions s) (links s) m (accounts s) (verified s) (jtis s) (now s) (fresh s) (faults s).

(** ** Commands *)
Notation sqlr := (result str).
(** Of a transaction that inserts a session: what failed. *)
Inductive tx_error := TxFailed (e : str) | StampFailed (e : str).
Inductive cmd :=
| QSessionByToken (token : str)
| QSessionById (id : Uuid)
| QCreateSession (id : Uuid) (row : Session)
| QRotate (old id : Uuid) (row : Session)
| QRevoke (id : Uuid)
| QRevokeUser (user : Uuid)
| QRevokeOthers (user keep : Uuid)
| QRevokeFamily (family : Uuid)
| QRevokeSid (sid : str)
| QUserBySubject (issuer subject : str)
| QDeleteSessionsBefore (cutoff : Z)
| QBindJkt (id : Uuid) (jkt : str)
| QUser (id : Uuid)
| QForce (id : Uuid)
| QVerifyEmail (id : Uuid)
| QCreateLink (id : Uuid) (row : MagicLinkToken)
| QLinkByToken (token : str)
| QMarkUsed (id : Uuid)
| QDeleteExpiredLinks
| QCreateCode (id : Uuid) (row : DeviceCode)
| QCodeByDevice (device_code : str)
| QPendingByUserCode (user_code : str)
| QUpdateCode (id : Uuid) (row : DeviceCode)
| QDeleteExpiredCodes
| QCodesOfUser (user : Uuid)
| QDeleteCode (id : Uuid)
| CJtiSeen (jti : str)
| CJtiInsert (jti : str)
| CNow
| CRandom.
(** What a command answers. *)
Definition answer (c : cmd) : Set :=
  match c with
  | QSessionByToken _ => sqlr (option (Uuid * Session))
  | QSessionById _ => sqlr (option Session)
  | QCreateSession _ _ | QRotate _ _ _ => result tx_error unit
  | QRevoke _ | QVerifyEmail _ | QCreateLink _ _ | QCreateCode _ _ | QUpdateCode _ _ | QDeleteCode _ => sqlr unit
  | QRevokeUser _ | QRevokeOthers _ _ | QRevokeFamily _ | QDeleteSessionsBefore _ | QBindJkt _ _ | QDeleteExpiredLinks | QDeleteExpiredCodes => sqlr N
  | QRevokeSid _ => sqlr (list Uuid)
  | QUserBySubject _ _ => sqlr (option Uuid)
  | QUser _ => sqlr (option Account)
  | QForce _ | QMarkUsed _ => sqlr bool
  | QLinkByToken _ => sqlr (option (Uuid * MagicLinkToken))
  | QCodeByDevice _ | QPendingByUserCode _ => sqlr (option (Uuid * DeviceCode))
  | QCodesOfUser _ => sqlr (list (Uuid * DeviceCode))
  | CJtiSeen _ => bool
  | CJtiInsert _ => unit
  | CNow => Z
  | CRandom => N
  end.

Definition revoked (r : Session) : Session :=
  mkSession (s_user r) (s_token r) (s_expires r) true (s_family r) (s_id_token r) (s_sid r) (s_jkt r) (s_origin r).
Definition with_jkt (jkt : option str) (r : Session) : Session :=
  mkSession (s_user r) (s_token r) (s_expires r) (s_revoked r) (s_family r) (s_id_token r) (s_sid r) jkt (s_origin r).
Definition with_id_token (t : option str) (r : Session) : Session :=
  mkSession (s_user r) (s_token r) (s_expires r) (s_revoked r) (s_family r) t (s_sid r) (s_jkt r) (s_origin r).
Definition with_sid (t : option str) (r : Session) : Session :=
  mkSession (s_user r) (s_token r) (s_expires r) (s_revoked r) (s_family r) (s_id_token r) t (s_jkt r) (s_origin r).
Definition link_status (st : MagicLinkStatus) (l : MagicLinkToken) : MagicLinkToken :=
  mkLink (l_token l) (l_user l) st (l_expires l) (l_resource l) (l_challenge l).
(** The columns [update_device_code] writes. *)
Definition update_code (r c : DeviceCode) : DeviceCode :=
  mkCode (c_device c) (c_user_code c) (c_client c) (c_scopes c) (c_status r) (c_user r) (c_access r) (c_refresh r)
         (c_expires c) (c_interval c) (c_last_poll r).

(** [SELECT .. WHERE p LIMIT 1] *)
Definition find {V} (p : V -> bool) (m : gmap Uuid V) : option (Uuid * V) :=
  head (filter (fun x : Uuid * V => p x.2 = true) (map_to_list m)).
Definition taken {V} (p : V -> bool) (m : gmap Uuid V) : bool := match find p m with Some _ => true | None => false end.
Definition token_is (token : str) (r : Session) : bool := bool_decide (s_token r = token).
Definition duplicate_key : str := lit "error returned from database: duplicate key value violates unique constraint".
(** [INSERT]: the primary key and a unique column. *)
Definition insert_unique {V} (p : V -> bool) (id : Uuid) (row : V) (m : gmap Uuid V) : option (gmap Uuid V) :=
  if bool_decide (is_Some (m !! id)) || taken p m then None else Some (<[id := row]> m).
(** [UPDATE auth.sessions SET revoked = true WHERE p AND NOT revoked] *)
Definition hit (p : Session -> bool) (r : Session) : bool := p r && negb (s_revoked r).
Definition revoke_where (p : Session -> bool) (m : gmap Uuid Session) : gmap Uuid Session :=
  (fun r => if hit p r then revoked r else r) <$> m.
Definition rows_hit (p : Session -> bool) (m : gmap Uuid Session) : list (Uuid * Session) :=
  filter (fun x : Uuid * Session => hit p x.2 = true) (map_to_list m).
Definition delete_where {V} (p : V -> bool) (m : gmap Uuid V) : gmap Uuid V := filter (fun x : Uuid * V => p x.2 = false) m.
Definition count_where {V} (p : V -> bool) (m : gmap Uuid V) : N := N.of_nat (size (filter (fun x : Uuid * V => p x.2 = true) m)).
Definition redeemable (t : Z) (l : MagicLinkToken) : bool := bool_decide (l_status l = LPending) && (t <? l_expires l)%Z.
Definition stale_link (t : Z) (l : MagicLinkToken) : bool := bool_decide (l_status l = LPending) && (l_expires l <? t)%Z.
Definition stale_code (t : Z) (c : DeviceCode) : bool :=
  (c_expires c <? t)%Z && (bool_decide (c_status c = DPending) || bool_decide (c_status c = DExpired)).
Definition pending_code (user_code : str) (t : Z) (c : DeviceCode) : bool :=
  bool_decide (c_user_code c = user_code) && bool_decide (c_status c = DPending) && (t <? c_expires c)%Z.

(** A statement that may fail. *)
Definition next_fault (s : Auth) : option str := default None (head (faults s)).
Definition drop_fault (s : Auth) : Auth :=
  mkAuth (sessions s) (links s) (codes s) (accounts s) (verified s) (jtis s) (now s) (fresh s) (tail (faults s)).
Definition sql {T} (f : Auth -> sqlr T * Auth) (s : Auth) : sqlr T * Auth :=
  match next_fault s with Some e => (Err e, drop_fault s) | None => f (drop_fault s) end.
(** [with_transaction]: the change of the sessions, then the stamp of the login on the user's
    row; a failure rolls both back. *)
Definition insert_tx (f : gmap Uuid Session -> option (gmap Uuid Session)) (s : Auth) : result tx_error unit * Auth :=
  let s1 := drop_fault s in
  match next_fault s with
  | Some e => (Err (TxFailed e), s1)
  | None =>
      match f (sessions s1) with
      | None => (Err (TxFailed duplicate_key), s1)
      | Some m =>
          match next_fault s1 with
          | Some e => (Err (StampFailed e), drop_fault s1)
          | None => (Ok tt, set_sessions m (drop_fault s1))
          end
      end
  end.
Definition read {T} (f : Auth -> T) : Auth -> sqlr T * Auth := sql (fun s => (Ok (f s), s)).
Definition write_sessions {T} (f : gmap Uuid Session -> T * gmap Uuid Session) : Auth -> sqlr T * Auth :=
  sql (fun s => let (v, m) := f (sessions s) in (Ok v, set_sessions m s)).

Definition exec (c : cmd) : Auth -> answer c * Auth :=
  match c return Auth -> answer c * Auth with
  | QSessionByToken token => read (fun s => find (token_is token) (sessions s))
  | QSessionById id => read (fun s => sessions s !! id)
  | QCreateSession id row => insert_tx (insert_unique (token_is (s_token row)) id row)
  | QRotate old id row => insert_tx (fun m => insert_unique (token_is (s_token row)) id row (alter revoked old m))
  | QRevoke id => write_sessions (fun m => (tt, alter revoked id m))
  | QRevokeUser user =>
      let p r := bool_decide (s_user r = user) in
      write_sessions (fun m => (N.of_nat (length (rows_hit p m)), revoke_where p m))
  | QRevokeOthers user keep =>
      write_sessions (fun m =>
        (N.of_nat (length (filter (fun x : Uuid * Session => x.1 ≠ keep) (rows_hit (fun r => bool_decide (s_user r = user)) m))),
         map_imap (fun k r => Some (if negb (bool_decide (k = keep)) && hit (fun r => bool_decide (s_user r = user)) r then revoked r else r)) m))
  | QRevokeFamily family =>
      let p r := bool_decide (s_family r = family) in
      write_sessions (fun m => (N.of_nat (length (rows_hit p m)), revoke_where p m))
  | QRevokeSid sid =>
      let p r := bool_decide (s_sid r = Some sid) in
      write_sessions (fun m => ((fun x : Uuid * Session => s_user x.2) <$> rows_hit p m, revoke_where p m))
  | QUserBySubject issuer subject => read (fun s =>
      fst <$> find (fun a => bool_decide (a_issuer a = Some issuer) && bool_decide (a_subject a = Some subject)) (accounts s))
  | QDeleteSessionsBefore cutoff =>
      let p r := (s_expires r <? cutoff)%Z in
      write_sessions (fun m => (count_where p m, delete_where p m))
  | QBindJkt id jkt =>
      write_sessions (fun m =>
        match m !! id with
        | Some r => match s_jkt r with None => (1%N, <[id := with_jkt (Some jkt) r]> m) | Some _ => (0%N, m) end
        | None => (0%N, m)
        end)
  | QUser id => read (fun s => accounts s !! id)
  | QForce id => read (fun s => default false (a_force <$> accounts s !! id))
  | QVerifyEmail id => sql (fun s =>
      (Ok tt, mkAuth (sessions s) (links s) (codes s) (accounts s) ({[ id ]} ∪ verified s) (jtis s) (now s) (fresh s) (faults s)))
  | QCreateLink id row => sql (fun s =>
      match insert_unique (fun l => bool_decide (l_token l = l_token row)) id row (links s) with
      | Some m => (Ok tt, set_links m s) | None => (Err duplicate_key, s) end)
  | QLinkByToken token => read (fun s => find (fun l => bool_decide (l_token l = token)) (links s))
  | QMarkUsed id => sql (fun s =>
      match links s !! id with
      | Some l => if redeemable (now s) l then (Ok true, set_links (<[id := link_status LUsed l]> (links s)) s) else (Ok false, s)
      | None => (Ok false, s)
      end)
  | QDeleteExpiredLinks => sql (fun s => (Ok (count_where (stale_link (now s)) (links s)), set_links (delete_where (stale_link (now s)) (links s)) s))
  | QCreateCode id row => sql (fun s =>
      if taken (fun c => bool_decide (c_user_code c = c_user_code row)) (codes s) then (Err duplicate_key, s)
      else match insert_unique (fun c => bool_decide (c_device c = c_device row)) id row (codes s) with
           | Some m => (Ok tt, set_codes m s) | None => (Err duplicate_key, s) end)
  | QCodeByDevice device_code => read (fun s => find (fun c => bool_decide (c_device c = device_code)) (codes s))
  | QPendingByUserCode user_code => read (fun s => find (pending_code user_code (now s)) (codes s))
  | QUpdateCode id row => sql (fun s => (Ok tt, set_codes (alter (update_code row) id (codes s)) s))
  | QDeleteExpiredCodes => sql (fun s => (Ok (count_where (stale_code (now s)) (codes s)), set_codes (delete_where (stale_code (now s)) (codes s)) s))
  | QCodesOfUser user => read (fun s => filter (fun x : Uuid * DeviceCode => c_user x.2 = Some user) (map_to_list (codes s)))
  | QDeleteCode id => sql (fun s => (Ok tt, set_codes (delete id (codes s)) s))
  | CJtiSeen jti => fun s => (bool_decide (jti ∈ jtis s), s)
  | CJtiInsert jti => fun s =>
      (tt, mkAuth (sessions s) (links s) (codes s) (accounts s) (verified s) ({[ jti ]} ∪ jtis s) (now s) (fresh s) (faults s))
  | CNow => fun s => (now s, s)
  | CRandom => fun s =>
      (fresh s, mkAuth (sessions s) (links s) (codes s) (accounts s) (verified s) (jtis s) (now s) (N.succ (fresh s)) (faults s))
  end.

(** ** Programs *)
Inductive prog (A : Type) : Type :=
| Ret (a : A)
| Do (c : cmd) (k : answer c -> prog A).
Arguments Ret {A} a.
Arguments Do {A} c k.
Fixpoint pbind {A B} (p : prog A) (f : A -> prog B) : prog B :=
  match p with Ret a => f a | Do c k => Do c (fun x => pbind (k x) f) end.
Definition call (c : cmd) : prog (answer c) := Do c Ret.
(** [p.await?] *)
Notation "x '←!' p ; q" := (pbind p (fun r => match r with Ok x => q | Err e => Ret (Err e) end))
  (at level 20, p at level 100, q at level 200).
(** A program that nobody interrupts. *)
Fixpoint run {A} (p : prog A) (s : Auth) : A * Auth :=
  match p with Ret a => (a, s) | Do c k => let (x, s') := exec c s in run (k x) s' end.
Lemma run_pbind {A B} (p : prog A) (f : A -> prog B) s : run (pbind p f) s = let (a, s') := run p s in run (f a) s'.
Proof. revert s. induction p as [a|c k IH]; intros s; cbn; [done|]. destruct (exec c s) as [x s']. apply IH. Qed.
