(* ===== verification/SessionTokens.v ===== *)
(** * Access tokens

    [src/src/infrastructure/services/jwt_service.rs]: the claims of an access token, how one is
    minted and how one is validated through the cache of validations.  The crates
    [jsonwebtoken] and [blake3] are parameters.  A validation reads the clock three times; the
    readings are arguments, in nanoseconds. *)

From S2P Require Import Prelude.
From S2P Require Import RustStr.
From S2P Require Import DomainErrors.
From S2P Require Import SessionDb.

#[local] Arguments lit : simpl never.

Definition second : Z := 1000000000.
(** [DateTime::timestamp] *)
Definition timestamp (t : Z) : Z := (t / second)%Z.

Record JwtClaims := mkJwt {
  j_sub : str;
  j_exp : Z;
  j_iat : Z;
  j_jti : str;
  j_username : str;
  j_email : str;
  j_role : str;
  j_cnf : option str;
  j_sid : option str;
}.
#[global] Instance JwtClaims_eq_dec : EqDecision JwtClaims. Proof. solve_decision. Defined.
Record TokenClaims := mkClaims {
  t_sub : str;
  t_sub_id : Uuid;
  t_exp : Z;
  t_iat : Z;
  t_jti : str;
  t_username : str;
  t_email : str;
  t_role : str;
  t_jkt : option str;
  t_sid : option Uuid;
}.

(** The crate: [encode] signs, and [Validation::new] accepts a token whose signature is good
    until [leeway] seconds after its expiry, 60 by default. *)
Definition leeway : Z := 60.
Class Jwt := {
  jwt_encode : JwtClaims -> result str str;
  (** the claims under a good signature *)
  jwt_payload : str -> option JwtClaims;
  (** the crate's complaint about any other text *)
  jwt_complaint : str -> str;
  jwt_encode_payload c tok : jwt_encode c = Ok tok -> jwt_payload tok = Some c;
}.
Inductive jwt_error := ExpiredSignature | OtherJwtError (text : str).
Definition jwt_decode `{Jwt} (t : Z) (tok : str) : result jwt_error JwtClaims :=
  match jwt_payload tok with
  | Some c => if (j_exp c + leeway <? timestamp t)%Z then Err ExpiredSignature else Ok c
  | None => Err (OtherJwtError (jwt_complaint tok))
  end.

Record JwtTokenService := mkJwtService {
  access_token_expiry : Z;
  refresh_token_expiry : Z;
}.
(** The cache of validations, by the hash of the token: the claims and when they were cached. *)
Notation cache := (gmap str (TokenClaims * Z)).

Section Service.
Context `{UuidText} `{Jwt}.

Definition from_jwt (c : JwtClaims) : TokenClaims :=
  mkClaims (j_sub c) (default 0%N (uuid_parse (j_sub c))) (j_exp c) (j_iat c) (j_jti c) (j_username c) (j_email c) (j_role c)
           (j_cnf c) (j_sid c ≫= uuid_parse).

Definition access_claims (svc : JwtTokenService) (now : Z) (jti id : Uuid) (user : Account) (session_id : option Uuid) (jkt : option str) : JwtClaims :=
  mkJwt (uuid_to_string id) (timestamp now + access_token_expiry svc) (timestamp now) (uuid_to_string jti)
        (default [] (a_username user)) (a_email user) (a_role user) jkt (uuid_to_string <$> session_id).
Definition token_error (e : str) : DomainError :=
  DomainError.new InternalError (lit "TokenService") (lit "Error generating token: " ++ e).
Definition generate_access_token (svc : JwtTokenService) (id : Uuid) (user : Account) (session_id : option Uuid) (jkt : option str) :
    prog (result DomainError str) :=
  pbind (call CNow) (fun t =>
  pbind (call CRandom) (fun jti =>
  Ret (match jwt_encode (access_claims svc t jti id user session_id jkt) with
       | Ok tok => Ok tok
       | Err e => Err (token_error e)
       end))).
Definition generate_refresh_token : prog str := pbind (call CRandom) (fun u => Ret (uuid_to_string u)).
Definition refresh_token_expiry_secs (svc : JwtTokenService) : Z := refresh_token_expiry svc.
(** [i64] division truncates. *)
Definition refresh_token_expiry_days (svc : JwtTokenService) : Z := Z.quot (refresh_token_expiry svc) (24 * 3600).

(** ** Validation *)
Definition VALIDATION_CACHE_TTL_SECS : Z := 30.
Context (hash : str -> str).
(** [Cache::get] of a cache with a time to live. *)
Definition cache_get (t : Z) (k : str) (c : cache) : option TokenClaims :=
  match c !! k with
  | Some (v, since) => if (t <? since + VALIDATION_CACHE_TTL_SECS * second)%Z then Some v else None
  | None => None
  end.
Definition verify (t : Z) (tok : str) : result DomainError TokenClaims :=
  match jwt_decode t tok with
  | Ok c => Ok (from_jwt c)
  | Err ExpiredSignature => Err (DomainError.new AccessDenied (lit "TokenService") (lit "Token expired"))
  | Err (OtherJwtError e) => Err (DomainError.new AccessDenied (lit "TokenService") (lit "Invalid token: " ++ e))
  end.
Definition slow_path (t2 t3 : Z) (k tok : str) (c : cache) : result DomainError TokenClaims * cache :=
  match verify t2 tok with
  | Err e => (Err e, c)
  | Ok claims =>
      (Ok claims,
       if (VALIDATION_CACHE_TTL_SECS <? t_exp claims - timestamp t3)%Z then <[k := (claims, t3)]> c else c)
  end.
Definition validate_token (t1 t2 t3 : Z) (tok : str) (c : cache) : result DomainError TokenClaims * cache :=
  let k := hash tok in
  match cache_get t1 k c with
  | Some claims =>
      if (timestamp t1 <? t_exp claims)%Z then (Ok claims, c)
      else slow_path t2 t3 k tok (delete k c)
  | None => slow_path t2 t3 k tok c
  end.

(** The caches the server gets to: validations, and evictions for want of room. *)
Inductive cached : cache -> Prop :=
| cached_new : cached ∅
| cached_validate t1 t2 t3 tok c : cached c -> cached (validate_token t1 t2 t3 tok c).2
| cached_evict k c : cached c -> cached (delete k c).

(** ** What a cached validation says *)
Definition entry_ok (c : cache) : Prop :=
  forall tok v since, c !! hash tok = Some (v, since) -> exists j, jwt_payload tok = Some j ∧ v = from_jwt j.
Lemma verify_ok t tok v : verify t tok = Ok v <-> exists j, jwt_payload tok = Some j ∧ v = from_jwt j ∧ (timestamp t <= j_exp j + leeway)%Z.
Proof.
  unfold verify, jwt_decode. destruct (jwt_payload tok) as [j|].
  - destruct (Z.ltb_spec (j_exp j + leeway) (timestamp t)) as [L|L].
    + split; [done|]. intros (j' & [= <-] & _ & L'). lia.
    + split; [intros [= <-]; eauto|]. by intros (j' & [= <-] & -> & _).
  - split; [done|]. by intros (j' & ? & _).
Qed.
Lemma slow_path_result t2 t3 k tok c : (slow_path t2 t3 k tok c).1 = verify t2 tok.
Proof. unfold slow_path. by destruct (verify t2 tok). Qed.
Lemma entry_ok_delete k c : entry_ok c -> entry_ok (delete k c).
Proof. intros Hc tok v since. rewrite lookup_delete_Some. intros [_ E]. eauto. Qed.
Section Injective.
Context `{!Inj (=) (=) hash}.
Lemma slow_path_entry_ok t2 t3 tok c : entry_ok c -> entry_ok (slow_path t2 t3 (hash tok) tok c).2.
Proof.
  intros Hc. unfold slow_path. destruct (verify t2 tok) as [v|e] eqn:V; [|done].
  cbn [fst snd]. destruct (_ <? _)%Z; [|done].
  intros tok' v' since. rewrite lookup_insert_Some. intros [[E [= <- <-]]|[_ E]]; [|eauto].
  apply (inj hash) in E as <-. apply verify_ok in V as (j & P & -> & _). eauto.
Qed.
Lemma cached_entry_ok c : cached c -> entry_ok c.
Proof.
  induction 1 as [|t1 t2 t3 tok c _ IH|k c _ IH].
  - intros tok v since. by rewrite lookup_empty.
  - unfold validate_token. destruct (cache_get t1 (hash tok) c) as [v|].
    + destruct (_ <? _)%Z; [done|]. by apply slow_path_entry_ok, entry_ok_delete.
    + by apply slow_path_entry_ok.
  - by apply entry_ok_delete.
Qed.
Lemma validate_token_cases t1 t2 t3 tok c : cached c ->
  (validate_token t1 t2 t3 tok c).1 = verify t2 tok
  ∨ exists j, jwt_payload tok = Some j ∧ (validate_token t1 t2 t3 tok c).1 = Ok (from_jwt j) ∧ (timestamp t1 < j_exp j)%Z.
Proof.
  intros Hc%cached_entry_ok. unfold validate_token, cache_get.
  destruct (c !! hash tok) as [[v since]|] eqn:E; [|left; apply slow_path_result].
  destruct (t1 <? _)%Z; [|left; apply slow_path_result].
  destruct (Z.ltb_spec (timestamp t1) (t_exp v)) as [L|L]; [|left; apply slow_path_result].
  right. destruct (Hc _ _ _ E) as (j & P & ->). eauto.
Qed.
End Injective.
End Service.
