(* ===== verification/SessionService.v ===== *)
(** * Sessions: the requests

    [src/src/application/services/auth_application_service.rs] (refresh, logout, back-channel
    logout, revocations, binding of a key, issue of a session, redemption of a magic link),
    [src/src/infrastructure/services/session_cleanup_service.rs] and the entity and repository
    code they call.

    Parameters: the crates behind [Jwt] and [UuidText]; the verdict of the OpenID provider on a
    logout token and the address it gives for ending its session; the hooks that a login and a
    logout fire are not modelled, nor is the count of sessions of an account on-line. *)

From S2P Require Import Prelude.
From S2P Require Import RustStr.
From S2P Require Import DomainErrors.
From S2P Require Import SessionDb.
From S2P Require Import SessionTokens.

#[local] Arguments lit : simpl never.

(** ** Entities *)
Module SessionOrigin.
Definition as_str (o : SessionOrigin) : str :=
  match o with
  | Password => lit "password" | Opaque => lit "opaque" | MagicLink => lit "magic_link" | Oidc => lit "oidc"
  | Device => lit "device" | Unknown => lit "unknown"
  end.
Definition from_wire (s : str) : SessionOrigin :=
  if decide (s = lit "password") then Password
  else if decide (s = lit "opaque") then Opaque
  else if decide (s = lit "magic_link") then MagicLink
  else if decide (s = lit "oidc") then Oidc
  else if decide (s = lit "device") then Device
  else Unknown.
Lemma origin_from_wire_as_str o : from_wire (as_str o) = o.
Proof. by destruct o. Qed.
End SessionOrigin.
Module MagicLinkResourceKind.
Definition as_str (k : MagicLinkResourceKind) : str := match k with LFile => lit "file" | LFolder => lit "folder" end.
Definition parse (s : str) : option MagicLinkResourceKind :=
  if decide (s = lit "file") then Some LFile else if decide (s = lit "folder") then Some LFolder else None.
Lemma kind_parse_as_str k : parse (as_str k) = Some k.
Proof. by destruct k. Qed.
End MagicLinkResourceKind.
Module MagicLinkStatus.
Definition as_str (k : MagicLinkStatus) : str := match k with LPending => lit "pending" | LUsed => lit "used" | LExpired => lit "expired" end.
Definition parse (s : str) : option MagicLinkStatus :=
  if decide (s = lit "pending") then Some LPending
  else if decide (s = lit "used") then Some LUsed
  else if decide (s = lit "expired") then Some LExpired else None.
Lemma link_status_parse_as_str k : parse (as_str k) = Some k.
Proof. by destruct k. Qed.
End MagicLinkStatus.
Definition day : Z := 86400 * second.
(** [Session::new]: the identifier and the row. *)
Definition new_session (user_id : Uuid) (refresh_token : str) (expires_in_days : Z) (family_id : Uuid) (origin : SessionOrigin) : prog (Uuid * Session) :=
  pbind (call CNow) (fun t =>
  pbind (call CRandom) (fun id =>
  Ret (id, mkSession user_id refresh_token (t + expires_in_days * day) false family_id None None None origin))).
Definition session_expired (t : Z) (s : Session) : bool := (s_expires s <? t)%Z.
Definition link_expired (t : Z) (l : MagicLinkToken) : bool := (l_expires l <? t)%Z.

(** ** Session storage *)
Definition database_error (e : str) : DomainError := DomainError.internal_error (lit "Database") e.
(** [map_sqlx_error] and the conversion to a domain error, for anything but an absent row. *)
Definition map_sqlx_error (e : str) : DomainError := database_error (lit "Database error: " ++ e).
Definition session_not_found : DomainError := DomainError.not_found (lit "Session") (lit "Session not found").
Definition user_not_found : DomainError := DomainError.not_found (lit "User") (lit "User not found").
Definition rmap {E F T} (f : E -> F) (r : result E T) : result F T := match r with Ok v => Ok v | Err e => Err (f e) end.
Definition query {T} (p : prog (sqlr T)) : prog (result DomainError T) := pbind p (fun r => Ret (rmap map_sqlx_error r)).
Definition found {T} (e : DomainError) (r : result DomainError (option T)) : result DomainError T :=
  match r with Ok (Some v) => Ok v | Ok None => Err e | Err e => Err e end.
Definition get_session_by_refresh_token (token : str) : prog (result DomainError (Uuid * Session)) :=
  pbind (query (call (QSessionByToken token))) (fun r => Ret (found session_not_found r)).
Definition get_session_by_id (id : Uuid) : prog (result DomainError Session) :=
  pbind (query (call (QSessionById id))) (fun r => Ret (found session_not_found r)).
Definition create_error (e : tx_error) : DomainError :=
  match e with
  | TxFailed e => map_sqlx_error e
  | StampFailed e => database_error (lit "Session created but could not update last_login_at: " ++ e)
  end.
Definition create_session (id : Uuid) (row : Session) : prog (result DomainError unit) :=
  pbind (call (QCreateSession id row)) (fun r => Ret (rmap create_error r)).
Definition rotate_error (e : tx_error) : DomainError :=
  match e with
  | TxFailed e => map_sqlx_error e
  | StampFailed e => database_error (lit "Session rotated but could not update last_login_at: " ++ e)
  end.
Definition rotate_session (old id : Uuid) (row : Session) : prog (result DomainError unit) :=
  pbind (call (QRotate old id row)) (fun r => Ret (rmap rotate_error r)).
Definition revoke_session (id : Uuid) : prog (result DomainError unit) := query (call (QRevoke id)).
Definition revoke_all_user_sessions (user : Uuid) : prog (result DomainError N) := query (call (QRevokeUser user)).
Definition revoke_other_user_sessions (user keep : Uuid) : prog (result DomainError N) := query (call (QRevokeOthers user keep)).
Definition revoke_session_family (family : Uuid) : prog (result DomainError N) := query (call (QRevokeFamily family)).
Definition revoke_sessions_by_oidc_sid (sid : str) : prog (result DomainError (list Uuid)) := query (call (QRevokeSid sid)).
Definition revoke_user_sessions_by_federation_subject (issuer subject : str) : prog (result DomainError (option Uuid)) :=
  u ←! query (call (QUserBySubject issuer subject));
  match u with
  | None => Ret (Ok None)
  | Some user => _n ←! query (call (QRevokeUser user)); Ret (Ok (Some user))
  end.
Definition delete_sessions_expired_before (cutoff : Z) : prog (result DomainError N) := query (call (QDeleteSessionsBefore cutoff)).
Definition already_bound : DomainError :=
  DomainError.new AlreadyExists (lit "Session") (lit "This session already has a DPoP thumbprint and cannot be re-bound").
Section Requests.
Context `{UuidText} `{Jwt}.

Definition bind_dpop_jkt (id : Uuid) (jkt : str) : prog (result DomainError unit) :=
  n ←! query (call (QBindJkt id jkt));
  if (n =? 0)%N then
    r ←! query (call (QSessionById id));
    Ret (Err (match r with None => DomainError.not_found (lit "Session") (uuid_to_string id) | Some _ => already_bound end))
  else Ret (Ok tt).
Definition get_user_by_id (id : Uuid) : prog (result DomainError Account) :=
  pbind (query (call (QUser id))) (fun r => Ret (found user_not_found r)).

(** ** Authentication service *)
Record Config := mkConfig {
  tokens : JwtTokenService;
  magic_link_configured : bool;
  is_magic_link_login_allowed : bool;
}.
Record AuthResponse := mkResponse {
  r_user : Uuid;
  r_dpop_bound : bool;
  r_access : str;
  r_refresh : str;
  r_expires_in : Z;
  r_force_password_change : bool;
}.
Definition auth_error (msg : str) : DomainError := DomainError.new AccessDenied (lit "Auth") msg.
Definition session_invalid : DomainError := auth_error (lit "Session expired or invalid").
Definition deactivated : DomainError := auth_error (lit "Account deactivated").
Definition read_force_password_change (user_id : Uuid) : prog bool :=
  pbind (call (QForce user_id)) (fun r => Ret (match r with Ok b => b | Err _ => false end)).
(** [build_self_user_dto]: the profile's own fields are left out. *)
Definition build_self_user_dto (user_id : Uuid) (row : Session) : prog (result DomainError (Uuid * bool)) :=
  _u ←! get_user_by_id user_id;
  pbind (read_force_password_change user_id) (fun _ => Ret (Ok (user_id, bool_decide (is_Some (s_jkt row))))).
Definition inherit (parent row : Session) : Session :=
  let row := match s_jkt parent with Some j => with_jkt (Some j) row | None => row end in
  let row := match s_id_token parent with Some t => with_id_token (Some t) row | None => row end in
  match s_sid parent with Some t => with_sid (Some t) row | None => row end.

Definition refresh_token (cfg : Config) (token : str) : prog (result DomainError AuthResponse) :=
  x ←! get_session_by_refresh_token token;
  let (sid, session) := x : Uuid * Session in
  if s_revoked session then
    _n ←! revoke_session_family (s_family session);
    Ret (Err session_invalid)
  else
    pbind (call CNow) (fun t =>
    if session_expired t session then Ret (Err session_invalid)
    else
      user ←! get_user_by_id (s_user session);
      if negb (a_active user) then Ret (Err deactivated)
      else
        pbind generate_refresh_token (fun token' =>
        pbind (new_session (s_user session) token' (refresh_token_expiry_days (tokens cfg)) (s_family session) (s_origin session)) (fun y =>
        let (id, row) := y : Uuid * Session in
        let row := inherit session row in
        access ←! generate_access_token (tokens cfg) (s_user session) user (Some id) (s_jkt session);
        dto ←! build_self_user_dto (s_user session) row;
        _u ←! rotate_session sid id row;
        pbind (read_force_password_change (s_user session)) (fun force =>
        Ret (Ok (mkResponse dto.1 dto.2 access token' (refresh_token_expiry_secs (tokens cfg)) force)))))).

(** [end_session]: the address of the provider's logout page, if the provider has one. *)
Definition logout (end_session : option (str -> result DomainError (option str))) (user_id : Uuid) (token : str) : prog (result DomainError (option str)) :=
  pbind (get_session_by_refresh_token token) (fun r =>
  match r with
  | Err _ => Ret (Ok None)
  | Ok (sid, session) =>
      if decide (s_user session = user_id) then
        _u ←! revoke_session sid;
        Ret (match s_id_token session, end_session with
             | Some hint, Some f => f hint
             | _, _ => Ok None
             end)
      else Ret (Err (auth_error (lit "The session does not belong to the user")))
  end).

(** What the provider vouches for. *)
Record LogoutClaims := mkLogoutClaims { lc_iss : str; lc_sub : option str; lc_sid : option str; lc_jti : option str }.
Definition no_subject : DomainError :=
  DomainError.new InternalError (lit "OIDC") (lit "backchannel_logout: validator returned claims without sub or sid").
Definition end_sessions (claims : LogoutClaims) : prog (result DomainError (list Uuid)) :=
  match lc_sid claims with
  | Some sid => revoke_sessions_by_oidc_sid sid
  | None =>
      match lc_sub claims with
      | Some sub =>
          u ←! revoke_user_sessions_by_federation_subject (lc_iss claims) sub;
          Ret (Ok (match u with Some user => [user] | None => [] end))
      | None => Ret (Err no_subject)
      end
  end.
Definition backchannel_logout (verdict : result DomainError LogoutClaims) : prog (result DomainError N) :=
  match verdict with
  | Err e => Ret (Err e)
  | Ok claims =>
      let act := users ←! end_sessions claims; Ret (Ok (N.of_nat (length users))) in
      match lc_jti claims with
      | None => act
      | Some jti =>
          pbind (call (CJtiSeen jti)) (fun seen =>
          if seen : bool then Ret (Ok 0%N)
          else pbind (call (CJtiInsert jti)) (fun _ => act))
      end
  end.

Definition logout_all (user_id : Uuid) : prog (result DomainError N) := revoke_all_user_sessions user_id.
(** The revocations of [change_password]. *)
Definition password_changed (user_id : Uuid) (keep : option Uuid) : prog (result DomainError unit) :=
  match keep with
  | Some keep => _n ←! revoke_other_user_sessions user_id keep; Ret (Ok tt)
  | None => _n ←! revoke_all_user_sessions user_id; Ret (Ok tt)
  end.
Definition get_session_id_by_refresh_token (token : str) : prog (result DomainError (option Uuid)) :=
  pbind (get_session_by_refresh_token token) (fun r =>
  Ret (match r with
       | Ok (id, _) => Ok (Some id)
       | Err e => if decide (kind e = NotFound) then Ok None else Err e
       end)).

Definition base64url (b : byte) : bool :=
  is_digit b || ((65 <=? b) && (b <=? 90))%Z || ((97 <=? b) && (b <=? 122))%Z || (b =? 45)%Z || (b =? 95)%Z.
Definition validate_dpop_jkt (raw : str) : bool := (length raw =? 43)%nat && forallb base64url raw.
Definition malformed_jkt : DomainError :=
  DomainError.new InvalidInput (lit "Auth") (lit "dpop_jkt must be a 43-character base64url SHA-256 thumbprint (RFC 7638)").
Definition bind_dpop_jkt_to_session (id : Uuid) (jkt : str) : prog (result DomainError unit) :=
  if validate_dpop_jkt jkt then bind_dpop_jkt id jkt else Ret (Err malformed_jkt).

(** [admin]: the verdict of [require_admin_caller]. *)
Definition admin_revoke_session (admin : result DomainError unit) (id : Uuid) : prog (result DomainError unit) :=
  match admin with
  | Err e => Ret (Err e)
  | Ok _ => pbind (get_session_by_id id) (fun _ => revoke_session id)
  end.

Definition mint_session_for_authenticated_user (cfg : Config) (id : Uuid) (user : Account) (jkt : option str) (origin : SessionOrigin) :
    prog (result DomainError AuthResponse) :=
  if match jkt with Some j => negb (validate_dpop_jkt j) | None => false end then Ret (Err malformed_jkt)
  else
    pbind generate_refresh_token (fun token =>
    pbind (call CRandom) (fun family =>
    pbind (new_session id token (refresh_token_expiry_days (tokens cfg)) family origin) (fun y =>
    let (sid, row) := y : Uuid * Session in
    access ←! generate_access_token (tokens cfg) id user (Some sid) jkt;
    let row := match jkt with Some j => with_jkt (Some j) row | None => row end in
    dto ←! build_self_user_dto id row;
    _u ←! create_session sid row;
    pbind (read_force_password_change id) (fun force =>
    Ret (Ok (mkResponse dto.1 dto.2 access token (refresh_token_expiry_secs (tokens cfg)) force)))))).

(** ** Magic links *)
Definition link_query {T} (what : str) (p : prog (sqlr T)) : prog (result DomainError T) :=
  pbind p (fun r => Ret (rmap (fun e => DomainError.internal_error (lit "MagicLinkToken") (what ++ lit ": " ++ e)) r)).
Definition link_error (k : ErrorKind) (msg : str) : DomainError := DomainError.new k (lit "MagicLink") msg.
Definition link_used : DomainError := link_error AccessDenied (lit "this magic link has already been used").
Record MagicLinkRedemption := mkRedemption { m_auth : AuthResponse; m_resource : option (MagicLinkResourceKind * Uuid) }.
Inductive MagicLinkRedeemResult := Allowed (r : MagicLinkRedemption) | NeedsCrossBrowserConfirm.
(** The checks before the link is consumed: [None], go on. *)
Definition link_refusal (cfg : Config) (t : Z) (l : MagicLinkToken) (challenge : option str) (confirmed : bool) :
    option (result DomainError MagicLinkRedeemResult) :=
  if bool_decide (l_resource l = None) && negb (is_magic_link_login_allowed cfg) then
    Some (Err (link_error AccessDenied (lit "magic-link login is disabled")))
  else if bool_decide (l_status l = LUsed) then Some (Err link_used)
  else if link_expired t l then Some (Err (link_error AccessDenied (lit "this magic link has expired")))
  else if negb confirmed && match l_challenge l with Some e => negb (bool_decide (challenge = Some e)) | None => false end then
    Some (Ok NeedsCrossBrowserConfirm)
  else None.
Definition redeem_magic_link (cfg : Config) (token : str) (challenge : option str) (confirmed : bool) : prog (result DomainError MagicLinkRedeemResult) :=
  if negb (magic_link_configured cfg) then
    Ret (Err (link_error NotImplemented (lit "magic-link feature is not configured on this server")))
  else
    x ←! link_query (lit "find_by_token") (call (QLinkByToken token));
    match x with
    | None => Ret (Err (link_error NotFound (lit "unknown or invalid magic link")))
    | Some (lid, l) =>
        pbind (call CNow) (fun t =>
        match link_refusal cfg t l challenge confirmed with
        | Some r => Ret r
        | None =>
            consumed ←! link_query (lit "mark_used") (call (QMarkUsed lid));
            if negb consumed then Ret (Err link_used)
            else
              user ←! get_user_by_id (l_user l);
              if negb (a_active user) then Ret (Err deactivated)
              else
                _v ←! query (call (QVerifyEmail (l_user l)));
                pbind generate_refresh_token (fun token' =>
                pbind (call CRandom) (fun family =>
                pbind (new_session (l_user l) token' (refresh_token_expiry_days (tokens cfg)) family MagicLink) (fun y =>
                let (sid, row) := y : Uuid * Session in
                access ←! generate_access_token (tokens cfg) (l_user l) user (Some sid) None;
                dto ←! build_self_user_dto (l_user l) row;
                _u ←! create_session sid row;
                pbind (read_force_password_change (l_user l)) (fun force =>
                Ret (Ok (Allowed (mkRedemption
                  (mkResponse dto.1 dto.2 access token' (refresh_token_expiry_secs (tokens cfg)) force) (l_resource l))))))))
        end)
    end.
(** [MagicLinkToken::new] and its insertion; [encode] is the crate [base64] on the drawn bytes. *)
Definition issue_link (encode : N -> str) (user : Uuid) (ttl : Z) (resource : option (MagicLinkResourceKind * Uuid)) (challenge : option str) :
    prog (result DomainError (Uuid * MagicLinkToken)) :=
  pbind (call CRandom) (fun bytes =>
  pbind (call CNow) (fun t =>
  pbind (call CRandom) (fun id =>
  let row := mkLink (encode bytes) user LPending (t + ttl) resource challenge in
  _u ←! link_query (lit "insert") (call (QCreateLink id row));
  Ret (Ok (id, row))))).
Definition sweep_links : prog (result DomainError N) := link_query (lit "delete_expired") (call QDeleteExpiredLinks).

(** ** Clean-up *)
Definition RETENTION_DAYS : Z := 90.
Definition run_once : prog (result str N) :=
  pbind (call CNow) (fun t =>
  pbind (call (QDeleteSessionsBefore (t - RETENTION_DAYS * day))) (fun r =>
  Ret (rmap (fun e => lit "delete_sessions_expired_before: Database error: Database error: " ++ e) r))).
End Requests.
