(* ===== verification/SessionDevice.v ===== *)
(** * Device authorization

    [src/src/application/services/device_auth_service.rs] and
    [src/src/domain/entities/device_code.rs]: the codes a device shows and polls with, the
    decision of the user, and what a poll answers.

    Parameters: the bytes a draw stands for, the crate [hex], and the upper case of Unicode. *)

From S2P Require Import Prelude.
From S2P Require Import RustStr.
From S2P Require Import DomainErrors.
From S2P Require Import SessionDb.
From S2P Require Import SessionTokens.
From S2P Require Import SessionService.

#[local] Arguments lit : simpl never.

(** ** Entity *)
Module DeviceCodeStatus.
Definition as_str (s : DeviceCodeStatus) : str :=
  match s with
  | DPending => lit "pending" | DAuthorized => lit "authorized" | DDenied => lit "denied" | DExpired => lit "expired"
  end.
Definition parse (s : str) : option DeviceCodeStatus :=
  if decide (s = lit "pending") then Some DPending
  else if decide (s = lit "authorized") then Some DAuthorized
  else if decide (s = lit "denied") then Some DDenied
  else if decide (s = lit "expired") then Some DExpired
  else None.
Lemma code_status_parse_as_str s : parse (as_str s) = Some s.
Proof. by destruct s. Qed.
End DeviceCodeStatus.
Definition code_expired (t : Z) (c : DeviceCode) : bool := (c_expires c <? t)%Z.
(** [TimeDelta::num_seconds] truncates. *)
Definition num_seconds (d : Z) : Z := Z.quot d second.
Definition seconds_remaining (t : Z) (c : DeviceCode) : Z := Z.max 0 (num_seconds (c_expires c - t)).
Definition is_polling_too_fast (t : Z) (c : DeviceCode) : bool :=
  match c_last_poll c with
  | Some last => (num_seconds (t - last) <? c_interval c)%Z
  | None => false
  end.
Definition record_poll (t : Z) (c : DeviceCode) : DeviceCode :=
  mkCode (c_device c) (c_user_code c) (c_client c) (c_scopes c) (c_status c) (c_user c) (c_access c) (c_refresh c)
         (c_expires c) (c_interval c) (Some t).
Definition authorize (user : Uuid) (access refresh : str) (c : DeviceCode) : DeviceCode :=
  mkCode (c_device c) (c_user_code c) (c_client c) (c_scopes c) DAuthorized (Some user) (Some access) (Some refresh)
         (c_expires c) (c_interval c) (c_last_poll c).
Definition code_with (st : DeviceCodeStatus) (c : DeviceCode) : DeviceCode :=
  mkCode (c_device c) (c_user_code c) (c_client c) (c_scopes c) st (c_user c) (c_access c) (c_refresh c)
         (c_expires c) (c_interval c) (c_last_poll c).
Definition deny_code : DeviceCode -> DeviceCode := code_with DDenied.
Definition mark_expired : DeviceCode -> DeviceCode := code_with DExpired.

(** ** Storage *)
Definition code_query {T} (what : str) (p : prog (sqlr T)) : prog (result DomainError T) :=
  pbind p (fun r => Ret (rmap (fun e => DomainError.new DatabaseError (lit "DeviceCode") (lit "Failed to " ++ what ++ lit ": " ++ e)) r)).
Definition code_missing (msg : str) : DomainError := DomainError.new NotFound (lit "DeviceCode") msg.
Definition get_by_device_code (device_code : str) : prog (result DomainError (Uuid * DeviceCode)) :=
  pbind (code_query (lit "fetch device code") (call (QCodeByDevice device_code))) (fun r => Ret (found (code_missing (lit "Device code not found")) r)).
Definition get_pending_by_user_code (user_code : str) : prog (result DomainError (Uuid * DeviceCode)) :=
  pbind (code_query (lit "fetch by user code") (call (QPendingByUserCode user_code))) (fun r =>
  Ret (found (code_missing (lit "User code not found or expired")) r)).
Definition update_device_code (id : Uuid) (c : DeviceCode) : prog (result DomainError unit) :=
  code_query (lit "update device code") (call (QUpdateCode id c)).
Definition list_by_user (user : Uuid) : prog (result DomainError (list (Uuid * DeviceCode))) :=
  code_query (lit "list device codes") (call (QCodesOfUser user)).
Definition delete_by_id (id : Uuid) : prog (result DomainError unit) := code_query (lit "delete device code") (call (QDeleteCode id)).

(** ** Service *)
Definition DEVICE_CODE_LIFETIME_SECS : Z := 900.
Definition DEFAULT_POLL_INTERVAL : Z := 5.
(** [generate_user_code] from its eight random bytes: four letters, a hyphen, four digits. *)
Definition user_code_of (bytes : list byte) : str :=
  ((fun b => 65 + b mod 26)%Z <$> take 4 bytes) ++ lit "-" ++ ((fun b => 48 + b mod 10)%Z <$> drop 4 bytes).
Section Device.
Context `{UuidText} `{Jwt} (hex_code : N -> str) (eight_bytes : N -> list byte) (to_uppercase : str -> str).

Definition generate_device_code : prog str := pbind (call CRandom) (fun n => Ret (hex_code n)).
Definition generate_user_code : prog str := pbind (call CRandom) (fun n => Ret (user_code_of (eight_bytes n))).
Record DeviceAuthorizeResponse := mkAuthorizeResponse {
  d_device_code : str;
  d_user_code : str;
  d_verification_uri : str;
  d_verification_uri_complete : str;
  d_expires_in : Z;
  d_interval : Z;
}.
Definition initiate (base_url client_name scope : str) : prog (result DomainError DeviceAuthorizeResponse) :=
  pbind generate_device_code (fun device_code =>
  pbind generate_user_code (fun user_code =>
  let uri := trim_end_matches (lit "/") base_url ++ lit "/device" in
  let uri_complete := uri ++ lit "?code=" ++ user_code in
  pbind (call CNow) (fun t =>
  pbind (call CRandom) (fun id =>
  let dc := mkCode device_code user_code client_name scope DPending None None None (t + DEVICE_CODE_LIFETIME_SECS * second) DEFAULT_POLL_INTERVAL None in
  _u ←! code_query (lit "create device code") (call (QCreateCode id dc));
  pbind (call CNow) (fun t =>
  Ret (Ok (mkAuthorizeResponse device_code user_code uri uri_complete (seconds_remaining t dc) DEFAULT_POLL_INTERVAL))))))).

Definition normalized (user_code : str) : str := filter (fun b => b ≠ 32%Z) (to_uppercase (trim user_code)).
Record DeviceVerifyInfo := mkVerifyInfo { v_client : str; v_scopes : str; v_valid : bool }.
Definition verify_user_code (user_code : str) : prog (result DomainError DeviceVerifyInfo) :=
  pbind (get_pending_by_user_code (normalized user_code)) (fun r =>
  match r with
  | Ok (_, dc) => pbind (call CNow) (fun t => Ret (Ok (mkVerifyInfo (c_client dc) (c_scopes dc) (negb (code_expired t dc)))))
  | Err _ => Ret (Ok (mkVerifyInfo [] [] false))
  end).
Definition code_has_expired : DomainError :=
  DomainError.new AccessDenied (lit "DeviceCode") (lit "Device code has expired. Please start a new authorization flow.").
Definition approve (svc : JwtTokenService) (user_code : str) (user_id : Uuid) : prog (result DomainError unit) :=
  x ←! get_pending_by_user_code (normalized user_code);
  let (cid, dc) := x : Uuid * DeviceCode in
  pbind (call CNow) (fun t =>
  if code_expired t dc then Ret (Err code_has_expired)
  else
    user ←! get_user_by_id user_id;
    pbind generate_refresh_token (fun refresh =>
    pbind (call CRandom) (fun family =>
    pbind (new_session user_id refresh (refresh_token_expiry_days svc) family Device) (fun y =>
    let (sid, row) := y : Uuid * Session in
    access ←! generate_access_token svc user_id user (Some sid) None;
    _u ←! create_session sid row;
    update_device_code cid (authorize user_id access refresh dc))))).
Definition deny (user_code : str) : prog (result DomainError unit) :=
  x ←! get_pending_by_user_code (normalized user_code);
  update_device_code x.1 (deny_code x.2).

Inductive DevicePollError := AuthorizationPending | SlowDown | PollDenied | ExpiredToken | InvalidDeviceCode.
Definition error_code (e : DevicePollError) : str :=
  match e with
  | AuthorizationPending => lit "authorization_pending" | SlowDown => lit "slow_down" | PollDenied => lit "access_denied"
  | ExpiredToken => lit "expired_token" | InvalidDeviceCode => lit "invalid_grant"
  end.
Definition description (e : DevicePollError) : str :=
  match e with
  | AuthorizationPending => lit "The authorization request is still pending. Continue polling."
  | SlowDown => lit "You are polling too frequently. Please slow down."
  | PollDenied => lit "The user denied the authorization request."
  | ExpiredToken => lit "The device_code has expired. Please start a new authorization flow."
  | InvalidDeviceCode => lit "The device_code is not recognized."
  end.
Definition http_status (e : DevicePollError) : Z :=
  match e with AuthorizationPending | SlowDown | ExpiredToken => 400 | PollDenied => 403 | InvalidDeviceCode => 400 end.
Record DeviceTokenSuccess := mkTokenSuccess { k_access : str; k_refresh : str; k_expires_in : Z; k_scope : str }.
(** The answer about a code that is not an expired pending one. *)
Definition poll_status (svc : JwtTokenService) (cid : Uuid) (dc : DeviceCode) : prog (result DevicePollError DeviceTokenSuccess) :=
  match c_status dc with
  | DPending =>
      pbind (call CNow) (fun t =>
      if is_polling_too_fast t dc then Ret (Err SlowDown)
      else pbind (call CNow) (fun t =>
           pbind (update_device_code cid (record_poll t dc)) (fun _ => Ret (Err AuthorizationPending))))
  | DAuthorized =>
      pbind (delete_by_id cid) (fun _ =>
      Ret (Ok (mkTokenSuccess (default [] (c_access dc)) (default [] (c_refresh dc)) (refresh_token_expiry_secs svc) (c_scopes dc))))
  | DDenied => Ret (Err PollDenied)
  | DExpired => Ret (Err ExpiredToken)
  end.
Definition poll (svc : JwtTokenService) (device_code : str) : prog (result DevicePollError DeviceTokenSuccess) :=
  pbind (get_by_device_code device_code) (fun r =>
  match r with
  | Err _ => Ret (Err InvalidDeviceCode)
  | Ok (cid, dc) =>
      pbind (call CNow) (fun t =>
      if code_expired t dc && bool_decide (c_status dc = DPending) then
        pbind (update_device_code cid (mark_expired dc)) (fun _ => Ret (Err ExpiredToken))
      else poll_status svc cid dc)
  end).
Definition cleanup_expired : prog (result DomainError N) := code_query (lit "delete expired device codes") (call QDeleteExpiredCodes).
Definition not_owned : DomainError := code_missing (lit "Device authorization not found or not owned by you").
Definition revoke_device (device_id user_id : Uuid) : prog (result DomainError unit) :=
  devices ←! list_by_user user_id;
  if existsb (fun d : Uuid * DeviceCode => bool_decide (d.1 = device_id)) devices then delete_by_id device_id
  else Ret (Err not_owned).
End Device.
