(* ===== verification/SessionPool.v ===== *)
(** * Sessions: requests in parallel

    The requests of the components before as one type, and a server that runs any number of
    them, switching between them at every statement, reading of the clock and random draw.
    Between statements the clock advances, accounts change and statements are made to fail.  Then what each statement and
    each request does to the rows of sessions. *)

From S2P Require Import Prelude.
From S2P Require Import RustStr.
From S2P Require Import DomainErrors.
From S2P Require Import SessionDb.
From S2P Require Import SessionTokens.
From S2P Require Import SessionService.
From S2P Require Import SessionDevice.

#[local] Arguments lit : simpl never.

(** ** Requests *)
(** The crates and the configuration. *)
Record World := mkWorld {
  w_uuid : UuidText;
  w_jwt : Jwt;
  w_config : Config;
  w_hex : N -> str;
  w_bytes : N -> list byte;
  w_base64 : N -> str;
  w_upper : str -> str;
}.
Inductive Request :=
| RRefresh (token : str)
| RLogout (end_session : option (str -> result DomainError (option str))) (user : Uuid) (token : str)
| RBackchannel (verdict : result DomainError LogoutClaims)
| RLogoutAll (user : Uuid)
| RPasswordChanged (user : Uuid) (keep : option Uuid)
| RSessionId (token : str)
| RBind (id : Uuid) (jkt : str)
| RAdminRevoke (admin : result DomainError unit) (id : Uuid)
| RMint (id : Uuid) (user : Account) (jkt : option str) (origin : SessionOrigin)
| RRedeem (token : str) (challenge : option str) (confirmed : bool)
| RIssueLink (user : Uuid) (ttl : Z) (resource : option (MagicLinkResourceKind * Uuid)) (challenge : option str)
| RSweepLinks
| RCleanup
| RInitiate (base_url client_name scope : str)
| RVerify (user_code : str)
| RApprove (user_code : str) (user : Uuid)
| RDeny (user_code : str)
| RPoll (device_code : str)
| RCleanupCodes
| RDevices (user : Uuid)
| RRevokeDevice (device user : Uuid).
Inductive Reply :=
| ReAuth (r : result DomainError AuthResponse)
| ReLink (r : result DomainError MagicLinkRedeemResult)
| RePoll (r : result DevicePollError DeviceTokenSuccess)
| ReUnit (r : result DomainError unit)
| ReCount (r : result DomainError N)
| ReText (r : result DomainError (option str))
| ReId (r : result DomainError (option Uuid))
| ReCleanup (r : result str N)
| ReIssued (r : result DomainError (Uuid * MagicLinkToken))
| ReInitiated (r : result DomainError DeviceAuthorizeResponse)
| ReInfo (r : result DomainError DeviceVerifyInfo)
| ReDevices (r : result DomainError (list (Uuid * DeviceCode))).
Definition reply {T} (f : T -> Reply) (p : prog T) : prog Reply := pbind p (fun r => Ret (f r)).
Definition program (w : World) (q : Request) : prog Reply :=
  let U := w_uuid w in
  let J := w_jwt w in
  let cfg := w_config w in
  match q with
  | RRefresh token => reply ReAuth (refresh_token cfg token)
  | RLogout e user token => reply ReText (logout e user token)
  | RBackchannel verdict => reply ReCount (backchannel_logout verdict)
  | RLogoutAll user => reply ReCount (logout_all user)
  | RPasswordChanged user keep => reply ReUnit (password_changed user keep)
  | RSessionId token => reply ReId (get_session_id_by_refresh_token token)
  | RBind id jkt => reply ReUnit (bind_dpop_jkt_to_session id jkt)
  | RAdminRevoke admin id => reply ReUnit (admin_revoke_session admin id)
  | RMint id user jkt origin => reply ReAuth (mint_session_for_authenticated_user cfg id user jkt origin)
  | RRedeem token challenge confirmed => reply ReLink (redeem_magic_link cfg token challenge confirmed)
  | RIssueLink user ttl resource challenge => reply ReIssued (issue_link (w_base64 w) user ttl resource challenge)
  | RSweepLinks => reply ReCount sweep_links
  | RCleanup => reply ReCleanup run_once
  | RInitiate base_url client_name scope => reply ReInitiated (initiate (w_hex w) (w_bytes w) base_url client_name scope)
  | RVerify user_code => reply ReInfo (verify_user_code (w_upper w) user_code)
  | RApprove user_code user => reply ReUnit (approve (w_upper w) (tokens cfg) user_code user)
  | RDeny user_code => reply ReUnit (deny (w_upper w) user_code)
  | RPoll device_code => reply RePoll (poll (tokens cfg) device_code)
  | RCleanupCodes => reply ReCount cleanup_expired
  | RDevices user => reply ReDevices (list_by_user user)
  | RRevokeDevice device user => reply ReUnit (revoke_device device user)
  end.

(** ** The pool *)
(** What a request saw of magic links. *)
Inductive event := SawLink (token : str) (id : Uuid) | SpentLink (id : Uuid).
Definition observed (c : cmd) : answer c -> list event :=
  match c return answer c -> list event with
  | QLinkByToken token => fun r => match r with Ok (Some (id, _)) => [SawLink token id] | _ => [] end
  | QMarkUsed id => fun r => match r with Ok true => [SpentLink id] | _ => [] end
  | _ => fun _ => []
  end.
Record thread := mkThread { th_request : Request; th_rest : prog Reply; th_seen : list event }.
(** Between statements. *)
Definition env (s s' : Auth) : Prop :=
  sessions s' = sessions s ∧ links s' = links s ∧ codes s' = codes s ∧ fresh s' = fresh s ∧ (now s <= now s')%Z.
Inductive step (w : World) : list thread * Auth -> list thread * Auth -> Prop :=
| step_arrive pool s q : step w (pool, s) (pool ++ [mkThread q (program w q) []], s)
| step_env pool s s' : env s s' -> step w (pool, s) (pool, s')
| step_do pool s i q c k seen :
    pool !! i = Some (mkThread q (Do c k) seen) ->
    step w (pool, s) (<[i := mkThread q (k (exec c s).1) (seen ++ observed c (exec c s).1)]> pool, (exec c s).2).
Definition runs (w : World) (s : Auth) (pool : list thread) (s' : Auth) : Prop := rtc (step w) ([], s) (pool, s').

(** A property of threads and of the store that steps keep. *)
Section PoolInduction.
Context (w : World) (I : Auth -> Prop) (T : Request -> prog Reply -> list event -> Auth -> Prop).
Hypothesis I_env : forall s s', env s s' -> I s -> I s'.
Hypothesis T_env : forall q p seen s s', env s s' -> I s -> T q p seen s -> T q p seen s'.
Hypothesis T_arrive : forall q s, I s -> T q (program w q) [] s.
Hypothesis step_I : forall q c k seen s, I s -> T q (Do c k) seen s -> I (exec c s).2.
Hypothesis step_T : forall q c k seen s, I s -> T q (Do c k) seen s ->
  T q (k (exec c s).1) (seen ++ observed c (exec c s).1) (exec c s).2.
Hypothesis step_others : forall q c k seen q' p' seen' s, I s -> T q (Do c k) seen s -> T q' p' seen' s ->
  T q' p' seen' (exec c s).2.
Definition pool_ok (x : list thread * Auth) : Prop :=
  I x.2 ∧ forall i th, x.1 !! i = Some th -> T (th_request th) (th_rest th) (th_seen th) x.2.
Lemma step_pool_ok x y : step w x y -> pool_ok x -> pool_ok y.
Proof.
  intros [pool s q|pool s s' E|pool s i q c k seen L] [Hi Ht]; (split; [cbn [snd] in *; eauto|]); cbn [fst snd] in *.
  - intros i th [E|[_ E]]%lookup_app_Some; [eauto|]. apply list_lookup_singleton_Some in E as [_ <-]. cbn. eauto.
  - intros i th E'. eapply T_env; eauto.
  - apply (step_I q c k seen); [done|]. apply (Ht _ _ L).
  - intros j th E. destruct (decide (i = j)) as [<-|N].
    + rewrite list_lookup_insert_eq in E by (by eapply lookup_lt_Some). injection E as <-. cbn.
      apply step_T; [done|]. apply (Ht _ _ L).
    + rewrite list_lookup_insert_ne in E by done. eapply (step_others q c k seen); [done|apply (Ht _ _ L)|eauto].
Qed.
Lemma runs_pool_ok s pool s' : I s -> runs w s pool s' -> pool_ok (pool, s').
Proof.
  intros Hi R. assert (pool_ok ([], s)) as H0 by (split; [done|intros i th E; cbn [fst] in E; by rewrite lookup_nil in E]).
  revert R H0. unfold runs. generalize (@nil thread, s) as x, (pool, s') as y.
  induction 1 as [|x y z S _ IH]; [done|]. eauto using step_pool_ok.
Qed.
End PoolInduction.

(** * Sessions: what the statements do to rows

    Every statement either leaves a session's row, changes its revocation or its key in one
    direction, or deletes it; every request inserts rows only under identifiers and tokens it
    has drawn itself.  So the rows that are there when requests arrive only ever age. *)

(** ** Ageing *)
(** [r'] is [r] some time later. *)
Definition row_later (r r' : Session) : Prop :=
  s_user r' = s_user r ∧ s_token r' = s_token r ∧ s_family r' = s_family r ∧ s_expires r' = s_expires r ∧ s_origin r' = s_origin r
  ∧ (s_revoked r = true -> s_revoked r' = true) ∧ (forall k, s_jkt r = Some k -> s_jkt r' = Some k).
Definition slot_later (o o' : option Session) : Prop :=
  match o, o' with
  | None, o' => o' = None
  | Some _, None => True
  | Some r, Some r' => row_later r r'
  end.
(** The rows under identifiers below [n]. *)
Definition later (n : N) (m m' : gmap Uuid Session) : Prop := forall id, (id < n)%N -> slot_later (m !! id) (m' !! id).
#[export] Instance row_later_preorder : PreOrder row_later.
Proof.
  split; unfold row_later; [by intros r; split_and!|].
  intros r1 r2 r3 (-> & -> & -> & -> & -> & H1 & J1) (-> & -> & -> & -> & -> & H2 & J2). split_and!; auto.
Qed.
#[export] Instance slot_later_preorder : PreOrder slot_later.
Proof.
  split; [intros [r|]; cbn; done|].
  intros [r1|] [r2|] [r3|]; cbn; try done. intros H1 H2. by transitivity r2.
Qed.
#[export] Instance later_preorder n : PreOrder (later n).
Proof. split; [by intros m id _|]. intros m1 m2 m3 H1 H2 id L. transitivity (m2 !! id); auto. Qed.
Lemma row_later_revoked r : row_later r (revoked r).
Proof. by split_and!. Qed.
Lemma slot_later_alter (m : gmap Uuid Session) id k : slot_later (m !! k) (alter revoked id m !! k).
Proof.
  destruct (decide (id = k)) as [->|N]; [rewrite lookup_alter_eq|by rewrite lookup_alter_ne].
  destruct (m !! k); cbn; [apply row_later_revoked|done].
Qed.
Lemma slot_later_revoke_where p m k : slot_later (m !! k) (revoke_where p m !! k).
Proof.
  unfold revoke_where. rewrite lookup_fmap. destruct (m !! k) as [r|]; cbn; [|done].
  destruct (hit p r); [apply row_later_revoked|reflexivity].
Qed.
Lemma later_insert n id (row : Session) p m m' : (n <= id)%N -> insert_unique p id row m = Some m' -> later n m m'.
Proof.
  unfold insert_unique. intros L. destruct (_ || _); [done|]. intros [= <-] k Lk.
  by rewrite lookup_insert_ne by lia.
Qed.
Lemma slot_later_others p keep (m : gmap Uuid Session) k :
  slot_later (m !! k) (map_imap (fun k r => Some (if negb (bool_decide (k = keep)) && hit p r then revoked r else r)) m !! k).
Proof.
  rewrite map_lookup_imap. destruct (m !! k) as [r|]; cbn; [|done].
  destruct (negb _ && _); [apply row_later_revoked|reflexivity].
Qed.
Lemma slot_later_delete_where p (m : gmap Uuid Session) k : slot_later (m !! k) (delete_where p m !! k).
Proof.
  destruct (delete_where p m !! k) as [r|] eqn:E.
  - apply map_lookup_filter_Some in E as [-> _]. reflexivity.
  - by destruct (m !! k).
Qed.
Lemma slot_later_bind jkt id r (m : gmap Uuid Session) k :
  m !! id = Some r -> s_jkt r = None -> slot_later (m !! k) (<[id := with_jkt (Some jkt) r]> m !! k).
Proof.
  intros E J. destruct (decide (id = k)) as [->|N]; [|by rewrite lookup_insert_ne].
  rewrite lookup_insert_eq, E. cbn. split_and!; try done. cbn. intros j. by rewrite J.
Qed.
#[export] Hint Resolve slot_later_alter slot_later_revoke_where slot_later_others slot_later_delete_where slot_later_bind : later.

(** ** What a request may insert *)
Section Minting.
Context `{UuidText} (n : N).
Definition drawn (tok : str) : Prop := exists d, (n <= d)%N ∧ tok = uuid_to_string d.
Definition allowed (c : cmd) : Prop :=
  match c with
  | QCreateSession id row => (n <= id)%N ∧ drawn (s_token row) ∧ (n <= s_family row)%N ∧ s_revoked row = false
  | QRotate _ id row => (n <= id)%N ∧ drawn (s_token row) ∧ s_revoked row = false
  | _ => True
  end.
Definition possible (c : cmd) : answer c -> Prop :=
  match c return answer c -> Prop with CRandom => fun x => (n <= x)%N | _ => fun _ => True end.
(** Every draw being at least [n], the program inserts rows of its own and ends with [Q]. *)
Fixpoint mints {A} (Q : A -> Prop) (p : prog A) : Prop :=
  match p with
  | Ret a => Q a
  | Do c k => allowed c ∧ forall x, possible c x -> mints Q (k x)
  end.
Lemma mints_bind {A B} (Q : A -> Prop) (R : B -> Prop) p f :
  mints Q p -> (forall a, Q a -> mints R (f a)) -> mints R (pbind p f).
Proof. intros Hp Hf. induction p as [a|c k IH]; cbn in *; [auto|]. destruct Hp as [Hc Hk]. split; [done|]. auto. Qed.
Lemma mints_weaken {A} (Q R : A -> Prop) p : mints Q p -> (forall a, Q a -> R a) -> mints R p.
Proof. intros Hp Hw. induction p as [a|c k IH]; cbn in *; [auto|]. destruct Hp as [Hc Hk]. split; [done|]. auto. Qed.
Lemma mints_call (c : cmd) : allowed c -> mints (possible c) (call c).
Proof. by split. Qed.

Lemma exec_later c s : allowed c -> later n (sessions s) (sessions (exec c s).2).
Proof.
  intros Ha.
  destruct c; cbn [exec allowed] in *;
    unfold read, write_sessions, sql, insert_tx; repeat case_match; simplify_eq; cbn [fst snd sessions set_sessions set_links set_codes drop_fault] in *; try reflexivity.
  1: destruct Ha as [L _]; eapply later_insert; eassumption.
  1: destruct Ha as [L _]; transitivity (alter revoked old (sessions s)); [intros k _; apply slot_later_alter|eapply later_insert; eassumption].
  all: try intros k _; eauto with later.
Qed.
End Minting.
Lemma inherit_token p r : s_token (inherit p r) = s_token r.
Proof. unfold inherit. by repeat case_match. Qed.
Lemma inherit_revoked p r : s_revoked (inherit p r) = s_revoked r.
Proof. unfold inherit. by repeat case_match. Qed.
Create HintDb session_prog.
#[export] Hint Unfold query link_query code_query get_session_by_refresh_token get_session_by_id revoke_session_family get_user_by_id
  generate_refresh_token new_session generate_access_token build_self_user_dto read_force_password_change
  create_session rotate_session revoke_session revoke_all_user_sessions revoke_other_user_sessions
  revoke_sessions_by_oidc_sid revoke_user_sessions_by_federation_subject end_sessions bind_dpop_jkt
  get_by_device_code get_pending_by_user_code update_device_code list_by_user delete_by_id poll_status
  generate_device_code generate_user_code found rmap : session_prog.
(** A program without inserts but those of its own draws: follow it. *)
Ltac follow :=
  repeat first
    [ done
    | progress cbn [mints pbind call allowed possible fst snd s_token s_family s_revoked with_jkt]
    | rewrite inherit_token | rewrite inherit_revoked
    | progress autounfold with session_prog
    | match goal with
      | |- _ ∧ _ => split
      | |- forall _, _ => intro
      | |- drawn _ (uuid_to_string ?d) => by exists d
      | |- context [match ?x with _ => _ end] => destruct x
      end ].
Section Programs.
Context `{UuidText} `{Jwt} (n : N).
Notation yields := (mints n (fun _ => True)).
Lemma refresh_token_mints cfg token : yields (refresh_token cfg token).
Proof. unfold refresh_token. follow. Qed.
Lemma mint_session_mints cfg id user jkt origin : yields (mint_session_for_authenticated_user cfg id user jkt origin).
Proof. unfold mint_session_for_authenticated_user. follow. Qed.
Lemma redeem_magic_link_mints cfg token challenge confirmed : yields (redeem_magic_link cfg token challenge confirmed).
Proof. unfold redeem_magic_link. follow. Qed.
Lemma approve_mints upper svc user_code user : yields (approve upper svc user_code user).
Proof. unfold approve. follow. Qed.
End Programs.
Lemma program_mints w n q : mints (H := w_uuid w) n (fun _ => True) (program w q).
Proof.
  destruct q; cbn [program]; unfold reply; apply mints_bind with (Q := fun _ => True); try (by intros a _).
  - apply refresh_token_mints.
  - unfold logout. follow.
  - unfold backchannel_logout. follow.
  - unfold logout_all. follow.
  - unfold password_changed. follow.
  - unfold get_session_id_by_refresh_token. follow.
  - unfold bind_dpop_jkt_to_session. follow.
  - unfold admin_revoke_session. follow.
  - apply mint_session_mints.
  - apply redeem_magic_link_mints.
  - unfold issue_link. follow.
  - unfold sweep_links. follow.
  - unfold run_once. follow.
  - unfold initiate. follow.
  - unfold verify_user_code. follow.
  - apply approve_mints.
  - unfold deny. follow.
  - unfold poll. follow.
  - unfold cleanup_expired. follow.
  - follow.
  - unfold revoke_device. follow.
Qed.
