(* ===== verification/SessionSafety.v ===== *)
(** * Sessions: safety of requests in parallel

    What holds however the requests interleave: rows of sessions only age, the token of a
    revoked session buys nothing any more, and a magic link is spent once. *)

From S2P Require Import Prelude.
From S2P Require Import RustStr.
From S2P Require Import DomainErrors.
From S2P Require Import SessionDb.
From S2P Require Import SessionTokens.
From S2P Require Import SessionService.
From S2P Require Import SessionDevice.
From S2P Require Import SessionPool.

#[local] Arguments lit : simpl never.

(** ** Look-ups *)
Lemma find_Some {V} (p : V -> bool) (m : gmap Uuid V) id v : find p m = Some (id, v) -> m !! id = Some v ∧ p v = true.
Proof.
  unfold find. intros E. assert ((id, v) ∈ filter (fun x : Uuid * V => p x.2 = true) (map_to_list m)) as H.
  { destruct (filter _ _); [done|]. injection E as ->. left. }
  apply list_elem_of_filter in H as [Hp H]. by apply elem_of_map_to_list in H.
Qed.
Lemma find_None {V} (p : V -> bool) (m : gmap Uuid V) id v : find p m = None -> m !! id = Some v -> p v = false.
Proof.
  unfold find. intros E L. apply elem_of_map_to_list in L.
  destruct (p v) eqn:P; [|done]. assert ((id, v) ∈ filter (fun x : Uuid * V => p x.2 = true) (map_to_list m)) as H.
  { by apply list_elem_of_filter. }
  destruct (filter _ _); [by apply not_elem_of_nil in H|done].
Qed.
Lemma token_is_true token r : token_is token r = true <-> s_token r = token.
Proof. unfold token_is. by rewrite bool_decide_eq_true. Qed.
Lemma exec_fresh c s : (fresh s <= fresh (exec c s).2)%N.
Proof.
  destruct c; cbn [exec]; unfold read, write_sessions, sql, insert_tx; repeat case_match; simplify_eq; cbn; lia.
Qed.
Lemma exec_possible n c s : (n <= fresh s)%N -> possible n c (exec c s).1.
Proof. destruct c; done. Qed.

(** ** Inserts *)
Lemma insert_unique_rows {V} id (row : V) p (m m' : gmap Uuid V) k r :
  insert_unique p id row m = Some m' -> m' !! k = Some r -> k = id ∧ r = row ∨ m !! k = Some r.
Proof. unfold insert_unique. destruct (_ || _); [done|]. intros [= <-]. rewrite lookup_insert_Some. intros [[<- <-]|[_ E]]; auto. Qed.
(** What a transaction that inserts leaves. *)
Lemma insert_tx_sessions f s : sessions (insert_tx f s).2 = sessions s ∨ f (sessions s) = Some (sessions (insert_tx f s).2).
Proof. unfold insert_tx. repeat case_match; cbn in *; auto. Qed.
Definition inserts (c : cmd) : bool := match c with QCreateSession _ _ | QRotate _ _ _ => true | _ => false end.
(** Other statements leave only rows that were there. *)
Lemma exec_rows_aged `{UuidText} c s id r : inserts c = false -> sessions (exec c s).2 !! id = Some r ->
  exists r0, sessions s !! id = Some r0 ∧ row_later r0 r.
Proof.
  intros Hi E. assert (allowed (N.succ id) c) as Ha by by destruct c.
  pose proof (exec_later _ c s Ha id ltac:(lia)) as HL. rewrite E in HL.
  destruct (sessions s !! id) as [r0|]; [eauto|done].
Qed.

(** ** Well-formed tables of sessions *)
(** Identifiers, tokens and families come from draws, and tokens are unique. *)
Record minted `{UuidText} (s : Auth) : Prop := {
  minted_id id r : sessions s !! id = Some r -> (id < fresh s)%N;
  minted_token id r : sessions s !! id = Some r -> exists d, (d < fresh s)%N ∧ s_token r = uuid_to_string d;
  minted_family id r : sessions s !! id = Some r -> (s_family r < fresh s)%N;
  minted_unique id id' r r' : sessions s !! id = Some r -> sessions s !! id' = Some r' -> s_token r = s_token r' -> id = id';
}.
#[export] Instance uuid_to_string_inj `{UuidText} : Inj (=) (=) uuid_to_string.
Proof. intros u v E. assert (Some u = Some v) as [= ->]; [|done]. by rewrite <- !uuid_parse_to_string, E. Qed.

(** ** Rows since the requests began *)
Section Since.
Context (w : World) (s0 : Auth).
Notation n := (fresh s0).
Let U : UuidText := w_uuid w.
#[local] Existing Instance U.
(** The rows of [s0] have aged and the others hold tokens drawn since. *)
Definition since (s : Auth) : Prop :=
  (n <= fresh s)%N ∧ later n (sessions s0) (sessions s)
  ∧ forall id r, sessions s !! id = Some r -> (n <= id)%N -> drawn n (s_token r).
Lemma since_refl : minted s0 -> since s0.
Proof. intros Hm. split_and!; [done|done|]. intros id r E L. pose proof (minted_id _ Hm _ _ E). lia. Qed.
(** A row after a statement: an older row aged, or one just inserted. *)
Lemma exec_rows c s id r : allowed n c -> sessions (exec c s).2 !! id = Some r ->
  drawn n (s_token r) ∨ exists r0, sessions s !! id = Some r0 ∧ row_later r0 r.
Proof.
  intros Ha E. destruct (inserts c) eqn:Hi; [|right; by eapply exec_rows_aged].
  destruct c; try done; cbn [exec answer] in E.
  - destruct (insert_tx_sessions (insert_unique (token_is (s_token row)) id0 row) s) as [F|F].
    { rewrite F in E. right. by exists r. }
    destruct (insert_unique_rows _ _ _ _ _ _ _ F E) as [[-> ->]|E']; [left; apply Ha|right; by exists r].
  - destruct (insert_tx_sessions (fun m => insert_unique (token_is (s_token row)) id0 row (alter revoked old m)) s) as [F|F].
    { rewrite F in E. right. by exists r. }
    destruct (insert_unique_rows _ _ _ _ _ _ _ F E) as [[-> ->]|E']; [left; apply Ha|].
    right. pose proof (slot_later_alter (sessions s) old id) as H. rewrite E' in H.
    destruct (sessions s !! id) as [r0|]; [eauto|done].
Qed.
Lemma since_exec c s : allowed n c -> since s -> since (exec c s).2.
Proof.
  intros Ha (Hf & Hl & Hd). split_and!.
  - pose proof (exec_fresh c s). lia.
  - etransitivity; [done|]. by apply exec_later.
  - intros id r E L. destruct (exec_rows _ _ _ _ Ha E) as [D|(r0 & E0 & R)]; [done|].
    destruct R as (_ & -> & _). eauto.
Qed.
Lemma since_env s s' : env s s' -> since s -> since s'.
Proof. intros (E & _ & _ & F & _) (Hf & Hl & Hd). unfold since. rewrite E, F. auto. Qed.
(** The row of a token that was there before. *)
Lemma since_find s id0 r0 id r : minted s0 -> since s -> sessions s0 !! id0 = Some r0 -> sessions s !! id = Some r ->
  s_token r = s_token r0 -> id = id0 ∧ row_later r0 r.
Proof.
  intros Hm (_ & Hl & Hd) E0 E T. destruct (decide (id < n)%N) as [L|L].
  - specialize (Hl id L). rewrite E in Hl. destruct (sessions s0 !! id) as [r1|] eqn:E1; [|done].
    assert (id = id0) as ->; [|simplify_eq; done].
    apply (minted_unique _ Hm id id0 r1 r0 E1 E0). by rewrite <- T, (proj1 (proj2 Hl)).
  - destruct (Hd id r E ltac:(lia)) as (d & Ld & Td). destruct (minted_token _ Hm _ _ E0) as (d0 & Ld0 & Td0).
    rewrite Td, Td0 in T. apply (inj _) in T. lia.
Qed.

(** ** Requests *)
(** What is left of a program after its next command. *)
Definition advance {A} (p : prog A) (s : Auth) : prog A := match p with Ret a => Ret a | Do c k => k (exec c s).1 end.
(** A property of what is left of requests, which their statements keep. *)
Lemma runs_rest (F : Request -> prog Reply -> Prop) pool s :
  (forall q, F q (program w q)) ->
  (forall q p s, since s -> F q p -> F q (advance p s)) ->
  minted s0 -> runs w s0 pool s -> since s ∧ forall i th, pool !! i = Some th -> F (th_request th) (th_rest th).
Proof.
  intros F0 FS Hm R.
  apply (runs_pool_ok w since (fun q p _ _ => mints n (fun _ => True) p ∧ F q p)) in R as [Hs Ht].
  - split; [done|]. intros i th E. apply (Ht i th E).
  - apply since_env.
  - done.
  - intros q s' _. split; [apply program_mints|done].
  - intros q c k seen s' Hs [[Ha _] _]. by apply since_exec.
  - intros q c k seen s' Hs [[_ Hk] HF]. split; [apply Hk, exec_possible, Hs|by apply (FS q (Do c k))].
  - done.
  - by apply since_refl.
Qed.
Definition refused (a : Reply) : Prop := exists e, a = ReAuth (Err e).
Lemma mints_advance {A} (Q : A -> Prop) p s : since s -> mints n Q p -> mints n Q (advance p s).
Proof. intros Hs. destruct p as [a|c k]; cbn [mints advance]; [done|]. intros [_ Hk]. apply Hk, exec_possible, Hs. Qed.
(** Once a refresh has read a revoked session, it can only be refused. *)
Lemma refresh_revoked_refused token r0 id0 s : minted s0 -> since s ->
  sessions s0 !! id0 = Some r0 -> s_token r0 = token -> s_revoked r0 = true ->
  mints n refused (advance (program w (RRefresh token)) s).
Proof.
  intros Hm Hs E0 T0 R0. cbn [program]. unfold reply, refresh_token, get_session_by_refresh_token, query.
  cbn [pbind call advance exec answer]. unfold read, sql.
  destruct (next_fault s) as [e|]; cbn [fst rmap found pbind mints]; [by eexists|].
  change (sessions (drop_fault s)) with (sessions s).
  destruct (find (token_is token) (sessions s)) as [[id r]|] eqn:F; cbn [fst rmap found pbind mints]; [|by eexists].
  apply find_Some in F as [E T%token_is_true].
  destruct (since_find s id0 r0 id r Hm Hs E0 E) as [-> (_ & _ & _ & _ & _ & Hr & _)]; [congruence|].
  rewrite (Hr R0). autounfold with session_prog. cbn [pbind call mints allowed possible].
  split; [done|]. intros x _. destruct x; cbn [pbind mints]; by eexists.
Qed.
Lemma revoked_token_refused id0 r0 pool s i token reply : minted s0 ->
  sessions s0 !! id0 = Some r0 -> s_token r0 = token -> s_revoked r0 = true -> runs w s0 pool s ->
  (exists seen, pool !! i = Some (mkThread (RRefresh token) (Ret reply) seen)) -> refused reply.
Proof.
  intros Hm E0 T0 R0 R [seen L].
  destruct (runs_rest (fun q p => q = RRefresh token -> p = program w q ∨ mints n refused p) pool s) as [_ H]; auto.
  - intros q p s' Hs Hp ->. right. destruct (Hp eq_refl) as [->|Hp']; [|by apply mints_advance].
    by eapply refresh_revoked_refused.
  - destruct (H i _ L eq_refl) as [E|H']; [done|apply H'].
Qed.
End Since.

(** * Magic links: redemption

    However requests interleave, a link is spent by at most one of them, and a redemption that
    succeeds has spent the link its token named. *)

(** ** Spending *)
Definition spends (seen : list event) : list Uuid := omap (fun e => match e with SpentLink id => Some id | SawLink _ _ => None end) seen.
Definition all_spent (pool : list thread) : list Uuid := concat ((fun th => spends (th_seen th)) <$> pool).
Definition used (s : Auth) (id : Uuid) : Prop := exists l, links s !! id = Some l ∧ l_status l = LUsed.
Lemma exec_used c s id : used s id -> used (exec c s).2 id.
Proof.
  intros (l & E & U). assert (forall p (m : gmap Uuid MagicLinkToken) row k, insert_unique p k row (links s) = Some m -> used (set_links m s) id) as Hins.
  { intros p m row k. unfold insert_unique. case_bool_decide as Hk; [done|]. destruct (taken p _); [done|].
    intros [= <-]. exists l. split; [|done]. cbn. rewrite lookup_insert_ne; [done|]. intros ->. apply Hk. by exists l. }
  destruct c; cbn [exec answer]; unfold read, write_sessions, sql, insert_tx; repeat case_match; simplify_eq; cbn in *; try (by exists l).
  - eapply Hins. eassumption.
  - destruct (decide (id0 = id)) as [->|N]; [simplify_eq; exists (link_status LUsed l); cbn|exists l]; (split; [|done]); cbn.
    + by rewrite lookup_insert_eq.
    + by rewrite lookup_insert_ne.
  - exists l. split; [|done]. cbn. apply map_lookup_filter_Some. split; [done|]. cbn. unfold stale_link. by rewrite U.
Qed.
Lemma spend_once c s id : id ∈ spends (observed c (exec c s).1) -> ~ used s id ∧ used (exec c s).2 id ∧ spends (observed c (exec c s).1) = [id].
Proof.
  destruct c; cbn [observed]; try (by intros ?%elem_of_nil).
  - cbn [exec answer]. unfold read, sql. destruct (next_fault s); cbn; [by intros ?%elem_of_nil|].
    destruct (find _ _) as [[? ?]|]; by intros ?%elem_of_nil.
  - cbn [exec answer]. unfold sql. destruct (next_fault s); cbn; [by intros ?%elem_of_nil|].
    destruct (links s !! id0) as [l|] eqn:E; cbn; [|by intros ?%elem_of_nil].
    destruct (redeemable (now s) l) eqn:R; cbn; [|by intros ?%elem_of_nil].
    intros ->%list_elem_of_singleton. split_and!; [| |done].
    + intros (l' & E' & U). simplify_eq. unfold redeemable in R. by rewrite U in R.
    + exists (link_status LUsed l). cbn. by rewrite lookup_insert_eq.
Qed.

(** ** The pool *)
Definition spent_ok (x : list thread * Auth) : Prop := NoDup (all_spent x.1) ∧ forall id, id ∈ all_spent x.1 -> used x.2 id.
Lemma all_spent_insert pool i q p seen q' p' new : pool !! i = Some (mkThread q p seen) ->
  all_spent (<[i := mkThread q' p' (seen ++ new)]> pool) ≡ₚ all_spent pool ++ spends new.
Proof.
  intros L. unfold all_spent. rewrite insert_take_drop by (by eapply lookup_lt_Some).
  rewrite <- (take_drop_middle pool i _ L) at 3. rewrite !fmap_app, !concat_app. cbn.
  unfold spends at 2. rewrite omap_app. fold (spends seen) (spends new).
  rewrite <- !app_assoc. apply Permutation_app_head. apply Permutation_app_head. apply Permutation_app_comm.
Qed.
Lemma step_spent_ok w x y : step w x y -> spent_ok x -> spent_ok y.
Proof.
  intros [pool s q|pool s s' E|pool s i q c k seen L] [Hn Hu]; cbn [fst snd] in *; unfold spent_ok; cbn [fst snd].
  - unfold all_spent in *. rewrite fmap_app, concat_app. cbn. by rewrite app_nil_r.
  - split; [done|]. destruct E as (_ & E & _). intros id H. destruct (Hu id H) as (l & E' & U). exists l. by rewrite E.
  - rewrite (all_spent_insert pool i q (Do c k) seen) by done.
    assert (forall id, id ∈ spends (observed c (exec c s).1) -> id ∉ all_spent pool) as Hd.
    { intros id [N _]%spend_once H. auto. }
    split.
    + apply list.NoDup_app. split_and!; [done|by intros id H1 H2; eapply Hd|].
      destruct (spends (observed c (exec c s).1)) as [|id l] eqn:E; [constructor|].
      destruct (spend_once c s id) as (_ & _ & E'); [rewrite E; left|]. rewrite E in E'. injection E' as ->. apply NoDup_singleton.
    + intros id H. rewrite (all_spent_insert pool i q (Do c k) seen) in H by done. apply elem_of_app in H as [H|H]; [apply exec_used; auto|by apply spend_once].
Qed.
Lemma runs_spent_ok w s pool s' : runs w s pool s' -> spent_ok (pool, s').
Proof.
  intros R. assert (spent_ok ([], s)) as H0 by (split; [constructor|by intros id ?%elem_of_nil]).
  revert R H0. unfold runs. generalize (@nil thread, s) as x, (pool, s') as y.
  induction 1 as [|x y z S _ IH]; [done|]. eauto using step_spent_ok.
Qed.

(** ** The redemption *)
Fixpoint earns {A} (Q : list event -> A -> Prop) (seen : list event) (p : prog A) : Prop :=
  match p with
  | Ret a => Q seen a
  | Do c k => forall x, earns Q (seen ++ observed c x) (k x)
  end.
Lemma earns_bind {A B} (Q : list event -> B -> Prop) seen (p : prog A) f :
  earns (fun seen a => earns Q seen (f a)) seen p -> earns Q seen (pbind p f).
Proof. revert seen. induction p as [a|c k IH]; intros seen; cbn; auto. Qed.
Lemma earns_weaken {A} (Q R : list event -> A -> Prop) seen p : earns Q seen p -> (forall seen a, Q seen a -> R seen a) -> earns R seen p.
Proof. intros Hp Hw. revert seen Hp. induction p as [a|c k IH]; intros seen; cbn; auto. Qed.
Definition paid (token : str) (seen : list event) (r : result DomainError MagicLinkRedeemResult) : Prop :=
  forall m, r = Ok (Allowed m) -> exists id, seen = [SawLink token id; SpentLink id].
Ltac pay :=
  repeat first
    [ done
    | progress cbn [earns pbind call observed app fst snd]
    | progress autounfold with session_prog
    | match goal with
      | |- forall _, _ => intro
      | |- context [match ?x with _ => _ end] => destruct x eqn:?
      end ].
Lemma link_refusal_paid cfg t l challenge confirmed token seen r : link_refusal cfg t l challenge confirmed = Some r -> paid token seen r.
Proof. unfold link_refusal. repeat case_match; by intros [= <-]. Qed.
Lemma redeem_paid `{UuidText} `{Jwt} cfg token challenge confirmed : earns (paid token) [] (redeem_magic_link cfg token challenge confirmed).
Proof. unfold redeem_magic_link. pay; [by eapply link_refusal_paid|by eexists..]. Qed.
Lemma program_paid w token challenge confirmed :
  earns (fun seen a => forall m, a = ReLink (Ok (Allowed m)) -> exists id, seen = [SawLink token id; SpentLink id]) []
        (program w (RRedeem token challenge confirmed)).
Proof.
  cbn [program]. unfold reply. apply earns_bind. cbn [earns].
  eapply earns_weaken; [apply redeem_paid|]. intros seen a Ha m [= ->]. by eapply Ha.
Qed.
(** The request at [i] redeemed the link [id] with [token]. *)
Definition redeemed (pool : list thread) (i : nat) (token : str) (id : Uuid) : Prop :=
  exists challenge confirmed m,
    pool !! i = Some (mkThread (RRedeem token challenge confirmed) (Ret (ReLink (Ok (Allowed m)))) [SawLink token id; SpentLink id]).
Lemma runs_redeemed w s pool s' i token challenge confirmed m seen : runs w s pool s' ->
  pool !! i = Some (mkThread (RRedeem token challenge confirmed) (Ret (ReLink (Ok (Allowed m)))) seen) ->
  exists id, redeemed pool i token id.
Proof.
  intros R L.
  apply (runs_pool_ok w (fun _ => True) (fun q p seen _ => forall token challenge confirmed, q = RRedeem token challenge confirmed ->
    earns (fun seen a => forall m, a = ReLink (Ok (Allowed m)) -> exists id, seen = [SawLink token id; SpentLink id]) seen p)) in R as [_ H]; try done.
  - destruct (H i _ L token challenge confirmed eq_refl m eq_refl) as [id E]. cbn in E. subst seen.
    exists id. by exists challenge, confirmed, m.
  - intros q s0 _ token' ch cf ->. apply program_paid.
  - intros q c k seen0 s0 _ HT token' ch cf E. apply (HT token' ch cf E).
Qed.
Lemma concat_once {A B} (f : A -> list B) l i j a b x : NoDup (concat (f <$> l)) ->
  l !! i = Some a -> l !! j = Some b -> x ∈ f a -> x ∈ f b -> i = j.
Proof.
  revert i j. induction l as [|c l IH]; intros i j Hn Li Lj Ha Hb; [done|].
  cbn in Hn. apply list.NoDup_app in Hn as (_ & Hd & Hn).
  assert (forall k d, l !! k = Some d -> x ∈ f d -> x ∈ concat (f <$> l)) as Hin.
  { intros k d L Hx. apply list_elem_of_In, in_concat. exists (f d).
    split; apply list_elem_of_In; [|done]. apply list_elem_of_fmap_2, list_elem_of_lookup. eauto. }
  destruct i as [|i], j as [|j]; cbn in *; simplify_eq; [done| | |f_equal; eauto].
  - by destruct (Hd x Ha (Hin j b Lj Hb)).
  - by destruct (Hd x Hb (Hin i a Li Ha)).
Qed.
Lemma redeemed_once w s pool s' i j t t' id : runs w s pool s' -> redeemed pool i t id -> redeemed pool j t' id -> i = j.
Proof.
  intros R (c1 & f1 & m1 & L1) (c2 & f2 & m2 & L2). destruct (runs_spent_ok _ _ _ _ R) as [Hn _].
  eapply concat_once; [exact Hn|exact L1|exact L2| |]; by left.
Qed.
