(* ===== verification/SessionSerial.v ===== *)
(** * Sessions: one request after another

    With requests that do not overlap, a family of sessions has at most one live session, and a
    family without one never gets one again. *)

From S2P Require Import Prelude.
From S2P Require Import RustStr.
From S2P Require Import DomainErrors.
From S2P Require Import SessionDb.
From S2P Require Import SessionTokens.
From S2P Require Import SessionService.
From S2P Require Import SessionDevice.
From S2P Require Import SessionPool.
From S2P Require Import SessionSafety.

#[local] Arguments lit : simpl never.

Inductive serial (w : World) : Auth -> Auth -> Prop :=
| serial_none s : serial w s s
| serial_env s s' s'' : env s s' -> serial w s' s'' -> serial w s s''
| serial_request s q s'' : serial w (run (program w q) s).2 s'' -> serial w s s''.

(** ** Live sessions *)
Definition live (m : gmap Uuid Session) (id : Uuid) (r : Session) : Prop := m !! id = Some r ∧ s_revoked r = false.
Definition one_live (m : gmap Uuid Session) : Prop :=
  forall id id' r r', live m id r -> live m id' r' -> s_family r = s_family r' -> id = id'.
Definition dead (m : gmap Uuid Session) (f : Uuid) : Prop := forall id r, live m id r -> s_family r ≠ f.

(** ** What a request does on its own *)
Section Alone.
Context `{UuidText}.
(** The row last read, as long as nothing can have changed it. *)
Definition hold (h : option (Uuid * Session)) (c : cmd) : answer c -> option (Uuid * Session) :=
  match c return answer c -> option (Uuid * Session) with
  | QSessionByToken _ => fun x => match x with Ok y => y | Err _ => None end
  | QUser _ | QForce _ | CNow | CRandom => fun _ => h
  | _ => fun _ => None
  end.
Definition draws (c : cmd) : bool := match c with CRandom => true | _ => false end.
Definition exact (hi : N) (c : cmd) : answer c -> Prop :=
  match c return answer c -> Prop with CRandom => fun x => x = hi | _ => fun _ => True end.
Definition own_draw (hi : N) (row : Session) : Prop := exists d, (d < hi)%N ∧ s_token row = uuid_to_string d.
(** Inserted rows have drawn identifiers and tokens; they start a new family, or continue that
    of the live session that was read last. *)
Definition proper (lo hi : N) (h : option (Uuid * Session)) (c : cmd) : Prop :=
  match c with
  | QCreateSession id row => (id < hi)%N ∧ own_draw hi row ∧ (lo <= s_family row < hi)%N
  | QRotate old id row =>
      (lo <= id < hi)%N ∧ own_draw hi row ∧ exists r, h = Some (old, r) ∧ s_revoked r = false ∧ s_family row = s_family r
  | _ => True
  end.
Fixpoint alone {A} (lo hi : N) (h : option (Uuid * Session)) (p : prog A) : Prop :=
  match p with
  | Ret _ => True
  | Do c k => proper lo hi h c ∧
      forall x, exact hi c x -> alone (if inserts c then hi else lo) (if draws c then N.succ hi else hi) (hold h c x) (k x)
  end.

(** ** Tables *)
Record good (m : gmap Uuid Session) (hi : N) : Prop := {
  good_id id r : m !! id = Some r -> (id < hi)%N;
  good_token id r : m !! id = Some r -> own_draw hi r;
  good_unique id id' r r' : m !! id = Some r -> m !! id' = Some r' -> s_token r = s_token r' -> id = id';
  good_live : one_live m;
}.
Definition families_below (m : gmap Uuid Session) (lo : N) : Prop := forall id r, m !! id = Some r -> (s_family r < lo)%N.
Lemma own_draw_weaken hi hi' r : (hi <= hi')%N -> own_draw hi r -> own_draw hi' r.
Proof. intros L (d & Ld & E). exists d. split; [lia|done]. Qed.
Lemma live_later r r' : row_later r r' -> s_revoked r' = false -> s_revoked r = false.
Proof. intros (_ & _ & _ & _ & _ & R & _) L. destruct (s_revoked r); [|done]. by rewrite R in L. Qed.
(** [m'] has only rows of [m], aged. *)
Definition aged (m m' : gmap Uuid Session) : Prop := forall id r', m' !! id = Some r' -> exists r, m !! id = Some r ∧ row_later r r'.
Lemma aged_live m m' id r' : aged m m' -> live m' id r' -> exists r, live m id r ∧ s_family r' = s_family r.
Proof.
  intros Ha [E L]. destruct (Ha id r' E) as (r & E0 & R). exists r.
  split; [split; [done|by eapply live_later]|apply R].
Qed.
Lemma aged_good m m' hi hi' : (hi <= hi')%N -> aged m m' -> good m hi -> good m' hi'.
Proof.
  intros L Ha [Hi Ht Hu Hl]. split.
  - intros id r E. destruct (Ha id r E) as (r0 & E0 & _). specialize (Hi id r0 E0). lia.
  - intros id r E. destruct (Ha id r E) as (r0 & E0 & R). apply (own_draw_weaken hi); [done|].
    destruct (Ht id r0 E0) as (d & Ld & Ed). exists d. split; [done|]. by rewrite (proj1 (proj2 R)).
  - intros id id' r r' E E' T. destruct (Ha id r E) as (r0 & E0 & R0), (Ha id' r' E') as (r1 & E1 & R1).
    apply (Hu id id' r0 r1 E0 E1). destruct R0 as (_ & T0 & _), R1 as (_ & T1 & _). congruence.
  - intros id id' r r' Hr Hr' F. destruct (aged_live _ _ _ _ Ha Hr) as (r0 & L0 & F0), (aged_live _ _ _ _ Ha Hr') as (r1 & L1 & F1).
    apply (Hl id id' r0 r1 L0 L1). congruence.
Qed.
Lemma aged_dead m m' f : aged m m' -> dead m f -> dead m' f.
Proof. intros Ha Hd id r Hr. destruct (aged_live _ _ _ _ Ha Hr) as (r0 & L0 & ->). eauto. Qed.
Lemma aged_families m m' lo lo' : (lo <= lo')%N -> aged m m' -> families_below m lo -> families_below m' lo'.
Proof.
  intros L Ha Hf id r E. destruct (Ha id r E) as (r0 & E0 & R). rewrite (proj1 (proj2 (proj2 R))).
  specialize (Hf id r0 E0). lia.
Qed.
Lemma families_weaken m lo lo' : (lo <= lo')%N -> families_below m lo -> families_below m lo'.
Proof. intros L Hf id r E. specialize (Hf id r E). lia. Qed.
Lemma aged_refl m : aged m m.
Proof. intros id r E. by exists r. Qed.
(** A new row whose family has no live session. *)
Lemma insert_good m m' hi id row : good m hi -> (id < hi)%N -> own_draw hi row -> dead m (s_family row) ->
  insert_unique (token_is (s_token row)) id row m = Some m' -> good m' hi.
Proof.
  intros [Hi Ht Hu Hl] Lid Hd Hn. unfold insert_unique. case_bool_decide as Hk; [done|].
  unfold taken. destruct (find (token_is (s_token row)) m) as [[? ?]|] eqn:F; [done|]. intros [= <-].
  assert (forall k r, m !! k = Some r -> s_token r ≠ s_token row) as Hfree.
  { intros k r E T. pose proof (find_None _ _ _ _ F E) as N. apply token_is_true in T. congruence. }
  split.
  - intros k r [[<- <-]|[_ E]]%lookup_insert_Some; eauto.
  - intros k r [[<- <-]|[_ E]]%lookup_insert_Some; eauto.
  - intros k k' r r' [[<- <-]|[_ E]]%lookup_insert_Some [[<- <-]|[_ E']]%lookup_insert_Some T; eauto; exfalso.
    + by eapply Hfree.
    + by eapply Hfree.
  - intros k k' r r' [[[<- <-]|[_ E]]%lookup_insert_Some L] [[[<- <-]|[_ E']]%lookup_insert_Some L'] F'; eauto.
    + by destruct (Hn k' r').
    + by destruct (Hn k r).
    + by apply (Hl k k' r r').
Qed.
Lemma insert_dead m m' id row f : dead m f -> s_family row ≠ f ->
  insert_unique (token_is (s_token row)) id row m = Some m' -> dead m' f.
Proof.
  intros Hd N I k r [E L]. destruct (insert_unique_rows _ _ _ _ _ _ _ I E) as [[_ ->]|E']; [done|]. by apply (Hd k r).
Qed.
Lemma insert_families m m' id row lo : families_below m lo -> (s_family row < lo)%N ->
  insert_unique (token_is (s_token row)) id row m = Some m' -> families_below m' lo.
Proof. intros Hf L I k r E. destruct (insert_unique_rows _ _ _ _ _ _ _ I E) as [[_ ->]|E']; eauto. Qed.

(** ** Statements *)
Definition held (m : gmap Uuid Session) (h : option (Uuid * Session)) : Prop := forall id r, h = Some (id, r) -> m !! id = Some r.
Record state_ok (s : Auth) (lo : N) (h : option (Uuid * Session)) : Prop := {
  ok_good : good (sessions s) (fresh s);
  ok_families : families_below (sessions s) lo;
  ok_lo : (lo <= fresh s)%N;
  ok_held : held (sessions s) h;
}.
Lemma exec_draws c s : fresh (exec c s).2 = if draws c then N.succ (fresh s) else fresh s.
Proof.
  destruct c; cbn [exec answer draws]; unfold read, write_sessions, sql, insert_tx; repeat case_match; simplify_eq; done.
Qed.
Lemma exec_exact c s : exact (fresh s) c (exec c s).1.
Proof. by destruct c. Qed.
Lemma exec_held c s h : held (sessions s) h -> held (sessions (exec c s).2) (hold h c (exec c s).1).
Proof.
  intros Hh id r.
  destruct c; cbn [exec answer hold]; try done; unfold read, sql; destruct (next_fault s); cbn [fst snd]; try done; try apply Hh.
  intros F. by apply find_Some in F as [E _].
Qed.
Lemma exec_aged c s : inserts c = false -> aged (sessions s) (sessions (exec c s).2).
Proof. intros Hi id r E. by apply (exec_rows_aged c s id r Hi). Qed.
Lemma revoked_aged old (m : gmap Uuid Session) : aged m (alter revoked old m).
Proof.
  intros id r E. pose proof (slot_later_alter m old id) as H0. rewrite E in H0. destruct (m !! id) as [r0|]; [eauto|done].
Qed.
Definition kept_dead (lo : N) (m m' : gmap Uuid Session) : Prop := forall f, (f < lo)%N -> dead m f -> dead m' f.
Lemma create_ok lo id row s h : state_ok s lo h -> proper lo (fresh s) h (QCreateSession id row) ->
  let s' := (exec (QCreateSession id row) s).2 in
  good (sessions s') (fresh s) ∧ families_below (sessions s') (fresh s) ∧ kept_dead lo (sessions s) (sessions s').
Proof.
  intros [Hg Hf Hlo _] (Lid & Hd & Lf). cbn [exec answer].
  destruct (insert_tx_sessions (insert_unique (token_is (s_token row)) id row) s) as [E|E].
  { rewrite E. split_and!; [done| |by intros f]. by apply (families_weaken _ lo). }
  split_and!.
  - apply (insert_good (sessions s) _ _ id row); [done|done|done| |done]. intros k r [Ek _]. specialize (Hf k r Ek). lia.
  - apply (insert_families (sessions s) _ id row); [|lia|done].
    by apply (families_weaken _ lo).
  - intros f Lf' Hn. apply (insert_dead (sessions s) _ id row); [done|lia|done].
Qed.
Lemma rotate_ok lo old id row s h : state_ok s lo h -> proper lo (fresh s) h (QRotate old id row) ->
  let s' := (exec (QRotate old id row) s).2 in
  good (sessions s') (fresh s) ∧ families_below (sessions s') (fresh s) ∧ kept_dead lo (sessions s) (sessions s').
Proof.
  intros [Hg Hf Hlo Hh] (Lid & Hd & r & -> & Lr & F). specialize (Hh old r eq_refl). cbn [exec answer].
  assert (families_below (sessions s) (fresh s)) as Hf' by (by apply (families_weaken _ lo)).
  destruct (insert_tx_sessions (fun m => insert_unique (token_is (s_token row)) id row (alter revoked old m)) s) as [E|E].
  { rewrite E. split_and!; [done|done|by intros f]. }
  pose proof (revoked_aged old (sessions s)) as Ha.
  assert (dead (alter revoked old (sessions s)) (s_family row)) as Hn.
  { rewrite F. intros k r' Hl' F'. destruct (aged_live _ _ _ _ Ha Hl') as (r0 & L0 & F0).
    assert (k = old) as ->. { apply (good_live _ _ Hg k old r0 r); [done|by split|congruence]. }
    destruct Hl' as [E' L']. rewrite lookup_alter_eq, Hh in E'. cbn in E'. injection E' as <-. done. }
  split_and!.
  - apply (insert_good (alter revoked old (sessions s)) _ _ id row); [|lia|done|done|done]. by apply (aged_good (sessions s) _ (fresh s)).
  - apply (insert_families (alter revoked old (sessions s)) _ id row); [|rewrite F; by apply (Hf' old r)|done].
    by apply (aged_families (sessions s) _ (fresh s)).
  - intros f Lf Hdead. apply (insert_dead (alter revoked old (sessions s)) _ id row); [by apply (aged_dead (sessions s))| |done].
    rewrite F. by apply (Hdead old r).
Qed.
Lemma exec_ok c lo s h : state_ok s lo h -> proper lo (fresh s) h c ->
  state_ok (exec c s).2 (if inserts c then fresh s else lo) (hold h c (exec c s).1) ∧ kept_dead lo (sessions s) (sessions (exec c s).2).
Proof.
  intros Hs Hp. pose proof (exec_draws c s) as Hfr.
  assert (fresh s <= fresh (exec c s).2)%N as Hle by apply exec_fresh.
  destruct (inserts c) eqn:Hi.
  - assert (good (sessions (exec c s).2) (fresh s) ∧ families_below (sessions (exec c s).2) (fresh s)
            ∧ kept_dead lo (sessions s) (sessions (exec c s).2)) as (Hg & Hf & Hd)
      by (destruct c; try done; [by eapply create_ok|by eapply rotate_ok]).
    split; [|done]. split; [|done|done|by destruct c].
    apply (aged_good (sessions (exec c s).2) _ (fresh s)); [done|apply aged_refl|done].
  - pose proof (exec_aged c s Hi) as Ha. destruct Hs as [Hg Hf Hlo Hh]. split; [split|].
    + by apply (aged_good (sessions s) _ (fresh s)).
    + by apply (aged_families (sessions s) _ lo).
    + lia.
    + by apply exec_held.
    + intros f _. by apply aged_dead.
Qed.
Lemma alone_run {A} (p : prog A) lo h s : state_ok s lo h -> alone lo (fresh s) h p ->
  exists lo' h', state_ok (run p s).2 lo' h' ∧ (lo <= lo')%N ∧ kept_dead lo (sessions s) (sessions (run p s).2).
Proof.
  revert lo h s. induction p as [a|c k IH]; intros lo h s Hs Hp; cbn [run].
  - exists lo, h. split_and!; [done|done|by intros f].
  - destruct Hp as [Hp Hk]. destruct (exec_ok c lo s h Hs Hp) as [Hs' Hd].
    specialize (Hk _ (exec_exact c s)). rewrite <- exec_draws in Hk.
    destruct (exec c s) as [x s1]. cbn [fst snd] in *.
    destruct (IH x _ _ s1 Hs' Hk) as (lo' & h' & Hs2 & L & Hd2). exists lo', h'.
    pose proof (ok_lo _ _ _ Hs). assert (lo <= (if inserts c then fresh s else lo))%N by (destruct (inserts c); lia).
    split_and!; [done|lia|]. intros f Lf Hn. apply Hd2; [lia|]. by apply Hd.
Qed.
End Alone.
Lemma inherit_family p r : s_family (inherit p r) = s_family r.
Proof. unfold inherit. by repeat case_match. Qed.
Ltac stand_alone :=
  repeat first
    [ done
    | progress cbn [alone pbind call proper exact hold draws inserts fst snd s_token s_family s_revoked with_jkt] in *
    | progress autounfold with session_prog
    | progress subst
    | match goal with
      | |- _ ∧ _ => split
      | |- forall _, _ => intro
      | |- (_ <= _)%N => lia
      | |- (_ < _)%N => lia
      | |- own_draw _ _ => eexists; split; [|rewrite ?inherit_token; cbn; reflexivity]; lia
      | |- exists r, Some (?o, ?s) = Some (?o, r) ∧ _ => exists s; rewrite ?inherit_family
      | _ : match ?v with Some _ => _ | None => _ end = Ok (?o, _) |- exists r, ?v = Some (?o, r) ∧ _ => destruct v; simplify_eq
      | |- context [match ?x with _ => _ end] => destruct x eqn:?
      end ].
Section AllAlone.
Context `{UuidText} `{Jwt} (lo : N).
Notation by_itself := (alone lo lo None).
Lemma refresh_token_alone cfg token : by_itself (refresh_token cfg token).
Proof. unfold refresh_token. stand_alone. Qed.
Lemma mint_session_alone cfg id user jkt origin : by_itself (mint_session_for_authenticated_user cfg id user jkt origin).
Proof. unfold mint_session_for_authenticated_user. stand_alone. Qed.
Lemma redeem_magic_link_alone cfg token challenge confirmed : by_itself (redeem_magic_link cfg token challenge confirmed).
Proof. unfold redeem_magic_link. stand_alone. Qed.
Lemma approve_alone upper svc user_code user : by_itself (approve upper svc user_code user).
Proof. unfold approve. stand_alone. Qed.
End AllAlone.
Lemma alone_reply `{UuidText} {A} lo hi h (p : prog A) (f : A -> Reply) : alone lo hi h p -> alone lo hi h (pbind p (fun a => Ret (f a))).
Proof. revert lo hi h. induction p as [a|c k IH]; intros lo hi h; cbn; [done|]. intros [Hp Hk]. auto. Qed.
Lemma program_alone w lo q : alone (H := w_uuid w) lo lo None (program w q).
Proof.
  destruct q; cbn [program]; unfold reply; apply alone_reply.
  - apply refresh_token_alone.
  - unfold logout. stand_alone.
  - unfold backchannel_logout. stand_alone.
  - unfold logout_all. stand_alone.
  - unfold password_changed. stand_alone.
  - unfold get_session_id_by_refresh_token. stand_alone.
  - unfold bind_dpop_jkt_to_session. stand_alone.
  - unfold admin_revoke_session. stand_alone.
  - apply mint_session_alone.
  - apply redeem_magic_link_alone.
  - unfold issue_link. stand_alone.
  - unfold sweep_links. stand_alone.
  - unfold run_once. stand_alone.
  - unfold initiate. stand_alone.
  - unfold verify_user_code. stand_alone.
  - apply approve_alone.
  - unfold deny. stand_alone.
  - unfold poll. stand_alone.
  - unfold cleanup_expired. stand_alone.
  - stand_alone.
  - unfold revoke_device. stand_alone.
Qed.

(** ** Requests one after another *)
Definition sound (w : World) (s : Auth) : Prop := minted (H := w_uuid w) s ∧ one_live (sessions s).
Lemma sound_state_ok w s : sound w s <-> state_ok (H := w_uuid w) s (fresh s) None.
Proof.
  split.
  - intros [[Hi Ht Hf Hu] Hl]. split; [by split|done|done|by intros id r].
  - intros [[Hi Ht Hu Hl] Hf _ _]. by repeat split.
Qed.
Lemma run_sound w q s : sound w s -> sound w (run (program w q) s).2 ∧ (fresh s <= fresh (run (program w q) s).2)%N
  ∧ forall f, (f < fresh s)%N -> dead (sessions s) f -> dead (sessions (run (program w q) s).2) f.
Proof.
  rewrite !sound_state_ok. intros Hs.
  destruct (alone_run (H := w_uuid w) (program w q) (fresh s) None s Hs (program_alone w (fresh s) q)) as (lo' & h' & Hs' & L & Hd).
  split_and!; [|pose proof (ok_lo _ _ _ Hs'); lia|done].
  destruct Hs' as [Hg Hf Hlo _]. split; [done|by apply (families_weaken _ lo')|done|by intros id r].
Qed.
Lemma serial_sound w s s' : serial w s s' -> sound w s ->
  sound w s' ∧ forall f, (f < fresh s)%N -> dead (sessions s) f -> dead (sessions s') f.
Proof.
  induction 1 as [s|s s' s'' E _ IH|s q s'' _ IH]; [by auto| |].
  - destruct E as (Es & _ & _ & Ef & _). intros Hs. destruct IH as [H1 H2].
    { rewrite sound_state_ok in *. destruct Hs as [Hg Hf Hl _].
      split; [by rewrite Es, Ef|by rewrite Es, Ef|done|by intros id r]. }
    split; [done|]. intros f Lf Hd. apply H2; [by rewrite Ef|by rewrite Es].
  - intros Hs. destruct (run_sound w q s Hs) as (Hs' & Hf & Hd). destruct (IH Hs') as [H1 H2].
    split; [done|]. intros f Lf Hn. apply H2; [lia|]. by apply Hd.
Qed.
