(* ===== verification/SessionFlow.v ===== *)
(** * Sessions: refreshes and device codes

    The outcome of a refresh on a database that answers, branch by branch, and what follows for
    the family of its session; then what an approval and a poll of a device code do. *)

From S2P Require Import Prelude.
From S2P Require Import RustStr.
From S2P Require Import DomainErrors.
From S2P Require Import SessionDb.
From S2P Require Import SessionTokens.
From S2P Require Import SessionService.
From S2P Require Import SessionDevice.
From S2P Require Import SessionPool.
From S2P Require Import SessionSafety.
From S2P Require Import SessionSerial.

#[local] Arguments lit : simpl never.

(** ** Databases that answer *)
Lemma healthy_drop s : faults s = [] -> drop_fault s = s.
Proof. destruct s. cbn. by intros ->. Qed.
Lemma healthy_next s : faults s = [] -> next_fault s = None.
Proof. unfold next_fault. by intros ->. Qed.
Lemma healthy_sql {T} (f : Auth -> sqlr T * Auth) s : faults s = [] -> sql f s = f s.
Proof. intros Hf. unfold sql. by rewrite (healthy_next s Hf), (healthy_drop s Hf). Qed.
Definition set_fresh (n : N) (s : Auth) : Auth :=
  mkAuth (sessions s) (links s) (codes s) (accounts s) (verified s) (jtis s) (now s) n (faults s).
Lemma healthy_insert f m s : faults s = [] -> f (sessions s) = Some m -> insert_tx f s = (Ok tt, set_sessions m s).
Proof. intros Hf E. unfold insert_tx. by rewrite (healthy_next s Hf), !(healthy_drop s Hf), E, (healthy_next s Hf). Qed.
(** An identifier and a token that nobody has drawn before. *)
Lemma insert_unique_fresh `{UuidText} s id d row m : minted s -> (fresh s <= id)%N -> (fresh s <= d)%N -> s_token row = uuid_to_string d ->
  (m = sessions s ∨ exists old, m = alter revoked old (sessions s)) ->
  insert_unique (token_is (s_token row)) id row m = Some (<[id := row]> m).
Proof.
  intros Hm Li Ld T Hmm.
  assert (forall k r, m !! k = Some r -> exists r0, sessions s !! k = Some r0 ∧ s_token r = s_token r0) as Hr.
  { intros k r E. destruct Hmm as [->|(old & ->)]; [eauto|]. destruct (revoked_aged old (sessions s) k r E) as (r0 & E0 & R).
    exists r0. split; [done|apply R]. }
  unfold insert_unique. rewrite bool_decide_false.
  2:{ intros [r E]. destruct (Hr id r E) as (r0 & E0 & _). pose proof (minted_id _ Hm _ _ E0). lia. }
  unfold taken. destruct (find (token_is (s_token row)) m) as [[k r]|] eqn:F; [|done].
  apply find_Some in F as [E T'%token_is_true]. destruct (Hr k r E) as (r0 & E0 & T0).
  destruct (minted_token _ Hm _ _ E0) as (d0 & L0 & E1). rewrite T' in T0. rewrite T, E1 in T0. apply (inj _) in T0. lia.
Qed.

(** ** The refresh *)
Section Refresh.
Context (w : World).
#[local] Instance refresh_uuid : UuidText := w_uuid w.
#[local] Instance refresh_jwt : Jwt := w_jwt w.
Definition successor (s : Auth) (r : Session) : Session :=
  mkSession (s_user r) (uuid_to_string (fresh s)) (now s + refresh_token_expiry_days (tokens (w_config w)) * day) false (s_family r)
            (s_id_token r) (s_sid r) (s_jkt r) (s_origin r).
Definition refresh_live (s : Auth) (id : Uuid) (r : Session) (u : Account) : Reply * Auth :=
  let n := fresh s in
  match jwt_encode (access_claims (tokens (w_config w)) (now s) (N.succ (N.succ n)) (s_user r) u (Some (N.succ n)) (s_jkt r)) with
  | Err e => (ReAuth (Err (token_error e)), set_fresh (N.succ (N.succ (N.succ n))) s)
  | Ok access =>
      (ReAuth (Ok (mkResponse (s_user r) (bool_decide (is_Some (s_jkt r))) access (uuid_to_string n)
                              (refresh_token_expiry_secs (tokens (w_config w))) (a_force u))),
       set_fresh (N.succ (N.succ (N.succ n))) (set_sessions (<[N.succ n := successor s r]> (alter revoked id (sessions s))) s))
  end.
Definition refresh_outcome (s : Auth) (token : str) : Reply * Auth :=
  match find (token_is token) (sessions s) with
  | None => (ReAuth (Err session_not_found), s)
  | Some (id, r) =>
      if s_revoked r then
        (ReAuth (Err session_invalid), set_sessions (revoke_where (fun r' => bool_decide (s_family r' = s_family r)) (sessions s)) s)
      else if session_expired (now s) r then (ReAuth (Err session_invalid), s)
      else match accounts s !! s_user r with
           | None => (ReAuth (Err user_not_found), s)
           | Some u => if a_active u then refresh_live s id r u else (ReAuth (Err deactivated), s)
           end
  end.
Lemma inherit_new r t tok d : inherit r (mkSession (s_user r) tok t false d None None None (s_origin r))
  = mkSession (s_user r) tok t false d (s_id_token r) (s_sid r) (s_jkt r) (s_origin r).
Proof. destruct r as [? ? ? ? ? [?|] [?|] [?|] ?]; reflexivity. Qed.
Lemma refresh_outcome_run s token : minted s -> faults s = [] -> run (program w (RRefresh token)) s = refresh_outcome s token.
Proof.
  intros Hm Hf. cbn [program]. unfold reply, refresh_outcome, refresh_token. autounfold with session_prog.
  cbn [pbind call run exec answer]. unfold read. rewrite healthy_sql by done.
  destruct (find (token_is token) (sessions s)) as [[id r]|]; cbn [pbind run]; [|done].
  destruct (s_revoked r); cbn [pbind run exec answer].
  { unfold write_sessions. by rewrite healthy_sql by done. }
  destruct (session_expired (now s) r); cbn [pbind run exec answer]; [done|].
  unfold read. rewrite healthy_sql by done. destruct (accounts s !! s_user r) as [u|] eqn:Eu; cbn [pbind run]; [|done].
  destruct (a_active u); cbn [negb pbind run exec answer]; [|done].
  unfold refresh_live. cbn [sessions links codes accounts verified jtis now fresh faults].
  destruct (jwt_encode _) as [access|e]; cbn [pbind run exec answer]; [|done].
  unfold read. rewrite healthy_sql by done. cbn [accounts]. rewrite Eu. cbn [pbind run exec answer].
  unfold read. rewrite healthy_sql by done. cbn [pbind run exec answer]. rewrite !inherit_new.
  erewrite healthy_insert; [|done|cbn [sessions]; apply (insert_unique_fresh s _ (fresh s)); [done|lia|lia|done|by right; exists id]].
  cbn [pbind run exec answer]. unfold read. rewrite healthy_sql by done. cbn [accounts set_sessions]. rewrite Eu. done.
Qed.

(** ** Ends of families *)
Lemma refresh_revoked_run s token id r : find (token_is token) (sessions s) = Some (id, r) -> s_revoked r = true ->
  refused (run (program w (RRefresh token)) s).1.
Proof.
  intros F R. cbn [program]. unfold reply, refresh_token. autounfold with session_prog.
  cbn [pbind call run exec answer]. unfold read, sql. destruct (next_fault s); cbn [pbind run fst]; [by eexists|].
  change (sessions (drop_fault s)) with (sessions s). rewrite F. cbn [pbind run]. rewrite R. cbn [pbind run exec answer].
  unfold write_sessions, sql. destruct (next_fault _); cbn [pbind run fst]; by eexists.
Qed.
Lemma find_unique s token id r : minted s -> sessions s !! id = Some r -> s_token r = token -> find (token_is token) (sessions s) = Some (id, r).
Proof.
  intros Hm E T. destruct (find (token_is token) (sessions s)) as [[id' r']|] eqn:F.
  - apply find_Some in F as [E' T'%token_is_true]. assert (id' = id) as -> by (apply (minted_unique _ Hm _ _ r' r E' E); congruence).
    by simplify_eq.
  - apply (find_None _ _ _ _ F) in E. apply token_is_true in T. congruence.
Qed.
Definition family_is (f : Uuid) (r : Session) : bool := bool_decide (s_family r = f).
Lemma revoke_where_dead f m : dead (revoke_where (family_is f) m) f.
Proof.
  intros id r [E L] F. unfold revoke_where in E. apply lookup_fmap_Some in E as (r0 & <- & E).
  unfold hit, family_is in *. destruct (bool_decide (s_family r0 = f)) eqn:B, (s_revoked r0) eqn:R; cbn in *; try congruence.
  all: rewrite F in B; by rewrite bool_decide_true in B.
Qed.
Lemma replay_dead s token id r : minted s -> faults s = [] -> find (token_is token) (sessions s) = Some (id, r) -> s_revoked r = true ->
  dead (sessions (run (program w (RRefresh token)) s).2) (s_family r).
Proof.
  intros Hm Hf F R. rewrite refresh_outcome_run by done. unfold refresh_outcome. rewrite F, R. apply revoke_where_dead.
Qed.
Lemma logout_run s e token id r : faults s = [] -> find (token_is token) (sessions s) = Some (id, r) ->
  (run (program w (RLogout e (s_user r) token)) s).2 = set_sessions (alter revoked id (sessions s)) s.
Proof.
  intros Hf F. cbn [program]. unfold reply, logout. autounfold with session_prog.
  cbn [pbind call run exec answer]. unfold read. rewrite healthy_sql, F by done. cbn [pbind run].
  rewrite decide_True by done. cbn [pbind run exec answer]. unfold write_sessions. rewrite healthy_sql by done. done.
Qed.
Lemma logout_dead s e token id r : sound w s -> faults s = [] -> find (token_is token) (sessions s) = Some (id, r) -> s_revoked r = false ->
  dead (sessions (run (program w (RLogout e (s_user r) token)) s).2) (s_family r).
Proof.
  intros [Hm Hl] Hf F R. rewrite (logout_run s e token id r Hf F). cbn [sessions set_sessions].
  apply find_Some in F as [E _]. intros k r' Hk F'.
  destruct (aged_live _ _ _ _ (revoked_aged id (sessions s)) Hk) as (r0 & L0 & F0).
  assert (k = id) as -> by (apply (Hl k id r0 r L0); [by split|congruence]).
  destruct Hk as [E' L']. rewrite lookup_alter_eq, E in E'. cbn in E'. injection E' as <-. done.
Qed.
(** The request [q] ends the family of the session [r], the holder of [token]. *)
Definition ends_family (q : Request) (token : str) (r : Session) : Prop :=
  q = RRefresh token ∧ s_revoked r = true ∨ (exists e, q = RLogout e (s_user r) token) ∧ s_revoked r = false.
Lemma ends_family_dead s q token id r : sound w s -> faults s = [] -> find (token_is token) (sessions s) = Some (id, r) ->
  ends_family q token r -> dead (sessions (run (program w q) s).2) (s_family r).
Proof.
  intros Hs Hf F [[-> R]|[[e ->] R]]; [eapply replay_dead; eauto; apply Hs|by eapply logout_dead].
Qed.
End Refresh.

(** * Device authorization: the flow

    What an approval and a poll do on a database that answers, and the life of a code. *)

Section Flow.
Context (w : World).
#[local] Instance flow_uuid : UuidText := w_uuid w.
#[local] Instance flow_jwt : Jwt := w_jwt w.
Notation svc := (tokens (w_config w)).

(** ** The poll *)
Definition by_device (device_code : str) (c : DeviceCode) : bool := bool_decide (c_device c = device_code).
Definition code_tokens (c : DeviceCode) : DeviceTokenSuccess :=
  mkTokenSuccess (default [] (c_access c)) (default [] (c_refresh c)) (refresh_token_expiry_secs svc) (c_scopes c).
Definition write_code (id : Uuid) (c : DeviceCode) (s : Auth) : Auth := set_codes (alter (update_code c) id (codes s)) s.
Definition poll_outcome (s : Auth) (device_code : str) : result DevicePollError DeviceTokenSuccess * Auth :=
  match find (by_device device_code) (codes s) with
  | None => (Err InvalidDeviceCode, s)
  | Some (id, c) =>
      match c_status c with
      | DPending =>
          if code_expired (now s) c then (Err ExpiredToken, write_code id (mark_expired c) s)
          else if is_polling_too_fast (now s) c then (Err SlowDown, s)
          else (Err AuthorizationPending, write_code id (record_poll (now s) c) s)
      | DAuthorized => (Ok (code_tokens c), set_codes (delete id (codes s)) s)
      | DDenied => (Err PollDenied, s)
      | DExpired => (Err ExpiredToken, s)
      end
  end.
Lemma poll_outcome_run s device_code : faults s = [] -> run (poll svc device_code) s = poll_outcome s device_code.
Proof.
  intros Hf. unfold poll, poll_outcome, poll_status. autounfold with session_prog.
  cbn [pbind call run exec answer]. unfold read. rewrite healthy_sql by done. fold (by_device device_code).
  destruct (find (by_device device_code) (codes s)) as [[id c]|]; cbn [pbind run exec answer]; [|done].
  destruct (c_status c) eqn:St; [rewrite bool_decide_true by done|rewrite bool_decide_false by done..];
    rewrite ?andb_true_r, ?andb_false_r.
  - destruct (code_expired (now s) c); cbn [pbind run exec answer]; [by rewrite healthy_sql by done|].
    destruct (is_polling_too_fast (now s) c); cbn [pbind run exec answer]; [done|by rewrite healthy_sql by done].
  - cbn [pbind run exec answer]. by rewrite healthy_sql by done.
  - done.
  - done.
Qed.

(** ** The approval *)
Definition device_session (s : Auth) (user : Uuid) : Session :=
  mkSession user (uuid_to_string (fresh s)) (now s + refresh_token_expiry_days svc * day) false (N.succ (fresh s)) None None None Device.
Definition approve_outcome (s : Auth) (user_code : str) (user : Uuid) : result DomainError unit * Auth :=
  let n := fresh s in
  match find (pending_code (normalized (w_upper w) user_code) (now s)) (codes s) with
  | None => (Err (code_missing (lit "User code not found or expired")), s)
  | Some (id, c) =>
      match accounts s !! user with
      | None => (Err user_not_found, s)
      | Some u =>
          let sid := N.succ (N.succ n) in
          let s' := set_fresh (N.succ (N.succ sid)) s in
          match jwt_encode (access_claims svc (now s) (N.succ sid) user u (Some sid) None) with
          | Err e => (Err (token_error e), s')
          | Ok access =>
              (Ok tt, write_code id (authorize user access (uuid_to_string n) c) (set_sessions (<[sid := device_session s user]> (sessions s)) s'))
          end
      end
  end.
Lemma approve_outcome_run s user_code user : minted s -> faults s = [] ->
  run (approve (w_upper w) svc user_code user) s = approve_outcome s user_code user.
Proof.
  intros Hm Hf. unfold approve, approve_outcome. autounfold with session_prog.
  cbn [pbind call run exec answer]. unfold read. rewrite healthy_sql by done.
  destruct (find _ (codes s)) as [[id c]|] eqn:F; cbn [pbind run exec answer]; [|done].
  assert (code_expired (now s) c = false) as ->.
  { apply find_Some in F as [_ P]. unfold pending_code in P. apply andb_prop in P as [_ P]. unfold code_expired. lia. }
  cbn [pbind run exec answer]. unfold read. rewrite healthy_sql by done.
  destruct (accounts s !! user) as [u|]; cbn [pbind run exec answer]; [|done].
  cbn [sessions links codes accounts verified jtis now fresh faults].
  destruct (jwt_encode _) as [access|e]; cbn [pbind run exec answer]; [|done].
  erewrite healthy_insert; [|done|cbn [sessions]; apply (insert_unique_fresh s _ (fresh s)); [done|lia|lia|done|by left]].
  cbn [pbind run exec answer]. by rewrite healthy_sql by done.
Qed.

(** ** From the approval to the tokens *)
(** The unique index on device codes. *)
Definition codes_ok (m : gmap Uuid DeviceCode) : Prop :=
  forall id id' c c', m !! id = Some c -> m !! id' = Some c' -> c_device c = c_device c' -> id = id'.
Lemma find_device m id c : codes_ok m -> m !! id = Some c -> find (by_device (c_device c)) m = Some (id, c).
Proof.
  intros Hm E. destruct (find (by_device (c_device c)) m) as [[id' c']|] eqn:F.
  - apply find_Some in F as [E' D%bool_decide_eq_true]. assert (id' = id) as -> by (by apply (Hm _ _ c' c)). by simplify_eq.
  - apply (find_None _ _ _ _ F) in E. unfold by_device in E. by rewrite bool_decide_true in E.
Qed.
Lemma write_code_ok id c s : codes_ok (codes s) -> codes_ok (codes (write_code id c s)).
Proof.
  intros Hm. assert (forall k c', codes (write_code id c s) !! k = Some c' -> exists c0, codes s !! k = Some c0 ∧ c_device c' = c_device c0) as Hk.
  { intros k c'. cbn [codes write_code set_codes]. intros [[-> (c0 & E & ->)]|[_ E]]%lookup_alter_Some; eauto. }
  intros k k' c1 c2 E1 E2 D. destruct (Hk _ _ E1) as (d1 & F1 & D1), (Hk _ _ E2) as (d2 & F2 & D2).
  apply (Hm k k' d1 d2 F1 F2). congruence.
Qed.
Lemma poll_written s id c c' : codes_ok (codes s) -> codes s !! id = Some c ->
  find (by_device (c_device c)) (codes (write_code id c' s)) = Some (id, update_code c' c).
Proof.
  intros Hm E. apply (find_device (codes (write_code id c' s)) id (update_code c' c)); [by apply write_code_ok|].
  cbn [codes write_code set_codes]. by rewrite lookup_alter_eq, E.
Qed.
Lemma poll_unknown s id c : codes_ok (codes s) -> codes s !! id = Some c -> find (by_device (c_device c)) (delete id (codes s)) = None.
Proof.
  intros Hm E. destruct (find _ _) as [[id' c']|] eqn:F; [|done].
  apply find_Some in F as [[N E']%lookup_delete_Some D%bool_decide_eq_true]. by destruct N; apply (Hm _ _ c c').
Qed.
Lemma delete_alter_codes (f : DeviceCode -> DeviceCode) id (m : gmap Uuid DeviceCode) : delete id (alter f id m) = delete id m.
Proof. apply map_eq. intros k. destruct (decide (id = k)) as [->|N]; [by rewrite !lookup_delete_eq|]. by rewrite !lookup_delete_ne, lookup_alter_ne by done. Qed.
Lemma deny_run s user_code id c : faults s = [] -> find (pending_code (normalized (w_upper w) user_code) (now s)) (codes s) = Some (id, c) ->
  run (deny (w_upper w) user_code) s = (Ok tt, write_code id (deny_code c) s).
Proof.
  intros Hf F. unfold deny. autounfold with session_prog. cbn [pbind call run exec answer]. unfold read.
  rewrite healthy_sql, F by done. cbn [pbind run exec answer fst snd]. by rewrite healthy_sql by done.
Qed.
Lemma poll_authorized s id c user access refresh : faults s = [] -> codes_ok (codes s) -> codes s !! id = Some c ->
  run (poll svc (c_device c)) (write_code id (authorize user access refresh c) s)
  = (Ok (mkTokenSuccess access refresh (refresh_token_expiry_secs svc) (c_scopes c)), set_codes (delete id (codes s)) s).
Proof.
  intros Hf Hm E. rewrite poll_outcome_run by done. unfold poll_outcome. rewrite poll_written by done.
  cbn [c_status update_code authorize]. unfold write_code. cbn [codes set_codes]. by rewrite delete_alter_codes.
Qed.
Lemma poll_denied s id c : faults s = [] -> codes_ok (codes s) -> codes s !! id = Some c ->
  run (poll svc (c_device c)) (write_code id (deny_code c) s) = (Err PollDenied, write_code id (deny_code c) s).
Proof. intros Hf Hm E. rewrite poll_outcome_run by done. unfold poll_outcome. by rewrite poll_written by done. Qed.
Lemma poll_deleted s id c : faults s = [] -> codes_ok (codes s) -> codes s !! id = Some c ->
  run (poll svc (c_device c)) (set_codes (delete id (codes s)) s) = (Err InvalidDeviceCode, set_codes (delete id (codes s)) s).
Proof.
  intros Hf Hm E. rewrite poll_outcome_run by done. unfold poll_outcome. cbn [codes set_codes]. by rewrite poll_unknown by done.
Qed.
End Flow.
