(* ===== verification/SessionClaims.v ===== *)
(** * Sessions: the claims *)

From S2P Require Import Prelude.
From S2P Require Import RustStr.
From S2P Require Import DomainErrors.
From S2P Require Import SessionDb.
From S2P Require Import SessionTokens.
From S2P Require Import SessionService.
From S2P Require Import SessionDevice.
From S2P Require Import SessionPool.
From S2P Require Import SessionSafety.
From S2P Require Import SessionSerial.
From S2P Require Import SessionFlow.

#[local] Arguments lit : simpl never.

(** ** A concrete server *)
#[local] Instance jwt_countable : Countable JwtClaims.
Proof.
  refine (inj_countable' (fun c => (j_sub c, j_exp c, j_iat c, j_jti c, j_username c, j_email c, j_role c, j_cnf c, j_sid c))
    (fun '(a, b, c, d, e, f, g, h, i) => mkJwt a b c d e f g h i) _).
  by intros [].
Defined.
(** The claims as one number. *)
Definition plain_jwt : Jwt.
Proof.
  refine {|
    jwt_encode c := Ok [Zpos (encode c)];
    jwt_payload tok := match tok with [Zpos p] => decode p | _ => None end;
    jwt_complaint _ := lit "InvalidToken";
  |}.
  intros c tok [= <-]. apply decode_encode.
Defined.
Definition demo_config : Config := mkConfig (mkJwtService 3600 604800) true true.
Definition demo_world : World :=
  mkWorld decimal_uuid_text plain_jwt demo_config (fun n => dec (Z.of_N n)) (fun n => repeat (Z.of_N n) 8) (fun n => dec (Z.of_N n)) (fun s => s).
Definition alice : Account := mkAccount true None None (Some (lit "alice")) (lit "alice@example.org") (lit "user") false.
(** A session of user 1 under the token that is draw [tok]. *)
Definition demo_session (rev : bool) (tok family : N) : Session :=
  mkSession 1 (dec (Z.of_N tok)) (100 * day) rev family None None None Password.
Definition demo_code : DeviceCode :=
  mkCode (lit "dev") (lit "ABCD-1234") (lit "client") (lit "files") DPending None None None (900 * second) 5 None.
Definition demo_link : MagicLinkToken := mkLink (lit "magic") 1 LPending (900 * second) None None.
Definition demo_store (m : gmap Uuid Session) : Auth :=
  mkAuth m {[ 5%N := demo_link ]} {[ 6%N := demo_code ]} {[ 1%N := alice ]} ∅ ∅ second 100 [].
Definition two_sessions : Auth := demo_store (<[10%N := demo_session true 20 30]> {[ 11%N := demo_session false 21 30 ]}).
Lemma two_sessions_sound : sound demo_world two_sessions.
Proof.
  assert (forall id r, sessions two_sessions !! id = Some r ->
    id = 10%N ∧ r = demo_session true 20 30 ∨ id = 11%N ∧ r = demo_session false 21 30) as Hr.
  { intros id r. cbn [sessions two_sessions demo_store]. intros [[<- <-]|[_ E]]%lookup_insert_Some; [auto|].
    apply lookup_singleton_Some in E as [<- <-]. auto. }
  split; [split|].
  - intros id r [[-> ->]|[-> ->]]%Hr; done.
  - intros id r [[-> ->]|[-> ->]]%Hr; [exists 20%N|exists 21%N]; by split.
  - intros id r [[-> ->]|[-> ->]]%Hr; done.
  - intros id id' r r' [[-> ->]|[-> ->]]%Hr [[-> ->]|[-> ->]]%Hr E; done.
  - intros id id' r r' [[[-> ->]|[-> ->]]%Hr L] [[[-> ->]|[-> ->]]%Hr L'] E; done.
Qed.

(** ** Schedules *)
Inductive move := Arrive (q : Request) | Tick (i : nat).
Definition play1 (w : World) (x : list thread * Auth) (m : move) : list thread * Auth :=
  match m with
  | Arrive q => (x.1 ++ [mkThread q (program w q) []], x.2)
  | Tick i =>
      match x.1 !! i with
      | Some (mkThread q (Do c k) seen) =>
          (<[i := mkThread q (k (exec c x.2).1) (seen ++ observed c (exec c x.2).1)]> x.1, (exec c x.2).2)
      | _ => x
      end
  end.
Definition play (w : World) (s : Auth) (ms : list move) : list thread * Auth := foldl (play1 w) ([], s) ms.
Lemma play_runs w s ms : runs w s (play w s ms).1 (play w s ms).2.
Proof.
  unfold runs, play. rewrite <- surjective_pairing.
  assert (forall x, rtc (step w) x (foldl (play1 w) x ms)) as H; [|apply H].
  induction ms as [|m ms IH]; intros [pool s']; [apply rtc_refl|]. cbn [foldl].
  destruct m as [q|i]; cbn [play1 fst snd].
  - eapply rtc_l; [apply step_arrive|apply IH].
  - destruct (pool !! i) as [[q [a|c k] seen]|] eqn:L; [apply IH| |apply IH]. eapply rtc_l; [by apply step_do|apply IH].
Qed.

(** ** However requests interleave *)
(** However any number of requests interleave, with clocks advancing, accounts changing and
    statements failing in between, a session's row only ages: its user, token, family, expiry
    and origin stay, revoked stays revoked, a bound key stays bound; and an identifier from
    before that is not in the table does not come back. *)
Theorem sessions_only_age w s pool s' : minted (H := w_uuid w) s -> runs w s pool s' -> later (fresh s) (sessions s) (sessions s').
Proof. intros Hm R. destruct (runs_rest w s (fun _ _ => True) pool s') as [(_ & Hl & _) _]; auto. Qed.
Lemma sessions_only_age_witness :
  (exists pool s', runs demo_world two_sessions pool s' ∧ sessions s' !! 11%N = Some (revoked (demo_session false 21 30)))
  ∧ later 100 (sessions two_sessions) (sessions (play demo_world two_sessions [Arrive (RLogoutAll 1); Tick 0%nat]).2).
Proof.
  split.
  - exists (play demo_world two_sessions [Arrive (RLogoutAll 1); Tick 0%nat]).1, (play demo_world two_sessions [Arrive (RLogoutAll 1); Tick 0%nat]).2.
    split; [apply play_runs|vm_compute; reflexivity].
  - apply (sessions_only_age demo_world two_sessions (play demo_world two_sessions [Arrive (RLogoutAll 1); Tick 0%nat]).1); [apply two_sessions_sound|apply play_runs].
Defined.

(** C21: However requests interleave, a refresh with the token of a session that was revoked
    before they began is refused. *)
Theorem revoked_token_is_dead w s pool s' id r i seen reply : minted (H := w_uuid w) s ->
  sessions s !! id = Some r -> s_revoked r = true -> runs w s pool s' ->
  pool !! i = Some (mkThread (RRefresh (s_token r)) (Ret reply) seen) -> exists e, reply = ReAuth (Err e).
Proof. intros Hm E R Hr L. apply (revoked_token_refused w s id r pool s' i (s_token r) reply Hm E eq_refl R Hr). eauto. Qed.
Definition replay_play : list move := [Arrive (RRefresh (dec 20)); Tick 0%nat; Tick 0%nat].
Lemma revoked_token_is_dead_witness :
  exists reply seen, (play demo_world two_sessions replay_play).1 !! 0%nat = Some (mkThread (RRefresh (dec 20)) (Ret reply) seen)
    ∧ exists e, reply = ReAuth (Err e).
Proof.
  eexists _, _. split; [vm_compute; reflexivity|].
  apply (revoked_token_is_dead demo_world two_sessions (play demo_world two_sessions replay_play).1 (play demo_world two_sessions replay_play).2
           10 (demo_session true 20 30) 0 []); [apply two_sessions_sound|reflexivity|reflexivity|apply play_runs|vm_compute; reflexivity].
Defined.

(** C22: However requests interleave, a redemption that succeeds has spent the link its token
    named, and no two requests spend the same link. *)
Theorem link_redeemed_once w s pool s' : runs w s pool s' ->
  (forall i token challenge confirmed m seen,
     pool !! i = Some (mkThread (RRedeem token challenge confirmed) (Ret (ReLink (Ok (Allowed m)))) seen) ->
     exists id, seen = [SawLink token id; SpentLink id])
  ∧ forall i j th th' id, pool !! i = Some th -> pool !! j = Some th' -> SpentLink id ∈ th_seen th -> SpentLink id ∈ th_seen th' -> i = j.
Proof.
  intros R. split.
  - intros i token challenge confirmed m seen L. destruct (runs_redeemed w s pool s' i token challenge confirmed m seen R L) as (id & c & f & m' & L').
    exists id. rewrite L in L'. by injection L'.
  - intros i j th th' id Li Lj Hi Hj. destruct (runs_spent_ok _ _ _ _ R) as [Hn _].
    assert (forall th0, SpentLink id ∈ th_seen th0 -> id ∈ spends (th_seen th0)) as Hs.
    { intros th0 H0. apply list_elem_of_omap. by exists (SpentLink id). }
    eapply concat_once; [exact Hn|exact Li|exact Lj|by apply Hs|by apply Hs].
Qed.
Definition redeem_play : list move :=
  [Arrive (RRedeem (lit "magic") None false); Arrive (RRedeem (lit "magic") None false); Tick 0; Tick 1; Tick 0; Tick 1; Tick 0; Tick 1]
  ++ repeat (Tick 0) 12.
Lemma link_redeemed_once_witness :
  (exists m, th_rest <$> (play demo_world two_sessions redeem_play).1 !! 0%nat = Some (Ret (ReLink (Ok (Allowed m)))))
  ∧ th_rest <$> (play demo_world two_sessions redeem_play).1 !! 1%nat = Some (Ret (ReLink (Err link_used)))
  ∧ forall j th, (play demo_world two_sessions redeem_play).1 !! j = Some th -> SpentLink 5 ∈ th_seen th -> 0%nat = j.
Proof.
  split; [eexists; vm_compute; reflexivity|]. split; [vm_compute; reflexivity|].
  intros j th L H.
  destruct (link_redeemed_once demo_world two_sessions (play demo_world two_sessions redeem_play).1 (play demo_world two_sessions redeem_play).2 (play_runs _ _ _)) as [_ H2].
  assert (exists th0, (play demo_world two_sessions redeem_play).1 !! 0%nat = Some th0 ∧ SpentLink 5 ∈ th_seen th0) as (th0 & L0 & H0).
  { eexists. split; [vm_compute; reflexivity|]. vm_compute. right. left. }
  by apply (H2 _ _ th0 th 5%N).
Defined.

(** ** One request after another *)
(** C19: Requests that do not overlap keep the table of sessions sound, whatever they are and
    whatever fails: identifiers, tokens and families come from draws, tokens are unique, and a
    family has at most one live session; a family without a live one never gets one again. *)
Theorem families_stay_single w s s' : serial w s s' -> sound w s ->
  minted (H := w_uuid w) s' ∧ one_live (sessions s') ∧ forall f, (f < fresh s)%N -> dead (sessions s) f -> dead (sessions s') f.
Proof. intros R Hs. destruct (serial_sound w s s' R Hs) as [[Hm Hl] Hd]. auto. Qed.
Lemma families_stay_single_witness :
  let s' := (run (program demo_world (RRefresh (dec 21))) two_sessions).2 in
  live (sessions s') 101 (successor demo_world two_sessions (demo_session false 21 30)) ∧ one_live (sessions s').
Proof.
  split; [by split; vm_compute|].
  apply (families_stay_single demo_world two_sessions); [apply serial_request with (q := RRefresh (dec 21)), serial_none|apply two_sessions_sound].
Defined.

(** C20: Signing out with the token of a live session, and presenting the token of a revoked
    one, end the family, provided the database answers the statements of that request: after any
    further requests one after another, whatever fails in them, none of its sessions is live and
    no token of it refreshes.  When the look-up of a sign-out fails, the sign-out reports success
    and the session stays live ([logout_hides_failure]). *)
Theorem ended_families_stay_ended w s q token id r s1 : sound w s -> faults s = [] ->
  find (token_is token) (sessions s) = Some (id, r) -> ends_family q token r -> serial w (run (program w q) s).2 s1 ->
  dead (sessions s1) (s_family r)
  ∧ forall id' r', sessions s1 !! id' = Some r' -> s_family r' = s_family r ->
      exists e, (run (program w (RRefresh (s_token r'))) s1).1 = ReAuth (Err e).
Proof.
  intros Hs Hf F Hq R. destruct (run_sound w q s Hs) as (Hs' & Hfr & _).
  destruct (serial_sound w _ s1 R Hs') as [[Hm1 _] Hd].
  assert (dead (sessions s1) (s_family r)) as Hdead.
  { apply Hd; [|by eapply ends_family_dead]. apply find_Some in F as [E _]. pose proof (minted_family _ (proj1 Hs) _ _ E). lia. }
  split; [done|]. intros id' r' E' F'.
  assert (s_revoked r' = true) as R' by (destruct (s_revoked r') eqn:L; [done|by destruct (Hdead id' r')]).
  apply (refresh_revoked_run w s1 (s_token r') id' r'); [by apply (find_unique w)|done].
Qed.
Lemma ended_families_stay_ended_witness :
  let s1 := (run (program demo_world (RRefresh (dec 20))) two_sessions).2 in
  dead (sessions s1) 30 ∧ exists e, (run (program demo_world (RRefresh (dec 21))) s1).1 = ReAuth (Err e).
Proof.
  destruct (ended_families_stay_ended demo_world two_sessions (RRefresh (dec 20)) (dec 20) 10 (demo_session true 20 30)
    (run (program demo_world (RRefresh (dec 20))) two_sessions).2) as [Hd Hr];
    [apply two_sessions_sound|reflexivity|vm_compute; reflexivity|by left|apply serial_none|].
  split; [exact Hd|]. apply (Hr 11%N (revoked (demo_session false 21 30))); vm_compute; reflexivity.
Defined.

(** C23: What a refresh does on a database that answers, branch by branch: an unknown token, an
    expired session and a missing or inactive account change nothing; a revoked session costs
    its family; a live one is revoked and replaced, in one step, by a session of the same user,
    family, origin, key and provider, under the token the answer carries. *)
Theorem refresh_is_exact w s token : minted (H := w_uuid w) s -> faults s = [] ->
  run (program w (RRefresh token)) s = refresh_outcome w s token.
Proof. intros Hm Hf. by apply refresh_outcome_run. Qed.
Lemma refresh_is_exact_witness :
  run (program demo_world (RRefresh (dec 21))) two_sessions = refresh_outcome demo_world two_sessions (dec 21)
  ∧ sessions (refresh_outcome demo_world two_sessions (dec 21)).2 !! 11%N = Some (demo_session true 21 30)
  ∧ sessions (refresh_outcome demo_world two_sessions (dec 21)).2 !! 101%N = Some (successor demo_world two_sessions (demo_session false 21 30)).
Proof.
  split; [apply refresh_is_exact; [apply two_sessions_sound|reflexivity]|]. split; vm_compute; reflexivity.
Defined.

(** When a user approves a pending code, a live session of theirs is made, and the device's
    next poll gets exactly its tokens; the code is gone then, and later polls do not know it.
    When the user denies the code, polls say so. *)
Theorem device_flow_delivers w s user_code id c user u access : minted (H := w_uuid w) s -> faults s = [] -> codes_ok (codes s) ->
  find (pending_code (normalized (w_upper w) user_code) (now s)) (codes s) = Some (id, c) ->
  accounts s !! user = Some u ->
  jwt_encode (Jwt := w_jwt w) (access_claims (H := w_uuid w) (tokens (w_config w)) (now s) (fresh s + 3) user u (Some (fresh s + 2)%N) None) = Ok access ->
  let s1 := (run (program w (RApprove user_code user)) s).2 in
  let s2 := (run (program w (RPoll (c_device c))) s1).2 in
  let row := device_session w s user in
  (run (program w (RApprove user_code user)) s).1 = ReUnit (Ok tt)
  ∧ sessions s1 = <[(fresh s + 2)%N := row]> (sessions s) ∧ s_user row = user ∧ s_revoked row = false
  ∧ (run (program w (RPoll (c_device c))) s1).1
    = RePoll (Ok (mkTokenSuccess access (s_token row) (refresh_token_expiry_secs (tokens (w_config w))) (c_scopes c)))
  ∧ codes s2 = delete id (codes s)
  ∧ (run (program w (RPoll (c_device c))) s2).1 = RePoll (Err InvalidDeviceCode)
  ∧ (run (program w (RPoll (c_device c))) (run (program w (RDeny user_code)) s).2).1 = RePoll (Err PollDenied).
Proof.
  intros Hm Hf Hc F Eu Ej.
  assert (codes s !! id = Some c) as Ec by (by apply find_Some in F as [E _]).
  replace (fresh s + 2)%N with (N.succ (N.succ (fresh s))) in * by lia. replace (fresh s + 3)%N with (N.succ (N.succ (N.succ (fresh s)))) in * by lia.
  cbn [program]. unfold reply. rewrite !run_pbind, approve_outcome_run by done. unfold approve_outcome, flow_jwt, flow_uuid. rewrite F, Eu, Ej.
  rewrite deny_run with (id := id) (c := c) by done. cbn [run fst snd].
  set (s1 := set_sessions _ (set_fresh _ s)).
  rewrite (poll_authorized w s1 id c) by done. cbn [fst snd].
  rewrite (poll_deleted w s1 id c), (poll_denied w s id c) by done. done.
Qed.
Lemma device_flow_delivers_witness :
  exists access, (run (program demo_world (RPoll (lit "dev"))) (run (program demo_world (RApprove (lit "abcd")  1)) two_sessions).2).1 = RePoll (Err AuthorizationPending)
  ∧ (run (program demo_world (RPoll (lit "dev"))) (run (program demo_world (RApprove (lit "ABCD-1234") 1)) two_sessions).2).1
    = RePoll (Ok (mkTokenSuccess access (dec 100) 604800 (lit "files"))).
Proof.
  assert (exists access, jwt_encode (Jwt := plain_jwt) (access_claims (H := decimal_uuid_text) (mkJwtService 3600 604800) second 103 1 alice (Some 102%N) None) = Ok access) as [access E]
    by (eexists; reflexivity).
  exists access. split; [vm_compute; reflexivity|].
  assert (codes_ok (codes two_sessions)) as Hc.
  { cbn [codes two_sessions demo_store]. intros id id' c c' [<- _]%lookup_singleton_Some [<- _]%lookup_singleton_Some _. reflexivity. }
  destruct (device_flow_delivers demo_world two_sessions (lit "ABCD-1234") 6 demo_code 1 alice access) as (_ & _ & _ & _ & P & _);
    [apply two_sessions_sound|reflexivity|exact Hc|vm_compute; reflexivity|vm_compute; reflexivity|exact E|exact P].
Defined.

(** ** Races *)
Definition both_refresh : list move :=
  [Arrive (RRefresh (dec 21)); Arrive (RRefresh (dec 21)); Tick 0; Tick 1] ++ repeat (Tick 0) 12 ++ repeat (Tick 1) 12.
Definition refresh_and_logout : list move :=
  [Arrive (RRefresh (dec 21)); Arrive (RLogout None 1 (dec 21)); Tick 0; Tick 1; Tick 1] ++ repeat (Tick 0) 12.
Definition signed_in (o : option thread) : Prop := exists q r seen, o = Some (mkThread q (Ret (ReAuth (Ok r))) seen).
(** Overlapping requests do break families.  Two refreshes with the same token that both read
    the session before either rotates it both succeed and leave two live sessions in the family;
    a refresh that read the session before its owner signed out leaves a live one after. *)
Theorem overlapping_refreshes_break_families :
  sound demo_world two_sessions
  ∧ (exists pool s', runs demo_world two_sessions pool s' ∧ signed_in (pool !! 0%nat) ∧ signed_in (pool !! 1%nat) ∧ ~ one_live (sessions s'))
  ∧ exists pool s' id r, runs demo_world two_sessions pool s'
      ∧ th_rest <$> pool !! 1%nat = Some (Ret (ReText (Ok None))) ∧ live (sessions s') id r ∧ s_family r = 30%N.
Proof.
  split; [apply two_sessions_sound|]. split.
  - exists (play demo_world two_sessions both_refresh).1, (play demo_world two_sessions both_refresh).2.
    split; [apply play_runs|]. split; [by eexists _, _, _; vm_compute|]. split; [by eexists _, _, _; vm_compute|].
    intros H. assert (101%N = 104%N) as [=].
    apply (H 101%N 104%N (mkSession 1 (dec 100) (second + 7 * day) false 30 None None None Password) (mkSession 1 (dec 103) (second + 7 * day) false 30 None None None Password));
      [split; vm_compute; reflexivity..|reflexivity].
  - exists (play demo_world two_sessions refresh_and_logout).1, (play demo_world two_sessions refresh_and_logout).2, 101%N,
      (mkSession 1 (dec 100) (second + 7 * day) false 30 None None None Password).
    split; [apply play_runs|]. split; [vm_compute; reflexivity|]. split; [split; vm_compute; reflexivity|reflexivity].
Qed.
Definition poll_and_approve : list move :=
  [Arrive (RPoll (lit "dev")); Arrive (RApprove (lit "ABCD-1234") 1); Tick 0] ++ repeat (Tick 1) 12 ++ repeat (Tick 0) 4.
(** A poll that read the code before its approval writes the code back as it was: the user
    was told the approval succeeded and the session is live, but the code is pending again and
    holds no tokens. *)
Theorem poll_undoes_approval : exists pool s',
  runs demo_world two_sessions pool s'
  ∧ th_rest <$> pool !! 1%nat = Some (Ret (ReUnit (Ok tt)))
  ∧ live (sessions s') 102 (device_session demo_world two_sessions 1)
  ∧ codes s' !! 6%N = Some (record_poll second demo_code).
Proof.
  exists (play demo_world two_sessions poll_and_approve).1, (play demo_world two_sessions poll_and_approve).2.
  split; [apply play_runs|]. split; [vm_compute; reflexivity|]. split; [split; vm_compute; reflexivity|vm_compute; reflexivity].
Qed.

(** ** Logout tokens *)
Lemma exec_jtis c s : jtis s ⊆ jtis (exec c s).2.
Proof.
  destruct c; cbn [exec answer]; unfold read, write_sessions, sql, insert_tx; repeat case_match; simplify_eq; cbn; set_solver.
Qed.
Lemma run_jtis {A} (p : prog A) s : jtis s ⊆ jtis (run p s).2.
Proof.
  revert s. induction p as [a|c k IH]; intros s; cbn [run]; [done|].
  pose proof (exec_jtis c s) as H. destruct (exec c s) as [x s1]. cbn [snd] in H. etransitivity; [exact H|apply IH].
Qed.
(** A logout token whose revocation failed is used up: the provider's retry of it is answered
    with success and revokes nothing. *)
Theorem failed_logout_is_swallowed w s claims jti e : lc_jti claims = Some jti ->
  (run (program w (RBackchannel (Ok claims))) s).1 = ReCount (Err e) ->
  let s1 := (run (program w (RBackchannel (Ok claims))) s).2 in
  run (program w (RBackchannel (Ok claims))) s1 = (ReCount (Ok 0%N), s1).
Proof.
  intros Hj. cbn [program]. unfold reply, backchannel_logout. rewrite Hj. cbn [pbind call run exec answer].
  destruct (bool_decide (jti ∈ jtis s)); cbn [pbind run fst]; [done|]. cbn [exec answer]. intros _.
  rewrite bool_decide_true; [done|]. eapply elem_of_weaken; [|apply run_jtis]. cbn [jtis]. set_solver.
Qed.
Definition provider_session : Session := with_sid (Some (lit "sso")) (demo_session false 21 30).
Definition unlucky : Auth :=
  mkAuth {[ 11%N := provider_session ]} ∅ ∅ {[ 1%N := alice ]} ∅ ∅ second 100 [Some (lit "connection reset")].
Definition logout_claims : LogoutClaims := mkLogoutClaims (lit "https://sso") None (Some (lit "sso")) (Some (lit "jti")).
Lemma failed_logout_is_swallowed_witness :
  let q := RBackchannel (Ok logout_claims) in
  let s1 := (run (program demo_world q) unlucky).2 in
  faults s1 = [] ∧ run (program demo_world q) s1 = (ReCount (Ok 0%N), s1) ∧ live (sessions s1) 11 provider_session.
Proof.
  split; [reflexivity|]. split; [|split; reflexivity].
  apply (failed_logout_is_swallowed demo_world unlucky logout_claims (lit "jti") (map_sqlx_error (lit "connection reset"))); reflexivity.
Defined.

(** ** Access tokens *)
Definition token_expired : DomainError := DomainError.new AccessDenied (lit "TokenService") (lit "Token expired").
(** C24: An access token, validated through any cache the server may have by then, names the user,
    session and key it was minted for until sixty seconds after its expiry, and is refused as
    expired from then on. *)
Theorem access_token_lifetime `{UuidText} `{Jwt} hash `{!Inj (=) (=) hash} svc c t jti id u sid jkt tok t1 t2 t3 :
  cached hash c -> jwt_encode (access_claims svc t jti id u sid jkt) = Ok tok -> (t1 <= t2)%Z ->
  let last := (timestamp t + access_token_expiry svc + leeway)%Z in
  let answer := (validate_token hash t1 t2 t3 tok c).1 in
  ((timestamp t2 <= last)%Z -> exists claims, answer = Ok claims ∧ t_sub_id claims = id ∧ t_sid claims = sid ∧ t_jkt claims = jkt)
  ∧ ((last < timestamp t1)%Z -> answer = Err token_expired).
Proof.
  intros Hc E%jwt_encode_payload L last answer.
  assert (timestamp t1 <= timestamp t2)%Z by (unfold timestamp; apply Z.div_le_mono; [unfold second; lia|done]).
  set (j := access_claims svc t jti id u sid jkt) in *.
  assert (t_sub_id (from_jwt j) = id ∧ t_sid (from_jwt j) = sid ∧ t_jkt (from_jwt j) = jkt) as Hj.
  { cbn. rewrite uuid_parse_to_string. split_and!; [done| |done]. destruct sid; cbn; [by rewrite uuid_parse_to_string|done]. }
  assert (j_exp j + leeway = last)%Z as Hlast by done.
  unfold answer. destruct (validate_token_cases hash t1 t2 t3 tok c Hc) as [->|(j' & E' & -> & L')].
  - unfold verify, jwt_decode. rewrite E, Hlast. destruct (Z.ltb_spec last (timestamp t2)); split; intros; try lia; [done|by exists (from_jwt j)].
  - rewrite E in E'. injection E' as <-. split; [intros _; by exists (from_jwt j)|]. unfold leeway in Hlast. lia.
Qed.
Lemma access_token_lifetime_witness :
  exists tok claims, jwt_encode (Jwt := plain_jwt) (access_claims (H := decimal_uuid_text) (mkJwtService 3600 604800) second 7 1 alice (Some 11%N) None) = Ok tok
    ∧ (validate_token (H := decimal_uuid_text) (H0 := plain_jwt) id (3660 * second) (3660 * second) (3660 * second) tok ∅).1 = Ok claims ∧ t_sub_id claims = 1%N.
Proof.
  eexists. destruct (access_token_lifetime (H := decimal_uuid_text) (H0 := plain_jwt) id (mkJwtService 3600 604800) ∅ second 7 1 alice (Some 11%N) None
    [Zpos (encode (access_claims (H := decimal_uuid_text) (mkJwtService 3600 604800) second 7 1 alice (Some 11%N) None))]
    (3660 * second) (3660 * second) (3660 * second)) as [H1 _]; [constructor|reflexivity|lia|].
  destruct H1 as (claims & E & S & _); [vm_compute; discriminate|]. exists claims. split; [reflexivity|]. split; [exact E|exact S].
Defined.

(** The cache of validations never changes an answer: whatever it holds, a validation answers
    what a full verification at one of its two readings of the clock would. *)
Theorem cached_validation_agrees `{UuidText} `{Jwt} hash `{!Inj (=) (=) hash} c t1 t2 t3 tok : cached hash c ->
  (validate_token hash t1 t2 t3 tok c).1 = verify t1 tok ∨ (validate_token hash t1 t2 t3 tok c).1 = verify t2 tok.
Proof.
  intros Hc. destruct (validate_token_cases hash t1 t2 t3 tok c Hc) as [E|(j & P & E & L)]; [by right|left].
  rewrite E. symmetry. apply verify_ok. exists j. split_and!; [done|done|unfold leeway; lia].
Qed.
(** One text with a good signature. *)
Definition one_token : Jwt.
Proof.
  refine {|
    jwt_encode c := Err (lit "no key");
    jwt_payload tok := if decide (tok = [1%Z]) then Some (mkJwt (dec 1) 3600 0 (dec 7) [] [] (lit "user") None None) else None;
    jwt_complaint _ := lit "InvalidToken";
  |}.
  done.
Defined.
Lemma cached_validation_agrees_witness :
  let ask t := validate_token (H := decimal_uuid_text) (H0 := one_token) id t t t [1%Z] in
  let c := (ask second ∅).2 in
  is_Some (c !! [1%Z])
  ∧ ((ask (2 * second)%Z c).1 = verify (H := decimal_uuid_text) (H0 := one_token) (2 * second) [1%Z]
     ∨ (ask (2 * second)%Z c).1 = verify (H := decimal_uuid_text) (H0 := one_token) (2 * second) [1%Z]).
Proof.
  split; [vm_compute; by eexists|].
  apply (cached_validation_agrees (H := decimal_uuid_text) (H0 := one_token) id), cached_validate, cached_new.
Defined.

(** ** Polls *)
(** Two polls of a device that are both answered with a request to go on are at least the
    code's interval apart; a poll that comes sooner is told to slow down and does not count. *)
Theorem polls_are_spaced w s device_code s2 : codes_ok (codes s) -> faults s = [] ->
  (run (program w (RPoll device_code)) s).1 = RePoll (Err AuthorizationPending) ->
  env (run (program w (RPoll device_code)) s).2 s2 -> faults s2 = [] ->
  exists c, (exists id, find (by_device device_code) (codes s) = Some (id, c))
    ∧ ((run (program w (RPoll device_code)) s2).1 = RePoll (Err AuthorizationPending) -> (c_interval c * second <= now s2 - now s)%Z)
    ∧ ((num_seconds (now s2 - now s) < c_interval c)%Z -> (now s2 <= c_expires c)%Z ->
       run (program w (RPoll device_code)) s2 = (RePoll (Err SlowDown), s2)).
Proof.
  intros Hm Hf. cbn [program]. unfold reply. rewrite !run_pbind, !poll_outcome_run by done.
  unfold poll_outcome at 1 2. destruct (find (by_device device_code) (codes s)) as [[id c]|] eqn:F; [|done].
  destruct (c_status c) eqn:St; try done. destruct (code_expired (now s) c); [done|].
  destruct (is_polling_too_fast (now s) c); [done|]. cbn [run fst snd]. intros _ (_ & _ & Ec & _ & En) Hf2.
  exists c. split; [eauto|]. apply find_Some in F as [E D%bool_decide_eq_true]. subst device_code.
  rewrite poll_outcome_run by done. unfold poll_outcome. rewrite Ec, poll_written by done.
  cbn [c_status update_code record_poll]. rewrite St. cbn [now write_code set_codes] in En.
  assert (num_seconds (now s2 - now s) = (now s2 - now s) / second)%Z as Hq
    by (unfold num_seconds; apply Z.quot_div_nonneg; unfold second; lia).
  unfold code_expired, is_polling_too_fast. cbn [c_last_poll c_expires c_interval update_code record_poll]. split.
  - destruct (c_expires c <? now s2)%Z; [done|]. destruct (Z.ltb_spec (num_seconds (now s2 - now s)) (c_interval c)); [done|].
    intros _. rewrite Hq in *. pose proof (Z.mul_div_le (now s2 - now s) second ltac:(unfold second; lia)). unfold second in *. nia.
  - intros L X. rewrite (proj2 (Z.ltb_ge _ _) X), (proj2 (Z.ltb_lt _ _) L). done.
Qed.
Definition six_seconds_later (s : Auth) : Auth :=
  mkAuth (sessions s) (links s) (codes s) (accounts s) (verified s) (jtis s) (now s + 6 * second) (fresh s) [].
Lemma polls_are_spaced_witness :
  let s2 := six_seconds_later (run (program demo_world (RPoll (lit "dev"))) two_sessions).2 in
  exists c, (run (program demo_world (RPoll (lit "dev"))) s2).1 = RePoll (Err AuthorizationPending)
    ∧ (c_interval c * second <= now s2 - now two_sessions)%Z.
Proof.
  destruct (polls_are_spaced demo_world two_sessions (lit "dev") (six_seconds_later (run (program demo_world (RPoll (lit "dev"))) two_sessions).2))
    as (c & _ & H & _).
  - cbn [codes two_sessions demo_store]. intros id id' c c' [<- _]%lookup_singleton_Some [<- _]%lookup_singleton_Some _. reflexivity.
  - reflexivity.
  - vm_compute. reflexivity.
  - repeat (split; [reflexivity|]). vm_compute. discriminate.
  - reflexivity.
  - exists c. split; [vm_compute; reflexivity|]. apply H. vm_compute. reflexivity.
Defined.

(** ** Smaller facts *)
(** A sign-out that cannot read the session reports success and changes nothing. *)
Lemma logout_hides_failure w s e user token err : next_fault s = Some err ->
  run (program w (RLogout e user token)) s = (ReText (Ok None), drop_fault s).
Proof.
  intros F. cbn [program]. unfold reply, logout. autounfold with session_prog.
  cbn [pbind call run exec answer]. unfold read, sql. by rewrite F.
Qed.
(** The look-up for a change of password knows revoked sessions too. *)
Lemma session_id_of_revoked w s token id r : faults s = [] -> find (token_is token) (sessions s) = Some (id, r) ->
  run (program w (RSessionId token)) s = (ReId (Ok (Some id)), s).
Proof.
  intros Hf F. cbn [program]. unfold reply, get_session_id_by_refresh_token. autounfold with session_prog.
  cbn [pbind call run exec answer]. unfold read. by rewrite healthy_sql, F by done.
Qed.
(** The lifetime of a session is the configured one in whole days: a lifetime below a day makes
    sessions that have expired when they are made. *)
Lemma session_lifetime w s r : (0 <= refresh_token_expiry (tokens (w_config w)))%Z ->
  let life := (s_expires (successor w s r) - now s)%Z in
  (life <= refresh_token_expiry (tokens (w_config w)) * second < life + day)%Z
  ∧ ((refresh_token_expiry (tokens (w_config w)) < 86400)%Z -> life = 0%Z).
Proof.
  intros L. cbn [successor s_expires]. unfold refresh_token_expiry_days. rewrite Z.quot_div_nonneg by lia.
  change (24 * 3600)%Z with 86400%Z. set (e := refresh_token_expiry _) in *.
  pose proof (Z.mul_div_le e 86400 ltac:(lia)). pose proof (Z.mul_succ_div_gt e 86400 ltac:(lia)).
  unfold day, second. split; [nia|]. intros H1. rewrite Z.div_small by lia. lia.
Qed.
(** The clean-up deletes exactly the sessions that expired more than ninety days ago. *)
Lemma cleanup_deletes_expired w s id r : faults s = [] -> sessions s !! id = Some r ->
  sessions (run (program w RCleanup) s).2 !! id = (if (s_expires r <? now s - 90 * day)%Z then None else Some r).
Proof.
  intros Hf E. cbn [program]. unfold reply, run_once. cbn [pbind call run exec answer]. unfold write_sessions.
  rewrite healthy_sql by done. cbn [pbind run snd sessions set_sessions]. unfold delete_where.
  destruct (s_expires r <? now s - 90 * day)%Z eqn:X.
  - apply map_lookup_filter_None. right. intros r' E'. simplify_eq. cbn. unfold RETENTION_DAYS. by rewrite X.
  - apply map_lookup_filter_Some. split; [done|]. cbn. unfold RETENTION_DAYS. done.
Qed.
