(* ===== verification/Principals.v ===== *)
(** * Users and their passwords

    Hashing of passwords, the roles and rows of users, and the principal of a request. *)

From S2P Require Import Prelude.
From S2P Require Import RustStr.
From S2P Require Import DomainErrors.

#[local] Arguments lit : simpl never.

(** * Password hashing

    [src/src/infrastructure/services/password_hasher.rs] over the crate [argon2]. *)

(** The crate [argon2]: the salt is random, and a password verifies against its own hash. *)
Class Argon := {
  argon_hash : N -> str -> result str str;
  argon_verify : str -> str -> result str bool;
  argon_hash_verify salt p h : argon_hash salt p = Ok h -> argon_verify p h = Ok true;
}.

(** [hash_password] once the salt is drawn *)
Definition hash_password_with `{Argon} (salt : N) (p : str) : result DomainError str :=
  map_err (fun e => DomainError.internal_error (lit "PasswordHasher") (lit "Error generating password hash: " ++ e))
    (argon_hash salt p).
Definition verify_password `{Argon} (p h : str) : result DomainError bool :=
  map_err (fun e => DomainError.internal_error (lit "PasswordHasher") (lit "Error processing password hash: " ++ e))
    (argon_verify p h).

Lemma hash_then_verify `{Argon} salt p h : hash_password_with salt p = Ok h -> verify_password p h = Ok true.
Proof.
  unfold hash_password_with, verify_password. destruct (argon_hash salt p) as [x|] eqn:E; [|done].
  intros [= ->]. by rewrite (argon_hash_verify _ _ _ E).
Qed.

(** An instance for concrete scenarios: the hash is the password. *)
Definition plain_argon : Argon.
Proof.
  refine {| argon_hash _ p := Ok p; argon_verify p h := Ok (bool_decide (p = h)) |}.
  intros _ p h [= <-]. by rewrite bool_decide_eq_true_2.
Defined.

(** * Users, their roles and principals

    The role of a user, the columns of [auth.users] that decide who may do what, the lookups of
    users ([src/src/domain/entities/user.rs],
    [src/src/infrastructure/repositories/pg/user_pg_repository.rs]) and the principal of a request
    ([CurrentUser] of [src/src/application/dtos/user_dto.rs]). *)

(** ** Roles *)
Inductive UserRole := ROwner | RAdmin | RUser | RAnonymous.
#[global] Instance UserRole_eq_dec : EqDecision UserRole. Proof. solve_decision. Defined.

Module UserRole.
Definition as_str (r : UserRole) : str :=
  match r with
  | ROwner => lit "owner"
  | RAdmin => lit "admin"
  | RUser => lit "user"
  | RAnonymous => lit "anonymous"
  end.
Definition from_stored (raw : str) : option UserRole :=
  if decide (raw = lit "owner") then Some ROwner
  else if decide (raw = lit "admin") then Some RAdmin
  else if decide (raw = lit "user") then Some RUser
  else None.
Definition from_session (raw : str) : option UserRole :=
  if decide (raw = lit "anonymous") then Some RAnonymous else from_stored raw.
Definition rank (r : UserRole) : Z :=
  match r with RAnonymous => 0 | RUser => 1 | RAdmin => 2 | ROwner => 3 end.
Definition at_least (r min : UserRole) : bool := (rank min <=? rank r)%Z.
Definition outranks (r target : UserRole) : bool := (rank target <? rank r)%Z.
Definition is_anonymous (r : UserRole) : bool := match r with RAnonymous => true | _ => false end.
Definition str_at_least (raw : str) (min : UserRole) : bool :=
  match from_session raw with Some r => at_least r min | None => false end.
End UserRole.

Lemma user_role_stored r : UserRole.from_stored (UserRole.as_str r) = (if UserRole.is_anonymous r then None else Some r).
Proof. by destruct r. Qed.
Lemma user_role_session r : UserRole.from_session (UserRole.as_str r) = Some r.
Proof. by destruct r. Qed.
Lemma from_stored_session raw r : UserRole.from_stored raw = Some r -> UserRole.from_session raw = Some r.
Proof.
  unfold UserRole.from_session. intros E. case_decide as D; [|done]. subst. done.
Qed.
Lemma from_stored_not_anonymous raw r : UserRole.from_stored raw = Some r -> r ≠ RAnonymous.
Proof. unfold UserRole.from_stored. repeat case_decide; by intros [= <-]. Qed.

(** ** Rows of [auth.users] *)
Record UserRow := mkUserRow {
  u_username : option str;
  u_email : str;
  (** [role::text] *)
  u_role : str;
  u_active : bool;
  u_is_external : bool;
  u_force_password_change : bool;
}.
#[global] Instance UserRow_eq_dec : EqDecision UserRow. Proof. solve_decision. Defined.
Abbreviation user_table := (gmap Uuid UserRow).

(** The part of the entity [User] the components ahead read. *)
Record User := mkUser { user_id : Uuid; username : option str; email : str; role : UserRole; is_active : bool }.
Record UserFlags := mkFlags { f_role : UserRole; f_is_external : bool; f_active : bool; f_force_password_change : bool }.
#[global] Instance UserFlags_eq_dec : EqDecision UserFlags. Proof. solve_decision. Defined.

Inductive UserRepositoryError :=
| UNotFound (msg : str)
| UDatabaseError (msg : str).
Definition UserRepositoryError_into (e : UserRepositoryError) : DomainError :=
  match e with
  | UNotFound msg => DomainError.not_found (lit "User") msg
  | UDatabaseError msg => DomainError.internal_error (lit "Database") msg
  end.
(** [{:?}] of a text without characters that [Debug] escapes *)
Definition debug_text (raw : str) : str := [34%Z] ++ raw ++ [34%Z].
Definition role_from_row (row : UserRow) : result UserRepositoryError UserRole :=
  match UserRole.from_stored (u_role row) with
  | Some r => Ok r
  | None => Err (UDatabaseError (lit "unrecognised auth.users.role " ++ debug_text (u_role row)
                   ++ lit " — schema and binary disagree"))
  end.
(** [map_sqlx_error] of [fetch_one]: what a query that found no row or failed becomes *)
Definition one_row {T} (r : result str (option T)) : result UserRepositoryError T :=
  match r with
  | Ok (Some v) => Ok v
  | Ok None => Err (UNotFound (lit "User not found"))
  | Err e => Err (UDatabaseError (lit "Database error: " ++ e))
  end.
Definition row_user (id : Uuid) (row : UserRow) : result UserRepositoryError User :=
  match role_from_row row with
  | Ok r => Ok (mkUser id (u_username row) (u_email row) r (u_active row))
  | Err e => Err e
  end.
Definition row_flags (row : UserRow) : result UserRepositoryError UserFlags :=
  match role_from_row row with
  | Ok r => Ok (mkFlags r (u_is_external row) (u_active row) (u_force_password_change row))
  | Err e => Err e
  end.
(** [WHERE username = $1]; the column is unique *)
Definition sql_by_username (name : str) (users : user_table) : option (Uuid * UserRow) :=
  head (map_to_list (filter (fun x : Uuid * UserRow => u_username x.2 = Some name) users)).
(** The whole lookup, [fault] the error of the database if it fails. *)
Definition get_user_by_username (fault : option str) (name : str) (users : user_table) : result DomainError User :=
  let name := to_ascii_lowercase (trim name) in
  map_err UserRepositoryError_into
    match one_row (match fault with Some e => Err e | None => Ok (sql_by_username name users) end) with
    | Ok (id, row) => row_user id row
    | Err e => Err e
    end.
Definition get_user_by_id (fault : option str) (id : Uuid) (users : user_table) : result DomainError User :=
  map_err UserRepositoryError_into
    match one_row (match fault with Some e => Err e | None => Ok (users !! id) end) with
    | Ok row => row_user id row
    | Err e => Err e
    end.
Definition repo_get_user_flags (fault : option str) (id : Uuid) (users : user_table) : result DomainError UserFlags :=
  map_err UserRepositoryError_into
    match one_row (match fault with Some e => Err e | None => Ok (users !! id) end) with
    | Ok row => row_flags row
    | Err e => Err e
    end.

Lemma sql_by_username_Some name users id row :
  sql_by_username name users = Some (id, row) -> users !! id = Some row ∧ u_username row = Some name.
Proof.
  unfold sql_by_username. intros E%head_Some_elem_of. apply elem_of_map_to_list, map_lookup_filter_Some in E. done.
Qed.
(** With unique user names, the lookup finds the row. *)
Definition unique_names (users : user_table) : Prop :=
  forall i j x y, users !! i = Some x -> users !! j = Some y -> u_username x = u_username y -> u_username x ≠ None -> i = j.
Lemma sql_by_username_unique name users id row :
  unique_names users -> users !! id = Some row -> u_username row = Some name ->
  sql_by_username name users = Some (id, row).
Proof.
  intros U E N. destruct (sql_by_username name users) as [[id' row']|] eqn:S.
  - apply sql_by_username_Some in S as [E' N']. assert (id' = id) as -> by (apply (U _ _ _ _ E' E); congruence).
    congruence.
  - unfold sql_by_username in S. apply head_None, map_to_list_empty_iff in S.
    assert (filter (fun x : Uuid * UserRow => u_username x.2 = Some name) users !! id = Some row) as L
      by (apply map_lookup_filter_Some; done).
    by rewrite S, lookup_empty in L.
Qed.
Lemma get_user_by_username_Ok fault name users u :
  get_user_by_username fault name users = Ok u ->
  exists row, fault = None ∧ users !! user_id u = Some row ∧ u_username row = Some (to_ascii_lowercase (trim name))
    ∧ username u = u_username row ∧ email u = u_email row ∧ is_active u = u_active row
    ∧ UserRole.from_stored (u_role row) = Some (role u).
Proof.
  unfold get_user_by_username. destruct fault; [done|]. cbn [one_row].
  destruct (sql_by_username _ _) as [[id row]|] eqn:E; [|done]. cbn [one_row].
  apply sql_by_username_Some in E as [E N]. unfold row_user, role_from_row.
  destruct (UserRole.from_stored _) as [r|] eqn:R; [|done]. intros [= <-]. cbn. eauto 10.
Qed.
Lemma repo_get_user_flags_Ok fault id users f :
  repo_get_user_flags fault id users = Ok f ->
  exists row, users !! id = Some row ∧ f_active f = u_active row ∧ f_is_external f = u_is_external row
    ∧ f_force_password_change f = u_force_password_change row ∧ UserRole.from_stored (u_role row) = Some (f_role f).
Proof.
  unfold repo_get_user_flags. destruct fault; [done|]. cbn [one_row].
  destruct (users !! id) as [row|]; [|done]. cbn [one_row]. unfold row_flags, role_from_row.
  destruct (UserRole.from_stored _) as [r|] eqn:R; [|done]. intros [= <-]. cbn. eauto 10.
Qed.

(** ** The principal of a request *)
Record CurrentUser := mkCurrent {
  c_id : Uuid;
  c_username : str;
  c_email : str;
  c_role : str;
  c_dpop_jkt : option str;
}.
#[global] Instance CurrentUser_eq_dec : EqDecision CurrentUser. Proof. solve_decision. Defined.
Definition role_enum (cu : CurrentUser) : UserRole := default RAnonymous (UserRole.from_session (c_role cu)).
Definition is_anonymous (cu : CurrentUser) : bool := UserRole.is_anonymous (role_enum cu).
