(* ===== verification/ShareDb.v ===== *)
(** * Share links: the table and its statements

    [storage.shares] of [src/migrations/], the entity of [src/src/domain/entities/share.rs], and
    the statements of [src/src/infrastructure/repositories/pg/share_pg_repository.rs].  The grant
    of a link is a row of the authorization engine's table, and so is its expiry: the statements
    here read it, and the triggers of the two tables remove a link's grant with the link.

    A request is a program over commands, as for sessions: a statement, a call of the engine, a
    reading of the clock or a random draw.  Database faults come from the script of the engine.
    Times are in microseconds, the clock of the table of grants. *)

From stdpp Require Import sorting.
From S2P Require Import Prelude.
From S2P Require Import RustStr.
From S2P Require Import DomainErrors.
From S2P Require Import Authorization.
From S2P Require Import DrivePolicies.
From S2P Require Import Moka.
From S2P Require Import AclDb.
From S2P Require Import AuthzPort.
From S2P Require Import AclEngine.

#[local] Arguments lit : simpl never.

(** ** The entity *)
Inductive ShareItemType := IFile | IFolder.
#[global] Instance ShareItemType_eq_dec : EqDecision ShareItemType. Proof. solve_decision. Defined.
#[global] Instance ShareItemType_countable : Countable ShareItemType.
Proof.
  refine (inj_countable' (fun t => match t with IFile => true | IFolder => false end)
            (fun b : bool => if b then IFile else IFolder) _).
  by intros [].
Defined.
Module ShareItemType.
Definition to_string (t : ShareItemType) : str := match t with IFile => lit "file" | IFolder => lit "folder" end.
Definition try_from (s : str) : result str ShareItemType :=
  if eq_ignore_ascii_case s (lit "file") then Ok IFile
  else if eq_ignore_ascii_case s (lit "folder") then Ok IFolder
  else Err (lit "Validation error: Invalid item type: " ++ s).
End ShareItemType.
Record Share := mkShare {
  s_id : Uuid;
  s_item_id : str;
  s_item_name : option str;
  s_item_type : ShareItemType;
  s_token : str;
  s_password_hash : option str;
  s_expires_at : option Z;
  s_created_at : Z;
  s_created_by : Uuid;
  s_access_count : Z;
  s_max_downloads : option Z;
  s_download_count : Z;
}.
Definition has_password (s : Share) : bool := bool_decide (is_Some (s_password_hash s)).
(** [SystemTime::now()] in whole seconds *)
Definition epoch_secs (t : Z) : Z := (t / 1000000)%Z.
Definition is_expired (t : Z) (s : Share) : bool :=
  match s_expires_at s with Some e => (e <=? epoch_secs t)%Z | None => false end.
Definition with_password (h : option str) (s : Share) : Share :=
  mkShare (s_id s) (s_item_id s) (s_item_name s) (s_item_type s) (s_token s) h (s_expires_at s)
    (s_created_at s) (s_created_by s) (s_access_count s) (s_max_downloads s) (s_download_count s).
Definition with_max_downloads (n : option Z) (s : Share) : Share :=
  mkShare (s_id s) (s_item_id s) (s_item_name s) (s_item_type s) (s_token s) (s_password_hash s) (s_expires_at s)
    (s_created_at s) (s_created_by s) (s_access_count s) n (s_download_count s).

(** ** The table *)
Record ShareRow := mkShareRow {
  r_item_id : str;
  r_item_name : option str;
  r_item_type : str;
  r_token : str;
  r_password_hash : option str;
  r_created_at : Z;
  r_created_by : Uuid;
  r_access_count : Z;
  r_max_downloads : option Z;
  r_download_count : Z;
}.
(** [n as i64], [n as u32] *)
Definition as_i64 (n : Z) : Z := ((n + 9223372036854775808) mod 18446744073709551616 - 9223372036854775808)%Z.
(** The columns an entity is bound to. *)
Definition entity_to_row (s : Share) : ShareRow :=
  mkShareRow (s_item_id s) (s_item_name s) (ShareItemType.to_string (s_item_type s)) (s_token s) (s_password_hash s)
    (as_i64 (s_created_at s)) (s_created_by s) (as_i64 (s_access_count s)) (s_max_downloads s) (as_i64 (s_download_count s)).
Definition row_to_entity (id : Uuid) (expires_at : option Z) (r : ShareRow) : Share :=
  mkShare id (r_item_id r) (r_item_name r)
    (match ShareItemType.try_from (r_item_type r) with Ok t => t | Err _ => IFile end)
    (r_token r) (r_password_hash r) (wrap_u64 <$> expires_at) (wrap_u64 (r_created_at r)) (r_created_by r)
    (wrap_u64 (r_access_count r)) (wrap_u32 <$> r_max_downloads r) (wrap_u64 (r_download_count r)).

(** [SELECT MIN(..) FROM storage.role_grants ag WHERE ag.subject_type = 'token' AND ..]: the
    expiries of the grants of a link; [MIN] ignores the grants without one. *)
Definition token_expiries (db : Db) (id : Uuid) : list Z :=
  omap g_expires_at (filter (fun g => g_subject g = Token id) (role_grants db)).
Definition sql_min (l : list Z) : option Z :=
  match l with [] => None | x :: l => Some (foldl Z.min x l) end.
(** [EXTRACT(EPOCH FROM t)::BIGINT] rounds half away from zero. *)
Definition epoch_bigint (t : Z) : Z :=
  if (0 <=? t)%Z then ((t + 500000) / 1000000)%Z else (- ((- t + 500000) / 1000000))%Z.
Definition sql_expiry (db : Db) (id : Uuid) : option Z := sql_min (epoch_bigint <$> token_expiries db id).
Definition entity (db : Db) (x : Uuid * ShareRow) : Share := row_to_entity x.1 (sql_expiry db x.1) x.2.

Notation sqlr := (result str).
Notation share_table := (gmap Uuid ShareRow).
Definition duplicate_key : str := lit "duplicate key value violates unique constraint".
Definition by_token (token : str) (m : share_table) : option (Uuid * ShareRow) :=
  head (filter (fun x : Uuid * ShareRow => r_token x.2 = token) (map_to_list m)).
(** [INSERT .. ON CONFLICT (id) DO UPDATE SET item_name, password_hash, access_count, max_downloads];
    the column [token] is unique and [item_type] checked. *)
Definition sql_save (db : Db) (id : Uuid) (r : ShareRow) (m : share_table) : sqlr Share * share_table :=
  match m !! id with
  | Some old =>
      let r' := mkShareRow (r_item_id old) (r_item_name r) (r_item_type old) (r_token old) (r_password_hash r)
                  (r_created_at old) (r_created_by old) (r_access_count r) (r_max_downloads r) (r_download_count old) in
      (Ok (entity db (id, r')), <[id := r']> m)
  | None =>
      match by_token (r_token r) m with
      | Some _ => (Err duplicate_key, m)
      | None => (Ok (entity db (id, r)), <[id := r]> m)
      end
  end.
Definition add_access (r : ShareRow) : ShareRow :=
  mkShareRow (r_item_id r) (r_item_name r) (r_item_type r) (r_token r) (r_password_hash r) (r_created_at r) (r_created_by r)
    (r_access_count r + 1) (r_max_downloads r) (r_download_count r).
Definition add_download (r : ShareRow) : ShareRow :=
  mkShareRow (r_item_id r) (r_item_name r) (r_item_type r) (r_token r) (r_password_hash r) (r_created_at r) (r_created_by r)
    (r_access_count r) (r_max_downloads r) (r_download_count r + 1).
(** [COALESCE((SELECT MIN(ag.expires_at) ..) > NOW(), TRUE)] *)
Definition not_expired (db : Db) (t : Z) (id : Uuid) : bool :=
  match sql_min (token_expiries db id) with Some e => (t <? e)%Z | None => true end.
Definition sql_increment (db : Db) (t : Z) (token : str) (m : share_table) : N * share_table :=
  match by_token token m with
  | Some (id, r) => if not_expired db t id then (1%N, <[id := add_access r]> m) else (0%N, m)
  | None => (0%N, m)
  end.
(** [max_downloads IS NULL OR download_count < max_downloads] *)
Definition allowance_left (r : ShareRow) : bool :=
  match r_max_downloads r with Some n => (r_download_count r <? n)%Z | None => true end.
Definition sql_consume (id : Uuid) (m : share_table) : bool * share_table :=
  match m !! id with
  | Some r => if allowance_left r then (true, <[id := add_download r]> m) else (false, m)
  | None => (false, m)
  end.
Definition set_columns (s : Share) (r : ShareRow) : ShareRow :=
  mkShareRow (r_item_id r) (s_item_name s) (r_item_type r) (r_token r) (s_password_hash s) (r_created_at r) (r_created_by r)
    (as_i64 (s_access_count s)) (s_max_downloads s) (r_download_count r).
Definition sql_update (db : Db) (s : Share) (m : share_table) : option Share * share_table :=
  match m !! s_id s with
  | Some r => (Some (entity db (s_id s, set_columns s r)), <[s_id s := set_columns s r]> m)
  | None => (None, m)
  end.
Definition owned (id user : Uuid) (m : share_table) : option ShareRow :=
  r ← m !! id; if decide (r_created_by r = user) then Some r else None.
(** [ORDER BY s.created_at DESC] *)
Definition newest_first (x y : Uuid * ShareRow) : Prop := (r_created_at y.2 <= r_created_at x.2)%Z.
#[export] Instance newest_first_dec : RelDecision newest_first.
Proof. intros x y. unfold newest_first. apply _. Defined.
Definition rows_where (p : ShareRow -> bool) (m : share_table) : list (Uuid * ShareRow) :=
  merge_sort newest_first (filter (fun x : Uuid * ShareRow => p x.2 = true) (map_to_list m)).
Definition of_item (item_id : str) (ty : ShareItemType) (user : Uuid) (r : ShareRow) : bool :=
  bool_decide (r_item_id r = item_id) && bool_decide (r_item_type r = ShareItemType.to_string ty)
  && bool_decide (r_created_by r = user).
(** [LIMIT $2 OFFSET $3] with the window [COUNT( * ) OVER()], which a page without rows does
    not carry. *)
Definition sql_page (db : Db) (user : Uuid) (offset limit : Z) (m : share_table) : sqlr (list Share * Z) :=
  let rows := rows_where (fun r => bool_decide (r_created_by r = user)) m in
  if (as_i64 limit <? 0)%Z then Err (lit "LIMIT must not be negative")
  else if (as_i64 offset <? 0)%Z then Err (lit "OFFSET must not be negative")
  else
    let page := take (Z.to_nat (as_i64 limit)) (drop (Z.to_nat (as_i64 offset)) rows) in
    Ok (entity db <$> page, match page with [] => 0%Z | _ => Z.of_nat (length rows) end).

(** ** Commands *)
Inductive cmd :=
| CNow
| CRandom
(** the item of a new link: [get_file], [get_folder], [get_policies_for_file], [.._folder] *)
| QItem (ty : ShareItemType) (item_id : str)
| QPolicies (ty : ShareItemType) (id : Uuid)
(** the authorization engine *)
| ARequire (s : Subject) (p : Permission) (r : Resource)
| ACheck (s : Subject) (p : Permission) (r : Resource)
| ASetRole (granted_by : Uuid) (s : Subject) (ro : Role) (r : Resource) (expires_at : option Z)
| ASetExpiry (s : Subject) (expires_at : option Z)
| AFlush
(** [storage.shares] *)
| QSave (s : Share)
| QIncrement (token : str)
| QConsume (id : Uuid)
| QByToken (token : str)
| QOwned (id user : Uuid)
| QDelete (id user : Uuid)
| QOfItem (item_id : str) (ty : ShareItemType) (user : Uuid)
| QUpdate (s : Share)
| QPage (user : Uuid) (offset limit : Z).
Definition answer (c : cmd) : Set :=
  match c with
  | CNow => Z
  | CRandom => N
  | QItem _ _ => sqlr bool
  | QPolicies _ _ => sqlr (option DrivePolicies)
  | ARequire _ _ _ | ASetExpiry _ _ => result DomainError unit
  | ACheck _ _ _ => result DomainError bool
  | ASetRole _ _ _ _ _ => result DomainError Grant
  | AFlush => unit
  | QSave _ => sqlr Share
  | QIncrement _ => sqlr N
  | QConsume _ => sqlr bool
  | QByToken _ | QOwned _ _ | QUpdate _ => sqlr (option Share)
  | QDelete _ _ => sqlr N
  | QOfItem _ _ _ => sqlr (list Share)
  | QPage _ _ _ => sqlr (list Share * Z)
  end.

Inductive prog (A : Type) : Type :=
| Ret (a : A)
| Do (c : cmd) (k : answer c -> prog A).
Arguments Ret {A} a.
Arguments Do {A} c k.
Fixpoint pbind {A B} (p : prog A) (f : A -> prog B) : prog B :=
  match p with Ret a => f a | Do c k => Do c (fun x => pbind (k x) f) end.
Definition call (c : cmd) : prog (answer c) := Do c Ret.
(** [p.await?] *)
Notation "x '←!' p ; q" := (pbind p (fun r => match r with Ok x => q | Err e => Ret (Err e) end))
  (at level 20, p at level 100, q at level 200).

Section exec.
Context {Cache : forall (K : Type) {E : EqDecision K} {C : @Countable K E}, Type -> Type}.
#[local] Arguments Cache _ {_ _} _.
Context `{!Moka (@Cache)} `{PolicyCodec} `{UuidText}.
Local Abbreviation AM := (AM (Cache:=@Cache)).
Local Abbreviation Engine := (Engine (Cache:=@Cache)).
(** The [uuid] input of the database, which casts the item identifiers. *)
Context (pg_uuid : str -> option Uuid).

Record Store := mkStore {
  engine : Engine;
  shares : share_table;
  (** the rows of [storage.files] and [storage.folders] that are not in the trash *)
  live_items : gset (ShareItemType * Uuid);
  (** the next random draw *)
  fresh : N;
}.
Definition db (s : Store) : Db := w_db (world (engine s)).
Definition clock (s : Store) : Z := now (engine s).
Definition set_engine (e : Engine) (s : Store) : Store := mkStore e (shares s) (live_items s) (fresh s).
Definition set_shares (m : share_table) (s : Store) : Store := mkStore (engine s) m (live_items s) (fresh s).

(** One statement: it runs on the store, or fails with the driver's error. *)
Definition stmt {T} (f : Store -> sqlr T * Store) (s : Store) : sqlr T * Store :=
  match faults (engine s) with
  | Some txt :: fs => (Err txt, set_engine (set_faults (engine s) fs) s)
  | None :: fs => f (set_engine (set_faults (engine s) fs) s)
  | [] => f s
  end.
Definition reads {T} (f : Store -> T) : Store -> sqlr T * Store := stmt (fun s => (Ok (f s), s)).
Definition writes {T} (f : Store -> T * share_table) : Store -> sqlr T * Store :=
  stmt (fun s => let (v, m) := f s in (Ok v, set_shares m s)).
Definition on_engine {T} (m : AM T) (s : Store) : result DomainError T * Store :=
  let (r, e) := m (engine s) in (r, set_engine e s).

(** [.. WHERE id = $1::uuid AND NOT is_trashed]; text the database does not read as an identifier
    fails the statement, which its only caller treats like a missing row. *)
Definition sql_item (ty : ShareItemType) (item_id : str) (s : Store) : bool :=
  match pg_uuid item_id with Some i => bool_decide ((ty, i) ∈ live_items s) | None => false end.
(** [SELECT d.effective_policies FROM drives_effective d JOIN .. ON drive_id = d.id WHERE id = $1] *)
Definition sql_policies (ty : ShareItemType) (id : Uuid) (db : Db) : option DrivePolicies :=
  d ← match ty with
      | IFile => fi_drive <$> files db !! id
      | IFolder => fo_drive <$> folders db !! id
      end;
  policies_from_value <$> sql_effective_policies db d.
(** [DELETE FROM storage.shares WHERE id = $1 AND created_by = $2]; the trigger
    [trg_cleanup_role_grants_token] deletes the grants of the link. *)
Definition sql_delete_share (id user : Uuid) (s : Store) : sqlr N * Store :=
  match owned id user (shares s) with
  | Some _ =>
      (Ok 1%N,
       set_shares (delete id (shares s))
         (set_engine (set_db (engine s)
            (with_grants (db s) (filter (fun g => g_subject g ≠ Token id) (role_grants (db s))))) s))
  | None => (Ok 0%N, s)
  end.

Definition exec (c : cmd) : Store -> answer c * Store :=
  match c with
  | CNow => fun s => (clock s, s)
  | CRandom => fun s => (fresh s, mkStore (engine s) (shares s) (live_items s) (N.succ (fresh s)))
  | QItem ty item_id => reads (sql_item ty item_id)
  | QPolicies ty id => reads (fun s => sql_policies ty id (db s))
  | ARequire sub p r => on_engine (require sub p r)
  | ACheck sub p r => on_engine (check sub p r)
  | ASetRole by_ sub ro r ex => fun s =>
      let (g, s') := on_engine (set_role (fresh s) by_ sub ro r ex) s in
      (g, mkStore (engine s') (shares s') (live_items s') (N.succ (fresh s')))
  | ASetExpiry sub ex => on_engine (set_expiry_for_subject sub ex)
  | AFlush => fun s => (tt, set_engine (invalidate_cascade_grant_cache_all (engine s)) s)
  | QSave sh => stmt (fun s =>
      let (v, m) := sql_save (db s) (s_id sh) (entity_to_row sh) (shares s) in (v, set_shares m s))
  | QIncrement token => writes (fun s => sql_increment (db s) (clock s) token (shares s))
  | QConsume id => writes (fun s => sql_consume id (shares s))
  | QByToken token => reads (fun s => entity (db s) <$> by_token token (shares s))
  | QOwned id user => reads (fun s => (fun r => entity (db s) (id, r)) <$> owned id user (shares s))
  | QDelete id user => stmt (sql_delete_share id user)
  | QOfItem item_id ty user => reads (fun s => entity (db s) <$> rows_where (of_item item_id ty user) (shares s))
  | QUpdate sh => writes (fun s => sql_update (db s) sh (shares s))
  | QPage user offset limit => stmt (fun s => (sql_page (db s) user offset limit (shares s), s))
  end.

(** A program that nobody interrupts. *)
Fixpoint run {A} (p : prog A) (s : Store) : A * Store :=
  match p with Ret a => (a, s) | Do c k => let (x, s') := exec c s in run (k x) s' end.
Lemma run_then {A B} (p : prog A) (f : A -> prog B) s : run (pbind p f) s = let (a, s') := run p s in run (f a) s'.
Proof. revert s. induction p as [a|c k IH]; intros s; cbn; [done|]. destruct (exec c s) as [x s']. apply IH. Qed.
Lemma run_call c s : run (call c) s = exec c s.
Proof. cbn. by destruct (exec c s). Qed.
End exec.
