(* ===== verification/ShareCookies.v ===== *)
(** * Share links: the cookies of a visitor

    [src/src/infrastructure/services/share_ring.rs] (the ring: which links a browser has opened),
    [src/src/infrastructure/services/share_unlock_cookie.rs] (the proof that a password was given),
    and the extractor [CallerSubjects] of [src/src/interfaces/middleware/auth.rs], which turns the
    ring into subjects.  The crate [jsonwebtoken] is the class [Signer]: a token carries a JSON
    object, of which the two modules read the fields below.  Clock readings are arguments, in
    microseconds; a token is good until the end of the second of its expiry. *)

From S2P Require Import Prelude.
From S2P Require Import RustStr.
From S2P Require Import DomainErrors.
From S2P Require Import Authorization.
From S2P Require Import ShareDb.

#[local] Arguments lit : simpl never.

Record Claims := mkClaims {
  c_typ : option str;
  c_vid : option Uuid;
  c_shares : option (list Uuid);
  c_sub : option str;
  c_exp : option Z;
  c_iat : option Z;
}.
Definition jwt_byte (b : byte) : Prop :=
  (48 <= b <= 57 ∨ 65 <= b <= 90 ∨ 97 <= b <= 122 ∨ b = 45 ∨ b = 46 ∨ b = 95)%Z.
(** [encode] and [decode] under a secret with HS256. *)
Class Signer := {
  jwt_sign : str -> Claims -> result str str;
  jwt_claims : str -> str -> option Claims;
  jwt_sign_claims k c tok : jwt_sign k c = Ok tok -> jwt_claims k tok = Some c;
  (** three segments of base64url, with dots between them *)
  jwt_sign_text k c tok : jwt_sign k c = Ok tok -> tok ≠ [] ∧ Forall jwt_byte tok;
}.

Section Cookies.
Context `{Signer}.

(** [decode] with [validate_exp] and no leeway, once the fields have been read. *)
Definition unexpired (t exp : Z) : bool := (epoch_secs t <=? exp)%Z.

(** ** The unlock cookie *)
Definition DEFAULT_TTL_SECS : Z := 3600.
Definition issue_jwt (secret : str) (t : Z) (share_token : str) (ttl_secs : Z) : result DomainError str :=
  match secret with
  | [] => Err (DomainError.internal_error (lit "ShareUnlockCookie") (lit "JWT secret is empty"))
  | _ =>
      map_err (fun e => DomainError.internal_error (lit "ShareUnlockCookie") (lit "sign: " ++ e))
        (jwt_sign secret (mkClaims None None None (Some share_token) (Some (epoch_secs t + ttl_secs)%Z) (Some (epoch_secs t))))
  end.
Definition verify_jwt (secret : str) (t : Z) (share_token jwt : str) : bool :=
  match secret, jwt with
  | [], _ | _, [] => false
  | _, _ =>
      match jwt_claims secret jwt with
      | Some (mkClaims _ _ _ (Some sub) (Some exp) (Some _)) => unexpired t exp && bool_decide (sub = share_token)
      | _ => false
      end
  end.
(** the first [name=value] of a [Cookie] header with the name *)
Fixpoint find_cookie (name : str) (parts : list str) : option str :=
  match parts with
  | [] => None
  | part :: rest =>
      match split_once 61 (trim part) with
      | Some (n, value) => if decide (n = name) then Some value else find_cookie name rest
      | None => find_cookie name rest
      end
  end.
Definition unlock_cookie_name (share_token : str) : str := lit "oxi_share_unlock_" ++ share_token.
Definition unlock_from_cookie_header (header share_token : str) : option str :=
  find_cookie (unlock_cookie_name share_token) (split 59 header).
Definition build_unlock_cookie (base_path share_token jwt : str) (ttl_secs : Z) : str :=
  unlock_cookie_name share_token ++ lit "=" ++ jwt ++ lit "; HttpOnly; SameSite=Lax; Path="
    ++ match base_path with [] => lit "/" | _ => base_path end ++ lit "; Max-Age=" ++ dec ttl_secs.

(** ** The ring *)
Definition SHARE_RING_COOKIE : str := lit "oxi_shares".
Definition MAX_RING_SIZE : nat := 10.
Definition RING_TTL_SECS : Z := 8 * 3600.
Definition RING_TYP : str := lit "share-ring".
Record Ring := mkRing { visitor_id : Uuid; ring_shares : list Uuid }.
Definition issue (secret : str) (t : Z) (visitor : Uuid) (shares : list Uuid) (ttl_secs : Z) : result DomainError str :=
  match secret with
  | [] => Err (DomainError.internal_error (lit "ShareRing") (lit "JWT secret is not configured"))
  | _ =>
      map_err (fun e => DomainError.internal_error (lit "ShareRing") (lit "failed to sign ring: " ++ e))
        (jwt_sign secret (mkClaims (Some RING_TYP) (Some visitor) (Some shares) None
                            (Some (epoch_secs t + ttl_secs)%Z) (Some (epoch_secs t))))
  end.
Definition verify (secret : str) (t : Z) (jwt : str) : option Ring :=
  match secret with
  | [] => None
  | _ =>
      match jwt_claims secret jwt with
      | Some (mkClaims (Some typ) (Some vid) (Some shares) _ (Some exp) (Some _)) =>
          if unexpired t exp then if decide (typ = RING_TYP) then Some (mkRing vid shares) else None else None
      | _ => None
      end
  end.
(** [retain], [push], and [drain] of what exceeds the size *)
Definition ring_push (share_id : Uuid) (shares : list Uuid) : list Uuid :=
  let shares := filter (fun s => s ≠ share_id) shares ++ [share_id] in
  drop (length shares - MAX_RING_SIZE) shares.
(** [fresh] is the identifier a new visitor gets; [t1] and [t2] the clock at the reading of the
    old ring and at the signing of the new one. *)
Definition append (secret : str) (t1 t2 : Z) (fresh : Uuid) (existing : option str) (share_id : Uuid) (ttl_secs : Z)
    : result DomainError str :=
  let held := existing ≫= verify secret t1 in
  let visitor := match held with Some r => visitor_id r | None => fresh end in
  issue secret t2 visitor (ring_push share_id (match held with Some r => ring_shares r | None => [] end)) ttl_secs.
Definition ring_from_cookie_header (header : str) : option str := find_cookie SHARE_RING_COOKIE (split 59 header).
Definition build_ring_cookie (secure : bool) (jwt : str) (ttl_secs : Z) : str :=
  SHARE_RING_COOKIE ++ lit "=" ++ jwt ++ lit "; HttpOnly; SameSite=Lax; Path=/; Max-Age=" ++ dec ttl_secs
    ++ (if secure then lit "; Secure" else []).

(** [CallerSubjects]: the principal and the ring the middleware has put into the request.  [None]
    is the refusal of a principal without credentials. *)
Definition caller_subjects (anonymous : bool) (id : Uuid) (ring : option Ring) : option (list Subject) :=
  match (if anonymous then [] else [User id]) ++ (match ring with Some r => Token <$> ring_shares r | None => [] end) with
  | [] => None
  | subjects => Some subjects
  end.
End Cookies.
