(* ===== verification/ShareService.v ===== *)
(** * Share links: the requests

    [src/src/application/services/share_service.rs], operation by operation, and the answers of
    [src/src/interfaces/api/handlers/share_handler.rs].  Argon2 is the class [Argon]; the search
    cache that a creation and a deletion flush is not modelled, nor is the semaphore around the
    hashing, which bounds memory only. *)

From S2P Require Import Prelude.
From S2P Require Import RustStr.
From S2P Require Import DomainErrors.
From S2P Require Import HttpErrors.
From S2P Require Import Principals.
From S2P Require Import Authorization.
From S2P Require Import DrivePolicies.
From S2P Require Import AuthzPort.
From S2P Require Import ShareDb.
From S2P Require Import ShareCookies.

#[local] Arguments lit : simpl never.

(** ** Data *)
Inductive ShareServiceError :=
| SNotFound (s : str) | SItemNotFound (s : str) | SAccessDenied (s : str) | SInvalidPassword (s : str)
| SExpired | SRepository (s : str) | SInvalidItemType (s : str) | SValidation (s : str).
Module ShareServiceError.
(** [From<ShareServiceError> for DomainError] *)
Definition into (e : ShareServiceError) : DomainError :=
  match e with
  | SNotFound s => DomainError.not_found (lit "Share") s
  | SItemNotFound s => DomainError.not_found (lit "Item") s
  | SAccessDenied s => DomainError.access_denied (lit "Share") s
  | SInvalidPassword s => DomainError.access_denied (lit "Share") s
  | SExpired => DomainError.access_denied (lit "Share") (lit "Share has expired")
  | SRepository s => DomainError.internal_error (lit "Share") s
  | SInvalidItemType s => DomainError.validation_error s
  | SValidation s => DomainError.validation_error s
  end.
End ShareServiceError.
Record ShareDto := mkShareDto {
  d_id : str;
  d_item_id : str;
  d_item_name : option str;
  d_item_type : str;
  d_token : str;
  d_url : str;
  d_has_password : bool;
  d_expires_at : option Z;
  d_created_at : Z;
  d_created_by : str;
  d_access_count : Z;
  d_max_downloads : option Z;
  d_download_count : Z;
}.
Record CreateShareDto := mkCreate {
  n_item_id : str;
  n_item_name : option str;
  n_item_type : str;
  n_password : option str;
  n_expires_at : option Z;
  n_max_downloads : option Z;
}.
Record UpdateShareDto := mkUpdate {
  u_password : option str;
  u_expires_at : option Z;
  u_max_downloads : option (option Z);
}.
(** [PaginatedResponseDto]; [total_pages - 1] and [div_ceil] are guarded as in the code. *)
Record Paginated := mkPaginated {
  pg_items : list ShareDto;
  pg_page : Z;
  pg_size : Z;
  pg_total_items : Z;
  pg_total_pages : Z;
  pg_has_next : bool;
  pg_has_prev : bool;
}.
Definition paginated_new (items : list ShareDto) (page page_size total_items : Z) : Paginated :=
  let total_pages := if (total_items =? 0)%Z then 0%Z else (total_items ⌈/⌉ page_size)%rust in
  mkPaginated items page page_size total_items total_pages
    ((0 <? total_pages) && (page <? total_pages - 1))%Z (0 <? page)%Z.

Section Service.
Context `{UuidText} `{Signer} `{Argon}.
Record Config := mkConfig { base_url : str; jwt_secret : str }.
Context (cfg : Config).
(** The seconds that [DateTime::from_timestamp] of the crate [chrono] reads as an instant. *)
Context (datetime_ok : Z -> bool).
Definition epoch_to_datetime (secs : Z) : Z :=
  if datetime_ok (as_i64 secs) then (as_i64 secs * 1000000)%Z else 0%Z.

Definition from_entity (s : Share) : ShareDto :=
  mkShareDto (uuid_to_string (s_id s)) (s_item_id s) (s_item_name s) (ShareItemType.to_string (s_item_type s)) (s_token s)
    (base_url cfg ++ lit "/s/" ++ s_token s) (has_password s) (epoch_to_datetime <$> s_expires_at s)
    (epoch_to_datetime (s_created_at s)) (uuid_to_string (s_created_by s)) (s_access_count s) (s_max_downloads s)
    (s_download_count s).
Definition with_expiry (e : option Z) (d : ShareDto) : ShareDto :=
  mkShareDto (d_id d) (d_item_id d) (d_item_name d) (d_item_type d) (d_token d) (d_url d) (d_has_password d) e
    (d_created_at d) (d_created_by d) (d_access_count d) (d_max_downloads d) (d_download_count d).

(** [hash_password] of [password_hasher.rs] *)
Definition hash_password (p : str) : prog (result DomainError str) :=
  pbind (call CRandom) (fun salt => Ret (hash_password_with salt p)).

(** ** The repository *)
Definition internal (what : str) (e : str) : DomainError :=
  DomainError.internal_error (lit "Share") (lit "Failed to " ++ what ++ lit ": " ++ e).
Definition query {T} (what : str) (p : prog (sqlr T)) : prog (result DomainError T) :=
  pbind p (fun r => Ret (map_err (internal what) r)).
Definition save_share (s : Share) : prog (result DomainError Share) := query (lit "save share") (call (QSave s)).
Definition increment_access_count (token : str) : prog (result DomainError N) :=
  query (lit "register access") (call (QIncrement token)).
Definition consume_download (id : Uuid) : prog (result DomainError bool) :=
  query (lit "register download") (call (QConsume id)).
Definition find_share_by_token (token : str) : prog (result DomainError Share) :=
  r ←! query (lit "find share by token") (call (QByToken token));
  Ret (ok_or r (DomainError.not_found (lit "Share") (lit "Share with token " ++ token ++ lit " not found"))).
Definition no_such_share (id : Uuid) : DomainError :=
  DomainError.not_found (lit "Share") (lit "Share with ID " ++ uuid_to_string id ++ lit " not found").
Definition find_share_by_id_for_user (id user : Uuid) : prog (result DomainError Share) :=
  r ←! query (lit "find share") (call (QOwned id user)); Ret (ok_or r (no_such_share id)).
Definition delete_share_for_user (id user : Uuid) : prog (result DomainError unit) :=
  n ←! query (lit "delete share") (call (QDelete id user));
  Ret (if (n =? 0)%N then Err (no_such_share id) else Ok tt).
Definition find_shares_by_item_for_user (item_id : str) (ty : ShareItemType) (user : Uuid) : prog (result DomainError (list Share)) :=
  query (lit "find shares by item") (call (QOfItem item_id ty user)).
Definition update_share (s : Share) : prog (result DomainError Share) :=
  r ←! query (lit "update share") (call (QUpdate s));
  Ret (ok_or r (DomainError.not_found (lit "Share")
                  (lit "Share with ID " ++ uuid_to_string (s_id s) ++ lit " not found for update"))).
Definition find_shares_by_user (user : Uuid) (offset limit : Z) : prog (result DomainError (list Share * Z)) :=
  query (lit "find shares by user") (call (QPage user offset limit)).

(** ** Reading through the token *)
Definition fail {T} (e : ShareServiceError) : result DomainError T := Err (ShareServiceError.into e).
(** [map_err(|e| ShareServiceError::Repository(e.to_string()))] *)
Definition repo_err {T} (p : prog (result DomainError T)) : prog (result DomainError T) :=
  pbind p (fun r => Ret (map_err (fun e => ShareServiceError.into (SRepository (DomainError.to_string e))) r)).
Definition by_token_or_not_found (token : str) : prog (result DomainError Share) :=
  pbind (find_share_by_token token) (fun r => Ret (map_err (fun e =>
    ShareServiceError.into (SNotFound (lit "Share with token " ++ token ++ lit " not found: " ++ DomainError.to_string e))) r)).
Definition password_protected : DomainError :=
  DomainError.new AccessDenied (lit "Share") (lit "This share is password protected").
Definition fetch_share_resolved (token : str) (allow_password_protected : bool) : prog (result DomainError ShareDto) :=
  share ←! by_token_or_not_found token;
  pbind (call CNow) (fun t =>
  Ret (if is_expired t share then fail SExpired
       else if has_password share && negb allow_password_protected then Err password_protected
       else Ok (from_entity share))).
Definition issue_unlock_jwt (t : Z) (share_token : str) : result DomainError str :=
  issue_jwt (jwt_secret cfg) t share_token DEFAULT_TTL_SECS.
Definition grant_ring (t1 t2 : Z) (fresh : Uuid) (existing : option str) (share_id : Uuid) : result DomainError str :=
  append (jwt_secret cfg) t1 t2 fresh existing share_id RING_TTL_SECS.
Definition get_shared_link_with_unlock (token : str) (unlock_jwt : option str) : prog (result DomainError ShareDto) :=
  pbind (call CNow) (fun t =>
  fetch_share_resolved token
    (match unlock_jwt with Some jwt => verify_jwt (jwt_secret cfg) t token jwt | None => false end)).
Definition get_shared_link_by_token (token : str) : prog (result DomainError ShareDto) := fetch_share_resolved token false.
Definition invalid_share_password : DomainError :=
  DomainError.new AccessDenied (lit "Share") (lit "Invalid share password").
Definition verify_shared_link_password (token password : str) : prog (result DomainError ShareDto) :=
  share ←! by_token_or_not_found token;
  pbind (call CNow) (fun t =>
  Ret (if is_expired t share then fail SExpired
       else match s_password_hash share with
            | Some hash =>
                match verify_password password hash with
                | Err e => Err e
                | Ok false => Err invalid_share_password
                | Ok true => Ok (from_entity share)
                end
            | None => Ok (from_entity share)
            end)).
Definition register_shared_link_access (token : str) : prog (result DomainError unit) :=
  updated ←! increment_access_count token;
  Ret (if (updated =? 0)%N then fail (SNotFound (lit "Share with token " ++ token ++ lit " not found or expired")) else Ok tt).

(** ** Downloads *)
Definition limit_reached : DomainError := DomainError.new AccessDenied (lit "Share") (lit "Download limit reached").
Definition charge_download (share_id : Uuid) : prog (result DomainError unit) :=
  ok ←! consume_download share_id; Ret (if ok : bool then Ok tt else Err limit_reached).
Definition charge_authorized (authorized_as : Subject) : prog (result DomainError unit) :=
  match Subject.token_id authorized_as with Some id => charge_download id | None => Ret (Ok tt) end.
Definition register_download (resource : Resource) (callers : list Subject) (authorized_as : Subject)
    (explicit_share : option Uuid) : prog (result DomainError unit) :=
  match explicit_share with
  | Some id =>
      if existsb (fun s => bool_decide (Subject.token_id s = Some id)) callers then
        allowed ←! call (ACheck (Token id) Read resource);
        if allowed : bool then charge_download id else charge_authorized authorized_as
      else charge_authorized authorized_as
  | None => charge_authorized authorized_as
  end.

(** ** Management by the owner *)
Definition invalid (msg : str) {T} : result DomainError T := fail (SValidation msg).
Definition at_least_one {T} : result DomainError T := invalid (lit "max_downloads must be at least 1").
Definition verify_item_exists (item_id : str) (ty : ShareItemType) : prog (result DomainError unit) :=
  pbind (call (QItem ty item_id)) (fun r =>
  Ret (match r with
       | Ok true => Ok tt
       | _ => fail (SItemNotFound ((match ty with IFile => lit "File" | IFolder => lit "Folder" end)
                                   ++ lit " with ID " ++ item_id ++ lit " not found"))
       end)).
Definition resource_of (ty : ShareItemType) (id : Uuid) : Resource :=
  match ty with IFile => File id | IFolder => Folder id end.
(** [get_policies_for_file], [get_policies_for_folder] with the conversion of their errors *)
Definition item_policies (ty : ShareItemType) (id : Uuid) : prog (result DomainError DrivePolicies) :=
  pbind (call (QPolicies ty id)) (fun r =>
  Ret (match r with
       | Ok (Some p) => Ok p
       | Ok None => fail (SRepository (lit "Drive not found: " ++ uuid_to_string id))
       | Err e => fail (SRepository (lit "Storage error: "
           ++ (match ty with IFile => lit "get_policies_for_file" | IFolder => lit "get_policies_for_folder" end)
           ++ lit ": " ++ e))
       end)).
Definition drive_refuses (msg : str) : DomainError := DomainError.operation_not_supported (lit "Drive") msg.
(** [None] when the link may be handed out without, or with, the secret it has. *)
Definition password_gate (p : DrivePolicies) (password : option str) : result DomainError unit :=
  if require_public_link_password p && bool_decide (default [] password = [])
  then Err (drive_refuses (lit "This drive requires public links to have a password.")) else Ok tt.
Definition expiry_gate (p : DrivePolicies) (t : Z) (expires_at : option Z) : result DomainError unit :=
  match max_public_link_days p with
  | None => Ok tt
  | Some cap_days =>
      let cap_secs := (epoch_secs t + cap_days * 86400)%Z in
      if match expires_at with None => true | Some e => (cap_secs <? epoch_secs e)%Z end
      then Err (drive_refuses (lit "This drive caps public links at " ++ dec cap_days ++ lit " days."))
      else Ok tt
  end.
Definition hash_option (p : option str) : prog (result DomainError (option str)) :=
  match p with
  | Some p => h ←! hash_password p; Ret (Ok (Some h))
  | None => Ret (Ok None)
  end.
(** [Share::new] *)
Definition share_new (item_id : str) (item_name : option str) (ty : ShareItemType) (created_by : Uuid) (hash : option str)
    : prog (result DomainError Share) :=
  match item_id with
  | [] => Ret (invalid (lit "Validation error: Item ID cannot be empty"))
  | _ =>
      pbind (call CNow) (fun t =>
      pbind (call CRandom) (fun id =>
      pbind (call CRandom) (fun token =>
      Ret (Ok (mkShare id item_id item_name ty (uuid_to_string token) hash None (epoch_secs t) created_by 0 None 0)))))
  end.
Definition parse_item (item_id : str) : result DomainError Uuid :=
  match uuid_parse item_id with Some i => Ok i | None => invalid (lit "Invalid item UUID") end.
Definition zero_downloads (n : option Z) : bool := bool_decide (n = Some 0%Z).
(** The gates of a creation: what the caller and the drive must allow. *)
Definition creation_gates (user_id : Uuid) (dto : CreateShareDto) (ty : ShareItemType) : prog (result DomainError unit) :=
  _ok ←! verify_item_exists (n_item_id dto) ty;
  item ←! Ret (parse_item (n_item_id dto));
  _ok ←! call (ARequire (User user_id) Authorization.Share (resource_of ty item));
  policies ←! item_policies ty item;
  _ok ←! Ret (refuse_public_links policies);
  _ok ←! Ret (password_gate policies (n_password dto));
  match max_public_link_days policies with
  | None => Ret (Ok tt)
  | Some _ => pbind (call CNow) (fun t => Ret (expiry_gate policies t (n_expires_at dto)))
  end.
Definition create_shared_link (user_id : Uuid) (dto : CreateShareDto) : prog (result DomainError ShareDto) :=
  if zero_downloads (n_max_downloads dto) then Ret at_least_one
  else
    ty ←! Ret (match ShareItemType.try_from (n_item_type dto) with Ok ty => Ok ty | Err e => fail (SInvalidItemType e) end);
    _ok ←! creation_gates user_id dto ty;
    hash ←! hash_option (n_password dto);
    share ←! share_new (n_item_id dto) (n_item_name dto) ty user_id hash;
    saved ←! repo_err (save_share (with_max_downloads (n_max_downloads dto) share));
    item ←! Ret (parse_item (s_item_id saved));
    _g ←! repo_err (call (ASetRole user_id (Token (s_id saved)) Viewer (resource_of (s_item_type saved) item) (n_expires_at dto)));
    Ret (Ok (with_expiry (n_expires_at dto) (from_entity saved))).
Definition get_shared_link (id requester : Uuid) : prog (result DomainError ShareDto) :=
  share ←! find_share_by_id_for_user id requester;
  pbind (call CNow) (fun t => Ret (if is_expired t share then fail SExpired else Ok (from_entity share))).
Definition get_shared_links_for_item (item_id : str) (ty : ShareItemType) (requester : Uuid) : prog (result DomainError (list ShareDto)) :=
  shares ←! repo_err (find_shares_by_item_for_user item_id ty requester);
  pbind (call CNow) (fun t => Ret (Ok (from_entity <$> filter (fun s => is_expired t s = false) shares))).
Definition new_password (p : option str) (share : Share) : prog (result DomainError Share) :=
  match p with
  | Some [] => Ret (Ok (with_password None share))
  | Some p => h ←! hash_password p; Ret (Ok (with_password (Some h) share))
  | None => Ret (Ok share)
  end.
Definition new_limit (limit : option (option Z)) (share : Share) : result DomainError Share :=
  match limit with
  | Some l => if zero_downloads l then at_least_one else Ok (with_max_downloads l share)
  | None => Ok share
  end.
Definition update_shared_link (id requester : Uuid) (dto : UpdateShareDto) : prog (result DomainError ShareDto) :=
  share ←! find_share_by_id_for_user id requester;
  share ←! new_password (u_password dto) share;
  share ←! Ret (new_limit (u_max_downloads dto) share);
  _ok ←! match u_expires_at dto with
         | Some e => repo_err (call (ASetExpiry (Token (s_id share)) (Some e)))
         | None => Ret (Ok tt)
         end;
  updated ←! repo_err (update_share share);
  Ret (Ok (match u_expires_at dto with
           | Some e => with_expiry (Some e) (from_entity updated)
           | None => from_entity updated
           end)).
Definition delete_shared_link (id requester : Uuid) : prog (result DomainError unit) :=
  _ok ←! delete_share_for_user id requester;
  pbind (call AFlush) (fun _ => Ret (Ok tt)).
(** [usize] arithmetic of a release build wraps. *)
Definition get_user_shared_links (user_id : Uuid) (page per_page : Z) : prog (result DomainError Paginated) :=
  r ←! repo_err (find_shares_by_user user_id (wrap_u64 (wrap_u64 (page - 1) * per_page)) per_page);
  Ret (Ok (paginated_new (from_entity <$> r.1) page per_page r.2)).

(** ** Answers of the handlers *)
(** [access_shared_item]: the counter of landings and the share are asked for at the same time;
    here the counter goes first. *)
Inductive Landing := Landed (share : ShareDto) | PasswordRequired | Gone | Refused (e : DomainError).
Definition landing_error (e : DomainError) : Landing :=
  if decide (kind e = AccessDenied) then
    if str_contains_str (lit "password") (message e) then PasswordRequired
    else if str_contains_str (lit "expired") (message e) then Gone
    else Refused e
  else Refused e.
Definition access_shared_item (token : str) (unlock_jwt : option str) : prog Landing :=
  pbind (register_shared_link_access token) (fun _ =>
  pbind (get_shared_link_with_unlock token unlock_jwt) (fun item =>
  Ret (match item with Ok d => Landed d | Err e => landing_error e end))).
End Service.
