(* ===== verification/ShareDownloads.v ===== *)
(** * Share links: downloads in parallel

    The requests about links as one type and a server that switches between them at every
    statement, engine call, reading of the clock and random draw, while the rest of the system
    changes grants, items and caches and its triggers delete links.  The trace of a run lists the
    attempts to take a download from a link's allowance; the claim is that each is granted
    exactly when the allowance is not used up. *)

From S2P Require Import Prelude.
From S2P Require Import RustStr.
From S2P Require Import DomainErrors.
From S2P Require Import Principals.
From S2P Require Import Authorization.
From S2P Require Import DrivePolicies.
From S2P Require Import Moka.
From S2P Require Import AclDb.
From S2P Require Import AclEngine.
From S2P Require Import ShareDb.
From S2P Require Import ShareCookies.
From S2P Require Import ShareService.

#[local] Arguments lit : simpl never.

Inductive Request :=
| RCreate (user : Uuid) (dto : CreateShareDto)
| RGet (id user : Uuid)
| ROfItem (item_id : str) (ty : ShareItemType) (user : Uuid)
| RList (user : Uuid) (page per_page : Z)
| RUpdate (id user : Uuid) (dto : UpdateShareDto)
| RDelete (id user : Uuid)
| RLanding (token : str) (unlock_jwt : option str)
| RPassword (token password : str)
| RDownload (resource : Resource) (callers : list Subject) (authorized_as : Subject) (explicit_share : option Uuid).
Inductive Reply :=
| ReLink (r : result DomainError ShareDto)
| ReLinks (r : result DomainError (list ShareDto))
| RePage (r : result DomainError Paginated)
| ReUnit (r : result DomainError unit)
| ReLanding (r : Landing).
Definition reply {T} (f : T -> Reply) (p : prog T) : prog Reply := pbind p (fun r => Ret (f r)).
Definition program `{UuidText} `{Signer} `{Argon} (cfg : Config) (datetime_ok : Z -> bool) (q : Request) : prog Reply :=
  match q with
  | RCreate user dto => reply ReLink (create_shared_link cfg datetime_ok user dto)
  | RGet id user => reply ReLink (get_shared_link cfg datetime_ok id user)
  | ROfItem item_id ty user => reply ReLinks (get_shared_links_for_item cfg datetime_ok item_id ty user)
  | RList user page per_page => reply RePage (get_user_shared_links cfg datetime_ok user page per_page)
  | RUpdate id user dto => reply ReLink (update_shared_link cfg datetime_ok id user dto)
  | RDelete id user => reply ReUnit (delete_shared_link id user)
  | RLanding token unlock => reply ReLanding (access_shared_item cfg datetime_ok token unlock)
  | RPassword token password => reply ReLink (verify_shared_link_password cfg datetime_ok token password)
  | RDownload resource callers as_ explicit => reply ReUnit (register_download resource callers as_ explicit)
  end.

(** ** Programs that insert no link under an identifier *)
Definition inserts (id : Uuid) (c : cmd) : bool := match c with QSave s => bool_decide (s_id s = id) | _ => false end.
(** an answer that does not draw the identifier *)
Definition not_drawn (id : Uuid) (c : cmd) : answer c -> Prop :=
  match c return answer c -> Prop with CRandom => fun n => n ≠ id | _ => fun _ => True end.
Fixpoint spares {A} (id : Uuid) (p : prog A) : Prop :=
  match p with
  | Ret _ => True
  | Do c k => inserts id c = false ∧ forall a, not_drawn id c a -> spares id (k a)
  end.
Lemma spares_pbind {A B} id (p : prog A) (f : A -> prog B) :
  spares id p -> (forall a, spares id (f a)) -> spares id (pbind p f).
Proof. intros Hp Hf. induction p as [a|c k IH]; cbn; [done|]. destruct Hp as [? Hk]. auto. Qed.
Lemma spares_bind_ok {A E B} id (p : prog (result E A)) (f : A -> prog (result E B)) :
  spares id p -> (forall a, spares id (f a)) -> spares id (x ←! p; f x).
Proof. intros Hp Hf. apply spares_pbind; [done|]. intros [a|e]; [apply Hf|done]. Qed.
Lemma spares_call id c : inserts id c = false -> spares id (call c).
Proof. done. Qed.
#[local] Hint Resolve spares_pbind spares_bind_ok spares_call : spares.
Section Spares.
Context `{UuidText} `{Signer} `{Argon} (cfg : Config) (ok : Z -> bool).
(** A created link has the identifier drawn for it. *)
Lemma share_new_spares id item name ty user h (f : Share -> prog (result DomainError ShareDto)) :
  (forall s, s_id s ≠ id -> spares id (f s)) -> spares id (s ←! share_new item name ty user h; f s).
Proof.
  intros Hf. unfold share_new. destruct item; [done|]. cbn [pbind call spares]. split; [done|]. intros t _.
  split; [done|]. intros n Hn. split; [done|]. intros tok _. by apply Hf.
Qed.
Ltac spare := repeat first [ progress (intros; cbn beta iota delta [reply]) | split; [done|] | done
  | apply share_new_spares | apply spares_bind_ok | apply spares_pbind | apply spares_call | case_match | progress case_decide ].
Lemma program_spares id q : spares id (program cfg ok q).
Proof.
  destruct q; unfold program, reply; apply spares_pbind; try done;
    unfold get_shared_link, get_shared_links_for_item, get_user_shared_links, update_shared_link, delete_shared_link,
      access_shared_item, verify_shared_link_password, register_download, charge_authorized, charge_download,
      register_shared_link_access, get_shared_link_with_unlock, fetch_share_resolved, by_token_or_not_found,
      find_share_by_token, find_share_by_id_for_user, delete_share_for_user, find_shares_by_item_for_user, update_share,
      find_shares_by_user, increment_access_count, consume_download, query, repo_err, new_password, hash_password; try by spare.
  unfold create_shared_link, creation_gates, verify_item_exists, item_policies, hash_option, hash_password, repo_err, save_share, query.
  spare. cbn. by apply bool_decide_eq_false.
Qed.
End Spares.

(** ** The server *)
Section Server.
Context {Cache : forall (K : Type) {E : EqDecision K} {C : @Countable K E}, Type -> Type}.
#[local] Arguments Cache _ {_ _} _.
Context `{!Moka (@Cache)} `{PolicyCodec} `{UuidText} `{Signer} `{Argon}.
Local Abbreviation Store := (Store (Cache:=@Cache)).
Context (pg_uuid : str -> option Uuid) (cfg : Config) (datetime_ok : Z -> bool).
Notation exec := (exec pg_uuid).

(** An attempt to take a download: the cap of the link at that time, [None] when there is no such
    link, and the answer. *)
Record attempt := Attempt { at_link : Uuid; at_cap : option (option Z); at_granted : bool }.
Definition attempts (c : cmd) (s : Store) : answer c -> list attempt :=
  match c return answer c -> list attempt with
  | QConsume id => fun r => match r with Ok b => [Attempt id (r_max_downloads <$> shares s !! id) b] | Err _ => [] end
  | _ => fun _ => []
  end.
(** The rest of the system, between the statements. *)
Definition env (s s' : Store) : Prop := shares s' ⊆ shares s ∧ fresh s' = fresh s.
Inductive step : list (prog Reply) * Store -> list attempt -> list (prog Reply) * Store -> Prop :=
| step_arrive pool s q : step (pool, s) [] (pool ++ [program cfg datetime_ok q], s)
| step_env pool s s' : env s s' -> step (pool, s) [] (pool, s')
| step_do pool s i c k :
    pool !! i = Some (Do c k) ->
    step (pool, s) (attempts c s (exec c s).1) (<[i := k (exec c s).1]> pool, (exec c s).2).
Inductive runs (x : list (prog Reply) * Store) : list attempt -> list (prog Reply) * Store -> Prop :=
| runs_nil : runs x [] x
| runs_step tr y tr' z : runs x tr y -> step y tr' z -> runs x (tr ++ tr') z.

(** ** The counter of one link *)
Definition granted (id : Uuid) (tr : list attempt) : Z :=
  Z.of_nat (length (filter (fun a => at_link a = id ∧ at_granted a = true) tr)).
Lemma granted_nil id : granted id [] = 0%Z.
Proof. done. Qed.
Lemma granted_app id tr tr' : granted id (tr ++ tr') = (granted id tr + granted id tr')%Z.
Proof. unfold granted. rewrite list.filter_app, length_app. lia. Qed.
(** What an attempt must answer when [used] downloads are taken. *)
Definition allowed (used : Z) (cap : option (option Z)) : bool :=
  match cap with None => false | Some None => true | Some (Some n) => (used <? n)%Z end.

Lemma stmt_cases {T} (f : Store -> sqlr T * Store) s :
  (exists txt s', stmt f s = (Err txt, s') ∧ shares s' = shares s ∧ fresh s' = fresh s)
  ∨ (exists s', stmt f s = f s' ∧ shares s' = shares s ∧ fresh s' = fresh s ∧ clock s' = clock s ∧ db s' = db s).
Proof. unfold stmt. destruct (faults (engine s)) as [|[txt|] fs]; [right|left|right]; eauto 10. Qed.
Ltac statement :=
  match goal with |- context [stmt ?f ?s] =>
    destruct (stmt_cases f s) as [(txt & s1 & -> & Hsh & _)|(s1 & -> & Hsh & _ & _ & Hdb)]; cbn [fst snd] end.
(** What one command does to the row of a link it does not insert. *)
Definition row_after (m : share_table) (id : Uuid) (n : Z) (m' : share_table) : Prop :=
  forall r', m' !! id = Some r' -> exists r, m !! id = Some r ∧ r_download_count r' = (r_download_count r + n)%Z.
Lemma row_same m id : row_after m id 0 m.
Proof. intros r' E. exists r'. split; [done|lia]. Qed.
Lemma row_insert m id i r0 r n :
  m !! i = Some r0 -> r_download_count r = (r_download_count r0 + n)%Z -> row_after m id (if decide (i = id) then n else 0) (<[i := r]> m).
Proof.
  intros E0 En r' E. destruct (decide (i = id)) as [<-|Hne].
  - rewrite lookup_insert_eq in E. injection E as <-. eauto.
  - rewrite lookup_insert_ne in E by done. exists r'. split; [done|lia].
Qed.
Lemma row_keep m id i r0 r :
  m !! i = Some r0 -> r_download_count r = r_download_count r0 -> row_after m id 0 (<[i := r]> m).
Proof. intros E0 En. pose proof (row_insert m id i r0 r 0 E0) as Hr. destruct (decide (i = id)); apply Hr; lia. Qed.
Lemma by_token_row token m id r : by_token token m = Some (id, r) -> m !! id = Some r ∧ r_token r = token.
Proof.
  unfold by_token. intros E. destruct (filter _ _) as [|x l] eqn:F; [done|]. injection E as ->.
  assert (Hin : (id, r) ∈ (id, r) :: l) by by left. rewrite <- F, list_elem_of_filter, elem_of_map_to_list in Hin. by destruct Hin.
Qed.
Lemma consume_row m id i : row_after m id (granted id [Attempt i (r_max_downloads <$> m !! i) (sql_consume i m).1]) (sql_consume i m).2.
Proof.
  unfold sql_consume, granted. rewrite filter_cons, filter_nil. cbn [at_link at_granted].
  destruct (m !! i) as [r|] eqn:E; [destruct (allowance_left r)|]; cbn [fst snd].
  - pose proof (row_insert m id i r (add_download r) 1 E eq_refl) as Hr. case_decide as Hd; case_decide; try done; naive_solver.
  - case_decide as Hd; [by destruct Hd|]. apply row_same.
  - case_decide as Hd; [by destruct Hd|]. apply row_same.
Qed.
Lemma delete_row m id i : row_after m id 0 (delete i m).
Proof. intros r' E. apply lookup_delete_Some in E as [_ E]. exists r'. split; [done|lia]. Qed.
Lemma subset_row m m' id : m' ⊆ m -> row_after m id 0 m'.
Proof. intros Hs r' E. exists r'. split; [by eapply lookup_weaken|lia]. Qed.
Lemma increment_row d t token m id : row_after m id 0 (sql_increment d t token m).2.
Proof.
  unfold sql_increment. destruct (by_token token m) as [[i r]|] eqn:E; [|apply row_same]. apply by_token_row in E as [E _].
  destruct (not_expired _ _ _); [by apply (row_keep _ _ _ r)|apply row_same].
Qed.
Lemma update_row d sh m id : row_after m id 0 (sql_update d sh m).2.
Proof. unfold sql_update. destruct (m !! s_id sh) eqn:E; [by eapply row_keep|apply row_same]. Qed.
Lemma save_row d i r m id : i ≠ id -> row_after m id 0 (sql_save d i r m).2.
Proof.
  intros Hne. unfold sql_save. destruct (m !! i) as [old|] eqn:E; [by eapply row_keep|].
  destruct (by_token _ m); [apply row_same|]. intros r' E'. cbn [snd] in E'. rewrite lookup_insert_ne in E' by done.
  exists r'. split; [done|lia].
Qed.
Lemma exec_row c s id :
  inserts id c = false -> row_after (shares s) id (granted id (attempts c s (exec c s).1)) (shares (exec c s).2).
Proof.
  intros Hi. destruct c; cbn [exec attempts]; unfold reads, writes, on_engine; try statement; rewrite <- ?Hsh;
    try (match goal with |- context [let (_, _) := ?m (engine s) in _] => destruct (m (engine s)) end); try apply row_same.
  - apply bool_decide_eq_false in Hi. pose proof (save_row (db s1) _ (entity_to_row s0) (shares s1) id Hi) as Hr. by destruct (sql_save _ _ _ _).
  - pose proof (increment_row (db s1) (clock s1) token (shares s1) id) as Hr. by destruct (sql_increment _ _ _ _).
  - pose proof (consume_row (shares s1) id id0) as Hr. by destruct (sql_consume _ _).
  - unfold sql_delete_share. destruct (owned _ _ _); [apply delete_row|apply row_same].
  - pose proof (update_row (db s1) s0 (shares s1) id) as Hr. by destruct (sql_update _ _ _).
Qed.

(** ** A trace of a counter *)
Fixpoint counts (id : Uuid) (used : Z) (tr : list attempt) : Prop :=
  match tr with
  | [] => True
  | a :: tr => (at_link a = id -> at_granted a = allowed used (at_cap a)) ∧ counts id (used + granted id [a]) tr
  end.
Lemma granted_cons id a tr : granted id (a :: tr) = (granted id [a] + granted id tr)%Z.
Proof. apply (granted_app id [a]). Qed.
Lemma granted_one id a : granted id [a] = (if decide (at_link a = id ∧ at_granted a = true) then 1 else 0)%Z.
Proof. unfold granted. rewrite filter_cons. by case_decide. Qed.
Lemma counts_app id tr tr' used : counts id used (tr ++ tr') <-> counts id used tr ∧ counts id (used + granted id tr) tr'.
Proof.
  revert used. induction tr as [|a tr IH]; intros used; cbn [app counts].
  - unfold granted. cbn. rewrite Z.add_0_r. tauto.
  - rewrite IH, (granted_cons id a tr), Z.add_assoc. tauto.
Qed.
Lemma counts_split id used tr1 a tr2 :
  counts id used (tr1 ++ a :: tr2) -> at_link a = id -> at_granted a = allowed (used + granted id tr1) (at_cap a).
Proof. rewrite counts_app. cbn [counts]. tauto. Qed.
Definition within (n : Z) (a : attempt) : Prop :=
  match at_cap a with Some (Some m) => (m <= n)%Z | Some None => False | None => True end.
Lemma counts_bound id used n tr :
  counts id used tr -> Forall (fun a => at_link a = id -> within n a) tr -> (granted id tr <= Z.max 0 (n - used))%Z.
Proof.
  revert used. induction tr as [|a tr IH]; intros used.
  - unfold granted. cbn. lia.
  - intros [Ha Htr] Hall. apply list.Forall_cons in Hall as [Hw Hws]. rewrite granted_cons. specialize (IH _ Htr Hws). rewrite granted_one in IH |- *.
    case_decide as Hd; [|lia]. destruct Hd as [Hl Hg]. specialize (Ha Hl). specialize (Hw Hl). rewrite Hg in Ha.
    unfold allowed in Ha. unfold within in Hw. destruct (at_cap a) as [[m|]|]; [|done|done].
    symmetry in Ha. apply Z.ltb_lt in Ha. lia.
Qed.

(** ** One step *)
(** The counter of a link that is there, or has gone. *)
Definition counter_is (n : Z) (s : Store) (id : Uuid) : Prop := forall r, shares s !! id = Some r -> r_download_count r = n.
Lemma attempts_answer c s id n : counter_is n s id -> counts id n (attempts c s (exec c s).1).
Proof.
  intros Hn. destruct c; cbn [exec attempts]; try done. unfold writes. statement; [done|].
  unfold sql_consume. rewrite Hsh.
  destruct (shares s !! id0) as [r|] eqn:E; [destruct (allowance_left r) eqn:L|]; cbn [fst snd counts]; (split; [|done]); cbn;
    intros ->; try done; apply Hn in E as <-; unfold allowance_left in L; by destruct (r_max_downloads r).
Qed.
Record in_flight (id : Uuid) (x : list (prog Reply) * Store) : Prop := {
  fl_drawn : (id < fresh x.2)%N;
  fl_spares : Forall (spares id) x.1;
}.
Lemma draws_are_fresh c s : (fresh s <= fresh (exec c s).2)%N ∧ forall id, (id < fresh s)%N -> not_drawn id c (exec c s).1.
Proof.
  split.
  - destruct c; cbn [exec]; unfold reads, writes, on_engine, stmt, sql_delete_share; repeat case_match; simplify_eq; cbn; lia.
  - intros id Hid. destruct c; try done. cbn. lia.
Qed.
Lemma step_in_flight x tr y id : step x tr y -> in_flight id x -> in_flight id y.
Proof.
  intros Hst [Hid Hp]. destruct Hst as [pool s q|pool s s' [_ Hf]|pool s i c k E]; constructor; cbn [fst snd] in *.
  - done.
  - apply Forall_app_2; [done|]. apply Forall_singleton, program_spares.
  - by rewrite Hf.
  - done.
  - eapply N.lt_le_trans; [exact Hid|]. apply draws_are_fresh.
  - apply Forall_insert; [done|]. assert (Hc := Forall_lookup_1 _ _ _ _ Hp E). apply Hc. by apply draws_are_fresh.
Qed.
Lemma step_counts x tr y id n :
  step x tr y -> in_flight id x -> counter_is n x.2 id -> counts id n tr ∧ counter_is (n + granted id tr) y.2 id.
Proof.
  intros Hst [Hid Hp] Hn. destruct Hst as [pool s q|pool s s' [Hs _]|pool s i c k E]; cbn [fst snd] in *.
  - split; [done|]. intros r Hr. by rewrite (Hn r Hr), granted_nil, Z.add_0_r.
  - split; [done|]. intros r Hr. rewrite granted_nil, Z.add_0_r. apply Hn. by eapply lookup_weaken.
  - split; [by apply attempts_answer|]. intros r' Hr'.
    assert (Hc := Forall_lookup_1 _ _ _ _ Hp E). destruct Hc as [Hi _].
    destruct (exec_row c s id Hi r' Hr') as (r & Er & ->). by rewrite (Hn r Er).
Qed.
Lemma runs_count x tr y id n :
  runs x tr y -> in_flight id x -> counter_is n x.2 id ->
  in_flight id y ∧ counts id n tr ∧ counter_is (n + granted id tr) y.2 id.
Proof.
  intros Hr Hf Hn. induction Hr as [|tr y tr' z _ (Hf1 & Hc1 & Hn1) Hst].
  - split_and!; [done|done|]. by rewrite granted_nil, Z.add_0_r.
  - destruct (step_counts _ _ _ _ _ Hst Hf1 Hn1) as [Hc2 Hn2].
    split_and!; [by eapply step_in_flight|by apply counts_app|]. by rewrite granted_app, Z.add_assoc.
Qed.

(** C38: downloads are counted exactly, however requests interleave.  Take a link that exists, with
    any requests in flight that are not about to insert it (its own creation is over), and any run
    in which requests arrive and proceed in any order, statements fail, and the rest of the system
    changes grants and removes links.  The k-th download through the link is granted exactly when
    the link is still there and fewer downloads were taken than its cap at that moment allows (the
    counter it had at the start included); as long as no attempt finds a cap above [n], no more
    downloads are granted than were left of [n]; and the stored counter is the number taken. *)
Theorem download_allowance_exact pool s id r tr pool' s' :
  shares s !! id = Some r -> in_flight id (pool, s) -> runs (pool, s) tr (pool', s') ->
  (forall tr1 a tr2, tr = tr1 ++ a :: tr2 -> at_link a = id ->
     at_granted a = allowed (r_download_count r + granted id tr1) (at_cap a))
  ∧ (forall n, Forall (fun a => at_link a = id -> within n a) tr ->
       (granted id tr <= Z.max 0 (n - r_download_count r))%Z)
  ∧ (forall r', shares s' !! id = Some r' -> r_download_count r' = (r_download_count r + granted id tr)%Z).
Proof.
  intros E Hf Hr. assert (Hn : counter_is (r_download_count r) s id) by (intros r0 E0; by simplify_eq).
  destruct (runs_count _ _ _ id _ Hr Hf Hn) as (_ & Hc & Hn').
  split_and!; [|intros n; by apply counts_bound|done].
  intros tr1 a tr2 ->. by apply counts_split with tr2.
Qed.
End Server.
