(* ===== verification/ShareVisitors.v ===== *)
(** * Share links: what a browser holds

    The ring as a least-recently-opened list, and the cookies as texts.  The ring of a browser that
    opens links one after another is the list of the last ten distinct links; a cookie that was
    set is found again in the header that carries it. *)

From S2P Require Import Prelude.
From S2P Require Import RustStr.
From S2P Require Import DomainErrors.
From S2P Require Import Authorization.
From S2P Require Import ShareDb.
From S2P Require Import ShareCookies.

#[local] Arguments lit : simpl never.

(** ** The distinct links of a history, in the order of their last openings *)
Fixpoint distinct (l : list Uuid) : list Uuid :=
  match l with
  | [] => []
  | x :: l => if bool_decide (x ∈ l) then distinct l else x :: distinct l
  end.
Definition last_n {A} (n : nat) (l : list A) : list A := drop (length l - n) l.
Lemma elem_of_distinct x l : x ∈ distinct l <-> x ∈ l.
Proof.
  induction l as [|y l IH]; cbn; [done|]. case_bool_decide as Hy; rewrite !elem_of_cons, ?IH; [|done]. naive_solver.
Qed.
Lemma distinct_NoDup l : NoDup (distinct l).
Proof.
  induction l as [|y l IH]; cbn; [by apply base.NoDup_nil_2|]. case_bool_decide as Hy; [done|].
  apply list.NoDup_cons. by rewrite elem_of_distinct.
Qed.
Lemma distinct_snoc l x : distinct (l ++ [x]) = filter (fun y => y ≠ x) (distinct l) ++ [x].
Proof.
  induction l as [|y l IH]; [done|]. cbn [app distinct]. rewrite IH.
  destruct (decide (y = x)) as [->|Hne].
  - rewrite bool_decide_eq_true_2 by set_solver. case_bool_decide; [done|]. rewrite filter_cons. by rewrite decide_False by tauto.
  - rewrite (bool_decide_ext (y ∈ l ++ [x]) (y ∈ l)) by set_solver.
    case_bool_decide; [done|]. rewrite filter_cons. by rewrite decide_True.
Qed.

(** Cutting to the last [n] and pushing commute: pushing looks at the last [n] only. *)
Lemma last_n_app {A} n (l l' : list A) : length l' <= n -> last_n n (l ++ l') = last_n (n - length l') l ++ l'.
Proof.
  intros Hl. unfold last_n. rewrite length_app, drop_app. f_equal; [f_equal; lia|].
  by rewrite (proj2 (Nat.sub_0_le _ _)) by lia.
Qed.
Lemma last_n_last_n {A} n m (l : list A) : n <= m -> last_n n (last_n m l) = last_n n l.
Proof. intros Hl. unfold last_n. rewrite length_drop, drop_drop. f_equal. lia. Qed.
Lemma last_n_short {A} n (l : list A) : length l <= n -> last_n n l = l.
Proof. intros Hl. unfold last_n. by rewrite (proj2 (Nat.sub_0_le _ _)). Qed.
Lemma filter_others (x : Uuid) (l : list Uuid) : x ∉ l -> filter (fun y => y ≠ x) l = l.
Proof.
  induction l as [|y l IH]; [done|]. rewrite elem_of_cons. intros Hx. rewrite filter_cons, decide_True by naive_solver.
  f_equal. apply IH. naive_solver.
Qed.
Lemma filter_one (x : Uuid) (l : list Uuid) : NoDup l -> length l <= S (length (filter (fun y => y ≠ x) l)).
Proof.
  induction 1 as [|y l Hy Hnd IH]; [cbn; lia|]. rewrite filter_cons. case_decide as Hd; cbn; [lia|].
  rewrite filter_others; [done|]. by destruct (decide (y = x)) as [<-|?].
Qed.
Lemma last_n_cons {A} n (x : A) l : n <= length l -> last_n n (x :: l) = last_n n l.
Proof. intros Hl. unfold last_n. cbn [length]. by rewrite Nat.sub_succ_l. Qed.
Lemma filter_last_n (x : Uuid) n (l : list Uuid) :
  NoDup l -> last_n n (filter (fun y => y ≠ x) (last_n (S n) l)) = last_n n (filter (fun y => y ≠ x) l).
Proof.
  induction 1 as [|y l Hy Hnd IH]; [done|]. destruct (decide (length l < S n)) as [Hs|Hs].
  - f_equal. f_equal. apply last_n_short. cbn. lia.
  - rewrite last_n_cons, IH by lia. rewrite filter_cons. case_decide; [|done].
    rewrite last_n_cons; [done|]. pose proof (filter_one x l Hnd). lia.
Qed.
Lemma ring_push_last x l : ring_push x l = last_n MAX_RING_SIZE (filter (fun y => y ≠ x) l ++ [x]).
Proof. done. Qed.
(** the ring after one more link *)
Lemma ring_push_distinct x l : ring_push x (last_n MAX_RING_SIZE (distinct l)) = last_n MAX_RING_SIZE (distinct (l ++ [x])).
Proof.
  rewrite ring_push_last, distinct_snoc. unfold MAX_RING_SIZE. rewrite !(last_n_app 10) by (cbn; lia). f_equal.
  apply (filter_last_n x 9), distinct_NoDup.
Qed.

(** ** The ring over time *)
Section Ring.
Context `{Signer}.
Lemma verify_issue secret t t' visitor l ttl tok :
  issue secret t visitor l ttl = Ok tok -> (t <= t')%Z ->
  verify secret t' tok = if (epoch_secs t' <=? epoch_secs t + ttl)%Z then Some (mkRing visitor l) else None.
Proof.
  unfold issue, verify. destruct secret as [|b secret]; [done|]. destruct (jwt_sign _ _) as [tok'|e] eqn:E; [|done].
  intros [= <-] _. rewrite (jwt_sign_claims _ _ _ E). unfold unexpired.
  destruct (_ <=? _)%Z; [|done]. by rewrite decide_True.
Qed.
(** A browser opens links one after another: each visit is the time, the identifier a new visitor
    would get, and the link. *)
Definition visit (secret : str) (ttl : Z) (held : result DomainError (option str)) (v : Z * Uuid * Uuid)
    : result DomainError (option str) :=
  existing ← held; Some <$> append secret v.1.1 v.1.1 v.1.2 existing v.2 ttl.
Definition browse (secret : str) (ttl : Z) (visits : list (Z * Uuid * Uuid)) : result DomainError (option str) :=
  foldl (visit secret ttl) (Ok None) visits.
(** each visit within the time to live of the one before *)
Definition next_in_time (ttl : Z) (t t' : Z) : Prop := (t <= t')%Z ∧ (epoch_secs t' <= epoch_secs t + ttl)%Z.
Definition brisk (ttl : Z) (visits : list (Z * Uuid * Uuid)) : Prop :=
  forall i v w, visits !! i = Some v -> visits !! S i = Some w -> next_in_time ttl v.1.1 w.1.1.
Lemma brisk_snoc ttl l v w : brisk ttl ((l ++ [v]) ++ [w]) -> brisk ttl (l ++ [v]) ∧ next_in_time ttl v.1.1 w.1.1.
Proof.
  intros Hb. split.
  - intros i a b Ha Hc. apply (Hb i); by apply lookup_app_l_Some.
  - apply (Hb (length l)).
    + by rewrite <- app_assoc, lookup_app_r, Nat.sub_diag by lia.
    + rewrite lookup_app_r by (rewrite length_app; cbn; lia). rewrite length_app. cbn. by rewrite Nat.add_comm, Nat.sub_diag.
Qed.
Lemma append_verify secret ttl t fresh existing id tok t' :
  append secret t t fresh existing id ttl = Ok tok -> next_in_time ttl t t' ->
  verify secret t' tok =
    let held := existing ≫= verify secret t in
    Some (mkRing (match held with Some r => visitor_id r | None => fresh end)
                 (ring_push id (match held with Some r => ring_shares r | None => [] end))).
Proof. unfold append. intros Ha [Ht Hl]. rewrite (verify_issue _ _ _ _ _ _ _ Ha Ht). by rewrite (proj2 (Z.leb_le _ _)). Qed.

(** The ring is the list of the last ten distinct links.  A browser opens links one after another,
    each within the time to live of the ring it got before, under a secret that signs.  Whatever
    the order and the repetitions, the ring it ends with, read before it expires, carries the
    visitor of the first visit and the links in the order of their last openings, the last ten of
    them, without duplicates. *)
Theorem ring_is_last_ten secret ttl visits v tok t :
  browse secret ttl (visits ++ [v]) = Ok (Some tok) -> brisk ttl (visits ++ [v]) -> next_in_time ttl v.1.1 t ->
  exists visitor, from_option (fun w => w.1.2) v.1.2 (head visits) = visitor
    ∧ verify secret t tok = Some (mkRing visitor (last_n MAX_RING_SIZE (distinct (visits ++ [v]).*2))).
Proof.
  unfold browse. revert v tok t. induction visits as [|u visits IH] using rev_ind; intros v tok t Hr Hb Ht; rewrite foldl_snoc in Hr.
  - eexists. split; [done|]. cbn in Hr. destruct (append _ _ _ _ _ _ _) as [tok'|e] eqn:E; [|done]. cbn in Hr. injection Hr as ->.
    by rewrite (append_verify _ _ _ _ _ _ _ _ E Ht).
  - apply brisk_snoc in Hb as [Hb Hv]. unfold visit in Hr at 1.
    destruct (foldl (visit secret ttl) (Ok None) (visits ++ [u])) as [[held|]|e] eqn:F; cbn in Hr; [| |done];
      destruct (append _ _ _ _ _ _ _) as [tok'|e'] eqn:E; cbn in Hr; try done; injection Hr as ->.
    + destruct (IH u held v.1.1 F Hb Hv) as (vis & <- & Hver).
      eexists. split; [done|]. rewrite (append_verify _ _ _ _ _ _ _ _ E Ht). cbn [mbind option_bind]. rewrite Hver. cbn [visitor_id ring_shares].
      rewrite ring_push_distinct, (fmap_app snd (visits ++ [u])). by destruct visits.
    + exfalso. clear -F. rewrite foldl_snoc in F. unfold visit in F at 1. destruct (foldl _ _ visits) as [o|e]; cbn in F; [|done].
      by destruct (append _ _ _ _ _ _ _).
Qed.
End Ring.

(** ** Cookies as texts *)
(** What a browser keeps of a [Set-Cookie] header, and the [Cookie] header it sends. *)
Definition stored (set_cookie : str) : option (str * str) := head (split 59 set_cookie) ≫= split_once 61.
Definition pair_text (c : str * str) : str := c.1 ++ 61%Z :: c.2.
Definition cookie_header (cookies : list (str * str)) : str :=
  match cookies with
  | [] => []
  | c :: cs => join 59 (pair_text c :: ((fun c => 32%Z :: pair_text c) <$> cs))
  end.
(** A pair a browser sends: visible bytes, no separators. *)
Definition clean_pair (c : str * str) : Prop :=
  c.1 ≠ [] ∧ Forall (fun b => visible b ∧ b ≠ 59%Z ∧ b ≠ 61%Z) c.1 ∧ Forall (fun b => visible b ∧ b ≠ 59%Z) c.2.
Lemma trim_space s : trim (32%Z :: s) = trim s.
Proof. done. Qed.
Lemma Forall_last (P : byte -> Prop) l b : Forall P l -> list.last l = Some b -> P b.
Proof. intros Hf E. apply last_Some_elem_of in E. rewrite list.Forall_forall in Hf. by apply Hf. Qed.
Lemma trim_pair c : clean_pair c -> trim (pair_text c) = pair_text c.
Proof.
  destruct c as [n v]. intros (Hn & Hfn & Hfv). cbn in *. unfold pair_text. cbn [fst snd].
  destruct n as [|b n]; [done|]. apply list.Forall_cons in Hfn as [[Hb _] _].
  destruct (list.last (61%Z :: v)) as [c|] eqn:E; [|by apply last_None in E].
  apply (trim_visible _ b c); [done| |done|].
  - by rewrite list.last_app, E.
  - apply (Forall_last visible (61%Z :: v)); [|done]. apply list.Forall_cons. split; [unfold visible; lia|].
    by eapply list.Forall_impl; [exact Hfv|intros ? []].
Qed.
Lemma clean_no_byte (P : byte -> Prop) b l : Forall P l -> ~ P b -> b ∉ l.
Proof. rewrite list.Forall_forall. intros Hf Hb Hin. by apply Hb, Hf. Qed.
Lemma pair_no_semicolon c : clean_pair c -> 59%Z ∉ pair_text c.
Proof.
  intros (_ & Hn & Hv). unfold pair_text. rewrite elem_of_app, elem_of_cons. intros [Hin|[?|Hin]]; [|done|].
  - by apply (clean_no_byte _ 59%Z) in Hn; [|intros (_ & ? & _)].
  - by apply (clean_no_byte _ 59%Z) in Hv; [|intros (_ & ?)].
Qed.
Lemma split_pair c : clean_pair c -> split_once 61 (pair_text c) = Some c.
Proof.
  intros (_ & Hn & _). unfold pair_text. rewrite split_once_app; [by destruct c|].
  by apply (clean_no_byte _ 61%Z) in Hn; [|intros (_ & _ & ?)].
Qed.
Lemma split_cookie_header cookies :
  cookies ≠ [] -> Forall clean_pair cookies -> trim <$> split 59 (cookie_header cookies) = pair_text <$> cookies.
Proof.
  intros Hne Hc. destruct cookies as [|c cs]; [done|]. cbn [cookie_header].
  rewrite split_join; [|done|].
  - cbn [fmap list_fmap]. apply list.Forall_cons in Hc as [Hc Hcs]. rewrite trim_pair by done. f_equal.
    rewrite <- list_fmap_compose. apply list_fmap_ext. intros i x Hx. unfold compose. rewrite trim_space. apply trim_pair.
    by eapply Forall_lookup_1 in Hcs.
  - apply list.Forall_cons in Hc as [Hc Hcs]. apply list.Forall_cons. split; [by apply pair_no_semicolon|].
    apply list.Forall_fmap. eapply list.Forall_impl; [exact Hcs|]. intros x Hx. cbn. rewrite elem_of_cons. intros [?|Hin]; [done|].
    by apply pair_no_semicolon in Hx.
Qed.
Lemma find_cookie_first name parts cookies :
  trim <$> parts = pair_text <$> cookies -> Forall clean_pair cookies ->
  find_cookie name parts = snd <$> find (fun c => bool_decide (c.1 = name)) cookies.
Proof.
  revert parts. induction cookies as [|c cs IH]; intros parts E Hc; destruct parts as [|p ps]; try done.
  cbn [fmap list_fmap] in E. injection E as Ep Eps. apply list.Forall_cons in Hc as [Hc Hcs].
  cbn [find_cookie find]. rewrite Ep, split_pair by done. destruct c as [n v]. cbn [fst].
  case_decide; [by rewrite bool_decide_eq_true_2|]. rewrite bool_decide_eq_false_2 by done. by apply IH.
Qed.

Definition name_byte (b : byte) : Prop := visible b ∧ b ≠ 59%Z ∧ b ≠ 61%Z.
#[export] Instance name_byte_dec b : Decision (name_byte b).
Proof. unfold name_byte, visible. apply _. Defined.
Lemma jwt_byte_name b : jwt_byte b -> name_byte b.
Proof. unfold jwt_byte, name_byte, visible. lia. Qed.
Lemma unlock_name_clean token : Forall name_byte token -> Forall name_byte (unlock_cookie_name token).
Proof. intros Ht. apply list.Forall_app. split; [|done]. apply (bool_decide_unpack _). by vm_compute. Qed.

Section Unlock.
Context `{Signer}.
Lemma issue_jwt_clean secret t token ttl jwt : issue_jwt secret t token ttl = Ok jwt -> jwt ≠ [] ∧ Forall jwt_byte jwt.
Proof.
  unfold issue_jwt. destruct secret; [done|]. destruct (jwt_sign _ _) as [tok|e] eqn:E; [|done]. intros [= <-].
  by eapply jwt_sign_text.
Qed.
Lemma verify_issued secret t token ttl jwt t' other :
  issue_jwt secret t token ttl = Ok jwt ->
  verify_jwt secret t' other jwt = (epoch_secs t' <=? epoch_secs t + ttl)%Z && bool_decide (token = other)
  ∧ verify secret t' jwt = None.
Proof.
  intros Hi. destruct (issue_jwt_clean _ _ _ _ _ Hi) as [Hne _]. unfold issue_jwt in Hi. unfold verify_jwt, verify.
  destruct secret; [done|]. destruct (jwt_sign _ _) as [tok|e] eqn:E; [|done]. injection Hi as <-.
  rewrite (jwt_sign_claims _ _ _ E). by destruct tok.
Qed.
Lemma unlock_pair_clean secret t token ttl jwt :
  issue_jwt secret t token ttl = Ok jwt -> Forall name_byte token -> clean_pair (unlock_cookie_name token, jwt).
Proof.
  intros Hi Ht. destruct (issue_jwt_clean _ _ _ _ _ Hi) as [_ Hj]. split_and!; [done|by apply unlock_name_clean|].
  eapply list.Forall_impl; [exact Hj|]. intros b Hb%jwt_byte_name. by destruct Hb as (? & ? & _).
Qed.

(** The proof that a password was given survives the browser.  The cookie issued for a link is
    stored under the link's name with the token as its value; from any header in which the browser
    sends it back among other cookies, none of that name before it, the server reads the same
    token; the token opens this link, for as long as its time to live and not a second longer, and
    no other link; and it does not pass for a ring. *)
Theorem unlock_cookie_roundtrip secret t base token ttl jwt :
  issue_jwt secret t token ttl = Ok jwt -> Forall name_byte token ->
  stored (build_unlock_cookie base token jwt ttl) = Some (unlock_cookie_name token, jwt)
  ∧ (forall before after, Forall clean_pair (before ++ after) -> unlock_cookie_name token ∉ before.*1 ->
       unlock_from_cookie_header (cookie_header (before ++ (unlock_cookie_name token, jwt) :: after)) token = Some jwt)
  ∧ (forall t' other, verify_jwt secret t' other jwt = true <-> (epoch_secs t' <= epoch_secs t + ttl)%Z ∧ other = token)
  ∧ (forall t', verify secret t' jwt = None).
Proof.
  intros Hi Ht. pose proof (unlock_pair_clean _ _ _ _ _ Hi Ht) as Hc. split_and!.
  - unfold stored, build_unlock_cookie.
    change (unlock_cookie_name token ++ lit "=" ++ jwt ++ lit "; HttpOnly; SameSite=Lax; Path=" ++ ?r)
      with (unlock_cookie_name token ++ 61%Z :: (jwt ++ 59%Z :: (lit " HttpOnly; SameSite=Lax; Path=" ++ r))).
    rewrite app_comm_cons, app_assoc.
    rewrite (split_app_sep 59 (pair_text (unlock_cookie_name token, jwt))) by by apply pair_no_semicolon.
    cbn [head mbind option_bind]. by apply split_pair.
  - intros before after [Hb Ha]%list.Forall_app Hn. unfold unlock_from_cookie_header.
    assert (Hall : Forall clean_pair (before ++ (unlock_cookie_name token, jwt) :: after)).
    { apply list.Forall_app. split; [done|]. by apply list.Forall_cons. }
    assert (Hne : before ++ (unlock_cookie_name token, jwt) :: after ≠ []) by by destruct before.
    rewrite (find_cookie_first _ _ _ (split_cookie_header _ Hne Hall) Hall).
    clear -Hn. induction before as [|c cs IH]; cbn; [by rewrite bool_decide_eq_true_2|].
    rewrite fmap_cons, not_elem_of_cons in Hn. destruct Hn as [Hne Hn].
    rewrite bool_decide_eq_false_2 by done. by apply IH.
  - intros t' other. rewrite (proj1 (verify_issued _ _ _ _ _ t' other Hi)), andb_true_iff, Z.leb_le, bool_decide_eq_true. naive_solver.
  - intros t'. apply (verify_issued _ _ _ _ _ t' token Hi).
Qed.
End Unlock.
