(* ===== verification/ShareOps.v ===== *)
(** * Share links: one request at a time

    What a successful creation and a successful deletion do to the tables and, through the grant
    of the link, to the decisions of the authorization engine. *)

From S2P Require Import Prelude.
From S2P Require Import RustStr.
From S2P Require Import DomainErrors.
From S2P Require Import Principals.
From S2P Require Import Authorization.
From S2P Require Import DrivePolicies.
From S2P Require Import Moka.
From S2P Require Import AclDb.
From S2P Require Import AuthzPort.
From S2P Require Import AclEngine.
From S2P Require Import AclSpec.
From S2P Require Import AclTheorems.
From S2P Require Import AclWrites.
From S2P Require Import DriveMembers.
From S2P Require Import AclClaims.
From S2P Require Import ShareDb.
From S2P Require Import ShareCookies.
From S2P Require Import ShareService.

#[local] Arguments lit : simpl never.

(** ** Decisions after a change of one token's grants *)
Section Decisions.
Context `{PolicyCodec} `{UuidText}.
Implicit Types (w : World) (s : Subject) (p : Permission) (r : Resource).

Lemma granted_ext w gs s p r :
  (forall g, applies w s g <-> applies (set_grants w gs) s g) -> granted w s p r <-> granted (set_grants w gs) s p r.
Proof.
  intros Ha.
  assert (Hrole : forall d ro, drive_role w s d ro <-> drive_role (set_grants w gs) s d ro).
  { intros d ro. unfold drive_role. by setoid_rewrite Ha. }
  assert (Hg : forall d, role_granted w s p d <-> role_granted (set_grants w gs) s p d).
  { intros d. unfold role_granted. by setoid_rewrite Hrole. }
  assert (Hf : forall f, folder_granted w s p f <-> folder_granted (set_grants w gs) s p f).
  { intros f. unfold folder_granted. by setoid_rewrite Ha. }
  assert (Ho : forall r, own_granted w s p r <-> own_granted (set_grants w gs) s p r).
  { intros r0. unfold own_granted. by setoid_rewrite Ha. }
  destruct r; cbn [granted]; try apply Ho; try apply Hg.
  - by setoid_rewrite Hg; setoid_rewrite Hf.
  - by setoid_rewrite Hg; setoid_rewrite Hf; setoid_rewrite Ho.
Qed.
Lemma decision_ext w gs s p r :
  (forall g, applies w s g <-> applies (set_grants w gs) s g) -> decision (set_grants w gs) s p r = decision w s p r.
Proof.
  intros Ha. apply eq_true_iff_eq. rewrite !decision_meaning, (granted_ext w gs s p r Ha). tauto.
Qed.

(** What lies under an item: itself, and everything in a folder. *)
Definition covers w (root r : Resource) : Prop :=
  match r with
  | Folder f => exists a, root = Folder a ∧ ancestor_or_self w a f
  | File f => exists row, files (w_db w) !! f = Some row
      ∧ (root = File f ∨ exists a d, root = Folder a ∧ fi_folder row = Some d ∧ ancestor_or_self w a d)
  | _ => False
  end.
(** The decisions of a token whose only grant makes it a viewer of an item. *)
Lemma viewer_decision w id new ty item p r :
  (forall g, g ∈ role_grants (w_db w) ∧ g_subject g = Token id <-> g = new) ->
  g_role new = Viewer -> g_resource new = resource_of ty item ->
  decision w (Token id) p r = true <->
  p = Read ∧ live (w_now w) new = true ∧ covers w (resource_of ty item) r.
Proof.
  intros Hnew Hro Hres. rewrite decision_meaning.
  assert (Ha : forall g, applies w (Token id) g <-> g = new ∧ live (w_now w) new = true).
  { intros g. unfold applies. split.
    - intros (Hin & Hl & Hs). assert (g = new) as -> by by apply Hnew. done.
    - intros [-> Hl]. destruct (proj2 (Hnew new) eq_refl). done. }
  assert (Hc : carries new p <-> p = Read).
  { unfold carries. rewrite Hro. cbn. by rewrite list_elem_of_singleton. }
  assert (Hrole : forall d, ~ role_granted w (Token id) p d).
  { intros d (ro & ((g & [-> _]%Ha & Hd & _) & _) & _). rewrite Hres in Hd. by destruct ty. }
  assert (Hf : forall f, folder_granted w (Token id) p f <->
    p = Read ∧ live (w_now w) new = true ∧ exists a, resource_of ty item = Folder a ∧ ancestor_or_self w a f).
  { intros f. unfold folder_granted. setoid_rewrite Ha. split.
    - intros (g & a & [-> ?] & ?%Hc & Hr & ?). rewrite Hres in Hr. eauto.
    - intros (Hp & ? & a & ? & ?). exists new, a. rewrite Hres. by rewrite Hc. }
  assert (Ho : own_granted w (Token id) p r <-> p = Read ∧ live (w_now w) new = true ∧ resource_of ty item = r).
  { unfold own_granted. setoid_rewrite Ha. split.
    - intros (g & [-> ?] & ?%Hc & Hr). by rewrite Hres in Hr.
    - intros (Hp & ? & ?). exists new. rewrite Hres. by rewrite Hc. }
  assert (Hread : p = Read -> ~ frozen w p r) by (by intros -> [? _]).
  destruct r as [f|f|d|c|c|c]; cbn [granted covers].
  - setoid_rewrite Hf. split.
    + intros [_ (row & _ & [?%Hrole|(? & ? & ?)])]; [done|]. eauto.
    + intros (Hp & Hl & a & Hr & Han). split; [auto|]. destruct (Han) as (ra & rf & ? & ? & ?). exists rf. eauto 10.
  - setoid_rewrite Hf. setoid_rewrite Ho. split.
    + intros [_ (row & Hrow & [?%Hrole|[(d & Hd & Hp & Hl & a & Hr & Han)|(Hp & Hl & Hr)]])]; [done| |]; eauto 10.
    + intros (Hp & Hl & row & Hrow & Hc'). split; [auto|]. exists row. split; [done|]. right.
      destruct Hc' as [Hr|(a & d & Hr & Hd & Han)]; [right; auto|left; eauto 10].
  - split; [by intros [_ ?%Hrole]|tauto].
  - rewrite Ho. split; [by intros (_ & _ & _ & Hr); destruct ty|tauto].
  - rewrite Ho. split; [by intros (_ & _ & _ & Hr); destruct ty|tauto].
  - rewrite Ho. split; [by intros (_ & _ & _ & Hr); destruct ty|tauto].
Qed.
(** A token without grants is refused everything. *)
Lemma no_grant_decision w id p r :
  (forall g, g ∈ role_grants (w_db w) -> g_subject g ≠ Token id) -> decision w (Token id) p r = false.
Proof.
  intros Hn. apply not_true_is_false. rewrite decision_meaning. intros [_ Hg].
  assert (Ha : forall g, ~ applies w (Token id) g) by (intros g (Hin & _ & Hs); by apply (Hn g)).
  assert (Hr : forall d, ~ role_granted w (Token id) p d) by (intros d (ro & ((g & Hx & _) & _) & _); by apply (Ha g)).
  assert (Hf : forall f, ~ folder_granted w (Token id) p f) by (intros f (g & a & Hx & _); by apply (Ha g)).
  assert (Ho : ~ own_granted w (Token id) p r) by (intros (g & Hx & _); by apply (Ha g)).
  destruct r; cbn [granted] in Hg; naive_solver.
Qed.
End Decisions.

(** ** Silence

    A subject that holds no grant and has no entry that says yes gets no yes from the engine,
    whatever else happens, until it is given a grant. *)
Section Silence.
Context {Cache : forall (K : Type) {E : EqDecision K} {C : @Countable K E}, Type -> Type}.
#[local] Arguments Cache _ {_ _} _.
Context `{!Moka (@Cache)} `{PolicyCodec} `{UuidText}.
Local Abbreviation Engine := (Engine (Cache:=@Cache)).
Implicit Types (e : Engine) (id : Uuid).

Definition ungranted id (w : World) : Prop := forall g, g ∈ role_grants (w_db w) -> g_subject g ≠ Token id.
Record silent id e : Prop := {
  si_grants : ungranted id (world e);
  si_role t d v : (now e <= t)%Z -> cget (drive_role_cache e) t (Token id, d) = Some v -> v = None;
  si_cascade t r p v : (now e <= t)%Z -> cget (cascade_grant_cache e) t (Token id, r, p) = Some v -> v = false;
  si_direct t r p v : (now e <= t)%Z -> cget (direct_grant_cache e) t (Token id, r, p) = Some v -> v = false;
}.
Lemma ungranted_match id w (g : Grant) : ungranted id w -> g ∈ role_grants (w_db w) ->
  subject_in [Subject.type_str (Token id)] {[ id ]} g = false.
Proof.
  intros Hn Hin. apply not_true_is_false. unfold subject_in. rewrite andb_true_iff, !bool_decide_eq_true.
  intros [Ht%list_elem_of_singleton Hi%elem_of_singleton]. apply (Hn g Hin).
  destruct (g_subject g); try done. cbn in Hi. by subst.
Qed.
Lemma ungranted_exists id w t roles ty rid : ungranted id w ->
  sql_grant_exists (w_db w) t [Subject.type_str (Token id)] {[ id ]} roles ty rid = false.
Proof.
  intros Hn. unfold sql_grant_exists. apply not_true_is_false. rewrite existsb_exists. intros (g & Hin & Hg).
  apply list_elem_of_In in Hin. by rewrite (ungranted_match id w g) in Hg.
Qed.
Lemma ungranted_cascade id w t roles f : ungranted id w ->
  sql_folder_cascade (w_db w) t [Subject.type_str (Token id)] {[ id ]} roles f = false.
Proof.
  intros Hn. unfold sql_folder_cascade. apply not_true_is_false. rewrite existsb_exists. intros (g & Hin & Hg).
  apply list_elem_of_In in Hin. by rewrite (ungranted_match id w g) in Hg.
Qed.
Lemma ungranted_role id w t d : ungranted id w -> sql_drive_role (w_db w) t [Subject.type_str (Token id)] {[ id ]} d = None.
Proof.
  intros Hn. unfold sql_drive_role. destruct (filter _ (role_grants (w_db w))) as [|g l] eqn:Ef; [done|].
  assert (Hg : g ∈ g :: l) by by left. rewrite <- Ef in Hg. apply list_elem_of_filter in Hg as [Hg Hin].
  by rewrite (ungranted_match id w g) in Hg.
Qed.

(** Programs that keep an invariant and answer as said. *)
Definition ensures {T} (I : Engine -> Prop) (m : AM (Cache:=@Cache) T) (Q : T -> Prop) : Prop :=
  forall e, I e -> I (m e).2 ∧ forall v, (m e).1 = Ok v -> Q v.
Section rules.
Context (I : Engine -> Prop).
Lemma ensures_bind {A B} (m : AM A) (f : A -> AM B) P Q :
  ensures I m P -> (forall v, P v -> ensures I (f v) Q) -> ensures I (m ≫= f) Q.
Proof.
  intros Hm Hf e He. unfold mbind, M_bind. destruct (Hm e He) as [H1 H2]. destruct (m e) as [[v|x] e']; [|done].
  by apply (Hf v (H2 v eq_refl)).
Qed.
Lemma ensures_ret {A} (v : A) (Q : A -> Prop) : Q v -> ensures I (mret v) Q.
Proof. intros Hv e He. split; [done|]. by intros ? [= <-]. Qed.
Lemma ensures_raise {A} err (Q : A -> Prop) : ensures I (raise err) Q.
Proof. intros e He. by split. Qed.
Lemma ensures_lift {A} (r : result DomainError A) (Q : A -> Prop) : (forall v, r = Ok v -> Q v) -> ensures I (lift r) Q.
Proof. intros Hr e He. split; [done|]. intros v Hv. by apply Hr. Qed.
Lemma ensures_gets {A} (f : Engine -> A) (Q : A -> Prop) : (forall e, I e -> Q (f e)) -> ensures I (gets f) Q.
Proof. intros Hf e He. split; [done|]. intros v [= <-]. by apply Hf. Qed.
Lemma ensures_modify (f : Engine -> Engine) : (forall e, I e -> I (f e)) -> ensures I (modify f) (fun _ => True).
Proof. intros Hf e He. split; [by apply Hf|done]. Qed.
Lemma ensures_weaken {A} (m : AM A) (P Q : A -> Prop) : ensures I m P -> (forall v, P v -> Q v) -> ensures I m Q.
Proof. intros Hm Hw e He. destruct (Hm e He) as [H1 H2]. split; [done|]. intros v Hv. by apply Hw, H2. Qed.
Lemma ensures_attempt {A} (m : AM A) (P : A -> Prop) : ensures I m P ->
  ensures I (attempt m) (fun r => forall v, r = Ok v -> P v).
Proof.
  intros Hm e He. destruct (Hm e He) as [H1 H2]. unfold attempt. destruct (m e) as [r e']. split; [done|].
  intros ? [= <-]. exact H2.
Qed.
Lemma ensures_map_err {A} g (m : AM A) (P : A -> Prop) : ensures I m P -> ensures I (map_err_m g m) P.
Proof.
  intros Hm e He. destruct (Hm e He) as [H1 H2]. unfold map_err_m. destruct (m e) as [[v|x] e']; (split; [done|]); [exact H2|done].
Qed.
Lemma ensures_fmap {A B} (f : A -> B) (m : AM A) (P : A -> Prop) (Q : B -> Prop) :
  ensures I m P -> (forall v, P v -> Q (f v)) -> ensures I (f <$> m) Q.
Proof.
  intros Hm Hq e He. destruct (Hm e He) as [H1 H2]. unfold fmap, M_fmap. destruct (m e) as [[v|x] e']; [|done].
  split; [done|]. intros ? [= <-]. by apply Hq, H2.
Qed.
End rules.
Lemma ensures_sql {T} id on_error (q : Db -> Z -> T) (Q : T -> Prop) :
  (forall w t, ungranted id w -> Q (q (w_db w) t)) -> ensures (silent id) (sql on_error q) Q.
Proof.
  intros Hq e He. unfold sql. assert (Hs : forall fs, silent id (set_faults e fs)) by (intros fs; by destruct He; constructor).
  destruct (faults e) as [|[x|] fs]; (split; [first [exact He|apply Hs]|]); cbn; intros v Hv; try done; injection Hv as <-; apply Hq, He.
Qed.
(** What a check learns about a subject: nothing about another one, no about a silent one. *)
Definition refuses (id : Uuid) (sub : Subject) (b : bool) : Prop := sub = Token id -> b = false.
Definition matched (id : Uuid) (sub : Subject) (m : list str * gset Uuid) : Prop :=
  sub = Token id -> m = ([Subject.type_str (Token id)], {[ id ]}).
Lemma silent_frame id e e' : world e' = world e -> drive_role_cache e' = drive_role_cache e ->
  cascade_grant_cache e' = cascade_grant_cache e -> direct_grant_cache e' = direct_grant_cache e -> silent id e -> silent id e'.
Proof. intros Ew Er Ec Ed [G R C D]. constructor; unfold now in *; by rewrite ?Ew, ?Er, ?Ec, ?Ed. Qed.
Lemma insert_no {K : Type} `{Countable K} {V} (c : Cache K V) t0 ttl k0 v0 t k v (P : V -> Prop) :
  (k0 = k -> P v0) -> (forall v, cget c t k = Some v -> P v) -> cget (cinsert c t0 ttl k0 v0) t k = Some v -> P v.
Proof.
  intros Hnew Hc Hg. destruct (decide (k0 = k)) as [->|Hne]; [apply cget_insert_eq in Hg as [-> _]; by apply Hnew|].
  apply Hc. by eapply cget_insert_ne.
Qed.
Lemma match_set_ensures id sub : ensures (silent id) (subject_match_set sub) (matched id sub).
Proof.
  destruct sub as [u|g|t]; cbn [subject_match_set]; [|by apply ensures_ret; intros [= ->]..].
  apply (ensures_bind _ _ _ (fun _ => True)); [|by intros v _; apply ensures_ret].
  unfold expand_user. eapply (ensures_bind _ _ _ (fun _ => True)); [by apply ensures_gets|]. intros [c|] _; [by apply ensures_ret|].
  eapply (ensures_bind _ _ _ _); [apply (ensures_attempt _ _ (fun _ => True)); by apply ensures_sql|]. intros r _.
  eapply (ensures_bind _ _ _ (fun _ => True)); [by apply ensures_gets|]. intros wired _.
  eapply (ensures_bind _ _ _ _).
  { apply (ensures_attempt _ _ (fun _ => True)). destruct (wired : bool); [|by apply ensures_ret].
    apply (ensures_fmap _ _ _ (fun _ => True)); [by apply ensures_sql|done]. }
  intros r2 _. eapply (ensures_bind _ _ _ (fun _ => True)); [by apply ensures_lift|]. intros x _.
  eapply (ensures_bind _ _ _ (fun _ => True)); [by apply ensures_lift|]. intros y _.
  eapply (ensures_bind _ _ _ (fun _ => True)); [apply ensures_modify; intros e; by apply silent_frame|]. intros z _. by apply ensures_ret.
Qed.
Lemma drive_of_ensures id r : ensures (silent id) (drive_of_cached r) (fun _ => True).
Proof.
  unfold drive_of_cached. eapply (ensures_bind _ _ _ (fun _ => True)); [by apply ensures_gets|]. intros [c|] _; [by apply ensures_ret|].
  eapply (ensures_bind _ _ _ (fun _ => True)).
  { destruct r; cbn [drive_of]; try apply ensures_raise;
      (eapply (ensures_bind _ _ _ (fun _ => True)); [by apply ensures_sql|]; intros row _; by apply ensures_lift). }
  intros d _. eapply (ensures_bind _ _ _ (fun _ => True)); [apply ensures_modify; intros e; by apply silent_frame|].
  intros z _. by apply ensures_ret.
Qed.
Lemma frozen_ensures id p d : ensures (silent id) (frozen_drive p d) (fun _ => True).
Proof.
  unfold frozen_drive. destruct (read_only_gate_applies p); [|by apply ensures_ret].
  apply (ensures_fmap _ _ _ (fun _ => True)); [|done]. unfold drive_policies_cached.
  eapply (ensures_bind _ _ _ (fun _ => True)); [by apply ensures_gets|]. intros [c|] _; [by apply ensures_ret|].
  eapply (ensures_bind _ _ _ (fun _ => True)); [by apply ensures_sql|]. intros row _.
  eapply (ensures_bind _ _ _ (fun _ => True)); [apply ensures_modify; intros e; by apply silent_frame|].
  intros z _. by apply ensures_ret.
Qed.
Lemma role_ensures id sub d : ensures (silent id) (caller_role_on_drive_cached sub d) (fun r => sub = Token id -> r = None).
Proof.
  unfold caller_role_on_drive_cached.
  eapply (ensures_bind _ _ _ (fun c => forall r, c = Some r -> sub = Token id -> r = None)).
  { apply ensures_gets. intros e He r Hr ->. eapply (si_role id e He (now e)); [lia|done]. }
  intros [r|] Hr; [apply ensures_ret; by apply Hr|].
  eapply (ensures_bind _ _ _ _); [apply match_set_ensures|]. intros [types ids] Hm.
  eapply (ensures_bind _ _ _ (fun r => sub = Token id -> r = None)).
  { apply ensures_sql. intros w t Hn ->. specialize (Hm eq_refl). injection Hm as -> ->. by apply ungranted_role. }
  intros ro Hro. eapply (ensures_bind _ _ _ (fun _ => True)); [|intros _ _; apply ensures_ret; intros Hs; by rewrite (Hro Hs)].
  apply ensures_modify. intros e [G R C D]. constructor; try done. cbn. intros t d' v Ht.
  apply (insert_no _ _ _ _ _ _ _ _ (fun v => v = None)); [intros [= Hs _]; by rewrite (Hro Hs)|intros v'; by apply R].
Qed.
Lemma direct_ensures id sub r p ty rid : ensures (silent id) (direct_grant_cached sub r p ty rid) (refuses id sub).
Proof.
  unfold direct_grant_cached.
  eapply (ensures_bind _ _ _ (fun c => forall b, c = Some b -> refuses id sub b)).
  { apply ensures_gets. intros e He b Hb ->. eapply (si_direct id e He (now e)); [lia|done]. }
  intros [b|] Hb; [apply ensures_ret; by apply Hb|]. apply ensures_map_err.
  eapply (ensures_bind _ _ _ _); [apply match_set_ensures|]. intros [types ids] Hm.
  eapply (ensures_bind _ _ _ (refuses id sub)).
  { apply ensures_sql. intros w t Hn ->. specialize (Hm eq_refl). injection Hm as -> ->. by apply ungranted_exists. }
  intros b Hb'. eapply (ensures_bind _ _ _ (fun _ => True)); [|intros _ _; by apply ensures_ret].
  apply ensures_modify. intros e [G R C D]. constructor; try done. cbn. intros t r' p' v Ht.
  apply (insert_no _ _ _ _ _ _ _ _ (fun v => v = false)); [by intros [= Hs _ _]; apply Hb'|intros v'; by apply D].
Qed.
Lemma cascade_ensures id sub r p on_folder : (forall f, ensures (silent id) (on_folder f) (refuses id sub)) ->
  ensures (silent id) (cascade_body on_folder sub r p) (refuses id sub).
Proof.
  intros Hf. unfold cascade_body.
  eapply (ensures_bind _ _ _ (fun c => forall b, c = Some b -> refuses id sub b)).
  { apply ensures_gets. intros e He b Hb ->. eapply (si_cascade id e He (now e)); [lia|done]. }
  intros [b|] Hb; [apply ensures_ret; by apply Hb|].
  assert (Hkeep : forall r' b, refuses id sub b -> ensures (silent id)
    (_ ← modify (fun e => set_cascade e (cinsert (cascade_grant_cache e) (now e) CASCADE_GRANT_CACHE_TTL (sub, r', p) b)); mret b)
    (refuses id sub)).
  { intros r' b Hb'. eapply (ensures_bind _ _ _ (fun _ => True)); [|intros _ _; by apply ensures_ret].
    apply ensures_modify. intros e [G R C D]. constructor; try done. cbn. intros t r'' p' v Ht.
    apply (insert_no _ _ _ _ _ _ _ _ (fun v => v = false)); [by intros [= Hs _ _]; apply Hb'|intros v'; by apply C]. }
  destruct r as [f|f|d|c|c|c]; try (by apply ensures_ret); apply ensures_map_err;
    (eapply (ensures_bind _ _ _ (refuses id sub)); [|intros b Hb'; by apply Hkeep]).
  - eapply (ensures_bind _ _ _ _); [apply match_set_ensures|]. intros [types ids] Hm.
    apply ensures_sql. intros w t Hn ->. specialize (Hm eq_refl). injection Hm as -> ->. by apply ungranted_cascade.
  - eapply (ensures_bind _ _ _ (fun _ => True)).
    { unfold file_parent_folder_cached. eapply (ensures_bind _ _ _ (fun _ => True)); [by apply ensures_gets|].
      intros [c|] _; [by apply ensures_ret|]. eapply (ensures_bind _ _ _ (fun _ => True)); [by apply ensures_sql|]. intros own _.
      eapply (ensures_bind _ _ _ (fun _ => True)); [apply ensures_modify; intros e; by apply silent_frame|]. intros z _. by apply ensures_ret. }
    intros parent _. eapply (ensures_bind _ _ _ (refuses id sub)); [destruct parent; [apply Hf|by apply ensures_ret]|].
    intros b Hb'. destruct (b : bool); [by apply ensures_ret|].
    eapply (ensures_bind _ _ _ _); [apply match_set_ensures|]. intros [types ids] Hm.
    apply ensures_sql. intros w t Hn ->. specialize (Hm eq_refl). injection Hm as -> ->. by apply ungranted_exists.
Qed.
Lemma check_ensures id sub p r : ensures (silent id) (check sub p r) (refuses id sub).
Proof.
  unfold check, check_inner. eapply (ensures_bind _ _ _ (fun _ => True)); [by apply ensures_gets|]. intros mig _.
  destruct (_ && mig); [by apply ensures_ret|].
  assert (Hrole : forall (role : option Role) (m : AM bool), (sub = Token id -> role = None) -> ensures (silent id) m (refuses id sub) ->
    ensures (silent id) (if match role with Some r => grant_bundle_has r p | None => false end then mret true else m) (refuses id sub)).
  { intros role m Hr Hm. destruct role as [ro|]; [|done]. destruct (grant_bundle_has ro p); [|done].
    apply ensures_ret. intros Hs. by specialize (Hr Hs). }
  assert (Htree : ensures (silent id)
    (found ← attempt (drive_of_cached r);
     match found with
     | Err err => if decide (kind err = NotFound) then mret false else raise err
     | Ok drive_id =>
         frozen ← frozen_drive p drive_id;
         if frozen : bool then mret false
         else
           role ← caller_role_on_drive_cached sub drive_id;
           if match role with Some r => grant_bundle_has r p | None => false end then mret true
           else cascade_grant_cached sub r p
     end) (refuses id sub)).
  { eapply (ensures_bind _ _ _ _); [apply (ensures_attempt _ _ (fun _ => True)), drive_of_ensures|]. intros [d|err] _.
    - eapply (ensures_bind _ _ _ (fun _ => True)); [apply frozen_ensures|]. intros frz _. destruct (frz : bool); [by apply ensures_ret|].
      eapply (ensures_bind _ _ _ _); [apply role_ensures|]. intros role Hr. apply Hrole; [done|].
      apply cascade_ensures. intros f. apply cascade_ensures. intros g. by apply ensures_ret.
    - case_decide; [by apply ensures_ret|apply ensures_raise]. }
  destruct r as [f|f|d|c|c|c]; try exact Htree; try apply direct_ensures.
  eapply (ensures_bind _ _ _ (fun _ => True)); [apply frozen_ensures|]. intros frz _. destruct (frz : bool); [by apply ensures_ret|].
  eapply (ensures_bind _ _ _ _); [apply role_ensures|]. intros role Hr. apply ensures_ret. intros Hs. by rewrite (Hr Hs).
Qed.

(** What may happen to the engine afterwards: checks of anybody, any change of the tables and of
    the clock that does not grant the token again, failures, and loss of cached entries. *)
Inductive afterwards (id : Uuid) (e0 : Engine) : Engine -> Prop :=
  | after_nothing : afterwards id e0 e0
  | after_check e sub p r : afterwards id e0 e -> afterwards id e0 (check sub p r e).2
  | after_change e e' : afterwards id e0 e -> ungranted id (world e') -> (now e <= now e')%Z ->
      (forall t k v, cget (drive_role_cache e') t k = Some v -> cget (drive_role_cache e) t k = Some v) ->
      (forall t k v, cget (cascade_grant_cache e') t k = Some v -> cget (cascade_grant_cache e) t k = Some v) ->
      (forall t k v, cget (direct_grant_cache e') t k = Some v -> cget (direct_grant_cache e) t k = Some v) ->
      afterwards id e0 e'.
Lemma afterwards_silent id e0 e : silent id e0 -> afterwards id e0 e -> silent id e.
Proof.
  intros Hs. induction 1 as [|e sub p r _ IH|e e' _ IH Hu Ht Hr Hc Hd]; [done|by apply check_ensures|].
  destruct IH as [G R C D]. constructor; [done|..].
  - intros t d v Hl Hg%Hr. eapply R; [|done]. lia.
  - intros t r p v Hl Hg%Hc. eapply C; [|done]. lia.
  - intros t r p v Hl Hg%Hd. eapply D; [|done]. lia.
Qed.
Lemma silent_refused id e p r e' b : silent id e -> check (Token id) p r e = (Ok b, e') -> b = false.
Proof. intros He Hk. destruct (check_ensures id (Token id) p r e He) as [_ Hq]. rewrite Hk in Hq. by apply (Hq b eq_refl). Qed.
(** Right caches over tables without a grant are silent. *)
Lemma coherent_silent id e : coherent e -> ungranted id (world e) -> silent id e.
Proof.
  intros [_ _ Hro _ Hca Hdi _] Hu. constructor; [done|..].
  - intros t d v Ht Hg. apply (cget_mono _ (now e) t) in Hg; [|done]. rewrite (Hro _ _ Hg). unfold spec_role. cbn.
    by rewrite (ungranted_role id).
  - intros t r p v Ht Hg. apply (cget_mono _ (now e) t) in Hg; [|done]. rewrite (Hca _ _ Hg). cbn. unfold spec_cascade.
    destruct r as [f|f|d|c|c|c]; try done; unfold spec_file, spec_folder, spec_direct; cbn;
      rewrite ?(ungranted_exists id), ?orb_false_r by done; try by apply ungranted_cascade.
    destruct (sql_file_parent _ f); [|done]. by apply ungranted_cascade.
  - intros t r p v Ht Hg. apply (cget_mono _ (now e) t) in Hg; [|done]. destruct (Hdi _ _ Hg) as [_ ->]. by apply ungranted_exists.
Qed.
End Silence.

(** ** Running a request *)
Section Ops.
Context {Cache : forall (K : Type) {E : EqDecision K} {C : @Countable K E}, Type -> Type}.
#[local] Arguments Cache _ {_ _} _.
Context `{!Moka (@Cache)} `{PolicyCodec} `{UuidText} `{Signer} `{Argon}.
Local Abbreviation Store := (Store (Cache:=@Cache)).
Context (pg_uuid : str -> option Uuid) (cfg : Config) (datetime_ok : Z -> bool).
Notation exec := (exec pg_uuid).
Notation run := (run pg_uuid).
Implicit Types (s : Store).
Notation tables s := (world (engine s)).

Lemma run_ok {E A B} (p : prog (result E A)) (f : A -> prog (result E B)) s v s' :
  run (x ←! p; f x) s = (Ok v, s') -> exists x s1, run p s = (Ok x, s1) ∧ run (f x) s1 = (Ok v, s').
Proof. rewrite run_then. destruct (run p s) as [[x|e] s1]; [eauto|done]. Qed.
(** Reading: the tables stay, the caches stay right. *)
Record kept s s' : Prop := {
  kept_coherent : coherent (engine s) -> coherent (engine s');
  kept_tables : tables s' = tables s;
  kept_shares : shares s' = shares s;
  kept_fresh : (fresh s <= fresh s')%N;
}.
#[export] Instance kept_preorder : PreOrder kept.
Proof.
  split.
  - intros s. by split.
  - intros s1 s2 s3 [] []. split; [auto|congruence|congruence|lia].
Qed.
Lemma kept_stmt s fs : kept s (set_engine (set_faults (engine s) fs) s).
Proof. split; [by apply set_faults_coh|done|done|done]. Qed.
Lemma run_query {T} what s v s' (q : prog (sqlr T)) :
  run (query what q) s = (Ok v, s') -> run q s = (Ok v, s').
Proof. unfold query. rewrite run_then. destruct (run q s) as [[x|e] s1]; cbn; congruence. Qed.
Lemma exec_reads {T} (f : Store -> T) s v s' :
  (forall s fs, f (set_engine (set_faults (engine s) fs) s) = f s) ->
  ShareDb.reads f s = (Ok v, s') -> v = f s ∧ kept s s'.
Proof.
  intros Hf. unfold ShareDb.reads, stmt. destruct (faults (engine s)) as [|[txt|] fs]; [|done|].
  - by intros [= <- <-].
  - intros [= <- <-]. rewrite Hf. split; [done|]. apply kept_stmt.
Qed.
Lemma item_found item_id ty s s' : run (verify_item_exists item_id ty) s = (Ok tt, s') -> kept s s'.
Proof.
  unfold verify_item_exists. cbn [pbind call ShareDb.run ShareDb.exec].
  destruct (ShareDb.reads (sql_item pg_uuid ty item_id) s) as [[[]|e] s1] eqn:R; try done. intros [= <-].
  by apply exec_reads in R as [_ ?].
Qed.
Lemma policies_found ty item s p s' :
  run (item_policies ty item) s = (Ok p, s') -> sql_policies ty item (db s) = Some p ∧ kept s s'.
Proof.
  unfold item_policies. cbn [pbind call ShareDb.run ShareDb.exec].
  destruct (ShareDb.reads _ s) as [[[p'|]|e] s1] eqn:R; try done. intros [= <- <-].
  by apply exec_reads in R as [<- ?].
Qed.
Lemma require_passes sub p r s s' :
  coherent (engine s) -> run (call (ARequire sub p r)) s = (Ok tt, s') -> decision (tables s) sub p r = true ∧ kept s s'.
Proof.
  intros Hc. cbn. unfold on_engine. destruct (require sub p r (engine s)) as [res e'] eqn:R. intros [= -> <-].
  destruct (reads_require (tables s) sub p r _ _ _ eq_refl Hc R) as (Hw & Hc' & Hd).
  split; [by apply (Hd tt)|]. by split.
Qed.
Lemma hash_option_kept p s h s' : run (hash_option p) s = (Ok h, s') -> kept s s' ∧ (h = None <-> p = None).
Proof.
  destruct p as [p|]; cbn.
  - unfold hash_password_with. destruct (argon_hash (fresh s) p); cbn; [|done]. intros [= <- <-]. split; [|done]. split; cbn; auto; lia.
  - by intros [= <- <-].
Qed.

(** The gates of a creation. *)
Record allowed_to_share s (user : Uuid) (dto : CreateShareDto) (ty : ShareItemType) (item : Uuid) (p : DrivePolicies) : Prop := {
  as_item : uuid_parse (n_item_id dto) = Some item;
  as_permission : decision (tables s) (User user) Authorization.Share (resource_of ty item) = true;
  as_policies : sql_policies ty item (db s) = Some p;
  as_links : refuse_public_links p = Ok tt;
  as_password : require_public_link_password p = true -> exists w, n_password dto = Some w ∧ w ≠ [];
  as_cap : forall days, max_public_link_days p = Some days -> exists e, n_expires_at dto = Some e
      ∧ (epoch_secs e <= epoch_secs (clock s) + days * 86400)%Z;
}.
Lemma password_gate_ok p w : password_gate p w = Ok tt -> require_public_link_password p = true -> exists x, w = Some x ∧ x ≠ [].
Proof.
  unfold password_gate. intros Hg Hr. rewrite Hr in Hg. destruct w as [x|]; [|done]. exists x. split; [done|].
  by intros ->.
Qed.
Lemma expiry_gate_ok p t e days : expiry_gate p t e = Ok tt -> max_public_link_days p = Some days ->
  exists x, e = Some x ∧ (epoch_secs x <= epoch_secs t + days * 86400)%Z.
Proof.
  unfold expiry_gate. intros Hg Hd. rewrite Hd in Hg. destruct e as [x|]; [|done]. exists x. split; [done|].
  destruct (Z.ltb_spec (epoch_secs t + days * 86400) (epoch_secs x)); [done|lia].
Qed.
Lemma gates_passed user dto ty s s' :
  coherent (engine s) -> run (creation_gates user dto ty) s = (Ok tt, s') ->
  kept s s' ∧ exists item p, allowed_to_share s user dto ty item p.
Proof.
  intros Hc Hr. unfold creation_gates in Hr.
  apply run_ok in Hr as ([] & s1 & K1%item_found & Hr). apply run_ok in Hr as (item & s2 & Hi & Hr).
  unfold parse_item in Hi. destruct (uuid_parse (n_item_id dto)) as [i|] eqn:Ei; [|done]. cbn in Hi. injection Hi as -> <-.
  apply run_ok in Hr as ([] & s3 & R & Hr). apply require_passes in R as [Hd K3]; [|by apply K1].
  apply run_ok in Hr as (p & s4 & Q & Hr). apply policies_found in Q as [Hp K4].
  apply run_ok in Hr as ([] & s5 & G1 & Hr). cbn in G1. injection G1 as G1 <-.
  apply run_ok in Hr as ([] & s6 & G2 & Hr). cbn in G2. injection G2 as G2 <-.
  assert (Ht : tables s4 = tables s) by (by rewrite (kept_tables _ _ K4), (kept_tables _ _ K3), (kept_tables _ _ K1)).
  assert (K : kept s s4) by (by etrans; [exact K1|etrans]).
  rewrite (kept_tables _ _ K1) in Hd.
  assert (Hp' : sql_policies ty item (db s) = Some p).
  { rewrite <- Hp. unfold db. by rewrite (kept_tables _ _ K3), (kept_tables _ _ K1). }
  assert (Hcap : forall days, max_public_link_days p = Some days -> expiry_gate p (clock s) (n_expires_at dto) = Ok tt ∧ s4 = s').
  { intros days Hd'. rewrite Hd' in Hr. cbn in Hr. unfold clock, now in *. rewrite Ht in Hr. by injection Hr as ? ?. }
  split.
  - destruct (max_public_link_days p) as [days|]; [by destruct (Hcap days eq_refl) as [_ <-]|]. cbn in Hr. by injection Hr as <-.
  - exists item, p. split; try done; [by apply password_gate_ok|].
    intros days Hd'. destruct (Hcap days Hd') as [Hg _]. by eapply expiry_gate_ok.
Qed.

(** Identifiers in use were drawn before. *)
Record minted s : Prop := {
  minted_shares : forall id, is_Some (shares s !! id) -> (id < fresh s)%N;
  minted_grants : forall g id, g ∈ role_grants (db s) -> g_subject g = Token id -> (id < fresh s)%N;
}.
Lemma minted_kept s s' : kept s s' -> minted s -> minted s'.
Proof.
  intros [_ Ht Hs Hf] [Hm Hg]. split.
  - rewrite Hs. intros id Hi. specialize (Hm id Hi). lia.
  - unfold db. rewrite Ht. intros g id Hin Hid. specialize (Hg g id Hin Hid). lia.
Qed.
Lemma repo_err_ok {T} (p : prog (result DomainError T)) s v s' : run (repo_err p) s = (Ok v, s') -> run p s = (Ok v, s').
Proof. unfold repo_err. rewrite run_then. destruct (run p s) as [[x|e] s1]; cbn; congruence. Qed.
Lemma save_new sh s saved s' :
  shares s !! s_id sh = None -> run (repo_err (save_share sh)) s = (Ok saved, s') ->
  saved = entity (db s) (s_id sh, entity_to_row sh) ∧ shares s' = <[s_id sh := entity_to_row sh]> (shares s)
  ∧ tables s' = tables s ∧ fresh s' = fresh s ∧ (coherent (engine s) -> coherent (engine s')).
Proof.
  intros Hn Hr. apply repo_err_ok, run_query in Hr. cbn in Hr. unfold stmt, sql_save in Hr.
  destruct (faults (engine s)) as [|[txt|] fs]; [|done|]; cbn [shares set_engine] in Hr; rewrite Hn in Hr;
    destruct (by_token _ _); try done; injection Hr as <- <-; split_and!; try done. by apply set_faults_coh.
Qed.
Lemma upsert_new fresh by_ sub ro r ex d t :
  (forall g, g ∈ role_grants d -> g_subject g ≠ sub) ->
  sql_upsert_grant fresh by_ sub ro r ex d t =
    (role_grants d ++ [mkGrant fresh sub r ro by_ t ex], grant_to_row (mkGrant fresh sub r ro by_ t ex)).
Proof.
  intros Hn. unfold sql_upsert_grant. destruct (find _ _) as [g|] eqn:F; [|done]. exfalso.
  apply find_some in F as [Hin Hk]. unfold same_key in Hk. rewrite andb_true_iff, !bool_decide_eq_true in Hk.
  apply (Hn g); [by apply list_elem_of_In|tauto].
Qed.
Definition link_grant s (user id : Uuid) (r : Resource) (ex : option Z) : Grant :=
  mkGrant (fresh s) (Token id) r Viewer user (clock s) ex.
Lemma grant_new user id r ex s g s' :
  (forall g, g ∈ role_grants (db s) -> g_subject g ≠ Token id) -> coherent (engine s) ->
  run (repo_err (call (ASetRole user (Token id) Viewer r ex))) s = (Ok g, s') ->
  tables s' = set_grants (tables s) (role_grants (db s) ++ [link_grant s user id r ex])
  ∧ shares s' = shares s ∧ coherent (engine s').
Proof.
  intros Hn Hc Hr. apply repo_err_ok in Hr. cbn in Hr. unfold on_engine in Hr.
  destruct (set_role _ _ _ _ _ _ _) as [res e'] eqn:Hs. injection Hr as -> <-. cbn [engine shares set_engine].
  unfold set_role in Hs. apply bind_inv in Hs as [(row & e1 & Hx & Hs)|(err & _ & ?)]; [|done].
  unfold_m in Hs. injection Hs as _ <-. rewrite world_invalidate.
  destruct (sql_exec_ok _ _ _ _ _ Hx) as (fs & -> & ->).
  change (w_db (world (engine s))) with (db s). rewrite (upsert_new _ _ _ _ _ _ _ _ Hn). cbn [fst snd].
  split_and!; [done|done|]. apply write_coherent; [|by apply set_faults_coh].
  pose proof (upsert_other_rows (fresh s) user (Token id) Viewer r ex (db s) (now (engine s))) as Ho.
  by rewrite (upsert_new _ _ _ _ _ _ _ _ Hn) in Ho.
Qed.

(** The link a creation makes. *)
Definition new_link s (user : Uuid) (dto : CreateShareDto) (ty : ShareItemType) (hash : option str) (id : Uuid) : Share :=
  mkShare id (n_item_id dto) (n_item_name dto) ty (uuid_to_string (N.succ id)) hash None (epoch_secs (clock s)) user 0
    (n_max_downloads dto) 0.
Lemma share_new_made dto ty user h s sh s' :
  run (share_new (n_item_id dto) (n_item_name dto) ty user h) s = (Ok sh, s') ->
  with_max_downloads (n_max_downloads dto) sh = new_link s user dto ty h (fresh s) ∧ kept s s' ∧ (fresh s < fresh s')%N.
Proof.
  unfold share_new. destruct (n_item_id dto) as [|b rest] eqn:E; [done|]. cbn. intros [= <- <-].
  split_and!; [by unfold new_link, with_max_downloads; cbn; rewrite E| |cbn; lia]. split; cbn; auto. lia.
Qed.
Record link_made s (user : Uuid) (dto : CreateShareDto) (ty : ShareItemType) (item id : Uuid) (h : option str) (s' : Store) : Prop := {
  lm_row : shares s' = <[id := entity_to_row (new_link s user dto ty h id)]> (shares s);
  lm_hash : h = None <-> n_password dto = None;
  lm_fresh : shares s !! id = None;
  lm_tables : exists g, tables s' = set_grants (tables s) (role_grants (db s) ++ [g])
                ∧ g_subject g = Token id ∧ g_role g = Viewer ∧ g_resource g = resource_of ty item ∧ g_expires_at g = n_expires_at dto;
  lm_no_grants : forall g, g ∈ role_grants (db s) -> g_subject g ≠ Token id;
  lm_coherent : coherent (engine s');
}.
Lemma entity_item_type e id sh : s_item_type (row_to_entity id e (entity_to_row sh)) = s_item_type sh.
Proof. cbn. by destruct (s_item_type sh). Qed.
Lemma created user dto s d s' :
  coherent (engine s) -> minted s -> run (create_shared_link cfg datetime_ok user dto) s = (Ok d, s') ->
  exists ty item p id h, ShareItemType.try_from (n_item_type dto) = Ok ty ∧ n_max_downloads dto ≠ Some 0%Z
    ∧ allowed_to_share s user dto ty item p ∧ link_made s user dto ty item id h s'
    ∧ d = with_expiry (n_expires_at dto) (from_entity cfg datetime_ok
            (entity (db s) (id, entity_to_row (new_link s user dto ty h id)))).
Proof.
  intros Hc Hm Hr. unfold create_shared_link in Hr.
  destruct (zero_downloads _) eqn:Hz; [done|]. apply bool_decide_eq_false in Hz.
  apply run_ok in Hr as (ty & s0 & Ht & Hr). destruct (ShareItemType.try_from _) as [ty'|] eqn:Ety; [|done].
  cbn in Ht. injection Ht as -> <-.
  apply run_ok in Hr as ([] & s1 & G & Hr). apply gates_passed in G as [K1 (item & p & Hallow)]; [|done].
  apply run_ok in Hr as (h & s2 & Hh & Hr). apply hash_option_kept in Hh as [K2 Hh].
  apply run_ok in Hr as (sh & s3 & Hn & Hr). apply share_new_made in Hn as (Esh & K3 & Hlt).
  rewrite Esh in Hr. set (id := fresh s2) in *.
  assert (K02 : kept s s2) by by etrans.
  assert (K : kept s s3) by by etrans.
  assert (Hno : shares s3 !! id = None).
  { rewrite (kept_shares _ _ K). apply eq_None_not_Some. intros Hs%(minted_shares _ Hm).
    pose proof (kept_fresh _ _ K02). unfold id in Hs. lia. }
  assert (Hng : forall g, g ∈ role_grants (db s) -> g_subject g ≠ Token id).
  { intros g Hin Hid%(minted_grants _ Hm); [|done]. pose proof (kept_fresh _ _ K02). unfold id in Hid. lia. }
  assert (Hck : clock s2 = clock s) by (unfold clock, now; by rewrite (kept_tables _ _ K02)).
  assert (Enl : new_link s2 user dto ty h id = new_link s user dto ty h id) by (unfold new_link; by rewrite Hck).
  rewrite Enl in Hr. clear Enl.
  apply run_ok in Hr as (saved & s4 & Hs & Hr). apply save_new in Hs as (-> & Hsh & Htb & _ & Hco); [|done].
  cbn [s_id new_link] in Hsh.
  apply run_ok in Hr as (item' & s5 & Hi & Hr). cbn in Hi. unfold parse_item in Hi.
  rewrite (as_item _ _ _ _ _ _ Hallow) in Hi. injection Hi as <- <-.
  apply run_ok in Hr as (g & s6 & Hg & Hr). cbn in Hr. injection Hr as <- <-.
  assert (Hty : forall d x, s_item_type (entity d (x, entity_to_row (new_link s user dto ty h x))) = ty) by (intros; by apply entity_item_type).
  cbn [s_id new_link] in Hg. rewrite Hty in Hg. change (s_id (entity _ (id, _))) with id in Hg.
  assert (Htb3 : tables s4 = tables s) by (by rewrite Htb, (kept_tables _ _ K)).
  apply grant_new in Hg as (Htb' & Hsh' & Hco'); [|unfold db; by rewrite Htb3|by apply Hco, K].
  exists ty, item, p, id, h. split_and!; [done|done|done| |].
  - split; [by rewrite Hsh', Hsh, (kept_shares _ _ K)|done|by rewrite <- (kept_shares _ _ K)| |done|done].
    eexists. unfold db in *. rewrite Htb3 in Htb'. by rewrite Htb'.
  - unfold db. by rewrite (kept_tables _ _ K).
Qed.

(** ** Deletion *)
(** A write that touches grants on files and folders only, followed by the flush. *)
Lemma tree_write_coherent (e : Engine (Cache:=@Cache)) gs :
  same_rows (fun g => negb (on_tree g)) (role_grants (w_db (world e))) gs -> coherent e ->
  coherent (invalidate_cascade_grant_cache_all (set_grant_rows e gs)).
Proof.
  intros Hs [? ? Hro ? Hca Hdi ?].
  assert (Hw : forall P : Grant -> bool, (forall g, P g = true -> on_tree g = false) ->
    same_rows (fun g => P g && live (now e) g) (role_grants (w_db (world e))) gs).
  { intros P HP. apply (same_rows_weaken _ _ _ _ Hs). intros g. rewrite andb_true_iff, negb_true_iff. naive_solver. }
  constructor; try assumption.
  - intros k v ->%Hro. symmetry. apply (spec_role_local (world e) gs k.1 k.2), Hw.
    intros g. unfold on_drive, on_tree. rewrite bool_decide_eq_true. by intros ->.
  - intros k v. unfold invalidate_cascade_grant_cache_all. cbn. by rewrite cget_invalidate_all.
  - intros k v [Ht ->]%Hdi. split; [done|]. symmetry. apply (spec_direct_local (world e) gs _ _ _), Hw.
    intros g. unfold on_resource, on_tree. rewrite bool_decide_eq_true. intros ->. by destruct (k.1.2).
Qed.
(** The grants of the link are on files and folders only, as its creation leaves them. *)
Definition link_on_items s (id : Uuid) : Prop :=
  forall g, g ∈ role_grants (db s) -> g_subject g = Token id -> on_tree g = true.
Definition without_link s (id : Uuid) : list Grant := filter (fun g => g_subject g ≠ Token id) (role_grants (db s)).
Lemma without_link_rows s id :
  link_on_items s id -> same_rows (fun g => negb (on_tree g)) (role_grants (db s)) (without_link s id).
Proof.
  unfold link_on_items, without_link, same_rows. generalize (role_grants (db s)). intros gs Hl.
  rewrite list_filter_filter. induction gs as [|g gs IH]; [done|]. rewrite !filter_cons, IH.
  - apply decide_ext. split; [|tauto]. intros Ht. split; [done|]. intros Hid. by rewrite (Hl g) in Ht by (by left || done).
  - intros g' Hin. apply Hl. by right.
Qed.
Lemma deleted user id s s' :
  run (delete_shared_link id user) s = (Ok tt, s') ->
  is_Some (owned id user (shares s)) ∧ shares s' = delete id (shares s)
  ∧ tables s' = set_grants (tables s) (without_link s id)
  ∧ (coherent (engine s) -> link_on_items s id -> coherent (engine s')).
Proof.
  intros Hr. unfold delete_shared_link in Hr. apply run_ok in Hr as ([] & s1 & Hd & Hr).
  cbn in Hr. injection Hr as <-. unfold delete_share_for_user in Hd. apply run_ok in Hd as (n & s2 & Hq & Hn).
  apply run_query in Hq. cbn in Hn. destruct (N.eqb_spec n 0); [done|]. injection Hn as <-.
  cbn in Hq. unfold stmt, sql_delete_share in Hq.
  assert (Hgo : forall e, e = engine s ∨ (exists fs, e = set_faults (engine s) fs) -> coherent (engine s) -> link_on_items s id ->
    coherent (invalidate_cascade_grant_cache_all (set_grant_rows e (without_link s id)))).
  { intros e He Hc Hl. apply tree_write_coherent; destruct He as [->|[fs ->]]; try done; try by apply without_link_rows.
    by apply set_faults_coh. }
  destruct (faults (engine s)) as [|[txt|] fs]; [|done|]; cbn [shares set_engine] in Hq;
    destruct (owned id user (shares s)); try (by injection Hq as <- _); injection Hq as _ <-; split_and!; try done.
  - apply Hgo. by left.
  - apply Hgo. right. by exists fs.
Qed.
End Ops.
