(* ===== verification/ShareClaims.v ===== *)
(** * Claims about share links *)

From S2P Require Import Prelude.
From S2P Require Import RustStr.
From S2P Require Import DomainErrors.
From S2P Require Import Principals.
From S2P Require Import Authorization.
From S2P Require Import DrivePolicies.
From S2P Require Import Moka.
From S2P Require Import AclDb.
From S2P Require Import AclEngine.
From S2P Require Import AclSpec.
From S2P Require Import AclTheorems.
From S2P Require Import AclWrites.
From S2P Require Import AclClaims.
From S2P Require Import ShareDb.
From S2P Require Import ShareCookies.
From S2P Require Import ShareService.
From S2P Require Import ShareDownloads.
From S2P Require Import ShareVisitors.
From S2P Require Import ShareOps.

#[local] Arguments lit : simpl never.

Section Claims.
Context {Cache : forall (K : Type) {E : EqDecision K} {C : @Countable K E}, Type -> Type}.
#[local] Arguments Cache _ {_ _} _.
Context `{!Moka (@Cache)} `{PolicyCodec} `{UuidText} `{Signer} `{Argon}.
Local Abbreviation Store := (Store (Cache:=@Cache)).
Context (pg_uuid : str -> option Uuid) (cfg : Config) (datetime_ok : Z -> bool).
Notation exec := (exec pg_uuid).
Notation run := (run pg_uuid).
Implicit Types (s : Store).
Notation tables s := (world (engine s)).

(** C39: a new link opens its item and nothing else.  When a creation succeeds, whatever statements
    failed on the way: the caller held Share on the item, and the policies of its drive allow
    links, this password and this expiry; one row was added, with the counters at zero, the
    requested cap, and a hash exactly if a password was given; the engine's caches are still
    right; the link may read the item, and what lies under it when it is a folder, until its
    expiry, and may do nothing else; and nobody else's permissions changed. *)
Theorem new_link_opens_its_item user dto s d s' :
  coherent (engine s) -> minted s -> run (create_shared_link cfg datetime_ok user dto) s = (Ok d, s') ->
  exists ty item p id h,
    ShareItemType.try_from (n_item_type dto) = Ok ty ∧ allowed_to_share s user dto ty item p
    ∧ n_max_downloads dto ≠ Some 0%Z ∧ (h = None <-> n_password dto = None)
    ∧ shares s !! id = None ∧ shares s' = <[id := entity_to_row (new_link s user dto ty h id)]> (shares s)
    ∧ d_id d = uuid_to_string id ∧ d_expires_at d = n_expires_at dto
    ∧ coherent (engine s')
    ∧ (forall pm r, decision (tables s') (Token id) pm r = true <->
         pm = Read ∧ from_option (fun e => (clock s < e)%Z) True (n_expires_at dto) ∧ covers (tables s) (resource_of ty item) r)
    ∧ (forall sub pm r, sub ≠ Token id -> decision (tables s') sub pm r = decision (tables s) sub pm r).
Proof.
  intros Hc Hm Hr. destruct (created _ _ _ _ _ _ _ _ Hc Hm Hr) as (ty & item & p & id & h & Hty & Hz & Ha & [Hrow Hh Hf Ht Hn Hc'] & ->).
  destruct Ht as (g & Ht & Hgs & Hgr & Hgi & Hge).
  exists ty, item, p, id, h. split_and!; try done.
  - intros pm r. rewrite Ht. rewrite (viewer_decision _ id g ty item pm r); [|..]; try done.
    + unfold live. rewrite Hge. destruct (n_expires_at dto); cbn; [by rewrite Z.ltb_lt|tauto].
    + intros g'. cbn. rewrite elem_of_app, list_elem_of_singleton. split; [|naive_solver].
      intros [[Hin| ->] Hid]; [|done]. by apply Hn in Hin.
  - intros sub pm r Hne. rewrite Ht. apply decision_ext. intros g'. unfold applies. cbn. rewrite elem_of_app, list_elem_of_singleton.
    assert (Hx : g' = g -> match sub with User u => exists i, (g_subject g' = User i ∨ g_subject g' = Group i) ∧ i ∈ spec_expand (tables s) u
                           | _ => g_subject g' = sub end -> False).
    { intros ->. rewrite Hgs. destruct sub; naive_solver. }
    destruct sub; naive_solver.
Qed.

(** C40: a deleted link opens nothing.  A deletion that succeeds was asked for by the owner; it
    removes exactly that row and, by a trigger, the grants of the link, so by the tables the link
    may do nothing and nobody else's permissions changed.  If the caches of the engine were right
    and the grants of the link were on files and folders, as its creation leaves them, the caches
    are right again, and every check of the link that begins afterwards answers no: after any
    other checks, changes of the tables and of the time, failures and losses of cache entries,
    until somebody grants the link something again.  For a link that was granted a role on a
    drive, which the handler of grants allows, this fails ([drive_role_outlives_link]); and a check
    that runs while the link is deleted may store the answer it read before. *)
Theorem deleted_link_opens_nothing user id s s' :
  run (delete_shared_link id user) s = (Ok tt, s') ->
  (exists r, shares s !! id = Some r ∧ r_created_by r = user) ∧ shares s' = delete id (shares s)
  ∧ tables s' = set_grants (tables s) (without_link s id)
  ∧ (forall pm r, decision (tables s') (Token id) pm r = false)
  ∧ (forall sub pm r, sub ≠ Token id -> decision (tables s') sub pm r = decision (tables s) sub pm r)
  ∧ (coherent (engine s) -> link_on_items s id ->
     coherent (engine s')
     ∧ forall e, afterwards id (engine s') e -> forall pm r e' b, check (Token id) pm r e = (Ok b, e') -> b = false).
Proof.
  intros Hr. destruct (deleted _ _ _ _ _ Hr) as (Ho & Hs & Ht & Hc').
  assert (Hun : ungranted id (tables s')).
  { intros g. rewrite Ht. unfold without_link. cbn. rewrite list_elem_of_filter. tauto. }
  split_and!; try done.
  - destruct Ho as [r Ho]. unfold owned in Ho. destruct (shares s !! id) as [r'|]; [|done]. cbn in Ho. case_decide; [|done]. eauto.
  - intros pm r. by apply no_grant_decision.
  - intros sub pm r Hne. rewrite Ht. apply decision_ext. intros g. unfold applies, without_link. cbn. rewrite list_elem_of_filter.
    split; [|naive_solver]. intros (Hin & Hlv & Hm). split; [|done]. split; [|done].
    intros Hid. destruct sub; [destruct Hm as (i & [?|?] & _)| |]; congruence.
  - intros Hc Hl. specialize (Hc' Hc Hl). split; [done|]. intros e He pm r e' b. apply silent_refused.
    eapply afterwards_silent; [|exact He]. by apply coherent_silent.
Qed.

(** Strangers cannot tell a link from none.  For a link that belongs to somebody else, asking for
    it, changing it and deleting it do what they do for a link that does not exist: the same
    answer, and nothing changes. *)
Theorem strangers_see_no_link id user dto s :
  faults (engine s) = [] -> owned id user (shares s) = None ->
  run (get_shared_link cfg datetime_ok id user) s = (Err (no_such_share id), s)
  ∧ run (update_shared_link cfg datetime_ok id user dto) s = (Err (no_such_share id), s)
  ∧ run (delete_shared_link id user) s = (Err (no_such_share id), s).
Proof.
  intros Hf Ho. unfold get_shared_link, update_shared_link, delete_shared_link, find_share_by_id_for_user, delete_share_for_user, query.
  split_and!; cbn; unfold ShareDb.reads, stmt, sql_delete_share; rewrite Hf, Ho; done.
Qed.

(** ** Landings *)
(** The column [token] is unique. *)
Definition unique_tokens (m : share_table) : Prop :=
  forall i j r r', m !! i = Some r -> m !! j = Some r' -> r_token r = r_token r' -> i = j.
Lemma by_token_unique m token id r : unique_tokens m -> m !! id = Some r -> r_token r = token -> by_token token m = Some (id, r).
Proof.
  intros Hu E Ht. destruct (by_token token m) as [[j r']|] eqn:F.
  - destruct (by_token_row _ _ _ _ F) as [E' Ht']. assert (j = id) as -> by (apply (Hu j id r' r); congruence). by simplify_eq.
  - unfold by_token in F. destruct (filter _ _) eqn:Fl; [|done]. exfalso.
    assert (Hin : (id, r) ∈ filter (fun x : Uuid * ShareRow => r_token x.2 = token) (map_to_list m)).
    { rewrite list_elem_of_filter. split; [done|]. by apply elem_of_map_to_list. }
    rewrite Fl in Hin. by apply not_elem_of_nil in Hin.
Qed.
Lemma by_token_after m token id r r' :
  unique_tokens m -> by_token token m = Some (id, r) -> r_token r' = token -> by_token token (<[id := r']> m) = Some (id, r').
Proof.
  intros Hu Hb Ht. destruct (by_token_row _ _ _ _ Hb) as [E Ht0]. apply by_token_unique; [|by rewrite lookup_insert_eq|done].
  assert (Hx : forall k x, <[id := r']> m !! k = Some x -> exists y, m !! k = Some y ∧ r_token y = r_token x).
  { intros k x Ek. destruct (decide (id = k)) as [<-|Hne].
    - rewrite lookup_insert_eq in Ek. injection Ek as <-. exists r. by rewrite Ht0.
    - rewrite lookup_insert_ne in Ek by done. eauto. }
  intros i j x y (x' & Ex & Etx)%Hx (y' & Ey & Ety)%Hx Et. apply (Hu i j x' y'); congruence.
Qed.
Definition unlocked s (token : str) (jwt : option str) : bool :=
  match jwt with Some j => verify_jwt (jwt_secret cfg) (clock s) token j | None => false end.
Definition landing_of s (token : str) (jwt : option str) (sh : Share) : Landing :=
  if is_expired (clock s) sh then Gone
  else if has_password sh && negb (unlocked s token jwt) then PasswordRequired
  else Landed (from_entity cfg datetime_ok sh).
Lemma fetch_run token b s :
  faults (engine s) = [] ->
  run (fetch_share_resolved cfg datetime_ok token b) s =
    (match entity (db s) <$> by_token token (shares s) with
     | None => Err (ShareServiceError.into (SNotFound (lit "Share with token " ++ token ++ lit " not found: "
                 ++ DomainError.to_string (DomainError.not_found (lit "Share") (lit "Share with token " ++ token ++ lit " not found")))))
     | Some sh => if is_expired (clock s) sh then fail SExpired
                  else if has_password sh && negb b then Err password_protected else Ok (from_entity cfg datetime_ok sh)
     end, s).
Proof.
  intros Hf. unfold fetch_share_resolved, by_token_or_not_found, find_share_by_token, query.
  cbn [pbind call ShareDb.run ShareDb.exec]. unfold ShareDb.reads, stmt. rewrite Hf. cbn [map_err pbind ShareDb.run].
  destruct (entity (db s) <$> by_token token (shares s)); reflexivity.
Qed.

Lemma set_same_shares s : set_shares (shares s) s = s.
Proof. by destruct s. Qed.
Lemma register_run token s :
  faults (engine s) = [] ->
  exists res, run (register_shared_link_access token) s = (res, set_shares (sql_increment (db s) (clock s) token (shares s)).2 s).
Proof.
  intros Hf. unfold register_shared_link_access, increment_access_count, query.
  cbn [pbind call ShareDb.run ShareDb.exec]. unfold ShareDb.writes, stmt. rewrite Hf.
  destruct (sql_increment _ _ _ _) as [n m]. cbn. eauto.
Qed.
Lemma landing_run token b s :
  faults (engine s) = [] ->
  run (pbind (fetch_share_resolved cfg datetime_ok token b)
         (fun item => Ret (match item with Ok d => Landed d | Err e => landing_error e end))) s =
    (match entity (db s) <$> by_token token (shares s) with
     | None => Refused (DomainError.not_found (lit "Share") (lit "Share with token " ++ token ++ lit " not found: "
                 ++ DomainError.to_string (DomainError.not_found (lit "Share") (lit "Share with token " ++ token ++ lit " not found"))))
     | Some sh => if is_expired (clock s) sh then Gone
                  else if has_password sh && negb b then PasswordRequired else Landed (from_entity cfg datetime_ok sh)
     end, s).
Proof.
  intros Hf. rewrite run_then, fetch_run by done. destruct (entity _ <$> _) as [sh|]; [|done].
  destruct (is_expired _ sh); [done|]. by destruct (has_password sh && negb b).
Qed.

(** What a visitor of the page of a link gets.  A token without a link is refused as not found.
    Otherwise the visit is counted exactly if the grants of the link have not expired, and the
    answer is the first that applies of: the link is gone, a password is required (the link has
    one and the cookie does not prove it), the description of the link with the new count.
    Nothing else changes. *)
Theorem landing_follows_the_link token jwt s :
  faults (engine s) = [] -> unique_tokens (shares s) ->
  match by_token token (shares s) with
  | None => exists e, kind e = NotFound ∧ run (access_shared_item cfg datetime_ok token jwt) s = (Refused e, s)
  | Some (id, r) =>
      let r' := if not_expired (db s) (clock s) id then add_access r else r in
      run (access_shared_item cfg datetime_ok token jwt) s =
        (landing_of s token jwt (entity (db s) (id, r')), set_shares (<[id := r']> (shares s)) s)
  end.
Proof.
  intros Hf Hu. unfold access_shared_item, get_shared_link_with_unlock. rewrite run_then.
  destruct (register_run token s Hf) as (res & ->). unfold sql_increment.
  destruct (by_token token (shares s)) as [[id r]|] eqn:B; cbn [snd].
  - assert (Hm : (if not_expired (db s) (clock s) id then (1%N, <[id:=add_access r]> (shares s)) else (0%N, shares s)).2
                 = <[id := if not_expired (db s) (clock s) id then add_access r else r]> (shares s)).
    { destruct (not_expired _ _ _); [done|]. cbn. symmetry. apply insert_id. by apply (by_token_row token). }
    rewrite Hm. set (r' := if not_expired _ _ _ then _ else _).
    cbn [pbind call ShareDb.run ShareDb.exec]. rewrite landing_run by done. cbn [shares set_shares db clock engine].
    assert (Ht : r_token r' = token) by (apply by_token_row in B as [_ <-]; unfold r'; by destruct (not_expired _ _ _)).
    rewrite (by_token_after _ _ _ r r' Hu B Ht).
    done.
  - rewrite set_same_shares. cbn [pbind call ShareDb.run ShareDb.exec]. rewrite landing_run by done. rewrite B. eexists. split; [|reflexivity]. done.
Qed.

(** ** Expiry, as the page and as the engine see it *)
Lemma epoch_bigint_mono a b : (a <= b)%Z -> (epoch_bigint a <= epoch_bigint b)%Z.
Proof.
  intros Hab. unfold epoch_bigint.
  pose proof (Z.div_le_mono (a + 500000) (b + 500000) 1000000). pose proof (Z.div_le_mono (- b + 500000) (- a + 500000) 1000000).
  pose proof (Z.div_pos (- a + 500000) 1000000). pose proof (Z.div_pos (b + 500000) 1000000).
  destruct (Z.leb_spec 0 a), (Z.leb_spec 0 b); lia.
Qed.
Lemma sql_min_mono (f : Z -> Z) l : (forall a b, (a <= b)%Z -> (f a <= f b)%Z) -> sql_min (f <$> l) = f <$> sql_min l.
Proof.
  intros Hf. destruct l as [|x l]; [done|]. cbn. f_equal. revert x. induction l as [|y l IH]; intros x; [done|]. cbn.
  rewrite <- IH. f_equal. destruct (Z.min_spec x y) as [[? ->]|[? ->]]; [apply Z.min_l|apply Z.min_r]; apply Hf; lia.
Qed.
Lemma entity_expiry d id r : s_expires_at (entity d (id, r)) = (fun e => wrap_u64 (epoch_bigint e)) <$> sql_min (token_expiries d id).
Proof. cbn. unfold sql_expiry. rewrite (sql_min_mono epoch_bigint _ epoch_bigint_mono). by destruct (sql_min _). Qed.

(** The page of a link is gone when its grants expire, give or take half a second: the page
    rounds the expiry to a whole second.  (For instants after 1970 and before the year 140000 or so.) *)
Theorem page_expires_with_the_grants s id r e :
  sql_min (token_expiries (db s) id) = Some e -> (0 <= e < 2 ^ 62)%Z -> (0 <= clock s)%Z ->
  (not_expired (db s) (clock s) id = true <-> (clock s < e)%Z)
  ∧ (is_expired (clock s) (entity (db s) (id, r)) = true -> (e < clock s + 500000)%Z)
  ∧ (is_expired (clock s) (entity (db s) (id, r)) = false -> (clock s < e + 500000)%Z).
Proof.
  intros E He Hc. unfold not_expired, is_expired. rewrite entity_expiry, E. cbn [fmap option_fmap option_map].
  unfold epoch_bigint, epoch_secs, wrap_u64. rewrite (proj2 (Z.leb_le 0 e)) by lia.
  pose proof (Z.div_mod (e + 500000) 1000000 ltac:(done)). pose proof (Z.mod_pos_bound (e + 500000) 1000000 ltac:(done)).
  pose proof (Z.div_mod (clock s) 1000000 ltac:(done)). pose proof (Z.mod_pos_bound (clock s) 1000000 ltac:(done)).
  rewrite (Z.mod_small ((e + 500000) / 1000000)) by lia.
  split_and!; [by rewrite Z.ltb_lt|rewrite Z.leb_le; lia|rewrite Z.leb_gt; lia].
Qed.
(** An expiry before 1970 never ends the page: it wraps around.  The engine refuses the content. *)
Theorem expiry_before_1970_never_ends s id r e :
  sql_min (token_expiries (db s) id) = Some e -> (- 2 ^ 62 < e < -500000)%Z -> (0 <= clock s < 2 ^ 63)%Z ->
  is_expired (clock s) (entity (db s) (id, r)) = false ∧ not_expired (db s) (clock s) id = false.
Proof.
  intros E He Hc. unfold not_expired, is_expired. rewrite entity_expiry, E. cbn [fmap option_fmap option_map].
  unfold epoch_bigint, epoch_secs, wrap_u64. rewrite (proj2 (Z.leb_gt 0 e)) by lia.
  pose proof (Z.div_mod (- e + 500000) 1000000 ltac:(done)). pose proof (Z.mod_pos_bound (- e + 500000) 1000000 ltac:(done)).
  pose proof (Z.div_mod (clock s) 1000000 ltac:(done)). pose proof (Z.mod_pos_bound (clock s) 1000000 ltac:(done)).
  split; [|apply Z.ltb_ge; lia]. apply Z.leb_gt.
  rewrite <- (Z.mod_unique_pos _ 18446744073709551616 (-1) (18446744073709551616 - (- e + 500000) / 1000000)); lia.
Qed.

(** ** Deviations *)
(** An update asks no drive policy: the owner of a link takes its password away, whatever the
    drive requires of a new link. *)
Theorem update_ignores_drive_policies id user s r :
  faults (engine s) = [] -> owned id user (shares s) = Some r ->
  exists d s', run (update_shared_link cfg datetime_ok id user (mkUpdate (Some []) None None)) s = (Ok d, s')
    ∧ d_has_password d = false ∧ (r_password_hash <$> shares s' !! id) = Some None.
Proof.
  intros Hf Ho. assert (E : shares s !! id = Some r).
  { unfold owned in Ho. destruct (shares s !! id); cbn in Ho; [|done]. by case_decide. }
  unfold update_shared_link, find_share_by_id_for_user, update_share, query, repo_err.
  cbn [pbind call ShareDb.run ShareDb.exec u_password u_expires_at u_max_downloads new_password new_limit].
  unfold ShareDb.reads, ShareDb.writes, stmt. rewrite Hf, Ho.
  cbn [pbind call ShareDb.run ShareDb.exec map_err fmap option_fmap option_map ok_or]. unfold ShareDb.writes, stmt. rewrite Hf.
  unfold sql_update. cbn [s_id with_password entity row_to_entity fst]. rewrite E.
  cbn [pbind call ShareDb.run ShareDb.exec map_err fmap option_fmap option_map ok_or].
  eexists _, _. split; [reflexivity|]. split; [done|]. cbn. by rewrite lookup_insert_eq.
Qed.
(** The list of links is documented to count its pages from 1, and the paging counts them from
    0: the first of two pages says there is no next one, and that there is one before it. *)
Theorem first_page_has_no_next items size total :
  (0 < size < total)%Z -> (total <= 2 * size)%Z ->
  pg_total_pages (paginated_new items 1 size total) = 2%Z
  ∧ pg_has_next (paginated_new items 1 size total) = false ∧ pg_has_prev (paginated_new items 1 size total) = true.
Proof.
  intros Hs Ht. unfold paginated_new. cbn [pg_total_pages pg_has_next pg_has_prev].
  rewrite (proj2 (Z.eqb_neq total 0)) by lia. pose proof (div_ceil_spec total size ltac:(lia)) as Hd.
  assert (div_ceil total size = 2%Z) as -> by nia. done.
Qed.
(** Page 0 is an internal error: the offset wraps around. *)
Theorem page_zero_fails user per_page s :
  faults (engine s) = [] -> (0 < per_page < 2 ^ 63)%Z ->
  exists e, run (get_user_shared_links cfg datetime_ok user 0 per_page) s = (Err e, s) ∧ kind e = InternalError.
Proof.
  intros Hf Hp. unfold get_user_shared_links, find_shares_by_user, query, repo_err.
  cbn [pbind call ShareDb.run ShareDb.exec]. unfold stmt. rewrite Hf. unfold sql_page.
  assert (Ho : wrap_u64 (wrap_u64 (0 - 1) * per_page) = (18446744073709551616 - per_page)%Z).
  { unfold wrap_u64. symmetry. apply (Z.mod_unique_pos _ _ (per_page - 1)); [lia|]. change ((0 - 1) mod 18446744073709551616)%Z with 18446744073709551615%Z. lia. }
  assert (Hn : as_i64 (18446744073709551616 - per_page) = (- per_page)%Z).
  { unfold as_i64. rewrite <- (Z.mod_unique_pos _ 18446744073709551616 1 (9223372036854775808 - per_page)); lia. }
  assert (Hl : as_i64 per_page = per_page).
  { unfold as_i64. rewrite Z.mod_small; lia. }
  rewrite Ho, Hn, Hl. rewrite (proj2 (Z.ltb_ge per_page 0)), (proj2 (Z.ltb_lt (- per_page) 0)) by lia.
  cbn [map_err pbind ShareDb.run]. by eexists.
Qed.
End Claims.

(** ** A concrete server

    User 10 owns drive 100, which requires passwords and caps links at 30 days; it holds folder 1,
    folder 2 inside it, and file 5 in folder 2.  Link 40 is on file 5, with two downloads left. *)
Module Links.
#[export] Existing Instances Demo.uuid_text Demo.codec.
Definition db0 : Db := {|
  role_grants := [mkGrant 1 (User 10) (Drive 100) Owner 99 0 None; mkGrant 2 (Token 40) (File 5) Viewer 10 0 None];
  folders := <[1%N := mkFolderRow [1%N] 100]> (<[2%N := mkFolderRow [1%N; 2%N] 100]> ∅);
  files := <[5%N := mkFileRow (Some 2%N) 100]> ∅;
  users_external := <[10%N := false]> ∅;
  group_members := [];
  drives := <[100%N := (Personal, <[lit "require_public_link_password" := VBool true]>
                                   (<[lit "max_public_link_days" := VNumber 30]> ∅))]> ∅;
  policy_defaults := fun _ => None;
|}.
Definition row : ShareRow := mkShareRow (lit "5") None (lit "file") (lit "41") (Some (lit "secret")) 0 10 0 (Some 2%Z) 0.
Definition server : Store (Cache:=@TtlMap) :=
  mkStore (Demo.fresh_engine (mkWorld db0 1000000000 false true)) (<[40%N := row]> ∅) {[ (IFile, 5%N); (IFolder, 1%N) ]} 50.
#[export] Instance Claims_eq_dec : EqDecision Claims. Proof. solve_decision. Defined.
#[export] Instance Claims_countable : Countable Claims.
Proof.
  refine (inj_countable' (fun c => (c_typ c, c_vid c, c_shares c, c_sub c, c_exp c, c_iat c))
            (fun '(a, b, c, d, e, f) => mkClaims a b c d e f) _).
  by intros [].
Defined.
(** A signature is the secret and the claims, as a number. *)
Definition signer : Signer.
Proof.
  refine {|
    jwt_sign k c := Ok (dec (Z.pos (encode (k, c))));
    jwt_claims k tok := match parse_digits tok with
                        | Some (Z.pos n) => match decode n with
                                            | Some (k', c) => if decide (k' = k) then Some c else None
                                            | None => None
                                            end
                        | _ => None
                        end;
  |}.
  - intros k c tok [= <-]. rewrite parse_digits_dec by lia. rewrite decode_encode. by rewrite decide_True.
  - intros k c tok [= <-]. destruct (dec_spec (Z.pos (encode (k, c))) ltac:(lia)) as (Hd & _ & Hne). split; [done|].
    apply list.Forall_forall. intros b Hb. rewrite forallb_forall in Hd. apply list_elem_of_In in Hb.
    specialize (Hd b Hb). unfold is_digit in Hd. unfold jwt_byte. lia.
Defined.
Definition argon : Argon.
Proof.
  refine {| argon_hash _ p := Ok p; argon_verify p h := Ok (bool_decide (p = h)) |}.
  intros _ p h [= <-]. by rewrite bool_decide_eq_true_2.
Defined.
#[export] Existing Instances signer argon.
Definition config : Config := mkConfig (lit "https://cloud") (lit "key").
Definition any_time (_ : Z) : bool := true.
Definition new_dto : CreateShareDto := mkCreate (lit "1") None (lit "Folder") (Some (lit "pw")) (Some 2000000000%Z) (Some 3%Z).
Definition go {A} (p : prog A) : A * Store (Cache:=@TtlMap) := run uuid_parse p server.
Lemma server_coherent : coherent (engine server).
Proof. apply Demo.fresh_coherent. Qed.
Lemma server_minted : minted server.
Proof.
  split.
  - intros id [r Hr]. unfold server in Hr. cbn [shares] in Hr. apply lookup_insert_Some in Hr as [[<- _]|[_ Hr]]; [done|].
    by rewrite lookup_empty in Hr.
  - intros g id Hin Hid. cbn in Hin. rewrite !elem_of_cons in Hin. destruct Hin as [->|[->|Hin]]; [done| |by apply not_elem_of_nil in Hin].
    cbn in Hid. injection Hid as <-. done.
Qed.
Lemma server_links : link_on_items server 40.
Proof.
  intros g Hin Hid. cbn in Hin. rewrite !elem_of_cons in Hin. destruct Hin as [->|[->|Hin]]; [done|done|].
  by apply not_elem_of_nil in Hin.
Qed.
Lemma server_tokens : unique_tokens (shares server).
Proof.
  intros i j r r' Hi Hj _. unfold server in *. cbn [shares] in *.
  apply lookup_insert_Some in Hi as [[<- _]|[_ Hi]]; [|by rewrite lookup_empty in Hi].
  by apply lookup_insert_Some in Hj as [[<- _]|[_ Hj]]; [|by rewrite lookup_empty in Hj].
Qed.
(** A schedule lets the request with the given number take its next step. *)
Definition take_step (st : list (prog Reply) * Store (Cache:=@TtlMap) * list attempt) (i : nat) :
    list (prog Reply) * Store (Cache:=@TtlMap) * list attempt :=
  match st with
  | (pool, s, tr) =>
      match pool !! i with
      | Some (Do c k) =>
          let (a, s') := exec uuid_parse c s in (<[i := k a]> pool, s', tr ++ attempts c s a)
      | _ => (pool, s, tr)
      end
  end.
Lemma take_step_runs x pool s tr i pool' s' tr' :
  runs uuid_parse config any_time x tr (pool, s) -> take_step (pool, s, tr) i = (pool', s', tr') ->
  runs uuid_parse config any_time x tr' (pool', s').
Proof.
  intros Hr E. unfold take_step in E. destruct (pool !! i) as [[r|c k]|] eqn:Ei; [by simplify_eq| |by simplify_eq].
  destruct (exec uuid_parse c s) as [a s1] eqn:Ex. injection E as <- <- <-.
  eapply runs_step; [exact Hr|]. pose proof (step_do uuid_parse config any_time pool s i c k Ei) as Hst. by rewrite Ex in Hst.
Qed.
Lemma schedule_runs x sched : forall pool s tr pool' s' tr',
  runs uuid_parse config any_time x tr (pool, s) -> foldl take_step (pool, s, tr) sched = (pool', s', tr') ->
  runs uuid_parse config any_time x tr' (pool', s').
Proof.
  induction sched as [|i sched IH]; intros pool s tr pool' s' tr' Hr E; [by injection E as <- <- <-|]. cbn [foldl] in E.
  destruct (take_step (pool, s, tr) i) as [[p1 s1] t1] eqn:Et. eapply IH; [|exact E]. by eapply take_step_runs.
Qed.
Definition arrive (qs : list Request) : list (prog Reply) := program config any_time <$> qs.
Lemma arrive_runs s qs : forall pool, runs uuid_parse config any_time (pool, s) [] (pool ++ arrive qs, s).
Proof.
  induction qs as [|q qs IH] using rev_ind; intros pool; [cbn; rewrite app_nil_r; apply runs_nil|].
  unfold arrive. rewrite fmap_app, app_assoc. apply (runs_step uuid_parse config any_time _ [] _ [] _ (IH pool)), step_arrive.
Qed.
End Links.
Import Links.

(** ** Witnesses *)
Lemma new_link_opens_its_item_witness :
  match go (create_shared_link config any_time 10 new_dto) with
  | (Ok d, s') => exists id, d_id d = uuid_to_string id ∧ d_token d = lit "52"
      ∧ decision (world (engine s')) (Token id) Read (File 5) = true
      ∧ decision (world (engine s')) (Token id) Update (File 5) = false
  | (Err _, _) => False
  end.
Proof.
  destruct (go (create_shared_link config any_time 10 new_dto)) as [r s'] eqn:E.
  assert (Hok : match (go (create_shared_link config any_time 10 new_dto)).1 with Ok d => d_token d = lit "52" | Err _ => False end) by by vm_compute.
  rewrite E in Hok. cbn [fst] in Hok. destruct r as [d|e]; [|done].
  destruct (new_link_opens_its_item uuid_parse config any_time 10 new_dto server d s' server_coherent server_minted E)
    as (ty & item & p & id & h & Hty & Ha & _ & _ & _ & _ & Hid & _ & _ & Hd & _).
  assert (ty = IFolder) as -> by (cut (ShareItemType.try_from (n_item_type new_dto) = Ok IFolder); [congruence|by vm_compute]).
  assert (item = 1%N) as -> by (pose proof (as_item _ _ _ _ _ _ Ha) as Hi; cut (uuid_parse (n_item_id new_dto) = Some 1%N); [congruence|by vm_compute]).
  exists id. split_and!; [done|done| |].
  - apply Hd. split_and!; [done|done|]. eexists. split; [reflexivity|]. right. exists 1%N, 2%N. split_and!; [done|done|].
    eexists _, _. split_and!; [reflexivity..|]. by exists [2%N].
  - apply not_true_is_false. intros [[=] _]%Hd.
Defined.
Lemma deleted_link_opens_nothing_witness :
  let '(r, s') := go (delete_shared_link 40 10) in
  r = Ok tt ∧ decision (world (engine server)) (Token 40) Read (File 5) = true ∧ decision (world (engine s')) (Token 40) Read (File 5) = false
  ∧ exists e', check (Token 40) Read (File 5) (check (User 10) Read (File 5) (engine s')).2 = (Ok false, e').
Proof.
  destruct (go (delete_shared_link 40 10)) as [r s'] eqn:E.
  assert ((go (delete_shared_link 40 10)).1 = Ok tt) as Hr by by vm_compute. rewrite E in Hr. cbn [fst] in Hr. subst r.
  destruct (deleted_link_opens_nothing uuid_parse 10 40 server s' E) as (_ & _ & _ & Hno & _ & Hlater).
  destruct (Hlater server_coherent server_links) as [_ Hk]. split_and!; [done|by vm_compute|apply Hno|].
  destruct (check (Token 40) Read (File 5) (check (User 10) Read (File 5) (engine s')).2) as [[b|x] e'] eqn:Ek.
  - exists e'. by rewrite (Hk _ (after_check _ _ _ (User 10) Read (File 5) (after_nothing _ _)) Read (File 5) e' b Ek).
  - exfalso. assert (s' = (go (delete_shared_link 40 10)).2) as -> by by rewrite E.
    assert ((check (Token 40) Read (File 5) (check (User 10) Read (File 5) (engine (go (delete_shared_link 40 10)).2)).2).1 = Ok false) as Hv
      by by vm_compute.
    by rewrite Ek in Hv.
Defined.
(** A role on a drive outlives its link.  A link that was also granted a role on the drive, as
    [POST /api/grants] allows for tokens, has this role in the cache of drive roles after its
    first check; the deletion of the link flushes the cache of cascaded grants alone, so the next
    check still says yes although no grant is left. *)
Definition granted_server : Store (Cache:=@TtlMap) :=
  let g := mkGrant 3 (Token 40) (Drive 100) Viewer 10 0 None in
  set_engine (check (Token 40) Read (File 5) (set_grant_rows (engine server) (g :: role_grants (db server)))).2 server.
Example drive_role_outlives_link :
  let '(r, s') := run uuid_parse (delete_shared_link 40 10) granted_server in
  r = Ok tt ∧ coherent (engine granted_server)
  ∧ decision (world (engine s')) (Token 40) Read (File 5) = false
  ∧ (check (Token 40) Read (File 5) (engine s')).1 = Ok true.
Proof.
  assert (Hc : coherent (engine granted_server)).
  { unfold granted_server. set (e := set_grant_rows _ _).
    assert (He : coherent e) by apply Demo.fresh_coherent.
    destruct (check_outcome e (Token 40) Read (File 5) He) as (res & e' & -> & _ & Hc & _). exact Hc. }
  destruct (run uuid_parse (delete_shared_link 40 10) granted_server) as [r s'] eqn:E. split; [|split; [exact Hc|]].
  - change r with (r, s').1. rewrite <- E. by vm_compute.
  - change s' with (r, s').2. rewrite <- E. split; by vm_compute.
Qed.
Lemma strangers_see_no_link_witness :
  owned 40 11 (shares server) = None ∧ go (get_shared_link config any_time 40 11) = (Err (no_such_share 40), server).
Proof.
  split; [by vm_compute|].
  apply (strangers_see_no_link uuid_parse config any_time 40 11 (mkUpdate None None None) server); [done|by vm_compute].
Defined.
Lemma landing_follows_the_link_witness :
  by_token (lit "41") (shares server) = Some (40%N, row)
  ∧ (go (access_shared_item config any_time (lit "41") None)).1 = PasswordRequired.
Proof.
  split; [by vm_compute|].
  pose proof (landing_follows_the_link uuid_parse config any_time (lit "41") None server eq_refl server_tokens) as Hl.
  assert (by_token (lit "41") (shares server) = Some (40%N, row)) as E by by vm_compute.
  rewrite E in Hl. cbn zeta in Hl. unfold go. rewrite Hl. by vm_compute.
Defined.
Lemma page_expires_with_the_grants_witness :
  let s := mkStore (Demo.fresh_engine (mkWorld (with_grants db0 [mkGrant 2 (Token 40) (File 5) Viewer 10 0 (Some 1700000%Z)]) 1400000 false true))
             (<[40%N := row]> ∅) ∅ 50 in
  not_expired (db s) (clock s) 40 = true ∧ is_expired (clock s) (entity (db s) (40%N, row)) = false.
Proof.
  set (s := mkStore _ _ _ _). assert (E : sql_min (token_expiries (db s) 40) = Some 1700000%Z) by by vm_compute.
  destruct (page_expires_with_the_grants s 40 row 1700000 E ltac:(lia) ltac:(by vm_compute)) as (Hn & He & _).
  split; [by apply Hn; vm_compute|]. by vm_compute.
Defined.
Lemma expiry_before_1970_never_ends_witness :
  let s := mkStore (Demo.fresh_engine (mkWorld (with_grants db0 [mkGrant 2 (Token 40) (File 5) Viewer 10 0 (Some (-1000000)%Z)]) 1000000000 false true))
             (<[40%N := row]> ∅) ∅ 50 in
  is_expired (clock s) (entity (db s) (40%N, row)) = false ∧ not_expired (db s) (clock s) 40 = false.
Proof.
  set (s := mkStore _ _ _ _). assert (E : sql_min (token_expiries (db s) 40) = Some (-1000000)%Z) by by vm_compute.
  apply (expiry_before_1970_never_ends s 40 row (-1000000) E); [lia|]. by vm_compute.
Defined.
Lemma update_ignores_drive_policies_witness :
  (option_map require_public_link_password (sql_policies IFile 5 (db server))) = Some true
  ∧ exists d s', go (update_shared_link config any_time 40 10 (mkUpdate (Some []) None None)) = (Ok d, s') ∧ d_has_password d = false.
Proof.
  split; [by vm_compute|].
  destruct (update_ignores_drive_policies uuid_parse config any_time 40 10 server row eq_refl) as (d & s' & E & Hd & _); [by vm_compute|].
  by exists d, s'.
Defined.
Lemma first_page_has_no_next_witness : pg_has_next (paginated_new [] 1 20 30) = false.
Proof. apply (first_page_has_no_next [] 20 30); lia. Defined.
Lemma page_zero_fails_witness : exists e, go (get_user_shared_links config any_time 10 0 20) = (Err e, server) ∧ kind e = InternalError.
Proof. apply (page_zero_fails uuid_parse config any_time 10 20 server eq_refl). lia. Defined.

(** Three downloads at once of a link that allows two: two are granted. *)
Definition downloads : list Request :=
  [RDownload (File 5) [Token 40] (Token 40) None; RDownload (File 5) [Token 40] (Token 40) None;
   RDownload (File 5) [User 10; Token 40] (User 10) (Some 40%N)].
Lemma download_allowance_exact_witness :
  let '(pool, s', tr) := foldl take_step (arrive downloads, server, []) [2; 0; 1; 2] in
  granted 40 tr = 2%Z ∧ length tr = 3 ∧ (granted 40 tr <= 2)%Z.
Proof.
  destruct (foldl take_step (arrive downloads, server, []) [2; 0; 1; 2]) as [[pool s'] tr] eqn:E.
  pose proof (schedule_runs _ _ _ _ _ _ _ _ (arrive_runs server downloads []) E) as Hr.
  assert (Hf : in_flight 40 ([], server)) by by split.
  destruct (download_allowance_exact uuid_parse config any_time [] server 40 row tr pool s' eq_refl Hf Hr) as (_ & Hb & _).
  assert (Htr : tr = [Attempt 40 (Some (Some 2%Z)) true; Attempt 40 (Some (Some 2%Z)) true; Attempt 40 (Some (Some 2%Z)) false]).
  { trans (foldl take_step (arrive downloads, server, []) [2; 0; 1; 2]).2; [by rewrite E|]. by vm_compute. }
  subst tr. split_and!; [by vm_compute|done|]. apply (Hb 2%Z). by repeat constructor.
Defined.
(** The same link without a password. *)
Definition open_row : ShareRow := mkShareRow (lit "5") None (lit "file") (lit "41") None 0 10 0 (Some 2%Z) 0.
(** An update writes the count of landings it read: a visitor who lands in the meantime is told of
    the first landing, and the count is 0 again afterwards. *)
Theorem update_forgets_a_landing :
  exists tr s' d d', runs uuid_parse config any_time ([], set_shares (<[40%N := open_row]> ∅) server) tr ([Ret (ReLink (Ok d)); Ret (ReLanding (Landed d'))], s')
    ∧ d_access_count d' = 1%Z ∧ (r_access_count <$> shares s' !! 40%N) = Some 0%Z.
Proof.
  set (qs := [RUpdate 40 10 (mkUpdate None None (Some (Some 5%Z)));
              RLanding (lit "41") None]).
  set (server := set_shares _ _).
  set (sched := [0; 1; 1; 1; 1; 0]).
  destruct (foldl take_step (arrive qs, server, []) sched) as [[pool s'] tr] eqn:E.
  pose proof (schedule_runs _ _ _ _ _ _ _ _ (arrive_runs server qs []) E) as Hr.
  assert (Hp : match (foldl take_step (arrive qs, server, []) sched).1 with
               | ([Ret (ReLink (Ok d)); Ret (ReLanding (Landed d'))], s) =>
                   d_access_count d' = 1%Z ∧ (r_access_count <$> shares s !! 40%N) = Some 0%Z
               | _ => False
               end) by by vm_compute.
  rewrite E in Hp. cbn [fst] in Hp.
  destruct pool as [|[[[d|]| | | |]|] [|[[| | | |[d'| | |]]|] [|]]]; try done.
  by exists tr, s', d, d'.
Qed.
Lemma unlock_cookie_roundtrip_witness :
  exists jwt, issue_jwt (lit "key") 0 (lit "41") 3600 = Ok jwt
    ∧ unlock_from_cookie_header (lit "theme=dark; oxi_share_unlock_41=" ++ jwt) (lit "41") = Some jwt
    ∧ verify_jwt (lit "key") 3600999999 (lit "41") jwt = true ∧ verify_jwt (lit "key") 3601000000 (lit "41") jwt = false
    ∧ verify_jwt (lit "key") 0 (lit "42") jwt = false.
Proof.
  assert (exists jwt, issue_jwt (lit "key") 0 (lit "41") 3600 = Ok jwt) as [jwt E] by (eexists; reflexivity).
  exists jwt. split; [exact E|].
  assert (Ht : Forall name_byte (lit "41")) by (apply (bool_decide_unpack _); by vm_compute).
  destruct (unlock_cookie_roundtrip (lit "key") 0 [] (lit "41") 3600 jwt E Ht) as (_ & Hh & Hv & _). clear E. split_and!.
  - assert (Hc : Forall clean_pair ([(lit "theme", lit "dark")] ++ [])).
    { repeat constructor; [done|apply (bool_decide_unpack _); by vm_compute..]. }
    specialize (Hh [(lit "theme", lit "dark")] [] Hc). unfold cookie_header, pair_text in Hh. cbn [fst snd app fmap list_fmap join] in Hh.
    etrans; [|apply Hh].
    + by rewrite <- app_assoc.
    + cbn. rewrite list_elem_of_singleton. by vm_compute.
  - apply (proj2 (Hv 3600999999%Z (lit "41"))). by split.
  - apply not_true_is_false. intros [Hle _]%(proj1 (Hv 3601000000%Z (lit "41"))). vm_compute in Hle. by apply Hle.
  - apply not_true_is_false. intros [_ He]%(proj1 (Hv 0%Z (lit "42"))). by vm_compute in He.
Defined.
Lemma browse_signs secret ttl visits v :
  secret ≠ [] -> exists tok, browse secret ttl (visits ++ [v]) = Ok (Some tok).
Proof.
  intros Hs. unfold browse.
  assert (Hv : forall held, exists tok, visit secret ttl (Ok held) v = Ok (Some tok)) by (intros; unfold visit, append, issue; cbn; destruct secret; eauto; done).
  rewrite foldl_snoc. assert (exists held, foldl (visit secret ttl) (Ok None) visits = Ok held) as [held ->]; [|by apply Hv].
  induction visits as [|u visits IH] using rev_ind; [by eexists|]. rewrite foldl_snoc. destruct IH as [held ->].
  unfold visit, append, issue. cbn. destruct secret; [done|]. eauto.
Qed.
Lemma ring_is_last_ten_witness :
  exists tok, browse (lit "key") 60 [(0%Z, 7%N, 1%N); (5000000%Z, 8%N, 2%N); (6000000%Z, 9%N, 1%N)] = Ok (Some tok)
    ∧ verify (lit "key") 66000000 tok = Some (mkRing 7 [2; 1]%N).
Proof.
  destruct (browse_signs (lit "key") 60 [(0%Z, 7%N, 1%N); (5000000%Z, 8%N, 2%N)] (6000000%Z, 9%N, 1%N)) as [tok E]; [done|].
  exists tok. split; [exact E|].
  pose proof (ring_is_last_ten (lit "key") 60 [(0%Z, 7%N, 1%N); (5000000%Z, 8%N, 2%N)] (6000000%Z, 9%N, 1%N) tok 66000000 E) as Hr.
  clear E. destruct Hr as (vis & Ev & ->).
  - intros [|[|[|i]]] v w; cbn; try done; intros [= <-] [= <-]; by vm_compute.
  - by vm_compute.
  - cbn in Ev. subst vis. by vm_compute.
Defined.
