(* ===== verification/ClientAddr.v ===== *)
(** * What a request says of its sender

    The headers and cookies of a request as the handlers read them, the address of the client
    behind trusted proxies, and the counter of its requests. *)

From Stdlib Require Import ZifyBool.
From S2P Require Import Prelude.
From S2P Require Import RustStr.
From S2P Require Import Moka.

#[local] Arguments lit : simpl never.

(** * Request headers

    The header map of a request as the handlers read it, and the cookie reader of
    [src/src/interfaces/api/cookie_auth.rs]. *)

(** Names in lower case with their values, in the order of arrival. *)
Definition HeaderMap : Type := list (str * str).
Fixpoint header_get (name : str) (headers : HeaderMap) : option str :=
  match headers with
  | [] => None
  | (n, v) :: rest => if decide (n = name) then Some v else header_get name rest
  end.
(** [HeaderValue::to_str]: visible ASCII, blanks and tabs *)
Definition visible_ascii (b : byte) : bool := ((32 <=? b) && (b <? 127) || (b =? 9))%Z.
Definition to_str (v : str) : option str := if forallb visible_ascii v then Some v else None.
(** [headers.get(name).and_then(|v| v.to_str().ok())] *)
Definition header_text (name : str) (headers : HeaderMap) : option str := header_get name headers ≫= to_str.

(** ** Cookies *)
Definition ACCESS_COOKIE : str := lit "oxicloud_access".
Definition CSRF_COOKIE : str := lit "oxicloud_csrf".
Definition CSRF_HEADER : str := lit "x-csrf-token".
Fixpoint cookie_loop (name : str) (pairs : list str) : option str :=
  match pairs with
  | [] => None
  | part :: rest =>
      match strip_prefix name (trim part) with
      | Some val =>
          match strip_prefix [61%Z] val with
          | None => None
          | Some [] => cookie_loop name rest
          | Some val => Some val
          end
      | None => cookie_loop name rest
      end
  end.
Definition extract_cookie_str (headers : HeaderMap) (name : str) : option str :=
  cookie_header ← header_text (lit "cookie") headers;
  cookie_loop name (split 59 cookie_header).

(** A cookie whose name begins with the one that is looked for hides it: the search ends there. *)
Lemma longer_name_hides_cookie name more rest :
  more ≠ [] -> head more ≠ Some 61%Z -> trim (name ++ more) = name ++ more -> cookie_loop name ((name ++ more) :: rest) = None.
Proof.
  intros Hne Hh Ht. cbn [cookie_loop]. rewrite Ht, strip_prefix_app. destruct more as [|c more]; [done|].
  cbn in Hh |- *. by rewrite decide_False by congruence.
Qed.

(** * The address of a client, and limits on its requests

    [src/src/interfaces/middleware/trusted_proxy.rs]: which peers may speak for others, and the
    text that names the client of a request; [src/src/interfaces/middleware/rate_limit.rs]: the
    counter of requests by that text.  Integer arithmetic is that of a release build: it wraps,
    and a shift takes its distance modulo the width. *)

Open Scope Z_scope.

(** ** Addresses *)
Inductive IpAddr := V4 (n : Z) | V6 (n : Z).
#[global] Instance IpAddr_eq_dec : EqDecision IpAddr. Proof. solve_decision. Defined.
Record SocketAddr := mkSocket { ip : IpAddr; port : Z }.
Definition is_ipv4 (a : IpAddr) : bool := match a with V4 _ => true | V6 _ => false end.
Definition valid (a : IpAddr) : Prop := match a with V4 n => 0 <= n < 2 ^ 32 | V6 n => 0 <= n < 2 ^ 128 end.
(** [Ipv6Addr::to_ipv4_mapped] *)
Definition to_ipv4_mapped (n : Z) : option Z := if decide (Z.shiftr n 32 = 65535) then Some (Z.land n u32_max) else None.

(** [!0 << shift] on [w] bits *)
Definition mask (w shift : Z) : Z := (Z.shiftl (2 ^ w - 1) (shift mod w)) mod 2 ^ w.
Definition in_cidr (w base prefix ip : Z) : bool :=
  if prefix =? 0 then true
  else
    let shift := wrap_u32 (w - prefix) in
    Z.land base (mask w shift) =? Z.land ip (mask w shift).
Definition ipv4_in_cidr : Z -> Z -> Z -> bool := in_cidr 32.
Definition ipv6_in_cidr : Z -> Z -> Z -> bool := in_cidr 128.
Definition normalise (a : IpAddr) : IpAddr :=
  match a with
  | V6 n => match to_ipv4_mapped n with Some v4 => V4 v4 | None => a end
  | V4 _ => a
  end.
Definition cidr_contains (base : IpAddr) (prefix : Z) (target : IpAddr) : bool :=
  match normalise base, normalise target with
  | V4 b, V4 t => ipv4_in_cidr b prefix t
  | V6 b, V6 t => ipv6_in_cidr b prefix t
  | _, _ => false
  end.

(** ** Membership is agreement on the prefix *)
Lemma mask_bits w shift i : 0 < w -> 0 <= shift < w -> 0 <= i -> Z.testbit (mask w shift) i = (shift <=? i) && (i <? w).
Proof.
  intros Hw Hs Hi. unfold mask. rewrite (Z.mod_small shift w) by lia.
  replace (2 ^ w - 1) with (Z.ones w) by (rewrite Z.ones_equiv; lia).
  destruct (Z.ltb_spec i w).
  - rewrite Z.mod_pow2_bits_low by lia. rewrite Z.shiftl_spec by lia.
    destruct (Z.leb_spec shift i); [rewrite Z.ones_spec_low by lia; done|rewrite Z.testbit_neg_r by lia; done].
  - rewrite Z.mod_pow2_bits_high by lia. by rewrite andb_false_r.
Qed.
Lemma land_mask_shiftr w shift a : 0 < w -> 0 <= shift < w -> 0 <= a < 2 ^ w ->
  Z.land a (mask w shift) = Z.shiftl (Z.shiftr a shift) shift.
Proof.
  intros Hw Hs Ha. apply Z.bits_inj'. intros i Hi. rewrite Z.land_spec, mask_bits by lia. rewrite Z.shiftl_spec by lia.
  destruct (Z.leb_spec shift i); [|by rewrite andb_false_r, Z.testbit_neg_r by lia].
  rewrite Z.shiftr_spec by lia. replace (i - shift + shift) with i by lia.
  destruct (Z.ltb_spec i w); [by rewrite andb_true_r|]. rewrite andb_false_r. symmetry.
  destruct (decide (a = 0)) as [->|]; [apply Z.bits_0|]. apply Z.bits_above_log2; [lia|].
  apply Z.lt_le_trans with w; [|done]. apply Z.log2_lt_pow2; lia.
Qed.
(** A network of [w] bits contains what has its first [prefix] bits. *)
Lemma in_cidr_prefix w base prefix a : 0 < w < 2 ^ 32 -> 0 <= prefix <= w -> 0 <= base < 2 ^ w -> 0 <= a < 2 ^ w ->
  in_cidr w base prefix a = bool_decide (base / 2 ^ (w - prefix) = a / 2 ^ (w - prefix)).
Proof.
  intros Hw Hp Hb Ha. unfold in_cidr. destruct (Z.eqb_spec prefix 0) as [->|Hne].
  - rewrite Z.sub_0_r, !Z.div_small by done. by rewrite bool_decide_eq_true_2.
  - unfold wrap_u32. rewrite (Z.mod_small (w - prefix)) by lia.
    rewrite !land_mask_shiftr by lia. rewrite <- !Z.shiftr_div_pow2 by lia.
    destruct (Z.eqb_spec (Z.shiftl (Z.shiftr base (w - prefix)) (w - prefix)) (Z.shiftl (Z.shiftr a (w - prefix)) (w - prefix))) as [E|E].
    + rewrite bool_decide_eq_true_2; [done|]. rewrite !Z.shiftl_mul_pow2 in E by lia.
      apply Z.mul_cancel_r in E; [done|]. pose proof (Z.pow_pos_nonneg 2 (w - prefix)). lia.
    + rewrite bool_decide_eq_false_2; [done|]. congruence.
Qed.
(** The family of an address, its width and its number. *)
Definition width (a : IpAddr) : Z := if is_ipv4 a then 32 else 128.
Definition number (a : IpAddr) : Z := match a with V4 n | V6 n => n end.
Lemma normalise_valid a : valid a -> valid (normalise a).
Proof.
  destruct a as [n|n]; [done|]. cbn. unfold to_ipv4_mapped. case_decide as D; cbn; [|done]. intros _.
  change u32_max with (Z.ones 32). rewrite Z.land_ones by lia. apply Z.mod_pos_bound. lia.
Qed.

(** A trusted network is the set of addresses with its prefix.  For a network whose base is
    not an IPv4-mapped address and whose prefix fits its family, an address, the IPv4 address of
    a mapped one, is inside exactly if it is of the same family and its first bits are those of
    the base. *)
Theorem network_is_its_prefix base prefix target :
  valid base -> valid target -> normalise base = base -> 0 <= prefix <= width base ->
  cidr_contains base prefix target = true <->
  is_ipv4 (normalise target) = is_ipv4 base
  ∧ number base / 2 ^ (width base - prefix) = number (normalise target) / 2 ^ (width base - prefix).
Proof.
  intros Hb Ht%normalise_valid Hn Hp. unfold cidr_contains. rewrite Hn.
  destruct base as [b|b], (normalise target) as [t|t]; cbn in *; try (split; [done|by intros [[=] _]]).
  - unfold ipv4_in_cidr. rewrite in_cidr_prefix, bool_decide_eq_true by lia. split; [intros E; split; [reflexivity|exact E]|intros [_ E]; exact E].
  - unfold ipv6_in_cidr. rewrite in_cidr_prefix, bool_decide_eq_true by lia. split; [intros E; split; [reflexivity|exact E]|intros [_ E]; exact E].
Qed.

(** ** Which text names a client *)
Section Proxies.
(** Reading and printing addresses: [FromStr] and [Display] of the standard library. *)
Context (parse_ip : str -> option IpAddr) (show_ip : IpAddr -> str).
Definition parse_u8 : str -> option Z := parse_unsigned u8_max.
Definition parse_cidr (s : str) : option (IpAddr * Z) :=
  match split_once 47 s with
  | None => None
  | Some (addr_s, prefix_s) =>
      addr ← parse_ip addr_s; prefix ← parse_u8 prefix_s;
      if width addr <? prefix then None else Some (addr, prefix)
  end.
(** [cidr_var] and [legacy_var] are the variables [OXICLOUD_TRUST_PROXY_CIDR] and
    [OXICLOUD_TRUST_PROXY_HEADERS]. *)
Definition trusted_cidrs (cidr_var legacy_var : option str) : list (IpAddr * Z) :=
  let cidrs := omap (fun s => parse_cidr (trim s)) (split 44 (default [] cidr_var)) in
  let legacy := match legacy_var with Some v => bool_decide (v = lit "true") || bool_decide (v = lit "1") | None => false end in
  if legacy then cidrs ++ [(V4 0, 0); (V6 0, 0)] else cidrs.
Definition is_trusted_proxy (cidrs : list (IpAddr * Z)) (peer : IpAddr) : bool :=
  match cidrs with
  | [] => false
  | _ => existsb (fun c : IpAddr * Z => cidr_contains c.1 c.2 peer) cidrs
  end.
Definition show_socket (a : SocketAddr) : str :=
  (if is_ipv4 (ip a) then show_ip (ip a) else lit "[" ++ show_ip (ip a) ++ lit "]") ++ lit ":" ++ dec (port a).
Definition nonempty (s : str) : option str := match s with [] => None | _ => Some s end.
Definition leftmost (xff : str) : option str := head (split 44 xff) ≫= fun s => nonempty (trim s).
Inductive ClientIpDisplay :=
| Forwarded (s : str) | PeerWithPort (a : SocketAddr) | PeerIp (a : IpAddr) | UnknownClient.
Definition client_ip_display_from_parts (cidrs : list (IpAddr * Z)) (headers : HeaderMap) (peer : option SocketAddr) (include_port : bool)
    : ClientIpDisplay :=
  match peer with
  | None => UnknownClient
  | Some peer_addr =>
      let direct := if include_port then PeerWithPort peer_addr else PeerIp (ip peer_addr) in
      if is_trusted_proxy cidrs (ip peer_addr) then
        match header_text (lit "x-forwarded-for") headers ≫= leftmost with
        | Some ip => Forwarded ip
        | None =>
            match header_text (lit "x-real-ip") headers ≫= (fun s => nonempty (trim s)) with
            | Some ip => Forwarded ip
            | None => direct
            end
        end
      else direct
  end.
Definition show_client (c : ClientIpDisplay) : str :=
  match c with
  | Forwarded s => s
  | PeerWithPort a => show_socket a
  | PeerIp a => show_ip a
  | UnknownClient => lit "unknown"
  end.
Definition client_ip_from_parts (cidrs : list (IpAddr * Z)) (headers : HeaderMap) (peer : option SocketAddr) (include_port : bool) : str :=
  match peer with
  | None => lit "unknown"
  | Some peer_addr =>
      let direct := if include_port then show_socket peer_addr else show_ip (ip peer_addr) in
      if is_trusted_proxy cidrs (ip peer_addr) then
        match header_text (lit "x-forwarded-for") headers ≫= leftmost with
        | Some ip => ip
        | None =>
            match header_text (lit "x-real-ip") headers ≫= (fun s => nonempty (trim s)) with
            | Some ip => ip
            | None => direct
            end
        end
      else direct
  end.
(** [extract_client_ip] of the rate limiter *)
Definition extract_client_ip (cidrs : list (IpAddr * Z)) (headers : HeaderMap) (peer : option SocketAddr) : str :=
  client_ip_from_parts cidrs headers peer false.

(** The two forms of the resolution agree. *)
Lemma display_agrees cidrs headers peer include_port :
  show_client (client_ip_display_from_parts cidrs headers peer include_port) = client_ip_from_parts cidrs headers peer include_port.
Proof.
  unfold client_ip_display_from_parts, client_ip_from_parts. destruct peer as [p|]; [|done].
  destruct (is_trusted_proxy _ _); [|by destruct include_port].
  destruct (_ ≫= leftmost); [done|]. destruct (header_text _ _ ≫= _); [done|]. by destruct include_port.
Qed.
(** A peer outside the trusted networks cannot change its name. *)
Lemma forged_headers_ignored cidrs headers headers' p :
  is_trusted_proxy cidrs (ip p) = false ->
  extract_client_ip cidrs headers (Some p) = extract_client_ip cidrs headers' (Some p).
Proof. unfold extract_client_ip, client_ip_from_parts. by intros ->. Qed.
(** Behind a proxy that appends the address it sees, as proxies do by default, a client chooses
    its name: the leftmost entry is the one it sent itself. *)
Lemma client_chooses_its_name cidrs p chosen seen rest :
  is_trusted_proxy cidrs (ip p) = true -> 44 ∉ chosen -> trim chosen = chosen -> chosen ≠ [] ->
  forallb visible_ascii (chosen ++ lit ", " ++ seen) = true ->
  extract_client_ip cidrs ((lit "x-forwarded-for", chosen ++ lit ", " ++ seen) :: rest) (Some p) = chosen.
Proof.
  intros Ht Hc Htr Hne Hv. unfold extract_client_ip, client_ip_from_parts. rewrite Ht.
  unfold header_text. cbn [header_get]. rewrite decide_True by done. cbn [mbind option_bind]. unfold to_str. rewrite Hv.
  cbn [mbind option_bind]. unfold leftmost. change (lit ", ") with [44; 32]. cbn [app]. rewrite split_app_sep by done.
  cbn [head mbind option_bind]. rewrite Htr. by destruct chosen.
Qed.
End Proxies.

(** The notation for all IPv4-mapped addresses, [::ffff:0:0/96], matches a single address. *)
Lemma mapped_range_matches_one n : 0 <= n < 2 ^ 32 ->
  cidr_contains (V6 (65535 * 2 ^ 32)) 96 (V4 n) = bool_decide (n = 0).
Proof.
  intros Hn. unfold cidr_contains. change (normalise (V6 (65535 * 2 ^ 32))) with (V4 0). cbn [normalise].
  unfold ipv4_in_cidr, in_cidr. change (96 =? 0) with false. cbn iota. change (mask 32 (wrap_u32 (32 - 96))) with (Z.ones 32).
  rewrite Z.land_0_l, Z.land_ones, Z.mod_small by lia. destruct (Z.eqb_spec 0 n); [by rewrite bool_decide_eq_true_2|by rewrite bool_decide_eq_false_2].
Qed.

(** ** The limiter *)
Section Limiter.
Context {Cache : forall (K : Type) {E : EqDecision K} {C : @Countable K E}, Type -> Type}.
#[local] Arguments Cache _ {_ _} _.
Context `{!Moka (@Cache)}.
Record RateLimiter := mkLimiter { cache : Cache str Z; max_requests : Z; window_secs : Z }.
Definition new_limiter (max_requests window_secs : Z) : RateLimiter := mkLimiter cnew max_requests window_secs.
Definition nanos : Z := 1000000000.
Definition window (l : RateLimiter) : Z := window_secs l * nanos.
(** [t] is the instant of the lookup and [t'] that of the insertion, which starts the life of the
    entry anew. *)
Definition check_and_increment (t t' : Z) (client : str) (l : RateLimiter) : option Z * RateLimiter :=
  let count := wrap_u32 (default 0 (cget (cache l) t client) + 1) in
  let l' := mkLimiter (cinsert (cache l) t' (window l) client count) (max_requests l) (window_secs l) in
  (if max_requests l <? count then None else Some count, l').
Definition retry_after (l : RateLimiter) : Z := window_secs l.
(** [enforce]: the request goes on, or is refused with the seconds to wait. *)
Inductive Enforced := Next | TooManyRequests (retry_after_secs : Z).
Definition enforce (t t' : Z) (client : str) (l : RateLimiter) : Enforced * RateLimiter :=
  match check_and_increment t t' client l with
  | (Some _, l') => (Next, l')
  | (None, l') => (TooManyRequests (retry_after l'), l')
  end.

(** Requests one after another, the last one first, against a limiter with room. *)
Inductive counted (max win : Z) : list (Z * str) -> RateLimiter -> Prop :=
| counted_none : counted max win [] (new_limiter max win)
| counted_one t client past l : counted max win past l -> Forall (fun r => r.1 <= t) past -> croom (cache l) ->
    counted max win ((t, client) :: past) (check_and_increment t t client l).2.
(** How many of the last requests of a client followed each other, and precede [t], by less than
    the window. *)
Fixpoint streak (win t : Z) (client : str) (past : list (Z * str)) : Z :=
  match past with
  | [] => 0
  | (t0, c) :: rest =>
      if decide (c = client) then if t <? t0 + win * nanos then streak win t0 client rest + 1 else 0
      else streak win t client rest
  end.
Lemma streak_bound win t client past : 0 <= streak win t client past <= Z.of_nat (length past).
Proof.
  induction past as [|[t0 c] past IH] in t |- *; cbn [streak length]; [lia|]. case_decide; [destruct (_ <? _)|]; specialize (IH t0) as I0; specialize (IH t); lia.
Qed.
Lemma counted_params max win past l : counted max win past l -> max_requests l = max ∧ window_secs l = win.
Proof. induction 1 as [|t client past l _ IH Ht Hr]; [done|]. exact IH. Qed.
Lemma counted_cache max win past l t client : counted max win past l -> Forall (fun r => r.1 <= t) past ->
  Z.of_nat (length past) < u32_max -> default 0 (cget (cache l) t client) = streak win t client past.
Proof.
  intros C. induction C as [|t0 c past l C IH Ht Hr] in t, client |- *; intros Hle Hlen.
  - cbn. by rewrite cget_new.
  - apply list.Forall_cons in Hle as [Hle Hrest]. cbn [fst] in Hle. cbn [streak length] in *.
    destruct (counted_params _ _ _ _ C) as [Em Ew]. unfold check_and_increment. cbn [snd cache]. case_decide as D.
    + subst c. rewrite cget_inserted by done. unfold window. rewrite Ew. destruct (t <? t0 + win * nanos); [|done].
      cbn [default]. rewrite (IH t0 client Ht) by lia. pose proof (streak_bound win t0 client past).
      unfold wrap_u32. rewrite Z.mod_small by (unfold u32_max in *; lia). done.
    + rewrite croom_insert_ne by (done || congruence). apply IH; [done|lia].
Qed.

(** C37: the limiter counts runs of requests, not requests in a window.  After fewer than 2^32
    requests of any clients that came one after another, each counted at the instant it was read,
    while the cache had room, the next one
    is refused exactly if it ends a run of more requests of its client than the maximum, which
    followed each other by less than the window; refused requests count like the others.
    Requests that overlap may be counted once, since reading and storing the count are separate,
    and a full cache forgets runs. *)
Theorem limiter_counts_runs max win past l t client :
  counted max win past l -> Forall (fun r => r.1 <= t) past -> Z.of_nat (length past) < u32_max ->
  (check_and_increment t t client l).1 =
    let n := streak win t client past + 1 in if max <? n then None else Some n.
Proof.
  intros C Ht Hlen. unfold check_and_increment. rewrite (counted_cache _ _ _ _ _ _ C Ht Hlen).
  destruct (counted_params _ _ _ _ C) as [-> _]. pose proof (streak_bound win t client past).
  unfold wrap_u32. rewrite Z.mod_small by (unfold u32_max in *; lia). done.
Qed.

(** So a client that sends one request every [step], however few that makes in a window, is
    refused from request [max + 1] on for as long as it goes on. *)
Fixpoint steady (t0 step : Z) (client : str) (n : nat) : list (Z * str) :=
  match n with O => [] | S n => (t0 + Z.of_nat n * step, client) :: steady t0 step client n end.
Lemma steady_streak win t0 step client n : 0 <= step < win * nanos ->
  streak win (t0 + Z.of_nat n * step) client (steady t0 step client n) = Z.of_nat n.
Proof.
  intros Hs. induction n as [|n IH]; [done|]. cbn [steady streak]. rewrite decide_True by done.
  destruct (Z.ltb_spec (t0 + Z.of_nat (S n) * step) (t0 + Z.of_nat n * step + win * nanos)); [rewrite IH; lia|lia].
Qed.
Lemma steady_before t0 step client n : 0 <= step -> Forall (fun r => r.1 <= t0 + Z.of_nat n * step) (steady t0 step client n).
Proof.
  intros Hs. induction n as [|n IH]; [by constructor|]. cbn [steady]. constructor; [cbn; lia|].
  eapply list.Forall_impl; [exact IH|]. cbn. intros r Hr. lia.
Qed.
Theorem steady_client_is_locked_out max win t0 step client n l :
  0 <= step < win * nanos -> counted max win (steady t0 step client n) l -> Z.of_nat n < u32_max ->
  (check_and_increment (t0 + Z.of_nat n * step) (t0 + Z.of_nat n * step) client l).1 =
    if Z.of_nat n <? max then Some (Z.of_nat n + 1) else None.
Proof.
  intros Hs C Hn.
  assert (length (steady t0 step client n) = n) as L by (clear; induction n; cbn; congruence).
  pose proof (counted_cache _ _ _ _ (t0 + Z.of_nat n * step) client C (steady_before t0 step client n ltac:(lia)) ltac:(rewrite L; lia)) as E.
  unfold check_and_increment. rewrite E, steady_streak by done. destruct (counted_params _ _ _ _ C) as [-> _].
  unfold wrap_u32. rewrite Z.mod_small by (unfold u32_max in *; lia). cbn [fst].
  destruct (Z.ltb_spec max (Z.of_nat n + 1)), (Z.ltb_spec (Z.of_nat n) max); lia || done.
Qed.
End Limiter.

(** ** Witnesses *)
Lemma network_is_its_prefix_witness :
  cidr_contains (V4 (10 * 2 ^ 24)) 8 (V6 (65535 * 2 ^ 32 + 10 * 2 ^ 24 + 7)) = true <->
  is_ipv4 (normalise (V6 (65535 * 2 ^ 32 + 10 * 2 ^ 24 + 7))) = true
  ∧ 10 * 2 ^ 24 / 2 ^ 24 = number (normalise (V6 (65535 * 2 ^ 32 + 10 * 2 ^ 24 + 7))) / 2 ^ 24.
Proof. apply (network_is_its_prefix (V4 (10 * 2 ^ 24)) 8); cbn; lia || done. Defined.
Definition guest : str := lit "198.51.100.7".
Fixpoint after_steady (n : nat) : RateLimiter (Cache:=@TtlMap) :=
  match n with O => new_limiter 2 60 | S n => (check_and_increment (Z.of_nat n * 50 * nanos) (Z.of_nat n * 50 * nanos) guest (after_steady n)).2 end.
Lemma after_steady_counted n : counted 2 60 (steady 0 (50 * nanos) guest n) (after_steady n).
Proof.
  induction n as [|n IH]; [constructor|]. cbn [steady after_steady].
  replace (Z.of_nat n * 50 * nanos) with (0 + Z.of_nat n * (50 * nanos)) by lia. constructor; [done| |done].
  apply steady_before. unfold nanos. lia.
Qed.
(** Two requests a minute are allowed; the third of a client that sends one every fifty seconds
    is refused. *)
Lemma limiter_counts_runs_witness : (check_and_increment (100 * nanos) (100 * nanos) guest (after_steady 2)).1 = None.
Proof.
  rewrite (limiter_counts_runs 2 60 (steady 0 (50 * nanos) guest 2) (after_steady 2) (100 * nanos) guest (after_steady_counted 2)).
  - vm_compute. reflexivity.
  - apply (steady_before 0 (50 * nanos) guest 2). unfold nanos. lia.
  - cbn. unfold u32_max. lia.
Defined.
