(* ===== verification/DpopProof.v ===== *)
(** * Proofs of possession

    Verification of a DPoP proof ([src/src/infrastructure/services/dpop_verifier.rs]) and the pool
    of nonces ([src/src/infrastructure/services/dpop_nonce_service.rs]).  The crates [base64],
    [serde_json], [p256] and [sha2] are the class [DpopCrypto]. *)

From S2P Require Import Prelude.
From S2P Require Import RustStr.
From S2P Require Import Moka.
From S2P Require Import DrivePolicies.
From S2P Require Import AuthStores.

#[local] Arguments lit : simpl never.

Abbreviation bytes := (list byte).
Class DpopCrypto := {
  (** [URL_SAFE_NO_PAD] *)
  b64_encode : bytes -> str;
  b64_decode : str -> option bytes;
  (** [serde_json::from_slice::<Value>] *)
  json_parse : bytes -> option Value;
  verifying_key : Type;
  from_sec1_bytes : bytes -> option verifying_key;
  signature : Type;
  signature_from_slice : bytes -> option signature;
  p256_verify : verifying_key -> bytes -> signature -> bool;
  sha256 : bytes -> bytes;
  b64_decode_encode b : b64_decode (b64_encode b) = Some b;
  (** letters, digits, [-] and [_] *)
  b64_alphabet s b : b64_decode s = Some b ->
    Forall (fun c => 48 <= c <= 57 ∨ 65 <= c <= 90 ∨ 97 <= c <= 122 ∨ c = 45 ∨ c = 95)%Z s;
}.

Record DpopRequestContext := mkContext { htm : str; htu : str; now_secs : Z; expected_jkt : option str }.
Record DpopVerified := mkVerified { v_jkt : str; v_nonce : option str; v_jti : str; v_iat : Z }.
Inductive DpopVerifyError :=
| Malformed | WrongTyp | WrongAlg | WrongJwk | SignatureInvalid | WrongHtm | WrongHtu
| IatMissing | IatOutOfWindow | JtiMissing | JktMismatch.
#[global] Instance DpopVerifyError_eq_dec : EqDecision DpopVerifyError. Proof. solve_decision. Defined.
Definition IAT_BOOTSTRAP_TOLERANCE_SECS : Z := 30.

(** [value.get(k)], [as_str], [as_i64] of [serde_json] *)
Definition jget (k : str) (v : Value) : option Value := match v with VObject m => m !! k | _ => None end.
Definition jstr (v : Value) : option str := match v with VString s => Some s | _ => None end.
Definition ji64 (v : Value) : option Z := match v with VNumber n => if decide (in_i64 n) then Some n else None | _ => None end.
Definition text_at (k : str) (v : Value) : option str := jget k v ≫= jstr.

Section Verify.
Context `{DpopCrypto}.
Definition guard_err {E} (b : bool) (e : E) : result E unit := if b then Ok tt else Err e.
#[local] Notation "x ←? r ; k" := (match r with Ok x => k | Err e => Err e end) (at level 100, r at next level, right associativity).

Definition some_text (o : option str) (s : str) : bool := bool_decide (o = Some s).
(** The public key of the header: its coordinates as texts, and the key. *)
Definition read_jwk (header : Value) : result DpopVerifyError (str * str * verifying_key) :=
  jwk ←? ok_or (jget (lit "jwk") header) WrongJwk;
  _u ←? guard_err (some_text (text_at (lit "kty") jwk) (lit "EC")) WrongJwk;
  _u ←? guard_err (some_text (text_at (lit "crv") jwk) (lit "P-256")) WrongJwk;
  x_b64 ←? ok_or (text_at (lit "x") jwk) WrongJwk;
  y_b64 ←? ok_or (text_at (lit "y") jwk) WrongJwk;
  x_bytes ←? ok_or (b64_decode x_b64) WrongJwk;
  y_bytes ←? ok_or (b64_decode y_b64) WrongJwk;
  _u ←? guard_err (bool_decide (length x_bytes = 32%nat) && bool_decide (length y_bytes = 32%nat)) WrongJwk;
  vkey ←? ok_or (from_sec1_bytes (4%Z :: x_bytes ++ y_bytes)) WrongJwk;
  Ok (x_b64, y_b64, vkey).
Definition quote : str := [34%Z].
Definition canonical (x_b64 y_b64 : str) : str :=
  lit "{" ++ quote ++ lit "crv" ++ quote ++ lit ":" ++ quote ++ lit "P-256" ++ quote ++ lit "," ++ quote ++ lit "kty" ++ quote
    ++ lit ":" ++ quote ++ lit "EC" ++ quote ++ lit "," ++ quote ++ lit "x" ++ quote ++ lit ":" ++ quote ++ x_b64
    ++ quote ++ lit "," ++ quote ++ lit "y" ++ quote ++ lit ":" ++ quote ++ y_b64 ++ quote ++ lit "}".
Definition thumbprint (x_b64 y_b64 : str) : str := b64_encode (sha256 (canonical x_b64 y_b64)).
(** The claims, against the request. *)
Definition read_claims (claims : Value) (ctx : DpopRequestContext) : result DpopVerifyError (option str * str * Z) :=
  _u ←? guard_err (eq_ignore_ascii_case (default [] (text_at (lit "htm") claims)) (htm ctx)) WrongHtm;
  _u ←? guard_err (bool_decide (default [] (text_at (lit "htu") claims) = htu ctx)) WrongHtu;
  iat ←? ok_or (jget (lit "iat") claims ≫= ji64) IatMissing;
  jti ←? ok_or (j ← text_at (lit "jti") claims; if decide (j = []) then None else Some j) JtiMissing;
  let nonce := text_at (lit "nonce") claims in
  _u ←? guard_err (match nonce with
                   | None => (Z.abs (iat - now_secs ctx) <=? IAT_BOOTSTRAP_TOLERANCE_SECS)%Z
                   | Some _ => true end) IatOutOfWindow;
  Ok (nonce, jti, iat).
Definition verify (proof : str) (ctx : DpopRequestContext) : result DpopVerifyError DpopVerified :=
  match split 46 proof with
  | [h_b64; p_b64; s_b64] =>
      header_bytes ←? ok_or (b64_decode h_b64) Malformed;
      payload_bytes ←? ok_or (b64_decode p_b64) Malformed;
      signature ←? ok_or (b64_decode s_b64) Malformed;
      header ←? ok_or (json_parse header_bytes) Malformed;
      _u ←? guard_err (some_text (text_at (lit "typ") header) (lit "dpop+jwt")) WrongTyp;
      _u ←? guard_err (some_text (text_at (lit "alg") header) (lit "ES256")) WrongAlg;
      key ←? read_jwk header;
      sig ←? ok_or (signature_from_slice signature) SignatureInvalid;
      _u ←? guard_err (p256_verify key.2 (h_b64 ++ lit "." ++ p_b64) sig) SignatureInvalid;
      claims ←? ok_or (json_parse payload_bytes) Malformed;
      c ←? read_claims claims ctx;
      let jkt := thumbprint key.1.1 key.1.2 in
      _u ←? guard_err (match expected_jkt ctx with Some e => bool_decide (e = jkt) | None => true end) JktMismatch;
      Ok (mkVerified jkt c.1.1 c.1.2 c.2)
  | _ => Err Malformed
  end.

(** ** What an accepted proof says *)
Lemma guard_err_Ok {E} b (e : E) u : guard_err b e = Ok u -> b = true.
Proof. by destruct b. Qed.
Lemma ok_or_Ok {E T} (o : option T) (e : E) v : ok_or o e = Ok v -> o = Some v.
Proof. destruct o; cbn; congruence. Qed.
#[local] Ltac accept :=
  repeat match goal with
  | H : match ?r with Ok _ => _ | Err _ => _ end = Ok _ |- _ => let E := fresh "E" in destruct r eqn:E; [|discriminate H]
  | H : guard_err _ _ = Ok _ |- _ => apply guard_err_Ok in H
  | H : ok_or _ _ = Ok _ |- _ => apply ok_or_Ok in H
  end.
Lemma read_jwk_Ok header x y k : read_jwk header = Ok (x, y, k) ->
  exists bx by_, b64_decode x = Some bx ∧ b64_decode y = Some by_ ∧ length bx = 32%nat ∧ length by_ = 32%nat
    ∧ from_sec1_bytes (4%Z :: bx ++ by_) = Some k.
Proof.
  unfold read_jwk. intros R. accept. injection R as -> -> ->.
  match goal with H : _ && _ = true |- _ => apply andb_prop in H as [H1 H2]; apply bool_decide_eq_true in H1, H2 end.
  eauto 10.
Qed.
Lemma read_claims_Ok claims ctx n j i : read_claims claims ctx = Ok (n, j, i) ->
  eq_ignore_ascii_case (default [] (text_at (lit "htm") claims)) (htm ctx) = true
  ∧ default [] (text_at (lit "htu") claims) = htu ctx
  ∧ text_at (lit "jti") claims = Some j ∧ j ≠ [] ∧ n = text_at (lit "nonce") claims
  ∧ (n = None -> (Z.abs (i - now_secs ctx) <= 30)%Z).
Proof.
  unfold read_claims. intros R. accept. injection R as <- -> ->.
  destruct (text_at (lit "jti") claims) as [j'|]; [|done]. cbn in *. case_decide; [done|]. simplify_eq.
  repeat match goal with H : bool_decide _ = true |- _ => apply bool_decide_eq_true in H end.
  split_and!; try done. intros En. rewrite En in *. by apply Z.leb_le.
Qed.

(** An accepted proof is signed, over the method and address of this request, by the private half
    of the key whose thumbprint it is pinned to. *)
Definition signed_by (x y : str) (proof : str) (claims : Value) : Prop :=
  exists h p sg pb bx by_ k sig,
    split 46 proof = [h; p; sg] ∧ b64_decode x = Some bx ∧ b64_decode y = Some by_
    ∧ from_sec1_bytes (4%Z :: bx ++ by_) = Some k ∧ (b64_decode sg ≫= signature_from_slice) = Some sig
    ∧ p256_verify k (h ++ lit "." ++ p) sig = true ∧ b64_decode p = Some pb ∧ json_parse pb = Some claims.
Lemma verify_Ok proof ctx v : verify proof ctx = Ok v ->
  exists x y claims, signed_by x y proof claims ∧ v_jkt v = thumbprint x y
    ∧ (forall e, expected_jkt ctx = Some e -> e = thumbprint x y)
    ∧ eq_ignore_ascii_case (default [] (text_at (lit "htm") claims)) (htm ctx) = true
    ∧ default [] (text_at (lit "htu") claims) = htu ctx
    ∧ text_at (lit "jti") claims = Some (v_jti v) ∧ v_jti v ≠ [] ∧ v_nonce v = text_at (lit "nonce") claims
    ∧ (v_nonce v = None -> (Z.abs (v_iat v - now_secs ctx) <= 30)%Z).
Proof.
  unfold verify. destruct (split 46 proof) as [|h [|p [|sg [|? ?]]]] eqn:S; try done. intros R. accept.
  injection R as <-.
  match goal with H : read_jwk _ = Ok ?k |- _ => destruct k as [[x y] k]; apply read_jwk_Ok in H as (bx & by_ & X & Y & _ & _ & K) end.
  match goal with H : read_claims ?cl _ = Ok ?c |- _ => destruct c as [[n j] i]; apply read_claims_Ok in H as (C1 & C2 & C3 & C4 & C5 & C6); exists x, y, cl end.
  cbn [fst snd] in *. split_and!; try done.
  - do 8 eexists. split_and!; try done. match goal with H : b64_decode sg = Some _ |- _ => rewrite H end. done.
  - intros e He. rewrite He in *. by match goal with H : bool_decide _ = true |- _ => apply bool_decide_eq_true in H end.
Qed.

Lemma app_sep_inj (a b a' b' : str) c : c ∉ a -> c ∉ a' -> a ++ c :: b = a' ++ c :: b' -> a = a' ∧ b = b'.
Proof.
  intros Ha Ha' E. assert (S := split_once_app c a b Ha). rewrite E, split_once_app in S by done. by injection S as -> ->.
Qed.
Lemma b64_no_quote t b : b64_decode t = Some b -> 34%Z ∉ t.
Proof. intros D%b64_alphabet Hin. rewrite list.Forall_forall in D. specialize (D _ Hin). lia. Qed.
Lemma canonical_key_inj x y x' y' : 34%Z ∉ x -> 34%Z ∉ y -> 34%Z ∉ x' -> 34%Z ∉ y' -> canonical x y = canonical x' y' -> x = x' ∧ y = y'.
Proof.
  intros Hx Hy Hx' Hy' E. unfold canonical, quote in E.
  repeat (match type of E with ?a ++ _ = ?a ++ _ => apply (app_inv_head a) in E end).
  cbn [app] in E. apply app_sep_inj in E as [<- E]; [|done|done].
  repeat (match type of E with ?a ++ _ = ?a ++ _ => apply (app_inv_head a) in E | ?c :: _ = ?c :: _ => injection E as E end).
  apply app_sep_inj in E as [<- _]; done.
Qed.
(** The thumbprint determines the key, the digest being free of collisions. *)
Lemma thumbprint_inj `{!Inj (=) (=) sha256} x y x' y' bx by_ bx' by_' :
  b64_decode x = Some bx -> b64_decode y = Some by_ -> b64_decode x' = Some bx' -> b64_decode y' = Some by_' ->
  thumbprint x y = thumbprint x' y' -> x = x' ∧ y = y'.
Proof.
  intros X Y X' Y' E. unfold thumbprint in E.
  assert (sha256 (canonical x y) = sha256 (canonical x' y')) as E'%(inj sha256).
  { assert (D := b64_decode_encode (sha256 (canonical x y))). rewrite E, b64_decode_encode in D. by injection D. }
  apply canonical_key_inj in E'; eauto using b64_no_quote.
Qed.
(** An accepted proof on a session bound to a key is signed by that key. *)
Lemma accepted_is_of_bound_key `{!Inj (=) (=) sha256} proof ctx v x y bx by_ :
  verify proof ctx = Ok v -> expected_jkt ctx = Some (thumbprint x y) -> b64_decode x = Some bx -> b64_decode y = Some by_ ->
  exists claims, signed_by x y proof claims
    ∧ eq_ignore_ascii_case (default [] (text_at (lit "htm") claims)) (htm ctx) = true
    ∧ default [] (text_at (lit "htu") claims) = htu ctx
    ∧ text_at (lit "jti") claims = Some (v_jti v) ∧ v_nonce v = text_at (lit "nonce") claims.
Proof.
  intros (x' & y' & claims & S & _ & He & C1 & C2 & C3 & C4 & C5 & _)%verify_Ok E X Y.
  specialize (He _ E). pose proof S as (h & p & sg & pb & bx' & by_' & k & sig & _ & X' & Y' & _).
  apply (thumbprint_inj _ _ _ _ _ _ _ _ X Y X' Y') in He as [<- <-]. eauto 10.
Qed.
End Verify.

(** ** The pool of nonces *)
Section Nonces.
Context {Cache : forall (K : Type) {E : EqDecision K} {C : @Countable K E}, Type -> Type}.
#[local] Arguments Cache _ {_ _} _.
Context `{!Moka (@Cache)}.
Definition NONCE_LIFETIME : Z := 300 * SEC.
Definition ROTATION_INTERVAL : Z := 120 * SEC.
Record DpopNonceService := mkNonces { pool : Cache str unit; current : option (str * Z) }.
Definition new_nonces : DpopNonceService := mkNonces cnew None.
(** [minted] is what [mint_nonce] draws if it is called. *)
Definition rotate (t : Z) (minted : str) (svc : DpopNonceService) : str * DpopNonceService :=
  (minted, mkNonces (cinsert (pool svc) t NONCE_LIFETIME minted tt) (Some (minted, t))).
Definition current_or_rotate (t : Z) (minted : str) (svc : DpopNonceService) : str * DpopNonceService :=
  match current svc with
  | Some (value, issued_at) => if (t - issued_at <? ROTATION_INTERVAL)%Z then (value, svc) else rotate t minted svc
  | None => rotate t minted svc
  end.
Definition is_valid (t : Z) (nonce : str) (svc : DpopNonceService) : bool :=
  match cget (pool svc) t nonce with Some _ => true | None => false end.

(** The pools a server gets to: calls one after another, with room, each minting a new value.
    [log] holds the values minted and when; [t] is the instant of the last call. *)
Inductive served : Z -> DpopNonceService -> list (str * Z) -> Prop :=
| no_calls t : served t new_nonces []
| one_call t t' n svc log : served t svc log -> (t <= t')%Z -> croom (pool svc) -> n ∉ log.*1 ->
    served t' (current_or_rotate t' n svc).2
      (if bool_decide ((current_or_rotate t' n svc).1 = n) then (n, t') :: log else log).
Definition good_pool (t : Z) (svc : DpopNonceService) (log : list (str * Z)) : Prop :=
  (forall v i, current svc = Some (v, i) -> (v, i) ∈ log ∧ (i <= t)%Z)
  ∧ (forall v i t', (v, i) ∈ log -> (t <= t')%Z -> is_valid t' v svc = (t' <? i + NONCE_LIFETIME)%Z)
  ∧ (forall v t', v ∉ log.*1 -> (t <= t')%Z -> is_valid t' v svc = false).
Lemma rotate_good t t' n svc log : good_pool t svc log -> (t <= t')%Z -> croom (pool svc) -> n ∉ log.*1 ->
  good_pool t' (rotate t' n svc).2 ((n, t') :: log).
Proof.
  intros (Hc & Hv & Hn) Ht Hr Hf. split_and!; cbn.
  - intros v i [= <- <-]. split; [by left|done].
  - intros v i t'' [[= -> ->]|Hin]%elem_of_cons Ht''; unfold is_valid; cbn.
    + rewrite cget_inserted by done. by destruct (_ <? _)%Z.
    + rewrite croom_insert_ne; [apply (Hv v i); [done|lia]|done|]. intros ->. apply Hf. by apply (list_elem_of_fmap_2 fst _ (v, i)).
  - intros v t'' [Hne Hnot]%not_elem_of_cons Ht''. unfold is_valid. cbn. rewrite croom_insert_ne by (congruence || done).
    apply (Hn v); [done|lia].
Qed.
Lemma served_good t svc log : served t svc log -> good_pool t svc log.
Proof.
  induction 1 as [t|t t' n svc log S IH Ht Hr Hf].
  - split_and!; [done| |]; intros; [by apply not_elem_of_nil in H|]. unfold is_valid, new_nonces. cbn. by rewrite cget_new.
  - pose proof (rotate_good t t' n svc log IH Ht Hr Hf) as R. unfold current_or_rotate.
    destruct (current svc) as [[v i]|] eqn:E; [destruct (_ <? _)%Z|]; cbn [fst snd]; [|by rewrite bool_decide_eq_true_2..].
    destruct IH as (Hc & Hv & Hn). destruct (Hc _ _ E) as [Hin Hi]. rewrite bool_decide_eq_false_2.
    + split_and!; [intros v' i' E'; destruct (Hc _ _ E'); split; [done|lia]|intros; apply Hv; [done|lia]|intros; apply Hn; [done|lia]].
    + intros ->. apply Hf. by apply (list_elem_of_fmap_2 fst _ (n, i)).
Qed.
(** The value a response carries is good for three more minutes at least, whatever calls follow. *)
Lemma handed_out_lasts t t' n svc log : served t svc log -> (t <= t')%Z -> n ∉ log.*1 ->
  exists i, (t' - ROTATION_INTERVAL < i <= t')%Z
    ∧ ((current_or_rotate t' n svc).1, i) ∈ (if bool_decide ((current_or_rotate t' n svc).1 = n) then (n, t') :: log else log).
Proof.
  intros (Hc & _ & _)%served_good Ht Hf. unfold current_or_rotate.
  destruct (current svc) as [[v i]|] eqn:E.
  - destruct (Hc _ _ eq_refl) as [Hin Hi]. destruct (Z.ltb_spec (t' - i) ROTATION_INTERVAL) as [L|L]; cbn [fst rotate].
    + rewrite bool_decide_eq_false_2; [|intros ->; apply Hf; by apply (list_elem_of_fmap_2 fst _ (n, i))]. exists i. split; [lia|done].
    + rewrite bool_decide_eq_true_2 by done. exists t'. split; [unfold ROTATION_INTERVAL, SEC; lia|by left].
  - cbn [fst rotate]. rewrite bool_decide_eq_true_2 by done. exists t'. split; [unfold ROTATION_INTERVAL, SEC; lia|by left].
Qed.
End Nonces.
