(* ===== verification/AppPasswords.v ===== *)
(** * App passwords

    Passwords for clients that cannot open a browser: the rows of [auth.app_passwords]
    ([src/src/infrastructure/repositories/pg/app_password_pg_repository.rs]), the requests of
    [src/src/application/services/app_password_service.rs] and HTTP Basic authentication with its
    cache of successful verifications.  A request is a state function that ends with a value, a
    domain error or a panic of its task.  Instants are nanoseconds and stand still during a
    request; simultaneous misses of the cache, which the code lets one of them answer, are
    requests one after another here. *)

From stdpp Require Import sorting.
From S2P Require Import Prelude.
From S2P Require Import RustStr.
From S2P Require Import DomainErrors.
From S2P Require Import Moka.
From S2P Require Import Principals.

#[local] Arguments lit : simpl never.

Definition SEC : Z := 1000000000.

(** ** Constants *)
Definition TOKEN_LENGTH : nat := 32.
Definition TOKEN_PREFIX : str := lit "oxicloud-".
Definition NC_APP_PASSWORD_GROUPS : nat := 5.
Definition NC_APP_PASSWORD_GROUP_LEN : nat := 5.
Definition NC_PREFIX_LEN : nat := 8.
Definition BASIC_AUTH_CACHE_TTL : Z := 300 * SEC.

(** ** Rows *)
Record AppPassword := mkAppPassword {
  ap_user : Uuid;
  ap_label : str;
  ap_hash : str;
  ap_prefix : str;
  ap_scopes : str;
  ap_created_at : Z;
  ap_last_used_at : option Z;
  ap_expires_at : option Z;
  ap_active : bool;
}.
#[global] Instance AppPassword_eq_dec : EqDecision AppPassword. Proof. solve_decision. Defined.
Abbreviation ap_table := (gmap Uuid AppPassword).

Definition new_app_password (t : Z) (user : Uuid) (label hash prefix scopes : str) (expires_at : option Z) : AppPassword :=
  mkAppPassword user label hash prefix scopes t None expires_at true.
Definition is_expired (t : Z) (ap : AppPassword) : bool :=
  match ap_expires_at ap with Some e => (e <=? t)%Z | None => false end.
Definition is_usable (t : Z) (ap : AppPassword) : bool := ap_active ap && negb (is_expired t ap).
Definition has_scope (ap : AppPassword) (scope : str) : bool :=
  existsb (fun s => bool_decide (trim s = scope)) (split 44 (ap_scopes ap)).

(** ** Text *)
(** [char::is_whitespace]: the encodings, removed wherever a character begins *)
Fixpoint remove_whitespace (fuel : nat) (s : str) : str :=
  match fuel, s with
  | O, _ | _, [] => s
  | S fuel, b :: rest =>
      match strip_any whitespace s with
      | Some s' => remove_whitespace fuel s'
      | None => b :: remove_whitespace fuel rest
      end
  end.
Definition ascii_upper (b : byte) : byte := if decide (97 <= b <= 122)%Z then (b - 32)%Z else b.
Definition nc_normalize_password (password : str) : str :=
  ascii_upper <$> filter (fun b => b ≠ 45%Z) (remove_whitespace (length password) password).
(** [str::is_char_boundary] *)
Definition continuation (b : byte) : bool := ((128 <=? b) && (b <? 192))%Z.
Definition is_char_boundary (i : nat) (s : str) : bool :=
  match s !! i with Some b => negb (continuation b) | None => bool_decide (i = length s) end.
(** [s.get(..i)] *)
Definition str_get_to (i : nat) (s : str) : option str := if is_char_boundary i s then Some (take i s) else None.

(** ** Requests *)
Inductive Stop := Panicked | Failed (e : DomainError).

Record Cached := mkCached { ca_user : Uuid; ca_username : str; ca_email : str; ca_role : str }.
#[global] Instance Cached_eq_dec : EqDecision Cached. Proof. solve_decision. Defined.
Record CreateRequest := mkCreateRequest { rq_label : str; rq_scopes : str; rq_expires_in_days : option Z }.
Record Created := mkCreated {
  cr_id : str; cr_label : str; cr_password : str; cr_username : str; cr_scopes : str; cr_expires_at : option str;
  cr_davx5 : str; cr_thunderbird : str; cr_rclone : str; cr_curl : str;
}.
Record Summary := mkSummary {
  su_id : str; su_label : str; su_prefix : str; su_scopes : str;
  su_created_at : str; su_last_used_at : option str; su_expires_at : option str; su_active : bool;
}.
(** [u32::MAX - (u32::MAX % len)] *)
Definition threshold (len : Z) : Z := (u32_max - u32_max mod len)%Z.
Definition unauthorized (msg : str) : DomainError := mkDomainError AccessDenied (lit "Authorization") None msg.
Definition invalid_login : DomainError := unauthorized (lit "Invalid username or app password").
Definition too_short : DomainError := DomainError.new InvalidInput (lit "AppPassword") (lit "App password too short").

Section Service.
Context {Cache : forall (K : Type) {E : EqDecision K} {C : @Countable K E}, Type -> Type}.
#[local] Arguments Cache _ {_ _} _.
Context `{!Moka (@Cache)}.
Context `{UuidText} `{Argon}.
(** The crates [blake3] and [chrono]: the digest, the instants a [DateTime] can hold, their text. *)
Context (blake3 : str -> str) (datetime_ok : Z -> bool) (to_rfc3339 : Z -> str) (base_url : str).

Record Store := mkStore {
  rows : ap_table;
  users : user_table;
  auth_cache : Cache str Cached;
  clock : Z;
  (** the next identifier or salt *)
  fresh : N;
  (** what the operating system's generator yields, and how much of it was taken *)
  rng : nat -> Z;
  drawn : nat;
  (** of the next statements: the error, if the database fails *)
  faults : list (option str);
}.
Definition set_rows (m : ap_table) (s : Store) : Store := mkStore m (users s) (auth_cache s) (clock s) (fresh s) (rng s) (drawn s) (faults s).
Definition set_users (m : user_table) (s : Store) : Store := mkStore (rows s) m (auth_cache s) (clock s) (fresh s) (rng s) (drawn s) (faults s).
Definition set_cache (c : Cache str Cached) (s : Store) : Store := mkStore (rows s) (users s) c (clock s) (fresh s) (rng s) (drawn s) (faults s).
Definition set_clock (t : Z) (s : Store) : Store := mkStore (rows s) (users s) (auth_cache s) t (fresh s) (rng s) (drawn s) (faults s).
Definition set_fresh (n : N) (s : Store) : Store := mkStore (rows s) (users s) (auth_cache s) (clock s) n (rng s) (drawn s) (faults s).
Definition set_drawn (n : nat) (s : Store) : Store := mkStore (rows s) (users s) (auth_cache s) (clock s) (fresh s) (rng s) n (faults s).
Definition drop_fault (s : Store) : Store := mkStore (rows s) (users s) (auth_cache s) (clock s) (fresh s) (rng s) (drawn s) (tail (faults s)).
Definition next_fault (s : Store) : option str := default None (head (faults s)).

Abbreviation P := (M Store Stop).
Definition fail {T} (e : DomainError) : P T := raise (Failed e).
Definition panic {T} : P T := raise Panicked.
Definition of_result {T} (r : result DomainError T) : P T := lift (map_err Failed r).
Definition draw : P N := fun s => (Ok (fresh s), set_fresh (N.succ (fresh s)) s).
(** [fill_bytes], [next_u32] *)
Definition random_bytes (n : nat) : P (list Z) := fun s =>
  (Ok ((fun i => rng s (drawn s + i)%nat mod 256)%Z <$> seq 0 n), set_drawn (drawn s + n) s).
Definition next_u32 : P Z := fun s => (Ok (rng s (drawn s) mod 4294967296)%Z, set_drawn (S (drawn s)) s).

(** A statement: the database may fail, and nothing happens then. *)
Definition sql {T} (what : str) (f : Store -> result str T * Store) : P T := fun s =>
  let (r, s') := match next_fault s with
                 | Some e => (Err e, drop_fault s)
                 | None => f (drop_fault s)
                 end in
  (map_err (fun e => Failed (DomainError.internal_error (lit "AppPasswordPg") (what ++ lit ": " ++ e))) r, s').
Definition user_query {T} (f : option str -> user_table -> result DomainError T) : P T := fun s =>
  (map_err Failed (f (next_fault s) (users s)), drop_fault s).

(** ** The repository *)
(** [VARCHAR(n)] counts characters. *)
Definition chars (s : str) : nat := length (filter (fun b => continuation b = false) s).
Definition fits (ap : AppPassword) : bool :=
  bool_decide (chars (ap_label ap) <= 255 ∧ chars (ap_prefix ap) <= 50 ∧ chars (ap_scopes ap) <= 512)%nat.
Definition too_long : str := lit "error returned from database: value too long for type character varying".
Definition missing_user : str := lit "error returned from database: violates foreign key constraint".
Definition duplicate : str := lit "error returned from database: duplicate key value violates unique constraint".
Definition sql_insert (id : Uuid) (ap : AppPassword) (s : Store) : result str unit * Store :=
  if negb (fits ap) then (Err too_long, s)
  else match rows s !! id with
       | Some _ => (Err duplicate, s)
       | None => if decide (is_Some (users s !! ap_user ap)) then (Ok tt, set_rows (<[id := ap]> (rows s)) s)
                 else (Err missing_user, s)
       end.
Definition newest_first (x y : Uuid * AppPassword) : Prop := (ap_created_at y.2 <= ap_created_at x.2)%Z.
#[local] Instance newest_first_dec : RelDecision newest_first.
Proof. intros x y. unfold newest_first. apply _. Defined.
Definition rows_where (p : AppPassword -> bool) (m : ap_table) : list (Uuid * AppPassword) :=
  merge_sort newest_first (map_to_list (filter (fun x : Uuid * AppPassword => p x.2 = true) m)).
(** [active = TRUE AND (expires_at IS NULL OR expires_at > NOW())] *)
Definition live (t : Z) (ap : AppPassword) : bool :=
  ap_active ap && match ap_expires_at ap with Some e => (t <? e)%Z | None => true end.
Definition of_user (user : Uuid) (ap : AppPassword) : bool := bool_decide (ap_user ap = user).
Definition candidate (t : Z) (user : Uuid) (prefix : str) (ap : AppPassword) : bool :=
  of_user user ap && bool_decide (ap_prefix ap = prefix) && live t ap.
Definition touched (t : Z) (ap : AppPassword) : AppPassword :=
  mkAppPassword (ap_user ap) (ap_label ap) (ap_hash ap) (ap_prefix ap) (ap_scopes ap) (ap_created_at ap) (Some t) (ap_expires_at ap) (ap_active ap).
Definition deactivated (ap : AppPassword) : AppPassword :=
  mkAppPassword (ap_user ap) (ap_label ap) (ap_hash ap) (ap_prefix ap) (ap_scopes ap) (ap_created_at ap) (ap_last_used_at ap) (ap_expires_at ap) false.

Definition repo_create (id : Uuid) (ap : AppPassword) : P unit := sql (lit "create") (sql_insert id ap).
Definition list_by_user (user : Uuid) : P (list (Uuid * AppPassword)) :=
  sql (lit "list") (fun s => (Ok (rows_where (of_user user) (rows s)), s)).
Definition get_by_id (id : Uuid) : P AppPassword :=
  row ← sql (lit "get_by_id") (fun s => (Ok (rows s !! id), s));
  match row with Some ap => mret ap | None => fail (DomainError.not_found (lit "AppPassword") (uuid_to_string id)) end.
Definition get_active_by_user_prefix (user : Uuid) (prefix : str) : P (list (Uuid * AppPassword)) :=
  sql (lit "get_active_by_prefix") (fun s => (Ok (rows_where (candidate (clock s) user prefix) (rows s)), s)).
Definition touch_last_used (id : Uuid) : P unit :=
  sql (lit "touch") (fun s => (Ok tt, set_rows (alter (touched (clock s)) id (rows s)) s)).
Definition sql_revoke (id user : Uuid) (s : Store) : N * Store :=
  match rows s !! id with
  | Some ap => if of_user user ap then (1%N, set_rows (alter deactivated id (rows s)) s) else (0%N, s)
  | None => (0%N, s)
  end.
Definition repo_revoke (id user : Uuid) : P unit :=
  n ← sql (lit "revoke") (fun s => let (n, s') := sql_revoke id user s in (Ok n, s'));
  if decide (n = 0%N) then fail (DomainError.not_found (lit "AppPassword") (uuid_to_string id)) else mret tt.
Definition delete_by_user_and_id (id user : Uuid) : P bool :=
  sql (lit "delete_by_user_and_id") (fun s =>
    match rows s !! id with
    | Some ap => if of_user user ap then (Ok true, set_rows (delete id (rows s)) s) else (Ok false, s)
    | None => (Ok false, s)
    end).
Definition expired_row (t : Z) (ap : AppPassword) : bool :=
  negb (ap_active ap) || match ap_expires_at ap with Some e => (e <? t)%Z | None => false end.
Definition delete_expired : P N :=
  sql (lit "delete_expired") (fun s =>
    (Ok (N.of_nat (size (filter (fun x : Uuid * AppPassword => expired_row (clock s) x.2 = true) (rows s)))),
     set_rows (filter (fun x : Uuid * AppPassword => expired_row (clock s) x.2 = false) (rows s)) s)).

(** ** The service *)
Definition charset : str :=
  lit "abcdefghijklmnopqrstuvwxyzABCDEFGHIJKLMNOPQRSTUVWXYZ0123456789".
Definition nc_charset : str := lit "ABCDEFGHIJKLMNOPQRSTUVWXYZ0123456789".
Definition pick (cs : str) (i : Z) : byte := default 0%Z (cs !! Z.to_nat (i mod Z.of_nat (length cs))).
Definition generate_token : P str :=
  bytes ← random_bytes TOKEN_LENGTH;
  mret (TOKEN_PREFIX ++ (pick charset <$> bytes)).
(** The loop draws until a number falls below the threshold; [None] when [fuel] draws were not
    enough. *)
Fixpoint unbiased (fuel : nat) : P (option byte) :=
  match fuel with
  | O => mret None
  | S fuel => v ← next_u32;
              if (v <? threshold (Z.of_nat (length nc_charset)))%Z then mret (Some (pick nc_charset v)) else unbiased fuel
  end.
Fixpoint unbiased_list (fuel n : nat) : P (option str) :=
  match n with
  | O => mret (Some [])
  | S n => b ← unbiased fuel; rest ← unbiased_list fuel n;
           mret (match b, rest with Some b, Some rest => Some (b :: rest) | _, _ => None end)
  end.
Fixpoint groups (n : nat) (s : str) : list str :=
  match n with
  | O => []
  | S n => take NC_APP_PASSWORD_GROUP_LEN s :: groups n (drop NC_APP_PASSWORD_GROUP_LEN s)
  end.
Definition generate_nc_app_password (fuel : nat) : P (option str) :=
  cs ← unbiased_list fuel (NC_APP_PASSWORD_GROUPS * NC_APP_PASSWORD_GROUP_LEN);
  mret ((fun cs => join 45 (groups NC_APP_PASSWORD_GROUPS cs)) <$> cs).
(** [normalized[..8]] panics inside a character. *)
Definition nc_token_prefix (normalized : str) : P str :=
  if (length normalized <? NC_PREFIX_LEN)%nat then fail too_short
  else match str_get_to NC_PREFIX_LEN normalized with Some p => mret p | None => panic end.
Definition hash_password (p : str) : P str := salt ← draw; of_result (hash_password_with salt p).

(** [Utc::now() + Duration::days(days)] panics beyond the instants a [DateTime] can hold. *)
Definition expiry_after (days : option Z) : P (option Z) :=
  match days with
  | None => mret None
  | Some d => t ← gets clock;
              let e := (t + d * 86400 * SEC)%Z in
              if datetime_ok e then mret (Some e) else panic
  end.
Definition created_reply (id : Uuid) (label username token scopes : str) (expires_at : option Z) : Created :=
  mkCreated (uuid_to_string id) label token username scopes (to_rfc3339 <$> expires_at)
    (lit "In DAVx⁵, add account with base URL: " ++ base_url ++ lit "/webdav/" ++ [10%Z] ++ lit "Username: " ++ username
       ++ [10%Z] ++ lit "Password: (the token shown above)")
    (lit "In Thunderbird CalDAV/CardDAV:" ++ [10%Z] ++ lit "URL: " ++ base_url ++ lit "/caldav/ or " ++ base_url
       ++ lit "/carddav/" ++ [10%Z] ++ lit "Username: " ++ username ++ [10%Z] ++ lit "Password: (the token shown above)")
    (lit "rclone config:" ++ [10%Z] ++ lit "type = webdav" ++ [10%Z] ++ lit "url = " ++ base_url ++ lit "/webdav/" ++ [10%Z]
       ++ lit "vendor = other" ++ [10%Z] ++ lit "user = " ++ username ++ [10%Z]
       ++ lit "pass = (the token shown above, use 'rclone obscure' to encode)")
    (lit "curl -u '" ++ username ++ lit ":" ++ token ++ lit "' -X PROPFIND " ++ base_url ++ lit "/webdav/").
Definition create (user : Uuid) (request : CreateRequest) : P Created :=
  let label := trim (rq_label request) in
  if bool_decide (label = []) || (255 <? length label)%nat
  then fail (DomainError.validation_error (lit "Label must be 1-255 characters"))
  else
    u ← user_query (fun fault => get_user_by_id fault user);
    token ← generate_token;
    hash ← hash_password token;
    expires_at ← expiry_after (rq_expires_in_days request);
    id ← draw;
    t ← gets clock;
    _ ← repo_create id (new_app_password t user label hash (take (length TOKEN_PREFIX + 8) token) (rq_scopes request) expires_at);
    mret (created_reply id label (default [] (username u)) token (rq_scopes request) expires_at).
Definition summary (t : Z) (x : Uuid * AppPassword) : Summary :=
  let (id, ap) := x in
  mkSummary (uuid_to_string id) (ap_label ap) (ap_prefix ap ++ lit "...") (ap_scopes ap) (to_rfc3339 (ap_created_at ap))
    (to_rfc3339 <$> ap_last_used_at ap) (to_rfc3339 <$> ap_expires_at ap) (ap_active ap && negb (is_expired t ap)).
Definition list_passwords (user : Uuid) : P (list Summary * nat) :=
  l ← list_by_user user;
  t ← gets clock;
  mret (summary t <$> l, length l).
(** The cache is built without [support_invalidation_closures]: moka answers
    [invalidate_entries_if] with an error and drops nothing, and the caller ignores the answer. *)
Definition invalidate_user (user : Uuid) : P unit := mret tt.
Definition revoke (user id : Uuid) : P str :=
  ap ← get_by_id id;
  if of_user user ap then
    _ ← repo_revoke id user;
    _ ← invalidate_user user;
    mret (uuid_to_string id)
  else fail (unauthorized (lit "You can only revoke your own app passwords")).

Fixpoint try_candidates (u : User) (password : str) (l : list (Uuid * AppPassword)) : P Cached :=
  match l with
  | [] => fail invalid_login
  | (id, ap) :: rest =>
      match verify_password password (ap_hash ap) with
      | Ok true =>
          _ ← attempt (touch_last_used id);
          mret (mkCached (user_id u) (default [] (username u)) (email u) (UserRole.as_str (role u)))
      | _ => try_candidates u password rest
      end
  end.
(** What is looked up: the text to verify, and the prefix of its row. *)
Definition lookup_form (password : str) : P (str * str) :=
  if starts_with TOKEN_PREFIX password then
    mret (password, default password (str_get_to (length TOKEN_PREFIX + 8) password))
  else
    let norm := nc_normalize_password password in
    pfx ← attempt (nc_token_prefix norm);
    match pfx with
    | Ok pfx => mret (norm, pfx)
    | Err Panicked => panic
    | Err (Failed _) => fail invalid_login
    end.
Definition verify_basic_auth_uncached (name password : str) : P Cached :=
  found ← attempt (user_query (fun fault => get_user_by_username fault name));
  match found with
  | Err _ => fail invalid_login
  | Ok u =>
      if negb (is_active u) then fail invalid_login
      else
        form ← lookup_form password;
        candidates ← get_active_by_user_prefix (user_id u) form.2;
        try_candidates u form.1 candidates
  end.
Definition cache_key (name password : str) : str := blake3 (name ++ lit ":" ++ password).
(** [try_get_with]: only a success is kept. *)
Definition verify_basic_auth (name password : str) : P Cached := fun s =>
  match cget (auth_cache s) (clock s) (cache_key name password) with
  | Some r => (Ok r, s)
  | None =>
      match verify_basic_auth_uncached name password s with
      | (Ok r, s') => (Ok r, set_cache (cinsert (auth_cache s') (clock s') BASIC_AUTH_CACHE_TTL (cache_key name password) r) s')
      | (Err e, s') => (Err e, s')
      end
  end.

(** ** The Nextcloud flavour *)
Definition create_nc (fuel : nat) (user : Uuid) (label : str) : P (option (Uuid * str)) :=
  generated ← generate_nc_app_password fuel;
  match generated with
  | None => mret None
  | Some password =>
      let normalized := nc_normalize_password password in
      prefix ← nc_token_prefix normalized;
      hash ← hash_password normalized;
      id ← draw;
      t ← gets clock;
      _ ← repo_create id (new_app_password t user label hash prefix (lit "all") None);
      mret (Some (id, password))
  end.
Fixpoint revoke_first (user : Uuid) (normalized : str) (l : list (Uuid * AppPassword)) : P unit :=
  match l with
  | [] => mret tt
  | (id, ap) :: rest =>
      match verify_password normalized (ap_hash ap) with
      | Ok true => _ ← repo_revoke id user; invalidate_user user
      | _ => revoke_first user normalized rest
      end
  end.
Definition revoke_by_password (user : Uuid) (password : str) : P unit :=
  let normalized := nc_normalize_password password in
  pfx ← attempt (nc_token_prefix normalized);
  match pfx with
  | Err Panicked => panic
  | Err (Failed _) => mret tt
  | Ok pfx => candidates ← get_active_by_user_prefix user pfx; revoke_first user normalized candidates
  end.
Definition delete_by_user (id user : Uuid) : P unit :=
  deleted ← delete_by_user_and_id id user;
  if (deleted : bool) then mret tt
  else fail (DomainError.new NotFound (lit "AppPassword") (lit "App password not found")).
End Service.
