(* ===== verification/AppPasswordClaims.v ===== *)
(** * App passwords: what they open and for how long

    Over the requests of [AppPasswords]: a password opens what it was created for, a login that
    succeeds was proved within the life of a cache entry, which texts make a request panic, and
    where the code does less than its comments promise. *)

From stdpp Require Import sorting.
From S2P Require Import Prelude.
From S2P Require Import RustStr.
From S2P Require Import DomainErrors.
From S2P Require Import Moka.
From S2P Require Import Principals.
From S2P Require Import AppPasswords.

#[local] Arguments lit : simpl never.

(** The text to verify and the prefix of its row, or how the request ends. *)
Definition form `{Argon} (password : str) : result Stop (str * str) :=
  if starts_with TOKEN_PREFIX password then Ok (password, default password (str_get_to (length TOKEN_PREFIX + 8) password))
  else
    let norm := nc_normalize_password password in
    if (length norm <? NC_PREFIX_LEN)%nat then Err (Failed invalid_login)
    else match str_get_to NC_PREFIX_LEN norm with Some p => Ok (norm, p) | None => Err Panicked end.

Section Claims.
Context {Cache : forall (K : Type) {E : EqDecision K} {C : @Countable K E}, Type -> Type}.
#[local] Arguments Cache _ {_ _} _.
Context `{!Moka (@Cache)} `{UuidText} `{Argon}.
Context (blake3 : str -> str) (datetime_ok : Z -> bool) (to_rfc3339 : Z -> str) (base_url : str).
Implicit Types s : Store (Cache:=@Cache).
#[local] Abbreviation verify_basic_auth := (verify_basic_auth (Cache:=@Cache) blake3).
#[local] Abbreviation create := (create (Cache:=@Cache) datetime_ok to_rfc3339 base_url).

(** ** Logins in one piece *)
Definition identity (u : User) : Cached :=
  mkCached (user_id u) (default [] (username u)) (email u) (UserRole.as_str (role u)).
Lemma lookup_form_run password s : lookup_form password s = (form password, s).
Proof.
  unfold lookup_form, form, nc_token_prefix. destruct (starts_with _ _); [done|]. unfold attempt, fail, panic. unfold_m.
  destruct (_ <? _)%nat; [done|]. by destruct (str_get_to _ _).
Qed.
Lemma rows_where_in p (m : ap_table) x : x ∈ rows_where p m <-> m !! x.1 = Some x.2 ∧ p x.2 = true.
Proof.
  unfold rows_where. rewrite merge_sort_Permutation. destruct x as [id ap].
  rewrite elem_of_map_to_list, map_lookup_filter_Some. done.
Qed.
Definition untouched s s' : Prop :=
  users s' = users s ∧ clock s' = clock s ∧ auth_cache s' = auth_cache s.
Lemma touch_untouched id s : untouched s (touch_last_used id s).2.
Proof. unfold touch_last_used, sql. by destruct (next_fault s). Qed.
Lemma try_candidates_untouched u text l s r s' : try_candidates u text l s = (r, s') -> untouched s s' ∧ r ≠ Err Panicked.
Proof.
  induction l as [|[id ap] l IH] in s |- *; cbn [try_candidates]; [by intros [= <- <-]|].
  destruct (verify_password text (ap_hash ap)) as [[]|]; [|by apply IH|by apply IH].
  unfold attempt. unfold_m. destruct (touch_last_used id s) as [x s1] eqn:T. intros [= <- <-]. split; [|done].
  assert (untouched s (touch_last_used id s).2) by apply touch_untouched. by rewrite T in *.
Qed.
Lemma try_candidates_Ok u text l s r s' : try_candidates u text l s = (Ok r, s') ->
  r = identity u ∧ exists x, x ∈ l ∧ verify_password text (ap_hash x.2) = Ok true.
Proof.
  induction l as [|[id ap] l IH] in s |- *; cbn [try_candidates]; [done|].
  destruct (verify_password text (ap_hash ap)) as [[]|] eqn:V.
  - unfold attempt. unfold_m. destruct (touch_last_used id s) as [x s1]. intros [= <- <-]. split; [done|].
    exists (id, ap). split; [by left|done].
  - intros (-> & x & Hx & Hv)%IH. split; [done|]. exists x. split; [by right|done].
  - intros (-> & x & Hx & Hv)%IH. split; [done|]. exists x. split; [by right|done].
Qed.
Lemma try_candidates_finds u text l s x : x ∈ l -> verify_password text (ap_hash x.2) = Ok true ->
  exists s', try_candidates u text l s = (Ok (identity u), s').
Proof.
  intros Hx Hv. induction l as [|[id ap] l IH]; [by apply not_elem_of_nil in Hx|]. cbn [try_candidates].
  destruct (verify_password text (ap_hash ap)) as [[]|] eqn:V.
  1: { unfold attempt. unfold_m. destruct (touch_last_used id s) as [? s1]. eauto. }
  all: apply elem_of_cons in Hx as [->|Hx]; [cbn in Hv; congruence|by apply IH].
Qed.

(** At instant [t] the tables prove that [password] is one of the user called [name]. *)
Definition proves (t : Z) (us : user_table) (rs : ap_table) (name password : str) (r : Cached) : Prop :=
  exists row rl id ap text pfx,
    us !! ca_user r = Some row ∧ u_username row = Some (to_ascii_lowercase (trim name)) ∧ u_active row = true
    ∧ UserRole.from_stored (u_role row) = Some rl
    ∧ r = mkCached (ca_user r) (default [] (u_username row)) (u_email row) (UserRole.as_str rl)
    ∧ rs !! id = Some ap ∧ ap_user ap = ca_user r ∧ live t ap = true
    ∧ form password = Ok (text, pfx) ∧ ap_prefix ap = pfx ∧ verify_password text (ap_hash ap) = Ok true.

Lemma uncached_Ok name password s r s' : verify_basic_auth_uncached name password s = (Ok r, s') ->
  untouched s s' ∧ proves (clock s) (users s) (rows s) name password r.
Proof.
  unfold verify_basic_auth_uncached, attempt, user_query, fail. unfold_m.
  destruct (get_user_by_username _ name (users s)) as [u|e] eqn:G; cbn [map_err]; [|done].
  apply get_user_by_username_Ok in G as (row & _ & Hu & Hn & En & Ee & Ea & Er).
  destruct (is_active u) eqn:A; cbn [negb]; [|done]. rewrite lookup_form_run.
  destruct (form password) as [[text pfx]|] eqn:F; [|done].
  unfold get_active_by_user_prefix, sql. destruct (next_fault (drop_fault s)); cbn [map_err fst snd]; [done|].
  intros T. destruct (try_candidates_untouched _ _ _ _ _ _ T) as [(U1 & U2 & U3) _].
  destruct (try_candidates_Ok _ _ _ _ _ _ T) as (-> & [id ap] & Hx & Hv). split; [done|].
  apply rows_where_in in Hx as [Hr Hc]. cbn in Hr, Hc. unfold candidate, of_user in Hc.
  rewrite !andb_true_iff, !bool_decide_eq_true in Hc. destruct Hc as [[Hc1 Hc2] Hc3].
  exists row, (role u), id, ap, text, pfx. cbn. split_and!; try done; try congruence. unfold identity. by rewrite En, Ee.
Qed.
Lemma uncached_finds name password s r : faults s = [] -> unique_names (users s) ->
  proves (clock s) (users s) (rows s) name password r ->
  exists s', verify_basic_auth_uncached name password s = (Ok r, s').
Proof.
  intros Hf Hq (row & rl & id & ap & text & pfx & Hu & Hn & Ha & Hr & Er & Hap & Hau & Hl & Hform & Hp & Hv).
  unfold verify_basic_auth_uncached, attempt, user_query, fail. unfold_m.
  unfold next_fault, drop_fault. rewrite Hf. cbn [head default tail].
  unfold get_user_by_username. rewrite (sql_by_username_unique _ _ _ _ Hq Hu Hn). cbn [one_row].
  unfold row_user, role_from_row. rewrite Hr. cbn [map_err is_active]. rewrite Ha. cbn [negb].
  rewrite lookup_form_run, Hform. unfold get_active_by_user_prefix, sql, next_fault. cbn [faults head default map_err fst snd user_id].
  match goal with |- exists s', try_candidates ?u ?t ?l ?s0 = _ => destruct (try_candidates_finds u t l s0 (id, ap)) as [s' T] end.
  - apply rows_where_in. split; [exact Hap|]. cbn [snd]. unfold candidate, of_user.
    rewrite !andb_true_iff, !bool_decide_eq_true. split_and!; [exact Hau|exact Hp|exact Hl].
  - exact Hv.
  - exists s'. rewrite T. unfold identity. cbn [user_id username email role]. by rewrite <- Er.
Qed.

(** ** Creation *)
Lemma charset_ascii i : continuation (pick charset i) = false ∧ continuation (pick nc_charset i) = false.
Proof.
  assert (A : forall cs, forallb (fun b => negb (continuation b)) cs = true -> continuation (pick cs i) = false).
  { intros cs Hcs. unfold pick. destruct (cs !! Z.to_nat _) as [b|] eqn:E; [|done]. cbn [default].
    rewrite forallb_forall in Hcs. apply negb_true_iff, Hcs, list_elem_of_In. by eapply list_elem_of_lookup_2. }
  split; apply A; vm_compute; reflexivity.
Qed.
Lemma boundary_ascii i t : Forall (fun b => continuation b = false) t -> (i <= length t)%nat -> is_char_boundary i t = true.
Proof.
  intros Ht Hi. unfold is_char_boundary. destruct (t !! i) as [b|] eqn:E.
  - rewrite list.Forall_lookup in Ht. by rewrite (Ht _ _ E).
  - apply lookup_ge_None in E. apply bool_decide_eq_true. lia.
Qed.
Definition token_of (bytes : list Z) : str := TOKEN_PREFIX ++ (pick charset <$> bytes).
Lemma token_form bytes : length bytes = TOKEN_LENGTH ->
  form (token_of bytes) = Ok (token_of bytes, take (length TOKEN_PREFIX + 8) (token_of bytes)).
Proof.
  intros L. unfold form, starts_with. unfold token_of at 1. rewrite strip_prefix_app. unfold str_get_to.
  rewrite boundary_ascii; [done| |].
  - unfold token_of. apply list.Forall_app. split; [by repeat constructor|]. apply list.Forall_fmap, list.Forall_forall.
    intros b _. apply charset_ascii.
  - unfold token_of. rewrite length_app, length_fmap, L. vm_compute. lia.
Qed.

(** What a creation that succeeds has done. *)
Lemma create_Ok user rq s c s' : create user rq s = (Ok c, s') ->
  exists row rl bytes h salt id e,
    users s !! user = Some row ∧ UserRole.from_stored (u_role row) = Some rl
    ∧ length bytes = TOKEN_LENGTH ∧ cr_password c = token_of bytes ∧ hash_password_with salt (token_of bytes) = Ok h
    ∧ e = (fun d => clock s + d * 86400 * SEC)%Z <$> rq_expires_in_days rq
    ∧ rows s !! id = None
    ∧ rows s' = <[id := new_app_password (clock s) user (trim (rq_label rq)) h
                          (take (length TOKEN_PREFIX + 8) (token_of bytes)) (rq_scopes rq) e]> (rows s)
    ∧ untouched s s' ∧ faults s' = drop 2 (faults s).
Proof.
  unfold AppPasswords.create. destruct (_ || _); [done|]. unfold user_query. unfold_m.
  unfold get_user_by_id. destruct (next_fault s); [done|]. cbn [one_row].
  destruct (users s !! user) as [row|] eqn:Hu; [|done]. cbn [one_row]. unfold row_user, role_from_row.
  destruct (UserRole.from_stored (u_role row)) as [rl|] eqn:Hr; [|done]. cbn [map_err].
  unfold generate_token, random_bytes, hash_password, draw, of_result, expiry_after, panic. unfold_m.
  set (bytes := (fun i => _) <$> seq 0 TOKEN_LENGTH).
  destruct (hash_password_with _ _) as [h|] eqn:Hh; [|done]. cbn [map_err].
  assert (L : length bytes = TOKEN_LENGTH) by (unfold bytes; by rewrite length_fmap, length_seq).
  destruct (rq_expires_in_days rq) as [d|]; [destruct (datetime_ok _); [|done]|]; unfold repo_create, sql.
  all: destruct (next_fault _); [done|]; unfold sql_insert; destruct (negb _); [done|].
  all: match goal with |- context [rows ?x !! ?i] => destruct (rows x !! i) eqn:Hid end; [done|].
  all: destruct (decide _); [|done]; cbn [map_err]; intros [= <- <-].
  all: exists row, rl, bytes, h, (fresh s); do 2 eexists; split_and!; try done; try reflexivity; try exact Hh; try exact Hid.
  all: cbn; by destruct (faults s) as [|? [|? ?]].
Qed.

(** ** A created password opens the account *)
Definition miss s (t : Z) (name password : str) : Prop := cget (auth_cache s) t (cache_key blake3 name password) = None.

(** A created password opens the account of its user.  When a creation succeeds for a user
    who is active and has a name, the text that was shown, sent with that name in any ASCII case
    and with white space around it, logs that user in, from then until the password expires, and
    whatever other passwords the user has; the reply carries the user's identity of that
    moment. *)
Theorem created_password_opens user rq s c s' row rl nm name t :
  faults s = [] -> unique_names (users s) -> create user rq s = (Ok c, s') ->
  users s !! user = Some row -> u_active row = true -> u_username row = Some nm ->
  UserRole.from_stored (u_role row) = Some rl -> to_ascii_lowercase (trim name) = nm ->
  from_option (fun d => (t < clock s + d * 86400 * SEC)%Z) True (rq_expires_in_days rq) ->
  miss s' t name (cr_password c) ->
  exists s2, verify_basic_auth name (cr_password c) (set_clock t s') =
    (Ok (mkCached user nm (u_email row) (UserRole.as_str rl)), s2).
Proof.
  intros Hf Hq Hc Hu Ha Hn Hr Hname Ht Hm.
  destruct (create_Ok _ _ _ _ _ Hc) as (row' & rl' & bytes & h & salt & id & e & Hu' & Hr' & L & Hp & Hh & He & Hid & Hrows & (U1 & U2 & U3) & Hf').
  rewrite Hu in Hu'. injection Hu' as <-.
  set (r := mkCached user nm (u_email row) (UserRole.as_str rl)).
  destruct (uncached_finds name (cr_password c) (set_clock t s') r) as [s2 V].
  - cbn. by rewrite Hf', Hf.
  - cbn. by rewrite U1.
  - eexists row, rl, id, _, (token_of bytes), _. cbn [set_clock users rows clock]. rewrite U1, Hrows, lookup_insert_eq.
    split_and!; [done|by rewrite Hn, Hname|done|done|unfold r; by rewrite Hn|done|done| |rewrite Hp; by apply token_form|done|by apply (hash_then_verify salt)].
    unfold live. cbn [ap_active new_app_password ap_expires_at andb]. rewrite He.
    destruct (rq_expires_in_days rq) as [d|]; [|done]. cbn in Ht |- *. by apply Z.ltb_lt.
  - unfold AppPasswords.verify_basic_auth. cbn [set_clock auth_cache clock]. unfold miss in Hm. rewrite Hm, V. eauto.
Qed.

(** ** The Nextcloud flavour *)
Definition nc_plain (b : byte) : Prop := (33 <= b <= 126)%Z.
Lemma strip_any_head ps b rest : Forall (fun p => match p with [] => False | h :: _ => h ≠ b end) ps -> strip_any ps (b :: rest) = None.
Proof.
  induction 1 as [|p ps Hp _ IH]; [done|]. cbn [strip_any]. destruct p as [|h p]; [done|].
  cbn [strip_prefix]. by rewrite decide_False.
Qed.
Lemma remove_whitespace_plain n t : Forall nc_plain t -> remove_whitespace n t = t.
Proof.
  intros Ht. induction n as [|n IH] in t, Ht |- *; [by destruct t|]. destruct t as [|b t]; [done|]. cbn [remove_whitespace].
  apply list.Forall_cons in Ht as [Hb Ht]. rewrite strip_any_head; [by rewrite IH|].
  unfold whitespace. unfold nc_plain in Hb. repeat constructor; lia.
Qed.
Lemma pick_nc i : (48 <= pick nc_charset i <= 57 \/ 65 <= pick nc_charset i <= 90)%Z.
Proof.
  assert (A : forallb (fun b => ((48 <=? b) && (b <=? 57)) || ((65 <=? b) && (b <=? 90)))%Z nc_charset = true) by (vm_compute; reflexivity).
  rewrite forallb_forall in A. unfold pick. destruct (nc_charset !! Z.to_nat (i mod _)) as [b|] eqn:E.
  - apply list_elem_of_lookup_2, list_elem_of_In, A in E. rewrite orb_true_iff, !andb_true_iff, !Z.leb_le in E. exact E.
  - apply lookup_ge_None in E. change (Z.of_nat (length nc_charset)) with 36%Z in E. change (length nc_charset) with 36%nat in E. pose proof (Z.mod_pos_bound i 36). lia.
Qed.
Definition picked (b : byte) : Prop := (48 <= b <= 57 \/ 65 <= b <= 90)%Z.
Lemma unbiased_picked fuel s b s' : unbiased fuel s = (Ok (Some b), s') -> picked b.
Proof.
  induction fuel as [|fuel IH] in s |- *; cbn [unbiased]; [done|]. unfold next_u32. unfold_m.
  destruct (_ <? _)%Z; [|apply IH]. intros [= <- _]. apply pick_nc.
Qed.
Definition drew s s' : Prop := exists k, s' = set_drawn k s.
Lemma unbiased_drew fuel s : exists o k, unbiased fuel s = (Ok o, set_drawn k s).
Proof.
  induction fuel as [|fuel IH] in s |- *; cbn [unbiased].
  - exists None, (drawn s). by destruct s.
  - unfold next_u32. unfold_m. destruct (_ <? _)%Z; [by eauto|].
    destruct (IH (set_drawn (S (drawn s)) s)) as (o & k & ->). by exists o, k.
Qed.
Lemma unbiased_list_spec fuel n s : exists o k, unbiased_list fuel n s = (Ok o, set_drawn k s)
  ∧ forall cs, o = Some cs -> length cs = n ∧ Forall picked cs.
Proof.
  induction n as [|n IH] in s |- *; cbn [unbiased_list].
  - exists (Some []), (drawn s). split; [by destruct s|]. intros cs [= <-]. done.
  - unfold_m. destruct (unbiased_drew fuel s) as (o & k & E). rewrite E.
    destruct (IH (set_drawn k s)) as (o' & k' & -> & Hcs). do 2 eexists. split; [reflexivity|].
    destruct o as [b|], o' as [cs'|]; intros cs [= <-]. destruct (Hcs _ eq_refl) as [<- ?]. split; [done|].
    constructor; [by eapply unbiased_picked|done].
Qed.
Definition dashed (cs : str) : str := join 45 (groups NC_APP_PASSWORD_GROUPS cs).
Lemma groups_join n cs : (length cs = n * 5)%nat -> Forall picked cs ->
  filter (fun b => b ≠ 45%Z) (join 45 (groups n cs)) = cs ∧ Forall nc_plain (join 45 (groups n cs)).
Proof.
  intros L Hcs. induction n as [|n IH] in cs, L, Hcs |- *; [by apply nil_length_inv in L as ->|].
  assert (K : forall x, Forall picked x -> filter (fun b => b ≠ 45%Z) x = x ∧ Forall nc_plain x).
  { intros x. induction 1 as [|b x Hb _ [I1 I2]]; [done|]. unfold picked in Hb. assert (b ≠ 45%Z) by lia. rewrite filter_cons_True, I1 by done.
    split; [done|]. constructor; [unfold nc_plain; lia|done]. }
  destruct (K (take 5 cs) ltac:(by apply Forall_take)) as [T1 T2]. cbn [groups]. change NC_APP_PASSWORD_GROUP_LEN with 5%nat.
  destruct n as [|n]; [cbn [groups join]; rewrite T1, take_ge by lia; rewrite take_ge in T2 by lia; done|].
  destruct (IH (drop 5 cs)) as [I1 I2]; [rewrite length_drop; lia|by apply Forall_drop|].
  change (join 45 (take 5 cs :: groups (S n) (drop 5 cs))) with (take 5 cs ++ 45%Z :: join 45 (groups (S n) (drop 5 cs))).
  rewrite list.filter_app, T1, filter_cons_False by (by intros []). rewrite I1. split; [apply take_drop|].
  apply list.Forall_app. split; [done|]. constructor; [unfold nc_plain; lia|done].
Qed.
Lemma normalize_dashed cs : length cs = 25%nat -> Forall picked cs -> nc_normalize_password (dashed cs) = cs.
Proof.
  intros L Hcs. destruct (groups_join 5 cs L Hcs) as [F Pl]. unfold nc_normalize_password, dashed.
  change NC_APP_PASSWORD_GROUPS with 5%nat. rewrite remove_whitespace_plain, F by done.
  clear L F Pl. induction Hcs as [|b cs Hb _ IH]; [done|]. cbn. rewrite IH. f_equal. unfold ascii_upper, picked in *.
  rewrite decide_False by lia. done.
Qed.

Lemma create_nc_Ok fuel user label s id pw s' : create_nc fuel user label s = (Ok (Some (id, pw)), s') ->
  exists cs h salt, pw = dashed cs ∧ length cs = 25%nat ∧ Forall picked cs ∧ hash_password_with salt cs = Ok h
    ∧ is_Some (users s !! user) ∧ rows s !! id = None
    ∧ rows s' = <[id := new_app_password (clock s) user label h (take 8 cs) (lit "all") None]> (rows s)
    ∧ untouched s s' ∧ faults s' = tail (faults s).
Proof.
  unfold create_nc, generate_nc_app_password. unfold_m.
  change (NC_APP_PASSWORD_GROUPS * NC_APP_PASSWORD_GROUP_LEN)%nat with 25%nat.
  destruct (unbiased_list_spec fuel 25 s) as (o & k & -> & Hcs). destruct o as [cs|]; cbn [fmap option_fmap option_map]; [|done].
  destruct (Hcs _ eq_refl) as [L Hp]. fold (dashed cs). rewrite (normalize_dashed _ L Hp).
  unfold nc_token_prefix, fail, panic. rewrite L. cbn [Nat.ltb Nat.leb NC_PREFIX_LEN]. unfold str_get_to.
  rewrite boundary_ascii; [|eapply list.Forall_impl; [exact Hp|]; intros b Hb; unfold continuation, picked in *; destruct (Z.leb_spec 128 b); [lia|done]|unfold NC_PREFIX_LEN; lia].
  unfold hash_password, draw, of_result. unfold_m. cbn [set_drawn fresh].
  destruct (hash_password_with _ cs) as [h|] eqn:Hh; [|done]. cbn [map_err].
  unfold repo_create, sql. destruct (next_fault _); [done|]. unfold sql_insert. destruct (negb _); [done|].
  match goal with |- context [rows ?x !! ?i] => destruct (rows x !! i) eqn:Hid end; [done|].
  destruct (decide _) as [Hu|]; [|done]. cbn [map_err]. intros [= <- <- <-].
  exists cs, h, (fresh s). split_and!; try done.
Qed.

(** An app password of the Nextcloud kind opens the account however it is typed: in lower case,
    without the dashes, with white space in between. *)
Theorem nextcloud_password_opens fuel user label s id pw s' row rl nm name typed t :
  faults s = [] -> unique_names (users s) -> create_nc fuel user label s = (Ok (Some (id, pw)), s') ->
  users s !! user = Some row -> u_active row = true -> u_username row = Some nm ->
  UserRole.from_stored (u_role row) = Some rl -> to_ascii_lowercase (trim name) = nm ->
  nc_normalize_password typed = nc_normalize_password pw -> starts_with TOKEN_PREFIX typed = false ->
  miss s' t name typed ->
  exists s2, verify_basic_auth name typed (set_clock t s') = (Ok (mkCached user nm (u_email row) (UserRole.as_str rl)), s2).
Proof.
  intros Hf Hq Hc Hu Ha Hn Hr Hname Hty Hpre Hm.
  destruct (create_nc_Ok _ _ _ _ _ _ _ Hc) as (cs & h & salt & -> & L & Hp & Hh & _ & Hid & Hrows & (U1 & U2 & U3) & Hf').
  rewrite (normalize_dashed _ L Hp) in Hty. set (r := mkCached user nm (u_email row) (UserRole.as_str rl)).
  destruct (uncached_finds name typed (set_clock t s') r) as [s2 V].
  - cbn. by rewrite Hf', Hf.
  - cbn. by rewrite U1.
  - eexists row, rl, id, _, cs, (take 8 cs). cbn [set_clock users rows clock]. rewrite U1, Hrows, lookup_insert_eq.
    split_and!; [done|by rewrite Hn, Hname|done|done|unfold r; by rewrite Hn|done|done|done| |done|by apply (hash_then_verify salt)].
    unfold form. rewrite Hpre, Hty, L. cbn [Nat.ltb Nat.leb NC_PREFIX_LEN]. unfold str_get_to.
    rewrite boundary_ascii; [done| |unfold NC_PREFIX_LEN; lia]. eapply list.Forall_impl; [exact Hp|].
    intros b Hb. unfold continuation, picked in *. destruct (Z.leb_spec 128 b); [lia|done].
  - unfold AppPasswords.verify_basic_auth. cbn [set_clock auth_cache clock]. unfold miss in Hm. rewrite Hm, V. eauto.
Qed.

(** The generator ends when, wherever it is, one of the next [fuel] draws is usable. *)
Lemma unbiased_total fuel s :
  (exists i, (i < fuel)%nat ∧ (rng s (drawn s + i)%nat mod 4294967296 < threshold 36)%Z) ->
  exists b k, unbiased fuel s = (Ok (Some b), set_drawn k s) ∧ (drawn s < k)%nat.
Proof.
  induction fuel as [|fuel IH] in s |- *; intros (i & Hi & Hr); [lia|]. cbn [unbiased]. unfold next_u32. unfold_m.
  change (Z.of_nat (length nc_charset)) with 36%Z. destruct (Z.ltb_spec (rng s (drawn s) mod 4294967296) (threshold 36)) as [|Hge].
  - do 2 eexists. split; [reflexivity|lia].
  - destruct i as [|i]; [rewrite Nat.add_0_r in Hr; lia|].
    destruct (IH (set_drawn (S (drawn s)) s)) as (b & k & -> & Hk).
    + exists i. split; [lia|]. cbn [set_drawn rng drawn]. by rewrite Nat.add_succ_comm in *.
    + do 2 eexists. split; [reflexivity|]. cbn in Hk. lia.
Qed.
Lemma generator_ends fuel n s :
  (forall j, exists i, (i < fuel)%nat ∧ (rng s (j + i)%nat mod 4294967296 < threshold 36)%Z) ->
  exists cs k, unbiased_list fuel n s = (Ok (Some cs), set_drawn k s).
Proof.
  induction n as [|n IH] in s |- *; intros Hr; cbn [unbiased_list].
  - exists [], (drawn s). by destruct s.
  - unfold_m. destruct (unbiased_total fuel s (Hr (drawn s))) as (b & k & -> & _).
    destruct (IH (set_drawn k s)) as (cs & k' & ->); [exact Hr|]. eauto.
Qed.

(** ** How long a login lasts *)
(** Histories of a server: logins, evictions from the cache, and whatever else leaves the cache
    alone and does not turn the clock back: other requests, changes of users and rows, faults.
    [past] are the states in which the logins began, the last one first. *)
Inductive history : list (Store (Cache:=@Cache)) -> Store (Cache:=@Cache) -> Prop :=
| started s : auth_cache s = cnew -> history [] s
| went_on past s s' : history past s -> auth_cache s' = auth_cache s -> (clock s <= clock s')%Z -> history past s'
| evicted past s k : history past s -> history past (set_cache (cinvalidate (auth_cache s) k) s)
| logged_in past s name password : history past s -> 58%Z ∉ name ->
    history (s :: past) (verify_basic_auth name password s).2.

(** What an entry of the cache says: a login that began less than its life ago was proved. *)
Definition backed (past : list (Store (Cache:=@Cache))) s : Prop :=
  forall t name password r, (clock s <= t)%Z -> 58%Z ∉ name ->
    cget (auth_cache s) t (cache_key blake3 name password) = Some r ->
    exists s1, s1 ∈ past ∧ (clock s1 <= clock s)%Z ∧ (t < clock s1 + BASIC_AUTH_CACHE_TTL)%Z
      ∧ proves (clock s1) (users s1) (rows s1) name password r.
Context `{!Inj (=) (=) blake3}.
Lemma cache_key_inj n p n' p' : 58%Z ∉ n -> 58%Z ∉ n' -> cache_key blake3 n p = cache_key blake3 n' p' -> n = n' ∧ p = p'.
Proof.
  intros Hn Hn' E%(inj blake3). assert (S := split_once_app 58 n p Hn).
  change (lit ":") with [58%Z] in E. cbn [app] in E. change (n ++ [58%Z] ++ p = n' ++ [58%Z] ++ p') in E. cbn in E.
  rewrite E, split_once_app in S by done. by injection S as -> ->.
Qed.
Lemma backed_more past past' s s' : backed past s -> (forall x, x ∈ past -> x ∈ past') -> (clock s <= clock s')%Z ->
  (forall t k r, (clock s' <= t)%Z -> cget (auth_cache s') t k = Some r -> cget (auth_cache s) t k = Some r) -> backed past' s'.
Proof.
  intros B Hp Hc Hk t n p r Ht Hn E. destruct (B t n p r ltac:(lia) Hn (Hk _ _ _ Ht E)) as (s1 & H1 & H2 & H3 & H4).
  exists s1. split_and!; [by apply Hp|lia|done|done].
Qed.
Lemma uncached_keeps name password s : untouched s (verify_basic_auth_uncached name password s).2.
Proof.
  unfold verify_basic_auth_uncached, attempt, user_query, fail, panic. unfold_m.
  destruct (get_user_by_username _ name (users s)) as [u|e]; cbn [map_err]; [|done].
  destruct (negb (is_active u)); [done|]. rewrite lookup_form_run. destruct (form password) as [[text pfx]|]; [|done].
  unfold get_active_by_user_prefix, sql. destruct (next_fault (drop_fault s)); cbn [map_err fst snd]; [done|].
  destruct (try_candidates u text _ _) as [r s'] eqn:T. by destruct (try_candidates_untouched _ _ _ _ _ _ T) as [(? & ? & ?) _].
Qed.
Lemma login_backed past s name password : backed past s -> 58%Z ∉ name -> backed (s :: past) (verify_basic_auth name password s).2.
Proof.
  intros B Hname. unfold AppPasswords.verify_basic_auth. destruct (cget _ _ _) as [r0|].
  { cbn. eapply backed_more; [exact B|by right|done|done]. }
  assert (K := uncached_keeps name password s).
  destruct (verify_basic_auth_uncached name password s) as [[r|e] s'] eqn:V; cbn [snd] in K |- *; destruct K as (K1 & K2 & K3).
  - intros t n p r' Ht Hn E. cbn [set_cache auth_cache clock] in *.
    destruct (decide (cache_key blake3 n p = cache_key blake3 name password)) as [Ek|Ek].
    + rewrite Ek in E. apply cget_insert_eq in E as [-> E]. apply (cache_key_inj n p name password Hn Hname) in Ek as [-> ->].
      exists s. split_and!; [by left|lia|lia|]. by eapply uncached_Ok.
    + eapply cget_insert_ne in E; [|by intros E'; apply Ek]. rewrite K3 in E.
      destruct (B t n p r' ltac:(lia) Hn E) as (s1 & H1 & H2 & H3 & H4). exists s1. split_and!; [by right|lia|done|done].
  - eapply backed_more; [exact B|by right|lia|]. intros t k r. by rewrite K3.
Qed.
Lemma history_backed past s : history past s -> backed past s.
Proof.
  induction 1 as [s E|past s s' _ IH E Hc|past s k _ IH|past s name password _ IH Hn].
  - intros t n p r _ _. by rewrite E, cget_new.
  - eapply backed_more; [exact IH|done|done|]. intros t k r _. by rewrite E.
  - eapply backed_more; [exact IH|done|done|]. intros t k' r _. cbn. destruct (decide (k = k')) as [->|Hne].
    + by rewrite cget_invalidate_eq.
    + apply cget_invalidate_ne.
  - by apply login_backed.
Qed.

Lemma login_proved past s name password r s' :
  history past s -> 58%Z ∉ name -> verify_basic_auth name password s = (Ok r, s') ->
  exists s1, s1 ∈ s :: past ∧ (clock s1 <= clock s < clock s1 + BASIC_AUTH_CACHE_TTL)%Z
    ∧ proves (clock s1) (users s1) (rows s1) name password r.
Proof.
  intros Hh Hn. unfold AppPasswords.verify_basic_auth. destruct (cget _ _ _) as [r0|] eqn:E.
  - intros [= -> _]. destruct (history_backed _ _ Hh _ _ _ _ (Z.le_refl _) Hn E) as (s1 & H1 & H2 & H3 & H4).
    exists s1. split_and!; [by right|done|done|done].
  - destruct (verify_basic_auth_uncached name password s) as [[x|e] s2] eqn:V; [|done]. intros [= -> _].
    exists s. split_and!; [by left|done|unfold BASIC_AUTH_CACHE_TTL, SEC; lia|]. by eapply uncached_Ok.
Qed.

(** C36: a login that succeeds was proved at most five minutes ago.  Whatever happened to users,
    passwords and the cache, and however the database failed, HTTP Basic authentication answers
    with an identity only if, at this moment or at the start of an earlier login less than the
    life of a cache entry ago, the tables held an active user of that name with that identity
    and a live password of theirs with the prefix and the hash of the text that was sent. *)
Theorem basic_auth_is_recent past s name password r s' :
  history past s -> 58%Z ∉ name -> verify_basic_auth name password s = (Ok r, s') ->
  exists s1, s1 ∈ s :: past ∧ (clock s1 <= clock s < clock s1 + BASIC_AUTH_CACHE_TTL)%Z
    ∧ proves (clock s1) (users s1) (rows s1) name password r.
Proof. apply login_proved. Qed.

(** ** Where the code does less than it says *)
Lemma revoke_run user id s x s' : revoke user id s = (Ok x, s') ->
  auth_cache s' = auth_cache s ∧ exists ap, rows s !! id = Some ap ∧ ap_user ap = user ∧ rows s' = <[id := deactivated ap]> (rows s).
Proof.
  unfold revoke, get_by_id, repo_revoke, invalidate_user, sql, fail. unfold_m.
  destruct (next_fault s); cbn [map_err]; [done|]. cbn [drop_fault rows].
  destruct (rows s !! id) as [ap|] eqn:E; [|done]. destruct (of_user user ap) eqn:U; [|done].
  destruct (next_fault _); cbn [map_err]; [done|]. unfold sql_revoke. cbn [drop_fault rows]. rewrite E, U.
  cbn. intros [= <- <-]. split; [done|]. exists ap. split_and!; [done|by apply bool_decide_eq_true in U|].
  cbn. apply map_eq. intros j. destruct (decide (j = id)) as [->|Hj].
  - by rewrite lookup_alter_eq, lookup_insert_eq, E.
  - by rewrite lookup_alter_ne, lookup_insert_ne by done.
Qed.

(** A revoked password keeps working.  The cache of logins refuses to be invalidated by a
    predicate, and the error is ignored: a password that was used goes on logging in for five
    minutes after a revocation that reported success, for which the comments and the description
    of the endpoint promise an immediate end. *)
Theorem revoked_password_keeps_working name password s r s1 t1 id x s2 t :
  croom (auth_cache s) -> miss s (clock s) name password ->
  verify_basic_auth name password s = (Ok r, s1) ->
  revoke (ca_user r) id (set_clock t1 s1) = (Ok x, s2) ->
  (clock s <= t < clock s + BASIC_AUTH_CACHE_TTL)%Z ->
  (exists ap, rows s2 !! id = Some ap ∧ ap_active ap = false)
  ∧ verify_basic_auth name password (set_clock t s2) = (Ok r, set_clock t s2).
Proof.
  intros Hroom Hm V R Ht. apply revoke_run in R as (Ec & ap & _ & _ & Hr). split.
  { exists (deactivated ap). by rewrite Hr, lookup_insert_eq. }
  unfold AppPasswords.verify_basic_auth in V. unfold miss in Hm. rewrite Hm in V.
  assert (K := uncached_keeps name password s).
  destruct (verify_basic_auth_uncached name password s) as [[r'|e] s'] eqn:U; [|done]. injection V as -> <-.
  destruct K as (_ & K2 & K3). cbn [snd] in K2, K3. unfold AppPasswords.verify_basic_auth.
  cbn [set_clock auth_cache clock set_cache] in Ec |- *. rewrite Ec, K2, K3, croom_insert_eq by done. done.
Qed.

(** Which logins make a request panic.  Exactly those that are not in the cache, name an
    active user and send a text that does not begin like the server's own passwords and whose
    eighth byte, white space and dashes left out, lies inside a character: the prefix is cut by
    bytes. *)
Theorem basic_auth_panics name password s :
  (verify_basic_auth name password s).1 = Err Panicked <->
  miss s (clock s) name password
  ∧ (exists u, get_user_by_username (next_fault s) name (users s) = Ok u ∧ is_active u = true)
  ∧ starts_with TOKEN_PREFIX password = false
  ∧ (NC_PREFIX_LEN <= length (nc_normalize_password password))%nat
  ∧ is_char_boundary NC_PREFIX_LEN (nc_normalize_password password) = false.
Proof.
  assert (F : form password = Err Panicked <->
    starts_with TOKEN_PREFIX password = false ∧ (NC_PREFIX_LEN <= length (nc_normalize_password password))%nat
    ∧ is_char_boundary NC_PREFIX_LEN (nc_normalize_password password) = false).
  { unfold form. destruct (starts_with _ _); [naive_solver|]. destruct (Nat.ltb_spec (length (nc_normalize_password password)) NC_PREFIX_LEN).
    - split; [done|]. intros (_ & ? & _). lia.
    - unfold str_get_to. destruct (is_char_boundary _ _); naive_solver. }
  unfold AppPasswords.verify_basic_auth, miss. destruct (cget _ _ _) as [r0|]; [naive_solver|].
  transitivity ((verify_basic_auth_uncached name password s).1 = Err Panicked).
  { by destruct (verify_basic_auth_uncached name password s) as [[]]. }
  unfold verify_basic_auth_uncached, attempt, user_query, fail, panic. unfold_m.
  destruct (get_user_by_username _ name (users s)) as [u|e]; cbn [map_err].
  2: { split; [done|]. by intros (_ & (u0 & [=] & _) & _). }
  destruct (is_active u) eqn:A; cbn [negb].
  2: { split; [done|]. intros (_ & (u0 & [= <-] & Hu) & _). congruence. }
  rewrite lookup_form_run. destruct (form password) as [[text pfx]|st] eqn:Ef.
  - split; [|intros (_ & _ & ?%F); done]. unfold get_active_by_user_prefix, sql.
    destruct (next_fault (drop_fault s)); cbn [map_err fst snd]; [done|]. intros T. exfalso.
    destruct (try_candidates u text _ _) as [r s'] eqn:C. destruct (try_candidates_untouched _ _ _ _ _ _ C) as [_ Hne]. done.
  - cbn [fst]. split; [intros [= ->]; split_and!; [done|by eauto|by apply F..]|]. intros (_ & _ & P%F). by injection P as ->.
Qed.

(** Signing out of a Nextcloud client with a password of the server's own kind answers success
    and revokes nothing: the text is looked up in the form of the other kind. *)
Lemma pick_charset i : ascii_upper (pick charset i) ≠ 45%Z ∧ (33 <= pick charset i <= 126)%Z ∧ pick charset i ≠ 45%Z
  ∧ continuation (ascii_upper (pick charset i)) = false.
Proof.
  assert (A : forallb (fun b => bool_decide (ascii_upper b ≠ 45 ∧ (33 <= b <= 126) ∧ b ≠ 45 ∧ continuation (ascii_upper b) = false)%Z) charset = true)
    by (vm_compute; reflexivity).
  rewrite forallb_forall in A. unfold pick. destruct (charset !! Z.to_nat (i mod _)) as [b|] eqn:E.
  - by apply list_elem_of_lookup_2, list_elem_of_In, A, bool_decide_eq_true in E.
  - apply lookup_ge_None in E. change (Z.of_nat (length charset)) with 62%Z in E. change (length charset) with 62%nat in E.
    pose proof (Z.mod_pos_bound i 62). lia.
Qed.
Lemma normalize_token bytes : nc_normalize_password (token_of bytes) = lit "OXICLOUD" ++ (ascii_upper <$> (pick charset <$> bytes)).
Proof.
  unfold nc_normalize_password. rewrite remove_whitespace_plain.
  - unfold token_of. rewrite list.filter_app, fmap_app.
    change (ascii_upper <$> filter (fun b => b ≠ 45%Z) TOKEN_PREFIX) with (lit "OXICLOUD"). f_equal.
    induction bytes as [|b bytes IH]; [done|]. rewrite !fmap_cons, filter_cons_True by apply pick_charset. by rewrite fmap_cons, IH.
  - unfold token_of. apply list.Forall_app. split; [change TOKEN_PREFIX with [111; 120; 105; 99; 108; 111; 117; 100; 45]%Z; repeat (apply list.Forall_cons; split; [unfold nc_plain; lia|]); apply list.Forall_nil_2|].
    apply list.Forall_fmap, list.Forall_forall. intros b _. apply pick_charset.
Qed.
Theorem sign_out_keeps_password user bytes s :
  length bytes = TOKEN_LENGTH -> faults s = [] ->
  (forall id ap, rows s !! id = Some ap -> ap_prefix ap ≠ lit "OXICLOUD") ->
  revoke_by_password user (token_of bytes) s = (Ok tt, s).
Proof.
  intros L Hf Hp. unfold revoke_by_password, nc_token_prefix, attempt, fail, panic. rewrite normalize_token, length_app. unfold_m.
  change (length (lit "OXICLOUD")) with 8%nat. cbn [Nat.add Nat.ltb Nat.leb NC_PREFIX_LEN].
  unfold str_get_to. rewrite boundary_ascii.
  - change (take NC_PREFIX_LEN (lit "OXICLOUD" ++ ?x)) with (lit "OXICLOUD").
    unfold get_active_by_user_prefix, sql, next_fault. rewrite Hf. cbn [head default map_err].
    assert (rows_where (candidate (clock (drop_fault s)) user (lit "OXICLOUD")) (rows (drop_fault s)) = []) as ->.
    { apply elem_of_nil_inv. intros [id ap] [Hr Hc]%rows_where_in. cbn in Hr, Hc. unfold candidate in Hc.
      rewrite !andb_true_iff, !bool_decide_eq_true in Hc. destruct Hc as [[_ Hc] _]. by apply (Hp id ap). }
    cbn [revoke_first]. unfold mret, M_ret, drop_fault. f_equal. destruct s. cbn in Hf |- *. by rewrite Hf.
  - apply list.Forall_app. split; [by repeat constructor|]. rewrite <- list_fmap_compose. apply list.Forall_fmap, list.Forall_forall.
    intros b _. apply pick_charset.
  - unfold NC_PREFIX_LEN. rewrite length_app. change (length (lit "OXICLOUD")) with 8%nat. lia.
Qed.

(** The scopes of a password do not restrict it: a login succeeds with an identity whatever
    scopes the rows carry. *)
Definition rescoped (f : str -> str) (ap : AppPassword) : AppPassword :=
  mkAppPassword (ap_user ap) (ap_label ap) (ap_hash ap) (ap_prefix ap) (f (ap_scopes ap)) (ap_created_at ap)
    (ap_last_used_at ap) (ap_expires_at ap) (ap_active ap).
Theorem scopes_do_not_restrict f name password s r s' :
  faults s = [] -> unique_names (users s) -> verify_basic_auth name password s = (Ok r, s') ->
  exists s2, verify_basic_auth name password (set_rows (rescoped f <$> rows s) s) = (Ok r, s2).
Proof.
  intros Hf Hq. unfold AppPasswords.verify_basic_auth. cbn [set_rows auth_cache clock].
  destruct (cget _ _ _) as [r0|]; [intros [= -> _]; eauto|].
  destruct (verify_basic_auth_uncached name password s) as [[x|e] s1] eqn:V; [|done]. intros [= -> _].
  apply uncached_Ok in V as [_ (row & rl & id & ap & text & pfx & P1 & P2 & P3 & P4 & P5 & P6 & P7 & P8 & P9)].
  destruct (uncached_finds name password (set_rows (rescoped f <$> rows s) s) r Hf Hq) as [s2 ->]; [|eauto].
  exists row, rl, id, (rescoped f ap), text, pfx. cbn [set_rows clock users rows]. rewrite lookup_fmap, P6. done.
Qed.
End Claims.

(** ** A server with one user *)
Module Login.
#[local] Existing Instances decimal_uuid_text plain_argon.
Definition alice : UserRow := mkUserRow (Some (lit "alice")) (lit "alice@example.org") (lit "user") true false false.
Definition server : Store (Cache:=@TtlMap) :=
  mkStore ∅ {[ 7%N := alice ]} (cnew (Cache:=@TtlMap)) (1000 * SEC) 20 (fun i => Z.of_nat i * 37)%Z 0 [].
Definition request : CreateRequest := mkCreateRequest (lit " laptop ") (lit "webdav") (Some 30%Z).
Definition hash (x : str) : str := x.
#[local] Instance hash_inj : Inj (=) (=) hash.
Proof. by intros x y. Qed.
Definition any_time (_ : Z) : bool := true.
Definition made := create any_time dec (lit "https://cloud") 7 request server.
Definition reply : Created := match made.1 with Ok c => c | Err _ => mkCreated [] [] [] [] [] None [] [] [] [] end.
Definition login (t : Z) := verify_basic_auth hash (lit " Alice") (cr_password reply) (set_clock t made.2).
Lemma one_user : unique_names (users server).
Proof.
  intros i j x y Hi Hj _ _. cbn in Hi, Hj. apply lookup_singleton_Some in Hi as [<- _]. by apply lookup_singleton_Some in Hj as [<- _].
Qed.
Lemma made_ok : made = (Ok reply, made.2).
Proof. vm_compute. reflexivity. Qed.
Definition who : Cached := mkCached 7 (lit "alice") (lit "alice@example.org") (lit "user").
Lemma login_ok : login (2000 * SEC) = (Ok who, (login (2000 * SEC)).2).
Proof. vm_compute. reflexivity. Qed.

Lemma created_password_opens_witness : exists s2, login (2000 * SEC) = (Ok who, s2).
Proof.
  apply (created_password_opens hash any_time dec (lit "https://cloud") 7 request server reply made.2 alice RUser (lit "alice")
           (lit " Alice") (2000 * SEC)); try (vm_compute; reflexivity); exact one_user.
Defined.
Lemma basic_auth_is_recent_witness : exists s1, s1 ∈ [set_clock (2000 * SEC) made.2]
  ∧ (clock s1 <= 2000 * SEC < clock s1 + BASIC_AUTH_CACHE_TTL)%Z
  ∧ proves (clock s1) (users s1) (rows s1) (lit " Alice") (cr_password reply) who.
Proof.
  apply (basic_auth_is_recent hash [] (set_clock (2000 * SEC) made.2) _ _ _ (login (2000 * SEC)).2); [|vm_compute; intros Hin; repeat (apply elem_of_cons in Hin as [?|Hin]; [done|]); by apply not_elem_of_nil in Hin|exact login_ok].
  apply (went_on hash [] server); [by constructor|vm_compute; reflexivity|vm_compute; discriminate].
Defined.
Definition after := set_clock (2010 * SEC) (login (2000 * SEC)).2.
Lemma revoked_password_keeps_working_witness :
  verify_basic_auth hash (lit " Alice") (cr_password reply) (set_clock (2290 * SEC) (revoke 7 21 after).2)
    = (Ok who, set_clock (2290 * SEC) (revoke 7 21 after).2).
Proof.
  apply (revoked_password_keeps_working hash (lit " Alice") (cr_password reply) (set_clock (2000 * SEC) made.2) who
           (login (2000 * SEC)).2 (2010 * SEC) 21 (lit "21") _ (2290 * SEC));
    [done|vm_compute; reflexivity|exact login_ok|vm_compute; reflexivity|vm_compute; split; [discriminate|reflexivity]].
Defined.
(** A text that ends the task: seven letters, then a character of two bytes. *)
Example panics : (verify_basic_auth hash (lit "alice") (lit "abcdefg" ++ [195; 169]%Z) server).1 = Err Panicked.
Proof. vm_compute. reflexivity. Qed.
(** The scenario of the Nextcloud flavour, typed in lower case with blanks. *)
Definition phone := create_nc 1 7 (lit "phone") server.
Example typed_opens : match phone with
  | (Ok (Some (_, pw)), s) =>
      (verify_basic_auth hash (lit "ALICE") (join 32 (split 45 (to_ascii_lowercase pw))) s).1 = Ok who
  | _ => False
  end.
Proof. vm_compute. reflexivity. Qed.
End Login.
