(* ===== verification/RequestGates.v ===== *)
(** * The gates in front of the handlers

    The middleware a request passes before a handler sees it
    ([src/src/interfaces/middleware/auth.rs], [csrf.rs], [dpop.rs], [user.rs],
    [anonymous_allowlist.rs]) and the stacks [src/src/main.rs] builds of it.  A layer takes the
    request, what earlier layers attached to it, and the rest of the stack; it may answer itself
    or pass the request on and look at the answer.  Instants are nanoseconds and stand still while
    a request is in the gates. *)

From S2P Require Import Prelude.
From S2P Require Import RustStr.
From S2P Require Import DomainErrors.
From S2P Require Import HttpErrors.
From S2P Require Import Authorization.
From S2P Require Import Moka.
From S2P Require Import ClientAddr.
From S2P Require Import AuthStores.
From S2P Require Import Principals.
From S2P Require Import SessionTokens.
From S2P Require Import ShareCookies.
From S2P Require Import DpopProof.
From S2P Require Import AppPasswords.

#[local] Arguments lit : simpl never.

(** ** Requests and answers *)
Record Request := mkRequest {
  method : str;
  (** what the router in charge sees, the prefixes of the nests it is in taken off *)
  path : str;
  original_path : str;
  (** the pattern of the route, once there is one *)
  matched_path : option str;
  headers : HeaderMap;
}.
(** What the layers attach to a request. *)
Record Exts := mkExts { current_user : option CurrentUser; share_ring : option Ring; cookie_authenticated : bool }.
Definition no_exts : Exts := mkExts None None false.
Inductive Body := BText (s : str) | BJson (error : str) | BError (e : AppError).
Record Response := mkResponse { status : StatusCode; response_headers : HeaderMap; body : Body }.
Definition respond (e : AppError) : Response := mkResponse (status_code e) [] (BError e).
Definition insert_header (name v : str) (r : Response) : Response :=
  mkResponse (status r) ((name, v) :: filter (fun h : str * str => h.1 ≠ name) (response_headers r)) (body r).

Inductive AuthError :=
| TokenNotProvided | InvalidToken (msg : str) | TokenExpired | UserNotFound | AccountInactive
| AuthAccessDenied (msg : str) | AuthServiceUnavailable.
(** [impl IntoResponse for AuthError] *)
Definition auth_error_response (e : AuthError) : Response :=
  respond match e with
  | TokenNotProvided => AppError.unauthorized (lit "Token not provided")
  | InvalidToken msg => AppError.unauthorized msg
  | TokenExpired => AppError.unauthorized (lit "Token expired")
  | UserNotFound => AppError.unauthorized (lit "User not found")
  | AccountInactive => AppError.unauthorized (lit "Account is no longer active")
  | AuthAccessDenied msg => AppError.forbidden msg
  | AuthServiceUnavailable => AppError.internal_error (lit "Authentication service unavailable")
  end.

(** ** Extractors *)
Definition require_role (cu : CurrentUser) (min : UserRole) : result AuthError unit :=
  if UserRole.at_least (role_enum cu) min then Ok tt
  else Err (AuthAccessDenied (lit "This endpoint requires role `" ++ UserRole.as_str min ++ lit "`")).
Definition auth_user (x : Exts) : result AuthError CurrentUser :=
  match current_user x with
  | None => Err UserNotFound
  | Some cu => match require_role cu RUser with Ok _ => Ok cu | Err e => Err e end
  end.
Definition current_user_id (x : Exts) : result AuthError Uuid :=
  match auth_user x with Ok cu => Ok (c_id cu) | Err e => Err e end.
Definition auth_user_from_extensions (x : Exts) : result AppError CurrentUser :=
  match current_user x with
  | None => Err (AppError.unauthorized (lit "Authentication required"))
  | Some cu => match require_role cu RUser with
               | Ok _ => Ok cu
               | Err _ => Err (AppError.forbidden (lit "This surface requires a user account"))
               end
  end.
Definition caller_subjects_of (x : Exts) : result AuthError (list Subject) :=
  match current_user x with
  | None => Err UserNotFound
  | Some cu => ok_or (caller_subjects (is_anonymous cu) (c_id cu) (share_ring x)) (AuthAccessDenied (lit "No usable credential"))
  end.

Inductive DpopMode := DpopOff | DpopOpportunistic | DpopRequired.
#[global] Instance DpopMode_eq_dec : EqDecision DpopMode. Proof. solve_decision. Defined.
Inductive LiveRole := LiveActive (role : str) | LiveRevoked.

Definition ANONYMOUS_ALLOWLIST : list str :=
  [lit "/api/folders/{id}"; lit "/api/folders/{id}/resources"; lit "/api/folders/{id}/ancestors";
   lit "/api/folders/{id}/download"; lit "/api/files/{id}"; lit "/api/files/{id}/thumbnail/{size}";
   lit "/api/files/{id}/metadata"].
Definition anonymous_may_reach (matched : option str) (m : str) : bool :=
  if bool_decide (m = lit "GET") then match matched with Some p => bool_decide (p ∈ ANONYMOUS_ALLOWLIST) | None => false end
  else false.
Definition SAFE_METHODS : list str := [lit "GET"; lit "HEAD"; lit "OPTIONS"].
Definition is_dav_path (p : str) : bool :=
  starts_with (lit "/webdav") p || starts_with (lit "/caldav") p || starts_with (lit "/carddav") p.
Definition dav_basic_auth_challenge (message : str) : Response :=
  mkResponse StatusCode.UNAUTHORIZED
    [(lit "www-authenticate", lit "Basic realm=" ++ quote ++ lit "OxiCloud" ++ quote); (lit "content-type", lit "text/plain; charset=utf-8")]
    (BText message).
Definition is_password_change_pending_allowlisted (m p : str) : bool :=
  bool_decide (m = lit "GET" ∧ p = lit "/api/auth/me") || bool_decide (m = lit "PUT" ∧ p = lit "/api/auth/change-password")
  || bool_decide (m = lit "POST" ∧ p = lit "/api/auth/logout").
Definition USER_FLAGS_CACHE_TTL : Z := 30 * AppPasswords.SEC.

(** [external_scheme_host] *)
Definition first_entry (s : str) : str := trim (default s (head (split 44 s))).
Definition external_scheme_host (h : HeaderMap) : str * str :=
  (match header_text (lit "x-forwarded-proto") h with Some s => first_entry s | None => lit "http" end,
   match (match header_get (lit "x-forwarded-host") h with Some v => Some v | None => header_get (lit "host") h end) ≫= to_str with
   | Some s => first_entry s | None => lit "localhost" end).

Section Gates.
Context {Cache : forall (K : Type) {E : EqDecision K} {C : @Countable K E}, Type -> Type}.
#[local] Arguments Cache _ {_ _} _.
Context `{!Moka (@Cache)} `{UuidText} `{Argon} `{Signer} `{Jwt} `{DpopCrypto}.
(** The crates [blake3] and [base64] (the standard alphabet). *)
Context (blake3 : str -> str) (b64_standard_decode : str -> option (list byte)).
Record GateConfig := mkGateConfig {
  jwt_secret : str;
  dpop_mode : DpopMode;
  (** which optional services the server has *)
  auth_service : bool;
  app_password_service : bool;
  last_seen_tracker : bool;
}.
Context (cfg : GateConfig).

(** The stores the gates consult; users, clock and faults are those of the password store. *)
Record Gate := mkGate {
  passwords : AppPasswords.Store (Cache:=@Cache);
  user_flags_cache : Cache Uuid UserFlags;
  validations : gmap str (TokenClaims * Z);
  nonces : DpopNonceService (Cache:=@Cache);
  replays : DpopReplay.DpopReplayCache (Cache:=@Cache);
  last_seen : gmap Uuid Z;
  (** what the generator of nonces yields *)
  nonce_source : nat -> str;
  nonces_drawn : nat;
}.
Definition now (g : Gate) : Z := clock (passwords g).
Definition set_passwords (p : AppPasswords.Store) (g : Gate) : Gate :=
  mkGate p (user_flags_cache g) (validations g) (nonces g) (replays g) (last_seen g) (nonce_source g) (nonces_drawn g).
Definition set_flags_cache (c : Cache Uuid UserFlags) (g : Gate) : Gate :=
  mkGate (passwords g) c (validations g) (nonces g) (replays g) (last_seen g) (nonce_source g) (nonces_drawn g).
Definition set_validations (c : gmap str (TokenClaims * Z)) (g : Gate) : Gate :=
  mkGate (passwords g) (user_flags_cache g) c (nonces g) (replays g) (last_seen g) (nonce_source g) (nonces_drawn g).
Definition set_nonces (n : DpopNonceService) (g : Gate) : Gate :=
  mkGate (passwords g) (user_flags_cache g) (validations g) n (replays g) (last_seen g) (nonce_source g) (S (nonces_drawn g)).
Definition set_replays (r : DpopReplay.DpopReplayCache) (g : Gate) : Gate :=
  mkGate (passwords g) (user_flags_cache g) (validations g) (nonces g) r (last_seen g) (nonce_source g) (nonces_drawn g).
Definition set_last_seen (m : gmap Uuid Z) (g : Gate) : Gate :=
  mkGate (passwords g) (user_flags_cache g) (validations g) (nonces g) (replays g) m (nonce_source g) (nonces_drawn g).

Inductive Panic := panicked.
Abbreviation G := (M Gate Panic).
Definition Next : Type := Exts -> G Response.
Definition Layer : Type := Request -> Exts -> Next -> G Response.

(** ** Users *)
(** [get_user_flags] of the application service: [try_get_with] over the repository *)
Definition get_user_flags (id : Uuid) : G (result DomainError UserFlags) := fun g =>
  match cget (user_flags_cache g) (now g) id with
  | Some f => (Ok (Ok f), g)
  | None =>
      let s := passwords g in
      let g' := set_passwords (AppPasswords.drop_fault s) g in
      match repo_get_user_flags (next_fault s) id (users s) with
      | Ok f => (Ok (Ok f), set_flags_cache (cinsert (user_flags_cache g) (now g) USER_FLAGS_CACHE_TTL id f) g')
      | Err e => (Ok (Err e), g')
      end
  end.
Definition anonymous_live_role (claim_role : str) : option LiveRole :=
  match UserRole.from_session claim_role with
  | Some r => if UserRole.is_anonymous r then Some (LiveActive (UserRole.as_str r)) else None
  | None => None
  end.
Definition decide_live_role (flags : result DomainError UserFlags) (claim_role : str) : LiveRole :=
  match flags with
  | Ok f => if f_active f then LiveActive (UserRole.as_str (f_role f)) else LiveRevoked
  | Err e => match kind e with NotFound => LiveRevoked | _ => LiveActive claim_role end
  end.
Definition resolve_live_role (user_id : Uuid) (claim_role : str) : G LiveRole :=
  match anonymous_live_role claim_role with
  | Some live => mret live
  | None => flags ← get_user_flags user_id; mret (decide_live_role flags claim_role)
  end.
Definition decide_internal_user (flags : result DomainError UserFlags) : option AppError :=
  match flags with
  | Ok f => if f_is_external f
            then Some (AppError.new StatusCode.FORBIDDEN (lit "External users cannot access this endpoint") (lit "Forbidden"))
            else None
  | Err e => match kind e with
             | NotFound => Some (AppError.new StatusCode.FORBIDDEN (lit "This endpoint requires a user account") (lit "Forbidden"))
             | _ => None
             end
  end.

(** ** Authentication *)
Definition refuse (e : AuthError) : G Response := mret (auth_error_response e).
(** [share_ring::verify]; that module counts in microseconds *)
Definition ring_of (req : Request) (t : Z) : option Ring :=
  cookie ← header_text (lit "cookie") (headers req);
  jwt ← ring_from_cookie_header cookie;
  ShareCookies.verify (jwt_secret cfg) (t / 1000) jwt.
Definition validate (tok : str) : G (result DomainError TokenClaims) := fun g =>
  let (r, c) := validate_token blake3 (now g) (now g) (now g) tok (validations g) in (Ok r, set_validations c g).
Definition stamp (sid : option Uuid) : G unit := fun g =>
  match sid with
  | Some sid => if last_seen_tracker cfg then (Ok tt, set_last_seen (<[sid := now g]> (last_seen g)) g) else (Ok tt, g)
  | None => (Ok tt, g)
  end.
Definition token_user (claims : TokenClaims) (role : str) : CurrentUser :=
  mkCurrent (t_sub_id claims) (t_username claims) (t_email claims) role (t_jkt claims).
Definition nil_user : AuthError := InvalidToken (lit "Invalid user ID in token").
Definition bearer_arm (token : str) (x : Exts) (next : Next) : G Response :=
  r ← validate token;
  match r with
  | Err e => refuse (InvalidToken (lit "Invalid token: " ++ DomainError.to_string e))
  | Ok claims =>
      if decide (t_sub_id claims = 0%N) then refuse nil_user
      else
        live ← resolve_live_role (t_sub_id claims) (t_role claims);
        match live with
        | LiveRevoked => refuse AccountInactive
        | LiveActive role =>
            _ ← stamp (t_sid claims);
            next (mkExts (Some (token_user claims role)) (share_ring x) (cookie_authenticated x))
        end
  end.
Definition bad_encoding : AuthError := InvalidToken (lit "Invalid Basic auth encoding").
Definition basic_user (r : Cached) : CurrentUser := mkCurrent (ca_user r) (ca_username r) (ca_email r) (ca_role r) None.
Definition verify_app_password (name password : str) : G (result unit Cached) := fun g =>
  match AppPasswords.verify_basic_auth blake3 name password (passwords g) with
  | (Ok r, s) => (Ok (Ok r), set_passwords s g)
  | (Err (Failed _), s) => (Ok (Err tt), set_passwords s g)
  | (Err Panicked, s) => (Err panicked, set_passwords s g)
  end.
Definition basic_arm (req : Request) (encoded : str) (x : Exts) (next : Next) : G Response :=
  match (b64_standard_decode encoded ≫= from_utf8) with
  | None => refuse bad_encoding
  | Some credentials =>
      match split_once 58 credentials with
      | None => refuse (InvalidToken (lit "Invalid Basic auth format"))
      | Some (name, password) =>
          if app_password_service cfg then
            r ← verify_app_password name password;
            match r with
            | Ok found => next (mkExts (Some (basic_user found)) (share_ring x) (cookie_authenticated x))
            | Err _ =>
                if is_dav_path (path req) then mret (dav_basic_auth_challenge (lit "Invalid username or app password"))
                else refuse (InvalidToken (lit "Invalid username or app password"))
            end
          else refuse (InvalidToken (lit "App passwords are not enabled"))
      end
  end.
Definition visitor (r : Ring) : CurrentUser := mkCurrent (visitor_id r) [] [] (UserRole.as_str RAnonymous) None.
(** What is left when no user credential was accepted. *)
Definition ring_arm (req : Request) (x : Exts) (next : Next) : G Response :=
  if negb (auth_service cfg) then refuse AuthServiceUnavailable
  else if is_dav_path (path req) then mret (dav_basic_auth_challenge (lit "Authentication required"))
  else match share_ring x with
       | Some r => next (mkExts (Some (visitor r)) (share_ring x) (cookie_authenticated x))
       | None => refuse TokenNotProvided
       end.
Definition cookie_arm (req : Request) (x : Exts) (next : Next) : G Response :=
  match extract_cookie_str (headers req) ACCESS_COOKIE ≫= (fun t => match t with [] => None | _ => Some t end) with
  | None => ring_arm req x next
  | Some token =>
      if auth_service cfg then
        r ← validate token;
        match r with
        | Err _ => ring_arm req x next
        | Ok claims =>
            if decide (t_sub_id claims = 0%N) then refuse nil_user
            else
              live ← resolve_live_role (t_sub_id claims) (t_role claims);
              match live with
              | LiveRevoked => ring_arm req x next
              | LiveActive role =>
                  _ ← stamp (t_sid claims);
                  next (mkExts (Some (token_user claims role)) (share_ring x) true)
              end
        end
      else ring_arm req x next
  end.
Definition after_prefix (p : str) (h : option str) : option str :=
  v ← h; t ← strip_prefix p v; match trim t with [] => None | t => Some t end.
Definition auth_middleware : Layer := fun req x next g =>
  let x := mkExts (current_user x) (match ring_of req (now g) with Some r => Some r | None => share_ring x end) (cookie_authenticated x) in
  let auth_header := header_text (lit "authorization") (headers req) in
  match (if auth_service cfg then after_prefix (lit "Bearer ") auth_header else None) with
  | Some token => bearer_arm token x next g
  | None =>
      match after_prefix (lit "Basic ") auth_header with
      | Some encoded => basic_arm req encoded x next g
      | None => cookie_arm req x next g
      end
  end.

(** ** The other layers *)
Definition csrf_middleware : Layer := fun req x next =>
  if bool_decide (method req ∈ SAFE_METHODS) then next x
  else if negb (cookie_authenticated x) then next x
  else
    match extract_cookie_str (headers req) CSRF_COOKIE, header_text CSRF_HEADER (headers req) with
    | Some c, Some h =>
        if bool_decide (c ≠ []) && bool_decide (c = h) then next x
        else mret (mkResponse StatusCode.FORBIDDEN [] (BJson (lit "CSRF token missing or invalid")))
    | _, _ => mret (mkResponse StatusCode.FORBIDDEN [] (BJson (lit "CSRF token missing or invalid")))
    end.
Definition anonymous_allowlist_layer : Layer := fun req x next =>
  match current_user x with
  | None => next x
  | Some cu =>
      if negb (is_anonymous cu) then next x
      else if anonymous_may_reach (matched_path req) (method req) then next x
      else mret (mkResponse StatusCode.FORBIDDEN [] (BJson (lit "This endpoint is not available to public share visitors")))
  end.
Definition require_admin : Layer := fun req x next =>
  match current_user x with
  | Some cu => if UserRole.at_least (role_enum cu) RAdmin then next x else refuse (AuthAccessDenied (lit "Admin role required"))
  | None => refuse TokenNotProvided
  end.
Definition require_internal_user_layer : Layer := fun req x next =>
  match current_user x with
  | Some cu =>
      if auth_service cfg then
        flags ← get_user_flags (c_id cu);
        match decide_internal_user flags with Some err => mret (respond err) | None => next x end
      else next x
  | None => next x
  end.
Definition password_change_required : AppError :=
  AppError.new StatusCode.FORBIDDEN (lit "Password change required before accessing this endpoint") (lit "PasswordChangeRequired").
Definition require_no_password_change_pending_layer : Layer := fun req x next =>
  if is_password_change_pending_allowlisted (method req) (original_path req) then next x
  else match current_user x with
       | Some cu =>
           if is_anonymous cu then next x
           else if auth_service cfg then
             flags ← get_user_flags (c_id cu);
             if match flags with Ok f => f_force_password_change f | Err _ => false end
             then mret (respond password_change_required) else next x
           else next x
       | None => next x
       end.

(** ** Proof of possession *)
Definition fresh_nonce : G str := fun g =>
  let (n, svc) := current_or_rotate (now g) (nonce_source g (nonces_drawn g)) (nonces g) in (Ok n, set_nonces svc g).
(** [HeaderValue::from_str] *)
Definition stamp_current_nonce (r : Response) : G Response :=
  n ← fresh_nonce;
  mret (if forallb visible_ascii n then insert_header (lit "dpop-nonce") n r else r).
Definition dpop_refusal (message challenge : str) : G Response :=
  stamp_current_nonce
    (insert_header (lit "www-authenticate") (lit "DPoP error=" ++ quote ++ challenge ++ quote)
      (respond (AppError.new StatusCode.UNAUTHORIZED message (lit "DpopVerificationFailed")))).
Definition nonce_challenge_response : G Response := dpop_refusal (lit "DPoP nonce required") (lit "use_dpop_nonce").
Definition dpop_verification_failed_response : G Response :=
  dpop_refusal (lit "DPoP proof verification failed") (lit "invalid_dpop_proof").
Definition proof_context (req : Request) (cu : CurrentUser) (t : Z) : DpopRequestContext :=
  let (scheme, host) := external_scheme_host (headers req) in
  mkContext (method req) (scheme ++ lit "://" ++ host ++ original_path req) (timestamp t) (c_dpop_jkt cu).
Definition check_replay (nonce jti : str) : G bool := fun g =>
  let (fresh, c) := DpopReplay.check_and_record (now g) nonce jti (replays g) in (Ok fresh, set_replays c g).
Definition then_stamp (next : G Response) : G Response := r ← next; stamp_current_nonce r.
Definition with_proof (req : Request) (proof : str) (cu : CurrentUser) (x : Exts) (next : Next) : G Response := fun g =>
  match DpopProof.verify proof (proof_context req cu (now g)) with
  | Err _ => dpop_verification_failed_response g
  | Ok verified =>
      match v_nonce verified with
      | None => nonce_challenge_response g
      | Some n =>
          if is_valid (now g) n (nonces g) then
            (fresh ← check_replay n (v_jti verified);
             if (fresh : bool) then then_stamp (next x) else dpop_verification_failed_response) g
          else nonce_challenge_response g
      end
  end.
Definition require_dpop_layer : Layer := fun req x next =>
  match dpop_mode cfg, current_user x with
  | DpopOff, _ | _, None => next x
  | mode, Some cu =>
      match header_text (lit "dpop") (headers req) with
      | Some proof => with_proof req proof cu x next
      | None =>
          match mode, c_dpop_jkt cu with
          | DpopRequired, Some _ => nonce_challenge_response
          | _, _ => then_stamp (next x)
          end
      end
  end.

(** ** The stacks of [main.rs] *)
(** [a.layer(b)]: [b] runs first *)
Definition over (outer inner : Layer) : Layer := fun req x next => outer req x (fun x' => inner req x' next).
(** [route_layer]: only for requests that match a route *)
Definition route_layer (l : Layer) : Layer := fun req x next => match matched_path req with Some _ => l req x next | None => next x end.
Definition protected : Layer :=
  over auth_middleware (over csrf_middleware (over require_dpop_layer require_no_password_change_pending_layer)).
Definition protected_api : Layer := over protected (route_layer anonymous_allowlist_layer).
Definition dav_protected : Layer :=
  over auth_middleware (over require_internal_user_layer (over require_dpop_layer require_no_password_change_pending_layer)).
Definition admin_api : Layer := over protected_api require_admin.
End Gates.
