(* ===== verification/GateClaims.v ===== *)
(** * What passes the gates

    A layer either answers itself, whatever lies behind it, or passes the request on; stacked
    layers pass a request on exactly when each of them does.  From one lemma per layer follow the
    conditions under which a handler of the API and of the DAV surfaces sees a request.  A concrete server at
    the end gives these theorems their instances. *)

From S2P Require Import Prelude.
From S2P Require Import RustStr.
From S2P Require Import DomainErrors.
From S2P Require Import Authorization.
From S2P Require Import DrivePolicies.
From S2P Require Import Moka.
From S2P Require Import HttpErrors.
From S2P Require Import AuthStores.
From S2P Require Import SessionTokens.
From S2P Require Import Principals.
From S2P Require Import ShareCookies.
From S2P Require Import DpopProof.
From S2P Require Import ClientAddr.
From S2P Require Import AppPasswords.
From S2P Require Import AppPasswordClaims.
From S2P Require Import RequestGates.

#[local] Arguments lit : simpl never.

Section Layers.
Context {Cache : forall (K : Type) {E : EqDecision K} {C : @Countable K E}, Type -> Type}.
#[local] Arguments Cache _ {_ _} _.
Context `{!Moka (@Cache)} `{UuidText} `{Argon} `{Signer} `{Jwt} `{DpopCrypto}.
Context (blake3 : str -> str) (b64_standard_decode : str -> option (list byte)) (cfg : GateConfig).
#[local] Abbreviation Gate := (Gate (Cache:=@Cache)).
#[local] Abbreviation Layer := (Layer (Cache:=@Cache)).
#[local] Abbreviation Next := (Next (Cache:=@Cache)).
#[local] Abbreviation G := (M Gate Panic).
Implicit Types (l : Layer) (req : Request) (x : Exts) (g : Gate) (next : Next).

(** ** Passing and answering *)
(** What happens to the answer on its way out leaves its status alone. *)
Definition keeps_status (k : Response -> G Response) : Prop :=
  forall r g, exists r' g', k r g = (Ok r', g') ∧ status r' = status r.
Definition refusal (o : result Panic Response) : Prop := match o with Ok r => (400 <= status r)%Z | Err _ => True end.
Definition blocked l req x g : Prop := exists o g', (forall next, l req x next g = (o, g')) ∧ refusal o.
Definition through l req x g x' g1 : Prop := exists k, keeps_status k ∧ forall next, l req x next g = (next x' ≫= k) g1.
Definition gate_at l req x g (Q : Exts -> Gate -> Prop) : Prop :=
  blocked l req x g ∨ exists x' g1, through l req x g x' g1 ∧ Q x' g1.
Definition gate_spec l (P : Request -> Exts -> Gate -> Exts -> Gate -> Prop) : Prop :=
  forall req x g, gate_at l req x g (P req x g).

Lemma ret_keeps : keeps_status mret.
Proof. intros r g. by exists r, g. Qed.
Lemma bind_ret (m : G Response) g : (m ≫= mret) g = m g.
Proof. unfold mbind, M_bind. by destruct (m g) as [[]]. Qed.
Lemma plain_through l req x g x' g1 : (forall next, l req x next g = next x' g1) -> through l req x g x' g1.
Proof. intros E. exists mret. split; [apply ret_keeps|]. intros next. by rewrite bind_ret. Qed.
Lemma answered l req x g r g' : (forall next, l req x next g = (Ok r, g')) -> (400 <= status r)%Z -> blocked l req x g.
Proof. intros E S. by exists (Ok r), g'. Qed.

Lemma over_at l1 l2 req x g Q1 P2 : gate_at l1 req x g Q1 -> gate_spec l2 P2 ->
  gate_at (over l1 l2) req x g (fun x' g' => exists x1 g1, Q1 x1 g1 ∧ P2 req x1 g1 x' g').
Proof.
  intros S1 S2. destruct S1 as [(o & g' & E & R)|(x1 & g1 & (k & Hk & E) & HP)].
  - left. exists o, g'. split; [|done]. intros next. apply E.
  - destruct (S2 req x1 g1) as [(o & g' & E2 & R)|(x2 & g2 & (k2 & Hk2 & E2) & HP2)].
    + left. destruct o as [r|p].
      * destruct (Hk r g') as (r' & g'' & Ek & Es). exists (Ok r'), g''. split; [|cbn in R |- *; by rewrite Es].
        intros next. unfold over. rewrite E. unfold mbind, M_bind. by rewrite E2.
      * exists (Err p), g'. split; [|done]. intros next. unfold over. rewrite E. unfold mbind, M_bind. by rewrite E2.
    + right. exists x2, g2. split; [|by eauto]. exists (fun r => k2 r ≫= k). split.
      * intros r g0. destruct (Hk2 r g0) as (r1 & g3 & Er & Es). destruct (Hk r1 g3) as (r2 & g4 & Er2 & Es2).
        exists r2, g4. split; [|congruence]. unfold mbind, M_bind. by rewrite Er.
      * intros next. unfold over. rewrite E. unfold mbind, M_bind. rewrite E2. unfold mbind, M_bind.
        by destruct (next x2 g2) as [[]].
Qed.
Lemma over_spec l1 l2 P1 P2 : gate_spec l1 P1 -> gate_spec l2 P2 ->
  gate_spec (over l1 l2) (fun req x g x' g' => exists x1 g1, P1 req x g x1 g1 ∧ P2 req x1 g1 x' g').
Proof. intros S1 S2 req x g. by apply over_at. Qed.
Lemma gate_at_weaken l req x g (Q Q' : Exts -> Gate -> Prop) :
  gate_at l req x g Q -> (forall x' g', Q x' g' -> Q' x' g') -> gate_at l req x g Q'.
Proof. intros [B|(x' & g1 & T & HQ)] Hw; [by left|right; eauto]. Qed.

(** ** The layers behind authentication *)
Definition csrf_ok req x : Prop :=
  method req ∈ SAFE_METHODS ∨ cookie_authenticated x = false
  ∨ exists c, c ≠ [] ∧ extract_cookie_str (headers req) CSRF_COOKIE = Some c ∧ header_text CSRF_HEADER (headers req) = Some c.
Lemma csrf_spec : gate_spec csrf_middleware (fun req x g x' g' => x' = x ∧ g' = g ∧ csrf_ok req x).
Proof.
  intros req x g. unfold csrf_ok.
  destruct (bool_decide (method req ∈ SAFE_METHODS)) eqn:S.
  { right. exists x, g. split; [|apply bool_decide_eq_true in S; auto]. apply plain_through. intros next. unfold csrf_middleware. by rewrite S. }
  destruct (cookie_authenticated x) eqn:C.
  2: { right. exists x, g. split; [|auto]. apply plain_through. intros next. unfold csrf_middleware. by rewrite S, C. }
  destruct (extract_cookie_str (headers req) CSRF_COOKIE) as [c|] eqn:E1.
  2: { left. eapply answered; [|shelve]. intros next. unfold csrf_middleware. rewrite S, C, E1. reflexivity. Unshelve. done. }
  destruct (header_text CSRF_HEADER (headers req)) as [h|] eqn:E2.
  2: { left. eapply answered; [|shelve]. intros next. unfold csrf_middleware. rewrite S, C, E1, E2. reflexivity. Unshelve. done. }
  destruct (bool_decide (c ≠ []) && bool_decide (c = h)) eqn:E3.
  - right. exists x, g. split.
    + apply plain_through. intros next. unfold csrf_middleware. by rewrite S, C, E1, E2, E3.
    + apply andb_prop in E3 as [N Q]. apply bool_decide_eq_true in N, Q. subst h. eauto 10.
  - left. eapply answered; [|shelve]. intros next. unfold csrf_middleware. rewrite S, C, E1, E2, E3. reflexivity. Unshelve. done.
Qed.
Definition allowlist_ok req x : Prop :=
  forall cu p, current_user x = Some cu -> is_anonymous cu = true -> matched_path req = Some p ->
    method req = lit "GET" ∧ p ∈ ANONYMOUS_ALLOWLIST.
Lemma allowlist_spec : gate_spec (route_layer anonymous_allowlist_layer) (fun req x g x' g' => x' = x ∧ g' = g ∧ allowlist_ok req x).
Proof.
  intros req x g. unfold allowlist_ok, route_layer, anonymous_allowlist_layer, anonymous_may_reach.
  destruct (matched_path req) as [p|] eqn:Mp.
  2: { right. exists x, g. split; [by apply plain_through; intros; cbv beta; rewrite Mp|done]. }
  destruct (current_user x) as [cu|] eqn:U.
  2: { right. exists x, g. split; [by apply plain_through; intros; cbv beta; rewrite Mp, U|done]. }
  destruct (is_anonymous cu) eqn:An; cbn [negb].
  2: { right. exists x, g. split; [apply plain_through; intros; cbv beta; by rewrite Mp, U, An|]. split_and!; [done..|].
       intros cu' p' [= <-]. congruence. }
  destruct (bool_decide (method req = lit "GET")) eqn:B; [destruct (bool_decide (p ∈ ANONYMOUS_ALLOWLIST)) eqn:B2|].
  - right. exists x, g. split; [apply plain_through; intros; cbv beta; by rewrite Mp, U, An, B, B2|]. split_and!; [done..|].
    intros cu' p' _ _ [= <-]. by apply bool_decide_eq_true in B, B2.
  - left. eapply answered; [intros next; rewrite Mp, U, An, B, B2; reflexivity|done].
  - left. eapply answered; [intros next; rewrite Mp, U, An, B; reflexivity|done].
Qed.
Lemma admin_spec : gate_spec require_admin
  (fun req x g x' g' => x' = x ∧ g' = g ∧ exists cu, current_user x = Some cu ∧ UserRole.at_least (role_enum cu) RAdmin = true).
Proof.
  intros req x g. unfold require_admin. destruct (current_user x) as [cu|] eqn:U.
  2: { left. eapply answered; [intros next; rewrite U; reflexivity|done]. }
  destruct (UserRole.at_least (role_enum cu) RAdmin) eqn:R.
  - right. exists x, g. split; [apply plain_through; intros; by rewrite U, R|eauto].
  - left. eapply answered; [intros next; rewrite U, R; reflexivity|done].
Qed.

(** ** Users *)
Lemma get_user_flags_total id g : exists r g', get_user_flags id g = (Ok r, g').
Proof.
  unfold get_user_flags. destruct (cget _ _ _) as [f|]; [eauto|]. destruct (repo_get_user_flags _ _ _); eauto.
Qed.
(** What the server believes of a user: the cached flags, or those of the table. *)
Definition flags_of g (id : Uuid) (r : result DomainError UserFlags) : Prop := exists g', get_user_flags id g = (Ok r, g').
(** What the server may believe of a user: what its cache says, or the row. *)
Definition believed g (id : Uuid) (f : UserFlags) : Prop :=
  cget (user_flags_cache g) (now g) id = Some f
  ∨ exists row, users (passwords g) !! id = Some row ∧ row_flags row = Ok f.
(** Nothing but caches of what is there changed. *)
Definition same_users g g' : Prop :=
  now g' = now g ∧ users (passwords g') = users (passwords g)
  ∧ forall id f, cget (user_flags_cache g') (now g) id = Some f -> believed g id f.
Lemma same_users_refl g : same_users g g.
Proof. split_and!; [done..|]. by left. Qed.
Lemma same_users_trans g1 g2 g3 : same_users g1 g2 -> same_users g2 g3 -> same_users g1 g3.
Proof.
  intros (T1 & U1 & C1) (T2 & U2 & C2). split_and!; [congruence..|]. intros id f E. rewrite <- T1 in E.
  destruct (C2 _ _ E) as [E2|(row & E2 & R)]; [apply C1; by rewrite <- T1|]. right. exists row. by rewrite <- U1.
Qed.
Definition same_proofs g g' : Prop := nonces g' = nonces g ∧ replays g' = replays g.
Lemma row_flags_of fault id us f : repo_get_user_flags fault id us = Ok f -> exists row, us !! id = Some row ∧ row_flags row = Ok f.
Proof.
  unfold repo_get_user_flags. destruct fault; [done|]. cbn [one_row]. destruct (us !! id) as [row|]; [|done]. cbn [one_row].
  intros E. exists row. split; [done|]. by destruct (row_flags row); cbn in E; [injection E as ->|].
Qed.
Lemma flags_step id g r g' : get_user_flags id g = (Ok r, g') ->
  same_users g g' ∧ same_proofs g g' ∧ forall f, r = Ok f -> believed g id f.
Proof.
  unfold get_user_flags. destruct (cget _ _ id) as [f|] eqn:E.
  { intros [= <- <-]. split_and!; [apply same_users_refl|done|]. intros f' [= <-]. by left. }
  destruct (repo_get_user_flags _ _ _) as [f|e] eqn:R; intros [= <- <-].
  - apply row_flags_of in R. split_and!; [|done|intros f' [= <-]; by right]. split_and!; [done..|].
    intros id' f'. cbn. destruct (decide (id = id')) as [<-|Hne].
    + intros [-> _]%cget_insert_eq. by right.
    + intros E'%cget_insert_ne; [by left|done].
  - split_and!; [|done|done]. split_and!; [done..|]. by left.
Qed.
Definition password_ok req x g : Prop :=
  is_password_change_pending_allowlisted (method req) (original_path req) = true
  ∨ auth_service cfg = false
  ∨ forall cu, current_user x = Some cu -> is_anonymous cu = false ->
      exists r, flags_of g (c_id cu) r ∧ forall f, r = Ok f -> f_force_password_change f = false.
Lemma password_spec : gate_spec (require_no_password_change_pending_layer cfg) (fun req x g x' g' => x' = x ∧ password_ok req x g).
Proof.
  intros req x g. unfold password_ok, require_no_password_change_pending_layer.
  destruct (is_password_change_pending_allowlisted _ _) eqn:A.
  { right. exists x, g. split; [apply plain_through; intros; cbv beta; by rewrite A|auto]. }
  destruct (current_user x) as [cu|] eqn:U.
  2: { right. exists x, g. split; [apply plain_through; intros; cbv beta; by rewrite A, U|]. split; [done|]. do 2 right. done. }
  destruct (is_anonymous cu) eqn:An.
  { right. exists x, g. split; [apply plain_through; intros; cbv beta; by rewrite A, U, An|]. split; [done|]. do 2 right.
    intros cu' [= <-]. congruence. }
  destruct (auth_service cfg) eqn:S.
  2: { right. exists x, g. split; [apply plain_through; intros; cbv beta; by rewrite A, U, An|auto]. }
  destruct (get_user_flags_total (c_id cu) g) as (r & g1 & E).
  destruct (match r with Ok f => f_force_password_change f | Err _ => false end) eqn:Fc.
  - left. eapply answered; [intros next; rewrite A, U, An; unfold_m; rewrite E, Fc; reflexivity|done].
  - right. exists x, g1. split; [apply plain_through; intros; cbv beta; rewrite A, U, An; unfold_m; by rewrite E, Fc|].
    split; [done|]. do 2 right. intros cu' [= <-] _. exists r. split; [by exists g1|]. by intros f ->.
Qed.
Definition internal_ok x g : Prop :=
  auth_service cfg = false
  ∨ forall cu, current_user x = Some cu -> exists r, flags_of g (c_id cu) r ∧ decide_internal_user r = None.
Lemma internal_spec : gate_spec (require_internal_user_layer cfg) (fun req x g x' g' => x' = x ∧ same_users g g' ∧ same_proofs g g' ∧ internal_ok x g).
Proof.
  intros req x g. unfold internal_ok, require_internal_user_layer. destruct (current_user x) as [cu|] eqn:U.
  2: { right. exists x, g. split; [apply plain_through; intros; cbv beta; by rewrite U|]. split_and!; [done|apply same_users_refl|done..|]. by right. }
  destruct (auth_service cfg) eqn:S.
  2: { right. exists x, g. split; [apply plain_through; intros; cbv beta; by rewrite U|]. split_and!; [done|apply same_users_refl|done..|]. by left. }
  destruct (get_user_flags_total (c_id cu) g) as (r & g1 & E). destruct (decide_internal_user r) as [e|] eqn:D.
  - left. eapply answered; [intros next; rewrite U; unfold_m; rewrite E, D; reflexivity|].
    destruct r as [f|er]; cbn in D; [destruct (f_is_external f)|destruct (kind er)]; simplify_eq; done.
  - right. exists x, g1. split; [apply plain_through; intros; cbv beta; rewrite U; unfold_m; by rewrite E, D|].
    destruct (flags_step _ _ _ _ E) as (SU & SP & _). split_and!; [done..|]. right. intros cu' [= <-]. exists r. split; [by exists g1|done].
Qed.

(** ** Proof of possession *)
Lemma stamp_keeps : keeps_status stamp_current_nonce.
Proof.
  intros r g. unfold stamp_current_nonce, fresh_nonce. unfold_m. destruct (current_or_rotate _ _ _) as [n svc].
  do 2 eexists. split; [reflexivity|]. by destruct (forallb _ _).
Qed.
Definition proof_ok req x g : Prop :=
  dpop_mode cfg = DpopOff
  ∨ forall cu, current_user x = Some cu ->
      (header_text (lit "dpop") (headers req) = None ∧ (dpop_mode cfg = DpopRequired -> c_dpop_jkt cu = None))
      ∨ exists proof v n, header_text (lit "dpop") (headers req) = Some proof
          ∧ DpopProof.verify proof (proof_context req cu (now g)) = Ok v ∧ v_nonce v = Some n
          ∧ is_valid (now g) n (nonces g) = true
          ∧ (DpopReplay.check_and_record (now g) n (v_jti v) (replays g)).1 = true.
Lemma dpop_refused m c g : exists r g', dpop_refusal m c g = (Ok r, g') ∧ status r = 401%Z.
Proof.
  unfold dpop_refusal. match goal with |- context [stamp_current_nonce ?r g] => destruct (stamp_keeps r g) as (r' & g' & E & Es) end.
  exists r', g'. split; [exact E|]. by rewrite Es.
Qed.
Lemma blocked_dpop l req x g m c g1 : (forall next, l req x next g = dpop_refusal m c g1) -> blocked l req x g.
Proof. intros E. destruct (dpop_refused m c g1) as (r & g' & E2 & Es). eapply answered; [intros next; rewrite E; exact E2|]. by rewrite Es. Qed.
Lemma dpop_spec : gate_spec (require_dpop_layer cfg) (fun req x g x' g' => x' = x ∧ same_users g g' ∧ proof_ok req x g).
Proof.
  intros req x g. unfold proof_ok.
  destruct (decide (dpop_mode cfg = DpopOff)) as [O|O].
  { right. exists x, g. split; [|eauto using same_users_refl]. apply plain_through. intros next. unfold require_dpop_layer. by rewrite O. }
  destruct (current_user x) as [cu|] eqn:U.
  2: { right. exists x, g. split; [|split_and!; [done|apply same_users_refl|by right]]. apply plain_through. intros next. unfold require_dpop_layer. rewrite U. by destruct (dpop_mode cfg). }
  destruct (header_text (lit "dpop") (headers req)) as [proof|] eqn:Hp.
  - assert (W : forall next, require_dpop_layer cfg req x next g = with_proof req proof cu x next g).
    { intros next. unfold require_dpop_layer. rewrite U, Hp. by destruct (dpop_mode cfg). }
    destruct (DpopProof.verify proof (proof_context req cu (now g))) as [v|e] eqn:V.
    2: { left. eapply blocked_dpop. intros next. rewrite W. unfold with_proof. rewrite V. reflexivity. }
    destruct (v_nonce v) as [n|] eqn:N.
    2: { left. eapply blocked_dpop. intros next. rewrite W. unfold with_proof. rewrite V, N. reflexivity. }
    destruct (is_valid (now g) n (nonces g)) eqn:L.
    2: { left. eapply blocked_dpop. intros next. rewrite W. unfold with_proof. rewrite V, N, L. reflexivity. }
    destruct (DpopReplay.check_and_record (now g) n (v_jti v) (replays g)) as [[] c] eqn:R.
    + right. exists x, (set_replays c g). split.
      * exists stamp_current_nonce. split; [apply stamp_keeps|]. intros next. rewrite W. unfold with_proof. rewrite V, N, L.
        unfold check_replay, then_stamp. unfold_m. by rewrite R.
      * split_and!; [done|split_and!; [done..|]; by left|]. right. intros cu' [= <-]. right. exists proof, v, n. split_and!; try done. by rewrite R.
    + left. eapply blocked_dpop. intros next. rewrite W. unfold with_proof. rewrite V, N, L. unfold check_replay. unfold_m. by rewrite R.
  - destruct (dpop_mode cfg) eqn:Md; [done| |destruct (c_dpop_jkt cu) eqn:J].
    2: { left. eapply blocked_dpop. intros next. unfold require_dpop_layer. rewrite U, Hp, Md, J. reflexivity. }
    all: right; exists x, g; split;
      [exists stamp_current_nonce; split; [apply stamp_keeps|]; intros next; unfold require_dpop_layer; rewrite U, Hp, Md, ?J; reflexivity|];
      split_and!; [done|apply same_users_refl|]; right; intros cu' [= <-]; left; split; [done|congruence || done].
Qed.

(** ** Authentication *)
Definition live_role g (id : Uuid) (claim r : str) : Prop :=
  (UserRole.from_session claim = Some RAnonymous ∧ r = lit "anonymous")
  ∨ (exists f, believed g id f ∧ f_active f = true ∧ r = UserRole.as_str (f_role f))
  ∨ (r = claim ∧ exists g2 e, same_users g g2 ∧ kind e ≠ NotFound ∧ flags_of g2 id (Err e)).
Lemma resolve_step id claim g live g' : resolve_live_role id claim g = (Ok live, g') ->
  same_users g g' ∧ same_proofs g g' ∧ forall r, live = LiveActive r -> live_role g id claim r.
Proof.
  unfold resolve_live_role, anonymous_live_role, live_role.
  assert (K : forall live g', (flags ← get_user_flags id; mret (decide_live_role flags claim)) g = (Ok live, g') ->
    same_users g g' ∧ same_proofs g g' ∧ forall r, live = LiveActive r ->
      (exists f, believed g id f ∧ f_active f = true ∧ r = UserRole.as_str (f_role f))
      ∨ (r = claim ∧ exists g2 e, same_users g g2 ∧ kind e ≠ NotFound ∧ flags_of g2 id (Err e))).
  { intros lv g1. unfold_m. destruct (get_user_flags_total id g) as (r & g2 & E). rewrite E. intros [= <- <-].
    destruct (flags_step _ _ _ _ E) as (S & Pr & B). split_and!; [done..|]. intros r'. destruct r as [f|e]; cbn.
    - destruct (f_active f) eqn:A; [|done]. intros [= <-]. left. exists f. auto.
    - intros D. right. assert (kind e ≠ NotFound ∧ r' = claim) as [Hk ->].
      { destruct (kind e) eqn:Ke; simplify_eq; done. }
      split; [done|]. exists g, e. split_and!; [apply same_users_refl|done|by exists g2]. }
  destruct (UserRole.from_session claim) as [rl|] eqn:Fs.
  2: { intros R. destruct (K _ _ R) as (? & ? & ?); split_and!; auto. }
  destruct (UserRole.is_anonymous rl) eqn:An.
  2: { intros R. destruct (K _ _ R) as (? & ? & ?); split_and!; auto. }
  destruct rl; try done. unfold_m. intros [= <- <-]. split_and!; [apply same_users_refl|done|]. intros r [= <-]. auto.
Qed.
Lemma resolve_total id claim g : exists live g', resolve_live_role id claim g = (Ok live, g').
Proof.
  unfold resolve_live_role. destruct (anonymous_live_role claim) as [lv|]; [unfold_m; eauto|]. unfold_m.
  destruct (get_user_flags_total id g) as (r & g' & ->). eauto.
Qed.

(** Where a principal may come from. *)
Definition presented req (x' : Exts) (tok : str) : Prop :=
  after_prefix (lit "Bearer ") (header_text (lit "authorization") (headers req)) = Some tok
  ∨ extract_cookie_str (headers req) ACCESS_COOKIE = Some tok ∧ cookie_authenticated x' = true.
Inductive account_credential req g (x' : Exts) : CurrentUser -> Prop :=
| by_token tok claims r :
    auth_service cfg = true -> presented req x' tok ->
    (validate_token blake3 (now g) (now g) (now g) tok (validations g)).1 = Ok claims ->
    t_sub_id claims ≠ 0%N -> live_role g (t_sub_id claims) (t_role claims) r ->
    account_credential req g x' (token_user claims r)
| by_password encoded credentials name password found :
    app_password_service cfg = true ->
    after_prefix (lit "Basic ") (header_text (lit "authorization") (headers req)) = Some encoded ->
    (b64_standard_decode encoded ≫= from_utf8) = Some credentials -> split_once 58 credentials = Some (name, password) ->
    (AppPasswords.verify_basic_auth blake3 name password (passwords g)).1 = Ok found ->
    account_credential req g x' (basic_user found).
Definition ring_credential req g (x' : Exts) (cu : CurrentUser) : Prop :=
  exists r, auth_service cfg = true ∧ ring_of cfg req (now g) = Some r ∧ is_dav_path (path req) = false
    ∧ cookie_authenticated x' = false ∧ cu = visitor r.
Definition credential req g (x' : Exts) (cu : CurrentUser) : Prop :=
  account_credential req g x' cu ∨ ring_credential req g x' cu.

(** The rest of a stack as a program over what follows it, and what becomes of it. *)
Definition settles (p : Next -> G Response) g (Q : Exts -> Gate -> Prop) : Prop :=
  (exists o g', (forall next, p next g = (o, g')) ∧ refusal o)
  ∨ exists x' g1, (exists k, keeps_status k ∧ forall next, p next g = (next x' ≫= k) g1) ∧ Q x' g1.
Lemma settles_bind {A} (m : G A) (f : A -> Next -> G Response) g v g1 (Q : Exts -> Gate -> Prop) :
  m g = (Ok v, g1) -> settles (f v) g1 Q -> settles (fun next => m ≫= fun v => f v next) g Q.
Proof.
  intros E [(o & g' & B & R)|(x' & g2 & (k & Hk & T) & HQ)]; [left; exists o, g'|right; exists x', g2].
  - split; [|done]. intros next. unfold mbind, M_bind. rewrite E. apply B.
  - split; [|done]. exists k. split; [done|]. intros next. unfold mbind at 1, M_bind at 1. rewrite E. apply T.
Qed.
Lemma settles_refuse e g (Q : Exts -> Gate -> Prop) : settles (fun _ => refuse e) g Q.
Proof. left. do 2 eexists. split; [intros next; reflexivity|]. by destruct e. Qed.
Lemma settles_next x' g (Q : Exts -> Gate -> Prop) : Q x' g -> settles (fun next => next x') g Q.
Proof. intros HQ. right. exists x', g. split; [|done]. exists mret. split; [apply ret_keeps|]. intros next. by rewrite bind_ret. Qed.
Lemma settles_ret r g (Q : Exts -> Gate -> Prop) : (400 <= status r)%Z -> settles (fun _ => mret r) g Q.
Proof. intros S. left. do 2 eexists. split; [intros next; reflexivity|done]. Qed.

(** What authentication has to arrange. *)
Definition arranged req g (ring : option Ring) (x' : Exts) (g' : Gate) : Prop :=
  share_ring x' = ring ∧ same_users g g' ∧ same_proofs g g'
  ∧ exists cu, current_user x' = Some cu ∧ credential req g x' cu.
Lemma validate_step tok g : exists c, validate blake3 tok g =
  (Ok (validate_token blake3 (now g) (now g) (now g) tok (validations g)).1, set_validations c g).
Proof. unfold validate. destruct (validate_token _ _ _ _ _ _) as [r c]. by exists c. Qed.
Lemma stamp_step sid g : exists g', stamp cfg sid g = (Ok tt, g') ∧ same_users g g' ∧ same_proofs g g'.
Proof.
  unfold stamp. destruct sid as [sid|]; [destruct (last_seen_tracker cfg)|]; eexists; (split; [reflexivity|]); (split; [|done]); (split_and!; [done..|]); by left.
Qed.
Lemma live_role_validations c g id claim r : live_role (set_validations c g) id claim r -> live_role g id claim r.
Proof. done. Qed.
(** A validated token, then the user behind it. *)
Lemma token_settles req tok ring cookie g c claims : auth_service cfg = true ->
  let x' role := mkExts (Some (token_user claims role)) ring cookie in
  (forall role, presented req (x' role) tok) ->
  (validate_token blake3 (now g) (now g) (now g) tok (validations g)).1 = Ok claims -> t_sub_id claims ≠ 0%N ->
  forall revoked : Next -> G Response,
  (forall g', same_users g g' -> same_proofs g g' -> settles revoked g' (arranged req g ring)) ->
  settles (fun next =>
    live ← resolve_live_role (t_sub_id claims) (t_role claims);
    match live with
    | LiveRevoked => revoked next
    | LiveActive role => _ ← stamp cfg (t_sid claims); next (x' role)
    end) (set_validations c g) (arranged req g ring).
Proof.
  intros S x' Pr V Hnil revoked Hr.
  destruct (resolve_total (t_sub_id claims) (t_role claims) (set_validations c g)) as (live & g1 & E).
  destruct (resolve_step _ _ _ _ _ E) as (SU & SP & L). eapply settles_bind; [exact E|]. cbv beta. destruct live as [role|].
  - destruct (stamp_step (t_sid claims) g1) as (g2 & E2 & SU2 & SP2). eapply settles_bind; [exact E2|].
    apply settles_next. split_and!; [done|by eapply same_users_trans|destruct SP, SP2; split; cbn in *; congruence|].
    exists (token_user claims role). split; [done|]. left. eapply by_token; [done|apply Pr|done|done|]. by apply L.
  - apply Hr; [exact SU|exact SP].
Qed.
Lemma ring_settles req x g g' :
  share_ring x = ring_of cfg req (now g) -> cookie_authenticated x = false -> same_users g g' -> same_proofs g g' ->
  settles (ring_arm cfg req x) g' (arranged req g (share_ring x)).
Proof.
  intros Hr Hc SU SP. unfold ring_arm. destruct (auth_service cfg) eqn:S; cbn [negb]; [|apply settles_refuse].
  destruct (is_dav_path (path req)) eqn:D; [by apply settles_ret|]. destruct (share_ring x) as [r|] eqn:E; [|apply settles_refuse].
  apply settles_next. split_and!; [done..|]. exists (visitor r). split; [done|]. right. by exists r.
Qed.
Lemma cookie_settles req x g :
  share_ring x = ring_of cfg req (now g) -> cookie_authenticated x = false ->
  settles (cookie_arm blake3 cfg req x) g (arranged req g (share_ring x)).
Proof.
  intros Hr Hc. unfold cookie_arm. destruct (extract_cookie_str (headers req) ACCESS_COOKIE) as [[|b tok]|] eqn:E; cbn [mbind option_bind].
  1, 3: apply ring_settles; [done..|apply same_users_refl|done].
  destruct (auth_service cfg) eqn:S; [|apply ring_settles; [done..|apply same_users_refl|done]].
  destruct (validate_step (b :: tok) g) as [c Ev]. eapply settles_bind; [exact Ev|]. cbv beta.
  destruct (validate_token _ _ _ _ _ _).1 as [claims|e] eqn:V.
  - destruct (decide (t_sub_id claims = 0%N)) as [N|N]; [apply settles_refuse|].
    apply (token_settles req (b :: tok) (share_ring x) true g c claims S); [by intros role; right|done|done|].
    intros g' SU SP. by apply ring_settles.
  - apply ring_settles; [done..| |done]. split_and!; [done..|]. by left.
Qed.
Lemma bearer_settles req x g tok : auth_service cfg = true ->
  after_prefix (lit "Bearer ") (header_text (lit "authorization") (headers req)) = Some tok ->
  settles (bearer_arm blake3 cfg tok x) g (arranged req g (share_ring x)).
Proof.
  intros S E. unfold bearer_arm. destruct (validate_step tok g) as [c Ev]. eapply settles_bind; [exact Ev|]. cbv beta.
  destruct (validate_token _ _ _ _ _ _).1 as [claims|e] eqn:V; [|apply settles_refuse].
  destruct (decide (t_sub_id claims = 0%N)) as [N|N]; [apply settles_refuse|].
  apply (token_settles req tok (share_ring x) (cookie_authenticated x) g c claims S); [by intros role; left|done|done|].
  intros g' SU SP. apply settles_refuse.
Qed.
Lemma verify_untouched name password (s : AppPasswords.Store (Cache:=@Cache)) :
  users (AppPasswords.verify_basic_auth blake3 name password s).2 = users s ∧ clock (AppPasswords.verify_basic_auth blake3 name password s).2 = clock s.
Proof.
  unfold AppPasswords.verify_basic_auth. destruct (cget _ _ _); [done|]. destruct (uncached_keeps name password s) as (U & T & _).
  by destruct (verify_basic_auth_uncached name password s) as [[] s'].
Qed.
Lemma basic_settles req x g encoded :
  after_prefix (lit "Basic ") (header_text (lit "authorization") (headers req)) = Some encoded ->
  settles (basic_arm blake3 b64_standard_decode cfg req encoded x) g (arranged req g (share_ring x)).
Proof.
  intros E. unfold basic_arm. destruct (b64_standard_decode encoded ≫= from_utf8) as [credentials|] eqn:D; [|apply settles_refuse].
  destruct (split_once 58 credentials) as [[name password]|] eqn:C; [|apply settles_refuse].
  destruct (app_password_service cfg) eqn:S; [|apply settles_refuse].
  destruct (verify_untouched name password (passwords g)) as [Hu Ht].
  destruct (AppPasswords.verify_basic_auth blake3 name password (passwords g)) as [[found|st] s'] eqn:V; cbn [snd] in Hu, Ht.
  - eapply settles_bind; [unfold verify_app_password; rewrite V; reflexivity|]. apply settles_next. split_and!.
    + done.
    + split_and!; [exact Ht|exact Hu|]. intros id f Ef. by left.
    + done.
    + exists (basic_user found). split; [done|]. left. eapply by_password; try done. by rewrite V.
  - destruct st as [|err].
    + left. exists (Err panicked), (set_passwords s' g). split; [|done]. intros next. unfold_m. unfold verify_app_password. by rewrite V.
    + eapply settles_bind; [unfold verify_app_password; rewrite V; reflexivity|]. cbv beta iota.
      destruct (is_dav_path (path req)); [by apply settles_ret|apply settles_refuse].
Qed.
Lemma auth_at req g : gate_at (auth_middleware blake3 b64_standard_decode cfg) req no_exts g (arranged req g (ring_of cfg req (now g))).
Proof.
  set (x := mkExts None (ring_of cfg req (now g)) false).
  assert (E : forall next, auth_middleware blake3 b64_standard_decode cfg req no_exts next g =
    match (if auth_service cfg then after_prefix (lit "Bearer ") (header_text (lit "authorization") (headers req)) else None) with
    | Some token => bearer_arm blake3 cfg token x next g
    | None => match after_prefix (lit "Basic ") (header_text (lit "authorization") (headers req)) with
              | Some encoded => basic_arm blake3 b64_standard_decode cfg req encoded x next g
              | None => cookie_arm blake3 cfg req x next g
              end
    end).
  { intros next. unfold auth_middleware, x. cbn [no_exts current_user share_ring cookie_authenticated]. by destruct (ring_of _ _ _). }
  assert (K : settles (auth_middleware blake3 b64_standard_decode cfg req no_exts) g (arranged req g (share_ring x))).
  { assert (R : forall p, settles p g (arranged req g (share_ring x)) ->
              (forall next, auth_middleware blake3 b64_standard_decode cfg req no_exts next g = p next g) ->
              settles (auth_middleware blake3 b64_standard_decode cfg req no_exts) g (arranged req g (share_ring x))).
    { intros p [(o & g' & B & Rf)|(x' & g1 & (k & Hk & T) & Q)] Ep; [left; exists o, g'|right; exists x', g1].
      - split; [|done]. intros next. by rewrite Ep.
      - split; [|done]. exists k. split; [done|]. intros next. by rewrite Ep. }
    destruct (if auth_service cfg then _ else None) as [tok|] eqn:B.
    { destruct (auth_service cfg) eqn:S; [|done]. eapply R; [|exact E]. by apply bearer_settles. }
    destruct (after_prefix (lit "Basic ") _) as [encoded|] eqn:Ba; (eapply R; [|exact E]).
    - by apply basic_settles.
    - by apply cookie_settles. }
  exact K.
Qed.

(** ** The stacks *)
Lemma proof_ok_same req x g g' : now g' = now g -> same_proofs g g' -> proof_ok req x g' -> proof_ok req x g.
Proof. intros T [N R]. unfold proof_ok. by rewrite T, N, R. Qed.

Lemma api_at req g :
  gate_at (protected_api blake3 b64_standard_decode cfg) req no_exts g (fun x' g' =>
    share_ring x' = ring_of cfg req (now g)
    ∧ (exists cu, current_user x' = Some cu ∧ credential req g x' cu)
    ∧ csrf_ok req x' ∧ proof_ok req x' g ∧ (exists g2, same_users g g2 ∧ password_ok req x' g2) ∧ allowlist_ok req x').
Proof.
  unfold protected_api, protected. eapply gate_at_weaken.
  - apply over_at; [|apply allowlist_spec]. apply over_at; [apply auth_at|].
    apply over_spec; [apply csrf_spec|]. apply over_spec; [apply dpop_spec|apply password_spec].
  - cbv beta. intros x' g' (x4 & g4 & (x1 & g1 & (R & SU & SP & Cr) & (x2 & g2 & (-> & -> & Cs) & (x3 & g3 & (-> & SU3 & Pr) & (-> & Pw)))) & (-> & -> & Al)).
    split_and!; try done.
    + eapply proof_ok_same; [apply SU|exact SP|exact Pr].
    + exists g3. split; [by eapply same_users_trans|done].
Qed.

(** C33: what reaches a handler of the API.  For every request in every state the gates either
    answer with an error or end in a panic, whatever handler lies behind them, or they pass the
    request to the handler, and leave the status of its answer alone.  In that case:
    - it carries a principal from a token that validates, an app password that verifies, or a ring
      cookie that verifies.  The role of a principal from a token is, for an account, that of an
      active user by the cached flags or the row; only when that look-up fails, other than by not
      finding the user, it is the role the token claims: the gate fails open;
    - if the token came in a cookie and the method is not a safe one, the CSRF header equals the
      CSRF cookie;
    - unless proofs are switched off, any proof that is presented verifies for this request, with
      a live nonce, and is not in the replay cache, and where they are required a session that is
      bound to a key has presented one; switched off, nothing is asked or verified;
    - off the allowlist for a pending change of password, the flags of an account either say that
      no change is pending or could not be read, where this gate fails open too;
    - a visitor without an account asks by GET for a route of the allowlist. *)
Theorem api_admission req g :
  gate_at (protected_api blake3 b64_standard_decode cfg) req no_exts g (fun x' g' =>
    share_ring x' = ring_of cfg req (now g)
    ∧ (exists cu, current_user x' = Some cu ∧ credential req g x' cu)
    ∧ csrf_ok req x' ∧ proof_ok req x' g ∧ (exists g2, same_users g g2 ∧ password_ok req x' g2) ∧ allowlist_ok req x').
Proof. apply api_at. Qed.

(** What reaches a handler of WebDAV, CalDAV and CardDAV.  The gates in front of these
    answer with an error or pass the request on with a principal from a token or an app password;
    a ring cookie is never enough.  The user is not an external one as far as the server knows,
    and the proof of possession and a pending change of password are asked for as in the API. *)
Theorem dav_admission req g :
  is_dav_path (path req) = true ->
  gate_at (dav_protected blake3 b64_standard_decode cfg) req no_exts g (fun x' g' =>
    (exists cu, current_user x' = Some cu ∧ account_credential req g x' cu)
    ∧ (exists g2, same_users g g2 ∧ internal_ok x' g2)
    ∧ proof_ok req x' g ∧ (exists g2, same_users g g2 ∧ password_ok req x' g2)).
Proof.
  intros D. unfold dav_protected. eapply gate_at_weaken.
  - apply over_at; [apply auth_at|]. apply over_spec; [apply internal_spec|]. apply over_spec; [apply dpop_spec|apply password_spec].
  - cbv beta. intros x' g' (x1 & g1 & (R & SU & SP & cu & Hcu & Cr) & (x2 & g2 & (-> & SU2 & SP2 & Int) & (x3 & g3 & (-> & SU3 & Pr) & (-> & Pw)))).
    split_and!.
    + exists cu. split; [done|]. destruct Cr as [Ac|(r & _ & _ & D' & _)]; [done|congruence].
    + by exists g1.
    + eapply proof_ok_same; [| |exact Pr].
      * destruct SU as [E1 _], SU2 as [E2 _]. congruence.
      * destruct SP, SP2. split; congruence.
    + exists g3. split; [|done]. eapply same_users_trans; [exact SU|]. by eapply same_users_trans.
Qed.

Context `{!Inj (=) (=) blake3}.
Definition user_role (raw : str) : Prop := is_Some (UserRole.from_stored raw).
Lemma user_role_not_anonymous cu : user_role (c_role cu) -> is_anonymous cu = false.
Proof.
  intros [r E]. unfold is_anonymous, role_enum. rewrite (from_stored_session _ _ E). cbn.
  apply from_stored_not_anonymous in E. by destruct r.
Qed.
Lemma split_once_clean c (t a b : str) : split_once c t = Some (a, b) -> c ∉ a.
Proof.
  induction t as [|h t IH] in a |- *; cbn [split_once]; [done|]. case_decide as D; [intros [= <- _]; apply not_elem_of_nil|].
  destruct (split_once c t) as [[a' b']|]; [|done]. intros [= <- <-]. rewrite not_elem_of_cons. split; [done|by apply IH].
Qed.
Lemma row_flags_role row f : row_flags row = Ok f -> f_role f ≠ RAnonymous.
Proof.
  unfold row_flags, role_from_row. destruct (UserRole.from_stored (u_role row)) as [r|] eqn:E; [|done].
  intros [= <-]. cbn. by eapply from_stored_not_anonymous.
Qed.
Lemma account_is_user past req g x' cu :
  (forall tok j, jwt_payload tok = Some j -> user_role (j_role j)) -> SessionTokens.cached blake3 (validations g) ->
  history blake3 past (passwords g) -> (forall id f, cget (user_flags_cache g) (now g) id = Some f -> f_role f ≠ RAnonymous) ->
  account_credential req g x' cu -> is_anonymous cu = false.
Proof.
  intros Htok Hc Hh Hf [tok claims r S Pr V N L|encoded credentials name password found S E D C V]; apply user_role_not_anonymous.
  - assert (user_role (t_role claims)) as Hrole.
    { destruct (validate_token_cases blake3 (now g) (now g) (now g) tok (validations g) Hc) as [Hv|(j & Hj & Hv & _)].
      - rewrite Hv in V. apply verify_ok in V as (j & Hj & -> & _). by eapply Htok.
      - rewrite V in Hv. injection Hv as ->. by eapply Htok. }
    destruct L as [[Fa _]|[(f & B & _ & ->)|[-> _]]]; cbn [token_user c_role]; [|exists (f_role f)|done].
    + destruct Hrole as [rl Hrl]. pose proof (from_stored_session _ _ Hrl) as E. rewrite Fa in E. injection E as <-.
      by apply from_stored_not_anonymous in Hrl.
    + rewrite user_role_stored. assert (f_role f ≠ RAnonymous) as Hne.
      { destruct B as [B|(row & _ & B)]; [by eapply Hf|by eapply row_flags_role]. }
      by destruct (f_role f).
  - destruct (AppPasswords.verify_basic_auth blake3 name password (passwords g)) as [res s'] eqn:Ev. cbn [fst] in V. subst res.
    destruct (login_proved blake3 _ _ _ _ _ _ Hh (split_once_clean _ _ _ _ C) Ev) as (s1 & _ & _ & row & rl & _ & _ & _ & _ & _ & _ & _ & Hrl & Er & _).
    exists rl. rewrite Er. cbn. rewrite user_role_stored. apply from_stored_not_anonymous in Hrl. by destruct rl.
Qed.
(** C34: a visitor acts as its links.  Where signed tokens, cached flags and cached logins carry
    the roles of users, a request that reaches a route of the API without a user behind it
    carries a verified ring cookie and nothing else: its principal is the visitor of the ring, the
    route is one of the allowlist, asked for by GET, the subjects the engine is asked about are
    the links of the ring, and what demands a user or an administrator refuses it. *)
Theorem visitor_acts_as_its_links past req g :
  (forall tok j, jwt_payload tok = Some j -> user_role (j_role j)) -> SessionTokens.cached blake3 (validations g) ->
  history blake3 past (passwords g) -> (forall id f, cget (user_flags_cache g) (now g) id = Some f -> f_role f ≠ RAnonymous) ->
  gate_at (protected_api blake3 b64_standard_decode cfg) req no_exts g (fun x' _ =>
    forall cu p, current_user x' = Some cu -> is_anonymous cu = true -> matched_path req = Some p ->
      exists r, ring_of cfg req (now g) = Some r ∧ cu = visitor r ∧ cookie_authenticated x' = false
        ∧ method req = lit "GET" ∧ p ∈ ANONYMOUS_ALLOWLIST
        ∧ caller_subjects_of x' = match ring_shares r with
                                  | [] => Err (AuthAccessDenied (lit "No usable credential"))
                                  | _ => Ok (Token <$> ring_shares r)
                                  end
        ∧ (exists e, auth_user x' = Err (AuthAccessDenied e)) ∧ blocked require_admin req x' g).
Proof.
  intros Htok Hc Hh Hf. eapply gate_at_weaken; [apply api_at|]. cbv beta.
  intros x' _ (Hring & (cu' & Hcu & Cr) & _ & _ & _ & Al) cu p E An Mp. rewrite Hcu in E. injection E as ->.
  destruct Cr as [Ac|(r & _ & Hr & _ & Hck & ->)].
  { rewrite (account_is_user past req g x' cu Htok Hc Hh Hf Ac) in An. done. }
  destruct (Al _ _ Hcu An Mp) as [Hm Hp]. exists r. rewrite Hr in Hring. split_and!; try done.
  - unfold caller_subjects_of. rewrite Hcu, Hring. unfold caller_subjects. cbn. by destruct (ring_shares r).
  - unfold auth_user. rewrite Hcu. cbn. by eexists.
  - eapply answered; [intros next; unfold require_admin; rewrite Hcu; reflexivity|done].
Qed.

End Layers.

(** * A server at its gates

    Concrete instances of the cryptographic interfaces, a server with one user whose sessions are
    bound to a key, and requests that pass its gates or do not; the theorems of [GateClaims]
    applied to them. *)

(** ** Toy cryptography *)
(** Numbers in decimal, each followed by an underscore. *)
Definition show_int (z : Z) : str := if (z <? 0)%Z then 45%Z :: dec (- z) else dec z.
Definition read_int (s : str) : option Z :=
  match s with 45%Z :: body => n ← parse_digits body; if decide (n = 0%Z) then None else Some (- n)%Z | _ => parse_digits s end.
Fixpoint show_list (l : list Z) : str := match l with [] => [] | z :: l => show_int z ++ 95%Z :: show_list l end.
Fixpoint read_list (fuel : nat) (s : str) : option (list Z) :=
  match s, fuel with
  | [], _ => Some []
  | _, O => None
  | _, S fuel => '(a, rest) ← split_once 95 s; z ← read_int a; l ← read_list fuel rest; Some (z :: l)
  end.
Lemma dec_digits_only n : (0 <= n)%Z -> Forall (fun c => 48 <= c <= 57)%Z (dec n).
Proof.
  intros Hn. destruct (dec_spec n Hn) as (Hd & _ & _). apply list.Forall_forall. intros c Hc%list_elem_of_In.
  rewrite forallb_forall in Hd. specialize (Hd c Hc). unfold is_digit in Hd. rewrite andb_true_iff, !Z.leb_le in Hd. exact Hd.
Qed.
Lemma show_int_clean z : 95%Z ∉ show_int z.
Proof.
  unfold show_int. destruct (Z.ltb_spec z 0); [apply not_elem_of_cons; split; [done|]|];
    intros Hin; pose proof (dec_digits_only (if (z <? 0)%Z then - z else z)%Z ltac:(destruct (Z.ltb_spec z 0); lia)) as D;
    destruct (Z.ltb_spec z 0); try lia; rewrite list.Forall_forall in D; specialize (D _ Hin); cbn in D; lia.
Qed.
Lemma read_show_int z : read_int (show_int z) = Some z.
Proof.
  unfold show_int. destruct (Z.ltb_spec z 0).
  - cbn. rewrite parse_digits_dec by lia. cbn. rewrite decide_False by lia. f_equal. lia.
  - unfold read_int. pose proof (parse_digits_dec z ltac:(lia)) as E. pose proof (dec_digits_only z ltac:(lia)) as D.
    destruct (dec z) as [|c t]; [exact E|]. apply list.Forall_cons in D as [D _].
    destruct (decide (c = 45)%Z) as [->|Hne]; [lia|]. destruct c as [|p|p]; try exact E.
    do 6 (destruct p as [p|p|]; try exact E; try lia).
Qed.
Lemma show_int_nonempty z : show_int z ≠ [].
Proof.
  unfold show_int. destruct (Z.ltb_spec z 0); [done|]. by destruct (dec_spec z) as (_ & _ & ?).
Qed.
Lemma read_show_list l fuel : (length l <= fuel)%nat -> read_list fuel (show_list l) = Some l.
Proof.
  induction l as [|z l IH] in fuel |- *; cbn [show_list length]; intros Hf; [by destruct fuel|].
  destruct fuel as [|fuel]; [lia|]. destruct (show_int z ++ 95%Z :: show_list l) eqn:E; [by destruct (show_int z)|].
  cbn [read_list]. rewrite <- E, split_once_app by apply show_int_clean. cbn [mbind option_bind].
  rewrite read_show_int. cbn [mbind option_bind]. by rewrite IH by lia.
Qed.
Lemma show_list_long l : (length l <= length (show_list l))%nat.
Proof. induction l as [|z l IH]; cbn [show_list length]; [lia|]. rewrite length_app. cbn [length]. lia. Qed.
Definition safe_char (c : Z) : Prop := (48 <= c <= 57 ∨ 65 <= c <= 90 ∨ 97 <= c <= 122 ∨ c = 45 ∨ c = 95)%Z.
Lemma parse_digits_safe s n : parse_digits s = Some n -> Forall safe_char s.
Proof.
  unfold parse_digits. destruct s as [|c s]; [done|]. destruct (forallb is_digit (c :: s)) eqn:D; [|done]. intros _.
  apply list.Forall_forall. intros b Hb%list_elem_of_In. rewrite forallb_forall in D. specialize (D b Hb).
  unfold is_digit in D. rewrite andb_true_iff, !Z.leb_le in D. by left.
Qed.
Lemma read_int_safe s n : read_int s = Some n -> Forall safe_char s.
Proof.
  unfold read_int. destruct s as [|c s]; [done|]. destruct (decide (c = 45)%Z) as [->|Hne].
  - destruct (parse_digits s) as [m|] eqn:E; [|done]. intros _. constructor; [unfold safe_char; lia|by eapply parse_digits_safe].
  - intros E. apply (parse_digits_safe _ n). destruct c as [|p|p]; try exact E. do 6 (destruct p as [p|p|]; try exact E; try lia).
Qed.
Lemma read_list_safe fuel s l : read_list fuel s = Some l -> Forall safe_char s.
Proof.
  induction fuel as [|fuel IH] in s, l |- *; destruct s as [|c s]; try done; cbn [read_list].
  assert (forall c t a b, split_once c t = Some (a, b) -> t = a ++ c :: b) as Sp.
  { intros c' t. induction t as [|h t IHt]; intros a b; cbn [split_once]; [done|]. case_decide; [intros [= <- <-]; by subst|].
    destruct (split_once c' t) as [[a' b']|]; [|done]. intros [= <- <-]. cbn. f_equal. by apply IHt. }
  destruct (split_once 95 (c :: s)) as [[a rest]|] eqn:E; [|done]. cbn [mbind option_bind]. rewrite (Sp _ _ _ _ E).
  destruct (read_int a) as [z|] eqn:R; [|done]. cbn [mbind option_bind]. destruct (read_list fuel rest) as [l'|] eqn:L; [|done].
  intros _. apply list.Forall_app. split; [by eapply read_int_safe|]. constructor; [unfold safe_char; lia|by eapply IH].
Qed.

Module Door.
#[export] Existing Instances decimal_uuid_text plain_argon.
Definition key_half : list Z := repeat 0%Z 32.
Definition jwk : Value := VObject (<[lit "kty" := VString (lit "EC")]> (<[lit "crv" := VString (lit "P-256")]>
  (<[lit "x" := VString (show_list key_half)]> {[lit "y" := VString (show_list key_half)]}))).
Definition proof_header : Value :=
  VObject (<[lit "typ" := VString (lit "dpop+jwt")]> (<[lit "alg" := VString (lit "ES256")]> {[lit "jwk" := jwk]})).
Definition proof_claims : Value :=
  VObject (<[lit "htm" := VString (lit "GET")]> (<[lit "htu" := VString (lit "http://cloud/api/files/5")]>
    (<[lit "iat" := VNumber 100]> (<[lit "jti" := VString (lit "J")]> {[lit "nonce" := VString (lit "N")]})))).
(** A signature is the message under the key, told apart by nothing: it must equal the key. *)
#[export] Instance crypto : DpopCrypto.
Proof.
  refine {|
    b64_encode := show_list; b64_decode s := read_list (length s) s;
    json_parse b := match b with [1%Z] => Some proof_header | [2%Z] => Some proof_claims | _ => None end;
    verifying_key := list Z; from_sec1_bytes := Some; signature := list Z; signature_from_slice := Some;
    p256_verify k _ s := bool_decide (k = s); sha256 b := b;
  |}.
  - intros b. apply read_show_list, show_list_long.
  - intros s b. apply read_list_safe.
Defined.
#[export] Instance sha_inj : Inj (=) (=) (sha256 (DpopCrypto := crypto)).
Proof. by intros x y. Qed.
Definition jkt : str := thumbprint (show_list key_half) (show_list key_half).
(** One access token and one ring cookie, with their texts. *)
Definition token_claims : JwtClaims := mkJwt (dec 7) 3600 0 (dec 1) (lit "alice") (lit "alice@example.org") (lit "user") (Some jkt) None.
#[export] Instance jwt : Jwt.
Proof.
  refine {|
    jwt_encode c := if decide (c = token_claims) then Ok (lit "1") else Err (lit "no key");
    jwt_payload tok := if decide (tok = lit "1") then Some token_claims else None;
    jwt_complaint _ := lit "InvalidToken";
  |}.
  intros c tok. destruct (decide (c = token_claims)) as [->|]; [|done]. by intros [= <-].
Defined.
Definition ring_claims : ShareCookies.Claims := ShareCookies.mkClaims (Some RING_TYP) (Some 90%N) (Some [40%N; 41%N]) None (Some 28800%Z) (Some 0%Z).
#[export] Instance ring_signer : Signer.
Proof.
  assert (D : EqDecision ShareCookies.Claims) by solve_decision.
  refine {|
    jwt_sign k c := if D c ring_claims then Ok (lit "2") else Err (lit "no key");
    jwt_claims k tok := if decide (tok = lit "2") then Some ring_claims else None;
  |}.
  - intros k c tok. destruct (D c ring_claims) as [->|]; [|done]. by intros [= <-].
  - intros k c tok. destruct (D c ring_claims) as [->|]; [|done]. intros [= <-]. split; [discriminate|].
    change (lit "2") with [50%Z]. constructor; [unfold jwt_byte; lia|constructor].
Defined.
Definition config : GateConfig := mkGateConfig (lit "key") DpopRequired true true false.
Definition hash (x : str) : str := x.
#[export] Instance hash_inj : Inj (=) (=) hash.
Proof. by intros x y. Qed.
Definition no_base64 (_ : str) : option (list byte) := None.
Definition server : Gate (Cache:=@TtlMap) :=
  mkGate (set_clock (100 * AppPasswords.SEC) Login.server) (cnew (Cache:=@TtlMap)) ∅
    (mkNonces (cinsert (cnew (Cache:=@TtlMap)) (90 * AppPasswords.SEC) NONCE_LIFETIME (lit "N") tt) (Some (lit "N", 90 * AppPasswords.SEC)%Z))
    (cnew (Cache:=@TtlMap)) ∅ (fun n => dec (Z.of_nat n)) 0.
Definition proof_text : str := show_list [1%Z] ++ lit "." ++ show_list [2%Z] ++ lit "." ++ show_list (4%Z :: key_half ++ key_half).
Definition file_route : option str := Some (lit "/api/files/{id}").
Definition ask (m : str) (p : str) (r : option str) (h : HeaderMap) : Request := mkRequest m p (lit "/api" ++ p) r ((lit "host", lit "cloud") :: h).
Definition with_token : HeaderMap := [(lit "authorization", lit "Bearer 1")].
Definition bound_request : Request := ask (lit "GET") (lit "/files/5") file_route (with_token ++ [(lit "dpop", proof_text)]).
Definition visitor_request (m : str) : Request := ask m (lit "/files/5") file_route [(lit "cookie", lit "oxi_shares=2")].
Definition handler : Next (Cache:=@TtlMap) := fun x => mret (mkResponse 200%Z [] (BText (from_option c_username [] (current_user x)))).
Definition api req g := protected_api hash no_base64 config req no_exts handler g.
Definition status_of (o : result Panic Response * Gate (Cache:=@TtlMap)) : option StatusCode :=
  match o.1 with Ok r => Some (status r) | Err _ => None end.

(** The owner of the key gets through, once; without the proof nobody does; a visitor may read
    and not write. *)
Example with_proof_passes : status_of (api bound_request server) = Some 200%Z.
Proof. vm_compute. reflexivity. Qed.
Example replay_is_refused : status_of (api bound_request (api bound_request server).2) = Some 401%Z.
Proof. vm_compute. reflexivity. Qed.
Example without_proof_refused : status_of (api (ask (lit "GET") (lit "/files/5") file_route with_token) server) = Some 401%Z.
Proof. vm_compute. reflexivity. Qed.
Example visitor_reads : status_of (api (visitor_request (lit "GET")) server) = Some 200%Z.
Proof. vm_compute. reflexivity. Qed.
Example visitor_writes_not : status_of (api (visitor_request (lit "DELETE")) server) = Some 403%Z.
Proof. vm_compute. reflexivity. Qed.
(** The DAV surfaces accept the access cookie and ask for no CSRF token. *)
Definition dav_delete : Request := mkRequest (lit "DELETE") (lit "/webdav/file") (lit "/webdav/file") None [(lit "cookie", lit "oxicloud_access=1")].
Definition no_proofs : GateConfig := mkGateConfig (lit "key") DpopOff true true false.
Example dav_has_no_csrf_check :
  status_of (dav_protected hash no_base64 no_proofs dav_delete no_exts handler server) = Some 200%Z
  ∧ status_of (protected_api hash no_base64 no_proofs dav_delete no_exts handler server) = Some 403%Z.
Proof. vm_compute. done. Qed.

Lemma dav_admission_witness :
  gate_at (dav_protected hash no_base64 no_proofs) dav_delete no_exts server (fun x' g' =>
    (exists cu, current_user x' = Some cu ∧ account_credential hash no_base64 no_proofs dav_delete server x' cu)
    ∧ (exists g2, same_users server g2 ∧ internal_ok no_proofs x' g2)
    ∧ proof_ok no_proofs dav_delete x' server ∧ (exists g2, same_users server g2 ∧ password_ok no_proofs dav_delete x' g2)).
Proof. apply (dav_admission hash no_base64 no_proofs dav_delete server). vm_compute. reflexivity. Defined.
Lemma visitor_acts_as_its_links_witness :
  gate_at (protected_api hash no_base64 config) (visitor_request (lit "GET")) no_exts server (fun x' _ =>
    forall cu p, current_user x' = Some cu -> is_anonymous cu = true -> matched_path (visitor_request (lit "GET")) = Some p ->
      exists r, ring_of config (visitor_request (lit "GET")) (now server) = Some r ∧ cu = visitor r ∧ cookie_authenticated x' = false
        ∧ method (visitor_request (lit "GET")) = lit "GET" ∧ p ∈ ANONYMOUS_ALLOWLIST
        ∧ caller_subjects_of x' = match ring_shares r with
                                  | [] => Err (AuthAccessDenied (lit "No usable credential"))
                                  | _ => Ok (Token <$> ring_shares r)
                                  end
        ∧ (exists e, auth_user x' = Err (AuthAccessDenied e)) ∧ blocked require_admin (visitor_request (lit "GET")) x' server).
Proof.
  apply (visitor_acts_as_its_links hash no_base64 config [] (visitor_request (lit "GET")) server).
  - intros tok j. cbn. case_decide; [|done]. intros [= <-]. vm_compute. by eexists.
  - constructor.
  - by constructor.
  - intros id f. vm_compute. done.
Defined.
End Door.
