(* ===== verification/CollabSession.v ===== *)
(** * Collaborative documents

    [src/src/application/services/collab_wire.rs] and
    [src/src/application/services/collab_session_service.rs]: the frames of the socket, the actor
    that owns the document of a file, and the service that opens, finds and ends actors; with the
    statements of [src/src/infrastructure/repositories/pg/collab_doc_session_pg_repository.rs] on
    [collab.doc_sessions] and the reader and writer of [src/src/common/di.rs].

    The crate [yrs] is the class [Yrs].  An actor handles one message at a time; before every
    statement and every call of the reader or the writer other requests write, trash or delete
    files and time passes, as the script [outside] says, then the call may fail, as the script
    [faults] says.  [writes] is a log the code does not have: what flushes put into files.
    A broadcast channel is the list of what was sent through it, a receiver a position in it;
    the bound of the channel, audit lines and the cache of blob hashes are left out. *)

From stdpp Require Import sorting.
From S2P Require Import Prelude.
From S2P Require Import RustStr.
From S2P Require Import DomainErrors.
From S2P Require Import Authorization.

#[local] Arguments lit : simpl never.
Local Open Scope Z_scope.

(** ** Frames *)
Definition FRAME_HEADER_LEN : nat := 17.
Definition UPDATE : byte := 1.
Definition AWARENESS : byte := 2.
Definition SYNC : byte := 3.
Definition INTERNAL_KIND_EVICTED : byte := 254.
Record BinaryFrame := mkFrame { fr_kind : byte; fr_file : Uuid; fr_payload : bytes }.
Inductive FrameParseErr := TooShort (got : nat) | UnknownKind (kind : byte).
(** [Uuid::as_bytes], [Uuid::from_bytes]: big-endian *)
Fixpoint be_bytes (n : nat) (u : N) : bytes :=
  match n with
  | O => []
  | S n => Z.of_N ((u / 256 ^ N.of_nat n) mod 256) :: be_bytes n u
  end.
Definition as_bytes (u : Uuid) : bytes := be_bytes 16 u.
Definition from_bytes (s : bytes) : Uuid := foldl (fun u b => (u * 256 + Z.to_N b)%N) 0%N s.
Definition parse_binary_frame (s : bytes) : result FrameParseErr BinaryFrame :=
  if (length s <? FRAME_HEADER_LEN)%nat then Err (TooShort (length s))
  else
    match s with
    | [] => Err (TooShort 0)
    | kind :: rest =>
        if bool_decide (kind ∈ [UPDATE; AWARENESS; SYNC]) then
          Ok (mkFrame kind (from_bytes (take 16 rest)) (drop 16 rest))
        else Err (UnknownKind kind)
    end.
Definition encode_binary_frame (kind : byte) (file : Uuid) (payload : bytes) : bytes := kind :: as_bytes file ++ payload.

(** ** The crate [yrs]

    A [Doc] up to what its readers can tell.  [seed] is a new document in which a client drawn at
    random has typed a text.  Applying an update twice is applying it once, what a document knows
    it does not forget, and the whole state, sent as an update, makes the same document of an
    empty one.  A document knows an update when applying it changes nothing. *)
Class Yrs := {
  Doc : Type;
  YUpdate : Type;
  StateVector : Type;
  doc_new : Doc;
  seed : N -> str -> Doc;
  get_text : Doc -> str;
  decode_update : bytes -> result str YUpdate;
  apply : YUpdate -> Doc -> result str Doc;
  decode_sv : bytes -> result str StateVector;
  encode_sv : Doc -> bytes;
  sv_default : StateVector;
  encode_since : StateVector -> Doc -> bytes;
  get_text_seed client text : get_text (seed client text) = text;
  apply_twice u d d' : apply u d = Ok d' -> apply u d' = Ok d';
  apply_keeps u v d d' : apply u d = Ok d -> apply v d = Ok d' -> apply u d' = Ok d';
  encode_all d : exists u, decode_update (encode_since sv_default d) = Ok u ∧ apply u doc_new = Ok d;
}.
Definition knows `{Yrs} (d : Doc) (s : bytes) : Prop := exists u, decode_update s = Ok u ∧ apply u d = Ok d.

(** ** Limits and errors *)
Record CollabLimits := mkLimits {
  snapshot_after_updates : Z;
  debounce_idle : Z;
  debounce_max : Z;
  debounce_tick : Z;
  max_doc_bytes : Z;
}.
Definition SECOND : Z := 1000000000.
Definition default_limits : CollabLimits := mkLimits 200 (15 * SECOND) (60 * SECOND) SECOND (10 * 1024 * 1024).
Inductive CollabError :=
| SessionGone
| BadUpdate (text : str)
| Storage (e : DomainError)
| AuthzDenied (permission : str) (file : Uuid)
| DocTooLarge (file : Uuid) (limit : Z).
Definition MAX_FLUSH_BACKOFF : Z := 300 * SECOND.
Definition flush_backoff (tick failures : Z) : Z :=
  let factor := Z.shiftl 1 (Z.min failures 9) in Z.min (tick * factor) MAX_FLUSH_BACKOFF.
Definition wrap_i32 (n : Z) : Z := (n + 2147483648) mod 4294967296 - 2147483648.
Definition saturating_add (a b : Z) : Z := Z.min usize_max (a + b).

(** ** Tables *)
Record DocRow := mkRow {
  d_state : bytes;
  d_sv : bytes;
  d_since : Z;
  d_flushed : option str;
  d_flushed_at : option Z;
  d_activity : Z;
  d_created : Z;
}.
Record DocFile := mkFile { f_content : bytes; f_trashed : bool }.
(** What other requests do between two calls, another request that opens the same file and the
    sweep among them, and the clock. *)
Inductive Outside :=
| OWrite (file : Uuid) (content : bytes)
| OTrash (file : Uuid) (trashed : bool)
| ODelete (file : Uuid)
| OSnapshot (file : Uuid) (state sv : bytes)
| ODropRow (file : Uuid)
| OTime (d : N).
Record World := mkWorld {
  rows : gmap Uuid DocRow;
  files : gmap Uuid DocFile;
  now : Z;
  (** the next client a document is given *)
  clients : N;
  writes : list (Uuid * bytes);
  faults : list (option DomainError);
  outside : list (list Outside);
}.
Definition set_rows (m : gmap Uuid DocRow) (w : World) : World :=
  mkWorld m (files w) (now w) (clients w) (writes w) (faults w) (outside w).
Definition set_files (m : gmap Uuid DocFile) (w : World) : World :=
  mkWorld (rows w) m (now w) (clients w) (writes w) (faults w) (outside w).
Definition set_now (t : Z) (w : World) : World :=
  mkWorld (rows w) (files w) t (clients w) (writes w) (faults w) (outside w).
Definition set_clients (n : N) (w : World) : World :=
  mkWorld (rows w) (files w) (now w) n (writes w) (faults w) (outside w).
Definition log_write (file : Uuid) (content : bytes) (w : World) : World :=
  mkWorld (rows w) (files w) (now w) (clients w) (writes w ++ [(file, content)]) (faults w) (outside w).
Definition set_faults (l : list (option DomainError)) (w : World) : World :=
  mkWorld (rows w) (files w) (now w) (clients w) (writes w) l (outside w).
Definition set_outside (l : list (list Outside)) (w : World) : World :=
  mkWorld (rows w) (files w) (now w) (clients w) (writes w) (faults w) l.

(** The upsert of [save_snapshot]. *)
Definition put_snapshot (file : Uuid) (state sv : bytes) (w : World) : World :=
  let row := match rows w !! file with
             | Some r => mkRow state sv 0 (d_flushed r) (d_flushed_at r) (now w) (d_created r)
             | None => mkRow state sv 0 None None (now w) (now w)
             end in
  set_rows (<[file := row]> (rows w)) w.
(** Deleting a file deletes its row of [collab.doc_sessions]. *)
Definition befall (w : World) (o : Outside) : World :=
  match o with
  | OWrite file content =>
      match files w !! file with
      | Some f => set_files (<[file := mkFile content (f_trashed f)]> (files w)) w
      | None => w
      end
  | OTrash file b => set_files (alter (fun f => mkFile (f_content f) b) file (files w)) w
  | ODelete file => set_rows (delete file (rows w)) (set_files (delete file (files w)) w)
  | OSnapshot file state sv => put_snapshot file state sv w
  | ODropRow file => set_rows (delete file (rows w)) w
  | OTime d => set_now (now w + Z.of_N d) w
  end.
Definition W (T : Type) : Type := M World DomainError T.
Definition interfere (w : World) : World :=
  foldl befall (set_outside (tail (outside w)) w) (default [] (head (outside w))).
Definition call {T} (f : World -> result DomainError T * World) : W T := fun w =>
  let w := interfere w in
  let w' := set_faults (tail (faults w)) w in
  match default None (head (faults w)) with Some e => (Err e, w') | None => f w' end.
(** A statement: the driver's error becomes an internal one. *)
Definition sql {T} (label : str) (f : World -> T * World) : W T :=
  map_err_m (fun e => DomainError.internal_error (lit "CollabDocSessionPg") (label ++ lit ": " ++ message e))
    (call (fun w => let (v, w') := f w in (Ok v, w'))).

(** ** [CollabDocSessionPgRepository] *)
Definition load (file : Uuid) : W (option DocRow) := sql (lit "load") (fun w => (rows w !! file, w)).
Definition save_snapshot (file : Uuid) (state sv : bytes) : W unit :=
  sql (lit "save_snapshot") (fun w => (tt, put_snapshot file state sv w)).
Definition touch_after_update (file : Uuid) : W unit :=
  sql (lit "touch_after_update") (fun w =>
    (tt, set_rows (alter (fun r => mkRow (d_state r) (d_sv r) (d_since r + 1) (d_flushed r) (d_flushed_at r) (now w) (d_created r))
                     file (rows w)) w)).
Definition record_flush (file : Uuid) (content_hash : str) : W unit :=
  sql (lit "record_flush") (fun w =>
    (tt, set_rows (alter (fun r => mkRow (d_state r) (d_sv r) (d_since r) (Some content_hash) (Some (now w)) (d_activity r) (d_created r))
                     file (rows w)) w)).
Definition delete_row (file : Uuid) : W unit := sql (lit "delete") (fun w => (tt, set_rows (delete file (rows w)) w)).
(** Rows of the same age come in the order of the index. *)
Definition older (a b : Uuid * DocRow) : Prop := d_activity a.2 <= d_activity b.2.
#[global] Instance older_dec a b : Decision (older a b) := decide (d_activity a.2 <= d_activity b.2).
Definition list_stale (older_than : Z) (limit : nat) : W (list Uuid) :=
  sql (lit "list_stale") (fun w =>
    (fst <$> take limit (merge_sort older (filter (fun x : Uuid * DocRow => d_activity x.2 < older_than) (map_to_list (rows w)))), w)).

(** ** The reader and the writer *)
Section Content.
Context `{UuidText} (blake3 : bytes -> str).
Definition live_file (file : Uuid) (w : World) : result DomainError DocFile :=
  match files w !! file with
  | Some f => if f_trashed f then Err (DomainError.not_found (lit "File") (uuid_to_string file)) else Ok f
  | None => Err (DomainError.not_found (lit "File") (uuid_to_string file))
  end.
Definition read_content (file : Uuid) : W bytes := call (fun w => (f_content <$> live_file file w, w)).
Definition current_blob_hash (file : Uuid) : W (option str) :=
  call (fun w =>
    ((fun f => let hash := blake3 (f_content f) in if decide (hash = []) then None else Some hash) <$> live_file file w, w)).
(** The swap of [update_file_content_with_blob], which does not ask whether the file is in the trash. *)
Definition swap (file : Uuid) (content : bytes) (expected : option str) (w : World) : result DomainError str * World :=
  match files w !! file with
  | None => (Err (DomainError.not_found (lit "File") (uuid_to_string file)), w)
  | Some f =>
      if bool_decide (expected = None) || bool_decide (expected = Some (blake3 (f_content f))) then
        (Ok (blake3 content), log_write file content (set_files (<[file := mkFile content (f_trashed f)]> (files w)) w))
      else (Err (DomainError.precondition_failed (lit "File") (lit "content was modified concurrently")), w)
  end.
(** Ingest, then the swap; dropping caches and telling the hooks changes nothing here. *)
Definition write_content (file : Uuid) (content : bytes) (expected : option str) : W str :=
  _ ← call (fun w => (Ok tt, w));
  call (swap file content expected).
End Content.

(** ** The actor *)
Section Session.
Context `{Yrs} `{UuidText} (blake3 : bytes -> str) (utf8_error : bytes -> str) (limits : CollabLimits).

Record Actor := mkActor {
  a_file : Uuid;
  a_doc : Doc;
  last_known_blob_hash : option str;
  attached : gset N;
  updates_since_snapshot : Z;
  (** everything that was broadcast *)
  outbox : list (byte * bytes);
  last_writer : option Uuid;
  first_dirty_at : option Z;
  last_dirty_at : option Z;
  flush_failures : Z;
  flush_retry_not_before : option Z;
  last_flushed_content_hash : option str;
  doc_bytes : Z;
}.
Definition set_doc (d : Doc) (n : Z) (a : Actor) : Actor :=
  mkActor (a_file a) d (last_known_blob_hash a) (attached a) (updates_since_snapshot a) (outbox a) (last_writer a) (first_dirty_at a)
    (last_dirty_at a) (flush_failures a) (flush_retry_not_before a) (last_flushed_content_hash a) n.
Definition set_doc_bytes (n : Z) (a : Actor) : Actor := set_doc (a_doc a) n a.
Definition set_baseline (h : option str) (a : Actor) : Actor :=
  mkActor (a_file a) (a_doc a) h (attached a) (updates_since_snapshot a) (outbox a) (last_writer a) (first_dirty_at a)
    (last_dirty_at a) (flush_failures a) (flush_retry_not_before a) (last_flushed_content_hash a) (doc_bytes a).
Definition set_attached (s : gset N) (a : Actor) : Actor :=
  mkActor (a_file a) (a_doc a) (last_known_blob_hash a) s (updates_since_snapshot a) (outbox a) (last_writer a) (first_dirty_at a)
    (last_dirty_at a) (flush_failures a) (flush_retry_not_before a) (last_flushed_content_hash a) (doc_bytes a).
Definition set_since (n : Z) (a : Actor) : Actor :=
  mkActor (a_file a) (a_doc a) (last_known_blob_hash a) (attached a) n (outbox a) (last_writer a) (first_dirty_at a)
    (last_dirty_at a) (flush_failures a) (flush_retry_not_before a) (last_flushed_content_hash a) (doc_bytes a).
Definition broadcast (x : byte * bytes) (a : Actor) : Actor :=
  mkActor (a_file a) (a_doc a) (last_known_blob_hash a) (attached a) (updates_since_snapshot a) (outbox a ++ [x]) (last_writer a)
    (first_dirty_at a) (last_dirty_at a) (flush_failures a) (flush_retry_not_before a) (last_flushed_content_hash a) (doc_bytes a).
Definition dirtied (caller : Uuid) (t : Z) (a : Actor) : Actor :=
  mkActor (a_file a) (a_doc a) (last_known_blob_hash a) (attached a) (updates_since_snapshot a) (outbox a) (Some caller)
    (Some (default t (first_dirty_at a))) (Some t) (flush_failures a) (flush_retry_not_before a) (last_flushed_content_hash a) (doc_bytes a).
Definition cleaned (a : Actor) : Actor :=
  mkActor (a_file a) (a_doc a) (last_known_blob_hash a) (attached a) (updates_since_snapshot a) (outbox a) (last_writer a)
    None None (flush_failures a) (flush_retry_not_before a) (last_flushed_content_hash a) (doc_bytes a).
Definition set_flushed (h : str) (a : Actor) : Actor :=
  mkActor (a_file a) (a_doc a) (last_known_blob_hash a) (attached a) (updates_since_snapshot a) (outbox a) (last_writer a)
    (first_dirty_at a) (last_dirty_at a) (flush_failures a) (flush_retry_not_before a) (Some h) (doc_bytes a).
Definition set_retry (failures : Z) (not_before : option Z) (a : Actor) : Actor :=
  mkActor (a_file a) (a_doc a) (last_known_blob_hash a) (attached a) (updates_since_snapshot a) (outbox a) (last_writer a)
    (first_dirty_at a) (last_dirty_at a) failures not_before (last_flushed_content_hash a) (doc_bytes a).

Definition A (T : Type) : Type := M (Actor * World) CollabError T.
Definition here {T} (f : Actor -> T) : A T := gets (fun x => f x.1).
Definition upd (f : Actor -> Actor) : A unit := modify (fun x => (f x.1, x.2)).
Definition clock : A Z := gets (fun x => now x.2).
Definition stored {T} (m : W T) : A T := fun x => let (r, w) := m x.2 in (map_err Storage r, (x.1, w)).
Definition decoded {T} (label : str) (r : result str T) : A T := lift (map_err (fun e => BadUpdate (label ++ e)) r).
Definition len (s : bytes) : Z := Z.of_nat (length s).

Definition seeded (file : Uuid) (d : Doc) (baseline : option str) (since : Z) (flushed : option str) : Actor :=
  mkActor file d baseline ∅ since [] None None None 0 None flushed (len (encode_since sv_default d)).
Definition loaded_doc (row : DocRow) : result CollabError Doc :=
  u ← map_err (fun e => BadUpdate (lit "load state: " ++ e)) (decode_update (d_state row));
  map_err (fun e => BadUpdate (lit "apply loaded state: " ++ e)) (apply u doc_new).
Definition storage {T} (m : W T) : M World CollabError T := map_err_m Storage m.
Definition load_or_seed (file : Uuid) (seed_content : option bytes) (baseline : option str) : M World CollabError Actor :=
  existing ← storage (load file);
  match existing with
  | Some row =>
      d ← lift (loaded_doc row);
      mret (seeded file d baseline (d_since row) (d_flushed row))
  | None =>
      let content := default [] seed_content in
      match from_utf8 content with
      | None => raise (Storage (DomainError.new InvalidInput (lit "collab") (lit "seed content is not valid UTF-8: " ++ utf8_error content)))
      | Some text =>
          client ← gets clients;
          _ ← modify (set_clients (client + 1));
          let d := seed client text in
          _ ← storage (save_snapshot file (encode_since sv_default d) (encode_sv d));
          mret (seeded file d baseline 0 None)
      end
  end.

Definition snapshot : A unit :=
  d ← here a_doc;
  file ← here a_file;
  let s := encode_since sv_default d in
  _ ← upd (set_doc_bytes (len s));
  _ ← stored (save_snapshot file s (encode_sv d));
  upd (set_since 0).
Definition apply_update (caller : Uuid) (s : bytes) : A unit :=
  a ← here id;
  if max_doc_bytes limits <? saturating_add (doc_bytes a) (len s) then raise (DocTooLarge (a_file a) (max_doc_bytes limits))
  else
    u ← decoded (lit "decode: ") (decode_update s);
    d ← decoded (lit "apply: ") (apply u (a_doc a));
    _ ← upd (set_doc d (saturating_add (doc_bytes a) (len s)));
    _ ← stored (touch_after_update (a_file a));
    _ ← upd (fun a => set_since (wrap_i32 (updates_since_snapshot a + 1)) a);
    since ← here updates_since_snapshot;
    _ ← (if snapshot_after_updates limits <=? since then snapshot else mret tt);
    _ ← upd (broadcast (UPDATE, s));
    t ← clock;
    upd (dirtied caller t).
Definition sync_step_1 (client_sv : bytes) : A bytes :=
  d ← here a_doc;
  sv ← decoded (lit "state-vector decode: ") (decode_sv client_sv);
  mret (encode_since sv d).

Definition flush_due (t : Z) (a : Actor) : bool :=
  if match flush_retry_not_before a with Some u => t <? u | None => false end then false
  else
    match first_dirty_at a, last_dirty_at a with
    | Some first, Some last => (debounce_idle limits <=? t ⊖ last) || (debounce_max limits <=? t ⊖ first)
    | _, _ => false
    end.
Definition flush_to_blob : A bool :=
  writer ← here last_writer;
  match writer with
  | None => mret false
  | Some _ =>
      _ ← snapshot;
      a ← here id;
      let content := get_text (a_doc a) in
      let content_hash := blake3 content in
      if decide (last_flushed_content_hash a = Some content_hash) then
        _ ← upd cleaned; mret false
      else
        written ← stored (write_content blake3 (a_file a) content (last_known_blob_hash a));
        _ ← upd (set_baseline (Some written));
        _ ← stored (record_flush (a_file a) content_hash);
        _ ← upd (fun a => cleaned (set_flushed content_hash a));
        mret true
  end.

(** ** Its loop *)
Inductive SessionMsg :=
| AttachSocket (socket : N)
| DetachSocket (socket : N)
| ApplyUpdate (caller : Uuid) (s : bytes)
| ApplyAwareness (s : bytes)
| FlushToBlob
| GetText
| Snapshot
| SyncStep1 (client_sv : bytes)
| SubscribeUpdates
| Evict (reason : str)
| Shutdown.
Inductive Reply :=
| RDone (r : result CollabError unit)
| RCount (n : nat)
| RFlushed (r : result CollabError bool)
| RText (s : str)
| RSync (r : result CollabError bytes)
| RReceiver (position : nat)
| RSilence.
(** The answer, whether the loop goes on, and the actor after it. *)
Definition on_message (msg : SessionMsg) (x : Actor * World) : Reply * bool * (Actor * World) :=
  match msg with
  | AttachSocket socket => (RDone (Ok tt), true, (set_attached ({[socket]} ∪ attached x.1) x.1, x.2))
  | DetachSocket socket =>
      let rest := attached x.1 ∖ {[socket]} in
      (RCount (size rest), true, (set_attached rest x.1, x.2))
  | ApplyUpdate caller s => let (r, x) := apply_update caller s x in (RDone r, true, x)
  | ApplyAwareness s => (RDone (Ok tt), true, (broadcast (AWARENESS, s) x.1, x.2))
  | GetText => (RText (get_text (a_doc x.1)), true, x)
  | Snapshot => let (r, x) := snapshot x in (RDone r, true, x)
  | SyncStep1 client_sv => let (r, x) := sync_step_1 client_sv x in (RSync r, true, x)
  | SubscribeUpdates => (RReceiver (length (outbox x.1)), true, x)
  | FlushToBlob => let (r, x) := flush_to_blob x in (RFlushed r, true, x)
  | Evict reason => (RSilence, false, (broadcast (INTERNAL_KIND_EVICTED, reason) x.1, x.2))
  | Shutdown => (RSilence, false, x)
  end.
Definition is_kind (k : ErrorKind) (e : CollabError) : bool :=
  match e with Storage e => bool_decide (kind e = k) | _ => false end.
(** A tick: whether the loop goes on, and the actor after it. *)
Definition on_tick (x : Actor * World) : bool * (Actor * World) :=
  if flush_due (now x.2) x.1 then
    match flush_to_blob x with
    | (Ok _, (a, w)) => (true, (set_retry 0 None a, w))
    | (Err e, (a, w)) =>
        if is_kind PreconditionFailed e then (false, (broadcast (INTERNAL_KIND_EVICTED, lit "external_write_conflict") a, w))
        else if is_kind NotFound e then (false, (a, w))
        else
          let failures := Z.min u32_max (flush_failures a + 1) in
          (true, (set_retry failures (Some (now w + flush_backoff (debounce_tick limits) failures)) a, w))
    end
  else (true, x).

(** ** The service

    An actor has a number, and a [CollabSession] is the number of the actor whose inbox it sends
    to.  [actors] holds those whose loop runs; sending to another fails. *)
Record Srv := mkSrv { world : World; registry : gmap Uuid N; actors : gmap N Actor; next_actor : N }.
Definition set_world (w : World) (s : Srv) : Srv := mkSrv w (registry s) (actors s) (next_actor s).
Definition set_registry (m : gmap Uuid N) (s : Srv) : Srv := mkSrv (world s) m (actors s) (next_actor s).
Definition set_actors (m : gmap N Actor) (s : Srv) : Srv := mkSrv (world s) (registry s) m (next_actor s).
Definition put_actor (n : N) (on : bool) (a : Actor) (s : Srv) : Srv :=
  set_actors (if on then <[n := a]> (actors s) else delete n (actors s)) s.
Definition S_ (T : Type) : Type := M Srv CollabError T.
Definition on_world {T} (m : M World CollabError T) : S_ T := fun s => let (r, w) := m (world s) in (r, set_world w s).

(** Send a message and wait for the answer. *)
Definition deliver (n : N) (msg : SessionMsg) : S_ Reply := fun s =>
  match actors s !! n with
  | None => (Err SessionGone, s)
  | Some a =>
      let '(reply, on, (a, w)) := on_message msg (a, world s) in
      (Ok reply, put_actor n on a (set_world w s))
  end.
Definition tick (n : N) (s : Srv) : Srv :=
  match actors s !! n with
  | None => s
  | Some a => let '(on, (a, w)) := on_tick (a, world s) in put_actor n on a (set_world w s)
  end.
(** [attach_file]: the slow path up to the actor that is spawned, then its entry in the registry.
    The actor of a second entry ends, since nobody holds its inbox. *)
Definition open_session (file : Uuid) : S_ N :=
  row ← on_world (storage (load file));
  content ← on_world (match row with
                      | Some _ => mret None
                      | None => c ← storage (read_content file); mret (Some c)
                      end);
  hash ← attempt (on_world (storage (current_blob_hash blake3 file)));
  a ← on_world (load_or_seed file content (match hash with Ok h => h | Err _ => None end));
  n ← gets next_actor;
  _ ← modify (fun s => mkSrv (world s) (registry s) (<[n := a]> (actors s)) (n + 1));
  mret n.
Definition or_insert (file : Uuid) (n : N) : S_ N := fun s =>
  match registry s !! file with
  | Some m => (Ok m, set_actors (delete n (actors s)) s)
  | None => (Ok n, set_registry (<[file := n]> (registry s)) s)
  end.
Definition attach_file (file : Uuid) : S_ N :=
  existing ← gets (fun s => registry s !! file);
  match existing with
  | Some n => mret n
  | None => n ← open_session file; or_insert file n
  end.
(** [sessions.remove] *)
Definition unregister (file : Uuid) : S_ (option N) := fun s =>
  (Ok (registry s !! file), set_registry (delete file (registry s)) s).
Definition remove_and_tell (file : Uuid) (msg : SessionMsg) : S_ unit :=
  n ← unregister file;
  match n with
  | None => mret tt
  | Some n => _ ← attempt (deliver n msg); mret tt
  end.
Definition shutdown (file : Uuid) : S_ unit := remove_and_tell file Shutdown.
Definition evict_sessions_for_file (file : Uuid) (reason : str) : S_ unit := remove_and_tell file (Evict reason).
Fixpoint sweep (stale : list Uuid) : S_ unit :=
  match stale with
  | [] => mret tt
  | file :: rest =>
      n ← gets (fun s => registry s !! file);
      _ ← match n with Some n => _ ← attempt (deliver n FlushToBlob); mret tt | None => mret tt end;
      _ ← shutdown file;
      _ ← attempt (on_world (storage (delete_row file)));
      sweep rest
  end.
Definition gc_stale (older_than : Z) (limit : nat) : S_ nat :=
  stale ← on_world (storage (list_stale older_than limit));
  _ ← sweep stale;
  mret (length stale).

(** [{:02x}] *)
Definition hex_digit (d : Z) : byte := if d <? 10 then 48 + d else 87 + d.
Definition hex2 (b : byte) : str := [hex_digit (b / 16); hex_digit (b mod 16)].
(** What the engine decides, and the frames. *)
Context (gate : World -> Uuid -> Uuid -> Permission -> result DomainError unit).
Definition require_perm (caller file : Uuid) (p : Permission) (label : str) : S_ unit := fun s =>
  match gate (world s) caller file p with
  | Ok _ => (Ok tt, s)
  | Err _ => (Err (AuthzDenied label file), s)
  end.
Definition handle_binary_frame (caller : Uuid) (frame : BinaryFrame) : S_ (option bytes) :=
  let file := fr_file frame in
  if decide (fr_kind frame = UPDATE) then
    _ ← require_perm caller file Update (lit "update");
    n ← attach_file file;
    reply ← deliver n (ApplyUpdate caller (fr_payload frame));
    match reply with RDone r => _ ← lift r; mret None | _ => raise SessionGone end
  else if decide (fr_kind frame = AWARENESS) then
    n ← attach_file file;
    _ ← deliver n (ApplyAwareness (fr_payload frame));
    mret None
  else if decide (fr_kind frame = SYNC) then
    _ ← require_perm caller file Read (lit "read");
    n ← attach_file file;
    reply ← deliver n (SyncStep1 (fr_payload frame));
    match reply with RSync r => payload ← lift r; mret (Some payload) | _ => raise SessionGone end
  else raise (BadUpdate (lit "unknown frame kind 0x" ++ hex2 (fr_kind frame) ++ lit " (routed past parser?)")).

(** ** Steps

    What goes on between requests.  A request of [attach_file] is [Open] and [Register], with
    anything in between; other requests are deliveries to the actor they have found. *)
Inductive Event :=
| Open (file : Uuid)
| Register (file : Uuid) (n : N)
| Deliver (n : N) (msg : SessionMsg)
| Tick (n : N)
| Unregister (file : Uuid)
| DeleteRow (file : Uuid)
| Meanwhile (o : Outside)
| Crash.
Definition step (s : Srv) (e : Event) : Srv :=
  match e with
  | Open file => (open_session file s).2
  | Register file n => (or_insert file n s).2
  | Deliver n msg => (deliver n msg s).2
  | Tick n => tick n s
  | Unregister file => (unregister file s).2
  | DeleteRow file => (on_world (storage (delete_row file)) s).2
  | Meanwhile o => set_world (befall (world s) o) s
  | Crash => mkSrv (world s) ∅ ∅ (next_actor s)
  end.
Definition steps (es : list Event) (s : Srv) : Srv := foldl step s es.
End Session.

(** ** The forwarder of a subscriber ([spawn_collab_forwarder] of
    [src/src/interfaces/api/handlers/rt_ws.rs])

    What goes to the socket of a receiver that does not fall behind. *)
Inductive SessionOut := Binary (frame : bytes) | Revoked (reason : str).
Fixpoint forward (file : Uuid) (sent : list (byte * bytes)) : list SessionOut :=
  match sent with
  | [] => []
  | (kind, payload) :: rest =>
      if decide (kind = INTERNAL_KIND_EVICTED) then [Revoked (default (lit "evicted") (from_utf8 payload))]
      else Binary (encode_binary_frame kind file payload) :: forward file rest
  end.
