(* ===== verification/CollabClaims.v ===== *)
(** * Collaborative documents: what is promised

    Frames survive their encoding.  An update that was acknowledged stays in the document, and
    is in a text that was written into the file unless a flush is still due.  A flush does not
    replace what somebody else wrote while the session ran; a session opened after that does. *)

From S2P Require Import Prelude.
From S2P Require Import RustStr.
From S2P Require Import DomainErrors.
From S2P Require Import Authorization.
From S2P Require Import CollabSession.

#[local] Arguments lit : simpl never.
Local Open Scope Z_scope.

(** ** Frames *)
Lemma from_be n : forall u acc, foldl (fun u b => (u * 256 + Z.to_N b)%N) acc (be_bytes n u) = (acc * 256 ^ N.of_nat n + u mod 256 ^ N.of_nat n)%N.
Proof.
  induction n as [|n IH]; intros u acc; cbn [be_bytes foldl].
  - rewrite N.pow_0_r, N.mod_1_r. lia.
  - rewrite IH, N2Z.id. replace (N.of_nat (S n)) with (N.succ (N.of_nat n)) by lia. rewrite N.pow_succ_r'.
    set (m := (256 ^ N.of_nat n)%N). assert (m ≠ 0)%N by (apply N.pow_nonzero; lia).
    rewrite (N.mul_comm 256 m), (N.Div0.mod_mul_r u m 256). lia.
Qed.
Lemma length_be n u : length (be_bytes n u) = n.
Proof. induction n; cbn; congruence. Qed.
Lemma from_bytes_as_bytes u : (u < 2 ^ 128)%N -> from_bytes (as_bytes u) = u.
Proof.
  intros Hu. unfold from_bytes, as_bytes. rewrite from_be, N.mul_0_l, N.add_0_l. apply N.mod_small.
  by replace (256 ^ N.of_nat 16)%N with (2 ^ 128)%N by reflexivity.
Qed.
(** Parsing inverts printing. *)
Lemma parse_encoded kind u payload : kind ∈ [UPDATE; AWARENESS; SYNC] -> (u < 2 ^ 128)%N ->
  parse_binary_frame (encode_binary_frame kind u payload) = Ok (mkFrame kind u payload).
Proof.
  intros Hk Hu. pose proof (length_be 16 u) as L. unfold parse_binary_frame, encode_binary_frame.
  destruct (Nat.ltb_spec (length (kind :: as_bytes u ++ payload)) FRAME_HEADER_LEN) as [Hl|_].
  { cbn [length] in Hl. rewrite length_app in Hl. unfold as_bytes, FRAME_HEADER_LEN in Hl. lia. }
  rewrite bool_decide_eq_true_2 by done. rewrite (take_app_length' _ _ 16), (drop_app_length' _ _ 16) by (symmetry; exact L).
  by rewrite from_bytes_as_bytes.
Qed.

(** ** What no call undoes *)
Section Claims.
Context `{Yrs} `{UuidText} (blake3 : bytes -> str) `{!Inj (=) (=) blake3} (utf8_error : bytes -> str) (limits : CollabLimits).
#[local] Abbreviation step := (step blake3 utf8_error limits).
#[local] Abbreviation steps := (steps blake3 utf8_error limits).
#[local] Abbreviation deliver := (deliver blake3 limits).

(** A flush has put a text with that hash into the file. *)
Definition recorded (w : World) (file : Uuid) (h : str) : Prop := exists c, blake3 c = h ∧ (file, c) ∈ writes w.
Definition marks_true (w : World) : Prop := forall file r h, rows w !! file = Some r -> d_flushed r = Some h -> recorded w file h.
Definition later (w w' : World) : Prop := (forall x, x ∈ writes w -> x ∈ writes w') ∧ (marks_true w -> marks_true w').
#[export] Instance later_preorder : PreOrder later.
Proof. split; [done|]. intros w w' w'' [A1 A2] [B1 B2]. split; eauto. Qed.
Lemma recorded_later w w' file h : later w w' -> recorded w file h -> recorded w' file h.
Proof. intros [L _] (c & E & Hin). exists c. eauto. Qed.
(** New rows carry marks that old rows had, or marks that are true. *)
Lemma later_rows w w' : writes w' = writes w ->
  (forall file r h, rows w' !! file = Some r -> d_flushed r = Some h ->
     recorded w file h ∨ exists r0, rows w !! file = Some r0 ∧ d_flushed r0 = Some h) -> later w w'.
Proof.
  intros Ew Hr. split; [by rewrite Ew|]. intros Hm file r h E D. unfold recorded. rewrite Ew.
  destruct (Hr _ _ _ E D) as [?|(r0 & E0 & D0)]; [done|]. by eapply Hm.
Qed.
Lemma later_same w w' : writes w' = writes w -> rows w' = rows w -> later w w'.
Proof. intros Ew Er. apply later_rows; [done|]. rewrite Er. eauto. Qed.
Lemma put_later file s sv w : later w (put_snapshot file s sv w).
Proof.
  apply later_rows; [done|]. intros f r h E D. right. cbn in E. destruct (decide (f = file)) as [->|N].
  - rewrite lookup_insert_eq in E. destruct (rows w !! file) as [r0|] eqn:E0; simplify_eq/=; by exists r0.
  - rewrite lookup_insert_ne in E by done. by exists r.
Qed.
Lemma drop_later file w : later w (set_rows (delete file (rows w)) w).
Proof. apply later_rows; [done|]. cbn. intros f r h [_ E]%lookup_delete_Some D. right. by exists r. Qed.
Lemma befall_later w o : later w (befall w o).
Proof.
  destruct o; cbn [befall]; try (by apply later_same); [case_match; by apply later_same| |apply put_later|apply drop_later].
  trans (set_files (delete file (files w)) w); [by apply later_same|]. apply (drop_later file (set_files (delete file (files w)) w)).
Qed.
Lemma interfere_later w : later w (interfere w).
Proof.
  unfold interfere. generalize (default [] (head (outside w))). intros l.
  trans (set_outside (tail (outside w)) w); [by apply later_same|]. generalize (set_outside (tail (outside w)) w). clear.
  induction l as [|o l IH]; intros w; cbn; [done|]. trans (befall w o); [apply befall_later|apply IH].
Qed.
Lemma call_later {T} (f : World -> result DomainError T * World) w : (forall w1, later w w1 -> later w1 (f w1).2) -> later w (call f w).2.
Proof.
  intros Hf. unfold call. set (w1 := set_faults _ (interfere w)).
  assert (later w w1) as L by (trans (interfere w); [apply interfere_later|by apply later_same]).
  destruct (default None _); [done|]. trans w1; [done|]. by apply Hf.
Qed.
Lemma sql_later {T} label (f : World -> T * World) w : (forall w1, later w w1 -> later w1 (f w1).2) -> later w (sql label f w).2.
Proof.
  intros Hf. unfold sql, map_err_m. pose proof (call_later (fun w => let (v, w') := f w in (Ok v, w')) w) as C.
  destruct (call _ w) as [r w']. apply C. intros w1 L. specialize (Hf w1 L). by destruct (f w1).
Qed.
Lemma load_later file w : later w (load file w).2.
Proof. apply sql_later. by intros. Qed.
Lemma save_later file s sv w : later w (save_snapshot file s sv w).2.
Proof. apply sql_later. intros w1 _. apply put_later. Qed.
Lemma alter_later w (g : DocRow -> DocRow) file :
  (forall r h, d_flushed (g r) = Some h -> d_flushed r = Some h ∨ recorded w file h) -> later w (set_rows (alter g file (rows w)) w).
Proof.
  intros Hg. apply later_rows; [done|]. intros f r h E D. cbn in E. destruct (decide (f = file)) as [->|N].
  - rewrite lookup_alter_eq in E. destruct (rows w !! file) as [r0|] eqn:E0; simplify_eq/=. destruct (Hg _ _ D); [right|by left]. by exists r0.
  - rewrite lookup_alter_ne in E by done. right. by exists r.
Qed.
Lemma touch_later file w : later w (touch_after_update file w).2.
Proof. apply sql_later. intros w1 _. apply alter_later. by left. Qed.
Lemma record_later file h w : recorded w file h -> later w (record_flush file h w).2.
Proof. intros R. apply sql_later. intros w1 L. apply alter_later. intros r h' [= <-]. right. by eapply recorded_later. Qed.
Lemma delete_later file w : later w (delete_row file w).2.
Proof. apply sql_later. intros w1 _. apply drop_later. Qed.
Lemma swap_later file content expected w : later w (swap blake3 file content expected w).2.
Proof.
  unfold swap. destruct (files w !! file); [|done]. destruct (_ || _); [|done]. split; cbn.
  - intros x Hx. by apply elem_of_app; left.
  - intros Hm f r h E D. destruct (Hm f r h E D) as (c & Ec & Hin). exists c. split; [done|]. cbn. by apply elem_of_app; left.
Qed.
Lemma write_later file content expected w : later w (write_content blake3 file content expected w).2.
Proof.
  unfold write_content. unfold_m. pose proof (call_later (fun w => (Ok tt, w)) w (fun w1 _ => reflexivity w1)) as L.
  destruct (call _ w) as [[|] w1]; [|done]. trans w1; [done|]. apply call_later. intros. apply swap_later.
Qed.
Lemma write_logs file content expected w h w' :
  write_content blake3 file content expected w = (Ok h, w') -> h = blake3 content ∧ (file, content) ∈ writes w'.
Proof.
  unfold write_content, call. unfold_m. destruct (default None _); [done|]. destruct (default None _); [done|].
  unfold swap. destruct (files _ !! file); [|done]. destruct (_ || _); [|done]. intros [= <- <-]. split; [done|].
  cbn. apply elem_of_app. right. by left.
Qed.

(** ** The actor *)
Definition sent (a : Actor) : list bytes := (filter (fun x => x.1 = UPDATE) (outbox a)).*2.
(** The same but for counters and retries. *)
Definition core (a : Actor) : Uuid * Doc * list (byte * bytes) * option Uuid * option Z * option Z * option str :=
  (a_file a, a_doc a, outbox a, last_writer a, first_dirty_at a, last_dirty_at a, last_flushed_content_hash a).
Record good_actor (w : World) (a : Actor) : Prop := {
  ga_known b : b ∈ sent a -> knows (a_doc a) b;
  ga_dirty : first_dirty_at a = None <-> last_dirty_at a = None;
  ga_saved : first_dirty_at a = None -> sent a = [] ∨ exists d, (forall b, b ∈ sent a -> knows d b) ∧ (a_file a, get_text d) ∈ writes w;
  ga_flushed h : last_flushed_content_hash a = Some h -> recorded w (a_file a) h;
  ga_writer : last_writer a = None -> sent a = [];
}.
Lemma good_core w w' a a' : core a = core a' -> later w w' -> good_actor w a -> good_actor w' a'.
Proof.
  unfold core. intros E L [G1 G2 G3 G4 G5]. injection E as E1 E2 E3 E4 E5 E6 E7.
  assert (sent a' = sent a) as Es by (unfold sent; by rewrite E3).
  split; rewrite ?Es, <- ?E1, <- ?E2, <- ?E4, <- ?E5, <- ?E6, <- ?E7; [done..| | |done].
  - intros F. destruct (G3 F) as [?|(d & K & I)]; [by left|right]. exists d. split; [done|]. by apply L.
  - intros h Hh. eapply recorded_later; eauto.
Qed.
Lemma stored_run {T} (m : W T) a w : stored m (a, w) = let (r, w') := m w in (map_err Storage r, (a, w')).
Proof. done. Qed.
Lemma snapshot_core a w r a' w' : snapshot (a, w) = (r, (a', w')) ->
  core a' = core a ∧ last_known_blob_hash a' = last_known_blob_hash a ∧ attached a' = attached a ∧ later w w'.
Proof.
  unfold snapshot, here, upd. unfold_m. rewrite stored_run. cbn [fst snd].
  pose proof (save_later (a_file a) (encode_since sv_default (a_doc a)) (encode_sv (a_doc a)) w) as L. destruct (save_snapshot _ _ _ w) as [[|] w1]; cbn;
    intros E; injection E as <- <- <-; done.
Qed.
Lemma knows_apply u d d' b : knows d b -> apply u d = Ok d' -> knows d' b.
Proof. intros (v & D & K) E. exists v. split; [done|]. by eapply apply_keeps. Qed.
(** What handling an update may change; the last clause is about one that is refused. *)
Definition heard (caller : Uuid) (s : bytes) (a a' : Actor) (r : result CollabError unit) : Prop :=
  match r with
  | Ok _ => knows (a_doc a') s ∧ outbox a' = outbox a ++ [(UPDATE, s)] ∧ last_writer a' = Some caller
            ∧ first_dirty_at a' ≠ None ∧ last_dirty_at a' ≠ None
  | Err _ => outbox a' = outbox a ∧ last_writer a' = last_writer a ∧ first_dirty_at a' = first_dirty_at a ∧ last_dirty_at a' = last_dirty_at a
  end.
Lemma apply_update_spec caller s a w r a' w' : apply_update limits caller s (a, w) = (r, (a', w')) ->
  later w w' ∧ a_file a' = a_file a ∧ last_known_blob_hash a' = last_known_blob_hash a ∧ attached a' = attached a
  ∧ last_flushed_content_hash a' = last_flushed_content_hash a ∧ (forall b, knows (a_doc a) b -> knows (a_doc a') b) ∧ heard caller s a a' r.
Proof.
  unfold apply_update, here, upd, clock, decoded. unfold_m. cbn [fst snd id].
  destruct (_ <? _); [by intros [= <- <- <-]|].
  destruct (decode_update s) as [u|] eqn:D; cbn [map_err]; [|by intros [= <- <- <-]].
  destruct (apply u (a_doc a)) as [d|] eqn:Ap; cbn [map_err]; [|by intros [= <- <- <-]].
  assert (knows d s) as Ks by (exists u; split; [done|by eapply apply_twice]).
  assert (forall b, knows (a_doc a) b -> knows d b) as Kd by (intros b Hb; by eapply knows_apply).
  rewrite stored_run. cbn [fst snd id]. pose proof (touch_later (a_file a) w) as L1. destruct (touch_after_update (a_file a) w) as [[[]|e] w1]; cbn [map_err snd] in *.
  2:{ by intros [= <- <- <-]. }
  cbn [fst snd]. destruct (_ <=? _).
  - destruct (snapshot _) as [r2 [a2 w2]] eqn:Sn. destruct (snapshot_core _ _ _ _ _ Sn) as (C & Hb & Hat & L2).
    unfold core in C. injection C as C1 C2 C3 C4 C5 C6 C7. cbn in *. assert (later w w2) as L by (by trans w1).
    destruct r2; intros [= <- <- <-]; cbn; rewrite ?C1, ?C2, ?C3, ?C4, ?C5, ?C6, ?C7; done.
  - intros [= <- <- <-]. cbn. done.
Qed.

Definition flushed (a a' : Actor) (w' : World) (r : result CollabError bool) : Prop :=
  match r with
  | Ok true => last_writer a ≠ None ∧ (a_file a, get_text (a_doc a)) ∈ writes w' ∧ last_flushed_content_hash a' = Some (blake3 (get_text (a_doc a)))
               ∧ last_known_blob_hash a' = Some (blake3 (get_text (a_doc a))) ∧ first_dirty_at a' = None ∧ last_dirty_at a' = None
  | Ok false => last_flushed_content_hash a' = last_flushed_content_hash a
                ∧ (last_writer a = None ∧ first_dirty_at a' = first_dirty_at a ∧ last_dirty_at a' = last_dirty_at a
                   ∨ last_flushed_content_hash a = Some (blake3 (get_text (a_doc a))) ∧ first_dirty_at a' = None ∧ last_dirty_at a' = None)
  | Err _ => last_flushed_content_hash a' = last_flushed_content_hash a ∧ first_dirty_at a' = first_dirty_at a ∧ last_dirty_at a' = last_dirty_at a
  end.
Lemma flush_spec a w r a' w' : flush_to_blob blake3 (a, w) = (r, (a', w')) ->
  later w w' ∧ a_file a' = a_file a ∧ a_doc a' = a_doc a ∧ outbox a' = outbox a ∧ last_writer a' = last_writer a ∧ flushed a a' w' r.
Proof.
  unfold flush_to_blob, here, upd. unfold_m. cbn [fst snd id].
  destruct (last_writer a) as [wr|] eqn:Wr; [|intros [= <- <- <-]; cbn; repeat split; by auto].
  destruct (snapshot (a, w)) as [r1 [a1 w1]] eqn:Sn. destruct (snapshot_core _ _ _ _ _ Sn) as (C & Hb & Hat & L1).
  unfold core in C. injection C as C1 C2 C3 C4 C5 C6 C7.
  destruct r1 as [[]|e]; cbn [fst snd].
  2:{ intros [= <- <- <-]. rewrite C1, C2, C3, C4. cbn. by rewrite C5, C6, C7, Wr. }
  destruct (decide _) as [Eh|Nh].
  { intros [= <- <- <-]. cbn. rewrite C1, C2, C3, C4, C7, Wr. rewrite C7, C2 in Eh. repeat split; auto; apply L1. }
  rewrite stored_run. cbn [fst snd id]. pose proof (write_later (a_file a1) (get_text (a_doc a1)) (last_known_blob_hash a1) w1) as L2.
  destruct (write_content _ _ _ _ w1) as [[h|e] w2] eqn:Ew; cbn [map_err snd] in *.
  2:{ intros [= <- <- <-]. rewrite C1, C2, C3, C4. cbn. rewrite C5, C6, C7, Wr. split; [by trans w1|by repeat split]. }
  destruct (write_logs _ _ _ _ _ _ Ew) as [-> Hin].
  rewrite stored_run. cbn [fst snd set_baseline a_file].
  pose proof (record_later (a_file a1) (blake3 (get_text (a_doc a1))) w2) as L3. cbn in L3.
  assert (later w (record_flush (a_file a1) (blake3 (get_text (a_doc a1))) w2).2) as L.
  { trans w1; [done|]. trans w2; [done|]. apply L3. by exists (get_text (a_doc a1)). }
  destruct (record_flush _ _ w2) as [[[]|e] w3]; cbn [map_err snd] in *; intros [= <- <- <-]; cbn; rewrite C1, C2, C3, C4, ?C5, ?C6, ?C7, Wr;
    (split; [exact L|]); repeat split; auto.
  rewrite <- C1, <- C2. refine (proj1 (L3 _) _ Hin). by exists (get_text (a_doc a1)).
Qed.

Lemma sent_app a l : (filter (fun x : byte * bytes => x.1 = UPDATE) (outbox a ++ l)).*2 = sent a ++ (filter (fun x : byte * bytes => x.1 = UPDATE) l).*2.
Proof. unfold sent. by rewrite list.filter_app, fmap_app. Qed.
Lemma apply_good caller s a w r a' w' : good_actor w a -> apply_update limits caller s (a, w) = (r, (a', w')) -> good_actor w' a'.
Proof.
  intros [G1 G2 G3 G4 G5] E. destruct (apply_update_spec _ _ _ _ _ _ _ E) as (L & Ef & _ & _ & Eh & K & Hd). destruct r as [[]|e]; cbn in Hd.
  - destruct Hd as (Ks & Eo & Ew & F & Ld). split; rewrite ?Ef, ?Eh; unfold sent; rewrite ?Eo, ?sent_app, ?Ew; cbn.
    + intros b Hb. apply elem_of_app in Hb as [Hb|Hb]; [by apply K, G1|by apply list_elem_of_singleton in Hb as ->].
    + done.
    + done.
    + intros h Hh. eapply recorded_later; eauto.
    + done.
  - destruct Hd as (Eo & Ew & F & Ld). assert (sent a' = sent a) as Es by (unfold sent; by rewrite Eo).
    split; rewrite ?Ef, ?Eh, ?Es, ?Ew, ?F, ?Ld; [auto|done| | |done].
    + intros Hf. destruct (G3 Hf) as [?|(d & Kd & Hin)]; [by left|right]. exists d. split; [done|]. by apply L.
    + intros h Hh. eapply recorded_later; eauto.
Qed.
Lemma flush_good a w r a' w' : good_actor w a -> flush_to_blob blake3 (a, w) = (r, (a', w')) -> good_actor w' a'.
Proof.
  intros [G1 G2 G3 G4 G5] E. destruct (flush_spec _ _ _ _ _ E) as (L & Ef & Ed & Eo & Ew & Hd).
  assert (sent a' = sent a) as Es by (unfold sent; by rewrite Eo).
  assert (forall h, last_flushed_content_hash a' = last_flushed_content_hash a -> last_flushed_content_hash a' = Some h -> recorded w' (a_file a) h) as Hm.
  { intros h -> Hh. eapply recorded_later; eauto. }
  split; rewrite ?Ef, ?Ed, ?Es, ?Ew; [done| | | |done]; destruct r as [[]|e]; cbn in Hd.
  - destruct Hd as (_ & _ & _ & _ & -> & ->). done.
  - destruct Hd as (_ & [(_ & -> & ->)|(_ & -> & ->)]); done.
  - destruct Hd as (_ & -> & ->). done.
  - destruct Hd as (_ & Hin & _). intros _. right. by exists (a_doc a).
  - destruct Hd as (_ & [(Wn & _ & _)|(Hh & _ & _)]); intros _; [left; auto|right]. exists (a_doc a). split; [done|].
    destruct (G4 _ Hh) as (c & Ec & Hin). apply Inj0 in Ec as ->. by apply L.
  - destruct Hd as (_ & -> & _). intros Hf. destruct (G3 Hf) as [?|(d & Kd & Hin)]; [by left|right]. exists d. split; [done|]. by apply L.
  - intros h Hh. destruct Hd as (_ & Hin & Eh & _). rewrite Eh in Hh. injection Hh as <-. by exists (get_text (a_doc a)).
  - intros h. apply Hm, Hd.
  - intros h. apply Hm, Hd.
Qed.
Lemma broadcast_good w k s a : k ≠ UPDATE -> good_actor w a -> good_actor w (broadcast (k, s) a).
Proof.
  intros Hk [G1 G2 G3 G4 G5]. assert (sent (broadcast (k, s) a) = sent a) as Es.
  { unfold sent at 1. cbn [outbox broadcast]. rewrite sent_app, list.filter_cons_False by done. cbn. apply app_nil_r. }
  split; rewrite ?Es; done.
Qed.
Definition continues (x x' : Actor * World) : Prop :=
  later x.2 x'.2 ∧ a_file x'.1 = a_file x.1 ∧ (forall b, knows (a_doc x.1) b -> knows (a_doc x'.1) b) ∧ outbox x.1 `prefix_of` outbox x'.1.
Lemma on_message_good msg a w rep on a' w' : good_actor w a ->
  on_message blake3 limits msg (a, w) = (rep, on, (a', w')) -> continues (a, w) (a', w') ∧ good_actor w' a'.
Proof.
  intros G. unfold continues. cbn [fst snd]. destruct msg; cbn [on_message fst snd].
  1, 2: intros [= <- <- <- <-]; (split; [by repeat split|]); apply (good_core w w a); [done|reflexivity|done].
  - destruct (apply_update limits caller s (a, w)) as [r [a1 w1]] eqn:E. intros [= <- <- <- <-].
    pose proof (apply_good _ _ _ _ _ _ _ G E) as G'. destruct (apply_update_spec _ _ _ _ _ _ _ E) as (L & Ef & _ & _ & _ & K & Hd).
    split; [|done]. split_and!; [apply L..|done|done|]. destruct r; cbn in Hd; [destruct Hd as (_ & -> & _); by eexists|by destruct Hd as (-> & _)].
  - intros [= <- <- <- <-]. split; [|by apply broadcast_good]. repeat split; try done. by eexists.
  - destruct (flush_to_blob blake3 (a, w)) as [r [a1 w1]] eqn:E. intros [= <- <- <- <-].
    pose proof (flush_good _ _ _ _ _ G E) as G'. destruct (flush_spec _ _ _ _ _ E) as (L & Ef & Ed & Eo & _). rewrite Ed, Eo. split; [|done]. split_and!; try done; apply L.
  - intros [= <- <- <- <-]. split; [|done]. by repeat split.
  - destruct (snapshot (a, w)) as [r [a1 w1]] eqn:E. intros [= <- <- <- <-]. destruct (snapshot_core _ _ _ _ _ E) as (C & _ & _ & L).
    split; [|eapply good_core; [by symmetry|done..]]. unfold core in C. injection C as C1 C2 C3 _ _ _ _. rewrite C1, C2, C3. split_and!; try done; apply L.
  - destruct (sync_step_1 client_sv (a, w)) as [r x] eqn:E. assert (x = (a, w)) as ->.
    { revert E. unfold sync_step_1, here, decoded. unfold_m. destruct (decode_sv client_sv); cbn; by intros [= _ <-]. }
    intros [= <- <- <- <-]. split; [|done]. by repeat split.
  - intros [= <- <- <- <-]. split; [|done]. by repeat split.
  - intros [= <- <- <- <-]. split; [|by apply broadcast_good]. repeat split; try done. by eexists.
  - intros [= <- <- <- <-]. split; [|done]. by repeat split.
Qed.
Lemma on_tick_good a w on a' w' : good_actor w a -> on_tick blake3 limits (a, w) = (on, (a', w')) -> continues (a, w) (a', w') ∧ good_actor w' a'.
Proof.
  intros G. unfold on_tick, continues. cbn [fst snd]. destruct (flush_due _ _ _); [|by intros [= <- <- <-]].
  destruct (flush_to_blob blake3 (a, w)) as [r [a1 w1]] eqn:E. pose proof (flush_good _ _ _ _ _ G E) as G1.
  destruct (flush_spec _ _ _ _ _ E) as (L & Ef & Ed & Eo & _).
  destruct r; [|destruct (is_kind PreconditionFailed e); [|destruct (is_kind NotFound e)]]; intros [= <- <- <-]; cbn; rewrite Ef, Ed, Eo;
    (split; [split_and!; try done; by eexists|]); [by apply (good_core w1 w1 a1)|by apply broadcast_good|done|by apply (good_core w1 w1 a1)].
Qed.

(** ** The service *)
Definition good (s : Srv) : Prop :=
  marks_true (world s) ∧ forall n a, actors s !! n = Some a -> (n < next_actor s)%N ∧ good_actor (world s) a.
Lemma good_world w s : later (world s) w -> good s -> good (set_world w s).
Proof.
  intros L [Hm Ha]. split; [by apply L|]. intros n a E. destruct (Ha n a E). split; [done|]. by apply (good_core (world s) w a).
Qed.
Lemma load_marks file w row w' h : load file w = (Ok (Some row), w') -> marks_true w' -> d_flushed row = Some h -> recorded w' file h.
Proof.
  unfold load, sql, map_err_m, call. destruct (default None _); [done|]. intros [= E <-] Hm D. exact (Hm file row h E D).
Qed.
(** An actor that has just been spawned. *)
Definition newborn (file : Uuid) (baseline : option str) (w : World) (a : Actor) : Prop :=
  a_file a = file ∧ outbox a = [] ∧ last_writer a = None ∧ first_dirty_at a = None ∧ last_dirty_at a = None
  ∧ last_known_blob_hash a = baseline ∧ flush_retry_not_before a = None
  ∧ (marks_true w -> forall h, last_flushed_content_hash a = Some h -> recorded w file h).
Lemma newborn_good file b w a : marks_true w -> newborn file b w a -> good_actor w a.
Proof.
  intros Hm (Ef & Eo & Ew & F & Ld & _ & _ & Hh). specialize (Hh Hm). assert (sent a = []) as Es by (unfold sent; by rewrite Eo).
  split; rewrite ?Es, ?Ef; [|by rewrite F, Ld|by left|done..]. intros x Hx. by apply not_elem_of_nil in Hx.
Qed.
Lemma load_or_seed_spec file c b w r w' : load_or_seed utf8_error file c b w = (r, w') ->
  later w w' ∧ forall a, r = Ok a -> newborn file b w' a.
Proof.
  unfold load_or_seed, storage, map_err_m. unfold_m. pose proof (load_later file w) as L.
  destruct (load file w) as [[[row|]|e] w1] eqn:E; cbn [map_err snd] in *.
  - destruct (loaded_doc row); intros [= <- <-]; (split; [done|]); [|done]. intros a [= <-]. repeat split. cbn. intros Hm h Hh. by eapply load_marks.
  - destruct (from_utf8 _) as [text|]; [|by intros [= <- <-]]. cbn [snd].
    set (d := seed _ text). set (w2 := set_clients _ w1). assert (later w w2) as L2 by (trans w1; [done|by apply later_same]).
    pose proof (save_later file (encode_since sv_default d) (encode_sv d) w2) as L3.
    destruct (save_snapshot _ _ _ w2) as [[|] w3]; intros [= <- <-]; (split; [by trans w2|]); [|done]. intros a [= <-]. by repeat split.
  - by intros [= <- <-].
Qed.
Lemma open_session_spec file s r s' : open_session blake3 utf8_error file s = (r, s') ->
  later (world s) (world s') ∧ registry s' = registry s
  ∧ (actors s' = actors s ∧ next_actor s' = next_actor s
     ∨ exists a b, r = Ok (next_actor s) ∧ newborn file b (world s') a ∧ actors s' = <[next_actor s := a]> (actors s) ∧ next_actor s' = (next_actor s + 1)%N).
Proof.
  unfold open_session, on_world, storage, map_err_m, attempt. unfold_m. pose proof (load_later file (world s)) as L1.
  destruct (load file (world s)) as [[row|e] w1]; cbn [map_err snd world set_world] in *; [|intros [= <- <-]; split_and!; [apply L1..|done|by left]].
  set (content := match row with Some _ => _ | None => _ end).
  assert (forall r2 w2, content w1 = (r2, w2) -> later w1 w2) as Lc.
  { intros r2 w2. unfold content. destruct row; [by intros [= <- <-]|].
    pose proof (call_later (fun w => (f_content <$> live_file file w, w)) w1 (fun w _ => reflexivity w)) as L. unfold read_content.
    destruct (call _ w1) as [[|] w3]; intros [= <- <-]; apply L. }
  destruct (content w1) as [[c|e] w2] eqn:Ec; cbn [world set_world]; specialize (Lc _ _ eq_refl).
  2:{ intros [= <- <-]. cbn. split_and!; [by trans w1..|done|by left]. }
  pose proof (call_later (fun w => ((fun f => let hash := blake3 (f_content f) in if decide (hash = []) then None else Some hash) <$> live_file file w, w)) w2 (fun w _ => reflexivity w)) as L3.
  unfold current_blob_hash. destruct (call _ w2) as [hash w3]; cbn [world set_world snd] in *.
  destruct (load_or_seed _ _ _ _ w3) as [ra w4] eqn:El. assert (later (world s) w3) as L by (trans w1; [done|]; by trans w2).
  destruct (load_or_seed_spec _ _ _ _ _ _ El) as [L4 N].
  destruct ra as [a|e]; cbn [world set_world next_actor registry actors]; intros [= <- <-]; cbn.
  - split_and!; [by trans w3..|done|]. right. eexists a, _. split_and!; [done|by apply N|done|done].
  - split_and!; [by trans w3..|done|by left].
Qed.
(** Actors that run now ran before, or are new; they forget nothing. *)
Definition follows (s s' : Srv) : Prop :=
  later (world s) (world s') ∧ (next_actor s <= next_actor s')%N
  ∧ forall n a', actors s' !! n = Some a' -> (n < next_actor s)%N ->
      exists a, actors s !! n = Some a ∧ a_file a' = a_file a ∧ (forall b, knows (a_doc a) b -> knows (a_doc a') b) ∧ outbox a `prefix_of` outbox a'.
#[export] Instance follows_preorder : PreOrder follows.
Proof.
  split; [intros s; split_and!; [done..|]; intros n a E _; by exists a|]. intros s s' s'' (L1 & N1 & A1) (L2 & N2 & A2).
  split_and!; [by trans (world s')|by trans (next_actor s')|]. intros n a2 E Hn. destruct (A2 n a2 E ltac:(lia)) as (a1 & E1 & F1 & K1 & P1).
  destruct (A1 n a1 E1 Hn) as (a & Ea & F & K & P). exists a. split_and!; [done|congruence|auto|by trans (outbox a1)].
Qed.
Lemma put_follows s n a w on a' : good s -> actors s !! n = Some a -> continues (a, world s) (a', w) -> good_actor w a' ->
  good (put_actor n on a' (set_world w s)) ∧ follows s (put_actor n on a' (set_world w s)).
Proof.
  intros G E (L & Ef & K & P) Ga. cbn [fst snd] in *. destruct (good_world w s L G) as [Hm Ha]. destruct (Ha n a E) as [Hn _]. cbn in Hn.
  unfold put_actor. destruct on; (split; [split; [exact Hm|]|split_and!; [apply L..|cbn; lia|]]); cbn; intros m x.
  - intros [(<- & <-)|(Nm & Em)]%lookup_insert_Some; [done|]. by apply (Ha m x).
  - intros [(<- & <-)|(Nm & Em)]%lookup_insert_Some _; [by exists a|by exists x].
  - intros [Nm Em]%lookup_delete_Some. by apply (Ha m x).
  - intros [Nm Em]%lookup_delete_Some _. by exists x.
Qed.
Lemma deliver_follows n msg s : good s -> good (deliver n msg s).2 ∧ follows s (deliver n msg s).2.
Proof.
  intros G. unfold deliver. destruct (actors s !! n) as [a|] eqn:E; [|done].
  destruct (on_message _ _ _ _) as [[rep on] [a' w']] eqn:Em. destruct (on_message_good _ _ _ _ _ _ _ (proj2 (proj2 G n a E)) Em). by eapply put_follows.
Qed.
Lemma tick_follows n s : good s -> good (tick blake3 limits n s) ∧ follows s (tick blake3 limits n s).
Proof.
  intros G. unfold tick. destruct (actors s !! n) as [a|] eqn:E; [|done].
  destruct (on_tick _ _ _) as [on [a' w']] eqn:Em. destruct (on_tick_good _ _ _ _ _ (proj2 (proj2 G n a E)) Em). by eapply put_follows.
Qed.
(** Only the registry changes, or actors end, or the world goes on. *)
Lemma fewer_follows s s' : good s -> later (world s) (world s') -> next_actor s' = next_actor s -> actors s' ⊆ actors s -> good s' ∧ follows s s'.
Proof.
  intros G L En Sub. destruct (good_world (world s') s L G) as [Hm Ha]. split; [split; [exact Hm|]|split_and!; [apply L..|lia|]].
  - intros n a E. rewrite En. apply (Ha n a). by eapply lookup_weaken.
  - intros n a E _. exists a. split_and!; try done. by eapply lookup_weaken.
Qed.
Lemma open_follows file s : good s -> good (open_session blake3 utf8_error file s).2 ∧ follows s (open_session blake3 utf8_error file s).2.
Proof.
  intros G. destruct (open_session _ _ _ _) as [r s'] eqn:E. cbn [snd]. destruct (open_session_spec _ _ _ _ E) as (L & _ & [[Ea En]|(a & b & _ & N & Ea & En)]).
  { apply fewer_follows; [done..|by rewrite Ea]. }
  destruct (good_world (world s') s L G) as [Hm Ha]. split; [split; [exact Hm|]|split_and!; [apply L..|lia|]]; intros n x; rewrite Ea; intros [(<- & <-)|(Nm & Em)]%lookup_insert_Some.
  - split; [lia|]. by eapply newborn_good.
  - destruct (Ha n x Em) as [Hn ?]. cbn in Hn. split; [lia|done].
  - lia.
  - intros _. by exists x.
Qed.
Lemma step_follows e s : good s -> good (step s e) ∧ follows s (step s e).
Proof.
  intros G. destruct e; cbn [CollabSession.step].
  - by apply open_follows.
  - unfold or_insert. destruct (registry s !! file); cbn [snd]; (apply fewer_follows; [done..|]); [apply delete_subseteq|done].
  - by apply deliver_follows.
  - by apply tick_follows.
  - by apply fewer_follows.
  - unfold on_world, storage, map_err_m. pose proof (delete_later file (world s)) as L. destruct (delete_row file (world s)) as [r w]. by apply fewer_follows.
  - apply fewer_follows; [done|apply befall_later|done..].
  - apply fewer_follows; [done..|]. apply map_empty_subseteq.
Qed.
Lemma steps_follow es : forall s, good s -> good (steps es s) ∧ follows s (steps es s).
Proof.
  induction es as [|e es IH]; intros s G; [done|]. destruct (step_follows e s G) as [G1 F1]. destruct (IH _ G1) as [G2 F2].
  split; [done|]. cbn. by trans (step s e).
Qed.

(** ** Writes of others *)
Section Others.
Context (file : Uuid) (c : bytes).
Definition keeps_off (o : Outside) : Prop := match o with OWrite f _ => f ≠ file | _ => True end.
(** The file, if it is there, has that content, and nobody is about to write it. *)
Definition still (w : World) : Prop :=
  (forall f, files w !! file = Some f -> f_content f = c) ∧ Forall (Forall keeps_off) (outside w).
Definition wary (a : Actor) : Prop := a_file a = file -> exists h, last_known_blob_hash a = Some h ∧ h ≠ blake3 c.
Lemma still_same w w' : files w' = files w -> outside w' = outside w -> still w -> still w'.
Proof. unfold still. by intros -> ->. Qed.
Lemma befall_still w o : keeps_off o -> still w -> still (befall w o).
Proof.
  intros Ho [Hf Hq]. destruct o as [f x|f b|f|f x sv|f|d]; cbn in *; [case_match; [|by split]| | |by split..]; (split; [|exact Hq]); cbn; intros g.
  - rewrite lookup_insert_ne by done. apply Hf.
  - destruct (decide (f = file)) as [->|N]; [|rewrite lookup_alter_ne by done; exact (Hf g)].
    rewrite lookup_alter_eq. destruct (files w !! file) as [f0|] eqn:E; [|done]. intros [= <-]. exact (Hf f0 eq_refl).
  - intros [_ E]%lookup_delete_Some. by apply Hf.
Qed.
Lemma interfere_still w : still w -> still (interfere w).
Proof.
  intros [Hf Hq]. unfold interfere. destruct (outside w) as [|l rest] eqn:E; cbn [head tail default].
  - cbn. split; [apply Hf|by constructor].
  - apply list.Forall_cons in Hq as [Hl Hr]. unfold id. assert (still (set_outside rest w)) as S0 by (split; [exact Hf|done]).
    revert S0. generalize (set_outside rest w). clear Hr E Hf. induction Hl as [|o l Ho _ IH]; intros w1 S1; cbn; [done|]. by apply IH, befall_still.
Qed.
Lemma call_still {T} (f : World -> result DomainError T * World) w : (forall w1, still w1 -> still (f w1).2) -> still w -> still (call f w).2.
Proof.
  intros Hf S. unfold call. assert (still (set_faults (tail (faults (interfere w))) (interfere w))) as S1.
  { eapply still_same; [..|by apply interfere_still]; done. }
  destruct (default None _); [done|]. by apply Hf.
Qed.
Lemma sql_still {T} label (f : World -> T * World) w : (forall w1, still w1 -> still (f w1).2) -> still w -> still (sql label f w).2.
Proof.
  intros Hf S. unfold sql, map_err_m. pose proof (call_still (fun w => let (v, w') := f w in (Ok v, w')) w) as C.
  destruct (call _ w) as [r w']. apply C; [|done]. intros w1 S1. specialize (Hf w1 S1). by destruct (f w1).
Qed.
Lemma swap_still f content expected w : (f = file -> exists h, expected = Some h ∧ h ≠ blake3 c) -> still w ->
  still (swap blake3 f content expected w).2 ∧ (f = file -> exists e, (swap blake3 f content expected w).1 = Err e).
Proof.
  intros Hh [Hf Hq]. unfold swap. destruct (files w !! f) as [f0|] eqn:Ef; [|split; [by split|]; intros _; by eexists].
  destruct (decide (f = file)) as [->|N].
  - destruct (Hh eq_refl) as (h & -> & Nh). rewrite (Hf f0 Ef), (bool_decide_eq_false_2 (Some h = None)) by done.
    rewrite (bool_decide_eq_false_2 (Some h = Some (blake3 c))) by (by intros [= ->]). split; [by split|]. intros _. by eexists.
  - split; [|done]. destruct (_ || _); [|by split]. split; [|exact Hq]. cbn. intros g. rewrite lookup_insert_ne by done. apply Hf.
Qed.
Lemma write_still f content expected w r w' : (f = file -> exists h, expected = Some h ∧ h ≠ blake3 c) -> still w ->
  write_content blake3 f content expected w = (r, w') -> still w' ∧ (f = file -> exists e, r = Err e).
Proof.
  intros Hh S. unfold write_content. unfold_m. pose proof (call_still (fun w => (Ok tt, w)) w (fun _ S => S) S) as S1.
  destruct (call _ w) as [[|e] w1] eqn:E1; cbn [snd] in *; [|intros [= <- <-]; split; [done|]; intros _; by exists e].
  unfold call. pose proof (interfere_still w1 S1) as S2.
  destruct (default None _) as [e|]; [intros [= <- <-]; split; [by eapply still_same|]; intros _; by exists e|]. intros E.
  destruct (swap_still f content expected (set_faults (tail (faults (interfere w1))) (interfere w1)) Hh) as [S3 Er]; [by eapply still_same|].
  rewrite E in S3, Er. by split.
Qed.
Lemma snapshot_still a w r a' w' : still w -> snapshot (a, w) = (r, (a', w')) -> still w'.
Proof.
  unfold snapshot, here, upd. unfold_m. rewrite stored_run. cbn [fst snd]. intros S.
  assert (still (save_snapshot (a_file a) (encode_since sv_default (a_doc a)) (encode_sv (a_doc a)) w).2) as S1 by (by apply sql_still).
  destruct (save_snapshot _ _ _ w) as [[|] w1]; intros E; by injection E as _ _ <-.
Qed.
Lemma flush_still a w r a' w' : wary a -> still w -> flush_to_blob blake3 (a, w) = (r, (a', w')) -> still w' ∧ wary a'.
Proof.
  intros Hw S E. assert (a_file a' = a_file a) as Ef by (by destruct (flush_spec _ _ _ _ _ E) as (_ & ? & _)). revert E.
  unfold flush_to_blob, here, upd. unfold_m. cbn [fst snd id]. destruct (last_writer a); [|by intros [= <- <- <-]].
  destruct (snapshot (a, w)) as [r1 [a1 w1]] eqn:Sn. destruct (snapshot_core _ _ _ _ _ Sn) as (C & Hb & _ & _). unfold core in C. injection C as C1 C2 _ _ _ _ _.
  pose proof (snapshot_still _ _ _ _ _ S Sn) as S1. assert (wary a1) as W1 by (unfold wary; by rewrite C1, Hb).
  destruct r1 as [[]|e]; cbn [fst snd]; [|by intros [= <- <- <-]]. destruct (decide _); [by intros [= <- <- <-]|].
  rewrite stored_run. cbn [fst snd]. destruct (write_content _ _ _ _ w1) as [rw w2] eqn:Ew.
  destruct (write_still _ _ _ _ _ _ W1 S1 Ew) as [S2 Er]. destruct rw as [h|e]; cbn [map_err fst snd]; [|by intros [= <- <- <-]].
  assert (a_file a ≠ file) as N by (intros Ea; rewrite C1 in Er; by destruct (Er Ea)). rewrite stored_run. cbn [fst snd].
  assert (forall x y, still (record_flush x y w2).2) as S3 by (intros x y; by apply sql_still).
  specialize (S3 (a_file (set_baseline (Some h) a1)) (blake3 (get_text (a_doc a1)))).
  destruct (record_flush _ _ w2) as [[|] w3]; cbn [snd fst map_err] in *; intros E; injection E as <- <- <-; (split; [done|]); intros Hf; congruence.
Qed.
Lemma apply_still caller s a w r a' w' : wary a -> still w -> apply_update limits caller s (a, w) = (r, (a', w')) -> still w' ∧ wary a'.
Proof.
  intros Hw S E. destruct (apply_update_spec _ _ _ _ _ _ _ E) as (_ & Ef & Eb & _). split; [|unfold wary; by rewrite Ef, Eb]. revert E.
  unfold apply_update, here, upd, clock, decoded. unfold_m. cbn [fst snd id]. destruct (_ <? _); [by intros [= _ _ <-]|].
  destruct (decode_update s) as [u|]; cbn [map_err]; [|by intros [= _ _ <-]]. destruct (apply u (a_doc a)) as [d|]; cbn [map_err]; [|by intros [= _ _ <-]].
  rewrite stored_run. cbn [fst snd]. assert (still (touch_after_update (a_file a) w).2) as S1 by (by apply sql_still).
  destruct (touch_after_update (a_file a) w) as [[|] w1]; cbn [map_err snd] in *; [|by intros [= _ _ <-]]. cbn [fst snd]. destruct (_ <=? _).
  - destruct (snapshot _) as [r2 [a2 w2]] eqn:Sn. pose proof (snapshot_still _ _ _ _ _ S1 Sn) as S2. destruct r2; by intros [= _ _ <-].
  - by intros [= _ _ <-].
Qed.
Lemma on_message_still msg a w rep on a' w' : wary a -> still w -> on_message blake3 limits msg (a, w) = (rep, on, (a', w')) -> still w' ∧ wary a'.
Proof.
  intros Hw S. destruct msg; cbn [on_message fst snd]; try (by intros [= _ _ <- <-]).
  - destruct (apply_update limits caller s (a, w)) as [r [a1 w1]] eqn:E. intros [= _ _ <- <-]. by eapply apply_still.
  - destruct (flush_to_blob blake3 (a, w)) as [r [a1 w1]] eqn:E. intros [= _ _ <- <-]. by eapply flush_still.
  - destruct (snapshot (a, w)) as [r [a1 w1]] eqn:E. intros [= _ _ <- <-]. split; [by eapply snapshot_still|].
    destruct (snapshot_core _ _ _ _ _ E) as (C & Eb & _). unfold core in C. injection C as Ef _ _ _ _ _ _. unfold wary. by rewrite Ef, Eb.
  - unfold sync_step_1, here, decoded. unfold_m. destruct (decode_sv client_sv); cbn; by intros [= _ _ <- <-].
Qed.
Lemma on_tick_still a w on a' w' : wary a -> still w -> on_tick blake3 limits (a, w) = (on, (a', w')) -> still w' ∧ wary a'.
Proof.
  intros Hw S. unfold on_tick. cbn [fst snd]. destruct (flush_due _ _ _); [|by intros [= _ <- <-]].
  destruct (flush_to_blob blake3 (a, w)) as [r [a1 w1]] eqn:E. destruct (flush_still _ _ _ _ _ Hw S E) as [S1 W1].
  destruct r; [|destruct (is_kind PreconditionFailed e); [|destruct (is_kind NotFound e)]]; by intros [= _ <- <-].
Qed.
Definition calm (s : Srv) : Prop := still (world s) ∧ forall n a, actors s !! n = Some a -> wary a.
Definition harmless (e : Event) : Prop := match e with Open f => f ≠ file | Meanwhile o => keeps_off o | _ => True end.
Lemma put_calm s n on a w : calm s -> still w -> wary a -> calm (put_actor n on a (set_world w s)).
Proof.
  intros [_ Ha] S Wa. split; [exact S|]. intros m x. unfold put_actor. destruct on; cbn.
  - intros [(<- & <-)|(_ & Em)]%lookup_insert_Some; [done|]. by eapply Ha.
  - intros [_ Em]%lookup_delete_Some. by eapply Ha.
Qed.
Lemma on_world_still {T} (m : M World CollabError T) s : (still (world s) -> still (m (world s)).2) -> calm s -> calm (on_world m s).2.
Proof. intros Hm [S Ha]. unfold on_world. specialize (Hm S). by destruct (m (world s)) as [r w]. Qed.
Lemma load_or_seed_still f x b w : still w -> still (load_or_seed utf8_error f x b w).2.
Proof.
  intros S. unfold load_or_seed, storage, map_err_m. unfold_m. assert (still (load f w).2) as S1 by (by apply sql_still).
  destruct (load f w) as [[[row|]|e] w1]; cbn [map_err snd] in *; [by destruct (loaded_doc row)| |done].
  destruct (from_utf8 _) as [text|]; [|done]. cbn [snd]. set (d := seed _ text). set (w2 := set_clients _ w1).
  assert (still (save_snapshot f (encode_since sv_default d) (encode_sv d) w2).2) as S2 by (by apply sql_still).
  by destruct (save_snapshot _ _ _ w2) as [[|] w3].
Qed.
Lemma open_still f s : still (world s) -> still (world (open_session blake3 utf8_error f s).2).
Proof.
  intros S. unfold open_session, on_world, storage, map_err_m, attempt. unfold_m. assert (still (load f (world s)).2) as S1 by (by apply sql_still).
  destruct (load f (world s)) as [[row|e] w1]; cbn [map_err snd world set_world] in *; [|done].
  set (content := match row with Some _ => _ | None => _ end). assert (still (content w1).2) as S2.
  { unfold content. destruct row; [done|]. assert (still (read_content f w1).2) as S2 by (by apply call_still). by destruct (read_content f w1) as [[|] ?]. }
  destruct (content w1) as [[x|e] w2]; cbn [world set_world snd] in *; [|done].
  assert (still (current_blob_hash blake3 f w2).2) as S3 by (by apply call_still). destruct (current_blob_hash _ _ w2) as [hash w3]; cbn [world set_world snd] in *.
  pose proof (load_or_seed_still f x match map_err Storage hash with Ok h => h | Err _ => None end w3 S3) as S4.
  by destruct (load_or_seed _ _ _ _ w3) as [[|] w4].
Qed.
Lemma step_calm e s : harmless e -> calm s -> calm (step s e).
Proof.
  intros He [S Ha]. destruct e; cbn [CollabSession.step harmless] in *.
  - split; [by apply open_still|]. destruct (open_session _ _ _ _) as [r s'] eqn:E. cbn [snd].
    destruct (open_session_spec _ _ _ _ E) as (_ & _ & [[-> _]|(a & b & _ & N & -> & _)]); [done|].
    intros m x [(<- & <-)|(_ & Em)]%lookup_insert_Some; [|by eapply Ha]. intros Ef. destruct N as [Ef' _]. congruence.
  - unfold or_insert. destruct (registry s !! _); (split; [done|]); cbn; [|done]. intros m x [_ Em]%lookup_delete_Some. by eapply Ha.
  - unfold CollabSession.deliver. destruct (actors s !! n) as [a|] eqn:E; [|by split]. destruct (on_message _ _ _ _) as [[rep on] [a' w']] eqn:Em.
    destruct (on_message_still _ _ _ _ _ _ _ (Ha n a E) S Em). by apply put_calm.
  - unfold tick. destruct (actors s !! n) as [a|] eqn:E; [|by split]. destruct (on_tick _ _ _) as [on [a' w']] eqn:Em.
    destruct (on_tick_still _ _ _ _ _ (Ha n a E) S Em). by apply put_calm.
  - by split.
  - apply on_world_still; [|by split]. intros S1. unfold storage, map_err_m. assert (still (delete_row file0 (world s)).2) as S2 by (by apply sql_still).
    by destruct (delete_row file0 (world s)).
  - split; [by apply befall_still|done].
  - split; [done|]. cbn. intros m x Em. by rewrite lookup_empty in Em.
Qed.
Lemma steps_calm es : forall s, Forall harmless es -> calm s -> calm (steps es s).
Proof.
  induction es as [|e es IH]; intros s Hes C; [done|]. apply list.Forall_cons in Hes as [He Hes]. apply IH; [done|]. by apply step_calm.
Qed.
End Others.

(** ** When everything answers *)
Definition healthy (w : World) : Prop := faults w = [] ∧ outside w = [].
Lemma call_healthy {T} (f : World -> result DomainError T * World) w : healthy w -> call f w = f w.
Proof. destruct w. intros [Hf Ho]. cbn in Hf, Ho. by subst. Qed.
Lemma sql_answers {T} label (f : World -> T * World) w : healthy w -> sql label f w = (Ok (f w).1, (f w).2).
Proof. intros Hw. unfold sql, map_err_m. rewrite call_healthy by done. by destruct (f w). Qed.
Lemma snapshot_healthy a w : healthy w -> exists a' m,
  snapshot (a, w) = (Ok tt, (a', set_rows m w)) ∧ core a' = core a ∧ last_known_blob_hash a' = last_known_blob_hash a
  ∧ flush_retry_not_before a' = flush_retry_not_before a.
Proof.
  intros Hw. unfold snapshot, here, upd. unfold_m. rewrite stored_run. cbn [fst snd]. unfold save_snapshot. rewrite sql_answers by done.
  cbn [map_err fst snd]. by do 2 eexists.
Qed.
Lemma write_healthy file content expected f w : healthy w -> files w !! file = Some f -> expected = None ∨ expected = Some (blake3 (f_content f)) ->
  write_content blake3 file content expected w
  = (Ok (blake3 content), log_write file content (set_files (<[file := mkFile content (f_trashed f)]> (files w)) w)).
Proof.
  intros Hw Ef He. unfold write_content. unfold_m. rewrite !call_healthy by done. unfold swap. rewrite Ef.
  assert (bool_decide (expected = None) || bool_decide (expected = Some (blake3 (f_content f))) = true) as ->; [|done].
  destruct He as [->| ->]; [done|]. rewrite orb_true_iff. right. by apply bool_decide_eq_true.
Qed.
(** The text gets into the file, unless the last flush has put that very text there. *)
Lemma flush_healthy a w f : healthy w -> last_writer a ≠ None -> files w !! a_file a = Some f ->
  last_known_blob_hash a = None ∨ last_known_blob_hash a = Some (blake3 (f_content f)) ->
  exists r a' w', flush_to_blob blake3 (a, w) = (Ok r, (a', w')) ∧ first_dirty_at a' = None ∧ healthy w' ∧ now w' = now w
    ∧ (last_flushed_content_hash a = Some (blake3 (get_text (a_doc a))) ∧ files w' = files w
       ∨ files w' = <[a_file a := mkFile (get_text (a_doc a)) (f_trashed f)]> (files w)).
Proof.
  intros Hw Hwr Ef Hb. unfold flush_to_blob, here, upd. unfold_m. cbn [fst snd id]. destruct (last_writer a); [|done].
  destruct (snapshot_healthy a w Hw) as (a1 & m & -> & C & Hb1 & _). unfold core in C. injection C as C1 C2 _ _ _ _ C7. cbn [fst snd].
  rewrite C7, C2. destruct (decide _) as [Eh|_].
  { do 3 eexists. split_and!; [reflexivity|done|exact Hw|done|]. by left. }
  rewrite stored_run. cbn [fst snd]. rewrite C1, Hb1, (write_healthy _ _ _ f) by done. cbn [map_err fst snd]. rewrite stored_run.
  unfold record_flush. rewrite sql_answers by done. cbn. do 3 eexists. split_and!; [reflexivity|done|exact Hw|done|]. by right.
Qed.
Lemma due_by_age a t first : flush_retry_not_before a = None -> first_dirty_at a = Some first -> last_dirty_at a ≠ None ->
  (first + debounce_max limits <= t)%Z -> flush_due limits t a = true.
Proof.
  intros En Ef El Ht. unfold flush_due. rewrite En, Ef. destruct (last_dirty_at a); [|done]. rewrite orb_true_iff. right. apply Z.leb_le. unfold saturating_sub. lia.
Qed.
Lemma tick_healthy s n a f : healthy (world s) -> actors s !! n = Some a -> last_writer a ≠ None -> flush_due limits (now (world s)) a = true ->
  files (world s) !! a_file a = Some f -> last_known_blob_hash a = None ∨ last_known_blob_hash a = Some (blake3 (f_content f)) ->
  exists a' w', tick blake3 limits n s = put_actor n true a' (set_world w' s) ∧ first_dirty_at a' = None
    ∧ (last_flushed_content_hash a = Some (blake3 (get_text (a_doc a))) ∧ files w' = files (world s)
       ∨ files w' = <[a_file a := mkFile (get_text (a_doc a)) (f_trashed f)]> (files (world s))).
Proof.
  intros Hw Ea Hwr Hdue Ef Hb. unfold tick, on_tick. rewrite Ea. cbn [fst snd]. rewrite Hdue.
  destruct (flush_healthy a (world s) f Hw Hwr Ef Hb) as (r & a' & w' & -> & Hd & _ & _ & Hf). do 2 eexists. split_and!; [reflexivity|done|].
  exact Hf.
Qed.

Lemma apply_healthy caller s a w u d : healthy w -> saturating_add (doc_bytes a) (len s) <= max_doc_bytes limits ->
  decode_update s = Ok u -> apply u (a_doc a) = Ok d -> exists a' m, apply_update limits caller s (a, w) = (Ok tt, (a', set_rows m w))
    ∧ a_file a' = a_file a ∧ a_doc a' = d ∧ last_known_blob_hash a' = last_known_blob_hash a ∧ flush_retry_not_before a' = flush_retry_not_before a
    ∧ last_flushed_content_hash a' = last_flushed_content_hash a ∧ last_writer a' = Some caller
    ∧ first_dirty_at a' = Some (default (now w) (first_dirty_at a)) ∧ last_dirty_at a' = Some (now w).
Proof.
  intros Hw Hs Ed Ea. unfold apply_update, here, upd, clock, decoded. unfold_m. cbn [fst snd id]. destruct (Z.ltb_spec (max_doc_bytes limits) (saturating_add (doc_bytes a) (len s))); [lia|].
  rewrite Ed. cbn [map_err]. rewrite Ea. cbn [map_err]. rewrite stored_run. cbn [fst snd]. unfold touch_after_update. rewrite sql_answers by done. cbn [map_err fst snd].
  destruct (_ <=? _); [|do 2 eexists; by split_and!].
  set (a1 := set_since _ _). set (w1 := set_rows _ w). destruct (snapshot_healthy a1 w1 Hw) as (a2 & m & -> & C & Hb & Hr). unfold core in C.
  injection C as C1 C2 C3 C4 C5 C6 C7. cbn [fst snd]. do 2 eexists. split; [reflexivity|]. cbn. rewrite C1, C2, Hb, Hr, C5, C7. by split_and!.
Qed.
Lemma attach_loads file row d f s : healthy (world s) -> registry s !! file = None -> rows (world s) !! file = Some row -> loaded_doc row = Ok d ->
  files (world s) !! file = Some f -> f_trashed f = false -> blake3 (f_content f) ≠ [] ->
  attach_file blake3 utf8_error file s = (Ok (next_actor s),
    mkSrv (world s) (<[file := next_actor s]> (registry s))
      (<[next_actor s := seeded file d (Some (blake3 (f_content f))) (d_since row) (d_flushed row)]> (actors s)) (next_actor s + 1)).
Proof.
  intros Hw Hr Erow Ed Ef Et Hn. unfold attach_file, gets. unfold mbind at 1, M_bind at 1. rewrite Hr.
  unfold open_session, on_world, storage, map_err_m, attempt. unfold_m. unfold load at 1. rewrite sql_answers by done. cbn [map_err fst snd world set_world registry actors next_actor].
  rewrite Erow. cbn [set_world world]. unfold current_blob_hash. rewrite call_healthy by done. unfold live_file. rewrite Ef, Et. cbn [fmap result_fmap map_err set_world world]. rewrite decide_False by done.
  unfold load_or_seed, storage, map_err_m, load. unfold_m. rewrite sql_answers by done. cbn [map_err fst snd]. rewrite Erow, Ed. cbn. unfold or_insert. cbn. by rewrite Hr.
Qed.

(** ** The claims *)
(** C29: a running actor keeps what it acknowledged.  As long as the actor that acknowledged an
    update runs, whatever requests, ticks, evictions of others, sweeps and failures happen in
    between: the update is known to its document, was broadcast to its subscribers, and either a
    flush is still due or a text that knows the update has been written into the file.  When the
    actor ends, by a crash, an eviction or a sweep, the claim ends with it: what was neither
    flushed nor in a snapshot is lost ([crash_loses_edits]). *)
Theorem acknowledged_edits_are_kept s0 before s1 n caller u s2 after a :
  actors s0 = ∅ -> marks_true (world s0) -> s1 = steps before s0 ->
  deliver n (ApplyUpdate caller u) s1 = (Ok (RDone (Ok tt)), s2) -> actors (steps after s2) !! n = Some a ->
  knows (a_doc a) u ∧ (UPDATE, u) ∈ outbox a
  ∧ (first_dirty_at a ≠ None ∨ exists d, knows d u ∧ (a_file a, get_text d) ∈ writes (world (steps after s2))).
Proof.
  intros E0 Hm -> Hd Ea. assert (good s0) as G0 by (split; [done|]; intros m x; by rewrite E0, lookup_empty).
  destruct (steps_follow before s0 G0) as [G1 _]. revert G1 Hd. generalize (steps before s0). clear s0 E0 Hm G0. intros s1 G1 Hd.
  destruct (deliver_follows n (ApplyUpdate caller u) s1 G1) as [G2 _]. rewrite Hd in G2. cbn [snd] in G2.
  unfold CollabSession.deliver in Hd. destruct (actors s1 !! n) as [a1|] eqn:E1; [|done]. cbn [on_message] in Hd.
  destruct (apply_update _ _ _ _) as [r [a2 w2]] eqn:Eu. injection Hd as -> Es. destruct (apply_update_spec _ _ _ _ _ _ _ Eu) as (_ & _ & _ & _ & _ & _ & K & Eo & _).
  assert (actors s2 !! n = Some a2) as E2 by (rewrite <- Es; cbn; by rewrite lookup_insert_eq).
  destruct (steps_follow after s2 G2) as [G3 (_ & _ & F)]. destruct (F n a Ea (proj1 (proj2 G2 n a2 E2))) as (a2' & E2' & _ & Km & P).
  rewrite E2 in E2'. injection E2' as <-. assert ((UPDATE, u) ∈ outbox a) as Hin.
  { destruct P as [l ->]. rewrite Eo. apply elem_of_app. left. apply elem_of_app. right. by left. }
  split_and!; [by apply Km|done|]. destruct (proj2 G3 n a Ea) as [_ [_ _ Sv _ _]]. destruct (first_dirty_at a) eqn:Ef; [by left|right].
  assert (u ∈ sent a) as Hu by (apply list_elem_of_fmap; exists (UPDATE, u); split; [done|]; by apply list_elem_of_filter).
  destruct (Sv eq_refl) as [Se|(d & Kd & Hw)]; [rewrite Se in Hu; by apply not_elem_of_nil in Hu|]. exists d. split; [by apply Kd|done].
Qed.

(** C30: what somebody else has written into a file stays there, whatever the sessions opened
    before it do and whenever they flush, until the file is written again from outside or a
    session is opened for it, provided the sessions know the blob they began with and the content
    written is not the very one they know, which they would rightly replace. *)
Theorem outside_write_survives s file c es f :
  (forall n a, actors s !! n = Some a -> a_file a = file -> exists h, last_known_blob_hash a = Some h ∧ h ≠ blake3 c) ->
  still file c (world s) -> Forall (harmless file) es ->
  files (world (steps es s)) !! file = Some f -> f_content f = c.
Proof. intros Ha S Hes. destruct (steps_calm file c es s Hes (conj S Ha)) as [[Hf _] _]. apply Hf. Qed.

(** C31: an acknowledged update is in the file after the first tick of its running actor that
    comes [debounce_max] after the document became dirty: if the database and the storage answer,
    no retry is pending, the session knows the blob the file has, and the flush mark of the
    session is not stale, that is, if it names the present text then the file has that text.  Then
    the file has exactly the text of the document, which knows the update, and the document is
    clean.  A stale mark makes the tick call the document clean although the file has another
    text ([stale_flush_mark]). *)
Theorem edits_reach_the_file s0 es s n a u first f :
  actors s0 = ∅ -> marks_true (world s0) -> s = steps es s0 -> healthy (world s) ->
  actors s !! n = Some a -> (UPDATE, u) ∈ outbox a -> first_dirty_at a = Some first -> first + debounce_max limits <= now (world s) ->
  flush_retry_not_before a = None -> files (world s) !! a_file a = Some f ->
  last_known_blob_hash a = None ∨ last_known_blob_hash a = Some (blake3 (f_content f)) ->
  (last_flushed_content_hash a = Some (blake3 (get_text (a_doc a))) -> f_content f = get_text (a_doc a)) ->
  let s' := tick blake3 limits n s in
  exists a', actors s' !! n = Some a' ∧ first_dirty_at a' = None
    ∧ knows (a_doc a) u ∧ files (world s') !! a_file a = Some (mkFile (get_text (a_doc a)) (f_trashed f))
    ∧ (exists d, knows d u ∧ (a_file a, get_text d) ∈ writes (world s')).
Proof.
  intros E0 Hm -> Hw Ea Hu Hf Ht Hr Ef Hb Hst. assert (good s0) as G0 by (split; [done|]; intros m x; by rewrite E0, lookup_empty).
  destruct (steps_follow es s0 G0) as [G _]. revert G Hw Ea Ht Ef. generalize (steps es s0). clear s0 E0 Hm G0. intros s G Hw Ea Ht Ef s'.
  destruct (proj2 G n a Ea) as [_ [_ Gd _ _ Gw]].
  assert (u ∈ sent a) as Hs by (apply list_elem_of_fmap; exists (UPDATE, u); split; [done|]; by apply list_elem_of_filter).
  assert (last_writer a ≠ None) as Hwr by (intros E; rewrite (Gw E) in Hs; by apply not_elem_of_nil in Hs).
  assert (last_dirty_at a ≠ None) as Hl by (rewrite <- Gd; by rewrite Hf).
  destruct (tick_healthy s n a f Hw Ea Hwr (due_by_age a _ first Hr Hf Hl Ht) Ef Hb) as (a' & w' & Et & Hc & Hfile).
  destruct (tick_follows n s G) as [G' (_ & _ & F)]. fold s' in G', F, Et. assert (actors s' !! n = Some a') as Ea' by (rewrite Et; cbn; by rewrite lookup_insert_eq).
  destruct (F n a' Ea' (proj1 (proj2 G n a Ea))) as (a0 & Ea0 & Efile & _ & P). rewrite Ea in Ea0. injection Ea0 as <-.
  exists a'. split_and!; [done|done|by apply (ga_known _ _ (proj2 (proj2 G n a Ea)))| |].
  - rewrite Et. cbn. destruct Hfile as [[Hmk Hsame] | Hnew]; [rewrite Hsame|rewrite Hnew; by rewrite lookup_insert_eq]. rewrite Ef, <- (Hst Hmk). by destruct f.
  - destruct (proj2 G' n a' Ea') as [_ [_ _ Sv _ _]]. assert (u ∈ sent a') as Hs'.
    { destruct P as [l El]. unfold sent. rewrite El, sent_app. apply elem_of_app. by left. }
    destruct (Sv Hc) as [Se|(d & Kd & Hin)]; [rewrite Se in Hs'; by apply not_elem_of_nil in Hs'|]. exists d. rewrite <- Efile. split; [by apply Kd|done].
Qed.

(** C32: whatever was written into a file from outside, the next session on it begins with the
    document the database still has: its first edit replaces that content, of which the new text
    keeps nothing, as soon as it is flushed.  The plan and the comments say that the document is
    discarded after a write from outside and the next session is seeded from the file. *)
Theorem reattached_session_overwrites gate file row d c s caller u v d' :
  healthy (world s) -> registry s !! file = None -> rows (world s) !! file = Some row -> loaded_doc row = Ok d ->
  files (world s) !! file = Some (mkFile c false) -> blake3 c ≠ [] -> gate (world s) caller file Update = Ok tt ->
  saturating_add (len (encode_since sv_default d)) (len u) <= max_doc_bytes limits -> decode_update u = Ok v -> apply v d = Ok d' ->
  d_flushed row ≠ Some (blake3 (get_text d')) -> 0 <= debounce_idle limits ->
  exists s1, handle_binary_frame blake3 utf8_error limits gate caller (mkFrame UPDATE file u) s = (Ok None, s1)
    ∧ files (world s1) !! file = Some (mkFile c false)
    ∧ files (world (steps [Meanwhile (OTime (Z.to_N (debounce_idle limits))); Tick (next_actor s)] s1)) !! file = Some (mkFile (get_text d') false).
Proof.
  intros Hw Hr Erow Ed Ef Hn Hg Hs Eu Ev Hfl Hi. unfold handle_binary_frame. cbn [fr_kind fr_file fr_payload]. rewrite decide_True by done.
  unfold require_perm. unfold mbind at 1, M_bind at 1. rewrite Hg. erewrite bind_ok; [|by eapply attach_loads].
  set (a := seeded file d _ _ _). unfold mbind at 1, M_bind at 1. unfold CollabSession.deliver. cbn [actors]. rewrite lookup_insert_eq. cbn [on_message world].
  destruct (apply_healthy caller u a (world s) v d' Hw Hs Eu Ev) as (a' & m & -> & F1 & F2 & F3 & F4 & F5 & F6 & F7 & F8).
  unfold_m. eexists. split_and!; [reflexivity|exact Ef|]. set (s1 := put_actor _ _ _ _). cbn [CollabSession.steps foldl CollabSession.step].
  set (s2 := set_world _ s1). assert (healthy (world s2)) as Hw2 by exact Hw.
  assert (actors s2 !! next_actor s = Some a') as Ea by (cbn; by rewrite lookup_insert_eq).
  assert (files (world s2) !! a_file a' = Some (mkFile c false)) as Ef2 by (by rewrite F1).
  assert (now (world s2) = now (world s) + debounce_idle limits) as En by (cbn; lia).
  destruct (tick_healthy s2 (next_actor s) a' (mkFile c false)) as (a2 & w2 & -> & _ & Hfile); try done.
  - by rewrite F6.
  - unfold flush_due. rewrite F4, F7, F8, En. cbn [a seeded flush_retry_not_before]. rewrite orb_true_iff. left. apply Z.leb_le. unfold saturating_sub. lia.
  - right. by rewrite F3.
  - cbn. destruct Hfile as [[Hx _]|Hfile]; [rewrite F5, F2 in Hx; done|]. rewrite Hfile, F1, F2. by rewrite lookup_insert_eq.
Qed.

(** A presence frame reaches every subscriber of a running session, whatever the engine decides:
    nothing asks whether its sender has subscribed or may read the file. *)
Lemma presence_needs_no_grant gate caller file payload s n a : registry s !! file = Some n -> actors s !! n = Some a ->
  handle_binary_frame blake3 utf8_error limits gate caller (mkFrame AWARENESS file payload) s
  = (Ok None, put_actor n true (broadcast (AWARENESS, payload) a) s).
Proof.
  intros Er Ea. unfold handle_binary_frame, attach_file, CollabSession.deliver. unfold_m. cbn [fr_kind fr_file fr_payload].
  rewrite decide_False, decide_True by done. rewrite Er, Ea. cbn. by destruct s.
Qed.
(** An update whose stamp in the table fails is refused and yet stays in the document, unannounced
    and without a flush being due. *)
Lemma refused_update_stays caller u a w e v d : faults w = [Some e] -> outside w = [] ->
  saturating_add (doc_bytes a) (len u) <= max_doc_bytes limits -> decode_update u = Ok v -> apply v (a_doc a) = Ok d ->
  exists r a' w', apply_update limits caller u (a, w) = (Err r, (a', w')) ∧ a_doc a' = d ∧ outbox a' = outbox a ∧ first_dirty_at a' = first_dirty_at a.
Proof.
  intros Hf Ho Hs Ed Ea. unfold apply_update, here, upd, clock, decoded. unfold_m. cbn [fst snd id].
  destruct (Z.ltb_spec (max_doc_bytes limits) (saturating_add (doc_bytes a) (len u))); [lia|]. rewrite Ed. cbn [map_err]. rewrite Ea. cbn [map_err].
  rewrite stored_run. cbn [fst snd]. unfold touch_after_update, sql, map_err_m, call, interfere. destruct w. cbn in Hf, Ho. subst. cbn. by do 3 eexists.
Qed.
End Claims.

(** ** A document *)
Module Notes.
(** Each client has typed one text; a document is what clients have typed. *)
Fixpoint enc (l : list (N * str)) : bytes :=
  match l with [] => [] | (k, s) :: rest => Z.of_N k :: Z.of_nat (length s) :: s ++ enc rest end.
Fixpoint read (fuel : nat) (b : bytes) : option (list (N * str)) :=
  match fuel with
  | O => None
  | S fuel =>
      match b with
      | [] => Some []
      | k :: n :: rest => l ← read fuel (drop (Z.to_nat n) rest); Some ((Z.to_N k, take (Z.to_nat n) rest) :: l)
      | _ => None
      end
  end.
Lemma read_enc l : forall fuel, (length l < fuel)%nat -> read fuel (enc l) = Some l.
Proof.
  induction l as [|[k s] l IH]; intros [|fuel] Hf; cbn in Hf; try lia; [done|]. cbn [enc read].
  rewrite Nat2Z.id, N2Z.id, drop_app_length, take_app_length, IH by lia. done.
Qed.
Lemma length_enc l : (length l <= length (enc l))%nat.
Proof. induction l as [|[k s] l IH]; cbn; [lia|]. rewrite length_app. lia. Qed.
Lemma keep_unseen (l : list (N * str)) : filter (fun x => x.1 ∉ []) l = l.
Proof. induction l as [|x l IH]; [done|]. rewrite list.filter_cons_True by apply not_elem_of_nil. by rewrite IH. Qed.
Definition decode (b : bytes) : result str (gmap N str) :=
  match read (S (length b)) b with Some l => Ok (list_to_map l) | None => Err (lit "unexpected end of buffer") end.
Definition text_of (d : gmap N str) : str := concat (map_to_list d).*2.
Definition unseen (sv : list N) (d : gmap N str) : bytes := enc (filter (fun x => x.1 ∉ sv) (map_to_list d)).
Lemma text_of_one client text : text_of {[client := text]} = text.
Proof. unfold text_of. rewrite map_to_list_singleton. cbn. apply app_nil_r. Qed.
Lemma union_twice (u d d' : gmap N str) : @Ok str _ (d ∪ u) = Ok d' -> @Ok str _ (d' ∪ u) = Ok d'.
Proof. intros [= <-]. f_equal. by rewrite <- map_union_assoc, map_union_idemp. Qed.
Lemma union_keeps (u v d d' : gmap N str) : @Ok str _ (d ∪ u) = Ok d -> @Ok str _ (d ∪ v) = Ok d' -> @Ok str _ (d' ∪ u) = Ok d'.
Proof.
  intros [= E] [= <-]. f_equal. apply map_eq. intros k. rewrite <- E, !lookup_union. destruct (d !! k), (u !! k), (v !! k); done.
Qed.
Lemma decode_unseen (d : gmap N str) : exists u, decode (unseen [] d) = Ok u ∧ @Ok str _ (∅ ∪ u) = Ok d.
Proof.
  exists d. split; [|f_equal; apply (left_id_L _ _)]. unfold decode, unseen. pose proof (length_enc (filter (fun x : N * str => x.1 ∉ []) (map_to_list d))).
  rewrite read_enc by lia. f_equal. rewrite keep_unseen. apply list_to_map_to_list.
Qed.
#[export] Instance toy : Yrs := {|
  Doc := gmap N str; YUpdate := gmap N str; StateVector := list N;
  doc_new := ∅; seed client text := {[client := text]}; get_text := text_of; decode_update := decode; apply u d := Ok (d ∪ u);
  decode_sv b := Ok (Z.to_N <$> b); encode_sv d := Z.of_N <$> (map_to_list d).*1; sv_default := []; encode_since := unseen;
  get_text_seed := text_of_one; apply_twice := union_twice; apply_keeps := union_keeps; encode_all := decode_unseen |}.
#[export] Instance ids : UuidText := decimal_uuid_text.
Definition hash (s : bytes) : str := 1 :: s.
#[export] Instance hash_inj : Inj (=) (=) hash.
Proof. by intros x y [= ->]. Qed.
Definition anyone : World -> Uuid -> Uuid -> Permission -> result DomainError unit := fun _ _ _ _ => Ok tt.
Definition run := steps hash (fun _ => []) default_limits.
Definition empty_world : World := mkWorld ∅ {[5%N := mkFile (lit "hello") false]} 0 1000 [] [] [].
Definition start : Srv := mkSrv empty_world ∅ ∅ 0.
Definition typed : bytes := enc [(2000%N, lit " world")].
Definition opened : list Event := [Open 5; Register 5 0].
Definition first_edit := deliver hash default_limits 0 (ApplyUpdate 7 typed) (run opened start).
Definition pause : Event := Meanwhile (OTime (Z.to_N (60 * SECOND))).
(** The text is flushed, the file written from outside, the session evicted. *)
Definition overwritten : Srv :=
  (evict_sessions_for_file hash default_limits 5 (lit "external_write") (run [pause; Tick 0; Meanwhile (OWrite 5 (lit "rewritten"))] first_edit.2)).2.
Example flushed_text : files (world (run [pause; Tick 0] first_edit.2)) !! 5%N = Some (mkFile (lit "hello world") false).
Proof. vm_compute. reflexivity. Qed.

Lemma no_marks : marks_true hash (world start).
Proof. intros f r h Hr. change (rows (world start)) with (∅ : gmap Uuid DocRow) in Hr. by rewrite lookup_empty in Hr. Qed.
Definition is_some {T} (o : option T) : bool := match o with Some _ => true | None => false end.
Lemma acknowledged : first_edit = (Ok (RDone (Ok tt)), first_edit.2).
Proof. rewrite (surjective_pairing first_edit) at 1. apply (f_equal (fun r => (r, first_edit.2))). vm_compute. reflexivity. Qed.
Lemma acknowledged_edits_are_kept_witness :
  match actors (run [pause; Tick 0] first_edit.2) !! 0%N with
  | Some a => knows (a_doc a) typed ∧ (UPDATE, typed) ∈ outbox a
              ∧ (first_dirty_at a ≠ None ∨ exists d, knows d typed ∧ (a_file a, get_text d) ∈ writes (world (run [pause; Tick 0] first_edit.2)))
  | None => False
  end.
Proof.
  assert (is_some (actors (run [pause; Tick 0] first_edit.2) !! 0%N) = true) as Hx by (vm_compute; reflexivity).
  destruct (actors (run [pause; Tick 0] first_edit.2) !! 0%N) as [a|] eqn:E; [clear Hx|discriminate].
  apply (acknowledged_edits_are_kept hash (fun _ => []) default_limits start opened (run opened start) 0 7 typed first_edit.2 [pause; Tick 0] a);
    [done|exact no_marks|done|exact acknowledged|exact E].
Defined.
Lemma edits_reach_the_file_witness :
  let s := run [pause] first_edit.2 in
  match actors s !! 0%N with
  | Some a => exists a', actors (tick hash default_limits 0 s) !! 0%N = Some a' ∧ first_dirty_at a' = None
      ∧ knows (a_doc a) typed ∧ files (world (tick hash default_limits 0 s)) !! a_file a = Some (mkFile (get_text (a_doc a)) false)
      ∧ (exists d, knows d typed ∧ (a_file a, get_text d) ∈ writes (world (tick hash default_limits 0 s)))
  | None => False
  end.
Proof.
  cbn zeta. assert (is_some (actors (run [pause] first_edit.2) !! 0%N) = true) as Hx by (vm_compute; reflexivity).
  destruct (actors (run [pause] first_edit.2) !! 0%N) as [a|] eqn:E; [clear Hx|discriminate].
  assert (first_dirty_at <$> actors (run [pause] first_edit.2) !! 0%N = Some (Some 0)) as Ed by (vm_compute; reflexivity).
  assert (outbox <$> actors (run [pause] first_edit.2) !! 0%N = Some [(UPDATE, typed)]) as Eo by (vm_compute; reflexivity).
  assert (a_file <$> actors (run [pause] first_edit.2) !! 0%N = Some 5%N) as Ef by (vm_compute; reflexivity).
  assert (flush_retry_not_before <$> actors (run [pause] first_edit.2) !! 0%N = Some None) as Er by (vm_compute; reflexivity).
  assert (last_known_blob_hash <$> actors (run [pause] first_edit.2) !! 0%N = Some (Some (hash (lit "hello")))) as Eb by (vm_compute; reflexivity).
  assert (last_flushed_content_hash <$> actors (run [pause] first_edit.2) !! 0%N = Some None) as El by (vm_compute; reflexivity).
  rewrite E in Ed, Eo, Ef, Er, Eb, El. injection Ed as Ed. injection Eo as Eo. injection Ef as Ef. injection Er as Er. injection Eb as Eb. injection El as El.
  apply (edits_reach_the_file hash (fun _ => []) default_limits start (opened ++ [Deliver 0 (ApplyUpdate 7 typed); pause]) _ 0 a typed 0 (mkFile (lit "hello") false));
    [done|exact no_marks| | |exact E| |exact Ed| |exact Er| |right; exact Eb|].
  - vm_compute. reflexivity.
  - split; vm_compute; reflexivity.
  - rewrite Eo. by left.
  - vm_compute. discriminate.
  - rewrite Ef. vm_compute. reflexivity.
  - rewrite El. discriminate.
Defined.
(** A stale flush mark.  A text is flushed, the file is rewritten from outside, and a new session
    is opened: the mark in its row still names the flushed text.  An edit that leaves this text
    as it was is acknowledged, and the tick then calls the document clean: the session shows
    "hello world", the file has "rewritten", and no flush is due. *)
Definition idle_edit : bytes := enc [(2001%N, [])].
Example stale_flush_mark :
  let s := run [Open 5; Register 5 1; Deliver 1 (ApplyUpdate 7 idle_edit); pause; Tick 1] overwritten in
  (fun a => (get_text (a_doc a), first_dirty_at a, outbox a)) <$> actors s !! 1%N = Some (lit "hello world", None, [(UPDATE, idle_edit)])
  ∧ files (world s) !! 5%N = Some (mkFile (lit "rewritten") false).
Proof. split; vm_compute; reflexivity. Qed.
(** An edit that was acknowledged and broadcast is lost when the process ends before a snapshot. *)
Example crash_loses_edits :
  let s := run [Crash; Open 5; Register 5 1] first_edit.2 in
  (fun a => (outbox a, a_file a)) <$> actors first_edit.2 !! 0%N = Some ([(UPDATE, typed)], 5%N)
  ∧ (fun a => get_text (a_doc a)) <$> actors s !! 1%N = Some (lit "hello")
  ∧ files (world s) !! 5%N = Some (mkFile (lit "hello") false).
Proof. split_and!; vm_compute; reflexivity. Qed.
(** While the session runs the new content stays. *)
Definition rewritten : Srv := run [Meanwhile (OWrite 5 (lit "rewritten"))] first_edit.2.
Lemma outside_write_survives_witness :
  match files (world (run [pause; Tick 0] rewritten)) !! 5%N with Some f => f_content f = lit "rewritten" | None => False end.
Proof.
  assert (is_some (files (world (run [pause; Tick 0] rewritten)) !! 5%N) = true) as Hx by (vm_compute; reflexivity).
  destruct (files (world (run [pause; Tick 0] rewritten)) !! 5%N) as [f|] eqn:E; [clear Hx|discriminate].
  apply (outside_write_survives hash (fun _ => []) default_limits rewritten 5 (lit "rewritten") [pause; Tick 0] f); [| | |exact E].
  - intros n a Ea _. exists (hash (lit "hello")). split; [|vm_compute; discriminate].
    assert (last_known_blob_hash <$> actors rewritten !! n = Some (Some (hash (lit "hello")))) as Eb.
    { destruct (decide (n = 0%N)) as [->|N]; [vm_compute; reflexivity|]. exfalso. revert Ea. clear E f.
      assert (actors rewritten = actors first_edit.2) as -> by (vm_compute; reflexivity).
      assert (dom (actors first_edit.2) = {[0%N]}) as D by (vm_compute; reflexivity). intros Ea.
      apply elem_of_dom_2 in Ea. rewrite D in Ea. by apply elem_of_singleton in Ea. }
    rewrite Ea in Eb. by injection Eb as ->.
  - split; [|vm_compute; constructor]. intros g. assert (files (world rewritten) !! 5%N = Some (mkFile (lit "rewritten") false)) as -> by (vm_compute; reflexivity).
    by intros [= <-].
  - repeat constructor.
Defined.
(** The session after that puts the old text back, with one more letter. *)
Lemma reattached_session_overwrites_witness :
  let more := enc [(4000%N, lit "!")] in
  files (world overwritten) !! 5%N = Some (mkFile (lit "rewritten") false)
  ∧ exists s1, handle_binary_frame hash (fun _ => []) default_limits anyone 7 (mkFrame UPDATE 5 more) overwritten = (Ok None, s1)
    ∧ files (world s1) !! 5%N = Some (mkFile (lit "rewritten") false)
    ∧ files (world (run [Meanwhile (OTime (Z.to_N (15 * SECOND))); Tick 1] s1)) !! 5%N = Some (mkFile (lit "hello world!") false).
Proof.
  split; [vm_compute; reflexivity|].
  assert (is_some (rows (world overwritten) !! 5%N) = true) as Hx by (vm_compute; reflexivity).
  destruct (rows (world overwritten) !! 5%N) as [row|] eqn:Er; [clear Hx|discriminate].
  assert (d_state <$> rows (world overwritten) !! 5%N = Some (enc [(1000%N, lit "hello"); (2000%N, lit " world")])) as Es by (vm_compute; reflexivity).
  assert (d_flushed <$> rows (world overwritten) !! 5%N = Some (Some (hash (lit "hello world")))) as Ef by (vm_compute; reflexivity).
  rewrite Er in Es, Ef. apply (inj Some) in Es. apply (inj Some) in Ef.
  set (two := {[1000%N := lit "hello"; 2000%N := lit " world"]} : gmap N str). set (three := <[4000%N := lit "!"]> two).
  assert (get_text three = lit "hello world!") as Ht by (vm_compute; reflexivity).
  assert (next_actor overwritten = 1%N) as Hn by (vm_compute; reflexivity). rewrite <- Ht, <- Hn.
  apply (reattached_session_overwrites (H:=toy) hash (fun _ => []) default_limits anyone 5 row two (lit "rewritten") overwritten 7
           (enc [(4000%N, lit "!")]) ({[4000%N := lit "!"]} : gmap N str) three).
  - split; vm_compute; reflexivity.
  - vm_compute. reflexivity.
  - exact Er.
  - unfold loaded_doc. rewrite Es. vm_compute. reflexivity.
  - vm_compute. reflexivity.
  - done.
  - done.
  - vm_compute. discriminate.
  - vm_compute. reflexivity.
  - vm_compute. reflexivity.
  - rewrite Ef, Ht. vm_compute. discriminate.
  - done.
Defined.
(** Two first sessions race: the request that loses stores its own document after the other has
    been registered, and the row is no longer of the document that is being edited. *)
Example racing_seeds : let s := run (opened ++ [Meanwhile (OSnapshot 5 (enc [(1001%N, lit "hello")]) [1001])]) start in
  registry s !! 5%N = Some 0%N ∧ d_state <$> rows (world s) !! 5%N = Some (enc [(1001%N, lit "hello")])
  ∧ (fun a => encode_since sv_default (a_doc a)) <$> actors s !! 0%N = Some (enc [(1000%N, lit "hello")]).
Proof. split_and!; vm_compute; reflexivity. Qed.
End Notes.
